(* ===== verification/_CoqProject ===== *)
-Q . S2P
Prelude.v
Util.v
BitMap.v
PrefixBloom.v
RingBuffer.v
Aggregator.v
BlockBuffer.v
IndexWrite.v
MemoryPool.v
PoolRecords.v
IndexBuffer.v
Reader.v
Disk.v
Pipeline.v
Generate.v
Persist.v
QueryTree.v
Querier.v
QueryOutput.v
EndToEnd.v
Controller.v
SkipList.v
SkipOutput.v
SkipListLocked.v
SkipListSpill.v
SkipListRun.v
LegacyIndex.v
ZOrder.v
ZOrderTree.v
FlosisPool.v
FlosisFlow.v
FlosisControl.v
Bloom.v
Tries.v
Storage.v
FileStorage.v
Compressor.v
SkipCompressed.v
SkipTrie.v
SkipSearch.v
DataHandler.v
QueryFill.v
QueryTest.v
Offline.v
BloomTest.v
Dpdk.v
