(* ===== verification/Prelude.v ===== *)
(** * Traffic-database: a verification library

    The program captures packets with DPDK, stores them in a circular disk
    file, indexes their flow metadata per disk block, and answers queries
    over addresses and ports from the indexes and packets on disk.  This
    library models its own C++ code, [src/dpdk_lib] and [src/dpdk_component],
    the comparison system under [src/baseline/flosis] and the programs of the
    offline query experiment under [src/experiment], as executable
    functions, and proves what their parts promise each other.

    ** The program and how its parts interact

    One reader thread per receive queue ([dpdkReader.cpp]) parses each packet
    and copies it, behind a header, into its cell of the shared circular
    buffer of data blocks ([dataBlockbuffer.hpp]); a packet aggregator
    ([packetAggregator.hpp]) gives it the position of the previous packet of
    its flow, and an [Index] with the flow's metadata goes through a ring
    ([singleRingBuffer.hpp]) to an index generator.
    The generator records the metadata in prefix Bloom filters
    ([prefixBloomFilter.hpp]) over a shared bit matrix ([bitMap.hpp]) and in
    memory pools of records ([memoryPool.hpp], [indexMemoryPool.hpp]).  Once
    a disk block is complete, an index persister copies its records to the
    circular buffer of index blocks ([indexBlockBuffer.hpp]), sorts them
    there and notes the region in the table of disk metadata
    ([diskBuffer.hpp]).  Disk managers ([diskManager.cpp]) watch both block
    buffers, write complete blocks through an agent for io_uring
    ([diskAgent.hpp]) and recycle them; memory managers
    ([memoryManager.cpp]) give the packet cells out.  The querier
    ([querier.cpp]) tokenizes and checks an expression, picks disk blocks
    with the Bloom filters, binary-searches their index regions, combines the
    answers and follows the packet chains on disk.  The controller
    ([controller.cpp]) checks the configuration, builds all of these, starts
    the threads and stops them.  Earlier versions of the index kept ordered
    skip lists ([skipList.hpp], [skipListUnlock.hpp]) in the place of the
    memory pools, and searched pairs of addresses with a tree over their
    interleaved bits ([zOrderTree.hpp]).

    The comparison system, Flosis, keeps whole flows in memory: an engine per
    receive queue ([engine.cpp]) appends each packet to the buffers of its
    flow ([flowbuffer.hpp]), which are chains of blocks from one pool
    ([aggBuffer.hpp], [pointerRingPool.hpp]); a flow that is full, idle or
    finished moves to a write buffer ([wbuffer.hpp]) that a dumper
    ([dumper.cpp]) writes to disk.

    For experiments the same disk layout is prepared offline: a data handler
    ([dataHandler.cpp]) links the packets of a capture file and writes them
    with one index record per chain to a block device, and a query program
    ([queryTest.cpp]) builds filters and sorted index parts from the records
    and looks keys up in them.  Another ([bloomTest.cpp]) measures how often
    the filters answer yes wrongly.

    ** Files

    - [Prelude]: outcomes of C++ code ([res]: a value, an exception,
      undefined behaviour, or a busy wait that cannot end in this state),
      machine integers as [Z] with their wrap-around, arrays, little-endian
      bytes, tactics, hint databases and the lemmas the components share.
    - [Util] (dpdk_lib/util.hpp): index types, IPv6 addresses and quadruples
      with every operator, flow metadata, index records.
    - [BitMap] (bitMap.hpp): the matrix on its bytes; invariant [wf],
      abstraction [cell].
    - [PrefixBloom] (prefixBloomFilter.hpp): insertions and queries, the
      matrix threaded through; [hash] is a parameter.
    - [RingBuffer]: module [Spsc] (singleRingBuffer.hpp) with the
      micro-steps of producer and consumer as a step relation, and module
      [Mpmc] (pointerRingBuffer.hpp), the ticketed ring.
    - [Aggregator] (packetAggregator.hpp, tagAggregator.hpp).
    - [BlockBuffer]: module [Data] (dataBlockbuffer.hpp) and module [IndexB]
      (indexBlockBuffer.hpp); [IndexWrite] gives the bytes that a write to
      the index blocks leaves behind.
    - [MemoryPool] (memoryPool.hpp); its module [Indexes]
      (indexMemoryPool.hpp); module [PoolProofs] with the queue of groups
      that a pool implements.  [PoolRecords] reads the pool's bytes as a
      queue of groups of records.
    - [IndexBuffer] (indexBufferWithPool.hpp): the index slots, each with its
      two Bloom filters and six pools, over the shared bit matrix.
    - [Reader] (dpdkReader.cpp, header.hpp): parsing, cell accounting and the
      three writes of a packet, on the shared block buffer.
    - [Disk]: modules [DiskTable] (diskBuffer.hpp), [Agent] (diskAgent.hpp)
      over the class [IoUring], [Manager] (diskManager.cpp) and the memory
      manager.
    - [Pipeline] (indexGenerator.cpp, indexPersister.cpp): modules
      [Generator] and [Persister] with the loops of both threads; [Generate]
      and [Persist] hold their theorems.
    - [QueryTree] (querier.cpp, first part): the tokenizer, the regular
      expressions of the tokens and the two grammar checks.
    - [Querier] (querier.cpp): search, packet reading, evaluation, commands;
      [QueryOutput] the output of an answer to a file, and what else of
      querier.cpp the commands do not reach.
    - [EndToEnd] composes the persister with the querier.
    - [Controller] (controller.cpp, controller.hpp): the stages of [init],
      starting, stopping and deleting.  It is the file that uses every
      component.
    - [SkipList] (skipListUnlock.hpp): nodes on a heap, searches, and the
      list of one thread; [SkipOutput] its destructor and its flat and
      compact outputs.  [SkipListLocked] (skipList.hpp): the list that
      threads fill together; [tstep] is [insert] cut at each access to shared
      memory, [step] lets any thread go on.  [SkipListSpill]: writing this
      list to the index block buffer and clearing it; [SkipListRun]: one
      insertion from its call to its end.  [LegacyIndex] (indexBuffer.hpp):
      the index buffer that kept its records in these lists.
    - [ZOrder], [ZOrderTree] (zOrderTree.hpp): the interleaved keys with
      their operators, and the tree over a sorted array of them.
    - [SkipCompressed] (skipListUnlock.hpp): the two outputs in compressed
      layers; [SkipTrie] the trie that the layers are, on entries instead of
      bytes; [SkipSearch] a reader of these outputs.
    - [Bloom] (bloomFilter.hpp), [Tries] (binaryTree.hpp, TrieTree.hpp): the
      filter and the tries of the experiments.
    - [FlosisPool] (flosis/lib: pointerRingPool.hpp, aggBuffer.hpp): blocks
      and chains of blocks; [FlosisFlow] (flowbuffer.hpp, wbuffer.hpp,
      engine.cpp, dumper.cpp): packets, the table of flows and the write
      buffer; [FlosisControl] (checker.cpp, controller.cpp).

    - [Dpdk] (dpdk.hpp): the network device over an interface for DPDK, with
      the calls made to it; [Controller] takes its constructor as a
      parameter.
    - [Storage] (memoryBuffer.hpp, directStorage.cpp), [FileStorage]
      (fileBuffer.hpp) and [Compressor] (compressor.hpp): buffers of an
      earlier pipeline, which the controller does not build any more.

    - [DataHandler] (experiment/dataHandler.cpp): the block device, the
      packet loop and the files that it reads and writes; [QueryFill] and
      [QueryTest] (experiment/queryTest.cpp): building the index, and the
      lookups and queries; [Offline] composes the two programs.
      [BloomTest] (experiment/bloomTest.cpp): tries of address bytes, entering
      addresses, and the queries that compare filters with tries.

    Definitions keep the names of the functions they translate; an object's
    fields are the fields of a record, a method takes the record and returns
    the changed one, and a pointer into a buffer is an offset.

    ** What the theorems show

    - Bloom filters: what was inserted is found again, by value and by
      prefix, as long as its column is not cleared; insertions stay inside
      the matrix; the bit matrix is a set of cells.
    - Rings: bounded first-in first-out queues, also under every interleaving
      of one producer and one consumer.
    - Block buffers: a write touches only blocks that belong to the written
      positions; the release test means that every writer has passed the
      block; recycling reaches every later position of a block; the
      checking threads split the blocks between them exactly when their
      number divides the number of blocks; sorting a region, wrapped or not,
      gives the sorted records.
    - Memory pools: a pool is a queue of groups of records; allocation never
      hands out a record in use, and the group that takes the last free node
      makes the list of nodes look empty; lengths of groups; recycling; an
      inserted record is appended to the newest group, and copying a group to
      a ring of bytes gives its records in order.
    - Indexing: inserting the index of a flow puts its record in the right
      pools and its keys in the filters; a generator that is stopped empties
      its rings and ends, if the pools have room; the persister leaves, for
      each kind of key, the sorted records of the block in the index blocks
      and their region in the disk's table, for a block whose records came to
      each pool in one run.
    - End to end: [getOffsetList], reading from the disk a region that the
      persister wrote, finds exactly the flows of the block with that key, for
      IPv4 addresses and ports; the querier searches the regions of IPv6
      addresses as if they were ports.
    - Reader: layout of a stored packet, cell accounting, parsed metadata,
      links between packets of a flow.
    - Disk: what a manager records and writes for a released block, what an
      agent reads, what happens at the agent's bounds and on a failed
      completion.
    - Controller: a configuration whose sizes and counts fit is accepted, and
      then the invariants of all parts hold, thread numbers are those that
      the shared structures gave out, and agents and rings each have one
      owner; the areas of data and indexes do not overlap on a shared disk;
      threads stop downstream, each joined once.
    - Network device: DPDK is called in the order it asks for, whatever its
      functions answer, and packets are only requested from queues that are
      set up; the list of cores can be read back.
    - Skip lists: whatever heights chance gives the towers, the list is a
      sorted multimap; so it is after any interleaving of threads that insert
      with per-node locks and a compare-and-swap on the level, where no
      thread uses an invalid pointer, none waits for ever and every
      schedule ends (each access is one atomic step, also the reads without
      a lock, which in C++ race with the writes); the flat and the compact output can be read back, and the
      tries of the compressed outputs lead every key to its first value, if
      the padding in long keys is zero;
      writing out loses nothing that the buffer accepts, and clearing leaves
      an empty list.  The index buffer with skip lists is a table of the
      flows indexed since a slot was taken over.
    - Z-order tree: a search returns exactly the entries inside the bounds,
      digit by digit, and so everything in an aligned square and nothing
      outside the rectangle.
    - Bloom filter and tries: which elements the filter answers yes for; both
      tries hold the same lists of values, one per prefix of a key.
    - Flosis: with enough free blocks the engine never stops, and every
      packet of every flow is in the buffers, in order; what the controller
      builds, and that its destruction after a run deletes everything once or
      is undefined, which depends on flows that are left in an engine.
    - Earlier storage: a memory buffer whose storage thread keeps up, and a
      mapped file, are logs of what was written to them, when no write is cut
      at the end of a block; [stream_append] says what the code repeats and
      loses there; a compressed packet is a sequence of literals and
      references that can be parsed again, and what a reference points to
      agrees with the packet in the bytes that the code compares.
    - Offline programs: the links and index records that the data handler
      leaves on the device; the chains of links split the packets; the
      experiment's index holds, per disk block and type, the sorted records
      of the block; a lookup finds all records with a key; and both programs
      together count, for every port and address, exactly the packets that
      carry it, when the query program is compiled with the size of the index
      that the data handler wrote.
    - Filter experiment: entering addresses reports no error, the tries
      contain exactly the prefixes entered, and the filters have no false
      negatives, but for the prefixes of one byte that are never entered
      into the plain filters.
    - Queries: tokens of an expression, expressions that pass the checks
      evaluate without popping an empty stack, binary search finds exactly
      the records of a key, answers are combined as sorted multisets, chains
      of packets that each lie inside one cell are followed to their end.

    Several theorems state behaviour that the code surely does not intend;
    they are named after what happens (for example
    [swap_endianness_ignores_bytes]).

    ** Bounds and fuel

    Loops whose length is known recurse on it.  Elsewhere fuel is the length
    of what is walked over: the number of records for a binary search, of
    list nodes for a memory pool, of heap nodes for a skip list, of characters
    for an expression; a thread in the locked skip list is run for
    [step_bound] steps, which its levels and nodes bound.  The
    theorems show that it suffices, since they state the [Ok] result.  A
    busy wait gives [Blocks] when its exit condition is false; where another
    thread can make it true, that thread's effect is an input of the model.
    Hypotheses such as [capacity p < 2 ^ 62] keep products of sizes away from
    the machine-word limit; the definitions themselves wrap around.

    ** Parameters

    Outside code is a parameter: the Bloom filters' hash function,
    [std::sort], the interfaces of io_uring and DPDK, the iteration order of
    hash tables, and the contents of memory that the program does not
    initialise.  The constant INDEX_SIZE of the experiments is an argument of
    [fill]; [QueryFill.INDEX_SIZE] is the value in the source.  What the random source draws, the value of a loop variable
    that is not initialised, which files can be opened and mapped, the
    addresses that an allocator returns and what [rand] gives are arguments;
    the skip lists' theorems assume that [rand] does not return 0, for which
    their [randomLevel] is undefined.

    ** Not modelled

    Thread-affinity code, printing and time measurement. Of the earlier
    pipeline indexStorage.cpp, which calls methods that no class has and so
    cannot be compiled; littleHeap.hpp, an empty class. The kernel program
    bpf/tag.c, which is C against kernel helpers; the remaining measurement
    drivers under experiment/ and the entry point of the comparison system. *)
From Stdlib Require Import ZArith Lia.
From stdpp Require Export base numbers list gmap.
#[global] Open Scope Z_scope.

(** ** Outcomes of C++ code

    [Ok a] is a normal return, [Throws] a thrown exception, [Undef] undefined
    behaviour (an index outside an array, a null dereference, a division by
    zero), [Blocks] a busy-wait loop whose exit condition is false in this
    state. *)
Inductive res (A : Type) : Type :=
| Ok (a : A)
| Throws
| Undef
| Blocks.
Arguments Ok {A} a.
Arguments Throws {A}.
Arguments Undef {A}.
Arguments Blocks {A}.

#[export] Instance res_ret : MRet res := fun A a => Ok a.
#[export] Instance res_bind : MBind res := fun A B f m =>
  match m with Ok a => f a | Throws => Throws | Undef => Undef | Blocks => Blocks end.
#[export] Instance res_fmap : FMap res := fun A B f m =>
  match m with Ok a => Ok (f a) | Throws => Throws | Undef => Undef | Blocks => Blocks end.

Definition is_Ok {A} (m : res A) : bool :=
  match m with Ok _ => true | _ => false end.

Definition from_res {A} (d : A) (m : res A) : A :=
  match m with Ok a => a | _ => d end.

(** ** Machine integers: the value kept, the wrap-around written out *)
Definition wrap (w z : Z) : Z := z mod 2 ^ w.
Definition u64 (z : Z) : Z := wrap 64 z.
Definition u32 (z : Z) : Z := wrap 32 z.
Definition u16 (z : Z) : Z := wrap 16 z.
Definition u8 (z : Z) : Z := wrap 8 z.
(** Conversion to a signed 32-bit [int]. *)
Definition i32 (z : Z) : Z :=
  let r := wrap 32 z in if r <? 2 ^ 31 then r else r - 2 ^ 32.
(** Conversion to a signed 64-bit [long]. *)
Definition i64 (z : Z) : Z :=
  let r := wrap 64 z in if r <? 2 ^ 63 then r else r - 2 ^ 64.
Definition MAX64 : Z := 2 ^ 64 - 1.
Definition MAX32 : Z := 2 ^ 32 - 1.
Definition MAX8 : Z := 2 ^ 8 - 1.
Definition is_u (w z : Z) : Prop := 0 <= z < 2 ^ w.

(** ** Arrays: lists read and written at a [Z] index *)
Definition zlen {A} (l : list A) : Z := Z.of_nat (length l).

Definition zget {A} (l : list A) (i : Z) : res A :=
  if i <? 0 then Undef
  else match l !! Z.to_nat i with Some a => Ok a | None => Undef end.

Definition zset {A} (l : list A) (i : Z) (x : A) : res (list A) :=
  if (i <? 0) || (zlen l <=? i) then Undef else Ok (<[Z.to_nat i := x]> l).

(** [n] elements of [l] from index [off]. *)
Definition zslice {A} (off n : Z) (l : list A) : list A :=
  take (Z.to_nat n) (drop (Z.to_nat off) l).

(** [l] with the elements from index [off] on replaced by [src]. *)
Definition zsplice {A} (off : Z) (src l : list A) : list A :=
  take (Z.to_nat off) l ++ src ++ drop (Z.to_nat off + length src) l.

(** [memcpy(dst + doff, src + soff, n)]: both ranges must lie inside their
    buffers. *)
Definition memcpy {A} (dst : list A) (doff : Z) (src : list A) (soff n : Z)
  : res (list A) :=
  if (0 <=? n) && (0 <=? doff) && (doff + n <=? zlen dst)
     && (0 <=? soff) && (soff + n <=? zlen src)
  then Ok (zsplice doff (zslice soff n src) dst)
  else Undef.

(** Reading [n] bytes out of a buffer (the source side of a [memcpy]). *)
Definition zread {A} (src : list A) (soff n : Z) : res (list A) :=
  if (0 <=? n) && (0 <=? soff) && (soff + n <=? zlen src)
  then Ok (zslice soff n src) else Undef.

(** ** Little-endian bytes *)
Fixpoint le_bytes (n : nat) (z : Z) : list Z :=
  match n with
  | O => []
  | S n => z mod 256 :: le_bytes n (z / 256)
  end.

Fixpoint le_val (l : list Z) : Z :=
  match l with
  | [] => 0
  | b :: l => b + 256 * le_val l
  end.

(** The integers [0 .. n-1]. *)
Definition zseq (n : Z) : list Z := Z.of_nat <$> seq 0 (Z.to_nat n).

(** ** Tactics *)

(** Case analysis on every monadic step of a hypothesis that ends in [Ok]. *)
Ltac res_inv :=
  repeat match goal with
  | H : Ok _ = Ok _ |- _ => simplify_eq H
  | H : Throws = Ok _ |- _ => discriminate H
  | H : Undef = Ok _ |- _ => discriminate H
  | H : Blocks = Ok _ |- _ => discriminate H
  | H : mret _ = Ok _ |- _ => unfold mret, res_ret in H
  | H : mbind _ ?m = Ok _ |- _ =>
      let E := fresh "E" in
      destruct m eqn:E; cbn [mbind res_bind] in H
  | H : fmap _ ?m = Ok _ |- _ =>
      let E := fresh "E" in
      destruct m eqn:E; cbn [fmap res_fmap] in H
  end.

(** Case analysis on the first test the goal or a hypothesis is stuck on. *)
Ltac case_test :=
  match goal with
  | |- context [if ?b then _ else _] => let E := fresh "E" in destruct b eqn:E
  | H : context [if ?b then _ else _] |- _ =>
      let E := fresh "E" in destruct b eqn:E
  end.

(** Boolean comparisons on [Z] to propositions, then [lia]. *)
Ltac zbool :=
  repeat match goal with
  | H : (_ && _) = true |- _ => apply andb_true_iff in H as [??]
  | H : (_ || _) = false |- _ => apply orb_false_iff in H as [??]
  | H : negb _ = true |- _ => apply negb_true_iff in H
  | H : negb _ = false |- _ => apply negb_false_iff in H
  | H : (_ <? _) = true |- _ => apply Z.ltb_lt in H
  | H : (_ <? _) = false |- _ => apply Z.ltb_ge in H
  | H : (_ <=? _) = true |- _ => apply Z.leb_le in H
  | H : (_ <=? _) = false |- _ => apply Z.leb_gt in H
  | H : (_ =? _) = true |- _ => apply Z.eqb_eq in H
  | H : (_ =? _) = false |- _ => apply Z.eqb_neq in H
  end.
Ltac zlia := zbool; lia.

Create HintDb traffic discriminated.
Create Rewrite HintDb traffic_rw.

(** ** Lemmas on outcomes *)
Lemma bind_Ok_iff {A B} (m : res A) (f : A -> res B) (b : B) :
  (m ≫= f) = Ok b <-> exists a, m = Ok a /\ f a = Ok b.
Proof.
  split; [intros H; res_inv; eauto|].
  intros (a & -> & H); exact H.
Qed.

Lemma mapM_spec {A B} (P : A -> B -> Prop) (f : A -> res B) l :
  (forall x, x ∈ l -> exists y, f x = Ok y /\ P x y) -> exists k, mapM f l = Ok k /\ Forall2 P l k.
Proof.
  induction l as [|x l IH]; intros H.
  { exists []. split; [done|constructor]. }
  destruct (H x) as (y & E & Hy); [left|]. destruct IH as (k & Ek & Hk).
  { intros z Hz. apply H. by right. }
  exists (y :: k). split; [|by constructor]. cbn [mapM]. by rewrite E; cbn [mbind res_bind]; rewrite Ek.
Qed.

Lemma mapM_pure {A B} (f : A -> res B) (g : A -> B) l :
  (forall x, x ∈ l -> f x = Ok (g x)) -> mapM f l = Ok (g <$> l).
Proof.
  induction l as [|x l IH]; intros H; [done|]. cbn [mapM]. rewrite H by left. cbn [mbind res_bind].
  rewrite IH; [done|]. intros y Hy. apply H. by right.
Qed.

Lemma mapM_Ok_inv {A B} (f : A -> res B) l k :
  mapM f l = Ok k -> Forall2 (fun x y => f x = Ok y) l k.
Proof.
  revert k. induction l as [|x l IH]; intros k H; cbn [mapM] in H.
  - injection H as <-. constructor.
  - apply bind_Ok_iff in H as (y & Hy & H). apply bind_Ok_iff in H as (k' & Hk & H).
    injection H as <-. constructor; auto.
Qed.

Lemma is_Ok_iff {A} (m : res A) : is_Ok m = true <-> exists a, m = Ok a.
Proof. destruct m; simpl; split; try (intros [? [=]]); eauto; discriminate. Qed.

(** ** Lemmas on machine integers *)
Lemma wrap_small w z : is_u w z -> wrap w z = z.
Proof. intros H. apply Z.mod_small, H. Qed.

Lemma wrap_range w z : 0 <= w -> is_u w (wrap w z).
Proof. intros H. apply Z.mod_pos_bound. lia. Qed.

Lemma wrap_wrap w z : 0 <= w -> wrap w (wrap w z) = wrap w z.
Proof. intros H. apply wrap_small, wrap_range, H. Qed.

Lemma u64_small z : 0 <= z < 2 ^ 64 -> u64 z = z.
Proof. apply wrap_small. Qed.
Lemma u32_small z : 0 <= z < 2 ^ 32 -> u32 z = z.
Proof. apply wrap_small. Qed.
Lemma u16_small z : 0 <= z < 2 ^ 16 -> u16 z = z.
Proof. apply wrap_small. Qed.
Lemma u8_small z : 0 <= z < 2 ^ 8 -> u8 z = z.
Proof. apply wrap_small. Qed.
Lemma i32_small z : 0 <= z < 2 ^ 31 -> i32 z = z.
Proof.
  intros H. unfold i32. rewrite wrap_small by (unfold is_u; lia).
  case_test; zlia.
Qed.
Lemma u64_range z : 0 <= u64 z < 2 ^ 64.
Proof. apply (wrap_range 64). lia. Qed.
Lemma u32_range z : 0 <= u32 z < 2 ^ 32.
Proof. apply (wrap_range 32). lia. Qed.
Lemma u8_range z : 0 <= u8 z < 2 ^ 8.
Proof. apply (wrap_range 8). lia. Qed.

(** ** Lemmas on arrays *)
Lemma zlen_nonneg {A} (l : list A) : 0 <= zlen l.
Proof. unfold zlen. lia. Qed.
Lemma zlen_app {A} (l k : list A) : zlen (l ++ k) = zlen l + zlen k.
Proof. unfold zlen. rewrite length_app. lia. Qed.
Lemma zlen_cons {A} (a : A) l : zlen (a :: l) = 1 + zlen l.
Proof. unfold zlen. simpl length. lia. Qed.
Lemma zlen_replicate {A} n (a : A) : zlen (replicate n a) = Z.of_nat n.
Proof. unfold zlen. by rewrite length_replicate. Qed.
Lemma zlen_zseq n : 0 <= n -> zlen (zseq n) = n.
Proof. intros. unfold zlen, zseq. rewrite length_fmap, length_seq. lia. Qed.

Lemma zget_Ok {A} (l : list A) i a :
  zget l i = Ok a <-> 0 <= i /\ l !! Z.to_nat i = Some a.
Proof.
  unfold zget. case_test; zbool.
  - split; [discriminate|lia].
  - destruct (l !! Z.to_nat i); naive_solver.
Qed.

Lemma zget_lt {A} (l : list A) i :
  0 <= i < zlen l -> exists a, zget l i = Ok a.
Proof.
  intros H. destruct (lookup_lt_is_Some_2 l (Z.to_nat i)) as [a Ha].
  { unfold zlen in H. lia. }
  exists a. apply zget_Ok. split; [lia|done].
Qed.

Lemma zget_range {A} (l : list A) i a : zget l i = Ok a -> 0 <= i < zlen l.
Proof.
  intros [H1 H2]%zget_Ok. apply lookup_lt_Some in H2. unfold zlen. lia.
Qed.

Lemma zget_app {A} (l k : list A) i x : zget l i = Ok x -> zget (l ++ k) i = Ok x.
Proof.
  rewrite !zget_Ok. intros [? Hl]. split; [done|]. by apply lookup_app_l_Some.
Qed.

Lemma zget_replicate {A} (n : nat) (x : A) i :
  0 <= i < Z.of_nat n -> zget (replicate n x) i = Ok x.
Proof.
  intros Hi. apply zget_Ok. split; [lia|]. apply lookup_replicate_2. lia.
Qed.

Lemma zget_snoc {A} (l : list A) x : zget (l ++ [x]) (zlen l) = Ok x.
Proof.
  apply zget_Ok. split; [apply zlen_nonneg|]. unfold zlen. rewrite Nat2Z.id.
  rewrite lookup_app_r by lia. by rewrite Nat.sub_diag.
Qed.

Lemma zset_Ok {A} (l : list A) i x :
  0 <= i < zlen l -> zset l i x = Ok (<[Z.to_nat i := x]> l).
Proof. intros H. unfold zset. case_test; [|done]. apply orb_true_iff in E as []; zlia. Qed.

Lemma zset_inv {A} (l l' : list A) i x :
  zset l i x = Ok l' -> 0 <= i < zlen l /\ l' = <[Z.to_nat i := x]> l.
Proof. unfold zset. case_test; [done|]. intros [= <-]. split; [zlia|done]. Qed.

Lemma zset_snoc {A} (l : list A) x y : zset (l ++ [x]) (zlen l) y = Ok (l ++ [y]).
Proof.
  unfold zset. rewrite zlen_app. replace (_ || _) with false.
  - unfold zlen. rewrite Nat2Z.id. by rewrite insert_app_r_alt, Nat.sub_diag by lia.
  - symmetry. apply orb_false_iff. rewrite Z.ltb_ge, Z.leb_gt. unfold zlen. simpl. lia.
Qed.

Lemma zlen_insert {A} (l : list A) i x : zlen (<[i := x]> l) = zlen l.
Proof. unfold zlen. by rewrite length_insert. Qed.

Lemma zget_insert_eq {A} (l : list A) i x :
  0 <= i < zlen l -> zget (<[Z.to_nat i := x]> l) i = Ok x.
Proof.
  intros H. apply zget_Ok. split; [lia|].
  apply list_lookup_insert_eq. unfold zlen in H. lia.
Qed.

Lemma zget_insert_ne {A} (l : list A) i j x :
  0 <= i -> i <> j -> zget (<[Z.to_nat i := x]> l) j = zget l j.
Proof.
  intros Hi Hne. unfold zget. case_test; [done|]. zbool.
  rewrite list_lookup_insert_ne by lia. done.
Qed.

Lemma zlen_zslice {A} off n (l : list A) :
  0 <= off -> 0 <= n -> off + n <= zlen l -> zlen (zslice off n l) = n.
Proof. intros. unfold zlen, zslice in *. rewrite length_take, length_drop. lia. Qed.

Lemma zlen_zsplice {A} off (src l : list A) :
  0 <= off -> off + zlen src <= zlen l -> zlen (zsplice off src l) = zlen l.
Proof.
  intros. unfold zlen, zsplice in *.
  rewrite !length_app, length_take, length_drop. lia.
Qed.

Lemma zslice_zsplice_same {A} off (src l : list A) :
  0 <= off -> off + zlen src <= zlen l ->
  zslice off (zlen src) (zsplice off src l) = src.
Proof.
  intros. unfold zslice, zsplice, zlen in *.
  rewrite drop_app_length' by (rewrite length_take; lia).
  by rewrite take_app_length' by lia.
Qed.

Lemma lookup_zsplice {A} off (src l : list A) (j : nat) :
  0 <= off -> off + zlen src <= zlen l ->
  zsplice off src l !! j =
    if decide (off <= Z.of_nat j < off + zlen src)
    then src !! (j - Z.to_nat off)%nat else l !! j.
Proof.
  intros. unfold zsplice, zlen in *. case_decide.
  - rewrite lookup_app_r by (rewrite length_take; lia).
    rewrite length_take, lookup_app_l by lia. f_equal. lia.
  - destruct (decide (Z.of_nat j < off)).
    + rewrite lookup_app_l by (rewrite length_take; lia).
      rewrite lookup_take_lt by lia. done.
    + rewrite lookup_app_r by (rewrite length_take; lia).
      rewrite lookup_app_r by (rewrite length_take; lia).
      rewrite lookup_drop, length_take. f_equal. lia.
Qed.

Lemma lookup_zslice {A} off n (l : list A) (j : nat) :
  zslice off n l !! j =
    if decide (Z.of_nat j < n) then l !! (Z.to_nat off + j)%nat else None.
Proof.
  unfold zslice. case_decide.
  - rewrite lookup_take_lt by lia. apply lookup_drop.
  - apply lookup_take_ge. lia.
Qed.

Lemma zslice_zsplice_disjoint {A} off (src l : list A) o n :
  0 <= off -> off + zlen src <= zlen l -> 0 <= o ->
  o + n <= off \/ off + zlen src <= o ->
  zslice o n (zsplice off src l) = zslice o n l.
Proof.
  intros. apply list_eq. intros j. rewrite !lookup_zslice.
  case_decide; [|done]. rewrite lookup_zsplice by done.
  case_decide; [lia|done].
Qed.

Lemma memcpy_Ok {A} (dst : list A) doff src soff n :
  0 <= n -> 0 <= doff -> doff + n <= zlen dst ->
  0 <= soff -> soff + n <= zlen src ->
  memcpy dst doff src soff n = Ok (zsplice doff (zslice soff n src) dst).
Proof.
  intros. unfold memcpy.
  replace (_ && _) with true; [done|]. symmetry.
  rewrite !andb_true_iff, !Z.leb_le. lia.
Qed.

Lemma memcpy_inv {A} (dst dst' : list A) doff src soff n :
  memcpy dst doff src soff n = Ok dst' ->
  0 <= n /\ 0 <= doff /\ doff + n <= zlen dst /\
  0 <= soff /\ soff + n <= zlen src /\
  dst' = zsplice doff (zslice soff n src) dst.
Proof. unfold memcpy. case_test; [|done]. intros [= <-]. zbool. tauto. Qed.

Lemma zread_Ok {A} (src : list A) soff n :
  0 <= n -> 0 <= soff -> soff + n <= zlen src ->
  zread src soff n = Ok (zslice soff n src).
Proof.
  intros. unfold zread.
  replace (_ && _) with true; [done|]. symmetry.
  rewrite !andb_true_iff, !Z.leb_le. lia.
Qed.

Lemma zslice_full {A} (l : list A) n : n = zlen l -> zslice 0 n l = l.
Proof. intros ->. unfold zslice, zlen. rewrite drop_0. apply take_ge. lia. Qed.

Lemma zslice_app {A} o m n (l : list A) :
  0 <= o -> 0 <= m -> 0 <= n -> zslice o (m + n) l = zslice o m l ++ zslice (o + m) n l.
Proof.
  intros. unfold zslice. replace (Z.to_nat (m + n)) with (Z.to_nat m + Z.to_nat n)%nat by lia.
  replace (Z.to_nat (o + m)) with (Z.to_nat o + Z.to_nat m)%nat by lia.
  rewrite <-drop_drop. rewrite <-(take_drop (Z.to_nat m) (take _ (drop (Z.to_nat o) l))).
  rewrite take_take, skipn_firstn_comm. f_equal; f_equal; lia.
Qed.

Lemma zslice_zslice {A} a m b n (l : list A) :
  0 <= a -> 0 <= b -> a + m <= n -> zslice a m (zslice b n l) = zslice (b + a) m l.
Proof.
  intros. apply list_eq. intros j. rewrite !lookup_zslice. case_decide; [|done].
  rewrite decide_True by lia. f_equal. lia.
Qed.

Lemma take_zslice {A} k o n (l : list A) :
  0 <= k <= n -> take (Z.to_nat k) (zslice o n l) = zslice o k l.
Proof. intros. unfold zslice. rewrite take_take. f_equal. lia. Qed.

Lemma drop_zslice {A} k o n (l : list A) :
  0 <= k <= n -> 0 <= o -> drop (Z.to_nat k) (zslice o n l) = zslice (o + k) (n - k) l.
Proof.
  intros. unfold zslice. rewrite skipn_firstn_comm, drop_drop. f_equal; [|f_equal]; lia.
Qed.

Lemma elem_of_zseq n i : i ∈ zseq n <-> 0 <= i < n.
Proof.
  unfold zseq. rewrite list_elem_of_fmap. split.
  - intros (k & -> & Hk%elem_of_seq). lia.
  - intros H. exists (Z.to_nat i). rewrite elem_of_seq. lia.
Qed.

Lemma zseq_S n : 0 <= n -> zseq (n + 1) = zseq n ++ [n].
Proof.
  intros. unfold zseq. replace (Z.to_nat (n + 1)) with (S (Z.to_nat n)) by lia.
  rewrite seq_S, fmap_app. simpl. do 2 f_equal. lia.
Qed.

Lemma NoDup_zseq n : NoDup (zseq n).
Proof. unfold zseq. apply (NoDup_fmap_2 _), NoDup_seq. Qed.
Lemma zseq_head n : 0 < n -> zseq n = 0 :: (Z.add 1 <$> zseq (n - 1)).
Proof.
  intros. unfold zseq. replace (Z.to_nat n) with (S (Z.to_nat (n - 1))) by lia.
  simpl. f_equal. rewrite <-seq_shift, <-!list_fmap_compose. apply list_fmap_ext.
  intros. simpl. lia.
Qed.

Lemma filter_every {A} (P : A -> Prop) `{!forall x, Decision (P x)} (l : list A) :
  (forall x, x ∈ l -> P x) -> filter P l = l.
Proof.
  induction l as [|x l IH]; intros Hl; [done|]. rewrite filter_cons_True by (apply Hl; by left).
  f_equal. apply IH. intros y Hy. apply Hl. by right.
Qed.

Lemma filter_none {A} (P : A -> Prop) `{!forall x, Decision (P x)} (l : list A) :
  (forall x, x ∈ l -> ~ P x) -> filter P l = [].
Proof.
  induction l as [|x l IH]; intros Hn; [done|]. rewrite filter_cons_False.
  - apply IH. intros y Hy. apply Hn. by right.
  - apply Hn. by left.
Qed.

(** ** Lemmas on little-endian bytes *)
Lemma length_le_bytes n z : length (le_bytes n z) = n.
Proof. revert z. induction n; intros; simpl; auto. Qed.

Lemma zlen_le_bytes n z : zlen (le_bytes n z) = Z.of_nat n.
Proof. unfold zlen. by rewrite length_le_bytes. Qed.

Lemma le_val_le_bytes n z :
  0 <= z < 2 ^ (8 * Z.of_nat n) -> le_val (le_bytes n z) = z.
Proof.
  revert z. induction n as [|n IH]; intros z Hz; cbn [le_bytes le_val].
  - change (2 ^ (8 * Z.of_nat 0)) with 1 in Hz. lia.
  - replace (8 * Z.of_nat (S n)) with (8 * Z.of_nat n + 8) in Hz by lia.
    rewrite Z.pow_add_r in Hz by lia. change (2 ^ 8) with 256 in Hz.
    rewrite IH.
    + rewrite (Z.div_mod z 256) at 3 by lia. lia.
    + split; [apply Z.div_pos; lia|]. apply Z.div_lt_upper_bound; lia.
Qed.

Lemma le_bytes_inj n z z' :
  0 <= z < 2 ^ (8 * Z.of_nat n) -> 0 <= z' < 2 ^ (8 * Z.of_nat n) ->
  le_bytes n z = le_bytes n z' -> z = z'.
Proof.
  intros H H' E. rewrite <-(le_val_le_bytes n z), <-(le_val_le_bytes n z') by done.
  by rewrite E.
Qed.

Lemma le_bytes_range n z : Forall (fun b => 0 <= b < 256) (le_bytes n z).
Proof.
  revert z. induction n; intros; simpl; constructor; auto.
  apply Z.mod_pos_bound. lia.
Qed.

Lemma le_bytes_le_val l :
  Forall (fun b => 0 <= b < 256) l -> le_bytes (length l) (le_val l) = l.
Proof.
  induction 1 as [|b l Hb _ IH]; [done|]. cbn [length le_bytes le_val].
  rewrite (Z.mul_comm 256), Z.mod_add by lia.
  rewrite Z.div_add, (Z.div_small b) by lia.
  rewrite Z.mod_small by lia. rewrite Z.add_0_l. by f_equal.
Qed.

Lemma le_val_app a b : le_val (a ++ b) = le_val a + 2 ^ (8 * zlen a) * le_val b.
Proof.
  induction a as [|x a IH]; cbn [le_val app].
  - change (zlen []) with 0. lia.
  - rewrite IH, zlen_cons. replace (8 * (1 + zlen a)) with (8 + 8 * zlen a) by lia.
    rewrite Z.pow_add_r by (pose proof (zlen_nonneg a); lia). change (2 ^ 8) with 256. lia.
Qed.

Lemma le_val_range l : Forall (fun b => 0 <= b < 256) l -> 0 <= le_val l < 2 ^ (8 * zlen l).
Proof.
  induction 1 as [|b l Hb _ IH]; [done|]. cbn [le_val]. rewrite zlen_cons.
  replace (8 * (1 + zlen l)) with (8 + 8 * zlen l) by lia.
  rewrite Z.pow_add_r by (pose proof (zlen_nonneg l); lia). change (2 ^ 8) with 256. lia.
Qed.

Lemma le_val_word n l : Forall (is_u 8) l -> zlen l = Z.of_nat n -> is_u (8 * Z.of_nat n) (le_val l).
Proof. intros Hl <-. by apply le_val_range. Qed.

(** ** Circles: positions of a list of length [n] modulo [n] *)
Lemma mod_inj n a i j : 0 <= i < n -> 0 <= j < n -> (a + i) mod n = (a + j) mod n -> i = j.
Proof.
  intros Hi Hj E. assert (Hd : (i - j) mod n = 0).
  { replace (i - j) with ((a + i) - (a + j)) by lia. rewrite Zminus_mod, E, Z.sub_diag.
    apply Z.mod_0_l. lia. }
  apply Z.mod_divide in Hd as [q Hq]; [|lia]. assert (q = 0) by nia. lia.
Qed.

(** Setting the place of position [i], among the positions [a .. a + n - 1]. *)
Lemma circle_set {A} n (l : list A) a i v :
  zlen l = n -> a <= i < a + n ->
  exists l', zset l (i mod n) v = Ok l' /\ zlen l' = n /\
    forall k, a <= k < a + n -> zget l' (k mod n) = if decide (k = i) then Ok v else zget l (k mod n).
Proof.
  intros Hl Hi. pose proof (Z.mod_pos_bound i n ltac:(lia)).
  eexists. split; [apply zset_Ok; lia|]. split; [by rewrite zlen_insert|].
  intros k Hk. case_decide as E; [subst k; apply zget_insert_eq; lia|].
  apply zget_insert_ne; [lia|]. intros E'. apply E.
  enough (k - a = i - a) by lia. apply (mod_inj n a); [lia|lia|].
  by rewrite !Zplus_minus.
Qed.

#[export] Hint Rewrite @zlen_app @zlen_cons @zlen_replicate @zlen_insert
  zlen_le_bytes length_le_bytes : traffic_rw.
#[export] Hint Resolve u64_range u32_range u8_range le_bytes_range
  zlen_nonneg : traffic.
