(* ===== verification/Util.v ===== *)
(** * Keys and index records (dpdk_lib/util.hpp, dpdk_lib/packetAggregator.hpp)

    The key types of the indexes (u_int16_t and u_int32_t as [Z], [IPv6Address],
    [QuarTurpleIPv4], [QuarTurpleIPv6]) with the comparison operators of their
    structs, the interface [CppKey] under which the searching and sorting code
    is generic in the key type, and the [FlowMetadata] and [Index] records that
    the pipeline passes around. *)
From S2P Require Import Prelude.
From Stdlib Require Import ZArith Lia Bool.

(** ** Index types *)
Inductive IndexType :=
| SRCIP | DSTIP | SRCPORT | DSTPORT | SRCIPv6 | DSTIPv6 | TOTAL_INDEX.

#[export] Instance IndexType_eq_dec : EqDecision IndexType.
Proof. solve_decision. Defined.

(** The enumerator's integer value. *)
Definition index_type_code (t : IndexType) : Z :=
  match t with
  | SRCIP => 0 | DSTIP => 1 | SRCPORT => 2 | DSTPORT => 3
  | SRCIPv6 => 4 | DSTIPv6 => 5 | TOTAL_INDEX => 6
  end.

Definition INDEX_NUM : Z := index_type_code TOTAL_INDEX.

(** [sizeof] of the key of each index; the last two are the quadruple types
    (the IPv6 one padded to a multiple of 8). *)
Definition flowMetaEleLens : list Z := [4; 4; 2; 2; 16; 16; 12; 40].

(** ** IPv6 addresses *)
Record IPv6Address := mkIPv6 { low : Z; high : Z }.

#[export] Instance IPv6Address_eq_dec : EqDecision IPv6Address.
Proof. solve_decision. Defined.

Definition ipv6_wf (a : IPv6Address) : Prop := is_u 64 (low a) /\ is_u 64 (high a).

Definition ipv6_lt (a b : IPv6Address) : bool :=
  if high a <? high b then true
  else if high b <? high a then false
  else low a <? low b.

Definition ipv6_gt (a b : IPv6Address) : bool :=
  if high b <? high a then true
  else if high a <? high b then false
  else low b <? low a.

Definition ipv6_eq (a b : IPv6Address) : bool :=
  (high a =? high b) && (low a =? low b).
Definition ipv6_ne (a b : IPv6Address) : bool := negb (ipv6_eq a b).
Definition ipv6_le (a b : IPv6Address) : bool := negb (ipv6_gt a b).
Definition ipv6_ge (a b : IPv6Address) : bool := negb (ipv6_lt a b).

(** [operator>>]: the four branches of the source. *)
Definition ipv6_shr (a : IPv6Address) (shift : Z) : IPv6Address :=
  if shift =? 0 then a
  else if shift <? 64 then
    {| low := Z.lor (Z.shiftr (low a) shift) (u64 (Z.shiftl (high a) (64 - shift)));
       high := Z.shiftr (high a) shift |}
  else if shift <? 128 then
    {| low := Z.shiftr (high a) (shift - 64); high := 0 |}
  else {| low := 0; high := 0 |}.

(** The bytes of the struct: [low] then [high], little-endian. *)
Definition ipv6_bytes (a : IPv6Address) : list Z :=
  le_bytes 8 (low a) ++ le_bytes 8 (high a).

(** The 128-bit number an address stands for. *)
Definition ipv6_num (a : IPv6Address) : Z := high a * 2 ^ 64 + low a.

(** ** Quadruples *)
Record QuarTurpleIPv4 := mkQuar4 { q4_dstport : Z; q4_srcport : Z; q4_dstip : Z; q4_srcip : Z }.

Definition quar4_lt (a b : QuarTurpleIPv4) : bool :=
  if q4_srcip a <? q4_srcip b then true
  else if q4_srcip b <? q4_srcip a then false
  else if q4_dstip a <? q4_dstip b then true
  else if q4_dstip b <? q4_dstip a then false
  else if q4_srcport a <? q4_srcport b then true
  else if q4_srcport b <? q4_srcport a then false
  else q4_dstport a <? q4_dstport b.

Definition quar4_gt (a b : QuarTurpleIPv4) : bool :=
  if q4_srcip b <? q4_srcip a then true
  else if q4_srcip a <? q4_srcip b then false
  else if q4_dstip b <? q4_dstip a then true
  else if q4_dstip a <? q4_dstip b then false
  else if q4_srcport b <? q4_srcport a then true
  else if q4_srcport a <? q4_srcport b then false
  else q4_dstport b <? q4_dstport a.

Definition quar4_eq (a b : QuarTurpleIPv4) : bool :=
  (q4_srcip a =? q4_srcip b) && (q4_dstip a =? q4_dstip b)
  && (q4_srcport a =? q4_srcport b) && (q4_dstport a =? q4_dstport b).

Record QuarTurpleIPv6 :=
  mkQuar6 { q6_dstport : Z; q6_srcport : Z; q6_dstip : IPv6Address; q6_srcip : IPv6Address }.

Definition quar6_lt (a b : QuarTurpleIPv6) : bool :=
  if ipv6_lt (q6_srcip a) (q6_srcip b) then true
  else if ipv6_gt (q6_srcip a) (q6_srcip b) then false
  else if ipv6_lt (q6_dstip a) (q6_dstip b) then true
  else if ipv6_gt (q6_dstip a) (q6_dstip b) then false
  else if q6_srcport a <? q6_srcport b then true
  else if q6_srcport b <? q6_srcport a then false
  else q6_dstport a <? q6_dstport b.

Definition quar6_gt (a b : QuarTurpleIPv6) : bool :=
  if ipv6_gt (q6_srcip a) (q6_srcip b) then true
  else if ipv6_lt (q6_srcip a) (q6_srcip b) then false
  else if ipv6_gt (q6_dstip a) (q6_dstip b) then true
  else if ipv6_lt (q6_dstip a) (q6_dstip b) then false
  else if q6_srcport b <? q6_srcport a then true
  else if q6_srcport a <? q6_srcport b then false
  else q6_dstport b <? q6_dstport a.

Definition quar6_eq (a b : QuarTurpleIPv6) : bool :=
  ipv6_eq (q6_srcip a) (q6_srcip b) && ipv6_eq (q6_dstip a) (q6_dstip b)
  && (q6_srcport a =? q6_srcport b) && (q6_dstport a =? q6_dstport b).

(** ** Flow metadata and index records *)
Record FlowMetadata := mkMeta {
  sourceAddress : list Z;
  destinationAddress : list Z;
  sourcePort : Z;
  destinationPort : Z }.

#[export] Instance FlowMetadata_eq_dec : EqDecision FlowMetadata.
Proof. solve_decision. Defined.

(** [FlowMetadata::operator==]. *)
Definition meta_eqb (a b : FlowMetadata) : bool :=
  bool_decide (sourceAddress a = sourceAddress b)
  && bool_decide (destinationAddress a = destinationAddress b)
  && (sourcePort a =? sourcePort b) && (destinationPort a =? destinationPort b).

Record Index := mkIndex {
  ix_ts : Z;
  ix_disk_block_id : Z;
  ix_position : Z;
  ix_rx_id : Z;
  ix_meta : FlowMetadata }.

(** ** The interface the searching and sorting code relies on

    The three operators [<], [>] and [==] of a key type.  The laws say that
    [<] is a strict total order, that [>] is its converse and that [==] is
    equality. *)
Class CppKey (K : Type) := {
  key_lt : K -> K -> bool;
  key_gt : K -> K -> bool;
  key_eq : K -> K -> bool;
}.

Class CppKeyLaws (K : Type) `{CppKey K} := {
  key_lt_irrefl a : key_lt a a = false;
  key_lt_trans a b c : key_lt a b = true -> key_lt b c = true -> key_lt a c = true;
  key_lt_total a b : key_lt a b = true \/ a = b \/ key_lt b a = true;
  key_gt_lt a b : key_gt a b = key_lt b a;
  key_eq_spec a b : key_eq a b = true <-> a = b;
}.

Definition key_le {K} `{CppKey K} (a b : K) : bool := negb (key_gt a b).
Definition key_ge {K} `{CppKey K} (a b : K) : bool := negb (key_lt a b).

#[export] Instance Z_key : CppKey Z :=
  {| key_lt := Z.ltb; key_gt a b := b <? a; key_eq := Z.eqb |}.
#[export] Instance ipv6_key : CppKey IPv6Address :=
  {| key_lt := ipv6_lt; key_gt := ipv6_gt; key_eq := ipv6_eq |}.
#[export] Instance quar4_key : CppKey QuarTurpleIPv4 :=
  {| key_lt := quar4_lt; key_gt := quar4_gt; key_eq := quar4_eq |}.
#[export] Instance quar6_key : CppKey QuarTurpleIPv6 :=
  {| key_lt := quar6_lt; key_gt := quar6_gt; key_eq := quar6_eq |}.

(** ** The instances satisfy the laws *)
Lemma ipv6_lt_spec a b :
  ipv6_lt a b = true <-> high a < high b \/ (high a = high b /\ low a < low b).
Proof. unfold ipv6_lt. repeat case_test; zbool; split; intros; try done; zlia. Qed.

Lemma ipv6_gt_lt a b : ipv6_gt a b = ipv6_lt b a.
Proof. done. Qed.

Lemma ipv6_eq_spec a b : ipv6_eq a b = true <-> a = b.
Proof.
  unfold ipv6_eq. rewrite andb_true_iff, !Z.eqb_eq. destruct a, b; simpl.
  split; [intros [-> ->]; done | intros [= -> ->]; done].
Qed.

#[export] Instance Z_key_laws : CppKeyLaws Z.
Proof. split; cbn; intros; rewrite ?Z.ltb_lt, ?Z.ltb_ge, ?Z.eqb_eq in *; try lia; done. Qed.

#[export] Instance ipv6_key_laws : CppKeyLaws IPv6Address.
Proof.
  split; cbn; intros *; rewrite <-?not_true_iff_false, ?ipv6_lt_spec, ?ipv6_eq_spec;
    try lia; try done.
  destruct (decide (a = b)); [auto|]. destruct a, b; simpl in *.
  assert (low0 <> low1 \/ high0 <> high1) by (destruct (decide (low0 = low1)); naive_solver).
  lia.
Qed.

Lemma quar4_lt_spec a b :
  quar4_lt a b = true <->
  q4_srcip a < q4_srcip b \/ (q4_srcip a = q4_srcip b /\
  (q4_dstip a < q4_dstip b \/ (q4_dstip a = q4_dstip b /\
  (q4_srcport a < q4_srcport b \/ (q4_srcport a = q4_srcport b /\
   q4_dstport a < q4_dstport b))))).
Proof. unfold quar4_lt. repeat case_test; zbool; split; intros; try done; zlia. Qed.

#[export] Instance quar4_key_laws : CppKeyLaws QuarTurpleIPv4.
Proof.
  split; cbn; intros *; rewrite <-?not_true_iff_false, ?quar4_lt_spec; try lia; try done.
  - destruct (decide (q4_srcip a = q4_srcip b)); [|lia].
    destruct (decide (q4_dstip a = q4_dstip b)); [|lia].
    destruct (decide (q4_srcport a = q4_srcport b)); [|lia].
    destruct (decide (q4_dstport a = q4_dstport b)); [|lia].
    right; left. destruct a, b; simpl in *; congruence.
  - unfold quar4_eq. rewrite !andb_true_iff, !Z.eqb_eq. destruct a, b; simpl.
    split; [intros [[[-> ->] ->] ->]; done | intros [=]; done].
Qed.

(** Comparing two keys has one of three outcomes. *)
Lemma key_trichotomy {K} `{CppKeyLaws K} (a b : K) :
  (key_lt a b = true /\ key_lt b a = false /\ a <> b) \/
  (key_lt a b = false /\ key_lt b a = false /\ a = b) \/
  (key_lt a b = false /\ key_lt b a = true /\ a <> b).
Proof.
  pose proof (key_lt_irrefl a) as Ha. pose proof (key_lt_irrefl b) as Hb.
  destruct (key_lt_total a b) as [E|[->|E]]; [left|by right; left|right; right];
    rewrite E; repeat split; try congruence;
    apply not_true_iff_false; intros E'.
  - pose proof (key_lt_trans _ _ _ E E'). congruence.
  - pose proof (key_lt_trans _ _ _ E E'). congruence.
Qed.

(** [quar6_lt] as a lexicographic order. *)
Lemma quar6_lt_spec a b :
  quar6_lt a b = true <->
  ipv6_lt (q6_srcip a) (q6_srcip b) = true \/ (q6_srcip a = q6_srcip b /\
  (ipv6_lt (q6_dstip a) (q6_dstip b) = true \/ (q6_dstip a = q6_dstip b /\
  (q6_srcport a < q6_srcport b \/ (q6_srcport a = q6_srcport b /\
   q6_dstport a < q6_dstport b))))).
Proof.
  unfold quar6_lt. rewrite !ipv6_gt_lt.
  destruct (key_trichotomy (q6_srcip a) (q6_srcip b)) as [(E1&E2&E3)|[(E1&E2&E3)|(E1&E2&E3)]];
    cbn in E1, E2; rewrite E1, ?E2; [naive_solver| |naive_solver].
  destruct (key_trichotomy (q6_dstip a) (q6_dstip b)) as [(F1&F2&F3)|[(F1&F2&F3)|(F1&F2&F3)]];
    cbn in F1, F2; rewrite F1, ?F2; [naive_solver| |naive_solver].
  rewrite F3, E3. repeat case_test; zbool; intuition (try congruence; try lia).
Qed.

#[export] Instance quar6_key_laws : CppKeyLaws QuarTurpleIPv6.
Proof.
  pose proof (key_lt_irrefl (K := IPv6Address)) as Hi; cbn in Hi.
  pose proof (key_lt_trans (K := IPv6Address)) as Ht; cbn in Ht.
  split; cbn; intros *; rewrite <-?not_true_iff_false, ?quar6_lt_spec, ?Hi;
    try done.
  - intuition (try congruence; try lia).
  - intros [H|(E1&[H|(E2&H)])] [H'|(E1'&[H'|(E2'&H')])]; rewrite ?E1, ?E1', ?E2, ?E2' in *;
      eauto; right; split; auto; first [by eauto|right; split; [done|lia]].
  - destruct (key_lt_total (q6_srcip a) (q6_srcip b)) as [|[E|]]; cbn in *; auto.
    clear Hi Ht. pose proof (eq_sym E).
    destruct (key_lt_total (q6_dstip a) (q6_dstip b)) as [|[E'|]]; cbn in *; auto 10.
    pose proof (eq_sym E').
    destruct (Z.lt_trichotomy (q6_srcport a) (q6_srcport b)) as [?|[E2|?]];
      [by auto 10| |by auto 10]. pose proof (eq_sym E2).
    destruct (Z.lt_trichotomy (q6_dstport a) (q6_dstport b)) as [?|[E3|?]];
      [by auto 10| |by auto 10].
    right; left. destruct a, b; simpl in *; congruence.
  - unfold quar6_eq. rewrite !andb_true_iff, !ipv6_eq_spec, !Z.eqb_eq.
    destruct a, b; simpl. split; [intros [[[-> ->] ->] ->]; done | intros [=]; done].
Qed.

Lemma key_le_spec {K} `{CppKeyLaws K} (a b : K) :
  key_le a b = true <-> key_lt a b = true \/ a = b.
Proof.
  unfold key_le. rewrite key_gt_lt, negb_true_iff.
  destruct (key_trichotomy a b) as [(?&?&?)|[(?&?&?)|(?&?&?)]];
    intuition congruence.
Qed.

Lemma key_ge_le {K} `{CppKeyLaws K} (a b : K) : key_ge a b = key_le b a.
Proof. unfold key_ge, key_le. by rewrite key_gt_lt. Qed.

Lemma key_le_not_lt {K} `{CppKeyLaws K} (a b : K) :
  key_le a b = negb (key_lt b a).
Proof. unfold key_le. by rewrite key_gt_lt. Qed.

Lemma key_le_refl {K} `{CppKeyLaws K} (a : K) : key_le a a = true.
Proof. apply key_le_spec; auto. Qed.

Lemma key_le_trans {K} `{CppKeyLaws K} (a b c : K) :
  key_le a b = true -> key_le b c = true -> key_le a c = true.
Proof.
  rewrite !key_le_spec. intros [?| ->] [?| ->]; auto. left. by eapply key_lt_trans.
Qed.

Lemma meta_eqb_spec a b : meta_eqb a b = true <-> a = b.
Proof.
  unfold meta_eqb. rewrite !andb_true_iff, !Z.eqb_eq, !bool_decide_eq_true.
  destruct a, b; simpl. split; [intros [[[-> ->] ->] ->]; done | intros [=]; done].
Qed.

(** ** [operator>>] is the shift of the 128-bit number *)
Lemma testbit_above w z n : is_u w z -> 0 <= w <= n -> Z.testbit z n = false.
Proof.
  intros [H0 H] Hn. destruct (decide (z = 0)) as [->|]; [apply Z.bits_0|].
  apply Z.bits_above_log2; [done|]. apply Z.log2_lt_pow2 in H; lia.
Qed.

Lemma testbit_ipv6_num a n :
  ipv6_wf a -> 0 <= n ->
  Z.testbit (ipv6_num a) n =
    if n <? 64 then Z.testbit (low a) n else Z.testbit (high a) (n - 64).
Proof.
  intros [Hl Hh] Hn. unfold ipv6_num.
  replace (high a * 2 ^ 64 + low a) with (Z.lor (Z.shiftl (high a) 64) (low a)).
  - rewrite Z.lor_spec, Z.shiftl_spec by done. case_test; zbool.
    + rewrite Z.testbit_neg_r by lia. done.
    + rewrite (testbit_above 64 (low a)) by (auto; lia). by rewrite orb_false_r.
  - assert (D : Z.land (Z.shiftl (high a) 64) (low a) = 0).
    { apply Z.bits_inj'; intros m Hm. rewrite Z.land_spec, Z.shiftl_spec, Z.bits_0 by done.
      destruct (decide (m < 64)); [by rewrite Z.testbit_neg_r by lia|].
      rewrite (testbit_above 64 (low a)) by (auto; lia). apply andb_false_r. }
    rewrite <-Z.lxor_lor, <-Z.add_nocarry_lxor, Z.shiftl_mul_pow2 by (done || lia). done.
Qed.

Lemma is_u_bits w z :
  0 <= w -> 0 <= z -> (forall n, w <= n -> Z.testbit z n = false) -> is_u w z.
Proof. intros. split; [done|]. by apply Z.bounded_iff_bits_nonneg. Qed.

Lemma ipv6_shr_wf a s : ipv6_wf a -> 0 <= s -> ipv6_wf (ipv6_shr a s).
Proof.
  intros [Hl Hh] Hs. assert (forall z k, is_u 64 z -> 0 <= k -> is_u 64 (Z.shiftr z k)) as Hr.
  { intros z k Hz Hk. apply is_u_bits; [lia|by apply Z.shiftr_nonneg, Hz|].
    intros n Hn. rewrite Z.shiftr_spec by lia. apply (testbit_above 64); [done|lia]. }
  assert (is_u 64 0) by (unfold is_u; lia).
  unfold ipv6_shr. repeat case_test; zbool; split; simpl; try done; try (apply Hr; [done|lia]).
  apply is_u_bits; [lia| |].
  - apply Z.lor_nonneg. split; [apply Hr; [done|lia]|apply u64_range].
  - intros n Hn. rewrite Z.lor_spec, (testbit_above 64), (testbit_above 64); try done;
      try lia; [apply u64_range|apply Hr; [done|lia]].
Qed.

(** Shifting an address right shifts the 128-bit number it stands for,
    whichever branch of the source is taken. *)
Lemma ipv6_shr_num a s :
  ipv6_wf a -> 0 <= s -> ipv6_num (ipv6_shr a s) = Z.shiftr (ipv6_num a) s.
Proof.
  intros Ha Hs. pose proof Ha as [Hl Hh]. apply Z.bits_inj'. intros n Hn.
  rewrite Z.shiftr_spec by done. pose proof (ipv6_shr_wf a s Ha Hs) as Hw.
  rewrite (testbit_ipv6_num a) by (auto; lia). rewrite testbit_ipv6_num by (auto; lia).
  unfold ipv6_shr in *.
  destruct (s =? 0) eqn:?; zbool; [subst; by rewrite Z.add_0_r|].
  destruct (s <? 64) eqn:?; zbool; [|destruct (s <? 128) eqn:?; zbool]; cbn [low high].
  - unfold u64, wrap. rewrite Z.lor_spec, !Z.shiftr_spec by lia.
    destruct (n <? 64) eqn:?; zbool.
    + rewrite Z.mod_pow2_bits_low, Z.shiftl_spec by lia.
      destruct (n + s <? 64) eqn:?; zbool.
      * rewrite (Z.testbit_neg_r (high a)) by lia. apply orb_false_r.
      * rewrite (testbit_above 64 (low a)) by (auto; lia). simpl. f_equal. lia.
    + replace (n + s <? 64) with false by (symmetry; apply Z.ltb_ge; lia).
      rewrite Z.shiftr_spec by lia. f_equal. lia.
  - replace (n + s <? 64) with false by (symmetry; apply Z.ltb_ge; lia).
    destruct (n <? 64) eqn:?; zbool.
    + rewrite Z.shiftr_spec by lia. f_equal. lia.
    + rewrite Z.bits_0, (testbit_above 64) by (auto; lia). done.
  - replace (n + s <? 64) with false by (symmetry; apply Z.ltb_ge; lia).
    rewrite !Z.bits_0. rewrite (testbit_above 64 (high a)) by (auto; lia).
    by case_test.
Qed.

Lemma ipv6_num_range a : ipv6_wf a -> is_u 128 (ipv6_num a).
Proof. intros [Hl Hh]. unfold ipv6_num, is_u in *. lia. Qed.

Lemma ipv6_num_inj a b : ipv6_wf a -> ipv6_wf b -> ipv6_num a = ipv6_num b -> a = b.
Proof.
  unfold ipv6_num, ipv6_wf, is_u. destruct a as [la ha], b as [lb hb]; simpl.
  intros ? ? ?. assert (ha = hb) by lia. f_equal; lia.
Qed.

Lemma ipv6_lt_num a b :
  ipv6_wf a -> ipv6_wf b -> ipv6_lt a b = (ipv6_num a <? ipv6_num b).
Proof.
  intros Ha Hb. apply eq_true_iff_eq. rewrite ipv6_lt_spec, Z.ltb_lt.
  unfold ipv6_num, ipv6_wf, is_u in *. lia.
Qed.

(** The low byte of a shifted address: the byte of the address at that place. *)
Lemma ipv6_shr_low_byte a k :
  ipv6_wf a -> 0 <= k ->
  Z.land (low (ipv6_shr a k)) 255 = Z.land (Z.shiftr (ipv6_num a) k) 255.
Proof.
  intros Ha Hk. rewrite <-ipv6_shr_num by done. apply Z.bits_inj'. intros n Hn.
  rewrite !Z.land_spec, testbit_ipv6_num by (auto using ipv6_shr_wf).
  case_test; [done|]. zbool.
  rewrite (testbit_above 8 255), !andb_false_r by (unfold is_u; lia). done.
Qed.

(** ** Properties *)

(** the comparison and shift operators of [IPv6Address] are those of the
    128-bit number the address stands for: [<] is numeric order, [==] numeric
    equality, and [>>] the numeric right shift on each of its four branches
    (0, below 64, below 128, 128 and more). *)
Theorem ipv6_operators_numeric (a b : IPv6Address) (s : Z) :
  ipv6_wf a -> ipv6_wf b -> 0 <= s ->
  ipv6_lt a b = (ipv6_num a <? ipv6_num b) /\
  ipv6_gt a b = (ipv6_num b <? ipv6_num a) /\
  ipv6_eq a b = (ipv6_num a =? ipv6_num b) /\
  ipv6_wf (ipv6_shr a s) /\ ipv6_num (ipv6_shr a s) = Z.shiftr (ipv6_num a) s.
Proof.
  intros Ha Hb Hs. split; [by apply ipv6_lt_num|].
  split; [rewrite ipv6_gt_lt; by apply ipv6_lt_num|].
  split; [|split; [by apply ipv6_shr_wf|by apply ipv6_shr_num]].
  apply eq_true_iff_eq. rewrite ipv6_eq_spec, Z.eqb_eq.
  split; [by intros ->|]. by apply ipv6_num_inj.
Qed.

Lemma ipv6_operators_numeric_witness :
  let a := mkIPv6 5 (2 ^ 63) in let b := mkIPv6 7 3 in
  ipv6_lt b a = true /\ ipv6_shr a 62 = mkIPv6 (2 ^ 65 mod 2 ^ 64) 2 /\
  ipv6_num (ipv6_shr a 62) = Z.shiftr (ipv6_num a) 62.
Proof.
  split; [reflexivity|]. split; [vm_compute; reflexivity|].
  apply (ipv6_operators_numeric (mkIPv6 5 (2 ^ 63)) (mkIPv6 7 3) 62);
    unfold ipv6_wf, is_u; simpl; lia.
Defined.
