(* ===== verification/BitMap.v ===== *)
(** * The shared bit matrix (dpdk_lib/bitMap.hpp)

    [BitMap] is a matrix of bits, one row per bit of a Bloom filter and one
    column per index block; it is mmap'ed once and shared by every
    [PrefixBloomFilter].  The byte region is kept sparse: bytes never written
    are the zeroes of an anonymous mapping.  An access outside the mapping is
    [Undef].  The theorems refine it to a set of (row, column) pairs. *)
From S2P Require Import Prelude.
From Stdlib Require Import ZArith Lia.

Record BitMap := mkBitMap {
  bitmap : gmap Z Z;
  row_count : Z;
  col_count : Z;
  backup_col_count : Z;
  size : Z }.

Definition with_bitmap (b : BitMap) (m : gmap Z Z) : BitMap :=
  {| bitmap := m; row_count := row_count b; col_count := col_count b;
     backup_col_count := backup_col_count b; size := size b |}.

(** [bitmap\[i\]] read and written. *)
Definition byte_at (b : BitMap) (i : Z) : Z := default 0 (bitmap b !! i).

Definition byte_get (b : BitMap) (i : Z) : res Z :=
  if (0 <=? i) && (i <? size b) then Ok (byte_at b i) else Undef.

Definition byte_set (b : BitMap) (i v : Z) : res BitMap :=
  if (0 <=? i) && (i <? size b) then Ok (with_bitmap b (<[i := v]> (bitmap b)))
  else Undef.

(** [1 << n] on [int]: undefined from 32 on. *)
Definition shl1 (n : Z) : res Z :=
  if (0 <=? n) && (n <? 32) then Ok (Z.shiftl 1 n) else Undef.

Definition getByteIndex (b : BitMap) (row col : Z) : res Z :=
  if (row_count b <=? row) || (col_count b <=? col) then Ok MAX64
  else if col_count b / 8 =? 0 then Undef
  else
    let byte_col := col mod (col_count b / 8) in
    Ok (u64 (row * (col_count b / 8) + byte_col)).

Definition getBitIndex (b : BitMap) (col : Z) : res Z :=
  if col_count b <=? col then Ok MAX8
  else if col_count b / 8 =? 0 then Undef
  else Ok (u8 (col / (col_count b / 8))).

(** The constructor; [mmap_ok] is whether the mapping succeeds. *)
Definition new_BitMap (mmap_ok : bool) (rows logic_col backup : Z) : res BitMap :=
  let cols := u64 (logic_col + backup) in
  if negb (cols mod 8 =? 0) then Throws
  else if cols <? u64 (backup * 8) then Throws
  else if negb mmap_ok then Throws
  else Ok {| bitmap := ∅; row_count := rows; col_count := cols;
             backup_col_count := backup; size := u64 (rows * cols) / 8 |}.

Definition getRowCount (b : BitMap) : Z := row_count b.
Definition getColCount (b : BitMap) : Z := col_count b.
Definition getBackupColCount (b : BitMap) : Z := backup_col_count b.

Definition get (b : BitMap) (row col : Z) : res bool :=
  byte_index ← getByteIndex b row col;
  if byte_index =? MAX64 then Ok false else
  bit_index ← getBitIndex b col;
  if bit_index =? MAX8 then Ok false else
  v ← byte_get b byte_index;
  m ← shl1 bit_index;
  Ok (negb (Z.land v m =? 0)).

Definition set (b : BitMap) (row col : Z) : res (bool * BitMap) :=
  byte_index ← getByteIndex b row col;
  if byte_index =? MAX64 then Ok (false, b) else
  bit_index ← getBitIndex b col;
  if bit_index =? MAX8 then Ok (false, b) else
  v ← byte_get b byte_index;
  m ← shl1 bit_index;
  b' ← byte_set b byte_index (u8 (Z.lor v m));
  Ok (true, b').

(** The loop of [clearCol] from row [row], [n] iterations left. *)
Fixpoint clear_rows (b : BitMap) (bit_index col row : Z) (n : nat) : res BitMap :=
  match n with
  | O => Ok b
  | S n =>
      byte_index ← getByteIndex b row col;
      v ← byte_get b byte_index;
      m ← shl1 bit_index;
      b' ← byte_set b byte_index (u8 (Z.land v (Z.lnot m)));
      clear_rows b' bit_index col (row + 1) n
  end.

Definition clearCol (b : BitMap) (col : Z) : res BitMap :=
  bit_index ← getBitIndex b col;
  if bit_index =? MAX8 then Ok b
  else clear_rows b bit_index col 0 (Z.to_nat (row_count b)).

(** ** Invariant and abstraction *)
Record wf (b : BitMap) : Prop := {
  wf_row : 0 <= row_count b;
  wf_col : 0 <= col_count b;
  wf_mod : col_count b mod 8 = 0;
  wf_fit : row_count b * col_count b < 2 ^ 64;
  wf_size : size b = row_count b * col_count b / 8;
  wf_bytes : forall i, is_u 8 (byte_at b i) }.

(** [(row, col)] is a cell of the matrix. *)
Definition in_range (b : BitMap) (row col : Z) : bool :=
  (0 <=? row) && (row <? row_count b) && (0 <=? col) && (col <? col_count b).

(** The abstract set: is the cell's bit set? *)
Definition cell (b : BitMap) (row col : Z) : bool :=
  in_range b row col &&
  Z.testbit (byte_at b (row * (col_count b / 8) + col mod (col_count b / 8)))
            (col / (col_count b / 8)).

(** Same matrix dimensions. *)
Definition same_dims (a b : BitMap) : Prop :=
  row_count a = row_count b /\ col_count a = col_count b /\
  backup_col_count a = backup_col_count b /\ size a = size b.

(** ** Addressing *)
Lemma in_range_iff b r c :
  in_range b r c = true <-> 0 <= r < row_count b /\ 0 <= c < col_count b.
Proof. unfold in_range. rewrite !andb_true_iff, !Z.leb_le, !Z.ltb_lt. lia. Qed.

Lemma col_div b : wf b -> col_count b = 8 * (col_count b / 8).
Proof. intros [? ? H _ _ _]. apply Z.div_exact in H; lia. Qed.

Section addressing.
Context (b : BitMap) (Hb : wf b) (r c : Z) (Hr : in_range b r c = true).

Let q := col_count b / 8.

Lemma stride_pos : 0 < col_count b / 8.
Proof. apply in_range_iff in Hr. pose proof (col_div b Hb). lia. Qed.

Lemma address_bounds :
  0 <= r * (col_count b / 8) + c mod (col_count b / 8) < size b /\
  0 <= c / (col_count b / 8) < 8.
Proof.
  pose proof stride_pos as Hq. apply in_range_iff in Hr as [Hr' Hc].
  pose proof (col_div b Hb) as E. destruct Hb as [_ _ _ Hf Hs _].
  fold q in Hq, E |- *.
  pose proof (Z.mod_pos_bound c q Hq). rewrite Hs, E.
  replace (row_count b * (8 * q)) with (row_count b * q * 8) by lia.
  rewrite Z.div_mul by lia.
  split; [nia|]. split; [apply Z.div_pos; lia|]. apply Z.div_lt_upper_bound; lia.
Qed.

Lemma size_small : size b <= 2 ^ 61.
Proof.
  destruct Hb as [? ? _ Hf Hs _]. rewrite Hs.
  apply Z.div_le_upper_bound; [lia|]. change (8 * 2 ^ 61) with (2 ^ 64). lia.
Qed.

Lemma getByteIndex_ok :
  getByteIndex b r c = Ok (r * (col_count b / 8) + c mod (col_count b / 8)).
Proof.
  pose proof stride_pos. pose proof address_bounds. pose proof size_small.
  apply in_range_iff in Hr. unfold getByteIndex.
  case_test; [apply orb_true_iff in E as []; zlia|].
  case_test; [zlia|]. rewrite u64_small by lia. done.
Qed.

Lemma getBitIndex_ok : getBitIndex b c = Ok (c / (col_count b / 8)).
Proof.
  pose proof stride_pos. pose proof address_bounds.
  apply in_range_iff in Hr. unfold getBitIndex.
  case_test; [zlia|]. case_test; [zlia|]. rewrite u8_small by lia. done.
Qed.
End addressing.

(** Two cells share byte and bit only when they are the same cell. *)
Lemma address_inj b r c r' c' :
  wf b -> in_range b r c = true -> in_range b r' c' = true ->
  r * (col_count b / 8) + c mod (col_count b / 8) =
  r' * (col_count b / 8) + c' mod (col_count b / 8) ->
  c / (col_count b / 8) = c' / (col_count b / 8) -> r = r' /\ c = c'.
Proof.
  intros Hb H H' E1 E2. pose proof (stride_pos b Hb r c H) as Hq.
  set (q := col_count b / 8) in *.
  pose proof (Z.mod_pos_bound c q Hq). pose proof (Z.mod_pos_bound c' q Hq).
  pose proof (Z.div_mod c q ltac:(lia)). pose proof (Z.div_mod c' q ltac:(lia)).
  assert (r = r') by nia. split; [done|]. nia.
Qed.

Lemma shl1_ok n : 0 <= n < 8 -> shl1 n = Ok (2 ^ n).
Proof.
  intros. unfold shl1. case_test; [by rewrite Z.shiftl_1_l|].
  apply andb_false_iff in E as []; zlia.
Qed.

Lemma byte_get_ok b i : 0 <= i < size b -> byte_get b i = Ok (byte_at b i).
Proof.
  intros. unfold byte_get. case_test; [done|]. apply andb_false_iff in E as []; zlia.
Qed.

Lemma byte_set_ok b i v :
  0 <= i < size b -> byte_set b i v = Ok (with_bitmap b (<[i := v]> (bitmap b))).
Proof.
  intros. unfold byte_set. case_test; [done|]. apply andb_false_iff in E as []; zlia.
Qed.

Lemma byte_at_insert b i v j :
  byte_at (with_bitmap b (<[i := v]> (bitmap b))) j =
  if decide (i = j) then v else byte_at b j.
Proof.
  unfold byte_at; simpl. case_decide; [subst; by rewrite lookup_insert_eq|].
  by rewrite lookup_insert_ne.
Qed.

Lemma land_pow2_testbit v n : 0 <= n -> negb (Z.land v (2 ^ n) =? 0) = Z.testbit v n.
Proof.
  intros Hn. destruct (Z.testbit v n) eqn:E.
  - apply negb_true_iff, Z.eqb_neq. intros H0.
    assert (Z.testbit (Z.land v (2 ^ n)) n = false) by (by rewrite H0, Z.bits_0).
    rewrite Z.land_spec, E, Z.pow2_bits_true in * by done. done.
  - apply negb_false_iff, Z.eqb_eq, Z.bits_inj'. intros m Hm.
    rewrite Z.land_spec, Z.bits_0. destruct (decide (m = n)) as [->|];
      [by rewrite E|]. rewrite Z.pow2_bits_false by lia. apply andb_false_r.
Qed.

(** The state after one byte write at a cell's address. *)
Lemma wf_byte_write b i v :
  wf b -> is_u 8 v -> wf (with_bitmap b (<[i := v]> (bitmap b))).
Proof.
  intros [? ? ? ? ? Hy] Hv. split; simpl; try done.
  intros j. rewrite byte_at_insert. by case_decide.
Qed.

Lemma cell_byte_write b r c v r' c' :
  wf b -> in_range b r c = true ->
  let i := r * (col_count b / 8) + c mod (col_count b / 8) in
  cell (with_bitmap b (<[i := v]> (bitmap b))) r' c' =
  if decide (in_range b r' c' = true /\
             i = r' * (col_count b / 8) + c' mod (col_count b / 8))
  then Z.testbit v (c' / (col_count b / 8)) else cell b r' c'.
Proof.
  intros Hb Hr i. unfold cell. change (in_range (with_bitmap b _) r' c') with (in_range b r' c').
  change (col_count (with_bitmap b _)) with (col_count b).
  rewrite byte_at_insert. destruct (in_range b r' c'); cbn [andb];
    repeat case_decide; naive_solver.
Qed.

Lemma u8_lor_pow2 v n : is_u 8 v -> 0 <= n < 8 -> u8 (Z.lor v (2 ^ n)) = Z.lor v (2 ^ n).
Proof.
  intros Hv Hn. apply u8_small. split; [apply Z.lor_nonneg; split; [apply Hv|lia]|].
  apply Z.bounded_iff_bits_nonneg; [lia|apply Z.lor_nonneg; split; [apply Hv|lia]|].
  intros l Hl. rewrite Z.lor_spec, Z.pow2_bits_false by lia.
  rewrite orb_false_r. apply (Z.bounded_iff_bits_nonneg 8); [lia|apply Hv|apply Hv|done].
Qed.

Lemma u8_clear_bit v n m :
  is_u 8 v -> 0 <= n < 8 -> 0 <= m < 8 ->
  Z.testbit (u8 (Z.land v (Z.lnot (2 ^ n)))) m = Z.testbit v m && negb (m =? n).
Proof.
  intros Hv Hn Hm. unfold u8, wrap. rewrite Z.mod_pow2_bits_low by lia.
  rewrite Z.land_spec, Z.lnot_spec by lia. rewrite Z.pow2_bits_eqb by lia.
  by rewrite Z.eqb_sym.
Qed.

(** ** Functional behaviour of the operations *)

(** [get] reads the abstract set and never touches memory outside the map. *)
Lemma get_cell b r c : wf b -> 0 <= r -> 0 <= c -> get b r c = Ok (cell b r c).
Proof.
  intros Hb Hr Hc. unfold cell. destruct (in_range b r c) eqn:E; simpl.
  - pose proof (address_bounds b Hb r c E) as [Ha Hq]. pose proof (size_small b Hb).
    unfold get. rewrite (getByteIndex_ok b Hb r c E), (getBitIndex_ok b Hb r c E).
    cbn [mbind res_bind]. unfold MAX64, MAX8 in *.
    repeat (case_test; [zlia|]). rewrite byte_get_ok, shl1_ok by lia.
    cbn [mbind res_bind]. f_equal. apply land_pow2_testbit. lia.
  - unfold get, getByteIndex.
    assert (~ (r < row_count b /\ c < col_count b)) as Hn.
    { intros [??]. apply not_true_iff_false in E. apply E, in_range_iff. lia. }
    destruct (_ || _) eqn:E'; [by cbn|]. zlia.
Qed.

(** The state [set] leaves behind: one more cell. *)
Lemma set_cell b r c :
  wf b -> 0 <= r -> 0 <= c -> exists b',
  set b r c = Ok (in_range b r c, b') /\ wf b' /\ same_dims b' b /\
 forall r' c', cell b' r' c' = cell b r' c' ||
                (in_range b r c && bool_decide (r' = r /\ c' = c)).
Proof.
  intros Hb Hr Hc. unfold set. destruct (in_range b r c) eqn:E; simpl.
  - pose proof (address_bounds b Hb r c E) as [Ha Hq]. pose proof (size_small b Hb).
    rewrite (getByteIndex_ok b Hb r c E), (getBitIndex_ok b Hb r c E).
    cbn [mbind res_bind]. unfold MAX64, MAX8 in *.
    repeat (case_test; [zlia|]). rewrite byte_get_ok, shl1_ok by lia.
    cbn [mbind res_bind]. rewrite byte_set_ok by done. cbn [mbind res_bind].
    set (i := r * _ + _) in *. set (k := c / _) in *.
    pose proof (u8_lor_pow2 (byte_at b i) k (wf_bytes b Hb i) Hq) as EL.
    eexists. split; [done|].
    split; [apply wf_byte_write; [done|apply u8_range]|]. split; [done|]. rewrite EL.
    unfold i, k in *.
    intros r' c'. rewrite cell_byte_write by done. unfold cell. case_decide as D.
    + destruct D as [Hr' Ei]. rewrite Hr', Z.lor_spec, Z.pow2_bits_eqb, Ei by lia. simpl.
      f_equal. apply eq_true_iff_eq. rewrite Z.eqb_eq, bool_decide_eq_true.
      split; [|by intros [-> ->]]. intros Ec.
      by destruct (address_inj b r c r' c' Hb E Hr' Ei Ec).
    + case_bool_decide as D2; [|by rewrite orb_false_r]. destruct D2 as [-> ->].
      naive_solver.
  - exists b. split; [|repeat split; try done; try apply Hb; intros; by rewrite orb_false_r].
    unfold getByteIndex. destruct (_ || _) eqn:E'; [by cbn|]. exfalso.
    apply not_true_iff_false in E. apply E, in_range_iff. zlia.
Qed.

Lemma same_dims_trans a b c : same_dims a b -> same_dims b c -> same_dims a c.
Proof. unfold same_dims. intuition congruence. Qed.

Lemma same_dims_in_range a b r c : same_dims a b -> in_range a r c = in_range b r c.
Proof. intros (H1&H2&_). unfold in_range. by rewrite H1, H2. Qed.

(** The loop of [clearCol]: rows [row ..] of the column are cleared. *)
Lemma clear_rows_cell n b c row :
  wf b -> 0 <= row -> row + Z.of_nat n = row_count b -> 0 <= c < col_count b ->
  exists b', clear_rows b (c / (col_count b / 8)) c row n = Ok b' /\ wf b' /\
   same_dims b' b /\
   forall r' c', cell b' r' c' = cell b r' c' && negb (bool_decide (c' = c /\ row <= r')).
Proof.
  revert b row. induction n as [|n IH]; intros b row Hb Hrow Hn Hc; cbn [clear_rows].
  - exists b. split; [done|]. split; [done|]. split; [done|]. intros r' c'.
    unfold cell. destruct (in_range b r' c') eqn:E; [|done]. apply in_range_iff in E.
    rewrite bool_decide_eq_false_2 by lia. by rewrite andb_true_r.
  - assert (Er : in_range b row c = true) by (apply in_range_iff; lia).
    pose proof (address_bounds b Hb row c Er) as [Ha Hq].
    rewrite (getByteIndex_ok b Hb row c Er). cbn [mbind res_bind].
    rewrite byte_get_ok, shl1_ok by done. cbn [mbind res_bind].
    rewrite byte_set_ok by done. cbn [mbind res_bind].
    match goal with |- context [clear_rows ?b1 _ _ _ _] => set (b1' := b1) end.
    destruct (IH b1' (row + 1)) as (b' & E' & Hw & Hd & Hs); try (simpl; lia).
    { apply wf_byte_write; [done|apply u8_range]. }
    exists b'. split; [exact E'|]. split; [done|]. split; [done|].
    intros r' c'. rewrite Hs. unfold b1'. rewrite cell_byte_write by done.
    case_decide as D; cycle 1.
    + f_equal. f_equal. apply bool_decide_ext. split; [lia|]. intros [-> ?].
      split; [done|]. destruct (decide (r' = row)) as [->|]; [|lia]. naive_solver.
    + destruct D as [Hr' Ei]. unfold cell. rewrite Hr'. simpl.
      rewrite u8_clear_bit by (try apply Hb; try done; by apply (address_bounds b Hb r' c')).
      rewrite Ei, <-andb_assoc. f_equal. apply in_range_iff in Hr' as HR.
      destruct (decide (c' = c)) as [->|Hne].
      * assert (row = r') as -> by (eapply (address_inj b) in Ei as [? _]; eauto).
        rewrite Z.eqb_refl. rewrite (bool_decide_eq_true_2 (c = c /\ r' <= r')); done || lia.
      * rewrite (bool_decide_eq_false_2 (c' = c /\ row <= r')) by tauto.
        rewrite bool_decide_eq_false_2 by tauto.
        replace (_ =? _) with false; [done|]. symmetry. apply Z.eqb_neq. intros Eq.
        by destruct (address_inj b row c r' c' Hb Er Hr' Ei).
Qed.

Lemma clearCol_cell b c :
  wf b -> 0 <= c -> exists b', clearCol b c = Ok b' /\ wf b' /\ same_dims b' b /\
   forall r' c', cell b' r' c' = cell b r' c' && negb (bool_decide (c' = c)).
Proof.
  intros Hb Hc. pose proof (wf_row b Hb). unfold clearCol.
  destruct (decide (c < col_count b /\ 0 < row_count b)) as [[Hlt Hrow]|Hge].
  - assert (Er : in_range b 0 c = true) by (apply in_range_iff; lia).
    rewrite (getBitIndex_ok b Hb 0 c Er). cbn [mbind res_bind].
    pose proof (address_bounds b Hb 0 c Er) as [_ Hq].
    case_test; [unfold MAX8 in *; zlia|].
    destruct (clear_rows_cell (Z.to_nat (row_count b)) b c 0) as (b' & E' & Hw & Hd & Hs);
      try lia; [done|].
    exists b'. repeat (split; [done|]). intros r' c'. rewrite Hs. unfold cell.
    destruct (in_range b r' c') eqn:E2; [|done]. apply in_range_iff in E2.
    f_equal. f_equal. apply bool_decide_ext. intuition lia.
  - exists b. assert (forall r' c', cell b r' c' = cell b r' c' && negb (bool_decide (c' = c))).
    { intros r' c'. unfold cell. destruct (in_range b r' c') eqn:E2; [|done].
      apply in_range_iff in E2. rewrite bool_decide_eq_false_2 by lia. by rewrite andb_true_r. }
    split; [|done]. unfold getBitIndex. case_test; [done|]. zbool.
    pose proof (col_div b Hb). case_test; [zlia|]. cbn [mbind res_bind].
    case_test; [done|]. replace (Z.to_nat (row_count b)) with O by lia. done.
Qed.

(** A fresh matrix is well formed and empty. *)
Lemma new_BitMap_cell ok rows logic backup b :
  new_BitMap ok rows logic backup = Ok b -> 0 <= rows ->
  rows * u64 (logic + backup) < 2 ^ 64 ->
  wf b /\ (forall r c, cell b r c = false) /\
 row_count b = rows /\ col_count b = u64 (logic + backup) /\
 backup_col_count b = backup.
Proof.
  unfold new_BitMap. intros H Hr Hf.
  repeat (case_test; [done|]). injection H as <-. zbool.
  pose proof (u64_range (logic + backup)).
  split; [|split; [|done]].
  - split; simpl; try done; try lia.
    rewrite u64_small by nia. done.
  - intros r c. unfold cell, byte_at; simpl. rewrite lookup_empty; simpl.
    by rewrite Z.bits_0, andb_false_r.
Qed.

(** ** Refinement: a history of operations against a set of cells *)
Inductive op := OSet (row col : Z) | OClear (col : Z).

Definition op_wf (o : op) : Prop :=
  match o with OSet r c => 0 <= r /\ 0 <= c | OClear c => 0 <= c end.

Fixpoint run_ops (b : BitMap) (os : list op) : res BitMap :=
  match os with
  | [] => Ok b
  | OSet r c :: os => '(_, b') ← set b r c; run_ops b' os
  | OClear c :: os => b' ← clearCol b c; run_ops b' os
  end.

(** The abstract matrix: which cells are set after an operation. *)
Definition spec_step (rows cols : Z) (s : Z -> Z -> bool) (o : op) : Z -> Z -> bool :=
  match o with
  | OSet r c => fun r' c' =>
      s r' c' || ((r <? rows) && (c <? cols) && (r' =? r) && (c' =? c))
  | OClear c => fun r' c' => s r' c' && negb (c' =? c)
  end.

Lemma run_ops_cell os b s :
  wf b -> Forall op_wf os -> (forall r c, 0 <= r -> 0 <= c -> cell b r c = s r c) ->
  exists b', run_ops b os = Ok b' /\ wf b' /\ same_dims b' b /\
    forall r c, 0 <= r -> 0 <= c ->
      cell b' r c = foldl (spec_step (row_count b) (col_count b)) s os r c.
Proof.
  revert b s. induction os as [|o os IH]; intros b s Hb Ho Hs; cbn [run_ops foldl].
  - exists b. by repeat split; try apply Hb.
  - inversion_clear Ho as [|? ? H1 H2]. destruct o as [r c|c]; simpl in H1.
    + destruct H1 as [Hr Hc].
      destruct (set_cell b r c Hb Hr Hc) as (b1 & E1 & Hw & Hd & Hs1).
      rewrite E1. cbn [mbind res_bind].
      destruct (IH b1 (spec_step (row_count b) (col_count b) s (OSet r c)) Hw H2)
        as (b2 & E2 & Hw2 & Hd2 & Hs2).
      { intros r' c' ??. rewrite Hs1, Hs by done. simpl. f_equal.
        apply eq_true_iff_eq. rewrite !andb_true_iff, in_range_iff, bool_decide_eq_true,
          !Z.ltb_lt, !Z.eqb_eq. intuition lia. }
      exists b2. split; [done|]. split; [done|]. split; [by eapply same_dims_trans|].
      destruct Hd as (D1&D2&_). rewrite D1, D2 in Hs2. exact Hs2.
    + destruct (clearCol_cell b c Hb H1) as (b1 & E1 & Hw & Hd & Hs1).
      rewrite E1. cbn [mbind res_bind].
      destruct (IH b1 (spec_step (row_count b) (col_count b) s (OClear c)) Hw H2)
        as (b2 & E2 & Hw2 & Hd2 & Hs2).
      { intros r' c' ??. rewrite Hs1, Hs by done. simpl. f_equal. f_equal.
        apply eq_true_iff_eq. by rewrite bool_decide_eq_true, Z.eqb_eq. }
      exists b2. split; [done|]. split; [done|]. split; [by eapply same_dims_trans|].
      destruct Hd as (D1&D2&_). rewrite D1, D2 in Hs2. exact Hs2.
Qed.

(** ** Properties *)

(** C16: the bit matrix refines a set of cells.  Any history of [set] and
    [clearCol] calls on a freshly constructed matrix runs without undefined
    behaviour, and [get] then answers exactly whether the cell was set (in
    range) after the last clearing of its column. *)
Theorem BitMap_refines_set (rows logic backup : Z) (b : BitMap) (os : list op) :
  new_BitMap true rows logic backup = Ok b -> 0 <= rows ->
  rows * u64 (logic + backup) < 2 ^ 64 -> Forall op_wf os ->
  exists b', run_ops b os = Ok b' /\
    forall r c, 0 <= r -> 0 <= c ->
      get b' r c =
      Ok (foldl (spec_step rows (u64 (logic + backup))) (fun _ _ => false) os r c).
Proof.
  intros H Hr Hf Ho.
  destruct (new_BitMap_cell _ _ _ _ _ H Hr Hf) as (Hw & He & <- & Hc & _).
  destruct (run_ops_cell os b (fun _ _ => false) Hw Ho) as (b' & E & Hw' & _ & Hs).
  { intros. apply He. }
  exists b'. split; [done|]. intros r c Hr' Hc'. rewrite get_cell by done.
  by rewrite Hs, Hc by done.
Qed.

Lemma BitMap_refines_set_witness :
  exists b b', new_BitMap true 3 14 2 = Ok b /\
    run_ops b [OSet 1 5; OSet 2 5; OSet 2 13; OClear 5; OSet 0 5; OSet 9 5] = Ok b' /\
    get b' 1 5 = Ok false /\ get b' 2 13 = Ok true /\ get b' 0 5 = Ok true.
Proof.
  eexists. assert (E : new_BitMap true 3 14 2 = Ok
    {| bitmap := ∅; row_count := 3; col_count := 16; backup_col_count := 2; size := 6 |})
    by reflexivity.
  destruct (BitMap_refines_set 3 14 2 _
    [OSet 1 5; OSet 2 5; OSet 2 13; OClear 5; OSet 0 5; OSet 9 5] E) as (b' & Hb' & Hg).
  - lia.
  - vm_compute. reflexivity.
  - repeat constructor; simpl; lia.
  - exists b'. split; [exact E|]. split; [exact Hb'|].
    rewrite !Hg by lia. split; [|split]; vm_compute; reflexivity.
Defined.
