(* ===== verification/PrefixBloom.v ===== *)
(** * The prefix Bloom filters (dpdk_lib/prefixBloomFilter.hpp)

    One filter per (source or destination) port, IPv4 and IPv6 index of a
    block.  All filters share one [BitMap]; a filter object holds the pointer
    to it, the number of hash functions and the columns it writes and reads.
    The bit matrix is threaded explicitly through the operations, so that
    several filter objects can alias it.  [std::hash] is a parameter. *)
From S2P Require Import Prelude Util BitMap.
From Stdlib Require Import ZArith Lia.

Definition HASH_SEED : Z := 0x5bd1e995.
Definition IPV4_BLOOM_LEN : Z := 1024.
Definition IPV6_BLOOM_LEN : Z := 1024.
Definition SLICE_LEN : Z := 8.
Definition SLICE_VALUE_COUNT : Z := Z.shiftl 1 SLICE_LEN.
Definition PORT_BIT_LEN : Z := Z.shiftl 1 16.
Definition IPV4_BIT_LEN : Z :=
  SLICE_VALUE_COUNT * SLICE_VALUE_COUNT * 2 + SLICE_VALUE_COUNT * IPV4_BLOOM_LEN * 2.
Definition IPV6_BIT_LEN : Z :=
  SLICE_VALUE_COUNT * SLICE_VALUE_COUNT + SLICE_VALUE_COUNT * IPV6_BLOOM_LEN * 14.

(** A filter object; [has_bitmap] is whether its [bitmap] pointer is set. *)
Record PrefixBloomFilter := mkPBF {
  has_bitmap : bool;
  k : Z;
  writing_col : Z;
  reading_col : Z }.

Definition new_PBF : PrefixBloomFilter :=
  {| has_bitmap := false; k := 0; writing_col := MAX32; reading_col := MAX32 |}.

(** [init(bitmap, numHashFunctions)]; a bitmap that is too small only prints. *)
Definition init (f : PrefixBloomFilter) (numHashFunctions : Z) : PrefixBloomFilter :=
  {| has_bitmap := true; k := numHashFunctions; writing_col := MAX32; reading_col := MAX32 |}.

Definition getWritingCol (f : PrefixBloomFilter) : Z :=
  if negb (has_bitmap f) then MAX64 else writing_col f.

Definition setWritingCol (f : PrefixBloomFilter) (b : BitMap) (col : Z) : PrefixBloomFilter :=
  if negb (has_bitmap f) then f
  else if getColCount b <=? col then f
  else {| has_bitmap := has_bitmap f; k := k f; writing_col := col; reading_col := reading_col f |}.

Definition setReadingCol (f : PrefixBloomFilter) (b : BitMap) (col : Z) : PrefixBloomFilter :=
  if negb (has_bitmap f) then f
  else if getColCount b <=? col then f
  else {| has_bitmap := has_bitmap f; k := k f; writing_col := writing_col f; reading_col := col |}.

(** Short-circuiting loops: [all_get] stops at the first [false]; [all_set]
    also threads the matrix, keeping what was written before it stopped;
    [any_get] stops at the first [true]. *)
Fixpoint all_get {A} (p : A -> res bool) (l : list A) : res bool :=
  match l with
  | [] => Ok true
  | x :: l => v ← p x; if negb v then Ok false else all_get p l
  end.

Fixpoint any_get {A} (p : A -> res bool) (l : list A) : res bool :=
  match l with
  | [] => Ok false
  | x :: l => v ← p x; if v : bool then Ok true else any_get p l
  end.

Fixpoint all_set {A} (p : BitMap -> A -> res (bool * BitMap)) (b : BitMap) (l : list A)
  : res (bool * BitMap) :=
  match l with
  | [] => Ok (true, b)
  | x :: l => '(v, b') ← p b x; if negb v then Ok (false, b') else all_set p b' l
  end.

(** [for (int i = hi; i >= lo; --i)]: the values [i] takes. *)
Definition down_from (hi lo : Z) : list Z :=
  (fun j => hi - j) <$> zseq (hi - lo + 1).

Section filter.
(** [std::hash<std::string>] on the bytes and [std::hash<u_int64_t>]. *)
Context (hash_str : list Z -> Z) (hash_u64 : Z -> Z).

Definition hashFunction (element : list Z) (i : Z) : Z :=
  let h := u64 (u64 (hash_str element) + HASH_SEED * i) in
  u64 (hash_u64 h).

(** The row of the [i]-th hash of a prefix and its next byte. *)
Definition bloom_row (prefix : list Z) (offset byte bloom_len i : Z) : Z :=
  let hash_value := hashFunction prefix i mod bloom_len in
  let bit_pos := u64 (byte * SLICE_VALUE_COUNT + hash_value) in
  u64 (bit_pos + offset).

Definition setBloom (f : PrefixBloomFilter) (b : BitMap) (prefix : list Z)
  (offset byte bloom_len : Z) : res (bool * BitMap) :=
  all_set (fun b i => set b (bloom_row prefix offset byte bloom_len i) (writing_col f))
          b (zseq (k f)).

Definition getBloom (f : PrefixBloomFilter) (b : BitMap) (prefix : list Z)
  (offset byte bloom_len : Z) : res bool :=
  all_get (fun i => get b (bloom_row prefix offset byte bloom_len i) (reading_col f))
          (zseq (k f)).

(** The byte of [ip] at distance [8 * i] from its low end. *)
Definition ip4_byte (ip i : Z) : Z := Z.land (Z.shiftr ip (8 * i)) 0xFF.

Definition ip4_row (ip i j offset : Z) : Z :=
  u64 (u64 (ip4_byte ip i * SLICE_VALUE_COUNT + ip4_byte ip j) + offset).

Definition ip4_slice_offset (offset i : Z) : Z :=
  u64 (offset + SLICE_VALUE_COUNT * SLICE_VALUE_COUNT * 2
       + SLICE_VALUE_COUNT * IPV4_BLOOM_LEN * (4 - i - 3)).

Definition setIPv4 (f : PrefixBloomFilter) (b : BitMap) (ip offset : Z)
  : res (bool * BitMap) :=
  '(v, b) ← set b (ip4_row ip 3 2 offset) (writing_col f);
  if negb v then Ok (false, b) else
  '(v, b) ← set b (u64 (ip4_row ip 1 0 offset + SLICE_VALUE_COUNT * SLICE_VALUE_COUNT))
                (writing_col f);
  if negb v then Ok (false, b) else
  all_set (fun b i =>
      let byte := ip4_byte ip i in
      let prefix := Z.shiftr ip (8 * (i + 1)) in
      setBloom f b (le_bytes 4 prefix) (ip4_slice_offset offset i) byte IPV4_BLOOM_LEN)
    b (down_from 1 0).

Definition ip6_byte (ip : IPv6Address) (i : Z) : Z :=
  Z.land (low (ipv6_shr ip (8 * i))) 0xFF.

Definition ip6_row (ip : IPv6Address) (i j offset : Z) : Z :=
  u64 (u64 (ip6_byte ip i * SLICE_VALUE_COUNT + ip6_byte ip j) + offset).

Definition ip6_slice_offset (bloom_len offset i : Z) : Z :=
  u64 (offset + SLICE_VALUE_COUNT * SLICE_VALUE_COUNT
       + SLICE_VALUE_COUNT * bloom_len * (16 - i - 3)).

Definition setIPv6 (f : PrefixBloomFilter) (b : BitMap) (ip : IPv6Address) (offset : Z)
  : res (bool * BitMap) :=
  '(v, b) ← set b (ip6_row ip 15 14 offset) (writing_col f);
  if negb v then Ok (false, b) else
  all_set (fun b i =>
      let byte := ip6_byte ip i in
      let prefix := ipv6_shr ip (8 * (i + 1)) in
      setBloom f b (ipv6_bytes prefix) (ip6_slice_offset IPV6_BLOOM_LEN offset i) byte
               IPV6_BLOOM_LEN)
    b (down_from 13 0).

(** One step of the byte loop of the IPv4 and IPv6 checks. *)
Definition check4_slice (f : PrefixBloomFilter) (b : BitMap) (ip offset i : Z) : res bool :=
  let byte := ip4_byte ip i in
  let prefix := Z.shiftr ip (8 * (i + 1)) in
  getBloom f b (le_bytes 4 prefix) (ip4_slice_offset offset i) byte IPV4_BLOOM_LEN.

Definition check6_slice (f : PrefixBloomFilter) (b : BitMap) (ip : IPv6Address)
  (offset i : Z) : res bool :=
  let byte := ip6_byte ip i in
  let prefix := ipv6_shr ip (8 * (i + 1)) in
  getBloom f b (ipv6_bytes prefix) (ip6_slice_offset IPV4_BLOOM_LEN offset i) byte
           IPV6_BLOOM_LEN.

Definition checkIPv4 (f : PrefixBloomFilter) (b : BitMap) (ip offset : Z) : res bool :=
  v ← get b (ip4_row ip 3 2 offset) (reading_col f);
  if negb v then Ok false else
  v ← get b (u64 (ip4_row ip 1 0 offset + SLICE_VALUE_COUNT * SLICE_VALUE_COUNT))
          (reading_col f);
  if negb v then Ok false else
  all_get (check4_slice f b ip offset) (down_from 1 0).

(** The overload with [prefix_len] (in bytes): the branches fall through as
    in the source. *)
Definition checkIPv4_prefix (f : PrefixBloomFilter) (b : BitMap) (ip offset prefix_len : Z)
  : res bool :=
  if prefix_len =? 0 then Ok true else
  found ← (if prefix_len =? 1 then
             any_get (fun i => get b (u64 (u64 (ip4_byte ip 3 * SLICE_VALUE_COUNT + i) + offset))
                                     (reading_col f)) (zseq SLICE_VALUE_COUNT)
           else Ok false);
  if found : bool then Ok true else
  v ← get b (ip4_row ip 3 2 offset) (reading_col f);
  if negb v then Ok false else
  if prefix_len =? 2 then Ok true else
  tmp ← (if prefix_len =? 3 then
           any_get (fun i => get b (u64 (u64 (u64 (ip4_byte ip 1 * SLICE_VALUE_COUNT + i) + offset)
                                         + SLICE_VALUE_COUNT * SLICE_VALUE_COUNT))
                                   (reading_col f)) (zseq SLICE_VALUE_COUNT)
         else Ok true);
  if negb tmp then Ok false else
  v ← (if prefix_len =? 4 then
         get b (u64 (ip4_row ip 1 0 offset + SLICE_VALUE_COUNT * SLICE_VALUE_COUNT))
             (reading_col f)
       else Ok true);
  if negb v then Ok false else
  all_get (check4_slice f b ip offset) (down_from 1 (i32 (u64 (4 - prefix_len)))).

Definition checkIPv6 (f : PrefixBloomFilter) (b : BitMap) (ip : IPv6Address) (offset : Z)
  : res bool :=
  v ← get b (ip6_row ip 15 14 offset) (reading_col f);
  if negb v then Ok false else
  all_get (check6_slice f b ip offset) (down_from 13 0).

Definition checkIPv6_prefix (f : PrefixBloomFilter) (b : BitMap) (ip : IPv6Address)
  (offset prefix_len : Z) : res bool :=
  if prefix_len =? 0 then Ok true else
  found ← (if prefix_len =? 1 then
             any_get (fun i => get b (u64 (u64 (ip6_byte ip 15 * SLICE_VALUE_COUNT + i) + offset))
                                     (reading_col f)) (zseq SLICE_VALUE_COUNT)
           else Ok false);
  if found : bool then Ok true else
  v ← get b (ip6_row ip 15 14 offset) (reading_col f);
  if negb v then Ok false else
  if prefix_len =? 2 then Ok true else
  all_get (check6_slice f b ip offset) (down_from 13 (i32 (u64 (16 - prefix_len)))).

(** The entry points: the index type selects the region of rows. *)
Definition port_offset (t : IndexType) : option Z :=
  match t with SRCPORT => Some 0 | DSTPORT => Some PORT_BIT_LEN | _ => None end.
Definition ip4_offset (t : IndexType) : option Z :=
  match t with
  | SRCIP => Some (PORT_BIT_LEN * 2)
  | DSTIP => Some (PORT_BIT_LEN * 2 + IPV4_BIT_LEN)
  | _ => None
  end.
Definition ip6_offset (t : IndexType) : option Z :=
  match t with
  | SRCIPv6 => Some (PORT_BIT_LEN * 2 + IPV4_BIT_LEN * 2)
  | DSTIPv6 => Some (PORT_BIT_LEN * 2 + IPV4_BIT_LEN * 2 + IPV6_BIT_LEN)
  | _ => None
  end.

Definition insertPort (f : PrefixBloomFilter) (b : BitMap) (port : Z) (t : IndexType)
  : res (bool * BitMap) :=
  if negb (has_bitmap f) then Ok (false, b) else
  match port_offset t with
  | Some o => set b (o + port) (writing_col f)
  | None => Ok (false, b)
  end.

Definition insertIPv4 (f : PrefixBloomFilter) (b : BitMap) (ip : Z) (t : IndexType)
  : res (bool * BitMap) :=
  if negb (has_bitmap f) then Ok (false, b) else
  match ip4_offset t with Some o => setIPv4 f b ip o | None => Ok (false, b) end.

Definition insertIPv6 (f : PrefixBloomFilter) (b : BitMap) (ip : IPv6Address) (t : IndexType)
  : res (bool * BitMap) :=
  if negb (has_bitmap f) then Ok (false, b) else
  match ip6_offset t with Some o => setIPv6 f b ip o | None => Ok (false, b) end.

Definition getPort (f : PrefixBloomFilter) (b : BitMap) (port : Z) (t : IndexType) : res bool :=
  if negb (has_bitmap f) then Ok false else
  match port_offset t with
  | Some o => get b (o + port) (reading_col f)
  | None => Ok false
  end.

Definition getIPv4 (f : PrefixBloomFilter) (b : BitMap) (ip : Z) (t : IndexType) : res bool :=
  if negb (has_bitmap f) then Ok false else
  match ip4_offset t with Some o => checkIPv4 f b ip o | None => Ok false end.

Definition getIPv4_prefix (f : PrefixBloomFilter) (b : BitMap) (ip : Z) (t : IndexType)
  (prefix_len : Z) : res bool :=
  if negb (has_bitmap f) then Ok false else
  match ip4_offset t with
  | Some o => checkIPv4_prefix f b ip o prefix_len
  | None => Ok false
  end.

Definition getIPv6 (f : PrefixBloomFilter) (b : BitMap) (ip : IPv6Address) (t : IndexType)
  : res bool :=
  if negb (has_bitmap f) then Ok false else
  match ip6_offset t with Some o => checkIPv6 f b ip o | None => Ok false end.

Definition getIPv6_prefix (f : PrefixBloomFilter) (b : BitMap) (ip : IPv6Address)
  (t : IndexType) (prefix_len : Z) : res bool :=
  if negb (has_bitmap f) then Ok false else
  match ip6_offset t with
  | Some o => checkIPv6_prefix f b ip o prefix_len
  | None => Ok false
  end.

(** ** The abstract membership predicates *)
Definition bloom_in (f : PrefixBloomFilter) (b : BitMap) (prefix : list Z)
  (offset byte bloom_len c : Z) : Prop :=
  forall i, i ∈ zseq (k f) -> cell b (bloom_row prefix offset byte bloom_len i) c = true.

Definition slice4_in (f : PrefixBloomFilter) (b : BitMap) (ip offset c i : Z) : Prop :=
  bloom_in f b (le_bytes 4 (Z.shiftr ip (8 * (i + 1)))) (ip4_slice_offset offset i)
           (ip4_byte ip i) IPV4_BLOOM_LEN c.

Definition slice6_in (f : PrefixBloomFilter) (b : BitMap) (ip : IPv6Address)
  (offset c i : Z) : Prop :=
  bloom_in f b (ipv6_bytes (ipv6_shr ip (8 * (i + 1))))
           (ip6_slice_offset IPV6_BLOOM_LEN offset i) (ip6_byte ip i) IPV6_BLOOM_LEN c.

(** Everything an insertion of an IPv4 address sets in column [c]. *)
Definition ip4_in (f : PrefixBloomFilter) (b : BitMap) (ip offset c : Z) : Prop :=
  cell b (ip4_row ip 3 2 offset) c = true /\
  cell b (u64 (ip4_row ip 1 0 offset + SLICE_VALUE_COUNT * SLICE_VALUE_COUNT)) c = true /\
  Forall (slice4_in f b ip offset c) (down_from 1 0).

Definition ip6_in (f : PrefixBloomFilter) (b : BitMap) (ip : IPv6Address)
  (offset c : Z) : Prop :=
  cell b (ip6_row ip 15 14 offset) c = true /\
  Forall (slice6_in f b ip offset c) (down_from 13 0).

(** [b'] is a later state of the matrix in which no bit was cleared. *)
Definition grows (b b' : BitMap) : Prop :=
  wf b' /\ same_dims b' b /\ forall r c, cell b r c = true -> cell b' r c = true.

(** A postcondition of an insertion step: it succeeds, only adds bits, and
    establishes [Q] when it reports [true]. *)
Definition inserts (b : BitMap) (m : res (bool * BitMap)) (Q : BitMap -> Prop) : Prop :=
  exists v b', m = Ok (v, b') /\ grows b b' /\ (v = true -> Q b').

Lemma grows_refl b : wf b -> grows b b.
Proof. by repeat split; try apply H. Qed.

Lemma grows_trans a b c : grows a b -> grows b c -> grows a c.
Proof.
  intros (?&?&?) (?&?&?). split; [done|]. split; [by eapply same_dims_trans|eauto].
Qed.

Lemma set_inserts b r c :
  wf b -> 0 <= r -> 0 <= c ->
  inserts b (set b r c) (fun b' => cell b' r c = true).
Proof.
  intros Hb Hr Hc. destruct (set_cell b r c Hb Hr Hc) as (b' & E & Hw & Hd & Hs).
  exists (in_range b r c), b'. split; [done|]. split.
  - split; [done|]. split; [done|]. intros r' c' H. by rewrite Hs, H.
  - intros Hin. rewrite Hs, Hin, bool_decide_eq_true_2 by done. apply orb_true_r.
Qed.

(** Insertion steps compose: a later step keeps what an earlier one set. *)
Lemma inserts_seq b m (Q Q' : BitMap -> Prop) (next : BitMap -> res (bool * BitMap)) :
  (forall b b', grows b b' -> Q b -> Q b') ->
  inserts b m Q ->
  (forall b', wf b' -> inserts b' (next b') Q') ->
  inserts b ('(v, b') ← m; if negb v then Ok (false, b') else next b')
            (fun b' => Q b' /\ Q' b').
Proof.
  intros Hmono (v & b1 & E & Hg & HQ) Hnext. rewrite E. cbn [mbind res_bind].
  destruct v; cbn [negb].
  - destruct (Hnext b1 (proj1 Hg)) as (v & b2 & E2 & Hg2 & HQ2). rewrite E2.
    exists v, b2. split; [done|]. split; [by eapply grows_trans|]. eauto.
  - exists false, b1. naive_solver.
Qed.

Lemma inserts_weaken b m (Q Q' : BitMap -> Prop) :
  inserts b m Q -> (forall b', Q b' -> Q' b') -> inserts b m Q'.
Proof. intros (v & b' & E & Hg & HQ) H. exists v, b'. naive_solver. Qed.

Lemma all_set_inserts {A} (p : BitMap -> A -> res (bool * BitMap))
  (Q : A -> BitMap -> Prop) (l : list A) b :
  (forall b b' x, grows b b' -> Q x b -> Q x b') ->
  (forall b x, wf b -> inserts b (p b x) (Q x)) ->
  wf b -> inserts b (all_set p b l) (fun b' => Forall (fun x => Q x b') l).
Proof.
  intros Hm Hp. revert b. induction l as [|x l IH]; intros b Hb; cbn [all_set].
  - exists true, b. auto using grows_refl.
  - eapply inserts_weaken; [apply (inserts_seq b (p b x) (Q x)); eauto|].
    cbv beta. intros b' [? ?]. by constructor.
Qed.

Lemma bloom_row_nonneg pre o byte len i : 0 <= bloom_row pre o byte len i.
Proof. apply u64_range. Qed.

Lemma setBloom_inserts f b pre o byte len :
  wf b -> 0 <= writing_col f ->
  inserts b (setBloom f b pre o byte len)
    (fun b' => bloom_in f b' pre o byte len (writing_col f)).
Proof.
  intros Hb Hc. eapply inserts_weaken.
  - apply (all_set_inserts _
      (fun i b' => cell b' (bloom_row pre o byte len i) (writing_col f) = true)); [| |done].
    + intros ??? (_&_&H). eauto.
    + intros. by apply set_inserts; [|apply bloom_row_nonneg|].
  - cbv beta. intros b' H i Hi. by apply (proj1 (Forall_forall _ _) H).
Qed.

Lemma bloom_in_grows f b b' pre o byte len c :
  grows b b' -> bloom_in f b pre o byte len c -> bloom_in f b' pre o byte len c.
Proof. intros (_&_&H) Hb i Hi. eauto. Qed.

Lemma cell_grows b b' r c : grows b b' -> cell b r c = true -> cell b' r c = true.
Proof. intros (_&_&H). auto. Qed.

Lemma setIPv4_inserts f b ip o :
  wf b -> 0 <= writing_col f ->
  inserts b (setIPv4 f b ip o) (fun b' => ip4_in f b' ip o (writing_col f)).
Proof.
  intros Hb Hc. unfold setIPv4, ip4_in.
  apply inserts_seq; [eauto using cell_grows|by apply set_inserts; [|apply u64_range|]|].
  intros b1 Hb1.
  apply inserts_seq; [eauto using cell_grows|by apply set_inserts; [|apply u64_range|]|].
  intros b2 Hb2. unfold slice4_in. apply (all_set_inserts _ (fun i b' => _)); [..|done].
  - intros ???. apply bloom_in_grows.
  - intros. by apply setBloom_inserts.
Qed.

Lemma setIPv6_inserts f b ip o :
  wf b -> 0 <= writing_col f ->
  inserts b (setIPv6 f b ip o) (fun b' => ip6_in f b' ip o (writing_col f)).
Proof.
  intros Hb Hc. unfold setIPv6, ip6_in.
  apply inserts_seq; [eauto using cell_grows|by apply set_inserts; [|apply u64_range|]|].
  intros b1 Hb1. unfold slice6_in. apply (all_set_inserts _ (fun i b' => _)); [..|done].
  - intros ???. apply bloom_in_grows.
  - intros. by apply setBloom_inserts.
Qed.

Lemma ip4_in_grows f b b' ip o c : grows b b' -> ip4_in f b ip o c -> ip4_in f b' ip o c.
Proof.
  intros Hg (H1&H2&H3). split; [eauto using cell_grows|]. split; [eauto using cell_grows|].
  eapply Forall_impl; [exact H3|]. intros i. by apply bloom_in_grows.
Qed.

Lemma ip6_in_grows f b b' ip o c : grows b b' -> ip6_in f b ip o c -> ip6_in f b' ip o c.
Proof.
  intros Hg (H1&H3). split; [eauto using cell_grows|].
  eapply Forall_impl; [exact H3|]. intros i. by apply bloom_in_grows.
Qed.

(** ** Reading back *)
Lemma all_get_true {A} (p : A -> res bool) l :
  (forall x, x ∈ l -> p x = Ok true) -> all_get p l = Ok true.
Proof.
  induction l as [|x l IH]; intros H; [done|]. cbn [all_get].
  rewrite H by left. cbn [mbind res_bind negb]. apply IH. intros. apply H. by right.
Qed.

Lemma any_get_true {A} (p : A -> res bool) l x :
  (forall y, is_Ok (p y) = true) -> x ∈ l -> p x = Ok true -> any_get p l = Ok true.
Proof.
  intros Hp Hx E. induction Hx as [x l|x y l Hx IH]; cbn [any_get].
  - by rewrite E.
  - destruct (proj1 (is_Ok_iff _) (Hp y)) as [v ->]. cbn [mbind res_bind].
    destruct v; auto.
Qed.

Lemma get_in b r c : wf b -> 0 <= r -> 0 <= c -> cell b r c = true -> get b r c = Ok true.
Proof. intros. by rewrite get_cell, H2. Qed.

Lemma getBloom_in f b pre o byte len :
  wf b -> 0 <= reading_col f ->
  bloom_in f b pre o byte len (reading_col f) ->
  getBloom f b pre o byte len = Ok true.
Proof.
  intros Hb Hc H. apply all_get_true. intros i Hi.
  apply get_in; [done|apply bloom_row_nonneg|done|]. by apply H.
Qed.

Lemma bloom_in_k f f' b pre o byte len c :
  k f = k f' -> bloom_in f b pre o byte len c -> bloom_in f' b pre o byte len c.
Proof. unfold bloom_in. by intros ->. Qed.

Lemma shiftr_agree x y a b :
  0 <= a <= b -> Z.shiftr x a = Z.shiftr y a -> Z.shiftr x b = Z.shiftr y b.
Proof.
  intros Hab E. replace b with (a + (b - a)) by lia.
  by rewrite <-!Z.shiftr_shiftr, E by lia.
Qed.

Lemma byte_index_range x i : 0 <= ip4_byte x i < 256.
Proof.
  unfold ip4_byte. change 255 with (Z.ones 8). rewrite Z.land_ones by lia.
  apply Z.mod_pos_bound. lia.
Qed.

Lemma elem_of_down_from i hi lo : lo <= hi + 1 -> i ∈ down_from hi lo <-> lo <= i <= hi.
Proof.
  intros H. unfold down_from. rewrite list_elem_of_fmap. split.
  - intros (j & -> & Hj%elem_of_zseq). lia.
  - intros Hi. exists (hi - i). rewrite elem_of_zseq. lia.
Qed.

Section ip4.
Context (f f' : PrefixBloomFilter) (b : BitMap) (ip ip' o p : Z).
Context (Hb : wf b) (Hc : 0 <= reading_col f') (Hk : k f = k f').
Context (Hin : ip4_in f b ip o (reading_col f')) (Hp : 0 <= p <= 4).
Context (Hag : Z.shiftr ip' (8 * (4 - p)) = Z.shiftr ip (8 * (4 - p))).

Lemma ip4_agree i : 4 - p <= i -> Z.shiftr ip' (8 * i) = Z.shiftr ip (8 * i).
Proof. intros. eapply shiftr_agree; [|apply Hag]. lia. Qed.

Lemma ip4_byte_agree i : 4 - p <= i -> ip4_byte ip' i = ip4_byte ip i.
Proof. intros. unfold ip4_byte. by rewrite ip4_agree. Qed.

Lemma check4_slice_in i :
  4 - p <= i -> 0 <= i <= 1 -> check4_slice f' b ip' o i = Ok true.
Proof.
  intros Hi Hr. destruct Hin as (_&_&Hs).
  apply (getBloom_in f'); [done|done|]. eapply bloom_in_k; [exact Hk|].
  rewrite ip4_byte_agree, ip4_agree by lia.
  apply (proj1 (Forall_forall _ _) Hs), elem_of_down_from; lia.
Qed.

Lemma checkIPv4_prefix_in : checkIPv4_prefix f' b ip' o p = Ok true.
Proof.
  pose proof Hin as (H1&H2&_).
  assert (Hg : forall r c, 0 <= r -> 0 <= c -> is_Ok (get b r c) = true)
    by (intros; by rewrite get_cell).
  assert (Hrow : 2 <= p -> get b (ip4_row ip' 3 2 o) (reading_col f') = Ok true).
  { intros. apply get_in; [done|apply u64_range|done|]. unfold ip4_row in *.
    by rewrite !ip4_byte_agree by lia. }
  assert (Hrest : 3 <= p ->
    all_get (check4_slice f' b ip' o) (down_from 1 (i32 (u64 (4 - p)))) = Ok true).
  { intros. rewrite u64_small, i32_small by lia. apply all_get_true.
    intros i Hi%elem_of_down_from; [|lia]. apply check4_slice_in; lia. }
  pose proof ip4_byte_agree as Hba.
  assert (p = 0 \/ p = 1 \/ p = 2 \/ p = 3 \/ p = 4) as [->|[->|[->|[->| ->]]]] by lia;
    unfold checkIPv4_prefix; cbn [Z.eqb Pos.eqb mbind res_bind negb]; [done|..];
    try (rewrite Hrow by lia; cbn [mbind res_bind negb]); [..|done| |].
  - rewrite (any_get_true _ _ (ip4_byte ip 2)); [done| | |].
    + intros y. apply Hg; [apply u64_range|done].
    + apply elem_of_zseq, byte_index_range.
    + apply get_in; [done|apply u64_range|done|].
      rewrite Hba by lia. exact H1.
  - rewrite (any_get_true _ _ (ip4_byte ip 0)); [by apply Hrest|..].
    + intros y. apply Hg; [apply u64_range|done].
    + apply elem_of_zseq, byte_index_range.
    + apply get_in; [done|apply u64_range|done|].
      rewrite Hba by lia. exact H2.
  - rewrite get_in; [by apply Hrest|done|apply u64_range|done|].
    unfold ip4_row in *. by rewrite !Hba by lia.
Qed.
End ip4.

Lemma checkIPv4_in f f' b ip o :
  wf b -> 0 <= reading_col f' -> k f = k f' ->
  ip4_in f b ip o (reading_col f') -> checkIPv4 f' b ip o = Ok true.
Proof.
  intros Hb Hc Hk Hin. pose proof Hin as (H1&H2&_). unfold checkIPv4.
  rewrite !get_in by (try done; apply u64_range). cbn [mbind res_bind negb].
  apply all_get_true. intros i Hi%elem_of_down_from; [|lia].
  by apply (check4_slice_in f f' b ip ip o 4); try lia.
Qed.

Section ip6.
Context (f f' : PrefixBloomFilter) (b : BitMap) (ip ip' : IPv6Address) (o p : Z).
Context (Hb : wf b) (Hc : 0 <= reading_col f') (Hk : k f = k f').
Context (Hw : ipv6_wf ip) (Hw' : ipv6_wf ip').
Context (Hin : ip6_in f b ip o (reading_col f')) (Hp : 0 <= p <= 16).
Context (Hag : ipv6_shr ip' (8 * (16 - p)) = ipv6_shr ip (8 * (16 - p))).

Lemma ip6_agree i : 16 - p <= i -> ipv6_shr ip' (8 * i) = ipv6_shr ip (8 * i).
Proof.
  intros. apply ipv6_num_inj; try (by apply ipv6_shr_wf; [|lia]).
  rewrite !ipv6_shr_num by (done || lia).
  apply (shiftr_agree _ _ (8 * (16 - p))); [lia|].
  by rewrite <-!ipv6_shr_num, Hag by (done || lia).
Qed.

Lemma ip6_byte_agree i : 16 - p <= i -> ip6_byte ip' i = ip6_byte ip i.
Proof. intros. unfold ip6_byte. by rewrite ip6_agree. Qed.

Lemma check6_slice_in i :
  16 - p <= i -> 0 <= i <= 13 -> check6_slice f' b ip' o i = Ok true.
Proof.
  intros Hi Hr. destruct Hin as (_&Hs).
  apply (getBloom_in f'); [done|done|]. eapply bloom_in_k; [exact Hk|].
  rewrite ip6_byte_agree, ip6_agree by lia.
  apply (proj1 (Forall_forall _ _) Hs), elem_of_down_from; lia.
Qed.

Lemma ip6_byte_range (a : IPv6Address) i : 0 <= ip6_byte a i < 256.
Proof.
  unfold ip6_byte. change 255 with (Z.ones 8). rewrite Z.land_ones by lia.
  apply Z.mod_pos_bound. lia.
Qed.

Lemma checkIPv6_prefix_in : checkIPv6_prefix f' b ip' o p = Ok true.
Proof.
  pose proof Hin as (H1&_). unfold checkIPv6_prefix.
  destruct (p =? 0) eqn:E0; [done|]. destruct (p =? 1) eqn:E1; zbool.
  - rewrite (any_get_true _ _ (ip6_byte ip 14)); [done| | |].
    + intros y. rewrite get_cell; [done|done|apply u64_range|done].
    + apply elem_of_zseq, ip6_byte_range.
    + apply get_in; [done|apply u64_range|done|].
      rewrite ip6_byte_agree by lia. exact H1.
  - cbn [mbind res_bind].
    rewrite get_in; [|done|apply u64_range|done|].
    2: { unfold ip6_row in *. by rewrite !ip6_byte_agree by lia. }
    cbn [mbind res_bind negb]. case_test; [done|]. zbool.
    rewrite u64_small, i32_small by lia. apply all_get_true.
    intros i Hi%elem_of_down_from; [|lia]. apply check6_slice_in; lia.
Qed.
End ip6.

Lemma checkIPv6_in f f' b ip o :
  wf b -> 0 <= reading_col f' -> k f = k f' -> ipv6_wf ip ->
  ip6_in f b ip o (reading_col f') -> checkIPv6 f' b ip o = Ok true.
Proof.
  intros Hb Hc Hk Hw Hin. pose proof Hin as (H1&_). unfold checkIPv6.
  rewrite !get_in by (try done; apply u64_range). cbn [mbind res_bind negb].
  apply all_get_true. intros i Hi%elem_of_down_from; [|lia].
  by apply (check6_slice_in f f' b ip ip o 16); try lia.
Qed.

(** ** Keys, insertion histories, queries *)
Inductive fkey :=
| KPort (port : Z) (t : IndexType)
| KIPv4 (ip : Z) (t : IndexType)
| KIPv6 (ip : IPv6Address) (t : IndexType).

Definition fkey_wf (key : fkey) : Prop :=
  match key with
  | KPort p _ => is_u 16 p
  | KIPv4 ip _ => is_u 32 ip
  | KIPv6 ip _ => ipv6_wf ip
  end.

Definition insert_key (f : PrefixBloomFilter) (b : BitMap) (key : fkey) : res (bool * BitMap) :=
  match key with
  | KPort p t => insertPort f b p t
  | KIPv4 ip t => insertIPv4 f b ip t
  | KIPv6 ip t => insertIPv6 f b ip t
  end.

Definition query_key (f : PrefixBloomFilter) (b : BitMap) (key : fkey) : res bool :=
  match key with
  | KPort p t => getPort f b p t
  | KIPv4 ip t => getIPv4 f b ip t
  | KIPv6 ip t => getIPv6 f b ip t
  end.

(** Later insertions, by any filter object that shares the matrix. *)
Fixpoint run_inserts (b : BitMap) (l : list (PrefixBloomFilter * fkey)) : res BitMap :=
  match l with
  | [] => Ok b
  | (f, key) :: l => '(_, b') ← insert_key f b key; run_inserts b' l
  end.

(** What an insertion establishes about its writing column. *)
Definition key_in (f : PrefixBloomFilter) (b : BitMap) (key : fkey) (c : Z) : Prop :=
  match key with
  | KPort p t => forall o, port_offset t = Some o -> cell b (o + p) c = true
  | KIPv4 ip t => forall o, ip4_offset t = Some o -> ip4_in f b ip o c
  | KIPv6 ip t => forall o, ip6_offset t = Some o -> ip6_in f b ip o c
  end.

Definition key_type_ok (key : fkey) : bool :=
  match key with
  | KPort _ t => bool_decide (is_Some (port_offset t))
  | KIPv4 _ t => bool_decide (is_Some (ip4_offset t))
  | KIPv6 _ t => bool_decide (is_Some (ip6_offset t))
  end.

Lemma port_offset_nonneg t o : port_offset t = Some o -> 0 <= o.
Proof. destruct t; simpl; intros [= <-]; vm_compute; discriminate. Qed.

Lemma insert_key_inserts f b key :
  wf b -> 0 <= writing_col f -> fkey_wf key ->
  inserts b (insert_key f b key)
    (fun b' => has_bitmap f = true /\ key_type_ok key = true /\
               key_in f b' key (writing_col f)).
Proof.
  intros Hb Hc Hk.
  assert (Hno : forall Q, inserts b (Ok (false, b)) Q)
    by (intros; exists false, b; split; [done|split; [by apply grows_refl|done]]).
  destruct key as [p t|ip t|ip t]; simpl in *;
    unfold insertPort, insertIPv4, insertIPv6;
    destruct (has_bitmap f); cbn [negb]; try (by apply Hno).
  - destruct (port_offset t) eqn:Eo; [|apply Hno].
    eapply inserts_weaken; [apply set_inserts; try done|].
    + apply port_offset_nonneg in Eo. unfold is_u in Hk. lia.
    + cbv beta. intros b' H. naive_solver.
  - destruct (ip4_offset t) eqn:Eo; [|apply Hno].
    eapply inserts_weaken; [by apply setIPv4_inserts|].
    cbv beta. intros b' H. naive_solver.
  - destruct (ip6_offset t) eqn:Eo; [|apply Hno].
    eapply inserts_weaken; [by apply setIPv6_inserts|].
    cbv beta. intros b' H. naive_solver.
Qed.

Lemma key_in_grows f b b' key c : grows b b' -> key_in f b key c -> key_in f b' key c.
Proof.
  destruct key; simpl; intros Hg H o Ho; specialize (H o Ho);
    [eapply cell_grows|eapply ip4_in_grows|eapply ip6_in_grows]; done.
Qed.

Lemma run_inserts_grows l b :
  wf b -> Forall (fun '(f, key) => 0 <= writing_col f /\ fkey_wf key) l ->
  exists b', run_inserts b l = Ok b' /\ grows b b'.
Proof.
  intros Hb Hl. revert b Hb. induction Hl as [|[f key] l [Hc Hk] _ IH]; intros b Hb.
  - exists b. auto using grows_refl.
  - destruct (insert_key_inserts f b key Hb Hc Hk) as (v & b1 & E & Hg & _).
    destruct (IH b1 (proj1 Hg)) as (b2 & E2 & Hg2). cbn [run_inserts].
    rewrite E. cbn [mbind res_bind]. eauto using grows_trans.
Qed.

(** The state after an insertion that reported success and later ones. *)
Lemma insert_then_run f b key b1 l b2 :
  wf b -> 0 <= writing_col f -> fkey_wf key ->
  insert_key f b key = Ok (true, b1) ->
  Forall (fun '(f, key) => 0 <= writing_col f /\ fkey_wf key) l ->
  run_inserts b1 l = Ok b2 ->
  wf b2 /\ key_in f b2 key (writing_col f) /\ key_type_ok key = true.
Proof.
  intros Hb Hc Hk E Hl E2.
  destruct (insert_key_inserts f b key Hb Hc Hk) as (v & b' & E' & Hg & HQ).
  rewrite E in E'. injection E' as <- <-. destruct (HQ eq_refl) as (_&Ht&Hi).
  destruct (run_inserts_grows l b1 (proj1 Hg) Hl) as (b' & E' & Hg2).
  rewrite E2 in E'. injection E' as <-.
  split; [apply Hg2|]. split; [by eapply key_in_grows|done].
Qed.

(** What a column holds is found through it. *)
Lemma key_in_query f f' b key :
  wf b -> fkey_wf key -> 0 <= writing_col f -> key_type_ok key = true ->
  key_in f b key (writing_col f) ->
  has_bitmap f' = true -> k f' = k f -> reading_col f' = writing_col f ->
  query_key f' b key = Ok true.
Proof.
  intros Hw Hk Hc Ht Hi Hh Hkk Hcol. rewrite <-Hcol in Hi, Hc. symmetry in Hkk.
  destruct key as [p t|ip t|ip t]; simpl in *;
    unfold getPort, getIPv4, getIPv6; rewrite Hh; cbn [negb];
    apply bool_decide_eq_true in Ht as [o Ho]; rewrite Ho.
  - apply port_offset_nonneg in Ho as ?. apply get_in; auto.
    unfold is_u in Hk. lia.
  - apply (checkIPv4_in f f'); auto.
  - apply (checkIPv6_in f f'); auto.
Qed.

(** ** Capacity: an insertion into a large enough matrix reports success *)
Definition ROWS_NEEDED : Z := (PORT_BIT_LEN + IPV4_BIT_LEN + IPV6_BIT_LEN) * 2.

(** [set] reports success exactly on cells in range. *)
Lemma set_succeeds b r c :
  wf b -> 0 <= r < row_count b -> 0 <= c < col_count b ->
  exists b', set b r c = Ok (true, b') /\ wf b' /\ same_dims b' b.
Proof.
  intros Hb Hr Hc. destruct (set_cell b r c) as (b' & E & Hw & Hd & _); [done|lia..|].
  replace (in_range b r c) with true in E by (symmetry; by apply in_range_iff). eauto.
Qed.

Lemma all_set_succeeds {A} (p : BitMap -> A -> res (bool * BitMap)) (l : list A) b0 b :
  (forall b x, x ∈ l -> wf b -> same_dims b b0 ->
     exists b', p b x = Ok (true, b') /\ wf b' /\ same_dims b' b0) ->
  wf b -> same_dims b b0 ->
  exists b', all_set p b l = Ok (true, b') /\ wf b' /\ same_dims b' b0.
Proof.
  revert b. induction l as [|x l IH]; intros b Hp Hb Hd; cbn [all_set]; [by eauto|].
  destruct (Hp b x) as (b1 & E & Hw & Hd1); [by left|done|done|].
  rewrite E. cbn [mbind res_bind negb]. apply IH; try done.
  intros. apply Hp; try done. by right.
Qed.

Lemma set_succeeds_dims b0 b r c :
  wf b -> same_dims b b0 -> 0 <= r < row_count b0 -> 0 <= c < col_count b0 ->
  exists b', set b r c = Ok (true, b') /\ wf b' /\ same_dims b' b0.
Proof.
  intros Hb Hd Hr Hc. destruct (set_succeeds b r c) as (b' & E & Hw & Hd').
  - done.
  - destruct Hd as (->&_). done.
  - destruct Hd as (_&->&_). done.
  - exists b'. split; [done|]. split; [done|]. by eapply same_dims_trans.
Qed.

Lemma setBloom_succeeds f b0 b pre o byte :
  wf b -> same_dims b b0 -> 0 <= writing_col f < col_count b0 ->
  0 <= byte < 256 -> 0 <= o -> o + 255 * 256 + 1024 <= row_count b0 ->
  row_count b0 < 2 ^ 64 ->
  exists b', setBloom f b pre o byte 1024 = Ok (true, b') /\ wf b' /\ same_dims b' b0.
Proof.
  intros Hb Hd Hc Hy Ho Hr Hm. apply all_set_succeeds; try done.
  intros b' i Hi Hw Hd'. apply set_succeeds_dims; try done.
  pose proof (Z.mod_pos_bound (hashFunction pre i) 1024 ltac:(lia)).
  unfold bloom_row. change SLICE_VALUE_COUNT with 256.
  rewrite !u64_small by (try rewrite u64_small; lia). lia.
Qed.

Lemma setIPv4_succeeds f b ip o :
  wf b -> 0 <= writing_col f < col_count b -> 0 <= o ->
  o + IPV4_BIT_LEN <= row_count b -> row_count b < 2 ^ 64 ->
  exists b', setIPv4 f b ip o = Ok (true, b') /\ wf b' /\ same_dims b' b.
Proof.
  intros Hb Hc Ho Hr Hm. change IPV4_BIT_LEN with 655360 in Hr.
  pose proof (byte_index_range ip) as Hy. unfold setIPv4, ip4_row.
  change SLICE_VALUE_COUNT with 256.
  pose proof (Hy 0). pose proof (Hy 1). pose proof (Hy 2). pose proof (Hy 3).
  rewrite !u64_small by (rewrite ?u64_small; rewrite ?u64_small; lia).
  destruct (set_succeeds_dims b b (ip4_byte ip 3 * 256 + ip4_byte ip 2 + o)
    (writing_col f)) as (b1 & -> & Hw1 & Hd1); [done|done|lia|done|].
  cbn [mbind res_bind negb].
  destruct (set_succeeds_dims b b1 (ip4_byte ip 1 * 256 + ip4_byte ip 0 + o + 256 * 256)
    (writing_col f)) as (b2 & -> & Hw2 & Hd2); [done|done|lia|done|].
  cbn [mbind res_bind negb]. apply all_set_succeeds; [|done|done].
  intros b' i Hi%elem_of_down_from Hw Hd; [|lia].
  unfold ip4_slice_offset. change SLICE_VALUE_COUNT with 256.
  change IPV4_BLOOM_LEN with 1024. rewrite u64_small by lia.
  apply setBloom_succeeds; try done; lia.
Qed.

Lemma setIPv6_succeeds f b ip o :
  wf b -> 0 <= writing_col f < col_count b -> 0 <= o ->
  o + IPV6_BIT_LEN <= row_count b -> row_count b < 2 ^ 64 ->
  exists b', setIPv6 f b ip o = Ok (true, b') /\ wf b' /\ same_dims b' b.
Proof.
  intros Hb Hc Ho Hr Hm. change IPV6_BIT_LEN with 3735552 in Hr.
  pose proof (ip6_byte_range ip) as Hy. unfold setIPv6, ip6_row.
  change SLICE_VALUE_COUNT with 256.
  pose proof (Hy 14). pose proof (Hy 15).
  rewrite !u64_small by (rewrite ?u64_small; lia).
  destruct (set_succeeds_dims b b (ip6_byte ip 15 * 256 + ip6_byte ip 14 + o)
    (writing_col f)) as (b1 & -> & Hw1 & Hd1); [done|done|lia|done|].
  cbn [mbind res_bind negb]. apply all_set_succeeds; [|done|done].
  intros b' i Hi%elem_of_down_from Hw Hd; [|lia].
  unfold ip6_slice_offset. change SLICE_VALUE_COUNT with 256.
  change IPV6_BLOOM_LEN with 1024. rewrite u64_small by lia.
  apply setBloom_succeeds; try done; lia.
Qed.

Lemma insert_key_succeeds f b key :
  wf b -> fkey_wf key -> has_bitmap f = true -> key_type_ok key = true ->
  0 <= writing_col f < col_count b -> ROWS_NEEDED <= row_count b ->
  row_count b < 2 ^ 64 ->
  exists b', insert_key f b key = Ok (true, b') /\ wf b' /\ same_dims b' b.
Proof.
  intros Hb Hk Hh Ht Hc Hr Hm. change ROWS_NEEDED with 8912896 in Hr.
  destruct key as [p t|ip t|ip t]; simpl in *;
    unfold insertPort, insertIPv4, insertIPv6; rewrite Hh; cbn [negb];
    apply bool_decide_eq_true in Ht as [o Ho]; rewrite Ho;
    destruct t; try discriminate Ho; injection Ho as <-;
    first [apply set_succeeds|apply setIPv4_succeeds|apply setIPv6_succeeds];
    try done; unfold is_u in *;
    change PORT_BIT_LEN with 65536 in *; change IPV4_BIT_LEN with 655360;
    change IPV6_BIT_LEN with 3735552; lia.
Qed.

(** ** Properties *)

(** C14: no false negatives.  Once an insertion of a port, an IPv4 or an IPv6
    address reported success, a filter object that reads the written column
    of the same matrix with the same number of hash functions finds the key,
    whatever is inserted afterwards through any filter sharing the matrix. *)
Theorem prefix_filter_no_false_negatives f f' b key b1 l b2 :
  wf b -> fkey_wf key -> 0 <= writing_col f ->
  insert_key f b key = Ok (true, b1) ->
  Forall (fun '(f, key) => 0 <= writing_col f /\ fkey_wf key) l ->
  run_inserts b1 l = Ok b2 ->
  has_bitmap f' = true -> k f' = k f -> reading_col f' = writing_col f ->
  query_key f' b2 key = Ok true.
Proof.
  intros Hb Hk Hc E Hl E2 Hh Hkk Hcol.
  destruct (insert_then_run f b key b1 l b2) as (Hw & Hi & Ht); try done.
  by apply (key_in_query f f').
Qed.

(** C15: no false negatives for address prefixes.  After a successful
    insertion, a query for any address that agrees with the inserted one on
    its first [p] bytes succeeds, for every prefix length of the IPv4 (0..4)
    and IPv6 (0..16) queries, so a CIDR query never skips a block that holds
    a matching address. *)
Theorem prefix_filter_prefix_no_false_negatives f f' b t b1 l b2 p :
  wf b -> 0 <= writing_col f ->
  Forall (fun '(f, key) => 0 <= writing_col f /\ fkey_wf key) l ->
  run_inserts b1 l = Ok b2 ->
  has_bitmap f' = true -> k f' = k f -> reading_col f' = writing_col f ->
  (forall ip ip', is_u 32 ip -> is_u 32 ip' -> 0 <= p <= 4 ->
     insertIPv4 f b ip t = Ok (true, b1) ->
     Z.shiftr ip' (8 * (4 - p)) = Z.shiftr ip (8 * (4 - p)) ->
     getIPv4_prefix f' b2 ip' t p = Ok true) /\
  (forall ip ip', ipv6_wf ip -> ipv6_wf ip' -> 0 <= p <= 16 ->
     insertIPv6 f b ip t = Ok (true, b1) ->
     ipv6_shr ip' (8 * (16 - p)) = ipv6_shr ip (8 * (16 - p)) ->
     getIPv6_prefix f' b2 ip' t p = Ok true).
Proof.
  intros Hb Hc Hl E2 Hh Hkk Hcol. symmetry in Hkk.
  split; intros ip ip' Hip Hip' Hp E Hag.
  - destruct (insert_then_run f b (KIPv4 ip t) b1 l b2) as (Hw & Hi & Ht); try done.
    rewrite <-Hcol in Hi, Hc. apply bool_decide_eq_true in Ht as [o Ho].
    unfold getIPv4_prefix. rewrite Hh, Ho. cbn [negb].
    apply (checkIPv4_prefix_in f f' b2 ip); auto.
  - destruct (insert_then_run f b (KIPv6 ip t) b1 l b2) as (Hw & Hi & Ht); try done.
    rewrite <-Hcol in Hi, Hc. apply bool_decide_eq_true in Ht as [o Ho].
    unfold getIPv6_prefix. rewrite Hh, Ho. cbn [negb].
    apply (checkIPv6_prefix_in f f' b2 ip); auto.
Qed.

(** with the row count that the constructor asks for
    ([(PORT_BIT_LEN + IPV4_BIT_LEN + IPV6_BIT_LEN) * 2]) and a writing column
    inside the matrix, inserting a port, an IPv4 or an IPv6 key under a
    matching index type reports success: no row computed for it is out of
    range and nothing is written outside the mapping. *)
Theorem prefix_filter_insert_succeeds f b key :
  wf b -> fkey_wf key -> has_bitmap f = true -> key_type_ok key = true ->
  0 <= writing_col f < col_count b -> ROWS_NEEDED <= row_count b ->
  row_count b < 2 ^ 64 ->
  exists b', insert_key f b key = Ok (true, b') /\ wf b' /\ same_dims b' b.
Proof. apply insert_key_succeeds. Qed.
End filter.

(** ** Witnesses *)
Section demo.
(** A toy hash and a matrix of the size the constructor asks for. *)
Definition demo_hash (l : list Z) : Z := foldr (fun b a => 31 * a + b) 7 l.
Definition demo_bitmap : BitMap :=
  {| bitmap := ∅; row_count := ROWS_NEEDED; col_count := 8; backup_col_count := 1;
     size := ROWS_NEEDED |}.
Definition demo_filter : PrefixBloomFilter :=
  setWritingCol (init new_PBF 2) demo_bitmap 3.
Definition demo_reader : PrefixBloomFilter :=
  setReadingCol (init new_PBF 2) demo_bitmap 3.
Definition demo_ip : Z := 0xC0A80A05.
Definition demo_ip6 : IPv6Address := mkIPv6 0x0102030405060708 0x20010DB800000000.
Definition demo_later : list (PrefixBloomFilter * fkey) :=
  [(demo_filter, KIPv4 0x01020304 DSTIP); (demo_filter, KPort 80 SRCPORT)].
Definition demo_insert (key : fkey) : BitMap :=
  (from_res (false, demo_bitmap) (insert_key demo_hash id demo_filter demo_bitmap key)).2.
Definition demo_final (key : fkey) : BitMap :=
  from_res demo_bitmap (run_inserts demo_hash id (demo_insert key) demo_later).
End demo.

Lemma demo_bitmap_wf : wf demo_bitmap.
Proof.
  assert (E : new_BitMap true ROWS_NEEDED 7 1 = Ok demo_bitmap) by (vm_compute; reflexivity).
  apply (new_BitMap_cell _ _ _ _ _ E); vm_compute; [discriminate|reflexivity].
Qed.

Lemma prefix_filter_no_false_negatives_witness :
  query_key demo_hash id demo_reader (demo_final (KIPv6 demo_ip6 DSTIPv6))
    (KIPv6 demo_ip6 DSTIPv6) = Ok true.
Proof.
  apply (prefix_filter_no_false_negatives demo_hash id demo_filter demo_reader demo_bitmap
    (KIPv6 demo_ip6 DSTIPv6) (demo_insert (KIPv6 demo_ip6 DSTIPv6)) demo_later).
  - exact demo_bitmap_wf.
  - vm_compute. intuition discriminate.
  - vm_compute. discriminate.
  - vm_compute. reflexivity.
  - repeat constructor; vm_compute; intuition discriminate.
  - vm_compute. reflexivity.
  - reflexivity.
  - reflexivity.
  - reflexivity.
Defined.

(** A query for another address of 192.168.10.0/24. *)
Lemma prefix_filter_prefix_no_false_negatives_witness :
  getIPv4_prefix demo_hash id demo_reader (demo_final (KIPv4 demo_ip SRCIP))
    (demo_ip + 7) SRCIP 3 = Ok true.
Proof.
  refine (proj1 (prefix_filter_prefix_no_false_negatives demo_hash id demo_filter demo_reader
    demo_bitmap SRCIP (demo_insert (KIPv4 demo_ip SRCIP)) demo_later
    (demo_final (KIPv4 demo_ip SRCIP)) 3 _ _ _ _ _ _ _) demo_ip (demo_ip + 7) _ _ _ _ _).
  - exact demo_bitmap_wf.
  - vm_compute. discriminate.
  - repeat constructor; vm_compute; intuition discriminate.
  - vm_compute. reflexivity.
  - reflexivity.
  - reflexivity.
  - reflexivity.
  - vm_compute. intuition discriminate.
  - vm_compute. intuition discriminate.
  - lia.
  - vm_compute. reflexivity.
  - vm_compute. reflexivity.
Defined.

Lemma prefix_filter_insert_succeeds_witness :
  exists b', insert_key demo_hash id demo_filter demo_bitmap (KIPv4 demo_ip DSTIP)
             = Ok (true, b') /\ wf b' /\ same_dims b' demo_bitmap.
Proof.
  apply prefix_filter_insert_succeeds.
  - exact demo_bitmap_wf.
  - vm_compute. intuition discriminate.
  - reflexivity.
  - reflexivity.
  - vm_compute. intuition discriminate.
  - vm_compute. discriminate.
  - vm_compute. reflexivity.
Defined.
