(* ===== verification/RingBuffer.v ===== *)
(** * Ring buffers (dpdk_lib/singleRingBuffer.hpp, dpdk_lib/pointerRingBuffer.hpp)

    [Spsc] is the ring that carries packets' index entries from a reader thread
    to an index thread: one producer, one consumer, positions that only grow
    (and wrap at 2^64), a strided slot layout, and a producer that spins when
    the ring is full.  Its [put] and [get] are given as the micro-steps of the
    two threads, composed into the whole operations, and the interleavings of
    the micro-steps as a step relation.  [Mpmc] is the ticketed ring with a
    signal per slot that the flosis baseline uses. *)
From S2P Require Import Prelude.
From Stdlib Require Import ZArith Lia.

Module Spsc.

(** A pointer is a number, [nullptr] is 0. *)
Definition nullptr : Z := 0.

Record PointerRingBuffer := mkRing {
  capacity_ : Z;
  writePos : Z;
  readPos : Z;
  pointers : option (list Z);
  stop : bool }.

(** The constructor.  When the capacity is not a power of two it returns with
    a null array and leaves the other fields as they were in memory ([junk]). *)
Definition new_ring (mmap_ok : bool) (capacity : Z) (junk : Z * Z * bool)
  : res PointerRingBuffer :=
  if negb (Z.land capacity (u32 (capacity - 1)) =? 0) then
    Ok {| capacity_ := capacity; writePos := junk.1.1; readPos := junk.1.2;
          pointers := None; stop := junk.2 |}
  else if negb mmap_ok then Throws
  else Ok {| capacity_ := capacity; writePos := 0; readPos := 0;
             pointers := Some (replicate (Z.to_nat capacity) nullptr); stop := false |}.

(** The slot of a position: [((pos & ((cap >> 3) - 1)) << 3) + pos / (cap >> 3)]. *)
Definition real_pos (capacity pos : Z) : res Z :=
  let m := Z.shiftr capacity 3 in
  if m =? 0 then Undef
  else Ok (u64 (u64 (Z.shiftl (Z.land pos (m - 1)) 3) + pos / m)).

(** [this->writePos == this->capacity_ - 1 + this->readPos] *)
Definition full (r : PointerRingBuffer) : bool :=
  writePos r =? u64 (u32 (capacity_ r - 1) + readPos r).

(** [this->writePos == this->readPos] *)
Definition empty (r : PointerRingBuffer) : bool := writePos r =? readPos r.

(** The micro-steps after the test: store the pointer, advance. *)
Definition put_store (r : PointerRingBuffer) (data : Z) : res PointerRingBuffer :=
  let pos := Z.land (writePos r) (u32 (capacity_ r - 1)) in
  rp ← real_pos (capacity_ r) pos;
  match pointers r with
  | None => Undef
  | Some a =>
      a' ← zset a rp data;
      Ok {| capacity_ := capacity_ r; writePos := writePos r; readPos := readPos r;
            pointers := Some a'; stop := stop r |}
  end.

Definition put_advance (r : PointerRingBuffer) : PointerRingBuffer :=
  {| capacity_ := capacity_ r; writePos := u64 (writePos r + 1); readPos := readPos r;
     pointers := pointers r; stop := stop r |}.

(** [put]: spins while the ring is full, then stores and advances. *)
Definition put (r : PointerRingBuffer) (data : Z) : res (bool * PointerRingBuffer) :=
  if full r then Blocks else
  r' ← put_store r data;
  Ok (true, put_advance r').

Definition get_load (r : PointerRingBuffer) : res Z :=
  let pos := Z.land (readPos r) (u32 (capacity_ r - 1)) in
  rp ← real_pos (capacity_ r) pos;
  match pointers r with
  | None => Undef
  | Some a => zget a rp
  end.

Definition get_advance (r : PointerRingBuffer) : PointerRingBuffer :=
  {| capacity_ := capacity_ r; writePos := writePos r; readPos := u64 (readPos r + 1);
     pointers := pointers r; stop := stop r |}.

(** [get]: [nullptr] when the ring is empty. *)
Definition get (r : PointerRingBuffer) : res (Z * PointerRingBuffer) :=
  if empty r then Ok (nullptr, r) else
  data ← get_load r;
  Ok (data, get_advance r).

Definition initSucceed (r : PointerRingBuffer) : bool :=
  match pointers r with Some _ => true | None => false end.

Definition asynchronousStop (r : PointerRingBuffer) : PointerRingBuffer :=
  {| capacity_ := capacity_ r; writePos := writePos r; readPos := readPos r;
     pointers := pointers r; stop := true |}.

(** ** Invariant and abstraction *)

(** The slot a position maps to, as arithmetic. *)
Definition phys (capacity pos : Z) : Z :=
  let m := capacity / 8 in ((pos mod capacity) mod m) * 8 + (pos mod capacity) / m.

(** Number of elements in the ring. *)
Definition count (r : PointerRingBuffer) : Z := u64 (writePos r - readPos r).

Definition slot (r : PointerRingBuffer) (pos : Z) : Z :=
  match pointers r with
  | Some a => default nullptr (a !! Z.to_nat (phys (capacity_ r) pos))
  | None => nullptr
  end.

(** The elements of the ring, oldest first. *)
Definition contents (r : PointerRingBuffer) : list Z :=
  (fun i => slot r (readPos r + i)) <$> zseq (count r).

Record wf (r : PointerRingBuffer) : Prop := {
  wf_cap : exists k, 3 <= k <= 31 /\ capacity_ r = 2 ^ k;
  wf_ptrs : exists a, pointers r = Some a /\ zlen a = capacity_ r;
  wf_write : is_u 64 (writePos r);
  wf_read : is_u 64 (readPos r);
  wf_count : count r < capacity_ r }.

(** ** The two threads, interleaved *)

(** Where a thread is inside [put] or [get]. *)
Inductive producer := PIdle | PChecked (d : Z) | PStored (d : Z).
Inductive consumer := CIdle | CChecked | CLoaded (d : Z).

(** The shared ring, the two program counters and the history: what the
    producer has published and what the consumer has taken. *)
Record world := mkWorld {
  ring : PointerRingBuffer;
  prod : producer;
  cons : consumer;
  sent : list Z;
  received : list Z }.

Inductive step : world -> world -> Prop :=
| step_put_check r c s t d : full r = false ->
    step (mkWorld r PIdle c s t) (mkWorld r (PChecked d) c s t)
| step_put_store r r' c s t d : put_store r d = Ok r' ->
    step (mkWorld r (PChecked d) c s t) (mkWorld r' (PStored d) c s t)
| step_put_advance r c s t d :
    step (mkWorld r (PStored d) c s t) (mkWorld (put_advance r) PIdle c (s ++ [d]) t)
| step_get_check r p s t : empty r = false ->
    step (mkWorld r p CIdle s t) (mkWorld r p CChecked s t)
| step_get_load r p s t d : get_load r = Ok d ->
    step (mkWorld r p CChecked s t) (mkWorld r p (CLoaded d) s t)
| step_get_advance r p s t d :
    step (mkWorld r p (CLoaded d) s t) (mkWorld (get_advance r) p CIdle s (t ++ [d]))
| step_stop r p c s t :
    step (mkWorld r p c s t) (mkWorld (asynchronousStop r) p c s t).

Definition initial (r : PointerRingBuffer) : world := mkWorld r PIdle CIdle [] [].

(** The invariant of the interleaved system. *)
Record inv (w : world) : Prop := {
  inv_wf : wf (ring w);
  inv_fifo : sent w = received w ++ contents (ring w);
  inv_space : match prod w with
              | PIdle => True
              | _ => count (ring w) < capacity_ (ring w) - 1 end;
  inv_stored : match prod w with
               | PStored d => slot (ring w) (writePos (ring w)) = d
               | _ => True end;
  inv_data : match cons w with
             | CIdle => True
             | _ => 0 < count (ring w) end;
  inv_loaded : match cons w with
               | CLoaded d => slot (ring w) (readPos (ring w)) = d
               | _ => True end }.

(** ** Positions and slots *)
Lemma cap_bounds r : wf r -> 8 <= capacity_ r <= 2 ^ 31 /\ capacity_ r = 8 * (capacity_ r / 8).
Proof.
  intros [(k & Hk & E) _ _ _ _]. rewrite E.
  split; [split; [apply (Z.pow_le_mono_r 2 3 k)|apply Z.pow_le_mono_r]; lia|].
  apply Z.div_exact; [lia|]. replace k with (3 + (k - 3)) by lia.
  rewrite Z.pow_add_r, Z.mul_comm by lia. apply Z.mod_mul. lia.
Qed.

Lemma phys_bounds cap pos :
  0 < cap / 8 -> cap = 8 * (cap / 8) -> 0 <= phys cap pos < cap.
Proof.
  intros Hm E. unfold phys. set (m := cap / 8) in *.
  pose proof (Z.mod_pos_bound pos cap ltac:(lia)).
  pose proof (Z.mod_pos_bound (pos mod cap) m Hm).
  assert (0 <= pos mod cap / m < 8).
  { split; [apply Z.div_pos; lia|apply Z.div_lt_upper_bound; lia]. }
  lia.
Qed.

(** Positions less than a whole capacity apart use distinct slots. *)
Lemma phys_inj cap p q :
  0 < cap / 8 -> cap = 8 * (cap / 8) ->
  phys cap p = phys cap q -> Z.abs (p - q) < cap -> p = q.
Proof.
  intros Hm E Ep Hd. unfold phys in Ep. set (m := cap / 8) in *.
  set (x := p mod cap) in *. set (y := q mod cap) in *.
  pose proof (Z.mod_pos_bound p cap ltac:(lia)) as Hx.
  pose proof (Z.mod_pos_bound q cap ltac:(lia)) as Hy. fold x y in Hx, Hy.
  pose proof (Z.mod_pos_bound x m Hm). pose proof (Z.mod_pos_bound y m Hm).
  pose proof (Z.div_mod x m ltac:(lia)). pose proof (Z.div_mod y m ltac:(lia)).
  assert (0 <= x / m < 8) by (split; [apply Z.div_pos; lia|apply Z.div_lt_upper_bound; lia]).
  assert (0 <= y / m < 8) by (split; [apply Z.div_pos; lia|apply Z.div_lt_upper_bound; lia]).
  assert (x mod m = y mod m) by lia. assert (x / m = y / m) by lia.
  assert (Exy : x = y) by nia.
  assert (Hp : p = cap * (p / cap) + x) by (apply Z.div_mod; lia).
  assert (Hq : q = cap * (q / cap) + y) by (apply Z.div_mod; lia).
  assert (p / cap = q / cap) by (clear - Hp Hq Exy Hd E Hm; nia).
  congruence.
Qed.

(** The capacity divides 2^64, so positions may wrap. *)
Lemma mod_cap_u64 r z : wf r -> u64 z mod capacity_ r = z mod capacity_ r.
Proof.
  intros [(k & Hk & E) _ _ _ _]. rewrite E. unfold u64, wrap.
  apply Z.mod_mod_divide. exists (2 ^ (64 - k)). rewrite <-Z.pow_add_r by lia.
  f_equal. lia.
Qed.

Lemma slot_u64 r z : wf r -> slot r (u64 z) = slot r z.
Proof. intros Hw. unfold slot, phys. by rewrite mod_cap_u64. Qed.

(** The slot the code computes is [phys]. *)
Lemma real_pos_phys r pos :
  wf r -> real_pos (capacity_ r) (Z.land pos (u32 (capacity_ r - 1))) =
          Ok (phys (capacity_ r) pos).
Proof.
  intros Hw. pose proof (cap_bounds r Hw) as [Hc Hm]. pose proof (wf_cap r Hw) as (k & Hk & E).
  set (c := capacity_ r) in *. rewrite u32_small by lia.
  replace (Z.land pos (c - 1)) with (pos mod c).
  2: { rewrite E, Z.sub_1_r, <-Z.ones_equiv. symmetry. apply Z.land_ones. lia. }
  unfold real_pos. rewrite Z.shiftr_div_pow2 by lia. change (2 ^ 3) with 8.
  case_test; [zlia|]. zbool. unfold phys. set (m := c / 8) in *.
  assert (Em : m = 2 ^ (k - 3)).
  { replace k with (3 + (k - 3)) in E by lia. rewrite Z.pow_add_r in E by lia.
    change (2 ^ 3) with 8 in E. lia. }
  replace (Z.land (pos mod c) (m - 1)) with ((pos mod c) mod m).
  2: { rewrite Em, Z.sub_1_r, <-Z.ones_equiv. symmetry. apply Z.land_ones. lia. }
  rewrite Z.shiftl_mul_pow2 by lia. change (2 ^ 3) with 8.
  pose proof (phys_bounds c pos ltac:(lia) Hm) as Hb. unfold phys in Hb. fold m in Hb.
  pose proof (Z.mod_pos_bound (pos mod c) m ltac:(lia)).
  pose proof (Z.mod_pos_bound pos c ltac:(lia)).
  assert (0 <= pos mod c / m) by (apply Z.div_pos; lia).
  rewrite !u64_small by (rewrite ?u64_small; lia). done.
Qed.

Lemma count_range r : 0 <= count r.
Proof. apply u64_range. Qed.

Lemma full_spec r : wf r -> full r = (count r =? capacity_ r - 1).
Proof.
  intros Hw. pose proof (cap_bounds r Hw) as [Hc _]. destruct Hw as [_ _ Hwr Hrd _].
  unfold full, count, u64, wrap, is_u in *. rewrite u32_small by lia.
  apply eq_true_iff_eq. rewrite !Z.eqb_eq. split; intros H.
  - rewrite H, Zminus_mod_idemp_l. rewrite Z.mod_small; lia.
  - rewrite <-H, Zplus_mod_idemp_l. rewrite Z.mod_small; lia.
Qed.

Lemma empty_spec r : wf r -> empty r = (count r =? 0).
Proof.
  intros Hw. destruct Hw as [_ _ Hwr Hrd _].
  unfold empty, count, u64, wrap, is_u in *. apply eq_true_iff_eq. rewrite !Z.eqb_eq.
  split; intros H; [by rewrite H, Z.sub_diag|].
  apply Z.mod_divide in H as [q Hq]; [|lia].
  assert (q = 0) by lia. subst. lia.
Qed.

(** ** The micro-steps *)

(** The write position in terms of the read position. *)
Lemma slot_write r : wf r -> slot r (writePos r) = slot r (readPos r + count r).
Proof.
  intros Hw. rewrite <-(slot_u64 r (readPos r + count r)) by done. f_equal.
  destruct Hw as [_ _ Hwr _ _]. unfold count, u64, wrap, is_u in *.
  rewrite Zplus_mod_idemp_r. replace (readPos r + (writePos r - readPos r)) with (writePos r)
    by lia. by rewrite Z.mod_small.
Qed.

Lemma put_store_ok r d :
  wf r -> exists r', put_store r d = Ok r' /\ wf r' /\
    capacity_ r' = capacity_ r /\ writePos r' = writePos r /\ readPos r' = readPos r /\
    slot r' (writePos r) = d /\
    (forall i, 0 <= i < count r -> slot r' (readPos r + i) = slot r (readPos r + i)).
Proof.
  intros Hw. pose proof (cap_bounds r Hw) as [Hc Hm].
  unfold put_store. rewrite real_pos_phys by done. cbn [mbind res_bind].
  destruct (wf_ptrs r Hw) as (a & Ea & Hl). rewrite Ea.
  pose proof (phys_bounds (capacity_ r) (writePos r) ltac:(lia) Hm) as Hb.
  rewrite zset_Ok by lia. cbn [mbind res_bind]. eexists. split; [done|].
  split; [|split; [done|split; [done|split; [done|split]]]].
  - destruct Hw as [? _ ? ? ?]. split; simpl; try done. eexists. split; [done|].
    by rewrite zlen_insert.
  - unfold slot; simpl. rewrite list_lookup_insert_eq; [done|]. unfold zlen in Hl. lia.
  - intros i Hi. unfold slot; simpl. rewrite Ea. rewrite list_lookup_insert_ne; [done|].
    intros E. pose proof (phys_bounds (capacity_ r) (readPos r + i) ltac:(lia) Hm).
    assert (Ep : phys (capacity_ r) (readPos r + count r) = phys (capacity_ r) (readPos r + i)).
    { transitivity (phys (capacity_ r) (writePos r)); [|lia].
      unfold phys. rewrite <-(mod_cap_u64 r (readPos r + count r)) by done.
      replace (u64 (readPos r + count r)) with (writePos r); [done|].
      destruct Hw as [_ _ Hwr _ _]. unfold count, u64, wrap, is_u in *.
      rewrite Zplus_mod_idemp_r.
      replace (readPos r + (writePos r - readPos r)) with (writePos r) by lia.
      by rewrite Z.mod_small. }
    pose proof (wf_count r Hw).
    apply phys_inj in Ep; lia.
Qed.

Lemma count_put_advance r :
  wf r -> count r < capacity_ r - 1 -> count (put_advance r) = count r + 1.
Proof.
  intros Hw H. pose proof (cap_bounds r Hw) as [Hc _]. pose proof (count_range r).
  unfold count in *; simpl. unfold u64, wrap in *. rewrite Zminus_mod_idemp_l.
  replace (writePos r + 1 - readPos r) with (writePos r - readPos r + 1) by lia.
  rewrite <-Zplus_mod_idemp_l. apply Z.mod_small. lia.
Qed.

Lemma count_get_advance r :
  wf r -> 0 < count r -> count (get_advance r) = count r - 1.
Proof.
  intros Hw H. pose proof (cap_bounds r Hw) as [Hc _]. pose proof (u64_range (writePos r - readPos r)).
  unfold count in *; simpl. unfold u64, wrap in *. rewrite Zminus_mod_idemp_r.
  replace (writePos r - (readPos r + 1)) with (writePos r - readPos r - 1) by lia.
  rewrite <-Zminus_mod_idemp_l. apply Z.mod_small. lia.
Qed.

Lemma put_advance_wf r : wf r -> count r < capacity_ r - 1 -> wf (put_advance r).
Proof.
  intros Hw H. pose proof (count_put_advance r Hw H) as E. destruct Hw.
  split; simpl; try done; [apply u64_range|]. rewrite E. lia.
Qed.

Lemma get_advance_wf r : wf r -> 0 < count r -> wf (get_advance r).
Proof.
  intros Hw H. pose proof (count_get_advance r Hw H) as E. destruct Hw.
  split; simpl; try done; [apply u64_range|]. rewrite E. lia.
Qed.

Lemma contents_put_advance r :
  wf r -> count r < capacity_ r - 1 ->
  contents (put_advance r) = contents r ++ [slot r (writePos r)].
Proof.
  intros Hw H. unfold contents. rewrite count_put_advance, zseq_S, fmap_app
    by (try done; apply count_range).
  simpl. by rewrite slot_write.
Qed.

Lemma contents_get_advance r :
  wf r -> 0 < count r -> contents r = slot r (readPos r) :: contents (get_advance r).
Proof.
  intros Hw H. unfold contents. rewrite zseq_head, count_get_advance by done.
  cbn [fmap list_fmap]. rewrite Z.add_0_r. f_equal.
  rewrite <-list_fmap_compose. apply list_fmap_ext. intros _ i _. simpl.
  change (slot r (readPos r + (1 + i)) = slot r (u64 (readPos r + 1) + i)).
  rewrite <-(slot_u64 r (readPos r + (1 + i))), <-(slot_u64 r (_ + i)) by done.
  f_equal. unfold u64, wrap. rewrite Zplus_mod_idemp_l. f_equal. lia.
Qed.

Lemma get_load_ok r : wf r -> get_load r = Ok (slot r (readPos r)).
Proof.
  intros Hw. pose proof (cap_bounds r Hw) as [Hc Hm].
  unfold get_load. rewrite real_pos_phys by done. cbn [mbind res_bind].
  destruct (wf_ptrs r Hw) as (a & Ea & Hl). unfold slot. rewrite Ea.
  pose proof (phys_bounds (capacity_ r) (readPos r) ltac:(lia) Hm) as Hb.
  destruct (zget_lt a (phys (capacity_ r) (readPos r)) ltac:(lia)) as [x Hx].
  rewrite Hx. apply zget_Ok in Hx as [_ ->]. done.
Qed.

Lemma contents_ext r r' :
  count r' = count r -> readPos r' = readPos r ->
  (forall i, 0 <= i < count r -> slot r' (readPos r + i) = slot r (readPos r + i)) ->
  contents r' = contents r.
Proof.
  intros Hc Hr Hs. unfold contents. rewrite Hc, Hr. apply list_fmap_ext.
  intros j i Hi. apply list_elem_of_lookup_2, elem_of_zseq in Hi. auto.
Qed.

Lemma length_contents r : zlen (contents r) = count r.
Proof.
  unfold contents, zlen. rewrite length_fmap. fold (zlen (zseq (count r))).
  apply zlen_zseq, count_range.
Qed.

(** ** The interleaved system keeps its invariant *)
Lemma inv_step w w' : inv w -> step w w' -> inv w'.
Proof.
  intros [Hw Hf Hs Hst Hd Hl] Hstep.
  destruct Hstep as [r c s t d E|r r' c s t d E|r c s t d|r p s t E|r p s t d E|r p s t d|r p c s t];
    simpl in *.
  - rewrite full_spec in E by done. zbool. pose proof (wf_count r Hw).
    split; simpl; try done. lia.
  - destruct (put_store_ok r d Hw) as (r1 & E1 & Hw1 & H1 & H2 & H3 & H4 & H5).
    rewrite E in E1. injection E1 as <-.
    assert (Hc : count r' = count r) by (unfold count; by rewrite H2, H3).
    split; simpl; rewrite ?Hc, ?H1, ?H2, ?H3; try done.
    + by rewrite (contents_ext r r').
    + destruct c; try done. rewrite <-(Z.add_0_r (readPos r)), H5, Z.add_0_r by lia. done.
  - split; simpl; try done.
    + by apply put_advance_wf.
    + rewrite contents_put_advance, Hf, Hst by done. by rewrite app_assoc.
    + pose proof (count_put_advance r Hw Hs). destruct c; try done; lia.
  - rewrite empty_spec in E by done. zbool. pose proof (count_range r).
    split; simpl; try done. lia.
  - rewrite get_load_ok in E by done. injection E as <-. split; simpl; done.
  - pose proof (count_get_advance r Hw Hd) as E. split; simpl; try done.
    + by apply get_advance_wf.
    + rewrite Hf, (contents_get_advance r), Hl by done. by rewrite <-app_assoc.
    + destruct p; try done; lia.
  - destruct Hw. split; simpl; try done.
Qed.

Lemma new_ring_wf k junk :
  3 <= k <= 31 -> exists r, new_ring true (2 ^ k) junk = Ok r /\ wf r /\
    capacity_ r = 2 ^ k /\ contents r = [].
Proof.
  intros Hk. assert (8 <= 2 ^ k <= 2 ^ 31).
  { split; [apply (Z.pow_le_mono_r 2 3 k)|apply Z.pow_le_mono_r]; lia. }
  unfold new_ring. rewrite u32_small by lia.
  replace (Z.land (2 ^ k) (2 ^ k - 1)) with 0.
  2: { rewrite Z.sub_1_r, <-Z.ones_equiv, Z.land_ones by lia. by rewrite Z.mod_same by lia. }
  cbn [Z.eqb negb]. eexists. split; [done|]. split; [|done].
  split; simpl; try done; [by exists k| |].
  - eexists. split; [done|]. rewrite zlen_replicate. lia.
  - change (count _) with 0. lia.
Qed.

(** ** Properties *)

Lemma put_get_spec r d :
  wf r ->
  (if zlen (contents r) =? capacity_ r - 1 then put r d = Blocks
   else exists r', put r d = Ok (true, r') /\ wf r' /\
          capacity_ r' = capacity_ r /\ contents r' = contents r ++ [d]) /\
  match contents r with
  | [] => get r = Ok (nullptr, r)
  | x :: q => exists r', get r = Ok (x, r') /\ wf r' /\
                capacity_ r' = capacity_ r /\ contents r' = q
  end.
Proof.
  intros Hw. split.
  - rewrite length_contents. unfold put. rewrite full_spec by done.
    case_test; [done|]. zbool. pose proof (wf_count r Hw).
    destruct (put_store_ok r d Hw) as (r' & -> & Hw' & H1 & H2 & H3 & H4 & H5).
    cbn [mbind res_bind]. assert (Hc : count r' = count r) by (unfold count; by rewrite H2, H3).
    exists (put_advance r'). split; [done|].
    split; [apply put_advance_wf; [done|lia]|]. split; [done|].
    rewrite contents_put_advance by (done || lia). by rewrite H2, H4, (contents_ext r r').
  - unfold get. rewrite empty_spec by done. pose proof (length_contents r) as Hl.
    destruct (contents r) as [|x q] eqn:Eq.
    + unfold zlen in Hl; simpl in Hl. rewrite <-Hl. done.
    + rewrite zlen_cons in Hl. pose proof (zlen_nonneg q). case_test; [zlia|].
      rewrite (contents_get_advance r) in Eq by (done || lia). injection Eq as <- <-.
      rewrite get_load_ok by done. cbn [mbind res_bind]. eexists. split; [done|].
      split; [apply get_advance_wf; [done|lia]|done].
Qed.

(** C17: [put] and [get] implement a bounded FIFO queue, also when the 64-bit
    positions wrap.  [put] spins exactly when [capacity - 1] elements are
    queued and otherwise appends; [get] returns [nullptr] exactly when the
    queue is empty and otherwise removes the oldest element. *)
Theorem spsc_refines_fifo r d :
  wf r ->
  (if zlen (contents r) =? capacity_ r - 1 then put r d = Blocks
   else exists r', put r d = Ok (true, r') /\ wf r' /\
          capacity_ r' = capacity_ r /\ contents r' = contents r ++ [d]) /\
  match contents r with
  | [] => get r = Ok (nullptr, r)
  | x :: q => exists r', get r = Ok (x, r') /\ wf r' /\
                capacity_ r' = capacity_ r /\ contents r' = q
  end.
Proof. apply put_get_spec. Qed.

(** C18: under every interleaving of the micro-steps of one producer and one
    consumer, started on a freshly constructed ring, what the consumer has
    received is exactly a prefix of what the producer has sent, the difference
    sits in the ring in order and is less than its capacity, and neither
    thread ever touches a slot outside the array. *)
Theorem spsc_interleaved_fifo k junk r w :
  3 <= k <= 31 -> new_ring true (2 ^ k) junk = Ok r -> rtc step (initial r) w ->
  sent w = received w ++ contents (ring w) /\
  zlen (contents (ring w)) < 2 ^ k /\
  (forall d, prod w = PChecked d -> is_Ok (put_store (ring w) d) = true) /\
  (cons w = CChecked -> is_Ok (get_load (ring w)) = true).
Proof.
  intros Hk E Hr. destruct (new_ring_wf k junk Hk) as (r' & E' & Hw & Hc & He).
  rewrite E in E'. injection E' as <-.
  assert (Hi : inv w /\ capacity_ (ring w) = 2 ^ k).
  { assert (Hi0 : inv (initial r)) by (split; simpl; try done; by rewrite He).
    assert (Hc0 : capacity_ (ring (initial r)) = 2 ^ k) by done.
    induction Hr as [|x y z Hs _ IH]; [done|]. apply IH; [by eapply inv_step|].
    destruct Hs; simpl in *; try done.
    destruct (put_store_ok r0 d (inv_wf _ Hi0)) as (r1 & E1 & _ & H1 & _).
    rewrite H in E1. injection E1 as <-. by rewrite H1. }
  destruct Hi as [Hi Hcap]. pose proof (inv_wf _ Hi) as Hw'.
  split; [apply Hi|]. split; [rewrite length_contents, <-Hcap; apply Hw'|]. split.
  - intros d _. by destruct (put_store_ok (ring w) d Hw') as (? & -> & _).
  - intros _. by rewrite get_load_ok.
Qed.

Definition demo_ring : PointerRingBuffer :=
  {| capacity_ := 16; writePos := 3; readPos := 2 ^ 64 - 11;
     pointers := Some (zseq 16); stop := false |}.

(** Fourteen elements, the positions wrapped: one more fits, then none. *)
Lemma spsc_refines_fifo_witness :
  wf demo_ring /\ zlen (contents demo_ring) = 14 /\
  exists r', put demo_ring 99 = Ok (true, r') /\ contents r' = contents demo_ring ++ [99] /\
    put r' 100 = Blocks.
Proof.
  assert (Hw : wf demo_ring).
  { split; simpl; try (unfold is_u; lia); [by exists 4| |vm_compute; reflexivity].
    by exists (zseq 16). }
  split; [done|]. split; [vm_compute; reflexivity|].
  destruct (proj1 (spsc_refines_fifo demo_ring 99 Hw)) as (r' & E & Hw' & Hc & Hq).
  exists r'. split; [exact E|]. split; [exact Hq|].
  vm_compute in E. injection E as <-. vm_compute. reflexivity.
Defined.

Lemma spsc_interleaved_fifo_witness :
  exists r w, new_ring true 8 (0, 0, false) = Ok r /\ rtc step (initial r) w /\
    received w = [] /\ sent w = [41] /\ cons w = CLoaded 41 /\
    sent w = received w ++ contents (ring w).
Proof.
  destruct (new_ring true 8 (0, 0, false)) as [r| | |] eqn:E; try discriminate E.
  vm_compute in E. injection E as <-.
  eexists. eexists. split; [reflexivity|]. split.
  - eapply rtc_l; [apply (step_put_check _ _ _ _ 41); reflexivity|].
    eapply rtc_l; [apply step_put_store; reflexivity|].
    eapply rtc_l; [apply step_put_advance|].
    eapply rtc_l; [apply step_get_check; reflexivity|].
    eapply rtc_l; [apply step_get_load; vm_compute; reflexivity|].
    apply rtc_refl.
  - split; [reflexivity|]. split; [reflexivity|]. split; [reflexivity|].
    refine (proj1 (spsc_interleaved_fifo 3 (0, 0, false) _ _ _ _ _)); [lia|reflexivity|].
    eapply rtc_l; [apply (step_put_check _ _ _ _ 41); reflexivity|].
    eapply rtc_l; [apply step_put_store; reflexivity|].
    eapply rtc_l; [apply step_put_advance|].
    eapply rtc_l; [apply step_get_check; reflexivity|].
    eapply rtc_l; [apply step_get_load; vm_compute; reflexivity|].
    apply rtc_refl.
Defined.

End Spsc.

(** ** The ticketed ring (dpdk_lib/pointerRingBuffer.hpp) *)
Module Mpmc.

Record PointerRingBuffer := mkRing {
  capacity_ : Z;
  writePos : Z;
  readPos : Z;
  pointers : option (list Z);
  signalBuffer_ : list bool;
  stop : bool }.

Definition new_ring (capacity : Z) (junk : Z * Z * bool) : PointerRingBuffer :=
  if negb (Z.land capacity (u32 (capacity - 1)) =? 0) then
    {| capacity_ := capacity; writePos := junk.1.1; readPos := junk.1.2;
       pointers := None; signalBuffer_ := []; stop := junk.2 |}
  else
    {| capacity_ := capacity; writePos := 0; readPos := 0;
       pointers := Some (replicate (Z.to_nat capacity) 0);
       signalBuffer_ := replicate (Z.to_nat capacity) false; stop := false |}.

(** [put] of one thread that is not interrupted: takes a ticket, spins while
    its slot is signalled. *)
Definition put (r : PointerRingBuffer) (data : Z) : res (bool * PointerRingBuffer) :=
  match pointers r with
  | None => Ok (false, r)
  | Some a =>
      if capacity_ r =? 0 then Undef else
      let pos := writePos r mod capacity_ r in
      s ← zget (signalBuffer_ r) pos;
      if s : bool then Blocks else
      a' ← zset a pos data;
      g ← zset (signalBuffer_ r) pos true;
      Ok (true, {| capacity_ := capacity_ r; writePos := u64 (writePos r + 1);
                   readPos := readPos r; pointers := Some a'; signalBuffer_ := g;
                   stop := stop r |})
  end.

(** [get]: spins while the slot is not signalled, unless the ring was stopped;
    the ticket is consumed in either case. *)
Definition get (r : PointerRingBuffer) : res (Z * PointerRingBuffer) :=
  match pointers r with
  | None => Ok (0, r)
  | Some a =>
      if capacity_ r =? 0 then Undef else
      let pos := readPos r mod capacity_ r in
      s ← zget (signalBuffer_ r) pos;
      if negb s then
        if stop r then
          Ok (0, {| capacity_ := capacity_ r; writePos := writePos r;
                    readPos := u64 (readPos r + 1); pointers := pointers r;
                    signalBuffer_ := signalBuffer_ r; stop := stop r |})
        else Blocks
      else
        data ← zget a pos;
        g ← zset (signalBuffer_ r) pos false;
        Ok (data, {| capacity_ := capacity_ r; writePos := writePos r;
                     readPos := u64 (readPos r + 1); pointers := pointers r;
                     signalBuffer_ := g; stop := stop r |})
  end.

Definition initSucceed (r : PointerRingBuffer) : bool :=
  match pointers r with Some _ => true | None => false end.

Definition asynchronousStop (r : PointerRingBuffer) : PointerRingBuffer :=
  {| capacity_ := capacity_ r; writePos := writePos r; readPos := readPos r;
     pointers := pointers r; signalBuffer_ := signalBuffer_ r; stop := true |}.

End Mpmc.
