(* ===== verification/Aggregator.v ===== *)
(** * Flow aggregation (dpdk_lib/packetAggregator.hpp, dpdk_lib/tagAggregator.hpp)

    [PacketAggregator] remembers, per flow, the offset and time of the last
    packet, and links each packet of a flow to the previous one when the two
    are close enough; the reader stores the link in the packet header.
    [TagAggregator] keeps one aggregated value per flow and tag.  The hash
    tables are finite maps keyed by [FlowMetadata], whose [operator==] is
    equality. *)
From S2P Require Import Prelude Util.
From Stdlib Require Import ZArith Lia.

#[export] Instance FlowMetadata_countable : Countable FlowMetadata.
Proof.
  apply (inj_countable'
    (fun m => (sourceAddress m, destinationAddress m, sourcePort m, destinationPort m))
    (fun '(a, b, c, d) => mkMeta a b c d)).
  by intros [].
Defined.

(** ** Packet aggregation *)
Record FlowAttr := mkFlow { lastOffset : Z; ts : Z }.

Record PacketAggregator := mkAgg {
  offsetThreshold : Z;
  tsThreshold : Z;
  aggMap : gmap FlowMetadata FlowAttr }.

Definition new_PacketAggregator (offset_thr ts_thr : Z) : PacketAggregator :=
  {| offsetThreshold := offset_thr; tsThreshold := ts_thr; aggMap := ∅ |}.

Definition with_aggMap (a : PacketAggregator) (m : gmap FlowMetadata FlowAttr) : PacketAggregator :=
  {| offsetThreshold := offsetThreshold a; tsThreshold := tsThreshold a; aggMap := m |}.

Definition addPacket (a : PacketAggregator) (meta : FlowMetadata) (offset t disk_size : Z)
  : Z * PacketAggregator :=
  let last := MAX64 in
  match aggMap a !! meta with
  | None => (last, with_aggMap a (<[meta := mkFlow offset t]> (aggMap a)))
  | Some it =>
      let ordered_offset :=
        if offset <=? lastOffset it then u64 (offset + disk_size) else offset in
      if (offsetThreshold a <? u64 (ordered_offset - lastOffset it))
         || (tsThreshold a <? u64 (t - ts it))
      then (last, with_aggMap a (<[meta := mkFlow offset t]> (aggMap a)))
      else (lastOffset it, with_aggMap a (<[meta := mkFlow offset t]> (aggMap a)))
  end.

(** ** Tag aggregation *)
Record TagAttr := mkTag { values : list Z; beginOffset : Z; agg : Z }.

(** One hash table per tag. *)
Definition TagAggregator : Type := list (gmap FlowMetadata TagAttr).

Definition new_TagAggregator (size : Z) : TagAggregator := replicate (Z.to_nat size) ∅.

(** The update of the front value; an empty list has no front. *)
Definition on_front (f : Z -> Z) (l : list Z) : res (list Z) :=
  match l with [] => Undef | x :: l => Ok (f x :: l) end.

Definition sum (ori value : Z) : Z := u64 (ori + value).
Definition max (ori value : Z) : Z := if ori <? value then value else ori.
Definition min (ori value : Z) : Z := if value <? ori then value else ori.

(** [contain]: [false] when the value is already listed, else it is added. *)
Definition contain (oris : list Z) (value : Z) : bool * list Z :=
  if existsb (fun x => x =? value) oris then (false, oris) else (true, oris ++ [value]).

Definition set_tag (a : TagAggregator) (tag_id : Z) (meta : FlowMetadata) (t : TagAttr)
  : res TagAggregator :=
  m ← zget a tag_id;
  zset a tag_id (<[meta := t]> m).

Definition addTag (a : TagAggregator) (meta : FlowMetadata) (tag_id tag_agg value offset last : Z)
  : res ((Z * Z) * TagAggregator) :=
  m ← zget a tag_id;
  match m !! meta with
  | None =>
      a' ← set_tag a tag_id meta (mkTag [value] offset tag_agg);
      if tag_agg =? 6 then Ok ((offset, value), a') else Ok ((MAX64, value), a')
  | Some it =>
      let finish (vs : list Z) :=
        if (last =? MAX64) && negb (tag_agg =? 6) then
          front ← match vs with [] => Undef | x :: _ => Ok x end;
          a' ← set_tag a tag_id meta (mkTag vs offset (agg it));
          Ok ((beginOffset it, front), a')
        else
          a' ← set_tag a tag_id meta (mkTag vs (beginOffset it) (agg it));
          Ok ((MAX64, value), a') in
      if tag_agg =? 2 then vs ← on_front (fun x => sum x value) (values it); finish vs
      else if tag_agg =? 4 then vs ← on_front (fun x => max x value) (values it); finish vs
      else if tag_agg =? 5 then vs ← on_front (fun x => min x value) (values it); finish vs
      else if tag_agg =? 6 then
        let '(added, vs) := contain (values it) value in
        if added : bool then
          a' ← set_tag a tag_id meta (mkTag vs (beginOffset it) (agg it));
          Ok ((beginOffset it, value), a')
        else finish vs
      else Ok ((MAX64, value), a)
  end.

(** [getAll], given the order in which each hash table is iterated. *)
Fixpoint getAll_table (i : Z) (order : list TagAttr) : res (list (Z * (Z * Z))) :=
  match order with
  | [] => Ok []
  | t :: order =>
      if agg t =? 6 then Ok [] else
      front ← match values t with [] => Undef | x :: _ => Ok x end;
      rest ← getAll_table i order;
      Ok ((i, (beginOffset t, front)) :: rest)
  end.

Fixpoint getAll (i : Z) (orders : list (list TagAttr)) : res (list (Z * (Z * Z))) :=
  match orders with
  | [] => Ok []
  | o :: orders =>
      l ← getAll_table i o;
      rest ← getAll (i + 1) orders;
      Ok (l ++ rest)
  end.

(** ** Reference: linking against the packet history *)

(** A packet as the aggregator sees it. *)
Record pkt := mkPkt { p_meta : FlowMetadata; p_offset : Z; p_ts : Z }.

(** The most recent packet of a flow in a history (oldest first). *)
Fixpoint last_of (m : FlowMetadata) (h : list pkt) : option pkt :=
  match h with
  | [] => None
  | p :: h => match last_of m h with
              | Some q => Some q
              | None => if decide (p_meta p = m) then Some p else None
              end
  end.

(** Are two successive packets of a flow close enough to be linked? *)
Definition close (offset_thr ts_thr disk_size : Z) (q p : pkt) : bool :=
  let ordered := if p_offset p <=? p_offset q then u64 (p_offset p + disk_size)
                 else p_offset p in
  (u64 (ordered - p_offset q) <=? offset_thr) && (u64 (p_ts p - p_ts q) <=? ts_thr).

(** The links of a whole run. *)
Fixpoint addPackets (a : PacketAggregator) (disk_size : Z) (h : list pkt)
  : list Z * PacketAggregator :=
  match h with
  | [] => ([], a)
  | p :: h =>
      let '(l, a) := addPacket a (p_meta p) (p_offset p) (p_ts p) disk_size in
      let '(ls, a) := addPackets a disk_size h in (l :: ls, a)
  end.

(** The aggregator's table is the "last packet" function of the history. *)
Definition represents (a : PacketAggregator) (h : list pkt) : Prop :=
  forall m, aggMap a !! m = (fun p => mkFlow (p_offset p) (p_ts p)) <$> last_of m h.

Lemma last_of_snoc m h p :
  last_of m (h ++ [p]) = if decide (p_meta p = m) then Some p else last_of m h.
Proof.
  induction h as [|q h IH]; simpl; [by repeat case_decide|].
  rewrite IH. by repeat case_decide.
Qed.

Lemma last_of_elem m h p : last_of m h = Some p -> p ∈ h /\ p_meta p = m.
Proof.
  induction h as [|q h IH]; simpl; [done|].
  destruct (last_of m h); [intros [= ->]; destruct (IH eq_refl); split; [by right|done]|].
  case_decide; [|done]. intros [= ->]. split; [left|done].
Qed.

Definition link (a : PacketAggregator) (disk_size : Z) (h : list pkt) (p : pkt) : Z :=
  match last_of (p_meta p) h with
  | Some q => if close (offsetThreshold a) (tsThreshold a) disk_size q p
              then p_offset q else MAX64
  | None => MAX64
  end.

Lemma addPacket_spec a h p disk_size :
  represents a h ->
  exists a', addPacket a (p_meta p) (p_offset p) (p_ts p) disk_size = (link a disk_size h p, a')
    /\ represents a' (h ++ [p])
    /\ offsetThreshold a' = offsetThreshold a /\ tsThreshold a' = tsThreshold a.
Proof.
  intros Hr. exists (with_aggMap a (<[p_meta p := mkFlow (p_offset p) (p_ts p)]> (aggMap a))).
  split; [|split; [|done]].
  - unfold addPacket, link. rewrite Hr. destruct (last_of (p_meta p) h) as [q|]; simpl; [|done].
    unfold close. rewrite !Z.leb_antisym. rewrite <-negb_orb.
    set (c := (offsetThreshold a <? _) || _). by destruct c.
  - intros m. simpl. rewrite last_of_snoc. case_decide as E.
    + subst. by rewrite lookup_insert_eq.
    + by rewrite lookup_insert_ne, Hr.
Qed.

(** The reference run: each packet linked against the packets before it. *)
Fixpoint links (a : PacketAggregator) (disk_size : Z) (past h : list pkt) : list Z :=
  match h with
  | [] => []
  | p :: h => link a disk_size past p :: links a disk_size (past ++ [p]) h
  end.

Lemma links_thresholds a a' disk_size past h :
  offsetThreshold a' = offsetThreshold a -> tsThreshold a' = tsThreshold a ->
  links a' disk_size past h = links a disk_size past h.
Proof.
  intros H1 H2. revert past. induction h as [|p h IH]; intros past; [done|].
  simpl. rewrite IH. unfold link. by rewrite H1, H2.
Qed.

Lemma addPackets_spec a past h disk_size :
  represents a past -> (addPackets a disk_size h).1 = links a disk_size past h.
Proof.
  revert a past. induction h as [|p h IH]; intros a past Hr; [done|].
  simpl. destruct (addPacket_spec a past p disk_size Hr) as (a' & -> & Hr' & H1 & H2).
  specialize (IH a' _ Hr'). destruct (addPackets a' disk_size h); simpl in *.
  by rewrite IH, (links_thresholds a a').
Qed.

(** ** Properties *)

(** C32: the packet aggregator links packets by flow.  For any packet history
    fed to a fresh aggregator, each packet receives the offset of the most
    recent earlier packet of its own flow when their distance (taken around
    the end of the disk) and their time difference are within the thresholds,
    and the maximal 64-bit value otherwise; packets of other flows never
    influence the link. *)
Theorem addPackets_links_flows offset_thr ts_thr disk_size h :
  (addPackets (new_PacketAggregator offset_thr ts_thr) disk_size h).1 =
  links (new_PacketAggregator offset_thr ts_thr) disk_size [] h /\
  forall a past p l, link a disk_size past p = l -> l <> MAX64 ->
    exists q, q ∈ past /\ p_meta q = p_meta p /\ p_offset q = l /\
      close (offsetThreshold a) (tsThreshold a) disk_size q p = true.
Proof.
  split.
  - apply addPackets_spec. intros m. simpl. by rewrite lookup_empty.
  - unfold link. intros a past p l <- Hl.
    destruct (last_of (p_meta p) past) as [q|] eqn:E; [|done].
    apply last_of_elem in E as [Hq Hm]. exists q.
    destruct (close _ _ _ _ _) eqn:Ec; [done|done].
Qed.

(** Two flows, interleaved; the third packet of the first flow is too late. *)
Lemma addPackets_links_flows_witness :
  let f := mkMeta [1] [2] 80 443 in let g := mkMeta [3] [4] 53 53 in
  (addPackets (new_PacketAggregator 1000 100) 4096
    [mkPkt f 0 10; mkPkt g 100 11; mkPkt f 200 12; mkPkt g 50 13; mkPkt f 300 500]).1 =
  [MAX64; MAX64; 0; MAX64; MAX64].
Proof.
  intros f g. rewrite (proj1 (addPackets_links_flows 1000 100 4096 _)). vm_compute. reflexivity.
Defined.
