(* ===== verification/BlockBuffer.v ===== *)
(** * Block buffers (dpdk_lib/dataBlockbuffer.hpp, dpdk_lib/indexBlockBuffer.hpp)

    A block buffer is a circular window of [total_block_num] blocks in memory
    over a circular disk of [disk_block_num] blocks.  Writer threads copy bytes
    at disk positions; a write is accepted only while the buffer blocks it
    touches are the ones of its disk blocks ([block_disk_id]).  Check threads
    take blocks all writers have left and recycle them for the disk block one
    window further.  [Geometry] has the addressing arithmetic both classes
    share, [Data] and [IndexB] the two classes. *)
From S2P Require Import Prelude Util.
From Stdlib Require Import ZArith Lia.

Definition DISK_BLOCK_TIMES : Z := 4.

(** The copy at the end of [writeBlock]: split in two at the end of the
    buffer. *)
Definition copy_in (buffer : list Z) (buffer_size block_pos : Z) (data : list Z) (len : Z)
  : res (list Z) :=
  if buffer_size <? u64 (block_pos + len) then
    let tmp := u64 (buffer_size - block_pos) in
    b ← memcpy buffer block_pos data 0 tmp;
    memcpy b 0 data tmp (u64 (len - tmp))
  else memcpy buffer block_pos data 0 len.

(** The barrier test of [checkRSS] and [checkThread]: is the writer outside
    the window of [barrier_len] disk blocks that ends at [right]? *)
Definition beyond (strict : bool) (disk_block_num barrier_len right disk_write_id : Z) : bool :=
  let left := u64 (u64 (right + disk_block_num) - barrier_len) mod disk_block_num in
  let past := if strict then right <? disk_write_id else right <=? disk_write_id in
  ((left <? right) && (past || (disk_write_id <? left)))
  || ((right <? left) && (past && (disk_write_id <? left))).

Module Data.

Record DataBlock := mkDataBlock {
  block_id : Z;
  write_pos : Z;
  start_time : Z;
  end_time : Z;
  packet_count : Z;
  buffer_off : Z }.

Record DataBlockBuffer := mkDBB {
  total_block_num : Z;
  block_size : Z;
  buffer_size : Z;
  disk_block_num : Z;
  rss_num : Z;
  delayed_block_num : Z;
  buffer_blocks : list Z;
  block_disk_id : list Z;
  start_times : list Z;
  end_times : list Z;
  packet_counts : list Z;
  disk_write_ids : list Z;
  block_check_ids : list Z }.

(** Field updates. *)
Definition with_buffer (b : DataBlockBuffer) (x : list Z) : DataBlockBuffer :=
  mkDBB (total_block_num b) (block_size b) (buffer_size b) (disk_block_num b) (rss_num b)
    (delayed_block_num b) x (block_disk_id b) (start_times b) (end_times b)
    (packet_counts b) (disk_write_ids b) (block_check_ids b).
Definition with_disk_id (b : DataBlockBuffer) (x : list Z) : DataBlockBuffer :=
  mkDBB (total_block_num b) (block_size b) (buffer_size b) (disk_block_num b) (rss_num b)
    (delayed_block_num b) (buffer_blocks b) x (start_times b) (end_times b)
    (packet_counts b) (disk_write_ids b) (block_check_ids b).
Definition with_times (b : DataBlockBuffer) (x y : list Z) : DataBlockBuffer :=
  mkDBB (total_block_num b) (block_size b) (buffer_size b) (disk_block_num b) (rss_num b)
    (delayed_block_num b) (buffer_blocks b) (block_disk_id b) x y
    (packet_counts b) (disk_write_ids b) (block_check_ids b).
Definition with_counts (b : DataBlockBuffer) (x : list Z) : DataBlockBuffer :=
  mkDBB (total_block_num b) (block_size b) (buffer_size b) (disk_block_num b) (rss_num b)
    (delayed_block_num b) (buffer_blocks b) (block_disk_id b) (start_times b) (end_times b)
    x (disk_write_ids b) (block_check_ids b).
Definition with_write_ids (b : DataBlockBuffer) (x : list Z) : DataBlockBuffer :=
  mkDBB (total_block_num b) (block_size b) (buffer_size b) (disk_block_num b) (rss_num b)
    (delayed_block_num b) (buffer_blocks b) (block_disk_id b) (start_times b) (end_times b)
    (packet_counts b) x (block_check_ids b).
Definition with_check_ids (b : DataBlockBuffer) (x : list Z) : DataBlockBuffer :=
  mkDBB (total_block_num b) (block_size b) (buffer_size b) (disk_block_num b) (rss_num b)
    (delayed_block_num b) (buffer_blocks b) (block_disk_id b) (start_times b) (end_times b)
    (packet_counts b) (disk_write_ids b) x.

Definition new_DataBlockBuffer (mmap_ok : bool) (total bs disk rss delayed : Z)
  : res DataBlockBuffer :=
  let bufsize := u64 (total * bs) in
  if negb (Z.land bufsize (u64 (bufsize - 1)) =? 0) then Throws
  else if disk <=? u64 (total * DISK_BLOCK_TIMES) then Throws
  else if negb mmap_ok then Throws
  else Ok {| total_block_num := total; block_size := bs; buffer_size := bufsize;
             disk_block_num := disk; rss_num := rss; delayed_block_num := delayed;
             buffer_blocks := replicate (Z.to_nat bufsize) 0;
             block_disk_id := zseq total;
             start_times := replicate (Z.to_nat total) MAX64;
             end_times := replicate (Z.to_nat total) 0;
             packet_counts := replicate (Z.to_nat (u64 (total * rss))) 0;
             disk_write_ids := []; block_check_ids := [] |}.

Definition checkRSS (b : DataBlockBuffer) (block_check_id rss_id : Z) : res bool :=
  disk_write_id ← zget (disk_write_ids b) rss_id;
  let barrier_len := u64 (total_block_num b * 2) in
  id ← zget (block_disk_id b) block_check_id;
  if disk_block_num b =? 0 then Undef else
  let right := u64 (id + delayed_block_num b) mod disk_block_num b in
  Ok (beyond true (disk_block_num b) barrier_len right disk_write_id).

Definition directCheckRSS (b : DataBlockBuffer) (block_check_id rss_id : Z) : res bool :=
  disk_write_id ← zget (disk_write_ids b) rss_id;
  let barrier_len := u64 (total_block_num b * 2) in
  id ← zget (block_disk_id b) block_check_id;
  if disk_block_num b =? 0 then Undef else
  let right := id mod disk_block_num b in
  Ok (beyond false (disk_block_num b) barrier_len right disk_write_id).

Definition addWriteThread (b : DataBlockBuffer) : Z * DataBlockBuffer :=
  let id := zlen (disk_write_ids b) in
  if total_block_num b <=? id then (MAX64, b)
  else (id, with_write_ids b (disk_write_ids b ++ [id])).

Definition addCheckThread (b : DataBlockBuffer) : Z * DataBlockBuffer :=
  let id := zlen (block_check_ids b) in
  if total_block_num b <=? id then (MAX64, b)
  else (id, with_check_ids b (block_check_ids b ++ [id])).

(** [if(new_data) this->disk_write_ids\[thread_id\] = disk_id;] *)
Definition set_write_id (b : DataBlockBuffer) (new_data : bool) (thread_id disk_id : Z)
  : res DataBlockBuffer :=
  if new_data then
    l ← zset (disk_write_ids b) thread_id disk_id; Ok (with_write_ids b l)
  else Ok b.

(** [if(new_data) this->end_times\[block_id\] = ts;] *)
Definition set_end_time (b : DataBlockBuffer) (new_data : bool) (block_id ts : Z)
  : res DataBlockBuffer :=
  if new_data then
    l ← zset (end_times b) block_id ts; Ok (with_times b (start_times b) l)
  else Ok b.

(** [if(new_data) this->start_times\[block_id\] = std::min(...,ts);] *)
Definition min_start_time (b : DataBlockBuffer) (new_data : bool) (block_id ts : Z)
  : res DataBlockBuffer :=
  if new_data then
    old ← zget (start_times b) block_id;
    l ← zset (start_times b) block_id (Z.min old ts); Ok (with_times b l (end_times b))
  else Ok b.

(** [packet_counts\[...\]++] when data and index are new. *)
Definition bump_count (b : DataBlockBuffer) (new_data new_index : bool) (i : Z)
  : res DataBlockBuffer :=
  if new_data && new_index then
    c ← zget (packet_counts b) i;
    l ← zset (packet_counts b) i (u64 (c + 1)); Ok (with_counts b l)
  else Ok b.

Definition writeBlock (b : DataBlockBuffer) (data : list Z) (len disk_pos thread_id : Z)
  (new_data new_index : bool) (ts : Z) : res (bool * DataBlockBuffer) :=
  if (block_size b =? 0) || (total_block_num b =? 0) || (disk_block_num b =? 0)
     || (buffer_size b =? 0) then Undef else
  let block_id := (disk_pos / block_size b) mod total_block_num b in
  let disk_id := (disk_pos / block_size b) mod disk_block_num b in
  let block_offset := disk_pos mod block_size b in
  let block_pos := disk_pos mod buffer_size b in
  cur ← zget (block_disk_id b) block_id;
  if negb (cur =? disk_id) then
    b ← set_write_id b new_data thread_id disk_id; Ok (false, b)
  else
  let crosses := block_size b <=? u64 (block_offset + len) in
  let block_id' := if crosses then u64 (block_id + 1) mod total_block_num b else block_id in
  let disk_id' := if crosses then u64 (disk_id + 1) mod disk_block_num b else disk_id in
  b ← (if crosses then set_end_time b new_data block_id ts else Ok b);
  cur ← zget (block_disk_id b) block_id';
  if crosses && negb (cur =? disk_id') then
    b ← set_write_id b new_data thread_id disk_id'; Ok (false, b)
  else
  b ← (if crosses then min_start_time b new_data block_id' ts else Ok b);
  if (rss_num b =? 0) || (block_size b / rss_num b =? 0) then Undef else
  b ← (if u64 (block_offset + len) mod (block_size b / rss_num b) =? 0 then
         b ← set_end_time b new_data block_id' ts;
         min_start_time b new_data (u64 (block_id' + 1) mod total_block_num b) ts
       else Ok b);
  buf ← copy_in (buffer_blocks b) (buffer_size b) block_pos data len;
  b ← set_write_id (with_buffer b buf) new_data thread_id disk_id';
  b ← bump_count b new_data new_index
        (u64 (block_id + u64 (total_block_num b * thread_id)));
  Ok (true, b).

(** [checkBlock]: all writers are beyond the delayed barrier of the block. *)
Fixpoint check_all (test : Z -> res bool) (i : Z) (n : nat) : res bool :=
  match n with
  | O => Ok true
  | S n => v ← test i; if negb v then Ok false else check_all test (i + 1) n
  end.

Fixpoint check_any (test : Z -> res bool) (i : Z) (n : nat) : res bool :=
  match n with
  | O => Ok false
  | S n => v ← test i; if v : bool then Ok true else check_any test (i + 1) n
  end.

Definition checkBlock (b : DataBlockBuffer) (thread_id : Z) : res Z :=
  block_check_id ← zget (block_check_ids b) thread_id;
  ok ← check_all (checkRSS b block_check_id) 0 (Z.to_nat (rss_num b));
  Ok (if ok : bool then block_check_id else MAX64).

Definition directGetBlockID (b : DataBlockBuffer) (thread_id : Z) : res Z :=
  block_check_id ← zget (block_check_ids b) thread_id;
  ok ← check_any (directCheckRSS b block_check_id) 0 (Z.to_nat (rss_num b));
  Ok (if ok : bool then block_check_id else MAX64).

(** The two loops of [getBlock] over the writers' counters of a block. *)
Fixpoint sum_counts (counts : list Z) (pos total : Z) (n : nat) : res Z :=
  match n with
  | O => Ok 0
  | S n => c ← zget counts pos; r ← sum_counts counts (pos + total) total n; Ok (u64 (c + r))
  end.

Fixpoint reset_counts (counts : list Z) (pos total : Z) (n : nat) : res (list Z) :=
  match n with
  | O => Ok counts
  | S n => l ← zset counts pos 0; reset_counts l (pos + total) total n
  end.

Definition getBlock (b : DataBlockBuffer) (thread_id : Z) : res (DataBlock * DataBlockBuffer) :=
  id ← zget (block_check_ids b) thread_id;
  st ← zget (start_times b) id;
  et ← zget (end_times b) id;
  wp ← zget (block_disk_id b) id;
  n ← sum_counts (packet_counts b) id (total_block_num b) (Z.to_nat (rss_num b));
  counts ← reset_counts (packet_counts b) id (total_block_num b) (Z.to_nat (rss_num b));
  if total_block_num b =? 0 then Undef else
  let next := u64 (id + zlen (block_check_ids b)) mod total_block_num b in
  ids ← zset (block_check_ids b) thread_id next;
  Ok ({| block_id := id; write_pos := wp; start_time := st; end_time := et;
         packet_count := n; buffer_off := id * block_size b |},
      with_check_ids (with_counts b counts) ids).

Definition recycleBlock (b : DataBlockBuffer) (id : Z) : res DataBlockBuffer :=
  disk_id ← zget (block_disk_id b) id;
  if disk_block_num b =? 0 then Undef else
  l ← zset (block_disk_id b) id (u64 (disk_id + total_block_num b) mod disk_block_num b);
  Ok (with_disk_id b l).

End Data.

(** ** Index records in a byte buffer: [Record<KeyType>], packed *)

(** A key type with its bytes in memory. *)
Class KeyBytes (K : Type) := {
  key_len : Z;
  key_enc : K -> list Z;
  key_dec : list Z -> K;
  key_ok : K -> Prop;
}.

Class KeyBytesLaws (K : Type) `{KeyBytes K} := {
  key_len_nonneg : 0 <= key_len (K := K);
  key_enc_len k : zlen (key_enc k) = key_len (K := K);
  key_dec_enc k : key_ok k -> key_dec (key_enc k) = k;
  key_enc_dec l : zlen l = key_len (K := K) -> Forall (is_u 8) l -> key_enc (key_dec l) = l;
  key_dec_ok l : zlen l = key_len (K := K) -> Forall (is_u 8) l -> key_ok (key_dec l);
}.

Definition key2 : KeyBytes Z :=
  {| key_len := 2; key_enc := le_bytes 2; key_dec := le_val; key_ok := is_u 16 |}.
Definition key4 : KeyBytes Z :=
  {| key_len := 4; key_enc := le_bytes 4; key_dec := le_val; key_ok := is_u 32 |}.
Definition key16 : KeyBytes IPv6Address :=
  {| key_len := 16; key_enc := ipv6_bytes;
     key_dec l := mkIPv6 (le_val (take 8 l)) (le_val (drop 8 l)); key_ok := ipv6_wf |}.

(** [Record<K>]: a key and its 8-byte value, packed. *)
Definition record_size (kl : Z) : Z := kl + 8.

Definition record_enc {K} `{KeyBytes K} (r : K * Z) : list Z := key_enc r.1 ++ le_bytes 8 r.2.

Definition record_dec {K} `{KeyBytes K} (l : list Z) : K * Z :=
  (key_dec (take (Z.to_nat (key_len (K := K))) l),
   le_val (drop (Z.to_nat (key_len (K := K))) l)).

(** The array of [n] records a byte region holds. *)
Fixpoint records_dec {K} `{KeyBytes K} (n : nat) (l : list Z) : list (K * Z) :=
  match n with
  | O => []
  | S n =>
      let rs := Z.to_nat (record_size (key_len (K := K))) in
      record_dec (take rs l) :: records_dec n (drop rs l)
  end.

Definition records_enc {K} `{KeyBytes K} (rs : list (K * Z)) : list Z := rs ≫= record_enc.

Module IndexB.

Record IndexBlock := mkIndexBlock { block_id : Z; write_pos : Z; buffer_off : Z }.

Record IndexBlockBuffer := mkIBB {
  total_block_num : Z;
  block_size : Z;
  buffer_size : Z;
  disk_block_num : Z;
  thread_num : Z;
  buffer_blocks : list Z;
  block_disk_id : list Z;
  disk_write_ids : list Z;
  block_check_ids : list Z }.

Definition with_buffer (b : IndexBlockBuffer) (x : list Z) : IndexBlockBuffer :=
  mkIBB (total_block_num b) (block_size b) (buffer_size b) (disk_block_num b) (thread_num b)
    x (block_disk_id b) (disk_write_ids b) (block_check_ids b).
Definition with_disk_id (b : IndexBlockBuffer) (x : list Z) : IndexBlockBuffer :=
  mkIBB (total_block_num b) (block_size b) (buffer_size b) (disk_block_num b) (thread_num b)
    (buffer_blocks b) x (disk_write_ids b) (block_check_ids b).
Definition with_write_ids (b : IndexBlockBuffer) (x : list Z) : IndexBlockBuffer :=
  mkIBB (total_block_num b) (block_size b) (buffer_size b) (disk_block_num b) (thread_num b)
    (buffer_blocks b) (block_disk_id b) x (block_check_ids b).
Definition with_check_ids (b : IndexBlockBuffer) (x : list Z) : IndexBlockBuffer :=
  mkIBB (total_block_num b) (block_size b) (buffer_size b) (disk_block_num b) (thread_num b)
    (buffer_blocks b) (block_disk_id b) (disk_write_ids b) x.

(** The buffer has one backup block behind its [buffer_size] bytes. *)
Definition new_IndexBlockBuffer (mmap_ok : bool) (total bs disk threads : Z)
  : res IndexBlockBuffer :=
  let bufsize := u64 (total * bs) in
  if negb (Z.land bufsize (u64 (bufsize - 1)) =? 0) then Throws
  else if disk <=? u64 (total * DISK_BLOCK_TIMES) then Throws
  else if negb mmap_ok then Throws
  else Ok {| total_block_num := total; block_size := bs; buffer_size := bufsize;
             disk_block_num := disk; thread_num := threads;
             buffer_blocks := replicate (Z.to_nat (u64 (bufsize + bs))) 0;
             block_disk_id := zseq total;
             disk_write_ids := []; block_check_ids := [] |}.

Definition checkThread (strict : bool) (b : IndexBlockBuffer) (block_check_id rss_id : Z)
  : res bool :=
  disk_write_id ← zget (disk_write_ids b) rss_id;
  let barrier_len := u64 (total_block_num b * 2) in
  id ← zget (block_disk_id b) block_check_id;
  if disk_block_num b =? 0 then Undef else
  let right := id mod disk_block_num b in
  Ok (beyond strict (disk_block_num b) barrier_len right disk_write_id).

Definition addWriteThread (b : IndexBlockBuffer) : Z * IndexBlockBuffer :=
  let id := zlen (disk_write_ids b) in
  if total_block_num b <=? id then (MAX64, b)
  else (id, with_write_ids b (disk_write_ids b ++ [id])).

Definition addCheckThread (b : IndexBlockBuffer) : Z * IndexBlockBuffer :=
  let id := zlen (block_check_ids b) in
  if total_block_num b <=? id then (MAX64, b)
  else (id, with_check_ids b (block_check_ids b ++ [id])).

Definition writeBlock (b : IndexBlockBuffer) (data : list Z) (len disk_pos thread_id : Z)
  : res (bool * IndexBlockBuffer) :=
  if (block_size b =? 0) || (total_block_num b =? 0) || (disk_block_num b =? 0)
     || (buffer_size b =? 0) then Undef else
  let block_id := (disk_pos / block_size b) mod total_block_num b in
  let disk_id := (disk_pos / block_size b) mod disk_block_num b in
  let block_offset := disk_pos mod block_size b in
  let block_pos := disk_pos mod buffer_size b in
  cur ← zget (block_disk_id b) block_id;
  if negb (cur =? disk_id) then
    l ← zset (disk_write_ids b) thread_id disk_id; Ok (false, with_write_ids b l)
  else
  let crosses := block_size b <=? u64 (block_offset + len) in
  let block_id' := if crosses then u64 (block_id + 1) mod total_block_num b else block_id in
  let disk_id' := if crosses then u64 (disk_id + 1) mod disk_block_num b else disk_id in
  cur ← zget (block_disk_id b) block_id';
  if crosses && negb (cur =? disk_id') then
    l ← zset (disk_write_ids b) thread_id disk_id'; Ok (false, with_write_ids b l)
  else
  buf ← copy_in (buffer_blocks b) (buffer_size b) block_pos data len;
  l ← zset (disk_write_ids b) thread_id disk_id';
  Ok (true, with_write_ids (with_buffer b buf) l).

Definition checkBlock (b : IndexBlockBuffer) (thread_id : Z) : res Z :=
  block_check_id ← zget (block_check_ids b) thread_id;
  ok ← Data.check_all (checkThread true b block_check_id) 0 (Z.to_nat (thread_num b));
  Ok (if ok : bool then block_check_id else MAX64).

Definition directCheckBlock (b : IndexBlockBuffer) (thread_id : Z) : res Z :=
  block_check_id ← zget (block_check_ids b) thread_id;
  ok ← Data.check_any (checkThread false b block_check_id) 0 (Z.to_nat (thread_num b));
  Ok (if ok : bool then block_check_id else MAX64).

Definition getBlock (b : IndexBlockBuffer) (thread_id : Z) : res (IndexBlock * IndexBlockBuffer) :=
  id ← zget (block_check_ids b) thread_id;
  wp ← zget (block_disk_id b) id;
  if total_block_num b =? 0 then Undef else
  ids ← zset (block_check_ids b) thread_id
          (u64 (id + zlen (block_check_ids b)) mod total_block_num b);
  Ok ({| block_id := id; write_pos := wp; buffer_off := id * block_size b |},
      with_check_ids b ids).

Definition recycleBlock (b : IndexBlockBuffer) (id : Z) : res IndexBlockBuffer :=
  disk_id ← zget (block_disk_id b) id;
  if disk_block_num b =? 0 then Undef else
  l ← zset (block_disk_id b) id (u64 (disk_id + total_block_num b) mod disk_block_num b);
  Ok (with_disk_id b l).

Section sort.
(** [std::sort] on an array of records: the standard leaves the order of
    records with equivalent keys open. *)
Context (std_sort : forall K, CppKey K -> list (K * Z) -> list (K * Z)).

(** [std::sort(record_list, record_list + num_records)] in place. *)
Definition sort_region {K} `{CppKey K} `{KeyBytes K} (buf : list Z) (block_pos num_records : Z)
  : res (list Z) :=
  let n := num_records * record_size (key_len (K := K)) in
  region ← zread buf block_pos n;
  let sorted := std_sort K _ (records_dec (Z.to_nat num_records) region) in
  memcpy buf block_pos (records_enc sorted) 0 n.

(** The dispatch on the key length. *)
Definition sort_by_key (key_len : Z) (buf : list Z) (block_pos num_records : Z) : res (list Z) :=
  if key_len =? 2 then @sort_region Z Z_key key2 buf block_pos num_records
  else if key_len =? 4 then @sort_region Z Z_key key4 buf block_pos num_records
  else if key_len =? 16 then @sort_region IPv6Address ipv6_key key16 buf block_pos num_records
  else Throws.

Definition sortIndex (b : IndexBlockBuffer) (start_pos len key_len : Z) : res IndexBlockBuffer :=
  if buffer_size b =? 0 then Undef else
  let block_pos := start_pos mod buffer_size b in
  let wraps := buffer_size b <? u64 (block_pos + len) in
  let over := u64 (len + block_pos - buffer_size b) in
  buf ← (if wraps then memcpy (buffer_blocks b) (buffer_size b) (buffer_blocks b) 0 over
         else Ok (buffer_blocks b));
  let num_records := len / record_size key_len in
  buf ← sort_by_key key_len buf block_pos num_records;
  buf ← (if wraps then memcpy buf 0 buf (buffer_size b) over else Ok buf);
  Ok (with_buffer b buf).
End sort.

End IndexB.

(** ** Shared geometry lemmas *)

(** A position's block in the circular buffer. *)
Lemma mod_div_block p bs total :
  0 < bs -> 0 < total -> p mod (total * bs) / bs = (p / bs) mod total.
Proof.
  intros Hb Ht. rewrite (Z.mul_comm total bs), Z.rem_mul_r by lia.
  rewrite (Z.mul_comm bs), Z.div_add, Z.div_small by (try apply Z.mod_pos_bound; lia). lia.
Qed.

(** The barrier test is a window on the circle of disk blocks. *)
Lemma beyond_spec strict D L right w :
  0 < L < D -> D < 2 ^ 62 -> 0 <= right < D -> 0 <= w < D ->
  beyond strict D L right w =
  ((if strict then 0 <? (w - right) mod D else true) && ((w - right) mod D <? D - L)).
Proof.
  intros HL HD Hr Hw. unfold beyond.
  rewrite !u64_small by (rewrite ?u64_small; lia).
  set (left := (right + D - L) mod D).
  assert (Hl : left = if L <=? right then right - L else right + D - L).
  { unfold left. case_test; zbool.
    - replace (right + D - L) with (right - L + 1 * D) by lia.
      rewrite Z.mod_add by lia. apply Z.mod_small. lia.
    - apply Z.mod_small. lia. }
  assert (Hd : (w - right) mod D = if right <=? w then w - right else w - right + D).
  { case_test; zbool; [apply Z.mod_small; lia|].
    rewrite <-(Z.mod_add (w - right) 1 D), Z.mod_small; lia. }
  rewrite Hd, Hl. destruct strict; repeat case_test; zbool;
    apply eq_true_iff_eq; rewrite ?orb_true_iff, ?andb_true_iff, ?Z.ltb_lt, ?Z.leb_le; lia.
Qed.

(** The bytes of the buffer after [copy_in]: the [len] bytes from [pos] on,
    around the end of the circle, are the data; the others are unchanged. *)
Lemma copy_in_spec buffer size pos data len :
  0 <= pos < size -> size <= zlen buffer -> 0 <= len <= size -> len <= zlen data ->
  size < 2 ^ 62 ->
  exists buf, copy_in buffer size pos data len = Ok buf /\ zlen buf = zlen buffer /\
    forall i : nat, buf !! i =
      if decide (Z.of_nat i < size /\ (Z.of_nat i - pos) mod size < len)
      then data !! Z.to_nat ((Z.of_nat i - pos) mod size) else buffer !! i.
Proof.
  intros Hp Hs Hl Hd Hm. unfold copy_in.
  rewrite (u64_small (pos + len)), (u64_small (size - pos)) by lia.
  assert (Hmod : forall i : nat, Z.of_nat i < size -> (Z.of_nat i - pos) mod size =
    if pos <=? Z.of_nat i then Z.of_nat i - pos else Z.of_nat i - pos + size).
  { intros i Hi. case_test; zbool; [apply Z.mod_small; lia|].
    rewrite <-(Z.mod_add _ 1), Z.mod_small; lia. }
  case_test; zbool.
  - rewrite u64_small, memcpy_Ok by lia. cbn [mbind res_bind].
    assert (H1 : zlen (zslice 0 (size - pos) data) = size - pos) by (apply zlen_zslice; lia).
    assert (H2 : zlen (zslice (size - pos) (len - (size - pos)) data) = len - (size - pos))
      by (apply zlen_zslice; lia).
    assert (H3 : zlen (zsplice pos (zslice 0 (size - pos) data) buffer) = zlen buffer)
      by (apply zlen_zsplice; lia).
    rewrite memcpy_Ok by lia. eexists. split; [done|]. split; [rewrite zlen_zsplice; lia|].
    intros i. rewrite lookup_zsplice, lookup_zsplice by lia. rewrite H1, H2.
    destruct (decide (Z.of_nat i < size)) as [Hi|Hi].
    + rewrite Hmod by done. destruct (pos <=? Z.of_nat i) eqn:?; zbool; repeat case_decide; try lia; try done;
        rewrite lookup_zslice; (case_decide; [|lia]); f_equal; lia.
    + repeat case_decide; try lia; done.
  - rewrite memcpy_Ok by lia. eexists. split; [done|].
    assert (H1 : zlen (zslice 0 len data) = len) by (apply zlen_zslice; lia).
    split; [rewrite zlen_zsplice; lia|].
    intros i. rewrite lookup_zsplice by lia. rewrite H1.
    destruct (decide (Z.of_nat i < size)) as [Hi|Hi].
    + rewrite Hmod by done. destruct (pos <=? Z.of_nat i) eqn:?; zbool; repeat case_decide; try lia; try done;
        rewrite lookup_zslice; (case_decide; [|lia]); f_equal; lia.
    + repeat case_decide; try lia; done.
Qed.

Lemma next_mod q n : 0 < n -> 0 <= q -> n < 2 ^ 62 -> u64 (q mod n + 1) mod n = (q + 1) mod n.
Proof.
  intros Hn Hq Hm. pose proof (Z.mod_pos_bound q n Hn).
  rewrite u64_small by lia. apply Zplus_mod_idemp_l.
Qed.

(** Reading a list with a default. *)
Definition at_ (l : list Z) (i : Z) : Z := default 0 (l !! Z.to_nat i).

Lemma zget_at l i : 0 <= i < zlen l -> zget l i = Ok (at_ l i).
Proof.
  intros H. destruct (zget_lt l i H) as [x Hx]. rewrite Hx.
  apply zget_Ok in Hx as [_ E]. unfold at_. by rewrite E.
Qed.

Lemma at_insert l i j x :
  0 <= i < zlen l -> 0 <= j ->
  at_ (<[Z.to_nat i := x]> l) j = if decide (j = i) then x else at_ l j.
Proof.
  intros Hi Hj. unfold at_. case_decide; subst.
  - rewrite list_lookup_insert_eq; [done|]. unfold zlen in Hi. lia.
  - by rewrite list_lookup_insert_ne by lia.
Qed.

Lemma check_all_spec (test : Z -> res bool) (p : Z -> bool) n i :
  (forall j, i <= j < i + Z.of_nat n -> test j = Ok (p j)) ->
  exists v, Data.check_all test i n = Ok v /\
    (v = true <-> forall j, i <= j < i + Z.of_nat n -> p j = true).
Proof.
  revert i. induction n as [|n IH]; intros i H; cbn [Data.check_all].
  - exists true. split; [done|]. split; [intros; lia|done].
  - rewrite H by lia. cbn [mbind res_bind]. destruct (p i) eqn:E; cbn [negb].
    + destruct (IH (i + 1)) as (v & Ev & Hv); [intros; apply H; lia|].
      exists v. split; [done|]. rewrite Hv. split; intros Hj j ?.
      * destruct (decide (j = i)) as [->|]; [done|]. apply Hj. lia.
      * apply Hj. lia.
    + exists false. split; [done|]. split; [done|]. intros Hj.
      rewrite <-E. apply Hj. lia.
Qed.

Lemma check_any_spec (test : Z -> res bool) (p : Z -> bool) n i :
  (forall j, i <= j < i + Z.of_nat n -> test j = Ok (p j)) ->
  exists v, Data.check_any test i n = Ok v /\
    (v = true <-> exists j, i <= j < i + Z.of_nat n /\ p j = true).
Proof.
  revert i. induction n as [|n IH]; intros i H; cbn [Data.check_any].
  - exists false. split; [done|]. split; [done|]. intros (j & ? & _). lia.
  - rewrite H by lia. cbn [mbind res_bind]. destruct (p i) eqn:E.
    + exists true. split; [done|]. split; [|done]. intros _. exists i. split; [lia|done].
    + destruct (IH (i + 1)) as (v & Ev & Hv); [intros; apply H; lia|].
      exists v. split; [done|]. rewrite Hv. split; intros (j & ? & Hj).
      * exists j. split; [lia|done].
      * exists j. split; [|done]. destruct (decide (j = i)) as [->|]; [congruence|lia].
Qed.

(** ** The data block buffer: invariant *)
Module DataProofs.
Import Data.

Record wf (b : DataBlockBuffer) : Prop := {
  wf_total : 0 < total_block_num b;
  wf_bs : 0 < block_size b;
  wf_bufsize : buffer_size b = total_block_num b * block_size b;
  wf_small : buffer_size b < 2 ^ 62;
  wf_disk : total_block_num b * DISK_BLOCK_TIMES < disk_block_num b < 2 ^ 62;
  wf_rss : 0 < rss_num b;
  wf_chunk : 0 < block_size b / rss_num b;
  wf_counts_small : total_block_num b * rss_num b < 2 ^ 62;
  wf_buffer : zlen (buffer_blocks b) = buffer_size b;
  wf_ids : zlen (block_disk_id b) = total_block_num b;
  wf_ids_range : forall i, 0 <= i < total_block_num b ->
    0 <= at_ (block_disk_id b) i < disk_block_num b;
  wf_starts : zlen (start_times b) = total_block_num b;
  wf_ends : zlen (end_times b) = total_block_num b;
  wf_counts : zlen (packet_counts b) = total_block_num b * rss_num b }.

(** Does the buffer block of disk position [p] belong to [p]'s disk block? *)
Definition owns (b : DataBlockBuffer) (p : Z) : bool :=
  at_ (block_disk_id b) ((p / block_size b) mod total_block_num b)
    =? (p / block_size b) mod disk_block_num b.

(** The buffered byte of disk position [p]. *)
Definition byte (b : DataBlockBuffer) (p : Z) : Z := at_ (buffer_blocks b) (p mod buffer_size b).

(** [b'] differs from [b] only in times, counters and write ids. *)
Record same_core (b b' : DataBlockBuffer) : Prop := {
  sc_total : total_block_num b' = total_block_num b;
  sc_bs : block_size b' = block_size b;
  sc_bufsize : buffer_size b' = buffer_size b;
  sc_disk : disk_block_num b' = disk_block_num b;
  sc_rss : rss_num b' = rss_num b;
  sc_buffer : buffer_blocks b' = buffer_blocks b;
  sc_ids : block_disk_id b' = block_disk_id b;
  sc_check : block_check_ids b' = block_check_ids b;
  sc_starts : zlen (start_times b') = zlen (start_times b);
  sc_ends : zlen (end_times b') = zlen (end_times b);
  sc_counts : zlen (packet_counts b') = zlen (packet_counts b);
  sc_writes : zlen (disk_write_ids b') = zlen (disk_write_ids b) }.

Lemma same_core_refl b : same_core b b.
Proof. by split. Qed.

Lemma same_core_trans a b c : same_core a b -> same_core b c -> same_core a c.
Proof. intros [] []. split; congruence. Qed.

Lemma same_core_wf b b' : same_core b b' -> wf b -> wf b'.
Proof. intros [] []. split; try congruence. intros. rewrite sc_ids0, sc_disk0. apply wf_ids_range0. congruence. Qed.

Lemma set_write_id_ok b nd t id :
  0 <= t < zlen (disk_write_ids b) ->
  exists b', set_write_id b nd t id = Ok b' /\ same_core b b' /\
    packet_counts b' = packet_counts b /\ start_times b' = start_times b /\
    disk_write_ids b' = if nd then <[Z.to_nat t := id]> (disk_write_ids b) else disk_write_ids b.
Proof.
  intros Ht. unfold set_write_id. destruct nd; [|exists b; auto using same_core_refl].
  rewrite zset_Ok by done. cbn [mbind res_bind]. eexists. split; [done|].
  split; [|done]. split; simpl; try done. by rewrite zlen_insert.
Qed.

Lemma set_end_time_ok b nd i t :
  0 <= i < zlen (end_times b) ->
  exists b', set_end_time b nd i t = Ok b' /\ same_core b b' /\
    packet_counts b' = packet_counts b /\ disk_write_ids b' = disk_write_ids b /\
    start_times b' = start_times b.
Proof.
  intros Ht. unfold set_end_time. destruct nd; [|exists b; auto using same_core_refl].
  rewrite zset_Ok by done. cbn [mbind res_bind]. eexists. split; [done|].
  split; [|done]. split; simpl; try done. by rewrite zlen_insert.
Qed.

Lemma min_start_time_ok b nd i t :
  0 <= i < zlen (start_times b) ->
  exists b', min_start_time b nd i t = Ok b' /\ same_core b b' /\
    packet_counts b' = packet_counts b /\ disk_write_ids b' = disk_write_ids b.
Proof.
  intros Ht. unfold min_start_time. destruct nd; [|exists b; auto using same_core_refl].
  rewrite zget_at by done. cbn [mbind res_bind].
  rewrite zset_Ok by done. cbn [mbind res_bind]. eexists. split; [done|].
  split; [|done]. split; simpl; try done. by rewrite zlen_insert.
Qed.

Lemma bump_count_ok b nd ni i :
  0 <= i < zlen (packet_counts b) ->
  exists b', bump_count b nd ni i = Ok b' /\ same_core b b' /\
    disk_write_ids b' = disk_write_ids b /\
    packet_counts b' = if nd && ni then <[Z.to_nat i := u64 (at_ (packet_counts b) i + 1)]>
                                        (packet_counts b) else packet_counts b.
Proof.
  intros Ht. unfold bump_count. destruct (nd && ni); [|exists b; auto using same_core_refl].
  rewrite zget_at by done. cbn [mbind res_bind].
  rewrite zset_Ok by done. cbn [mbind res_bind]. eexists. split; [done|].
  split; [|done]. split; simpl; try done. by rewrite zlen_insert.
Qed.

(** ** [writeBlock] *)

(** A call the reader makes: the position and length of a copy of at most one
    block by a registered writer. *)
Record call_ok (b : DataBlockBuffer) (data : list Z) (len p t : Z) : Prop := {
  co_pos : 0 <= p < 2 ^ 62;
  co_len : 0 <= len <= block_size b;
  co_data : len <= zlen data;
  co_thread : 0 <= t < rss_num b;
  co_reg : t < zlen (disk_write_ids b) }.

(** The disk id the writer records. *)
Definition last_block (b : DataBlockBuffer) (len p : Z) : Z :=
  if block_size b <=? p mod block_size b + len then p / block_size b + 1 else p / block_size b.

(** A write is accepted when the block it starts in and, if it reaches the end
    of that block, the next one are the ones of its disk blocks. *)
Definition accepted (b : DataBlockBuffer) (len p : Z) : bool :=
  owns b p && owns b (last_block b len p * block_size b).

Definition written_id (b : DataBlockBuffer) (len p : Z) : Z :=
  (if owns b p then last_block b len p else p / block_size b) mod disk_block_num b.

Lemma div_small_bounds b p :
  wf b -> 0 <= p < 2 ^ 62 ->
  0 <= p / block_size b < 2 ^ 62 /\ 0 <= p mod block_size b < block_size b.
Proof.
  intros [] Hp. split; [|apply Z.mod_pos_bound; lia].
  split; [apply Z.div_pos; lia|]. apply Z.div_lt_upper_bound; nia.
Qed.

Lemma block_size_small b : wf b -> block_size b < 2 ^ 62 /\ total_block_num b < 2 ^ 62.
Proof. intros []. unfold DISK_BLOCK_TIMES in *. nia. Qed.

(** The part of [writeBlock] after the two ownership tests. *)
Lemma finish_ok b data len p t nd ni ts bid bid' disk' :
  wf b -> call_ok b data len p t ->
  0 <= bid < total_block_num b -> 0 <= bid' < total_block_num b ->
  exists b' buf,
  (b1 ← (if u64 (p mod block_size b + len) mod (block_size b / rss_num b) =? 0 then
         b1 ← set_end_time b nd bid' ts;
         min_start_time b1 nd (u64 (bid' + 1) mod total_block_num b1) ts
       else Ok b);
   buf ← copy_in (buffer_blocks b1) (buffer_size b1) (p mod buffer_size b) data len;
   b2 ← set_write_id (with_buffer b1 buf) nd t disk';
   b3 ← bump_count b2 nd ni (u64 (bid + u64 (total_block_num b2 * t)));
   Ok (true, b3)) = Ok (true, with_buffer b' buf) /\
  copy_in (buffer_blocks b) (buffer_size b) (p mod buffer_size b) data len = Ok buf /\
  same_core b b' /\
  disk_write_ids b' = (if nd then <[Z.to_nat t := disk']> (disk_write_ids b)
                       else disk_write_ids b) /\
  packet_counts b' = (if nd && ni
     then <[Z.to_nat (bid + total_block_num b * t) :=
             u64 (at_ (packet_counts b) (bid + total_block_num b * t) + 1)]> (packet_counts b)
     else packet_counts b).
Proof.
  intros Hw [] Hb Hb'. pose proof Hw as Hw0. destruct Hw0.
  destruct (block_size_small b Hw) as [Hs Ht'].
  assert (Hi : 0 <= bid + total_block_num b * t < zlen (packet_counts b)) by (rewrite wf_counts0; nia).
  assert (Ei : u64 (bid + u64 (total_block_num b * t)) = bid + total_block_num b * t)
    by (rewrite !u64_small by (rewrite ?u64_small; nia); done).
  set (m1 := if _ =? 0 then _ else _).
  assert (exists b1, m1 = Ok b1 /\ same_core b b1 /\ packet_counts b1 = packet_counts b /\
    disk_write_ids b1 = disk_write_ids b) as (b1 & -> & Hc1 & Hp1 & Hd1).
  { unfold m1. case_test; [|by eauto using same_core_refl].
    destruct (set_end_time_ok b nd bid' ts) as (ba & -> & Hca & Hpa & Hda & Hsa); [lia|].
    cbn [mbind res_bind]. rewrite (sc_total _ _ Hca).
    destruct (min_start_time_ok ba nd (u64 (bid' + 1) mod total_block_num b) ts)
      as (bb & -> & Hcb & Hpb & Hdb).
    { rewrite Hsa, wf_starts0. by apply Z.mod_pos_bound. }
    exists bb. split; [done|]. split; [by eapply same_core_trans|]. split; congruence. }
  cbn [mbind res_bind]. rewrite (sc_buffer _ _ Hc1), (sc_bufsize _ _ Hc1).
  pose proof (Z.mod_pos_bound p (buffer_size b)) as Hpp.
  destruct (copy_in_spec (buffer_blocks b) (buffer_size b) (p mod buffer_size b) data len)
    as (buf & Ebuf & Hl & _); [nia..|].
  rewrite Ebuf. cbn [mbind res_bind].
  destruct (set_write_id_ok (with_buffer b1 buf) nd t disk') as (b2 & -> & Hc2 & Hp2 & _ & Hd2);
    [simpl; rewrite Hd1; lia|]. cbn [mbind res_bind]. simpl in Hp2, Hd2.
  rewrite (sc_total _ _ Hc2). simpl total_block_num. rewrite (sc_total _ _ Hc1).
  rewrite Ei. destruct (bump_count_ok b2 nd ni (bid + total_block_num b * t))
    as (b3 & -> & Hc3 & Hd3 & Hp3); [rewrite Hp2, Hp1; lia|]. cbn [mbind res_bind].
  exists (with_buffer b3 (buffer_blocks b)), buf. split.
  { f_equal. f_equal. pose proof (sc_buffer _ _ Hc3) as Hb3. rewrite (sc_buffer _ _ Hc2) in Hb3.
    simpl in Hb3. destruct b3. unfold with_buffer; simpl in *. by subst. }
  split; [done|]. split; [|by simpl; rewrite Hd3, Hd2, Hd1, Hp3, Hp2, Hp1].
  destruct Hc1, Hc2, Hc3; simpl in *. split; simpl; congruence.
Qed.


Lemma orb_zero_false b : wf b ->
  (block_size b =? 0) || (total_block_num b =? 0) || (disk_block_num b =? 0)
     || (buffer_size b =? 0) = false.
Proof.
  intros []. unfold DISK_BLOCK_TIMES in *. rewrite !orb_false_iff, !Z.eqb_neq. nia.
Qed.

Lemma owns_mul b q : wf b ->
  owns b (q * block_size b) =
  (at_ (block_disk_id b) (q mod total_block_num b) =? q mod disk_block_num b).
Proof. intros []. unfold owns. by rewrite Z.div_mul by lia. Qed.

(** What a [writeBlock] call leaves behind. *)
Record written (b : DataBlockBuffer) (data : list Z) (len p t : Z) (nd ni : bool)
  (b' : DataBlockBuffer) : Prop := {
  wr_wf : wf b';
  wr_total : total_block_num b' = total_block_num b;
  wr_bs : block_size b' = block_size b;
  wr_bufsize : buffer_size b' = buffer_size b;
  wr_disk : disk_block_num b' = disk_block_num b;
  wr_rss : rss_num b' = rss_num b;
  wr_ids : block_disk_id b' = block_disk_id b;
  wr_writes : disk_write_ids b' =
    if nd then <[Z.to_nat t := written_id b len p]> (disk_write_ids b) else disk_write_ids b;
  wr_counts : packet_counts b' =
    if accepted b len p && (nd && ni)
    then let i := (p / block_size b) mod total_block_num b + total_block_num b * t in
         <[Z.to_nat i := u64 (at_ (packet_counts b) i + 1)]> (packet_counts b)
    else packet_counts b;
  wr_buffer : if accepted b len p
    then copy_in (buffer_blocks b) (buffer_size b) (p mod buffer_size b) data len
           = Ok (buffer_blocks b')
    else buffer_blocks b' = buffer_blocks b }.

Lemma written_refused b b1 data len p t (nd ni : bool) :
  wf b -> same_core b b1 -> accepted b len p = false ->
  packet_counts b1 = packet_counts b ->
  disk_write_ids b1 = (if nd then <[Z.to_nat t := written_id b len p]> (disk_write_ids b)
                       else disk_write_ids b) ->
  written b data len p t nd ni b1.
Proof.
  intros Hw Hc Ha Hp Hd. pose proof (same_core_wf _ _ Hc Hw). destruct Hc.
  split; rewrite ?Ha; done.
Qed.

Lemma wf_with_buffer b buf :
  wf b -> zlen buf = zlen (buffer_blocks b) -> wf (with_buffer b buf).
Proof. intros [] H. split; simpl; try done. lia. Qed.

Lemma finish_written b b0 data len p t (nd ni : bool) ts bid' disk' :
  wf b -> call_ok b data len p t -> same_core b b0 ->
  packet_counts b0 = packet_counts b -> disk_write_ids b0 = disk_write_ids b ->
  accepted b len p = true -> disk' = written_id b len p ->
  0 <= bid' < total_block_num b ->
  exists b',
  (b1 ← (if u64 (p mod block_size b + len) mod (block_size b0 / rss_num b0) =? 0 then
         b1 ← set_end_time b0 nd bid' ts;
         min_start_time b1 nd (u64 (bid' + 1) mod total_block_num b1) ts
       else Ok b0);
   buf ← copy_in (buffer_blocks b1) (buffer_size b1) (p mod buffer_size b) data len;
   b2 ← set_write_id (with_buffer b1 buf) nd t disk';
   b3 ← bump_count b2 nd ni
      (u64 ((p / block_size b) mod total_block_num b + u64 (total_block_num b2 * t)));
   Ok (true, b3)) = Ok (true, b') /\ written b data len p t nd ni b'.
Proof.
  intros Hw Hco Hc Hp Hd Ha -> Hb'. pose proof (same_core_wf _ _ Hc Hw) as Hw0.
  assert (Hco0 : call_ok b0 data len p t).
  { destruct Hco, Hc. split; congruence. }
  pose proof (Z.mod_pos_bound (p / block_size b) (total_block_num b) (wf_total b Hw)) as Hbid.
  destruct (finish_ok b0 data len p t nd ni ts
    ((p / block_size b) mod total_block_num b) bid' (written_id b len p) Hw0 Hco0)
    as (b' & buf & E & Ec & Hc' & Hd' & Hp').
  { by rewrite (sc_total _ _ Hc). }
  { by rewrite (sc_total _ _ Hc). }
  rewrite (sc_bs _ _ Hc) in E |- *. rewrite (sc_bufsize _ _ Hc) in E.
  exists (with_buffer b' buf). split; [exact E|].
  assert (Hl : zlen buf = zlen (buffer_blocks b0)).
  { destruct (copy_in_spec (buffer_blocks b0) (buffer_size b0) (p mod buffer_size b0) data len)
      as (buf' & E' & Hl & _); destruct Hw0, Hco0;
      try (by rewrite Ec in E'; injection E' as <-); try nia; by apply Z.mod_pos_bound; nia. }
  pose proof (same_core_trans _ _ _ Hc Hc') as Hcc.
  pose proof (same_core_wf _ _ Hcc Hw) as Hw'.
  split; rewrite ?Ha.
  - apply wf_with_buffer; [done|]. by rewrite Hl, (sc_buffer _ _ Hc').
  - apply (sc_total _ _ Hcc).
  - apply (sc_bs _ _ Hcc).
  - apply (sc_bufsize _ _ Hcc).
  - apply (sc_disk _ _ Hcc).
  - apply (sc_rss _ _ Hcc).
  - apply (sc_ids _ _ Hcc).
  - simpl. by rewrite Hd', Hd.
  - simpl andb. cbv zeta. simpl packet_counts. by rewrite Hp', Hp, (sc_total _ _ Hc).
  - simpl. by rewrite <-(sc_buffer _ _ Hc), <-(sc_bufsize _ _ Hc).
Qed.

Lemma writeBlock_written b data len p t nd ni ts :
  wf b -> call_ok b data len p t ->
  exists b', writeBlock b data len p t nd ni ts = Ok (accepted b len p, b') /\
    written b data len p t nd ni b'.
Proof.
  intros Hw Hco. pose proof (co_len _ _ _ _ _ Hco) as Hlen. pose proof (co_thread _ _ _ _ _ Hco).
  pose proof (co_reg _ _ _ _ _ Hco).
  destruct (div_small_bounds b p Hw (co_pos _ _ _ _ _ Hco)) as [Hq Hm].
  destruct (block_size_small b Hw) as [Hsb Hst].
  pose proof (wf_disk b Hw) as Hdisk. unfold DISK_BLOCK_TIMES in Hdisk.
  pose proof (wf_total b Hw) as Htot.
  unfold writeBlock. rewrite orb_zero_false by done.
  set (q := p / block_size b) in *.
  pose proof (Z.mod_pos_bound q (total_block_num b) Htot) as Hbid.
  rewrite zget_at by (by rewrite wf_ids). cbn [mbind res_bind].
  destruct (owns b p) eqn:Eo; pose proof Eo as Eo'; unfold owns in Eo'; fold q in Eo';
    rewrite Eo'; cbn [negb].
  2: { destruct (set_write_id_ok b nd t (q mod disk_block_num b)) as (b1 & -> & Hc & Hp & _ & Hd);
         [lia|].
       cbn [mbind res_bind]. exists b1. unfold accepted. rewrite Eo. split; [done|].
       apply written_refused; try done; unfold accepted, written_id; by rewrite Eo. }
  rewrite (u64_small (p mod block_size b + len)) by lia.
  destruct (block_size b <=? p mod block_size b + len) eqn:Ex; cbn [andb].
  - rewrite !next_mod by lia.
    assert (Ha : accepted b len p =
      (at_ (block_disk_id b) ((q + 1) mod total_block_num b) =? (q + 1) mod disk_block_num b)).
    { unfold accepted, last_block. rewrite Eo, Ex. cbn [andb]. by apply owns_mul. }
    assert (Hwid : written_id b len p = (q + 1) mod disk_block_num b).
    { unfold written_id, last_block. by rewrite Eo, Ex. }
    pose proof (Z.mod_pos_bound (q + 1) (total_block_num b) Htot) as Hbid'.
    destruct (set_end_time_ok b nd (q mod total_block_num b) ts) as (b1 & -> & Hc1 & Hp1 & Hd1 & _);
      [by rewrite wf_ends|]. cbn [mbind res_bind]. rewrite (sc_ids _ _ Hc1).
    rewrite zget_at by (by rewrite wf_ids). cbn [mbind res_bind]. rewrite <-Ha.
    destruct (accepted b len p) eqn:Ea; cbn [negb].
    2: { destruct (set_write_id_ok b1 nd t ((q + 1) mod disk_block_num b))
           as (b2 & -> & Hc2 & Hp2 & _ & Hd2); [rewrite Hd1; lia|].
         cbn [mbind res_bind]. exists b2. split; [done|].
         apply written_refused; try done; [by eapply same_core_trans|congruence|].
         by rewrite Hd2, Hd1, Hwid. }
    destruct (min_start_time_ok b1 nd ((q + 1) mod total_block_num b) ts)
      as (b2 & -> & Hc2 & Hp2 & Hd2).
    { rewrite (sc_starts _ _ Hc1). by rewrite wf_starts. }
    cbn [mbind res_bind]. pose proof (same_core_trans _ _ _ Hc1 Hc2) as Hc.
    case_test.
    { exfalso. pose proof (wf_rss b Hw). pose proof (wf_chunk b Hw).
      rewrite (sc_rss _ _ Hc), (sc_bs _ _ Hc) in E.
      apply orb_true_iff in E as []; zlia. }
    rewrite <-(u64_small (p mod block_size b + len)) by lia.
    apply finish_written; try done; congruence.
  - assert (Ha : accepted b len p = true).
    { unfold accepted, last_block. rewrite Eo, Ex. cbn [andb].
      rewrite owns_mul by done. exact Eo'. }
    assert (Hwid : written_id b len p = q mod disk_block_num b).
    { unfold written_id, last_block. by rewrite Eo, Ex. }
    cbn [mbind res_bind].
    rewrite zget_at by (by rewrite wf_ids). cbn [mbind res_bind].
    case_test.
    { exfalso. pose proof (wf_rss b Hw). pose proof (wf_chunk b Hw).
      apply orb_true_iff in E as []; zlia. }
    rewrite Ha, <-(u64_small (p mod block_size b + len)) by lia.
    by apply finish_written.
Qed.


(** Positions inside a copy lie in the block it starts in or the next one. *)
Lemma owns_inside b data len p t j :
  wf b -> call_ok b data len p t -> accepted b len p = true -> 0 <= j < len ->
  owns b (p + j) = true.
Proof.
  intros Hw Hco Ha Hj. destruct (div_small_bounds b p Hw (co_pos _ _ _ _ _ Hco)) as [_ Hm].
  pose proof (co_len _ _ _ _ _ Hco). pose proof (wf_bs b Hw) as Hbs.
  unfold accepted, last_block in Ha. apply andb_true_iff in Ha as [Ha1 Ha2].
  pose proof (Z.div_mod p (block_size b) ltac:(lia)) as Ep.
  destruct (decide (p mod block_size b + j < block_size b)).
  - unfold owns in *. replace ((p + j) / block_size b) with (p / block_size b); [done|].
    apply (Z.div_unique _ _ _ (p mod block_size b + j)); lia.
  - replace (block_size b <=? _) with true in Ha2 by (symmetry; apply Z.leb_le; lia).
    rewrite owns_mul in Ha2 by done. unfold owns.
    replace ((p + j) / block_size b) with (p / block_size b + 1); [done|].
    apply (Z.div_unique _ _ _ (p mod block_size b + j - block_size b)); lia.
Qed.

(** The bytes after an accepted write. *)
Lemma written_bytes b b' data len p t nd ni :
  wf b -> call_ok b data len p t -> accepted b len p = true ->
  written b data len p t nd ni b' ->
  (forall j, 0 <= j < len -> byte b' (p + j) = at_ data j) /\
  (forall i, 0 <= i < buffer_size b -> len <= (i - p) mod buffer_size b ->
     at_ (buffer_blocks b') i = at_ (buffer_blocks b) i).
Proof.
  intros Hw Hco Ha Hwr. pose proof (wr_buffer _ _ _ _ _ _ _ _ Hwr) as Hbuf. rewrite Ha in Hbuf.
  pose proof (co_len _ _ _ _ _ Hco) as Hlen. pose proof (co_data _ _ _ _ _ Hco).
  assert (Hsz : 0 < buffer_size b /\ block_size b <= buffer_size b) by (destruct Hw; nia).
  pose proof (Z.mod_pos_bound p (buffer_size b) ltac:(lia)) as Hp.
  destruct (copy_in_spec (buffer_blocks b) (buffer_size b) (p mod buffer_size b) data len)
    as (buf & E & Hl & Hb); try (destruct Hw; lia).
  rewrite Hbuf in E. injection E as <-.
  assert (Hmod : forall x, (x - p mod buffer_size b) mod buffer_size b = (x - p) mod buffer_size b)
    by (intros; apply Zminus_mod_idemp_r).
  split.
  - intros j Hj. unfold byte, at_. rewrite (wr_bufsize _ _ _ _ _ _ _ _ Hwr), Hb.
    pose proof (Z.mod_pos_bound (p + j) (buffer_size b) ltac:(lia)).
    rewrite Z2Nat.id, Hmod by lia.
    assert (Ej : ((p + j) mod buffer_size b - p) mod buffer_size b = j).
    { rewrite Zminus_mod_idemp_l. replace (p + j - p) with j by lia. apply Z.mod_small. lia. }
    rewrite Ej. case_decide; [done|lia].
  - intros i Hi Hout. unfold at_. rewrite Hb, Z2Nat.id, Hmod by lia. case_decide; [lia|done].
Qed.

(** ** Checking, taking and recycling blocks *)
Lemma checkRSS_spec b id r :
  wf b -> 0 <= id < total_block_num b -> 0 <= r < zlen (disk_write_ids b) ->
  0 <= at_ (disk_write_ids b) r < disk_block_num b ->
  0 <= delayed_block_num b < 2 ^ 62 ->
  checkRSS b id r = Ok (
    let d := (at_ (disk_write_ids b) r - (at_ (block_disk_id b) id + delayed_block_num b))
             mod disk_block_num b in
    (0 <? d) && (d <? disk_block_num b - 2 * total_block_num b)).
Proof.
  intros Hw Hi Hr Hwid Hdel. pose proof (wf_ids_range b Hw id Hi). destruct Hw.
  unfold DISK_BLOCK_TIMES in *. unfold checkRSS. rewrite zget_at by lia. cbn [mbind res_bind].
  rewrite zget_at by lia. cbn [mbind res_bind]. case_test; [zlia|]. f_equal.
  rewrite !u64_small by lia.
  pose proof (Z.mod_pos_bound (at_ (block_disk_id b) id + delayed_block_num b)
                (disk_block_num b) ltac:(lia)).
  rewrite beyond_spec by lia. rewrite Zminus_mod_idemp_r. cbv zeta.
  by rewrite (Z.mul_comm 2).
Qed.

Lemma checkBlock_spec b t :
  wf b -> 0 <= t < zlen (block_check_ids b) ->
  0 <= at_ (block_check_ids b) t < total_block_num b ->
  zlen (disk_write_ids b) = rss_num b ->
  (forall r, 0 <= r < rss_num b -> 0 <= at_ (disk_write_ids b) r < disk_block_num b) ->
  0 <= delayed_block_num b < 2 ^ 62 ->
  exists id, checkBlock b t = Ok id /\
    (id <> MAX64 <->
     forall r, 0 <= r < rss_num b ->
       0 < (at_ (disk_write_ids b) r -
            (at_ (block_disk_id b) (at_ (block_check_ids b) t) + delayed_block_num b))
           mod disk_block_num b < disk_block_num b - 2 * total_block_num b) /\
    (id <> MAX64 -> id = at_ (block_check_ids b) t).
Proof.
  intros Hw Ht Hc Hn Hd Hdel. unfold checkBlock. rewrite zget_at by done. cbn [mbind res_bind].
  set (id := at_ (block_check_ids b) t) in *.
  set (p := fun r => let d := (at_ (disk_write_ids b) r -
      (at_ (block_disk_id b) id + delayed_block_num b)) mod disk_block_num b in
    (0 <? d) && (d <? disk_block_num b - 2 * total_block_num b)).
  pose proof (wf_rss b Hw).
  destruct (check_all_spec (checkRSS b id) p (Z.to_nat (rss_num b)) 0) as (v & -> & Hv).
  { intros j Hj. apply checkRSS_spec; try done; [lia|apply Hd; lia]. }
  cbn [mbind res_bind]. destruct (block_size_small b Hw).
  assert (Hp : v = true <-> forall r, 0 <= r < rss_num b -> 0 <
    (at_ (disk_write_ids b) r - (at_ (block_disk_id b) id + delayed_block_num b))
      mod disk_block_num b < disk_block_num b - 2 * total_block_num b).
  { rewrite Hv. split; intros Hr r Hr'; specialize (Hr r ltac:(lia)); unfold p in *.
    - zbool. lia.
    - apply andb_true_iff. rewrite !Z.ltb_lt. lia. }
  eexists. split; [done|]. split; [|by destruct v].
  rewrite <-Hp. destruct v; split; try done. intros _. unfold MAX64. lia.
Qed.

(** Recycling moves a block one window further on the disk. *)
Lemma recycleBlock_spec b i :
  wf b -> 0 <= i < total_block_num b ->
  exists b', recycleBlock b i = Ok b' /\ wf b' /\
    total_block_num b' = total_block_num b /\ disk_block_num b' = disk_block_num b /\
    block_size b' = block_size b /\
    forall j, 0 <= j -> at_ (block_disk_id b') j =
      if decide (j = i) then (at_ (block_disk_id b) i + total_block_num b) mod disk_block_num b
      else at_ (block_disk_id b) j.
Proof.
  intros Hw Hi. pose proof (wf_ids_range b Hw i Hi) as Hr. pose proof Hw as [].
  unfold DISK_BLOCK_TIMES in *. unfold recycleBlock. rewrite zget_at by lia.
  cbn [mbind res_bind]. case_test; [zlia|]. rewrite zset_Ok by lia. cbn [mbind res_bind].
  eexists. split; [done|].
  assert (Hat : forall j, 0 <= j -> at_ (block_disk_id (with_disk_id b
      (<[Z.to_nat i := u64 (at_ (block_disk_id b) i + total_block_num b) mod disk_block_num b]>
        (block_disk_id b)))) j =
      if decide (j = i) then (at_ (block_disk_id b) i + total_block_num b) mod disk_block_num b
      else at_ (block_disk_id b) j).
  { intros j Hj. simpl. rewrite at_insert, u64_small by lia. done. }
  split; [|by repeat split].
  split; simpl; rewrite ?zlen_insert; try done. intros j Hj. simpl in Hat. rewrite Hat by lia.
  case_decide; [apply Z.mod_pos_bound; lia|auto].
Qed.

(** [n] recyclings of the same block. *)
Fixpoint recycle_times (b : DataBlockBuffer) (i : Z) (n : nat) : res DataBlockBuffer :=
  match n with
  | O => Ok b
  | S n => b' ← recycleBlock b i; recycle_times b' i n
  end.

Lemma recycle_times_spec n b i :
  wf b -> 0 <= i < total_block_num b ->
  exists b', recycle_times b i n = Ok b' /\ wf b' /\
    block_size b' = block_size b /\ total_block_num b' = total_block_num b /\
    disk_block_num b' = disk_block_num b /\
    at_ (block_disk_id b') i =
      (at_ (block_disk_id b) i + Z.of_nat n * total_block_num b) mod disk_block_num b.
Proof.
  revert b. induction n as [|n IH]; intros b Hw Hi.
  - exists b. split; [done|]. split; [done|]. do 3 (split; [done|]).
    change (Z.of_nat 0) with 0. rewrite Z.mul_0_l, Z.add_0_r, Z.mod_small; [done|].
    by apply wf_ids_range.
  - destruct (recycleBlock_spec b i Hw Hi) as (b1 & E & Hw1 & H1 & H2 & H3 & H4).
    cbn [recycle_times]. rewrite E. cbn [mbind res_bind].
    destruct (IH b1 Hw1 ltac:(lia)) as (b2 & E2 & Hw2 & H5 & H6 & H7 & H8).
    exists b2. split; [done|]. split; [done|]. do 3 (split; [congruence|]).
    rewrite H8, H4, decide_True, H1, H2, Zplus_mod_idemp_l by lia. f_equal. lia.
Qed.

(** ** [getBlock] and the check threads *)
Lemma sum_counts_ok counts total n pos :
  0 <= pos -> 0 < total -> pos + total * Z.of_nat n <= zlen counts + total - 1 ->
  exists s, sum_counts counts pos total n = Ok s /\
    s mod 2 ^ 64 = foldr Z.add 0 ((fun r => at_ counts (pos + total * r)) <$> zseq (Z.of_nat n))
                   mod 2 ^ 64.
Proof.
  revert pos. induction n as [|n IH]; intros pos Hp Ht Hl; cbn [sum_counts].
  - exists 0. done.
  - rewrite zget_at by nia. cbn [mbind res_bind].
    destruct (IH (pos + total)) as (s & -> & Hs); [lia|lia|lia|]. cbn [mbind res_bind].
    eexists. split; [done|]. unfold u64, wrap. rewrite Z.mod_mod by lia.
    rewrite <-Zplus_mod_idemp_r, Hs, Zplus_mod_idemp_r.
    replace (Z.of_nat (S n)) with (1 + Z.of_nat n) by lia.
    rewrite (zseq_head (1 + _)) by lia. cbn [fmap list_fmap foldr].
    rewrite Z.mul_0_r, Z.add_0_r. f_equal. f_equal. rewrite <-list_fmap_compose.
    replace (1 + Z.of_nat n - 1) with (Z.of_nat n) by lia.
    f_equal. apply list_fmap_ext. intros _ x _. simpl. f_equal. lia.
Qed.

Lemma reset_counts_ok counts total n pos :
  0 <= pos -> 0 < total -> pos + total * Z.of_nat n <= zlen counts + total - 1 ->
  exists l, reset_counts counts pos total n = Ok l /\ zlen l = zlen counts /\
    (forall r, 0 <= r < Z.of_nat n -> at_ l (pos + total * r) = 0) /\
    (forall j, 0 <= j -> (forall r, 0 <= r < Z.of_nat n -> j <> pos + total * r) ->
       at_ l j = at_ counts j).
Proof.
  revert pos counts. induction n as [|n IH]; intros pos counts Hp Ht Hl; cbn [reset_counts].
  - exists counts. split; [done|]. split; [done|]. split; [lia|done].
  - rewrite zset_Ok by nia. cbn [mbind res_bind].
    destruct (IH (pos + total) (<[Z.to_nat pos := 0]> counts)) as (l & -> & Hll & H1 & H2);
      [lia|lia|rewrite zlen_insert; lia|].
    rewrite zlen_insert in Hll. exists l. split; [done|]. split; [done|]. split.
    + intros r Hr. destruct (decide (r = 0)) as [->|].
      * rewrite Z.mul_0_r, Z.add_0_r. rewrite H2 by (intros; nia).
        rewrite at_insert by nia. by rewrite decide_True.
      * replace (pos + total * r) with (pos + total + total * (r - 1)) by lia. apply H1. lia.
    + intros j Hj Hne. rewrite H2; [|done|].
      * rewrite at_insert by nia. rewrite decide_False; [done|].
        intros ->. apply (Hne 0); lia.
      * intros r Hr. specialize (Hne (r + 1) ltac:(lia)). lia.
Qed.

Lemma getBlock_ok b t :
  wf b -> 0 <= t < zlen (block_check_ids b) ->
  zlen (block_check_ids b) <= total_block_num b ->
  0 <= at_ (block_check_ids b) t < total_block_num b ->
  let id := at_ (block_check_ids b) t in
  exists blk b', getBlock b t = Ok (blk, b') /\ wf b' /\
    block_id blk = id /\ write_pos blk = at_ (block_disk_id b) id /\
    start_time blk = at_ (start_times b) id /\ end_time blk = at_ (end_times b) id /\
    packet_count blk mod 2 ^ 64 =
      foldr Z.add 0 ((fun r => at_ (packet_counts b) (id + total_block_num b * r))
                     <$> zseq (rss_num b)) mod 2 ^ 64 /\
    buffer_off blk = id * block_size b /\
    (forall r, 0 <= r < rss_num b -> at_ (packet_counts b') (id + total_block_num b * r) = 0) /\
    (forall j, 0 <= j -> (forall r, 0 <= r < rss_num b -> j <> id + total_block_num b * r) ->
       at_ (packet_counts b') j = at_ (packet_counts b) j) /\
    total_block_num b' = total_block_num b /\
    block_check_ids b' =
      <[Z.to_nat t := (id + zlen (block_check_ids b)) mod total_block_num b]> (block_check_ids b).
Proof.
  intros Hw Ht Hn Hid id. destruct (block_size_small b Hw) as [_ Hts]. pose proof Hw as [].
  unfold getBlock. rewrite zget_at by done. cbn [mbind res_bind]. fold id.
  rewrite !zget_at by lia. cbn [mbind res_bind].
  assert (Hb : id + total_block_num b * Z.of_nat (Z.to_nat (rss_num b)) <=
               zlen (packet_counts b) + total_block_num b - 1) by (rewrite Z2Nat.id; unfold id; nia).
  destruct (sum_counts_ok (packet_counts b) (total_block_num b) (Z.to_nat (rss_num b)) id)
    as (s & -> & Hs); [unfold id; lia|done|done|]. cbn [mbind res_bind].
  destruct (reset_counts_ok (packet_counts b) (total_block_num b) (Z.to_nat (rss_num b)) id)
    as (l & -> & Hl & H1 & H2); [unfold id; lia|done|done|]. cbn [mbind res_bind].
  case_test; [zlia|]. pose proof (zlen_nonneg (block_check_ids b)).
  rewrite u64_small by (unfold id in *; lia).
  rewrite zset_Ok by done. cbn [mbind res_bind].
  rewrite Z2Nat.id in Hs, H1, H2 by lia.
  eexists _, _. split; [done|]. split; [|by repeat split].
  split; simpl; try done. lia.
Qed.

(** Check threads that started on blocks [0 .. n-1] and take turns. *)
Fixpoint run_getBlocks (b : DataBlockBuffer) (threads : list Z) : res (list (Z * Z)) :=
  match threads with
  | [] => Ok []
  | t :: threads =>
      '(blk, b') ← getBlock b t;
      rest ← run_getBlocks b' threads;
      Ok ((t, block_id blk) :: rest)
  end.

(** What the calls hand out when [n] threads check [total] blocks and thread [t]
    was called [cnt t] times before: each thread goes on in steps of [n]. *)
Fixpoint handed (total n : Z) (cnt : Z -> Z) (threads : list Z) : list (Z * Z) :=
  match threads with
  | [] => []
  | t :: threads =>
      (t, (t + n * cnt t) mod total) :: handed total n (fun x => if x =? t then cnt x + 1 else cnt x) threads
  end.

Lemma run_getBlocks_spec threads b n cnt :
  wf b -> zlen (block_check_ids b) = n -> 0 < n <= total_block_num b ->
  (forall t, 0 <= t < n -> at_ (block_check_ids b) t = (t + n * cnt t) mod total_block_num b) ->
  Forall (fun t => 0 <= t < n) threads ->
  run_getBlocks b threads = Ok (handed (total_block_num b) n cnt threads).
Proof.
  intros Hw Hn Hpos Hinv Ht. revert b cnt Hw Hn Hpos Hinv.
  induction Ht as [|t threads Ht _ IH]; intros b cnt Hw Hn Hpos Hinv; [done|].
  pose proof (wf_total b Hw) as Htot. pose proof (Hinv t Ht) as Hid.
  pose proof (Z.mod_pos_bound (t + n * cnt t) (total_block_num b) ltac:(lia)) as Hr.
  destruct (getBlock_ok b t Hw) as (blk & b' & E & Hw' & Hblk & _ & _ & _ & _ & _ & _ & _ & Ht' & Hc);
    [lia|lia|lia|].
  cbn [run_getBlocks handed]. rewrite E. cbn [mbind res_bind].
  rewrite (IH b' (fun x => if x =? t then cnt x + 1 else cnt x) Hw').
  - cbn [mbind res_bind]. by rewrite Hblk, Hid, Ht'.
  - by rewrite Hc, zlen_insert.
  - by rewrite Ht'.
  - intros t' Ht''. rewrite Hc, at_insert, Ht' by lia. case_decide; [subst t'|].
    + rewrite Z.eqb_refl, Hn, Hid, Zplus_mod_idemp_l. f_equal. lia.
    + rewrite (proj2 (Z.eqb_neq t' t)) by done. auto.
Qed.

Lemma handed_threads total n threads : forall cnt, (handed total n cnt threads).*1 = threads.
Proof. induction threads as [|t threads IH]; intros cnt; cbn; [done|]. f_equal. apply IH. Qed.

Lemma handed_classes total n threads : 0 < total -> (n | total) -> Forall (fun t => 0 <= t < n) threads ->
  forall cnt, Forall (fun '(t, id) => id mod n = t) (handed total n cnt threads).
Proof.
  intros Htot Hdiv Ht. induction Ht as [|t threads Ht _ IH]; intros cnt; cbn [handed]; [done|].
  constructor; [|apply IH]. rewrite Z.mod_mod_divide by done. rewrite Z.mul_comm, Z.mod_add, Z.mod_small by lia. done.
Qed.

(** Thread 0 called [k] times, and once more, and then thread [r]. *)
Lemma handed_repeated total n k r : r <> 0 -> forall cnt,
  (0, (n * (cnt 0 + Z.of_nat k)) mod total) ∈ handed total n cnt (replicate k 0 ++ [0; r]) /\
  (r, (r + n * cnt r) mod total) ∈ handed total n cnt (replicate k 0 ++ [0; r]).
Proof.
  intros Hr. induction k as [|k IH]; intros cnt.
  - cbn [replicate app handed]. rewrite (proj2 (Z.eqb_neq r 0)), Z.add_0_r, Z.add_0_l by done.
    split; [by left|right; by left].
  - cbn [replicate app handed]. destruct (IH (fun x => if x =? 0 then cnt x + 1 else cnt x)) as [H1 H2].
    rewrite Z.eqb_refl in H1. rewrite (proj2 (Z.eqb_neq r 0)) in H2 by done. split; right; [|done].
    replace (cnt 0 + Z.of_nat (S k)) with (cnt 0 + 1 + Z.of_nat k) by lia. done.
Qed.

(** Registering check threads. *)
Fixpoint add_check_threads (b : DataBlockBuffer) (n : nat) : DataBlockBuffer :=
  match n with O => b | S n => add_check_threads (addCheckThread b).2 n end.

Lemma addCheckThread_spec b :
  zlen (block_check_ids b) < total_block_num b ->
  block_check_ids (addCheckThread b).2 = block_check_ids b ++ [zlen (block_check_ids b)] /\
  total_block_num (addCheckThread b).2 = total_block_num b /\
  (wf b -> wf (addCheckThread b).2).
Proof.
  intros H. unfold addCheckThread. case_test; [zlia|]. split; [done|]. split; [done|].
  intros []. by split.
Qed.

Lemma add_check_threads_spec n b m :
  wf b -> block_check_ids b = zseq m -> 0 <= m -> m + Z.of_nat n <= total_block_num b ->
  wf (add_check_threads b n) /\
  total_block_num (add_check_threads b n) = total_block_num b /\
  block_check_ids (add_check_threads b n) = zseq (m + Z.of_nat n).
Proof.
  revert b m. induction n as [|n IH]; intros b m Hw Hb Hm Hle; cbn [add_check_threads].
  - split; [done|]. split; [done|]. rewrite Hb. f_equal. lia.
  - assert (Hlen : zlen (block_check_ids b) = m) by (rewrite Hb; by apply zlen_zseq).
    destruct (addCheckThread_spec b) as (H1 & H2 & H3); [lia|].
    destruct (IH (addCheckThread b).2 (m + 1)) as (H4 & H5 & H6); auto; try lia.
    + rewrite H1, Hlen, Hb. symmetry. by apply zseq_S.
    + split; [done|]. split; [congruence|]. rewrite H6. f_equal. lia.
Qed.

Lemma at_zseq n i : 0 <= i < n -> at_ (zseq n) i = i.
Proof.
  intros H. unfold at_, zseq. rewrite list_lookup_fmap, lookup_seq_lt by lia. simpl. lia.
Qed.

(** A fresh buffer is well formed. *)
Lemma new_wf total bs disk rss delayed b :
  new_DataBlockBuffer true total bs disk rss delayed = Ok b ->
  0 < total -> 0 < bs -> 0 < rss -> 0 < bs / rss ->
  total * bs < 2 ^ 62 -> disk < 2 ^ 62 -> total * rss < 2 ^ 62 -> total < 2 ^ 60 ->
  wf b /\ total_block_num b = total /\ block_size b = bs /\ disk_block_num b = disk /\
  block_check_ids b = zseq 0 /\
  forall i, 0 <= i < total -> at_ (block_disk_id b) i = i.
Proof.
  unfold new_DataBlockBuffer, DISK_BLOCK_TIMES. intros H Ht Hb Hr Hc Hm Hd Hcs Hts.
  rewrite !u64_small in H by (rewrite ?u64_small; nia).
  repeat (case_test; [done|]). injection H as <-. zbool.
  split; [|split; [done|split; [done|split; [done|split; [done|]]]]].
  - split; simpl; try done; unfold DISK_BLOCK_TIMES; rewrite ?zlen_replicate, ?zlen_zseq; try nia.
    intros i Hi. rewrite at_zseq; lia.
  - intros i Hi. simpl. by apply at_zseq.
Qed.

(** ** Properties *)

(** C19: [writeBlock] of the data block buffer.  For any copy of at most one
    block by a registered writer the call terminates without touching memory
    outside its arrays; it is accepted exactly when the buffer block it starts
    in, and the next one when it reaches the end of the block, are assigned to
    the disk blocks of the copy.  An accepted copy puts every byte at its disk
    position (around the end of the circular buffer), only in blocks that
    belong to those disk positions, and changes no other byte; a refused copy
    changes no byte.  A new-data copy records the writer's disk block. *)
Theorem data_writeBlock_safe b data len p t nd ni ts :
  wf b -> call_ok b data len p t ->
  exists b', writeBlock b data len p t nd ni ts = Ok (accepted b len p, b') /\ wf b' /\
    block_disk_id b' = block_disk_id b /\
    (if accepted b len p
     then (forall j, 0 <= j < len -> owns b (p + j) = true /\ byte b' (p + j) = at_ data j) /\
          (forall i, 0 <= i < buffer_size b -> len <= (i - p) mod buffer_size b ->
             at_ (buffer_blocks b') i = at_ (buffer_blocks b) i)
     else buffer_blocks b' = buffer_blocks b) /\
    (nd = true -> at_ (disk_write_ids b') t = written_id b len p).
Proof.
  intros Hw Hco. destruct (writeBlock_written b data len p t nd ni ts Hw Hco) as (b' & E & Hwr).
  exists b'. split; [done|]. split; [apply Hwr|]. split; [apply Hwr|]. split.
  - pose proof (wr_buffer _ _ _ _ _ _ _ _ Hwr) as Hbuf. destruct (accepted b len p) eqn:Ea; [|done].
    destruct (written_bytes b b' data len p t nd ni Hw Hco Ea Hwr) as [H1 H2].
    split; [|done]. intros j Hj. split; [by eapply owns_inside|auto].
  - intros ->. rewrite (wr_writes _ _ _ _ _ _ _ _ Hwr). destruct Hco.
    rewrite at_insert by lia. by rewrite decide_True.
Qed.

(** [checkBlock] never releases a block a writer may still be filling.
    It answers the checking thread's block exactly when every writer's last
    disk block lies strictly beyond the block's disk block by more than the
    delay and not within two buffer lengths behind it on the circle of disk
    blocks; otherwise it answers the maximal 64-bit value. *)
Theorem data_checkBlock_window b t :
  wf b -> 0 <= t < zlen (block_check_ids b) ->
  0 <= at_ (block_check_ids b) t < total_block_num b ->
  zlen (disk_write_ids b) = rss_num b ->
  (forall r, 0 <= r < rss_num b -> 0 <= at_ (disk_write_ids b) r < disk_block_num b) ->
  0 <= delayed_block_num b < 2 ^ 62 ->
  exists id, checkBlock b t = Ok id /\
    (id <> MAX64 <->
     forall r, 0 <= r < rss_num b ->
       0 < (at_ (disk_write_ids b) r -
            (at_ (block_disk_id b) (at_ (block_check_ids b) t) + delayed_block_num b))
           mod disk_block_num b < disk_block_num b - 2 * total_block_num b) /\
    (id <> MAX64 -> id = at_ (block_check_ids b) t).
Proof. apply checkBlock_spec. Qed.

(** C20: recycling makes every disk position writable again.  When the number
    of buffer blocks divides the number of disk blocks and every block's disk
    id is congruent to its index (as on a fresh buffer, and preserved by
    recycling any block), then for every disk position a number of recyclings
    below [disk_block_num / total_block_num] of the position's own block makes
    that block the one of the position. *)
Theorem data_recycle_reaches_position b p :
  wf b -> (total_block_num b | disk_block_num b) -> 0 <= p ->
  (forall i, 0 <= i < total_block_num b ->
     at_ (block_disk_id b) i mod total_block_num b = i) ->
  (forall i b', 0 <= i < total_block_num b -> recycleBlock b i = Ok b' ->
     forall j, 0 <= j < total_block_num b -> at_ (block_disk_id b') j mod total_block_num b = j) /\
  exists n b', Z.of_nat n < disk_block_num b / total_block_num b /\
    recycle_times b ((p / block_size b) mod total_block_num b) n = Ok b' /\
    wf b' /\ owns b' p = true.
Proof.
  intros Hw Hdiv Hp Hcong. pose proof (wf_total b Hw) as Ht.
  pose proof (wf_disk b Hw) as Hd. unfold DISK_BLOCK_TIMES in Hd. split.
  - intros i b' Hi E j Hj. destruct (recycleBlock_spec b i Hw Hi) as (b1 & E1 & _ & _ & _ & _ & H4).
    rewrite E in E1. injection E1 as <-. rewrite H4 by lia. case_decide; [subst j|auto].
    rewrite Z.mod_mod_divide by done.
    rewrite <-Zplus_mod_idemp_r, Z.mod_same, Z.add_0_r by lia. auto.
  - set (q := p / block_size b). set (i := q mod total_block_num b).
    assert (Hi : 0 <= i < total_block_num b) by (by apply Z.mod_pos_bound).
    set (x := at_ (block_disk_id b) i). pose proof (wf_ids_range b Hw i Hi) as Hx. fold x in Hx.
    set (d := (q - x) mod disk_block_num b).
    pose proof (Z.mod_pos_bound (q - x) (disk_block_num b) ltac:(lia)) as Hdb. fold d in Hdb.
    assert (Hdd : (total_block_num b | d)).
    { apply Z.mod_divide; [lia|]. unfold d. rewrite Z.mod_mod_divide by done.
      rewrite Zminus_mod. unfold x. rewrite Hcong by done. unfold i.
      by rewrite Z.sub_diag. }
    destruct Hdd as [m Hm]. assert (0 <= m) by nia.
    destruct (recycle_times_spec (Z.to_nat m) b i Hw Hi) as (b' & E & Hw' & H1 & H2 & H3 & H4).
    exists (Z.to_nat m), b'. split; [|split; [done|split; [done|]]].
    + rewrite Z2Nat.id by lia. destruct Hdiv as [c Hc]. rewrite Hc, Z.div_mul by lia. nia.
    + unfold owns. rewrite H1, H2, H3. fold q. fold i. rewrite H4, Z2Nat.id by lia. fold x.
      rewrite <-Hm. unfold d. rewrite Zplus_mod_idemp_r. apply Z.eqb_eq.
      f_equal. lia.
Qed.

(** C21: when the check threads partition the blocks.  When [n] check threads,
    at most as many as blocks, have registered on a fresh buffer, every order
    of [getBlock] calls succeeds.  If [n] divides the number of blocks thread
    [t] only ever receives blocks whose index is congruent to [t] modulo [n]: no
    two threads are handed the same block.  If it does not, there is an
    order of calls in which two threads are handed the same block. *)
Theorem data_check_threads_partition total bs disk rss delayed b n :
  new_DataBlockBuffer true total bs disk rss delayed = Ok b ->
  0 < total -> 0 < bs -> 0 < rss -> 0 < bs / rss ->
  total * bs < 2 ^ 62 -> disk < 2 ^ 62 -> total * rss < 2 ^ 62 -> total < 2 ^ 60 ->
  0 < Z.of_nat n <= total ->
  let run := run_getBlocks (add_check_threads b n) in
  let registered t := 0 <= t < Z.of_nat n in
  (forall threads, Forall registered threads ->
    exists l, run threads = Ok l /\ l.*1 = threads /\
      ((Z.of_nat n | total) -> Forall (fun '(t, id) => id mod Z.of_nat n = t) l)) /\
  (~ (Z.of_nat n | total) -> exists threads l t t' id, Forall registered threads /\
    run threads = Ok l /\ t <> t' /\ (t, id) ∈ l /\ (t', id) ∈ l).
Proof.
  intros E H1 H2 H3 H4 H5 H6 H7 H8 Hn run registered.
  destruct (new_wf _ _ _ _ _ _ E) as (Hw & Ht & _ & _ & Hc & _); try done.
  destruct (add_check_threads_spec n b 0 Hw Hc) as (Hw' & Ht' & Hc'); [lia|lia|].
  assert (Hrun : forall threads, Forall registered threads ->
    run threads = Ok (handed total (Z.of_nat n) (fun _ => 0) threads)).
  { intros threads Hts. unfold run. rewrite <-Ht, <-Ht'. apply run_getBlocks_spec; try done.
    - rewrite Hc', zlen_zseq; lia.
    - by rewrite Ht', Ht.
    - intros t Ht''. rewrite Hc', at_zseq, Ht', Ht, Z.mul_0_r, Z.add_0_r by lia.
      symmetry. apply Z.mod_small. lia. }
  split.
  - intros threads Hts. eexists. split; [by apply Hrun|]. split; [apply handed_threads|].
    intros Hdiv. by apply handed_classes.
  - intros Hdiv. set (k := total / Z.of_nat n). pose proof (Z.div_mod total (Z.of_nat n) ltac:(lia)) as Hdm.
    pose proof (Z.mod_pos_bound total (Z.of_nat n) ltac:(lia)) as Hm. fold k in Hdm.
    assert (total mod Z.of_nat n <> 0) by (intros E0; by apply Hdiv, Z.mod_divide; [lia|]).
    set (r := Z.of_nat n * (k + 1) - total). assert (Hr : 0 < r < Z.of_nat n) by (unfold r; lia).
    assert (Hk : 0 <= k) by (unfold k; apply Z.div_pos; lia).
    destruct (handed_repeated total (Z.of_nat n) (Z.to_nat (k + 1)) r ltac:(lia) (fun _ => 0)) as [Hin Hin'].
    assert (Hreg : Forall registered (replicate (Z.to_nat (k + 1)) 0 ++ [0; r])).
    { apply Forall_app. split; [apply Forall_replicate|repeat constructor]; unfold registered; lia. }
    eexists _, _, 0, r, r. split; [exact Hreg|]. split; [by apply Hrun|]. split; [lia|].
    rewrite Z.add_0_l, Z2Nat.id in Hin by lia. rewrite Z.mul_0_r, Z.add_0_r, Z.mod_small in Hin' by lia. split; [|done].
    replace (Z.of_nat n * (k + 1)) with (r + 1 * total) in Hin by (unfold r; lia).
    rewrite Z.mod_add, Z.mod_small in Hin by lia. done.
Qed.

(** ** Witnesses *)

(** Four blocks of 16 bytes over a disk of 32 blocks, two writers. *)
Definition demo_buffer : DataBlockBuffer :=
  let b := from_res (mkDBB 0 0 0 0 0 0 [] [] [] [] [] [] [])
             (new_DataBlockBuffer true 4 16 32 2 1) in
  (addCheckThread (addWriteThread (addWriteThread b).2).2).2.

Lemma demo_buffer_wf : wf demo_buffer.
Proof.
  split; try (vm_compute; (reflexivity || (split; (discriminate || reflexivity)))).
  intros i Hi. change (total_block_num demo_buffer) with 4 in Hi.
  assert (i = 0 \/ i = 1 \/ i = 2 \/ i = 3) as [->|[->|[->| ->]]] by lia;
    vm_compute; split; (discriminate || reflexivity).
Qed.

(** The second writer copies four bytes into block 1. *)
Lemma data_writeBlock_safe_witness :
  exists b', writeBlock demo_buffer [11; 12; 13; 14] 4 20 1 true true 7 = Ok (true, b') /\
    byte b' 22 = 13 /\ at_ (disk_write_ids b') 1 = 1.
Proof.
  destruct (data_writeBlock_safe demo_buffer [11; 12; 13; 14] 4 20 1 true true 7)
    as (b' & E & _ & _ & H & Hid).
  - exact demo_buffer_wf.
  - split; vm_compute; (reflexivity || (split; (discriminate || reflexivity)) || discriminate).
  - exists b'. split; [exact E|]. split.
    + exact (proj2 (proj1 H 2 ltac:(lia))).
    + exact (Hid eq_refl).
Defined.

Lemma data_checkBlock_window_witness :
  exists b, set_write_id demo_buffer true 0 5 = Ok b /\ checkBlock b 0 = Ok MAX64 /\
  exists b', set_write_id b true 1 3 = Ok b' /\ checkBlock b' 0 = Ok 0.
Proof.
  eexists. split; [vm_compute; reflexivity|]. split; [vm_compute; reflexivity|].
  eexists. split; [vm_compute; reflexivity|].
  match goal with |- checkBlock ?x _ = _ => set (b := x) end.
  destruct (data_checkBlock_window b 0) as (id & E & H & Hid).
  - pose proof demo_buffer_wf as []. split; try assumption.
  - vm_compute. split; (discriminate || reflexivity).
  - vm_compute. split; (discriminate || reflexivity).
  - reflexivity.
  - intros r Hr. change (rss_num b) with 2 in Hr.
    assert (r = 0 \/ r = 1) as [->| ->] by lia; vm_compute; split; (discriminate || reflexivity).
  - vm_compute. split; (discriminate || reflexivity).
  - rewrite E. f_equal. apply Hid, H. intros r Hr. change (rss_num b) with 2 in Hr.
    assert (r = 0 \/ r = 1) as [->| ->] by lia; vm_compute; split; (discriminate || reflexivity).
Defined.

Lemma data_recycle_reaches_position_witness :
  exists n b', Z.of_nat n < 8 /\ recycle_times demo_buffer 1 n = Ok b' /\ wf b' /\
    owns b' (21 * 16 + 3) = true.
Proof.
  refine (proj2 (data_recycle_reaches_position demo_buffer (21 * 16 + 3) _ _ _ _)).
  - exact demo_buffer_wf.
  - exists 8. reflexivity.
  - lia.
  - intros i Hi. change (total_block_num demo_buffer) with 4 in Hi.
    assert (i = 0 \/ i = 1 \/ i = 2 \/ i = 3) as [->|[->|[->| ->]]] by lia; reflexivity.
Defined.

Lemma data_check_threads_partition_witness :
  exists b l, new_DataBlockBuffer true 4 16 32 2 1 = Ok b /\
    run_getBlocks (add_check_threads b 2) [1; 1; 0; 1; 0; 0] = Ok l /\
    Forall (fun '(t, id) => id mod 2 = t) l.
Proof.
  destruct (new_DataBlockBuffer true 4 16 32 2 1) as [b| | |] eqn:E; try discriminate E.
  destruct (data_check_threads_partition 4 16 32 2 1 b 2 E) as [H _]; try lia; try reflexivity.
  destruct (H [1; 1; 0; 1; 0; 0]) as (l & Hl & _ & Hf); [repeat constructor; lia|].
  exists b, l. split; [reflexivity|]. split; [exact Hl|apply Hf; by exists 2].
Defined.

End DataProofs.

(** ** Records and their bytes *)
Lemma le_laws n : @KeyBytesLaws Z {| key_len := Z.of_nat n; key_enc := le_bytes n;
  key_dec := le_val; key_ok := is_u (8 * Z.of_nat n) |}.
Proof.
  split; simpl.
  - lia.
  - intros k. apply zlen_le_bytes.
  - intros k Hk. apply le_val_le_bytes, Hk.
  - intros l Hl Hf. replace n with (length l) by (unfold zlen in Hl; lia).
    apply le_bytes_le_val. eapply Forall_impl; [exact Hf|]. unfold is_u. simpl. lia.
  - intros l Hl Hf. replace n with (length l) by (unfold zlen in Hl; lia).
    clear Hl. induction Hf as [|x l Hx Hf IH]; cbn [le_val length]; [unfold is_u; simpl; lia|].
    replace (8 * Z.of_nat (S (length l))) with (8 + 8 * Z.of_nat (length l)) by lia.
    unfold is_u in *. rewrite Z.pow_add_r by lia. change (2 ^ 8) with 256 in *. nia.
Qed.

#[export] Instance key2_laws : @KeyBytesLaws Z key2.
Proof. exact (le_laws 2). Qed.
#[export] Instance key4_laws : @KeyBytesLaws Z key4.
Proof. exact (le_laws 4). Qed.

#[export] Instance key16_laws : @KeyBytesLaws IPv6Address key16.
Proof.
  pose proof (le_laws 8) as L. split; cbn [key_len key_enc key_dec key_ok key16].
  - lia.
  - intros k. unfold ipv6_bytes. by rewrite zlen_app, !zlen_le_bytes.
  - intros [lo hi] [Hlo Hhi]. unfold ipv6_bytes. cbn [low high] in Hlo, Hhi |- *.
    rewrite take_app_length', drop_app_length' by (by rewrite length_le_bytes).
    by rewrite !(le_val_le_bytes 8).
  - intros l Hl Hf. unfold ipv6_bytes. cbn [low high].
    assert (H8 : zlen (take 8 l) = 8 /\ zlen (drop 8 l) = 8)
      by (unfold zlen in *; rewrite length_take, length_drop; lia).
    pose proof (@key_enc_dec _ _ L) as Hed. cbn [key_len key_enc key_dec] in Hed.
    rewrite !Hed; [apply take_drop|apply H8|by apply Forall_drop|apply H8|by apply Forall_take].
  - intros l Hl Hf.
    assert (H8 : zlen (take 8 l) = 8 /\ zlen (drop 8 l) = 8)
      by (unfold zlen in *; rewrite length_take, length_drop; lia).
    split; cbn [low high].
    + apply (@key_dec_ok _ _ L); [apply H8|by apply Forall_take].
    + apply (@key_dec_ok _ _ L); [apply H8|by apply Forall_drop].
Qed.

Section records.
Context {K : Type} `{KeyBytesLaws K}.

Let kl : Z := key_len (K := K).

Definition record_ok (r : K * Z) : Prop := key_ok r.1 /\ is_u 64 r.2.

Lemma record_enc_len r : zlen (record_enc r) = record_size kl.
Proof. unfold record_enc, record_size. by rewrite zlen_app, key_enc_len, zlen_le_bytes. Qed.

Lemma record_dec_enc r : record_ok r -> record_dec (record_enc r) = r.
Proof.
  intros [H1 H2]. unfold record_dec, record_enc. pose proof (key_enc_len (fst r)) as El.
  rewrite take_app_length', drop_app_length' by (unfold zlen in El; lia).
  rewrite key_dec_enc, (le_val_le_bytes 8) by done. by destruct r.
Qed.

Lemma record_dec_ok l :
  zlen l = record_size kl -> Forall (is_u 8) l -> record_ok (record_dec l).
Proof.
  intros Hl Hf. pose proof key_len_nonneg (K := K). pose proof (le_laws 8) as L.
  unfold record_size, kl in Hl. unfold record_dec. split; simpl.
  - apply key_dec_ok; [|by apply Forall_take]. unfold zlen in *. rewrite length_take. lia.
  - apply (@key_dec_ok _ _ L); [|by apply Forall_drop]. unfold zlen in *.
    rewrite length_drop. simpl. lia.
Qed.

Lemma record_size_pos : 8 <= record_size kl.
Proof. pose proof key_len_nonneg (K := K). unfold record_size, kl. lia. Qed.

Lemma zlen_records_enc rs : zlen (records_enc rs) = zlen rs * record_size kl.
Proof.
  induction rs as [|r rs IH]; [done|].
  change (records_enc (r :: rs)) with (record_enc r ++ records_enc rs).
  rewrite zlen_app, zlen_cons, IH, record_enc_len. lia.
Qed.

Lemma length_records_dec n l : length (records_dec (K := K) n l) = n.
Proof. revert l. induction n; intros; simpl; auto. Qed.

Lemma records_dec_enc rs k :
  Forall record_ok rs -> records_dec (length rs) (records_enc rs ++ k) = rs.
Proof.
  induction 1 as [|r rs Hr _ IH]; [done|]. cbn [length records_dec].
  change (records_enc (r :: rs)) with (record_enc r ++ records_enc rs).
  pose proof (record_enc_len r) as El. rewrite <-app_assoc.
  rewrite take_app_length', drop_app_length' by (unfold zlen, kl in El; lia).
  by rewrite record_dec_enc, IH.
Qed.

Lemma records_dec_ok n l :
  Z.of_nat n * record_size kl <= zlen l -> Forall (is_u 8) l ->
  Forall record_ok (records_dec n l).
Proof.
  pose proof record_size_pos. revert l. induction n as [|n IH]; intros l Hl Hf; [constructor|].
  cbn [records_dec]. constructor.
  - apply record_dec_ok; [|by apply Forall_take]. unfold zlen, kl in *. rewrite length_take. lia.
  - apply IH; [|by apply Forall_drop]. unfold zlen, kl in *. rewrite length_drop. lia.
Qed.

Lemma records_dec_app n l k :
  Z.of_nat n * record_size kl <= zlen l -> records_dec (K := K) n (l ++ k) = records_dec n l.
Proof.
  pose proof record_size_pos. revert l. induction n as [|n IH]; intros l Hl; [done|].
  cbn [records_dec]. fold kl. rewrite take_app_le, drop_app_le by (unfold zlen in Hl; lia).
  rewrite IH; [done|]. unfold zlen in *. rewrite length_drop. lia.
Qed.
End records.

(** Records in key order: no later record has a smaller key. *)
Definition sorted_keys {K} `{CppKey K} (l : list (K * Z)) : Prop :=
  forall (i j : nat) x y, (i < j)%nat -> l !! i = Some x -> l !! j = Some y ->
    key_lt y.1 x.1 = false.

(** ** [sortIndex] *)
Module IndexProofs.
Import IndexB.

Section sorting.
Context (std_sort : forall K, CppKey K -> list (K * Z) -> list (K * Z)).
(** What the standard promises of [std::sort] on a strict weak order. *)
Context (std_sort_perm : forall K (H : CppKey K) l, CppKeyLaws K -> std_sort K H l ≡ₚ l).
Context (std_sort_sorted : forall K (H : CppKey K) l, CppKeyLaws K -> sorted_keys (std_sort K H l)).

Lemma sort_region_spec {K} `{CppKeyLaws K, KB : KeyBytes K, !KeyBytesLaws K} buf pos num :
  let rs := record_size (key_len (K := K)) in
  0 <= pos -> 0 <= num -> pos + num * rs <= zlen buf -> Forall (is_u 8) buf ->
  exists new, sort_region std_sort (K := K) buf pos num = Ok (zsplice pos new buf) /\
    zlen new = num * rs /\
    forall k, records_dec (K := K) (Z.to_nat num) (new ++ k) =
      std_sort K _ (records_dec (Z.to_nat num) (zslice pos (num * rs) buf)).
Proof.
  intros rs Hp Hn Hl Hf. pose proof record_size_pos (K := K) as Hrs. fold rs in Hrs.
  unfold sort_region. fold rs. rewrite zread_Ok by nia. cbn [mbind res_bind].
  set (region := zslice pos (num * rs) buf).
  set (recs := records_dec (K := K) (Z.to_nat num) region).
  assert (Hrl : zlen region = num * rs) by (apply zlen_zslice; nia).
  pose proof (std_sort_perm K _ recs ltac:(done)) as Hperm.
  assert (Hlen : length (std_sort K _ recs) = Z.to_nat num).
  { rewrite (Permutation_length Hperm). apply length_records_dec. }
  assert (Hok : Forall record_ok (std_sort K _ recs)).
  { rewrite Hperm. apply records_dec_ok.
    - fold rs. rewrite Z2Nat.id by lia. lia.
    - apply Forall_take, Forall_drop, Hf. }
  assert (Hel : zlen (records_enc (std_sort K _ recs)) = num * rs).
  { rewrite zlen_records_enc. fold rs. unfold zlen. rewrite Hlen. lia. }
  exists (records_enc (std_sort K _ recs)).
  rewrite memcpy_Ok, zslice_full by nia. split; [done|]. split; [done|].
  intros k. rewrite <-Hlen at 1. by apply records_dec_enc.
Qed.

(** The bytes of a range of the circular buffer, in order. *)
Definition ring_bytes (buf : list Z) (bufsize bp len : Z) : list Z :=
  if bufsize <? bp + len
  then zslice bp (bufsize - bp) buf ++ zslice 0 (bp + len - bufsize) buf
  else zslice bp len buf.

(** The body of [sortIndex] for one key type. *)
Definition sort_body {K} `{CppKey K, KeyBytes K} (buf : list Z) (bufsize bp len num : Z)
  : res (list Z) :=
  let wraps := bufsize <? bp + len in
  let over := len + bp - bufsize in
  buf ← (if wraps then memcpy buf bufsize buf 0 over else Ok buf);
  buf ← sort_region std_sort (K := K) buf bp num;
  if wraps then memcpy buf 0 buf bufsize over else Ok buf.

Lemma Forall_zsplice (P : Z -> Prop) off src l :
  Forall P src -> Forall P l -> Forall P (zsplice off src l).
Proof. intros. unfold zsplice. auto using Forall_app_2, Forall_take, Forall_drop. Qed.

Lemma Forall_zslice (P : Z -> Prop) off n l : Forall P l -> Forall P (zslice off n l).
Proof. intros. unfold zslice. auto using Forall_take, Forall_drop. Qed.

(** Linear sorting of the region, in terms of the bytes from [bp] on. *)
Lemma sort_linear {K} `{CppKeyLaws K, KB : KeyBytes K, !KeyBytesLaws K} buf bp len num :
  let rs := record_size (key_len (K := K)) in
  0 <= bp -> 0 <= num -> num * rs <= len -> bp + len <= zlen buf -> Forall (is_u 8) buf ->
  exists new, sort_region std_sort (K := K) buf bp num = Ok (zsplice bp new buf) /\
    zlen new = num * rs /\
    records_dec (K := K) (Z.to_nat num) (zslice bp len (zsplice bp new buf)) =
    std_sort K _ (records_dec (Z.to_nat num) (zslice bp len buf)) /\
    zslice (bp + num * rs) (len - num * rs) (zsplice bp new buf) =
    zslice (bp + num * rs) (len - num * rs) buf.
Proof.
  intros rs Hb Hn Hl Hlen Hf. pose proof record_size_pos (K := K) as Hrs. fold rs in Hrs.
  destruct (sort_region_spec (K := K) buf bp num) as (new & E & Hz & Hd);
    [done|done|fold rs; lia|done|]. fold rs in Hz, Hd.
  exists new. split; [exact E|]. split; [exact Hz|].
  replace len with (num * rs + (len - num * rs)) by lia.
  rewrite !zslice_app by nia. replace (num * rs + (len - num * rs) - num * rs) with
    (len - num * rs) by lia. split.
  - rewrite <-Hz at 1. rewrite zslice_zsplice_same by nia. rewrite Hd. f_equal.
    symmetry. apply records_dec_app. fold rs.
    rewrite zlen_zslice, Z2Nat.id by nia. lia.
  - apply zslice_zsplice_disjoint; nia.
Qed.

Lemma sort_body_spec {K} `{CppKeyLaws K, KB : KeyBytes K, !KeyBytesLaws K}
  buf bufsize bs bp len num :
  let rs := record_size (key_len (K := K)) in
  0 <= bp < bufsize -> 0 <= len <= bufsize -> bp + len - bufsize <= bs ->
  zlen buf = bufsize + bs -> 0 < bs -> Forall (is_u 8) buf ->
  0 <= num -> num * rs <= len ->
  exists buf', sort_body (K := K) buf bufsize bp len num = Ok buf' /\ zlen buf' = zlen buf /\
    records_dec (K := K) (Z.to_nat num) (ring_bytes buf' bufsize bp len) =
    std_sort K _ (records_dec (Z.to_nat num) (ring_bytes buf bufsize bp len)) /\
    forall i, 0 <= i < bufsize -> len <= (i - bp) mod bufsize -> at_ buf' i = at_ buf i.
Proof.
  intros rs Hp Hlen Hover Hz Hbs Hf Hn Hnum. unfold sort_body, ring_bytes.
  pose proof record_size_pos (K := K) as Hrs. fold rs in Hrs.
  assert (Hmod : forall i, 0 <= i < bufsize -> (i - bp) mod bufsize =
    if bp <=? i then i - bp else i - bp + bufsize).
  { intros i Hi. case_test; zbool; [apply Z.mod_small; lia|].
    rewrite <-(Z.mod_add _ 1), Z.mod_small; lia. }
  destruct (bufsize <? bp + len) eqn:Ew; zbool.
  - set (over := len + bp - bufsize). replace (bp + len - bufsize) with over by (unfold over; lia).
    assert (Ho : 0 < over <= bs) by (unfold over; lia).
    rewrite memcpy_Ok by lia. cbn [mbind res_bind].
    set (buf1 := zsplice bufsize (zslice 0 over buf) buf).
    assert (Hsl : zlen (zslice 0 over buf) = over) by (apply zlen_zslice; lia).
    assert (Hz1 : zlen buf1 = zlen buf) by (apply zlen_zsplice; lia).
    destruct (sort_linear (K := K) buf1 bp len num) as (new & -> & Hnew & Hd & _);
      [lia|lia|done|lia|apply Forall_zsplice; [by apply Forall_zslice|done]|].
    fold rs in Hnew. cbn [mbind res_bind]. set (buf2 := zsplice bp new buf1) in *.
    assert (Hz2 : zlen buf2 = zlen buf) by (unfold buf2; rewrite zlen_zsplice; lia).
    rewrite memcpy_Ok by lia. set (buf3 := zsplice 0 (zslice bufsize over buf2) buf2).
    assert (Hs2 : zlen (zslice bufsize over buf2) = over) by (apply zlen_zslice; lia).
    exists buf3. split; [done|]. split; [unfold buf3; rewrite zlen_zsplice; lia|]. split.
    + assert (E1 : zslice bp (bufsize - bp) buf3 ++ zslice 0 over buf3 = zslice bp len buf2).
      { unfold buf3. rewrite zslice_zsplice_disjoint by (unfold over in *; lia).
        rewrite <-Hs2 at 1. rewrite zslice_zsplice_same by lia.
        replace len with (bufsize - bp + over) by (unfold over; lia).
        rewrite zslice_app by lia. do 2 f_equal. lia. }
      assert (E2 : zslice bp (bufsize - bp) buf ++ zslice 0 over buf = zslice bp len buf1).
      { replace len with (bufsize - bp + over) by (unfold over; lia).
        rewrite zslice_app by lia. unfold buf1. rewrite zslice_zsplice_disjoint by lia.
        f_equal. replace (bp + (bufsize - bp)) with bufsize by lia.
        rewrite <-Hsl at 2. by rewrite zslice_zsplice_same by lia. }
      rewrite E1, E2. exact Hd.
    + intros i Hi. rewrite Hmod by done. intros Hout. unfold at_, buf3, buf2, buf1.
      rewrite lookup_zsplice by (fold buf1; fold buf2; lia). fold buf1. fold buf2. rewrite Hs2.
      unfold buf2. rewrite lookup_zsplice by lia.
      unfold buf1. rewrite lookup_zsplice, Hsl by lia. unfold over in *.
      destruct (bp <=? i) eqn:?; zbool; repeat case_decide; try lia; done.
  - cbn [mbind res_bind].
    destruct (sort_linear (K := K) buf bp len num) as (new & -> & Hnew & Hd & _);
      [lia|lia|done|lia|done|].
    fold rs in Hnew. cbn [mbind res_bind]. eexists. split; [done|].
    split; [rewrite zlen_zsplice; lia|]. split; [exact Hd|].
    intros i Hi. rewrite Hmod by done. intros Hout. unfold at_.
    rewrite lookup_zsplice by lia. destruct (bp <=? i) eqn:?; zbool; case_decide; try lia; done.
Qed.

(** [sortIndex] runs the body of the key type its key length selects. *)
Lemma sortIndex_body {K} `{CppKey K, KB : KeyBytes K} b start len kl buf' :
  let bp := start mod buffer_size b in
  0 < buffer_size b < 2 ^ 62 -> 0 <= len <= buffer_size b ->
  (forall buf pos num, sort_by_key std_sort kl buf pos num = sort_region std_sort (K := K) buf pos num) ->
  sort_body (K := K) (buffer_blocks b) (buffer_size b) bp len (len / record_size kl) = Ok buf' ->
  sortIndex std_sort b start len kl = Ok (with_buffer b buf').
Proof.
  intros bp Hsz Hlen Hsel E. unfold sortIndex, sort_body in *. fold bp.
  pose proof (Z.mod_pos_bound start (buffer_size b) ltac:(lia)) as Hbp. fold bp in Hbp.
  replace (buffer_size b =? 0) with false by (symmetry; apply Z.eqb_neq; lia).
  rewrite (u64_small (bp + len)) by lia.
  apply bind_Ok_iff in E as (x1 & E1 & E). apply bind_Ok_iff in E as (x2 & E2 & E).
  destruct (buffer_size b <? bp + len) eqn:Ew; [rewrite u64_small by zlia|];
    rewrite E1; cbn [mbind res_bind]; rewrite Hsel, E2; cbn [mbind res_bind];
    first [by rewrite E|by injection E as ->].
Qed.

(** The key lengths [sortIndex] supports, each with its key type. *)
Definition sort_outcome (b b' : IndexBlockBuffer) (start len kl : Z) : Prop :=
  let bp := start mod buffer_size b in
  let n := Z.to_nat (len / record_size kl) in
  let before := ring_bytes (buffer_blocks b) (buffer_size b) bp len in
  let after := ring_bytes (buffer_blocks b') (buffer_size b) bp len in
  (kl = 2 /\ records_dec (H := key2) n after ≡ₚ records_dec (H := key2) n before /\
     sorted_keys (records_dec (H := key2) n after)) \/
  (kl = 4 /\ records_dec (H := key4) n after ≡ₚ records_dec (H := key4) n before /\
     sorted_keys (records_dec (H := key4) n after)) \/
  (kl = 16 /\ records_dec (H := key16) n after ≡ₚ records_dec (H := key16) n before /\
     sorted_keys (records_dec (H := key16) n after)).

Lemma sortIndex_outcome {K} `{CppKeyLaws K, KB : KeyBytes K, !KeyBytesLaws K} b start len kl :
  let bp := start mod buffer_size b in
  let n := Z.to_nat (len / record_size kl) in
  0 < block_size b -> 0 < buffer_size b < 2 ^ 62 ->
  zlen (buffer_blocks b) = buffer_size b + block_size b ->
  Forall (is_u 8) (buffer_blocks b) ->
  0 <= len <= buffer_size b -> bp + len - buffer_size b <= block_size b ->
  kl = key_len (K := K) ->
  (forall buf pos num, sort_by_key std_sort kl buf pos num = sort_region std_sort (K := K) buf pos num) ->
  exists b', sortIndex std_sort b start len kl = Ok b' /\
    zlen (buffer_blocks b') = zlen (buffer_blocks b) /\
    (let before := ring_bytes (buffer_blocks b) (buffer_size b) bp len in
     let after := ring_bytes (buffer_blocks b') (buffer_size b) bp len in
     records_dec (K := K) n after ≡ₚ records_dec n before /\
     sorted_keys (records_dec (K := K) n after)) /\
    forall i, 0 <= i < buffer_size b -> len <= (i - bp) mod buffer_size b ->
      at_ (buffer_blocks b') i = at_ (buffer_blocks b) i.
Proof.
  intros bp n Hbs Hsz Hz Hf Hlen Hover Hkl Hsel.
  pose proof (Z.mod_pos_bound start (buffer_size b) ltac:(lia)) as Hbp. fold bp in Hbp.
  pose proof record_size_pos (K := K) as Hrs. rewrite <-Hkl in Hrs.
  pose proof (Z.div_pos len (record_size kl) ltac:(lia) ltac:(lia)).
  pose proof (Z.mul_div_le len (record_size kl) ltac:(lia)).
  destruct (sort_body_spec (K := K) (buffer_blocks b) (buffer_size b)
    (block_size b) bp len (len / record_size kl)) as (buf' & E & Hl & Hd & Ho);
    try done; try lia; [rewrite <-Hkl; lia|].
  exists (with_buffer b buf'). split; [by eapply sortIndex_body|].
  split; [done|]. split; [|done]. simpl buffer_blocks. unfold n. rewrite Hd.
  split; [by apply std_sort_perm|by apply std_sort_sorted].
Qed.

Lemma sortIndex_spec b start len kl :
  0 < block_size b -> 0 < buffer_size b < 2 ^ 62 -> block_size b < 2 ^ 62 ->
  zlen (buffer_blocks b) = buffer_size b + block_size b ->
  Forall (is_u 8) (buffer_blocks b) ->
  0 <= len <= buffer_size b ->
  start mod buffer_size b + len - buffer_size b <= block_size b ->
  0 <= kl ->
  if (kl =? 2) || (kl =? 4) || (kl =? 16) then
    exists b', sortIndex std_sort b start len kl = Ok b' /\
      zlen (buffer_blocks b') = zlen (buffer_blocks b) /\
      sort_outcome b b' start len kl /\
      forall i, 0 <= i < buffer_size b ->
        len <= (i - start mod buffer_size b) mod buffer_size b ->
        at_ (buffer_blocks b') i = at_ (buffer_blocks b) i
  else sortIndex std_sort b start len kl = Throws.
Proof.
  intros Hbs Hsz Hbs2 Hz Hf Hlen Hover Hkl.
  unfold sort_outcome.
  destruct (kl =? 2) eqn:E2; [|destruct (kl =? 4) eqn:E4; [|destruct (kl =? 16) eqn:E16]];
    cbn [orb]; zbool.
  - destruct (sortIndex_outcome (K := Z) (KB := key2) b start len kl)
      as (b' & E & Hl & Hd & Ho); try done; [intros; unfold sort_by_key; by subst kl|].
    exists b'. split_and!; auto.
  - destruct (sortIndex_outcome (K := Z) (KB := key4) b start len kl)
      as (b' & E & Hl & Hd & Ho); try done; [intros; unfold sort_by_key; by subst kl|].
    exists b'. split_and!; auto.
  - destruct (sortIndex_outcome (K := IPv6Address) (KB := key16) b start len kl)
      as (b' & E & Hl & Hd & Ho); try done; [intros; unfold sort_by_key; by subst kl|].
    exists b'. split_and!; auto.
  - assert (Hk : forall buf pos num, sort_by_key std_sort kl buf pos num = Throws).
    { intros. unfold sort_by_key. by rewrite !(proj2 (Z.eqb_neq _ _)). }
    pose proof (Z.mod_pos_bound start (buffer_size b) ltac:(lia)) as Hbp.
    unfold sortIndex. replace (buffer_size b =? 0) with false by (symmetry; apply Z.eqb_neq; lia).
    rewrite (u64_small (start mod buffer_size b + len)) by lia.
    case_test; zbool; [|cbn [mbind res_bind]; by rewrite Hk].
    rewrite u64_small, memcpy_Ok by lia. cbn [mbind res_bind]. by rewrite Hk.
Qed.

(** [sortIndex] sorts the records of an index range in the circular
    buffer.  For the key lengths 2, 4 and 16 and a range no longer than the
    buffer that reaches at most one block past its end, the call succeeds
    without leaving the mapping, the records read back from the range (around
    the end of the buffer) are a permutation of those before and in
    nondecreasing key order, and every byte outside the range is unchanged;
    any other key length throws. *)
Theorem sortIndex_sorts b start len kl :
  0 < block_size b -> 0 < buffer_size b < 2 ^ 62 -> block_size b < 2 ^ 62 ->
  zlen (buffer_blocks b) = buffer_size b + block_size b ->
  Forall (is_u 8) (buffer_blocks b) ->
  0 <= len <= buffer_size b ->
  start mod buffer_size b + len - buffer_size b <= block_size b ->
  0 <= kl ->
  if (kl =? 2) || (kl =? 4) || (kl =? 16) then
    exists b', sortIndex std_sort b start len kl = Ok b' /\
      zlen (buffer_blocks b') = zlen (buffer_blocks b) /\
      sort_outcome b b' start len kl /\
      forall i, 0 <= i < buffer_size b ->
        len <= (i - start mod buffer_size b) mod buffer_size b ->
        at_ (buffer_blocks b') i = at_ (buffer_blocks b) i
  else sortIndex std_sort b start len kl = Throws.
Proof. apply sortIndex_spec. Qed.
End sorting.

(** Insertion sort meets the promise. *)
Fixpoint insert_record {K} `{CppKey K} (r : K * Z) (l : list (K * Z)) : list (K * Z) :=
  match l with
  | [] => [r]
  | x :: l => if key_lt x.1 r.1 then x :: insert_record r l else r :: x :: l
  end.

Definition insertion_sort (K : Type) (H : CppKey K) (l : list (K * Z)) : list (K * Z) :=
  foldr insert_record [] l.

Lemma insert_record_perm {K} `{CppKey K} r l : insert_record r l ≡ₚ r :: l.
Proof.
  induction l as [|x l IH]; simpl; [done|]. case_test; [|done].
  rewrite IH. apply Permutation_swap.
Qed.

Lemma insertion_sort_perm K (H : CppKey K) l : CppKeyLaws K -> insertion_sort K H l ≡ₚ l.
Proof.
  intros _. induction l as [|r l IH]; simpl; [done|]. by rewrite insert_record_perm, IH.
Qed.

Lemma sorted_keys_cons {K} `{CppKey K} (x : K * Z) l :
  sorted_keys (x :: l) <-> Forall (fun y => key_lt y.1 x.1 = false) l /\ sorted_keys l.
Proof.
  split.
  - intros Hs. split.
    + apply Forall_forall. intros y Hy. apply list_elem_of_lookup in Hy as [j Hj].
      apply (Hs O (S j)); [lia|done|done].
    + intros i j a b Hij Ha Hb. apply (Hs (S i) (S j)); [lia|done|done].
  - intros [Hf Hs] [|i] [|j] a b Hij Ha Hb; try lia; simpl in *.
    + injection Ha as ->. rewrite Forall_lookup in Hf. eauto.
    + apply (Hs i j); [lia|done|done].
Qed.

Lemma sorted_keys_nil {K} `{CppKey K} : sorted_keys (K := K) [].
Proof. by intros ? ? ? ? ? [=]. Qed.

Lemma insert_record_sorted {K} `{CppKeyLaws K} (r : K * Z) l :
  sorted_keys l -> sorted_keys (insert_record r l).
Proof.
  induction l as [|x k IHk]; intros IH; cbn [insert_record].
  - apply sorted_keys_cons. split; [constructor|apply sorted_keys_nil].
  - apply sorted_keys_cons in IH as IH'. destruct IH' as [Hf Hs]. case_test.
    + apply sorted_keys_cons. split; [|by apply IHk].
      rewrite insert_record_perm. constructor; [|done].
      destruct (key_trichotomy r.1 x.1); intuition congruence.
    + apply sorted_keys_cons. split; [|done]. constructor; [done|].
      eapply Forall_impl; [exact Hf|]. intros y Hy. cbv beta in Hy.
      destruct (key_lt y.1 r.1) eqn:Ey; [|done].
      destruct (key_trichotomy r.1 x.1) as [(E1&?&?)|[(?&?&Er)|(?&?&?)]]; [|by congruence..].
      pose proof (key_lt_trans _ _ _ Ey E1). congruence.
Qed.

Lemma insertion_sort_sorted K (H : CppKey K) l : CppKeyLaws K -> sorted_keys (insertion_sort K H l).
Proof.
  intros HL. induction l as [|r l IH]; [apply sorted_keys_nil|].
  by apply (insert_record_sorted r (insertion_sort K H l)).
Qed.

(** Three port records written across the end of a two-block buffer. *)
Definition demo_index_buffer : IndexBlockBuffer :=
  mkIBB 2 32 64 9 1
    ([0; 0; 0; 0; 0; 0; 187; 1; 3; 0; 0; 0; 0; 0; 0; 0] ++ replicate 34 0 ++
     [80; 0; 1; 0; 0; 0; 0; 0; 0; 0; 22; 0; 2; 0] ++ replicate 32 0)
    [0; 1] [0] [0].

Lemma sortIndex_sorts_witness :
  exists b', sortIndex insertion_sort demo_index_buffer 50 30 2 = Ok b' /\
    sort_outcome demo_index_buffer b' 50 30 2 /\
    records_dec (H := key2) 3 (ring_bytes (buffer_blocks b') 64 50 30) =
      [(22, 2); (80, 1); (443, 3)].
Proof.
  destruct (sortIndex_sorts insertion_sort insertion_sort_perm insertion_sort_sorted
    demo_index_buffer 50 30 2) as (b' & E & _ & Ho & _);
    try (vm_compute; (reflexivity || discriminate || (split; (discriminate || reflexivity)))).
  - repeat constructor; simpl; lia.
  - exists b'. split; [exact E|]. split; [exact Ho|].
    vm_compute in E. injection E as <-. vm_compute. reflexivity.
Defined.

End IndexProofs.
