(* ===== verification/IndexWrite.v ===== *)
(** * Writes to the index block buffer (dpdk_lib/indexBlockBuffer.hpp)

    What a [writeBlock] of [BlockBuffer.IndexB] does to the circular buffer:
    it copies everything or nothing, and adjacent accepted writes add up. *)
From S2P Require Import Prelude Util BlockBuffer.
From Stdlib Require Import ZArith Lia.
Import IndexB.


Record wf (b : IndexBlockBuffer) : Prop := {
  iw_total : 0 < total_block_num b;
  iw_bs : 0 < block_size b;
  iw_bufsize : buffer_size b = total_block_num b * block_size b;
  iw_small : buffer_size b < 2 ^ 62;
  iw_disk : 0 < disk_block_num b < 2 ^ 62;
  iw_buffer : zlen (buffer_blocks b) = buffer_size b + block_size b;
  iw_bytes : Forall (is_u 8) (buffer_blocks b);
  iw_ids : zlen (block_disk_id b) = total_block_num b }.

(** Does the buffer block of disk position [p] belong to [p]'s disk block? *)
Definition owns (b : IndexBlockBuffer) (p : Z) : bool :=
  at_ (block_disk_id b) ((p / block_size b) mod total_block_num b)
    =? (p / block_size b) mod disk_block_num b.

(** The buffered byte of disk position [p]. *)
Definition byte (b : IndexBlockBuffer) (p : Z) : Z := at_ (buffer_blocks b) (p mod buffer_size b).

(** [b'] is [b] with other bytes in the buffer and other write ids. *)
Record same_shape (b b' : IndexBlockBuffer) : Prop := {
  ss_total : total_block_num b' = total_block_num b;
  ss_bs : block_size b' = block_size b;
  ss_bufsize : buffer_size b' = buffer_size b;
  ss_disk : disk_block_num b' = disk_block_num b;
  ss_ids : block_disk_id b' = block_disk_id b;
  ss_check : block_check_ids b' = block_check_ids b;
  ss_threads : zlen (disk_write_ids b') = zlen (disk_write_ids b) }.

Lemma same_shape_refl b : same_shape b b.
Proof. by split. Qed.
Lemma same_shape_trans a b c : same_shape a b -> same_shape b c -> same_shape a c.
Proof. intros [] []. split; congruence. Qed.

Lemma same_shape_owns b b' p : same_shape b b' -> owns b' p = owns b p.
Proof. intros []. unfold owns. congruence. Qed.

Lemma same_shape_wf b b' : same_shape b b' -> wf b -> zlen (buffer_blocks b') = zlen (buffer_blocks b) ->
  Forall (is_u 8) (buffer_blocks b') -> wf b'.
Proof. intros [] []. split; congruence. Qed.

(** The bytes from position [p] on are [data]; the rest of the circle keeps
    its bytes. *)
Definition holds_data (b b' : IndexBlockBuffer) (data : list Z) (p : Z) : Prop :=
  (forall j, 0 <= j < zlen data -> byte b' (p + j) = at_ data j) /\
  (forall i, 0 <= i < buffer_size b -> zlen data <= (i - p) mod buffer_size b ->
     at_ (buffer_blocks b') i = at_ (buffer_blocks b) i).

Lemma at_zslice off n (l : list Z) j :
  0 <= off -> 0 <= j < n -> at_ (zslice off n l) j = at_ l (off + j).
Proof.
  intros Ho Hj. unfold at_. rewrite lookup_zslice, decide_True by lia. do 2 f_equal. lia.
Qed.

Lemma Forall_insert_splice (P : Z -> Prop) buffer size pos data len buf :
  copy_in buffer size pos data len = Ok buf -> Forall P buffer -> Forall P data -> Forall P buf.
Proof.
  unfold copy_in. intros H Hb Hd.
  assert (Hs : forall o (s l : list Z), Forall P s -> Forall P l -> Forall P (zsplice o s l)).
  { intros. unfold zsplice. rewrite !Forall_app. split_and!; [by apply Forall_take|done|by apply Forall_drop]. }
  assert (Hz : forall o n (l : list Z), Forall P l -> Forall P (zslice o n l))
    by (intros; by apply Forall_take, Forall_drop).
  case_test; res_inv; repeat match goal with H : memcpy _ _ _ _ _ = Ok _ |- _ =>
    apply memcpy_inv in H as (_ & _ & _ & _ & _ & ->) end; auto.
Qed.

(** The start of the block after [p]'s. *)
Definition next_pos (b : IndexBlockBuffer) (p : Z) : Z := (p / block_size b + 1) * block_size b.
Definition accepted (b : IndexBlockBuffer) (len p : Z) : bool :=
  owns b p && (if block_size b <=? p mod block_size b + len then owns b (next_pos b p) else true).

Record call_ok (b : IndexBlockBuffer) (data : list Z) (len p t : Z) : Prop := {
  ic_pos : 0 <= p;
  ic_end : p + len < 2 ^ 62;
  ic_len : 0 <= len <= buffer_size b;
  ic_data : len <= zlen data;
  ic_data_bytes : Forall (is_u 8) data;
  ic_thread : 0 <= t < zlen (disk_write_ids b) }.

Lemma owns_next b p : wf b -> owns b (next_pos b p) =
  (at_ (block_disk_id b) ((p / block_size b + 1) mod total_block_num b)
    =? (p / block_size b + 1) mod disk_block_num b).
Proof. intros []. unfold owns, next_pos. by rewrite Z.div_mul by lia. Qed.

Lemma copy_holds b data len p t buf l : wf b -> call_ok b data len p t ->
  copy_in (buffer_blocks b) (buffer_size b) (p mod buffer_size b) data len = Ok buf ->
  zlen buf = zlen (buffer_blocks b) ->
  (forall i : nat, buf !! i =
    if decide (Z.of_nat i < buffer_size b /\ (Z.of_nat i - p mod buffer_size b) mod buffer_size b < len)
    then data !! Z.to_nat ((Z.of_nat i - p mod buffer_size b) mod buffer_size b)
    else buffer_blocks b !! i) ->
  holds_data b (with_write_ids (with_buffer b buf) l) (zslice 0 len data) p.
Proof.
  intros Hw Hc _ Hlen Hbuf. pose proof Hw as []. pose proof Hc as [].
  assert (Hb0 : 0 < buffer_size b) by nia.
  assert (Hz : zlen (zslice 0 len data) = len) by (apply zlen_zslice; lia).
  split; rewrite Hz.
  - intros j Hj. unfold byte. cbn [buffer_size with_buffer with_write_ids buffer_blocks].
    pose proof (Z.mod_pos_bound (p + j) (buffer_size b) Hb0).
    rewrite at_zslice, Z.add_0_l by lia. unfold at_. rewrite Hbuf, Z2Nat.id by lia.
    rewrite <-Zminus_mod. replace (p + j - p) with j by lia. rewrite (Z.mod_small j) by lia.
    by rewrite decide_True by lia.
  - intros i Hi Hge. cbn [with_buffer with_write_ids buffer_blocks]. unfold at_.
    rewrite Hbuf, Z2Nat.id by lia. rewrite Zminus_mod_idemp_r. by rewrite decide_False by lia.
Qed.

(** A write copies everything or nothing: it is accepted exactly when the
    buffer block of its first byte, and the following one if it gets there,
    belong to the disk positions written. *)
Lemma index_writeBlock_spec b data len p t : wf b -> call_ok b data len p t ->
  exists b', writeBlock b data len p t = Ok (accepted b len p, b') /\ same_shape b b' /\ wf b' /\
    (if accepted b len p then holds_data b b' (zslice 0 len data) p
     else buffer_blocks b' = buffer_blocks b).
Proof.
  intros Hw Hc. pose proof Hw as []. pose proof Hc as [].
  assert (Hb0 : 0 < buffer_size b) by nia. assert (Hbs : block_size b <= buffer_size b) by nia.
  pose proof (Z.mod_pos_bound p (block_size b) iw_bs0). pose proof (Z.mod_pos_bound p (buffer_size b) Hb0).
  pose proof (Z.div_pos p (block_size b) ltac:(lia) iw_bs0).
  assert (Hset : forall x, zset (disk_write_ids b) t x = Ok (<[Z.to_nat t := x]> (disk_write_ids b)))
    by (intros; by apply zset_Ok).
  assert (Hskip : forall l, zlen l = zlen (disk_write_ids b) ->
    same_shape b (with_write_ids b l) /\ wf (with_write_ids b l)) by (intros l Hl; split; by split).
  unfold writeBlock. rewrite !(proj2 (Z.eqb_neq _ 0)) by lia. cbn [orb].
  rewrite (zget_at _ ((p / block_size b) mod _)) by (rewrite iw_ids0; apply Z.mod_pos_bound; lia).
  cbn [mbind res_bind]. fold (owns b p). unfold accepted. destruct (owns b p) eqn:Eo; cbn [negb andb].
  2: { rewrite Hset. cbn [mbind res_bind]. eexists. split; [done|].
       destruct (Hskip (<[Z.to_nat t:=(p / block_size b) mod disk_block_num b]> (disk_write_ids b)));
         [by rewrite zlen_insert|by split_and!]. }
  rewrite (u64_small (p mod block_size b + len)), !next_mod by lia.
  destruct (block_size b <=? p mod block_size b + len) eqn:Ec; cbn [andb].
  - rewrite zget_at by (rewrite iw_ids0; apply Z.mod_pos_bound; lia). cbn [mbind res_bind].
    rewrite <-owns_next by done. destruct (owns b (next_pos b p)); cbn [negb].
    2: { rewrite Hset. cbn [mbind res_bind]. eexists. split; [done|].
         match goal with |- same_shape b (with_write_ids b ?l) /\ _ =>
           destruct (Hskip l); [by rewrite zlen_insert|by split_and!] end. }
    destruct (copy_in_spec (buffer_blocks b) (buffer_size b) (p mod buffer_size b) data len)
      as (buf & Ecp & Hl & Hbuf); try lia.
    rewrite Ecp. cbn [mbind res_bind]. rewrite Hset. cbn [mbind res_bind]. eexists. split; [done|].
    split; [split; try done; cbn; by rewrite zlen_insert|]. split; [|by eapply copy_holds].
    split; try done; cbn; [congruence|by eapply Forall_insert_splice].
  - rewrite zget_at by (rewrite iw_ids0; apply Z.mod_pos_bound; lia). cbn [mbind res_bind].
    destruct (copy_in_spec (buffer_blocks b) (buffer_size b) (p mod buffer_size b) data len)
      as (buf & Ecp & Hl & Hbuf); try lia.
    rewrite Ecp. cbn [mbind res_bind]. rewrite Hset. cbn [mbind res_bind]. eexists. split; [done|].
    split; [split; try done; cbn; by rewrite zlen_insert|]. split; [|by eapply copy_holds].
    split; try done; cbn; [congruence|by eapply Forall_insert_splice].
Qed.

(** Every position of a range is owned. *)
Definition owns_range (b : IndexBlockBuffer) (p len : Z) : Prop :=
  forall j, 0 <= j <= len -> owns b (p + j) = true.

Lemma owns_range_accepted b p len : wf b -> 0 <= p -> 0 <= len -> owns_range b p len ->
  accepted b len p = true.
Proof.
  intros Hw Hp Hl Ho. pose proof (iw_bs b Hw) as Hbs. unfold accepted.
  rewrite <-(Z.add_0_r p) at 1. rewrite Ho by lia. cbn [andb]. case_test; [|done]. zbool.
  replace (next_pos b p) with (p + (block_size b - p mod block_size b)).
  { apply Ho. pose proof (Z.mod_pos_bound p (block_size b) Hbs). lia. }
  unfold next_pos. pose proof (Z.div_mod p (block_size b) ltac:(lia)). lia.
Qed.

Lemma owns_range_sub b p len q n : owns_range b p len -> p <= q -> 0 <= n -> q + n <= p + len ->
  owns_range b q n.
Proof. intros H Hq Hn Hl j Hj. replace (q + j) with (p + (q - p + j)) by lia. apply H. lia. Qed.

Lemma owns_range_shape b b' p len : same_shape b b' -> owns_range b p len -> owns_range b' p len.
Proof. intros Hs H j Hj. rewrite (same_shape_owns b b' _ Hs). by apply H. Qed.

Lemma at_app (d1 d2 : list Z) j : 0 <= j ->
  at_ (d1 ++ d2) j = if j <? zlen d1 then at_ d1 j else at_ d2 (j - zlen d1).
Proof.
  intros Hj. unfold at_, zlen. case_test; zbool; [by rewrite lookup_app_l by lia|].
  rewrite lookup_app_r by lia. do 2 f_equal. lia.
Qed.

(** Two adjacent writes are one write of both. *)
Lemma holds_data_app b b1 b2 d1 d2 p : wf b -> same_shape b b1 -> same_shape b1 b2 -> 0 <= p ->
  zlen d1 + zlen d2 <= buffer_size b ->
  holds_data b b1 d1 p -> holds_data b1 b2 d2 (p + zlen d1) -> holds_data b b2 (d1 ++ d2) p.
Proof.
  intros Hw Hs1 Hs2 Hp Hfit [H1 H1o] [H2 H2o]. pose proof Hw as [].
  assert (Hb0 : 0 < buffer_size b) by nia. pose proof (zlen_nonneg d1). pose proof (zlen_nonneg d2).
  pose proof (ss_bufsize _ _ Hs1) as Hz1. pose proof (ss_bufsize _ _ Hs2) as Hz2.
  rewrite Hz1 in *. unfold byte in *. rewrite Hz2, ?Hz1 in *.
  assert (Hoff : forall i, (i - (p + zlen d1)) mod buffer_size b =
    ((i - p) mod buffer_size b - zlen d1) mod buffer_size b).
  { intros i. rewrite Zminus_mod_idemp_l. f_equal. lia. }
  split; rewrite zlen_app.
  - intros j Hj. unfold byte. rewrite Hz2, at_app by lia. case_test; zbool.
    + rewrite <-H1 by lia.
      apply H2o; [by apply Z.mod_pos_bound|]. rewrite Hoff, (Zminus_mod_idemp_l (p + j) p).
      replace (p + j - p) with j by lia. rewrite Zminus_mod_idemp_l.
      rewrite <-(Z.mod_add _ 1), Z.mod_small; lia.
    + rewrite <-H2 by lia. do 2 f_equal. lia.
  - intros i Hi Hge. rewrite H2o, H1o; try lia. rewrite Hoff.
    pose proof (Z.mod_pos_bound (i - p) (buffer_size b) Hb0). rewrite Z.mod_small; lia.
Qed.
