(* ===== verification/MemoryPool.v ===== *)
(** * The index memory pools (dpdk_lib/memoryPool.hpp, dpdk_lib/indexMemoryPool.hpp)

    Each index thread collects the records of an index in a circular pool and
    remembers, in a circular list of nodes, where the records of each disk
    block start.  A pool is the region of the shared mapping that belongs to
    it; pointers into it are offsets.  The persister's calls ([recycle],
    [getLenOfDiskID], [writeToBuffer]) come from another thread than
    [allocate]. *)
From S2P Require Import Prelude Util BlockBuffer.
From Stdlib Require Import ZArith Lia.

Record NodeMeta := mkNode { data_block_id : Z; start_offset : Z; dirty : bool }.

Record MemoryPool := mkPool {
  capacity : Z;
  list_len : Z;
  unit_len : Z;
  pool_buffer : list Z;
  allocate_pos : Z;
  allocated_list : list NodeMeta;
  list_tail : Z;
  list_head : Z }.

Definition with_pos (p : MemoryPool) (x : Z) : MemoryPool :=
  mkPool (capacity p) (list_len p) (unit_len p) (pool_buffer p) x (allocated_list p)
    (list_tail p) (list_head p).
Definition with_list (p : MemoryPool) (l : list NodeMeta) (tail head : Z) : MemoryPool :=
  mkPool (capacity p) (list_len p) (unit_len p) (pool_buffer p) (allocate_pos p) l tail head.
Definition with_pool_buffer (p : MemoryPool) (b : list Z) : MemoryPool :=
  mkPool (capacity p) (list_len p) (unit_len p) b (allocate_pos p) (allocated_list p)
    (list_tail p) (list_head p).

(** The constructor; [fresh] are the bytes of its region and [junk] what the
    array of nodes holds before it is written. *)
Definition new_MemoryPool (fresh : list Z) (junk : NodeMeta) (cap len unit : Z) : res MemoryPool :=
  if unit =? 0 then Undef
  else if negb (cap mod unit =? 0) then Throws
  else
    l ← zset (replicate (Z.to_nat len) junk) 0 (mkNode MAX64 MAX64 false);
    Ok (mkPool cap len unit fresh 0 l 1 0).

Definition next_slot (p : MemoryPool) (i : Z) : Z := u64 (i + 1) mod list_len p.

Definition addNodeMeta (p : MemoryPool) (id pool_offset : Z) : res MemoryPool :=
  if list_head p =? list_tail p then Blocks else
  if list_len p =? 0 then Undef else
  l ← zset (allocated_list p) (list_tail p) (mkNode id pool_offset false);
  Ok (with_list p l (next_slot p (list_tail p)) (list_head p)).

(** The loop that gives up recycled nodes at the head of the list. *)
Fixpoint drop_dirty (fuel : nat) (p : MemoryPool) : res MemoryPool :=
  n ← zget (allocated_list p) (list_head p);
  if negb (dirty n) then Ok p else
  if list_len p =? 0 then Undef else
  if next_slot p (list_head p) =? list_tail p then Ok p else
  match fuel with
  | O => Blocks
  | S fuel => drop_dirty fuel (with_list p (allocated_list p) (list_tail p) (next_slot p (list_head p)))
  end.

(** The exit test of the wait loop: the oldest node starts inside the bytes
    to be handed out.  Nothing another thread does changes it. *)
Definition overlaps_oldest (p : MemoryPool) (pos fin : Z) : res bool :=
  n ← zget (allocated_list p) (list_head p);
  Ok ((pos <=? start_offset n) && (start_offset n <? fin)).

(** [allocate]: the offset of the [len] bytes handed out; [reserve] is what
    follows the loop that clears recycled nodes. *)
Definition reserve (p : MemoryPool) (len id : Z) : res (Z * MemoryPool) :=
  let p := if capacity p <? u64 (allocate_pos p + len) then with_pos p 0 else p in
  let pos := allocate_pos p in
  let fin := u64 (pos + len) in
  n ← zget (allocated_list p) (list_head p);
  if (start_offset n =? MAX64) && (fin <=? capacity p) then
    l ← zset (allocated_list p) (list_head p) (mkNode id pos (dirty n));
    Ok (pos, with_pos (with_list p l (list_tail p) (list_head p)) fin)
  else
    wait ← overlaps_oldest p pos fin;
    if wait : bool then Blocks else
    if list_len p =? 0 then Undef else
    last ← zget (allocated_list p) (u64 (u64 (list_tail p + list_len p) - 1) mod list_len p);
    p ← (if negb (id =? data_block_id last) then addNodeMeta p id pos else Ok p);
    Ok (pos, with_pos p fin).
Definition allocate (p : MemoryPool) (len id : Z) : res (Z * MemoryPool) :=
  p ← drop_dirty (Z.to_nat (list_len p)) p;
  reserve p len id.

Definition getListLen (p : MemoryPool) : res Z :=
  if list_len p =? 0 then Undef
  else Ok (u64 (u64 (list_tail p + list_len p) - list_head p) mod list_len p).

(** The search for a disk block's node from [i] on, [count] nodes at most;
    [None] when the list ends. *)
Fixpoint find_node (p : MemoryPool) (count : nat) (i id : Z) : res (option Z) :=
  match count with
  | O => Ok None
  | S count =>
      if i =? list_tail p then Ok None else
      n ← zget (allocated_list p) i;
      if data_block_id n =? id then Ok (Some i) else
      if list_len p =? 0 then Undef else find_node p count (next_slot p i) id
  end.
Definition find (p : MemoryPool) (id : Z) : res (option Z) :=
  find_node p (Z.to_nat (list_len p)) (list_head p) id.

(** [getLenOfDiskID]: from the node's start to the start of the next node, or
    to the allocation position for the last node, around the end of the pool. *)
Definition getLenOfDiskID (p : MemoryPool) (id : Z) : res Z :=
  r ← find p id;
  match r with
  | None => Ok 0
  | Some i =>
      n ← zget (allocated_list p) i;
      fin ← (if negb (u64 (i + 1) =? list_tail p) then
               next ← zget (allocated_list p) (next_slot p i); Ok (start_offset next)
             else Ok (allocate_pos p));
      Ok (if start_offset n <? fin then u64 (fin - start_offset n)
          else u64 (u64 (capacity p - start_offset n) + fin))
  end.

(** [writeToBuffer]: one or two copies into the index block buffer; whether
    they were accepted is not looked at. *)
Definition writeToBuffer (p : MemoryPool) (b : IndexB.IndexBlockBuffer) (id len thread_id disk_pos : Z)
  : res IndexB.IndexBlockBuffer :=
  r ← find p id;
  match r with
  | None => Ok b
  | Some i =>
      n ← zget (allocated_list p) i;
      let start := start_offset n in
      let data := drop (Z.to_nat start) (pool_buffer p) in
      if u64 (start + len) <? capacity p then
        '(_, b) ← IndexB.writeBlock b data len disk_pos thread_id; Ok b
      else
        let first := u64 (capacity p - start) in
        '(_, b) ← IndexB.writeBlock b data first disk_pos thread_id;
        '(_, b) ← IndexB.writeBlock b (pool_buffer p) (u64 (u64 (len + start) - capacity p))
                    (u64 (disk_pos + first)) thread_id;
        Ok b
  end.

Definition recycle (p : MemoryPool) (id : Z) : res MemoryPool :=
  r ← find p id;
  match r with
  | None => Ok p
  | Some i =>
      n ← zget (allocated_list p) i;
      l ← zset (allocated_list p) i (mkNode (data_block_id n) (start_offset n) true);
      Ok (with_list p l (list_tail p) (list_head p))
  end.

(** ** One pool per index type *)
Module Indexes.

Record IndexMemoryPool := mkIMP { imp_capacity : Z; imp_list_len : Z; pool : list MemoryPool }.

(** [sizeof] a record of each index type. *)
Definition unit_of (i : Z) : Z :=
  if (i =? 0) || (i =? 1) then 4 + 8 else if (i =? 2) || (i =? 3) then 2 + 8 else 16 + 8.

(** The pools of types [i .. 5], cut one after the other out of the mapping. *)
Fixpoint new_pools (junk : NodeMeta) (pool_capacity len : Z) (mem : list Z) (i : Z) (n : nat)
  : res (list MemoryPool) :=
  match n with
  | O => Ok []
  | S n =>
      let unit := unit_of i in
      let cap := pool_capacity / unit * unit in
      p ← new_MemoryPool (take (Z.to_nat cap) mem) junk cap len unit;
      l ← new_pools junk pool_capacity len (drop (Z.to_nat cap) mem) (i + 1) n;
      Ok (p :: l)
  end.

Definition new_IndexMemoryPool (mmap_ok : bool) (junk : NodeMeta) (cap len : Z) : res IndexMemoryPool :=
  if negb mmap_ok then Throws else
  l ← new_pools junk (cap / INDEX_NUM) len (replicate (Z.to_nat cap) 0) 0 (Z.to_nat INDEX_NUM);
  Ok (mkIMP cap len l).

(** One record: a place is allocated, [key] and [position] are copied there. *)
Definition put_pool (p : MemoryPool) (key : list Z) (position id : Z) : res MemoryPool :=
  '(off, p) ← allocate p (zlen key + 8) id;
  buf ← memcpy (pool_buffer p) off key 0 (zlen key);
  buf ← memcpy buf (off + zlen key) (le_bytes 8 position) 0 8;
  Ok (with_pool_buffer p buf).

(** The same in pool [t]. *)
Definition put_record (m : IndexMemoryPool) (t : IndexType) (key : list Z) (position id : Z)
  : res IndexMemoryPool :=
  let i := index_type_code t in
  p ← zget (pool m) i;
  p ← put_pool p key position id;
  l ← zset (pool m) i p;
  Ok (mkIMP (imp_capacity m) (imp_list_len m) l).

Definition insert (m : IndexMemoryPool) (meta : FlowMetadata) (position id : Z)
  : res (bool * IndexMemoryPool) :=
  let src := sourceAddress meta in
  let dst := destinationAddress meta in
  m ← (if (zlen src =? 4) && (zlen dst =? 4) then
         m ← put_record m SRCIP src position id; put_record m DSTIP dst position id
       else if (zlen src =? 16) && (zlen dst =? 16) then
         m ← put_record m SRCIPv6 src position id; put_record m DSTIPv6 dst position id
       else Ok m);
  m ← put_record m SRCPORT (le_bytes 2 (sourcePort meta)) position id;
  m ← put_record m DSTPORT (le_bytes 2 (destinationPort meta)) position id;
  Ok (true, m).

Definition getIndexLen (m : IndexMemoryPool) (t id : Z) : res Z :=
  p ← zget (pool m) t; getLenOfDiskID p id.

Definition writeToBuffer (m : IndexMemoryPool) (t : Z) (b : IndexB.IndexBlockBuffer)
  (id len thread_id disk_pos : Z) : res IndexB.IndexBlockBuffer :=
  p ← zget (pool m) t; writeToBuffer p b id len thread_id disk_pos.

Fixpoint recycle_all (l : list MemoryPool) (id : Z) : res (list MemoryPool) :=
  match l with
  | [] => Ok []
  | p :: l => p ← recycle p id; l ← recycle_all l id; Ok (p :: l)
  end.
Definition recycle (m : IndexMemoryPool) (id : Z) : res IndexMemoryPool :=
  l ← recycle_all (pool m) id; Ok (mkIMP (imp_capacity m) (imp_list_len m) l).

End Indexes.

(** ** The pool as a queue of groups

    What a pool holds, oldest first: for each node the number of records
    handed out for its disk block and whether the block was recycled. *)
Module PoolProofs.

Record group := mkGroup { g_id : Z; g_n : Z; g_dirty : bool }.

Definition total (gs : list group) : Z := foldr (fun g t => g_n g + t) 0 gs.

(** Slot of the [i]-th group in the circular list of nodes, and its first
    record in units: the groups follow each other on a circle of [N] units
    that starts at [s0]. *)
Definition slot (p : MemoryPool) (i : Z) : Z := (list_head p + i) mod list_len p.
Definition first_unit (N s0 : Z) (gs : list group) (i : nat) : Z := (s0 + total (take i gs)) mod N.

Record rep (p : MemoryPool) (N s0 : Z) (gs : list group) : Prop := {
  rp_unit : 0 < unit_len p;
  rp_cap : capacity p = N * unit_len p;
  rp_capw : capacity p < 2 ^ 62;
  rp_N : 0 < N;
  rp_s0 : 0 <= s0 < N;
  rp_len : 1 < list_len p < 2 ^ 62;
  rp_list : zlen (allocated_list p) = list_len p;
  rp_head : 0 <= list_head p < list_len p;
  rp_groups : 1 <= zlen gs < list_len p;
  rp_tail : list_tail p = slot p (zlen gs);
  rp_pos_n : Forall (fun g => 0 < g_n g) gs;
  rp_total : total gs <= N;
  rp_nodes : forall (i : nat) g, gs !! i = Some g ->
    zget (allocated_list p) (slot p (Z.of_nat i)) =
      Ok (mkNode (g_id g) (first_unit N s0 gs i * unit_len p) (g_dirty g));
  rp_pos : allocate_pos p = ((s0 + total gs - 1) mod N + 1) * unit_len p }.

(** *** Arithmetic of the circles *)
Lemma slot_range p i : 0 < list_len p -> 0 <= slot p i < list_len p.
Proof. intros. by apply Z.mod_pos_bound. Qed.

Lemma slot_inj p i j : 0 <= i <= j -> j < i + list_len p -> slot p i = slot p j -> i = j.
Proof.
  unfold slot. intros Hij Hj E. destruct (decide (i = j)) as [|Hne]; [done|exfalso].
  assert (E0 : (j - i) mod list_len p = 0).
  { replace (j - i) with (list_head p + j - (list_head p + i)) by lia.
    rewrite Zminus_mod, E, Z.sub_diag. apply Z.mod_0_l. lia. }
  rewrite Z.mod_small in E0; lia.
Qed.

Lemma next_slot_slot p i :
  0 <= list_head p < list_len p -> list_len p < 2 ^ 62 -> next_slot p (slot p i) = slot p (i + 1).
Proof.
  intros Hh Hl. unfold next_slot. pose proof (slot_range p i ltac:(lia)).
  rewrite u64_small by lia. unfold slot. rewrite Zplus_mod_idemp_l. f_equal. lia.
Qed.

Lemma total_app a b : total (a ++ b) = total a + total b.
Proof. unfold total. induction a as [|g a IH]; simpl in *; lia. Qed.

Lemma total_nonneg gs : Forall (fun g => 0 < g_n g) gs -> 0 <= total gs.
Proof. unfold total. induction 1; simpl in *; lia. Qed.

Lemma total_take gs i : Forall (fun g => 0 < g_n g) gs -> 0 <= total (take i gs) <= total gs.
Proof.
  intros H. rewrite <-(take_drop i gs) at 3. rewrite total_app.
  pose proof (total_nonneg (take i gs) (Forall_take _ _ _ H)).
  pose proof (total_nonneg (drop i gs) (Forall_drop _ _ _ H)). lia.
Qed.

Lemma rep_total_pos p N s0 gs : rep p N s0 gs -> 1 <= total gs.
Proof.
  intros []. destruct gs as [|g gs]; [unfold zlen in rp_groups0; simpl in rp_groups0; lia|].
  apply Forall_cons in rp_pos_n0 as [? Hf]. pose proof (total_nonneg gs Hf). simpl. lia.
Qed.

Lemma first_unit_range N s0 gs i : 0 < N -> 0 <= first_unit N s0 gs i < N.
Proof. intros. by apply Z.mod_pos_bound. Qed.

(** *** Giving up recycled nodes *)
Fixpoint drop_recycled (N s0 : Z) (gs : list group) : Z * list group :=
  match gs with
  | [] => (s0, gs)
  | g :: rest =>
      match rest with
      | [] => (s0, gs)
      | _ :: _ => if g_dirty g then drop_recycled N ((s0 + g_n g) mod N) rest else (s0, gs)
      end
  end.

Lemma rep_head_node p N s0 g gs : rep p N s0 (g :: gs) ->
  zget (allocated_list p) (list_head p) = Ok (mkNode (g_id g) (s0 * unit_len p) (g_dirty g)).
Proof.
  intros []. specialize (rp_nodes0 O g eq_refl). unfold slot, first_unit in rp_nodes0.
  simpl in rp_nodes0. rewrite !Z.add_0_r, !Z.mod_small in rp_nodes0 by lia. done.
Qed.

Lemma rep_tail p N s0 g g' gs :
  rep p N s0 (g :: g' :: gs) ->
  rep (with_list p (allocated_list p) (list_tail p) (next_slot p (list_head p))) N
    ((s0 + g_n g) mod N) (g' :: gs).
Proof.
  intros []. assert (Hs : forall i, slot (with_list p (allocated_list p) (list_tail p)
    (next_slot p (list_head p))) i = slot p (i + 1)).
  { intros i. unfold slot, next_slot. simpl. rewrite u64_small, Zplus_mod_idemp_l by lia. f_equal. lia. }
  rewrite !zlen_cons in rp_groups0. pose proof (zlen_nonneg gs).
  change (total (g :: g' :: gs)) with (g_n g + total (g' :: gs)) in *.
  apply Forall_cons in rp_pos_n0 as [Hg Hf].
  split; rewrite ?Hs; simpl list_len; simpl allocated_list; simpl unit_len; simpl capacity; try done.
  - apply Z.mod_pos_bound. lia.
  - simpl. apply Z.mod_pos_bound. lia.
  - rewrite zlen_cons. lia.
  - simpl. rewrite rp_tail0. f_equal. rewrite !zlen_cons. lia.
  - lia.
  - intros i x Hx. rewrite Hs. specialize (rp_nodes0 (S i) x Hx).
    rewrite Nat2Z.inj_succ, <-Z.add_1_r in rp_nodes0. rewrite rp_nodes0. do 2 f_equal.
    unfold first_unit. rewrite Zplus_mod_idemp_l. f_equal. f_equal. simpl. lia.
  - change (allocate_pos p =
      (((s0 + g_n g) mod N + total (g' :: gs) - 1) mod N + 1) * unit_len p).
    rewrite rp_pos0, <-(Z.add_sub_assoc (_ mod N)), Zplus_mod_idemp_l. do 3 f_equal. lia.
Qed.

Lemma drop_dirty_spec gs : forall p N s0 fuel,
  rep p N s0 gs -> (length gs <= fuel)%nat ->
  exists p', drop_dirty fuel p = Ok p' /\
    rep p' N (drop_recycled N s0 gs).1 (drop_recycled N s0 gs).2 /\
    list_len p' = list_len p /\ unit_len p' = unit_len p /\ pool_buffer p' = pool_buffer p.
Proof.
  induction gs as [|g gs IH]; intros p N s0 fuel Hr Hf.
  { destruct Hr. unfold zlen in rp_groups0. simpl in rp_groups0. lia. }
  pose proof (rep_head_node _ _ _ _ _ Hr) as Hn. pose proof Hr as [].
  assert (Hnext : next_slot p (list_head p) = slot p 1).
  { unfold next_slot, slot. by rewrite u64_small by lia. }
  destruct fuel as [|fuel]; [simpl in Hf; lia|]. cbn [drop_dirty]. rewrite Hn. cbn [mbind res_bind dirty].
  destruct gs as [|g' gs].
  - cbn [drop_recycled fst snd]. exists p. split; [|done].
    destruct (g_dirty g); cbn [negb]; [|done]. destruct (list_len p =? 0) eqn:E; [zlia|].
    rewrite Hnext, rp_tail0. change (zlen [g]) with 1. by rewrite Z.eqb_refl.
  - cbn [drop_recycled]. destruct (g_dirty g) eqn:Ed; cbn [negb]; [|by exists p].
    destruct (list_len p =? 0) eqn:E; [zlia|].
    destruct (next_slot p (list_head p) =? list_tail p) eqn:E2; zbool.
    { rewrite Hnext, rp_tail0 in E2. apply slot_inj in E2; rewrite ?zlen_cons in *;
        pose proof (zlen_nonneg gs); lia. }
    apply rep_tail in Hr. destruct (IH _ _ _ fuel Hr) as (p' & -> & Hp' & ? & ? & ?); [simpl in *; lia|].
    by exists p'.
Qed.

(** *** Looking a disk block up *)
Fixpoint index_of (id : Z) (gs : list group) : option nat :=
  match gs with
  | [] => None
  | g :: gs => if g_id g =? id then Some O else S <$> index_of id gs
  end.

Lemma index_of_Some id gs i : index_of id gs = Some i -> exists g, gs !! i = Some g /\ g_id g = id.
Proof.
  revert i. induction gs as [|g gs IH]; intros i; simpl; [done|].
  destruct (g_id g =? id) eqn:E; [intros [= <-]; exists g; split; [done|zlia]|].
  intros (j & Hj & ->)%fmap_Some. by apply IH.
Qed.

Lemma slot_ne_tail p N s0 gs i :
  rep p N s0 gs -> 0 <= i < zlen gs -> (slot p i =? list_tail p) = false.
Proof.
  intros [] Hi. apply Z.eqb_neq. rewrite rp_tail0. intros E. apply slot_inj in E; lia.
Qed.

Lemma rep_tail_slot p N s0 gs i : rep p N s0 gs -> i = zlen gs -> (slot p i =? list_tail p) = true.
Proof. intros [] ->. rewrite rp_tail0. apply Z.eqb_refl. Qed.

Lemma find_node_spec p N s0 gs id suf : rep p N s0 gs -> forall k count,
  drop k gs = suf -> (k + length suf = length gs)%nat -> (length suf < count)%nat ->
  find_node p count (slot p (Z.of_nat k)) id =
    Ok ((fun i => slot p (Z.of_nat (k + i))) <$> index_of id suf).
Proof.
  intros Hr. pose proof Hr as []. induction suf as [|g suf IH]; intros k [|count] Hd Hk Hc;
    try (simpl in Hc; lia); cbn [find_node].
  - simpl in Hk. rewrite (rep_tail_slot _ _ _ _ _ Hr); [done|]. unfold zlen. lia.
  - cbn [length] in *. rewrite (slot_ne_tail _ _ _ _ _ Hr) by (unfold zlen; lia).
    assert (Hg : gs !! k = Some g).
    { rewrite <-(Nat.add_0_r k), <-lookup_drop, Hd. done. }
    rewrite (rp_nodes0 k g Hg). cbn [mbind res_bind data_block_id index_of].
    destruct (g_id g =? id); [cbn; by rewrite Nat.add_0_r|].
    destruct (list_len p =? 0) eqn:E; [zlia|].
    rewrite next_slot_slot, Z.add_1_r, <-Nat2Z.inj_succ by lia.
    rewrite (IH (S k)); [|rewrite <-Nat.add_1_r, <-drop_drop, Hd; done|lia..].
    f_equal. destruct (index_of id suf); cbn; [|done]. do 2 f_equal. lia.
Qed.

Lemma find_spec p N s0 gs id : rep p N s0 gs ->
  find p id = Ok ((fun i => slot p (Z.of_nat i)) <$> index_of id gs).
Proof.
  intros Hr. pose proof Hr as []. unfold find.
  etransitivity; [|apply (find_node_spec p N s0 gs id gs Hr 0 (Z.to_nat (list_len p)));
    [done|done|unfold zlen in *; lia]].
  f_equal. unfold slot. rewrite Z.add_0_r, Z.mod_small; lia.
Qed.

(** *** The operations on the queue *)

(** A record of block [id] joins the newest group when that is [id]'s group,
    and opens a new group otherwise. *)
Definition add_record (id : Z) (gs : list group) : list group :=
  match last gs with
  | None => []
  | Some g => if g_id g =? id then removelast gs ++ [mkGroup id (g_n g + 1) (g_dirty g)]
              else gs ++ [mkGroup id 1 false]
  end.
Definition newest (gs : list group) : option Z := g_id <$> last gs.
Definition mark (id : Z) (gs : list group) : list group :=
  match index_of id gs with
  | Some i => alter (fun g => mkGroup (g_id g) (g_n g) true) i gs
  | None => gs
  end.

Lemma circle_step N t : 0 < N ->
  (t + 1) mod N = if t mod N =? N - 1 then 0 else t mod N + 1.
Proof.
  intros HN. rewrite <-Zplus_mod_idemp_l. pose proof (Z.mod_pos_bound t N HN).
  case_test; zbool; [rewrite E, Z.sub_add; apply Z.mod_same; lia|apply Z.mod_small; lia].
Qed.

Lemma circle_full N s0 t : 0 <= s0 < N -> 1 <= t <= N -> (s0 + t) mod N = s0 <-> t = N.
Proof.
  intros Hs Ht. split; [|intros ->; rewrite <-(Z.mul_1_l N) at 1; rewrite Z.mod_add, Z.mod_small; lia].
  intros E. destruct (decide (s0 + t < N)); [rewrite Z.mod_small in E; lia|].
  rewrite <-(Z.mod_add _ (-1)), Z.mod_small in E; lia.
Qed.

(** Where the next record goes, in units. *)
Definition next_unit (N s0 : Z) (gs : list group) : Z := (s0 + total gs) mod N.

Lemma rep_alloc_pos p N s0 gs : rep p N s0 gs ->
  (if capacity p <? u64 (allocate_pos p + unit_len p) then 0 else allocate_pos p)
    = next_unit N s0 gs * unit_len p /\
  u64 (next_unit N s0 gs * unit_len p + unit_len p) = (next_unit N s0 gs + 1) * unit_len p.
Proof.
  intros Hr. pose proof Hr as []. unfold next_unit.
  replace (s0 + total gs) with (s0 + total gs - 1 + 1) by lia. rewrite (circle_step N) by lia.
  pose proof (Z.mod_pos_bound (s0 + total gs - 1) N rp_N0) as Hm. rewrite rp_pos0.
  set (m := (s0 + total gs - 1) mod N) in *.
  assert (0 <= m * unit_len p <= (N - 1) * unit_len p) by nia.
  assert (unit_len p <= N * unit_len p) by nia.
  rewrite u64_small by lia. case_test; case_test; zbool; split; try (rewrite u64_small); try lia; try nia.
Qed.

Lemma rep_newest p N s0 gs g : rep p N s0 (gs ++ [g]) ->
  u64 (u64 (list_tail p + list_len p) - 1) mod list_len p = slot p (zlen gs) /\
  zget (allocated_list p) (slot p (zlen gs)) =
    Ok (mkNode (g_id g) (first_unit N s0 (gs ++ [g]) (length gs) * unit_len p) (g_dirty g)).
Proof.
  intros []. split; [|apply rp_nodes0; by rewrite lookup_app_r, Nat.sub_diag by lia].
  pose proof (slot_range p (zlen (gs ++ [g])) ltac:(lia)) as Hs. rewrite <-rp_tail0 in Hs.
  rewrite !u64_small by (rewrite ?u64_small; lia). rewrite rp_tail0. unfold slot.
  rewrite <-Z.add_sub_assoc, Zplus_mod_idemp_l, zlen_app.
  replace (list_head p + (zlen gs + zlen [g]) + (list_len p - 1))
    with (list_head p + zlen gs + 1 * list_len p) by (change (zlen [g]) with 1; lia).
  apply Z.mod_add. lia.
Qed.

(** The newest group grows by one record. *)
Lemma rep_bump p N s0 gs g : rep p N s0 (gs ++ [g]) -> total (gs ++ [g]) < N ->
  rep (with_pos p ((next_unit N s0 (gs ++ [g]) + 1) * unit_len p)) N s0
    (gs ++ [mkGroup (g_id g) (g_n g + 1) (g_dirty g)]).
Proof.
  intros [] Hlt. rewrite total_app in *. cbn in rp_total0, Hlt.
  apply Forall_app in rp_pos_n0 as [Hf1 Hf2]. apply Forall_cons in Hf2 as [Hg _].
  split; try done.
  - by rewrite zlen_app in *.
  - simpl. rewrite rp_tail0. by rewrite !zlen_app.
  - apply Forall_app. split; [done|]. constructor; [simpl; lia|done].
  - rewrite total_app. cbn. lia.
  - intros i x Hx. change (slot (with_pos _ _)) with (slot p). simpl.
    assert (Htake : first_unit N s0 (gs ++ [mkGroup (g_id g) (g_n g + 1) (g_dirty g)]) i =
      first_unit N s0 (gs ++ [g]) i).
    { unfold first_unit. apply lookup_lt_Some in Hx. rewrite length_app in Hx. simpl in Hx.
      by rewrite !take_app_le by lia. }
    rewrite Htake. destruct (decide (i < length gs)%nat).
    + rewrite lookup_app_l in Hx by done. apply rp_nodes0. by rewrite lookup_app_l.
    + pose proof (lookup_lt_Some _ _ _ Hx) as Hl. rewrite length_app in Hl. simpl in Hl.
      assert (i = length gs) as -> by lia. rewrite lookup_app_r, Nat.sub_diag in Hx by lia.
      injection Hx as <-. apply (rp_nodes0 _ g). by rewrite lookup_app_r, Nat.sub_diag by lia.
  - simpl. unfold next_unit. rewrite !total_app. cbn. do 3 f_equal. lia.
Qed.

(** A node is taken for a new group; it may be the last free one. *)
Lemma addNode_ok p N s0 gs id off x : rep p N s0 gs ->
  addNodeMeta (with_pos p x) id off =
    Ok (with_pos (with_list p (<[Z.to_nat (slot p (zlen gs)) := mkNode id off false]> (allocated_list p))
                    (slot p (zlen gs + 1)) (list_head p)) x).
Proof.
  intros []. pose proof (slot_range p (zlen gs) ltac:(lia)) as Hs. unfold addNodeMeta.
  cbn [with_pos list_head list_tail list_len allocated_list]. destruct (list_head p =? list_tail p) eqn:E.
  { zbool. rewrite rp_tail0 in E. unfold slot in E.
    assert (slot p 0 = slot p (zlen gs)) as E2%slot_inj
      by (unfold slot; rewrite Z.add_0_r, Z.mod_small; lia); lia. }
  destruct (list_len p =? 0) eqn:E2; [zlia|]. rewrite rp_tail0.
  rewrite zset_Ok by lia. cbn [mbind res_bind].
  change (next_slot (with_pos p x)) with (next_slot p). by rewrite next_slot_slot by lia.
Qed.

(** A new group opens. *)
Lemma rep_push p N s0 gs id : rep p N s0 gs -> total gs < N -> zlen gs + 1 < list_len p ->
  let l := <[Z.to_nat (slot p (zlen gs)) := mkNode id (next_unit N s0 gs * unit_len p) false]> (allocated_list p) in
    rep (with_pos (with_list p l (slot p (zlen gs + 1)) (list_head p))
      ((next_unit N s0 gs + 1) * unit_len p)) N s0 (gs ++ [mkGroup id 1 false]).
Proof.
  intros Hr Hlt Hroom. pose proof Hr as [].
  pose proof (slot_range p (zlen gs) ltac:(lia)) as Hs. pose proof (total_nonneg gs rp_pos_n0).
  split; try done.
  - by simpl; rewrite zlen_insert.
  - rewrite zlen_app. change (zlen [_]) with 1. simpl. lia.
  - simpl. by rewrite zlen_app.
  - apply Forall_app. split; [done|]. by constructor.
  - rewrite total_app. cbn. lia.
  - intros i x Hx. change (slot (with_pos _ _)) with (slot p). simpl.
      pose proof (lookup_lt_Some _ _ _ Hx) as Hl. rewrite length_app in Hl. simpl in Hl.
      assert (Htake : first_unit N s0 (gs ++ [mkGroup id 1 false]) i = first_unit N s0 gs i).
      { unfold first_unit. by rewrite take_app_le by lia. }
      rewrite Htake. destruct (decide (i < length gs)%nat).
    + rewrite lookup_app_l in Hx by done. rewrite zget_insert_ne; [by apply rp_nodes0|lia|].
        intros E. symmetry in E. unfold zlen in *. apply slot_inj in E; lia.
    + assert (i = length gs) as -> by lia. rewrite lookup_app_r, Nat.sub_diag in Hx by lia.
        injection Hx as <-. change (Z.of_nat (length gs)) with (zlen gs).
        rewrite zget_insert_eq by lia. unfold first_unit, next_unit.
        by rewrite firstn_all.
  - simpl. unfold next_unit. rewrite !total_app. cbn. do 3 f_equal. lia.
Qed.

Lemma rep_newest_ne p N s0 gs : rep p N s0 gs -> exists pre g, gs = pre ++ [g].
Proof.
  intros []. destruct gs as [|g gs _] using rev_ind; [unfold zlen in rp_groups0; simpl in *; lia|].
  eauto.
Qed.

(** [allocate] once the recycled nodes at the head are gone: the circle is full,
    or the next place is free. *)
Lemma reserve_cases p N s0 pre g id : rep p N s0 (pre ++ [g]) ->
  let q := next_unit N s0 (pre ++ [g]) in let pos := q * unit_len p in
  (total (pre ++ [g]) = N -> reserve p (unit_len p) id = Blocks) /\
  (total (pre ++ [g]) < N -> reserve p (unit_len p) id =
    (p' ← (if negb (id =? g_id g) then addNodeMeta (with_pos p pos) id pos else Ok (with_pos p pos));
     Ok (pos, with_pos p' ((q + 1) * unit_len p)))).
Proof.
  intros Hr q pos. pose proof Hr as [? ? ? ? rp_s0]. pose proof (rep_total_pos _ _ _ _ Hr) as Ht1.
  pose proof (rep_alloc_pos _ _ _ _ Hr) as [Hpos Hfin]. unfold reserve.
  assert (Hq : 0 <= q < N) by (by apply Z.mod_pos_bound).
  pose proof (circle_full N s0 (total (pre ++ [g])) rp_s0 ltac:(lia)) as Hfull.
  change ((s0 + total (pre ++ [g])) mod N) with q in Hfull.
  set (p1 := if capacity p <? _ then _ else _).
  assert (Hp1 : p1 = with_pos p pos).
  { subst p1 pos q. rewrite <-Hpos. case_test; [done|]. by destruct p. }
  rewrite Hp1. clear p1 Hp1 Hpos. cbn [allocate_pos with_pos allocated_list list_head capacity].
  assert (Hfin' : u64 (pos + unit_len p) = (q + 1) * unit_len p) by exact Hfin.
  rewrite Hfin'. unfold overlaps_oldest. cbn [allocated_list with_pos list_head].
  destruct (pre ++ [g]) as [|g0 gs0] eqn:Egs; [by destruct pre|].
  rewrite (rep_head_node _ _ _ _ _ Hr). rewrite <-Egs in *. cbn [mbind res_bind start_offset].
  destruct (s0 * unit_len p =? MAX64) eqn:EM; [unfold MAX64 in EM; zbool; nia|]. cbn [andb].
  split; intros Ht.
  - apply Hfull in Ht as Hqs. unfold pos. rewrite Hqs.
    destruct (_ && _) eqn:Eo; [done|]. apply andb_false_iff in Eo as []; zbool; nia.
  - destruct (_ && _) eqn:Eo; [exfalso; zbool; assert (q = s0) by nia; apply Hfull in H1; lia|].
    cbn [list_len with_pos list_tail]. destruct (list_len p =? 0) eqn:El; [zlia|].
    destruct (rep_newest _ _ _ _ _ Hr) as [-> ->]. cbn [mbind res_bind data_block_id]. done.
Qed.

Lemma reserve_spec p N s0 gs id : rep p N s0 gs ->
  (total gs = N -> reserve p (unit_len p) id = Blocks) /\
  (total gs < N -> newest gs = Some id \/ zlen gs + 1 < list_len p ->
    exists p', reserve p (unit_len p) id = Ok (next_unit N s0 gs * unit_len p, p') /\
      rep p' N s0 (add_record id gs)).
Proof.
  intros Hr. destruct (rep_newest_ne _ _ _ _ Hr) as (pre & g & ->).
  destruct (reserve_cases p N s0 pre g id Hr) as [Hfull Hfree]. split; [done|]. intros Ht Hroom.
  rewrite (Hfree Ht). unfold add_record, newest in *. rewrite last_snoc in *. simpl in Hroom.
  rewrite (Z.eqb_sym id). destruct (g_id g =? id) eqn:Eid; cbn [negb mbind res_bind].
  - zbool. rewrite removelast_last. eexists. split; [done|].
    rewrite <-Eid. exact (rep_bump _ _ _ _ _ Hr Ht).
  - destruct Hroom as [[= Hroom]|Hroom]; [by rewrite Hroom, Z.eqb_refl in Eid|].
    rewrite (addNode_ok _ _ _ _ _ _ _ Hr). cbn [mbind res_bind]. eexists. split; [done|].
    exact (rep_push _ _ _ _ id Hr Ht Hroom).
Qed.

(** The group that takes the last free node. *)
Lemma reserve_last_node p N s0 gs id : rep p N s0 gs -> total gs < N ->
  newest gs <> Some id -> zlen gs + 1 = list_len p ->
  exists p', reserve p (unit_len p) id = Ok (next_unit N s0 gs * unit_len p, p') /\ list_head p' = list_tail p'.
Proof.
  intros Hr Ht Hnew Hlast. destruct (rep_newest_ne _ _ _ _ Hr) as (pre & g & ->).
  destruct (reserve_cases p N s0 pre g id Hr) as [_ Hfree]. rewrite (Hfree Ht). clear Hfree.
  unfold newest in Hnew. rewrite last_snoc in Hnew. destruct (id =? g_id g) eqn:Eid; cbn [negb].
  { zbool. by subst. }
  rewrite (addNode_ok _ _ _ _ _ _ _ Hr). cbn [mbind res_bind]. eexists. split; [done|].
  cbn [with_pos with_list list_head list_tail]. pose proof Hr as []. rewrite Hlast. unfold slot.
  rewrite <-Z.add_mod_idemp_r, Z.mod_same, Z.add_0_r, Z.mod_small by lia. done.
Qed.

Lemma drop_recycled_suffix gs : forall N s0, exists dropped,
  gs = dropped ++ (drop_recycled N s0 gs).2 /\ Forall (fun g => g_dirty g = true) dropped.
Proof.
  induction gs as [|g gs IH]; intros N s0; [by exists []|].
  destruct gs as [|g' gs']; [by exists []|]. cbn [drop_recycled] in *.
  destruct (g_dirty g) eqn:E; [|by exists []].
  destruct (IH N ((s0 + g_n g) mod N)) as (d & Hd & Hf). exists (g :: d). split; [|by constructor].
  by rewrite <-app_comm_cons, <-Hd.
Qed.

Lemma unit_not_held N s0 gs i g k :
  0 <= s0 < N -> Forall (fun g => 0 < g_n g) gs -> total gs < N -> gs !! i = Some g -> 0 <= k < g_n g ->
  (first_unit N s0 gs i + k) mod N <> next_unit N s0 gs.
Proof.
  intros Hs Hf Ht Hi Hk. unfold first_unit, next_unit. rewrite Zplus_mod_idemp_l.
  assert (Hsum : total gs = total (take i gs) + (g_n g + total (drop (S i) gs))).
  { rewrite <-(take_drop_middle gs i g Hi) at 1. rewrite total_app. done. }
  pose proof (total_take gs i Hf). pose proof (total_nonneg _ (Forall_drop _ (S i) _ Hf)).
  intros E. assert (E0 : (s0 + total gs - (s0 + total (take i gs) + k)) mod N = 0).
  { rewrite Zminus_mod, E, Z.sub_diag. apply Z.mod_0_l. lia. }
  rewrite Z.mod_small in E0; lia.
Qed.

(** C37: A pool is a queue of groups of records on a circle of [N] records.
    [allocate] first forgets groups at the old end, recycled ones only and
    never the newest; then, if the circle is full, it waits, and otherwise it
    hands out the record place right after the newest record — a place that
    no record of a remaining group occupies.  The record joins the group of its
    disk block, or opens a group if the newest one is another block's, and
    the pool stays a queue as long as a node stays free; the group that takes
    the last free node leaves the list of nodes with its head at its tail, as
    if it were empty, and then the next new group waits as well. *)
Theorem allocate_refines_queue p N s0 gs id : rep p N s0 gs ->
  let s := (drop_recycled N s0 gs).1 in
  let gs' := (drop_recycled N s0 gs).2 in
  (exists dropped, gs = dropped ++ gs' /\ Forall (fun g => g_dirty g = true) dropped) /\
  (total gs' = N -> allocate p (unit_len p) id = Blocks) /\
  (total gs' < N ->
    (forall i g k, gs' !! i = Some g -> 0 <= k < g_n g -> (first_unit N s gs' i + k) mod N <> next_unit N s gs') /\
    exists p', allocate p (unit_len p) id = Ok (next_unit N s gs' * unit_len p, p') /\
      (newest gs' = Some id \/ zlen gs' + 1 < list_len p -> rep p' N s (add_record id gs')) /\
      (newest gs' <> Some id -> zlen gs' + 1 = list_len p ->
         list_head p' = list_tail p' /\ forall id' off, addNodeMeta p' id' off = Blocks)).
Proof.
  intros Hr s gs'. split; [apply drop_recycled_suffix|].
  pose proof Hr as []. destruct (drop_dirty_spec gs p N s0 (Z.to_nat (list_len p)) Hr)
    as (p1 & Hd & Hr1 & Hl & Hu & _); [unfold zlen in *; lia|].
  unfold allocate. rewrite Hd. cbn [mbind res_bind]. rewrite <-Hu, <-Hl.
  destruct (reserve_spec p1 N s gs' id Hr1) as [Hfull Hok]. split; [done|].
  intros Ht. split; [destruct Hr1; intros; by eapply unit_not_held|].
  destruct (decide (newest gs' = Some id \/ zlen gs' + 1 < list_len p1)) as [Hroom|Hnone].
  - destruct (Hok Ht Hroom) as (p' & -> & Hp'). exists p'. split; [done|]. split; [done|].
    intros Hne Hlast. destruct Hroom as [|]; [done|lia].
  - pose proof (rp_groups p1 N s gs' Hr1). assert (~ zlen gs' + 1 < list_len p1) by tauto.
    destruct (reserve_last_node p1 N s gs' id Hr1 Ht) as (p' & -> & He); [tauto|lia|].
    exists p'. split; [done|]. split; [by intros ?|]. intros _ _. split; [done|].
    intros id' off. unfold addNodeMeta. by rewrite He, Z.eqb_refl.
Qed.

(** The first record of a fresh pool. *)
Lemma first_allocation fresh junk N len unit id p :
  new_MemoryPool fresh junk (N * unit) len unit = Ok p ->
  0 < unit -> 0 < N -> N * unit < 2 ^ 62 -> 1 < len < 2 ^ 62 ->
  exists p', allocate p unit id = Ok (0, p') /\ rep p' N 0 [mkGroup id 1 false] /\
    unit_len p' = unit /\ list_len p' = len.
Proof.
  intros Hn Hu HN Hc Hl. unfold new_MemoryPool in Hn.
  destruct (unit =? 0) eqn:E0; [done|]. rewrite Z.mod_mul in Hn by lia. cbn [Z.eqb negb] in Hn.
  rewrite zset_Ok in Hn by (rewrite zlen_replicate; lia). cbn [mbind res_bind] in Hn. injection Hn as <-.
  set (l := <[_ := _]> _). assert (Hz : zlen l = len) by (subst l; rewrite zlen_insert, zlen_replicate; lia).
  assert (H0 : zget l 0 = Ok (mkNode MAX64 MAX64 false)).
  { subst l. apply (zget_insert_eq _ 0). rewrite zlen_replicate. lia. }
  clearbody l. set (p := mkPool _ _ _ _ _ _ _ _).
  assert (Hd : forall n, drop_dirty n p = Ok p).
  { intros n. destruct n; cbn [drop_dirty allocated_list list_head p]; by rewrite H0. }
  unfold allocate. rewrite Hd. cbn [mbind res_bind]. subst p.
  unfold reserve. cbn [allocate_pos capacity]. rewrite Z.add_0_l, (u64_small unit) by nia.
  destruct (N * unit <? unit) eqn:E1; [zbool; nia|]. cbn [allocate_pos allocated_list list_head capacity].
  rewrite H0. cbn [mbind res_bind start_offset dirty]. rewrite Z.add_0_l, Z.eqb_refl, (u64_small unit) by nia.
  destruct (unit <=? N * unit) eqn:E2; [|zbool; nia]. cbn [andb].
  rewrite zset_Ok by lia. cbn [mbind res_bind]. eexists. split; [done|].
  split; [|done]. assert (Hm : slot (with_pos (with_list (mkPool (N * unit) len unit fresh 0 l 1 0)
    (<[Z.to_nat 0 := mkNode id 0 false]> l) 1 0) unit) 1 = 1) by (apply Z.mod_small; simpl; lia).
  split; try done; try (simpl; lia).
  - simpl. by rewrite zlen_insert.
  - unfold zlen. simpl. lia.
  - by repeat constructor.
  - intros i g Hg. destruct i as [|i]; [|done]. injection Hg as <-. simpl.
    unfold slot, first_unit. simpl. rewrite !Z.mod_small by lia.
    by rewrite (zget_insert_eq _ 0) by lia.
  - simpl. rewrite Z.mod_small by lia. lia.
Qed.

Lemma alloc_pos_end p N s0 pre g : rep p N s0 (pre ++ [g]) ->
  allocate_pos p = ((first_unit N s0 (pre ++ [g]) (length pre) + g_n g - 1) mod N + 1) * unit_len p.
Proof.
  intros []. rewrite rp_pos0. unfold first_unit. rewrite take_app_length, total_app. cbn.
  rewrite <-(Z.add_sub_assoc (_ mod N)), Zplus_mod_idemp_l. do 3 f_equal. lia.
Qed.

(** The length of a group from where it starts to where it ends on the circle. *)
Lemma circle_len_mid N s n : 0 <= s < N -> 0 < n < N ->
  forall u, 0 < u -> N * u < 2 ^ 62 ->
  (if s * u <? (s + n) mod N * u then u64 ((s + n) mod N * u - s * u)
   else u64 (u64 (N * u - s * u) + (s + n) mod N * u)) = n * u.
Proof.
  intros Hs Hn u Hu HN. destruct (decide (s + n < N)) as [Hlt|Hge].
  - rewrite Z.mod_small by lia. case_test; zbool; [rewrite u64_small; nia|nia].
  - assert ((s + n) mod N = s + n - N) as -> by (rewrite <-(Z.mod_add _ (-1)), Z.mod_small; lia).
    case_test; zbool; [nia|]. rewrite (u64_small (N * u - s * u)) by nia. rewrite u64_small; nia.
Qed.

Lemma circle_len_last N s n : 0 <= s < N -> 0 < n <= N ->
  forall u, 0 < u -> N * u < 2 ^ 62 ->
  (if s * u <? ((s + n - 1) mod N + 1) * u then u64 (((s + n - 1) mod N + 1) * u - s * u)
   else u64 (u64 (N * u - s * u) + ((s + n - 1) mod N + 1) * u)) = n * u.
Proof.
  intros Hs Hn u Hu HN. destruct (decide (s + n <= N)) as [Hlt|Hge].
  - rewrite Z.mod_small by lia. case_test; zbool; [rewrite u64_small; nia|nia].
  - assert ((s + n - 1) mod N = s + n - 1 - N) as -> by (rewrite <-(Z.mod_add _ (-1)), Z.mod_small; lia).
    case_test; zbool; [nia|]. rewrite (u64_small (N * u - s * u)) by nia. rewrite u64_small; nia.
Qed.

Lemma group_split gs (i : nat) (g : group) : gs !! i = Some g ->
  total gs = total (take i gs) + (g_n g + total (drop (S i) gs)).
Proof. intros Hi. rewrite <-(take_drop_middle gs i g Hi) at 1. by rewrite total_app. Qed.

Lemma next_first_unit N s0 gs (i : nat) (g : group) : gs !! i = Some g ->
  first_unit N s0 gs (S i) = (first_unit N s0 gs i + g_n g) mod N.
Proof.
  intros Hi. unfold first_unit. rewrite Zplus_mod_idemp_l. f_equal.
  rewrite (take_S_r _ _ _ Hi), total_app. cbn. lia.
Qed.

Lemma getLen_group p N s0 gs id : rep p N s0 gs ->
  match index_of id gs with
  | None => getLenOfDiskID p id = Ok 0
  | Some i => forall g, gs !! i = Some g ->
      (S i = length gs /\ slot p (Z.of_nat i) = list_len p - 1 ->
        getLenOfDiskID p id =
          (stale ← zget (allocated_list p) 0;
           let start := first_unit N s0 gs i * unit_len p in
           let fin := start_offset stale in
           Ok (if start <? fin then u64 (fin - start)
               else u64 (u64 (N * unit_len p - start) + fin)))) /\
      (S i <> length gs \/ slot p (Z.of_nat i) <> list_len p - 1 ->
        getLenOfDiskID p id = Ok (g_n g * unit_len p))
  end.
Proof.
  intros Hr. pose proof Hr as []. unfold getLenOfDiskID. rewrite (find_spec _ _ _ _ id Hr).
  destruct (index_of id gs) as [i|] eqn:Ei; [|done].
  intros g Hg. cbn [mbind res_bind fmap option_fmap option_map].
  rewrite (rp_nodes0 i g Hg), rp_cap0. cbn [mbind res_bind start_offset].
  pose proof (slot_range p (Z.of_nat i) ltac:(lia)) as Hs. rewrite (u64_small (slot p _ + 1)) by lia.
  pose proof (lookup_lt_Some _ _ _ Hg) as Hi.
  pose proof (first_unit_range N s0 gs i rp_N0) as Hu.
  assert (Hgn : 0 < g_n g) by exact (proj1 (Forall_lookup _ _) rp_pos_n0 i g Hg).
  pose proof (group_split gs i g Hg) as Htot. pose proof (total_take gs i rp_pos_n0) as Hta.
  pose proof (total_nonneg _ (Forall_drop _ (S i) _ rp_pos_n0)) as Htd.
  assert (Hnext : next_slot p (slot p (Z.of_nat i)) = slot p (Z.of_nat (S i))).
  { rewrite next_slot_slot by lia. f_equal. lia. }
  split.
  - intros [Hlast Hend]. rewrite Hend, Z.sub_add.
    assert (Ht0 : list_tail p = 0).
    { rewrite rp_tail0. unfold zlen. rewrite <-Hlast, <-Hnext, Hend. unfold next_slot.
      rewrite Z.sub_add, u64_small, Z.mod_same; lia. }
    rewrite Ht0. destruct (list_len p =? 0) eqn:E; [zlia|]. cbn [negb].
    replace (next_slot p (list_len p - 1)) with 0; [by destruct (zget _ 0)|].
    rewrite <-Hend, Hnext, Hlast. fold (zlen gs). congruence.
  - intros Hne. destruct (decide (S i = length gs)) as [Hlast|Hmid].
    + assert (Hsl : slot p (Z.of_nat i) + 1 = list_tail p).
      { rewrite rp_tail0. unfold zlen. rewrite <-Hlast, <-Hnext. unfold next_slot.
        rewrite u64_small, Z.mod_small; destruct Hne; lia. }
      rewrite Hsl, Z.eqb_refl. cbn [negb mbind res_bind].
      destruct (rep_newest_ne _ _ _ _ Hr) as (pre & g' & ->).
      rewrite length_app in Hlast. simpl in Hlast. assert (i = length pre) as -> by lia.
      rewrite lookup_app_r, Nat.sub_diag in Hg by lia. injection Hg as <-.
      rewrite (alloc_pos_end _ _ _ _ _ Hr). f_equal. apply circle_len_last; lia.
    + destruct (lookup_lt_is_Some_2 gs (S i)) as [g2 Hg2]; [lia|].
      assert (Hsl : (slot p (Z.of_nat i) + 1 =? list_tail p) = false).
      { apply Z.eqb_neq. rewrite rp_tail0. intros E.
        assert (E2 : slot p (Z.of_nat (S i)) = slot p (zlen gs)).
        { rewrite <-Hnext. unfold next_slot. pose proof (slot_range p (zlen gs) ltac:(lia)).
          rewrite u64_small, Z.mod_small; lia. }
        unfold zlen in *. apply slot_inj in E2; lia. }
      rewrite Hsl, Hnext, (rp_nodes0 _ _ Hg2). cbn [negb mbind res_bind start_offset].
      rewrite (next_first_unit N s0 gs i g Hg). f_equal.
      assert (0 < total (drop (S i) gs)).
      { rewrite (drop_S _ g2) by done. apply Forall_lookup_1 with (i := S i) (x := g2) in rp_pos_n0 as Hg2n; [|done].
        pose proof (total_nonneg _ (Forall_drop _ (S (S i)) _ rp_pos_n0)). simpl. simpl in Hg2n. lia. }
      apply circle_len_mid; lia.
Qed.

(** The length of a disk block's records: of the first group of that block
    from the old end, in bytes, wherever the group lies on the circle, and 0
    for a block the pool does not hold.  The one exception is a newest group
    whose node is in the last slot of the list: there the end is taken from
    the node in slot 0, whatever that holds, instead of the allocation
    position. *)
Theorem getLenOfDiskID_spec p N s0 gs id : rep p N s0 gs ->
  match index_of id gs with
  | None => getLenOfDiskID p id = Ok 0
  | Some i => forall g, gs !! i = Some g ->
      (S i = length gs /\ slot p (Z.of_nat i) = list_len p - 1 ->
        getLenOfDiskID p id =
          (stale ← zget (allocated_list p) 0;
           let start := first_unit N s0 gs i * unit_len p in
           let fin := start_offset stale in
           Ok (if start <? fin then u64 (fin - start)
               else u64 (u64 (N * unit_len p - start) + fin)))) /\
      (S i <> length gs \/ slot p (Z.of_nat i) <> list_len p - 1 ->
        getLenOfDiskID p id = Ok (g_n g * unit_len p))
  end.
Proof. apply getLen_group. Qed.

Lemma total_alter gs i : total (alter (fun g => mkGroup (g_id g) (g_n g) true) i gs) = total gs.
Proof.
  revert i. induction gs as [|g gs IH]; intros [|i]; try done.
  exact (f_equal (Z.add (g_n g)) (IH i)).
Qed.

Lemma first_unit_alter N s0 gs i j :
  first_unit N s0 (alter (fun g => mkGroup (g_id g) (g_n g) true) i gs) j = first_unit N s0 gs j.
Proof.
  unfold first_unit. do 2 f_equal. revert i j. induction gs as [|g gs IH]; intros [|i] [|j]; try done.
  exact (f_equal (Z.add (g_n g)) (IH i j)).
Qed.

(** [recycle] marks the first group of the block as recycled and changes
    nothing else of the queue.  In particular it does not change the test
    that an allocator waiting for room repeats, so no recycling ends that
    wait. *)
Theorem recycle_marks_group p N s0 gs id : rep p N s0 gs ->
  exists p', recycle p id = Ok p' /\ rep p' N s0 (mark id gs) /\
    pool_buffer p' = pool_buffer p /\
    (forall pos fin, overlaps_oldest p' pos fin = overlaps_oldest p pos fin).
Proof.
  intros Hr. pose proof Hr as []. unfold recycle, mark. rewrite (find_spec _ _ _ _ id Hr).
  destruct (index_of id gs) as [i|] eqn:Ei; [|by exists p].
  destruct (index_of_Some _ _ _ Ei) as (g & Hg & _).
  cbn [mbind res_bind fmap option_fmap option_map]. rewrite (rp_nodes0 i g Hg).
  cbn [mbind res_bind data_block_id start_offset].
  pose proof (slot_range p (Z.of_nat i) ltac:(lia)) as Hs. rewrite zset_Ok by lia.
  set (n := mkNode _ _ true). set (l := <[_ := n]> _). cbn [mbind res_bind].
  eexists. split; [done|]. split; [|split; [done|]].
  - split; try done.
    + simpl. unfold l. by rewrite zlen_insert.
    + unfold zlen in *. by rewrite length_alter.
    + simpl. unfold zlen in *. by rewrite length_alter.
    + apply Forall_alter; [done|]. by intros x _ Hx.
    + by rewrite total_alter.
    + intros j x Hx. change (slot (with_list p l _ _)) with (slot p). simpl.
      rewrite first_unit_alter. destruct (decide (j = i)) as [->|Hne].
      * rewrite list_lookup_alter_eq, Hg in Hx. cbn in Hx. injection Hx as <-.
        unfold l. by rewrite zget_insert_eq by lia.
      * rewrite list_lookup_alter_ne in Hx by done. unfold l.
        rewrite zget_insert_ne; [by apply rp_nodes0|lia|].
        apply lookup_lt_Some in Hx, Hg. unfold zlen in *. intros E.
        destruct (decide (i < j)%nat); [|symmetry in E]; apply slot_inj in E; lia.
    + by rewrite total_alter.
  - intros pos fin. unfold overlaps_oldest. simpl.
    destruct (decide (slot p (Z.of_nat i) = list_head p)) as [E|Hne].
    + unfold l. rewrite E at 1. rewrite zget_insert_eq by lia.
      rewrite <-E at 1. by rewrite (rp_nodes0 i g Hg).
    + unfold l. by rewrite zget_insert_ne by lia.
Qed.

(** ** Witnesses *)

(** A pool of two places of four bytes with one recycled record of block 7. *)
Definition demo : MemoryPool :=
  mkPool 8 3 4 (replicate 8 0) 4 [mkNode 7 0 true; mkNode 0 0 false; mkNode 0 0 false] 1 0.
Lemma demo_rep : rep demo 2 0 [mkGroup 7 1 true].
Proof.
  split; try done. { by repeat constructor. }
  intros [|i] g Hg; [|done]. by injection Hg as <-.
Qed.

Lemma allocate_refines_queue_witness : exists p, allocate demo 4 8 = Ok (4, p).
Proof.
  destruct (allocate_refines_queue demo 2 0 [mkGroup 7 1 true] 8 demo_rep) as (_ & _ & H).
  destruct (H eq_refl) as (_ & p & Hp & _). exists p. exact Hp.
Defined.

Lemma getLenOfDiskID_spec_witness : getLenOfDiskID demo 7 = Ok 4.
Proof.
  refine (proj2 (getLenOfDiskID_spec demo 2 0 [mkGroup 7 1 true] 7 demo_rep (mkGroup 7 1 true) eq_refl) _).
  right. vm_compute. discriminate.
Defined.

Lemma recycle_marks_group_witness : exists p, recycle demo 7 = Ok p.
Proof.
  destruct (recycle_marks_group demo 2 0 [mkGroup 7 1 true] 7 demo_rep) as (p & Hp & _).
  exists p. exact Hp.
Defined.
End PoolProofs.
