(* ===== verification/PoolRecords.v ===== *)
(** * The index memory pools as queues of records

    On top of [MemoryPool.PoolProofs], which shows that a pool is a queue of
    groups of record places, this file follows the bytes: what is stored in
    a pool stays there until its group is recycled, and what
    [writeToBuffer] copies to the index block buffer are exactly the records
    of a group, around the end of the pool. *)
From S2P Require Import Prelude Util BlockBuffer IndexWrite MemoryPool.
From Stdlib Require Import ZArith Lia.
Import PoolProofs.
(** ** The pool as a queue of records

    The same queue with the bytes of every record. *)
Record rgroup := mkRG { r_id : Z; r_recs : list (list Z); r_dirty : bool }.
Definition to_group (r : rgroup) : group := mkGroup (r_id r) (zlen (r_recs r)) (r_dirty r).
Definition all_recs (rs : list rgroup) : list (list Z) := rs ≫= r_recs.

(** Record place [u] of the pool. *)
Definition place (p : MemoryPool) (u : Z) : list Z := zslice (u * unit_len p) (unit_len p) (pool_buffer p).

Record holds (p : MemoryPool) (N s0 : Z) (rs : list rgroup) : Prop := {
  hd_rep : rep p N s0 (to_group <$> rs);
  hd_buf : zlen (pool_buffer p) = capacity p;
  hd_recs : forall (j : nat) r, all_recs rs !! j = Some r -> place p ((s0 + Z.of_nat j) mod N) = r }.

(** What is left when recycled groups at the old end are forgotten. *)
Fixpoint live (rs : list rgroup) : list rgroup :=
  match rs with
  | [] => []
  | r :: rest => match rest with [] => rs | _ :: _ => if r_dirty r then live rest else rs end
  end.

Definition append_record (id : Z) (rec : list Z) (rs : list rgroup) : list rgroup :=
  match last rs with
  | None => []
  | Some r => if r_id r =? id then removelast rs ++ [mkRG id (r_recs r ++ [rec]) (r_dirty r)]
              else rs ++ [mkRG id [rec] false]
  end.

(** A record of block [id] can be taken without waiting. *)
Definition has_room (p : MemoryPool) (id : Z) (rs : list rgroup) : Prop :=
  zlen (all_recs (live rs)) * unit_len p < capacity p /\
  (r_id <$> last (live rs) = Some id \/ zlen (live rs) + 1 < list_len p).

Lemma total_to_group rs : total (to_group <$> rs) = zlen (all_recs rs).
Proof.
  induction rs as [|r rs IH]; [done|]. unfold all_recs in *. rewrite bind_cons, zlen_app, <-IH. done.
Qed.

Lemma drop_recycled_live N rs : 0 < N -> forall s0, 0 <= s0 < N ->
  exists n, drop_recycled N s0 (to_group <$> rs) = ((s0 + Z.of_nat n) mod N, to_group <$> live rs) /\
    all_recs (live rs) = drop n (all_recs rs).
Proof.
  intros HN. induction rs as [|r rs IH]; intros s0 Hs.
  { exists O. by rewrite Z.add_0_r, Z.mod_small. }
  destruct rs as [|r' rs]; [exists O; by rewrite Z.add_0_r, Z.mod_small|].
  change (drop_recycled N s0 (to_group <$> r :: r' :: rs)) with
    (if r_dirty r then drop_recycled N ((s0 + zlen (r_recs r)) mod N) (to_group <$> r' :: rs)
     else (s0, to_group <$> r :: r' :: rs)).
  change (live (r :: r' :: rs)) with (if r_dirty r then live (r' :: rs) else r :: r' :: rs).
  destruct (r_dirty r); [|exists O; by rewrite Z.add_0_r, Z.mod_small].
  destruct (IH ((s0 + zlen (r_recs r)) mod N)) as (n & -> & Ha); [by apply Z.mod_pos_bound|].
  exists (length (r_recs r) + n)%nat. split.
  - f_equal. rewrite Zplus_mod_idemp_l. f_equal. unfold zlen. lia.
  - rewrite Ha. unfold all_recs. rewrite (bind_cons _ r (r' :: rs)), <-drop_drop, drop_app_length. done.
Qed.

Lemma last_to_group rs : last (to_group <$> rs) = to_group <$> last rs.
Proof. apply fmap_last. Qed.

Lemma add_record_append id rec rs :
  add_record id (to_group <$> rs) = to_group <$> append_record id rec rs.
Proof.
  unfold add_record, append_record. rewrite last_to_group.
  destruct rs as [|r rs _] using rev_ind; [done|]. rewrite last_snoc. cbn [fmap option_fmap option_map].
  unfold to_group at 1. cbn [g_id]. destruct (r_id r =? id).
  - rewrite fmap_app. cbn [fmap list_fmap]. rewrite !removelast_last, fmap_app. cbn [fmap list_fmap].
    do 2 f_equal. unfold to_group. cbn [r_id r_recs r_dirty]. by rewrite zlen_app.
  - by rewrite !fmap_app.
Qed.

Lemma all_recs_append id rec rs : rs <> [] -> all_recs (append_record id rec rs) = all_recs rs ++ [rec].
Proof.
  intros Hne. unfold append_record. destruct rs as [|r rs _] using rev_ind; [done|].
  rewrite last_snoc. unfold all_recs. case_test.
  - rewrite removelast_last, !bind_app. cbn. by rewrite !app_nil_r, <-app_assoc.
  - rewrite !bind_app. cbn. by rewrite !app_nil_r.
Qed.

Lemma rep_with_buffer p N s0 gs buf : rep p N s0 gs -> rep (with_pool_buffer p buf) N s0 gs.
Proof. intros []. by split. Qed.

Lemma reserve_frame p len id off p' : reserve p len id = Ok (off, p') ->
  pool_buffer p' = pool_buffer p /\ unit_len p' = unit_len p /\ list_len p' = list_len p /\
  capacity p' = capacity p.
Proof.
  unfold reserve. set (p1 := if _ <? _ then _ else _).
  assert (H1 : pool_buffer p1 = pool_buffer p /\ unit_len p1 = unit_len p /\ list_len p1 = list_len p /\
    capacity p1 = capacity p) by (subst p1; by case_test).
  destruct H1 as (<- & <- & <- & <-). clearbody p1. intros H.
  destruct (zget _ (list_head p1)) as [n| | |]; cbn [mbind res_bind] in H; try done.
  destruct (start_offset n =? MAX64), (_ <=? capacity p1); cbn [andb] in H;
    try (destruct (zset _ _ _); cbn [mbind res_bind] in H; [by injection H as <- <-|done..]).
  all: destruct (overlaps_oldest _ _ _) as [[]| | |]; cbn [mbind res_bind] in H; try done;
    destruct (list_len p1 =? 0); try done;
    destruct (zget _ _) as [n'| | |]; cbn [mbind res_bind] in H; try done;
    destruct (id =? data_block_id n'); cbn [negb mbind res_bind] in H;
    try (by injection H as <- <-).
  all: unfold addNodeMeta in H; destruct (list_head p1 =? list_tail p1); try done;
    destruct (list_len p1 =? 0); try done;
    destruct (zset _ _ _); cbn [mbind res_bind] in H; try done; by injection H as <- <-.
Qed.

Lemma place_zsplice p u v rec :
  zlen rec = unit_len p -> 0 < unit_len p -> 0 <= u -> 0 <= v ->
  (v + 1) * unit_len p <= zlen (pool_buffer p) ->
  place (with_pool_buffer p (zsplice (v * unit_len p) rec (pool_buffer p))) u =
    if u =? v then rec else place p u.
Proof.
  intros Hr Hu Hu0 Hv Hb. unfold place. cbn [unit_len pool_buffer with_pool_buffer].
  case_test; zbool.
  - subst u. rewrite <-Hr at 2. apply zslice_zsplice_same; lia.
  - apply zslice_zsplice_disjoint; [lia..|]. rewrite Hr.
    destruct (decide (u < v)); [left|right]; nia.
Qed.

(** Copying a key and a value next to each other is one copy. *)
Lemma zsplice_key_value {A} off (key val buf : list A) :
  0 <= off -> off + zlen key + zlen val <= zlen buf ->
  zsplice (off + zlen key) val (zsplice off key buf) = zsplice off (key ++ val) buf.
Proof.
  intros Ho Hb. pose proof (zlen_nonneg key). pose proof (zlen_nonneg val).
  apply list_eq. intros j. rewrite lookup_zsplice; [|lia|rewrite zlen_zsplice; lia].
  rewrite lookup_zsplice by lia. rewrite lookup_zsplice; [|lia|rewrite zlen_app; lia].
  rewrite zlen_app. repeat case_decide; try lia; try done; unfold zlen in *.
  - rewrite lookup_app_r by lia. f_equal. lia.
  - rewrite lookup_app_l by lia. done.
Qed.

(** The places of the records that stay, and of the new one. *)
Lemma places_after p p' N s0 n all lv rec u :
  (forall (j : nat) r, all !! j = Some r -> place p ((s0 + Z.of_nat j) mod N) = r) ->
  lv = drop n all -> 0 < N -> zlen lv < N ->
  let s := (s0 + Z.of_nat n) mod N in
  u = (s + zlen lv) mod N ->
  (forall v, 0 <= v -> place p' v = if v =? u then rec else place p v) ->
  forall (j : nat) r, (lv ++ [rec]) !! j = Some r -> place p' ((s + Z.of_nat j) mod N) = r.
Proof.
  intros Hc Hlv HN Hlt s Hu Hplace j r Hj. rewrite Hplace by (apply Z.mod_pos_bound; lia).
  apply lookup_app_Some in Hj as [Hj|[Hlen Hj]].
  - pose proof (lookup_lt_Some _ _ _ Hj) as Hjl. destruct (_ =? u) eqn:E; zbool.
    + exfalso. rewrite Hu in E. assert (E0 : (zlen lv - Z.of_nat j) mod N = 0).
      { replace (zlen lv - Z.of_nat j) with (s + zlen lv - (s + Z.of_nat j)) by lia.
        rewrite Zminus_mod, E, Z.sub_diag. apply Z.mod_0_l. lia. }
      unfold zlen in *. rewrite Z.mod_small in E0; lia.
    + rewrite Hlv, lookup_drop in Hj. rewrite <-(Hc _ _ Hj). f_equal. unfold s.
      rewrite Zplus_mod_idemp_l. f_equal. lia.
  - apply list_lookup_singleton_Some in Hj as [Hj <-].
    assert (Z.of_nat j = zlen lv) as -> by (unfold zlen; lia).
    by rewrite <-Hu, Z.eqb_refl.
Qed.

(** Taking a record: the queue without the recycled groups at its old end,
    and the record behind it. *)
Lemma put_pool_spec p N s0 rs key position id :
  holds p N s0 rs -> unit_len p = zlen key + 8 -> has_room p id rs ->
  exists p' s, Indexes.put_pool p key position id = Ok p' /\
    holds p' N s (append_record id (key ++ le_bytes 8 position) (live rs)) /\
    unit_len p' = unit_len p /\ list_len p' = list_len p /\ capacity p' = capacity p.
Proof.
  intros [Hr Hb Hc] Hu [Hroom Hnew].
  pose proof (rp_N _ _ _ _ Hr) as HN. pose proof (rp_s0 _ _ _ _ Hr) as Hs0.
  pose proof (rp_cap _ _ _ _ Hr) as Hcap. pose proof (rp_unit _ _ _ _ Hr) as Hu0.
  pose proof (rp_capw _ _ _ _ Hr) as Hcw.
  destruct (drop_recycled_live N rs HN s0 Hs0) as (n & Hdrop & Hall).
  destruct (drop_dirty_spec _ p N s0 (Z.to_nat (list_len p)) Hr) as (p1 & Hd & Hr1 & Hl & Hu1 & Hb1).
  { pose proof (rp_groups _ _ _ _ Hr). unfold zlen in *. lia. }
  rewrite Hdrop in Hr1. cbn [fst snd] in Hr1. set (s := (s0 + Z.of_nat n) mod N) in *.
  pose proof (rp_cap _ _ _ _ Hr1) as Hcap1. rewrite Hu1 in Hcap1.
  assert (Hne : live rs <> []).
  { intros E. pose proof (rp_groups _ _ _ _ Hr1) as Hg. rewrite E in Hg. unfold zlen in Hg. simpl in Hg. lia. }
  destruct (reserve_spec p1 N s (to_group <$> live rs) id Hr1) as [_ Hok].
  rewrite total_to_group in Hok. destruct Hok as (p2 & Hres & Hr2).
  { rewrite Hcap in Hroom. nia. }
  { unfold newest. rewrite last_to_group, Hl. destruct Hnew as [Hn|Hn].
    - left. by destruct (last (live rs)) as [r|].
    - right. unfold zlen in *. by rewrite length_fmap. }
  destruct (reserve_frame _ _ _ _ _ Hres) as (Hb2 & Hu2 & Hl2 & Hc2).
  unfold Indexes.put_pool, allocate. rewrite Hd, <-Hu, <-Hu1. cbn [mbind res_bind]. rewrite Hres.
  cbn [mbind res_bind]. set (u := next_unit N s (to_group <$> live rs)) in *.
  assert (Hur : 0 <= u < N) by (by apply Z.mod_pos_bound).
  rewrite Hb2, Hb1, Hu1. pose proof (zlen_nonneg key) as Hk.
  assert (Hfit : (u + 1) * unit_len p <= capacity p) by nia.
  assert (0 <= u * unit_len p) by nia.
  rewrite memcpy_Ok by lia. cbn [mbind res_bind]. rewrite zslice_full by done.
  rewrite memcpy_Ok; [|rewrite ?zlen_zsplice, ?zlen_le_bytes; lia..]. cbn [mbind res_bind].
  rewrite zslice_full by (by rewrite zlen_le_bytes).
  rewrite zsplice_key_value by (rewrite ?zlen_le_bytes; lia).
  set (rec := key ++ le_bytes 8 position). set (buf := zsplice _ _ _).
  exists (with_pool_buffer p2 buf), s. split; [done|]. split; [|cbn; rewrite Hu2, Hl2, Hc2, Hu1, Hl; split; [done|split; [done|lia]]].
  assert (Hrec : zlen rec = unit_len p) by (unfold rec; rewrite zlen_app, zlen_le_bytes; lia).
  split.
  - rewrite <-(add_record_append id rec). apply rep_with_buffer. done.
  - cbn. rewrite Hc2. unfold buf. rewrite zlen_zsplice; lia.
  - intros j r Hj. rewrite all_recs_append in Hj by done.
    assert (Hplace : forall v, 0 <= v -> place (with_pool_buffer p2 buf) v = if v =? u then rec else place p v).
    { intros v Hv. rewrite <-(place_zsplice p v u rec); [|lia..].
      unfold place. cbn. by rewrite Hu2, Hu1. }
    revert Hj. apply (places_after p _ N s0 n (all_recs rs) _ _ u); try done; [nia|].
    unfold u, next_unit. by rewrite total_to_group.
Qed.

(** *** One flow in the pools of an index thread *)

(** The keys of a flow, in the order in which they are stored. *)
Definition flow_keys (meta : FlowMetadata) : list (IndexType * list Z) :=
  (if (zlen (sourceAddress meta) =? 4) && (zlen (destinationAddress meta) =? 4)
   then [(SRCIP, sourceAddress meta); (DSTIP, destinationAddress meta)]
   else if (zlen (sourceAddress meta) =? 16) && (zlen (destinationAddress meta) =? 16)
   then [(SRCIPv6, sourceAddress meta); (DSTIPv6, destinationAddress meta)]
   else []) ++
  [(SRCPORT, le_bytes 2 (sourcePort meta)); (DSTPORT, le_bytes 2 (destinationPort meta))].

Fixpoint put_records (m : Indexes.IndexMemoryPool) (keys : list (IndexType * list Z)) (position id : Z)
  : res Indexes.IndexMemoryPool :=
  match keys with
  | [] => Ok m
  | (t, key) :: keys => m ← Indexes.put_record m t key position id; put_records m keys position id
  end.

Lemma insert_put_records m meta position id :
  Indexes.insert m meta position id =
    (m ← put_records m (flow_keys meta) position id; Ok (true, m)).
Proof.
  unfold Indexes.insert, flow_keys.
  destruct (_ && _); [|destruct (_ && _)]; cbn [app put_records mbind res_bind];
    repeat (match goal with |- context [Indexes.put_record ?a ?b ?c ?d ?e] =>
      destruct (Indexes.put_record a b c d e) as [?| | |]; cbn [put_records mbind res_bind]; [|done..] end);
    done.
Qed.

(** Pool [t] is the queue [R t] and can take a record of block [id]; it has
    taken the record. *)
Definition ready (m : Indexes.IndexMemoryPool) (id : Z) (R : IndexType -> list rgroup)
  (k : IndexType * list Z) : Prop :=
  exists p N s0, zget (Indexes.pool m) (index_type_code k.1) = Ok p /\ holds p N s0 (R k.1) /\
    unit_len p = zlen k.2 + 8 /\ has_room p id (R k.1).
Definition stored (m : Indexes.IndexMemoryPool) (position id : Z) (R : IndexType -> list rgroup)
  (k : IndexType * list Z) : Prop :=
  exists p N s0, zget (Indexes.pool m) (index_type_code k.1) = Ok p /\
    holds p N s0 (append_record id (k.2 ++ le_bytes 8 position) (live (R k.1))).

Lemma put_record_spec m t key position id R : ready m id R (t, key) ->
  exists m', Indexes.put_record m t key position id = Ok m' /\ stored m' position id R (t, key) /\
    (forall i, i <> index_type_code t -> zget (Indexes.pool m') i = zget (Indexes.pool m) i).
Proof.
  intros (p & N & s0 & Hp & Hh & Hu & Hroom). cbn [fst snd] in *.
  destruct (put_pool_spec p N s0 (R t) key position id Hh Hu Hroom) as (p' & s & Hput & Hh' & _).
  pose proof (zget_range _ _ _ Hp) as Hrange.
  unfold Indexes.put_record. rewrite Hp. cbn [mbind res_bind]. rewrite Hput. cbn [mbind res_bind].
  rewrite zset_Ok by done. cbn [mbind res_bind]. eexists. split; [done|]. split.
  - exists p', N, s. cbn [Indexes.pool fst snd]. by rewrite zget_insert_eq by done.
  - intros i Hi. cbn [Indexes.pool]. rewrite zget_insert_ne by lia. done.
Qed.

Lemma put_records_spec keys position id R : NoDup (index_type_code ∘ fst <$> keys) -> forall m,
  Forall (ready m id R) keys ->
  exists m', put_records m keys position id = Ok m' /\ Forall (stored m' position id R) keys /\
    (forall i, i ∉ (index_type_code ∘ fst <$> keys) -> zget (Indexes.pool m') i = zget (Indexes.pool m) i).
Proof.
  induction keys as [|[t key] keys IH]; intros Hnd m Hr; [by exists m|].
  apply NoDup_cons in Hnd as [Hnin Hnd]. apply Forall_cons in Hr as [Hr Hrs].
  destruct (put_record_spec m t key position id R Hr) as (m1 & Hput & Hst & Hfr).
  cbn [put_records]. rewrite Hput. cbn [mbind res_bind].
  destruct (IH Hnd m1) as (m' & -> & Hsts & Hfr').
  { rewrite Forall_forall in Hrs |- *. intros k Hk. unfold ready. rewrite Hfr; [by apply Hrs|].
    intros E. apply Hnin. cbn. rewrite <-E. by apply (list_elem_of_fmap_2 (index_type_code ∘ fst)). }
  exists m'. split; [done|]. split.
  - constructor; [|done]. unfold stored in *. cbn [fst snd] in *. by rewrite Hfr' by done.
  - intros i Hi. apply not_elem_of_cons in Hi as [Hi1 Hi2]. by rewrite Hfr', Hfr by done.
Qed.

Lemma insert_records m meta position id (R : IndexType -> list rgroup) :
  Forall (ready m id R) (flow_keys meta) ->
  exists m', Indexes.insert m meta position id = Ok (true, m') /\
    Forall (stored m' position id R) (flow_keys meta) /\
    (forall i, i ∉ (index_type_code ∘ fst <$> flow_keys meta) ->
      zget (Indexes.pool m') i = zget (Indexes.pool m) i).
Proof.
  intros Hr. destruct (put_records_spec (flow_keys meta) position id R) with (m := m)
    as (m' & Hput & Hst & Hfr); [|done|].
  - unfold flow_keys. repeat case_match; cbn [app fmap list_fmap compose fst index_type_code];
      repeat constructor; set_solver by lia.
  - exists m'. by rewrite insert_put_records, Hput.
Qed.

(** Indexing a flow stores one record — the key's bytes and the
    position — per key of the flow: both addresses, when they are a pair of
    IPv4 or a pair of IPv6 addresses, and both ports.  Each record goes behind
    the records of its pool, into the group of its disk block; the records that
    remain keep their bytes, and the pools of the other index types do not
    change. *)
Theorem insert_appends_records m meta position id (R : IndexType -> list rgroup) :
  Forall (ready m id R) (flow_keys meta) ->
  exists m', Indexes.insert m meta position id = Ok (true, m') /\
    Forall (stored m' position id R) (flow_keys meta) /\
    (forall i, i ∉ (index_type_code ∘ fst <$> flow_keys meta) ->
      zget (Indexes.pool m') i = zget (Indexes.pool m) i).
Proof. apply insert_records. Qed.

(** ** From the pool to the index block buffer *)

Lemma zslice_drop {A} (l : list A) s o n : 0 <= s -> 0 <= o ->
  zslice o n (drop (Z.to_nat s) l) = zslice (s + o) n l.
Proof. intros. unfold zslice. rewrite drop_drop. do 2 f_equal. lia. Qed.

Lemma zslice_0 {A} (l : list A) o : zslice o 0 l = [].
Proof. done. Qed.

(** [n] consecutive places of the circle, as bytes. *)
Lemma places_ring p N u n : 0 < unit_len p -> capacity p = N * unit_len p -> 0 <= u < N ->
  Z.of_nat n <= N ->
  concat ((fun k => place p ((u + Z.of_nat k) mod N)) <$> seq 0 n) =
    IndexProofs.ring_bytes (pool_buffer p) (capacity p) (u * unit_len p) (Z.of_nat n * unit_len p).
Proof.
  intros Hu Hc Hr Hn. unfold IndexProofs.ring_bytes. induction n as [|n IH].
  { cbn. rewrite Z.add_0_r. case_test; zbool; [nia|done]. }
  rewrite seq_S, fmap_app, concat_app, IH by lia. cbn [fmap list_fmap concat]. rewrite app_nil_r, Nat.add_0_l.
  unfold place. rewrite Hc. set (L := unit_len p) in *. set (buf := pool_buffer p).
  assert (Hsucc : Z.of_nat (S n) * L = Z.of_nat n * L + L) by lia. rewrite Hsucc.
  destruct (decide (u + Z.of_nat n < N)) as [Hlt|Hge].
  - rewrite (Z.mod_small (u + Z.of_nat n)) by lia.
    rewrite (proj2 (Z.ltb_ge _ _)) by nia. rewrite (proj2 (Z.ltb_ge _ _)) by nia.
    rewrite (zslice_app _ (Z.of_nat n * L) L) by nia. do 2 f_equal. lia.
  - assert ((u + Z.of_nat n) mod N = u + Z.of_nat n - N) as -> by (rewrite <-(Z.mod_add _ (-1)), Z.mod_small; lia).
    assert (Hw : (N * L <? u * L + (Z.of_nat n * L + L)) = true) by (apply Z.ltb_lt; nia). rewrite Hw.
    case_test; zbool.
    + rewrite <-app_assoc. f_equal.
      replace (u * L + (Z.of_nat n * L + L) - N * L) with ((u + Z.of_nat n - N) * L + L) by lia.
      rewrite (zslice_app 0 ((u + Z.of_nat n - N) * L)) by nia. f_equal; f_equal; lia.
    + assert (u + Z.of_nat n = N) as Heq by nia.
      replace (N * L - u * L) with (Z.of_nat n * L) by nia. f_equal. f_equal; nia.
Qed.

(** The records of a group lie on consecutive places. *)
Lemma group_places p N s0 rs (i : nat) (r : rgroup) : holds p N s0 rs -> rs !! i = Some r ->
  r_recs r = (fun k => place p ((first_unit N s0 (to_group <$> rs) i + Z.of_nat k) mod N))
    <$> seq 0 (length (r_recs r)).
Proof.
  intros [Hr Hb Hc] Hi. apply list_eq. intros k. rewrite list_lookup_fmap.
  destruct (decide (k < length (r_recs r))%nat) as [Hk|Hk].
  2: { rewrite lookup_seq_ge, lookup_ge_None_2 by lia. done. }
  rewrite lookup_seq_lt by done. cbn [fmap option_fmap option_map].
  destruct (lookup_lt_is_Some_2 _ _ Hk) as [x Hx]. rewrite Hx. f_equal.
  assert (Hall : all_recs rs !! (length (all_recs (take i rs)) + k)%nat = Some x).
  { assert (Hsplit : all_recs rs = all_recs (take i rs) ++ r_recs r ++ all_recs (drop (S i) rs)).
    { rewrite <-(take_drop_middle rs i r Hi) at 1. unfold all_recs. by rewrite bind_app. }
    rewrite Hsplit, lookup_app_r by lia. rewrite Nat.add_comm, Nat.add_sub, lookup_app_l by done. done. }
  rewrite <-(Hc _ _ Hall). f_equal. unfold first_unit. rewrite Zplus_mod_idemp_l.
  rewrite <-fmap_take, total_to_group. f_equal. unfold zlen. lia.
Qed.

(** The one or two copies that bring a range of the circular pool into the
    index block buffer. *)
Lemma copy_ring buf cap s len b t disk_pos :
  zlen buf = cap -> cap < 2 ^ 62 -> 0 <= s < cap -> 0 <= len <= cap -> Forall (is_u 8) buf ->
  IndexWrite.wf b -> 0 <= t < zlen (IndexB.disk_write_ids b) ->
  0 <= disk_pos -> disk_pos + len < 2 ^ 62 -> len <= IndexB.buffer_size b ->
  owns_range b disk_pos len ->
  exists b',
    (if u64 (s + len) <? cap then
       '(_, b) ← IndexB.writeBlock b (drop (Z.to_nat s) buf) len disk_pos t; Ok b
     else
       '(_, b) ← IndexB.writeBlock b (drop (Z.to_nat s) buf) (u64 (cap - s)) disk_pos t;
       '(_, b) ← IndexB.writeBlock b buf (u64 (u64 (len + s) - cap)) (u64 (disk_pos + u64 (cap - s))) t;
       Ok b) = Ok b' /\
    same_shape b b' /\ IndexWrite.wf b' /\
    holds_data b b' (IndexProofs.ring_bytes buf cap s len) disk_pos.
Proof.
  intros Hbuf Hcw Hs Hlen Hbytes Hw Ht Hp Hp2 Hfit Ho. unfold IndexProofs.ring_bytes.
  rewrite (u64_small (s + len)) by lia.
  assert (Hdrop : forall n, zslice 0 n (drop (Z.to_nat s) buf) = zslice s n buf).
  { intros. rewrite zslice_drop by lia. f_equal. lia. }
  assert (Hdl : zlen (drop (Z.to_nat s) buf) = cap - s)
    by (unfold zlen in *; rewrite length_drop; lia).
  assert (Hdb : Forall (is_u 8) (drop (Z.to_nat s) buf)) by (by apply Forall_drop).
  destruct (s + len <? cap) eqn:E; zbool.
  - rewrite (proj2 (Z.ltb_ge _ _)) by lia.
    destruct (index_writeBlock_spec b (drop (Z.to_nat s) buf) len disk_pos t Hw)
      as (b' & -> & Hsh & Hw' & Hd); [split; lia || done|].
    rewrite (owns_range_accepted b disk_pos len) in * by (done || lia). cbn [mbind res_bind].
    exists b'. rewrite Hdrop in Hd. done.
  - rewrite (u64_small (cap - s)), (u64_small (len + s)) by lia.
    rewrite (u64_small (len + s - cap)), (u64_small (disk_pos + _)) by lia.
    destruct (index_writeBlock_spec b (drop (Z.to_nat s) buf) (cap - s) disk_pos t Hw)
      as (b1 & -> & Hsh1 & Hw1 & Hd1); [split; lia || done|].
    rewrite (owns_range_accepted b disk_pos (cap - s)) in *
      by first [done|lia|by eapply owns_range_sub; [done|lia..]]. cbn [mbind res_bind].
    assert (Ho1 : owns_range b1 (disk_pos + (cap - s)) (len + s - cap)).
    { eapply owns_range_shape; [done|]. by eapply owns_range_sub; [done|lia..]. }
    destruct (index_writeBlock_spec b1 buf (len + s - cap)
      (disk_pos + (cap - s)) t Hw1) as (b2 & -> & Hsh2 & Hw2 & Hd2).
    { pose proof (ss_bufsize _ _ Hsh1). pose proof (ss_threads _ _ Hsh1). split; lia || done. }
    rewrite (owns_range_accepted b1) in Hd2 by (done || lia). cbn [mbind res_bind].
    exists b2. split; [done|]. split; [by eapply same_shape_trans|]. split; [done|].
    rewrite Hdrop in Hd1. assert (Hz1 : zlen (zslice s (cap - s) buf) = cap - s)
      by (apply zlen_zslice; lia).
    assert (Hz2 : zlen (zslice 0 (len + s - cap) buf) = len + s - cap)
      by (apply zlen_zslice; lia).
    assert (Hjoin : holds_data b b2 (zslice s (cap - s) buf ++
      zslice 0 (len + s - cap) buf) disk_pos).
    { eapply holds_data_app; try done; [lia|by rewrite Hz1]. }
    case_test; zbool.
    + by replace (s + len - cap) with (len + s - cap) by lia.
    + assert (len = cap - s) as Hl by lia. rewrite Hl in Hjoin |- *.
      replace (cap - s + s - cap) with 0 in Hjoin by lia.
      by rewrite zslice_0, app_nil_r in Hjoin.
Qed.

Lemma copies_group p N s0 rs id i r b t disk_pos :
  holds p N s0 rs -> index_of id (to_group <$> rs) = Some i -> rs !! i = Some r ->
  Forall (is_u 8) (pool_buffer p) -> IndexWrite.wf b -> 0 <= t < zlen (IndexB.disk_write_ids b) ->
  let len := zlen (r_recs r) * unit_len p in
  0 <= disk_pos -> disk_pos + len < 2 ^ 62 -> len <= IndexB.buffer_size b ->
  owns_range b disk_pos len ->
  exists b', writeToBuffer p b id len t disk_pos = Ok b' /\ same_shape b b' /\ IndexWrite.wf b' /\
    holds_data b b' (concat (r_recs r)) disk_pos.
Proof.
  intros Hh Hi Hr Hbytes Hw Ht len Hp Hp2 Hfit Ho. pose proof Hh as [Hrep Hbuf _]. pose proof Hrep as [].
  assert (Hgi : (to_group <$> rs) !! i = Some (to_group r)) by (by rewrite list_lookup_fmap, Hr).
  unfold writeToBuffer. rewrite (find_spec _ _ _ _ id Hrep), Hi.
  cbn [mbind res_bind fmap option_fmap option_map]. rewrite (rp_nodes0 i _ Hgi).
  cbn [mbind res_bind start_offset].
  pose proof (first_unit_range N s0 (to_group <$> rs) i rp_N0) as Hu.
  pose proof (group_places p N s0 rs i r Hh Hr) as Hpl.
  set (u := first_unit N s0 (to_group <$> rs) i) in *.
  pose proof (group_split _ _ _ Hgi) as Htot. pose proof (total_take _ i rp_pos_n0).
  pose proof (total_nonneg _ (Forall_drop _ (S i) _ rp_pos_n0)).
  change (g_n (to_group r)) with (zlen (r_recs r)) in Htot.
  assert (Hlen : 0 <= len <= capacity p) by (unfold len; pose proof (zlen_nonneg (r_recs r)); nia).
  assert (Hdata : concat (r_recs r) = IndexProofs.ring_bytes (pool_buffer p) (capacity p) (u * unit_len p) len).
  { rewrite Hpl, places_ring; try done. unfold zlen in *. lia. }
  rewrite Hdata.
  assert (0 <= u * unit_len p < capacity p) by nia.
  apply copy_ring; try done; lia.
Qed.

(** [writeToBuffer] copies the records of a disk block.  With the length
    that [getLenOfDiskID] reports, and as long as the index block buffer's
    blocks belong to the positions written, the bytes of all records of the
    block's group arrive in order at [disk_pos], in one or two pieces
    depending on where the group lies in the pool, and nothing else of the
    index block buffer changes. *)
Theorem writeToBuffer_copies_group p N s0 rs id i r b t disk_pos :
  holds p N s0 rs -> index_of id (to_group <$> rs) = Some i -> rs !! i = Some r ->
  Forall (is_u 8) (pool_buffer p) -> IndexWrite.wf b -> 0 <= t < zlen (IndexB.disk_write_ids b) ->
  let len := zlen (r_recs r) * unit_len p in
  0 <= disk_pos -> disk_pos + len < 2 ^ 62 -> len <= IndexB.buffer_size b ->
  owns_range b disk_pos len ->
  exists b', writeToBuffer p b id len t disk_pos = Ok b' /\ same_shape b b' /\ IndexWrite.wf b' /\
    holds_data b b' (concat (r_recs r)) disk_pos.
Proof. apply copies_group. Qed.

(** ** Witnesses *)

(** A pool of two places with one record of block 7, and six of them. *)
Definition demo_pool (unit : Z) : MemoryPool :=
  mkPool (2 * unit) 3 unit (replicate (Z.to_nat (2 * unit)) 5) unit
    [mkNode 7 0 false; mkNode 0 0 false; mkNode 0 0 false] 1 0.
Definition demo_recs (unit : Z) : list rgroup := [mkRG 7 [replicate (Z.to_nat unit) 5] false].
Definition demo_index_pool : Indexes.IndexMemoryPool :=
  Indexes.mkIMP 184 3 (demo_pool <$> [12; 12; 10; 10; 24; 24]).
Definition demo_groups (t : IndexType) : list rgroup := demo_recs (Indexes.unit_of (index_type_code t)).
Definition demo_meta : FlowMetadata := mkMeta [10; 0; 0; 1] [10; 0; 0; 2] 80 8080.

Lemma demo_holds unit : 0 < unit < 100 -> holds (demo_pool unit) 2 0 (demo_recs unit).
Proof.
  intros Hu. split.
  - split; cbn [unit_len capacity demo_pool list_len list_head list_tail allocated_list]; try done; try lia.
    + by repeat constructor.
    + intros [|i] g Hg; [|done]. by injection Hg as <-.
    + change ((0 + total (to_group <$> demo_recs unit) - 1) mod 2 + 1) with 1. cbn. lia.
  - cbn [pool_buffer demo_pool capacity]. rewrite zlen_replicate. lia.
  - intros [|j] r Hj; [|done]. injection Hj as <-. unfold place. cbn [unit_len demo_pool pool_buffer].
    change ((0 + Z.of_nat 0) mod 2) with 0. unfold zslice.
    rewrite Z.mul_0_l, drop_0, take_replicate. f_equal. lia.
Qed.

Lemma demo_ready t key : t <> TOTAL_INDEX -> zlen key + 8 = Indexes.unit_of (index_type_code t) ->
  ready demo_index_pool 8 demo_groups (t, key).
Proof.
  intros Ht Hk. set (u := Indexes.unit_of (index_type_code t)) in *.
  assert (Hu : 0 < u < 100) by (unfold u; destruct t; vm_compute; done).
  exists (demo_pool u), 2, 0. cbn [fst snd]. split; [by destruct t|].
  split; [by apply demo_holds|]. split; [cbn; lia|]. split; [|right; cbn; done].
  cbn [unit_len capacity demo_pool]. change (zlen (all_recs (live (demo_groups t)))) with 1. lia.
Qed.

Lemma demo_all_ready : Forall (ready demo_index_pool 8 demo_groups) (flow_keys demo_meta).
Proof. repeat (constructor; [by apply demo_ready|]). constructor. Qed.

Lemma not_elem_of_demo i : bool_decide (i ∈ (index_type_code ∘ fst <$> flow_keys demo_meta)) = false ->
  i ∉ (index_type_code ∘ fst <$> flow_keys demo_meta).
Proof. apply bool_decide_eq_false_1. Qed.

Lemma insert_appends_records_witness :
  exists m, Indexes.insert demo_index_pool demo_meta 99 8 = Ok (true, m) /\
    zget (Indexes.pool m) 4 = zget (Indexes.pool demo_index_pool) 4.
Proof.
  destruct (insert_appends_records demo_index_pool demo_meta 99 8 demo_groups demo_all_ready)
    as (m & E & _ & Hother).
  exists m. split; [exact E|]. apply Hother. apply (not_elem_of_demo 4). vm_compute. done.
Defined.

Definition demo_ibb : IndexB.IndexBlockBuffer :=
  IndexB.mkIBB 2 128 256 100 1 (replicate 384 0) [0; 1] [0] [0].
Lemma demo_ibb_wf : IndexWrite.wf demo_ibb.
Proof. split; try done. cbn. repeat constructor; done. Qed.
Lemma demo_owns len : 0 <= len < 256 -> owns_range demo_ibb 0 len.
Proof.
  intros Hl j Hj. unfold owns. cbn [IndexB.block_size IndexB.total_block_num IndexB.disk_block_num
    IndexB.block_disk_id demo_ibb]. rewrite Z.add_0_l.
  assert (j / 128 = 0 \/ j / 128 = 1) as [-> | ->]; [|done..].
  pose proof (Z.div_le_mono j 255 128 ltac:(lia) ltac:(lia)) as H1. change (255 / 128) with 1 in H1.
  pose proof (Z.div_pos j 128 ltac:(lia) ltac:(lia)). lia.
Qed.

Lemma writeToBuffer_copies_group_witness :
  exists b, writeToBuffer (demo_pool 12) demo_ibb 7 12 0 0 = Ok b /\ byte b 3 = 5.
Proof.
  destruct (writeToBuffer_copies_group (demo_pool 12) 2 0 (demo_recs 12) 7 0%nat
    (mkRG 7 [replicate 12 5] false) demo_ibb 0 0) as (b & E & _ & _ & Hd).
  - by apply demo_holds.
  - reflexivity.
  - reflexivity.
  - cbn. repeat constructor; done.
  - exact demo_ibb_wf.
  - vm_compute. split; [discriminate|reflexivity].
  - lia.
  - vm_compute. reflexivity.
  - vm_compute. discriminate.
  - apply demo_owns. vm_compute. split; [discriminate|reflexivity].
  - exists b. split; [exact E|]. exact (proj1 Hd 3 ltac:(vm_compute; split; [discriminate|reflexivity])).
Defined.
