(* ===== verification/IndexBuffer.v ===== *)
(** * The index buffer (dpdk_lib/indexBufferWithPool.hpp)

    For each disk block that is being indexed the buffer keeps a Bloom filter
    and a count of indexed flows; the records themselves go to the memory pools.
    The bit matrix behind the filters and the vector of memory pools belong
    to the controller and are shared with other objects: they are passed in
    and returned. *)
From S2P Require Import Prelude Util BitMap PrefixBloom BlockBuffer MemoryPool PoolRecords.
From Stdlib Require Import ZArith Lia.

Record IndexBufferMeta := mkIBMeta {
  bloomFilterMeta : PrefixBloomFilter;
  disk_block_id : Z;
  index_count : Z }.

Record IndexBuffer := mkIB {
  total_block_num : Z;
  disk_block_num : Z;
  metas : list IndexBufferMeta;
  index_check_ids : list Z }.

(** The shared objects. *)
Record Store := mkStore { bitmap : BitMap; memory_pools : list Indexes.IndexMemoryPool }.

(** [IndexBufferMeta::init] on the zeroed memory of the mapping. *)
Definition init_meta (b : BitMap) (k id : Z) : IndexBufferMeta :=
  mkIBMeta (setWritingCol (init new_PBF k) b id) id 0.

Definition new_IndexBuffer (mmap_ok : bool) (b : BitMap) (total disk k : Z) : res IndexBuffer :=
  if total =? 0 then Undef
  else if negb (disk mod total =? 0) then Throws
  else if negb mmap_ok then Throws
  else Ok (mkIB total disk (init_meta b k <$> zseq total) []).

Definition addCheckThread (ib : IndexBuffer) : Z * IndexBuffer :=
  let id := zlen (index_check_ids ib) in
  if total_block_num ib <=? id then (MAX64, ib)
  else (id, mkIB (total_block_num ib) (disk_block_num ib) (metas ib) (index_check_ids ib ++ [id])).

Section insertion.
Context (hash_str : list Z -> Z) (hash_u64 : Z -> Z).

(** The keys of a flow go into the filter one after the other, up to the
    first that is refused. *)
Definition insert_addresses (f : PrefixBloomFilter) (b : BitMap) (m : FlowMetadata)
  : res (bool * BitMap) :=
  let src := sourceAddress m in
  let dst := destinationAddress m in
  if (zlen src =? 4) && (zlen dst =? 4) then
    '(ok, b) ← insertIPv4 hash_str hash_u64 f b (le_val src) SRCIP;
    if negb ok then Ok (false, b) else insertIPv4 hash_str hash_u64 f b (le_val dst) DSTIP
  else if (zlen src =? 16) && (zlen dst =? 16) then
    '(ok, b) ← insertIPv6 hash_str hash_u64 f b (key_dec (KeyBytes := key16) src) SRCIPv6;
    if negb ok then Ok (false, b)
    else insertIPv6 hash_str hash_u64 f b (key_dec (KeyBytes := key16) dst) DSTIPv6
  else Ok (true, b).

Definition insert_filter (f : PrefixBloomFilter) (b : BitMap) (m : FlowMetadata)
  : res (bool * BitMap) :=
  '(ok, b) ← insert_addresses f b m;
  if negb ok then Ok (false, b) else
  '(ok, b) ← insertPort f b (sourcePort m) SRCPORT;
  if negb ok then Ok (false, b) else insertPort f b (destinationPort m) DSTPORT.

Definition insert (ib : IndexBuffer) (st : Store) (meta : FlowMetadata) (position id rx_id : Z)
  : res (bool * IndexBuffer * Store) :=
  if total_block_num ib =? 0 then Undef else
  let meta_id := id mod total_block_num ib in
  m ← zget (metas ib) meta_id;
  if negb (disk_block_id m =? id) then Ok (false, ib, st) else
  '(ok, b) ← insert_filter (bloomFilterMeta m) (bitmap st) meta;
  let st := mkStore b (memory_pools st) in
  if negb ok then Ok (false, ib, st) else
  pool ← zget (memory_pools st) rx_id;
  '(ok, pool) ← Indexes.insert pool meta position id;
  pools ← zset (memory_pools st) rx_id pool;
  let st := mkStore b pools in
  if negb ok then Ok (false, ib, st) else
  l ← zset (metas ib) meta_id
        (mkIBMeta (bloomFilterMeta m) (disk_block_id m) (u64 (index_count m + 1)));
  Ok (true, mkIB (total_block_num ib) (disk_block_num ib) l (index_check_ids ib), st).
End insertion.

(** The slot a checking thread watches; out of range gives [None]. *)
Definition check_slot (ib : IndexBuffer) (thread_id : Z) : res (option Z) :=
  if zlen (index_check_ids ib) <=? thread_id then Ok None
  else i ← zget (index_check_ids ib) thread_id; Ok (Some i).

Definition checkIndexCount (ib : IndexBuffer) (thread_id : Z) : res Z :=
  o ← check_slot ib thread_id;
  match o with Some i => m ← zget (metas ib) i; Ok (index_count m) | None => Ok MAX64 end.

Definition getCheckDishID (ib : IndexBuffer) (thread_id : Z) : res Z :=
  o ← check_slot ib thread_id;
  match o with Some i => m ← zget (metas ib) i; Ok (disk_block_id m) | None => Ok MAX64 end.

(** A pointer to a meta is its slot; [None] is [nullptr]. *)
Definition getIndexBufferMeta (ib : IndexBuffer) (thread_id : Z) : res (option Z) :=
  check_slot ib thread_id.

Fixpoint recycle_pools (pools : list Indexes.IndexMemoryPool) (id : Z)
  : res (list Indexes.IndexMemoryPool) :=
  match pools with
  | [] => Ok []
  | p :: pools => p ← Indexes.recycle p id; l ← recycle_pools pools id; Ok (p :: l)
  end.

Definition updateIndexBufferMeta (ib : IndexBuffer) (st : Store) (thread_id bitmap_col : Z)
  : res (IndexBuffer * Store) :=
  o ← check_slot ib thread_id;
  match o with
  | None => Ok (ib, st)
  | Some i =>
      m ← zget (metas ib) i;
      let f := setWritingCol (bloomFilterMeta m) (bitmap st) bitmap_col in
      pools ← recycle_pools (memory_pools st) (disk_block_id m);
      if (disk_block_num ib =? 0) || (total_block_num ib =? 0) then Undef else
      l ← zset (metas ib) i
            (mkIBMeta f (u64 (disk_block_id m + total_block_num ib) mod disk_block_num ib) 0);
      ids ← zset (index_check_ids ib) thread_id
              (u64 (i + zlen (index_check_ids ib)) mod total_block_num ib);
      Ok (mkIB (total_block_num ib) (disk_block_num ib) l ids, mkStore (bitmap st) pools)
  end.

(** ** Indexing a flow *)
Section proofs.
Context (hash_str : list Z -> Z) (hash_u64 : Z -> Z).
Abbreviation insert_key := (insert_key hash_str hash_u64).
Abbreviation query_key := (query_key hash_str hash_u64).
Abbreviation key_in := (key_in hash_str hash_u64).

(** The filter keys of a flow, in the order in which they are inserted. *)
Definition flow_fkeys (m : FlowMetadata) : list fkey :=
  (if (zlen (sourceAddress m) =? 4) && (zlen (destinationAddress m) =? 4)
   then [KIPv4 (le_val (sourceAddress m)) SRCIP; KIPv4 (le_val (destinationAddress m)) DSTIP]
   else if (zlen (sourceAddress m) =? 16) && (zlen (destinationAddress m) =? 16)
   then [KIPv6 (key_dec (KeyBytes := key16) (sourceAddress m)) SRCIPv6;
         KIPv6 (key_dec (KeyBytes := key16) (destinationAddress m)) DSTIPv6]
   else []) ++
  [KPort (sourcePort m) SRCPORT; KPort (destinationPort m) DSTPORT].

(** A flow as the reader produces it. *)
Record flow_wf (m : FlowMetadata) : Prop := {
  fw_src : Forall (is_u 8) (sourceAddress m);
  fw_dst : Forall (is_u 8) (destinationAddress m);
  fw_sport : is_u 16 (sourcePort m);
  fw_dport : is_u 16 (destinationPort m) }.

Fixpoint insert_keys (f : PrefixBloomFilter) (b : BitMap) (keys : list fkey) : res (bool * BitMap) :=
  match keys with
  | [] => Ok (true, b)
  | key :: keys => '(ok, b) ← insert_key f b key; if negb ok then Ok (false, b) else insert_keys f b keys
  end.

Lemma insert_filter_keys f b m :
  insert_filter hash_str hash_u64 f b m = insert_keys f b (flow_fkeys m).
Proof.
  unfold insert_filter, insert_addresses, flow_fkeys.
  destruct (_ && _); [|destruct (_ && _)]; cbn [app insert_keys PrefixBloom.insert_key mbind res_bind negb];
    repeat (match goal with
    | |- context [mbind _ (insertIPv4 ?a ?b ?c ?d ?e ?t)] =>
        destruct (insertIPv4 a b c d e t) as [[[] ?]| | |]; cbn [mbind res_bind negb]; [|done..]
    | |- context [mbind _ (insertIPv6 ?a ?b ?c ?d ?e ?t)] =>
        destruct (insertIPv6 a b c d e t) as [[[] ?]| | |]; cbn [mbind res_bind negb]; [|done..]
    | |- context [mbind _ (insertPort ?c ?d ?e ?t)] =>
        destruct (insertPort c d e t) as [[[] ?]| | |]; cbn [mbind res_bind negb]; [|done..]
    end); done.
Qed.

Lemma flow_fkeys_wf m : flow_wf m -> Forall (fun key => fkey_wf key /\ key_type_ok key = true) (flow_fkeys m).
Proof.
  intros [Hs Hd Hsp Hdp]. unfold flow_fkeys. apply Forall_app. split.
  - case_test; [|case_test; [|done]]; zbool; rewrite !Forall_cons, Forall_nil; cbn [fkey_wf];
      split_and!; try done; try (by apply (le_val_word 4));
      by apply (key_dec_ok (KeyBytesLaws := key16_laws)).
  - rewrite !Forall_cons, Forall_nil. by split_and!.
Qed.

Lemma insert_keys_spec f b0 keys :
  has_bitmap f = true -> 0 <= writing_col f < col_count b0 -> ROWS_NEEDED <= row_count b0 ->
  row_count b0 < 2 ^ 64 -> Forall (fun key => fkey_wf key /\ key_type_ok key = true) keys ->
  forall b, wf b -> same_dims b b0 ->
  exists b', insert_keys f b keys = Ok (true, b') /\ grows b b' /\ same_dims b' b0 /\
    Forall (fun key => key_in f b' key (writing_col f)) keys.
Proof.
  intros Hh Hc Hr Hm Hk. induction Hk as [|key keys [Hkw Hkt] _ IH]; intros b Hb Hd.
  { exists b. split; [done|]. split; [by apply grows_refl|]. done. }
  pose proof Hd as (Hd1 & Hd2 & _).
  destruct (insert_key_succeeds hash_str hash_u64 f b key Hb Hkw Hh Hkt) as (b1 & E & Hw1 & Hd3);
    [congruence..|].
  destruct (insert_key_inserts hash_str hash_u64 f b key Hb ltac:(lia) Hkw) as (v & b1' & E' & Hg & HQ).
  rewrite E in E'. injection E' as <- <-. destruct (HQ eq_refl) as (_ & _ & Hi).
  destruct (IH b1 Hw1) as (b2 & E2 & Hg2 & Hd4 & Hall); [by eapply same_dims_trans|].
  cbn [insert_keys]. rewrite E. cbn [mbind res_bind negb]. exists b2.
  split; [done|]. split; [by eapply grows_trans|]. split; [done|].
  constructor; [by eapply key_in_grows|done].
Qed.


(** The filter of a slot can take any key. *)
Record filter_ok (f : PrefixBloomFilter) (b : BitMap) : Prop := {
  fo_wf : wf b;
  fo_bitmap : has_bitmap f = true;
  fo_col : 0 <= writing_col f < col_count b;
  fo_rows : ROWS_NEEDED <= row_count b < 2 ^ 64 }.

(** C12: Indexing a flow whose disk block the buffer is working on succeeds:
    the block's count goes up by one, the pools of the receiving thread hold
    one more record per key, and the block's Bloom filter, read through its
    column, answers yes for every key of the flow.  A flow of a disk block that
    the slot does not hold is refused without any effect. *)
Theorem insert_indexes_flow ib st meta position id rx_id m pool (R : IndexType -> list rgroup) :
  0 < total_block_num ib -> zget (metas ib) (id mod total_block_num ib) = Ok m ->
  filter_ok (bloomFilterMeta m) (bitmap st) -> flow_wf meta ->
  zget (memory_pools st) rx_id = Ok pool -> Forall (ready pool id R) (flow_keys meta) ->
  if disk_block_id m =? id then
    exists ib' st' pool',
      insert hash_str hash_u64 ib st meta position id rx_id = Ok (true, ib', st') /\
      zget (metas ib') (id mod total_block_num ib) =
        Ok (mkIBMeta (bloomFilterMeta m) id (u64 (index_count m + 1))) /\
      zget (memory_pools st') rx_id = Ok pool' /\
      Forall (stored pool' position id R) (flow_keys meta) /\
      Forall (fun key => forall f', has_bitmap f' = true -> k f' = k (bloomFilterMeta m) ->
        reading_col f' = writing_col (bloomFilterMeta m) -> query_key f' (bitmap st') key = Ok true)
        (flow_fkeys meta)
  else insert hash_str hash_u64 ib st meta position id rx_id = Ok (false, ib, st).
Proof.
  intros Ht Hm [Hb Hh Hc Hr] Hf Hp Hready. unfold insert.
  rewrite (proj2 (Z.eqb_neq _ 0)), Hm by lia. cbn [mbind res_bind].
  destruct (disk_block_id m =? id) eqn:Eid; cbn [negb]; [|done]. zbool.
  pose proof (flow_fkeys_wf meta Hf) as Hkeys.
  destruct (insert_keys_spec (bloomFilterMeta m) (bitmap st) (flow_fkeys meta) Hh Hc) with (b := bitmap st)
    as (b' & Hins & Hg & _ & Hin); [lia|lia|done|done|by split_and!|].
  rewrite insert_filter_keys, Hins. cbn [mbind res_bind negb memory_pools].
  rewrite Hp. cbn [mbind res_bind].
  destruct (insert_records pool meta position id R Hready) as (pool' & Hput & Hst & _).
  rewrite Hput. cbn [mbind res_bind]. rewrite zset_Ok by (by eapply zget_range). cbn [mbind res_bind negb].
  rewrite zset_Ok by (by eapply zget_range). cbn [mbind res_bind].
  eexists _, _, pool'. split; [done|]. cbn [metas memory_pools bitmap].
  rewrite Eid, !zget_insert_eq by (by eapply zget_range). split_and!; try done.
  rewrite Forall_forall in Hkeys, Hin |- *. intros key Hkey f' Hh' Hk' Hcol.
  destruct (Hkeys key Hkey). apply (key_in_query hash_str hash_u64 (bloomFilterMeta m));
    [apply Hg|done|lia|done|by apply Hin|done..].
Qed.
End proofs.

(** ** Witness *)
Definition demo_buffer : IndexBuffer :=
  mkIB 2 100 [mkIBMeta demo_filter 8 4; mkIBMeta demo_filter 7 0] [].
Definition demo_store : Store := mkStore demo_bitmap [demo_index_pool].

Lemma insert_indexes_flow_witness : exists ib st,
  insert demo_hash (fun x => x) demo_buffer demo_store demo_meta 99 8 0 = Ok (true, ib, st) /\
  zget (metas ib) 0 = Ok (mkIBMeta demo_filter 8 5).
Proof.
  destruct (insert_indexes_flow demo_hash (fun x => x) demo_buffer demo_store demo_meta 99 8 0
    (mkIBMeta demo_filter 8 4) demo_index_pool demo_groups) as (ib & st & pool & E & Hm & _).
  - vm_compute. reflexivity.
  - reflexivity.
  - split; [exact demo_bitmap_wf|reflexivity|vm_compute; split; [discriminate|reflexivity]|
      vm_compute; split; [discriminate|reflexivity]].
  - split; vm_compute; repeat constructor; discriminate.
  - reflexivity.
  - exact demo_all_ready.
  - exists ib, st. split; [exact E|]. exact Hm.
Defined.
