(* ===== verification/Reader.v ===== *)
(** * The packet reader (dpdk_component/dpdkReader.cpp)

    One reader thread per receive queue.  For each packet of a burst it fixes
    the packet's disk position inside its current cell, parses the flow
    metadata, links the packet to the previous one of its flow, copies header
    and payload into the shared data block buffer, and either patches the
    previous packet's header or sends an index entry through the ring to its
    index thread.  A cell ends with an 8-byte pointer to the cell where the
    stream continues.  The state is the reader object, the block buffer, the
    shared cell counter, the ring and the heap of index entries; the packets,
    time stamps and the stop flag come from outside. *)
From S2P Require Import Prelude Util Aggregator RingBuffer BlockBuffer.
From Stdlib Require Import ZArith Lia.
Import Data.

(** ** Byte order *)

(** [htonl] and [htons] on a little-endian machine. *)
Definition htonl (z : Z) : Z := le_val (rev (le_bytes 4 z)).
Definition htons (z : Z) : Z := le_val (rev (le_bytes 2 z)).

Definition swap_endianness (value : Z) : Z :=
  Z.lor (Z.land (Z.shiftr value 56) 0x00000000000000FF)
 (Z.lor (Z.land (Z.shiftr value 40) 0x000000000000FF00)
 (Z.lor (Z.land (Z.shiftr value 24) 0x00000000FF000000)
 (Z.lor (Z.land (Z.shiftr value 8) 0x00FF000000000000)
 (Z.lor (Z.land (u64 (Z.shiftl value 8)) 0xFF00000000000000)
 (Z.lor (Z.land (u64 (Z.shiftl value 24)) 0x0000FF0000000000)
 (Z.lor (Z.land (u64 (Z.shiftl value 40)) 0x000000FF00000000)
        (Z.land (u64 (Z.shiftl value 56)) 0x00000000000000FF))))))).

(** ** Packet metadata *)
Record array_list_header := mkHeader {
  ts_h : Z; ts_l : Z; caplen : Z; flow_next_diff : Z }.

Definition PCAP_HEADER_LEN : Z := 16.
Definition IPV6_HEADER_LEN : Z := 40.

(** The header's bytes in memory. *)
Definition header_bytes (h : array_list_header) : list Z :=
  le_bytes 4 (ts_h h) ++ le_bytes 4 (ts_l h) ++ le_bytes 4 (caplen h)
  ++ le_bytes 4 (flow_next_diff h).

Record PacketMeta := mkPacketMeta {
  header : array_list_header;
  data : list Z;
  len : Z }.

Record DPDKReader := mkReader {
  eth_header_len : Z;
  disk_size : Z;
  block_size : Z;
  cell_size : Z;
  cell_num : Z;
  port_id : Z;
  rx_id : Z;
  packetAggregator : PacketAggregator;
  writeCell : Z;
  writeOffset : Z;
  byteLen : Z;
  thread_id : Z }.

(** The reader and what it shares with other threads. *)
Record RState := mkRState {
  reader : DPDKReader;
  block_buffer : DataBlockBuffer;
  diskWriteCell : Z;
  indexRing : Spsc.PointerRingBuffer;
  index_heap : gmap Z Index;
  next_ptr : Z }.

Definition with_reader (s : RState) (r : DPDKReader) : RState :=
  mkRState r (block_buffer s) (diskWriteCell s) (indexRing s) (index_heap s) (next_ptr s).
Definition with_block_buffer (s : RState) (b : DataBlockBuffer) : RState :=
  mkRState (reader s) b (diskWriteCell s) (indexRing s) (index_heap s) (next_ptr s).
Definition with_cell (r : DPDKReader) (cell offset : Z) : DPDKReader :=
  mkReader (eth_header_len r) (disk_size r) (block_size r) (cell_size r) (cell_num r)
    (port_id r) (rx_id r) (packetAggregator r) cell offset (byteLen r) (thread_id r).
Definition with_agg (r : DPDKReader) (a : PacketAggregator) : DPDKReader :=
  mkReader (eth_header_len r) (disk_size r) (block_size r) (cell_size r) (cell_num r)
    (port_id r) (rx_id r) a (writeCell r) (writeOffset r) (byteLen r) (thread_id r).
Definition with_byteLen (r : DPDKReader) (n : Z) : DPDKReader :=
  mkReader (eth_header_len r) (disk_size r) (block_size r) (cell_size r) (cell_num r)
    (port_id r) (rx_id r) (packetAggregator r) (writeCell r) (writeOffset r) n (thread_id r).

(** The constructor; registers a writer thread of the block buffer and resets
    the shared cell counter. *)
Definition new_DPDKReader (eth disk bs cell port rx capacity : Z) (b : DataBlockBuffer)
  : res (DPDKReader * DataBlockBuffer * Z) :=
  if cell =? 0 then Undef else
  if bs =? 0 then Undef else
  let cells := disk / cell in
  if negb (Z.land cells (u64 (cells - 1)) =? 0) then Throws
  else if negb (bs mod cell =? 0) then Throws
  else
    let '(id, b) := addWriteThread b in
    Ok (mkReader eth disk bs cell cells port rx (new_PacketAggregator capacity MAX64)
          MAX64 0 0 id, b, 0).

(** ** The steps of the packet loop *)

(** [readPacket]: [pkt] are the bytes of the mbuf. *)
Definition readPacket (r : DPDKReader) (pkt : list Z) (ts : Z) : PacketMeta :=
  let cap := u32 (zlen pkt - eth_header_len r) in
  {| header := {| ts_h := u32 (Z.shiftr ts 32); ts_l := Z.land ts 0xFFFFFFFF;
                  caplen := cap; flow_next_diff := MAX32 |};
     data := pkt; len := cap |}.

(** [getOffset]: the packet's disk position; advances the write offset, by 8
    more when the cell's tail pointer would not fit any more. *)
Definition getOffset (r : DPDKReader) (m : PacketMeta) : res (Z * DPDKReader) :=
  if disk_size r =? 0 then Undef else
  let total_len := u64 (PCAP_HEADER_LEN + len m) in
  let off := u64 (writeOffset r + u64 (writeCell r * cell_size r)) in
  let wo := u64 (writeOffset r + total_len) in
  let wo := if cell_size r <? u64 (wo + 8) then u64 (wo + 8) else wo in
  Ok (off mod disk_size r, with_cell r (writeCell r) wo).

(** One [while (!writeBlock(...))] loop: it exits in this state or spins. *)
Definition write_spin (s : RState) (src : list Z) (n pos : Z) (new_index : bool) (ts : Z)
  : res RState :=
  '(ok, b) ← writeBlock (block_buffer s) src n pos (thread_id (reader s)) true new_index ts;
  if ok : bool then Ok (with_block_buffer s b) else Blocks.

(** A pointer into the packet: [meta.data + eth_header_len]. *)
Definition payload_ptr (r : DPDKReader) (m : PacketMeta) : res (list Z) :=
  if (eth_header_len r <? 0) || (zlen (data m) <? eth_header_len r) then Undef
  else Ok (drop (Z.to_nat (eth_header_len r)) (data m)).

Definition writePacketToPacketBuffer (s : RState) (m : PacketMeta) (ts off : Z)
  (new_index : bool) : res RState :=
  let r := reader s in
  let hdr := header_bytes (header m) in
  payload ← payload_ptr r m;
  if cell_size r <? writeOffset r then
    if (cell_num r =? 0) || (cell_size r =? 0) then Undef else
    let cell := diskWriteCell s mod cell_num r in
    let r := with_cell r cell (writeOffset r mod cell_size r) in
    let s := mkRState r (block_buffer s) (u64 (diskWriteCell s + 1)) (indexRing s)
               (index_heap s) (next_ptr s) in
    let basic_offset := off mod cell_size r in
    let tmp_len := u64 (u64 (cell_size r - basic_offset) - 8) in
    let new_offset := u64 (cell * cell_size r) in
    let next_pos := le_bytes 8 cell in
    if tmp_len <? PCAP_HEADER_LEN then
      s ← (if negb (tmp_len =? 0) then write_spin s hdr tmp_len off new_index ts else Ok s);
      s ← write_spin s next_pos 8 (u64 (off + tmp_len)) false ts;
      s ← (if tmp_len =? 0
           then write_spin s hdr PCAP_HEADER_LEN new_offset new_index ts
           else write_spin s (drop (Z.to_nat tmp_len) hdr) (PCAP_HEADER_LEN - tmp_len)
                  new_offset false ts);
      write_spin s payload (len m) (u64 (new_offset + PCAP_HEADER_LEN - tmp_len)) false ts
    else
      s ← write_spin s hdr PCAP_HEADER_LEN off new_index ts;
      s ← (if PCAP_HEADER_LEN <? tmp_len
           then write_spin s payload (tmp_len - PCAP_HEADER_LEN)
                  (u64 (off + PCAP_HEADER_LEN)) false ts
           else Ok s);
      s ← write_spin s next_pos 8 (u64 (off + tmp_len)) false ts;
      write_spin s payload (u64 (len m + PCAP_HEADER_LEN - tmp_len)) new_offset false ts
  else
    s ← write_spin s hdr PCAP_HEADER_LEN off new_index ts;
    write_spin s payload (len m) (u64 (off + PCAP_HEADER_LEN)) false ts.

(** [writeBefore]: a copy into an earlier packet; its refusal is ignored. *)
Definition writeBefore (s : RState) (src : list Z) (n last_offset : Z) : res RState :=
  '(_, b) ← writeBlock (block_buffer s) src n last_offset (thread_id (reader s)) false false 0;
  Ok (with_block_buffer s b).

(** Little-endian loads from packet memory. *)
Definition load (n : nat) (bytes : list Z) (off : Z) : res Z :=
  b ← zread bytes off (Z.of_nat n); Ok (le_val b).

Definition getFlowMetaData (r : DPDKReader) (m : PacketMeta) : res (FlowMetadata * DPDKReader) :=
  let r := with_byteLen r (u64 (byteLen r + len m)) in
  p ← payload_ptr r m;
  b0 ← zget p 0;
  let version := Z.land (Z.shiftr b0 4) 0x0F in
  if version =? 4 then
    let hl := Z.land b0 0x0F in
    sport ← load 2 p (hl * 4);
    dport ← load 2 p (hl * 4 + 2);
    sip ← load 4 p 12;
    dip ← load 4 p 16;
    Ok ({| sourceAddress := le_bytes 4 (htonl sip);
           destinationAddress := le_bytes 4 (htonl dip);
           sourcePort := htons sport; destinationPort := htons dport |}, r)
  else if version =? 6 then
    sport ← load 2 p IPV6_HEADER_LEN;
    dport ← load 2 p (IPV6_HEADER_LEN + 2);
    slow ← load 8 p 16;
    shigh ← load 8 p 8;
    dlow ← load 8 p 32;
    dhigh ← load 8 p 24;
    let srcip := mkIPv6 (swap_endianness slow) (swap_endianness shigh) in
    let dstip := mkIPv6 (swap_endianness dlow) (swap_endianness dhigh) in
    Ok ({| sourceAddress := ipv6_bytes srcip; destinationAddress := ipv6_bytes dstip;
           sourcePort := htons sport; destinationPort := htons dport |}, r)
  else Ok (mkMeta [] [] 0 0, r).

Definition calValue (off : Z) : Z := off.

Definition calDiff (r : DPDKReader) (offset last_offset : Z) : Z :=
  u64 (u64 (offset + disk_size r) - last_offset) mod disk_size r.

(** Size of a skip-list node with its lock, level and pointers. *)
Definition calIndexNodeLen (key_len level : Z) : Z := 8 + key_len + 1 + 4 + 8 * level.

(** [writeIndexToRing]: allocates the entry and puts its pointer. *)
Definition writeIndexToRing (s : RState) (value : Z) (meta : FlowMetadata) (ts : Z)
  : res (bool * RState) :=
  let r := reader s in
  if block_size r =? 0 then Undef else
  let index := {| ix_ts := ts; ix_disk_block_id := value / block_size r; ix_position := value;
                  ix_rx_id := rx_id r; ix_meta := meta |} in
  let ptr := next_ptr s in
  '(ok, ring) ← Spsc.put (indexRing s) ptr;
  Ok (ok, mkRState r (block_buffer s) (diskWriteCell s) ring
            (<[ptr := index]> (index_heap s)) (ptr + 1)).

(** The body of the loop of [run] for one packet of a burst; [None] is an mbuf
    without data, which ends the burst. *)
Definition handle_packet (s : RState) (pkt : list Z) (ts : Z) : res RState :=
  let meta := readPacket (reader s) pkt ts in
  '(off, r) ← getOffset (reader s) meta;
  let s := with_reader s r in
  if off =? MAX64 then Ok s else
  '(flow_meta, r) ← getFlowMetaData (reader s) meta;
  let s := with_reader s r in
  if bool_decide (sourceAddress flow_meta = []) then Ok s else
  let '(last, agg) := addPacket (packetAggregator (reader s)) flow_meta off ts
                        (disk_size (reader s)) in
  let s := with_reader s (with_agg (reader s) agg) in
  if negb (last =? MAX64) then
    s ← writePacketToPacketBuffer s meta ts off false;
    let diff := u32 (calDiff (reader s) off last) in
    writeBefore s (le_bytes 4 diff) 4 last
  else
    s ← writePacketToPacketBuffer s meta ts off true;
    '(_, s) ← writeIndexToRing s (calValue off) flow_meta ts;
    Ok s.

Fixpoint handle_burst (s : RState) (burst : list (option (list Z))) (ts : Z) : res RState :=
  match burst with
  | [] => Ok s
  | None :: _ => Ok s
  | Some pkt :: burst => s ← handle_packet s pkt ts; handle_burst s burst ts
  end.

(** The bursts the device delivers, each with the time stamp and the stop flag
    the thread observes; an empty burst is skipped unless it was stopped. *)
Fixpoint run_bursts (s : RState) (input : list (Z * list (option (list Z)) * bool)) : res RState :=
  match input with
  | [] => Ok s
  | (ts, burst, stop) :: input =>
      s ← handle_burst s burst ts;
      if stop then Ok s else run_bursts s input
  end.

(** [run]: takes the first cell, then loops; [-1] without a thread id. *)
Definition run (s : RState) (input : list (Z * list (option (list Z)) * bool)) : res (Z * RState) :=
  if thread_id (reader s) =? MAX64 then Ok (-1, s) else
  let r := with_cell (reader s) (diskWriteCell s) (writeOffset (reader s)) in
  let s := mkRState r (block_buffer s) (u64 (diskWriteCell s + 1)) (indexRing s)
             (index_heap s) (next_ptr s) in
  s ← run_bursts s input;
  Ok (0, s).

Definition setThreadID (r : DPDKReader) (id : Z) : DPDKReader :=
  mkReader (eth_header_len r) (disk_size r) (block_size r) (cell_size r) (cell_num r)
    (port_id r) (rx_id r) (packetAggregator r) (writeCell r) (writeOffset r) (byteLen r) id.

(** ** Loads from a part of a memory *)
Lemma load_app n (l k : list Z) off x : load n l off = Ok x -> load n (l ++ k) off = Ok x.
Proof.
  unfold load, zread. destruct (_ && _) eqn:E; [|discriminate].
  zbool. intros [= <-]. replace (_ && _) with true.
  - cbn [mbind res_bind]. do 2 f_equal. unfold zslice, zlen in *.
    rewrite drop_app_le by lia. rewrite take_app_le; [done|]. rewrite length_drop. lia.
  - symmetry. rewrite !andb_true_iff, !Z.leb_le, zlen_app. pose proof (zlen_nonneg k). lia.
Qed.

Lemma load_app_r n (l k : list Z) off :
  0 <= off -> load n (l ++ k) (zlen l + off) = load n k off.
Proof.
  intros. unfold load, zread. rewrite zlen_app.
  replace ((0 <=? Z.of_nat n) && (0 <=? zlen l + off) && (zlen l + off + Z.of_nat n <=? zlen l + zlen k))
    with ((0 <=? Z.of_nat n) && (0 <=? off) && (off + Z.of_nat n <=? zlen k)).
  - case_test; [|done]. cbn [mbind res_bind]. do 2 f_equal. unfold zslice, zlen. f_equal.
    rewrite drop_app_ge by lia. f_equal. lia.
  - pose proof (zlen_nonneg l). apply eq_iff_eq_true. rewrite !andb_true_iff, !Z.leb_le. lia.
Qed.

(** A load of what was stored. *)
Lemma load_le_bytes n z (k : list Z) : 0 <= z < 2 ^ (8 * Z.of_nat n) -> load n (le_bytes n z ++ k) 0 = Ok z.
Proof.
  intros Hz. unfold load. rewrite zread_Ok by (rewrite ?zlen_app, ?zlen_le_bytes; pose proof (zlen_nonneg k); lia).
  cbn [mbind res_bind]. f_equal. unfold zslice. rewrite drop_0, take_app_length'; [by apply le_val_le_bytes|].
  rewrite length_le_bytes. lia.
Qed.

(** ** Bytes at disk positions *)
Module ReaderProofs.
Import DataProofs.

(** [l] is buffered from disk position [p] on, in blocks that belong to it. *)
Definition stored (b : DataBlockBuffer) (p : Z) (l : list Z) : Prop :=
  forall j, 0 <= j < zlen l -> owns b (p + j) = true /\ byte b (p + j) = at_ l j.

Definition disk_bytes (b : DataBlockBuffer) : Z := disk_block_num b * Data.block_size b.

(** Owned positions of one lap of the disk have distinct buffer addresses. *)
Lemma owns_inj b p q :
  wf b -> 0 <= p < disk_bytes b -> 0 <= q < disk_bytes b ->
  owns b p = true -> owns b q = true ->
  p mod buffer_size b = q mod buffer_size b -> p = q.
Proof.
  intros Hw Hp Hq Hop Hoq E. unfold disk_bytes in *.
  pose proof (wf_bs b Hw) as Hbs. pose proof (wf_total b Hw) as Ht.
  rewrite (wf_bufsize b Hw) in E. unfold owns in *. zbool.
  assert (Eb : (p / Data.block_size b) mod total_block_num b =
               (q / Data.block_size b) mod total_block_num b).
  { rewrite <-!mod_div_block by done. by rewrite E. }
  rewrite Eb in Hop.
  assert (Ep : p mod Data.block_size b = q mod Data.block_size b).
  { assert (Hd : (Data.block_size b | total_block_num b * Data.block_size b))
      by (by exists (total_block_num b)).
    rewrite <-(Z.mod_mod_divide p _ _ Hd), <-(Z.mod_mod_divide q _ _ Hd). by rewrite E. }
  assert (Hb : forall x, 0 <= x < disk_block_num b * Data.block_size b ->
    0 <= x / Data.block_size b < disk_block_num b).
  { intros x Hx. split; [apply Z.div_pos; lia|apply Z.div_lt_upper_bound; nia]. }
  rewrite (Z.mod_small (p / _) (disk_block_num b)) in Hop by auto.
  rewrite (Z.mod_small (q / _) (disk_block_num b)) in Hoq by auto.
  rewrite (Z.div_mod p (Data.block_size b)), (Z.div_mod q (Data.block_size b)) by lia.
  congruence.
Qed.

Lemma written_owns b b' data len p t nd ni q :
  written b data len p t nd ni b' -> owns b' q = owns b q.
Proof. intros []. unfold owns. by rewrite wr_ids0, wr_bs0, wr_total0, wr_disk0. Qed.

Lemma written_stored b b' data len p t nd ni :
  wf b -> call_ok b data len p t -> accepted b len p = true ->
  written b data len p t nd ni b' -> stored b' p (take (Z.to_nat len) data).
Proof.
  intros Hw Hco Ha Hwr j Hj. destruct (written_bytes b b' data len p t nd ni Hw Hco Ha Hwr) as [H1 _].
  pose proof (co_len _ _ _ _ _ Hco). pose proof (co_data _ _ _ _ _ Hco).
  assert (Hl : zlen (take (Z.to_nat len) data) = len) by (unfold zlen in *; rewrite length_take; lia).
  rewrite (written_owns _ _ _ _ _ _ _ _ _ Hwr). split.
  - eapply owns_inside; eauto; lia.
  - rewrite H1 by lia. unfold at_. by rewrite lookup_take_lt by lia.
Qed.

(** A write leaves what is stored outside its range. *)
Lemma written_preserves b b' data len p t nd ni q l :
  wf b -> call_ok b data len p t -> accepted b len p = true ->
  written b data len p t nd ni b' ->
  0 <= p -> p + len <= disk_bytes b -> 0 <= q -> q + zlen l <= disk_bytes b ->
  q + zlen l <= p \/ p + len <= q ->
  stored b q l -> stored b' q l.
Proof.
  intros Hw Hco Ha Hwr Hp Hpl Hq Hql Hdis Hs j Hj. destruct (Hs j Hj) as [Ho Hb].
  rewrite (written_owns _ _ _ _ _ _ _ _ _ Hwr). split; [done|]. rewrite <-Hb.
  destruct (written_bytes b b' data len p t nd ni Hw Hco Ha Hwr) as [_ H2].
  unfold byte. rewrite (wr_bufsize _ _ _ _ _ _ _ _ Hwr).
  assert (Hsz : 0 < buffer_size b) by (destruct Hw; nia).
  apply H2; [by apply Z.mod_pos_bound|].
  set (d := ((q + j) mod buffer_size b - p) mod buffer_size b).
  pose proof (Z.mod_pos_bound ((q + j) mod buffer_size b - p) (buffer_size b) Hsz) as Hd. fold d in Hd.
  destruct (decide (len <= d)) as [|Hlt]; [done|exfalso].
  assert (E : (p + d) mod buffer_size b = (q + j) mod buffer_size b).
  { unfold d. rewrite Zplus_mod_idemp_r.
    replace (p + ((q + j) mod buffer_size b - p)) with ((q + j) mod buffer_size b) by lia.
    by apply Z.mod_mod; lia. }
  apply (owns_inj b) in E; try lia; try done. eapply owns_inside; eauto. lia.
Qed.

(** One spinning write that gets through. *)
Lemma write_spin_ok s src n pos ni ts s' :
  let b := block_buffer s in
  wf b -> call_ok b src n pos (thread_id (reader s)) ->
  write_spin s src n pos ni ts = Ok s' ->
  exists b', s' = with_block_buffer s b' /\ accepted b n pos = true /\
    written b src n pos (thread_id (reader s)) true ni b'.
Proof.
  intros b Hw Hco E. unfold write_spin in E.
  destruct (writeBlock_written b src n pos (thread_id (reader s)) true ni ts Hw Hco) as (b' & E' & Hwr).
  fold b in E. rewrite E' in E. cbn [mbind res_bind] in E.
  destruct (accepted b n pos) eqn:Ea; [|discriminate E]. injection E as <-. by exists b'.
Qed.

(** What every later write still needs of the buffer. *)
Record buf_ok (b : DataBlockBuffer) (t : Z) (D bs : Z) : Prop := {
  bo_wf : wf b;
  bo_thread : 0 <= t < rss_num b;
  bo_reg : t < zlen (disk_write_ids b);
  bo_disk : disk_block_num b = D;
  bo_bs : Data.block_size b = bs;
  bo_fit : disk_bytes b < 2 ^ 62 }.

Lemma written_buf_ok b b' data len p t t' nd ni D bs :
  written b data len p t nd ni b' -> buf_ok b t' D bs -> buf_ok b' t' D bs.
Proof.
  intros Hwr []. destruct Hwr. split; try congruence.
  - rewrite wr_writes0. destruct nd; [by rewrite zlen_insert|done].
  - unfold disk_bytes in *. by rewrite wr_disk0, wr_bs0.
Qed.

Lemma buf_ok_call b t D bs src n pos :
  buf_ok b t D bs -> 0 <= pos -> pos + n <= D * bs -> 0 <= n <= bs -> n <= zlen src ->
  call_ok b src n pos t.
Proof.
  intros [] Hp Hpn Hn Hs. unfold disk_bytes in *. subst D bs.
  pose proof (wf_bs b bo_wf0). pose proof (wf_disk b bo_wf0). pose proof (wf_total b bo_wf0).
  unfold DISK_BLOCK_TIMES in *.
  split; lia.
Qed.

(** One spinning write that gets through: the data is stored, the rest of the
    state and everything stored elsewhere is unchanged. *)
Lemma spin_step s src n pos ni ts s' D bs :
  buf_ok (block_buffer s) (thread_id (reader s)) D bs ->
  0 <= pos -> pos + n <= D * bs -> 0 <= n <= bs -> n <= zlen src ->
  write_spin s src n pos ni ts = Ok s' ->
  buf_ok (block_buffer s') (thread_id (reader s)) D bs /\
  s' = with_block_buffer s (block_buffer s') /\
  stored (block_buffer s') pos (take (Z.to_nat n) src) /\
  forall q l, 0 <= q -> q + zlen l <= D * bs -> q + zlen l <= pos \/ pos + n <= q ->
    stored (block_buffer s) q l -> stored (block_buffer s') q l.
Proof.
  intros Hb Hp Hpn Hn Hs E. pose proof (buf_ok_call _ _ _ _ _ _ _ Hb Hp Hpn Hn Hs) as Hco.
  destruct (write_spin_ok s src n pos ni ts s' (bo_wf _ _ _ _ Hb) Hco E) as (b' & -> & Ha & Hwr).
  simpl. split; [by eapply written_buf_ok|]. split; [done|].
  split; [by eapply written_stored; [apply Hb|..]|].
  intros q l Hq Hql Hdis. pose proof Hb as []. unfold disk_bytes in *.
  eapply written_preserves; try done; unfold disk_bytes; subst; done.
Qed.

Lemma stored_app b p l k : stored b p (l ++ k) <-> stored b p l /\ stored b (p + zlen l) k.
Proof.
  assert (Hat : forall j, 0 <= j -> at_ (l ++ k) j = if j <? zlen l then at_ l j else at_ k (j - zlen l)).
  { intros j Hj. unfold at_, zlen. destruct (Z.ltb_spec j (Z.of_nat (length l))).
    - by rewrite lookup_app_l by lia.
    - rewrite lookup_app_r by lia. do 2 f_equal. lia. }
  unfold stored. rewrite zlen_app. split.
  - intros H. split; intros j Hj.
    + destruct (H j) as [Ho Hb]; [pose proof (zlen_nonneg k); lia|]. split; [done|].
      rewrite Hb, Hat by lia. by replace (j <? zlen l) with true by (symmetry; apply Z.ltb_lt; lia).
    + destruct (H (zlen l + j)) as [Ho Hb]; [pose proof (zlen_nonneg l); lia|].
      rewrite Z.add_assoc in Ho, Hb. split; [done|].
      pose proof (zlen_nonneg l). rewrite Hb, Hat by lia.
      replace (zlen l + j <? zlen l) with false by (symmetry; apply Z.ltb_ge; lia). f_equal. lia.
  - intros [H1 H2] j Hj. rewrite Hat by lia. destruct (Z.ltb_spec j (zlen l)).
    + apply H1. lia.
    + replace (p + j) with (p + zlen l + (j - zlen l)) by lia. apply H2. lia.
Qed.

Lemma zlen_header_bytes h : zlen (header_bytes h) = 16.
Proof. unfold header_bytes. by rewrite !zlen_app, !zlen_le_bytes. Qed.

(** ** The layout of a packet in the cells *)

(** What [writePacketToPacketBuffer] places, as (position, bytes): the packet
    in one piece, or with a cell change: the part that fits before the tail
    pointer, the pointer, and the part in the new cell. *)
Definition layout (s : RState) (m : PacketMeta) (off : Z) (payload : list Z) : list (Z * list Z) :=
  let r := reader s in
  let hdr := header_bytes (header m) in
  let body n := take (Z.to_nat n) payload in
  if cell_size r <? writeOffset r then
    let cell := diskWriteCell s mod cell_num r in
    let tmp_len := cell_size r - off mod cell_size r - 8 in
    let new_offset := cell * cell_size r in
    if tmp_len <? 16 then
      [(off, take (Z.to_nat tmp_len) hdr); (off + tmp_len, le_bytes 8 cell);
       (new_offset, drop (Z.to_nat tmp_len) hdr ++ body (len m))]
    else
      [(off, hdr ++ body (tmp_len - 16)); (off + tmp_len, le_bytes 8 cell);
       (new_offset, body (len m + 16 - tmp_len))]
  else [(off, hdr ++ body (len m))].

(** The geometry of cells and blocks, and a packet that needs at most one cell
    change. *)
Record packet_ok (s : RState) (m : PacketMeta) (off : Z) (payload : list Z) (D bs : Z) : Prop := {
  po_buf : buf_ok (block_buffer s) (thread_id (reader s)) D bs;
  po_cell : 16 <= cell_size (reader s) <= bs;
  po_cells : 0 < cell_num (reader s) /\ cell_num (reader s) * cell_size (reader s) = D * bs;
  po_off : 0 <= off < D * bs;
  po_payload : payload_ptr (reader s) m = Ok payload;
  po_len : 0 <= len m <= zlen payload /\ 16 + len m <= cell_size (reader s) - 8;
  po_room : off mod cell_size (reader s) <= cell_size (reader s) - 8;
  po_fits : writeOffset (reader s) <= cell_size (reader s) ->
    off mod cell_size (reader s) + 16 + len m <= cell_size (reader s) - 8;
  po_cross : cell_size (reader s) < writeOffset (reader s) ->
    cell_size (reader s) - 8 < off mod cell_size (reader s) + 16 + len m;
  po_fresh : cell_size (reader s) < writeOffset (reader s) ->
    diskWriteCell s mod cell_num (reader s) <> off / cell_size (reader s) }.

(** The cell an offset lies in, as a range of positions. *)
Lemma cell_range r off D bs :
  16 <= cell_size r -> cell_num r * cell_size r = D * bs -> 0 <= off < D * bs ->
  let c := off / cell_size r in
  0 <= c < cell_num r /\ off = c * cell_size r + off mod cell_size r /\
  0 <= off mod cell_size r < cell_size r /\ (c + 1) * cell_size r <= D * bs.
Proof.
  intros Hc Hn Ho c. pose proof (Z.mod_pos_bound off (cell_size r) ltac:(lia)).
  pose proof (Z.div_mod off (cell_size r) ltac:(lia)) as E. fold c in E.
  assert (0 <= c) by (apply Z.div_pos; lia). assert (c < cell_num r) by nia. split; [lia|].
  split; [lia|]. split; [lia|]. nia.
Qed.

(** Two different cells do not overlap. *)
Lemma cells_disjoint c c' C x n y m :
  0 < C -> c <> c' -> 0 <= x -> x + n <= C -> 0 <= y -> y + m <= C ->
  c * C + x + n <= c' * C + y \/ c' * C + y + m <= c * C + x.
Proof. intros. destruct (decide (c < c')); [left|right]; nia. Qed.

Lemma zlen_take {A} n (l : list A) : 0 <= n <= zlen l -> zlen (take (Z.to_nat n) l) = n.
Proof. unfold zlen. rewrite length_take. lia. Qed.
Lemma zlen_drop {A} n (l : list A) : 0 <= n <= zlen l -> zlen (drop (Z.to_nat n) l) = zlen l - n.
Proof. unfold zlen. rewrite length_drop. lia. Qed.
Lemma take_all {A} n (l : list A) : n = zlen l -> take (Z.to_nat n) l = l.
Proof. intros ->. apply take_ge. unfold zlen. lia. Qed.

(** Writes in sequence. *)
Record call := mkCall { c_src : list Z; c_n : Z; c_pos : Z; c_ni : bool }.

Fixpoint spins (s : RState) (ts : Z) (l : list call) : res RState :=
  match l with
  | [] => Ok s
  | a :: l => s ← write_spin s (c_src a) (c_n a) (c_pos a) (c_ni a) ts; spins s ts l
  end.

Definition call_fits (D bs : Z) (a : call) : Prop :=
  0 <= c_pos a /\ c_pos a + c_n a <= D * bs /\ 0 <= c_n a <= bs /\ c_n a <= zlen (c_src a).

Definition call_disjoint (a b : call) : Prop :=
  c_pos a + c_n a <= c_pos b \/ c_pos b + c_n b <= c_pos a.

Fixpoint pairwise (l : list call) : Prop :=
  match l with [] => True | a :: l => Forall (call_disjoint a) l /\ pairwise l end.

(** Reduces the side conditions on concrete call lists to arithmetic. *)
Ltac calls_lia :=
  cbn [pairwise app]; unfold call_disjoint, call_fits;
  rewrite ?Forall_cons, ?Forall_nil; cbn [c_src c_n c_pos];
  rewrite ?zlen_drop by lia; lia.

Lemma spins_keep l s ts s' D bs q k :
  buf_ok (block_buffer s) (thread_id (reader s)) D bs ->
  Forall (call_fits D bs) l -> spins s ts l = Ok s' ->
  0 <= q -> q + zlen k <= D * bs ->
  Forall (fun a => q + zlen k <= c_pos a \/ c_pos a + c_n a <= q) l ->
  stored (block_buffer s) q k -> stored (block_buffer s') q k.
Proof.
  intros Hb Hf. revert s Hb. induction Hf as [|a l (H1&H2&H3&H4) _ IH]; intros s Hb E Hq Hqk Hd Hs.
  - by injection E as <-.
  - apply Forall_cons in Hd as [Hd1 Hd2]. cbn [spins] in E. apply bind_Ok_iff in E as (s1 & E1 & E2).
    apply (spin_step _ _ _ _ _ _ _ D bs) in E1 as (Hb1 & Es1 & _ & Hk); [|done..].
    rewrite Es1 in E2. apply (IH (with_block_buffer s (block_buffer s1)) Hb1 E2); auto.
Qed.

(** Each of a sequence of disjoint writes is stored in the end. *)
Lemma spins_stored l s ts s' D bs :
  buf_ok (block_buffer s) (thread_id (reader s)) D bs ->
  Forall (call_fits D bs) l -> pairwise l -> spins s ts l = Ok s' ->
  Forall (fun a => stored (block_buffer s') (c_pos a) (take (Z.to_nat (c_n a)) (c_src a))) l.
Proof.
  revert s. induction l as [|a l IH]; intros s Hb Hf Hp E; [constructor|].
  destruct Hp as [Ha Hp].
  apply Forall_cons in Hf as [(H1&H2&H3&H4) Hf']. cbn [spins] in E.
  apply bind_Ok_iff in E as (s1 & E1 & E2).
  apply (spin_step _ _ _ _ _ _ _ D bs) in E1 as (Hb1 & Es1 & Hs & _); [|done..].
  rewrite Es1 in E2. constructor; [|by apply (IH (with_block_buffer s (block_buffer s1)))].
  eapply (spins_keep l (with_block_buffer s (block_buffer s1))); [exact Hb1|exact Hf'|exact E2|done|rewrite zlen_take; lia| |exact Hs].
  rewrite zlen_take by lia. eapply Forall_impl; [exact Ha|]. unfold call_disjoint. done.
Qed.

Lemma layout_fits s m off ts ni payload D bs s' :
  packet_ok s m off payload D bs -> writeOffset (reader s) <= cell_size (reader s) ->
  writePacketToPacketBuffer s m ts off ni = Ok s' ->
  Forall (fun '(p, l) => stored (block_buffer s') p l) (layout s m off payload).
Proof.
  intros [] Hfit E. specialize (po_fits0 Hfit). clear po_cross0 po_fresh0.
  destruct (cell_range (reader s) off D bs) as (Hc & Eo & Hm & Hend); [lia|lia|done|].
  unfold layout, writePacketToPacketBuffer in *. rewrite po_payload0 in E.
  cbn [mbind res_bind] in E. rewrite (proj2 (Z.ltb_ge _ _) Hfit) in *.
  pose proof (zlen_header_bytes (header m)) as Hh. pose proof (bo_fit _ _ _ _ po_buf0).
  unfold disk_bytes in *. rewrite (bo_disk _ _ _ _ po_buf0), (bo_bs _ _ _ _ po_buf0) in *.
  unfold PCAP_HEADER_LEN in E. rewrite u64_small in E by nia.
  assert (E' : spins s ts [mkCall (header_bytes (header m)) 16 off ni;
                           mkCall payload (len m) (off + 16) false] = Ok s').
  { apply bind_Ok_iff in E as (s1 & E1 & E2). cbn [spins c_src c_n c_pos c_ni].
    rewrite E1. cbn [mbind res_bind]. by rewrite E2. }
  apply (spins_stored _ _ _ _ D bs) in E' as HF; [|done|..].
  - rewrite !Forall_cons in HF. destruct HF as (F1&F2&_).
    cbn [c_src c_n c_pos] in F1, F2. rewrite (take_all 16) in F1 by done.
    constructor; [|constructor]. apply stored_app. by rewrite Hh.
  - calls_lia.
  - calls_lia.
Qed.

Lemma layout_cross s m off ts ni payload D bs s' :
  packet_ok s m off payload D bs -> cell_size (reader s) < writeOffset (reader s) ->
  writePacketToPacketBuffer s m ts off ni = Ok s' ->
  Forall (fun '(p, l) => stored (block_buffer s') p l) (layout s m off payload).
Proof.
  intros [] Hx E. specialize (po_cross0 Hx). specialize (po_fresh0 Hx). clear po_fits0.
  destruct (cell_range (reader s) off D bs) as (Hc & Eo & Hm & Hend); [lia|lia|done|].
  unfold layout, writePacketToPacketBuffer in *. rewrite po_payload0 in E.
  cbn [mbind res_bind] in E. rewrite (proj2 (Z.ltb_lt _ _) Hx) in *.
  cbv zeta in E. cbn [cell_size cell_num with_cell] in E.
  pose proof (zlen_header_bytes (header m)) as Hh. pose proof (bo_fit _ _ _ _ po_buf0) as Hfit.
  unfold disk_bytes in *. rewrite (bo_disk _ _ _ _ po_buf0), (bo_bs _ _ _ _ po_buf0) in Hfit.
  set (C := cell_size (reader s)) in *. set (N := cell_num (reader s)) in *.
  set (o := off mod C) in *. set (c := off / C) in *.
  set (cell := diskWriteCell s mod N) in *.
  pose proof (Z.mod_pos_bound (diskWriteCell s) N ltac:(lia)) as Hcell. fold cell in Hcell.
  assert (Hcc : (cell + 1) * C <= D * bs) by nia.
  rewrite (proj2 (orb_false_iff _ _)) in E by (split; apply Z.eqb_neq; lia).
  rewrite (u64_small (C - o)), (u64_small (C - o - 8)) in E by nia.
  rewrite (u64_small (cell * C)) in E by nia.
  assert (Hn : forall x n y k, 0 <= x -> x + n <= C -> 0 <= y -> y + k <= C ->
    c * C + x + n <= cell * C + y \/ cell * C + y + k <= c * C + x)
    by (intros; apply cells_disjoint; lia).
  set (T := C - o - 8) in *. unfold PCAP_HEADER_LEN in E.
  pose proof (zlen_le_bytes 8 cell) as Hp. change (Z.of_nat 8) with 8 in Hp.
  match type of E with context [mkRState ?r ?b ?dc ?ir ?h ?np] =>
    set (s0 := mkRState r b dc ir h np) in E end.
  change (thread_id (reader s)) with (thread_id (reader s0)) in po_buf0.
  change (block_buffer s) with (block_buffer s0) in po_buf0.
  rewrite (u64_small (off + T)) in E by nia.
  pose proof (Hn o T 0 (16 - T + len m)) as Hn1. pose proof (Hn (o + T) 8 0 (16 - T + len m)) as Hn2.
  destruct (T <? 16) eqn:ET; zbool.
  - rewrite (u64_small (cell * C + 16 - T)) in E by nia.
    assert (HT : take (Z.to_nat (16 - T)) (drop (Z.to_nat T) (header_bytes (header m))) =
                 drop (Z.to_nat T) (header_bytes (header m)))
      by (apply take_all; rewrite zlen_drop; lia).
    assert (HF : stored (block_buffer s') off (take (Z.to_nat T) (header_bytes (header m))) /\
      stored (block_buffer s') (off + T) (le_bytes 8 cell) /\
      stored (block_buffer s') (cell * C) (drop (Z.to_nat T) (header_bytes (header m))) /\
      stored (block_buffer s') (cell * C + 16 - T) (take (Z.to_nat (len m)) payload)).
    { assert (exists n1, (T = 0 \/ n1 = ni) /\ spins s0 ts (
        (if T =? 0 then [] else [mkCall (header_bytes (header m)) T off ni]) ++
        [mkCall (le_bytes 8 cell) 8 (off + T) false;
         mkCall (drop (Z.to_nat T) (header_bytes (header m))) (16 - T) (cell * C)
           (if T =? 0 then ni else false);
         mkCall payload (len m) (cell * C + 16 - T) false]) = Ok s') as (_ & _ & E').
      { exists ni. split; [by right|].
        destruct (T =? 0) eqn:E0; zbool; cbn [negb] in E; cbn [app spins c_src c_n c_pos c_ni].
        - rewrite E0 in E |- *. cbn [mbind res_bind] in E. change (Z.to_nat 0) with 0%nat.
          rewrite drop_0.
          apply bind_Ok_iff in E as (s1 & -> & E). cbn [mbind res_bind].
          apply bind_Ok_iff in E as (s2 & E2 & E). change (16 - 0) with 16. rewrite E2. cbn [mbind res_bind].
          by rewrite E.
        - apply bind_Ok_iff in E as (s1 & -> & E). cbn [mbind res_bind].
          apply bind_Ok_iff in E as (s2 & -> & E). cbn [mbind res_bind].
          apply bind_Ok_iff in E as (s3 & -> & E). cbn [mbind res_bind]. by rewrite E. }
      apply (spins_stored _ _ _ _ D bs) in E' as HF; [|done|..].
      - destruct (T =? 0) eqn:E0; zbool; cbn [app] in HF; rewrite !Forall_cons in HF;
          cbn [c_src c_n c_pos] in HF.
        + destruct HF as (F2&F3&F4&_). rewrite HT in F3. rewrite (take_all 8) in F2 by done.
          split; [|done]. rewrite E0. intros j Hj. change (zlen _) with 0 in Hj. lia.
        + destruct HF as (F1&F2&F3&F4&_). rewrite HT in F3. by rewrite (take_all 8) in F2 by done.
      - destruct (T =? 0); calls_lia.
      - destruct (T =? 0); calls_lia. }
    destruct HF as (F1&F2&F3&F4). rewrite !Forall_cons. split; [done|]. split; [done|].
    split; [|done]. apply stored_app. split; [done|]. rewrite zlen_drop, Hh by lia.
    by rewrite Z.add_sub_assoc.
  - rewrite (u64_small (off + 16)), (u64_small (len m + 16 - T)) in E by lia.
    assert (E' : spins s0 ts (mkCall (header_bytes (header m)) 16 off ni ::
        (if 16 <? T then [mkCall payload (T - 16) (off + 16) false] else []) ++
        [mkCall (le_bytes 8 cell) 8 (off + T) false;
         mkCall payload (len m + 16 - T) (cell * C) false]) = Ok s').
    { apply bind_Ok_iff in E as (s1 & E1 & E). cbn [spins c_src c_n c_pos c_ni].
      rewrite E1. cbn [mbind res_bind].
      destruct (16 <? T); cbn [app spins c_src c_n c_pos c_ni].
      - apply bind_Ok_iff in E as (s2 & -> & E). cbn [mbind res_bind].
        apply bind_Ok_iff in E as (s3 & -> & E). cbn [mbind res_bind]. by rewrite E.
      - cbn [mbind res_bind] in E.
        apply bind_Ok_iff in E as (s3 & -> & E). cbn [mbind res_bind]. by rewrite E. }
    apply (spins_stored _ _ _ _ D bs) in E' as HF; [|done|..].
    + assert (Hs : stored (block_buffer s') off (header_bytes (header m)) /\
        stored (block_buffer s') (off + 16) (take (Z.to_nat (T - 16)) payload) /\
        stored (block_buffer s') (off + T) (le_bytes 8 cell) /\
        stored (block_buffer s') (cell * C) (take (Z.to_nat (len m + 16 - T)) payload)).
      { destruct (16 <? T) eqn:ET2; zbool; cbn [app] in HF; rewrite !Forall_cons in HF;
          cbn [c_src c_n c_pos] in HF.
        - destruct HF as (F1&F2&F3&F4&_). rewrite (take_all 16) in F1 by done.
          by rewrite (take_all 8) in F3 by done.
        - destruct HF as (F1&F3&F4&_). rewrite (take_all 16) in F1 by done.
          rewrite (take_all 8) in F3 by done. split; [done|]. split; [|done].
          replace (T - 16) with 0 by lia. intros j Hj. change (zlen _) with 0 in Hj. lia. }
      destruct Hs as (F1&F2&F3&F4). rewrite !Forall_cons. split; [|done].
      apply stored_app. by rewrite Hh.
    + destruct (16 <? T) eqn:?; zbool; calls_lia.
    + pose proof (Hn o (T + 8) 0 (len m + 16 - T)).
      destruct (16 <? T) eqn:?; zbool; calls_lia.
Qed.

(** ** Masks and byte order *)
Lemma testbit_byte_mask k n :
  0 <= k -> 0 <= n -> Z.testbit (Z.shiftl 255 k) n = (k <=? n) && (n <? k + 8).
Proof.
  intros Hk Hn. rewrite Z.shiftl_spec by done. change 255 with (Z.ones 8).
  destruct (Z.leb_spec k n); cbn [andb]; [|by rewrite Z.testbit_neg_r by lia].
  rewrite Z.testbit_ones_nonneg by lia. destruct (Z.ltb_spec (n - k) 8), (Z.ltb_spec n (k + 8)); done || lia.
Qed.

Lemma land_mask_ext x y k :
  0 <= k -> (forall n, k <= n < k + 8 -> Z.testbit x n = Z.testbit y n) ->
  Z.land x (Z.shiftl 255 k) = Z.land y (Z.shiftl 255 k).
Proof.
  intros Hk H. apply Z.bits_inj'. intros n Hn. rewrite !Z.land_spec, testbit_byte_mask by done.
  destruct (Z.leb_spec k n), (Z.ltb_spec n (k + 8)); cbn [andb]; rewrite ?andb_false_r; try done.
  by rewrite H by lia.
Qed.

Lemma u64_shiftl_bits x a n :
  0 <= a -> 0 <= n < 64 -> Z.testbit (u64 (Z.shiftl x a)) n = Z.testbit x (n - a).
Proof. intros. unfold u64, wrap. rewrite Z.mod_pow2_bits_low, Z.shiftl_spec by lia. done. Qed.

(** [swap_endianness] reads bytes 2, 6 and 7 only. *)
Lemma swap_endianness_ext v w :
  (forall n, 16 <= n < 24 \/ 48 <= n < 64 -> Z.testbit v n = Z.testbit w n) ->
  swap_endianness v = swap_endianness w.
Proof.
  intros H. unfold swap_endianness.
  change 0x00000000000000FF with (Z.shiftl 255 0). change 0x000000000000FF00 with (Z.shiftl 255 8).
  change 0x00000000FF000000 with (Z.shiftl 255 24). change 0x00FF000000000000 with (Z.shiftl 255 48).
  change 0xFF00000000000000 with (Z.shiftl 255 56). change 0x0000FF0000000000 with (Z.shiftl 255 40).
  change 0x000000FF00000000 with (Z.shiftl 255 32).
  repeat (f_equal; [apply land_mask_ext; [lia|]; intros n Hn;
    rewrite ?Z.shiftr_spec, ?u64_shiftl_bits by lia; first [apply H; lia|by rewrite !Z.testbit_neg_r by lia]|]).
  apply land_mask_ext; [lia|]; intros n Hn.
  rewrite !u64_shiftl_bits by lia. by rewrite !Z.testbit_neg_r by lia.
Qed.

Lemma load_ok n bytes off :
  0 <= off -> off + Z.of_nat n <= zlen bytes ->
  load n bytes off = Ok (le_val (zslice off (Z.of_nat n) bytes)).
Proof. intros. unfold load. by rewrite zread_Ok by lia. Qed.

(** Byte swapping the number some bytes stand for reverses the bytes. *)
Lemma bswap_bytes l :
  Forall (is_u 8) l -> rev (le_bytes (length l) (le_val l)) = rev l.
Proof. intros H. f_equal. by apply le_bytes_le_val. Qed.

Lemma htons_bytes x y : is_u 8 x -> is_u 8 y -> htons (le_val [x; y]) = x * 256 + y.
Proof.
  intros Hx Hy. pose proof (bswap_bytes [x; y]) as E. cbn [length] in E.
  unfold htons. rewrite E by (by rewrite !Forall_cons, Forall_nil).
  cbn [rev app le_val]. lia.
Qed.

Lemma htonl_bytes a b c d :
  Forall (is_u 8) [a; b; c; d] -> le_bytes 4 (htonl (le_val [a; b; c; d])) = [d; c; b; a].
Proof.
  intros H. pose proof (bswap_bytes [a; b; c; d] H) as E. cbn [length] in E.
  unfold htonl. rewrite E.
  cbn [rev app]. apply (le_bytes_le_val [d; c; b; a]).
  rewrite !Forall_cons in *. unfold is_u in *. change (2 ^ 8) with 256 in *. tauto.
Qed.

(** ** Properties *)

(** C33: the reader lays packets out in cells.  When the block buffer accepts
    the writes of [writePacketToPacketBuffer], the header and the payload are
    buffered contiguously at the packet's position if they fit in front of the
    cell's tail pointer; otherwise the part that fits, the number of the newly
    taken cell in the last 8 bytes of the old one, and the rest at the start
    of the new cell.  All of it is intact at the end, whatever the order of
    the writes.  In the case where the cell changes inside the payload the
    piece at the start of the new cell is again the *beginning* of the
    payload. *)
Theorem reader_packet_layout s m off ts ni payload D bs s' :
  packet_ok s m off payload D bs ->
  writePacketToPacketBuffer s m ts off ni = Ok s' ->
  Forall (fun '(p, l) => stored (block_buffer s') p l) (layout s m off payload).
Proof.
  intros Hok E. destruct (Z_le_gt_dec (writeOffset (reader s)) (cell_size (reader s))).
  - by eapply layout_fits.
  - eapply layout_cross; eauto. lia.
Qed.

(** cell accounting.  For a packet of at most one cell, [getOffset] places
    it at the write offset of the current cell; afterwards either the packet
    ends in front of the cell's tail pointer and the write offset is its end,
    or the write offset exceeds the cell size, the packet does run into the
    tail pointer, and the offset modulo the cell size is exactly the number of
    its bytes that go to the next cell.  In both cases the next packet again
    starts in front of a tail pointer. *)
Theorem getOffset_cell_accounting r m :
  24 <= cell_size r -> 0 <= writeOffset r <= cell_size r - 8 ->
  0 <= writeCell r < cell_num r -> cell_num r * cell_size r = disk_size r ->
  disk_size r < 2 ^ 62 -> 0 <= len m -> 16 + len m <= cell_size r - 8 ->
  exists off r', getOffset r m = Ok (off, r') /\
    off = writeCell r * cell_size r + writeOffset r /\ 0 <= off < disk_size r /\
    off mod cell_size r = writeOffset r /\
    (if writeOffset r + 16 + len m <=? cell_size r - 8
     then writeOffset r' = writeOffset r + 16 + len m /\ writeOffset r' <= cell_size r - 8
     else cell_size r < writeOffset r' /\
          writeOffset r' mod cell_size r = 16 + len m - (cell_size r - writeOffset r - 8) /\
          0 <= writeOffset r' mod cell_size r <= cell_size r - 8).
Proof.
  intros Hc Ho Hcell Hd Hsz Hl Hfit. unfold getOffset, PCAP_HEADER_LEN.
  assert (0 <= writeCell r * cell_size r /\ (writeCell r + 1) * cell_size r <= disk_size r) by nia.
  case_test; [zlia|]. zbool.
  rewrite (u64_small (16 + len m)), (u64_small (writeCell r * cell_size r)) by lia.
  rewrite (u64_small (writeOffset r + (16 + len m))) by lia.
  rewrite (u64_small (writeOffset r + (16 + len m) + 8)) by lia.
  rewrite (u64_small (writeOffset r + writeCell r * cell_size r)) by lia.
  rewrite Z.mod_small by lia. eexists _, _. split; [done|]. split; [lia|]. split; [lia|].
  split.
  - rewrite Z.mod_add, Z.mod_small by lia. done.
  - cbn [writeOffset with_cell cell_size].
    destruct (writeOffset r + 16 + len m <=? cell_size r - 8) eqn:E1; zbool.
    + replace (cell_size r <? _) with false by (symmetry; apply Z.ltb_ge; lia). lia.
    + replace (cell_size r <? _) with true by (symmetry; apply Z.ltb_lt; lia).
      assert (E2 : (writeOffset r + (16 + len m) + 8) mod cell_size r =
                   16 + len m - (cell_size r - writeOffset r - 8)).
      { symmetry. apply (Z.mod_unique_pos _ _ 1); lia. }
      rewrite E2. lia.
Qed.

(** [writeBefore] patches the first field of the previous packet's header.
    An accepted patch of the 4-byte flow distance at the previous packet's
    position replaces [ts_h] (the first 4 bytes of the header) and leaves
    [flow_next_diff] as it was, so the link a query follows stays the maximal
    value the header was written with. *)
Theorem writeBefore_overwrites_ts_h s last diff h D bs :
  buf_ok (block_buffer s) (thread_id (reader s)) D bs -> 16 <= bs ->
  0 <= last -> last + 16 <= D * bs -> is_u 32 diff ->
  accepted (block_buffer s) 4 last = true ->
  stored (block_buffer s) last (header_bytes h) ->
  exists s', writeBefore s (le_bytes 4 diff) 4 last = Ok s' /\
    stored (block_buffer s') last
      (header_bytes {| ts_h := diff; ts_l := ts_l h; caplen := caplen h;
                       flow_next_diff := flow_next_diff h |}).
Proof.
  intros Hb Hbs Hl Hl2 Hd Ha Hs.
  assert (Hco : call_ok (block_buffer s) (le_bytes 4 diff) 4 last (thread_id (reader s))).
  { eapply buf_ok_call; eauto; rewrite ?zlen_le_bytes; lia. }
  destruct (writeBlock_written (block_buffer s) (le_bytes 4 diff) 4 last (thread_id (reader s))
    false false 0 (bo_wf _ _ _ _ Hb) Hco) as (b' & E & Hwr).
  exists (with_block_buffer s b'). unfold writeBefore. rewrite E. split; [done|].
  pose proof Hb as []. cbn [block_buffer with_block_buffer]. unfold header_bytes in Hs.
  apply stored_app in Hs as [Hs1 Hs2]. apply stored_app. split.
  - pose proof (written_stored _ _ _ _ _ _ _ _ bo_wf0 Hco Ha Hwr) as H.
    by rewrite (take_all 4) in H.
  - cbn [ts_h ts_l caplen flow_next_diff]. rewrite zlen_le_bytes in Hs2 |- *.
    assert (Hz : zlen (le_bytes 4 (ts_l h) ++ le_bytes 4 (caplen h) ++
                       le_bytes 4 (flow_next_diff h)) = 12) by (by rewrite !zlen_app, !zlen_le_bytes).
    unfold disk_bytes in *. subst D bs.
    eapply (written_preserves _ _ _ _ _ _ _ _ _ _ bo_wf0 Hco Ha Hwr);
      [..|exact Hs2]; unfold disk_bytes; rewrite ?Hz; change (Z.of_nat 4) with 4; lia.
Qed.

(** [swap_endianness] is not a byte swap: its result depends only on the
    bytes 2, 6 and 7 of its argument, so IPv6 addresses that differ in the
    other bytes of a half get the same key. *)
Theorem swap_endianness_ignores_bytes v w :
  (forall n, 16 <= n < 24 \/ 48 <= n < 64 -> Z.testbit v n = Z.testbit w n) ->
  swap_endianness v = swap_endianness w /\
  swap_endianness 0x0123456789ABCDEF <> le_val (rev (le_bytes 8 0x0123456789ABCDEF)).
Proof. intros H. split; [by apply swap_endianness_ext|vm_compute; discriminate]. Qed.

(** the metadata of an IPv4 packet.  For a packet whose IP header starts
    right after the link header and that is long enough for its ports, the
    addresses are the header's addresses in host byte order and the ports are
    the big-endian numbers after the header. *)
Theorem getFlowMetaData_ipv4 r m p ihl a0 a1 a2 a3 c0 c1 c2 c3 p0 p1 p2 p3 front rest :
  payload_ptr r m = Ok p -> 5 <= ihl <= 15 ->
  p = (64 + ihl) :: front ++ [a0; a1; a2; a3; c0; c1; c2; c3] ++ rest ->
  zlen front = 11 -> Forall (is_u 8) [a0; a1; a2; a3] -> Forall (is_u 8) [c0; c1; c2; c3] ->
  Forall (is_u 8) [p0; p1; p2; p3] ->
  zslice (ihl * 4) 4 p = [p0; p1; p2; p3] ->
  exists r', getFlowMetaData r m = Ok (
    {| sourceAddress := [a3; a2; a1; a0]; destinationAddress := [c3; c2; c1; c0];
       sourcePort := p0 * 256 + p1; destinationPort := p2 * 256 + p3 |}, r').
Proof.
  intros Hp Hi Ep Hf Ha Hcs Hports Hsl. unfold getFlowMetaData.
  assert (Hpp : payload_ptr (with_byteLen r (u64 (byteLen r + len m))) m = Ok p) by exact Hp.
  rewrite Hpp. cbn [mbind res_bind].
  assert (Hlen : ihl * 4 + 4 <= zlen p).
  { assert (Hz : zlen (zslice (ihl * 4) 4 p) = 4) by (by rewrite Hsl).
    unfold zlen, zslice in *. rewrite length_take, length_drop in Hz. lia. }
  assert (H0 : zget p 0 = Ok (64 + ihl)) by (by rewrite Ep). rewrite H0. cbn [mbind res_bind].
  assert (Hv : Z.land (Z.shiftr (64 + ihl) 4) 15 = 4 /\ Z.land (64 + ihl) 15 = ihl).
  { assert (ihl = 5 \/ ihl = 6 \/ ihl = 7 \/ ihl = 8 \/ ihl = 9 \/ ihl = 10 \/ ihl = 11 \/
      ihl = 12 \/ ihl = 13 \/ ihl = 14 \/ ihl = 15) as H by lia.
    repeat (destruct H as [->|H]; [done|]). by subst ihl. }
  destruct Hv as [-> ->]. cbn [Z.eqb Pos.eqb].
  assert (H2 : forall o, 0 <= o <= 2 -> zslice (ihl * 4 + o) 2 p =
    take 2 (drop (Z.to_nat o) [p0; p1; p2; p3])).
  { intros o Ho. rewrite <-Hsl. unfold zslice.
    rewrite skipn_firstn_comm, take_take, drop_drop. f_equal; [|f_equal]; lia. }
  rewrite !load_ok by lia. cbn [mbind res_bind].
  pose proof (H2 0 ltac:(lia)) as E0. pose proof (H2 2 ltac:(lia)) as E2.
  rewrite Z.add_0_r in E0. change (Z.of_nat 2) with 2. change (Z.of_nat 4) with 4.
  rewrite E0, E2. clear E0 E2.
  assert (Hz4 : forall o k, 12 <= o -> zslice o k p = take (Z.to_nat k) (drop (Z.to_nat (o - 12))
    ([a0; a1; a2; a3; c0; c1; c2; c3] ++ rest))).
  { intros o k Ho. unfold zslice. rewrite Ep. f_equal.
    replace (Z.to_nat o) with (S (length front + Z.to_nat (o - 12))) by (unfold zlen in Hf; lia).
    cbn [drop]. rewrite <-drop_drop, drop_app_length. done. }
  rewrite !Hz4 by lia. eexists. rewrite !Forall_cons in Hports. destruct Hports as (U0&U1&U2&U3&_).
  pose proof (htonl_bytes a0 a1 a2 a3 Ha) as HA. pose proof (htonl_bytes c0 c1 c2 c3 Hcs) as HC.
  f_equal. f_equal; f_equal; first [exact HA|exact HC|by apply htons_bytes].
Qed.

(** ** Witnesses *)

(** Blocks of 256 bytes, cells of 64, a disk of 32 blocks, one writer. *)
Definition demo_state : RState :=
  let b := from_res (mkDBB 0 0 0 0 0 0 [] [] [] [] [] [] [])
             (new_DataBlockBuffer true 4 256 32 1 0) in
  match new_DPDKReader 14 (32 * 256) 256 64 0 0 4096 b with
  | Ok (r, b, c) => mkRState (with_cell r c 0) b (c + 1)
      (from_res (Spsc.mkRing 0 0 0 None false) (Spsc.new_ring true 16 (0, 0, false))) ∅ 1
  | _ => mkRState (mkReader 0 0 0 0 0 0 0 (new_PacketAggregator 0 0) 0 0 0 0) b 0
           (Spsc.mkRing 0 0 0 None false) ∅ 1
  end.

(** An IPv4 packet of 14 + 28 bytes: 10.0.0.1:4660 -> 10.0.0.2:80. *)
Definition demo_packet : list Z :=
  replicate 14 255 ++ [69; 0; 0; 28; 0; 0; 0; 0; 64; 17; 0; 0; 10; 0; 0; 1; 10; 0; 0; 2;
                       18; 52; 0; 80; 1; 2; 3; 4].

Definition demo_meta : PacketMeta := readPacket (reader demo_state) demo_packet 7.

(** The state after [getOffset], with the cell change pending. *)
Definition demo_cross : RState :=
  with_reader demo_state (with_cell (reader demo_state) 0 (30 + 44 + 8)).

(** [buf_ok] of a concrete buffer, by evaluation. *)
Definition buf_okb (b : DataBlockBuffer) (t D bs : Z) : bool :=
  let T := total_block_num b in
  forallb id [0 <? T; 0 <? Data.block_size b; buffer_size b =? T * Data.block_size b;
    buffer_size b <? 2 ^ 62; T * DISK_BLOCK_TIMES <? disk_block_num b;
    disk_block_num b <? 2 ^ 62; 0 <? rss_num b; 0 <? Data.block_size b / rss_num b;
    T * rss_num b <? 2 ^ 62; zlen (buffer_blocks b) =? buffer_size b;
    zlen (block_disk_id b) =? T;
    forallb (fun i => (0 <=? at_ (block_disk_id b) i) && (at_ (block_disk_id b) i <? disk_block_num b)) (zseq T);
    zlen (start_times b) =? T; zlen (end_times b) =? T; zlen (packet_counts b) =? T * rss_num b;
    0 <=? t; t <? rss_num b; t <? zlen (disk_write_ids b); disk_block_num b =? D;
    Data.block_size b =? bs; disk_bytes b <? 2 ^ 62].

Lemma buf_okb_ok b t D bs : buf_okb b t D bs = true -> buf_ok b t D bs.
Proof.
  unfold buf_okb. cbv zeta. intros H.
  rewrite forallb_forall in H.
  repeat match type of H with
  | forall x, In x (?c :: ?l) -> _ =>
      let K := fresh "K" in
      assert (K : c = true) by (apply (H c); left; reflexivity);
      assert (H' : forall x, In x l -> id x = true) by (intros; apply H; right; done);
      clear H; rename H' into H
  end.
  clear H. rewrite ?Z.ltb_lt, ?Z.leb_le, ?Z.eqb_eq in *.
  split; try done. split; try done.
  intros i Hi. rewrite forallb_forall in K10.
  assert (Hin : In i (zseq (total_block_num b))) by (apply list_elem_of_In, elem_of_zseq; done).
  apply K10 in Hin. zlia.
Qed.

Lemma demo_buf_ok : buf_ok (block_buffer demo_state) 0 32 256.
Proof. apply buf_okb_ok. vm_compute. reflexivity. Qed.

(** The second packet of a cell: its payload is cut after 10 bytes and starts
    again in cell 1. *)
Lemma reader_packet_layout_witness :
  exists s', writePacketToPacketBuffer demo_cross demo_meta 7 30 true = Ok s' /\
    stored (block_buffer s') 64 (take 18 (drop 14 demo_packet)).
Proof.
  destruct (writePacketToPacketBuffer demo_cross demo_meta 7 30 true) as [s'| | |] eqn:E;
    [|vm_compute in E; discriminate E..].
  exists s'. split; [reflexivity|].
  assert (HF : Forall (fun '(p, l) => stored (block_buffer s') p l)
                 (layout demo_cross demo_meta 30 (drop 14 demo_packet))).
  { apply (reader_packet_layout demo_cross demo_meta 30 7 true (drop 14 demo_packet) 32 256).
    - split.
      + exact demo_buf_ok.
      + vm_compute. split; discriminate.
      + vm_compute. split; reflexivity.
      + vm_compute. split; [discriminate|reflexivity].
      + vm_compute. reflexivity.
      + vm_compute. split; [split; discriminate|discriminate].
      + vm_compute. discriminate.
      + intros H. exfalso. apply H. reflexivity.
      + intros _. vm_compute. reflexivity.
      + intros _. vm_compute. discriminate.
    - exact E. }
  vm_compute layout in HF. apply Forall_inv_tail, Forall_inv_tail, Forall_inv in HF. exact HF.
Defined.

Lemma getOffset_cell_accounting_witness :
  exists off r', getOffset (reader demo_state) demo_meta = Ok (off, r') /\
    off = 0 /\ writeOffset r' = 44.
Proof.
  destruct (getOffset_cell_accounting (reader demo_state) demo_meta) as (off & r' & E & Ho & _ & _ & H);
    try (vm_compute; (reflexivity || discriminate || (split; (discriminate || reflexivity)))).
  exists off, r'. split; [exact E|]. split; [exact Ho|]. exact (proj1 H).
Defined.

(** A stored piece of bytes of a concrete buffer, by evaluation. *)
Definition storedb (b : DataBlockBuffer) (p : Z) (l : list Z) : bool :=
  forallb (fun j => owns b (p + j) && (byte b (p + j) =? at_ l j)) (zseq (zlen l)).

Lemma storedb_ok b p l : storedb b p l = true -> stored b p l.
Proof.
  unfold storedb. rewrite forallb_forall. intros H j Hj.
  assert (Hin : In j (zseq (zlen l))) by (apply list_elem_of_In, elem_of_zseq; done).
  apply H, andb_true_iff in Hin as [? ?%Z.eqb_eq]. done.
Qed.

Definition demo_written : RState :=
  from_res demo_state (writePacketToPacketBuffer demo_state demo_meta 7 0 true).

Lemma writeBefore_overwrites_ts_h_witness :
  exists s', writeBefore demo_written (le_bytes 4 5) 4 0 = Ok s' /\
    stored (block_buffer s') 0 (header_bytes (mkHeader 5 7 28 MAX32)).
Proof.
  destruct (writeBefore_overwrites_ts_h demo_written 0 5 (mkHeader 0 7 28 MAX32) 32 256)
    as (s' & E & H).
  - apply buf_okb_ok. vm_compute. reflexivity.
  - lia.
  - lia.
  - lia.
  - unfold is_u. lia.
  - vm_compute. reflexivity.
  - apply storedb_ok. vm_compute. reflexivity.
  - exists s'. split; [exact E|exact H].
Defined.

Lemma swap_endianness_ignores_bytes_witness :
  swap_endianness 0x20010DB800000001 = swap_endianness 0x20010DB8FF000002.
Proof.
  apply (swap_endianness_ignores_bytes 0x20010DB800000001 0x20010DB8FF000002).
  assert (H : forallb (fun n => negb ((16 <=? n) && (n <? 24) || (48 <=? n))
    || eqb (Z.testbit 0x20010DB800000001 n) (Z.testbit 0x20010DB8FF000002 n)) (zseq 64) = true)
    by (vm_compute; reflexivity).
  rewrite forallb_forall in H. intros n Hn.
  assert (Hin : In n (zseq 64)) by (apply list_elem_of_In, elem_of_zseq; lia).
  apply H, orb_true_iff in Hin as [Hc|Hc].
  - exfalso. apply negb_true_iff, orb_false_iff in Hc as [Hc1 Hc2].
    apply andb_false_iff in Hc1 as [?|?]; zlia.
  - apply eqb_prop, Hc.
Defined.

Lemma getFlowMetaData_ipv4_witness :
  exists r', getFlowMetaData (reader demo_state) demo_meta =
    Ok (mkMeta [1; 0; 0; 10] [2; 0; 0; 10] 4660 80, r').
Proof.
  refine (getFlowMetaData_ipv4 (reader demo_state) demo_meta (drop 14 demo_packet) 5
    10 0 0 1 10 0 0 2 18 52 0 80 [0; 0; 28; 0; 0; 0; 0; 64; 17; 0; 0] [18; 52; 0; 80; 1; 2; 3; 4]
    _ _ _ _ _ _ _ _).
  - vm_compute. reflexivity.
  - lia.
  - reflexivity.
  - reflexivity.
  - rewrite !Forall_cons. unfold is_u. split_and!; try lia. constructor.
  - rewrite !Forall_cons. unfold is_u. split_and!; try lia. constructor.
  - rewrite !Forall_cons. unfold is_u. split_and!; try lia. constructor.
  - reflexivity.
Defined.

End ReaderProofs.
