(* ===== verification/Disk.v ===== *)
(** * Disk metadata, the disk agent and its managers

    dpdk_lib/diskBuffer.hpp (the table of per-block metadata that queries
    read), dpdk_lib/diskAgent.hpp (asynchronous block I/O through liburing),
    dpdk_component/diskManager.cpp (hands released blocks to an agent) and
    dpdk_component/memoryManager.cpp (recycles the blocks whose write is
    finished).  liburing is not part of the sources: it is the interface
    [IoUring].  What other threads do between two iterations of a manager's
    loop is an input of the loop. *)
From S2P Require Import Prelude Util BitMap PrefixBloom BlockBuffer.
From Stdlib Require Import ZArith Lia.

(** ** The metadata table *)
Module DiskTable.

Record DiskMeta := mkDiskMeta {
  bloomFilterMeta : PrefixBloomFilter;
  start_time : Z;
  end_time : Z;
  disk_index_meta : list Z;
  packet_count : Z }.

Record DiskBuffer := mkDB { block_num : Z; disk_metas : list DiskMeta }.

(** [DiskMeta::init] on the zeroed memory of the mapping. *)
Definition init_meta (k : Z) : DiskMeta :=
  {| bloomFilterMeta := init new_PBF k; start_time := 0; end_time := 0;
     disk_index_meta := replicate (Z.to_nat (index_type_code TOTAL_INDEX * 2)) 0;
     packet_count := 0 |}.

Definition new_DiskBuffer (mmap_ok : bool) (n k : Z) : res DiskBuffer :=
  if negb mmap_ok then Throws
  else Ok {| block_num := n; disk_metas := replicate (Z.to_nat n) (init_meta k) |}.

Definition getDiskMeta (d : DiskBuffer) (index : Z) : res (option DiskMeta) :=
  if index <? block_num d then m ← zget (disk_metas d) index; Ok (Some m) else Ok None.

(** A setter: the block's entry is replaced, an index out of bounds only prints. *)
Definition update (d : DiskBuffer) (index : Z) (f : DiskMeta -> res DiskMeta) : res DiskBuffer :=
  if index <? block_num d then
    m ← zget (disk_metas d) index;
    m' ← f m;
    l ← zset (disk_metas d) index m';
    Ok {| block_num := block_num d; disk_metas := l |}
  else Ok d.

Definition setIndexID (d : DiskBuffer) (index : Z) (t : Z) (index_start index_end : Z)
  : res DiskBuffer :=
  update d index (fun m =>
    l ← zset (disk_index_meta m) (t * 2) index_start;
    l ← zset l (t * 2 + 1) index_end;
    Ok {| bloomFilterMeta := bloomFilterMeta m; start_time := start_time m;
          end_time := end_time m; disk_index_meta := l; packet_count := packet_count m |}).

Definition with_filter (m : DiskMeta) (f : PrefixBloomFilter) : DiskMeta :=
  {| bloomFilterMeta := f; start_time := start_time m; end_time := end_time m;
     disk_index_meta := disk_index_meta m; packet_count := packet_count m |}.

Definition setBloomFilterWritingCol (b : BitMap) (d : DiskBuffer) (id col : Z) : res DiskBuffer :=
  update d id (fun m => Ok (with_filter m (setWritingCol (bloomFilterMeta m) b col))).
Definition setBloomFilterReadingCol (b : BitMap) (d : DiskBuffer) (id col : Z) : res DiskBuffer :=
  update d id (fun m => Ok (with_filter m (setReadingCol (bloomFilterMeta m) b col))).

Definition setPacketCount (d : DiskBuffer) (id n : Z) : res DiskBuffer :=
  update d id (fun m =>
    Ok {| bloomFilterMeta := bloomFilterMeta m; start_time := start_time m;
          end_time := end_time m; disk_index_meta := disk_index_meta m; packet_count := n |}).
Definition clearPacketCount (d : DiskBuffer) (id : Z) : res DiskBuffer := setPacketCount d id 0.

Definition setTime (d : DiskBuffer) (id st et : Z) : res DiskBuffer :=
  update d id (fun m =>
    Ok {| bloomFilterMeta := bloomFilterMeta m; start_time := st; end_time := et;
          disk_index_meta := disk_index_meta m; packet_count := packet_count m |}).

Section check.
Context (hash_str : list Z -> Z) (hash_u64 : Z -> Z).

(** [checkKey]: [key] are the bytes the key pointer points to. *)
Definition checkKey (b : BitMap) (d : DiskBuffer) (id : Z) (key : list Z) (t : IndexType)
  : res bool :=
  if block_num d <=? id then Ok false else
  m ← zget (disk_metas d) id;
  match t with
  | SRCIP | DSTIP =>
      k ← zread key 0 4; getIPv4 hash_str hash_u64 (bloomFilterMeta m) b (le_val k) t
  | SRCPORT | DSTPORT =>
      k ← zread key 0 2; getPort (bloomFilterMeta m) b (le_val k) t
  | SRCIPv6 | DSTIPv6 =>
      k ← zread key 0 16; getIPv6 hash_str hash_u64 (bloomFilterMeta m) b (key_dec (KeyBytes := key16) k) t
  | TOTAL_INDEX => Ok false
  end.
End check.

Definition wf (d : DiskBuffer) : Prop := zlen (disk_metas d) = block_num d.

End DiskTable.

(** ** liburing *)

(** A request: a write of [len] bytes from memory address [addr], or a read
    of [len] bytes, at a byte offset of the disk, with its [user_data]. *)
Inductive request :=
| WriteReq (addr len offset user_data : Z)
| ReadReq (len offset user_data : Z).

(** A completion: the result code, the [user_data] of its request and, for a
    read, the bytes that were transferred to the request's buffer. *)
Record completion := mkCqe { cqe_res : Z; cqe_data : Z; cqe_bytes : list Z }.

(** The calls the agent makes; [R] is the state of a ring.  [submit] prepares
    the entry that [get_sqe] reserved and submits it; codes below zero are
    failures. *)
Class IoUring (R : Type) := {
  queue_init : Z -> Z -> Z * R;
  get_sqe : R -> option R;
  submit : R -> request -> Z * R;
  wait_cqe : R -> Z * option completion * R;
  peek_cqe : R -> option completion * R;
  cqe_seen : R -> R;
  sq_ready : R -> Z;
  cq_ready : R -> Z }.

(** ** The agent *)
Module Agent.
Section agent.
Context {R : Type} `{IoUring R}.

Record DiskAgent := mkAgent {
  disk_size : Z;
  block_size : Z;
  block_num : Z;
  ring_depth : Z;
  basic_offset : Z;
  ring : option R }.

Definition with_ring (a : DiskAgent) (r : R) : DiskAgent :=
  {| disk_size := disk_size a; block_size := block_size a; block_num := block_num a;
     ring_depth := ring_depth a; basic_offset := basic_offset a; ring := Some r |}.

Definition new_DiskAgent (size bs basic depth : Z) : res DiskAgent :=
  if bs =? 0 then Undef
  else if negb (size mod bs =? 0) then Throws
  else Ok {| disk_size := size; block_size := bs; block_num := size / bs;
             ring_depth := depth; basic_offset := basic; ring := None |}.

Definition getBlockSize (a : DiskAgent) : Z := u32 (block_size a).

Definition kernel_run (a : DiskAgent) (cpu_core : Z) : res (bool * DiskAgent) :=
  let '(ret, r) := queue_init (ring_depth a) cpu_core in
  if ret <? 0 then Throws else Ok (true, with_ring a r).

Definition asyncWrite (a : DiskAgent) (buffer block_id write_pos : Z) : res (bool * DiskAgent) :=
  if block_num a <? write_pos then Ok (false, a) else
  match ring a with
  | None => Undef
  | Some r =>
      match get_sqe r with
      | None => Ok (false, a)
      | Some r =>
          let offset := u64 (write_pos * block_size a) in
          let '(ret, r) := submit r (WriteReq buffer (block_size a)
                             (u64 (offset + basic_offset a)) block_id) in
          Ok (negb (ret <? 0), with_ring a r)
      end
  end.

(** [processCompletions]: a failed completion is not marked as seen. *)
Definition processCompletions (a : DiskAgent) : res (Z * DiskAgent) :=
  match ring a with
  | None => Undef
  | Some r =>
      let '(c, r) := peek_cqe r in
      match c with
      | None => Ok (MAX64, with_ring a r)
      | Some c =>
          if cqe_res c <? 0 then Ok (MAX64, with_ring a r)
          else Ok (cqe_data c, with_ring a (cqe_seen r))
      end
  end.

(** The common part of both [read] overloads: the bytes land in [dst] from
    [doff] on; a short transfer is not noticed. *)
Definition read_at (a : DiskAgent) (dst : list Z) (doff len offset user_data : Z)
  : res (bool * list Z * DiskAgent) :=
  match ring a with
  | None => Undef
  | Some r =>
      match get_sqe r with
      | None => Ok (false, dst, a)
      | Some r =>
          let '(ret, r) := submit r (ReadReq len (u64 (offset + basic_offset a)) user_data) in
          if ret <? 0 then Ok (false, dst, with_ring a r) else
          let '(ret, c, r) := wait_cqe r in
          if ret <? 0 then Ok (false, dst, with_ring a r) else
          match c with
          | None => Undef
          | Some c =>
              dst ← memcpy dst doff (cqe_bytes c) 0 (zlen (cqe_bytes c));
              if cqe_res c <? 0 then Ok (false, dst, with_ring a r)
              else Ok (true, dst, with_ring a (cqe_seen r))
          end
      end
  end.

(** [read(buffer, id)] *)
Definition read (a : DiskAgent) (dst : list Z) (doff id : Z) : res (bool * list Z * DiskAgent) :=
  if block_num a <=? id then Ok (false, dst, a)
  else read_at a dst doff (block_size a) (u64 (id * block_size a)) id.

(** [read(buffer, begin_id, end_id)] *)
Definition read_range (a : DiskAgent) (dst : list Z) (doff begin_id end_id : Z)
  : res (bool * list Z * DiskAgent) :=
  if (block_num a <=? begin_id) || (block_num a <? end_id) || (end_id <? begin_id)
  then Ok (false, dst, a)
  else read_at a dst doff (u64 (u64 (end_id - begin_id + 1) * block_size a))
         (u64 (begin_id * block_size a)) begin_id.

Definition jobFinished (a : DiskAgent) : res bool :=
  match ring a with
  | None => Undef
  | Some r => Ok ((sq_ready r =? 0) && (cq_ready r =? 0))
  end.
End agent.
Arguments DiskAgent : clear implicits.
End Agent.

(** ** The managers *)
Inductive AgentType := DATA_AGENT | INDEX_AGENT | TOTAL_AGENT.

(** The [void*] block buffer with the agent type it is cast by. *)
Inductive AnyBuffer :=
| DataBuf (b : Data.DataBlockBuffer)
| IndexBuf (b : IndexB.IndexBlockBuffer)
| NoBuf.

Definition agent_type (b : AnyBuffer) : AgentType :=
  match b with DataBuf _ => DATA_AGENT | IndexBuf _ => INDEX_AGENT | NoBuf => TOTAL_AGENT end.

Definition recycle (b : AnyBuffer) (id : Z) : res AnyBuffer :=
  match b with
  | DataBuf b => b ← Data.recycleBlock b id; Ok (DataBuf b)
  | IndexBuf b => b ← IndexB.recycleBlock b id; Ok (IndexBuf b)
  | NoBuf => Ok NoBuf
  end.

Module Manager.
Section manager.
Context {R : Type} `{IoUring R}.
(** A disk manager and the structures it shares. *)
Record DiskManager := mkManager {
  block_buffer : AnyBuffer;
  agents : list (Agent.DiskAgent R);
  disk_buffer : DiskTable.DiskBuffer;
  thread_id : Z }.

Definition with_bb (m : DiskManager) (b : AnyBuffer) : DiskManager :=
  mkManager b (agents m) (disk_buffer m) (thread_id m).
Definition with_agents (m : DiskManager) (l : list (Agent.DiskAgent R)) : DiskManager :=
  mkManager (block_buffer m) l (disk_buffer m) (thread_id m).
Definition with_db (m : DiskManager) (d : DiskTable.DiskBuffer) : DiskManager :=
  mkManager (block_buffer m) (agents m) d (thread_id m).

(** The constructor registers a check thread of the block buffer. *)
Definition new_DiskManager (size bs : Z) (b : AnyBuffer) (d : DiskTable.DiskBuffer)
  : res DiskManager :=
  if bs =? 0 then Undef else
  match b with
  | DataBuf b => let '(id, b) := Data.addCheckThread b in Ok (mkManager (DataBuf b) [] d id)
  | IndexBuf b => let '(id, b) := IndexB.addCheckThread b in Ok (mkManager (IndexBuf b) [] d id)
  | NoBuf => Ok (mkManager NoBuf [] d MAX64)
  end.

Definition addAgent (m : DiskManager) (a : option (Agent.DiskAgent R)) : DiskManager :=
  match a with None => m | Some a => with_agents m (agents m ++ [a]) end.

Definition setThreadID (m : DiskManager) (id : Z) : DiskManager :=
  mkManager (block_buffer m) (agents m) (disk_buffer m) id.

(** [addBlock]: the write request, or the block's recycling when it fails. *)
Definition addBlock (m : DiskManager) (buffer block_id write_pos : Z) : res DiskManager :=
  match block_buffer m with
  | NoBuf => Ok m
  | _ =>
      if zlen (agents m) =? 0 then Undef else
      let agent_id := u32 (block_id mod zlen (agents m)) in
      a ← zget (agents m) agent_id;
      '(ok, a) ← Agent.asyncWrite a buffer block_id write_pos;
      l ← zset (agents m) agent_id a;
      let m := with_agents m l in
      if negb ok then b ← recycle (block_buffer m) block_id; Ok (with_bb m b) else Ok m
  end.

(** One released data block: its metadata is recorded and it is written. *)
Definition take_data (m : DiskManager) (b : Data.DataBlockBuffer) : res DiskManager :=
  '(blk, b) ← Data.getBlock b (thread_id m);
  let m := with_bb m (DataBuf b) in
  d ← DiskTable.setTime (disk_buffer m) (Data.write_pos blk) (Data.start_time blk) (Data.end_time blk);
  d ← DiskTable.setPacketCount d (Data.write_pos blk) (Data.packet_count blk);
  addBlock (with_db m d) (Data.buffer_off blk) (Data.block_id blk) (Data.write_pos blk).

Definition take_index (m : DiskManager) (b : IndexB.IndexBlockBuffer) : res DiskManager :=
  '(blk, b) ← IndexB.getBlock b (thread_id m);
  addBlock (with_bb m (IndexBuf b)) (IndexB.buffer_off blk) (IndexB.block_id blk) (IndexB.write_pos blk).

(** One turn of the first loop of [runData] or [runIndex]. *)
Definition check_turn (m : DiskManager) : res DiskManager :=
  match block_buffer m with
  | DataBuf b =>
      id ← Data.checkBlock b (thread_id m); if id =? MAX64 then Ok m else take_data m b
  | IndexBuf b =>
      id ← IndexB.checkBlock b (thread_id m); if id =? MAX64 then Ok m else take_index m b
  | NoBuf => Ok m
  end.

(** One turn of the second loop; [None] ends it. *)
Definition drain_turn (m : DiskManager) : res (option DiskManager) :=
  match block_buffer m with
  | DataBuf b =>
      id ← Data.directGetBlockID b (thread_id m);
      if id =? MAX64 then Ok None else m ← take_data m b; Ok (Some m)
  | IndexBuf b =>
      id ← IndexB.directCheckBlock b (thread_id m);
      if id =? MAX64 then Ok None else m ← take_index m b; Ok (Some m)
  | NoBuf => Ok None
  end.

(** The loops; [env] is what the other threads do before a turn, with the stop
    flag the turn reads.  A loop that is not left within its input is still
    running: [Blocks]. *)
Fixpoint check_loop (m : DiskManager) (env : list (bool * (DiskManager -> DiskManager)))
  : res (DiskManager * list (bool * (DiskManager -> DiskManager))) :=
  match env with
  | [] => Blocks
  | (stop, f) :: env =>
      let m := f m in
      if stop : bool then Ok (m, env) else m ← check_turn m; check_loop m env
  end.

Fixpoint drain_loop (m : DiskManager) (env : list (bool * (DiskManager -> DiskManager)))
  : res DiskManager :=
  match env with
  | [] => Blocks
  | (_, f) :: env =>
      let m := f m in
      r ← drain_turn m;
      match r with None => Ok m | Some m => drain_loop m env end
  end.

Definition run (m : DiskManager) (env : list (bool * (DiskManager -> DiskManager)))
  : res (Z * DiskManager) :=
  if thread_id m =? MAX64 then Ok (-1, m) else
  match block_buffer m with
  | NoBuf => Ok (0, m)
  | _ => '(m, env) ← check_loop m env; m ← drain_loop m env; Ok (0, m)
  end.

(** The memory manager: one pass over the agents, recycling finished blocks. *)
Fixpoint complete_agents (b : AnyBuffer) (l : list (Agent.DiskAgent R)) : res (AnyBuffer * list (Agent.DiskAgent R)) :=
  match l with
  | [] => Ok (b, [])
  | a :: l =>
      '(id, a) ← Agent.processCompletions a;
      b ← (if id =? MAX64 then Ok b else recycle b id);
      '(b, l) ← complete_agents b l;
      Ok (b, a :: l)
  end.

(** [while(!jobFinished()) processCompletions()], in at most [fuel] turns. *)
Fixpoint finish_agent (fuel : nat) (a : Agent.DiskAgent R) : res (Agent.DiskAgent R) :=
  match fuel with
  | O => Blocks
  | S fuel =>
      done ← Agent.jobFinished a;
      if done : bool then Ok a else '(_, a) ← Agent.processCompletions a; finish_agent fuel a
  end.

Fixpoint finish_agents (fuel : nat) (l : list (Agent.DiskAgent R)) : res (list (Agent.DiskAgent R)) :=
  match l with
  | [] => Ok []
  | a :: l => a ← finish_agent fuel a; l ← finish_agents fuel l; Ok (a :: l)
  end.

(** [MemoryManager::run], with the stop flag each pass reads and what the other
    threads did to the buffer and the rings before it. *)
Fixpoint memory_run (fuel : nat) (b : AnyBuffer) (l : list (Agent.DiskAgent R))
  (env : list (bool * (AnyBuffer * list (Agent.DiskAgent R) -> AnyBuffer * list (Agent.DiskAgent R))))
  : res (AnyBuffer * list (Agent.DiskAgent R)) :=
  match env with
  | [] => Blocks
  | (stop, f) :: env =>
      let '(b, l) := f (b, l) in
      if stop : bool then
        l ← finish_agents fuel l; Ok (b, l)
      else '(b, l) ← complete_agents b l; memory_run fuel b l env
  end.
End manager.
Arguments DiskManager : clear implicits.
End Manager.

(** ** The ring's documented behaviour *)

(** A synchronous request got through: an entry was free, the submission was
    accepted, and the completion that was waited for is not a failure. *)
Definition served {R} `{IoUring R} (r : R) (rq : request) (bytes : list Z) (r' : R) : Prop :=
  exists r1 ret r2 ret' c r3, get_sqe r = Some r1 /\ submit r1 rq = (ret, r2) /\ 0 <= ret /\
    wait_cqe r2 = (ret', Some c, r3) /\ 0 <= ret' /\ 0 <= cqe_res c /\
    bytes = cqe_bytes c /\ r' = cqe_seen r3.

(** [quiet]: nothing is outstanding; [disk]: the device behind the ring;
    [pending r c]: [c] is the oldest completion that is not marked as seen. *)
Class IoUringLaws (R : Type) `{IoUring R} := {
  quiet : R -> Prop;
  disk : R -> list Z;
  pending : R -> completion -> Prop;
  sync_read r len off ud bytes r' :
    quiet r -> 0 <= off -> 0 <= len -> off + len <= zlen (disk r) ->
    served r (ReadReq len off ud) bytes r' ->
    bytes = zslice off len (disk r) /\ quiet r' /\ disk r' = disk r;
  pending_peek r c : pending r c -> exists r', peek_cqe r = (Some c, r') /\ pending r' c;
  pending_ready r c : pending r c -> cq_ready r <> 0 }.

(** ** The agent's properties *)
Module AgentProofs.
Import Agent.

Section proofs.
Context {R : Type} `{IoUringLaws R}.

Record wf (a : DiskAgent R) : Prop := {
  wf_bs : 0 < block_size a;
  wf_num : 0 <= block_num a;
  wf_size : disk_size a = block_num a * block_size a;
  wf_basic : 0 <= basic_offset a;
  wf_small : basic_offset a + disk_size a + block_size a < 2 ^ 63 }.

Lemma new_DiskAgent_wf size bs basic depth (a : DiskAgent R) :
  new_DiskAgent size bs basic depth = Ok a ->
  0 < bs -> 0 <= size -> 0 <= basic -> basic + size + bs < 2 ^ 63 -> wf a.
Proof.
  unfold new_DiskAgent. intros E ? ? ? ?. repeat case_test; try discriminate E. injection E as <-.
  zbool. pose proof (Z.div_mod size bs). split; simpl; lia.
Qed.

(** Positions inside the agent's area do not overflow. *)
Lemma block_offset a id : wf a -> 0 <= id <= block_num a ->
  u64 (u64 (id * block_size a) + basic_offset a) = basic_offset a + id * block_size a /\
  id * block_size a <= disk_size a.
Proof. intros [] ?. assert (id * block_size a <= disk_size a) by nia. rewrite !u64_small; rewrite ?u64_small; nia. Qed.

Lemma read_at_served (a : DiskAgent R) r dst doff len off ud bytes r' :
  ring a = Some r -> served r (ReadReq len (u64 (off + basic_offset a)) ud) bytes r' ->
  0 <= doff -> doff + zlen bytes <= zlen dst ->
  read_at a dst doff len off ud = Ok (true, zsplice doff bytes dst, with_ring a r').
Proof.
  intros Hr (r1&ret&r2&ret'&c&r3&E1&E2&H3&E4&H5&H6&->&->) Hd Hf.
  unfold read_at. rewrite Hr, E1, E2. case_test; [zlia|]. rewrite E4. case_test; [zlia|].
  rewrite memcpy_Ok by (auto with traffic; pose proof (zlen_nonneg (cqe_bytes c)); lia).
  cbn [mbind res_bind]. case_test; [zlia|]. by rewrite zslice_full.
Qed.

(** reading blocks.  A read of block [id], or of the blocks [b..e], whose
    request the ring serves copies exactly the bytes of those blocks of the
    agent's area of the disk into the buffer; a block behind the area is
    refused without a request. *)
Theorem agent_read_returns_block (a : DiskAgent R) r dst doff :
  wf a -> ring a = Some r -> quiet r -> basic_offset a + disk_size a <= zlen (disk r) ->
  0 <= doff ->
  (forall id bytes r', 0 <= id < block_num a -> doff + block_size a <= zlen dst ->
     served r (ReadReq (block_size a) (basic_offset a + id * block_size a) id) bytes r' ->
     read a dst doff id =
       Ok (true, zsplice doff (zslice (basic_offset a + id * block_size a) (block_size a) (disk r)) dst,
           with_ring a r')) /\
  (forall b e bytes r', 0 <= b <= e -> e < block_num a ->
     doff + (e - b + 1) * block_size a <= zlen dst ->
     served r (ReadReq ((e - b + 1) * block_size a) (basic_offset a + b * block_size a) b) bytes r' ->
     read_range a dst doff b e =
       Ok (true, zsplice doff (zslice (basic_offset a + b * block_size a)
                                 ((e - b + 1) * block_size a) (disk r)) dst, with_ring a r')) /\
  (forall id, block_num a <= id -> read a dst doff id = Ok (false, dst, a)).
Proof.
  intros Hw Hr Hq Hd Ho. pose proof Hw as []. split; [|split].
  - intros id bytes r' Hid Hf Hs. destruct (block_offset a id Hw) as [E Hle]; [lia|].
    unfold read. case_test; [zlia|].
    destruct (fun x y z => sync_read _ _ _ _ _ _ Hq x y z Hs) as (Hb & _ & _); [nia..|].
    rewrite <-E in Hs. rewrite (read_at_served a r dst doff _ _ _ bytes r') by
      (try done; subst bytes; rewrite zlen_zslice; nia). by rewrite Hb.
  - intros b e bytes r' Hbe He Hf Hs. destruct (block_offset a b Hw) as [E Hle]; [lia|].
    assert ((e - b + 1) * block_size a <= disk_size a) by nia.
    assert (basic_offset a + b * block_size a + (e - b + 1) * block_size a <= zlen (disk r)) by nia.
    unfold read_range. case_test; [repeat (apply orb_true_iff in E0 as [E0|E0]); zlia|].
    destruct (fun x y z => sync_read _ _ _ _ _ _ Hq x y z Hs) as (Hb & _ & _); [nia..|].
    rewrite <-E in Hs. rewrite !(u64_small (e - b + 1)) by nia. rewrite (u64_small (_ * _)) by nia.
    rewrite (read_at_served a r dst doff _ _ _ bytes r') by
      (try done; subst bytes; rewrite zlen_zslice; nia). by rewrite Hb.
  - intros id Hid. unfold read. case_test; [done|zlia].
Qed.

(** the bound of a write.  A write position is refused only above the
    number of blocks, so the position equal to it is accepted although its
    request starts exactly behind the agent's area; below it the request lies
    inside the area. *)
Theorem asyncWrite_accepts_one_past_end (a : DiskAgent R) r buffer id pos :
  wf a -> ring a = Some r -> 0 <= pos ->
  (block_num a < pos -> asyncWrite a buffer id pos = Ok (false, a)) /\
  (pos <= block_num a ->
     (get_sqe r = None -> asyncWrite a buffer id pos = Ok (false, a)) /\
     (forall r1 ret r2, get_sqe r = Some r1 ->
        submit r1 (WriteReq buffer (block_size a) (basic_offset a + pos * block_size a) id) = (ret, r2) ->
        asyncWrite a buffer id pos = Ok (0 <=? ret, with_ring a r2)) /\
     (basic_offset a + pos * block_size a + block_size a <= basic_offset a + disk_size a <->
        pos < block_num a)).
Proof.
  intros Hw Hr Hp. pose proof Hw as []. unfold asyncWrite. split; [intros; case_test; [done|zlia]|].
  intros Hle. destruct (block_num a <? pos) eqn:Eb; [zlia|]. rewrite Hr. split; [by intros ->|]. split; [|nia].
  intros r1 ret r2 -> E2. destruct (block_offset a pos Hw) as [-> _]; [lia|]. rewrite E2.
  by rewrite Z.leb_antisym.
Qed.

(** [n] calls of [processCompletions] and what they return. *)
Fixpoint polls (n : nat) (a : DiskAgent R) : res (list Z * DiskAgent R) :=
  match n with
  | O => Ok ([], a)
  | S n => '(id, a) ← processCompletions a; '(l, a) ← polls n a; Ok (id :: l, a)
  end.

Lemma poll_failed (a : DiskAgent R) r c :
  ring a = Some r -> pending r c -> cqe_res c < 0 ->
  exists r', processCompletions a = Ok (MAX64, with_ring a r') /\ pending r' c.
Proof.
  intros Hr Hp Hc. destruct (pending_peek r c Hp) as (r' & E & Hp').
  exists r'. split; [|done]. unfold processCompletions. rewrite Hr, E. case_test; [done|zlia].
Qed.

(** a failed write wedges its agent.  A completion with an error is not
    marked as seen, so every later poll reports that nothing finished, the
    completions behind it are never delivered, and the loop that waits for the
    outstanding jobs at shutdown does not end. *)
Theorem failed_completion_blocks_agent (a : DiskAgent R) r c :
  ring a = Some r -> pending r c -> cqe_res c < 0 ->
  (forall n, exists a', polls n a = Ok (replicate n MAX64, a')) /\
  (forall fuel, Manager.finish_agent fuel a = Blocks).
Proof.
  intros Hr Hp Hc. split; intros n; revert a r Hr Hp; induction n as [|n IH]; intros a r Hr Hp.
  - by exists a.
  - destruct (poll_failed a r c) as (r' & E & Hp'); [done..|]. cbn [polls replicate]. rewrite E.
    cbn [mbind res_bind]. destruct (IH (with_ring a r') r') as (a' & ->); [done..|]. by exists a'.
  - done.
  - cbn [Manager.finish_agent]. unfold jobFinished. rewrite Hr. cbn [mbind res_bind].
    pose proof (pending_ready r c Hp). destruct (cq_ready r =? 0) eqn:Ec; [zlia|].
    rewrite andb_false_r. destruct (poll_failed a r c) as (r' & E & Hp'); [done..|]. rewrite E.
    cbn [mbind res_bind]. by apply (IH _ r').
Qed.
End proofs.
End AgentProofs.

(** ** The data manager's step *)
Module ManagerProofs.
Import Manager.

Lemma update_ok d i f m m' :
  DiskTable.wf d -> 0 <= i < DiskTable.block_num d ->
  zget (DiskTable.disk_metas d) i = Ok m -> f m = Ok m' ->
  DiskTable.update d i f =
    Ok {| DiskTable.block_num := DiskTable.block_num d;
          DiskTable.disk_metas := <[Z.to_nat i := m']> (DiskTable.disk_metas d) |}.
Proof.
  intros Hw Hi E1 E2. unfold DiskTable.update. case_test; [|zlia]. rewrite E1. cbn [mbind res_bind].
  rewrite E2. cbn [mbind res_bind]. unfold DiskTable.wf in Hw. rewrite zset_Ok by lia. done.
Qed.

(** What [setTime] and [setPacketCount] together leave in the table. *)
Lemma set_meta_ok d i st et n :
  DiskTable.wf d -> 0 <= i < DiskTable.block_num d ->
  exists d1 d2 m, DiskTable.setTime d i st et = Ok d1 /\ DiskTable.setPacketCount d1 i n = Ok d2 /\
    DiskTable.wf d2 /\ DiskTable.block_num d2 = DiskTable.block_num d /\
    zget (DiskTable.disk_metas d2) i = Ok m /\ DiskTable.start_time m = st /\
    DiskTable.end_time m = et /\ DiskTable.packet_count m = n /\
    forall j, j <> i -> zget (DiskTable.disk_metas d2) j = zget (DiskTable.disk_metas d) j.
Proof.
  intros Hw Hi. pose proof Hw as Hw'. unfold DiskTable.wf in Hw'.
  destruct (zget_lt (DiskTable.disk_metas d) i) as [m Hm]; [lia|].
  eexists _, _, _. split; [by eapply update_ok|]. split.
  - eapply update_ok; [|done| |done]; simpl.
    + unfold DiskTable.wf. simpl. by rewrite zlen_insert.
    + apply zget_insert_eq. lia.
  - split; [unfold DiskTable.wf; simpl; by rewrite !zlen_insert|]. split; [done|]. simpl.
    split; [apply zget_insert_eq; rewrite zlen_insert; lia|]. split; [done|]. split; [done|].
    split; [done|]. intros j Hj. by rewrite !zget_insert_ne by lia.
Qed.

Section step.
Context {R : Type} `{IoUring R}.

Lemma asyncWrite_total (a : Agent.DiskAgent R) buffer id pos :
  Agent.ring a <> None -> exists ok a', Agent.asyncWrite a buffer id pos = Ok (ok, a').
Proof.
  intros Hr. unfold Agent.asyncWrite. case_test; [eauto|].
  destruct (Agent.ring a) as [r|]; [|done]. destruct (get_sqe r); [|eauto].
  destruct (submit _ _). eauto.
Qed.

(** what becomes of a released data block.  The step always succeeds; the
    times and the number of packets collected for the block are recorded for
    its disk position and for no other; the block is offered to agent
    [id mod n] with the address and the disk position of the block; if the
    agent accepts it the block stays owned until its write completes,
    otherwise it is recycled at once to the next disk position of its slot. *)
Theorem take_data_spec (m : DiskManager R) (b : Data.DataBlockBuffer) (a : Agent.DiskAgent R) :
  let id := at_ (Data.block_check_ids b) (thread_id m) in
  let pos := at_ (Data.block_disk_id b) id in
  let n := zlen (agents m) in
  DataProofs.wf b -> 0 <= thread_id m < zlen (Data.block_check_ids b) ->
  zlen (Data.block_check_ids b) <= Data.total_block_num b ->
  0 <= id < Data.total_block_num b ->
  DiskTable.wf (disk_buffer m) -> DiskTable.block_num (disk_buffer m) = Data.disk_block_num b ->
  0 < n < 2 ^ 32 -> zget (agents m) (id mod n) = Ok a -> Agent.ring a <> None ->
  exists m' b' ok a' meta, take_data m b = Ok m' /\ block_buffer m' = DataBuf b' /\
    zget (DiskTable.disk_metas (disk_buffer m')) pos = Ok meta /\
    DiskTable.start_time meta = at_ (Data.start_times b) id /\
    DiskTable.end_time meta = at_ (Data.end_times b) id /\
    DiskTable.packet_count meta mod 2 ^ 64 =
      foldr Z.add 0 ((fun r => at_ (Data.packet_counts b) (id + Data.total_block_num b * r))
                     <$> zseq (Data.rss_num b)) mod 2 ^ 64 /\
    (forall j, j <> pos -> zget (DiskTable.disk_metas (disk_buffer m')) j =
       zget (DiskTable.disk_metas (disk_buffer m)) j) /\
    Agent.asyncWrite a (id * Data.block_size b) id pos = Ok (ok, a') /\
    agents m' = <[Z.to_nat (id mod n) := a']> (agents m) /\
    (forall j, 0 <= j -> at_ (Data.block_disk_id b') j =
       if decide (j = id /\ ok = false)
       then (pos + Data.total_block_num b) mod Data.disk_block_num b
       else at_ (Data.block_disk_id b) j).
Proof.
  intros id pos n Hw Ht Hc Hid Hdw Hdn Hn Ha Hr.
  destruct (DataProofs.getBlock_ok b (thread_id m) Hw Ht Hc Hid)
    as (blk & b1 & E & Hw1 & Hbid & Hwp & Hst & Het & Hpc & Hbo & _ & _ & Htot & Hck).
  fold id pos in Hbid, Hwp, Hst, Het, Hpc, Hbo.
  assert (Hpos : 0 <= pos < Data.disk_block_num b) by (apply (DataProofs.wf_ids_range b Hw); done).
  destruct (set_meta_ok (disk_buffer m) pos (Data.start_time blk) (Data.end_time blk)
    (Data.packet_count blk) Hdw) as (d1 & d2 & meta & E1 & E2 & _ & _ & Hm & H1 & H2 & H3 & Hoth); [lia|].
  destruct (asyncWrite_total a (id * Data.block_size b) id pos Hr) as (ok & a' & Ea).
  assert (Hmod : 0 <= id mod n < n) by (apply Z.mod_pos_bound; lia).
  assert (Hids : Data.block_disk_id b1 = Data.block_disk_id b /\ Data.disk_block_num b1 = Data.disk_block_num b).
  { clear -E. unfold Data.getBlock in E. repeat (apply bind_Ok_iff in E as (? & _ & E)).
    destruct (Data.total_block_num b =? 0); [discriminate E|].
    apply bind_Ok_iff in E as (? & _ & E). by injection E as _ <-. }
  destruct Hids as [Hids HD].
  unfold take_data. rewrite E. cbn [mbind res_bind with_bb disk_buffer]. rewrite Hwp, E1.
  cbn [mbind res_bind]. rewrite E2. cbn [mbind res_bind].
  unfold addBlock. cbn [with_db block_buffer with_bb agents]. fold n.
  destruct (n =? 0) eqn:En; [zlia|]. rewrite Hbid, Hbo, u32_small by lia.
  rewrite Ha. cbn [mbind res_bind]. rewrite Ea. cbn [mbind res_bind].
  rewrite zset_Ok by (fold n; lia). cbn [mbind res_bind].
  destruct ok; cbn [negb].
  - eexists _, b1, true, a', meta. split; [done|]. cbn [with_agents block_buffer disk_buffer agents].
    repeat (split; [done || congruence|]). intros j Hj. rewrite Hids. rewrite decide_False; [done|]. by intros [_ [=]].
  - destruct (DataProofs.recycleBlock_spec b1 id Hw1) as (b2 & E3 & _ & _ & _ & _ & H4); [lia|].
    cbn [recycle with_agents with_db with_bb block_buffer]. rewrite E3. cbn [mbind res_bind].
    eexists _, b2, false, a', meta. split; [done|]. cbn [with_agents with_bb block_buffer disk_buffer agents].
    repeat (split; [done || congruence|]). intros j Hj. rewrite H4, Hids, Htot, HD by done.
    destruct (decide (j = id)); [by rewrite decide_True|rewrite decide_False; [done|]; by intros [? _]].
Qed.
End step.
End ManagerProofs.

(** ** Witnesses *)

(** A ring that serves a request when it is submitted: the completions wait in
    order; [sim_error] makes the next write fail. *)
Record SimRing := mkSim {
  sim_depth : Z; sim_disk : list Z; sim_done : list completion; sim_error : bool }.

#[export] Instance sim_uring : IoUring SimRing := {
  queue_init depth cpu := (0, mkSim depth [] [] false);
  get_sqe r := if zlen (sim_done r) <? sim_depth r then Some r else None;
  submit r rq :=
    (1, mkSim (sim_depth r) (sim_disk r)
      (sim_done r ++
        [match rq with
         | WriteReq _ len _ ud => if sim_error r then mkCqe (-5) ud [] else mkCqe len ud []
         | ReadReq len off ud =>
             if (0 <=? len) && (0 <=? off) && (off + len <=? zlen (sim_disk r))
             then mkCqe len ud (zslice off len (sim_disk r)) else mkCqe (-22) ud []
         end]) (sim_error r));
  wait_cqe r := match sim_done r with c :: _ => (0, Some c, r) | [] => (-62, None, r) end;
  peek_cqe r := (head (sim_done r), r);
  cqe_seen r := mkSim (sim_depth r) (sim_disk r) (tail (sim_done r)) (sim_error r);
  sq_ready r := 0;
  cq_ready r := zlen (sim_done r) }.

#[export] Instance sim_laws : IoUringLaws SimRing.
Proof.
  refine {| quiet r := sim_done r = []; disk := sim_disk; pending r c := head (sim_done r) = Some c |}.
  - intros r len off ud bytes r' Hq Ho Hl Hf (r1 & ret & r2 & ret' & c & r3 & E1 & E2 & _ & E4 & _ & _ & -> & ->).
    cbn in E1. destruct (zlen (sim_done r) <? sim_depth r); [|discriminate E1]. injection E1 as <-.
    cbn in E2. rewrite Hq in E2. injection E2 as _ <-.
    replace ((0 <=? len) && (0 <=? off) && (off + len <=? zlen (sim_disk r))) with true in E4
      by (symmetry; rewrite !andb_true_iff, !Z.leb_le; lia).
    cbn in E4. injection E4 as _ <- <-. done.
  - intros r c Hc. exists r. cbn. by rewrite Hc.
  - intros r c Hc. cbn. destruct (sim_done r); [discriminate Hc|]. rewrite zlen_cons.
    pose proof (zlen_nonneg l). lia.
Defined.

Definition demo_ring : SimRing := mkSim 4 (zseq 64) [] false.
Definition demo_agent : Agent.DiskAgent SimRing :=
  {| Agent.disk_size := 32; Agent.block_size := 8; Agent.block_num := 4; Agent.ring_depth := 4;
     Agent.basic_offset := 16; Agent.ring := Some demo_ring |}.

Lemma demo_agent_wf : AgentProofs.wf demo_agent.
Proof. split; vm_compute; (reflexivity || discriminate). Qed.

Module DemoDisk.
Import AgentProofs.

Lemma agent_read_returns_block_witness :
  Agent.read demo_agent (replicate 10 0) 1 2 =
    Ok (true, [0; 32; 33; 34; 35; 36; 37; 38; 39; 0], Agent.with_ring demo_agent demo_ring).
Proof.
  refine (proj1 (agent_read_returns_block demo_agent demo_ring (replicate 10 0) 1 demo_agent_wf
    eq_refl eq_refl _ _) 2 (zslice 32 8 (zseq 64)) demo_ring _ _ _).
  - vm_compute. discriminate.
  - lia.
  - vm_compute. split; [discriminate|reflexivity].
  - vm_compute. discriminate.
  - eexists demo_ring, 1, _, 0, _, _. split; [reflexivity|]. split; [reflexivity|]. split; [lia|].
    split; [reflexivity|]. split; [lia|]. split; [vm_compute; discriminate|]. split; reflexivity.
Defined.

(** Position 4 of an agent with the 4 blocks 0..3 is written at byte 48, the
    end of its area [16..48). *)
Lemma asyncWrite_accepts_one_past_end_witness :
  Agent.asyncWrite demo_agent 0 9 5 = Ok (false, demo_agent) /\
  exists a', Agent.asyncWrite demo_agent 0 9 4 = Ok (true, a').
Proof.
  destruct (asyncWrite_accepts_one_past_end demo_agent demo_ring 0 9 5 demo_agent_wf eq_refl
    ltac:(lia)) as [H _].
  destruct (asyncWrite_accepts_one_past_end demo_agent demo_ring 0 9 4 demo_agent_wf eq_refl
    ltac:(lia)) as [_ H'].
  split; [apply H; vm_compute; reflexivity|].
  destruct H' as (_ & H' & _); [vm_compute; discriminate|].
  eexists. apply (H' demo_ring 1); reflexivity.
Defined.

Lemma failed_completion_blocks_agent_witness :
  let a := Agent.with_ring demo_agent (mkSim 4 [] [mkCqe (-5) 3 []; mkCqe 8 2 []] false) in
  (exists a', polls 3 a = Ok ([MAX64; MAX64; MAX64], a')) /\
  Manager.finish_agent 100 a = Blocks.
Proof.
  destruct (failed_completion_blocks_agent
    (Agent.with_ring demo_agent (mkSim 4 [] [mkCqe (-5) 3 []; mkCqe 8 2 []] false))
    (mkSim 4 [] [mkCqe (-5) 3 []; mkCqe 8 2 []] false) (mkCqe (-5) 3 []))
    as [H1 H2]; [reflexivity|reflexivity|vm_compute; reflexivity|].
  split; [exact (H1 3%nat)|exact (H2 100%nat)].
Defined.

(** Two agents, the second with a full ring: block 1 goes to it and is
    recycled. *)
Definition demo_manager : Manager.DiskManager SimRing :=
  Manager.mkManager NoBuf
    [demo_agent; Agent.with_ring demo_agent (mkSim 0 [] [] false)]
    (from_res (DiskTable.mkDB 0 []) (DiskTable.new_DiskBuffer true 32 2)) 0.

Definition demo_block_buffer : Data.DataBlockBuffer :=
  (Data.with_check_ids DataProofs.demo_buffer [1]).

Lemma take_data_spec_witness :
  exists m' b', Manager.take_data demo_manager demo_block_buffer = Ok m' /\
    Manager.block_buffer m' = DataBuf b' /\ at_ (Data.block_disk_id b') 1 = 5.
Proof.
  destruct (ManagerProofs.take_data_spec demo_manager demo_block_buffer
    (Agent.with_ring demo_agent (mkSim 0 [] [] false)))
    as (m' & b' & ok & a' & meta & E & Hb & _ & _ & _ & _ & _ & Ea & _ & H).
  - destruct DataProofs.demo_buffer_wf. by split.
  - vm_compute. split; [discriminate|reflexivity].
  - vm_compute. discriminate.
  - vm_compute. split; [discriminate|reflexivity].
  - vm_compute. reflexivity.
  - vm_compute. reflexivity.
  - vm_compute. split; reflexivity.
  - vm_compute. reflexivity.
  - discriminate.
  - exists m', b'. split; [exact E|]. split; [exact Hb|].
    vm_compute in Ea. injection Ea as <- <-. rewrite (H 1) by lia. vm_compute. reflexivity.
Defined.
End DemoDisk.
