(* ===== verification/Pipeline.v ===== *)
(** * The index pipeline (dpdk_component/indexGenerator.cpp, dpdk_component/indexPersister.cpp)

    Two stages: an index generator takes the index entries of the readers
    from its rings and puts them into the index buffer; an index persister
    waits until every flow of a disk block is indexed, copies the block's
    records to the index block buffer type by type, sorts them there, and
    notes the regions and the Bloom filter's column in the disk metadata. *)
From S2P Require Import Prelude Util BitMap PrefixBloom RingBuffer BlockBuffer IndexWrite MemoryPool PoolRecords IndexBuffer Disk.
From Stdlib Require Import ZArith Lia.

(** ** The index generator *)
Module Generator.
Section generator.
Context (hash_str : list Z -> Z) (hash_u64 : Z -> Z).

(** The rings, the entries their pointers point to, and the shared index
    buffer with its bit matrix and memory pools. *)
Record GState := mkG {
  buffers : list Spsc.PointerRingBuffer;
  index_heap : gmap Z Index;
  index_buffer : IndexBuffer;
  store : Store;
  count : Z }.

Definition readIndexFromBuffer (g : GState) (id : Z) : res (Z * GState) :=
  r ← zget (buffers g) id;
  '(ptr, r) ← Spsc.get r;
  l ← zset (buffers g) id r;
  Ok (ptr, mkG l (index_heap g) (index_buffer g) (store g) (count g)).

(** A refused insertion is tried again for ever. *)
Definition putIndexToCache (g : GState) (ptr : Z) : res GState :=
  match index_heap g !! ptr with
  | None => Undef
  | Some ix =>
      '(ok, ib, st) ← insert hash_str hash_u64 (index_buffer g) (store g) (ix_meta ix) (ix_position ix)
                        (ix_disk_block_id ix) (ix_rx_id ix);
      if ok : bool then Ok (mkG (buffers g) (index_heap g) ib st (count g)) else Blocks
  end.

(** One entry of a ring is taken, indexed and deleted; [None] when the ring
    was empty. *)
Definition take_one (g : GState) (id : Z) : res (option GState) :=
  '(ptr, g) ← readIndexFromBuffer g id;
  if ptr =? Spsc.nullptr then Ok None else
  g ← putIndexToCache g ptr;
  Ok (Some (mkG (buffers g) (delete ptr (index_heap g)) (index_buffer g) (store g) (u64 (count g + 1)))).

(** One pass over the rings. *)
Fixpoint pass (g : GState) (ids : list Z) : res GState :=
  match ids with
  | [] => Ok g
  | id :: ids => o ← take_one g id; pass (default g o) ids
  end.

(** What a ring still holds after the stop, in at most [fuel] entries. *)
Fixpoint drain (fuel : nat) (g : GState) (id : Z) : res GState :=
  match fuel with
  | O => Blocks
  | S fuel => o ← take_one g id; match o with None => Ok g | Some g => drain fuel g id end
  end.

Fixpoint drain_all (g : GState) (ids : list Z) : res GState :=
  match ids with
  | [] => Ok g
  | id :: ids =>
      r ← zget (buffers g) id;
      g ← drain (S (Z.to_nat (Spsc.count r))) g id;
      drain_all g ids
  end.

(** [run]: what the other threads do before each pass, and the stop flag read
    after it. *)
Fixpoint run (g : GState) (env : list ((GState -> GState) * bool)) : res GState :=
  match env with
  | [] => Blocks
  | (f, stop) :: env =>
      let g := f g in
      let ids := zseq (zlen (buffers g)) in
      g ← pass g ids;
      if stop : bool then drain_all g ids else run g env
  end.
End generator.
End Generator.

(** ** The index persister *)
Module Persister.
Section persister.
Context (std_sort : forall K, CppKey K -> list (K * Z) -> list (K * Z)).

Definition key_lens : list Z := [4; 4; 2; 2; 16; 16].

Record IndexPersister := mkIP {
  disk_size : Z;
  block_size : Z;
  block_num : Z;
  index_buffer_thread_id : Z;
  index_block_buffer_thread_id : Z }.

Record PState := mkP {
  persister : IndexPersister;
  index_buffer : IndexBuffer;
  store : Store;
  index_block_buffer : IndexB.IndexBlockBuffer;
  disk_buffer : DiskTable.DiskBuffer;
  disk_write_pos : Z }.

(** [bit_ceil] on 32-bit words. *)
Definition bit_ceil (x : Z) : Z :=
  if x <=? 1 then 1
  else u32 (foldl (fun x i => Z.lor x (Z.shiftr x i)) (x - 1) [1; 2; 4; 8; 16] + 1).

Definition new_IndexPersister (dsize bsize : Z) (ib : IndexBuffer) (ibb : IndexB.IndexBlockBuffer)
  : res (IndexPersister * IndexBuffer * IndexB.IndexBlockBuffer) :=
  if bsize =? 0 then Undef
  else if negb (Z.land dsize (u64 (dsize - 1)) =? 0) then Throws
  else
    let '(t1, ib) := addCheckThread ib in
    let '(t2, ibb) := IndexB.addWriteThread ibb in
    Ok (mkIP dsize bsize (dsize / bsize) t1 t2, ib, ibb).

(** [checkAndGetMeta], with the stop flag it reads: it waits for the packet
    count of the disk block and then for as many indexed flows. *)
Definition checkAndGetMeta (s : PState) (stop : bool) : res (option Z) :=
  id ← getCheckDishID (index_buffer s) (index_buffer_thread_id (persister s));
  if id =? MAX64 then Ok None
  else if stop then Ok None
  else
    o ← DiskTable.getDiskMeta (disk_buffer s) id;
    match o with
    | None => Undef
    | Some m =>
        if DiskTable.packet_count m =? 0 then Blocks else
        n ← checkIndexCount (index_buffer s) (index_block_buffer_thread_id (persister s));
        if n <? DiskTable.packet_count m then Blocks
        else getIndexBufferMeta (index_buffer s) (index_block_buffer_thread_id (persister s))
    end.

(** The bytes that the pools hold of a disk block, for one type and for all. *)
Fixpoint pools_len (pools : list Indexes.IndexMemoryPool) (t id total : Z) : res Z :=
  match pools with
  | [] => Ok total
  | p :: pools => n ← Indexes.getIndexLen p t id; pools_len pools t id (u64 (total + n))
  end.
Fixpoint total_len (pools : list Indexes.IndexMemoryPool) (id : Z) (types : list Z) (total : Z) : res Z :=
  match types with
  | [] => Ok total
  | t :: types => total ← pools_len pools t id total; total_len pools id types total
  end.

(** The records of one type are copied behind each other. *)
Fixpoint write_pools (pools : list Indexes.IndexMemoryPool) (b : IndexB.IndexBlockBuffer)
  (t id thread current offset : Z) : res (IndexB.IndexBlockBuffer * Z) :=
  match pools with
  | [] => Ok (b, offset)
  | p :: pools =>
      len ← Indexes.getIndexLen p t id;
      if len =? 0 then write_pools pools b t id thread current offset else
      b ← Indexes.writeToBuffer p t b id len thread (u64 (current + offset));
      write_pools pools b t id thread current (u64 (offset + len))
  end.

Fixpoint persist_types (pools : list Indexes.IndexMemoryPool) (b : IndexB.IndexBlockBuffer)
  (d : DiskTable.DiskBuffer) (id thread current : Z) (types : list Z)
  : res (IndexB.IndexBlockBuffer * DiskTable.DiskBuffer) :=
  match types with
  | [] => Ok (b, d)
  | t :: types =>
      '(b, offset) ← write_pools pools b t id thread current 0;
      kl ← zget key_lens t;
      b ← IndexB.sortIndex std_sort b current offset kl;
      d ← DiskTable.setIndexID d id t current (u64 (current + offset));
      persist_types pools b d id thread (u64 (current + offset)) types
  end.

Definition persistMeta (s : PState) (slot : Z) : res PState :=
  m ← zget (metas (index_buffer s)) slot;
  let pools := memory_pools (store s) in
  let id := disk_block_id m in
  total ← total_len pools id (zseq INDEX_NUM) 0;
  if disk_size (persister s) =? 0 then Undef else
  let current := disk_write_pos s mod disk_size (persister s) in
  '(b, d) ← persist_types pools (index_block_buffer s) (disk_buffer s) id
              (index_block_buffer_thread_id (persister s)) current (zseq INDEX_NUM);
  d ← DiskTable.setBloomFilterReadingCol (bitmap (store s)) d id (getWritingCol (bloomFilterMeta m));
  Ok (mkP (persister s) (index_buffer s) (store s) b d (u64 (disk_write_pos s + total))).

Definition clearMeta (s : PState) (slot : Z) : res PState :=
  m ← zget (metas (index_buffer s)) slot;
  d ← DiskTable.clearPacketCount (disk_buffer s) (disk_block_id m);
  let b := bitmap (store s) in
  let new_col := u64 (getWritingCol (bloomFilterMeta m) + getBackupColCount b) in
  b ← clearCol b new_col;
  '(ib, st) ← updateIndexBufferMeta (index_buffer s) (mkStore b (memory_pools (store s)))
                (index_buffer_thread_id (persister s)) new_col;
  Ok (mkP (persister s) ib st (index_block_buffer s) d (disk_write_pos s)).

(** [run]: one block per turn, after what the other threads did. *)
Fixpoint run_turns (s : PState) (env : list ((PState -> PState) * bool)) : res PState :=
  match env with
  | [] => Blocks
  | (f, stop) :: env =>
      let s := f s in
      o ← checkAndGetMeta s stop;
      match o with
      | None => Ok s
      | Some slot => s ← persistMeta s slot; s ← clearMeta s slot; run_turns s env
      end
  end.

Definition run (s : PState) (env : list ((PState -> PState) * bool)) : res (Z * PState) :=
  if (index_buffer_thread_id (persister s) =? MAX64)
     || (index_block_buffer_thread_id (persister s) =? MAX64)
  then Ok (-1, s) else s ← run_turns s env; Ok (0, s).
End persister.
End Persister.
