(* ===== verification/Generate.v ===== *)
(** * Draining the index rings

    What the index generator does when it is stopped: its loops do what
    indexing the entries one after the other does, and they end when the index
    buffer and its pools can take all of them. *)
From S2P Require Import Prelude Util BitMap PrefixBloom RingBuffer BlockBuffer IndexWrite MemoryPool PoolRecords IndexBuffer Disk Pipeline.
From Stdlib Require Import ZArith Lia.
Import Generator.

Section drain.
Context (hash_str : list Z -> Z) (hash_u64 : Z -> Z).
Abbreviation putIndexToCache := (putIndexToCache hash_str hash_u64).
Abbreviation drain := (drain hash_str hash_u64).
Abbreviation drain_all := (drain_all hash_str hash_u64).

Definition with_buffers (g : GState) (l : list Spsc.PointerRingBuffer) : GState :=
  mkG l (index_heap g) (index_buffer g) (store g) (count g).

(** The entries behind a list of pointers are indexed and deleted one after
    the other. *)
Fixpoint index_entries (g : GState) (ptrs : list Z) : res GState :=
  match ptrs with
  | [] => Ok g
  | ptr :: ptrs =>
      g ← putIndexToCache g ptr;
      index_entries (mkG (buffers g) (delete ptr (index_heap g)) (index_buffer g) (store g) (u64 (count g + 1)))
        ptrs
  end.

Lemma putIndexToCache_buffers g l ptr :
  putIndexToCache (with_buffers g l) ptr = (fun g => with_buffers g l) <$> putIndexToCache g ptr.
Proof.
  unfold Generator.putIndexToCache. cbn [index_heap with_buffers index_buffer store].
  destruct (index_heap g !! ptr) as [ix|]; [|done].
  destruct (insert _ _ _ _ _ _ _ _) as [[[[] ib] st]| | |]; done.
Qed.

Lemma index_entries_buffers ptrs g l :
  index_entries (with_buffers g l) ptrs = (fun g => with_buffers g l) <$> index_entries g ptrs.
Proof.
  revert g. induction ptrs as [|ptr ptrs IH]; intros g; [done|]. cbn [index_entries].
  rewrite putIndexToCache_buffers. destruct (putIndexToCache g ptr) as [g1| | |]; [|done..].
  cbn [fmap res_fmap mbind res_bind].
  rewrite <-(IH (mkG (buffers g1) (delete ptr (index_heap g1)) (index_buffer g1) (store g1) (u64 (count g1 + 1)))).
  done.
Qed.

Lemma index_entries_app p q g : index_entries g (p ++ q) = (g ← index_entries g p; index_entries g q).
Proof.
  revert g. induction p as [|ptr p IH]; intros g; [done|]. cbn [app index_entries].
  destruct (putIndexToCache g ptr); cbn [mbind res_bind]; [apply IH|done..].
Qed.

(** A ring after all its entries were taken. *)
Definition emptied (r : Spsc.PointerRingBuffer) : Spsc.PointerRingBuffer :=
  Nat.iter (length (Spsc.contents r)) Spsc.get_advance r.

Lemma get_next r ptr q : Spsc.wf r -> Spsc.contents r = ptr :: q ->
  Spsc.get r = Ok (ptr, Spsc.get_advance r) /\ Spsc.wf (Spsc.get_advance r) /\
  Spsc.contents (Spsc.get_advance r) = q.
Proof.
  intros Hw Hc. destruct (Spsc.put_get_spec r 0 Hw) as [_ Hget]. rewrite Hc in Hget.
  destruct Hget as (r1 & E & Hw1 & _ & Hc1). assert (r1 = Spsc.get_advance r) as ->; [|done].
  unfold Spsc.get in E. destruct (Spsc.empty r); [|destruct (Spsc.get_load r); cbn [mbind res_bind] in E; by simplify_eq].
  injection E as _ <-. rewrite Hc in Hc1. by apply (f_equal length) in Hc1; simpl in Hc1; lia.
Qed.

Lemma emptied_cons r ptr q : Spsc.wf r -> Spsc.contents r = ptr :: q ->
  emptied r = emptied (Spsc.get_advance r).
Proof.
  intros Hw Hc. destruct (get_next r ptr q Hw Hc) as (_ & _ & Hc1). unfold emptied. rewrite Hc, Hc1.
  cbn [length]. apply Nat.iter_succ_r.
Qed.

Lemma emptied_spec n : forall r, length (Spsc.contents r) = n -> Spsc.wf r ->
  Spsc.wf (emptied r) /\ Spsc.contents (emptied r) = [].
Proof.
  induction n as [|n IH]; intros r Hn Hw; destruct (Spsc.contents r) as [|ptr q] eqn:Ec; try done.
  - unfold emptied. by rewrite Ec.
  - destruct (get_next r ptr q Hw Ec) as (_ & Hw1 & Hc1). rewrite (emptied_cons r ptr q) by done.
    apply IH; [rewrite Hc1; simpl in Hn; lia|done].
Qed.

(** A ring is emptied in as many turns as it holds entries, and one more. *)
Lemma drain_spec n : forall g id r fuel,
  zget (buffers g) id = Ok r -> Spsc.wf r -> Forall (fun p => p <> Spsc.nullptr) (Spsc.contents r) ->
  length (Spsc.contents r) = n -> (n < fuel)%nat ->
  drain fuel g id = (g' ← index_entries g (Spsc.contents r);
                     Ok (with_buffers g' (<[Z.to_nat id := emptied r]> (buffers g)))).
Proof.
  induction n as [|n IH]; intros g id r [|fuel] Hr Hw Hnn Hn Hf; try lia;
    pose proof (zget_range _ _ _ Hr) as Hid;
    destruct (Spsc.contents r) as [|ptr q] eqn:Ec; try done; cbn [Generator.drain]; unfold take_one,
      readIndexFromBuffer; rewrite Hr; cbn [mbind res_bind].
  - destruct (Spsc.put_get_spec r 0 Hw) as [_ Hget]. rewrite Ec in Hget.
    rewrite Hget. cbn [mbind res_bind]. rewrite zset_Ok by done. cbn [mbind res_bind].
    rewrite Z.eqb_refl. cbn [mbind res_bind index_entries]. unfold emptied. rewrite Ec. cbn [length Nat.iter nat_rect].
    apply zget_Ok in Hr as [_ Hr]. rewrite list_insert_id by done. by destruct g.
  - destruct (get_next r ptr q Hw Ec) as (-> & Hw1 & Hc1). cbn [mbind res_bind]. rewrite zset_Ok by done.
    cbn [mbind res_bind]. apply Forall_cons in Hnn as [Hp Hnn].
    rewrite (proj2 (Z.eqb_neq _ _)) by done. cbn [mbind res_bind index_entries].
    set (l1 := <[Z.to_nat id := Spsc.get_advance r]> (buffers g)). fold (with_buffers g l1).
    rewrite putIndexToCache_buffers. destruct (putIndexToCache g ptr) as [g1| | |]; [|done..].
    cbn [fmap res_fmap mbind res_bind]. cbn [with_buffers buffers index_heap index_buffer store count].
    rewrite (IH _ id (Spsc.get_advance r)).
    + rewrite Hc1, (emptied_cons r ptr q) by done. cbn [buffers].
      replace (<[Z.to_nat id := emptied (Spsc.get_advance r)]> l1)
        with (<[Z.to_nat id := emptied (Spsc.get_advance r)]> (buffers g))
        by (unfold l1; by rewrite list_insert_insert_eq).
      set (g2 := mkG (buffers g1) _ _ _ _).
      change (mkG l1 _ _ _ _) with (with_buffers g2 l1). rewrite index_entries_buffers.
      by destruct (index_entries g2 q).
    + apply zget_insert_eq. done.
    + done.
    + by rewrite Hc1.
    + rewrite Hc1. simpl in Hn. lia.
    + lia.
Qed.

Lemma drain_all_spec todo : forall front g, buffers g = front ++ todo ->
  Forall Spsc.wf todo -> Forall (fun r => Forall (fun p => p <> Spsc.nullptr) (Spsc.contents r)) todo ->
  drain_all g (Z.of_nat <$> seq (length front) (length todo)) =
    (g' ← index_entries g (todo ≫= Spsc.contents); Ok (with_buffers g' (front ++ (emptied <$> todo)))).
Proof.
  induction todo as [|r todo IH]; intros front g Hg Hw Hnn.
  { cbn. rewrite app_nil_r in *. rewrite <-Hg. by destruct g. }
  apply Forall_cons in Hw as [Hwr Hw]. apply Forall_cons in Hnn as [Hnr Hnn].
  cbn [length seq fmap list_fmap Generator.drain_all].
  assert (Hr : zget (buffers g) (Z.of_nat (length front)) = Ok r).
  { apply zget_Ok. split; [lia|]. by rewrite Nat2Z.id, Hg, list_lookup_middle. }
  rewrite Hr. cbn [mbind res_bind].
  assert (Hcount : Z.to_nat (Spsc.count r) = length (Spsc.contents r)).
  { rewrite <-Spsc.length_contents. unfold zlen. lia. }
  rewrite (drain_spec (length (Spsc.contents r)) g _ r) by (done || lia).
  rewrite bind_cons, index_entries_app.
  destruct (index_entries g (Spsc.contents r)) as [g1| | |]; [|done..]. cbn [mbind res_bind].
  rewrite Nat2Z.id, Hg. rewrite insert_app_r_alt, Nat.sub_diag by lia. cbn [insert list_insert].
  replace (seq (S (length front)) (length todo)) with (seq (length (front ++ [emptied r])) (length todo))
    by (f_equal; rewrite length_app; simpl; lia).
  rewrite (IH (front ++ [emptied r])); [|by rewrite <-app_assoc|done|done].
  rewrite index_entries_buffers. destruct (index_entries g1 _) as [g2| | |]; [|done..].
  cbn [fmap res_fmap mbind res_bind]. by rewrite <-app_assoc.
Qed.

(** The loops over the rings do exactly what indexing all entries the rings
    hold does, ring by ring and in the order in which they were put — including
    how that fails or waits. *)
Lemma drain_is_indexing g :
  Forall Spsc.wf (buffers g) ->
  Forall (fun r => Forall (fun p => p <> Spsc.nullptr) (Spsc.contents r)) (buffers g) ->
  drain_all g (zseq (zlen (buffers g))) =
    (g' ← index_entries g (buffers g ≫= Spsc.contents); Ok (with_buffers g' (emptied <$> buffers g))).
Proof.
  intros Hw Hnn. pose proof (drain_all_spec (buffers g) [] g eq_refl Hw Hnn) as H. cbn [app length] in H.
  unfold zseq, zlen. by rewrite Nat2Z.id.
Qed.
End drain.

(** ** Room in the memory pools *)

(** Pool [t] can take [n] more records, of whatever blocks. *)
Definition room (m : Indexes.IndexMemoryPool) (t : IndexType) (n : Z) : Prop :=
  exists p N s0 rs, zget (Indexes.pool m) (index_type_code t) = Ok p /\ holds p N s0 rs /\
    unit_len p = Indexes.unit_of (index_type_code t) /\ zlen (all_recs rs) + n <= N /\ zlen rs + n < list_len p.

Lemma room_mono m t n n' : room m t n -> n' <= n -> room m t n'.
Proof. intros (p & N & s0 & rs & ? & ? & ? & ? & ?) Hn. exists p, N, s0, rs. split_and!; try done; lia. Qed.

Lemma live_shorter rs : zlen (live rs) <= zlen rs /\ zlen (all_recs (live rs)) <= zlen (all_recs rs).
Proof.
  induction rs as [|r rs IH]; [done|]. destruct rs as [|r' rs]; [done|].
  change (live (r :: r' :: rs)) with (if r_dirty r then live (r' :: rs) else r :: r' :: rs).
  destruct (r_dirty r); [|lia]. rewrite (zlen_cons r). unfold all_recs in *. rewrite (bind_cons _ r), zlen_app.
  pose proof (zlen_nonneg (r_recs r)). lia.
Qed.

Lemma append_record_longer id rec rs : zlen (append_record id rec rs) <= zlen rs + 1.
Proof.
  unfold append_record. destruct rs as [|r rs _] using rev_ind; [unfold zlen; cbn; lia|]. rewrite last_snoc.
  case_test; rewrite ?removelast_last, !zlen_app; unfold zlen; cbn; lia.
Qed.

(** One record uses up one place of its pool. *)
Lemma put_record_room m t key position id n : t <> TOTAL_INDEX -> room m t (n + 1) -> 0 <= n ->
  zlen key + 8 = Indexes.unit_of (index_type_code t) ->
  exists m', Indexes.put_record m t key position id = Ok m' /\ room m' t n /\
    forall t' n', t' <> t -> room m t' n' -> room m' t' n'.
Proof.
  intros Ht (p & N & s0 & rs & Hp & Hh & Hu & Hrecs & Hlist) Hn Hk. destruct (live_shorter rs) as [Hl1 Hl2].
  pose proof (hd_rep _ _ _ _ Hh) as Hr. pose proof (PoolProofs.rp_cap _ _ _ _ Hr) as Hcap. pose proof (PoolProofs.rp_unit _ _ _ _ Hr).
  destruct (put_pool_spec p N s0 rs key position id Hh) as (p' & s & Hput & Hh' & Hu' & Hl' & Hc'); [lia| |].
  { split; [nia|right; lia]. }
  pose proof (zget_range _ _ _ Hp) as Hrange. unfold Indexes.put_record. rewrite Hp. cbn [mbind res_bind].
  rewrite Hput. cbn [mbind res_bind]. rewrite zset_Ok by done. cbn [mbind res_bind].
  eexists. split; [done|]. split.
  - exists p', N, s, (append_record id (key ++ le_bytes 8 position) (live rs)). cbn [Indexes.pool].
    rewrite zget_insert_eq by done. split; [done|]. split; [done|]. split; [congruence|].
    pose proof (append_record_longer id (key ++ le_bytes 8 position) (live rs)). split; [|lia].
    pose proof (PoolProofs.rp_total _ _ _ _ (hd_rep _ _ _ _ Hh')) as Htot. rewrite total_to_group in Htot.
    destruct (decide (live rs = [])) as [El|El].
    { rewrite El. unfold append_record. cbn. unfold zlen in *. cbn. lia. }
    rewrite all_recs_append, zlen_app by done. unfold zlen at 2. cbn. lia.
  - intros t' n' Hne (q & M & q0 & qs & Hq & Hrest). exists q, M, q0, qs. split; [|done]. cbn [Indexes.pool].
    rewrite zget_insert_ne; [done|lia|]. intros E. apply Hne. destruct t, t'; try done; discriminate E.
Qed.

Lemma put_records_room keys position id n : NoDup (fst <$> keys) -> 0 <= n ->
  Forall (fun k : IndexType * list Z => k.1 <> TOTAL_INDEX /\
            zlen k.2 + 8 = Indexes.unit_of (index_type_code k.1)) keys ->
  forall m, (forall t, t <> TOTAL_INDEX -> room m t (if decide (t ∈ keys.*1) then n + 1 else n)) ->
  exists m', put_records m keys position id = Ok m' /\ forall t, t <> TOTAL_INDEX -> room m' t n.
Proof.
  intros Hnd Hn. induction keys as [|[t key] keys IH]; intros Hk m Hm.
  { exists m. split; [done|]. intros t Ht. specialize (Hm t Ht). by rewrite decide_False in Hm by (by apply not_elem_of_nil). }
  apply NoDup_cons in Hnd as [Hnin Hnd]. apply Forall_cons in Hk as [[Ht Hl] Hk]. cbn [fst snd] in *.
  pose proof (Hm t Ht) as Hmt. rewrite decide_True in Hmt by (by left).
  destruct (put_record_room m t key position id n Ht Hmt Hn Hl) as (m1 & E & H1 & Ho).
  destruct (IH Hnd Hk m1) as (m' & E' & Hm').
  { intros t' Ht'. destruct (decide (t' = t)) as [->|Hne]; [by rewrite decide_False|].
    apply Ho; [done|]. specialize (Hm t' Ht'). cbn [fmap list_fmap fst] in Hm.
    repeat case_decide; set_solver. }
  exists m'. cbn [put_records]. rewrite E. by split.
Qed.

Lemma insert_room m meta position id n : (forall t, t <> TOTAL_INDEX -> room m t (n + 1)) -> 0 <= n ->
  exists m', Indexes.insert m meta position id = Ok (true, m') /\ forall t, t <> TOTAL_INDEX -> room m' t n.
Proof.
  intros Hm Hn. rewrite insert_put_records.
  destruct (put_records_room (flow_keys meta) position id n) with (m := m) as (m' & -> & Hm'); try done.
  - unfold flow_keys. repeat case_match; repeat constructor; set_solver.
  - unfold flow_keys. repeat case_match; zbool; rewrite ?Forall_app, ?Forall_cons, ?Forall_nil; cbn [fst snd];
      rewrite ?zlen_le_bytes; split_and!; try done; cbn; lia.
  - intros t Ht. eapply room_mono; [by apply Hm|]. case_decide; lia.
  - by exists m'.
Qed.

(** ** Indexing many flows *)
Section indexing.
Context (hash_str : list Z -> Z) (hash_u64 : Z -> Z).

(** The filters of all slots work, and all pools can take [n] more flows. *)
Record serves (ib : IndexBuffer) (st : Store) (n : Z) : Prop := {
  sv_total : 0 < total_block_num ib;
  sv_filters : forall j m, zget (metas ib) j = Ok m -> filter_ok (bloomFilterMeta m) (bitmap st);
  sv_pools : forall i pool, zget (memory_pools st) i = Ok pool -> forall t, t <> TOTAL_INDEX -> room pool t n }.

(** The slot of the entry's block is working on that block. *)
Record entry_fits (ib : IndexBuffer) (st : Store) (ix : Index) : Prop := {
  ef_slot : exists m, zget (metas ib) (ix_disk_block_id ix mod total_block_num ib) = Ok m /\
    disk_block_id m = ix_disk_block_id ix;
  ef_rx : 0 <= ix_rx_id ix < zlen (memory_pools st);
  ef_flow : flow_wf (ix_meta ix) }.

(** How many of the entries belong to slot [j]. *)
Definition entries_of (total j : Z) (ixs : list Index) : Z :=
  zlen (filter (fun ix => ix_disk_block_id ix mod total = j) ixs).

(** The index buffer after [ixs]: the slots hold the same blocks, with counts
    that have gone up by the entries of each. *)
Record counted (ib ib' : IndexBuffer) (ixs : list Index) : Prop := {
  ct_total : total_block_num ib' = total_block_num ib;
  ct_metas : forall j m, zget (metas ib) j = Ok m -> exists m', zget (metas ib') j = Ok m' /\
    bloomFilterMeta m' = bloomFilterMeta m /\ disk_block_id m' = disk_block_id m /\
    u64 (index_count m') = u64 (index_count m + entries_of (total_block_num ib) j ixs);
  ct_length : zlen (metas ib') = zlen (metas ib) }.

Lemma insert_serves ib st ix n : serves ib st (n + 1) -> 0 <= n -> entry_fits ib st ix ->
  exists ib' st', insert hash_str hash_u64 ib st (ix_meta ix) (ix_position ix) (ix_disk_block_id ix) (ix_rx_id ix)
      = Ok (true, ib', st') /\ serves ib' st' n /\ counted ib ib' [ix] /\
    zlen (memory_pools st') = zlen (memory_pools st).
Proof.
  intros [Ht Hfil Hpool] Hn [(m & Hm & Hid) Hrx Hf]. unfold insert.
  rewrite (proj2 (Z.eqb_neq _ 0)), Hm by lia. cbn [mbind res_bind]. rewrite Hid, Z.eqb_refl. cbn [negb].
  destruct (Hfil _ _ Hm) as [Hb Hh Hc Hr]. pose proof (flow_fkeys_wf (ix_meta ix) Hf) as Hkeys.
  destruct (insert_keys_spec hash_str hash_u64 (bloomFilterMeta m) (bitmap st) (flow_fkeys (ix_meta ix)) Hh Hc)
    with (b := bitmap st) as (b' & Hins & Hg & (Hd1 & Hd2 & Hd3) & _); [lia|lia|done|done|by split_and!|].
  rewrite insert_filter_keys, Hins. cbn [mbind res_bind negb memory_pools].
  destruct (zget_lt (memory_pools st) (ix_rx_id ix)) as [pool Hp]; [done|]. rewrite Hp. cbn [mbind res_bind].
  destruct (insert_room pool (ix_meta ix) (ix_position ix) (ix_disk_block_id ix) n (Hpool _ _ Hp) Hn) as (pool' & -> & Hroom).
  pose proof (zget_range _ _ _ Hm) as Hmr. cbn [mbind res_bind]. rewrite !zset_Ok by done. cbn [mbind res_bind negb].
  eexists _, _. split; [done|]. set (j0 := ix_disk_block_id ix mod total_block_num ib) in *. split_and!.
  - split; cbn [total_block_num metas bitmap memory_pools]; [done| |].
    + intros j m' Hm'. assert (Hold : exists m0, zget (metas ib) j = Ok m0 /\ bloomFilterMeta m' = bloomFilterMeta m0).
      { destruct (decide (j = j0)) as [->|Hne].
        - rewrite zget_insert_eq in Hm' by done. injection Hm' as <-. by exists m.
        - pose proof (zget_range _ _ _ Hm') as Hr'. rewrite zget_insert_ne in Hm' by lia. by exists m'. }
      destruct Hold as (m0 & Hm0 & ->). destruct (Hfil _ _ Hm0) as [_ ? ? ?]. destruct Hg as (Hwb & _ & _).
      split; [done|done|rewrite Hd2; done|rewrite Hd1; done].
    + intros i q Hq t Hti. destruct (decide (i = ix_rx_id ix)) as [->|Hne].
      * rewrite zget_insert_eq in Hq by done. injection Hq as <-. by apply Hroom.
      * pose proof (zget_range _ _ _ Hq). rewrite zget_insert_ne in Hq by lia.
        eapply room_mono; [by eapply Hpool|lia].
  - split; cbn [total_block_num metas]; [done| |apply zlen_insert]. intros j m' Hm'. unfold entries_of.
    destruct (decide (j = j0)) as [->|Hne].
    + rewrite zget_insert_eq by done. eexists. split; [done|]. cbn [bloomFilterMeta disk_block_id index_count].
      rewrite Hm in Hm'. injection Hm' as ->. rewrite filter_cons_True by done. rewrite filter_nil.
      split_and!; try done. change (zlen [ix]) with 1. apply Z.mod_mod. lia.
    + pose proof (zget_range _ _ _ Hm'). rewrite zget_insert_ne by lia. exists m'. rewrite filter_cons_False by done.
      rewrite filter_nil, Z.add_0_r. done.
  - cbn [memory_pools]. apply zlen_insert.
Qed.
Lemma counted_trans ib ib1 ib2 ix ixs : counted ib ib1 [ix] -> counted ib1 ib2 ixs -> counted ib ib2 (ix :: ixs).
Proof.
  intros [Ht1 Hm1 Hl1] [Ht2 Hm2 Hl2]. split; [congruence| |congruence]. intros j m Hm.
  destruct (Hm1 j m Hm) as (m1 & E1 & Hf1 & Hd1 & Hc1). destruct (Hm2 j m1 E1) as (m2 & E2 & Hf2 & Hd2 & Hc2).
  exists m2. split; [done|]. split; [congruence|]. split; [congruence|]. rewrite Hc2, Ht1. unfold entries_of in *.
  change (ix :: ixs) with ([ix] ++ ixs). rewrite filter_app, zlen_app, Z.add_assoc. unfold u64, wrap in *.
  by rewrite <-Zplus_mod_idemp_l, Hc1, Zplus_mod_idemp_l.
Qed.

Lemma entry_fits_counted ib ib' st st' ixs ix : counted ib ib' ixs -> zlen (memory_pools st') = zlen (memory_pools st) ->
  entry_fits ib st ix -> entry_fits ib' st' ix.
Proof.
  intros [Ht Hm _] Hp [(m & Hs & Hid) Hrx Hf]. destruct (Hm _ _ Hs) as (m' & Hs' & _ & Hid' & _).
  split; [exists m'; rewrite Ht; split; [done|congruence]|by rewrite Hp|done].
Qed.

Lemma index_entries_ok ptrs ixs : forall g, NoDup ptrs ->
  Forall2 (fun ptr ix => index_heap g !! ptr = Some ix /\ entry_fits (index_buffer g) (store g) ix) ptrs ixs ->
  serves (index_buffer g) (store g) (zlen ptrs) ->
  exists g', index_entries hash_str hash_u64 g ptrs = Ok g' /\ buffers g' = buffers g /\
    index_heap g' = foldl (fun h ptr => delete ptr h) (index_heap g) ptrs /\
    counted (index_buffer g) (index_buffer g') ixs /\ u64 (count g') = u64 (count g + zlen ptrs).
Proof.
  revert ixs. induction ptrs as [|ptr ptrs IH]; intros ixs g Hnd Hf Hs.
  { apply Forall2_nil_inv_l in Hf as ->. exists g. rewrite Z.add_0_r. split_and!; try done. split; [done| |done].
    intros j m Hm. exists m. by rewrite Z.add_0_r. }
  apply Forall2_cons_inv_l in Hf as (ix & ixs' & [Hix Hfit] & Hf & ->). apply NoDup_cons in Hnd as [Hnin Hnd].
  rewrite zlen_cons, Z.add_comm in Hs. rewrite zlen_cons. pose proof (zlen_nonneg ptrs).
  destruct (insert_serves _ _ ix (zlen ptrs) Hs) as (ib & st & E & Hs' & Hct & Hlen); [done|done|].
  cbn [index_entries foldl]. unfold Generator.putIndexToCache. rewrite Hix. cbn [mbind res_bind].
  rewrite E. cbn [mbind res_bind index_heap buffers index_buffer store count].
  destruct (IH ixs' (mkG (buffers g) (delete ptr (index_heap g)) ib st (u64 (count g + 1)))) as (g' & Eg & Hb & Hh & Hc & Hn);
    [done| |done|].
  - cbn [index_heap index_buffer store].
    apply Forall2_same_length_lookup_2; [by eapply Forall2_length|]. intros i p x Hp Hx.
    destruct (Forall2_lookup_lr _ _ _ _ _ _ Hf Hp Hx) as [Hl Hfx]. split.
    + rewrite lookup_delete_ne; [done|]. intros ->. apply Hnin. by eapply list_elem_of_lookup_2.
    + by eapply entry_fits_counted.
  - exists g'. cbn [buffers index_heap index_buffer count] in *. split; [done|]. split; [done|]. split; [done|].
    split; [by eapply counted_trans|]. rewrite Hn. unfold u64, wrap. rewrite Zplus_mod_idemp_l. f_equal. lia.
Qed.

(** C13: When the generator is stopped it empties its rings and ends.  If every
    entry in the rings belongs to a disk block that its slot is working on and
    the pools have room for one more record per entry, the loops over the
    rings end with all rings empty, having indexed every entry, ring by ring
    and in the order in which they were put, and deleted it: the count of each
    slot has gone up by the entries of its block. *)
Theorem generator_drains_rings g ixs :
  let ptrs := buffers g ≫= Spsc.contents in
  Forall Spsc.wf (buffers g) -> NoDup ptrs ->
  Forall2 (fun ptr ix => ptr <> Spsc.nullptr /\ index_heap g !! ptr = Some ix /\
             entry_fits (index_buffer g) (store g) ix) ptrs ixs ->
  serves (index_buffer g) (store g) (zlen ptrs) ->
  exists g', drain_all hash_str hash_u64 g (zseq (zlen (buffers g))) = Ok g' /\
    index_entries hash_str hash_u64 g ptrs = Ok (with_buffers g' (buffers g)) /\
    Forall (fun r => Spsc.wf r /\ Spsc.contents r = []) (buffers g') /\
    index_heap g' = foldl (fun h ptr => delete ptr h) (index_heap g) ptrs /\
    counted (index_buffer g) (index_buffer g') ixs /\ u64 (count g') = u64 (count g + zlen ptrs).
Proof.
  intros ptrs Hw Hnd Hf Hs.
  destruct (index_entries_ok ptrs ixs g Hnd) as (g' & E & Hb & Hh & Hc & Hn); [|done|].
  { eapply Forall2_impl; [exact Hf|]. by intros ? ? (_ & ? & ?). }
  rewrite drain_is_indexing; [|done|].
  - fold ptrs. rewrite E. cbn [mbind res_bind]. eexists. split; [done|]. split; [rewrite <-Hb; by destruct g'|].
    split; [|done]. cbn [with_buffers buffers]. apply Forall_fmap. eapply Forall_impl; [exact Hw|].
    intros r Hr. by apply (emptied_spec _ r eq_refl).
  - apply Forall_forall. intros r Hr. apply Forall_forall. intros ptr Hptr.
    assert (Hin : ptr ∈ ptrs) by (apply list_elem_of_bind; eauto).
    apply list_elem_of_lookup in Hin as [i Hi]. by destruct (Forall2_lookup_l _ _ _ _ _ Hf Hi) as (ix & _ & ? & _).
Qed.
End indexing.

(** ** Witness: one ring with one entry *)
Definition demo_ring : Spsc.PointerRingBuffer :=
  (from_res (true, Spsc.mkRing 0 0 0 None false)
     (r ← Spsc.new_ring true (2 ^ 4) (0, 0, false); Spsc.put r 5)).2.
Definition demo_state : GState :=
  mkG [demo_ring] {[5 := mkIndex 0 8 99 0 demo_meta]} demo_buffer demo_store 0.

Lemma demo_ring_wf : Spsc.wf demo_ring.
Proof.
  split.
  - exists 4. split; [lia|reflexivity].
  - eexists. split; [vm_compute; reflexivity|reflexivity].
  - vm_compute. split; [discriminate|reflexivity].
  - vm_compute. split; [discriminate|reflexivity].
  - vm_compute. reflexivity.
Qed.

Lemma demo_room t : t <> TOTAL_INDEX -> room demo_index_pool t 1.
Proof.
  intros Ht. set (u := Indexes.unit_of (index_type_code t)).
  assert (Hu : 0 < u < 100) by (unfold u; destruct t; vm_compute; done).
  exists (demo_pool u), 2, 0, (demo_recs u). split; [by destruct t|]. split; [by apply demo_holds|].
  split; [done|]. split; vm_compute; done.
Qed.

Lemma demo_filter_ok : filter_ok demo_filter demo_bitmap.
Proof.
  split; [exact demo_bitmap_wf|reflexivity|vm_compute; split; [discriminate|reflexivity]|
    vm_compute; split; [discriminate|reflexivity]].
Qed.

Lemma generator_drains_rings_witness : exists g,
  drain_all demo_hash (fun x => x) demo_state [0] = Ok g /\
  Forall (fun r => Spsc.wf r /\ Spsc.contents r = []) (buffers g) /\
  counted demo_buffer (index_buffer g) [mkIndex 0 8 99 0 demo_meta].
Proof.
  destruct (generator_drains_rings demo_hash (fun x => x) demo_state [mkIndex 0 8 99 0 demo_meta])
    as (g & E & _ & Hr & _ & Hc & _).
  - repeat constructor; apply demo_ring_wf.
  - change (buffers demo_state ≫= _) with [5]. repeat constructor. by apply not_elem_of_nil.
  - change (buffers demo_state ≫= _) with [5]. constructor; [|constructor]. split; [discriminate|].
    split; [reflexivity|]. split; [eexists; split; reflexivity|vm_compute; split; [discriminate|reflexivity]|].
    split; vm_compute; repeat constructor; discriminate.
  - change (buffers demo_state ≫= _) with [5]. split.
    + vm_compute. reflexivity.
    + intros j m Hm. apply zget_Ok in Hm as [_ Hm]. apply list_elem_of_lookup_2 in Hm.
      repeat (apply elem_of_cons in Hm as [->|Hm]; [exact demo_filter_ok|]). by apply not_elem_of_nil in Hm.
    + intros i pool Hp. apply zget_Ok in Hp as [_ Hp]. apply list_elem_of_lookup_2 in Hp.
      apply elem_of_cons in Hp as [->|Hp]; [exact demo_room|by apply not_elem_of_nil in Hp].
  - exists g. split; [exact E|]. split; [exact Hr|exact Hc].
Defined.
