(* ===== verification/Persist.v ===== *)
(** * Persisting an index

    The persister's [persistMeta], followed from the memory pools to the disk
    metadata: each index type's region of the index block buffer ends up with
    the records of that type of the disk block, in key order. *)
From S2P Require Import Prelude Util BitMap PrefixBloom BlockBuffer IndexWrite MemoryPool PoolRecords IndexBuffer Disk Pipeline.
From Stdlib Require Import ZArith Lia.
Import PoolProofs.

(** ** Ranges of the index block buffer *)

Lemma list_eq_at (a b : list Z) : zlen a = zlen b ->
  (forall j, 0 <= j < zlen a -> at_ a j = at_ b j) -> a = b.
Proof.
  unfold zlen. intros Hl H. apply list_eq. intros i. destruct (decide (i < length a)%nat) as [Hi|Hi].
  - specialize (H (Z.of_nat i) ltac:(lia)). unfold at_ in H. rewrite Nat2Z.id in H.
    destruct (lookup_lt_is_Some_2 a i) as [x Hx]; [done|].
    destruct (lookup_lt_is_Some_2 b i) as [y Hy]; [lia|].
    rewrite Hx, Hy in *. simpl in H. congruence.
  - rewrite !lookup_ge_None_2 by lia. done.
Qed.

(** The [len] bytes from disk position [pos] on, around the end of the buffer. *)
Definition range (b : IndexB.IndexBlockBuffer) (pos len : Z) : list Z :=
  IndexProofs.ring_bytes (IndexB.buffer_blocks b) (IndexB.buffer_size b)
    (pos mod IndexB.buffer_size b) len.

Section ranges.
Context (b : IndexB.IndexBlockBuffer) (Hw : IndexWrite.wf b).

Lemma size_pos : 0 < IndexB.buffer_size b.
Proof. destruct Hw. nia. Qed.

Lemma zlen_range pos len : 0 <= len <= IndexB.buffer_size b -> zlen (range b pos len) = len.
Proof.
  intros Hl. pose proof size_pos as Hs. pose proof (Z.mod_pos_bound pos _ Hs). destruct Hw.
  unfold range, IndexProofs.ring_bytes. case_test; zbool.
  - rewrite zlen_app, !zlen_zslice; lia.
  - rewrite zlen_zslice; lia.
Qed.

Lemma at_range pos len j : 0 <= len <= IndexB.buffer_size b -> 0 <= j < len ->
  at_ (range b pos len) j = byte b (pos + j).
Proof.
  intros Hl Hj. pose proof size_pos as Hs. pose proof (Z.mod_pos_bound pos _ Hs). pose proof Hw as [].
  unfold range, IndexProofs.ring_bytes, byte.
  rewrite <-(Zplus_mod_idemp_l pos). set (q := pos mod _) in *. case_test; zbool.
  - rewrite at_app, zlen_zslice by lia. case_test; zbool.
    + rewrite at_zslice, Z.mod_small by lia. done.
    + rewrite at_zslice, Z.add_0_l by lia. f_equal.
      rewrite <-(Z.mod_add _ (-1)), Z.mod_small; lia.
  - rewrite at_zslice, Z.mod_small by lia. done.
Qed.

End ranges.

(** Nothing outside the [len] bytes from [pos] on has changed. *)
Definition unchanged_outside (b b' : IndexB.IndexBlockBuffer) (pos len : Z) : Prop :=
  forall i, 0 <= i < IndexB.buffer_size b -> len <= (i - pos) mod IndexB.buffer_size b ->
    at_ (IndexB.buffer_blocks b') i = at_ (IndexB.buffer_blocks b) i.

Lemma range_ext b b' pos len : IndexWrite.wf b -> IndexWrite.wf b' ->
  IndexB.buffer_size b' = IndexB.buffer_size b -> 0 <= len <= IndexB.buffer_size b ->
  (forall j, 0 <= j < len -> byte b' (pos + j) = byte b (pos + j)) -> range b' pos len = range b pos len.
Proof.
  intros Hw Hw' Hsz Hl Hb. apply list_eq_at; [rewrite !zlen_range by (done || lia); done|].
  rewrite zlen_range by (done || lia). intros j Hj. rewrite !at_range by (done || lia). auto.
Qed.

Lemma range_unchanged b b' pos len q n : IndexWrite.wf b -> IndexWrite.wf b' ->
  IndexB.buffer_size b' = IndexB.buffer_size b -> unchanged_outside b b' pos len ->
  0 <= len -> 0 <= n ->
  (pos + len <= q /\ q + n <= pos + IndexB.buffer_size b) \/
  (q + n <= pos /\ pos + len <= q + IndexB.buffer_size b) ->
  range b' q n = range b q n.
Proof.
  intros Hw Hw' Hsz Hu Hl Hn Hd. pose proof (size_pos b Hw) as Hs.
  apply range_ext; try done; [lia|]. intros j Hj. unfold byte. rewrite Hsz.
  apply Hu; [by apply Z.mod_pos_bound|]. rewrite Zminus_mod_idemp_l. destruct Hd.
  - rewrite Z.mod_small; lia.
  - rewrite <-(Z.mod_add _ 1), Z.mod_small; lia.
Qed.

Lemma unchanged_app b b1 b2 pos l1 l2 : IndexWrite.wf b -> IndexB.buffer_size b1 = IndexB.buffer_size b ->
  0 <= l1 -> 0 <= l2 -> l1 + l2 <= IndexB.buffer_size b ->
  unchanged_outside b b1 pos l1 -> unchanged_outside b1 b2 (pos + l1) l2 ->
  unchanged_outside b b2 pos (l1 + l2).
Proof.
  intros Hw Hsz Hl1 Hl2 Hfit H1 H2 i Hi Hge. pose proof (size_pos b Hw) as Hs.
  pose proof (Z.mod_pos_bound (i - pos) _ Hs). unfold unchanged_outside in H2. rewrite Hsz in H2.
  rewrite H2, H1; [done|lia|lia|lia|].
  replace (i - (pos + l1)) with (i - pos - l1) by lia. rewrite <-Zminus_mod_idemp_l.
  rewrite Z.mod_small; lia.
Qed.

Lemma unchanged_trans b b1 b2 pos len : IndexB.buffer_size b1 = IndexB.buffer_size b ->
  unchanged_outside b b1 pos len -> unchanged_outside b1 b2 pos len -> unchanged_outside b b2 pos len.
Proof.
  intros Hsz H1 H2 i Hi Hge. unfold unchanged_outside in H2. rewrite Hsz in H2. by rewrite H2, H1.
Qed.

Lemma holds_data_range b b' data pos : IndexWrite.wf b -> IndexWrite.wf b' ->
  IndexB.buffer_size b' = IndexB.buffer_size b -> zlen data <= IndexB.buffer_size b ->
  holds_data b b' data pos -> range b' pos (zlen data) = data /\ unchanged_outside b b' pos (zlen data).
Proof.
  intros Hw Hw' Hsz Hl [H1 H2]. split; [|done]. pose proof (zlen_nonneg data).
  apply list_eq_at; rewrite zlen_range by (done || lia); [done|].
  intros j Hj. rewrite at_range by (done || lia). auto.
Qed.

Lemma holds_data_nil b pos : IndexWrite.wf b -> holds_data b b [] pos.
Proof. intros Hw. split; [|done]. unfold zlen. simpl. lia. Qed.

(** ** Sorting a range *)
Section sorting.
Context (std_sort : forall K, CppKey K -> list (K * Z) -> list (K * Z)).
Context (std_sort_perm : forall K (H : CppKey K) l, CppKeyLaws K -> std_sort K H l ≡ₚ l).
Context (std_sort_sorted : forall K (H : CppKey K) l, CppKeyLaws K -> sorted_keys (std_sort K H l)).

(** [after] holds the records of [before], in key order. *)
Definition sorted_records (kl : Z) (before after : list Z) : Prop :=
  let n := Z.to_nat (zlen before / record_size kl) in
  (kl = 2 /\ records_dec (H := key2) n after ≡ₚ records_dec (H := key2) n before /\
     sorted_keys (records_dec (H := key2) n after)) \/
  (kl = 4 /\ records_dec (H := key4) n after ≡ₚ records_dec (H := key4) n before /\
     sorted_keys (records_dec (H := key4) n after)) \/
  (kl = 16 /\ records_dec (H := key16) n after ≡ₚ records_dec (H := key16) n before /\
     sorted_keys (records_dec (H := key16) n after)).

Lemma le_bytes_u8 n z : Forall (is_u 8) (le_bytes n z).
Proof. apply le_bytes_range. Qed.

Lemma records_enc_u8 {K} `{KeyBytes K} (rs : list (K * Z)) :
  (forall k, Forall (is_u 8) (key_enc k)) -> Forall (is_u 8) (records_enc rs).
Proof.
  intros Hk. induction rs as [|r rs IH]; [constructor|].
  change (records_enc (r :: rs)) with (record_enc r ++ records_enc rs). unfold record_enc.
  rewrite !Forall_app. auto using le_bytes_u8.
Qed.

Lemma memcpy_Forall (P : Z -> Prop) dst doff src soff n dst' :
  memcpy dst doff src soff n = Ok dst' -> Forall P dst -> Forall P src -> Forall P dst'.
Proof.
  intros H%memcpy_inv. destruct H as (_ & _ & _ & _ & _ & ->). intros Hd Hs.
  apply IndexProofs.Forall_zsplice; [by apply IndexProofs.Forall_zslice|done].
Qed.

Lemma sort_region_u8 {K} `{CppKey K, KeyBytes K} buf pos num buf' :
  (forall k : K, Forall (is_u 8) (key_enc k)) ->
  IndexB.sort_region std_sort (K := K) buf pos num = Ok buf' ->
  Forall (is_u 8) buf -> Forall (is_u 8) buf'.
Proof.
  intros Hk H1 Hb. unfold IndexB.sort_region in H1. res_inv.
  eapply memcpy_Forall; [done|done|]. by apply records_enc_u8.
Qed.

Lemma sortIndex_shape b start len kl b' :
  IndexB.sortIndex std_sort b start len kl = Ok b' -> IndexWrite.wf b ->
  zlen (IndexB.buffer_blocks b') = zlen (IndexB.buffer_blocks b) ->
  same_shape b b' /\ IndexWrite.wf b'.
Proof.
  intros H Hw Hz. pose proof Hw as []. unfold IndexB.sortIndex in H.
  destruct (_ =? 0) in H; [done|]. set (wraps := IndexB.buffer_size b <? _) in *. clearbody wraps.
  assert (Hbuf : exists buf, b' = IndexB.with_buffer b buf /\ Forall (is_u 8) buf).
  { assert (Hcopy : forall dst doff src soff n r, (if wraps then memcpy dst doff src soff n else Ok dst) = Ok r ->
      Forall (is_u 8) dst -> Forall (is_u 8) src -> Forall (is_u 8) r).
    { intros dst doff src soff n r Hr Hd Hs. destruct wraps; [by eapply memcpy_Forall|by injection Hr as <-]. }
    apply bind_Ok_iff in H as (b1 & H1 & H). apply bind_Ok_iff in H as (b2 & H2 & H).
    apply bind_Ok_iff in H as (b3 & H3 & H). injection H as <-. exists b3. split; [done|].
    apply Hcopy in H1; [|done..]. assert (Hf2 : Forall (is_u 8) b2).
    { unfold IndexB.sort_by_key in H2.
      destruct (kl =? 2); [|destruct (kl =? 4); [|destruct (kl =? 16); [|done]]].
      - eapply (sort_region_u8 (K := Z)) in H2; [done|intros; apply le_bytes_u8|done].
      - eapply (sort_region_u8 (K := Z)) in H2; [done|intros; apply le_bytes_u8|done].
      - eapply (sort_region_u8 (K := IPv6Address)) in H2; [done| |done].
        intros k. apply Forall_app. split; apply le_bytes_u8. }
    by apply Hcopy in H3. }
  destruct Hbuf as (buf & -> & Hf). split; [by split|]. split; try done. by rewrite Hz.
Qed.

Lemma sort_step b start len kl :
  IndexWrite.wf b -> kl = 2 \/ kl = 4 \/ kl = 16 -> 0 <= start -> 0 <= len <= IndexB.block_size b ->
  exists b', IndexB.sortIndex std_sort b start len kl = Ok b' /\ same_shape b b' /\ IndexWrite.wf b' /\
    sorted_records kl (range b start len) (range b' start len) /\ unchanged_outside b b' start len.
Proof.
  intros Hw Hkl Hst Hl. pose proof (size_pos b Hw) as Hs. pose proof Hw as [].
  assert (Hbs : IndexB.block_size b <= IndexB.buffer_size b) by nia.
  pose proof (Z.mod_pos_bound start _ Hs).
  pose proof (IndexProofs.sortIndex_spec std_sort std_sort_perm std_sort_sorted b start len kl) as H1.
  assert (Ht : (kl =? 2) || (kl =? 4) || (kl =? 16) = true) by (destruct Hkl as [->|[->| ->]]; done).
  rewrite Ht in H1. destruct H1 as (b' & E & Hz & Ho & Hu); try done; try lia.
  destruct (sortIndex_shape _ _ _ _ _ E Hw Hz) as [Hsh Hw'].
  exists b'. split_and!; try done.
  - unfold sorted_records. rewrite zlen_range by (done || lia). unfold range.
    rewrite (ss_bufsize _ _ Hsh). unfold IndexProofs.sort_outcome in Ho.
    by rewrite (ss_bufsize _ _ Hsh) in Ho || exact Ho.
  - intros i Hi Hge. apply Hu; [done|]. by rewrite Zminus_mod_idemp_r.
Qed.
End sorting.

(** ** The records of a disk block in the pools *)

(** The records of block [id] in a pool, wherever they are. *)
Definition block_recs (id : Z) (rs : list rgroup) : list (list Z) :=
  rs ≫= fun r => if r_id r =? id then r_recs r else [].

(** They came in one run, without records of other blocks in between. *)
Definition one_run (id : Z) (rs : list rgroup) : Prop :=
  forall i j r r', rs !! i = Some r -> rs !! j = Some r' -> r_id r = id -> r_id r' = id -> i = j.

(** Pool [t] of [m] holds the records [recs] of block [id]: they came in one
    run, and their node is not the newest one in the last slot of the list,
    whose length the pool gets wrong. *)
Definition pool_has (m : Indexes.IndexMemoryPool) (t id : Z) (recs : list (list Z)) : Prop :=
  exists p N s0 rs, zget (Indexes.pool m) t = Ok p /\ holds p N s0 rs /\
    zget Persister.key_lens t = Ok (unit_len p - 8) /\ Forall (is_u 8) (pool_buffer p) /\
    (forall i, index_of id (to_group <$> rs) = Some i ->
       S i <> length rs \/ slot p (Z.of_nat i) <> list_len p - 1) /\
    one_run id rs /\ recs = block_recs id rs.

(** What the pool reports: its first group of the block. *)
Definition group_recs (id : Z) (rs : list rgroup) : list (list Z) :=
  match index_of id (to_group <$> rs) with
  | Some i => default [] (r_recs <$> rs !! i)
  | None => []
  end.

Lemma block_recs_none id rs : (forall i r, rs !! i = Some r -> r_id r <> id) -> block_recs id rs = [].
Proof.
  induction rs as [|r rs IH]; intros H; [done|]. unfold block_recs. rewrite bind_cons.
  fold (block_recs id rs). rewrite IH by (intros i r' Hi; by apply (H (S i))).
  rewrite (proj2 (Z.eqb_neq _ _)); [done|]. by apply (H 0%nat).
Qed.

Lemma block_recs_group id rs : one_run id rs -> block_recs id rs = group_recs id rs.
Proof.
  unfold group_recs. induction rs as [|r rs IH]; intros H1; [done|]. unfold block_recs. rewrite bind_cons.
  fold (block_recs id rs). cbn [fmap list_fmap index_of]. change (g_id (to_group r)) with (r_id r).
  destruct (Z.eqb_spec (r_id r) id) as [E|E].
  - rewrite block_recs_none; [by rewrite app_nil_r|]. intros i r' Hi E'.
    by specialize (H1 0%nat (S i) r r' eq_refl Hi E E').
  - rewrite IH; [by destruct (index_of id _)|]. intros i j x y Hx Hy Ex Ey.
    specialize (H1 (S i) (S j) x y Hx Hy Ex Ey). by injection H1.
Qed.

Lemma zlen_concat_places {A} (f : A -> list Z) l u : (forall x, zlen (f x) = u) ->
  zlen (concat (f <$> l)) = zlen l * u.
Proof.
  intros Hf. induction l as [|x l IH]; [done|]. cbn [fmap list_fmap concat].
  rewrite zlen_app, zlen_cons, Hf. change (map f l) with (f <$> l). lia.
Qed.

Lemma zlen_place p N u : 0 < unit_len p -> capacity p = N * unit_len p ->
  zlen (pool_buffer p) = capacity p -> 0 <= u < N -> zlen (place p u) = unit_len p.
Proof. intros Hu Hc Hb Hr. apply zlen_zslice; nia. Qed.

Lemma group_bytes p N s0 rs (i : nat) (r : rgroup) : holds p N s0 rs -> rs !! i = Some r ->
  zlen (concat (r_recs r)) = zlen (r_recs r) * unit_len p.
Proof.
  intros Hh Hr. pose proof Hh as [Hrep Hb _]. rewrite (group_places p N s0 rs i r Hh Hr) at 1.
  rewrite (zlen_concat_places _ _ (unit_len p)).
  - unfold zlen. by rewrite length_seq.
  - intros k. destruct Hrep. apply (zlen_place p N); try done. by apply Z.mod_pos_bound.
Qed.

Lemma getIndexLen_spec m t id recs : pool_has m t id recs ->
  Indexes.getIndexLen m t id = Ok (zlen (concat recs)).
Proof.
  intros (p & N & s0 & rs & Hp & Hh & _ & _ & Hslot & H1 & ->). unfold Indexes.getIndexLen. rewrite Hp.
  rewrite block_recs_group by done.
  cbn [mbind res_bind]. pose proof (getLen_group p N s0 _ id (hd_rep _ _ _ _ Hh)) as Hlen.
  unfold group_recs. destruct (index_of id (to_group <$> rs)) as [i|] eqn:Ei; [|done].
  destruct (index_of_Some _ _ _ Ei) as (g & Hg & _).
  rewrite list_lookup_fmap in Hg. destruct (rs !! i) as [r|] eqn:Hr; [|done]. cbn in Hg. injection Hg as <-.
  destruct (Hlen (to_group r)) as [_ Hl]; [by rewrite list_lookup_fmap, Hr|].
  rewrite Hl by (rewrite length_fmap; by apply Hslot).
  change (default [] (r_recs <$> Some r)) with (r_recs r).
  by rewrite (group_bytes p N s0 rs i r Hh Hr).
Qed.

Lemma pools_len_spec pools t id ds total : Forall2 (fun m recs => pool_has m t id recs) pools ds ->
  0 <= total -> total + zlen (concat (concat ds)) < 2 ^ 62 ->
  Persister.pools_len pools t id total = Ok (total + zlen (concat (concat ds))).
Proof.
  intros Hf. revert total. induction Hf as [|m recs pools ds Hm _ IH]; intros total Ht Hb.
  { cbn. by rewrite Z.add_0_r. }
  cbn [Persister.pools_len concat] in *. rewrite concat_app, zlen_app in *.
  pose proof (zlen_nonneg (concat recs)). pose proof (zlen_nonneg (concat (concat ds))).
  rewrite (getIndexLen_spec _ _ _ _ Hm). cbn [mbind res_bind].
  rewrite u64_small by lia. rewrite IH by lia. f_equal. lia.
Qed.

(** One type: the groups of all pools arrive behind each other. *)
Lemma write_pools_spec pools t id thread current ds :
  Forall2 (fun m recs => pool_has m t id recs) pools ds -> forall b offset,
  IndexWrite.wf b -> 0 <= thread < zlen (IndexB.disk_write_ids b) -> 0 <= current -> 0 <= offset ->
  let n := zlen (concat (concat ds)) in
  n <= IndexB.buffer_size b -> current + offset + n < 2 ^ 62 ->
  owns_range b (current + offset) n ->
  exists b', Persister.write_pools pools b t id thread current offset = Ok (b', offset + n) /\
    same_shape b b' /\ IndexWrite.wf b' /\ holds_data b b' (concat (concat ds)) (current + offset).
Proof.
  induction 1 as [|m recs pools ds Hm _ IH]; intros b offset Hw Ht Hc Ho n Hn Hb Hown.
  { exists b. unfold n. cbn. rewrite Z.add_0_r.
    split; [done|]. split; [apply same_shape_refl|]. split; [done|by apply holds_data_nil]. }
  cbn [Persister.write_pools]. rewrite (getIndexLen_spec _ _ _ _ Hm). cbn [mbind res_bind].
  unfold n in *. cbn [concat] in *. rewrite concat_app, zlen_app in *.
  pose proof (zlen_nonneg (concat recs)). pose proof (zlen_nonneg (concat (concat ds))).
  destruct (zlen (concat recs) =? 0) eqn:E0; zbool.
  { destruct (concat recs) as [|x l] eqn:Er; [|rewrite zlen_cons in E0; pose proof (zlen_nonneg l); lia].
    cbn [app]. rewrite E0 in *. rewrite Z.add_0_l in *. by apply IH. }
  destruct Hm as (p & N & s0 & rs & Hp & Hh & _ & Hbytes & _ & H1 & Hrecs).
  rewrite block_recs_group in Hrecs by done. unfold group_recs in Hrecs. destruct (index_of id (to_group <$> rs)) as [i|] eqn:Ei; [|by subst recs].
  destruct (index_of_Some _ _ _ Ei) as (g & Hg & _).
  rewrite list_lookup_fmap in Hg. destruct (rs !! i) as [r|] eqn:Hr; [|done].
  change (default [] (r_recs <$> Some r)) with (r_recs r) in Hrecs. subst recs.
  pose proof (group_bytes p N s0 rs i r Hh Hr) as Hgb. rewrite Hgb in *.
  unfold Indexes.writeToBuffer. rewrite Hp. cbn [mbind res_bind]. rewrite (u64_small (current + offset)) by lia.
  destruct (copies_group p N s0 rs id i r b thread (current + offset)) as (b1 & -> & Hsh1 & Hw1 & Hd1);
    try done; try lia; [by eapply owns_range_sub; [done|lia..]|].
  cbn [mbind res_bind]. rewrite (u64_small (offset + _)) by lia.
  pose proof (ss_bufsize _ _ Hsh1) as Hsz. pose proof (ss_threads _ _ Hsh1) as Hth.
  destruct (IH b1 (offset + zlen (r_recs r) * unit_len p)) as (b2 & -> & Hsh2 & Hw2 & Hd2); try done; try lia.
  { eapply owns_range_shape; [done|]. by eapply owns_range_sub; [done|lia..]. }
  exists b2. split; [do 2 f_equal; lia|]. split; [by eapply same_shape_trans|]. split; [done|].
  eapply holds_data_app; try done; [lia..|]. rewrite Hgb.
  by replace (current + offset + zlen (r_recs r) * unit_len p)
    with (current + (offset + zlen (r_recs r) * unit_len p)) by lia.
Qed.

(** ** The metadata of the block *)
Import DiskTable.

(** Only the entry of block [id] changed, to [m']. *)
Record entry_updated (d d' : DiskBuffer) (id : Z) (m' : DiskMeta) : Prop := {
  eu_wf : DiskTable.wf d';
  eu_num : DiskTable.block_num d' = DiskTable.block_num d;
  eu_at : zget (disk_metas d') id = Ok m';
  eu_others : forall i, i <> id -> zget (disk_metas d') i = zget (disk_metas d) i }.

Lemma update_spec d id f m m' : DiskTable.wf d -> id < DiskTable.block_num d ->
  zget (disk_metas d) id = Ok m -> f m = Ok m' ->
  exists d', update d id f = Ok d' /\ entry_updated d d' id m'.
Proof.
  intros Hw Hid Hm Hf. unfold update. rewrite (proj2 (Z.ltb_lt _ _)), Hm by done. cbn [mbind res_bind].
  rewrite Hf. cbn [mbind res_bind]. pose proof (zget_range _ _ _ Hm).
  rewrite zset_Ok by done. cbn [mbind res_bind]. eexists. split; [done|].
  split; cbn [disk_metas DiskTable.block_num]; try done.
  - unfold DiskTable.wf in *. cbn [disk_metas DiskTable.block_num]. by rewrite zlen_insert.
  - by apply zget_insert_eq.
  - intros i Hi. apply zget_insert_ne; [lia|congruence].
Qed.

Lemma entry_updated_trans d d1 d2 id m1 m2 :
  entry_updated d d1 id m1 -> entry_updated d1 d2 id m2 -> entry_updated d d2 id m2.
Proof.
  intros [_ Hn1 _ Ho1] [Hw2 Hn2 Ha2 Ho2]. split; try done; [congruence|].
  intros i Hi. by rewrite Ho2, Ho1.
Qed.

(** [m'] is [m] with other index regions. *)
Definition same_but_regions (m m' : DiskMeta) : Prop :=
  DiskTable.bloomFilterMeta m' = DiskTable.bloomFilterMeta m /\ start_time m' = start_time m /\
  end_time m' = end_time m /\ packet_count m' = packet_count m /\
  zlen (disk_index_meta m') = zlen (disk_index_meta m).

Lemma same_but_regions_trans m m1 m2 :
  same_but_regions m m1 -> same_but_regions m1 m2 -> same_but_regions m m2.
Proof. unfold same_but_regions. intuition congruence. Qed.

Definition region_at (m : DiskMeta) (t first last : Z) : Prop :=
  zget (disk_index_meta m) (t * 2) = Ok first /\ zget (disk_index_meta m) (t * 2 + 1) = Ok last.

Lemma setIndexID_spec d id m t a e : DiskTable.wf d -> id < DiskTable.block_num d ->
  zget (disk_metas d) id = Ok m -> zlen (disk_index_meta m) = 12 -> 0 <= t < 6 ->
  exists d' m', setIndexID d id t a e = Ok d' /\ entry_updated d d' id m' /\ same_but_regions m m' /\
    region_at m' t a e /\
    (forall t' x y, t' <> t -> 0 <= t' -> region_at m t' x y -> region_at m' t' x y).
Proof.
  intros Hw Hid Hm Hlen Ht. unfold setIndexID.
  destruct (update_spec d id (fun m =>
    l ← zset (disk_index_meta m) (t * 2) a; l ← zset l (t * 2 + 1) e;
    Ok {| DiskTable.bloomFilterMeta := DiskTable.bloomFilterMeta m; start_time := start_time m;
          end_time := end_time m; disk_index_meta := l; packet_count := packet_count m |}) m
    {| DiskTable.bloomFilterMeta := DiskTable.bloomFilterMeta m; start_time := start_time m;
       end_time := end_time m; disk_index_meta := <[Z.to_nat (t * 2 + 1) := e]> (<[Z.to_nat (t * 2) := a]>
         (disk_index_meta m)); packet_count := packet_count m |} Hw Hid Hm) as (d' & E & Hu).
  { rewrite zset_Ok by lia. cbn [mbind res_bind]. rewrite zset_Ok by (rewrite zlen_insert; lia). done. }
  exists d'. eexists. split; [exact E|]. split; [exact Hu|]. split; [|split].
  - unfold same_but_regions. cbn. by rewrite !zlen_insert.
  - split; cbn [disk_index_meta].
    + rewrite zget_insert_ne by lia. apply zget_insert_eq. lia.
    + apply zget_insert_eq. rewrite zlen_insert. lia.
  - intros t' x y Hne Ht' [Hx Hy]. split; cbn [disk_index_meta]; rewrite !zget_insert_ne by lia; done.
Qed.

(** ** All types of a block *)
Section persisting.
Context (std_sort : forall K, CppKey K -> list (K * Z) -> list (K * Z)).
Context (std_sort_perm : forall K (H : CppKey K) l, CppKeyLaws K -> std_sort K H l ≡ₚ l).
Context (std_sort_sorted : forall K (H : CppKey K) l, CppKeyLaws K -> sorted_keys (std_sort K H l)).

(** The records of each type, pool by pool, and their bytes. *)
Context (D : Z -> list (list (list Z))).
Definition type_bytes (t : Z) : list Z := concat (concat (D t)).
Definition types_len (types : list Z) : Z := foldr (fun t n => zlen (type_bytes t) + n) 0 types.

(** The regions of [types], adjacent from [cur] on: their ends are in the
    metadata and their records sorted in the buffer. *)
Fixpoint regions_ok (types : list Z) (cur : Z) (b : IndexB.IndexBlockBuffer) (m : DiskMeta) : Prop :=
  match types with
  | [] => True
  | t :: types =>
      let n := zlen (type_bytes t) in
      (exists kl, zget Persister.key_lens t = Ok kl /\ sorted_records kl (type_bytes t) (range b cur n)) /\
      region_at m t cur (cur + n) /\ regions_ok types (cur + n) b m
  end.

Lemma types_len_nonneg types : 0 <= types_len types.
Proof. induction types as [|t types IH]; simpl; [lia|]. pose proof (zlen_nonneg (type_bytes t)). lia. Qed.

Lemma key_lens_ok t : 0 <= t < 6 -> exists kl, zget Persister.key_lens t = Ok kl /\ (kl = 2 \/ kl = 4 \/ kl = 16).
Proof.
  intros Ht. assert (t = 0 \/ t = 1 \/ t = 2 \/ t = 3 \/ t = 4 \/ t = 5) as Hc by lia.
  destruct Hc as [->|[->|[->|[->|[->| ->]]]]]; eexists; (split; [reflexivity|tauto]).
Qed.

Lemma persist_types_spec pools id thread types : NoDup types ->
  Forall (fun t => 0 <= t < 6 /\ Forall2 (fun m recs => pool_has m t id recs) pools (D t)) types ->
  forall cur b d m,
  IndexWrite.wf b -> 0 <= thread < zlen (IndexB.disk_write_ids b) -> 0 <= cur ->
  types_len types <= IndexB.block_size b -> cur + types_len types < 2 ^ 62 ->
  owns_range b cur (types_len types) ->
  DiskTable.wf d -> id < DiskTable.block_num d -> zget (disk_metas d) id = Ok m ->
  zlen (disk_index_meta m) = 12 ->
  exists b' d' m', Persister.persist_types std_sort pools b d id thread cur types = Ok (b', d') /\
    same_shape b b' /\ IndexWrite.wf b' /\ unchanged_outside b b' cur (types_len types) /\
    zget (disk_metas d') id = Ok m' /\ DiskTable.wf d' /\ DiskTable.block_num d' = DiskTable.block_num d /\
    (forall i, i <> id -> zget (disk_metas d') i = zget (disk_metas d) i) /\
    same_but_regions m m' /\ regions_ok types cur b' m' /\
    (forall t x y, t ∉ types -> 0 <= t -> region_at m t x y -> region_at m' t x y).
Proof.
  intros Hnd Hf. induction Hf as [|t types [Ht Hpools] _ IH];
    intros cur b d m Hw Hth Hc Hfit Hend Hown Hdw Hid Hm Hlen.
  { exists b, d, m. cbn. split_and!; try done; by apply same_shape_refl. }
  apply NoDup_cons in Hnd as [Hnin Hnd]. specialize (IH Hnd).
  cbn [types_len foldr] in *. fold (types_len types) in *.
  pose proof (types_len_nonneg types) as Hr. pose proof (zlen_nonneg (type_bytes t)) as Hn.
  set (n := zlen (type_bytes t)) in *. pose proof (size_pos b Hw) as Hs.
  assert (Hbs : IndexB.block_size b <= IndexB.buffer_size b) by (destruct Hw; nia).
  cbn [Persister.persist_types].
  destruct (write_pools_spec pools t id thread cur (D t) Hpools b 0) as (b1 & E1 & Hsh1 & Hw1 & Hd1);
    try done; fold (type_bytes t); fold n; try lia.
  { rewrite Z.add_0_r. by eapply owns_range_sub; [done|lia..]. }
  rewrite E1. fold (type_bytes t) in *. fold n. rewrite Z.add_0_r, ?Z.add_0_l in *. cbn [mbind res_bind].
  destruct (key_lens_ok t Ht) as (kl & Hkl & Hklv). rewrite Hkl. cbn [mbind res_bind].
  pose proof (ss_bufsize _ _ Hsh1) as Hz1. pose proof (ss_bs _ _ Hsh1) as Hbs1.
  destruct (holds_data_range b b1 (type_bytes t) cur) as [Hrange1 Hun1]; try done; [fold n; lia|].
  fold n in Hrange1, Hun1.
  destruct (sort_step std_sort std_sort_perm std_sort_sorted b1 cur n kl) as (b2 & -> & Hsh2 & Hw2 & Hso & Hun2);
    try done; [lia|]. rewrite Hrange1 in Hso.
  cbn [mbind res_bind]. rewrite (u64_small (cur + n)) by lia.
  destruct (setIndexID_spec d id m t cur (cur + n)) as (d1 & m1 & -> & [Hdw1 Hnum1 Hm1 Ho1] & Hsame1 & Hreg & Hkeep);
    try done. cbn [mbind res_bind].
  pose proof (same_shape_trans _ _ _ Hsh1 Hsh2) as Hsh. pose proof (ss_bufsize _ _ Hsh) as Hz2.
  destruct (IH (cur + n) b2 d1 m1) as (b3 & d3 & m3 & -> & Hsh3 & Hw3 & Hun3 & Hm3 & Hdw3 & Hnum3 & Ho3 & Hsame3 & Hregs & Hkeep3);
    try done; try lia.
  { by rewrite (ss_threads _ _ Hsh). }
  { rewrite (ss_bs _ _ Hsh). lia. }
  { eapply owns_range_shape; [done|]. by eapply owns_range_sub; [done|lia..]. }
  { by destruct Hsame1 as (_ & _ & _ & _ & ->). }
  assert (Hrange3 : range b3 cur n = range b2 cur n).
  { apply (range_unchanged b2 b3 (cur + n) (types_len types));
      [done|done|apply (ss_bufsize _ _ Hsh3)|done|lia|lia|right; lia]. }
  exists b3, d3, m3. split; [done|]. split; [by eapply same_shape_trans|]. split; [done|].
  split_and!; try done; try congruence.
  - apply (unchanged_app b b2 b3); [done..|lia|by apply (unchanged_trans b b1 b2)|done].
  - intros i Hi. by rewrite Ho3, Ho1.
  - by eapply same_but_regions_trans.
  - cbn [regions_ok]. fold n. split; [exists kl; by rewrite Hrange3|]. split; [|done].
    apply Hkeep3; [done|lia|done].
  - intros t' x y Hnin' Ht' Hx. apply not_elem_of_cons in Hnin' as [Hne Hnin'].
    apply Hkeep3; [done|done|]. by apply Hkeep.
Qed.

Lemma zseq_types : zseq INDEX_NUM = [0; 1; 2; 3; 4; 5].
Proof. reflexivity. Qed.

Lemma total_len_spec pools id types total :
  Forall (fun t => Forall2 (fun m recs => pool_has m t id recs) pools (D t)) types ->
  0 <= total -> total + types_len types < 2 ^ 62 ->
  Persister.total_len pools id types total = Ok (total + types_len types).
Proof.
  intros Hf. revert total. induction Hf as [|t types Ht _ IH]; intros total Ht0 Hb.
  { cbn. by rewrite Z.add_0_r. }
  cbn [Persister.total_len types_len foldr] in *. fold (types_len types) in *.
  pose proof (types_len_nonneg types). pose proof (zlen_nonneg (type_bytes t)).
  rewrite (pools_len_spec _ _ _ _ _ Ht) by (fold (type_bytes t); lia). cbn [mbind res_bind].
  fold (type_bytes t). rewrite IH by lia. f_equal. lia.
Qed.

Lemma regions_ok_with_filter types cur b m f :
  regions_ok types cur b (with_filter m f) <-> regions_ok types cur b m.
Proof.
  revert cur. induction types as [|t types IH]; intros cur; cbn [regions_ok]; [done|]. by rewrite IH.
Qed.

(** When the persister comes to slot [slot]: its meta [m], the disk metadata
    [dm] of its block, the records [D] in the memory pools, and an index block
    buffer that owns the positions from the write position on. *)
Definition start_pos (s : Persister.PState) : Z :=
  Persister.disk_write_pos s mod Persister.disk_size (Persister.persister s).
Record persist_ready (s : Persister.PState) (slot : Z) (m : IndexBufferMeta) (dm : DiskMeta) : Prop := {
  pr_slot : zget (metas (Persister.index_buffer s)) slot = Ok m;
  pr_pools : Forall (fun t => Forall2 (fun p recs => pool_has p t (disk_block_id m) recs)
    (memory_pools (Persister.store s)) (D t)) (zseq INDEX_NUM);
  pr_size : 0 < Persister.disk_size (Persister.persister s);
  pr_thread : 0 <= Persister.index_block_buffer_thread_id (Persister.persister s)
    < zlen (IndexB.disk_write_ids (Persister.index_block_buffer s));
  pr_buffer : IndexWrite.wf (Persister.index_block_buffer s);
  pr_fit : types_len (zseq INDEX_NUM) <= IndexB.block_size (Persister.index_block_buffer s);
  pr_end : start_pos s + types_len (zseq INDEX_NUM) < 2 ^ 62;
  pr_owns : owns_range (Persister.index_block_buffer s) (start_pos s) (types_len (zseq INDEX_NUM));
  pr_disk : DiskTable.wf (Persister.disk_buffer s);
  pr_id : disk_block_id m < DiskTable.block_num (Persister.disk_buffer s);
  pr_entry : zget (disk_metas (Persister.disk_buffer s)) (disk_block_id m) = Ok dm;
  pr_regions : zlen (disk_index_meta dm) = 12;
  pr_bitmap : has_bitmap (IndexBuffer.bloomFilterMeta m) = true;
  pr_reader : has_bitmap (DiskTable.bloomFilterMeta dm) = true;
  pr_col : writing_col (IndexBuffer.bloomFilterMeta m) < getColCount (bitmap (Persister.store s)) }.

Lemma persistMeta_spec s slot m dm : persist_ready s slot m dm ->
  let id := disk_block_id m in
  let n := types_len (zseq INDEX_NUM) in
  exists s' dm', Persister.persistMeta std_sort s slot = Ok s' /\
    zget (disk_metas (Persister.disk_buffer s')) id = Ok dm' /\
    regions_ok (zseq INDEX_NUM) (start_pos s) (Persister.index_block_buffer s') dm' /\
    same_shape (Persister.index_block_buffer s) (Persister.index_block_buffer s') /\
    IndexWrite.wf (Persister.index_block_buffer s') /\
    reading_col (DiskTable.bloomFilterMeta dm') = writing_col (IndexBuffer.bloomFilterMeta m) /\
    Persister.disk_write_pos s' = u64 (Persister.disk_write_pos s + n) /\
    (forall i, i <> id ->
      zget (disk_metas (Persister.disk_buffer s')) i = zget (disk_metas (Persister.disk_buffer s)) i) /\
    unchanged_outside (Persister.index_block_buffer s) (Persister.index_block_buffer s') (start_pos s) n.
Proof.
  intros [Hm Hpools Hds Hth Hw Hfit Hend Hown Hdw Hid Hdm Hlen Hh1 Hh2 Hcol] id n.
  unfold start_pos in *. set (cur := _ mod _) in *. set (b := Persister.index_block_buffer s) in *.
  fold n in Hfit, Hend, Hown. fold id in Hpools, Hid, Hdm.
  pose proof (types_len_nonneg (zseq INDEX_NUM)) as Hn0. fold n in Hn0.
  pose proof (Z.mod_pos_bound (Persister.disk_write_pos s) _ Hds) as Hcur. fold cur in Hcur.
  unfold Persister.persistMeta. rewrite Hm. cbn [mbind res_bind]. fold id.
  rewrite (total_len_spec _ id (zseq INDEX_NUM) 0 Hpools) by (fold n; lia). cbn [mbind res_bind]. fold n.
  rewrite (proj2 (Z.eqb_neq _ 0)) by lia. fold cur. fold b.
  destruct (persist_types_spec (memory_pools (Persister.store s)) id
    (Persister.index_block_buffer_thread_id (Persister.persister s)) (zseq INDEX_NUM))
    with (cur := cur) (b := b) (d := Persister.disk_buffer s) (m := dm)
    as (b' & d1 & m1 & -> & Hshape & Hw' & Hun & Hm1 & Hdw1 & Hnum1 & Ho1 & Hsame & Hregs & _); try done; try lia.
  { rewrite zseq_types. repeat constructor; set_solver by lia. }
  { rewrite Forall_forall in Hpools |- *. intros t Ht. split; [|by apply Hpools].
    rewrite zseq_types in Ht. set_solver by lia. }
  cbn [mbind res_bind]. unfold setBloomFilterReadingCol.
  destruct (update_spec d1 id (fun m0 => Ok (with_filter m0 (setReadingCol (DiskTable.bloomFilterMeta m0)
    (bitmap (Persister.store s)) (getWritingCol (IndexBuffer.bloomFilterMeta m))))) m1 _ Hdw1 ltac:(lia) Hm1 eq_refl)
    as (d2 & -> & [Hdw2 Hnum2 Hm2 Ho2]).
  cbn [mbind res_bind]. eexists. eexists. split; [done|].
  cbn [Persister.disk_buffer Persister.index_block_buffer Persister.disk_write_pos].
  split; [exact Hm2|]. split; [by apply regions_ok_with_filter|]. split_and!; try done.
  - cbn. destruct Hsame as (-> & _). unfold setReadingCol, getWritingCol. rewrite Hh2, Hh1. cbn [negb].
    by rewrite (proj2 (Z.leb_gt _ _)) by done.
  - intros i Hi. by rewrite Ho2, Ho1.
Qed.

End persisting.

(** ** Witness *)
Definition demo_D (t : Z) : list (list (list Z)) := [[replicate (Z.to_nat (Indexes.unit_of t)) 5]].
Definition demo_dm : DiskMeta := init_meta 2.
Definition demo_persist : Persister.PState :=
  Persister.mkP (Persister.mkIP 1024 128 8 0 0) (mkIB 2 100 [mkIBMeta demo_filter 8 4; mkIBMeta demo_filter 7 1] [0])
    demo_store demo_ibb (mkDB 8 (replicate 8 demo_dm)) 2048.

Lemma demo_pool_has t : 0 <= t < 6 -> pool_has demo_index_pool t 7 [replicate (Z.to_nat (Indexes.unit_of t)) 5].
Proof.
  intros Ht. assert (Hc : t = 0 \/ t = 1 \/ t = 2 \/ t = 3 \/ t = 4 \/ t = 5) by lia.
  exists (demo_pool (Indexes.unit_of t)), 2, 0, (demo_recs (Indexes.unit_of t)).
  destruct Hc as [->|[->|[->|[->|[->| ->]]]]]; (split; [reflexivity|]);
    (split; [by apply demo_holds|]); (split; [reflexivity|]);
    (split; [apply Forall_replicate; done|]);
    (split; [intros i Hi; injection Hi as <-; right; vm_compute; discriminate|]);
    (split; [intros [|i] [|j] r r' Hi Hj; done|reflexivity]).
Qed.

Lemma demo_pools_have : Forall (fun t => Forall2 (fun p recs => pool_has p t 7 recs) [demo_index_pool] (demo_D t))
  (zseq INDEX_NUM).
Proof.
  rewrite zseq_types. rewrite !Forall_cons, Forall_nil.
  split_and!; try done; (constructor; [apply demo_pool_has; lia|constructor]).
Qed.

Lemma demo_persist_ready : persist_ready demo_D demo_persist 1 (mkIBMeta demo_filter 7 1) demo_dm.
Proof.
  split; try reflexivity; [exact demo_pools_have|vm_compute; split; [discriminate|reflexivity]|
    exact demo_ibb_wf|vm_compute; discriminate|].
  apply demo_owns. vm_compute. split; [discriminate|reflexivity].
Qed.

