(* ===== verification/QueryTree.v ===== *)
(** * Query expressions (dpdk_component/querier.cpp: QueryTree and its helpers)

    The tokenizer, the two grammar checks and the token classes, which the
    source gives as regular expressions.  Those are written out as [regex]
    values and matched as a whole by derivatives. *)
From S2P Require Import Prelude.
From Stdlib Require Import ZArith Lia Ascii String.
From stdpp Require Import strings.
Local Open Scope string_scope.
Local Open Scope list_scope.
Local Open Scope Z_scope.

(** ** Regular expressions *)
Inductive regex :=
| RNone
| REps
| RChr (p : ascii -> bool)
| RCat (a b : regex)
| RAlt (a b : regex)
| RStar (a : regex).

(** The strings an expression matches as a whole ([std::regex_match]). *)
Inductive matches : regex -> list ascii -> Prop :=
| m_eps : matches REps []
| m_chr p c : p c = true -> matches (RChr p) [c]
| m_cat a b s t : matches a s -> matches b t -> matches (RCat a b) (s ++ t)
| m_alt_l a b s : matches a s -> matches (RAlt a b) s
| m_alt_r a b s : matches b s -> matches (RAlt a b) s
| m_star_nil a : matches (RStar a) []
| m_star_cons a s t : matches a s -> matches (RStar a) t -> matches (RStar a) (s ++ t).

Fixpoint nullable (r : regex) : bool :=
  match r with
  | RNone | RChr _ => false
  | REps | RStar _ => true
  | RCat a b => nullable a && nullable b
  | RAlt a b => nullable a || nullable b
  end.

(** Constructors that drop what cannot match. *)
Definition rcat (a b : regex) : regex :=
  match a, b with
  | RNone, _ | _, RNone => RNone
  | REps, b => b
  | a, b => RCat a b
  end.
Definition ralt (a b : regex) : regex :=
  match a, b with RNone, b => b | a, RNone => a | a, b => RAlt a b end.

Fixpoint deriv (r : regex) (c : ascii) : regex :=
  match r with
  | RNone | REps => RNone
  | RChr p => if p c then REps else RNone
  | RCat a b =>
      let d := rcat (deriv a c) b in if nullable a then ralt d (deriv b c) else d
  | RAlt a b => ralt (deriv a c) (deriv b c)
  | RStar a => rcat (deriv a c) (RStar a)
  end.

Fixpoint rmatch (r : regex) (s : list ascii) : bool :=
  match s with [] => nullable r | c :: s => rmatch (deriv r c) s end.

Definition regex_match (r : regex) (s : string) : bool := rmatch r (String.list_ascii_of_string s).

(** Notation of the patterns: characters, ranges, [?], [{m,n}]. *)
Definition chr (c : ascii) : regex := RChr (Ascii.eqb c).
Definition code (c : ascii) : Z := Z.of_N (N_of_ascii c).
Definition between (a b c : ascii) : bool := (code a <=? code c) && (code c <=? code b).
Definition rng (a b : ascii) : regex := RChr (between a b).
Definition opt (r : regex) : regex := RAlt REps r.
Definition cats (l : list regex) : regex := foldr RCat REps l.
Definition alts (l : list regex) : regex := foldr RAlt RNone l.
Fixpoint exactly (n : nat) (r : regex) : regex :=
  match n with O => REps | S n => RCat r (exactly n r) end.
Fixpoint upto (n : nat) (r : regex) : regex :=
  match n with O => REps | S n => opt (RCat r (upto n r)) end.
Definition times (m n : nat) (r : regex) : regex := RCat (exactly m r) (upto (n - m) r).

Definition digit : regex := rng "0" "9".
Definition alpha : regex := RChr (fun c => between "a" "z" c || between "A" "Z" c).
Definition alnum : regex :=
  RChr (fun c => between "a" "z" c || between "A" "Z" c || between "0" "9" c).
Definition hex : regex :=
  RChr (fun c => between "0" "9" c || between "A" "F" c || between "a" "f" c).
Definition space : regex := RChr (fun c => (code c =? 32) || ((9 <=? code c) && (code c <=? 13))).
Definition anychar : regex := RChr (fun c => negb ((code c =? 10) || (code c =? 13))).

(** ** Token classes *)
Definition char_at (s : string) (i : Z) : option ascii := String.get (Z.to_nat i) s.

Definition is_digit (c : ascii) : bool := between "0" "9" c.

(** [isNumeric]: the loop over the characters with its three flags; [prev] is
    the character before. *)
Fixpoint isNumeric_loop (s : string) (prev : option ascii) (num dot sign : bool) : bool :=
  match s with
  | EmptyString => num
  | String c s =>
      if is_digit c then isNumeric_loop s (Some c) true dot sign
      else if Ascii.eqb c "." then
        if dot then false else isNumeric_loop s (Some c) num true sign
      else if Ascii.eqb c "-" then
        if sign || num
           || (dot && match prev with Some p => negb (Ascii.eqb p ".") | None => false end)
        then false else isNumeric_loop s (Some c) num dot true
      else false
  end.
Definition isNumeric (s : string) : bool := isNumeric_loop s None false false false.

(** [25\[0-5\]|2\[0-4\]\[0-9\]|\[01\]?\[0-9\]\[0-9\]?] *)
Definition octet4 : regex :=
  alts [cats [chr "2"; chr "5"; rng "0" "5"]; cats [chr "2"; rng "0" "4"; digit];
        cats [opt (rng "0" "1"); digit; opt digit]].
Definition ipv4Regex : regex :=
  cats [exactly 3 (RCat octet4 (chr ".")); octet4;
        opt (RCat (chr "/") (RAlt (cats [chr "3"; rng "0" "2"]) (cats [opt (rng "1" "2"); digit])))].
Definition isValidIPv4 (s : string) : bool := regex_match ipv4Regex s.

(** The pieces of the IPv6 pattern: [H] four hex digits, [D] a decimal octet. *)
Definition H16 : regex := times 1 4 hex.
Definition Hc : regex := RCat H16 (chr ":").
Definition cH : regex := RCat (chr ":") H16.
Definition D8 : regex :=
  alts [cats [chr "2"; chr "5"; rng "0" "5"]; cats [chr "2"; rng "0" "4"; digit];
        cats [chr "1"; digit; digit]; cats [opt (rng "1" "9"); digit]].
Definition V4 : regex := RCat D8 (exactly 3 (RCat (chr ".") D8)).
Definition ipv6_alternatives : regex :=
  alts [RCat (exactly 7 Hc) (alts [H16; chr ":"]);
        RCat (exactly 6 Hc) (alts [cH; V4; chr ":"]);
        RCat (exactly 5 Hc) (alts [times 1 2 cH; RCat (chr ":") V4; chr ":"]);
        RCat (exactly 4 Hc) (alts [times 1 3 cH; cats [opt cH; chr ":"; V4]; chr ":"]);
        RCat (exactly 3 Hc) (alts [times 1 4 cH; cats [times 0 2 cH; chr ":"; V4]; chr ":"]);
        RCat (exactly 2 Hc) (alts [times 1 5 cH; cats [times 0 3 cH; chr ":"; V4]; chr ":"]);
        RCat (exactly 1 Hc) (alts [times 1 6 cH; cats [times 0 4 cH; chr ":"; V4]; chr ":"]);
        RCat (chr ":") (alts [times 1 7 cH; cats [times 0 5 cH; chr ":"; V4]; chr ":"])].
Definition ipv6Regex : regex :=
  RStar (cats [RStar space; ipv6_alternatives;
               opt (cats [chr "%"; anychar; RStar anychar]); RStar space;
               opt (RCat (chr "/") (alts [rng "1" "9"; RCat (rng "1" "9") digit;
                      cats [chr "1"; rng "0" "1"; digit]; cats [chr "1"; chr "2"; rng "0" "8"]]))]).
Definition isValidIPv6 (s : string) : bool := regex_match ipv6Regex s.

Definition macRegex : regex :=
  RAlt (RCat (exactly 5 (cats [hex; hex; RAlt (chr ":") (chr "-")])) (exactly 2 hex))
       (exactly 12 hex).
Definition isValidMACAddress (s : string) : bool := regex_match macRegex s.

Definition isBoolean (s : string) : bool :=
  bool_decide (s = "true") || bool_decide (s = "false") || bool_decide (s = "1")
  || bool_decide (s = "0").

Definition quote : ascii := "034".
Definition isString (s : string) : bool :=
  (2 <=? Z.of_nat (String.length s))
  && bool_decide (char_at s 0 = Some quote)
  && bool_decide (char_at s (Z.of_nat (String.length s) - 1) = Some quote).

Definition identRegex : regex := RCat alpha (RStar alnum).
Definition isVar (s : string) : bool :=
  regex_match (RCat identRegex (RStar (RCat (chr ".") identRegex))) s.

Definition isValue (s : string) : bool :=
  isNumeric s || isValidIPv4 s || isValidIPv6 s || isValidMACAddress s || isBoolean s || isString s.

Definition isSlice (s : string) : bool :=
  regex_match (cats [RStar digit; chr ":"; RStar digit; opt (RCat (chr ":") (RStar digit))]) s.

(** ** Splitting an expression into tokens *)
Section split.
(** [tmp.back()] of an empty string reads outside the string: some byte. *)
Context (junk : ascii).

Definition back (s : string) : ascii :=
  default junk (char_at s (Z.of_nat (String.length s) - 1)).

Definition is_one_of (c : ascii) (l : list ascii) : bool := bool_decide (c ∈ l).

(** The tokens pushed so far and the one being built. *)
Record Split := mkSplit { exp_list : list string; tmp : string }.

Definition push_back (st : Split) (c : ascii) : Split :=
  mkSplit (exp_list st) (tmp st ++ String c "")%string.
(** [exp_list.push_back(tmp); tmp.clear();] *)
Definition flush (st : Split) : Split := mkSplit ((exp_list st ++ [tmp st])%list) "".

(** [PUSH_TMP]; [None] is its early return of the empty list. *)
Definition push_tmp (st : Split) : option Split :=
  if bool_decide (tmp st = "") then Some st
  else if is_one_of (back (tmp st)) ["="; "|"; "&"; "^"]%char then None
  else Some (flush st).

Definition split_step (st : Split) (c : ascii) : option Split :=
  let op := back (tmp st) in
  let st := if negb (Ascii.eqb c "=") && is_one_of op ["!"; "<"; ">"]%char
            then flush st else st in
  if Ascii.eqb c " " then push_tmp st
  else if is_one_of c ["("; ")"; "{"; "}"; "["; "]"; ","]%char then
    st ← push_tmp st; Some (flush (push_back st c))
  else if is_one_of c ["!"; "<"; ">"]%char then st ← push_tmp st; Some (push_back st c)
  else if Ascii.eqb c "=" then
    if is_one_of (back (tmp st)) ["!"; "<"; ">"; "="]%char then Some (flush (push_back st c))
    else st ← push_tmp st; Some (push_back st c)
  else if is_one_of c ["|"; "&"; "^"]%char then
    if Ascii.eqb (back (tmp st)) c then Some (flush (push_back st c))
    else st ← push_tmp st; Some (push_back st c)
  else Some (push_back st c).

Fixpoint split_loop (st : Split) (s : string) : option Split :=
  match s with
  | EmptyString => push_tmp st
  | String c s => st ← split_step st c; split_loop st s
  end.

Definition splitExpression (originExpression : string) : list string :=
  match split_loop (mkSplit [] "") originExpression with
  | Some st => exp_list st
  | None => []
  end.
End split.

(** ** The grammar checks *)
Inductive LastType :=
| EMPTY | VAR | OP | CON | EXP | BRACKET | SQUARE_BRACKET | SLICE | IN | BRACE | VALUE | COMMA
| LAST_TYPE_NUM.

#[export] Instance LastType_eq_dec : EqDecision LastType.
Proof. solve_decision. Defined.

(** Membership of the last token's type; the stack of open brackets. *)
Definition last_in (t : LastType) (l : list LastType) : bool := bool_decide (t ∈ l).

Definition VState : Type := list string * LastType.

(** One turn of the loop: [Ok None] is [return false]; reading the top of an
    empty [std::stack] is undefined. *)
Definition verify_step (st : VState) (s : string) : res (option VState) :=
  let '(stack, last) := st in
  let expect (allowed : list LastType) (next : VState) : res (option VState) :=
    Ok (if last_in last allowed then Some next else None) in
  let close (allowed : list LastType) (next : LastType) : res (option VState) :=
    match stack with
    | [] => Undef
    | top :: rest =>
        Ok (if negb (bool_decide (top = "(")) && negb (last_in last allowed) then None
            else Some (rest, next))
    end in
  if bool_decide (s = "!") then expect [EMPTY; CON; BRACKET] (stack, CON)
  else if bool_decide (s = "(") then expect [EMPTY; CON; BRACKET] (s :: stack, BRACKET)
  else if bool_decide (s = "{") then expect [IN] (s :: stack, BRACE)
  else if bool_decide (s = "[") then expect [VAR] (s :: stack, SQUARE_BRACKET)
  else if bool_decide (s = ")") then close [EXP; BRACKET] EXP
  else if bool_decide (s = "}") then close [VALUE] EXP
  else if bool_decide (s = "]") then close [SLICE] VAR
  else if bool_decide (s ∈ ["=="; "!="; ">"; "<"; ">="; "<="; "contains"]) then
    expect [VAR] (stack, OP)
  else if bool_decide (s ∈ ["||"; "&&"; "^^"]) then expect [VAR; EXP] (stack, CON)
  else if bool_decide (s = "in") then expect [VAR] (stack, IN)
  else if bool_decide (s = ",") then expect [VALUE] (stack, COMMA)
  else if isSlice s then expect [SQUARE_BRACKET] (stack, SLICE)
  else if isVar s then expect [EMPTY; CON; BRACKET] (stack, VAR)
  else if isValue s then
    if last_in last [OP] then Ok (Some (stack, EXP))
    else if last_in last [BRACE; COMMA] then Ok (Some (stack, VALUE))
    else Ok None
  else Ok None.

Fixpoint verify_loop (st : VState) (l : list string) : res bool :=
  match l with
  | [] => Ok (bool_decide (st.1 = []))
  | s :: l =>
      r ← verify_step st s;
      match r with None => Ok false | Some st => verify_loop st l end
  end.

Definition grammarVerify (l : list string) : res bool := verify_loop ([], EMPTY) l.

(** [grammarVerifySimply]: the position inside [var == value]. *)
Fixpoint verify_simply (exp_status : Z) (l : list string) : bool :=
  match l with
  | [] => true
  | s :: l =>
      if isVar s then if negb (exp_status =? 0) then false else verify_simply 1 l
      else if bool_decide (s = "==") then if negb (exp_status =? 1) then false else verify_simply 2 l
      else if isValue s then if negb (exp_status =? 2) then false else verify_simply 0 l
      else if bool_decide (s ∈ ["("; ")"; "||"; "&&"]) then
        if negb (exp_status =? 0) then false else verify_simply exp_status l
      else false
  end.
Definition grammarVerifySimply (l : list string) : bool := verify_simply 0 l.

(** The tree object keeps the last accepted list. *)
Record QueryTree := mkTree { originExpression : string; expList : list string }.
Definition new_QueryTree : QueryTree := mkTree "" [].

Definition inputExpression (junk : ascii) (t : QueryTree) (exp : string) : res (bool * QueryTree) :=
  let t := mkTree exp (expList t) in
  let l := splitExpression junk exp in
  if bool_decide (l = []) then Ok (false, t) else
  ok ← grammarVerify l;
  if negb ok then Ok (false, t)
  else if negb (grammarVerifySimply l) then Ok (false, t)
  else Ok (true, mkTree exp l).

Definition getExpList (t : QueryTree) : list string := expList t.

(** ** Helpers on times and addresses *)
Fixpoint find_char (c : ascii) (s : string) (i : Z) : Z :=
  match s with
  | EmptyString => i
  | String d s => if Ascii.eqb d c then i else find_char c s (i + 1)
  end.
(** Position of the first ['/'] or ['.'], or the size. *)
Definition splitIP (s : string) : Z := u32 (find_char "/" s 0).
Definition splitTime (s : string) : Z := u32 (find_char "." s 0).

Definition ssize (s : string) : Z := Z.of_nat (String.length s).
Definition substr (s : string) (pos n : Z) : string := String.substring (Z.to_nat pos) (Z.to_nat n) s.

(** [std::stoul]: leading white space, a sign, decimal digits. *)
Fixpoint digits_val (s : string) (acc : Z) (seen : bool) : option Z :=
  match s with
  | String c r =>
      if is_digit c then digits_val r (acc * 10 + (code c - 48)) true
      else if seen then Some acc else None
  | EmptyString => if seen then Some acc else None
  end.
Fixpoint skip_space (s : string) : string :=
  match s with
  | String c r => if (code c =? 32) || ((9 <=? code c) && (code c <=? 13)) then skip_space r else s
  | EmptyString => s
  end.
Definition stoul (s : string) : res Z :=
  let '(neg, s) := match skip_space s with
                   | String c r => if Ascii.eqb c "-" then (true, r)
                                   else if Ascii.eqb c "+" then (false, r) else (false, String c r)
                   | EmptyString => (false, EmptyString)
                   end in
  match digits_val s 0 false with
  | None => Throws
  | Some v => if MAX64 <? v then Throws else Ok (if neg then u64 (- v) else v)
  end.

Definition stollTime (s : string) : res Z :=
  let sp_pos := splitTime s in
  v ← stoul (substr s 0 sp_pos);
  let ret_time := u64 (Z.shiftl v 32) in
  if sp_pos =? ssize s then Ok ret_time else
  w ← stoul (substr s (sp_pos + 1) (ssize s - sp_pos - 1));
  Ok (u64 (ret_time + w)).

(** A shift by the full width is undefined. *)
Definition shl32 (v n : Z) : res Z := if (n <? 0) || (32 <=? n) then Undef else Ok (u32 (Z.shiftl v n)).
Definition maskToInteger (maskBits : Z) : res Z := shl32 0xFFFFFFFF (32 - maskBits).


(** ** Matching by derivatives is matching *)
Module RegexProofs.

Lemma matches_none s : matches RNone s -> False.
Proof. inversion 1. Qed.

Lemma rcat_spec a b s : matches (rcat a b) s <-> matches (RCat a b) s.
Proof.
  split.
  - assert (He : matches b s -> matches (RCat REps b) s) by exact (m_cat REps b [] s m_eps).
    intros H. destruct a, b; cbn [rcat] in H; first [exact H|exact (He H)|by apply matches_none in H].
  - intros H. inversion H as [| |x y s1 s2 H1 H2| | | |]; subst.
    destruct a; [by apply matches_none in H1| | | | |]; destruct b; cbn [rcat];
      try (by apply matches_none in H2); try (by apply m_cat);
      inversion H1; subst; exact H2.
Qed.

Lemma ralt_spec a b s : matches (ralt a b) s <-> matches (RAlt a b) s.
Proof.
  split.
  - intros H. destruct a, b; cbn [ralt] in H; try exact H;
      first [by apply m_alt_r|by apply m_alt_l].
  - intros H. inversion H as [| | |x y t H1|x y t H1| |]; subst; destruct a, b; cbn [ralt];
      try done; try (by apply matches_none in H1).
Qed.

Lemma nullable_spec r : nullable r = true <-> matches r [].
Proof.
  induction r as [| |p|a IHa b IHb|a IHa b IHb|a IHa]; cbn [nullable].
  - split; [discriminate|intros []%matches_none].
  - split; [constructor|done].
  - split; [discriminate|inversion 1].
  - rewrite andb_true_iff, IHa, IHb. split.
    + intros [H1 H2]. exact (m_cat _ _ [] [] H1 H2).
    + intros H. inversion H as [| |x y s1 s2 H1 H2 Ex Es| | | |]; subst.
      apply app_eq_nil in Es as [-> ->]. done.
  - rewrite orb_true_iff, IHa, IHb. split.
    + intros [H|H]; [by apply m_alt_l|by apply m_alt_r].
    + intros H. inversion H; subst; auto.
  - split; [constructor|done].
Qed.

Lemma star_cons a c s : matches (RStar a) (c :: s) ->
  exists s1 s2, s = s1 ++ s2 /\ matches a (c :: s1) /\ matches (RStar a) s2.
Proof.
  remember (RStar a) as r eqn:Er. remember (c :: s) as t eqn:Et.
  intros H. revert a c s Er Et.
  induction H as [|p c0 Hp|a b s1 s2 H1 IH1 H2 IH2|a b s1 H1 IH1|a b s1 H1 IH1|a|a s1 s2 H1 IH1 H2 IH2];
    intros a' c' s' Er Et; try discriminate.
  injection Er as ->. destruct s1 as [|c1 s1]; simpl in Et; [by apply IH2|].
  injection Et as -> <-. by exists s1, s2.
Qed.

Lemma deriv_spec r c : forall s, matches (deriv r c) s <-> matches r (c :: s).
Proof.
  induction r as [| |p|a IHa b IHb|a IHa b IHb|a IHa]; intros s; cbn [deriv].
  - split; intros H; by apply matches_none in H.
  - split; intros H; [by apply matches_none in H|inversion H].
  - destruct (p c) eqn:E; split; intros H.
    + inversion H; subst. by constructor.
    + inversion H; subst. constructor.
    + by apply matches_none in H.
    + inversion H; subst. congruence.
  - assert (Hd : matches (rcat (deriv a c) b) s <->
      exists s1 s2, s = s1 ++ s2 /\ matches a (c :: s1) /\ matches b s2).
    { rewrite rcat_spec. split.
      - intros H. inversion H as [| |x y s1 s2 H1 H2| | | |]; subst. exists s1, s2.
        by rewrite <-IHa.
      - intros (s1 & s2 & -> & H1 & H2). apply m_cat; [by apply IHa|done]. }
    assert (Hc : matches (RCat a b) (c :: s) <->
      (exists s1 s2, s = s1 ++ s2 /\ matches a (c :: s1) /\ matches b s2) \/
      (nullable a = true /\ matches b (c :: s))).
    { split.
      - intros H. inversion H as [| |x y s1 s2 H1 H2 Ex Es| | | |]; subst. destruct s1 as [|c1 s1].
        + simpl in *. subst. right. by rewrite nullable_spec.
        + injection Es as -> <-. left. eauto.
      - intros [(s1 & s2 & -> & H1 & H2)|[H1 H2]].
        + exact (m_cat _ _ (c :: s1) s2 H1 H2).
        + apply nullable_spec in H1. exact (m_cat _ _ [] _ H1 H2). }
    rewrite Hc. destruct (nullable a).
    + rewrite ralt_spec. split.
      * intros H. inversion H; subst; [left; by apply Hd|right; split; [done|by apply IHb]].
      * intros [H|[_ H]]; [apply m_alt_l; by apply Hd|apply m_alt_r; by apply IHb].
    + rewrite Hd. split; [by left|]. by intros [H|[[=] _]].
  - rewrite ralt_spec. split; intros H; inversion H; subst;
      first [apply m_alt_l; apply IHa; done|apply m_alt_r; apply IHb; done].
  - rewrite rcat_spec. split.
    + intros H. inversion H as [| |x y s1 s2 H1 H2| | | |]; subst.
      apply IHa in H1. exact (m_star_cons _ (c :: s1) s2 H1 H2).
    + intros (s1 & s2 & -> & H1 & H2)%star_cons. apply m_cat; [by apply IHa|done].
Qed.

Lemma rmatch_spec s : forall r, rmatch r s = true <-> matches r s.
Proof.
  induction s as [|c s IH]; intros r; cbn [rmatch]; [apply nullable_spec|].
  rewrite IH. apply deriv_spec.
Qed.
End RegexProofs.

(** ** What the tokenizer keeps *)
Module SplitProofs.

Definition chars (s : string) : list ascii := String.list_ascii_of_string s.

Lemma chars_app s t : chars (s ++ t)%string = chars s ++ chars t.
Proof.
  induction s as [|c s IH]; [done|].
  change (c :: chars (s ++ t)%string = c :: (chars s ++ chars t)). by rewrite IH.
Qed.

Lemma chars_nil s : chars s = [] -> s = "".
Proof. by destruct s. Qed.

(** The characters a state holds, finished tokens first. *)
Definition held (st : Split) : list ascii := ((exp_list st ≫= chars) ++ chars (tmp st))%list.

Lemma held_flush st : held (flush st) = held st /\ tmp (flush st) = "".
Proof.
  unfold held, flush. cbn. rewrite bind_app. cbn. by rewrite !app_nil_r.
Qed.

Lemma held_push st c : held (push_back st c) = (held st ++ [c])%list.
Proof. unfold held, push_back. cbn. by rewrite chars_app, app_assoc. Qed.

Definition no_empty (st : Split) : Prop := Forall (fun t => t <> "") (exp_list st).

Lemma flush_no_empty st : no_empty st -> tmp st <> "" -> no_empty (flush st).
Proof. intros H Ht. apply Forall_app. split; [done|]. by constructor. Qed.

Lemma push_nonempty st c : tmp (push_back st c) <> "".
Proof. cbn. by destruct (tmp st). Qed.

Section split.
Context (junk : ascii).

Lemma push_tmp_spec st st' : push_tmp junk st = Some st' ->
  held st' = held st /\ tmp st' = "" /\ (no_empty st -> no_empty st').
Proof.
  unfold push_tmp. destruct (bool_decide (tmp st = "")) eqn:E.
  - intros [= <-]. apply bool_decide_eq_true in E. done.
  - apply bool_decide_eq_false in E. destruct (is_one_of _ _); [discriminate|]. intros [= <-].
    destruct (held_flush st) as [H1 H2]. split; [done|]. split; [done|].
    intros Hn. by apply flush_no_empty.
Qed.

Lemma first_flush_spec st (b : bool) : junk ∉ ["!"; "<"; ">"]%char ->
  let st' := if b && is_one_of (back junk (tmp st)) ["!"; "<"; ">"]%char then flush st else st in
  no_empty st -> no_empty st'.
Proof.
  intros Hj st' Hn. unfold st'. destruct b; [|done]. cbn [andb].
  destruct (is_one_of _ _) eqn:E; [|done]. apply flush_no_empty; [done|]. intros Ht.
  apply bool_decide_eq_true in E. rewrite Ht in E. cbn in E. done.
Qed.

Lemma split_step_spec st c st' : split_step junk st c = Some st' ->
  held st' = (held st ++ filter (fun x => x <> " "%char) [c])%list /\
  (junk ∉ ["!"; "<"; ">"]%char -> no_empty st -> no_empty st').
Proof.
  unfold split_step.
  set (st0 := if negb (Ascii.eqb c "=") && _ then flush st else st).
  assert (H0 : held st0 = held st) by (unfold st0; case_match; [apply held_flush|done]).
  assert (N0 : junk ∉ ["!"; "<"; ">"]%char -> no_empty st -> no_empty st0)
    by (intros; by apply first_flush_spec).
  clearbody st0.
  assert (Hsp : forall st1, c <> " "%char -> held st1 = (held st ++ [c])%list ->
    (junk ∉ ["!"; "<"; ">"]%char -> no_empty st -> no_empty st1) -> Some st1 = Some st' ->
    held st' = (held st ++ filter (fun x => x <> " "%char) [c])%list /\
    (junk ∉ ["!"; "<"; ">"]%char -> no_empty st -> no_empty st')).
  { intros st1 Hc H1 H2 [= <-]. rewrite filter_cons_True by done. by rewrite H1. }
  assert (Hflush : forall st1, held st1 = held st -> (no_empty st0 -> no_empty st1) ->
    held (flush (push_back st1 c)) = (held st ++ [c])%list /\
    (junk ∉ ["!"; "<"; ">"]%char -> no_empty st -> no_empty (flush (push_back st1 c)))).
  { intros st1 H1 H2. destruct (held_flush (push_back st1 c)) as [-> _].
    rewrite held_push, H1. split; [done|]. intros. apply flush_no_empty; [by apply H2, N0|].
    apply push_nonempty. }
  assert (Hpush : forall st1, held st1 = held st -> (no_empty st0 -> no_empty st1) ->
    held (push_back st1 c) = (held st ++ [c])%list /\
    (junk ∉ ["!"; "<"; ">"]%char -> no_empty st -> no_empty (push_back st1 c))).
  { intros st1 H1 H2. rewrite held_push, H1. split; [done|]. intros. by apply H2, N0. }
  assert (Hpt : forall st1, push_tmp junk st0 = Some st1 ->
    held st1 = held st /\ (no_empty st0 -> no_empty st1)).
  { intros st1 (E1 & _ & E2)%push_tmp_spec. by rewrite E1, H0. }
  destruct (Ascii.eqb c " ") eqn:Ec.
  { apply Ascii.eqb_eq in Ec as ->. intros E. apply Hpt in E as [E1 E2].
    rewrite filter_cons_False by tauto. cbn. rewrite app_nil_r. split; [done|]. auto. }
  apply Ascii.eqb_neq in Ec.
  destruct (is_one_of c ["("; ")"; "{"; "}"; "["; "]"; ","]%char).
  { destruct (push_tmp junk st0) as [st1|]; [|discriminate]. cbn [mbind option_bind].
    destruct (Hpt st1 eq_refl) as [E1 E2]. destruct (Hflush st1 E1 E2). by apply Hsp. }
  destruct (is_one_of c ["!"; "<"; ">"]%char).
  { destruct (push_tmp junk st0) as [st1|]; [|discriminate]. cbn [mbind option_bind].
    destruct (Hpt st1 eq_refl) as [E1 E2]. destruct (Hpush st1 E1 E2). by apply Hsp. }
  destruct (Ascii.eqb c "=").
  { destruct (is_one_of _ _).
    - destruct (Hflush st0 H0 id). by apply Hsp.
    - destruct (push_tmp junk st0) as [st1|]; [|discriminate]. cbn [mbind option_bind].
      destruct (Hpt st1 eq_refl) as [E1 E2]. destruct (Hpush st1 E1 E2). by apply Hsp. }
  destruct (is_one_of c ["|"; "&"; "^"]%char).
  { destruct (Ascii.eqb _ c).
    - destruct (Hflush st0 H0 id). by apply Hsp.
    - destruct (push_tmp junk st0) as [st1|]; [|discriminate]. cbn [mbind option_bind].
      destruct (Hpt st1 eq_refl) as [E1 E2]. destruct (Hpush st1 E1 E2). by apply Hsp. }
  destruct (Hpush st0 H0 id). by apply Hsp.
Qed.

Lemma split_loop_spec s : forall st st', split_loop junk st s = Some st' ->
  (exp_list st' ≫= chars) = (held st ++ filter (fun x => x <> " "%char) (chars s))%list /\
  (junk ∉ ["!"; "<"; ">"]%char -> no_empty st -> no_empty st').
Proof.
  induction s as [|c s IH]; intros st st'; cbn [split_loop].
  - intros (E1 & E2 & E3)%push_tmp_spec. cbn. rewrite app_nil_r, <-E1. unfold held. rewrite E2.
    cbn. by rewrite app_nil_r.
  - destruct (split_step junk st c) as [st1|] eqn:E; [|discriminate]. cbn [mbind option_bind].
    intros [E1 E2]%IH. apply split_step_spec in E as [E3 E4]. rewrite E1, E3, <-app_assoc.
    split; [|auto]. change (chars (String c s)) with ([c] ++ chars s)%list. by rewrite filter_app.
Qed.

(** splitting an expression loses and invents nothing.  Unless the split is
    refused, the characters of the tokens are those of the expression without
    its spaces, in order, and no token is empty, whatever byte is read when the
    code looks at the last character of an empty string (for the last part: if
    it is none of [!], [<], [>]). *)
Theorem splitExpression_tokens (exp : string) :
  let tokens := splitExpression junk exp in
  tokens <> [] ->
  (tokens ≫= chars) = filter (fun x => x <> " "%char) (chars exp) /\
  (junk ∉ ["!"; "<"; ">"]%char -> Forall (fun t => t <> "") tokens).
Proof.
  unfold splitExpression. destruct (split_loop junk (mkSplit [] "") exp) as [st|] eqn:E; [|done].
  intros _. apply split_loop_spec in E as [E1 E2]. split; [exact E1|].
  intros Hj. apply E2; [done|constructor].
Qed.
End split.

Lemma splitExpression_tokens_witness :
  let tokens := ["srcip"; "=="; "10.0.0.1"; "&&"; "("; "dstport"; "=="; "80"; ")"] in
  splitExpression "000" "srcip==10.0.0.1 &&(dstport == 80)" = tokens /\
  (tokens ≫= chars) = filter (fun x => x <> " "%char) (chars "srcip==10.0.0.1 &&(dstport == 80)").
Proof.
  split; [vm_compute; reflexivity|].
  refine (proj1 (splitExpression_tokens "000" "srcip==10.0.0.1 &&(dstport == 80)" _)).
  vm_compute. discriminate.
Defined.
End SplitProofs.

(** Two inputs the grammar checks handle differently from what they mean to:
    a connective in front of a closing bracket is accepted, and a closing
    bracket without an opening one reads an empty stack. *)
Example grammar_accepts_dangling_connective :
  let l := splitExpression "000" "(srcport == 80 &&)" in
  grammarVerify l = Ok true /\ grammarVerifySimply l = true.
Proof. vm_compute. split; reflexivity. Qed.

Example grammar_unmatched_bracket_undefined :
  grammarVerify (splitExpression "000" "srcport == 80)") = Undef.
Proof. vm_compute. reflexivity. Qed.

(** ** The address format *)
Module AddressProofs.
Import RegexProofs SplitProofs.

Definition dec (l : list ascii) : Z := foldl (fun v c => v * 10 + (code c - 48)) 0 l.
Definition digits (l : list ascii) : Prop := Forall (fun c => is_digit c = true) l.

(** A decimal number of one to three digits up to 255. *)
Definition octet (l : list ascii) : Prop := (1 <= length l <= 3)%nat /\ digits l /\ dec l <= 255.
(** A prefix length up to 32 without a leading zero. *)
Definition mask (l : list ascii) : Prop :=
  digits l /\ dec l <= 32 /\ (length l = 1%nat \/ length l = 2%nat /\ 10 <= dec l).

Lemma code_inj c d : code c = code d -> c = d.
Proof.
  unfold code. intros H. rewrite <-(ascii_N_embedding c), <-(ascii_N_embedding d). f_equal. lia.
Qed.

Lemma m_rng a b s : matches (rng a b) s <-> exists c, s = [c] /\ code a <= code c <= code b.
Proof.
  unfold rng, between. split.
  - inversion 1 as [|p c Hp| | | | |]; subst. exists c. split; [done|zlia].
  - intros (c & -> & ?). constructor. rewrite andb_true_iff, !Z.leb_le. done.
Qed.
Lemma m_chr1 a s : matches (chr a) s <-> s = [a].
Proof.
  unfold chr. split.
  - inversion 1 as [|p c Hp| | | | |]; subst. by apply Ascii.eqb_eq in Hp as ->.
  - intros ->. constructor. apply Ascii.eqb_refl.
Qed.
Lemma m_rcat a b s : matches (RCat a b) s <-> exists u v, s = u ++ v /\ matches a u /\ matches b v.
Proof.
  split.
  - inversion 1; subst. eauto.
  - intros (u & v & -> & ? & ?). by apply m_cat.
Qed.
Lemma m_ralt a b s : matches (RAlt a b) s <-> matches a s \/ matches b s.
Proof. split; [inversion 1; auto|]. intros [?|?]; [by apply m_alt_l|by apply m_alt_r]. Qed.
Lemma m_reps s : matches REps s <-> s = [].
Proof. split; [by inversion 1|intros ->; constructor]. Qed.
Lemma m_opt a s : matches (opt a) s <-> s = [] \/ matches a s.
Proof. unfold opt. by rewrite m_ralt, m_reps. Qed.
Lemma m_rnone s : matches RNone s <-> False.
Proof. split; [apply matches_none|done]. Qed.

Ltac open_matches :=
  unfold digit, cats, alts in *; cbn [foldr] in *;
  repeat match goal with
  | H : exists _, _ |- _ => destruct H
  | H : _ /\ _ |- _ => destruct H
  | H : _ \/ _ |- _ => destruct H
  | H : False |- _ => destruct H
  | H : matches (RCat _ _) _ |- _ => apply m_rcat in H
  | H : matches (RAlt _ _) _ |- _ => apply m_ralt in H
  | H : matches (rng _ _) _ |- _ => apply m_rng in H
  | H : matches (chr _) _ |- _ => apply m_chr1 in H
  | H : matches (opt _) _ |- _ => apply m_opt in H
  | H : matches REps _ |- _ => apply m_reps in H
  | H : matches RNone _ |- _ => apply m_rnone in H
  end; subst.

Lemma is_digit_code c : is_digit c = true <-> 48 <= code c <= 57.
Proof.
  unfold is_digit, between. change (code "0") with 48. change (code "9") with 57.
  rewrite andb_true_iff, !Z.leb_le. done.
Qed.

(** The character codes the patterns mention. *)
Ltac codes :=
  change (code "0") with 48 in *; change (code "1") with 49 in *; change (code "2") with 50 in *;
  change (code "3") with 51 in *; change (code "4") with 52 in *; change (code "5") with 53 in *;
  change (code "8") with 56 in *; change (code "9") with 57 in *.

Ltac digits_goal :=
  unfold digits; rewrite ?Forall_cons; rewrite ?is_digit_code; codes;
  repeat (split || constructor); lia.

Lemma octet4_spec s : matches octet4 s <-> octet s.
Proof.
  unfold octet4, octet. split.
  - intros H. open_matches; cbn [app length]; codes;
      (split; [lia|split; [digits_goal|cbn; codes; lia]]).
  - intros (Hl & Hd & Hv). unfold digits in Hd. rewrite Forall_forall in Hd.
    assert (Hdig : forall c, c ∈ s -> matches digit [c]).
    { intros c Hc. apply m_rng. exists c. codes. by rewrite <-is_digit_code; auto. }
    assert (Hcode : forall c, c ∈ s -> 48 <= code c <= 57) by (intros; apply is_digit_code; auto).
    unfold alts, cats. cbn [foldr].
    destruct s as [|c1 [|c2 [|c3 [|]]]]; simpl in Hl; try lia.
    + do 2 apply m_alt_r. apply m_alt_l. apply m_rcat. exists [], [c1].
      split; [done|]. split; [apply m_opt; by left|]. apply m_rcat. exists [c1], [].
      split; [done|]. split; [apply Hdig; set_solver|]. apply m_rcat. exists [], [].
      split; [done|]. split; [apply m_opt; by left|constructor].
    + do 2 apply m_alt_r. apply m_alt_l. apply m_rcat. exists [], [c1; c2].
      split; [done|]. split; [apply m_opt; by left|]. apply m_rcat. exists [c1], [c2].
      split; [done|]. split; [apply Hdig; set_solver|]. apply m_rcat. exists [c2], [].
      split; [done|]. split; [apply m_opt; right; apply Hdig; set_solver|constructor].
    + pose proof (Hcode c1 ltac:(set_solver)). pose proof (Hcode c2 ltac:(set_solver)).
      pose proof (Hcode c3 ltac:(set_solver)). cbn in Hv.
      assert (H3 : forall a b c x y z, matches a [x] -> matches b [y] -> matches c [z] ->
        matches (RCat a (RCat b (RCat c REps))) [x; y; z]).
      { intros * Ha Hb Hc. apply (m_cat _ _ [_] [_; _]); [done|].
        apply (m_cat _ _ [_] [_]); [done|]. apply (m_cat _ _ [_] []); [done|constructor]. }
      destruct (decide (code c1 <= 49)); [|destruct (decide (code c2 <= 52))].
      * do 2 apply m_alt_r. apply m_alt_l. apply H3.
        -- apply m_opt. right. apply m_rng. exists c1. codes. split; [done|lia].
        -- apply Hdig. set_solver.
        -- apply m_opt. right. apply Hdig. set_solver.
      * assert (c1 = "2"%char) as -> by (apply code_inj; codes; lia).
        apply m_alt_r, m_alt_l, H3; [by apply m_chr1| |apply Hdig; set_solver].
        apply m_rng. exists c2. codes. split; [done|lia].
      * assert (c1 = "2"%char) as -> by (apply code_inj; codes; lia). codes.
        assert (c2 = "5"%char) as -> by (apply code_inj; codes; lia). codes.
        apply m_alt_l, H3; [by apply m_chr1..|]. apply m_rng. exists c3. codes. split; [done|lia].
Qed.

Lemma mask_spec s :
  matches (RAlt (cats [chr "3"; rng "0" "2"]) (cats [opt (rng "1" "2"); digit])) s <-> mask s.
Proof.
  unfold mask. split.
  - intros H. open_matches; cbn [app length]; codes;
      (split; [digits_goal|split; cbn; codes; lia]).
  - intros (Hd & Hv & Hl). unfold digits in Hd. rewrite Forall_forall in Hd.
    assert (Hcode : forall c, c ∈ s -> 48 <= code c <= 57) by (intros; apply is_digit_code; auto).
    unfold cats. cbn [foldr].
    assert (H2 : forall a b x y, matches a [x] -> matches b [y] ->
      matches (RCat a (RCat b REps)) [x; y]).
    { intros * Ha Hb. apply (m_cat _ _ [_] [_]); [done|]. apply (m_cat _ _ [_] []); [done|constructor]. }
    destruct s as [|c1 [|c2 [|]]]; simpl in Hl; try lia.
    + apply m_alt_r, m_rcat. exists [], [c1]. split; [done|]. split; [apply m_opt; by left|].
      apply (m_cat _ _ [_] []); [|constructor]. apply m_rng. exists c1. codes.
      split; [done|]. apply Hcode. set_solver.
    + pose proof (Hcode c1 ltac:(set_solver)). pose proof (Hcode c2 ltac:(set_solver)).
      cbn in Hv, Hl. destruct (decide (code c1 <= 50)).
      * apply m_alt_r, H2; [apply m_opt; right|]; apply m_rng; eexists; (split; [done|codes; lia]).
      * assert (c1 = "3"%char) as -> by (apply code_inj; codes; lia). codes.
        apply m_alt_l, H2; [by apply m_chr1|]. apply m_rng. exists c2. codes. split; [done|lia].
Qed.

(** the IPv4 literals of a query.  A token is classified as an address
    exactly when it is four decimal octets up to 255 of one to three digits
    with dots between them, followed by nothing or by a slash and a prefix
    length of 0 to 32 without a leading zero. *)
Theorem isValidIPv4_spec (s : string) :
  isValidIPv4 s = true <->
  exists a b c d rest, chars s = a ++ ["."%char] ++ b ++ ["."%char] ++ c ++ ["."%char] ++ d ++ rest /\
    octet a /\ octet b /\ octet c /\ octet d /\
    (rest = [] \/ exists m, rest = "/"%char :: m /\ mask m).
Proof.
  unfold isValidIPv4, regex_match. rewrite rmatch_spec. fold (chars s).
  unfold ipv4Regex, cats. cbn [foldr exactly]. split.
  - rewrite m_rcat. intros (u & v & E & Hu & Hv). rewrite m_rcat in Hv.
    destruct Hv as (d & rest' & -> & Hd & Hr). apply m_rcat in Hr as (rest & e & -> & Hr & He%m_reps).
    subst e. rewrite app_nil_r in E.
    apply m_rcat in Hu as (x1 & u1 & -> & Hx1 & Hu). apply m_rcat in Hu as (x2 & u2 & -> & Hx2 & Hu).
    apply m_rcat in Hu as (x3 & u3 & -> & Hx3 & Hu%m_reps). subst u3.
    apply m_rcat in Hx1 as (a & p1 & -> & Ha & ->%m_chr1).
    apply m_rcat in Hx2 as (b & p2 & -> & Hb & ->%m_chr1).
    apply m_rcat in Hx3 as (c & p3 & -> & Hc & ->%m_chr1).
    exists a, b, c, d, rest. split; [rewrite E; by rewrite <-!app_assoc|].
    rewrite <-!octet4_spec. split_and!; try done.
    apply m_opt in Hr as [->|Hr]; [by left|right].
    apply m_rcat in Hr as (p & m & -> & ->%m_chr1 & Hm). exists m. split; [done|]. by apply mask_spec.
  - intros (a & b & c & d & rest & E & Ha & Hb & Hc & Hd & Hr). rewrite <-octet4_spec in Ha, Hb, Hc, Hd.
    rewrite E. replace (a ++ ["."%char] ++ b ++ ["."%char] ++ c ++ ["."%char] ++ d ++ rest)
      with ((((a ++ ["."%char]) ++ (b ++ ["."%char]) ++ (c ++ ["."%char]) ++ [])) ++ d ++ rest ++ [])
      by (rewrite !app_nil_r, <-!app_assoc; done).
    assert (Hdot : forall x, matches octet4 x -> matches (RCat octet4 (chr ".")) (x ++ ["."%char]))
      by (intros; apply m_cat; [done|by apply m_chr1]).
    apply m_cat; [by do 3 (apply m_cat; [auto|]); constructor|].
    apply m_cat; [done|]. apply m_cat; [|constructor]. apply m_opt.
    destruct Hr as [->|(m & -> & Hm)]; [by left|right].
    apply (m_cat _ _ ["/"%char] m); [by apply m_chr1|by apply mask_spec].
Qed.
End AddressProofs.
