(* ===== verification/Querier.v ===== *)
(** * The querier (dpdk_component/querier.cpp)

    Answers a query expression from the disk: the sorted index of a block is
    binary-searched for the key, and the packets are read from the offsets
    found, each followed along its flow by the distance stored in its header.
    The state is the querier object with its two buffers, the metadata table,
    the bit matrix and the two disk agents; [output] is what [printPacket]
    prints.  [inet_aton] of the C library, [std::hash] and liburing are
    parameters. *)
From S2P Require Import Prelude Util BitMap PrefixBloom BlockBuffer Reader Disk QueryTree.
From Stdlib Require Import ZArith Lia Ascii String.
From stdpp Require Import strings sorting.
Local Open Scope string_scope.
Local Open Scope list_scope.
Local Open Scope Z_scope.

(** ** Searching a sorted index *)
Section search.
Context {K : Type} `{CppKey K} `{KeyBytes K}.

(** [*(KeyType* )(index + i * ele_len)] and the value behind it; the index
    starts at [base] of the buffer. *)
Definition read_key (buf : list Z) (base i : Z) : res K :=
  bytes ← zread buf (base + i * record_size (key_len (K := K))) (key_len (K := K));
  Ok (key_dec bytes).
Definition read_value (buf : list Z) (base i : Z) : res Z :=
  bytes ← zread buf (base + i * record_size (key_len (K := K)) + key_len (K := K)) 8;
  Ok (le_val bytes).

(** The [while (left < right)] loop; it halves the range, so a range of [n]
    elements needs at most [n] turns. *)
Fixpoint lower_bound (fuel : nat) (buf : list Z) (base : Z) (key : K) (left right : Z) : res Z :=
  if right <=? left then Ok left else
  match fuel with
  | O => Blocks
  | S fuel =>
      let mid := left + (right - left) / 2 in
      key_mid ← read_key buf base mid;
      if key_lt key_mid key then lower_bound fuel buf base key (mid + 1) right
      else lower_bound fuel buf base key left mid
  end.

(** The [for(;left<n;left++)] loop with its exit test. *)
Fixpoint scan (fuel : nat) (buf : list Z) (base : Z) (stop : K -> bool) (left n : Z)
  (ret : list Z) : res (list Z) :=
  if n <=? left then Ok ret else
  match fuel with
  | O => Blocks
  | S fuel =>
      key_now ← read_key buf base left;
      if stop key_now then Ok ret else
      value ← read_value buf base left;
      scan fuel buf base stop (left + 1) n (ret ++ [value])
  end.

Definition key_neq (a b : K) : bool := negb (key_eq a b).

Definition binarySearch (buf : list Z) (base index_len : Z) (key : K) (ret : list Z)
  : res (list Z) :=
  let n := index_len / record_size (key_len (K := K)) in
  left ← lower_bound (Z.to_nat n) buf base key 0 n;
  scan (Z.to_nat n) buf base (fun key_now => key_neq key_now key) left n ret.

Definition binarySearchRange (buf : list Z) (base index_len : Z) (startKey endKey : K)
  : res (list Z) :=
  let n := u32 index_len / record_size (key_len (K := K)) in
  left ← lower_bound (Z.to_nat n) buf base startKey 0 n;
  scan (Z.to_nat n) buf base (fun key_now => key_ge key_now endKey) left n [].
End search.

(** ** Combining answers *)

(** The iterator loops over two sorted lists: what is kept of [la]. *)
Fixpoint intersect_loop (fuel : nat) (la lb : list Z) : list Z :=
  match fuel, la, lb with
  | S fuel, a :: la', b :: lb' =>
      if a <? b then intersect_loop fuel la' lb
      else if b <? a then intersect_loop fuel la lb'
      else a :: intersect_loop fuel la' lb'
  | _, _, _ => []
  end.

Fixpoint join_loop (fuel : nat) (la lb : list Z) : list Z :=
  match fuel, la, lb with
  | S fuel, a :: la', b :: lb' =>
      if a <? b then a :: join_loop fuel la' lb
      else if b <? a then b :: join_loop fuel la lb'
      else a :: join_loop fuel la' lb'
  | _, la, lb => (la ++ lb)
  end.

(** [std::list::sort] on numbers. *)
Definition list_sort (l : list Z) : list Z := merge_sort Z.le l.

Definition intersect (la lb : list Z) : list Z :=
  let la := list_sort la in let lb := list_sort lb in
  intersect_loop (length la + length lb) la lb.
Definition join (la lb : list Z) : list Z :=
  let la := list_sort la in let lb := list_sort lb in
  join_loop (length la + length lb) la lb.

Record Answer := mkAnswer { block_id : Z; pointers : list Z }.

(** The loop over two answer lists; different block ids end it. *)
Fixpoint combine (f : list Z -> list Z -> list Z) (la lb : list Answer) : list Answer :=
  match la, lb with
  | a :: la', b :: lb' =>
      if negb (block_id a =? block_id b) then la
      else mkAnswer (block_id a) (f (pointers a) (pointers b)) :: combine f la' lb'
  | la, _ => la
  end.
Definition combine_answers (f : list Z -> list Z -> list Z) (la lb : list Answer) : list Answer :=
  match la, lb with [], lb => lb | la, [] => la | la, lb => combine f la lb end.
Definition intersect_answers := combine_answers intersect.
Definition join_answers := combine_answers join.

(** ** The querier *)
Record AtomKey := mkAtom { cachePos : Z; key : list Z }.

(** The addresses and ports [printPacket] prints. *)
Record Printed := mkPrinted { p_srcip : Z; p_srcport : Z; p_dstip : Z; p_dstport : Z }.

(** [printPacket] on the memory its pointer points to. *)
Definition printPacket (mem : list Z) : res (option Printed) :=
  b0 ← zget mem 0;
  if Z.land (Z.shiftr b0 4) 0x0F =? 4 then
    let hl := Z.land b0 0x0F in
    srcip ← load 4 mem 12;
    dstip ← load 4 mem 16;
    sport ← load 2 mem (hl * 4);
    dport ← load 2 mem (hl * 4 + 2);
    Ok (Some (mkPrinted (htonl srcip) (htons sport) (htonl dstip) (htons dport)))
  else Ok None.

Section querier.
Context {R : Type} `{IoUring R}.
Context (hash_str : list Z -> Z) (hash_u64 : Z -> Z).
(** [inet_aton]: the address in network order as stored in memory, or a
    failure that leaves the variable uninitialised. *)
Context (inet_aton : string -> option Z).
(** The bytes of fresh heap memory. *)
Context (uninit : Z -> list Z).

Record Querier := mkQuerier {
  expression : string;
  outputFilename : string;
  startTime : Z;
  endTime : Z;
  packet_count : Z;
  readBlockSize : Z;
  cellSize : Z;
  indexBufferSize : Z;
  dataBufferSize : Z;
  tree : QueryTree;
  indexBuffer : list Z;
  dataBuffer : list Z;
  diskBuffer : DiskTable.DiskBuffer;
  bitmap : BitMap;
  indexAgent : (Agent.DiskAgent R);
  dataAgent : (Agent.DiskAgent R);
  output : list Printed }.

Definition with_index (q : Querier) (buf : list Z) (a : (Agent.DiskAgent R)) : Querier :=
  mkQuerier (expression q) (outputFilename q) (startTime q) (endTime q) (packet_count q)
    (readBlockSize q) (cellSize q) (indexBufferSize q) (dataBufferSize q) (tree q)
    buf (dataBuffer q) (diskBuffer q) (bitmap q) a (dataAgent q) (output q).
Definition with_data (q : Querier) (buf : list Z) (a : (Agent.DiskAgent R)) : Querier :=
  mkQuerier (expression q) (outputFilename q) (startTime q) (endTime q) (packet_count q)
    (readBlockSize q) (cellSize q) (indexBufferSize q) (dataBufferSize q) (tree q)
    (indexBuffer q) buf (diskBuffer q) (bitmap q) (indexAgent q) a (output q).
Definition with_output (q : Querier) (o : list Printed) : Querier :=
  mkQuerier (expression q) (outputFilename q) (startTime q) (endTime q) (packet_count q)
    (readBlockSize q) (cellSize q) (indexBufferSize q) (dataBufferSize q) (tree q)
    (indexBuffer q) (dataBuffer q) (diskBuffer q) (bitmap q) (indexAgent q) (dataAgent q) o.
Definition with_input (q : Querier) (e f : string) (st et : Z) : Querier :=
  mkQuerier e f st et (packet_count q)
    (readBlockSize q) (cellSize q) (indexBufferSize q) (dataBufferSize q) (tree q)
    (indexBuffer q) (dataBuffer q) (diskBuffer q) (bitmap q) (indexAgent q) (dataAgent q) (output q).
Definition with_tree (q : Querier) (t : QueryTree) (count : Z) : Querier :=
  mkQuerier (expression q) (outputFilename q) (startTime q) (endTime q) count
    (readBlockSize q) (cellSize q) (indexBufferSize q) (dataBufferSize q) t
    (indexBuffer q) (dataBuffer q) (diskBuffer q) (bitmap q) (indexAgent q) (dataAgent q) (output q).

(** The constructor; the process exits when an allocation fails.  The member
    variables it does not set are arbitrary. *)
Definition new_Querier (alloc_ok : bool) (count st et : Z) (d : DiskTable.DiskBuffer) (b : BitMap)
  (ia da : (Agent.DiskAgent R)) (ibs dbs rbs cs : Z) : res Querier :=
  if negb alloc_ok then Throws else
  let isz := u64 (ibs * 2) in
  let dsz := u64 (dbs * 3) in
  Ok (mkQuerier "" "" st et count rbs cs isz dsz new_QueryTree
        (replicate (Z.to_nat isz) 0) (replicate (Z.to_nat dsz) 0) d b ia da []).

(** ** Reading packets *)

(** The variables of [readPackets]. *)
Record ReadState := mkRead {
  rs_q : Querier;
  offset_list : list Z;
  now_id : Z;
  now_buffer_id : Z;
  next_buffer_id : Z;
  last_cell_id : Z }.

(** [dataAgent->read(this->dataBuffer + slot * this->cellSize, id)] *)
Definition read_cell (q : Querier) (slot id : Z) : res (bool * Querier) :=
  '(ok, buf, a) ← Agent.read (dataAgent q) (dataBuffer q) (u64 (slot * cellSize q)) id;
  Ok (ok, with_data q buf a).

(** The swap that keeps the smaller of the two offsets in front. *)
Definition swap_front (l : list Z) (i : Z) : res (Z * list Z) :=
  offset ← zget l i;
  if u64 (i + 1) <? zlen l then
    o1 ← zget l (i + 1);
    if o1 <? offset then
      l ← zset l i o1; l ← zset l (i + 1) offset; Ok (o1, l)
    else Ok (offset, l)
  else Ok (offset, l).

Definition with_q (s : ReadState) (q : Querier) : ReadState :=
  mkRead q (offset_list s) (now_id s) (now_buffer_id s) (next_buffer_id s) (last_cell_id s).

(** A new cell is read into the next slot of the data buffer; [false] is the
    return after a failed read. *)
Definition load_cell (s : ReadState) (cell_id : Z) : res (bool * ReadState) :=
  if last_cell_id s =? cell_id then Ok (true, s) else
  let buffer_len := dataBufferSize (rs_q s) / cellSize (rs_q s) in
  '(ok, q) ← read_cell (rs_q s) (next_buffer_id s) cell_id;
  if negb ok then Ok (false, with_q s q) else
  let next := u64 (next_buffer_id s + 1) in
  let next := if buffer_len <=? next then 0 else next in
  Ok (true, mkRead q (offset_list s) (now_id s) (next_buffer_id s) next cell_id).

(** The packet at [cell_pos] of the current slot: the memory its pointer points
    to and the distance to the next packet of its flow. *)
Definition fetch_packet (s : ReadState) (cell_pos : Z) : res (option (list Z * Z) * Querier) :=
  let q := rs_q s in
  let cs := cellSize q in
  let cur := u64 (now_buffer_id s * cs) in
  let nxt := u64 (next_buffer_id s * cs) in
  if cs <? u64 (cell_pos + 16 + 8) then
    tail ← zread (dataBuffer q) (cur + (cs - 8)) 8;
    let tmp_len := u64 (cs - cell_pos - 8) in
    '(ok, q) ← read_cell q (next_buffer_id s) (le_val tail);
    if negb ok then Ok (None, q) else
    h1 ← zread (dataBuffer q) (cur + cell_pos) tmp_len;
    if 16 <? tmp_len then Undef else
    h2 ← zread (dataBuffer q) nxt (16 - tmp_len);
    let header := (h1 ++ h2) in
    Ok (Some (drop (Z.to_nat (nxt + 16 - tmp_len)) (dataBuffer q), le_val (drop 12 header)), q)
  else
    header ← zread (dataBuffer q) (cur + cell_pos) 16;
    let packet_len := le_val (take 4 (drop 8 header)) in
    let next := le_val (drop 12 header) in
    if cs <? u64 (cell_pos + 16 + 8 + packet_len) then
      tail ← zread (dataBuffer q) (cur + (cs - 8)) 8;
      let tmp_len := u64 (cs - cell_pos - 8 - 16) in
      '(ok, q) ← read_cell q (next_buffer_id s) (le_val tail);
      if negb ok then Ok (None, q) else
      packet ← memcpy (uninit packet_len) 0 (dataBuffer q) (cur + cell_pos + 16) tmp_len;
      packet ← memcpy packet 0 (dataBuffer q) nxt (u64 (packet_len - tmp_len));
      Ok (Some (packet, next), q)
    else Ok (Some (drop (Z.to_nat (cur + cell_pos + 16)) (dataBuffer q), next), q).

(** One turn of the loop; [false] leaves the function. *)
Definition read_turn (s : ReadState) : res (bool * ReadState) :=
  let cs := cellSize (rs_q s) in
  if cs =? 0 then Undef else
  '(offset, l) ← swap_front (offset_list s) (now_id s);
  let s := mkRead (rs_q s) l (now_id s) (now_buffer_id s) (next_buffer_id s) (last_cell_id s) in
  '(ok, s) ← load_cell s (offset / cs);
  if negb ok then Ok (false, s) else
  '(p, q) ← fetch_packet s (offset mod cs);
  let s := with_q s q in
  match p with
  | None => Ok (false, s)
  | Some (packet, next) =>
      printed ← printPacket packet;
      let out := match printed with Some p => [p] | None => [] end in
      let s := with_q s (with_output q (output q ++ out)) in
      if (next =? 0) || (next =? MAX32) then
        Ok (true, mkRead (rs_q s) (offset_list s) (u64 (now_id s + 1)) (now_buffer_id s)
                    (next_buffer_id s) (last_cell_id s))
      else
        l ← zset (offset_list s) (now_id s) (u64 (offset + next));
        Ok (true, mkRead (rs_q s) l (now_id s) (now_buffer_id s) (next_buffer_id s) (last_cell_id s))
  end.

(** [while (now_id < total_len)], in at most [fuel] turns. *)
Fixpoint read_loop (fuel : nat) (s : ReadState) : res Querier :=
  if zlen (offset_list s) <=? now_id s then Ok (rs_q s) else
  match fuel with
  | O => Blocks
  | S fuel => '(ok, s) ← read_turn s; if negb ok then Ok (rs_q s) else read_loop fuel s
  end.

Definition readPackets (fuel : nat) (q : Querier) (offsets : list Z) : res Querier :=
  if cellSize q =? 0 then Undef else
  read_loop fuel (mkRead q offsets 0 0 0 MAX64).

(** ** From a key to packets *)
Definition index_type (code : Z) : IndexType :=
  if code =? 0 then SRCIP else if code =? 1 then DSTIP else if code =? 2 then SRCPORT
  else if code =? 3 then DSTPORT else if code =? 4 then SRCIPv6 else if code =? 5 then DSTIPv6
  else TOTAL_INDEX.

(** [getIndexRange]: only block 0 is considered. *)
Definition getIndexRange (q : Querier) (k : AtomKey) : res (list Z) :=
  ok ← DiskTable.checkKey hash_str hash_u64 (bitmap q) (diskBuffer q) 0 (key k) (index_type (cachePos k));
  if negb ok then Ok [] else
  m ← DiskTable.getDiskMeta (diskBuffer q) 0;
  match m with
  | None => Undef
  | Some m =>
      lo ← zget (DiskTable.disk_index_meta m) (cachePos k * 2);
      hi ← zget (DiskTable.disk_index_meta m) (cachePos k * 2 + 1);
      Ok [lo; hi]
  end.

(** The dispatch on the index type; the IPv6 indexes are searched with the
    2-byte key type. *)
Definition search_index (q : Querier) (k : AtomKey) (lo hi : Z) (offsets : list Z) : res (list Z) :=
  let base := lo mod readBlockSize q in
  let len := u64 (hi - lo) in
  match index_type (cachePos k) with
  | SRCIP | DSTIP =>
      kb ← zread (key k) 0 4;
      binarySearch (H := Z_key) (H0 := key4) (indexBuffer q) base len (le_val kb) offsets
  | SRCPORT | DSTPORT | SRCIPv6 | DSTIPv6 =>
      kb ← zread (key k) 0 2;
      binarySearch (H := Z_key) (H0 := key2) (indexBuffer q) base len (le_val kb) offsets
  | TOTAL_INDEX => Ok offsets
  end.

(** The loop over the ranges, two entries at a time; [last_id], [last_end] are
    the block read last and its place in the index buffer. *)
Fixpoint offset_loop (q : Querier) (k : AtomKey) (index_list : list Z) (last_id last_end : Z)
  (offsets : list Z) : res (list Z * Querier) :=
  match index_list with
  | [] => Ok (offsets, q)
  | [_] => Undef
  | lo :: hi :: rest =>
      let rbs := readBlockSize q in
      if rbs =? 0 then Undef else
      let first := lo / rbs in
      let id := hi / rbs in
      let fin := u64 (id - first) in
      if last_id =? first then
        buf ← memcpy (indexBuffer q) 0 (indexBuffer q) (u64 (rbs * last_end)) rbs;
        let q := with_index q buf (indexAgent q) in
        if fin =? 0 then offset_loop q k rest id fin offsets else
        '(ok, buf, a) ← Agent.read_range (indexAgent q) (indexBuffer q) rbs (u64 (first + 1)) id;
        let q := with_index q buf a in
        if negb ok then Ok (offsets, q) else
        offsets ← search_index q k lo hi offsets;
        offset_loop q k rest id fin offsets
      else
        '(ok, buf, a) ← Agent.read_range (indexAgent q) (indexBuffer q) 0 first id;
        let q := with_index q buf a in
        if negb ok then Ok (offsets, q) else
        offsets ← search_index q k lo hi offsets;
        offset_loop q k rest id fin offsets
  end.

Definition getOffsetList (q : Querier) (k : AtomKey) (index_list : list Z) : res (list Z * Querier) :=
  offset_loop q k index_list MAX64 MAX64 [].

(** The list it returns is the one it was created with: empty. *)
Definition getPointerByFlowMetaIndex (fuel : nat) (q : Querier) (k : AtomKey)
  : res (list Answer * Querier) :=
  index_list ← getIndexRange q k;
  '(tmp, q) ← getOffsetList q k index_list;
  q ← readPackets fuel q (list_sort tmp);
  Ok ([], q).

Definition getPointerByFlowMetaRange (startKey endKey : AtomKey) : list Answer := [].

(** ** Evaluating an expression *)

(** The variables of [searchExpression]. *)
Record SearchState := mkSearch {
  ss_q : Querier;
  before_lists : list (list Answer);
  ops : list string;
  left_list : list Answer;
  ss_key : AtomKey;
  wait_for_value : Z;
  op_now : string }.

Definition apply_op (op : string) (l r : list Answer) : list Answer :=
  if bool_decide (op = "||") then join_answers l r else intersect_answers l r.

Definition ntohl (z : Z) : Z := le_val (rev (le_bytes 4 z)).
Definition address (s : string) : res Z :=
  match inet_aton s with Some a => Ok (ntohl a) | None => Undef end.

Section eval.
(** The atom query: [getPointerByFlowMetaIndex]. *)
Context (query : Querier -> AtomKey -> res (list Answer * Querier)).

(** The right list of a value token, with the key it leaves behind. *)
Definition eval_value (s : SearchState) (tok : string) : res (list Answer * AtomKey * Querier) :=
  let pos := cachePos (ss_key s) in
  if wait_for_value s =? 2 then
    port ← stoul tok;
    let k := mkAtom pos (le_bytes 2 (u16 port)) in
    '(r, q) ← query (ss_q s) k; Ok (r, k, q)
  else
    let split_pos := splitIP tok in
    if split_pos =? ssize tok then
      ipv4 ← address tok;
      let k := mkAtom pos (le_bytes 4 ipv4) in
      '(r, q) ← query (ss_q s) k; Ok (r, k, q)
    else
      ipv4 ← address (substr tok 0 split_pos);
      n ← stoul (substr tok (split_pos + 1) (ssize tok - split_pos - 1));
      maskBit ← shl32 0xFFFFFFFF (u32 (32 - u32 n));
      let s_key := Z.land ipv4 maskBit in
      let e_key := u32 (s_key + (0xFFFFFFFF - maskBit)) in
      Ok (getPointerByFlowMetaRange (mkAtom pos (le_bytes 4 s_key)) (mkAtom pos (le_bytes 4 e_key)),
          ss_key s, ss_q s).

(** One turn of the loop over the tokens; [top] of an empty stack is undefined. *)
Definition search_step (s : SearchState) (tok : string) : res SearchState :=
  if bool_decide (tok = "(") then
    Ok (mkSearch (ss_q s) (left_list s :: before_lists s) (op_now s :: ops s) [] (ss_key s)
          (wait_for_value s) "||")
  else if bool_decide (tok ∈ ["srcip"; "dstip"]) then
    Ok (mkSearch (ss_q s) (before_lists s) (ops s) (left_list s)
          (mkAtom (index_type_code (if bool_decide (tok = "srcip") then SRCIP else DSTIP)) (key (ss_key s)))
          1 (op_now s))
  else if bool_decide (tok ∈ ["srcport"; "dstport"]) then
    Ok (mkSearch (ss_q s) (before_lists s) (ops s) (left_list s)
          (mkAtom (index_type_code (if bool_decide (tok = "srcport") then SRCPORT else DSTPORT)) (key (ss_key s)))
          2 (op_now s))
  else if bool_decide (tok = "==") then Ok s
  else if bool_decide (tok ∈ ["&&"; "||"]) then
    Ok (mkSearch (ss_q s) (before_lists s) (ops s) (left_list s) (ss_key s) (wait_for_value s) tok)
  else if bool_decide (tok = ")") then
    match ops s, before_lists s with
    | op :: ops', before :: lists' =>
        Ok (mkSearch (ss_q s) lists' ops' (apply_op op before (left_list s)) (ss_key s)
              (wait_for_value s) op)
    | _, _ => Undef
    end
  else if negb (wait_for_value s =? 0) then
    '(r, k, q) ← eval_value s tok;
    Ok (mkSearch q (before_lists s) (ops s) (apply_op (op_now s) (left_list s) r) k
          (wait_for_value s) (op_now s))
  else Ok s.

Fixpoint search_loop (s : SearchState) (exp_list : list string) : res (list Answer * Querier) :=
  match exp_list with
  | [] => Ok (left_list s, ss_q s)
  | tok :: exp_list => s ← search_step s tok; search_loop s exp_list
  end.

(** [cache0] is the uninitialised [cachePos] of the local key. *)
Definition searchExpression_with (cache0 : Z) (q : Querier) (exp_list : list string)
  : res (list Answer * Querier) :=
  search_loop (mkSearch q [] [] [] (mkAtom cache0 []) 0 "||") exp_list.
End eval.

Definition searchExpression (fuel : nat) (cache0 : Z) := 
  searchExpression_with (getPointerByFlowMetaIndex fuel) cache0.

(** ** The command loop *)
Definition decomposeExpression (junk : ascii) (q : Querier) : res (list string * Querier) :=
  '(ok, t) ← inputExpression junk (tree q) (expression q);
  let q := with_tree q t (packet_count q) in
  if negb ok then Ok ([], q) else Ok (getExpList t, q).

Definition input (q : Querier) (e f st et : string) : res Querier :=
  s ← (if 0 <? ssize st then stollTime st else Ok 0);
  t ← (if 0 <? ssize et then stollTime et else Ok MAX64);
  Ok (with_input q e f s t).

Definition runUnit (junk : ascii) (fuel : nat) (cache0 : Z) (q : Querier) : res (bool * Querier) :=
  '(exp_list, q) ← decomposeExpression junk (with_tree q (tree q) 0);
  if bool_decide (exp_list = []) then Ok (false, q) else
  '(_, q) ← searchExpression fuel cache0 q exp_list;
  Ok (true, q).

(** [run]: a line per turn until "q"; the file and time arguments stay empty.
    Waiting for a line that does not come is [Blocks]. *)
Fixpoint run (junk : ascii) (fuel : nat) (cache0 : Z) (q : Querier) (lines : list string) : res Querier :=
  match lines with
  | [] => Blocks
  | e :: lines =>
      if bool_decide (e = "q") then Ok q else
      q ← input q e "" "" "";
      '(_, q) ← runUnit junk fuel cache0 q;
      run junk fuel cache0 q lines
  end.
End querier.
Arguments Querier : clear implicits.
Arguments ReadState : clear implicits.
Arguments SearchState : clear implicits.

(** ** The binary search finds exactly the matching records *)
Module SearchProofs.

(** The longest prefix whose elements pass a test. *)
Fixpoint prefix_while {A} (p : A -> bool) (l : list A) : list A :=
  match l with [] => [] | x :: l => if p x then x :: prefix_while p l else [] end.

Lemma prefix_while_ext {A} (p q : A -> bool) (l : list A) :
  (forall x, x ∈ l -> p x = q x) -> prefix_while p l = prefix_while q l.
Proof.
  induction l as [|x l IH]; [done|]. intros Hx. cbn [prefix_while].
  rewrite (Hx x) by left. rewrite IH; [done|]. intros y Hy. apply Hx. by right.
Qed.

(** A filter whose matches form one block of the list. *)
Lemma filter_block {A} (p : A -> bool) (l : list A) (m : nat) :
  (forall j x, (j < m)%nat -> l !! j = Some x -> p x = false) ->
  (forall i j x y, (m <= i < j)%nat -> l !! i = Some x -> l !! j = Some y -> p x = false -> p y = false) ->
  prefix_while p (drop m l) = filter (fun x => p x = true) l.
Proof.
  intros H1 H2. rewrite <-(take_drop m l) at 2. rewrite filter_app.
  replace (filter _ (take m l)) with (@nil A); [cbn [app]|].
  - assert (H3 : forall i j x y, (i < j)%nat -> drop m l !! i = Some x -> drop m l !! j = Some y ->
                   p x = false -> p y = false).
    { intros i j x y Hij Hx Hy. rewrite lookup_drop in Hx, Hy. eapply H2; [|exact Hx|exact Hy]. lia. }
    clear H1 H2. induction (drop m l) as [|x k IH]; [done|]. cbn [prefix_while].
    destruct (p x) eqn:E.
    + rewrite filter_cons_True by done. f_equal. apply IH. intros i j y z Hij Hy Hz.
      apply (H3 (S i) (S j)); [lia|done|done].
    + rewrite filter_cons_False by congruence. symmetry. apply filter_none.
      intros y Hy. apply list_elem_of_lookup in Hy as [j Hj].
      rewrite (H3 O (S j) x y); [done|lia|done|done|done].
  - symmetry. apply filter_none. intros x Hx.
    apply list_elem_of_lookup in Hx as [j [Hj1 Hj2]%lookup_take_Some]. rewrite (H1 j); done.
Qed.
Lemma records_dec_lookup {K} `{KeyBytesLaws K} n l (i : nat) :
  (i < n)%nat -> Z.of_nat n * record_size (key_len (K := K)) <= zlen l ->
  records_dec (K := K) n l !! i =
    Some (record_dec (zslice (Z.of_nat i * record_size (key_len (K := K)))
                        (record_size (key_len (K := K))) l)).
Proof.
  pose proof (key_len_nonneg (K := K)) as Hk. set (rs := record_size (key_len (K := K))).
  assert (Hrs : 8 <= rs) by (unfold rs, record_size; lia).
  revert l i. induction n as [|n IH]; intros l [|i] Hi Hl; try lia; cbn [records_dec]; fold rs.
  - reflexivity.
  - cbn [lookup list_lookup]. rewrite IH by (unfold zlen in *; rewrite ?length_drop; lia).
    fold rs. f_equal. f_equal. unfold zslice. rewrite drop_drop. f_equal. f_equal. lia.
Qed.

Section search.
Context {K : Type} `{CppKeyLaws K} `{KeyBytesLaws K}.
Context (buf : list Z) (base n : Z).
Let kl := key_len (K := K).
Let rs := record_size kl.
Definition recs : list (K * Z) := records_dec (Z.to_nat n) (zslice base (n * rs) buf).
Context (Hbase : 0 <= base) (Hn : 0 <= n) (Hfit : base + n * rs <= zlen buf).
Context (Hsorted : sorted_keys recs).

Lemma rs_pos : 8 <= rs.
Proof. unfold rs, record_size, kl. pose proof (key_len_nonneg (K := K)). lia. Qed.

Lemma length_recs : Z.of_nat (length recs) = n.
Proof. unfold recs. rewrite length_records_dec. lia. Qed.

Lemma read_record i :
  0 <= i < n -> exists r, recs !! Z.to_nat i = Some r /\
    read_key (K := K) buf base i = Ok r.1 /\ read_value (K := K) buf base i = Ok r.2.
Proof.
  intros Hi. pose proof rs_pos. pose proof (key_len_nonneg (K := K)) as Hk.
  assert (Hz : zlen (zslice base (n * rs) buf) = n * rs) by (apply zlen_zslice; nia).
  unfold recs. rewrite records_dec_lookup by (fold kl rs; rewrite ?Hz; lia). fold kl rs.
  rewrite Z2Nat.id by lia. eexists. split; [done|].
  unfold read_key, read_value. fold kl rs.
  assert (i * rs + rs <= n * rs) by nia. assert (0 <= i * rs) by nia.
  assert (kl <= rs) by (unfold rs, record_size; lia). assert (H8 : rs - kl = 8) by (unfold rs, record_size; lia).
  fold kl in Hk. rewrite !zread_Ok by lia. cbn [mbind res_bind].
  rewrite zslice_zslice by lia. unfold record_dec. cbn [fst snd]. fold kl.
  rewrite take_zslice, drop_zslice by lia. split; [done|]. by rewrite H8.
Qed.

Definition below (key : K) (j : Z) : Prop :=
  forall r, recs !! Z.to_nat j = Some r -> key_lt r.1 key = true.
Definition above (key : K) (j : Z) : Prop :=
  forall r, recs !! Z.to_nat j = Some r -> key_lt r.1 key = false.

Lemma lower_bound_spec key fuel left right :
  0 <= left <= right -> right <= n -> right - left <= Z.of_nat fuel ->
  (forall j, 0 <= j < left -> below key j) -> (forall j, right <= j < n -> above key j) ->
  exists p, lower_bound fuel buf base key left right = Ok p /\ 0 <= p <= n /\
    (forall j, 0 <= j < p -> below key j) /\ (forall j, p <= j < n -> above key j).
Proof.
  revert left right. induction fuel as [|fuel IH]; intros left right Hlr Hrn Hf Hb Ha;
    cbn [lower_bound]; (destruct (right <=? left) eqn:E; zbool;
      [exists left; split; [done|]; split; [lia|]; split; [done|intros; apply Ha; lia]|]); [lia|].
  set (mid := left + (right - left) / 2).
  assert (Hm : left <= mid < right).
  { unfold mid. pose proof (Z.div_pos (right - left) 2 ltac:(lia) ltac:(lia)).
    pose proof (Z.div_lt (right - left) 2 ltac:(lia) ltac:(lia)). lia. }
  destruct (read_record mid) as (r & Hr & -> & _); [lia|]. cbn [mbind res_bind].
  destruct (key_lt r.1 key) eqn:Ek; apply IH; try lia; try done.
  - intros j Hj r' Hr'. destruct (decide (j = mid)) as [->|].
    { rewrite Hr in Hr'. by injection Hr' as <-. }
    assert (Hs := Hsorted (Z.to_nat j) (Z.to_nat mid) r' r ltac:(lia) Hr' Hr).
    destruct (key_trichotomy r'.1 r.1) as [(Hlt & _)|[(_ & _ & ->)|(_ & Hc & _)]]; [|done|congruence].
    exact (key_lt_trans _ _ _ Hlt Ek).
  - intros j Hj r' Hr'. destruct (decide (j = mid)) as [->|].
    { rewrite Hr in Hr'. by injection Hr' as <-. }
    assert (Hs := Hsorted (Z.to_nat mid) (Z.to_nat j) r r' ltac:(lia) Hr Hr').
    apply not_true_is_false. intros Hc.
    destruct (key_trichotomy r'.1 r.1) as [(Hlt & _)|[(_ & _ & He)|(_ & Hlt & _)]]; [congruence| |].
    + congruence.
    + pose proof (key_lt_trans _ _ _ Hlt Hc). congruence.
Qed.

Lemma scan_spec stop fuel left ret :
  0 <= left -> n - left <= Z.of_nat fuel ->
  scan fuel buf base stop left n ret =
    Ok (ret ++ (prefix_while (fun r => negb (stop r.1)) (drop (Z.to_nat left) recs)).*2).
Proof.
  pose proof length_recs as HL.
  revert left ret. induction fuel as [|fuel IH]; intros left ret Hl Hf; cbn [scan];
    (destruct (n <=? left) eqn:E; zbool; [rewrite drop_ge by lia; simpl; by rewrite app_nil_r|]); [lia|].
  destruct (read_record left) as (r & Hr & -> & ->); [lia|]. cbn [mbind res_bind].
  rewrite (drop_S _ r) by done. cbn [prefix_while].
  destruct (stop r.1); cbn [negb]; [simpl; by rewrite app_nil_r|].
  rewrite IH by lia. replace (Z.to_nat (left + 1)) with (S (Z.to_nat left)) by lia.
  cbn [fmap list_fmap]. by rewrite <-app_assoc.
Qed.


(** What the scan from the lower bound of [lo] returns. *)
Lemma scan_filter (lo : K) (stop : K -> bool) p fuel ret :
  0 <= p <= n -> n <= Z.of_nat fuel ->
  (forall j, 0 <= j < p -> below lo j) -> (forall j, p <= j < n -> above lo j) ->
  (forall a b, key_lt a lo = false -> key_lt b a = false -> stop a = true -> stop b = true) ->
  scan fuel buf base stop p n ret =
    Ok (ret ++ (filter (fun r => negb (key_lt r.1 lo) && negb (stop r.1) = true) recs).*2).
Proof.
  intros Hp Hf Hbl Hab Hs. rewrite scan_spec by lia. do 2 f_equal. f_equal.
  pose proof length_recs as HL.
  assert (Habove : forall i x, (Z.to_nat p <= i)%nat -> recs !! i = Some x -> key_lt x.1 lo = false).
  { intros i x Hi Hx. apply lookup_lt_Some in Hx as Hlt. apply (Hab (Z.of_nat i)); [lia|].
    by rewrite Nat2Z.id. }
  rewrite <-(filter_block _ _ (Z.to_nat p)).
  - apply prefix_while_ext. intros x Hx. apply list_elem_of_lookup in Hx as [i Hi].
    rewrite lookup_drop in Hi.
    assert (key_lt x.1 lo = false) as -> by (eapply Habove; [|exact Hi]; lia). done.
  - intros j x Hj Hx. rewrite (Hbl (Z.of_nat j)); [done|lia|]. by rewrite Nat2Z.id.
  - intros i j x y Hij Hx Hy. rewrite (Habove i x), (Habove j y) by (done || lia). cbn [negb andb].
    rewrite !negb_false_iff. apply Hs; [apply (Habove i); [lia|done]|].
    eapply Hsorted; [|exact Hx|exact Hy]. lia.
Qed.

Lemma search_bound key :
  exists p, lower_bound (Z.to_nat n) buf base key 0 n = Ok p /\ 0 <= p <= n /\
    (forall j, 0 <= j < p -> below key j) /\ (forall j, p <= j < n -> above key j).
Proof. apply lower_bound_spec; lia. Qed.
End search.

Lemma binarySearch_spec {K} `{CppKeyLaws K} `{KeyBytesLaws K} buf base len (key : K) ret :
  let rs := record_size (key_len (K := K)) in
  let records := recs (K := K) buf base (len / rs) in
  0 <= base -> 0 <= len -> base + len <= zlen buf -> sorted_keys records ->
  binarySearch buf base len key ret =
    Ok (ret ++ (filter (fun r => key_eq r.1 key = true) records).*2) /\
  (len < 2 ^ 32 -> forall lo hi, binarySearchRange buf base len lo hi =
    Ok (filter (fun r => negb (key_lt r.1 lo) && key_lt r.1 hi = true) records).*2).
Proof.
  intros rs records Hb Hl Hf Hs. unfold records.
  assert (Hrs : 8 <= rs) by (unfold rs, record_size; pose proof (key_len_nonneg (K := K)); lia).
  assert (Hn : 0 <= len / rs) by (apply Z.div_pos; lia).
  assert (Hfit : base + len / rs * rs <= zlen buf) by (pose proof (Z.mul_div_le len rs); lia).
  unfold binarySearch, binarySearchRange. fold rs. split.
  - destruct (search_bound buf base (len / rs) Hb Hn Hfit Hs key) as (p & -> & Hp & Hbl & Hab).
    cbn [mbind res_bind]. rewrite (scan_filter buf base _ Hb Hn Hfit Hs key _ p); try done; try lia.
    + do 3 f_equal. apply list_filter_iff. intros r. unfold key_neq. rewrite negb_involutive, andb_true_iff.
      split; [tauto|]. rewrite key_eq_spec. intros ->. by rewrite key_lt_irrefl.
    + intros a b Ha Hba. unfold key_neq. rewrite !negb_true_iff, <-!not_true_iff_false, !key_eq_spec.
      intros Hne ->. destruct (key_trichotomy a key) as [(?&_)|[(_&_&?)|(_&?&_)]]; congruence.
  - intros H32 lo hi. rewrite u32_small by lia.
    destruct (search_bound buf base (len / rs) Hb Hn Hfit Hs lo) as (p & -> & Hp & Hbl & Hab).
    cbn [mbind res_bind]. rewrite (scan_filter buf base _ Hb Hn Hfit Hs lo _ p); try done; try lia.
    + cbn [app]. do 2 f_equal. apply list_filter_iff. intros r. unfold key_ge. by rewrite negb_involutive.
    + intros a b Ha Hba. unfold key_ge. rewrite !negb_true_iff. intros Hah.
      apply not_true_is_false. intros Hbh.
      destruct (key_trichotomy a b) as [(?&_)|[(_&_&?)|(_&?&_)]]; [|congruence|congruence].
      pose proof (key_lt_trans _ _ _ H3 Hbh). congruence.
Qed.

(** C34: searching a sorted index.  On a region of records in key order, the
    binary search terminates without leaving the region and returns, behind
    what the list held before, the values of exactly the records with the key,
    all of them and in their order; the range search those with a key from the
    start key up to, but not including, the end key. *)
Theorem binarySearch_finds_all {K} `{CppKeyLaws K} `{KeyBytesLaws K} buf base len (key : K) ret :
  let rs := record_size (key_len (K := K)) in
  let records := recs (K := K) buf base (len / rs) in
  0 <= base -> 0 <= len -> base + len <= zlen buf -> sorted_keys records ->
  binarySearch buf base len key ret =
    Ok (ret ++ (filter (fun r => key_eq r.1 key = true) records).*2) /\
  (len < 2 ^ 32 -> forall lo hi, binarySearchRange buf base len lo hi =
    Ok (filter (fun r => negb (key_lt r.1 lo) && key_lt r.1 hi = true) records).*2).
Proof. apply binarySearch_spec. Qed.
End SearchProofs.

(** ** Multiplicities *)
Module AnswerProofs.

Definition count (x : Z) (l : list Z) : nat := length (filter (fun y => y = x) l).

Lemma count_cons x y l : count x (y :: l) = ((if decide (y = x) then 1 else 0) + count x l)%nat.
Proof. unfold count. rewrite filter_cons. by destruct (decide (y = x)). Qed.

Lemma count_perm x l k : l ≡ₚ k -> count x l = count x k.
Proof. unfold count. by intros ->. Qed.

Lemma count_zero x l : Forall (fun y => x < y) l -> count x l = 0%nat.
Proof.
  induction 1 as [|y l Hy _ IH]; [done|]. rewrite count_cons, IH. by rewrite decide_False by lia.
Qed.

Lemma sorted_tail a l : StronglySorted Z.le (a :: l) -> StronglySorted Z.le l /\ Forall (fun y => a <= y) l.
Proof. intros H. by apply StronglySorted_inv in H. Qed.

(** The elements below the head of a sorted list do not occur in it. *)
Lemma count_below x b l : StronglySorted Z.le (b :: l) -> x < b -> count x (b :: l) = 0%nat.
Proof.
  intros [_ Hf]%sorted_tail Hx. apply count_zero. constructor; [done|].
  eapply Forall_impl; [exact Hf|]. simpl. lia.
Qed.

Lemma intersect_loop_count x fuel : forall la lb,
  StronglySorted Z.le la -> StronglySorted Z.le lb -> (length la + length lb <= fuel)%nat ->
  count x (intersect_loop fuel la lb) = Nat.min (count x la) (count x lb).
Proof.
  induction fuel as [|fuel IH]; intros [|a la] [|b lb] Ha Hb Hf; simpl in Hf; try lia;
    cbn [intersect_loop]; try (unfold count; simpl; lia).
  apply sorted_tail in Ha as Ha'. apply sorted_tail in Hb as Hb'. destruct Ha' as [Ha' _], Hb' as [Hb' _].
  destruct (a <? b) eqn:E1; [|destruct (b <? a) eqn:E2]; zbool.
  - rewrite IH by (simpl; try lia; done). rewrite (count_cons x a). case_decide as Hd; [|done].
    subst. rewrite (count_below x b lb) by (done || lia). lia.
  - rewrite IH by (simpl; try lia; done). rewrite (count_cons x b). case_decide as Hd; [|done].
    subst. rewrite (count_below x a la) by (done || lia). lia.
  - assert (a = b) as -> by lia. rewrite !count_cons, IH by (simpl; try lia; done).
    case_decide; lia.
Qed.

Lemma join_loop_count x fuel : forall la lb,
  StronglySorted Z.le la -> StronglySorted Z.le lb -> (length la + length lb <= fuel)%nat ->
  count x (join_loop fuel la lb) = Nat.max (count x la) (count x lb).
Proof.
  induction fuel as [|fuel IH]; intros [|a la] [|b lb] Ha Hb Hf; simpl in Hf; try lia;
    cbn [join_loop app]; rewrite ?app_nil_r; try (unfold count at 2; simpl; lia);
    try (unfold count at 3; simpl; lia).
  apply sorted_tail in Ha as Ha'. apply sorted_tail in Hb as Hb'. destruct Ha' as [Ha' _], Hb' as [Hb' _].
  destruct (a <? b) eqn:E1; [|destruct (b <? a) eqn:E2]; zbool; rewrite count_cons.
  - rewrite IH by (simpl; try lia; done). rewrite (count_cons x a). case_decide as Hd; [|done].
    subst. rewrite (count_below x b lb) by (done || lia). lia.
  - rewrite IH by (simpl; try lia; done). rewrite (count_cons x b). case_decide as Hd; [|lia].
    subst. rewrite (count_below x a la) by (done || lia). lia.
  - assert (a = b) as -> by lia. rewrite !count_cons, IH by (simpl; try lia; done).
    case_decide; lia.
Qed.

(** What the loops produce is sorted and only made of the inputs' elements. *)
Lemma loops_from fuel : forall la lb,
  intersect_loop fuel la lb ⊆ la /\ forall P, Forall P la -> Forall P lb -> Forall P (join_loop fuel la lb).
Proof.
  induction fuel as [|fuel IH]; intros [|a la] [|b lb]; cbn [intersect_loop join_loop app];
    try (split; [set_solver|intros P H1 H2; rewrite ?app_nil_r; by rewrite ?Forall_cons, ?Forall_app in *]).
  - split; [set_solver|]. intros P H1 H2. constructor; [by inversion H1|].
    apply Forall_app. split; [by inversion H1|done].
  - destruct (a <? b); [|destruct (b <? a)].
    + destruct (IH la (b :: lb)) as [I1 I2]. split; [set_solver|]. intros P [? ?]%Forall_cons H2.
      constructor; auto.
    + destruct (IH (a :: la) lb) as [I1 I2]. split; [set_solver|]. intros P H1 [? ?]%Forall_cons.
      constructor; auto.
    + destruct (IH la lb) as [I1 I2]. split; [set_solver|]. intros P [? ?]%Forall_cons [? ?]%Forall_cons.
      constructor; auto.
Qed.

Lemma intersect_loop_sorted fuel : forall la lb,
  StronglySorted Z.le la -> StronglySorted Z.le (intersect_loop fuel la lb).
Proof.
  induction fuel as [|fuel IH]; intros [|a la] [|b lb] Ha; cbn [intersect_loop]; try constructor.
  apply sorted_tail in Ha as Ha'. destruct Ha' as [Ha' Hf].
  destruct (a <? b); [by apply IH|]. destruct (b <? a); [by apply IH|].
  constructor; [by apply IH|]. apply Forall_forall. intros y Hy%(proj1 (loops_from _ _ _)).
  rewrite Forall_forall in Hf. by apply Hf.
Qed.

Lemma join_loop_sorted fuel : forall la lb,
  StronglySorted Z.le la -> StronglySorted Z.le lb -> (length la + length lb <= fuel)%nat ->
  StronglySorted Z.le (join_loop fuel la lb).
Proof.
  induction fuel as [|fuel IH]; intros [|a la] [|b lb] Ha Hb Hf; simpl in Hf; try lia;
    cbn [join_loop app]; rewrite ?app_nil_r; try done.
  apply sorted_tail in Ha as Ha'. apply sorted_tail in Hb as Hb'. destruct Ha' as [Ha' Hfa], Hb' as [Hb' Hfb].
  destruct (a <? b) eqn:E1; [|destruct (b <? a) eqn:E2]; zbool;
    (constructor; [apply IH; simpl; try lia; done|]); apply loops_from; try done.
  - constructor; [lia|]. eapply Forall_impl; [exact Hfb|]. simpl. lia.
  - constructor; [lia|]. eapply Forall_impl; [exact Hfa|]. simpl. lia.
  - assert (a = b) as -> by lia. done.
Qed.

Lemma list_sort_spec l : StronglySorted Z.le (list_sort l) /\ list_sort l ≡ₚ l.
Proof.
  split; [apply StronglySorted_merge_sort|apply merge_sort_Permutation]; typeclasses eauto.
Qed.

(** combining pointer lists.  [intersect] and [join] of two lists return
    sorted lists in which every pointer occurs as often as in the list where
    it is rarer, or more frequent: intersection and union of multisets, so on
    lists without repetition those of sets. *)
Theorem intersect_join_multisets la lb x :
  StronglySorted Z.le (intersect la lb) /\ StronglySorted Z.le (join la lb) /\
  count x (intersect la lb) = Nat.min (count x la) (count x lb) /\
  count x (join la lb) = Nat.max (count x la) (count x lb).
Proof.
  destruct (list_sort_spec la) as [Sa Pa], (list_sort_spec lb) as [Sb Pb].
  unfold intersect, join. rewrite intersect_loop_count, join_loop_count by (done || lia).
  rewrite !(count_perm x _ _ Pa), !(count_perm x _ _ Pb).
  split; [by apply intersect_loop_sorted|]. split; [by apply join_loop_sorted|done].
Qed.

End AnswerProofs.

(** ** Evaluating an accepted expression *)
Module SearchExprProofs.

Section eval.
Context {R : Type} `{IoUring R}.
Context (inet_aton : string -> option Z).

Section steps.
Context (query : Querier R -> AtomKey -> res (list Answer * Querier R)).

(** The state after a prefix of the tokens. *)
Fixpoint steps (s : SearchState R) (l : list string) : res (SearchState R) :=
  match l with
  | [] => Ok s
  | tok :: l => s ← search_step inet_aton query s tok; steps s l
  end.

Definition balanced (stack : list string) (s : SearchState R) : Prop :=
  length (ops s) = length stack /\ length (before_lists s) = length stack.

Definition bracket (tok : string) : bool :=
  bool_decide (tok = "(") || bool_decide (tok = ")") || bool_decide (tok = "{")
  || bool_decide (tok = "}") || bool_decide (tok = "[") || bool_decide (tok = "]").

(** Tokens other than brackets leave both stacks alone. *)
Lemma verify_step_stack stack last tok stack' last' :
  bracket tok = false -> verify_step (stack, last) tok = Ok (Some (stack', last')) ->
  stack' = stack.
Proof.
  unfold bracket. intros Hb. repeat (apply orb_false_iff in Hb as [Hb ?]).
  unfold verify_step.
  repeat match goal with E : bool_decide (tok = _) = false |- _ => rewrite E; clear E end.
  assert (Hx : forall allowed x, Ok (if last_in last allowed then Some (stack, x) else None)
             = Ok (Some (stack', last')) -> stack' = stack).
  { intros allowed x. destruct (last_in last allowed); [by intros [= -> _]|discriminate]. }
  intros HE.
  repeat match type of HE with
  | (if ?b then Ok (if _ then _ else _) else _) = _ => destruct b; [exact (Hx _ _ HE)|]
  end.
  destruct (isValue tok); [|discriminate HE].
  destruct (last_in last [OP]); [by injection HE as -> _|].
  destruct (last_in last [BRACE; COMMA]); [by injection HE as -> _|discriminate HE].
Qed.

Lemma search_step_stacks s tok s' :
  tok <> "(" -> tok <> ")" -> search_step inet_aton query s tok = Ok s' ->
  length (ops s') = length (ops s) /\ length (before_lists s') = length (before_lists s).
Proof.
  intros H1 H2. unfold search_step.
  rewrite (bool_decide_eq_false_2 (tok = "(")), (bool_decide_eq_false_2 (tok = ")")) by done.
  destruct (bool_decide (tok ∈ ["srcip"; "dstip"])); [by intros [= <-]|].
  destruct (bool_decide (tok ∈ ["srcport"; "dstport"])); [by intros [= <-]|].
  destruct (bool_decide (tok = "==")); [by intros [= <-]|].
  destruct (bool_decide (tok ∈ ["&&"; "||"])); [by intros [= <-]|].
  destruct (negb (wait_for_value s =? 0)); [|by intros [= <-]].
  intros ([[r k] q] & _ & E)%bind_Ok_iff. by injection E as <-.
Qed.

(** Square and curly brackets are refused by the second check. *)
Lemma simply_no_brackets e tok l :
  verify_simply e (tok :: l) = true -> tok ∉ ["{"; "}"; "["; "]"].
Proof.
  intros Hv Hin. rewrite !elem_of_cons, elem_of_nil in Hin.
  destruct Hin as [->|[->|[->|[->|[]]]]]; cbn [verify_simply] in Hv;
    match type of Hv with context [isVar ?x] => replace (isVar x) with false in Hv by (vm_compute; reflexivity) end;
    match type of Hv with context [isValue ?x] => replace (isValue x) with false in Hv by (vm_compute; reflexivity) end;
    vm_compute in Hv; discriminate Hv.
Qed.

Lemma simply_tail e tok l : verify_simply e (tok :: l) = true -> exists e', verify_simply e' l = true.
Proof.
  cbn [verify_simply]. repeat case_test; try discriminate; eauto.
Qed.

Lemma verify_paren stack last tok l :
  verify_loop (stack, last) (tok :: l) = Ok true ->
  (tok = "(" -> exists last', verify_loop ("(" :: stack, last') l = Ok true) /\
  (tok = ")" -> exists top stack' last', stack = top :: stack' /\ verify_loop (stack', last') l = Ok true) /\
  (bracket tok = false -> exists last', verify_loop (stack, last') l = Ok true).
Proof.
  cbn [verify_loop]. intros ([st'|] & E & Hl)%bind_Ok_iff; [|discriminate Hl].
  split; [|split].
  - intros ->. cbn in E. destruct (last_in _ _); [|discriminate E]. injection E as <-. eauto.
  - intros ->. cbn in E. destruct stack as [|top stack]; [discriminate E|].
    destruct (_ && _); [discriminate E|]. injection E as <-. eauto 10.
  - intros Hb. destruct st' as [stack' last']. apply verify_step_stack in E as ->; eauto.
Qed.

Lemma pop_safe pre : forall stack last e s post s1,
  verify_loop (stack, last) (pre ++ ")" :: post) = Ok true ->
  verify_simply e (pre ++ ")" :: post) = true ->
  balanced stack s -> steps s pre = Ok s1 ->
  exists s2, search_step inet_aton query s1 ")" = Ok s2.
Proof.
  induction pre as [|tok pre IH]; intros stack last e s post s1 Hv Hs [Ho Hb] E; cbn [app] in *.
  - injection E as <-. apply verify_paren in Hv as (_ & Hp & _).
    destruct Hp as (top & stack' & last' & -> & _); [done|].
    destruct (ops s) as [|op ops'] eqn:E1, (before_lists s) as [|b bs] eqn:E2; try discriminate.
    eexists. unfold search_step. cbn -[apply_op]. rewrite E1, E2. done.
  - cbn [steps] in E. apply bind_Ok_iff in E as (s' & E & E').
    pose proof (simply_no_brackets _ _ _ Hs) as Hnb. destruct (simply_tail _ _ _ Hs) as [e' Hs'].
    destruct (verify_paren _ _ _ _ Hv) as (H1 & H2 & H3).
    destruct (decide (tok = "(")) as [->|Hne1]; [|destruct (decide (tok = ")")) as [->|Hne2]].
    + destruct H1 as [last' Hv']; [done|]. cbn in E. injection E as <-.
      eapply IH; [exact Hv'|exact Hs'| |exact E']. split; simpl; congruence.
    + destruct H2 as (top & stack' & last' & -> & Hv'); [done|]. unfold search_step in E. cbn -[apply_op] in E.
      destruct (ops s) as [|op ops'], (before_lists s) as [|b bs]; try discriminate.
      injection E as <-. eapply IH; [exact Hv'|exact Hs'| |exact E'].
      split; simpl in *; congruence.
    + destruct H3 as [last' Hv']. { unfold bracket. rewrite !orb_false_iff, !bool_decide_eq_false.
        rewrite !not_elem_of_cons in Hnb. tauto. }
      apply search_step_stacks in E as [E1 E2]; [|done|done].
      eapply IH; [exact Hv'|exact Hs'| |exact E']. split; congruence.
Qed.

(** C36: an accepted expression never pops an empty stack.  Whenever both
    grammar checks accept a token list, every closing bracket that the
    evaluation reaches finds its saved operator and list, whatever the queries
    in between return; on lists that were not checked the pop is undefined. *)
Theorem accepted_expression_pops_safely (l pre post : list string) cache0 (q : Querier R) s :
  grammarVerify l = Ok true -> grammarVerifySimply l = true -> l = pre ++ ")" :: post ->
  steps (mkSearch q [] [] [] (mkAtom cache0 []) 0 "||") pre = Ok s ->
  exists s', search_step inet_aton query s ")" = Ok s'.
Proof.
  intros Hv Hs -> E. eapply pop_safe; [exact Hv|exact Hs| |exact E]. by split.
Qed.
End steps.

Context (hash_str : list Z -> Z) (hash_u64 : Z -> Z) (uninit : Z -> list Z).

Lemma eval_value_empty fuel (s : SearchState R) tok r k q :
  eval_value inet_aton (getPointerByFlowMetaIndex hash_str hash_u64 uninit fuel) s tok = Ok (r, k, q) ->
  r = [].
Proof.
  assert (Hg : forall q k r q',
    getPointerByFlowMetaIndex hash_str hash_u64 uninit fuel q k = Ok (r, q') -> r = []).
  { intros q0 k0 r0 q0'. unfold getPointerByFlowMetaIndex.
    intros (? & _ & ([? ?] & _ & (? & _ & [= <- _])%bind_Ok_iff)%bind_Ok_iff)%bind_Ok_iff. done. }
  unfold eval_value. destruct (wait_for_value s =? 2).
  - intros (? & _ & ([r' q'] & E & [= <- _ _])%bind_Ok_iff)%bind_Ok_iff. by eapply Hg.
  - destruct (_ =? _).
    + intros (? & _ & ([r' q'] & E & [= <- _ _])%bind_Ok_iff)%bind_Ok_iff. by eapply Hg.
    + by intros (? & _ & (? & _ & (? & _ & [= <- _ _])%bind_Ok_iff)%bind_Ok_iff)%bind_Ok_iff.
Qed.

Lemma search_step_empty fuel (s : SearchState R) tok s' :
  left_list s = [] -> Forall (fun l => l = []) (before_lists s) ->
  search_step inet_aton (getPointerByFlowMetaIndex hash_str hash_u64 uninit fuel) s tok = Ok s' ->
  left_list s' = [] /\ Forall (fun l => l = []) (before_lists s').
Proof.
  intros Hl Hb. unfold search_step.
  destruct (bool_decide (tok = "(")); [intros [= <-]; simpl; by split; [|constructor]|].
  destruct (bool_decide (tok ∈ ["srcip"; "dstip"])); [by intros [= <-]|].
  destruct (bool_decide (tok ∈ ["srcport"; "dstport"])); [by intros [= <-]|].
  destruct (bool_decide (tok = "==")); [by intros [= <-]|].
  destruct (bool_decide (tok ∈ ["&&"; "||"])); [by intros [= <-]|].
  assert (Hop : forall op, apply_op op [] [] = []) by (intros; unfold apply_op; by destruct (bool_decide _)).
  destruct (bool_decide (tok = ")")).
  { destruct (ops s), (before_lists s); try discriminate. intros [= <-]. simpl.
    inversion Hb; subst. rewrite Hl. by split. }
  destruct (negb (wait_for_value s =? 0)); [|by intros [= <-]].
  intros ([[r k] q] & E & [= <-])%bind_Ok_iff. simpl. rewrite Hl.
  assert (r = []) as ->; [|by split].
  eapply eval_value_empty. exact E.
Qed.

(** the connectives of a query have no effect on its answer.  The pointers
    of an atomic query are only printed, the list it returns is the one it was
    created with, so whatever the expression the combined answer is empty. *)
Theorem search_answer_empty fuel cache0 (q : Querier R) l answers q' :
  searchExpression hash_str hash_u64 inet_aton uninit fuel cache0 q l = Ok (answers, q') ->
  answers = [].
Proof.
  unfold searchExpression, searchExpression_with.
  assert (Hg : forall l s, left_list s = [] -> Forall (fun l => l = []) (before_lists s) ->
    search_loop inet_aton (getPointerByFlowMetaIndex hash_str hash_u64 uninit fuel) s l = Ok (answers, q') ->
    answers = []); [|by apply Hg].
  clear l. intros l. induction l as [|tok l IH]; intros s Hl Hb; cbn [search_loop].
  - intros [= <- _]. done.
  - intros (s' & E & E')%bind_Ok_iff. apply search_step_empty in E as [Hl' Hb']; [|done|done].
    by apply (IH s').
Qed.
End eval.
End SearchExprProofs.

(** ** Following a flow on the disk *)
Module ReadProofs.
Import AgentProofs.

(** *** Reads of a longer memory agree *)
Lemma printPacket_app (l k : list Z) p : printPacket l = Ok p -> printPacket (l ++ k) = Ok p.
Proof.
  unfold printPacket. intros (b0 & E0 & E)%bind_Ok_iff. rewrite (zget_app _ _ _ _ E0).
  cbn [mbind res_bind]. destruct (_ =? 4); [|done].
  apply bind_Ok_iff in E as (x1 & E1 & E). rewrite (load_app _ _ _ _ _ E1). cbn [mbind res_bind].
  apply bind_Ok_iff in E as (x2 & E2 & E). rewrite (load_app _ _ _ _ _ E2). cbn [mbind res_bind].
  apply bind_Ok_iff in E as (x3 & E3 & E). rewrite (load_app _ _ _ _ _ E3). cbn [mbind res_bind].
  apply bind_Ok_iff in E as (x4 & E4 & E). by rewrite (load_app _ _ _ _ _ E4).
Qed.

(** The two fields the reader takes from a header. *)
Lemma header_fields h :
  is_u 32 (caplen h) -> is_u 32 (flow_next_diff h) ->
  le_val (take 4 (drop 8 (header_bytes h))) = caplen h /\
  le_val (drop 12 (header_bytes h)) = flow_next_diff h.
Proof.
  intros H1 H2. unfold header_bytes.
  assert (L1 : length (le_bytes 4 (ts_h h) ++ le_bytes 4 (ts_l h)) = 8%nat) by done.
  assert (L2 : length (le_bytes 4 (ts_h h) ++ le_bytes 4 (ts_l h) ++ le_bytes 4 (caplen h)) = 12%nat) by done.
  split.
  - rewrite app_assoc, drop_app_length' by done. rewrite take_app_length' by done.
    by apply le_val_le_bytes.
  - rewrite !app_assoc, drop_app_length' by (by rewrite <-!app_assoc).
    by apply le_val_le_bytes.
Qed.

Section chain.
Context {R : Type} `{IoUringLaws R}.
Context (uninit : Z -> list Z).

(** A ring that serves every synchronous read of bytes the disk has. *)
Context (live : R -> Prop).
Context (live_quiet : forall r, live r -> quiet r).
Context (live_serves : forall r len off ud, live r -> 0 <= off -> 0 <= len -> off + len <= zlen (disk r) ->
  exists bytes r', served r (ReadReq len off ud) bytes r' /\ live r').

(** The disk area of the data agent and the cells on it. *)
Context (dsk : list Z) (cs basic : Z).

(** A stored packet: its offset in the area, its header, its payload. *)
Definition packet : Type := Z * array_list_header * list Z.
Definition p_off (p : packet) : Z := p.1.1.
Definition p_hdr (p : packet) : array_list_header := p.1.2.
Definition p_pay (p : packet) : list Z := p.2.

(** The packet lies inside one cell, in front of the cell's tail pointer. *)
Record on_disk (area : Z) (p : packet) : Prop := {
  od_off : 0 <= p_off p < area;
  od_cap : caplen (p_hdr p) = zlen (p_pay p);
  od_capw : is_u 32 (caplen (p_hdr p));
  od_next : is_u 32 (flow_next_diff (p_hdr p));
  od_cell : p_off p mod cs + 24 + zlen (p_pay p) <= cs;
  od_bytes : zslice (basic + p_off p) (16 + zlen (p_pay p)) dsk =
    header_bytes (p_hdr p) ++ p_pay p;
  od_print : exists o, printPacket (p_pay p) = Ok o }.

Definition ends (p : packet) : bool :=
  (flow_next_diff (p_hdr p) =? 0) || (flow_next_diff (p_hdr p) =? MAX32).

(** The packets of a flow: each header holds the distance to the next packet,
    the last one holds 0 or the maximum. *)
Fixpoint flow (l : list packet) : Prop :=
  match l with
  | [] => False
  | [p] => ends p = true
  | p :: (p' :: _) as l =>
      ends p = false /\ p_off p' = p_off p + flow_next_diff (p_hdr p) /\ flow l
  end.

(** What is printed for a packet. *)
Definition prints (p : packet) : list Printed :=
  match printPacket (p_pay p) with Ok (Some o) => [o] | _ => [] end.

(** The querier between two turns. *)
Record good (q : Querier R) (r : R) : Prop := {
  g_cs : cellSize q = cs;
  g_pos : 24 <= cs;
  g_size : dataBufferSize q = zlen (dataBuffer q);
  g_slots : cs <= dataBufferSize q < 2 ^ 62;
  g_agent : wf (dataAgent q);
  g_bs : Agent.block_size (dataAgent q) = cs;
  g_basic : Agent.basic_offset (dataAgent q) = basic;
  g_ring : Agent.ring (dataAgent q) = Some r;
  g_live : live r;
  g_disk : disk r = dsk;
  g_area : basic + Agent.disk_size (dataAgent q) <= zlen dsk }.

(** The slots, and that the current one holds the cell read last. *)
Record slots (s : ReadState R) : Prop := {
  sl_now : 0 <= now_buffer_id s < dataBufferSize (rs_q s) / cs;
  sl_next : 0 <= next_buffer_id s < dataBufferSize (rs_q s) / cs;
  sl_cell : last_cell_id s = MAX64 \/
    0 <= last_cell_id s < Agent.block_num (dataAgent (rs_q s)) /\
    zslice (now_buffer_id s * cs) cs (dataBuffer (rs_q s)) =
      zslice (basic + last_cell_id s * cs) cs dsk }.

Lemma slot_fits q r i : good q r -> 0 <= i < dataBufferSize q / cs ->
  0 <= i * cs /\ i * cs + cs <= zlen (dataBuffer q) /\ u64 (i * cs) = i * cs.
Proof.
  intros [] Hi. pose proof (Z.mul_div_le (dataBufferSize q) cs ltac:(lia)).
  assert (i * cs + cs <= dataBufferSize q) by nia. assert (0 <= i * cs) by nia.
  rewrite u64_small; lia.
Qed.

Lemma read_cell_ok q r slot id :
  good q r -> 0 <= slot < dataBufferSize q / cs -> 0 <= id < Agent.block_num (dataAgent q) ->
  exists q' r', read_cell q slot id = Ok (true, q') /\ good q' r' /\ output q' = output q /\
    dataBufferSize q' = dataBufferSize q /\
    Agent.block_num (dataAgent q') = Agent.block_num (dataAgent q) /\
    Agent.disk_size (dataAgent q') = Agent.disk_size (dataAgent q) /\
    zslice (slot * cs) cs (dataBuffer q') = zslice (basic + id * cs) cs dsk.
Proof.
  intros Hg Hs Hid. destruct (slot_fits q r slot Hg Hs) as (H1 & H2 & H3). pose proof Hg as [].
  pose proof g_agent0 as Hw. destruct Hw.
  rewrite g_bs0 in *. rewrite g_basic0 in *.
  assert (id * cs + cs <= Agent.disk_size (dataAgent q)) by nia. assert (0 <= id * cs) by nia.
  destruct (live_serves r cs (basic + id * cs) id) as (bytes & r' & Hsv & Hl'); try done; try lia.
  { rewrite g_disk0. lia. }
  destruct (fun x y z => sync_read _ _ _ _ _ _ (live_quiet r g_live0) x y z Hsv)
    as (Hb & Hq' & Hd'); [lia|lia|rewrite g_disk0; lia|].
  assert (Hlen : zlen bytes = cs) by (rewrite Hb, zlen_zslice; rewrite ?g_disk0; lia).
  unfold read_cell, Agent.read. rewrite g_cs0, H3, g_bs0.
  destruct (Agent.block_num (dataAgent q) <=? id) eqn:E; [zlia|].
  destruct (block_offset (dataAgent q) id g_agent0) as [Eo _]; [lia|].
  rewrite g_bs0, g_basic0 in Eo. rewrite <-Eo in Hsv. rewrite <-g_basic0 in Hsv at 1.
  rewrite (read_at_served _ r _ _ _ _ _ _ _ g_ring0 Hsv) by lia.
  cbn [mbind res_bind]. eexists _, r'. split; [done|]. cbn.
  assert (Hz : zlen (zsplice (slot * cs) bytes (dataBuffer q)) = zlen (dataBuffer q))
    by (apply zlen_zsplice; lia).
  split; [|split; [done|split; [done|split; [done|split; [done|]]]]].
  - split; cbn; try done; try congruence; try lia.
    destruct g_agent0. by split.
  - rewrite <-Hlen at 2. rewrite zslice_zsplice_same by lia. by rewrite Hb, g_disk0.
Qed.

Lemma load_cell_ok s r id :
  good (rs_q s) r -> slots s -> 0 <= id < Agent.block_num (dataAgent (rs_q s)) ->
  exists s' r', load_cell s id = Ok (true, s') /\ good (rs_q s') r' /\ slots s' /\
    last_cell_id s' = id /\ output (rs_q s') = output (rs_q s) /\
    offset_list s' = offset_list s /\ now_id s' = now_id s /\
    Agent.disk_size (dataAgent (rs_q s')) = Agent.disk_size (dataAgent (rs_q s)).
Proof.
  intros Hg Hsl Hid. unfold load_cell. destruct (last_cell_id s =? id) eqn:E; zbool.
  { exists s, r. by rewrite E. }
  destruct Hsl. destruct (read_cell_ok (rs_q s) r (next_buffer_id s) id Hg sl_next0 Hid)
    as (q' & r' & -> & Hg' & Ho & Hds & Hbn & Hsz & Hc). cbn [mbind res_bind negb].
  eexists _, r'. split; [done|]. cbn. split; [done|]. split; [|done].
  pose proof Hg as []. pose proof (Z.div_le_upper_bound (dataBufferSize (rs_q s)) cs (2 ^ 62)).
  assert (dataBufferSize (rs_q s) / cs < 2 ^ 62) by (apply Z.div_lt_upper_bound; nia).
  rewrite g_cs0. split; cbn; rewrite ?Hds; [done| |right; by rewrite Hbn].
  rewrite u64_small by lia. case_test; zlia.
Qed.

(** Fetching a packet that lies inside the current cell. *)
Lemma fetch_in_cell s r p :
  good (rs_q s) r -> slots s -> on_disk (Agent.disk_size (dataAgent (rs_q s))) p ->
  last_cell_id s = p_off p / cs -> last_cell_id s <> MAX64 ->
  exists mem rest, fetch_packet uninit s (p_off p mod cs) =
      Ok (Some (mem, flow_next_diff (p_hdr p)), rs_q s) /\ mem = p_pay p ++ rest.
Proof.
  intros Hg [Hnow Hnext Hcell] [] Hlast Hne. destruct Hcell as [|[Hrange Hcell]]; [done|].
  destruct (slot_fits _ _ _ Hg Hnow) as (H1 & H2 & H3).
  destruct (slot_fits _ _ _ Hg Hnext) as (_ & _ & H4). pose proof Hg as [].
  set (x := p_off p mod cs) in *. set (L := zlen (p_pay p)) in *.
  assert (Hx : 0 <= x < cs) by (apply Z.mod_pos_bound; lia).
  assert (HL : 0 <= L) by apply zlen_nonneg.
  assert (Hoff : p_off p = last_cell_id s * cs + x).
  { rewrite Hlast. unfold x. pose proof (Z.div_mod (p_off p) cs). lia. }
  pose proof (wf_basic _ g_agent0). rewrite g_basic0 in *.
  assert (Hsl : forall o n, 0 <= o -> o + n <= cs -> zslice (now_buffer_id s * cs + o) n (dataBuffer (rs_q s))
                = zslice (basic + last_cell_id s * cs + o) n dsk).
  { intros o n Ho Hn. rewrite <-(zslice_zslice o n (now_buffer_id s * cs) cs) by lia.
    rewrite Hcell, zslice_zslice by nia. done. }
  assert (Hsz : zlen (header_bytes (p_hdr p)) = 16) by (unfold header_bytes; by rewrite !zlen_app, !zlen_le_bytes).
  assert (Hhdr : zslice (now_buffer_id s * cs + x) 16 (dataBuffer (rs_q s)) = header_bytes (p_hdr p)).
  { rewrite Hsl by lia. replace (basic + last_cell_id s * cs + x) with (basic + p_off p) by lia.
    rewrite zslice_app in od_bytes0 by lia. apply app_inj_1 in od_bytes0 as [Eh _]; [done|].
    unfold zlen in *. apply (f_equal length) in od_bytes0. rewrite !length_app in od_bytes0.
    unfold zslice in *. rewrite !length_take, !length_drop in *. lia. }
  assert (Hpay : zslice (now_buffer_id s * cs + x + 16) L (dataBuffer (rs_q s)) = p_pay p).
  { rewrite <-Z.add_assoc, Hsl by lia.
    replace (basic + last_cell_id s * cs + (x + 16)) with (basic + p_off p + 16) by lia.
    rewrite Hsl in Hhdr by lia.
    replace (basic + last_cell_id s * cs + x) with (basic + p_off p) in Hhdr by lia.
    rewrite zslice_app in od_bytes0 by lia. rewrite Hhdr in od_bytes0. by apply app_inv_head in od_bytes0. }
  unfold fetch_packet. rewrite g_cs0, H3, H4.
  assert (Hcs : cs < 2 ^ 62) by lia.
  rewrite !u64_small by lia. destruct (cs <? x + 16 + 8) eqn:E1; [zlia|].
  rewrite (zread_Ok _ (now_buffer_id s * cs + x) 16) by lia. cbn [mbind res_bind]. rewrite Hhdr.
  destruct (header_fields (p_hdr p)) as [-> ->]; [done|done|].
  unfold is_u in *. rewrite od_cap0 in *. fold L in od_capw0 |- *.
  rewrite (u64_small (x + 16 + 8 + L)) by lia. destruct (cs <? x + 16 + 8 + L) eqn:E2; [zlia|].
  eexists _, _. split; [done|].
  rewrite <-(take_drop (Z.to_nat L) (drop _ (dataBuffer (rs_q s)))) at 1. f_equal.
  exact Hpay.
Qed.

(** One turn with a single offset left. *)
Lemma turn_in_cell s r p :
  good (rs_q s) r -> slots s -> on_disk (Agent.disk_size (dataAgent (rs_q s))) p ->
  offset_list s = [p_off p] -> now_id s = 0 ->
  exists s' r', read_turn uninit s = Ok (true, s') /\ good (rs_q s') r' /\ slots s' /\
    output (rs_q s') = output (rs_q s) ++ prints p /\
    Agent.disk_size (dataAgent (rs_q s')) = Agent.disk_size (dataAgent (rs_q s)) /\
    if ends p then offset_list s' = [p_off p] /\ now_id s' = 1
    else offset_list s' = [p_off p + flow_next_diff (p_hdr p)] /\ now_id s' = 0.
Proof.
  intros Hg Hsl Hod Hl Hn. pose proof Hg as []. pose proof (wf_size _ g_agent0) as Hsz.
  pose proof (wf_small _ g_agent0). pose proof (wf_basic _ g_agent0). pose proof (wf_num _ g_agent0).
  rewrite g_bs0 in *. pose proof (od_off _ _ Hod) as Hoff.
  assert (Hid : 0 <= p_off p / cs < Agent.block_num (dataAgent (rs_q s))).
  { split; [apply Z.div_pos; lia|]. apply Z.div_lt_upper_bound; [lia|].
    rewrite (Z.mul_comm cs), <-Hsz. lia. }
  unfold read_turn. rewrite g_cs0, Hl, Hn. destruct (cs =? 0) eqn:E0; [zlia|].
  assert (Es : swap_front [p_off p] 0 = Ok (p_off p, [p_off p])) by reflexivity.
  rewrite Es. cbn [mbind res_bind].
  destruct (load_cell_ok (mkRead (rs_q s) [p_off p] 0 (now_buffer_id s) (next_buffer_id s) (last_cell_id s))
    r (p_off p / cs)) as (s1 & r1 & -> & Hg1 & Hsl1 & Hc1 & Ho1 & Hl1 & Hn1 & Hd1); try done.
  { by destruct Hsl. }
  cbn [mbind res_bind negb]. cbn [rs_q offset_list now_id] in *.
  assert (Hne : last_cell_id s1 <> MAX64).
  { rewrite Hc1. unfold MAX64. assert (Agent.block_num (dataAgent (rs_q s)) * 24 <= 2 ^ 63) by nia. lia. }
  destruct (fetch_in_cell s1 r1 p Hg1 Hsl1) as (mem & rest & -> & ->); [by rewrite Hd1|done|done|].
  cbn [mbind res_bind]. destruct (od_print _ _ Hod) as [o Ho].
  rewrite (printPacket_app _ _ _ Ho). cbn [mbind res_bind].
  change ((flow_next_diff (p_hdr p) =? 0) || (flow_next_diff (p_hdr p) =? MAX32)) with (ends p).
  pose proof (od_next _ _ Hod) as Hnx. unfold is_u in Hnx.
  assert (Hout : output (rs_q s1) ++ match o with Some x => [x] | None => [] end =
                 output (rs_q s) ++ prints p) by (rewrite Ho1; unfold prints; by rewrite Ho).
  assert (Hg2 : forall q, q = with_output (rs_q s1) (output (rs_q s1) ++ match o with Some x => [x] | None => [] end) ->
                good q r1) by (intros q ->; by destruct Hg1; split).
  destruct (ends p).
  - eexists _, r1. split; [done|]. cbn. split; [by apply Hg2|]. split; [by destruct Hsl1; split|].
    rewrite Hl1, Hn1. by repeat split.
  - cbn [with_q with_output offset_list now_id]. rewrite Hl1, Hn1, zset_Ok by done.
    cbn [mbind res_bind]. eexists _, r1. split; [done|]. cbn. split; [by apply Hg2|].
    split; [by destruct Hsl1; split|]. rewrite u64_small by lia. by repeat split.
Qed.

Lemma loop_follows l : forall s r fuel,
  good (rs_q s) r -> slots s -> Forall (on_disk (Agent.disk_size (dataAgent (rs_q s)))) l ->
  flow l -> (forall p, head l = Some p -> offset_list s = [p_off p]) -> now_id s = 0 ->
  (length l <= fuel)%nat ->
  exists q' r', read_loop uninit fuel s = Ok q' /\ good q' r' /\
    output q' = output (rs_q s) ++ (l ≫= prints).
Proof.
  induction l as [|p l IH]; intros s r fuel Hg Hsl Hod Hfl Hl Hn Hf; [done|].
  apply Forall_cons in Hod as [Hp Hod]. destruct fuel as [|fuel]; [simpl in Hf; lia|].
  destruct (turn_in_cell s r p Hg Hsl Hp) as (s1 & r1 & E & Hg1 & Hsl1 & Ho1 & Hd1 & Hnx); [by apply Hl|done|].
  cbn [read_loop]. rewrite (Hl p), Hn by done. change (zlen [p_off p] <=? 0) with false. cbn iota.
  rewrite E. cbn [mbind res_bind negb]. destruct l as [|p' l].
  - cbn [flow] in Hfl. rewrite Hfl in Hnx. destruct Hnx as [Hl1 Hn1].
    exists (rs_q s1), r1. split; [|split; [done|]].
    + destruct fuel; cbn [read_loop]; rewrite Hl1, Hn1; done.
    + rewrite Ho1. simpl. by rewrite app_nil_r.
  - destruct Hfl as (He & Hlink & Hfl). rewrite He in Hnx. destruct Hnx as [Hl1 Hn1].
    destruct (IH s1 r1 fuel) as (q' & r' & Eq & Hg' & Ho'); try done.
    + by rewrite Hd1.
    + intros x [= <-]. by rewrite Hl1, Hlink.
    + simpl in *. lia.
    + exists q', r'. split; [done|]. split; [done|]. rewrite Ho', Ho1, <-app_assoc. done.
Qed.

(** C35: reading back a flow whose packets each lie inside one cell, in front of
    the cell's last eight bytes, at rising offsets of the agent's area (no
    wrap around its end), from a disk that serves the reads.  Starting from the
    offset of the first packet, [readPackets] visits the packets, whose headers
    hold the distance to the next one, prints each packet once and in order,
    and stops at the packet whose distance is 0 or the maximum, with as many
    turns as there are packets. *)
Theorem readPackets_follows_flow q r l p fuel :
  good q r -> Forall (on_disk (Agent.disk_size (dataAgent q))) (p :: l) -> flow (p :: l) ->
  (length (p :: l) <= fuel)%nat ->
  exists q', readPackets uninit fuel q [p_off p] = Ok q' /\
    output q' = output q ++ ((p :: l) ≫= prints).
Proof.
  intros Hg Hod Hfl Hf. pose proof Hg as []. unfold readPackets. rewrite g_cs0.
  destruct (cs =? 0) eqn:E; [zlia|].
  assert (0 < dataBufferSize q / cs) by (apply Z.div_str_pos; lia).
  destruct (loop_follows (p :: l) (mkRead q [p_off p] 0 0 0 MAX64) r fuel) as (q' & r' & -> & _ & Ho); try done.
  - split; simpl; [lia|lia|by left].
  - by intros x [= <-].
  - eauto.
Qed.
End chain.
End ReadProofs.

(** ** Witnesses *)
Module DemoQuerier.

(** Four port records behind two bytes of something else. *)
Definition demo_index : list Z :=
  [9; 9] ++ records_enc (H := key2) [(22, 700); (80, 96); (80, 32); (443, 5)].

Lemma binarySearch_finds_all_witness :
  binarySearch (H := Z_key) (H0 := key2) demo_index 2 40 80 [1] = Ok [1; 96; 32] /\
  binarySearchRange (H := Z_key) (H0 := key2) demo_index 2 40 22 443 = Ok [700; 96; 32].
Proof.
  destruct (SearchProofs.binarySearch_finds_all (H := Z_key) (H1 := key2) demo_index 2 40 80 [1])
    as [E1 E2].
  - lia.
  - lia.
  - vm_compute. discriminate.
  - vm_compute. intros [|[|[|[|i]]]] [|[|[|[|j]]]] x y Hij Hx Hy; try lia;
      try discriminate Hx; try discriminate Hy; injection Hx as <-; injection Hy as <-; reflexivity.
  - split; [rewrite E1; vm_compute; reflexivity|].
    rewrite (E2 ltac:(lia) 22 443). vm_compute. reflexivity.
Defined.

(** The first packet is an IPv4 packet of 20 + 4 bytes; its flow continues 64
    bytes further. *)
Definition demo_payload (a : Z) : list Z :=
  [69; 0; 0; 24; 0; 0; 0; 0; 64; 17; 0; 0; 10; 0; 0; a; 10; 0; 0; 2; 18; 52; 0; 80].
Definition demo_hdr (next : Z) : array_list_header := mkHeader 1 7 24 next.
Definition demo_disk : list Z :=
  replicate 8 0 ++ replicate 4 0 ++ header_bytes (demo_hdr 64) ++ demo_payload 1
  ++ replicate 24 0 ++ header_bytes (demo_hdr 0) ++ demo_payload 5 ++ replicate 20 0.
Definition demo_querier : Querier SimRing :=
  mkQuerier "" "" 0 0 0 64 64 128 192 new_QueryTree (replicate 128 0) (replicate 192 0)
    (DiskTable.mkDB 0 []) (from_res (mkBitMap ∅ 0 0 0 0) (new_BitMap true 8 1 1))
    (Agent.mkAgent 0 8 0 4 0 None)
    (Agent.mkAgent 128 64 2 4 8 (Some (mkSim 4 demo_disk [] false))) [].

Definition demo_live (r : SimRing) : Prop := sim_done r = [] /\ 0 < sim_depth r.

Lemma demo_live_quiet r : demo_live r -> quiet r.
Proof. intros [Hd _]. exact Hd. Qed.

Lemma demo_serves r len off ud :
  demo_live r -> 0 <= off -> 0 <= len -> off + len <= zlen (disk r) ->
  exists bytes r', served r (ReadReq len off ud) bytes r' /\ demo_live r'.
Proof.
  intros [Hd Hp] Ho Hl Hf. cbn in Hf. eexists _, _. split.
  - eexists r, 1, _, 0, _, _. cbn. rewrite Hd. cbn [app].
    replace ((0 <=? len) && (0 <=? off) && (off + len <=? zlen (sim_disk r))) with true
      by (symmetry; rewrite !andb_true_iff, !Z.leb_le; lia).
    change (zlen (@nil completion)) with 0. destruct (0 <? sim_depth r) eqn:E; [|zlia].
    split; [done|]. split; [done|]. split; [lia|]. split; [done|]. split; [lia|]. split; [done|].
    split; reflexivity.
  - by split.
Qed.

Definition demo_flow : list ReadProofs.packet :=
  [(4, demo_hdr 64, demo_payload 1); (68, demo_hdr 0, demo_payload 5)].

Lemma readPackets_follows_flow_witness :
  exists q', readPackets (fun n => replicate (Z.to_nat n) 0) 2 demo_querier [4] = Ok q' /\
    output q' = [mkPrinted 0x0A000001 4660 0x0A000002 80; mkPrinted 0x0A000005 4660 0x0A000002 80].
Proof.
  apply (ReadProofs.readPackets_follows_flow (fun n => replicate (Z.to_nat n) 0) demo_live
    demo_live_quiet demo_serves demo_disk 64 8 demo_querier
    (mkSim 4 demo_disk [] false) (tail demo_flow) (4, demo_hdr 64, demo_payload 1) 2).
  - split; try (vm_compute; (reflexivity || discriminate || (split; (discriminate || reflexivity)))).
  - repeat apply Forall_cons_2; [| |apply Forall_nil_2];
      (split; [split; vm_compute; (reflexivity || discriminate)|vm_compute; reflexivity
              |split; vm_compute; (reflexivity || discriminate)
              |split; vm_compute; (reflexivity || discriminate)|vm_compute; discriminate
              |vm_compute; reflexivity|eexists; vm_compute; reflexivity]).
  - repeat split.
  - simpl. lia.
Defined.

Lemma accepted_expression_pops_safely_witness :
  let l := ["("; "srcport"; "=="; "80"; ")"] in
  exists s s', SearchExprProofs.steps (R := SimRing) (fun _ => None) (fun q k => Ok ([], q))
      (mkSearch demo_querier [] [] [] (mkAtom 0 []) 0 "||") ["("; "srcport"; "=="; "80"] = Ok s /\
    search_step (R := SimRing) (fun _ => None) (fun q k => Ok ([], q)) s ")" = Ok s'.
Proof.
  intros l.
  destruct (SearchExprProofs.steps (R := SimRing) (fun _ => None) (fun q k => Ok ([], q))
      (mkSearch demo_querier [] [] [] (mkAtom 0 []) 0 "||") ["("; "srcport"; "=="; "80"])
    as [s| | |] eqn:E; [|vm_compute in E; discriminate E..].
  destruct (SearchExprProofs.accepted_expression_pops_safely (fun _ => None) (fun q k => Ok ([], q))
    l ["("; "srcport"; "=="; "80"] [] 0 demo_querier s) as [s' H'].
  - vm_compute. reflexivity.
  - vm_compute. reflexivity.
  - reflexivity.
  - exact E.
  - exists s, s'. split; [reflexivity|exact H'].
Defined.

(** A block without any key: the query runs and answers nothing. *)
Lemma search_answer_empty_witness :
  exists answers q', searchExpression (fun _ => 0) id (fun _ => Some 0) (fun _ => []) 1 0 demo_querier
    ["srcport"; "=="; "80"; "||"; "dstport"; "=="; "443"] = Ok (answers, q') /\ answers = [].
Proof.
  destruct (searchExpression (fun _ => 0) id (fun _ => Some 0) (fun _ => []) 1 0 demo_querier
    ["srcport"; "=="; "80"; "||"; "dstport"; "=="; "443"]) as [[answers q']| | |] eqn:E;
    [|vm_compute in E; discriminate E..].
  exists answers, q'. split; [reflexivity|].
  exact (SearchExprProofs.search_answer_empty _ _ _ _ _ _ _ _ _ _ E).
Defined.
End DemoQuerier.
