(* ===== verification/QueryOutput.v ===== *)
(** * Writing the answer of a query to a file (dpdk_component/querier.cpp)

    [outputPacketToFile] copies the packets of an answer from the captured
    input files, whose number is in the upper sixteen bits of a position, to
    the output file; its call in [runUnit] is commented out.  The theorem: the
    file gets exactly the records in the time window, in the order of the
    positions, and every input file is opened and closed once.  [clearTree]
    deletes the nodes of a query tree; [readPacket] is an earlier form of
    [readPackets] that nothing calls. *)
From Stdlib Require Import ZArith Lia Bool.
From S2P Require Import Prelude Util Reader Disk QueryTree Querier.

(** ** [clearTree]

    A node with its address; the answer are the addresses in the order in
    which they are deleted. *)
Inductive QueryTreeNode := QNode (addr : Z) (children : list QueryTreeNode).

Fixpoint clearNode (node : QueryTreeNode) : list Z :=
  let 'QNode addr children := node in concat (List.map clearNode children) ++ [addr].

(** A null pointer is left alone. *)
Definition clearTree (node : option QueryTreeNode) : list Z :=
  match node with None => [] | Some n => clearNode n end.

(** ** Input files *)
Section files.
(** What [open] gives for the file of a number, and whether [fstat] and
    [mmap] of it succeed. *)
Context (open_file : Z -> option (list Z)) (stat_ok map_ok : Z -> bool).

Inductive FileEvent := Opened (id : Z) | Closed (id : Z).

(** The three vectors: numbers, what their descriptors stand for and the
    mappings; what was done with descriptors; the output and its packets. *)
Record Files := mkFiles {
  data_id_list : list Z;
  data_buffer_list : list (option (list Z));
  events : list FileEvent;
  written : list Z;
  packets : Z }.

(** [getFileSize]: 0, with the descriptor closed, when [fstat] fails. *)
Definition getFileSize (fd : option (list Z)) (id : Z) : Z * list FileEvent :=
  match fd with
  | None => (0, [])
  | Some bytes => if stat_ok id then (zlen bytes, []) else (0, [Closed id])
  end.

(** [mmapFile]: the mapped bytes, or a null pointer with the descriptor
    closed; a mapping of no bytes fails. *)
Definition mmapFile (fd : option (list Z)) (id size : Z) : option (list Z) * list FileEvent :=
  match fd with
  | None => (None, [])
  | Some bytes =>
      if map_ok id && (0 <? size) then (Some (take (Z.to_nat size) bytes), []) else (None, [Closed id])
  end.

(** [closeFile]; the warnings are not modelled. *)
Definition closeFile (id : Z) : list FileEvent := [Closed id].

(** [value >> 48] as a [u_int16_t]. *)
Definition data_id_of (value : Z) : Z := u16 (Z.shiftr value 48).

(** The loop that looks for a number. *)
Fixpoint find_id (l : list Z) (id : Z) (i : Z) : Z :=
  match l with
  | [] => i
  | x :: l => if x =? id then i else find_id l id (i + 1)
  end.

(** The place of a file in the vectors, opened if it is new; [None]: the file
    does not exist. *)
Definition use_file (s : Files) (id : Z) : option Z * Files :=
  let i := find_id (data_id_list s) id 0 in
  if i =? zlen (data_id_list s) then
    match open_file id with
    | None =>
        (None, mkFiles (data_id_list s ++ [id]) (data_buffer_list s) (events s) (written s) (packets s))
    | Some bytes =>
        let '(size, ev) := getFileSize (Some bytes) id in
        let '(buffer, ev') := mmapFile (Some bytes) id size in
        (Some i, mkFiles (data_id_list s ++ [id]) (data_buffer_list s ++ [buffer])
                   (events s ++ [Opened id] ++ ev ++ ev') (written s) (packets s))
    end
  else (Some i, s).

(** One position; [false]: the function returns. *)
Definition output_packet (startTime endTime : Z) (s : Files) (value : Z) : res (bool * Files) :=
  let '(r, s) := use_file s (data_id_of value) in
  match r with
  | None => Ok (false, s)
  | Some i =>
      b ← zget (data_buffer_list s) i;
      match b with
      | None => Undef
      | Some data =>
          let offset := Z.land value 0xffffffffffff in
          ts_h ← load 4 data offset;
          ts_l ← load 4 data (offset + 4);
          caplen ← load 4 data (offset + 8);
          let ti := u64 (Z.shiftl ts_h 32 + ts_l) in
          if (startTime <=? ti) && (ti <=? endTime) then
            record ← zread data offset (16 + caplen);
            Ok (true, mkFiles (data_id_list s) (data_buffer_list s) (events s) (written s ++ record)
                        (u64 (packets s + 1)))
          else Ok (true, s)
      end
  end.

Fixpoint output_packets (startTime endTime : Z) (s : Files) (values : list Z) : res (bool * Files) :=
  match values with
  | [] => Ok (true, s)
  | v :: values =>
      '(ok, s) ← output_packet startTime endTime s v;
      if ok : bool then output_packets startTime endTime s values else Ok (false, s)
  end.

Fixpoint output_answers (startTime endTime : Z) (s : Files) (l : list Answer) : res (bool * Files) :=
  match l with
  | [] => Ok (true, s)
  | a :: l =>
      if zlen (pointers a) =? 0 then output_answers startTime endTime s l
      else
        '(ok, s) ← output_packets startTime endTime s (pointers a);
        if ok : bool then output_answers startTime endTime s l else Ok (false, s)
  end.

Definition no_files : Files := mkFiles [] [] [] [] 0.

(** [outputPacketToFile]: [out_ok] says whether the output file can be opened;
    on a missing input file the function returns without closing the others. *)
Definition outputPacketToFile (startTime endTime : Z) (out_ok : bool) (l : list Answer) : res Files :=
  if negb out_ok then Ok no_files
  else
    '(ok, s) ← output_answers startTime endTime no_files l;
    if ok : bool then
      Ok (mkFiles (data_id_list s) (data_buffer_list s) (events s ++ concat (List.map closeFile (data_id_list s)))
            (written s) (packets s))
    else Ok s.

(** ** What is written *)

(** The record at a position: its bytes when its time lies in the window. *)
Definition record_at (startTime endTime : Z) (value : Z) : option (list Z) :=
  match open_file (data_id_of value) with
  | None => None
  | Some data =>
      let o := Z.land value 0xffffffffffff in
      let t := le_val (zslice o 4 data) * 2 ^ 32 + le_val (zslice (o + 4) 4 data) in
      if (startTime <=? t) && (t <=? endTime)
      then Some (zslice o (16 + le_val (zslice (o + 8) 4 data)) data) else None
  end.

(** The position lies in a file that can be opened and mapped, with its whole
    record. *)
Definition position_ok (value : Z) : Prop :=
  0 <= value /\ stat_ok (data_id_of value) = true /\ map_ok (data_id_of value) = true /\
  exists data, open_file (data_id_of value) = Some data /\ Forall (is_u 8) data /\
    (let o := Z.land value 0xffffffffffff in o + 16 + le_val (zslice (o + 8) 4 data) <= zlen data).

(** The numbers in the order of their first use. *)
Definition add_id (l : list Z) (id : Z) : list Z := if bool_decide (id ∈ l) then l else l ++ [id].
Definition ids_of (l : list Z) (values : list Z) : list Z := foldl (fun l v => add_id l (data_id_of v)) l values.

(** The vectors belong together. *)
Definition files_ok (s : Files) : Prop :=
  data_buffer_list s = open_file <$> data_id_list s /\ events s = Opened <$> data_id_list s.

Lemma find_id_spec l id i :
  0 <= i -> (id ∈ l /\ exists j, find_id l id i = i + j /\ 0 <= j < zlen l /\ zget l j = Ok id)
  \/ (not (id ∈ l) /\ find_id l id i = i + zlen l).
Proof.
  revert i. induction l as [|x l IH]; intros i Hi; cbn [find_id].
  { right. split; [set_solver|]. change (zlen []) with 0. lia. }
  rewrite zlen_cons. pose proof (zlen_nonneg l). destruct (Z.eqb_spec x id) as [->|Hne].
  - left. split; [left|]. exists 0. split; [lia|]. split; [lia|]. done.
  - destruct (IH (i + 1) ltac:(lia)) as [(Hin & j & -> & Hj & Hg)|[Hni ->]].
    + left. split; [by right|]. exists (j + 1). split; [lia|]. split; [lia|].
      apply zget_Ok in Hg as [_ Hg]. apply zget_Ok. split; [lia|].
      by replace (Z.to_nat (j + 1)) with (S (Z.to_nat j)) by lia.
    + right. split; [|lia]. rewrite elem_of_cons. intros [->|]; done.
Qed.

Lemma use_file_ok s id data :
  files_ok s -> open_file id = Some data -> stat_ok id = true -> map_ok id = true -> 0 < zlen data ->
  exists i s', use_file s id = (Some i, s') /\ files_ok s' /\ zget (data_buffer_list s') i = Ok (Some data) /\
    data_id_list s' = add_id (data_id_list s) id /\ written s' = written s /\ packets s' = packets s.
Proof.
  intros (Hb & He) Hopen Hst Hmap Hl. unfold use_file, add_id.
  destruct (find_id_spec (data_id_list s) id 0 ltac:(lia)) as [(Hin & j & -> & Hj & Hg)|[Hni ->]].
  - rewrite Z.add_0_l. replace (j =? zlen (data_id_list s)) with false by (symmetry; apply Z.eqb_neq; lia).
    exists j, s. split; [done|]. split; [done|]. split; [|by rewrite bool_decide_true].
    rewrite Hb. apply zget_Ok in Hg as [Hj0 Hg]. apply zget_Ok. split; [done|].
    rewrite list_lookup_fmap, Hg. by rewrite <-Hopen.
  - rewrite Z.add_0_l, Z.eqb_refl, Hopen. unfold getFileSize, mmapFile. rewrite Hst, Hmap.
    replace (0 <? zlen data) with true by (symmetry; apply Z.ltb_lt; lia). cbn [andb].
    unfold zlen at 2. rewrite Nat2Z.id, take_ge by lia. eexists _, _. split; [done|].
    cbn [data_id_list data_buffer_list written packets]. split; [|split; [|by rewrite bool_decide_false]].
    + split; cbn [data_id_list data_buffer_list events]; rewrite fmap_app; cbn [fmap list_fmap].
      * by rewrite Hb, Hopen.
      * by rewrite He, !app_nil_r.
    + rewrite Hb. assert (Hz : zlen (open_file <$> data_id_list s) = zlen (data_id_list s))
        by (unfold zlen; by rewrite length_fmap). rewrite <-Hz. apply zget_snoc.
Qed.

(** What a list of positions adds. *)
Definition records (st et : Z) (values : list Z) : list (list Z) := omap (record_at st et) values.

Lemma land_48 v : 0 <= v -> 0 <= Z.land v 0xffffffffffff.
Proof. intros. apply Z.land_nonneg. lia. Qed.

(** A field of the header at [o]. *)
Lemma field_ok data o (n : nat) : 0 <= o -> o + Z.of_nat n <= zlen data -> Forall (is_u 8) data ->
  load n data o = Ok (le_val (zslice o (Z.of_nat n) data)) /\
  is_u (8 * Z.of_nat n) (le_val (zslice o (Z.of_nat n) data)).
Proof.
  intros Ho Hl Hd. split; [unfold load; by rewrite zread_Ok by lia|]. apply le_val_word.
  - unfold zslice. by apply Forall_take, Forall_drop.
  - apply zlen_zslice; lia.
Qed.

Lemma output_packet_ok st et s v :
  files_ok s -> position_ok v -> packets s + 1 < 2 ^ 64 -> 0 <= packets s ->
  exists s', output_packet st et s v = Ok (true, s') /\ files_ok s' /\
    data_id_list s' = add_id (data_id_list s) (data_id_of v) /\
    written s' = written s ++ concat (records st et [v]) /\
    packets s' = packets s + zlen (records st et [v]).
Proof.
  intros Hs (Hv & Hst & Hmap & data & Hopen & Hu & Hin) Hp Hp0. cbn beta zeta in Hin.
  pose proof (land_48 v Hv) as Ho.
  assert (Hcap : 0 <= le_val (zslice (Z.land v 0xffffffffffff + 8) 4 data)).
  { apply le_val_range. unfold zslice. by apply Forall_take, Forall_drop. }
  unfold output_packet, records. cbn [omap list_omap]. unfold record_at. rewrite Hopen. cbn zeta.
  set (o := Z.land v 0xffffffffffff) in *.
  destruct (use_file_ok s (data_id_of v) data Hs Hopen Hst Hmap ltac:(lia))
    as (i & s' & -> & Hs' & Hg & Hid & Hw & Hpk). rewrite Hg. cbn [mbind res_bind].
  destruct (field_ok data o 4) as [E1 R1]; [lia|lia|done|].
  destruct (field_ok data (o + 4) 4) as [E2 R2]; [lia|lia|done|].
  destruct (field_ok data (o + 8) 4) as [E3 R3]; [lia|lia|done|].
  change (Z.of_nat 4) with 4 in *. unfold is_u in R1, R2. change (8 * 4) with 32 in *.
  rewrite E1; cbn [mbind res_bind]. rewrite E2; cbn [mbind res_bind]. rewrite E3; cbn [mbind res_bind].
  rewrite Z.shiftl_mul_pow2, u64_small by lia. case_match.
  - rewrite zread_Ok by lia. cbn [mbind res_bind]. eexists. split; [done|].
    cbn [data_id_list written packets]. split; [done|]. split; [done|].
    split; [by rewrite Hw; cbn [concat]; rewrite app_nil_r|]. rewrite Hpk, u64_small by lia. done.
  - exists s'. split; [done|]. split; [done|]. split; [done|]. cbn [concat]. rewrite app_nil_r.
    split; [done|]. rewrite Hpk. change (zlen []) with 0. lia.
Qed.

Lemma records_app st et l l' : records st et (l ++ l') = records st et l ++ records st et l'.
Proof. apply omap_app. Qed.

Lemma records_length st et l : zlen (records st et l) <= zlen l.
Proof.
  unfold records, zlen. induction l as [|v l IH]; cbn [omap list_omap]; [done|].
  destruct (record_at st et v); cbn [length]; lia.
Qed.

(** What a part of the run does to the vectors and the output. *)
Definition written_out (st et : Z) (s s' : Files) (values : list Z) : Prop :=
  files_ok s' /\ data_id_list s' = ids_of (data_id_list s) values /\
  written s' = written s ++ concat (records st et values) /\
  packets s' = packets s + zlen (records st et values).

Lemma written_out_app st et s s1 s2 l l' :
  written_out st et s s1 l -> written_out st et s1 s2 l' -> written_out st et s s2 (l ++ l').
Proof.
  intros (_ & I1 & W1 & P1) (F2 & I2 & W2 & P2). split; [done|]. unfold ids_of in *. rewrite foldl_app, records_app.
  rewrite concat_app, zlen_app. split; [congruence|]. split; [by rewrite W2, W1, app_assoc|]. lia.
Qed.

Lemma output_packets_ok st et values : forall s,
  files_ok s -> Forall position_ok values -> packets s + zlen values < 2 ^ 64 -> 0 <= packets s ->
  exists s', output_packets st et s values = Ok (true, s') /\ written_out st et s s' values.
Proof.
  induction values as [|v values IH]; intros s Hs Hv Hp Hp0; cbn [output_packets].
  { exists s. split; [done|]. split; [done|]. split; [done|]. cbn. rewrite app_nil_r. split; [done|].
    change (zlen []) with 0. lia. }
  apply Forall_cons_1 in Hv as [Hv Hvs]. rewrite zlen_cons in Hp. pose proof (zlen_nonneg values).
  destruct (output_packet_ok st et s v Hs Hv ltac:(lia) Hp0) as (s1 & -> & Hs1 & Hi1 & Hw1 & Hp1).
  pose proof (records_length st et [v]) as Hl1. change (zlen [v]) with 1 in Hl1.
  pose proof (zlen_nonneg (records st et [v])). cbn [mbind res_bind].
  destruct (IH s1 Hs1 Hvs ltac:(lia) ltac:(lia)) as (s2 & -> & H2). exists s2. split; [done|].
  apply (written_out_app st et s s1 s2 [v] values); [|done]. by split.
Qed.

Lemma output_answers_ok st et l : forall s,
  files_ok s -> Forall position_ok (concat (pointers <$> l)) ->
  packets s + zlen (concat (pointers <$> l)) < 2 ^ 64 -> 0 <= packets s ->
  exists s', output_answers st et s l = Ok (true, s') /\ written_out st et s s' (concat (pointers <$> l)).
Proof.
  induction l as [|a l IH]; intros s Hs Hv Hp Hp0; cbn [output_answers].
  { destruct (output_packets_ok st et [] s Hs) as (s' & E & H'); [done|done|done|]. injection E as <-. eauto. }
  cbn [fmap list_fmap concat] in *. apply Forall_app in Hv as [Ha Hv]. rewrite zlen_app in Hp.
  pose proof (zlen_nonneg (concat (pointers <$> l))).
  destruct (output_packets_ok st et (pointers a) s Hs Ha ltac:(lia) Hp0) as (s1 & E1 & H1).
  pose proof H1 as (Hs1 & _ & _ & Hp1). pose proof (records_length st et (pointers a)).
  pose proof (zlen_nonneg (records st et (pointers a))).
  destruct (IH s1 Hs1 Hv ltac:(lia) ltac:(lia)) as (s2 & E2 & Hw2).
  exists s2. split; [|by eapply written_out_app]. destruct (zlen (pointers a) =? 0) eqn:E.
  - apply Z.eqb_eq in E. destruct (pointers a) as [|]; [|rewrite zlen_cons in E; pose proof (zlen_nonneg l0); lia].
    cbn [output_packets] in E1. injection E1 as <-. exact E2.
  - rewrite E1. exact E2.
Qed.

Lemma ids_of_NoDup l values : NoDup l -> NoDup (ids_of l values).
Proof.
  revert l. induction values as [|v values IH]; intros l Hl; cbn [ids_of foldl]; [done|].
  apply IH. unfold add_id. case_bool_decide; [done|]. apply NoDup_app. split; [done|].
  split; [set_solver|apply NoDup_singleton].
Qed.

(** When every position of an answer lies in a file that can be opened, the
    output holds exactly the records in the time window, in the order of the
    positions, counted, and every input file used was opened and closed once,
    the closing at the end. *)
Theorem output_file_holds_window st et l :
  Forall position_ok (concat (pointers <$> l)) -> zlen (concat (pointers <$> l)) < 2 ^ 64 ->
  let values := concat (pointers <$> l) in let ids := ids_of [] values in
  exists s, outputPacketToFile st et true l = Ok s /\
    written s = concat (records st et values) /\ packets s = zlen (records st et values) /\
    events s = (Opened <$> ids) ++ (Closed <$> ids) /\ NoDup ids.
Proof.
  intros Hv Hn values ids. assert (H0 : files_ok no_files) by done.
  destruct (output_answers_ok st et l no_files H0 Hv ltac:(cbn; lia) ltac:(cbn; lia)) as (s & E & (Hs & Hi & Hw & Hp)).
  unfold outputPacketToFile. cbn [negb]. rewrite E. cbn [mbind res_bind]. eexists. split; [done|].
  cbn [written packets events]. split; [done|]. split; [by rewrite Hp|].
  split; [|apply ids_of_NoDup; constructor]. rewrite (proj2 Hs), Hi. f_equal.
  cbn [data_id_list no_files]. fold values. change (ids_of [] values) with ids.
  induction ids as [|i l' IH]; [done|]. cbn [List.map concat fmap list_fmap]. by rewrite IH.
Qed.
End files.

(** ** [readPacket]

    The earlier form of [readPackets], which no code calls: one packet of an
    area of cells that is in memory as a whole.  [uninit] are the bytes of
    fresh memory; [delete] of the copy is taken for [delete[]].  The cell's
    tail is looked for at [offset / cell_size + cell_size - 8], where the
    quotient is not multiplied by the size of a cell again. *)
Section read_packet.
Context (uninit : Z -> list Z).

Definition cell_tail (buffer : list Z) (offset cell_size : Z) : res Z :=
  load 8 buffer (u64 (offset / cell_size + cell_size - 8)).

(** The pointer [packet] as the memory it points to, [packet_len] and [next]. *)
Definition locate_packet (offset : Z) (buffer : list Z) (cell_size : Z) : res (list Z * Z * Z) :=
  if cell_size =? 0 then Undef else
  let cell_pos := offset mod cell_size in
  if cell_size <? u64 (cell_pos + 16 + 8) then
    tail ← cell_tail buffer offset cell_size;
    let tmp_len := u64 (cell_size - cell_pos - 8) in
    h1 ← zread buffer offset tmp_len;
    h2 ← zread buffer tail (u64 (16 - tmp_len));
    let header := h1 ++ h2 in
    Ok (drop (Z.to_nat (tail + 16 - tmp_len)) buffer, le_val (take 4 (drop 8 header)), le_val (drop 12 header))
  else
    header ← zread buffer offset 16;
    let packet_len := le_val (take 4 (drop 8 header)) in
    let next := le_val (drop 12 header) in
    if cell_size <? u64 (cell_pos + 16 + 8 + packet_len) then
      tail ← cell_tail buffer offset cell_size;
      let tmp_len := u64 (cell_size - cell_pos - 8 - 16) in
      packet ← memcpy (uninit packet_len) 0 buffer (offset + 16) tmp_len;
      packet ← memcpy packet 0 buffer tail (u64 (packet_len - tmp_len));
      Ok (packet, packet_len, next)
    else Ok (drop (Z.to_nat (offset + 16)) buffer, packet_len, next).

(** What is printed and the distance that is returned. *)
Definition readPacket (offset : Z) (buffer : list Z) (cell_size : Z) : res (option Printed * Z) :=
  '(packet, _, next) ← locate_packet offset buffer cell_size;
  printed ← printPacket packet;
  Ok (printed, next).

(** A packet that lies in its cell is read as it was stored. *)
Lemma readPacket_inside pre header payload rest cell_size caplen next :
  Forall (is_u 8) header -> zlen header = 16 ->
  le_val (take 4 (drop 8 header)) = caplen -> le_val (drop 12 header) = next ->
  0 < cell_size < 2 ^ 63 -> 0 <= caplen -> zlen pre mod cell_size + 16 + caplen + 8 <= cell_size ->
  readPacket (zlen pre) (pre ++ header ++ payload ++ rest) cell_size =
    (fun p => (p, next)) <$> printPacket (payload ++ rest).
Proof.
  intros Hu Hh Hc Hn Hcs Hcap Hin. unfold readPacket, locate_packet.
  pose proof (Z.mod_pos_bound (zlen pre) cell_size ltac:(lia)). pose proof (zlen_nonneg pre).
  replace (cell_size =? 0) with false by (symmetry; apply Z.eqb_neq; lia).
  rewrite !u64_small by lia. replace (cell_size <? _) with false by (symmetry; apply Z.ltb_ge; lia).
  assert (E : zread (pre ++ header ++ payload ++ rest) (zlen pre) 16 = Ok header).
  { rewrite zread_Ok; [|lia|lia|rewrite !zlen_app; pose proof (zlen_nonneg (payload ++ rest)); rewrite zlen_app in *; lia].
    unfold zslice, zlen in *. rewrite Nat2Z.id, drop_app_length.
    replace (Z.to_nat 16) with (length header) by lia. by rewrite take_app_length. }
  rewrite E. cbn [mbind res_bind]. rewrite Hc, Hn, !u64_small by lia.
  replace (cell_size <? _) with false by (symmetry; apply Z.ltb_ge; lia). cbn [mbind res_bind].
  replace (drop _ _) with (payload ++ rest); [by destruct (printPacket _)|].
  rewrite app_assoc. unfold zlen in *. rewrite drop_app_ge by (rewrite length_app; lia).
  by replace (_ - _)%nat with O by (rewrite length_app; lia).
Qed.
End read_packet.

(** [clearTree] deletes every node of the tree exactly once. *)
Fixpoint addresses (node : QueryTreeNode) : list Z :=
  let 'QNode addr children := node in addr :: concat (List.map addresses children).

Lemma clearNode_all : forall node, clearNode node ≡ₚ addresses node.
Proof.
  fix IH 1. intros [addr children]. cbn [clearNode addresses]. rewrite <-Permutation_cons_append.
  apply perm_skip. induction children as [|c children IHc]; [done|]. cbn [List.map concat].
  by apply Permutation_app.
Qed.

Module DemoOutput.
(** Two input files: number 0 has a record of two bytes at time 5, number 1
    one of one byte at time 9. *)
Definition file (id : Z) : option (list Z) :=
  if id =? 0 then Some ([0; 0; 0; 0; 5; 0; 0; 0; 2; 0; 0; 0; 2; 0; 0; 0] ++ [71; 72])
  else if id =? 1 then Some ([0; 0; 0; 0; 9; 0; 0; 0; 1; 0; 0; 0; 1; 0; 0; 0] ++ [73])
  else None.
Definition yes (_ : Z) : bool := true.
Definition answer : list Answer := [mkAnswer 0 [2 ^ 48; 0]; mkAnswer 1 []; mkAnswer 2 [2 ^ 48]].

Lemma demo_positions : Forall (position_ok file yes yes) (concat (pointers <$> answer)).
Proof.
  repeat constructor; try (vm_compute; done); (eexists; split; [reflexivity|]; split;
    [repeat constructor; vm_compute; done|vm_compute; done]).
Qed.

Lemma output_file_holds_window_witness :
  exists s, outputPacketToFile file yes yes 6 10 true answer = Ok s /\ packets s = 2 /\
    events s = [Opened 1; Opened 0; Closed 1; Closed 0].
Proof.
  destruct (output_file_holds_window file yes yes 6 10 answer demo_positions) as (s & E & _ & Hp & He & _).
  - vm_compute. done.
  - exists s. split; [exact E|]. split; [rewrite Hp; vm_compute; done|rewrite He; vm_compute; done].
Defined.

(** A missing file ends the function without closing those that are open. *)
Lemma missing_file_leaks :
  (fun s => events s) <$> outputPacketToFile file yes yes 0 10 true [mkAnswer 0 [0; 2 ^ 49]] = Ok [Opened 0].
Proof. vm_compute. done. Qed.

(** In cell 1 of cells of 40 bytes the tail is read from byte 33, inside
    cell 0, where the cell's own tail is at byte 72. *)
Lemma readPacket_tail_misplaced buffer : cell_tail buffer 60 40 = load 8 buffer 33.
Proof. done. Qed.
End DemoOutput.
