(* ===== verification/EndToEnd.v ===== *)
(** * From the memory pools to the answer of a query

    The persister and the querier, put together: what was recorded for an IPv4
    address or a port is what the querier finds when it reads the persisted
    region back from the disk.  IPv6 addresses are left out, because
    [Querier::getOffsetList] searches their regions as if they were ports. *)
From S2P Require Import Prelude Util BitMap PrefixBloom BlockBuffer IndexWrite MemoryPool PoolRecords IndexBuffer Disk Pipeline Persist QueryTree Querier.
From Stdlib Require Import ZArith Lia.

(** ** Searching a sorted region *)
Section search.
Context {K : Type} `{EqDecision K, CppKeyLaws K, KeyBytesLaws K}.

(** A search of a sorted region: the values of the key's records. *)
Lemma search_sorted (before : list (K * Z)) buf base len key :
  Forall record_ok before -> 0 <= base -> base + len <= zlen buf ->
  len = zlen before * record_size (key_len (K := K)) ->
  let after := zslice base len buf in
  records_dec (length before) after ≡ₚ records_dec (length before) (records_enc before) ->
  sorted_keys (records_dec (K := K) (length before) after) ->
  exists l, binarySearch buf base len key [] = Ok l /\
    l ≡ₚ (filter (fun r => r.1 = key) before).*2.
Proof.
  intros Hok Hb Hf Hlen after Hperm Hsort. pose proof (record_size_pos (K := K)) as Hrs.
  assert (Hn : len / record_size (key_len (K := K)) = zlen before) by (rewrite Hlen; apply Z.div_mul; lia).
  assert (Hrecs : SearchProofs.recs (K := K) buf base (len / record_size (key_len (K := K))) =
    records_dec (length before) after).
  { unfold SearchProofs.recs. rewrite Hn, <-Hlen. f_equal. unfold zlen. lia. }
  pose proof (zlen_nonneg before). assert (0 <= len) by (rewrite Hlen; apply Z.mul_nonneg_nonneg; lia).
  destruct (SearchProofs.binarySearch_spec (K := K) buf base len key []) as [-> _];
    [lia|lia|lia|by rewrite Hrecs|].
  eexists. split; [done|]. cbn [app]. rewrite Hrecs.
  rewrite (list_filter_iff _ (fun r => r.1 = key)) by (intros r; apply key_eq_spec).
  rewrite Hperm. pose proof (records_dec_enc before [] Hok) as Hdec. rewrite app_nil_r in Hdec.
  by rewrite Hdec.
Qed.
End search.

(** ** Reading a region back *)
Section reading.
Context {R : Type} `{IoUringLaws R}.

(** The querier [q] can read the positions [first] to [last], and the disk
    holds [bytes] there: its index agent works with the block size of its
    reads, the blocks of the region lie in the agent's area and fit the index
    buffer, and the ring serves the one request for them. *)
Record region_readable (q : Querier R) (first last : Z) (bytes : list Z) (r r' : R) : Prop := {
  rr_wf : AgentProofs.wf (indexAgent q);
  rr_ring : Agent.ring (indexAgent q) = Some r;
  rr_quiet : quiet r;
  rr_disk : Agent.basic_offset (indexAgent q) + Agent.disk_size (indexAgent q) <= zlen (disk r);
  rr_bs : Agent.block_size (indexAgent q) = readBlockSize q;
  rr_area : last / readBlockSize q < Agent.block_num (indexAgent q);
  rr_fits : (last / readBlockSize q - first / readBlockSize q + 1) * readBlockSize q <= zlen (indexBuffer q);
  rr_bytes : zslice (Agent.basic_offset (indexAgent q) + first) (last - first) (disk r) = bytes;
  rr_served : exists got, served r (ReadReq
      ((last / readBlockSize q - first / readBlockSize q + 1) * readBlockSize q)
      (Agent.basic_offset (indexAgent q) + first / readBlockSize q * readBlockSize q)
      (first / readBlockSize q)) got r' }.

(** [getOffsetList] of one region reads its blocks and searches its bytes. *)
Lemma getOffsetList_region q k first last bytes r r' :
  region_readable q first last bytes r r' -> 0 <= first <= last -> last < 2 ^ 62 ->
  exists q1 base, 0 <= base /\ base + (last - first) <= zlen (indexBuffer q1) /\
    zslice base (last - first) (indexBuffer q1) = bytes /\ base = first mod readBlockSize q1 /\
    getOffsetList q k [first; last] =
      (l ← search_index q1 k first last []; Ok (l, q1)).
Proof.
  intros [Hw Hr Hq Hd Hbs Ha Hf Hb [got Hs]] Hfl Hsm. pose proof (AgentProofs.wf_bs _ Hw) as Hp. rewrite Hbs in Hp.
  set (rbs := readBlockSize q) in *. set (b := first / rbs) in *. set (e := last / rbs) in *.
  assert (Hbe : 0 <= b <= e) by (split; [apply Z.div_pos|apply Z.div_le_mono]; lia).
  pose proof (Z.div_mod first rbs ltac:(lia)) as Hdf. pose proof (Z.mod_pos_bound first rbs Hp) as Hmf.
  pose proof (Z.div_mod last rbs ltac:(lia)) as Hdl. pose proof (Z.mod_pos_bound last rbs Hp) as Hml.
  fold b in Hdf. fold e in Hdl.
  assert (Hfit : first mod rbs + (last - first) <= (e - b + 1) * rbs) by nia.
  destruct (AgentProofs.agent_read_returns_block (indexAgent q) r (indexBuffer q) 0) as (_ & Hread & _);
    try done. rewrite Hbs in Hread. specialize (Hread b e got r' Hbe Ha ltac:(lia) Hs).
  set (buf := zsplice _ _ _) in Hread.
  assert (Hzl : zlen (zslice (Agent.basic_offset (indexAgent q) + b * rbs) ((e - b + 1) * rbs) (disk r))
    = (e - b + 1) * rbs).
  { destruct Hw. rewrite Hbs in *. apply zlen_zslice; nia. }
  assert (Hlb : zlen buf = zlen (indexBuffer q)) by (apply zlen_zsplice; lia).
  exists (with_index q buf (Agent.with_ring (indexAgent q) r')), (first mod rbs).
  split; [lia|]. split; [cbn [with_index indexBuffer]; lia|]. split; [|split; [done|]].
  - cbn [with_index indexBuffer]. rewrite <-Hb.
    rewrite <-(zslice_zslice (first mod rbs) (last - first) 0 ((e - b + 1) * rbs)) by lia.
    assert (Hbuf : zslice 0 ((e - b + 1) * rbs) buf =
      zslice (Agent.basic_offset (indexAgent q) + b * rbs) ((e - b + 1) * rbs) (disk r)).
    { rewrite <-Hzl at 1. apply zslice_zsplice_same; lia. }
    rewrite Hbuf. destruct Hw. rewrite zslice_zslice by nia. f_equal. lia.
  - unfold getOffsetList, offset_loop. fold rbs b e. destruct (rbs =? 0) eqn:E0; [zlia|].
    assert (b < 2 ^ 62) by nia. destruct (MAX64 =? b) eqn:E1; [unfold MAX64 in E1; zlia|].
    rewrite Hread. cbn [mbind res_bind negb]. done.
Qed.
End reading.

(** ** The regions of a persisted block *)

(** The part of a block's regions that belongs to one type. *)
Lemma regions_ok_elem D types t cur b dm : t ∈ types -> regions_ok D types cur b dm ->
  exists first kl, cur <= first /\ first + zlen (type_bytes D t) <= cur + types_len D types /\
    zget Persister.key_lens t = Ok kl /\ region_at dm t first (first + zlen (type_bytes D t)) /\
    sorted_records kl (type_bytes D t) (range b first (zlen (type_bytes D t))).
Proof.
  intros Ht. revert cur. induction types as [|t' types IH]; intros cur; [by apply not_elem_of_nil in Ht|].
  cbn [regions_ok types_len foldr]. fold (types_len D types). intros ((kl & Hkl & Hso) & Hreg & Hrest).
  pose proof (types_len_nonneg D types). pose proof (zlen_nonneg (type_bytes D t')).
  apply elem_of_cons in Ht as [->|Ht]; [exists cur, kl; split_and!; [lia|lia|done..]|].
  destruct (IH Ht _ Hrest) as (first & kl' & H1 & H2 & Hr). exists first, kl'. split_and!; [lia|lia|apply Hr..].
Qed.

(** The keys of the types that the querier searches with their own width. *)
Definition short_key (t : IndexType) : option (KeyBytes Z) :=
  match t with
  | SRCIP | DSTIP => Some key4
  | SRCPORT | DSTPORT => Some key2
  | _ => None
  end.

Lemma search_short_key {R} `{IoUring R} (q : Querier R) t (kb : KeyBytes Z) key lo hi offsets :
  short_key t = Some kb -> key_ok key -> 0 <= lo <= hi -> hi < 2 ^ 62 ->
  search_index q (mkAtom (index_type_code t) (key_enc key)) lo hi offsets =
    binarySearch (H := Z_key) (H0 := kb) (indexBuffer q) (lo mod readBlockSize q) (hi - lo) key offsets.
Proof.
  intros Ht Hk Hl Hh. unfold search_index. rewrite u64_small by lia.
  destruct t; try discriminate Ht; injection Ht as <-; cbn [cachePos Querier.key key_enc key4 key2];
    cbv [index_type_code index_type Z.eqb Pos.eqb]; rewrite zread_Ok by (rewrite ?zlen_le_bytes; lia);
    rewrite zslice_full by (by rewrite zlen_le_bytes); cbn [mbind res_bind];
    by rewrite le_val_le_bytes by exact Hk.
Qed.

Section queries.
Context (hash_str : list Z -> Z) (hash_u64 : Z -> Z).
Context {R : Type} `{IoUringLaws R}.

(** What the querier finds of type [t] in the block whose metadata is [dm] in
    the table [d], when the index block buffer [b] has been written: if the
    block is the one it looks at and its Bloom filter lets the key pass, the
    region of the metadata is searched, and a search of a readable region for
    a key returns the positions recorded with the key, each as often as it
    was recorded. *)
Definition query_answers (kb : KeyBytes Z) (D : Z -> list (list (list Z))) (t : Z)
  (b : IndexB.IndexBlockBuffer) (d : DiskTable.DiskBuffer) (dm : DiskTable.DiskMeta) : Prop :=
  exists first last, region_at dm t first last /\
    (forall (q : Querier R) k, diskBuffer q = d -> zget (DiskTable.disk_metas d) 0 = Ok dm ->
      DiskTable.checkKey hash_str hash_u64 (Querier.bitmap q) d 0 (Querier.key k) (index_type t) = Ok true ->
      cachePos k = t -> getIndexRange hash_str hash_u64 q k = Ok [first; last]) /\
    (forall (q : Querier R) r r' (rs : list (Z * Z)) key,
      region_readable q first last (range b first (last - first)) r r' ->
      type_bytes D t = records_enc rs -> Forall record_ok rs -> key_ok key ->
      exists l q', getOffsetList q (mkAtom t (key_enc key)) [first; last] = Ok (l, q') /\
        l ≡ₚ (filter (fun r => r.1 = key) rs).*2).

Lemma getIndexRange_region (q : Querier R) k d dm first last :
  diskBuffer q = d -> zget (DiskTable.disk_metas d) 0 = Ok dm ->
  DiskTable.checkKey hash_str hash_u64 (Querier.bitmap q) d 0 (Querier.key k) (index_type (cachePos k)) = Ok true ->
  region_at dm (cachePos k) first last -> getIndexRange hash_str hash_u64 q k = Ok [first; last].
Proof.
  intros Hd Hdm Hck [H1 H2]. unfold getIndexRange. rewrite Hd, Hck. cbn [mbind res_bind negb].
  unfold DiskTable.checkKey in Hck. destruct (DiskTable.block_num d <=? 0) eqn:E; [done|].
  unfold DiskTable.getDiskMeta. rewrite (proj2 (Z.ltb_lt _ _)) by zlia.
  by rewrite Hdm; cbn [mbind res_bind]; rewrite H1; cbn [mbind res_bind]; rewrite H2.
Qed.

Lemma query_answers_sorted (kb : KeyBytes Z) D t b d dm first :
  short_key t = Some kb -> KeyBytesLaws Z -> IndexWrite.wf b ->
  let before := type_bytes D (index_type_code t) in let after := range b first (zlen before) in
  zlen before <= IndexB.buffer_size b -> 0 <= first -> first + zlen before < 2 ^ 62 ->
  region_at dm (index_type_code t) first (first + zlen before) ->
  (let n := Z.to_nat (zlen before / record_size (key_len (K := Z))) in
   records_dec (K := Z) n after ≡ₚ records_dec n before /\ sorted_keys (records_dec (K := Z) n after)) ->
  query_answers kb D (index_type_code t) b d dm.
Proof.
  intros Ht Hlaws Hw before after Hfit Hf0 Hsm Hreg [Hperm Hsort]. pose proof (record_size_pos (K := Z)) as Hpos.
  pose proof (zlen_nonneg before) as Hb0. exists first, (first + zlen before). split; [done|]. split.
  { intros q k Hd Hdm Hck Hpk. apply (getIndexRange_region q k d dm); try done; by rewrite Hpk. }
  intros q r r' rs key Hrr Hrs Hok Hk. pose proof (zlen_records_enc (K := Z) rs) as Hlen.
  fold before in Hrs. rewrite <-Hrs in Hlen.
  assert (Hn : Z.to_nat (zlen before / record_size (key_len (K := Z))) = length rs).
  { rewrite Hlen, Z.div_mul by lia. unfold zlen. lia. }
  rewrite Hn in Hperm, Hsort. rewrite Hrs in Hperm.
  replace (first + zlen before - first) with (zlen before) in Hrr by lia. fold after in Hrr.
  destruct (getOffsetList_region q (mkAtom (index_type_code t) (key_enc key)) first (first + zlen before)
    after r r') as (q1 & base & H1 & H2 & H3 & H4 & ->);
    [by replace (first + zlen before - first) with (zlen before) by lia|lia|lia|].
  rewrite (search_short_key q1 t kb key) by (done || lia).
  replace (first + zlen before - first) with (zlen before) in * by lia.
  destruct (search_sorted (K := Z) rs (indexBuffer q1) base (zlen before) key) as (l & E & Hl);
    try done; [by rewrite H3|by rewrite H3|].
  rewrite <-H4, E. by exists l, q1.
Qed.
End queries.

Section answers.
Context (std_sort : forall K, CppKey K -> list (K * Z) -> list (K * Z)).
Context (std_sort_perm : forall K (H : CppKey K) l, CppKeyLaws K -> std_sort K H l ≡ₚ l).
Context (std_sort_sorted : forall K (H : CppKey K) l, CppKeyLaws K -> sorted_keys (std_sort K H l)).
Context (hash_str : list Z -> Z) (hash_u64 : Z -> Z).
Context {R : Type} `{IoUringLaws R}.

(** C4: Nothing recorded of a flow's IPv4 addresses and ports is lost and
    nothing else is found.  When a block has been persisted in a state that is
    [persist_ready], its metadata names for each of these types a region, and
    the querier, reading that region back from a disk that holds the index
    block buffer's bytes there, returns for any key of the type exactly the
    positions recorded with that key in the memory pools, each as often as it
    was recorded.  IPv6 addresses are left out: the querier searches their
    regions with two-byte keys. *)
Theorem persisted_index_answers D s slot m dm : persist_ready D s slot m dm ->
  exists s' dm', Persister.persistMeta std_sort s slot = Ok s' /\
    zget (DiskTable.disk_metas (Persister.disk_buffer s')) (disk_block_id m) = Ok dm' /\
    forall t kb, short_key t = Some kb ->
      query_answers (R := R) hash_str hash_u64 kb D (index_type_code t)
        (Persister.index_block_buffer s') (Persister.disk_buffer s') dm'.
Proof.
  intros Hr. destruct (persistMeta_spec std_sort std_sort_perm std_sort_sorted D s slot m dm Hr)
    as (s' & dm' & E & Hdm & Hregs & Hsh & Hw' & _).
  exists s', dm'. split; [done|]. split; [done|]. intros t kb Ht.
  pose proof (pr_fit _ _ _ _ _ Hr) as Hfit. pose proof (pr_end _ _ _ _ _ Hr) as Hend.
  pose proof (pr_buffer _ _ _ _ _ Hr) as Hw. pose proof (ss_bufsize _ _ Hsh) as Hsz.
  pose proof (Z.mod_pos_bound (Persister.disk_write_pos s) _ (pr_size _ _ _ _ _ Hr)) as Hst.
  fold (start_pos s) in Hst.
  assert (Hbs : IndexB.block_size (Persister.index_block_buffer s)
    <= IndexB.buffer_size (Persister.index_block_buffer s)) by (destruct Hw; nia).
  assert (Hel : index_type_code t ∈ zseq INDEX_NUM).
  { rewrite zseq_types. destruct t; cbn [index_type_code]; [set_solver..|done]. }
  destruct (regions_ok_elem D _ _ _ _ _ Hel Hregs) as (first & kl & Hf1 & Hf2 & Hkl & Hreg & Hso).
  apply (query_answers_sorted hash_str hash_u64 kb D t _ _ _ first); try done; try lia.
  - destruct t; try discriminate Ht; injection Ht as <-; apply _.
  - destruct t; try discriminate Ht; injection Ht as <-; cbn in Hkl; injection Hkl as <-;
      destruct Hso as [(E2 & H1 & H2)|[(E2 & H1 & H2)|(E2 & H1 & H2)]]; done.
Qed.
End answers.

(** ** Witness: the port 0x0505, recorded with position 0x0505050505050505,
    is read back from a disk with blocks of 16 bytes *)
Definition demo_index_disk : list Z := replicate 32 9 ++ replicate 10 5 ++ replicate 38 9.
Definition demo_index_querier : Querier SimRing :=
  mkQuerier String.EmptyString String.EmptyString 0 0 0 16 64 64 192 new_QueryTree (replicate 64 0) (replicate 192 0)
    (DiskTable.mkDB 0 []) (from_res (mkBitMap ∅ 0 0 0 0) (new_BitMap true 8 1 1))
    (Agent.mkAgent 64 16 4 4 8 (Some (mkSim 4 demo_index_disk [] false)))
    (Agent.mkAgent 0 8 0 4 0 None) [].

Lemma demo_readable : region_readable demo_index_querier 24 34 (replicate 10 5)
  (mkSim 4 demo_index_disk [] false) (mkSim 4 demo_index_disk [] false).
Proof.
  split; try (vm_compute; (reflexivity || discriminate)).
  - split; vm_compute; (reflexivity || discriminate).
  - eexists. vm_compute. eexists _, 1, _, 0, _, _. repeat (split; [reflexivity || discriminate|]). reflexivity.
Qed.

Lemma persisted_index_answers_witness : exists s dm l q,
  Persister.persistMeta IndexProofs.insertion_sort demo_persist 1 = Ok s /\
  region_at dm 2 24 34 /\
  getOffsetList demo_index_querier (mkAtom 2 [5; 5]) [24; 34] = Ok (l, q) /\ l ≡ₚ [0x0505050505050505].
Proof.
  destruct (persisted_index_answers IndexProofs.insertion_sort IndexProofs.insertion_sort_perm
    IndexProofs.insertion_sort_sorted (fun _ => 0) id (R := SimRing) demo_D demo_persist 1
    (mkIBMeta demo_filter 7 1) demo_dm demo_persist_ready) as (s & dm & E & Hdm & Hans).
  destruct (Hans SRCPORT key2 eq_refl) as (first & last & Hreg & _ & Hq).
  exists s, dm. vm_compute in E. injection E as <-. vm_compute in Hdm. injection Hdm as <-.
  assert (first = 24) as -> by (destruct Hreg as [H _]; vm_compute in H; by injection H as <-).
  assert (last = 34) as -> by (destruct Hreg as [_ H]; vm_compute in H; by injection H as <-).
  destruct (Hq demo_index_querier (mkSim 4 demo_index_disk [] false) (mkSim 4 demo_index_disk [] false)
    [(0x0505, 0x0505050505050505)] 0x0505) as (l & q & El & Hl).
  - exact demo_readable.
  - reflexivity.
  - repeat constructor; discriminate.
  - split; [discriminate|reflexivity].
  - exists l, q. split; [vm_compute; reflexivity|]. split; [exact Hreg|]. split; [exact El|exact Hl].
Defined.
