(* ===== verification/Controller.v ===== *)
(** * The controller (dpdk_component/controller.cpp, dpdk_component/controller.hpp)

    The controller checks a configuration, builds every shared structure and
    every thread object, connects them, starts the threads and stops them.  A
    thread object that only points to shared structures is modelled by what
    it registered there: its thread number, the indexes of its agents or
    rings, and its core. *)
From S2P Require Import Prelude Util BitMap PrefixBloom RingBuffer BlockBuffer IndexWrite MemoryPool IndexBuffer Reader Disk Pipeline QueryTree Querier.
From stdpp Require Import strings.
From Stdlib Require Import ZArith Lia Sorted.
#[local] Open Scope Z_scope.

(** ** The configuration *)
Module Init.

Record InitData := mkInit {
  index_ring_capacity : Z;
  nb_rx : Z;
  eth_header_len : Z;
  hash_num : Z;
  data_disk_size : Z;
  data_block_size : Z;
  index_disk_size : Z;
  index_block_size : Z;
  disk_read_size : Z;
  memory_pool_capacity_each : Z;
  memory_pool_list_len_each : Z;
  data_block_cache_num : Z;
  index_buffer_cache_num : Z;
  index_block_cache_num : Z;
  delay_threshold : Z;
  bitmap_backup_col_num : Z;
  index_construct_thread_num : Z;
  index_persist_thread_num : Z;
  data_disk_manager_thread_num : Z;
  index_disk_manager_thread_num : Z;
  data_memory_manager_thread_num : Z;
  index_memory_manager_thread_num : Z;
  data_agent_num_each : Z;
  index_agent_num_each : Z;
  agent_ring_depth : Z;
  agent_ring_idle_time : Z;
  data_disk_name : string;
  data_disk_offset : Z;
  index_disk_name : string;
  index_disk_offset : Z;
  bind_core : bool;
  controller_core_id : Z;
  dpdk_core_id_list : list Z;
  packet_core_id_list : list Z;
  indexing_core_id_list : list Z;
  persisting_core_id_list : list Z;
  data_dumping_core_id_list : list Z;
  index_dumping_core_id_list : list Z;
  data_kernel_core_id_list : list Z;
  index_kernel_core_id_list : list Z;
  data_recycling_core_id_list : list Z;
  index_recycling_core_id_list : list Z }.

End Init.
Import Init.

(** ** The objects *)

(** What a memory mapping is for. *)
Inductive Mapping :=
| MBitMap | MRing (i : Z) | MPool (i : Z) | MIndexBuffer | MIndexBlocks | MDataBlocks | MDiskMeta | MQuerier.

(** A disk manager, a memory manager, an index generator. *)
Record DiskThread := mkDiskThread { dt_thread_id : Z; dt_agents : list Z; dt_core : option Z }.
Record MemoryThread := mkMemoryThread { mt_block_size : Z; mt_agents : list Z; mt_core : option Z }.
Record GeneratorThread := mkGeneratorThread { gt_thread_id : Z; gt_rings : list Z; gt_core : option Z }.

Section controller.
Context {R : Type} `{IoUring R}.
(** [open] with the flags of a raw disk; the outcome of each mapping; what
    uninitialised members hold; the network device. *)
Context (open_disk : string -> Z) (mmap_ok : Mapping -> bool).
Context (junk_ring : Z * Z * bool) (junk_node : NodeMeta) (junk_querier : Z * Z * Z).
Context (new_DPDK : InitData -> res unit).

Record Controller := mkController {
  data_disk_fd : Z;
  index_disk_fd : Z;
  member_index_disk_offset : Z;
  data_kernel_cores : list Z;
  index_kernel_cores : list Z;
  bitmap : BitMap;
  indexRings : list Spsc.PointerRingBuffer;
  indexMemoryPools : list Indexes.IndexMemoryPool;
  indexBuffer : IndexBuffer;
  indexBlockBuffer : IndexB.IndexBlockBuffer;
  dataBlockBuffer : Data.DataBlockBuffer;
  diskMeta : DiskTable.DiskBuffer;
  dataAgents : list (Agent.DiskAgent R);
  indexAgents : list (Agent.DiskAgent R);
  dataMemoryManagers : list MemoryThread;
  indexMemoryManagers : list MemoryThread;
  dataDiskManagers : list DiskThread;
  indexDiskManagers : list DiskThread;
  indexPersisters : list (Persister.IndexPersister * option Z);
  indexGenerators : list GeneratorThread;
  readers : list (DPDKReader * option Z);
  dataWritePos : Z;
  indexWritePos : Z;
  querierDataAgent : Agent.DiskAgent R;
  querierIndexAgent : Agent.DiskAgent R;
  querier : Querier R }.

(** A loop that pushes one object per index, threading a shared structure. *)
Fixpoint build {S A} (f : Z -> S -> res (A * S)) (ids : list Z) (s : S) : res (list A * S) :=
  match ids with
  | [] => Ok ([], s)
  | i :: ids => '(a, s) ← f i s; '(l, s) ← build f ids s; Ok (a :: l, s)
  end.

(** [if (bind_core) ... list\[i\]]: the index is not checked. *)
Definition core_of (d : InitData) (cores : list Z) (i : Z) : res (option Z) :=
  if bind_core d then c ← zget cores i; Ok (Some c) else Ok None.

(** ** [init], in the order of its statements *)

(** Do the two areas of one disk collide?  The first test adds the index size
    to the data offset, which was stored as the index offset before. *)
Definition areas_collide (d : InitData) : bool :=
  ((index_disk_offset d <? data_disk_offset d)
     && (data_disk_offset d <? u64 (data_disk_offset d + index_disk_size d)))
  || ((data_disk_offset d <? index_disk_offset d)
     && (index_disk_offset d <? u64 (data_disk_offset d + data_disk_size d)))
  || (index_disk_offset d =? data_disk_offset d).

Definition open_disks (d : InitData) : res (Z * Z * Z) :=
  let data_fd := open_disk (data_disk_name d) in
  if data_fd <? 0 then Throws else
  if bool_decide (index_disk_name d = data_disk_name d) then
    if areas_collide d then Throws else Ok (data_fd, data_fd, data_disk_offset d)
  else
    let index_fd := open_disk (index_disk_name d) in
    if index_fd <? 0 then Throws else Ok (data_fd, index_fd, index_disk_offset d).

Definition check_sizes (d : InitData) : res unit :=
  if data_block_size d =? 0 then Undef else
  if negb (data_disk_size d mod data_block_size d =? 0) then Throws else
  if index_block_size d =? 0 then Undef else
  if negb (index_disk_size d mod index_block_size d =? 0) then Throws else Ok ().

Definition data_blocks (d : InitData) : Z := data_disk_size d / data_block_size d.
Definition index_blocks (d : InitData) : Z := index_disk_size d / index_block_size d.

Definition make_rings (d : InitData) : res (list Spsc.PointerRingBuffer) :=
  mapM (fun i => Spsc.new_ring (mmap_ok (MRing i)) (index_ring_capacity d) junk_ring) (zseq (nb_rx d)).
Definition make_pools (d : InitData) : res (list Indexes.IndexMemoryPool) :=
  mapM (fun i => Indexes.new_IndexMemoryPool (mmap_ok (MPool i)) junk_node
                   (memory_pool_capacity_each d) (memory_pool_list_len_each d)) (zseq (nb_rx d)).

(** The agents of all managers of a kind. *)
Definition make_agents (num each size bs off depth : Z) : res (list (Agent.DiskAgent R)) :=
  mapM (fun _ => Agent.new_DiskAgent size bs off depth) (zseq (u32 (each * num))).

(** The loop that hands [each] agents to manager [i]: the vector is indexed
    without a check. *)
Definition agents_of (agents : list (Agent.DiskAgent R)) (each i : Z) : res (list Z) :=
  mapM (fun j => let k := u32 (u32 (i * each) + j) in _ ← zget agents k; Ok k) (zseq each).

Definition make_memory_managers (d : InitData) (num each bs : Z) (cores : list Z)
  (agents : list (Agent.DiskAgent R)) : res (list MemoryThread) :=
  mapM (fun i =>
    c ← core_of d cores i;
    l ← agents_of agents each i;
    Ok (mkMemoryThread (u32 bs) l c)) (zseq num).

(** A null table: what the managers of index blocks get. *)
Definition no_table : DiskTable.DiskBuffer := DiskTable.mkDB 0 [].

Definition make_data_disk_managers (d : InitData) (agents : list (Agent.DiskAgent R))
  (table : DiskTable.DiskBuffer) (b : Data.DataBlockBuffer)
  : res (list DiskThread * Data.DataBlockBuffer) :=
  build (fun i b =>
    m ← Manager.new_DiskManager (R := R) (data_disk_size d) (data_block_size d) (DataBuf b) table;
    match Manager.block_buffer m with
    | DataBuf b =>
        c ← core_of d (data_dumping_core_id_list d) i;
        l ← agents_of agents (data_agent_num_each d) i;
        Ok (mkDiskThread (Manager.thread_id m) l c, b)
    | _ => Undef
    end) (zseq (data_disk_manager_thread_num d)) b.

Definition make_index_disk_managers (d : InitData) (agents : list (Agent.DiskAgent R))
  (b : IndexB.IndexBlockBuffer) : res (list DiskThread * IndexB.IndexBlockBuffer) :=
  build (fun i b =>
    m ← Manager.new_DiskManager (R := R) (index_disk_size d) (index_block_size d) (IndexBuf b) no_table;
    match Manager.block_buffer m with
    | IndexBuf b =>
        c ← core_of d (index_dumping_core_id_list d) i;
        l ← agents_of agents (index_agent_num_each d) i;
        Ok (mkDiskThread (Manager.thread_id m) l c, b)
    | _ => Undef
    end) (zseq (index_disk_manager_thread_num d)) b.

(** The persisters get the size of the data disk. *)
Definition make_persisters (d : InitData) (ib : IndexBuffer) (ibb : IndexB.IndexBlockBuffer)
  : res (list (Persister.IndexPersister * option Z) * (IndexBuffer * IndexB.IndexBlockBuffer)) :=
  build (fun i '(ib, ibb) =>
    c ← core_of d (persisting_core_id_list d) i;
    '(p, ib, ibb) ← Persister.new_IndexPersister (data_disk_size d) (data_block_size d) ib ibb;
    Ok (p, c, (ib, ibb))) (zseq (index_persist_thread_num d)) (ib, ibb).

(** [for(j = i; j < nb_rx; j += index_construct_thread_num)] *)
Fixpoint rings_from (fuel : nat) (j step n : Z) : list Z :=
  match fuel with
  | O => []
  | S fuel => if j <? n then j :: rings_from fuel (u64 (j + step)) step n else []
  end.

Definition make_generators (d : InitData) : res (list GeneratorThread) :=
  mapM (fun i =>
    c ← core_of d (indexing_core_id_list d) i;
    Ok (mkGeneratorThread i (rings_from (Z.to_nat (nb_rx d)) i (index_construct_thread_num d) (nb_rx d)) c))
    (zseq (index_construct_thread_num d)).

Definition make_readers (d : InitData) (b : Data.DataBlockBuffer) (pos : Z)
  : res (list (DPDKReader * option Z) * (Data.DataBlockBuffer * Z)) :=
  if nb_rx d =? 0 then Ok ([], (b, pos)) else
  build (fun i '(b, pos) =>
    c ← core_of d (packet_core_id_list d) i;
    '(r, b, pos) ← new_DPDKReader (eth_header_len d) (data_disk_size d) (data_block_size d)
                     (data_block_size d / nb_rx d) 0 i (u64 (delay_threshold d * data_block_size d)) b;
    Ok (r, c, (b, pos))) (zseq (nb_rx d)) (b, pos).

Definition init (d : InitData) : res Controller :=
  '(dfd, ifd, ioff) ← open_disks d;
  _ ← check_sizes d;
  bm ← new_BitMap (mmap_ok MBitMap) ROWS_NEEDED (data_blocks d) (bitmap_backup_col_num d);
  rings ← make_rings d;
  pools ← make_pools d;
  ib ← new_IndexBuffer (mmap_ok MIndexBuffer) bm (index_buffer_cache_num d) (data_blocks d) (hash_num d);
  ibb ← IndexB.new_IndexBlockBuffer (mmap_ok MIndexBlocks) (index_block_cache_num d) (index_block_size d)
          (index_blocks d) (index_persist_thread_num d);
  dbb ← Data.new_DataBlockBuffer (mmap_ok MDataBlocks) (data_block_cache_num d) (data_block_size d)
          (data_blocks d) (nb_rx d) (delay_threshold d);
  table ← DiskTable.new_DiskBuffer (mmap_ok MDiskMeta) (data_blocks d) (hash_num d);
  _ ← new_DPDK d;
  das ← make_agents (data_disk_manager_thread_num d) (data_agent_num_each d) (data_disk_size d)
          (data_block_size d) (data_disk_offset d) (agent_ring_depth d);
  ias ← make_agents (index_disk_manager_thread_num d) (index_agent_num_each d) (index_disk_size d)
          (index_block_size d) (index_disk_offset d) (agent_ring_depth d);
  dms ← make_memory_managers d (data_memory_manager_thread_num d) (data_agent_num_each d)
          (data_block_size d) (data_recycling_core_id_list d) das;
  ims ← make_memory_managers d (index_memory_manager_thread_num d) (index_agent_num_each d)
          (index_block_size d) (index_recycling_core_id_list d) ias;
  '(dds, dbb) ← make_data_disk_managers d das table dbb;
  '(ids, ibb) ← make_index_disk_managers d ias ibb;
  '(ips, (ib, ibb)) ← make_persisters d ib ibb;
  igs ← make_generators d;
  '(rs, (dbb, pos)) ← make_readers d dbb 0;
  if nb_rx d =? 0 then Undef else
  qda ← Agent.new_DiskAgent (data_disk_size d) (data_block_size d / nb_rx d) (data_disk_offset d)
          (agent_ring_depth d);
  qia ← Agent.new_DiskAgent (index_disk_size d) (disk_read_size d) (index_disk_offset d) (agent_ring_depth d);
  q ← new_Querier (mmap_ok MQuerier) junk_querier.1.1 junk_querier.1.2 junk_querier.2 table bm qia qda
        (index_block_size d) (data_block_size d) (disk_read_size d) (data_block_size d / nb_rx d);
  Ok (mkController dfd ifd ioff (data_kernel_core_id_list d) (index_kernel_core_id_list d)
        bm rings pools ib ibb dbb table das ias dms ims dds ids ips igs rs pos 0 qda qia q).

(** ** Starting and stopping *)

(** The threads, by their place in the controller's vectors. *)
Inductive Thread :=
| TReader (i : Z) | TGenerator (i : Z) | TDataDisk (i : Z) | TPersister (i : Z) | TIndexDisk (i : Z)
| TDataMemory (i : Z) | TIndexMemory (i : Z) | TQuerier.

Inductive Event := Start (t : Thread) | StopRing (i : Z) | AskStop (t : Thread) | Join (t : Thread).

(** The vectors of [std::thread] objects; a reader runs on an lcore of its own. *)
Record Threads := mkThreads {
  dataMemoryManagerThreads : list Thread;
  indexMemoryManagerThreads : list Thread;
  dataDiskManagerThreads : list Thread;
  indexDiskManagerThreads : list Thread;
  indexPersisterThreads : list Thread;
  indexGeneratorThreads : list Thread;
  readerLcores : list Thread }.

Definition no_threads : Threads := mkThreads [] [] [] [] [] [] [].

(** [std::thread t(&X::run, x)] for every object of a vector. *)
Definition spawn {A} (mk : Z -> Thread) (objs : list A) : list Thread := mk <$> zseq (zlen objs).

Definition with_agents (c : Controller) (das ias : list (Agent.DiskAgent R)) : Controller :=
  mkController (data_disk_fd c) (index_disk_fd c) (member_index_disk_offset c) (data_kernel_cores c)
    (index_kernel_cores c) (bitmap c) (indexRings c) (indexMemoryPools c) (indexBuffer c)
    (indexBlockBuffer c) (dataBlockBuffer c) (diskMeta c) das ias (dataMemoryManagers c)
    (indexMemoryManagers c) (dataDiskManagers c) (indexDiskManagers c) (indexPersisters c)
    (indexGenerators c) (readers c) (dataWritePos c) (indexWritePos c) (querierDataAgent c)
    (querierIndexAgent c) (querier c).

(** The kernel threads of the agents' rings; the list of cores is indexed
    whether or not threads are bound to cores. *)
Fixpoint kernel_runs (l : list (Agent.DiskAgent R)) (cores : list Z) (index : Z)
  : res (list (Agent.DiskAgent R)) :=
  match l with
  | [] => Ok []
  | a :: l =>
      core ← zget cores index;
      '(_, a) ← Agent.kernel_run a core;
      l ← kernel_runs l cores (u32 (index + 1));
      Ok (a :: l)
  end.

(** [RTE_LCORE_FOREACH_WORKER]: one reader per worker core; [launch] is the
    result of [rte_eal_remote_launch]. *)
Fixpoint launch_readers (launch : Z -> Z -> Z) (c : Controller) (lcores : list Z) (queue_id : Z)
  : res (list Thread) :=
  match lcores with
  | [] => Ok []
  | lcore :: lcores =>
      _ ← zget (readers c) queue_id;
      if launch queue_id lcore <? 0 then Throws else
      l ← launch_readers launch c lcores (u16 (queue_id + 1));
      Ok (TReader queue_id :: l)
  end.

Definition started (t : Threads) : list Thread :=
  dataMemoryManagerThreads t ++ indexMemoryManagerThreads t ++ dataDiskManagerThreads t
  ++ indexDiskManagerThreads t ++ indexPersisterThreads t ++ indexGeneratorThreads t ++ readerLcores t.

Definition threadsRun (launch : Z -> Z -> Z) (lcores : list Z) (c : Controller)
  : res (Controller * Threads * list Event) :=
  das ← kernel_runs (dataAgents c) (data_kernel_cores c) 0;
  ias ← kernel_runs (indexAgents c) (index_kernel_cores c) 0;
  let c := with_agents c das ias in
  rs ← launch_readers launch c lcores 0;
  let t := mkThreads (spawn TDataMemory (dataMemoryManagers c)) (spawn TIndexMemory (indexMemoryManagers c))
             (spawn TDataDisk (dataDiskManagers c)) (spawn TIndexDisk (indexDiskManagers c))
             (spawn TPersister (indexPersisters c)) (spawn TGenerator (indexGenerators c)) rs in
  Ok (c, t, Start <$> started t).

(** [objs\[i\]->asynchronousStop(); threads\[i\]->join();] for every object. *)
Definition stop_each {A} (mk : Z -> Thread) (objs : list A) (threads : list Thread) : res (list Event) :=
  l ← mapM (fun i => t ← zget threads i; Ok [AskStop (mk i); Join t]) (zseq (zlen objs));
  Ok (concat l).

Definition threadsStop (c : Controller) (t : Threads) : res (list Event) :=
  let readers_stop := (AskStop ∘ TReader <$> zseq (zlen (readers c))) ++ (Join <$> readerLcores t) in
  let rings_stop := StopRing <$> zseq (zlen (indexRings c)) in
  generators ← stop_each TGenerator (indexGenerators c) (indexGeneratorThreads t);
  data_disks ← stop_each TDataDisk (dataDiskManagers c) (dataDiskManagerThreads t);
  persisters ← stop_each TPersister (indexPersisters c) (indexPersisterThreads t);
  index_disks ← stop_each TIndexDisk (indexDiskManagers c) (indexDiskManagerThreads t);
  data_memory ← stop_each TDataMemory (dataMemoryManagers c) (dataMemoryManagerThreads t);
  index_memory ← stop_each TIndexMemory (indexMemoryManagers c) (indexMemoryManagerThreads t);
  Ok (readers_stop ++ rings_stop ++ generators ++ data_disks ++ persisters ++ index_disks
      ++ data_memory ++ index_memory).

Definition queryThreadRun (c : Controller) : res (list Event) :=
  _ ← Agent.kernel_run (querierIndexAgent c) 90;
  _ ← Agent.kernel_run (querierDataAgent c) 92;
  Ok [Start TQuerier].

(** [run]: everything is stopped before the querier is started. *)
Definition run (launch : Z -> Z -> Z) (lcores : list Z) (c : Controller)
  : res (Controller * Threads * list Event) :=
  '(c, t, starts) ← threadsRun launch lcores c;
  stops ← threadsStop c t;
  query ← queryThreadRun c;
  Ok (c, t, starts ++ stops ++ query ++ [Join TQuerier]).

(** ** Destruction *)
Inductive Object :=
| OThreadObject (t : Thread) | OStdThread (t : Thread) | OIndexAgent (i : Z) | ODataAgent (i : Z)
| OIndexBlockBuffer | ODataBlockBuffer | OIndexBuffer | ODiskMeta | OBitMap | ORing (i : Z) | ORings
| OPool (i : Z) | OPools | ODPDK | ODataWritePos | OIndexWritePos | OQuerierIndexAgent | OQuerierDataAgent.

(** The loop that deletes the objects of a vector and their threads; a thread
    that was not joined ends the process. *)
Definition delete_each {A} (mk : Z -> Thread) (objs : list A) (threads : list Thread) (joined : Thread -> bool)
  : res (list Object) :=
  l ← mapM (fun i =>
        t ← zget threads i;
        if joined t then Ok [OThreadObject (mk i); OStdThread t] else Throws) (zseq (zlen objs));
  Ok (concat l).

Definition clear (c : Controller) (t : Threads) (joined : Thread -> bool) (query_started : bool)
  : res (list Object) :=
  im ← delete_each TIndexMemory (indexMemoryManagers c) (indexMemoryManagerThreads t) joined;
  dm ← delete_each TDataMemory (dataMemoryManagers c) (dataMemoryManagerThreads t) joined;
  id ← delete_each TIndexDisk (indexDiskManagers c) (indexDiskManagerThreads t) joined;
  dd ← delete_each TDataDisk (dataDiskManagers c) (dataDiskManagerThreads t) joined;
  ip ← delete_each TPersister (indexPersisters c) (indexPersisterThreads t) joined;
  ig ← delete_each TGenerator (indexGenerators c) (indexGeneratorThreads t) joined;
  let threads := im ++ dm ++ id ++ dd ++ ip ++ ig ++ (OThreadObject ∘ TReader <$> zseq (zlen (readers c))) in
  let shared := (OIndexAgent <$> zseq (zlen (indexAgents c))) ++ (ODataAgent <$> zseq (zlen (dataAgents c)))
    ++ [OIndexBlockBuffer; ODataBlockBuffer; OIndexBuffer; ODiskMeta; OBitMap]
    ++ (ORing <$> zseq (zlen (indexRings c))) ++ [ORings]
    ++ (OPool <$> zseq (zlen (indexMemoryPools c))) ++ [OPools; ODPDK; ODataWritePos; OIndexWritePos] in
  query ← (if query_started then if joined TQuerier then Ok [OStdThread TQuerier] else Throws else Ok []);
  Ok (threads ++ shared ++ [OThreadObject TQuerier; OQuerierIndexAgent; OQuerierDataAgent] ++ query).
End controller.
Arguments Controller : clear implicits.

(** ** Loops that build a vector *)
Lemma build_spec {S A} (I : Z -> S -> Prop) (P : Z -> A -> Prop) (f : Z -> S -> res (A * S)) (num : Z) s :
  0 <= num -> I 0 s ->
  (forall i s, 0 <= i < num -> I i s -> exists a s', f i s = Ok (a, s') /\ P i a /\ I (i + 1) s') ->
  exists l s', build f (zseq num) s = Ok (l, s') /\ Forall2 P (zseq num) l /\ I num s'.
Proof.
  intros Hn H0 Hf.
  assert (H : forall (m : nat) (k : nat) s, Z.of_nat (k + m) = num -> I (Z.of_nat k) s ->
    exists l s', build f (Z.of_nat <$> seq k m) s = Ok (l, s') /\
      Forall2 P (Z.of_nat <$> seq k m) l /\ I num s').
  { induction m as [|m IH]; intros k s1 Hk Hi.
    - exists [], s1. split; [done|]. split; [constructor|]. by replace num with (Z.of_nat k) by lia.
    - destruct (Hf (Z.of_nat k) s1 ltac:(lia) Hi) as (a & s2 & E & Hp & Hi2).
      destruct (IH (Datatypes.S k) s2) as (l & s3 & El & Hl & Hi3); [lia| |].
      { by replace (Z.of_nat (Datatypes.S k)) with (Z.of_nat k + 1) by lia. }
      exists (a :: l), s3. cbn [seq fmap list_fmap build]. rewrite E. cbn [mbind res_bind].
      change (list_fmap _ _ Z.of_nat (seq (Datatypes.S k) m)) with (Z.of_nat <$> seq (Datatypes.S k) m).
      rewrite El. cbn [mbind res_bind]. split; [done|]. split; [|done]. by constructor. }
  apply (H (Z.to_nat num) O s); [lia|done].
Qed.

(** [build_spec] for the loop in the goal. *)
Tactic Notation "use_build" uconstr(I) uconstr(P) :=
  match goal with |- context [build ?f (zseq ?n) ?s] => pose proof (build_spec I P f n s) as B end.

Lemma Forall2_fmap_eq {A B} (f : B -> A) l k : Forall2 (fun i a => f a = i) l k -> f <$> k = l.
Proof. induction 1; [done|]. simpl. by f_equal. Qed.

(** ** What the constructors establish *)
Lemma new_BitMap_ok rows disk backup :
  0 <= rows -> 0 <= disk -> 0 <= backup -> rows * (disk + backup) < 2 ^ 64 -> backup * 8 < 2 ^ 64 ->
  disk + backup < 2 ^ 64 -> (disk + backup) mod 8 = 0 -> backup * 8 <= disk + backup ->
  exists b, new_BitMap true rows disk backup = Ok b /\ BitMap.wf b /\ row_count b = rows /\
    col_count b = disk + backup /\ forall r c, cell b r c = false.
Proof.
  intros Hr Hd Hb Hf Hb8 Hc Hm Hle.
  assert (E : exists b, new_BitMap true rows disk backup = Ok b).
  { unfold new_BitMap. rewrite (u64_small (disk + backup)), u64_small by lia.
    rewrite Hm. cbn [Z.eqb negb]. rewrite (proj2 (Z.ltb_ge _ _)) by lia. eauto. }
  destruct E as (b & E). destruct (new_BitMap_cell _ _ _ _ _ E) as (Hw & Hce & Hrc & Hcc & _).
  - done.
  - by rewrite u64_small by lia.
  - exists b. rewrite u64_small in Hcc by lia. done.
Qed.

Lemma new_IndexBuffer_ok bm total disk k :
  BitMap.wf bm -> ROWS_NEEDED <= row_count bm < 2 ^ 64 -> 0 < total -> total <= col_count bm -> disk mod total = 0 ->
  exists ib, new_IndexBuffer true bm total disk k = Ok ib /\ total_block_num ib = total /\
    index_check_ids ib = [] /\
    forall i, 0 <= i < total -> exists m, zget (metas ib) i = Ok m /\
      disk_block_id m = i /\ index_count m = 0 /\ filter_ok (bloomFilterMeta m) bm.
Proof.
  intros Hw Hr Ht Hc Hm. unfold new_IndexBuffer. rewrite (proj2 (Z.eqb_neq total 0)), Hm by lia.
  eexists. split; [done|]. split; [done|]. split; [done|]. cbn [metas]. intros i Hi.
  exists (init_meta bm k i). split.
  { apply zget_Ok. split; [lia|]. unfold zseq. rewrite !list_lookup_fmap, lookup_seq_lt by lia.
    simpl. do 2 f_equal. lia. }
  split; [done|]. split; [done|]. unfold init_meta, setWritingCol. cbn. unfold getColCount.
  rewrite (proj2 (Z.leb_gt (col_count bm) i)) by lia. split; cbn; [done|done|lia|done].
Qed.

Lemma new_IndexBlockBuffer_ok total bs disk threads :
  0 < total -> 0 < bs -> total * bs < 2 ^ 62 -> disk < 2 ^ 62 -> total < 2 ^ 60 -> bs < 2 ^ 62 ->
  Z.land (total * bs) (total * bs - 1) = 0 -> total * DISK_BLOCK_TIMES < disk ->
  exists b, IndexB.new_IndexBlockBuffer true total bs disk threads = Ok b /\ IndexWrite.wf b /\
    IndexB.total_block_num b = total /\ IndexB.block_size b = bs /\ IndexB.disk_block_num b = disk /\
    IndexB.disk_write_ids b = [] /\ IndexB.block_check_ids b = [].
Proof.
  unfold DISK_BLOCK_TIMES. intros Ht Hb Hm Hd Ht60 Hb62 Hp Hk. unfold IndexB.new_IndexBlockBuffer, DISK_BLOCK_TIMES.
  rewrite !u64_small by (rewrite ?u64_small; nia). rewrite Hp. cbn [Z.eqb negb].
  rewrite (proj2 (Z.leb_gt _ _)) by lia. eexists. split; [done|]. split; [|done].
  split; cbn; try done; try lia.
  - rewrite zlen_replicate. lia.
  - by apply Forall_replicate.
  - rewrite zlen_zseq; lia.
Qed.

Lemma new_DataBlockBuffer_ok total bs disk rss delayed :
  0 < total -> 0 < bs -> 0 < rss -> 0 < bs / rss ->
  total * bs < 2 ^ 62 -> disk < 2 ^ 62 -> total * rss < 2 ^ 62 -> total < 2 ^ 60 ->
  Z.land (total * bs) (total * bs - 1) = 0 -> total * DISK_BLOCK_TIMES < disk ->
  exists b, Data.new_DataBlockBuffer true total bs disk rss delayed = Ok b /\ DataProofs.wf b /\
    Data.total_block_num b = total /\ Data.block_size b = bs /\ Data.disk_block_num b = disk /\
    Data.rss_num b = rss /\ Data.disk_write_ids b = [] /\ Data.block_check_ids b = [].
Proof.
  unfold DISK_BLOCK_TIMES. intros Ht Hb Hr Hc Hm Hd Hcs Ht60 Hp Hk.
  assert (E : exists b, Data.new_DataBlockBuffer true total bs disk rss delayed = Ok b /\
    Data.rss_num b = rss /\ Data.disk_write_ids b = []).
  { unfold Data.new_DataBlockBuffer, DISK_BLOCK_TIMES.
    rewrite !(u64_small (total * bs)), !(u64_small (total * bs - 1)), (u64_small (total * 4)) by nia. rewrite Hp. cbn [Z.eqb negb].
    rewrite (proj2 (Z.leb_gt _ _)) by lia. by eexists. }
  destruct E as (b & E & Hrs & Hw0). destruct (DataProofs.new_wf _ _ _ _ _ _ E) as (Hw & E1 & E2 & E3 & E4 & _); try done.
  exists b. done.
Qed.

Lemma new_pools_ok junk pc len mem i n : 0 < len ->
  exists l, Indexes.new_pools junk pc len mem i n = Ok l /\ length l = n.
Proof.
  intros Hl. revert mem i. induction n as [|n IH]; intros mem i; [by exists []|].
  cbn [Indexes.new_pools].
  assert (Hu : 0 < Indexes.unit_of i) by (unfold Indexes.unit_of; repeat case_test; lia).
  unfold new_MemoryPool at 1. rewrite (proj2 (Z.eqb_neq _ 0)), Z.mod_mul by lia. cbn [Z.eqb negb].
  rewrite zset_Ok by (rewrite zlen_replicate; lia). cbn [mbind res_bind].
  edestruct IH as (l & -> & Hlen). eexists. split; [done|]. simpl. by rewrite Hlen.
Qed.

(** ** The connected system *)
Section system.
Context {R : Type} `{IoUring R}.
Context (open_disk : string -> Z) (mmap_ok : Mapping -> bool).
Context (junk_ring : Z * Z * bool) (junk_node : NodeMeta) (junk_querier : Z * Z * Z).
Context (new_DPDK : InitData -> res unit).

(** A list of cores is long enough, when threads are bound to cores. *)
Definition enough_cores (d : InitData) (cores : list Z) (n : Z) : Prop :=
  bind_core d = true -> n <= zlen cores.

(** A configuration that fits: what the operating system and the device are
    asked for succeeds, sizes are multiples of each other where the code
    needs it, and there are agents, cores and thread slots for every thread. *)
Record config_ok (d : InitData) : Prop := {
  cf_data_open : 0 <= open_disk (data_disk_name d);
  cf_index_open : 0 <= open_disk (index_disk_name d);
  cf_areas : index_disk_name d = data_disk_name d -> areas_collide d = false;
  cf_map : forall m, mmap_ok m = true;
  cf_dpdk : new_DPDK d = Ok ();
  cf_rx : 0 < nb_rx d <= data_block_cache_num d;
  cf_rx16 : nb_rx d < 2 ^ 16;
  cf_data : 0 < data_block_size d;
  cf_data_mod : data_disk_size d mod data_block_size d = 0;
  cf_data_pow : Z.land (data_disk_size d) (data_disk_size d - 1) = 0;
  cf_data_fit : data_disk_offset d + data_disk_size d + data_block_size d < 2 ^ 62;
  cf_index : 0 < index_block_size d;
  cf_index_mod : index_disk_size d mod index_block_size d = 0;
  cf_index_fit : index_disk_offset d + index_disk_size d + index_block_size d < 2 ^ 62;
  cf_nonneg : 0 <= data_disk_size d /\ 0 <= index_disk_size d /\
    0 <= data_disk_offset d /\ 0 <= index_disk_offset d;
  cf_read : 0 < disk_read_size d < 2 ^ 62 /\ index_disk_size d mod disk_read_size d = 0;
  cf_cell : 0 < data_block_size d / nb_rx d /\ data_block_size d mod (data_block_size d / nb_rx d) = 0 /\
    data_disk_size d mod (data_block_size d / nb_rx d) = 0;
  cf_cells : Z.land (data_disk_size d / (data_block_size d / nb_rx d))
                    (data_disk_size d / (data_block_size d / nb_rx d) - 1) = 0;
  cf_columns : 0 <= bitmap_backup_col_num d /\ data_blocks d + bitmap_backup_col_num d < 2 ^ 32 /\
    (data_blocks d + bitmap_backup_col_num d) mod 8 = 0 /\
    bitmap_backup_col_num d * 8 <= data_blocks d + bitmap_backup_col_num d;
  cf_ring : exists k, 3 <= k <= 31 /\ index_ring_capacity d = 2 ^ k;
  cf_pool : 0 < memory_pool_list_len_each d;
  cf_slots : 0 < index_buffer_cache_num d <= data_blocks d /\ data_blocks d mod index_buffer_cache_num d = 0;
  cf_index_cache : 0 < index_block_cache_num d < 2 ^ 60 /\
    index_block_cache_num d * index_block_size d < 2 ^ 62 /\
    Z.land (index_block_cache_num d * index_block_size d) (index_block_cache_num d * index_block_size d - 1) = 0 /\
    index_block_cache_num d * DISK_BLOCK_TIMES < index_blocks d;
  cf_data_cache : data_block_cache_num d < 2 ^ 46 /\
    data_block_cache_num d * data_block_size d < 2 ^ 62 /\
    Z.land (data_block_cache_num d * data_block_size d) (data_block_cache_num d * data_block_size d - 1) = 0 /\
    data_block_cache_num d * DISK_BLOCK_TIMES < data_blocks d;
  cf_generators : 0 <= index_construct_thread_num d < 2 ^ 32;
  cf_persisters : 0 <= index_persist_thread_num d <= index_block_cache_num d /\
    index_persist_thread_num d <= index_buffer_cache_num d;
  cf_data_disks : 0 <= data_disk_manager_thread_num d <= data_block_cache_num d;
  cf_index_disks : 0 <= index_disk_manager_thread_num d <= index_block_cache_num d;
  cf_data_memory : 0 <= data_memory_manager_thread_num d <= data_disk_manager_thread_num d;
  cf_index_memory : 0 <= index_memory_manager_thread_num d <= index_disk_manager_thread_num d;
  cf_data_agents : 0 <= data_agent_num_each d /\
    data_agent_num_each d * data_disk_manager_thread_num d < 2 ^ 32;
  cf_index_agents : 0 <= index_agent_num_each d /\
    index_agent_num_each d * index_disk_manager_thread_num d < 2 ^ 32;
  cf_cores : enough_cores d (packet_core_id_list d) (nb_rx d) /\
    enough_cores d (indexing_core_id_list d) (index_construct_thread_num d) /\
    enough_cores d (persisting_core_id_list d) (index_persist_thread_num d) /\
    enough_cores d (data_dumping_core_id_list d) (data_disk_manager_thread_num d) /\
    enough_cores d (index_dumping_core_id_list d) (index_disk_manager_thread_num d) /\
    enough_cores d (data_recycling_core_id_list d) (data_memory_manager_thread_num d) /\
    enough_cores d (index_recycling_core_id_list d) (index_memory_manager_thread_num d) }.

(** What the theorems about the parts assume of their shared structures. *)
Record connected (d : InitData) (c : Controller R) : Prop := {
  cn_bitmap : BitMap.wf (bitmap c) /\ forall row col, cell (bitmap c) row col = false;
  cn_rings : zlen (indexRings c) = nb_rx d /\
    Forall (fun r => Spsc.wf r /\ Spsc.contents r = []) (indexRings c);
  cn_pools : zlen (indexMemoryPools c) = nb_rx d /\
    Forall (fun p => zlen (Indexes.pool p) = INDEX_NUM) (indexMemoryPools c);
  cn_slots : forall i, 0 <= i < total_block_num (indexBuffer c) ->
    exists m, zget (metas (indexBuffer c)) i = Ok m /\ disk_block_id m = i /\ index_count m = 0 /\
      filter_ok (bloomFilterMeta m) (bitmap c);
  cn_table : DiskTable.wf (diskMeta c) /\ DiskTable.block_num (diskMeta c) = data_blocks d;
  cn_index_blocks : IndexWrite.wf (indexBlockBuffer c) /\
    IndexB.disk_block_num (indexBlockBuffer c) = index_blocks d;
  cn_readers : Forall (fun '(r, _) => ReaderProofs.buf_ok (dataBlockBuffer c) (thread_id r) (data_blocks d)
    (data_block_size d)) (readers c) /\ (thread_id ∘ fst <$> readers c) = zseq (nb_rx d);
  cn_cells : Forall (fun '(r, _) => cell_num r * cell_size r = data_disk_size d /\
    Reader.block_size r mod cell_size r = 0) (readers c);
  cn_data_disks : (dt_thread_id <$> dataDiskManagers c) = zseq (data_disk_manager_thread_num d) /\
    zlen (Data.block_check_ids (dataBlockBuffer c)) = data_disk_manager_thread_num d;
  cn_index_disks : (dt_thread_id <$> indexDiskManagers c) = zseq (index_disk_manager_thread_num d) /\
    zlen (IndexB.block_check_ids (indexBlockBuffer c)) = index_disk_manager_thread_num d;
  cn_persisters : (Persister.index_block_buffer_thread_id ∘ fst <$> indexPersisters c)
      = zseq (index_persist_thread_num d) /\
    (Persister.index_buffer_thread_id ∘ fst <$> indexPersisters c) = zseq (index_persist_thread_num d) /\
    zlen (IndexB.disk_write_ids (indexBlockBuffer c)) = index_persist_thread_num d;
  cn_agents : Forall AgentProofs.wf (dataAgents c) /\ Forall AgentProofs.wf (indexAgents c);
  cn_own_agents : concat (dt_agents <$> dataDiskManagers c) = zseq (zlen (dataAgents c)) /\
    concat (dt_agents <$> indexDiskManagers c) = zseq (zlen (indexAgents c));
  cn_recycle_agents : concat (mt_agents <$> dataMemoryManagers c)
      = zseq (data_agent_num_each d * data_memory_manager_thread_num d) /\
    concat (mt_agents <$> indexMemoryManagers c)
      = zseq (index_agent_num_each d * index_memory_manager_thread_num d);
  cn_own_rings : Forall2 (fun i g => NoDup (gt_rings g) /\
    forall j, j ∈ gt_rings g <-> 0 <= j < nb_rx d /\ j mod index_construct_thread_num d = i)
    (zseq (index_construct_thread_num d)) (indexGenerators c);
  cn_querier : AgentProofs.wf (querierDataAgent c) /\ AgentProofs.wf (querierIndexAgent c) /\
    Agent.block_size (querierDataAgent c) = cellSize (querier c) /\
    dataBufferSize (querier c) = zlen (dataBuffer (querier c)) }.

(** *** The registries of threads *)
Definition data_inv (d : InitData) (checks writes : Z) (b : Data.DataBlockBuffer) : Prop :=
  DataProofs.wf b /\ Data.total_block_num b = data_block_cache_num d /\
  Data.block_size b = data_block_size d /\ Data.disk_block_num b = data_blocks d /\
  Data.rss_num b = nb_rx d /\
  zlen (Data.block_check_ids b) = checks /\ zlen (Data.disk_write_ids b) = writes.
Definition index_inv (d : InitData) (checks writes : Z) (b : IndexB.IndexBlockBuffer) : Prop :=
  IndexWrite.wf b /\ IndexB.total_block_num b = index_block_cache_num d /\
  IndexB.block_size b = index_block_size d /\ IndexB.disk_block_num b = index_blocks d /\
  zlen (IndexB.block_check_ids b) = checks /\ zlen (IndexB.disk_write_ids b) = writes.

Lemma data_addCheckThread d n w b : data_inv d n w b -> n < data_block_cache_num d ->
  exists b', Data.addCheckThread b = (n, b') /\ data_inv d (n + 1) w b'.
Proof.
  intros (Hw & Ht & Hb & Hd & Hr & Hn & Hwr) Hlt. unfold Data.addCheckThread.
  rewrite Hn, Ht, (proj2 (Z.leb_gt _ _)) by lia. eexists. split; [done|].
  unfold data_inv, Data.with_check_ids. cbn. rewrite zlen_app, Hn.
  split; [destruct Hw; split; done|done].
Qed.
Lemma data_addWriteThread d n w b : data_inv d n w b -> w < data_block_cache_num d ->
  exists b', Data.addWriteThread b = (w, b') /\ data_inv d n (w + 1) b'.
Proof.
  intros (Hw & Ht & Hb & Hd & Hr & Hn & Hwr) Hlt. unfold Data.addWriteThread.
  rewrite Hwr, Ht, (proj2 (Z.leb_gt _ _)) by lia. eexists. split; [done|].
  unfold data_inv, Data.with_write_ids. cbn. rewrite zlen_app, Hwr.
  split; [destruct Hw; split; done|done].
Qed.
Lemma index_addCheckThread d n w b : index_inv d n w b -> n < index_block_cache_num d ->
  exists b', IndexB.addCheckThread b = (n, b') /\ index_inv d (n + 1) w b'.
Proof.
  intros (Hw & Ht & Hb & Hd & Hn & Hwr) Hlt. unfold IndexB.addCheckThread.
  rewrite Hn, Ht, (proj2 (Z.leb_gt _ _)) by lia. eexists. split; [done|].
  unfold index_inv, IndexB.with_check_ids. cbn. rewrite zlen_app, Hn.
  split; [destruct Hw; split; done|done].
Qed.
Lemma index_addWriteThread d n w b : index_inv d n w b -> w < index_block_cache_num d ->
  exists b', IndexB.addWriteThread b = (w, b') /\ index_inv d n (w + 1) b'.
Proof.
  intros (Hw & Ht & Hb & Hd & Hn & Hwr) Hlt. unfold IndexB.addWriteThread.
  rewrite Hwr, Ht, (proj2 (Z.leb_gt _ _)) by lia. eexists. split; [done|].
  unfold index_inv, IndexB.with_write_ids. cbn. rewrite zlen_app, Hwr.
  split; [destruct Hw; split; done|done].
Qed.

(** *** The loops *)
Lemma core_of_ok d cores n i : enough_cores d cores n -> 0 <= i < n -> exists c, core_of d cores i = Ok c.
Proof.
  unfold enough_cores, core_of. intros Hc Hi. destruct (bind_core d); [|by eexists].
  destruct (zget_lt cores i) as (c & ->); [specialize (Hc eq_refl); lia|]. by eexists.
Qed.

Lemma agents_of_ok (agents : list (Agent.DiskAgent R)) each num i :
  0 <= each -> each * num <= zlen agents < 2 ^ 32 -> 0 <= i < num ->
  agents_of agents each i = Ok (Z.add (i * each) <$> zseq each).
Proof.
  intros He Ha Hi. apply mapM_pure. intros j Hj%elem_of_zseq.
  cbv zeta. rewrite (u32_small (i * each)), u32_small by nia.
  by destruct (zget_lt agents (i * each + j)) as (a & ->); [nia|].
Qed.

Lemma concat_shifts each num : 0 <= each -> 0 <= num ->
  concat ((fun i => Z.add (i * each) <$> zseq each) <$> zseq num) = zseq (each * num).
Proof.
  intros He Hn. pattern num. apply natlike_ind; [by rewrite Z.mul_0_r| |done]. clear num Hn.
  intros n Hn IH. unfold Z.succ. rewrite zseq_S, fmap_app, concat_app, IH by done. simpl. rewrite app_nil_r.
  unfold zseq. replace (Z.to_nat (each * (n + 1))) with (Z.to_nat (each * n) + Z.to_nat each)%nat by nia.
  rewrite seq_app, fmap_app. f_equal. rewrite Nat.add_0_l.
  replace (seq (Z.to_nat (each * n)) (Z.to_nat each)) with
    (Nat.add (Z.to_nat (each * n)) <$> seq 0 (Z.to_nat each)) by (rewrite fmap_add_seq; f_equal; lia).
  rewrite <-!list_fmap_compose. apply list_fmap_ext. intros _ x _. simpl. nia.
Qed.

Lemma Forall2_concat_agents {A} (f : A -> list Z) l (k : list A) each num :
  0 <= each -> 0 <= num -> l = zseq num ->
  Forall2 (fun i a => f a = Z.add (i * each) <$> zseq each) l k -> concat (f <$> k) = zseq (each * num).
Proof.
  intros He Hn -> H'. rewrite <-concat_shifts by done. f_equal.
  induction H'; [done|]. simpl. by f_equal.
Qed.

Lemma rings_from_spec fuel j step n : 0 <= j -> 0 < step -> n < 2 ^ 32 -> step < 2 ^ 32 -> n - j <= Z.of_nat fuel ->
  NoDup (rings_from fuel j step n) /\
  forall x, x ∈ rings_from fuel j step n <-> j <= x < n /\ (x - j) mod step = 0.
Proof.
  revert j. induction fuel as [|fuel IH]; intros j Hj Hs Hn Hs32 Hf; cbn [rings_from].
  { split; [constructor|]. intros x. rewrite elem_of_nil. split; [done|lia]. }
  case_test; zbool; [|split; [constructor|intros x; rewrite elem_of_nil; split; [done|lia]]].
  rewrite u64_small by lia. destruct (IH (j + step)) as (Hnd & Hel); [lia..|].
  split.
  - constructor; [|done]. rewrite Hel. lia.
  - intros x. rewrite elem_of_cons, Hel. split.
    + intros [->|[? Hm]]; [rewrite Z.sub_diag, Z.mod_0_l; lia|]. split; [lia|].
      replace (x - j) with (x - (j + step) + 1 * step) by lia. by rewrite Z.mod_add by lia.
    + intros [? Hm]. destruct (decide (x = j)) as [->|]; [by left|right].
      apply Z.mod_divide in Hm as [q Hq]; [|lia].
      assert (1 <= q) by nia. split; [nia|]. replace (x - (j + step)) with ((q - 1) * step) by lia.
      apply Z.mod_mul. lia.
Qed.

Lemma make_rings_ok d : config_ok d -> exists l, make_rings mmap_ok junk_ring d = Ok l /\
  zlen l = nb_rx d /\ Forall (fun r => Spsc.wf r /\ Spsc.contents r = []) l.
Proof.
  intros []. destruct cf_ring0 as (k & Hk & Ek). unfold make_rings.
  destruct (Spsc.new_ring_wf k junk_ring Hk) as (r & E & Hw & _ & Hc).
  destruct (mapM_spec (fun _ r => Spsc.wf r /\ Spsc.contents r = [])
    (fun i => Spsc.new_ring (mmap_ok (MRing i)) (index_ring_capacity d) junk_ring) (zseq (nb_rx d)))
    as (l & El & Hl).
  { intros i _. rewrite cf_map0, Ek. by exists r. }
  exists l. split; [done|]. split.
  - unfold zlen. rewrite <-(Forall2_length _ _ _ Hl). apply (zlen_zseq (nb_rx d)). lia.
  - clear El. induction Hl; by constructor.
Qed.

Lemma make_pools_ok d : config_ok d -> exists l, make_pools mmap_ok junk_node d = Ok l /\
  zlen l = nb_rx d /\ Forall (fun p => zlen (Indexes.pool p) = INDEX_NUM) l.
Proof.
  intros []. unfold make_pools.
  destruct (mapM_spec (fun _ p => zlen (Indexes.pool p) = INDEX_NUM)
    (fun i => Indexes.new_IndexMemoryPool (mmap_ok (MPool i)) junk_node (memory_pool_capacity_each d)
       (memory_pool_list_len_each d)) (zseq (nb_rx d))) as (l & El & Hl).
  { intros i _. rewrite cf_map0. unfold Indexes.new_IndexMemoryPool. cbn [negb].
    edestruct new_pools_ok as (l & -> & Hlen); [exact cf_pool0|]. eexists. split; [done|].
    unfold zlen. cbn [Indexes.pool]. rewrite Hlen. done. }
  exists l. split; [done|]. split.
  - unfold zlen. rewrite <-(Forall2_length _ _ _ Hl). apply (zlen_zseq (nb_rx d)). lia.
  - clear El. induction Hl; by constructor.
Qed.

Lemma make_agents_ok num each size bs off depth :
  0 <= num -> 0 <= each -> each * num < 2 ^ 32 -> 0 < bs -> size mod bs = 0 -> 0 <= size -> 0 <= off ->
  off + size + bs < 2 ^ 62 ->
  exists l : list (Agent.DiskAgent R), make_agents num each size bs off depth = Ok l /\ zlen l = each * num /\
    Forall AgentProofs.wf l.
Proof.
  intros Hn He Hne Hb Hm Hs Ho Hf. unfold make_agents. rewrite u32_small by nia.
  destruct (mapM_spec (fun (_ : Z) (a : Agent.DiskAgent R) => AgentProofs.wf a)
    (fun _ => Agent.new_DiskAgent size bs off depth) (zseq (each * num))) as (l & El & Hl).
  { intros i _. destruct (Agent.new_DiskAgent (R := R) size bs off depth) as [a| | |] eqn:E;
      [|unfold Agent.new_DiskAgent in E; rewrite Hm, (proj2 (Z.eqb_neq bs 0)) in E by lia; discriminate E..].
    exists a. split; [done|]. eapply AgentProofs.new_DiskAgent_wf; [exact E|lia..]. }
  exists l. split; [done|]. split.
  - unfold zlen. rewrite <-(Forall2_length _ _ _ Hl). apply (zlen_zseq (each * num)). nia.
  - clear El. induction Hl; by constructor.
Qed.

Lemma make_memory_managers_ok d num each bs cores (agents : list (Agent.DiskAgent R)) :
  0 <= num -> 0 <= each -> each * num <= zlen agents < 2 ^ 32 -> enough_cores d cores num ->
  exists l, make_memory_managers d num each bs cores agents = Ok l /\
    concat (mt_agents <$> l) = zseq (each * num).
Proof.
  intros Hn He Ha Hc. unfold make_memory_managers.
  edestruct (mapM_spec (fun i m => mt_agents m = Z.add (i * each) <$> zseq each)) as (l & El & Hl);
    [|exists l; split; [exact El|by eapply Forall2_concat_agents]].
  intros i Hi%elem_of_zseq. destruct (core_of_ok d cores num i Hc Hi) as (c & ->). cbn [mbind res_bind].
  rewrite (agents_of_ok agents each num i) by done. cbn [mbind res_bind]. eexists. by split.
Qed.

Lemma make_data_disk_managers_ok d (agents : list (Agent.DiskAgent R)) table w b :
  config_ok d -> zlen agents = data_agent_num_each d * data_disk_manager_thread_num d -> data_inv d 0 w b ->
  exists l b', make_data_disk_managers d agents table b = Ok (l, b') /\
    (dt_thread_id <$> l) = zseq (data_disk_manager_thread_num d) /\
    concat (dt_agents <$> l) = zseq (zlen agents) /\ data_inv d (data_disk_manager_thread_num d) w b'.
Proof.
  intros [] Ha Hb. unfold make_data_disk_managers.
  use_build (fun i b => data_inv d i w b)
    (fun i m => dt_thread_id m = i /\ dt_agents m = Z.add (i * data_agent_num_each d) <$> zseq (data_agent_num_each d)).
  destruct B as (l & b' & El & Hl & Hb'); [lia|exact Hb| |].
  - intros i s Hi Hs. unfold Manager.new_DiskManager. rewrite (proj2 (Z.eqb_neq (data_block_size d) 0)) by lia.
    destruct (data_addCheckThread d i w s Hs ltac:(lia)) as (s' & -> & Hs').
    cbn [mbind res_bind Manager.block_buffer Manager.thread_id].
    destruct (core_of_ok d (data_dumping_core_id_list d) (data_disk_manager_thread_num d) i ltac:(tauto) Hi) as (c & ->).
    cbn [mbind res_bind]. rewrite (agents_of_ok agents _ (data_disk_manager_thread_num d) i) by lia.
    cbn [mbind res_bind]. eexists _, _. split; [done|]. by split.
  - exists l, b'. split; [exact El|]. split.
    + apply Forall2_fmap_eq. eapply Forall2_impl; [exact Hl|]. by intros ? ? [? ?].
    + split; [|done]. rewrite Ha. eapply Forall2_concat_agents; [lia|lia|done|].
      eapply Forall2_impl; [exact Hl|]. by intros ? ? [? ?].
Qed.

Lemma make_index_disk_managers_ok d (agents : list (Agent.DiskAgent R)) w b :
  config_ok d -> zlen agents = index_agent_num_each d * index_disk_manager_thread_num d -> index_inv d 0 w b ->
  exists l b', make_index_disk_managers d agents b = Ok (l, b') /\
    (dt_thread_id <$> l) = zseq (index_disk_manager_thread_num d) /\
    concat (dt_agents <$> l) = zseq (zlen agents) /\ index_inv d (index_disk_manager_thread_num d) w b'.
Proof.
  intros [] Ha Hb. unfold make_index_disk_managers.
  use_build (fun i b => index_inv d i w b)
    (fun i m => dt_thread_id m = i /\ dt_agents m = Z.add (i * index_agent_num_each d) <$> zseq (index_agent_num_each d)).
  destruct B as (l & b' & El & Hl & Hb'); [lia|exact Hb| |].
  - intros i s Hi Hs. unfold Manager.new_DiskManager. rewrite (proj2 (Z.eqb_neq (index_block_size d) 0)) by lia.
    destruct (index_addCheckThread d i w s Hs ltac:(lia)) as (s' & -> & Hs').
    cbn [mbind res_bind Manager.block_buffer Manager.thread_id].
    destruct (core_of_ok d (index_dumping_core_id_list d) (index_disk_manager_thread_num d) i ltac:(tauto) Hi) as (c & ->).
    cbn [mbind res_bind]. rewrite (agents_of_ok agents _ (index_disk_manager_thread_num d) i) by lia.
    cbn [mbind res_bind]. eexists _, _. split; [done|]. by split.
  - exists l, b'. split; [exact El|]. split.
    + apply Forall2_fmap_eq. eapply Forall2_impl; [exact Hl|]. by intros ? ? [? ?].
    + split; [|done]. rewrite Ha. eapply Forall2_concat_agents; [lia|lia|done|].
      eapply Forall2_impl; [exact Hl|]. by intros ? ? [? ?].
Qed.

(** The index buffer while persisters register. *)
Definition slots_inv (d : InitData) (checks : Z) (ib0 ib : IndexBuffer) : Prop :=
  metas ib = metas ib0 /\ total_block_num ib = index_buffer_cache_num d /\ zlen (index_check_ids ib) = checks.

Lemma make_persisters_ok d ib ibb n :
  config_ok d -> slots_inv d 0 ib ib -> index_inv d n 0 ibb ->
  exists l ib' ibb', make_persisters d ib ibb = Ok (l, (ib', ibb')) /\
    (Persister.index_block_buffer_thread_id ∘ fst <$> l) = zseq (index_persist_thread_num d) /\
    (Persister.index_buffer_thread_id ∘ fst <$> l) = zseq (index_persist_thread_num d) /\
    slots_inv d (index_persist_thread_num d) ib ib' /\ index_inv d n (index_persist_thread_num d) ibb'.
Proof.
  intros [] Hib Hibb. unfold make_persisters.
  use_build (fun i '(ib', ibb) => slots_inv d i ib ib' /\ index_inv d n i ibb)
    (fun i (p : Persister.IndexPersister * option Z) => Persister.index_block_buffer_thread_id p.1 = i /\
       Persister.index_buffer_thread_id p.1 = i).
  destruct B as (l & [ib' ibb'] & El & Hl & Hi1 & Hi2); [lia|by split| |].
  - intros i [ib1 ibb1] Hi [(Hm & Ht & Hc) H2].
    destruct (core_of_ok d (persisting_core_id_list d) (index_persist_thread_num d) i ltac:(tauto) Hi) as (c & ->).
    cbn [mbind res_bind]. unfold Persister.new_IndexPersister.
    assert (Hz : u64 (data_disk_size d - 1) = data_disk_size d - 1 \/ data_disk_size d = 0).
    { destruct (decide (data_disk_size d = 0)); [by right|left]. rewrite u64_small; lia. }
    rewrite (proj2 (Z.eqb_neq (data_block_size d) 0)) by lia.
    replace (Z.land (data_disk_size d) (u64 (data_disk_size d - 1))) with 0
      by (destruct Hz as [->| ->]; [done|by rewrite Z.land_0_l]).
    cbn [Z.eqb negb]. unfold addCheckThread. rewrite Hc, Ht, (proj2 (Z.leb_gt _ _)) by lia.
    destruct (index_addWriteThread d n i ibb1 H2 ltac:(lia)) as (ibb2 & -> & H2').
    cbn [mbind res_bind]. eexists _, _. split; [done|]. split; [by split|]. split; [|done].
    unfold slots_inv. cbn. rewrite zlen_app, Hc. by split.
  - exists l, ib', ibb'. split; [exact El|]. split; [|split; [|by split]];
      apply Forall2_fmap_eq; eapply Forall2_impl; try exact Hl; by intros ? ? [? ?].
Qed.

Lemma make_generators_ok d : config_ok d -> exists l, make_generators d = Ok l /\
  Forall2 (fun i g => NoDup (gt_rings g) /\
    forall j, j ∈ gt_rings g <-> 0 <= j < nb_rx d /\ j mod index_construct_thread_num d = i)
    (zseq (index_construct_thread_num d)) l.
Proof.
  intros []. unfold make_generators.
  apply (mapM_spec (fun i g => NoDup (gt_rings g) /\
    forall j, j ∈ gt_rings g <-> 0 <= j < nb_rx d /\ j mod index_construct_thread_num d = i)).
  intros i Hi%elem_of_zseq.
  destruct (core_of_ok d (indexing_core_id_list d) (index_construct_thread_num d) i ltac:(tauto) Hi) as (c & ->).
  cbn [mbind res_bind]. eexists. split; [done|]. cbn [gt_rings].
  destruct (rings_from_spec (Z.to_nat (nb_rx d)) i (index_construct_thread_num d) (nb_rx d)) as (Hnd & Hel); [lia..|].
  split; [done|]. intros j. rewrite Hel. set (T := index_construct_thread_num d) in *. split.
  - intros [? Hm]. apply Z.mod_divide in Hm as [q Hq]; [|lia]. split; [lia|].
    replace j with (i + q * T) by lia. rewrite Z.mod_add by lia. apply Z.mod_small. lia.
  - intros [? Hm]. pose proof (Z.div_mod j T ltac:(lia)). pose proof (Z.div_pos j T ltac:(lia) ltac:(lia)).
    split; [nia|]. replace (j - i) with (j / T * T) by lia. apply Z.mod_mul. lia.
Qed.

Lemma make_readers_ok d n b pos : config_ok d -> data_inv d n 0 b ->
  exists l b' pos', make_readers d b pos = Ok (l, (b', pos')) /\
    Forall2 (fun i (r : DPDKReader * option Z) => thread_id r.1 = i /\ cell_num r.1 * cell_size r.1 = data_disk_size d /\
      Reader.block_size r.1 mod cell_size r.1 = 0) (zseq (nb_rx d)) l /\
    data_inv d n (nb_rx d) b'.
Proof.
  intros [] Hb. unfold make_readers. rewrite (proj2 (Z.eqb_neq (nb_rx d) 0)) by lia.
  set (cs := data_block_size d / nb_rx d) in *.
  assert (Hcells : data_disk_size d = data_disk_size d / cs * cs).
  { pose proof (Z.div_mod (data_disk_size d) cs ltac:(lia)). lia. }
  assert (Hpow : Z.land (data_disk_size d / cs) (u64 (data_disk_size d / cs - 1)) = 0).
  { destruct (decide (data_disk_size d / cs = 0)) as [->|]; [done|].
    pose proof (Z.div_pos (data_disk_size d) cs ltac:(lia) ltac:(lia)).
    assert (data_disk_size d / cs <= data_disk_size d) by (apply Z.div_le_upper_bound; nia).
    rewrite u64_small; [tauto|lia]. }
  use_build (fun i '(b, pos) => data_inv d n i b)
    (fun i (r : DPDKReader * option Z) => thread_id r.1 = i /\ cell_num r.1 * cell_size r.1 = data_disk_size d /\
      Reader.block_size r.1 mod cell_size r.1 = 0).
  destruct B as (l & [b' pos'] & El & Hl & Hi); [lia|exact Hb| |by exists l, b', pos'].
  intros i [b1 pos1] Hi Hb1.
  destruct (core_of_ok d (packet_core_id_list d) (nb_rx d) i ltac:(tauto) Hi) as (c & ->).
  cbn [mbind res_bind]. unfold new_DPDKReader. fold cs.
  rewrite (proj2 (Z.eqb_neq cs 0)), (proj2 (Z.eqb_neq (data_block_size d) 0)), Hpow by lia.
  destruct cf_cell0 as (Hc0 & Hc1 & Hc2). rewrite Hc1. cbn [Z.eqb negb].
  destruct (data_addWriteThread d n i b1 Hb1 ltac:(lia)) as (b2 & -> & Hb2).
  cbn [mbind res_bind]. eexists _, _. split; [done|]. split; [|done]. by split; [|split].
Qed.

Lemma open_disks_ok d : config_ok d -> exists r, open_disks open_disk d = Ok r.
Proof.
  intros []. unfold open_disks. rewrite (proj2 (Z.ltb_ge _ 0)) by lia. case_bool_decide as E.
  - rewrite cf_areas0 by done. by eexists.
  - rewrite (proj2 (Z.ltb_ge _ 0)) by lia. by eexists.
Qed.

Lemma blocks_of size bs : 0 < bs -> 0 <= size -> size mod bs = 0 -> size / bs * bs = size /\ 0 <= size / bs <= size.
Proof.
  intros Hb Hs Hm. pose proof (Z.div_mod size bs ltac:(lia)).
  pose proof (Z.div_pos size bs ltac:(lia) ltac:(lia)).
  split; [lia|]. split; [done|]. apply Z.div_le_upper_bound; nia.
Qed.

Lemma new_DiskAgent_ok size bs off depth :
  0 < bs -> 0 <= size -> 0 <= off -> off + size + bs < 2 ^ 63 -> size mod bs = 0 ->
  exists a : Agent.DiskAgent R, Agent.new_DiskAgent size bs off depth = Ok a /\ AgentProofs.wf a /\
    Agent.block_size a = bs.
Proof.
  intros Hb Hs Ho Hf Hm.
  destruct (Agent.new_DiskAgent (R := R) size bs off depth) as [a| | |] eqn:E;
    [|unfold Agent.new_DiskAgent in E; rewrite Hm, (proj2 (Z.eqb_neq bs 0)) in E by lia; discriminate E..].
  exists a. split; [done|]. split; [by eapply AgentProofs.new_DiskAgent_wf|].
  unfold Agent.new_DiskAgent in E. rewrite Hm, (proj2 (Z.eqb_neq bs 0)) in E by lia. by injection E as <-.
Qed.

Lemma new_Querier_ok count st et table bm (ia da : Agent.DiskAgent R) ibs dbs rbs cs :
  0 <= dbs * 3 < 2 ^ 64 -> exists q, new_Querier true count st et table bm ia da ibs dbs rbs cs = Ok q /\
    cellSize q = cs /\ dataBufferSize q = zlen (dataBuffer q).
Proof.
  intros Hd. unfold new_Querier. cbn [negb]. eexists. split; [done|]. cbn [cellSize dataBufferSize dataBuffer].
  split; [done|]. rewrite zlen_replicate, u64_small by lia. lia.
Qed.

(** The tables of the readers, seen from the buffer they share. *)
Lemma readers_buf_ok d n b l : config_ok d -> data_inv d n (nb_rx d) b ->
  Forall2 (fun i (r : DPDKReader * option Z) => thread_id r.1 = i /\ cell_num r.1 * cell_size r.1 = data_disk_size d /\
    Reader.block_size r.1 mod cell_size r.1 = 0) (zseq (nb_rx d)) l ->
  Forall (fun '(r, _) => ReaderProofs.buf_ok b (thread_id r) (data_blocks d) (data_block_size d)) l /\
  (thread_id ∘ fst <$> l) = zseq (nb_rx d) /\
  Forall (fun '(r, _) => cell_num r * cell_size r = data_disk_size d /\ Reader.block_size r mod cell_size r = 0) l.
Proof.
  intros [] (Hw & Ht & Hbs & Hd & Hr & _ & Hwr) Hl.
  assert (Hrange : forall i, i ∈ zseq (nb_rx d) -> 0 <= i < nb_rx d) by (intros i; by rewrite elem_of_zseq).
  split; [|split].
  - pose proof (blocks_of (data_disk_size d) (data_block_size d) ltac:(lia) ltac:(lia) cf_data_mod0) as [Hbl _].
    apply Forall_forall. intros [r o] (k & Hk)%list_elem_of_lookup.
    destruct (Forall2_lookup_r _ _ _ _ _ Hl Hk) as (i & Hi & Hti & _). cbn in Hti.
    specialize (Hrange i (list_elem_of_lookup_2 _ _ _ Hi)).
    split; [done|lia|lia|done|done|]. unfold ReaderProofs.disk_bytes. rewrite Hd, Hbs.
    unfold data_blocks. rewrite Hbl. lia.
  - apply Forall2_fmap_eq. eapply Forall2_impl; [exact Hl|]. by intros ? ? (? & _).
  - clear -Hl. induction Hl as [|i [r o] ? ? (? & ? & ?)]; constructor; auto.
Qed.

Lemma new_data_inv d : config_ok d -> exists b,
  Data.new_DataBlockBuffer (mmap_ok MDataBlocks) (data_block_cache_num d) (data_block_size d)
    (data_blocks d) (nb_rx d) (delay_threshold d) = Ok b /\ data_inv d 0 0 b.
Proof.
  intros []. rewrite cf_map0.
  pose proof (blocks_of (data_disk_size d) (data_block_size d) ltac:(lia) ltac:(lia) cf_data_mod0) as [? ?].
  change (data_disk_size d / data_block_size d) with (data_blocks d) in *.
  destruct (new_DataBlockBuffer_ok (data_block_cache_num d) (data_block_size d) (data_blocks d) (nb_rx d)
    (delay_threshold d)) as (b & E & Hw & ? & ? & ? & ? & Hw0 & Hc0); [lia|lia|lia|tauto|tauto|lia|nia|lia|tauto|lia|].
  exists b. split; [exact E|]. unfold data_inv. by rewrite Hw0, Hc0.
Qed.

Lemma new_index_inv d : config_ok d -> exists b,
  IndexB.new_IndexBlockBuffer (mmap_ok MIndexBlocks) (index_block_cache_num d) (index_block_size d)
    (index_blocks d) (index_persist_thread_num d) = Ok b /\ index_inv d 0 0 b.
Proof.
  intros []. rewrite cf_map0.
  pose proof (blocks_of (index_disk_size d) (index_block_size d) ltac:(lia) ltac:(lia) cf_index_mod0) as [? ?].
  change (index_disk_size d / index_block_size d) with (index_blocks d) in *.
  destruct (new_IndexBlockBuffer_ok (index_block_cache_num d) (index_block_size d) (index_blocks d)
    (index_persist_thread_num d)) as (b & E & Hw & ? & ? & ? & Hw0 & Hc0); [lia|lia|lia|lia|lia|lia|tauto|lia|].
  exists b. split; [exact E|]. unfold index_inv. by rewrite Hw0, Hc0.
Qed.

Lemma check_sizes_ok d : config_ok d -> check_sizes d = Ok ().
Proof.
  intros []. unfold check_sizes.
  by rewrite (proj2 (Z.eqb_neq (data_block_size d) 0)), cf_data_mod0, (proj2 (Z.eqb_neq (index_block_size d) 0)),
    cf_index_mod0 by lia.
Qed.

(** The bit matrix and the slots of the index buffer. *)
Lemma new_bitmap_slots d : config_ok d -> exists bm ib,
  new_BitMap (mmap_ok MBitMap) ROWS_NEEDED (data_blocks d) (bitmap_backup_col_num d) = Ok bm /\
  BitMap.wf bm /\ (forall row col, cell bm row col = false) /\
  new_IndexBuffer (mmap_ok MIndexBuffer) bm (index_buffer_cache_num d) (data_blocks d) (hash_num d) = Ok ib /\
  slots_inv d 0 ib ib /\
  forall i, 0 <= i < index_buffer_cache_num d -> exists m, zget (metas ib) i = Ok m /\
    disk_block_id m = i /\ index_count m = 0 /\ filter_ok (bloomFilterMeta m) bm.
Proof.
  intros []. rewrite !cf_map0. assert (HR : ROWS_NEEDED = 8912896) by reflexivity.
  destruct (new_BitMap_ok ROWS_NEEDED (data_blocks d) (bitmap_backup_col_num d)) as (bm & E & Hw & Hr & Hc & Hce);
    [lia..|nia|lia|lia|tauto|tauto|].
  destruct (new_IndexBuffer_ok bm (index_buffer_cache_num d) (data_blocks d) (hash_num d)) as (ib & Ei & Ht & Hck & Hm);
    [done|lia|lia|lia|tauto|].
  exists bm, ib. split; [done|]. split; [done|]. split; [done|]. split; [done|]. split; [|done].
  split; [done|]. split; [done|]. by rewrite Hck.
Qed.

Lemma init_connects_lemma d : config_ok d ->
  exists c, init open_disk mmap_ok junk_ring junk_node junk_querier new_DPDK d = Ok c /\ connected d c.
Proof.
  intros Hd. unfold init.
  destruct (open_disks_ok d Hd) as ([[dfd ifd] ioff] & ->). cbn [mbind res_bind].
  rewrite (check_sizes_ok d Hd). cbn [mbind res_bind].
  destruct (new_bitmap_slots d Hd) as (bm & ib & -> & Hbm & Hcell & Eib & Hib & Hslots). cbn [mbind res_bind].
  destruct (make_rings_ok d Hd) as (rings & -> & Hrings). cbn [mbind res_bind].
  destruct (make_pools_ok d Hd) as (pools & -> & Hpools). cbn [mbind res_bind].
  rewrite Eib. cbn [mbind res_bind].
  destruct (new_index_inv d Hd) as (ibb & -> & Hibb). cbn [mbind res_bind].
  destruct (new_data_inv d Hd) as (dbb & -> & Hdbb). cbn [mbind res_bind].
  pose proof Hd as []. rewrite (cf_map0 MDiskMeta). unfold DiskTable.new_DiskBuffer. cbn [negb mbind res_bind].
  set (table := DiskTable.mkDB _ _). rewrite cf_dpdk0. cbn [mbind res_bind].
  pose proof (blocks_of (data_disk_size d) (data_block_size d) ltac:(lia) ltac:(lia) cf_data_mod0) as [? ?].
  destruct (make_agents_ok (data_disk_manager_thread_num d) (data_agent_num_each d) (data_disk_size d)
    (data_block_size d) (data_disk_offset d) (agent_ring_depth d)) as (das & -> & Hdl & Hdw); [lia..|].
  destruct (make_agents_ok (index_disk_manager_thread_num d) (index_agent_num_each d) (index_disk_size d)
    (index_block_size d) (index_disk_offset d) (agent_ring_depth d)) as (ias & -> & Hil & Hiw); [lia..|].
  cbn [mbind res_bind].
  destruct (make_memory_managers_ok d (data_memory_manager_thread_num d) (data_agent_num_each d)
    (data_block_size d) (data_recycling_core_id_list d) das) as (dms & -> & Hdms); [lia|lia|nia|tauto|].
  destruct (make_memory_managers_ok d (index_memory_manager_thread_num d) (index_agent_num_each d)
    (index_block_size d) (index_recycling_core_id_list d) ias) as (ims & -> & Hims); [lia|lia|nia|tauto|].
  cbn [mbind res_bind].
  destruct (make_data_disk_managers_ok d das table 0 dbb Hd Hdl Hdbb) as (dds & dbb1 & -> & Hddt & Hdda & Hdbb1).
  destruct (make_index_disk_managers_ok d ias 0 ibb Hd Hil Hibb) as (ids & ibb1 & -> & Hidt & Hida & Hibb1).
  cbn [mbind res_bind].
  destruct (make_persisters_ok d ib ibb1 _ Hd Hib Hibb1) as (ips & ib2 & ibb2 & -> & Hip1 & Hip2 & Hib2 & Hibb2).
  destruct (make_generators_ok d Hd) as (igs & Egs & Hgs).
  destruct (make_readers_ok d _ dbb1 0 Hd Hdbb1) as (rs & dbb2 & pos & Ers & Hrs & Hdbb2).
  cbn [mbind res_bind]. rewrite Egs. cbn [mbind res_bind]. rewrite Ers. cbn [mbind res_bind].
  rewrite (proj2 (Z.eqb_neq (nb_rx d) 0)) by lia. set (cs := data_block_size d / nb_rx d) in *.
  assert (cs <= data_block_size d) by (apply Z.div_le_upper_bound; nia).
  destruct (new_DiskAgent_ok (data_disk_size d) cs (data_disk_offset d) (agent_ring_depth d))
    as (qda & -> & Hqda & Hqbs); [lia..|tauto|].
  destruct (new_DiskAgent_ok (index_disk_size d) (disk_read_size d) (index_disk_offset d) (agent_ring_depth d))
    as (qia & -> & Hqia & _); [lia..|tauto|].
  cbn [mbind res_bind]. rewrite (cf_map0 MQuerier).
  destruct (new_Querier_ok junk_querier.1.1 junk_querier.1.2 junk_querier.2 table bm qia qda
    (index_block_size d) (data_block_size d) (disk_read_size d) cs) as (q & -> & Hqc & Hqb); [lia|].
  cbn [mbind res_bind]. eexists. split; [done|].
  destruct (readers_buf_ok d _ dbb2 rs Hd Hdbb2 Hrs) as (Hr1 & Hr2 & Hr3).
  destruct Hib2 as (Hib2m & Hib2t & _), Hibb2 as (Hibw & _ & _ & Hibd & Hibc & Hibwr), Hdbb2 as (_ & _ & _ & _ & _ & Hdc & _).
  split; cbn; try done.
  - intros i Hi. rewrite Hib2m. apply Hslots. lia.
  - split; [|done]. unfold DiskTable.wf. cbn. rewrite zlen_replicate. unfold data_blocks. lia.
  - split; [done|]. by rewrite Hqbs, Hqc.
Qed.

(** C1: A configuration that fits is accepted, and everything the theorems about
    the parts assume holds of the system that [init] builds: the bit matrix is
    empty and the filters of all slots can take any key, the rings are empty,
    both block buffers and all disk agents are well formed, every reader,
    disk manager and persister has a thread number of its own in each
    structure it registered with (a persister the same one in both), every
    agent belongs to exactly one disk manager, every ring to exactly one index
    generator, and the querier's cells have the size of its agent's blocks. *)
Theorem init_connects d : config_ok d ->
  exists c, init open_disk mmap_ok junk_ring junk_node junk_querier new_DPDK d = Ok c /\ connected d c.
Proof. apply init_connects_lemma. Qed.

(** *** The areas on a disk *)
Lemma areas_collide_iff d :
  0 <= data_disk_offset d -> 0 <= data_disk_size d -> 0 < index_disk_size d ->
  data_disk_offset d + data_disk_size d < 2 ^ 64 -> data_disk_offset d + index_disk_size d < 2 ^ 64 ->
  areas_collide d = false <-> data_disk_offset d < index_disk_offset d /\
    data_disk_offset d + data_disk_size d <= index_disk_offset d.
Proof.
  intros Ho Hs Hi H1 H2. unfold areas_collide. rewrite !u64_small by lia. split.
  - intros E. zbool. destruct (index_disk_offset d <? data_disk_offset d) eqn:E1; cbn [andb] in *; [zlia|].
    destruct (data_disk_offset d <? index_disk_offset d) eqn:E2; cbn [andb] in *; zlia.
  - intros [? ?]. rewrite (proj2 (Z.ltb_ge (index_disk_offset d) (data_disk_offset d))),
      (proj2 (Z.ltb_ge (index_disk_offset d) (data_disk_offset d + data_disk_size d))),
      (proj2 (Z.eqb_neq (index_disk_offset d) (data_disk_offset d))) by lia. by rewrite !andb_false_r.
Qed.

Lemma make_agents_fields num each size bs off depth (l : list (Agent.DiskAgent R)) :
  make_agents num each size bs off depth = Ok l ->
  Forall (fun a => Agent.block_size a = bs /\ Agent.basic_offset a = off /\ Agent.block_num a = size / bs) l.
Proof.
  unfold make_agents. generalize (zseq (u32 (each * num))). intros ids. revert l.
  induction ids as [|i ids IH]; intros l E; cbn [mapM] in E; [injection E as <-; constructor|].
  apply bind_Ok_iff in E as (a & Ea & E). apply bind_Ok_iff in E as (k & Ek & E). injection E as <-.
  constructor; [|by apply IH]. unfold Agent.new_DiskAgent in Ea. repeat (case_test; [discriminate|]).
  by injection Ea as <-.
Qed.

Lemma init_inv d c : init open_disk mmap_ok junk_ring junk_node junk_querier new_DPDK d = Ok c ->
  (index_disk_name d = data_disk_name d -> areas_collide d = false) /\ check_sizes d = Ok () /\
  Forall (fun a : Agent.DiskAgent R => Agent.block_size a = data_block_size d /\ Agent.basic_offset a = data_disk_offset d /\
    Agent.block_num a = data_disk_size d / data_block_size d) (dataAgents c) /\
  Forall (fun a : Agent.DiskAgent R => Agent.block_size a = index_block_size d /\ Agent.basic_offset a = index_disk_offset d /\
    Agent.block_num a = index_disk_size d / index_block_size d) (indexAgents c).
Proof.
  unfold init. intros E.
  apply bind_Ok_iff in E as ([[? ?] ?] & Eo & E). apply bind_Ok_iff in E as ([] & Es & E).
  do 8 apply bind_Ok_iff in E as (? & _ & E).
  apply bind_Ok_iff in E as (das & Ed & E). apply bind_Ok_iff in E as (ias & Ei & E).
  split; [|split; [done|]].
  - intros En. clear E. unfold open_disks in Eo. rewrite (bool_decide_true _ En) in Eo.
    repeat case_test; try discriminate; done.
  - do 2 apply bind_Ok_iff in E as (? & _ & E).
    apply bind_Ok_iff in E as ([? ?] & _ & E). apply bind_Ok_iff in E as ([? ?] & _ & E).
    apply bind_Ok_iff in E as ([? [? ?]] & _ & E). apply bind_Ok_iff in E as (? & _ & E).
    apply bind_Ok_iff in E as ([? [? ?]] & _ & E). case_test; [discriminate|].
    do 3 apply bind_Ok_iff in E as (? & _ & E). injection E as <-. cbn.
    split; by eapply make_agents_fields.
Qed.

(** C3: On a shared disk the blocks of the data agents lie before those of the
    index agents: in every accepted configuration no block of the one kind
    overlaps a block of the other.  (Configurations with the index area first
    are all refused, also when the areas do not overlap.) *)
Theorem accepted_areas_apart d c :
  init open_disk mmap_ok junk_ring junk_node junk_querier new_DPDK d = Ok c ->
  index_disk_name d = data_disk_name d ->
  0 <= data_disk_offset d -> 0 <= data_disk_size d -> 0 < data_block_size d -> 0 < index_block_size d ->
  0 < index_disk_size d -> data_disk_offset d + data_disk_size d < 2 ^ 64 ->
  data_disk_offset d + index_disk_size d < 2 ^ 64 -> index_disk_offset d + index_disk_size d < 2 ^ 64 ->
  data_disk_offset d + data_disk_size d <= index_disk_offset d /\
  forall (a a' : Agent.DiskAgent R) id id', a ∈ dataAgents c -> a' ∈ indexAgents c ->
    0 <= id < Agent.block_num a -> 0 <= id' < Agent.block_num a' ->
    u64 (u64 (id * Agent.block_size a) + Agent.basic_offset a) + Agent.block_size a
      <= u64 (u64 (id' * Agent.block_size a') + Agent.basic_offset a').
Proof.
  intros E En Ho Hs Hb Hib His H1 H2 H3. destruct (init_inv d c E) as (Hc & _ & Hda & Hia).
  apply areas_collide_iff in Hc as [Hlt Hle]; [|done..]. split; [done|].
  intros a a' id id' Ha Ha' Hid Hid'.
  rewrite Forall_forall in Hda, Hia. destruct (Hda a Ha) as (-> & -> & Hn). destruct (Hia a' Ha') as (-> & -> & Hn').
  rewrite Hn in Hid. rewrite Hn' in Hid'.
  pose proof (Z.mul_div_le (data_disk_size d) (data_block_size d) ltac:(lia)).
  pose proof (Z.mul_div_le (index_disk_size d) (index_block_size d) ltac:(lia)).
  rewrite (u64_small (id * _)), (u64_small (id' * _)) by nia. rewrite !u64_small by nia. nia.
Qed.
End system.

(** ** Stopping *)
Section stopping.
Context {R : Type} `{IoUring R}.

(** [x] happens before [y]. *)
Definition before (x y : Event) (l : list Event) : Prop :=
  exists i j : nat, (i < j)%nat /\ l !! i = Some x /\ l !! j = Some y.

(** What a thread produces for another one. *)
Inductive feeds : Thread -> Thread -> Prop :=
| feeds_entries i j : feeds (TReader i) (TGenerator j)
| feeds_data i j : feeds (TReader i) (TDataDisk j)
| feeds_indexed i j : feeds (TGenerator i) (TPersister j)
| feeds_counts i j : feeds (TDataDisk i) (TPersister j)
| feeds_index i j : feeds (TPersister i) (TIndexDisk j)
| feeds_data_writes i j : feeds (TDataDisk i) (TDataMemory j)
| feeds_index_writes i j : feeds (TIndexDisk i) (TIndexMemory j).

Definition stage (t : Thread) : Z :=
  match t with
  | TReader _ => 0 | TGenerator _ => 2 | TDataDisk _ => 3 | TPersister _ => 4 | TIndexDisk _ => 5
  | TDataMemory _ => 6 | TIndexMemory _ => 7 | TQuerier => 8
  end.
Definition event_stage (e : Event) : Z :=
  match e with Start t | AskStop t | Join t => stage t | StopRing _ => 1 end.
Definition joined (e : Event) : option Thread := match e with Join t => Some t | _ => None end.

Lemma feeds_stage x y : feeds x y -> stage x < stage y.
Proof. destruct 1; reflexivity. Qed.

Definition staged (l : list Event) : Prop := StronglySorted (fun x y => event_stage x <= event_stage y) l.

Lemma staged_before x y l : staged l -> x ∈ l -> y ∈ l -> event_stage x < event_stage y -> before x y l.
Proof.
  intros Hs (i & Hi)%list_elem_of_lookup (j & Hj)%list_elem_of_lookup Hlt. exists i, j. split; [|done].
  destruct (decide (i < j)%nat) as [|Hge]; [done|exfalso].
  destruct (decide (i = j)) as [->|]; [congruence + (rewrite Hi in Hj; injection Hj as ->; lia)|].
  assert (event_stage y <= event_stage x); [|lia].
  revert i j Hi Hj Hge n. induction Hs as [|e l _ IH Hall]; intros i j Hi Hj Hge Hne; [done|].
  destruct i as [|i]; [lia|]. destruct j as [|j].
  - injection Hj as ->. rewrite Forall_forall in Hall. apply Hall. by eapply list_elem_of_lookup_2.
  - apply (IH i j); [done|done|lia|lia].
Qed.

Lemma staged_app k l1 l2 : staged l1 -> staged l2 ->
  Forall (fun e => event_stage e <= k) l1 -> Forall (fun e => k < event_stage e) l2 -> staged (l1 ++ l2).
Proof.
  intros H1 H2 Hk1 Hk2. induction H1 as [|e l1 H1 IH Hall]; [done|].
  apply Forall_cons in Hk1 as [? Hk1]. constructor; [by apply IH|].
  apply Forall_app. split; [done|]. eapply Forall_impl; [exact Hk2|]. cbn. lia.
Qed.

Lemma staged_const k l : Forall (fun e => event_stage e = k) l -> staged l.
Proof.
  induction 1 as [|e l He Hl IH]; constructor; [done|]. eapply Forall_impl; [exact Hl|]. cbn. lia.
Qed.

(** The events of one vector. *)
Definition stop_events {A} (mk : Z -> Thread) (objs : list A) : list Event :=
  zseq (zlen objs) ≫= (fun i => [AskStop (mk i); Join (mk i)]).

Lemma stop_each_spawn {A} mk (objs : list A) : stop_each mk objs (spawn mk objs) = Ok (stop_events mk objs).
Proof.
  unfold stop_each, stop_events. rewrite (mapM_pure _ (fun i => [AskStop (mk i); Join (mk i)])).
  - cbn [mbind res_bind]. f_equal. induction (zseq _) as [|i l IH]; [done|]. cbn. by rewrite IH.
  - intros i Hi%elem_of_zseq. replace (zget (spawn mk objs) i) with (Ok (mk i)); [done|].
    symmetry. apply zget_Ok. split; [lia|]. unfold spawn, zseq. rewrite !list_lookup_fmap, lookup_seq_lt by lia.
    simpl. do 2 f_equal. lia.
Qed.

Lemma stop_events_stage {A} mk (objs : list A) k : (forall i, stage (mk i) = k) ->
  Forall (fun e => event_stage e = k) (stop_events mk objs).
Proof.
  intros Hk. unfold stop_events. apply Forall_bind, Forall_forall. intros i _. repeat constructor; apply Hk.
Qed.

Lemma stop_events_joined {A} mk (objs : list A) : omap joined (stop_events mk objs) = spawn mk objs.
Proof. unfold stop_events, spawn. induction (zseq _) as [|i l IH]; [done|]. cbn. f_equal. exact IH. Qed.

Lemma stop_events_asked {A} mk (objs : list A) x pre post : x ∈ spawn mk objs ->
  before (AskStop x) (Join x) (pre ++ stop_events mk objs ++ post).
Proof.
  unfold spawn, stop_events. intros (i & -> & (l1 & l2 & ->)%list_elem_of_split)%list_elem_of_fmap.
  rewrite bind_app, bind_cons. set (a := (l1 ≫= _)). set (b := (l2 ≫= _)).
  exists (length (pre ++ a)), (S (length (pre ++ a))). split; [lia|].
  rewrite <-!app_assoc, !(app_assoc pre a). cbn [app].
  split; [by rewrite list_lookup_middle|]. rewrite lookup_app_r by lia. by replace (_ - _)%nat with 1%nat by lia.
Qed.

Lemma launch_readers_spec launch (c : Controller R) lcores q l :
  launch_readers launch c lcores q = Ok l -> Forall (fun t => exists i, t = TReader i /\ 0 <= i < zlen (readers c)) l.
Proof.
  revert q l. induction lcores as [|lc lcores IH]; intros q l E; cbn [launch_readers] in E.
  { injection E as <-. constructor. }
  apply bind_Ok_iff in E as (r & Er & E). case_test; [discriminate|].
  apply bind_Ok_iff in E as (k & Ek & E). injection E as <-. constructor; [|by eapply IH].
  exists q. split; [done|]. by eapply zget_range.
Qed.

Lemma staged_concat ks segs : Forall2 (fun k l => Forall (fun e => event_stage e = k) l) ks segs ->
  StronglySorted Z.lt ks -> staged (concat segs).
Proof.
  induction 1 as [|k l ks segs Hl Hs IH]; intros Hk; [constructor|]. apply StronglySorted_inv in Hk as [Hk Hall].
  cbn [concat]. apply (staged_app k); [by eapply staged_const|by apply IH| |].
  - eapply Forall_impl; [exact Hl|]. cbn. lia.
  - clear IH Hk Hl. induction Hs as [|k' l' ks segs Hl' _ IH]; [constructor|].
    apply Forall_cons in Hall as [? Hall]. cbn [concat]. apply Forall_app. split; [|by apply IH].
    eapply Forall_impl; [exact Hl'|]. cbn. lia.
Qed.

(** The whole stop, for threads that [threadsRun] started. *)
Definition stop_segments (c : Controller R) (lcores : list Thread) : list (list Event) :=
  [ (AskStop ∘ TReader <$> zseq (zlen (readers c))) ++ (Join <$> lcores);
    StopRing <$> zseq (zlen (indexRings c));
    stop_events TGenerator (indexGenerators c); stop_events TDataDisk (dataDiskManagers c);
    stop_events TPersister (indexPersisters c); stop_events TIndexDisk (indexDiskManagers c);
    stop_events TDataMemory (dataMemoryManagers c); stop_events TIndexMemory (indexMemoryManagers c) ].

Lemma threadsStop_events launch lcores c0 c t starts :
  threadsRun launch lcores c0 = Ok (c, t, starts) ->
  threadsStop c t = Ok (concat (stop_segments c (readerLcores t))) /\
  started t = spawn TDataMemory (dataMemoryManagers c) ++ spawn TIndexMemory (indexMemoryManagers c)
    ++ spawn TDataDisk (dataDiskManagers c) ++ spawn TIndexDisk (indexDiskManagers c)
    ++ spawn TPersister (indexPersisters c) ++ spawn TGenerator (indexGenerators c) ++ readerLcores t /\
  Forall (fun x => exists i, x = TReader i /\ 0 <= i < zlen (readers c)) (readerLcores t).
Proof.
  unfold threadsRun. intros E. apply bind_Ok_iff in E as (das & _ & E). apply bind_Ok_iff in E as (ias & _ & E).
  apply bind_Ok_iff in E as (rs & Er & E). apply launch_readers_spec in Er. injection E as <- <- <-.
  split; [|by split]. unfold threadsStop, stop_segments. cbn. rewrite !stop_each_spawn. cbn [mbind res_bind].
  by rewrite app_nil_r, <-!app_assoc.
Qed.

Lemma elem_of_stop_events {A} mk (objs : list A) x : x ∈ spawn mk objs ->
  AskStop x ∈ stop_events mk objs /\ Join x ∈ stop_events mk objs.
Proof.
  unfold spawn, stop_events. intros (i & -> & Hi)%list_elem_of_fmap.
  split; apply list_elem_of_bind; exists i; (split; [|done]); set_solver.
Qed.

Lemma before_concat x y seg segs : seg ∈ segs -> before x y seg -> before x y (concat segs).
Proof.
  intros (l1 & l2 & ->)%list_elem_of_split (i & j & Hij & Hi & Hj). rewrite concat_app. cbn [concat].
  exists (length (concat l1) + i)%nat, (length (concat l1) + j)%nat. split; [lia|].
  rewrite !(lookup_app_r (concat l1)), !Nat.add_sub_swap, !Nat.sub_diag by lia.
  pose proof (lookup_lt_Some _ _ _ Hi). pose proof (lookup_lt_Some _ _ _ Hj).
  by rewrite !lookup_app_l by (simpl; lia).
Qed.

Lemma before_elem x y l : before x y l -> x ∈ l /\ y ∈ l.
Proof. intros (i & j & _ & Hi & Hj). split; by eapply list_elem_of_lookup_2. Qed.

Section stopped.
Context (c : Controller R) (lcores : list Thread).
Context (Hl : Forall (fun x => exists i, x = TReader i /\ 0 <= i < zlen (readers c)) lcores).
Let evs := concat (stop_segments c lcores).

Lemma stop_staged : staged evs.
Proof.
  apply (staged_concat [0; 1; 2; 3; 4; 5; 6; 7]).
  - repeat (constructor; try (by apply stop_events_stage)).
    + apply Forall_app. split; apply Forall_fmap; [by apply Forall_forall|].
      eapply Forall_impl; [exact Hl|]. by intros ? (? & -> & _).
    + by apply Forall_fmap, Forall_forall.
  - repeat constructor.
Qed.

Lemma stop_joins : omap joined evs ≡ₚ spawn TDataMemory (dataMemoryManagers c)
  ++ spawn TIndexMemory (indexMemoryManagers c)
  ++ spawn TDataDisk (dataDiskManagers c) ++ spawn TIndexDisk (indexDiskManagers c)
  ++ spawn TPersister (indexPersisters c) ++ spawn TGenerator (indexGenerators c) ++ lcores.
Proof.
  unfold evs, stop_segments. cbn [concat]. rewrite app_nil_r, !omap_app, !stop_events_joined.
  assert (Hj0 : forall l : list Thread, omap joined (Join <$> l) = l) by (induction l; cbn; f_equal; auto).
  assert (Hj1 : forall l, omap joined (AskStop ∘ TReader <$> l) = []) by (induction l; cbn; auto).
  assert (Hj2 : forall l, omap joined (StopRing <$> l) = []) by (induction l; cbn; auto).
  rewrite Hj0, Hj1, Hj2, !app_nil_l. solve_Permutation.
Qed.

Lemma stop_asked x : x ∈ spawn TDataMemory (dataMemoryManagers c)
  ++ spawn TIndexMemory (indexMemoryManagers c)
  ++ spawn TDataDisk (dataDiskManagers c) ++ spawn TIndexDisk (indexDiskManagers c)
  ++ spawn TPersister (indexPersisters c) ++ spawn TGenerator (indexGenerators c) ++ lcores ->
  before (AskStop x) (Join x) evs.
Proof.
  assert (Hev : forall A (mk : Z -> Thread) (objs : list A), stop_events mk objs ∈ stop_segments c lcores ->
    x ∈ spawn mk objs -> before (AskStop x) (Join x) evs).
  { intros A mk objs Hin Hx. eapply before_concat; [exact Hin|].
    pose proof (stop_events_asked mk objs x [] [] Hx) as Hb. by rewrite app_nil_r in Hb. }
  assert (Hin : forall i seg, stop_segments c lcores !! i = Some seg -> seg ∈ stop_segments c lcores)
    by (intros i seg; apply list_elem_of_lookup_2).
  rewrite !elem_of_app. intros [Hx|[Hx|[Hx|[Hx|[Hx|[Hx|Hx]]]]]].
  - eapply Hev; [by apply (Hin 6%nat)|done].
  - eapply Hev; [by apply (Hin 7%nat)|done].
  - eapply Hev; [by apply (Hin 3%nat)|done].
  - eapply Hev; [by apply (Hin 5%nat)|done].
  - eapply Hev; [by apply (Hin 4%nat)|done].
  - eapply Hev; [by apply (Hin 2%nat)|done].
  - eapply before_concat; [by apply (Hin 0%nat)|].
    rewrite Forall_forall in Hl. destruct (Hl x Hx) as (i & -> & Hi).
    assert (Ha : AskStop (TReader i) ∈ AskStop ∘ TReader <$> zseq (zlen (readers c)))
      by (apply list_elem_of_fmap; exists i; by rewrite elem_of_zseq).
    assert (Hj : Join (TReader i) ∈ Join <$> lcores) by (apply list_elem_of_fmap; eauto).
    apply list_elem_of_lookup in Ha as [n Hn], Hj as [m Hm].
    exists n, (length (AskStop ∘ TReader <$> zseq (zlen (readers c))) + m)%nat.
    pose proof (lookup_lt_Some _ _ _ Hn). split; [lia|]. split; [by rewrite lookup_app_l by lia|].
    rewrite lookup_app_r by lia. by rewrite Nat.add_sub_swap, Nat.sub_diag by lia.
Qed.
End stopped.

(** C2: [threadsStop] stops what [threadsRun] started: it terminates, joins every
    started thread exactly once and only after asking it to stop, stops the
    rings after the readers have ended, and never asks a thread to stop before
    every thread that feeds it has ended. *)
Theorem threads_stop_downstream launch lcores c0 c t starts :
  threadsRun launch lcores c0 = Ok (c, t, starts) ->
  exists evs, threadsStop c t = Ok evs /\ omap joined evs ≡ₚ started t /\
    (forall x, x ∈ started t -> before (AskStop x) (Join x) evs) /\
    (forall x i, x ∈ readerLcores t -> 0 <= i < zlen (indexRings c) -> before (Join x) (StopRing i) evs) /\
    (forall x y, x ∈ started t -> y ∈ started t -> feeds x y -> before (Join x) (AskStop y) evs).
Proof.
  intros E. destruct (threadsStop_events _ _ _ _ _ _ E) as (-> & Hst & Hl). eexists. split; [done|].
  assert (Ha : forall x, x ∈ started t -> before (AskStop x) (Join x) (concat (stop_segments c (readerLcores t))))
    by (intros x; rewrite Hst; by apply stop_asked).
  pose proof (stop_staged c (readerLcores t) Hl) as Hs.
  split; [rewrite Hst; apply stop_joins|]. split; [done|]. split.
  - intros x i Hx Hi. apply staged_before; [done| | |].
    + eapply proj2, before_elem, Ha. rewrite Hst, !elem_of_app. tauto.
    + unfold stop_segments. cbn [concat]. apply elem_of_app. right. apply elem_of_app. left.
      apply list_elem_of_fmap. exists i. by rewrite elem_of_zseq.
    + rewrite Forall_forall in Hl. by destruct (Hl x Hx) as (? & -> & _).
  - intros x y Hx Hy Hf%feeds_stage. apply staged_before; [done| | |done].
    + by eapply proj2, before_elem, Ha.
    + by eapply proj1, before_elem, Ha.
Qed.

(** A controller that was initialised but never run cannot be destroyed: the
    loops over the objects index the empty vectors of threads. *)
Lemma clear_without_run (c : Controller R) joined q : 0 < zlen (indexMemoryManagers c) ->
  clear c no_threads joined q = Undef.
Proof.
  intros Hn. unfold clear, delete_each, no_threads. cbn [indexMemoryManagerThreads].
  rewrite (zseq_head (zlen (indexMemoryManagers c))) by done. cbn [mapM]. unfold zget at 1. reflexivity.
Qed.
End stopping.

(** ** Witnesses: the configuration of test/dpdkControllerTest.cpp *)
Definition shipped : InitData := {|
  index_ring_capacity := 1024 * 1024 * 32; nb_rx := 2; eth_header_len := 14; hash_num := 4;
  data_disk_size := 1024 * 1024 * 1024 * 1024; data_block_size := 1024 * 1024 * 1024;
  index_disk_size := 256 * 1024 * 1024 * 1024; index_block_size := 64 * 1024 * 1024;
  disk_read_size := 1024 * 1024 * 2; memory_pool_capacity_each := 1024 * 1024 * 1024 / 8;
  memory_pool_list_len_each := 1024; data_block_cache_num := 16; index_buffer_cache_num := 64;
  index_block_cache_num := 32; delay_threshold := 1; bitmap_backup_col_num := 8;
  index_construct_thread_num := 2; index_persist_thread_num := 2; data_disk_manager_thread_num := 2;
  index_disk_manager_thread_num := 2; data_memory_manager_thread_num := 2;
  index_memory_manager_thread_num := 2; data_agent_num_each := 1; index_agent_num_each := 1;
  agent_ring_depth := 1024; agent_ring_idle_time := 1024; data_disk_name := "/dev/sdb";
  data_disk_offset := 0; index_disk_name := "/dev/sdb"; index_disk_offset := 1099511627776;
  bind_core := true; controller_core_id := 2; dpdk_core_id_list := [4; 6]; packet_core_id_list := [4; 6];
  indexing_core_id_list := [8; 10]; persisting_core_id_list := [12; 14];
  data_dumping_core_id_list := [16; 28]; index_dumping_core_id_list := [18; 30];
  data_kernel_core_id_list := [20; 32]; index_kernel_core_id_list := [22; 34];
  data_recycling_core_id_list := [24; 36]; index_recycling_core_id_list := [26; 38] |}.

Lemma shipped_ok : config_ok (fun _ => 3) (fun _ => true) (fun _ => Ok ()) shipped.
Proof.
  split; try done; try (exists 25; split; [lia|reflexivity]); unfold enough_cores;
    repeat split; try done; vm_compute; done.
Qed.

Lemma init_connects_witness :
  exists c : Controller SimRing, init (fun _ => 3) (fun _ => true) (0, 0, false) (mkNode 0 0 false) (0, 0, 0)
    (fun _ => Ok ()) shipped = Ok c /\ connected shipped c.
Proof. exact (init_connects (fun _ => 3) (fun _ => true) (0, 0, false) (mkNode 0 0 false) (0, 0, 0) (fun _ => Ok ()) shipped shipped_ok). Defined.

(** Index blocks behind the data blocks of the same disk. *)
Lemma accepted_areas_apart_witness :
  exists c : Controller SimRing, init (fun _ => 3) (fun _ => true) (0, 0, false) (mkNode 0 0 false) (0, 0, 0)
    (fun _ => Ok ()) shipped = Ok c /\
    data_disk_offset shipped + data_disk_size shipped <= index_disk_offset shipped.
Proof.
  destruct (init_connects_lemma (R := SimRing) (fun _ => 3) (fun _ => true) (0, 0, false) (mkNode 0 0 false) (0, 0, 0)
    (fun _ => Ok ()) shipped shipped_ok) as (c & E & _).
  exists c. split; [exact E|].
  refine (proj1 (accepted_areas_apart _ _ _ _ _ _ shipped c E _ _ _ _ _ _ _ _ _)); (done || (vm_compute; done)).
Defined.

(** A small system, started on two cores and stopped. *)
Definition small : InitData := {|
  index_ring_capacity := 8; nb_rx := 2; eth_header_len := 14; hash_num := 1;
  data_disk_size := 256; data_block_size := 16; index_disk_size := 256; index_block_size := 16;
  disk_read_size := 16; memory_pool_capacity_each := 600; memory_pool_list_len_each := 4;
  data_block_cache_num := 2; index_buffer_cache_num := 4; index_block_cache_num := 2;
  delay_threshold := 1; bitmap_backup_col_num := 0; index_construct_thread_num := 1;
  index_persist_thread_num := 1; data_disk_manager_thread_num := 1; index_disk_manager_thread_num := 1;
  data_memory_manager_thread_num := 1; index_memory_manager_thread_num := 1; data_agent_num_each := 1;
  index_agent_num_each := 1; agent_ring_depth := 4; agent_ring_idle_time := 4; data_disk_name := "/dev/sdb";
  data_disk_offset := 0; index_disk_name := "/dev/sdc"; index_disk_offset := 0;
  bind_core := false; controller_core_id := 0; dpdk_core_id_list := []; packet_core_id_list := [];
  indexing_core_id_list := []; persisting_core_id_list := []; data_dumping_core_id_list := [];
  index_dumping_core_id_list := []; data_kernel_core_id_list := [3]; index_kernel_core_id_list := [4];
  data_recycling_core_id_list := []; index_recycling_core_id_list := [] |}.

Definition small_system : res (Controller SimRing) :=
  Eval vm_compute in init (fun _ => 3) (fun _ => true) (0, 0, false) (mkNode 0 0 false) (0, 0, 0) (fun _ => Ok ()) small.

Lemma threads_stop_downstream_witness :
  match small_system with
  | Ok c0 => exists c t starts evs, threadsRun (fun _ _ => 0) [1; 2] c0 = Ok (c, t, starts) /\
      threadsStop c t = Ok evs /\ started t = [TDataMemory 0; TIndexMemory 0; TDataDisk 0; TIndexDisk 0;
        TPersister 0; TGenerator 0; TReader 0; TReader 1] /\ omap joined evs ≡ₚ started t
  | _ => False
  end.
Proof.
  unfold small_system. match goal with |- exists c t s e, threadsRun _ _ ?c0 = _ /\ _ =>
    pose proof (threads_stop_downstream (fun _ _ => 0) [1; 2] c0) as H end.
  eexists _, _, _. edestruct H as (evs & E & Hj & _); [vm_compute; reflexivity|]. clear H.
  exists evs. split; [vm_compute; reflexivity|]. split; [exact E|]. split; [vm_compute; reflexivity|exact Hj].
Defined.
