(* ===== verification/SkipList.v ===== *)
(** * Skip lists (dpdk_lib/skipListUnlock.hpp, dpdk_lib/skipList.hpp)

    An ordered multimap from keys of seven lengths to 64-bit values: nodes on
    the heap with an array of next pointers, searched from the highest level
    down.  This file models the nodes, the list for a single thread, and what
    it promises: it is a list sorted by key in which a new entry comes before
    the entries with an equal key.  The list that several threads fill at the
    same time is in [SkipListLocked]. *)
From S2P Require Import Prelude Util BlockBuffer.
From stdpp Require Import sorting.
#[local] Open Scope Z_scope.
From Stdlib Require Import ZArith Lia.

(** ** Keys: bytes, compared through the type of their length *)

(** The structs as they lie in memory; the compiler pads [QuarTurpleIPv6]
    before its addresses. *)
Definition dec_quar4 (l : list Z) : QuarTurpleIPv4 :=
  mkQuar4 (le_val (zslice 0 2 l)) (le_val (zslice 2 2 l)) (le_val (zslice 4 4 l)) (le_val (zslice 8 4 l)).
Definition dec_ipv6 (l : list Z) : IPv6Address := mkIPv6 (le_val (zslice 0 8 l)) (le_val (zslice 8 8 l)).
Definition dec_quar6 (l : list Z) : QuarTurpleIPv6 :=
  mkQuar6 (le_val (zslice 0 2 l)) (le_val (zslice 2 2 l)) (dec_ipv6 (zslice 8 16 l)) (dec_ipv6 (zslice 24 16 l)).

(** [if (p->key < k) return -1; if (p->key > k) return 1; return 0;] *)
Definition compare {K} `{CppKey K} (a b : K) : Z :=
  if key_lt a b then -1 else if key_gt a b then 1 else 0.

(** The key lengths the list knows. *)
Definition known (keyLen : Z) : bool :=
  (keyLen =? 1) || (keyLen =? 2) || (keyLen =? 4) || (keyLen =? 8)
  || (keyLen =? 12) || (keyLen =? 16) || (keyLen =? 40).

Definition compare_keys (keyLen : Z) (a b : list Z) : Z :=
  if keyLen =? 12 then compare (dec_quar4 a) (dec_quar4 b)
  else if keyLen =? 16 then compare (dec_ipv6 a) (dec_ipv6 b)
  else if keyLen =? 40 then compare (dec_quar6 a) (dec_quar6 b)
  else if known keyLen then compare (le_val a) (le_val b)
  else 0.

(** ** Nodes *)
Record SkipListNode := mkNode {
  n_key : list Z;
  n_value : Z;
  next : list Z;
  mutex : bool }.

(** The heap: nodes by address; 0 is the null pointer. *)
Abbreviation Mem := (gmap Z SkipListNode).
Definition nullptr : Z := 0.

Definition deref (m : Mem) (p : Z) : res SkipListNode :=
  match m !! p with Some n => Ok n | None => Undef end.

(** [new]: [p] is the address that the allocator returns.  An unknown length
    prints and gives the null pointer. *)
Definition newNode (keyLen : Z) (m : Mem) (p : Z) (key : list Z) (value level : Z) : res (Z * Mem) :=
  if known keyLen then
    k ← zread key 0 keyLen;
    Ok (p, <[p := mkNode k value (replicate (Z.to_nat level) nullptr) false]> m)
  else Ok (nullptr, m).

Definition deleteNode (keyLen : Z) (m : Mem) (p : Z) : res Mem :=
  if known keyLen then
    if p =? nullptr then Ok m else _ ← deref m p; Ok (delete p m)
  else Ok m.

Definition getNext (keyLen : Z) (m : Mem) (p level : Z) : res Z :=
  if known keyLen then n ← deref m p; zget (next n) level else Ok nullptr.

Definition putNext (keyLen : Z) (m : Mem) (p level q : Z) : res Mem :=
  if known keyLen then
    n ← deref m p;
    l ← zset (next n) level q;
    Ok (<[p := mkNode (n_key n) (n_value n) l (mutex n)]> m)
  else Ok m.

(** An unknown length leaves the result uninitialised. *)
Definition getValue (keyLen : Z) (m : Mem) (p : Z) : res Z :=
  if known keyLen then n ← deref m p; Ok (n_value n) else Undef.

Definition compareNodeKey (keyLen : Z) (m : Mem) (p : Z) (key : list Z) : res Z :=
  if known keyLen then
    n ← deref m p;
    k ← zread key 0 keyLen;
    Ok (compare_keys keyLen (n_key n) k)
  else Ok 0.

Definition compareNode (keyLen : Z) (m : Mem) (p q : Z) : res Z :=
  if known keyLen then
    a ← deref m p;
    b ← deref m q;
    Ok (compare_keys keyLen (n_key a) (n_key b))
  else Ok 0.

Definition getKey (keyLen : Z) (m : Mem) (p : Z) : res (list Z) :=
  if known keyLen then n ← deref m p; Ok (n_key n) else Ok [].

(** ** Searching *)

(** [while (getNext(curr,i) != nullptr && compareNodeKey(getNext(curr,i),key) < 0)
    curr = getNext(curr,i);] *)
Fixpoint walk (fuel : nat) (keyLen : Z) (m : Mem) (curr i : Z) (key : list Z) : res Z :=
  match fuel with
  | O => Blocks
  | S fuel =>
      q ← getNext keyLen m curr i;
      if q =? nullptr then Ok curr else
      c ← compareNodeKey keyLen m q key;
      if c <? 0 then walk fuel keyLen m q i key else Ok curr
  end.

(** No walk is longer than the heap. *)
Definition enough (m : Mem) : nat := S (size m).

(** The loop over the levels [n - 1 .. 0]. *)
Fixpoint seek (keyLen : Z) (m : Mem) (key : list Z) (curr : Z) (n : nat) : res Z :=
  match n with
  | O => Ok curr
  | S n => curr ← walk (enough m) keyLen m curr (Z.of_nat n) key; seek keyLen m key curr n
  end.

(** The same, keeping the node where each level was left. *)
Fixpoint descend (keyLen : Z) (m : Mem) (key : list Z) (curr : Z) (update : list Z) (n : nat) : res (list Z) :=
  match n with
  | O => Ok update
  | S n =>
      curr ← walk (enough m) keyLen m curr (Z.of_nat n) key;
      update ← zset update (Z.of_nat n) curr;
      descend keyLen m key curr update n
  end.

(** The loop over level 0 from [node]: entries below [lo] are skipped, and it
    ends at the first entry for which [stop] says so. *)
Fixpoint collect (fuel : nat) (keyLen : Z) (m : Mem) (node : Z) (lo hi : list Z) (stop : Z -> bool)
  : res (list Z) :=
  match fuel with
  | O => Blocks
  | S fuel =>
      if node =? nullptr then Ok [] else
      c ← compareNodeKey keyLen m node lo;
      if c <? 0 then q ← getNext keyLen m node 0; collect fuel keyLen m q lo hi stop else
      c ← compareNodeKey keyLen m node hi;
      if stop c then Ok [] else
      v ← getValue keyLen m node;
      q ← getNext keyLen m node 0;
      l ← collect fuel keyLen m q lo hi stop;
      Ok (u32 v :: l)
  end.

Definition find_from (keyLen : Z) (m : Mem) (head level : Z) (lo hi : list Z) (stop : Z -> bool)
  : res (list Z) :=
  curr ← seek keyLen m lo head (Z.to_nat level);
  first ← getNext keyLen m curr 0;
  collect (enough m) keyLen m first lo hi stop.

(** Equal keys; keys from [begin] to before [end]. *)
Definition past_key (c : Z) : bool := 0 <? c.
Definition past_end (c : Z) : bool := 0 <=? c.

(** ** The list of one thread (skipListUnlock.hpp) *)
Record SkipList := mkSkipList {
  keyLen : Z;
  valueLen : Z;
  maxLevel : Z;
  level : Z;
  head : Z;
  nodeNum : Z;
  writeThreadCount : Z;
  readThreadCount : Z;
  mem : Mem }.

Definition with_mem (s : SkipList) (lvl num : Z) (m : Mem) : SkipList :=
  mkSkipList (keyLen s) (valueLen s) (maxLevel s) lvl (head s) num
    (writeThreadCount s) (readThreadCount s) m.

(** The constructor; the head is a node with a zero key. *)
Definition new_SkipList (m : Mem) (p maxLvl kl vl : Z) : res SkipList :=
  '(h, m) ← newNode kl m p (replicate (Z.to_nat kl) 0) 0 maxLvl;
  Ok (mkSkipList kl vl maxLvl 0 h 0 0 0 m).

(** [while (rand() % 2 == 0 && lvl < maxLevel) lvl++;]: [coins] are the
    parities that [rand] gives. *)
Fixpoint level_from (fuel : nat) (coins : nat -> bool) (k : nat) (lvl maxLvl : Z) : Z :=
  match fuel with
  | O => lvl
  | S fuel => if coins k && (lvl <? maxLvl) then level_from fuel coins (S k) (u32 (lvl + 1)) maxLvl else lvl
  end.
Definition randomLevel (coins : nat -> bool) (maxLvl : Z) : Z :=
  level_from (Z.to_nat maxLvl) coins 0 1 maxLvl.

(** The loop that hooks the new node in at the levels [ids]. *)
Fixpoint link (keyLen : Z) (m : Mem) (new : Z) (update : list Z) (ids : list Z) : res Mem :=
  match ids with
  | [] => Ok m
  | i :: ids =>
      u ← zget update i;
      q ← getNext keyLen m u i;
      m ← putNext keyLen m new i q;
      m ← putNext keyLen m u i new;
      link keyLen m new update ids
  end.

(** [insert]: a wrong key length prints and reports success; a full list gives
    its counter back. *)
Definition insert (s : SkipList) (p : Z) (coins : nat -> bool) (key : list Z) (value maxNode : Z)
  : res (bool * SkipList) :=
  if negb (zlen key =? keyLen s) then Ok (true, s) else
  if maxNode <? nodeNum s then Ok (false, s) else
  let newLevel := randomLevel coins (maxLevel s) in
  '(new, m) ← newNode (keyLen s) (mem s) p key value newLevel;
  let from := if newLevel <? level s then level s else newLevel in
  update ← descend (keyLen s) m key (head s) (replicate (Z.to_nat (maxLevel s)) nullptr) (Z.to_nat from);
  m ← link (keyLen s) m new update (zseq newLevel);
  Ok (true, with_mem s (if level s <? newLevel then newLevel else level s) (u64 (nodeNum s + 1)) m).

Definition findByKey (s : SkipList) (key : list Z) : res (list Z) :=
  if negb (zlen key =? keyLen s) then Ok []
  else find_from (keyLen s) (mem s) (head s) (level s) key key past_key.

Definition findByRange (s : SkipList) (begin_ end_ : list Z) : res (list Z) :=
  if negb (zlen begin_ =? keyLen s) || negb (zlen end_ =? keyLen s) then Ok []
  else find_from (keyLen s) (mem s) (head s) (level s) begin_ end_ past_end.

(** ** The order of keys *)
Definition lt (kl : Z) (a b : list Z) : bool := compare_keys kl a b <? 0.

Lemma compare_lt {K} `{CppKeyLaws K} (a b : K) : (compare a b <? 0) = key_lt a b.
Proof.
  unfold compare. destruct (key_lt a b) eqn:E; [done|]. by destruct (key_gt a b).
Qed.
Lemma compare_gt {K} `{CppKeyLaws K} (a b : K) : (0 <? compare a b) = key_lt b a.
Proof.
  unfold compare. rewrite key_gt_lt.
  destruct (key_trichotomy a b) as [(->&->&_)|[(->&->&_)|(->&->&_)]]; done.
Qed.

(** A known length compares through one of the key types. *)
Lemma compare_keys_via kl : known kl = true ->
  exists (K : Type) (C : CppKey K) (_ : CppKeyLaws K) (dec : list Z -> K),
    forall a b, compare_keys kl a b = compare (dec a) (dec b).
Proof.
  intros Hk. unfold compare_keys. rewrite Hk.
  destruct (kl =? 12); [by exists QuarTurpleIPv4, _, _, dec_quar4|].
  destruct (kl =? 16); [by exists IPv6Address, _, _, dec_ipv6|].
  destruct (kl =? 40); [by exists QuarTurpleIPv6, _, _, dec_quar6|by exists Z, _, _, le_val].
Qed.

Section order.
Context (kl : Z) (Hk : known kl = true).

Lemma lt_irrefl a : lt kl a a = false.
Proof.
  unfold lt. destruct (compare_keys_via kl Hk) as (K & C & L & d & ->). rewrite compare_lt. apply key_lt_irrefl.
Qed.
Lemma lt_trans a b c : lt kl a b = true -> lt kl b c = true -> lt kl a c = true.
Proof.
  unfold lt. destruct (compare_keys_via kl Hk) as (K & C & L & d & E). rewrite !E, !compare_lt. apply key_lt_trans.
Qed.
Lemma lt_split a b c : lt kl a c = true -> lt kl a b = true \/ lt kl b c = true.
Proof.
  unfold lt. destruct (compare_keys_via kl Hk) as (K & C & L & d & E). rewrite !E, !compare_lt. intros Hac.
  destruct (key_trichotomy (d a) (d b)) as [(?&_&_)|[(_&_&Eq)|(_&Hba&_)]]; [by left|right; by rewrite <-Eq|].
  right. by eapply key_lt_trans.
Qed.
Lemma lt_gt a b : (0 <? compare_keys kl a b) = lt kl b a.
Proof.
  unfold lt. destruct (compare_keys_via kl Hk) as (K & C & L & d & E). by rewrite !E, compare_gt, compare_lt.
Qed.
Lemma lt_ge a b : (0 <=? compare_keys kl a b) = negb (lt kl a b).
Proof. unfold lt. by rewrite Z.leb_antisym. Qed.
Lemma lt_asym a b : lt kl a b = true -> lt kl b a = false.
Proof.
  intros Hab. apply not_true_iff_false. intros Hba. pose proof (lt_trans _ _ _ Hab Hba). by rewrite lt_irrefl in *.
Qed.
End order.

(** ** Chains of nodes *)
Section chains.
Context (kl : Z) (Hk : known kl = true).

Definition node (m : Mem) (p : Z) : SkipListNode := default (mkNode [] 0 [] false) (m !! p).
Definition height (m : Mem) (p : Z) : Z := zlen (next (node m p)).
Definition key_of (m : Mem) (p : Z) : list Z := n_key (node m p).
Definition below (m : Mem) (key : list Z) (p : Z) : bool := lt kl (key_of m p) key.

(** The nodes that follow [p] at level [i], up to the null pointer. *)
Fixpoint chain (m : Mem) (i p : Z) (l : list Z) : Prop :=
  match l with
  | [] => getNext kl m p i = Ok nullptr
  | q :: l => getNext kl m p i = Ok q /\ q <> nullptr /\ is_Some (m !! q) /\ chain m i q l
  end.

(** The last node of a list that starts after [p]. *)
Definition last_of (p : Z) (l : list Z) : Z := List.last l p.

Lemma last_of_cons p q l : last_of p (q :: l) = last_of q l.
Proof.
  unfold last_of. revert p q. induction l as [|r l IH]; intros p q; [done|].
  change (List.last (q :: r :: l) p) with (List.last (r :: l) p). by rewrite !IH.
Qed.
Lemma last_of_app p l k : last_of p (l ++ k) = last_of (last_of p l) k.
Proof. revert p. induction l as [|q l IH]; intros p; [done|]. by rewrite <-app_comm_cons, !last_of_cons. Qed.
Lemma last_of_in p l : last_of p l = p \/ last_of p l ∈ l.
Proof.
  revert p. induction l as [|q l IH]; intros p; [by left|right]. rewrite last_of_cons.
  destruct (IH q) as [->|]; [left|by right].
Qed.

Lemma chain_app m i p l k : chain m i p (l ++ k) -> chain m i (last_of p l) k.
Proof.
  revert p. induction l as [|q l IH]; intros p; [done|]. rewrite last_of_cons. cbn [app chain].
  intros (_ & _ & _ & H). by apply IH.
Qed.

Lemma compareNodeKey_ok m p n key : m !! p = Some n -> zlen key = kl ->
  compareNodeKey kl m p key = Ok (compare_keys kl (n_key n) key).
Proof.
  intros Hp Hl. unfold compareNodeKey, deref. rewrite Hk, Hp. cbn [mbind res_bind].
  pose proof (zlen_nonneg key). rewrite zread_Ok by lia. cbn [mbind res_bind]. by rewrite zslice_full.
Qed.

Lemma getNext_node m p i q : getNext kl m p i = Ok q -> exists n, m !! p = Some n /\ zget (next n) i = Ok q.
Proof. unfold getNext, deref. rewrite Hk. destruct (m !! p); [|done]. intros E. by eexists. Qed.

(** The walk along a chain stops at the last node below the key. *)
Lemma walk_chain m i key l1 l2 : zlen key = kl ->
  forall p fuel, chain m i p (l1 ++ l2) -> Forall (fun q => below m key q = true) l1 ->
  (forall q, hd_error l2 = Some q -> below m key q = false) -> (length l1 < fuel)%nat ->
  walk fuel kl m p i key = Ok (last_of p l1).
Proof.
  intros Hl. assert (Hcmp : forall q, is_Some (m !! q) ->
    exists c, compareNodeKey kl m q key = Ok c /\ (c <? 0) = below m key q).
  { intros q [n Hn]. exists (compare_keys kl (n_key n) key). split; [by apply compareNodeKey_ok|].
    unfold below, key_of, node, lt. by rewrite Hn. }
  induction l1 as [|q l1 IH]; intros p fuel Hc Hb Hh Hf; (destruct fuel as [|fuel]; [simpl in Hf; lia|]); cbn [walk].
  - cbn [app] in Hc. destruct l2 as [|q l2].
    + cbn [chain] in Hc. rewrite Hc. done.
    + destruct Hc as (-> & Hq & Hs & _). cbn [mbind res_bind]. rewrite (proj2 (Z.eqb_neq q nullptr)) by done.
      destruct (Hcmp q Hs) as (c & -> & E). cbn [mbind res_bind]. by rewrite E, (Hh q).
  - destruct Hc as (-> & Hq & Hs & Hc). apply Forall_cons in Hb as [Hbq Hb]. cbn [mbind res_bind].
    rewrite (proj2 (Z.eqb_neq q nullptr)) by done. destruct (Hcmp q Hs) as (c & -> & E). cbn [mbind res_bind].
    rewrite E, Hbq, last_of_cons. apply IH; [done..|simpl in Hf; lia].
Qed.

(** *** Writing one next pointer *)
Lemma getNext_put m m' p i q p' i' : putNext kl m p i q = Ok m' -> 0 <= i ->
  getNext kl m' p' i' = if decide (p' = p /\ i' = i) then Ok q else getNext kl m p' i'.
Proof.
  unfold putNext, getNext, deref. rewrite Hk. intros E Hi. destruct (m !! p) as [n|] eqn:En; [|done].
  cbn [mbind res_bind] in E. apply bind_Ok_iff in E as (l & Hl & E). injection E as <-.
  apply zset_inv in Hl as [Hr ->]. destruct (decide (p' = p)) as [->|Hne].
  - rewrite lookup_insert_eq, En. cbn [mbind res_bind next]. case_decide as Hd.
    + destruct Hd as [_ ->]. by apply zget_insert_eq.
    + rewrite zget_insert_ne; [done|lia|]. intros <-. by apply Hd.
  - rewrite lookup_insert_ne by done. rewrite decide_False by tauto. done.
Qed.

(** Everything but the next pointers stays. *)
Definition same_nodes (m m' : Mem) : Prop :=
  forall p, is_Some (m !! p) -> is_Some (m' !! p) /\ key_of m' p = key_of m p /\
    n_value (node m' p) = n_value (node m p) /\ height m' p = height m p.

Lemma same_nodes_refl m : same_nodes m m.
Proof. by intros p Hp. Qed.
Lemma same_nodes_trans a b c : same_nodes a b -> same_nodes b c -> same_nodes a c.
Proof.
  intros H1 H2 p Hp. destruct (H1 p Hp) as (Hb & <- & <- & <-).
  by apply H2.
Qed.

Lemma putNext_ok m p n i q : m !! p = Some n -> 0 <= i < zlen (next n) ->
  exists m', putNext kl m p i q = Ok m' /\ same_nodes m m' /\ dom m' = dom m.
Proof.
  intros Hp Hi. unfold putNext, deref. rewrite Hk, Hp. cbn [mbind res_bind]. rewrite zset_Ok by done.
  eexists. split; [done|]. split.
  - intros p' Hp'. unfold key_of, height, node. destruct (decide (p' = p)) as [->|].
    + rewrite lookup_insert_eq, Hp. cbn. by rewrite zlen_insert.
    + by rewrite lookup_insert_ne by done.
  - rewrite dom_insert_L. assert (p ∈ dom m) by (by apply elem_of_dom_2 in Hp). set_solver.
Qed.

Lemma putNext_inv m p i q m' : putNext kl m p i q = Ok m' ->
  same_nodes m m' /\ dom m' = dom m /\ (forall r, mutex (node m' r) = mutex (node m r)) /\
  is_Some (m !! p) /\ 0 <= i < height m p.
Proof.
  unfold putNext, deref. rewrite Hk. destruct (m !! p) as [n|] eqn:Hp; [|done]. cbn [mbind res_bind]. intros E.
  pose proof E as E0. apply bind_Ok_iff in E as (l & Hl & E). injection E as <-. apply zset_inv in Hl as [Hr ->].
  destruct (putNext_ok m p n i q Hp Hr) as (m' & E' & Hs & Hd). unfold putNext, deref in E'. rewrite Hk, Hp in E'.
  cbn [mbind res_bind] in E'. rewrite E0 in E'. injection E' as <-. split_and!; [done|done| |by eexists| |].
  - intros r. unfold node. destruct (decide (r = p)) as [->|]; [by rewrite lookup_insert_eq, Hp|by rewrite lookup_insert_ne].
  - lia.
  - unfold height, node. rewrite Hp. apply Hr.
Qed.
End chains.

(** ** The list as levels of sorted sequences *)

(** In the order of the list no key is smaller than one before it. *)
Definition sorted (kl : Z) (m : Mem) : list Z -> Prop :=
  StronglySorted (fun p q => lt kl (key_of m q) (key_of m p) = false).

(** [X i] are the addresses of the nodes at level [i], in order: every level
    is a sorted chain from the head, and a node is also on the levels below.
    Entries with equal keys may stand in another order on another level. *)
Record levels (kl mx : Z) (m : Mem) (hd : Z) (X : Z -> list Z) : Prop := {
  lv_head : is_Some (m !! hd) /\ height m hd = mx /\ hd <> nullptr;
  lv_nodup : forall i, 0 <= i < mx -> NoDup (hd :: X i);
  lv_nodes : forall i p, 0 <= i < mx -> p ∈ X i -> is_Some (m !! p) /\ p <> nullptr /\ i < height m p;
  lv_sorted : forall i, 0 <= i < mx -> sorted kl m (X i);
  lv_below : forall i p, 0 <= i -> i + 1 < mx -> p ∈ X (i + 1) -> p ∈ X i;
  lv_chain : forall i, 0 <= i < mx -> chain kl m i hd (X i) }.

(** A list of one thread: a node is on all levels of its tower. *)
Record inv (s : SkipList) (X : Z -> list Z) : Prop := {
  iv_known : known (keyLen s) = true;
  iv_max : 0 < maxLevel s < 2 ^ 31;
  iv_level : 0 <= level s <= maxLevel s;
  iv_levels : levels (keyLen s) (maxLevel s) (mem s) (head s) X;
  iv_towers : forall p, p ∈ X 0 -> 1 <= height (mem s) p <= level s /\
    forall i, 0 <= i < height (mem s) p -> p ∈ X i }.

(** What the list holds. *)
Definition entry (m : Mem) (p : Z) : list Z * Z := (key_of m p, n_value (node m p)).
Definition entries (m : Mem) (X : Z -> list Z) : list (list Z * Z) := entry m <$> X 0.

Section sorted.
Context (kl : Z) (Hk : known kl = true) (m : Mem) (key : list Z).

Definition lower (L : list Z) : list Z := filter (fun p => below kl m key p = true) L.
Definition upper (L : list Z) : list Z := filter (fun p => below kl m key p = false) L.

Lemma lower_upper L : sorted kl m L -> L = lower L ++ upper L.
Proof.
  unfold lower, upper. induction 1 as [|p L _ IH Hall]; [done|].
  destruct (below kl m key p) eqn:Ep.
  - rewrite filter_cons_True, filter_cons_False by congruence. cbn. by rewrite <-IH.
  - assert (Hn : filter (fun p => below kl m key p = true) L = []).
    { apply elem_of_nil_inv. intros q [Hq Hin]%list_elem_of_filter. rewrite Forall_forall in Hall.
      specialize (Hall q Hin). unfold below in *. destruct (lt_split kl Hk _ (key_of m p) _ Hq); congruence. }
    rewrite filter_cons_False, filter_cons_True, Hn by congruence. rewrite Hn in IH. cbn in *. by f_equal.
Qed.

Lemma elem_of_lower L p : p ∈ lower L <-> below kl m key p = true /\ p ∈ L.
Proof. unfold lower, upper. by rewrite list_elem_of_filter. Qed.
Lemma elem_of_upper L p : p ∈ upper L <-> below kl m key p = false /\ p ∈ L.
Proof. unfold lower, upper. by rewrite list_elem_of_filter. Qed.

(** The nodes below a key are a prefix. *)
Lemma lower_middle L1 p L2 : sorted kl m (L1 ++ p :: L2) -> below kl m key p = true ->
  lower (L1 ++ p :: L2) = L1 ++ p :: lower L2.
Proof.
  intros Hs Hp. unfold lower. rewrite filter_app, filter_cons_True by done. f_equal.
  apply StronglySorted_app in Hs as (H12 & _ & _). assert (Hall : forall q, q ∈ L1 -> below kl m key q = true).
  { intros q Hq. specialize (H12 q p Hq ltac:(left)). unfold below in *.
    destruct (lt_split kl Hk _ (key_of m q) _ Hp); [congruence|done]. }
  clear -Hall. induction L1 as [|q L1 IH]; [done|]. rewrite filter_cons_True by (apply Hall; left).
  f_equal. apply IH. intros. apply Hall. by right.
Qed.
End sorted.

(** ** Searching a well-formed list *)
Lemma length_dom (m : Mem) L : NoDup L -> (forall p, p ∈ L -> is_Some (m !! p)) -> (length L <= size m)%nat.
Proof.
  intros Hn Hin. rewrite <-(size_list_to_set (C := gset Z) L) by done. rewrite <-size_dom.
  apply subseteq_size. intros p. rewrite elem_of_list_to_set, elem_of_dom. apply Hin.
Qed.

Section search.
Context (kl mx : Z) (Hk : known kl = true) (m : Mem) (hd : Z) (X : Z -> list Z) (HX : levels kl mx m hd X).
Context (key : list Z) (Hl : zlen key = kl).

(** The nodes of a level before the key, and the others. *)
#[local] Abbreviation A i := (lower kl m key (X i)).
#[local] Abbreviation B i := (upper kl m key (X i)).

Lemma search_split i : 0 <= i < mx -> X i = A i ++ B i.
Proof. intros H. apply lower_upper; [done|]. by apply HX. Qed.

Lemma search_chain i : 0 <= i < mx -> chain kl m i hd (A i ++ B i).
Proof. intros H. rewrite <-search_split by done. by apply HX. Qed.

Lemma A_below i : Forall (fun q => below kl m key q = true) (A i).
Proof. apply Forall_forall. intros q Hq. by apply elem_of_lower in Hq as [? _]. Qed.

Lemma B_not_below i q : hd_error (B i) = Some q -> below kl m key q = false.
Proof.
  intros E. assert (Hq : q ∈ B i) by (destruct (B i); [done|injection E as ->; left]).
  by apply elem_of_upper in Hq as [? _].
Qed.

Lemma level_fuel i : 0 <= i < mx -> (length (X i) < enough m)%nat.
Proof.
  intros Hi. unfold enough. pose proof (lv_nodup _ _ _ _ _ HX i Hi) as Hn. apply NoDup_cons in Hn as [_ Hn].
  pose proof (length_dom m (X i) Hn (fun p Hp => proj1 (lv_nodes _ _ _ _ _ HX i p Hi Hp))). lia.
Qed.

(** From any node of a level before the key the walk ends at the last one. *)
Lemma walk_level i c : 0 <= i < mx -> c = hd \/ c ∈ A i ->
  walk (enough m) kl m c i key = Ok (last_of hd (A i)).
Proof.
  intros Hr Hc. pose proof (search_chain i Hr) as Hch. pose proof (A_below i) as Hb.
  assert (Hf : (length (A i) < enough m)%nat).
  { pose proof (level_fuel i Hr). assert (length (A i) <= length (X i))%nat by apply length_filter. lia. }
  destruct Hc as [->|(l1 & l2 & E)%list_elem_of_split].
  - apply (walk_chain kl Hk m i key _ (B i)); [done..|apply B_not_below|done].
  - rewrite E in *. replace (last_of hd (l1 ++ c :: l2)) with (last_of c l2)
      by (by rewrite last_of_app, last_of_cons).
    apply (walk_chain kl Hk m i key l2 (B i)); [done| | |apply B_not_below|].
    + rewrite <-app_assoc, <-app_comm_cons, (cons_middle c l1), app_assoc in Hch.
      apply chain_app in Hch. by rewrite last_of_app in Hch.
    + by apply Forall_app in Hb as [_ [_ Hb]%Forall_cons].
    + rewrite length_app in Hf. simpl in Hf. lia.
Qed.

(** Going down a level, the node is still one before the key. *)
Lemma step_down i c : 0 <= i -> i + 1 < mx -> c = hd \/ c ∈ A (i + 1) -> c = hd \/ c ∈ A i.
Proof.
  intros H0 H1 [->|Hc]; [by left|right]. apply elem_of_lower in Hc as [? Hc]. apply elem_of_lower.
  split; [done|]. by apply HX.
Qed.

Lemma last_before i : last_of hd (A i) = hd \/ last_of hd (A i) ∈ A i.
Proof. apply last_of_in. Qed.

(** Where a level's walk ended is a start for the next level. *)
Lemma last_down i : 0 < i < mx -> last_of hd (A i) = hd \/ last_of hd (A i) ∈ A (i - 1).
Proof.
  intros Hi. destruct (last_before i) as [->|Hin]; [by left|].
  apply (step_down (i - 1)); [lia|lia|right]. by replace (i - 1 + 1) with i by lia.
Qed.

Definition starts (c : Z) (n : nat) : Prop := c = hd \/ (0 < Z.of_nat n -> c ∈ A (Z.of_nat n - 1)).

Lemma starts_level c n : starts c (S n) -> c = hd \/ c ∈ A (Z.of_nat n).
Proof. intros [->|H]; [by left|right]. replace (Z.of_nat n) with (Z.of_nat (S n) - 1) by lia. apply H. lia. Qed.

Lemma starts_next n : Z.of_nat n < mx -> starts (last_of hd (A (Z.of_nat n))) n.
Proof.
  intros Hn. destruct (decide (0 < Z.of_nat n)); [|right; lia].
  destruct (last_down (Z.of_nat n)) as [->|H]; [lia|by left|by right].
Qed.

Lemma seek_spec (n : nat) : Z.of_nat n <= mx -> forall c, starts c n ->
  exists c', seek kl m key c n = Ok c' /\ (c' = hd \/ c' ∈ A 0 \/ c' = c /\ n = 0%nat).
Proof.
  induction n as [|n IH]; intros Hn c Hc; cbn [seek]; [by eauto 6|].
  rewrite walk_level by (by apply starts_level || lia). cbn [mbind res_bind].
  destruct (IH ltac:(lia) _ (starts_next n ltac:(lia))) as (c' & -> & Hc'). exists c'. split; [done|].
  destruct Hc' as [->|[?|[-> ->]]]; [by left|by right; left|].
  destruct (last_before (Z.of_nat 0)) as [->|?]; [by left|by right; left].
Qed.

Lemma descend_spec (n : nat) : Z.of_nat n <= mx -> forall c u, zlen u = mx ->
  starts c n ->
  exists u', descend kl m key c u n = Ok u' /\ zlen u' = mx /\
    (forall i, 0 <= i < Z.of_nat n -> zget u' i = Ok (last_of hd (A i))) /\
    (forall i, Z.of_nat n <= i -> zget u' i = zget u i).
Proof.
  induction n as [|n IH]; intros Hn c u Hu Hc; cbn [descend].
  { exists u. split_and!; [done|done|lia|done]. }
  rewrite walk_level by (by apply starts_level || lia). cbn [mbind res_bind]. rewrite zset_Ok by lia.
  cbn [mbind res_bind].
  edestruct (IH ltac:(lia) (last_of hd (A (Z.of_nat n)))) as (u' & -> & Hu' & Hlo & Hup).
  { by rewrite zlen_insert. }
  { apply starts_next. lia. }
  exists u'. split_and!; [done|done| |].
  - intros i Hin. destruct (decide (i < Z.of_nat n)); [apply Hlo; lia|].
    replace i with (Z.of_nat n) by lia. rewrite Hup by lia. apply zget_insert_eq. lia.
  - intros i Hin. rewrite Hup by lia. apply zget_insert_ne; lia.
Qed.
End search.

(** ** What the searches return *)
Section finding.
Context (kl mx : Z) (Hk : known kl = true) (m : Mem) (hd : Z) (X : Z -> list Z) (HX : levels kl mx m hd X).
Context (lvl : Z) (Hlvl : 0 <= lvl <= mx) (Hmx : 0 < mx).

Section collecting.
Context (lo hi : list Z) (stop : Z -> bool) (Hlo : zlen lo = kl) (Hhi : zlen hi = kl).

Definition stops (q : Z) : bool := stop (compare_keys kl (key_of m q) hi).
Definition value_of (q : Z) : Z := u32 (n_value (node m q)).

(** Taken are the nodes from [lo] for which the loop does not stop. *)
Definition taken (q : Z) : bool := negb (below kl m lo q) && negb (stops q).

Lemma collect_spec K : forall p fuel, chain kl m 0 p K ->
  StronglySorted (fun p q => below kl m lo q = true -> below kl m lo p = true) K ->
  StronglySorted (fun p q => stops p = true -> stops q = true) K -> (length K < fuel)%nat ->
  (node ← getNext kl m p 0; collect fuel kl m node lo hi stop)
    = Ok (value_of <$> filter (fun q => taken q = true) K).
Proof.
  induction K as [|q K IH]; intros p fuel Hc Hb Hs Hf; (destruct fuel as [|fuel]; [simpl in Hf; lia|]).
  { cbn [chain] in Hc. by rewrite Hc. }
  destruct Hc as (-> & Hq & [n Hn] & Hc). cbn [mbind res_bind collect].
  rewrite (proj2 (Z.eqb_neq q nullptr)) by done. apply StronglySorted_inv in Hb as [Hb Hallb].
  apply StronglySorted_inv in Hs as [Hs Hall].
  rewrite (compareNodeKey_ok kl Hk m q n lo), (compareNodeKey_ok kl Hk m q n hi) by done. cbn [mbind res_bind].
  assert (Hkey : key_of m q = n_key n) by (unfold key_of, node; by rewrite Hn).
  pose proof (IH q fuel Hc Hb Hs ltac:(simpl in Hf; lia)) as IHq.
  assert (Hbq : (compare_keys kl (n_key n) lo <? 0) = below kl m lo q) by (unfold below, lt; by rewrite Hkey).
  assert (Hst : stop (compare_keys kl (n_key n) hi) = stops q) by (unfold stops; by rewrite Hkey).
  rewrite Hbq, Hst. destruct (below kl m lo q) eqn:Eb.
  { rewrite filter_cons_False by (unfold taken; rewrite Eb; done). exact IHq. }
  destruct (stops q) eqn:Eq.
  - replace (filter (fun q => taken q = true) (q :: K)) with (@nil Z); [done|symmetry].
    apply elem_of_nil_inv. intros r [Hr Hin]%list_elem_of_filter. unfold taken in Hr.
    apply andb_true_iff in Hr as [_ Hr]. rewrite negb_true_iff in Hr. rewrite Forall_forall in Hall.
    apply elem_of_cons in Hin as [->|Hin]; [congruence|]. by rewrite (Hall r Hin) in Hr.
  - rewrite filter_cons_True by (unfold taken; by rewrite Eb, Eq). unfold getValue, deref. rewrite Hk, Hn. cbn [mbind res_bind].
    destruct (getNext kl m q 0) as [r| | |]; cbn [mbind res_bind] in *; try discriminate IHq.
    rewrite IHq. cbn [mbind res_bind]. rewrite fmap_cons. do 2 f_equal. unfold value_of, node. by rewrite Hn.
Qed.
End collecting.

(** The values of the entries that satisfy [P], in their order. *)
Definition values (P : list Z -> bool) : list Z :=
  (fun e => u32 e.2) <$> filter (fun e => P e.1 = true) (entries m X).

Lemma find_from_spec lo hi stop : zlen lo = kl -> zlen hi = kl ->
  (forall p q, lt kl (key_of m q) (key_of m p) = false -> stops hi stop p = true -> stops hi stop q = true) ->
  find_from kl m hd lvl lo hi stop =
    Ok (values (fun k => negb (lt kl k lo) && negb (stop (compare_keys kl k hi)))).
Proof.
  intros Hlo Hhi Hst. unfold find_from.
  destruct (seek_spec kl mx Hk m hd X HX lo Hlo (Z.to_nat lvl) ltac:(lia) hd ltac:(by left)) as (c & -> & Hc).
  cbn [mbind res_bind].
  assert (Hsplit : exists K1 K2, X 0 = K1 ++ K2 /\ c = last_of hd K1 /\ Forall (fun q => below kl m lo q = true) K1).
  { destruct (decide (c = hd)) as [->|Hne]; [by exists [], (X 0)|]. assert (Hin : c ∈ lower kl m lo (X 0)) by tauto.
    apply list_elem_of_split in Hin as (l1 & l2 & E). exists (l1 ++ [c]), (l2 ++ upper kl m lo (X 0)).
    rewrite (search_split kl mx Hk m hd X HX lo 0) at 1 by lia. rewrite E, last_of_app. split_and!; [by rewrite <-!app_assoc|done|].
    pose proof (A_below kl m X lo 0) as HA. rewrite E in HA. apply Forall_app in HA as [? [? ?]%Forall_cons].
    apply Forall_app. auto. }
  destruct Hsplit as (K1 & K2 & E & -> & HK1). pose proof (lv_sorted _ _ _ _ _ HX 0 ltac:(lia)) as Hs.
  pose proof (lv_chain _ _ _ _ _ HX 0 ltac:(lia)) as Hch. rewrite E in Hs, Hch. apply StronglySorted_app in Hs as (_ & _ & Hs).
  rewrite (collect_spec lo hi stop Hlo Hhi K2 (last_of hd K1)); [|by eapply chain_app| | |].
  - f_equal. unfold values, entries. rewrite E, fmap_app, filter_app, fmap_app.
    replace (filter _ (entry m <$> K1)) with (@nil (list Z * Z)).
    + clear. cbn. induction K2 as [|q K IH]; [done|]. rewrite fmap_cons, !filter_cons. unfold taken, below, stops in *.
      cbn [entry fst]. destruct (decide _); [|done]. rewrite !fmap_cons. by rewrite IH.
    + symmetry. apply elem_of_nil_inv. intros e [He (q & -> & Hq)%list_elem_of_fmap]%list_elem_of_filter.
      rewrite Forall_forall in HK1. specialize (HK1 q Hq). unfold below in HK1. cbn in He. by rewrite HK1 in He.
  - clear -Hs Hk. induction Hs as [|p K _ IH Hall]; constructor; [done|]. eapply Forall_impl; [exact Hall|].
    intros q Hq. unfold below. intros Hb. destruct (lt_split kl Hk _ (key_of m p) _ Hb); congruence.
  - clear -Hs Hst. induction Hs as [|p K _ IH Hall]; constructor; [done|].
    eapply Forall_impl; [exact Hall|]. intros q Hq. by apply Hst.
  - pose proof (level_fuel kl mx m hd X HX 0 ltac:(lia)) as Hf. rewrite E, length_app in Hf. lia.
Qed.

Lemma find_key_values key : zlen key = kl ->
  find_from kl m hd lvl key key past_key = Ok (values (fun k => negb (lt kl k key) && negb (lt kl key k))).
Proof.
  intros Hl. rewrite (find_from_spec key key past_key Hl Hl).
  - f_equal. unfold values. f_equal. apply list_filter_iff. intros e. unfold past_key. by rewrite lt_gt.
  - intros p q Hpq. unfold stops, past_key. rewrite !lt_gt by done. intros Hp.
    destruct (lt_split kl Hk _ (key_of m q) _ Hp); congruence.
Qed.

Lemma find_range_values b e : zlen b = kl -> zlen e = kl ->
  find_from kl m hd lvl b e past_end = Ok (values (fun k => negb (lt kl k b) && lt kl k e)).
Proof.
  intros Hb He. rewrite (find_from_spec b e past_end Hb He).
  - f_equal. unfold values. f_equal. apply list_filter_iff. intros x. unfold past_end. by rewrite lt_ge, negb_involutive.
  - intros p q Hpq. unfold stops, past_end. rewrite !lt_ge, !negb_true_iff. intros Hp.
    apply not_true_iff_false. intros Hq. destruct (lt_split kl Hk _ (key_of m p) _ Hq); congruence.
Qed.
End finding.

Lemma findByKey_values s X key : inv s X -> zlen key = keyLen s ->
  findByKey s key = Ok (values (mem s) X (fun k => negb (lt (keyLen s) k key) && negb (lt (keyLen s) key k))).
Proof.
  intros [] Hl. unfold findByKey. rewrite Hl, Z.eqb_refl. cbn [negb]. by eapply find_key_values; [| |done|lia|].
Qed.

Lemma findByRange_values s X b e : inv s X -> zlen b = keyLen s -> zlen e = keyLen s ->
  findByRange s b e = Ok (values (mem s) X (fun k => negb (lt (keyLen s) k b) && lt (keyLen s) k e)).
Proof.
  intros [] Hb He. unfold findByRange. rewrite Hb, He, Z.eqb_refl. cbn [negb orb]. by eapply find_range_values; [| |done|lia| |].
Qed.

(** ** Hooking a node in *)
Section linking.
Context (kl : Z) (Hk : known kl = true).

(** A chain only looks at pointers of its own level and of its own nodes. *)
Lemma chain_ext m m' i p l : (forall q, q ∈ p :: l -> getNext kl m' q i = getNext kl m q i) ->
  (forall q, q ∈ l -> is_Some (m' !! q)) -> chain kl m i p l -> chain kl m' i p l.
Proof.
  revert p. induction l as [|q l IH]; intros p He Hs; cbn [chain].
  - by rewrite He by left.
  - intros (? & ? & _ & ?). rewrite He by left. split_and!; [done|done|apply Hs; left|].
    apply IH; [|intros; apply Hs; by right|done]. intros r Hr. apply He. by right.
Qed.

Lemma chain_put_other m m' j v q i p l : putNext kl m j v q = Ok m' -> 0 <= v -> same_nodes m m' ->
  i <> v \/ j ∉ p :: l -> chain kl m i p l -> chain kl m' i p l.
Proof.
  intros E Hv Hs Hd Hc. eapply chain_ext; [| |exact Hc].
  - intros r Hr. rewrite (getNext_put kl Hk _ _ _ _ _ _ _ E Hv), decide_False; [done|].
    intros [-> ->]. destruct Hd; done.
  - intros r Hr. apply Hs. clear -Hc Hr. revert p Hc. induction l as [|x l IH]; intros p Hc; [by apply elem_of_nil in Hr|].
    destruct Hc as (_ & _ & Hx & Hc). apply elem_of_cons in Hr as [->|Hr]; [done|by eapply IH].
Qed.

(** Hooking [new] in behind the last node of [X]. *)
Lemma chain_insert m m1 m2 i new X Y : 0 <= i -> new <> nullptr -> is_Some (m !! new) ->
  same_nodes m m1 -> same_nodes m1 m2 -> forall h,
  NoDup (h :: X ++ Y) -> (new ∉ h :: X ++ Y) -> chain kl m i h (X ++ Y) ->
  (forall q, getNext kl m (last_of h X) i = Ok q -> putNext kl m new i q = Ok m1) ->
  putNext kl m1 (last_of h X) i new = Ok m2 ->
  chain kl m2 i h (X ++ new :: Y).
Proof.
  intros Hi0 Hnew Hsn Hm1 Hm2. assert (Hs2 : forall p, is_Some (m !! p) -> is_Some (m2 !! p)).
  { intros p Hp. by apply Hm2, Hm1. }
  induction X as [|x X IH]; intros h Hnd Hni Hc H1 H2.
  - cbn [app] in *. change (last_of h []) with h in *. apply NoDup_cons in Hnd as [Hh Hnd].
    assert (Hq : exists q, getNext kl m h i = Ok q) by (destruct Y; [eauto|destruct Hc; eauto]).
    destruct Hq as (q & Eq). specialize (H1 q Eq).
    assert (Hg : forall r j, getNext kl m2 r j =
      if decide (r = h /\ j = i) then Ok new else if decide (r = new /\ j = i) then Ok q else getNext kl m r j).
    { intros r j. by rewrite (getNext_put kl Hk _ _ _ _ _ _ _ H2), (getNext_put kl Hk _ _ _ _ _ _ _ H1) by done. }
    split_and!; [by rewrite Hg, decide_True|done|by apply Hs2|].
    assert (Hn2 : getNext kl m2 new i = Ok q).
    { rewrite Hg, decide_False, decide_True; [done|done|]. intros [-> _]. apply Hni. by left. }
    destruct Y as [|y Y]; cbn [chain] in *; [rewrite Hn2; congruence|].
    destruct Hc as (Ey & Hy & Hsy & Hc). rewrite Hn2. split_and!; [congruence|done|by apply Hs2|].
    eapply (chain_ext m); [| |exact Hc].
    + intros r Hr. rewrite Hg, !decide_False; [done| |].
      * intros [-> _]. apply Hni. by right.
      * intros [-> _]. by apply Hh.
    + intros r Hr. apply Hs2. clear -Hc Hr. revert y Hc. induction Y as [|z Y IH]; intros y Hc; [by apply elem_of_nil in Hr|].
      destruct Hc as (_ & _ & Hx & Hc). apply elem_of_cons in Hr as [->|Hr]; [done|by eapply IH].
  - rewrite last_of_cons in *. destruct Hc as (Ex & Hx & Hsx & Hc). cbn [app chain].
    apply NoDup_cons in Hnd as [Hh Hnd]. split_and!; [|done|by apply Hs2|].
    + assert (Hne : h <> last_of x X).
      { intros ->. apply Hh. destruct (last_of_in x X) as [->|]; [by left|].
        right. apply elem_of_app. by left. }
      rewrite (getNext_put kl Hk _ _ _ _ _ _ _ H2) by done. rewrite decide_False by tauto.
      assert (Hq : exists q, getNext kl m (last_of x X) i = Ok q).
      { apply chain_app in Hc. destruct Y; [eauto|destruct Hc; eauto]. }
      destruct Hq as (q & Eq). rewrite (getNext_put kl Hk _ _ _ _ _ _ _ (H1 q Eq)) by done. rewrite decide_False; [done|].
      intros [-> _]. apply Hni. by left.
    + apply IH; [done| |done|done|done]. intros Hin. apply Hni. by right.
Qed.

(** Level [i] with [p] before the first node that is not below [key]. *)
Definition hook (m : Mem) (key : list Z) (p i : Z) (X : Z -> list Z) (j : Z) : list Z :=
  if j =? i then lower kl m key (X j) ++ p :: upper kl m key (X j) else X j.

Lemma elem_of_hook mx m hd X key p i j q : levels kl mx m hd X -> 0 <= j < mx ->
  q ∈ hook m key p i X j <-> (q = p /\ j = i) \/ q ∈ X j.
Proof.
  intros HX Hj. unfold hook. case_test; zbool.
  - rewrite elem_of_app, elem_of_cons. rewrite (search_split kl mx Hk m hd X HX key j Hj) at 3.
    rewrite elem_of_app. tauto.
  - split; [tauto|]. intros [[_ ?]|?]; [lia|done].
Qed.

Lemma sorted_same m m' L : same_nodes m m' -> (forall q, q ∈ L -> is_Some (m !! q)) -> sorted kl m L -> sorted kl m' L.
Proof.
  intros Hs Hin. unfold sorted. induction 1 as [|x L _ IH Hall]; constructor.
  - apply IH. intros. apply Hin. by right.
  - rewrite Forall_forall in *. intros y Hy. destruct (Hs x) as (_ & -> & _); [apply Hin; by left|].
    destruct (Hs y) as (_ & -> & _); [apply Hin; by right|]. by apply Hall.
Qed.

(** [levels] is kept by anything that keeps the nodes and the chains. *)
Lemma levels_same mx m m' hd X : levels kl mx m hd X -> same_nodes m m' ->
  (forall i, 0 <= i < mx -> chain kl m' i hd (X i)) -> levels kl mx m' hd X.
Proof.
  intros HX Hs Hc. pose proof HX as [(Hh1 & Hh2 & Hh3) ? Hn ? ? ?]. split; try done.
  - destruct (Hs hd Hh1) as (? & _ & _ & ->). done.
  - intros i p Hi Hp. destruct (Hn i p Hi Hp) as (H1 & H2 & H3). destruct (Hs p H1) as (? & _ & _ & ->). done.
  - intros i Hi. eapply sorted_same; [exact Hs| |auto]. intros q Hq. by apply (Hn i q).
Qed.

Lemma hook_levels mx m m1 m2 hd X key p i q : levels kl mx m hd X -> 0 <= i < mx ->
  key_of m p = key -> is_Some (m !! p) -> p <> nullptr -> i < height m p -> p ∉ hd :: X i ->
  (0 < i -> p ∈ X (i - 1)) ->
  getNext kl m (last_of hd (lower kl m key (X i))) i = Ok q -> putNext kl m p i q = Ok m1 ->
  putNext kl m1 (last_of hd (lower kl m key (X i))) i p = Ok m2 ->
  levels kl mx m2 hd (hook m key p i X).
Proof.
  intros HX Hi Hkp Hp Hp0 Hhp Hnin Hbelow Eq E1 E2.
  destruct (putNext_inv kl Hk _ _ _ _ _ E1) as (Hs1 & _), (putNext_inv kl Hk _ _ _ _ _ E2) as (Hs2 & _).
  pose proof (same_nodes_trans _ _ _ Hs1 Hs2) as Hs. pose proof (search_split kl mx Hk m hd X HX key i Hi) as HL.
  set (A := lower kl m key (X i)) in *. set (B := upper kl m key (X i)) in *.
  assert (He : hook m key p i X i = A ++ p :: B) by (unfold hook; by rewrite Z.eqb_refl).
  assert (Hne : forall j, j <> i -> hook m key p i X j = X j) by (intros j Hj; unfold hook; by rewrite (proj2 (Z.eqb_neq j i))).
  pose proof HX as [(Hh1 & Hh2 & Hh3) Hnd Hn Hso Hb Hc].
  assert (HsA : sorted kl m (A ++ p :: B)).
  { specialize (Hso i Hi). rewrite HL in Hso. apply StronglySorted_app in Hso as (Hab & HA & HB).
    assert (HbB : forall q, q ∈ B -> lt kl (key_of m q) key = false) by (intros x Hx; by apply elem_of_upper in Hx as [? _]).
    apply StronglySorted_app. split_and!; [|done|].
    - intros x y Hx [->|Hy]%elem_of_cons; [|by apply Hab]. rewrite Hkp. apply lt_asym; [done|].
      by apply elem_of_lower in Hx as [? _].
    - constructor; [done|]. apply Forall_forall. intros y Hy. rewrite Hkp. by apply HbB. }
  split.
  - destruct (Hs hd Hh1) as (? & _ & _ & ->). done.
  - intros j Hj. destruct (decide (j = i)) as [->|Hji]; [|by rewrite Hne by done; apply Hnd].
    rewrite He. specialize (Hnd i Hi). rewrite HL in Hnd, Hnin. clear -Hnd Hnin.
    rewrite NoDup_cons, NoDup_app, NoDup_cons in *. set_solver.
  - intros j x Hj Hx. assert (Hx' : is_Some (m !! x) /\ x <> nullptr /\ j < height m x).
    { apply (elem_of_hook mx m hd) in Hx as [[-> ->]|Hx]; [done|by apply Hn|done|done]. }
    destruct Hx' as (H1 & H2 & H3). destruct (Hs x H1) as (? & _ & _ & ->). done.
  - intros j Hj. destruct (decide (j = i)) as [->|Hji].
    + rewrite He. eapply sorted_same; [exact Hs| |exact HsA]. intros x. rewrite elem_of_app, elem_of_cons.
      intros [Hx|[->|Hx]]; [|done|]; (apply elem_of_lower in Hx as [_ Hx] || apply elem_of_upper in Hx as [_ Hx]); by apply (Hn i x).
    + rewrite Hne by done. eapply sorted_same; [exact Hs| |auto]. intros x Hx. by apply (Hn j x).
  - intros j x Hj Hj1. rewrite !(elem_of_hook mx m hd) by (done || lia). intros [[-> E]|Hx]; right; [|by apply Hb].
    replace j with (i - 1) by lia. apply Hbelow. lia.
  - intros j Hj. destruct (decide (j = i)) as [->|Hji].
    + rewrite He. eapply (chain_insert m m1 m2); [lia|done|done|done|done| | | | |exact E2].
      * rewrite <-HL. by apply Hnd.
      * by rewrite <-HL.
      * rewrite <-HL. by apply Hc.
      * intros q' Eq'. by rewrite Eq in Eq'; injection Eq' as <-.
    + rewrite Hne by done. eapply (chain_put_other m1 m2); [exact E2|lia|done|by left|].
      eapply (chain_put_other m m1); [exact E1|lia|done|by left|by apply Hc].
Qed.
End linking.

Lemma randomLevel_range coins maxLvl : 0 < maxLvl < 2 ^ 31 -> 1 <= randomLevel coins maxLvl <= maxLvl.
Proof.
  intros Hm. unfold randomLevel.
  assert (H : forall fuel k lvl, 1 <= lvl <= maxLvl -> 1 <= level_from fuel coins k lvl maxLvl <= maxLvl).
  { induction fuel as [|fuel IH]; intros k lvl Hl; cbn [level_from]; [done|].
    case_test; [|done]. zbool. apply IH. rewrite u32_small; lia. }
  apply H. lia.
Qed.

(** The abstract insertion: before the first entry that is not smaller. *)
Fixpoint put_sorted (kl : Z) (e : list Z * Z) (l : list (list Z * Z)) : list (list Z * Z) :=
  match l with
  | [] => [e]
  | x :: l => if lt kl x.1 e.1 then x :: put_sorted kl e l else e :: x :: l
  end.

Lemma put_sorted_app kl e l1 l2 : Forall (fun x => lt kl x.1 e.1 = true) l1 ->
  (forall x, hd_error l2 = Some x -> lt kl x.1 e.1 = false) -> put_sorted kl e (l1 ++ l2) = l1 ++ e :: l2.
Proof.
  induction 1 as [|x l1 Hx _ IH]; intros H2; cbn.
  - destruct l2 as [|x l2]; [done|]. cbn. by rewrite (H2 x).
  - rewrite Hx. by rewrite IH.
Qed.


(** ** Inserting *)
Lemma filter_same (m m' : Mem) kl key (L : list Z) b : same_nodes m m' -> (forall q, q ∈ L -> is_Some (m !! q)) ->
  filter (fun q => below kl m' key q = b) L = filter (fun q => below kl m key q = b) L.
Proof.
  intros Hs. induction L as [|q L IH]; intros HL; [done|]. rewrite !filter_cons, IH by (intros; apply HL; by right).
  unfold below. by destruct (Hs q ltac:(apply HL; left)) as (_ & -> & _).
Qed.

Lemma lower_same m m' kl key L : same_nodes m m' -> (forall q, q ∈ L -> is_Some (m !! q)) ->
  lower kl m' key L = lower kl m key L.
Proof. apply filter_same. Qed.
Lemma upper_same m m' kl key L : same_nodes m m' -> (forall q, q ∈ L -> is_Some (m !! q)) ->
  upper kl m' key L = upper kl m key L.
Proof. apply filter_same. Qed.

Lemma levels_in kl mx m hd X i p : levels kl mx m hd X -> 0 <= i < mx -> p ∈ hd :: X i -> is_Some (m !! p).
Proof.
  intros HX Hi [->|Hp]%elem_of_cons; [apply HX|]. by apply (lv_nodes _ _ _ _ _ HX i p).
Qed.

(** A chain from the head has a last pointer. *)
Lemma next_of_last kl m i h l k : chain kl m i h (l ++ k) -> exists q, getNext kl m (last_of h l) i = Ok q.
Proof. intros Hc%chain_app. destruct k; [eauto|destruct Hc; eauto]. Qed.

Section linking_all.
Context (kl mx : Z) (Hk : known kl = true) (hd : Z) (key : list Z) (p : Z) (upd : list Z).

(** The loop of [insert] hooks the node in from level [j] up. *)
Lemma link_spec n : forall j m X, levels kl mx m hd X -> Z.of_nat (j + n) <= mx ->
  key_of m p = key -> is_Some (m !! p) -> p <> nullptr -> Z.of_nat (j + n) <= height m p ->
  (forall i, Z.of_nat j <= i < mx -> p ∉ hd :: X i) -> (0 < Z.of_nat j -> p ∈ X (Z.of_nat j - 1)) ->
  (forall i, Z.of_nat j <= i < Z.of_nat (j + n) -> zget upd i = Ok (last_of hd (lower kl m key (X i)))) ->
  exists m' X', link kl m p upd (Z.of_nat <$> seq j n) = Ok m' /\ levels kl mx m' hd X' /\ same_nodes m m' /\
    dom m' = dom m /\ (forall i, Z.of_nat j <= i < Z.of_nat (j + n) ->
      X' i = lower kl m key (X i) ++ p :: upper kl m key (X i)) /\
    (forall i, i < Z.of_nat j \/ Z.of_nat (j + n) <= i -> X' i = X i).
Proof.
  induction n as [|n IH]; intros j m X HX Hmx Hkp Hp Hp0 Hh Hout Hin Hupd; cbn [seq fmap list_fmap link].
  { exists m, X. split_and!; [done|done|apply same_nodes_refl|done|lia|done]. }
  set (i := Z.of_nat j) in *. assert (Hi : 0 <= i < mx) by lia. rewrite Hupd by lia. cbn [mbind res_bind].
  destruct (next_of_last kl m i hd (lower kl m key (X i)) (upper kl m key (X i))) as (q & Eq).
  { rewrite <-(search_split kl mx Hk m hd X HX key i Hi). by apply HX. }
  rewrite Eq. cbn [mbind res_bind]. pose proof Hp as [np Hnp].
  destruct (putNext_ok kl Hk m p np i q Hnp) as (m1 & E1 & Hs1 & Hd1).
  { unfold height, node in Hh. rewrite Hnp in Hh. cbn in Hh. lia. }
  rewrite E1. cbn [mbind res_bind]. destruct (getNext_node kl Hk m _ i q Eq) as (un & Hun & Hul%zget_range).
  set (u := last_of hd (lower kl m key (X i))) in *.
  destruct (Hs1 u (mk_is_Some _ _ Hun)) as ([un1 Hun1] & _ & _ & Hh1).
  destruct (putNext_ok kl Hk m1 u un1 i p Hun1) as (m2 & E2 & Hs2 & Hd2).
  { unfold height, node in Hh1. rewrite Hun, Hun1 in Hh1. cbn in Hh1. lia. }
  rewrite E2. cbn [mbind res_bind]. pose proof (same_nodes_trans _ _ _ Hs1 Hs2) as Hs.
  pose proof (hook_levels kl Hk mx m m1 m2 hd X key p i q HX Hi Hkp Hp Hp0 ltac:(lia)
    ltac:(apply Hout; lia) Hin Eq E1 E2) as HX2.
  assert (Hsome : forall k q', 0 <= k < mx -> q' ∈ X k -> is_Some (m !! q')).
  { intros k q' Hk' Hq'. apply (levels_in kl mx m hd X k); [done|done|by right]. }
  assert (Hne : forall k, k <> i -> hook kl m key p i X k = X k) by (intros k Hki; unfold hook; by rewrite (proj2 (Z.eqb_neq k i))).
  destruct (Hs p Hp) as (Hp2 & Hk2 & _ & Hh2).
  destruct (IH (S j) m2 (hook kl m key p i X)) as (m' & X' & -> & HX' & Hs' & Hd' & Hin' & Hout').
  - done.
  - lia.
  - congruence.
  - done.
  - done.
  - lia.
  - intros k Hkk. rewrite Hne by lia. apply Hout. lia.
  - intros _. rewrite (elem_of_hook kl Hk mx m hd) by (done || lia). left. split; [done|lia].
  - intros k Hkk. rewrite Hne by lia. rewrite Hupd by lia. by rewrite (lower_same m m2) 
      by (done || (intros; eapply Hsome; [|done]; lia)).
  - exists m', X'. split_and!; [done|done|by eapply same_nodes_trans|by rewrite Hd', Hd2| |].
    + intros k Hkk. destruct (decide (k = i)) as [->|Hki].
      * rewrite Hout' by lia. unfold hook. by rewrite Z.eqb_refl.
      * rewrite Hin', Hne by lia.
        rewrite (lower_same m m2), (upper_same m m2) by (done || (intros; eapply Hsome; [|done]; lia)). done.
    + intros k Hkk. rewrite Hout' by lia. apply Hne. lia.
Qed.
End linking_all.

(** Allocating a node changes no level. *)
Lemma chain_elem kl m i p l q : chain kl m i p l -> q ∈ l -> is_Some (m !! q).
Proof.
  revert p. induction l as [|x l IH]; intros p Hc Hq; [by apply elem_of_nil in Hq|].
  destruct Hc as (_ & _ & Hx & Hc). apply elem_of_cons in Hq as [->|Hq]; [done|by eapply IH].
Qed.

Lemma same_nodes_fresh m p n : m !! p = None -> same_nodes m (<[p := n]> m).
Proof.
  intros Hp q [nq Hq]. unfold key_of, height, node. rewrite lookup_insert_ne by congruence. rewrite Hq. done.
Qed.

Lemma levels_fresh kl mx m hd X p n : known kl = true -> levels kl mx m hd X -> m !! p = None ->
  levels kl mx (<[p := n]> m) hd X.
Proof.
  intros Hk HX Hp. apply (levels_same kl mx m); [done|by apply same_nodes_fresh|]. intros i Hi.
  assert (Hne : forall q, q ∈ hd :: X i -> p <> q).
  { intros q Hq <-. destruct (levels_in kl mx m hd X i p HX Hi Hq). congruence. }
  eapply chain_ext; [| |by apply HX].
  - intros q Hq. unfold getNext, deref. rewrite Hk, lookup_insert_ne by auto. done.
  - intros q Hq. rewrite lookup_insert_ne by (apply Hne; by right).
    apply (levels_in kl mx m hd X i); [done|done|by right].
Qed.

Section inserting.
Context (s : SkipList) (X : Z -> list Z) (Hi : inv s X) (p : Z) (coins : nat -> bool) (key : list Z) (value maxNode : Z).
Context (Hl : zlen key = keyLen s) (Hroom : nodeNum s <= maxNode) (Hp : mem s !! p = None) (Hp0 : p <> nullptr).

(** [insert] puts the entry before the first that is not smaller. *)
Lemma insert_ok : exists s' X', insert s p coins key value maxNode = Ok (true, s') /\ inv s' X' /\
  entries (mem s') X' = put_sorted (keyLen s) (key, value) (entries (mem s) X) /\
  keyLen s' = keyLen s /\ valueLen s' = valueLen s /\ nodeNum s' = u64 (nodeNum s + 1) /\
  dom (mem s') = {[p]} ∪ dom (mem s).
Proof.
  pose proof Hi as [Hk Hmx Hlv HX Htow]. set (kl := keyLen s) in *. set (mx := maxLevel s) in *.
  set (lvl := randomLevel coins mx). pose proof (randomLevel_range coins _ Hmx) as Hr. fold lvl in Hr.
  pose proof (zlen_nonneg key) as Hz. unfold insert. fold kl mx lvl. rewrite Hl, Z.eqb_refl. cbn [negb].
  rewrite (proj2 (Z.ltb_ge maxNode (nodeNum s))) by done.
  unfold newNode. rewrite Hk, zread_Ok by lia. cbn [mbind res_bind]. rewrite zslice_full by done.
  set (n := mkNode key value (replicate (Z.to_nat lvl) nullptr) false). set (m1 := <[p := n]> (mem s)).
  pose proof (levels_fresh kl mx (mem s) (head s) X p n Hk HX Hp) as HX1. fold m1 in HX1.
  pose proof (same_nodes_fresh (mem s) p n Hp) as Hs1. fold m1 in Hs1.
  assert (Hn1 : node m1 p = n) by (unfold node, m1; by rewrite lookup_insert_eq).
  set (from := if lvl <? level s then level s else lvl).
  assert (Hfr : lvl <= from <= mx) by (unfold from; case_test; zlia). cbn [mbind res_bind].
  destruct (descend_spec kl mx Hk m1 (head s) X HX1 key Hl (Z.to_nat from) ltac:(lia) (head s)
    (replicate (Z.to_nat mx) nullptr) ltac:(rewrite zlen_replicate; lia) ltac:(by left)) as (upd & -> & _ & Hu & _).
  cbn [mbind res_bind].
  assert (Hnot : forall i, 0 <= i < mx -> p ∉ head s :: X i).
  { intros i Hin Hpi. destruct (levels_in kl mx (mem s) (head s) X i p HX Hin Hpi). congruence. }
  assert (Hh1 : height m1 p = lvl) by (unfold height; rewrite Hn1; cbn; rewrite zlen_replicate; lia).
  destruct (link_spec kl mx Hk (head s) key p upd (Z.to_nat lvl) 0 m1 X HX1) as (m2 & X' & E & HX' & Hs2 & Hd2 & Hin & Hout).
  - lia.
  - unfold key_of. by rewrite Hn1.
  - unfold m1. rewrite lookup_insert_eq. by eexists.
  - done.
  - lia.
  - intros i Hi'. apply Hnot. lia.
  - lia.
  - intros i Hi'. apply Hu. lia.
  - unfold zseq. rewrite E. cbn [mbind res_bind]. pose proof (same_nodes_trans _ _ _ Hs1 Hs2) as Hs.
    assert (Hsome : forall i q, 0 <= i < mx -> q ∈ X i -> is_Some (mem s !! q)).
    { intros i q Hi' Hq. apply (levels_in kl mx (mem s) (head s) X i); [done|done|by right]. }
    assert (Hp1 : is_Some (m1 !! p)) by (unfold m1; rewrite lookup_insert_eq; by eexists).
    destruct (Hs2 p Hp1) as (_ & Hkp & Hvp & Hhp). set (top := if level s <? lvl then lvl else level s).
    assert (HX'i : forall i q, 0 <= i < mx -> q ∈ X' i <-> (q = p /\ i < lvl) \/ q ∈ X i).
    { intros i q Hi'. destruct (decide (i < lvl)).
      - rewrite Hin, elem_of_app, elem_of_cons by lia. rewrite (search_split kl mx Hk m1 (head s) X HX1 key i Hi') at 3.
        rewrite elem_of_app. tauto.
      - rewrite Hout by lia. intuition lia. }
    eexists _, X'. split; [done|]. split; [|split_and!; try done].
    + split; cbn [keyLen maxLevel level head mem with_mem]; fold kl mx.
      * done.
      * done.
      * unfold top. case_test; zlia.
      * done.
      * intros q Hq. rewrite HX'i in Hq by lia. destruct Hq as [[-> _]|Hq].
        -- rewrite Hhp, Hh1. split; [unfold top; case_test; zlia|]. intros i Hi'. apply HX'i; [lia|]. left. split; [done|lia].
        -- destruct (Hs q (Hsome 0 q ltac:(lia) Hq)) as (_ & _ & _ & ->). destruct (Htow q Hq) as [Hb Ht].
           split; [unfold top; case_test; zlia|]. intros i Hi'. apply HX'i; [lia|]. right. by apply Ht.
    + cbn [mem with_mem]. unfold entries. rewrite Hin by lia.
      assert (He : forall K : list Z, (forall q, q ∈ K -> q ∈ X 0) -> (entry m2 <$> K) = (entry (mem s) <$> K)).
      { intros K HK. apply list_fmap_ext. intros i q Hq. apply list_elem_of_lookup_2, HK, (Hsome 0) in Hq; [|lia].
        destruct (Hs q Hq) as (_ & Hkq & Hvq & _). unfold entry. by rewrite Hkq, Hvq. }
      rewrite (lower_same (mem s) m1), (upper_same (mem s) m1) by (done || (intros; apply (Hsome 0); [lia|done])).
      rewrite (search_split kl mx Hk (mem s) (head s) X HX key 0) at 3 by lia.
      rewrite !fmap_app, fmap_cons, !He by (intros q Hq; (apply elem_of_lower in Hq || apply elem_of_upper in Hq); tauto).
      replace (entry m2 p) with (key, value) by (unfold entry; rewrite Hkp, Hvp; unfold key_of; by rewrite Hn1).
      symmetry. apply put_sorted_app.
      * apply Forall_fmap, Forall_forall. intros q Hq. by apply elem_of_lower in Hq as [? _].
      * intros x Hx. apply hd_error_some_nil in Hx as Hne.
        destruct (upper kl (mem s) key (X 0)) as [|b B'] eqn:EB; [done|]. injection Hx as <-.
        assert (Hb : b ∈ upper kl (mem s) key (X 0)) by (rewrite EB; left). by apply elem_of_upper in Hb as [? _].
    + cbn [mem with_mem]. rewrite Hd2. unfold m1. apply dom_insert_L.
Qed.
End inserting.

(** ** A history of insertions *)

(** One call: the address that the allocator would return, the coins, the key
    and the value. *)
Record Call := mkCall { c_addr : Z; c_coins : nat -> bool; c_key : list Z; c_value : Z }.

(** The calls in order; the answers and the list afterwards. *)
Fixpoint feed (s : SkipList) (maxNode : Z) (calls : list Call) : res (list bool * SkipList) :=
  match calls with
  | [] => Ok ([], s)
  | c :: calls =>
      '(b, s) ← insert s (c_addr c) (c_coins c) (c_key c) (c_value c) maxNode;
      '(bs, s) ← feed s maxNode calls;
      Ok (b :: bs, s)
  end.

Definition pair_of (c : Call) : list Z * Z := (c_key c, c_value c).

(** What a list that was given the pairs [h] holds. *)
Definition held (kl : Z) (h : list (list Z * Z)) : list (list Z * Z) :=
  foldl (fun l e => put_sorted kl e l) [] h.

Definition same_key (kl : Z) (a b : list Z) : bool := negb (lt kl a b) && negb (lt kl b a).

Section held.
Context (kl : Z) (Hk : known kl = true).
Let le_pair (x y : list Z * Z) : Prop := lt kl y.1 x.1 = false.

Lemma put_sorted_perm e l : put_sorted kl e l ≡ₚ e :: l.
Proof.
  induction l as [|x l IH]; [done|]. cbn. destruct (lt kl x.1 e.1); [|done].
  rewrite IH. constructor.
Qed.

Lemma put_sorted_sorted e l : StronglySorted le_pair l -> StronglySorted le_pair (put_sorted kl e l).
Proof.
  induction 1 as [|x l Hs IH Hall]; cbn; [repeat constructor|]. destruct (lt kl x.1 e.1) eqn:E.
  - constructor; [done|]. rewrite put_sorted_perm. constructor; [by apply lt_asym|done].
  - constructor; [by constructor|]. constructor; [done|]. eapply Forall_impl; [exact Hall|].
    intros y Hy. apply not_true_iff_false. intros Hye. destruct (lt_split kl Hk _ x.1 _ Hye) as [|Hx]; unfold le_pair in *; congruence.
Qed.

Lemma put_sorted_same e l key : StronglySorted le_pair l ->
  filter (fun x => same_key kl x.1 key = true) (put_sorted kl e l)
    = filter (fun x => same_key kl x.1 key = true) (e :: l).
Proof.
  induction 1 as [|x l Hs IH Hall]; cbn [put_sorted]; [done|]. destruct (lt kl x.1 e.1) eqn:E; [|done].
  rewrite filter_cons, IH, !filter_cons. destruct (decide (same_key kl x.1 key = true)) as [Hx|], (decide (same_key kl e.1 key = true)) as [He|]; try done.
  exfalso. unfold same_key in *. rewrite andb_true_iff, !negb_true_iff in Hx, He. destruct Hx, He.
  destruct (lt_split kl Hk _ key _ E); congruence.
Qed.

Lemma held_app h e : held kl (h ++ [e]) = put_sorted kl e (held kl h).
Proof. unfold held. by rewrite foldl_app. Qed.

Lemma held_sorted h : StronglySorted le_pair (held kl h).
Proof.
  induction h as [|e h IH] using rev_ind; [constructor|]. rewrite held_app. by apply put_sorted_sorted.
Qed.

Lemma held_perm h : held kl h ≡ₚ h.
Proof.
  induction h as [|e h IH] using rev_ind; [done|]. rewrite held_app, put_sorted_perm, IH.
  by rewrite Permutation_app_comm.
Qed.

Lemma held_same h key : filter (fun x => same_key kl x.1 key = true) (held kl h)
  = reverse (filter (fun x => same_key kl x.1 key = true) h).
Proof.
  induction h as [|e h IH] using rev_ind; [done|].
  rewrite held_app, put_sorted_same by apply held_sorted. rewrite filter_app, reverse_app, <-IH, !filter_cons.
  by case_decide.
Qed.
End held.

Lemma new_inv m p maxLvl kl vl : known kl = true -> 0 < maxLvl < 2 ^ 31 -> m !! p = None -> p <> nullptr ->
  exists s, new_SkipList m p maxLvl kl vl = Ok s /\ inv s (fun _ => []) /\ keyLen s = kl /\ valueLen s = vl /\
    nodeNum s = 0 /\ dom (mem s) = {[p]} ∪ dom m.
Proof.
  intros Hk Hm Hp Hp0. assert (0 <= kl) by (unfold known in Hk; zbool; lia).
  unfold new_SkipList, newNode. rewrite Hk, zread_Ok by (rewrite ?zlen_replicate; lia).
  cbn [mbind res_bind]. eexists. split; [done|]. split; [|split_and!; try done; apply dom_insert_L].
  split; cbn; try done; [lia| |intros q Hq; by apply elem_of_nil in Hq]. split; try done.
  - unfold height, node. rewrite lookup_insert_eq. cbn. rewrite zlen_replicate. split_and!; [eauto|lia|done].
  - intros i _. apply NoDup_cons. split; [apply not_elem_of_nil|constructor].
  - intros i q _ Hq. by apply elem_of_nil in Hq.
  - intros i _. constructor.
  - intros i Hi. cbn. unfold getNext, deref. rewrite Hk, lookup_insert_eq. cbn. apply zget_replicate; lia.
Qed.

Lemma insert_full s p coins key value maxNode : zlen key = keyLen s -> maxNode < nodeNum s ->
  insert s p coins key value maxNode = Ok (false, s).
Proof.
  intros Hl Hn. unfold insert. by rewrite Hl, Z.eqb_refl, (proj2 (Z.ltb_lt maxNode (nodeNum s))).
Qed.

(** Every call is answered; the first [maxNode + 1] are kept, in the order
    that [held] gives. *)
Lemma feed_spec maxNode calls : 0 <= maxNode < 2 ^ 64 - 1 -> forall s X h,
  inv s X -> entries (mem s) X = held (keyLen s) h -> nodeNum s = zlen h -> zlen h <= maxNode + 1 ->
  NoDup (c_addr <$> calls) ->
  Forall (fun c => zlen (c_key c) = keyLen s /\ c_addr c <> nullptr /\ mem s !! c_addr c = None) calls ->
  exists bs s' X', feed s maxNode calls = Ok (bs, s') /\
    bs = replicate (min (length calls) (Z.to_nat (maxNode + 1 - zlen h))) true
      ++ replicate (length calls - Z.to_nat (maxNode + 1 - zlen h)) false /\
    inv s' X' /\ keyLen s' = keyLen s /\ valueLen s' = valueLen s /\
    nodeNum s' = zlen (h ++ take (Z.to_nat (maxNode + 1 - zlen h)) (pair_of <$> calls)) /\
    entries (mem s') X' = held (keyLen s) (h ++ take (Z.to_nat (maxNode + 1 - zlen h)) (pair_of <$> calls)).
Proof.
  intros Hm. induction calls as [|c calls IH]; intros s X h Hi He Hn Hh Hnd Hall; cbn [feed].
  { exists [], s, X. rewrite fmap_nil, take_nil, !app_nil_r. split_and!; done. }
  rewrite fmap_cons in Hnd. apply NoDup_cons in Hnd as [Hc Hnd]. apply Forall_cons in Hall as [(Hkl & Hp0 & Hp) Hall].
  destruct (decide (zlen h = maxNode + 1)) as [E|Hne].
  - rewrite insert_full by (done || lia). cbn [mbind res_bind].
    destruct (IH s X h Hi He Hn Hh Hnd Hall) as (bs & s' & X' & -> & -> & Hi' & Hk' & Hv' & Hn' & He').
    cbn [mbind res_bind]. eexists _, s', X'. split; [done|].
    replace (Z.to_nat (maxNode + 1 - zlen h)) with 0%nat in * by lia.
    rewrite !Nat.min_0_r, !Nat.sub_0_r in *. split_and!; done.
  - destruct (insert_ok s X Hi (c_addr c) (c_coins c) (c_key c) (c_value c) maxNode Hkl ltac:(lia) Hp Hp0)
      as (s1 & X1 & -> & Hi1 & He1 & Hk1 & Hv1 & Hn1 & Hd1). cbn [mbind res_bind].
    assert (Hz : zlen (h ++ [pair_of c]) = zlen h + 1) by (unfold zlen; rewrite length_app; cbn; lia).
    pose proof (zlen_nonneg h).
    destruct (IH s1 X1 (h ++ [pair_of c])) as (bs & s' & X' & -> & -> & Hi' & Hk' & Hv' & Hn' & He').
    + done.
    + by rewrite He1, Hk1, held_app, He.
    + rewrite Hn1, Hz, Hn, u64_small; lia.
    + lia.
    + done.
    + rewrite Forall_forall in *. intros c' Hc'. destruct (Hall c' Hc') as (? & ? & Hf).
      rewrite Hk1. split_and!; [done|done|]. apply not_elem_of_dom. rewrite Hd1, not_elem_of_union, not_elem_of_singleton.
      split; [|by apply not_elem_of_dom]. intros E. apply Hc. rewrite <-E. by apply list_elem_of_fmap_2.
    + rewrite Hz in *. cbn [mbind res_bind]. eexists _, s', X'. split; [done|].
      replace (Z.to_nat (maxNode + 1 - zlen h)) with (S (Z.to_nat (maxNode + 1 - (zlen h + 1)))) by lia.
      cbn [length Nat.min Nat.sub]. rewrite fmap_cons. cbn [take].
      rewrite <-app_assoc in Hn', He'. split_and!; [done|done|by rewrite Hk'|congruence|done|].
      by rewrite He', Hk1.
Qed.

(** ** What the list promises *)

(** A new list given any calls. *)
Definition run_list (m : Mem) (p maxLvl kl vl maxNode : Z) (calls : list Call) : res (list bool * SkipList) :=
  s ← new_SkipList m p maxLvl kl vl;
  feed s maxNode calls.

(** The pairs of the calls that a list for [maxNode] keeps. *)
Definition kept (maxNode : Z) (calls : list Call) : list (list Z * Z) :=
  take (Z.to_nat (maxNode + 1)) (pair_of <$> calls).

(** The allocator gives fresh addresses; every key has the list's length. *)
Definition good_calls (m : Mem) (p kl : Z) (calls : list Call) : Prop :=
  NoDup (p :: (c_addr <$> calls)) /\
  Forall (fun c => zlen (c_key c) = kl /\ c_addr c <> nullptr /\ m !! c_addr c = None) calls.

Lemma run_list_ok m p maxLvl kl vl maxNode calls : known kl = true -> 0 < maxLvl < 2 ^ 31 ->
  0 <= maxNode < 2 ^ 64 - 1 -> m !! p = None -> p <> nullptr -> good_calls m p kl calls ->
  exists bs s X, run_list m p maxLvl kl vl maxNode calls = Ok (bs, s) /\
    bs = replicate (min (length calls) (Z.to_nat (maxNode + 1))) true
      ++ replicate (length calls - Z.to_nat (maxNode + 1)) false /\
    inv s X /\ keyLen s = kl /\ valueLen s = vl /\ nodeNum s = zlen (kept maxNode calls) /\
    entries (mem s) X = held kl (kept maxNode calls).
Proof.
  intros Hk Hm Hn Hp Hp0 [Hnd Hall]. rewrite NoDup_cons in Hnd. destruct Hnd as [Hpc Hnd].
  destruct (new_inv m p maxLvl kl vl Hk Hm Hp Hp0) as (s & E & Hi & Hkl & Hvl & Hnum & Hd).
  destruct (feed_spec maxNode calls Hn s (fun _ => []) []) as (bs & s' & X & Ef & -> & Hi' & Hk' & Hv' & Hn' & He'); try done.
  - unfold zlen. cbn. lia.
  - rewrite Forall_forall in *. intros c Hc. destruct (Hall c Hc) as (? & ? & Hf). rewrite Hkl.
    split_and!; [done|done|]. apply not_elem_of_dom. rewrite Hd, not_elem_of_union, not_elem_of_singleton.
    split; [|by apply not_elem_of_dom]. intros Ec. apply Hpc. rewrite <-Ec. by apply list_elem_of_fmap_2.
  - exists (replicate (min (length calls) (Z.to_nat (maxNode + 1))) true
      ++ replicate (length calls - Z.to_nat (maxNode + 1)) false), s', X.
    unfold run_list. rewrite E. cbn [mbind res_bind]. rewrite Ef. change (zlen []) with 0 in *. rewrite Z.sub_0_r in *.
    split_and!; [done|done|done|congruence|congruence|done|]. by rewrite He', Hkl.
Qed.

Lemma StronglySorted_filter {A} (R : A -> A -> Prop) (P : A -> Prop) `{!forall x, Decision (P x)} l :
  StronglySorted R l -> StronglySorted R (filter P l).
Proof.
  induction 1 as [|x l _ IH Hall]; [constructor|]. rewrite filter_cons. case_decide; [|done].
  constructor; [done|]. rewrite Forall_forall in *. intros y [_ Hy]%list_elem_of_filter. by apply Hall.
Qed.

(** C26: a skip list of any height, whatever coins decide its towers, is a
    sorted multimap.  Given any calls of [insert] it keeps the first
    [maxNode + 1] entries and answers [false] to the others;
    [findByKey] returns the values of a key, the newest first, and
    [findByRange] those of the keys from [begin] up to before [end] in the
    order of the keys; both cut the 64-bit values to 32 bits. *)
Theorem skiplist_is_sorted_multimap m p maxLvl kl vl maxNode calls : known kl = true ->
  0 < maxLvl < 2 ^ 31 -> 0 <= maxNode < 2 ^ 64 - 1 -> m !! p = None -> p <> nullptr -> good_calls m p kl calls ->
  exists s, run_list m p maxLvl kl vl maxNode calls =
      Ok (replicate (min (length calls) (Z.to_nat (maxNode + 1))) true
        ++ replicate (length calls - Z.to_nat (maxNode + 1)) false, s) /\
    (forall key, zlen key = kl -> findByKey s key =
      Ok ((fun e => u32 e.2) <$> reverse (filter (fun e => same_key kl e.1 key = true) (kept maxNode calls)))) /\
    (forall b e, zlen b = kl -> zlen e = kl -> exists found,
      findByRange s b e = Ok ((fun e => u32 e.2) <$> found) /\
      found ≡ₚ filter (fun x => negb (lt kl x.1 b) && lt kl x.1 e = true) (kept maxNode calls) /\
      StronglySorted (fun x y => lt kl y.1 x.1 = false) found).
Proof.
  intros Hk Hm Hn Hp Hp0 Hg.
  destruct (run_list_ok m p maxLvl kl vl maxNode calls Hk Hm Hn Hp Hp0 Hg) as (bs & s & X & E & -> & Hi & Hkl & _ & _ & He).
  exists s. split; [done|]. split.
  - intros key Hlk. rewrite (findByKey_values s X key Hi) by congruence. unfold values. rewrite He, Hkl. do 2 f_equal.
    rewrite <-(held_same kl Hk). apply list_filter_iff. intros e. unfold same_key. by rewrite andb_comm.
  - intros b e Hb He'. rewrite (findByRange_values s X b e Hi) by congruence. unfold values. rewrite He, Hkl.
    eexists. split; [done|]. split; [by rewrite (held_perm kl)|]. by apply StronglySorted_filter, held_sorted.
Qed.

(** Three ports, two of them equal, in a list that has room for three. *)
Definition sample_calls : list Call :=
  [mkCall 10 (fun _ => false) [80; 0] 1; mkCall 20 (fun k => Nat.eqb k 0) [22; 0] (2 ^ 32 + 7);
   mkCall 30 (fun _ => true) [80; 0] 3; mkCall 40 (fun _ => false) [53; 0] 4].

Example sample_list : exists s, run_list ∅ 5 4 2 8 2 sample_calls = Ok ([true; true; true; false], s) /\
  findByKey s [80; 0] = Ok [3; 1] /\ findByKey s [53; 0] = Ok [] /\ findByRange s [0; 0] [0; 1] = Ok [7; 3; 1].
Proof. eexists. split; [vm_compute; reflexivity|]. by split_and!; vm_compute. Qed.

Lemma sample_good : good_calls ∅ 5 2 sample_calls.
Proof. split; [by apply (bool_decide_unpack _)|by repeat constructor]. Qed.

Lemma skiplist_is_sorted_multimap_witness : exists s,
  run_list ∅ 5 4 2 8 2 sample_calls = Ok ([true; true; true; false], s) /\ findByKey s [80; 0] = Ok [3; 1].
Proof.
  destruct (skiplist_is_sorted_multimap ∅ 5 4 2 8 2 sample_calls eq_refl ltac:(lia) ltac:(lia) (lookup_empty 5)
    ltac:(done) sample_good) as (s & E & Hf & _).
  exists s. split; [exact E|]. rewrite (Hf [80; 0] eq_refl). vm_compute. reflexivity.
Defined.

(** A wrong key length is answered like a success. *)
Lemma insert_wrong_length s p coins key value maxNode : zlen key <> keyLen s ->
  insert s p coins key value maxNode = Ok (true, s).
Proof. intros H. unfold insert. by rewrite (proj2 (Z.eqb_neq _ _) H). Qed.
