(* ===== verification/SkipOutput.v ===== *)
(** * What a skip list is written out as (dpdk_lib/skipListUnlock.hpp)

    The destructor, the counters, and the flat and the compact output of the
    list of [SkipList], with the theorem that the outputs can be read back. *)
From stdpp Require Import sorting.
From Stdlib Require Import ZArith Lia.
From S2P Require Import Prelude Util BlockBuffer SkipList.
#[local] Open Scope Z_scope.

(** ** Threads and sizes *)
Definition with_threads (s : SkipList) (w r : Z) : SkipList :=
  mkSkipList (keyLen s) (valueLen s) (maxLevel s) (level s) (head s) (nodeNum s) w r (mem s).

Definition addWriteThread (s : SkipList) : SkipList :=
  with_threads s (u32 (writeThreadCount s + 1)) (readThreadCount s).
Definition ereaseWriteThread (s : SkipList) : SkipList :=
  with_threads s (u32 (writeThreadCount s - 1)) (readThreadCount s).
Definition getWriteThreadCount (s : SkipList) : Z := writeThreadCount s.
Definition getNodeNum (s : SkipList) : Z := nodeNum s.
Definition getValueLen (s : SkipList) : Z := valueLen s.
Definition getKeyLen (s : SkipList) : Z := keyLen s.
Definition getMaxLevel (s : SkipList) : Z := maxLevel s.

(** ** The destructor: the nodes of level 0, from the head *)
Fixpoint free_nodes (fuel : nat) (keyLen : Z) (m : Mem) (node : Z) : res Mem :=
  match fuel with
  | O => Blocks
  | S fuel =>
      if node =? nullptr then Ok m else
      node_tmp ← getNext keyLen m node 0;
      m ← deleteNode keyLen m node;
      free_nodes fuel keyLen m node_tmp
  end.
Definition delete_SkipList (s : SkipList) : res Mem :=
  free_nodes (S (enough (mem s))) (keyLen s) (mem s) (head s).

(** ** [outputToChar]: key and value of every node *)
Fixpoint dump (fuel : nat) (s : SkipList) (node : Z) (data : list Z) (offset : Z) : res (list Z) :=
  match fuel with
  | O => Blocks
  | S fuel =>
      if node =? nullptr then Ok data else
      key ← getKey (keyLen s) (mem s) node;
      data ← memcpy data offset key 0 (keyLen s);
      let offset := u64 (offset + keyLen s) in
      value ← getValue (keyLen s) (mem s) node;
      data ← memcpy data offset (le_bytes 8 value) 0 (valueLen s);
      let offset := u64 (offset + valueLen s) in
      q ← getNext (keyLen s) (mem s) node 0;
      dump fuel s q data offset
  end.
Definition outputToChar (s : SkipList) : res (list Z) :=
  let buffer_len := u64 (nodeNum s * u32 (keyLen s + valueLen s)) in
  first ← getNext (keyLen s) (mem s) (head s) 0;
  dump (enough (mem s)) s first (replicate (Z.to_nat buffer_len) 0) 0.

(** ** [outputToCharCompact]: every different key once, with the number of its
    first value, then the values *)
Fixpoint compact (fuel : nat) (s : SkipList) (node : Z) (data values : list Z) (offset : Z) (last_key : list Z)
  : res (list Z * list Z) :=
  match fuel with
  | O => Blocks
  | S fuel =>
      if node =? nullptr then Ok (data, values) else
      key ← getKey (keyLen s) (mem s) node;
      let '(data, last_key) :=
        if bool_decide (last_key = key) then (data, last_key)
        else (data ++ key ++ le_bytes 4 offset, key) in
      value ← getValue (keyLen s) (mem s) node;
      values ← memcpy values (u32 (offset * valueLen s)) (le_bytes 8 value) 0 (valueLen s);
      q ← getNext (keyLen s) (mem s) node 0;
      compact fuel s q data values (u32 (offset + 1)) last_key
  end.
Definition outputToCharCompact (s : SkipList) : res (list Z) :=
  let values := replicate (Z.to_nat (u64 (nodeNum s * valueLen s))) 0 in
  first ← getNext (keyLen s) (mem s) (head s) 0;
  '(data, values) ← compact (enough (mem s)) s first (le_bytes 8 (nodeNum s)) values 0 [];
  Ok (data ++ values).

(** ** Reading the outputs *)

Definition zdrop {A} (n : Z) (l : list A) : list A := drop (Z.to_nat n) l.

(** [n] pairs of [kl] and [vl] bytes. *)
Fixpoint parse (n : nat) (kl vl : Z) (data : list Z) : list (list Z * Z) :=
  match n with
  | O => []
  | S n => (zslice 0 kl data, le_val (zslice kl vl data)) :: parse n kl vl (zdrop (kl + vl) data)
  end.

(** The values that an index entry stands for run up to the next one. *)
Fixpoint expand (idx : list (list Z * Z)) (vals : list Z) : list (list Z * Z) :=
  match idx with
  | [] => []
  | (k, o) :: rest =>
      let e := match rest with [] => zlen vals | (_, o') :: _ => o' end in
      (pair k <$> zslice o (e - o) vals) ++ expand rest vals
  end.

Definition parse_compact (kl vl : Z) (data : list Z) : list (list Z * Z) :=
  let n := le_val (zslice 0 8 data) in
  let body := zdrop 8 data in
  let g := (zlen body - n * vl) / (kl + 4) in
  let vals := snd <$> parse (Z.to_nat n) 0 vl (zdrop (g * (kl + 4)) body) in
  expand (parse (Z.to_nat g) kl 4 body) vals.

(** ** Freeing every node *)
Lemma chain_delete kl m i q p l : known kl = true -> q ∉ p :: l -> chain kl m i p l -> chain kl (delete q m) i p l.
Proof.
  intros Hk. revert p. induction l as [|r l IH]; intros p Hq; cbn [chain]; apply not_elem_of_cons in Hq as [Hqp Hq];
    unfold getNext, deref; rewrite Hk, lookup_delete_ne by done; [done|].
  intros (? & ? & ? & ?). split_and!; [done|done| |].
  - apply not_elem_of_cons in Hq as [? _]. by rewrite lookup_delete_ne.
  - by apply IH.
Qed.

Section outputs.
Context (s : SkipList) (X : Z -> list Z) (Hi : inv s X).
Let kl := keyLen s.
Let m := mem s.

Lemma level0 : chain kl m 0 (head s) (X 0).
Proof. apply (iv_levels _ _ Hi). pose proof (iv_max _ _ Hi). lia. Qed.

Lemma level0_nodup : NoDup (head s :: X 0).
Proof. apply (lv_nodup _ _ _ _ _ (iv_levels _ _ Hi)). pose proof (iv_max _ _ Hi). lia. Qed.

Lemma level0_fuel : (length (head s :: X 0) <= size m)%nat.
Proof.
  apply length_dom; [apply level0_nodup|]. intros p Hp.
  apply (levels_in _ _ _ _ _ 0 p (iv_levels _ _ Hi)); [|done]. pose proof (iv_max _ _ Hi). lia.
Qed.

Lemma free_nodes_spec K : forall p m' fuel, (length K + 1 < fuel)%nat -> NoDup (p :: K) -> p <> nullptr ->
  is_Some (m' !! p) -> chain kl m' 0 p K ->
  exists m1, free_nodes fuel kl m' p = Ok m1 /\
    forall q, m1 !! q = if decide (q ∈ p :: K) then None else m' !! q.
Proof.
  pose proof (iv_known _ _ Hi) as Hk. fold kl in Hk.
  induction K as [|r K IH]; intros p m' fuel Hf Hnd Hp0 [n Hn] Hc; (destruct fuel as [|fuel]; [lia|]);
    cbn [free_nodes]; rewrite (proj2 (Z.eqb_neq p nullptr)) by done;
    unfold deleteNode, deref; rewrite Hk, (proj2 (Z.eqb_neq p nullptr)), Hn by done.
  - cbn [chain] in Hc. rewrite Hc. cbn [mbind res_bind]. destruct fuel as [|fuel]; [simpl in Hf; lia|]. cbn.
    eexists. split; [done|]. intros q. case_decide as Hq.
    + apply list_elem_of_singleton in Hq as ->. apply lookup_delete_eq.
    + apply lookup_delete_ne. intros ->. apply Hq. by left.
  - destruct Hc as (-> & Hr0 & Hr & Hc). cbn [mbind res_bind]. apply NoDup_cons in Hnd as [Hpk Hnd].
    destruct (IH r (delete p m') fuel) as (m1 & -> & Hm1); [simpl in *; lia|done|done| |by apply chain_delete|].
    + rewrite lookup_delete_ne; [done|]. intros ->. apply Hpk. by left.
    + eexists. split; [done|]. intros q. rewrite Hm1. destruct (decide (q = p)) as [->|Hne].
      * rewrite lookup_delete_eq, (decide_True (P := p ∈ p :: r :: K)) by by left. by case_decide.
      * rewrite lookup_delete_ne by done. apply decide_ext. rewrite (elem_of_cons (r :: K) q p). tauto.
Qed.

(** Each node is freed once, and nothing else. *)
Lemma delete_SkipList_ok : exists m1, delete_SkipList s = Ok m1 /\
  forall q, m1 !! q = if decide (q ∈ head s :: X 0) then None else mem s !! q.
Proof.
  destruct (lv_head _ _ _ _ _ (iv_levels _ _ Hi)) as (Hh & _ & Hh0). pose proof level0_fuel as Hf. cbn [length] in Hf.
  apply free_nodes_spec; [unfold enough; fold m; lia|apply level0_nodup|done|done|apply level0].
Qed.

End outputs.

Lemma zdrop_zlen {A} n (l : list A) : 0 <= n <= zlen l -> zlen (zdrop n l) = zlen l - n.
Proof. intros. unfold zdrop, zlen in *. rewrite length_drop. lia. Qed.

Lemma memcpy_fill (a b src : list Z) k : 0 <= k <= zlen src -> k <= zlen b ->
  memcpy (a ++ b) (zlen a) src 0 k = Ok ((a ++ zslice 0 k src) ++ zdrop k b).
Proof.
  intros Hk Hb. pose proof (zlen_nonneg a). rewrite memcpy_Ok by (rewrite ?zlen_app; lia). f_equal.
  assert (Hz : length (zslice 0 k src) = Z.to_nat k) by (unfold zslice; rewrite length_take, drop_0; unfold zlen in *; lia).
  unfold zsplice, zdrop, zlen. rewrite Nat2Z.id, take_app_length, drop_app_add', Hz, <-app_assoc by done. done.
Qed.

Lemma zslice_take_app {A} n (l k : list A) : n = zlen l -> zslice 0 n (l ++ k) = l.
Proof. intros ->. unfold zslice, zlen. rewrite Nat2Z.id. apply take_app_length. Qed.
Lemma zslice_drop_app {A} o n (l k : list A) : o = zlen l -> zslice o n (l ++ k) = zslice 0 n k.
Proof. intros ->. unfold zslice, zlen. rewrite Nat2Z.id, drop_app_length. done. Qed.
Lemma zdrop_app {A} n (l k : list A) : n = zlen l -> zdrop n (l ++ k) = k.
Proof. intros ->. unfold zdrop, zlen. rewrite Nat2Z.id. apply drop_app_length. Qed.

(** ** The flat output *)
Definition cut (vl : Z) (v : Z) : list Z := zslice 0 vl (le_bytes 8 v).
Definition flat (vl : Z) (es : list (list Z * Z)) : list Z := concat ((fun e => e.1 ++ cut vl e.2) <$> es).

Lemma zlen_cut vl v : 0 <= vl <= 8 -> zlen (cut vl v) = vl.
Proof. intros. unfold cut. apply zlen_zslice; rewrite ?zlen_le_bytes; lia. Qed.

Lemma take_le_bytes n k w : (n <= k)%nat -> take n (le_bytes k w) = le_bytes n w.
Proof.
  revert k w. induction n as [|n IH]; intros k w Hk; [done|]. destruct k as [|k]; [lia|].
  cbn. f_equal. apply IH. lia.
Qed.

Lemma le_val_cut vl v : 0 <= vl <= 8 -> 0 <= v < 2 ^ (8 * vl) -> le_val (cut vl v) = v.
Proof.
  intros Hvl Hv. unfold cut. replace vl with (Z.of_nat (Z.to_nat vl)) in * by lia. set (n := Z.to_nat vl) in *.
  assert (Hn : (n <= 8)%nat) by lia. clearbody n. clear vl Hvl.
  assert (E : zslice 0 (Z.of_nat n) (le_bytes 8 v) = le_bytes n v).
  { unfold zslice. rewrite Nat2Z.id. exact (take_le_bytes n 8 v Hn). }
  rewrite E. by apply le_val_le_bytes.
Qed.

Lemma parse_flat kl vl es : 0 <= kl -> 0 <= vl <= 8 ->
  Forall (fun e => zlen e.1 = kl /\ 0 <= e.2 < 2 ^ (8 * vl)) es ->
  forall rest, parse (length es) kl vl (flat vl es ++ rest) = es.
Proof.
  intros Hkl Hvl. induction 1 as [|[k v] es [Hk Hv] _ IH]; intros rest; [done|]. cbn [fst snd] in *.
  cbn [length parse]. unfold flat. rewrite fmap_cons. cbn [concat fst snd]. rewrite <-!app_assoc.
  rewrite (zslice_take_app kl k) by done. rewrite (zslice_drop_app kl vl k) by done.
  rewrite zslice_take_app by (by rewrite zlen_cut). rewrite le_val_cut by done. f_equal.
  rewrite (app_assoc k), zdrop_app; [apply IH|]. rewrite zlen_app, zlen_cut by done. lia.
Qed.

(** Keys before numbers that grow: the index of [outputToCharCompact]. *)
Fixpoint index_of (i : Z) (last : list Z) (es : list (list Z * Z)) : list (list Z * Z) :=
  match es with
  | [] => []
  | (k, v) :: es => if bool_decide (last = k) then index_of (i + 1) last es else (k, i) :: index_of (i + 1) k es
  end.

Definition compacted (kl vl : Z) (es : list (list Z * Z)) : list Z :=
  le_bytes 8 (zlen es) ++ flat 4 (index_of 0 [] es) ++ concat ((fun e => cut vl e.2) <$> es).

Lemma expand_index k o es : forall vals i, 0 <= o <= i -> i + zlen es = zlen vals ->
  drop (Z.to_nat i) vals = es.*2 ->
  expand ((k, o) :: index_of i k es) vals = (pair k <$> zslice o (i - o) vals) ++ es.
Proof.
  revert k o. induction es as [|[k' v] es IH]; intros k o vals i Hio Hl Hd.
  - cbn [index_of]. change (zlen []) with 0 in Hl. cbn [expand]. repeat f_equal. lia.
  - assert (Hz : zlen ((k', v) :: es) = zlen es + 1) by (unfold zlen; cbn; lia). pose proof (zlen_nonneg es).
    assert (Hd' : drop (Z.to_nat (i + 1)) vals = es.*2).
    { replace (Z.to_nat (i + 1)) with (Z.to_nat i + 1)%nat by lia. rewrite <-drop_drop, Hd. done. }
    assert (Hone : zslice i 1 vals = [v]) by (unfold zslice; by rewrite Hd).
    cbn [index_of]. case_bool_decide as E.
    + subst k'. rewrite (IH k o) by (done || lia). replace (i + 1 - o) with ((i - o) + 1) by lia.
      rewrite zslice_app by lia. replace (o + (i - o)) with i by lia. rewrite Hone, fmap_app, <-app_assoc. done.
    + change (expand ((k, o) :: (k', i) :: index_of (i + 1) k' es) vals)
        with ((pair k <$> zslice o (i - o) vals) ++ expand ((k', i) :: index_of (i + 1) k' es) vals).
      f_equal. rewrite (IH k' i) by (done || lia). replace (i + 1 - i) with 1 by lia. by rewrite Hone.
Qed.

Lemma expand_compact es : Forall (fun e => e.1 <> []) es -> expand (index_of 0 [] es) es.*2 = es.
Proof.
  destruct es as [|[k v] es]; [done|]. intros [Hk _]%Forall_cons. cbn [index_of]. rewrite bool_decide_false by (cbn in Hk; congruence).
  assert (Hz : zlen (((k, v) :: es).*2) = zlen es + 1) by (unfold zlen; rewrite length_fmap; cbn; lia).
  pose proof (zlen_nonneg es). rewrite expand_index; [done|lia|lia|done].
Qed.

Lemma index_of_bounds (kl : Z) es : Forall (fun e => zlen e.1 = kl) es -> forall i last, 0 <= i -> i + zlen es <= 2 ^ 32 ->
  Forall (fun e => zlen e.1 = kl /\ 0 <= e.2 < 2 ^ (8 * 4)) (index_of i last es).
Proof.
  induction 1 as [|[k v] es Hk _ IH]; intros i last Hi Hb; cbn [index_of]; [constructor|].
  assert (Hz : zlen ((k, v) :: es) = zlen es + 1) by (unfold zlen; cbn; lia). pose proof (zlen_nonneg es).
  case_bool_decide; [apply IH; lia|]. constructor; [cbn in *; lia|apply IH; lia].
Qed.

Lemma zlen_flat kl vl es : 0 <= vl <= 8 -> Forall (fun e => zlen e.1 = kl) es -> zlen (flat vl es) = zlen es * (kl + vl).
Proof.
  intros Hvl. induction 1 as [|[k v] es Hk _ IH]; [done|]. unfold flat in *. rewrite fmap_cons. cbn [concat fst snd] in *.
  rewrite !zlen_app, IH, zlen_cut by done. unfold zlen in *. cbn [length]. lia.
Qed.

Lemma concat_cuts vl (es : list (list Z * Z)) : concat ((fun e => cut vl e.2) <$> es) = flat vl ((fun e => (@nil Z, e.2)) <$> es).
Proof. unfold flat. by rewrite <-list_fmap_compose. Qed.

(** The compact form can be read back. *)
Lemma parse_compacted kl vl es : 0 < kl -> 0 <= vl <= 8 -> zlen es <= 2 ^ 32 ->
  Forall (fun e => zlen e.1 = kl /\ 0 <= e.2 < 2 ^ (8 * vl)) es ->
  parse_compact kl vl (compacted kl vl es) = es.
Proof.
  intros Hkl Hvl Hn Hall. pose proof (zlen_nonneg es).
  assert (Hkeys : Forall (fun e => zlen e.1 = kl) es) by (eapply Forall_impl; [exact Hall|]; by intros ? [? _]).
  pose proof (index_of_bounds kl es Hkeys 0 [] ltac:(lia) ltac:(lia)) as Hidx.
  set (idx := index_of 0 [] es) in *. set (vs := (fun e => (@nil Z, e.2)) <$> es).
  assert (Hki : Forall (fun e => zlen e.1 = kl) idx) by (eapply Forall_impl; [exact Hidx|]; by intros ? [? _]).
  assert (Hvs : Forall (fun e => zlen e.1 = 0 /\ 0 <= e.2 < 2 ^ (8 * vl)) vs).
  { apply Forall_fmap. eapply Forall_impl; [exact Hall|]. by intros [k v] [_ ?]. }
  assert (Hkv : Forall (fun e => zlen e.1 = 0) vs) by (eapply Forall_impl; [exact Hvs|]; by intros ? [? _]).
  assert (Hlv : zlen vs = zlen es) by (unfold zlen, vs; by rewrite length_fmap).
  unfold parse_compact, compacted. rewrite concat_cuts. fold vs idx.
  rewrite zslice_take_app, le_val_le_bytes, zdrop_app by (rewrite ?zlen_le_bytes; lia).
  rewrite zlen_app, (zlen_flat kl 4), (zlen_flat 0 vl), Hlv by (done || lia).
  replace (zlen idx * (kl + 4) + zlen es * (0 + vl) - zlen es * vl) with (zlen idx * (kl + 4)) by lia.
  rewrite Z.div_mul by lia. rewrite zdrop_app by (rewrite (zlen_flat kl 4); (done || lia)).
  unfold zlen at 1 2. rewrite !Nat2Z.id. rewrite parse_flat by (done || lia).
  replace (length es) with (length vs) by (unfold vs; by rewrite length_fmap).
  rewrite <-(app_nil_r (flat vl vs)), parse_flat by (done || lia).
  unfold vs. rewrite <-list_fmap_compose. change (snd ∘ _) with (@snd (list Z) Z). apply expand_compact.
  eapply Forall_impl; [exact Hkeys|]. intros [k v] Hk E. cbn in *. subst k. change (zlen []) with 0 in Hk. lia.
Qed.

(** ** The loops write these forms *)
Section written.
Context (s : SkipList) (X : Z -> list Z) (Hi : inv s X) (Hvl : 0 <= valueLen s <= 8).
Let kl := keyLen s.
Let vl := valueLen s.
Let m := mem s.

Lemma known_bounds : 0 < kl <= 40.
Proof. pose proof (iv_known _ _ Hi) as Hk. fold kl in Hk. unfold known in Hk. zbool. lia. Qed.

Lemma getters p : is_Some (m !! p) -> getKey kl m p = Ok (key_of m p) /\ getValue kl m p = Ok (n_value (node m p)).
Proof.
  pose proof (iv_known _ _ Hi) as Hk. fold kl in Hk. intros [n Hn].
  unfold getKey, getValue, deref, key_of, node. by rewrite Hk, Hn.
Qed.

Lemma next_of_chain p K : chain kl m 0 p K -> getNext kl m p 0 = Ok (default nullptr (hd_error K)).
Proof. destruct K as [|q K]; [done|]. by intros (-> & _). Qed.

Lemma dump_spec K : forall p fuel a b, chain kl m 0 p K -> (length K < fuel)%nat ->
  Forall (fun q => zlen (key_of m q) = kl) K -> zlen K * (kl + vl) <= zlen b -> zlen a + zlen b < 2 ^ 64 ->
  (node ← getNext kl m p 0; dump fuel s node (a ++ b) (zlen a))
    = Ok (a ++ flat vl (entry m <$> K) ++ zdrop (zlen K * (kl + vl)) b).
Proof.
  pose proof known_bounds as Hkb. fold vl in Hvl.
  induction K as [|q K IH]; intros p fuel a b Hc Hf Hks Hb Hab; (destruct fuel as [|fuel]; [lia|]).
  - cbn [chain] in Hc. rewrite Hc. done.
  - destruct Hc as (-> & Hq & Hs & Hc). apply Forall_cons in Hks as [Hkq Hks]. cbn [mbind res_bind dump]. fold kl m vl.
    rewrite (proj2 (Z.eqb_neq q nullptr)) by done. destruct (getters q Hs) as [-> ->]. cbn [mbind res_bind].
    assert (Hz : zlen (q :: K) = zlen K + 1) by (unfold zlen; cbn; lia). rewrite Hz in *.
    pose proof (zlen_nonneg a). pose proof (zlen_nonneg K).
    assert (Hone : kl + vl <= zlen b /\ zlen K * (kl + vl) <= zlen b - kl - vl) by nia. destruct Hone as [Hone Hrest].
    assert (Hd : zlen (zdrop kl b) = zlen b - kl) by (apply zdrop_zlen; lia).
    rewrite memcpy_fill by lia. cbn [mbind res_bind]. rewrite zslice_full by done. rewrite (u64_small (zlen a + kl)) by lia.
    replace (zlen a + kl) with (zlen (a ++ key_of m q)) by (rewrite zlen_app; lia).
    rewrite memcpy_fill by (rewrite ?zlen_le_bytes; lia). cbn [mbind res_bind]. fold (cut vl (n_value (node m q))).
    set (a2 := (a ++ key_of m q) ++ cut vl (n_value (node m q))).
    assert (Ha2 : zlen a2 = zlen a + kl + vl) by (unfold a2; rewrite !zlen_app, zlen_cut; lia).
    rewrite zlen_app, u64_small by lia. replace (zlen a + zlen (key_of m q) + vl) with (zlen a2) by lia.
    set (b2 := zdrop vl (zdrop kl b)).
    assert (Hb2 : zlen b2 = zlen b - kl - vl) by (unfold b2; rewrite zdrop_zlen, Hd; lia).
    rewrite (IH q fuel a2 b2) by (try done; simpl in Hf; lia). f_equal. unfold a2. rewrite fmap_cons. unfold flat.
    cbn [fmap list_fmap concat fst snd entry]. rewrite <-!app_assoc. do 4 f_equal.
    unfold b2, zdrop. rewrite !drop_drop. f_equal. nia.
Qed.

Lemma cut4 i : cut 4 i = le_bytes 4 i.
Proof. exact (take_le_bytes 4 8 i ltac:(lia)). Qed.

Lemma compact_spec K : forall p fuel data a b off last, chain kl m 0 p K -> (length K < fuel)%nat ->
  0 <= off -> (off + zlen K) * 8 < 2 ^ 32 -> zlen a = off * vl -> zlen b = zlen K * vl ->
  (node ← getNext kl m p 0; compact fuel s node data (a ++ b) off last)
    = Ok (data ++ flat 4 (index_of off last (entry m <$> K)), a ++ concat ((fun e => cut vl e.2) <$> (entry m <$> K))).
Proof.
  pose proof known_bounds as Hkb. fold vl in Hvl.
  induction K as [|q K IH]; intros p fuel data a b off last Hc Hf Ho Hb Ha Hbl; (destruct fuel as [|fuel]; [lia|]).
  - cbn [chain] in Hc. rewrite Hc. change (zlen []) with 0 in Hbl. destruct b; [|unfold zlen in Hbl; cbn in Hbl; lia].
    cbn. unfold flat. cbn. by rewrite !app_nil_r.
  - destruct Hc as (-> & Hq & Hs & Hc). cbn [mbind res_bind compact]. fold kl m vl.
    rewrite (proj2 (Z.eqb_neq q nullptr)) by done. destruct (getters q Hs) as [-> ->]. cbn [mbind res_bind].
    assert (Hz : zlen (q :: K) = zlen K + 1) by (unfold zlen; cbn; lia). rewrite Hz in *. pose proof (zlen_nonneg K).
    set (v := n_value (node m q)). set (k := key_of m q).
    assert (Hlast : forall G : list Z -> list Z -> res (list Z * list Z),
      (let '(data, last_key) := if bool_decide (last = k) then (data, last) else (data ++ k ++ le_bytes 4 off, k) in
       G data last_key) = G (if bool_decide (last = k) then data else data ++ k ++ le_bytes 4 off) k).
    { intros G. case_bool_decide; [by subst|done]. }
    rewrite Hlast. clear Hlast. rewrite (u32_small (off * vl)) by nia. rewrite <-Ha.
    rewrite memcpy_fill by (rewrite ?zlen_le_bytes; nia). cbn [mbind res_bind]. fold (cut vl v).
    rewrite u32_small by lia.
    rewrite (IH q fuel _ (a ++ cut vl v) (zdrop vl b) (off + 1) k) by
      (try done; rewrite ?zlen_app, ?zlen_cut, ?zdrop_zlen by nia; simpl in Hf; nia).
    rewrite !fmap_cons. change (entry m q) with (k, v). cbn [index_of fst snd]. f_equal. f_equal.
    + case_bool_decide; [by subst|]. unfold flat. rewrite fmap_cons. cbn [concat fst snd]. by rewrite cut4, <-!app_assoc.
    + cbn [concat snd]. by rewrite <-app_assoc.
Qed.

Context (Hnum : nodeNum s = zlen (X 0)) (Hkeys : Forall (fun q => zlen (key_of m q) = kl) (X 0)).

Lemma outputToChar_ok : zlen (X 0) < 2 ^ 56 -> outputToChar s = Ok (flat vl (entries m X)).
Proof.
  intros Hb. pose proof known_bounds as Hkb. pose proof (zlen_nonneg (X 0)). unfold outputToChar. fold kl vl m.
  fold vl in Hvl. rewrite Hnum, u32_small, u64_small by nia. pose proof (level0_fuel s X Hi) as Hf. fold m in Hf.
  set (b := replicate (Z.to_nat (zlen (X 0) * (kl + vl))) 0).
  assert (Hlb : zlen b = zlen (X 0) * (kl + vl)) by (unfold b; rewrite zlen_replicate; nia).
  pose proof (dump_spec (X 0) (head s) (enough m) [] b (level0 s X Hi)) as Hd. cbn [app] in Hd. change (zlen []) with 0 in Hd.
  rewrite Hd; [|unfold enough; simpl in Hf; lia|done|lia|nia]. f_equal. unfold zdrop. rewrite <-Hlb.
  rewrite drop_ge by (unfold zlen; lia). by rewrite app_nil_r.
Qed.

Lemma outputToCharCompact_ok : zlen (X 0) * 8 < 2 ^ 32 ->
  outputToCharCompact s = Ok (compacted kl vl (entries m X)).
Proof.
  intros Hb. pose proof known_bounds as Hkb. pose proof (zlen_nonneg (X 0)). unfold outputToCharCompact. fold kl vl m.
  fold vl in Hvl. rewrite Hnum, u64_small by nia. pose proof (level0_fuel s X Hi) as Hf. fold m in Hf.
  set (b := replicate (Z.to_nat (zlen (X 0) * vl)) 0).
  assert (Hlb : zlen b = zlen (X 0) * vl) by (unfold b; rewrite zlen_replicate; nia).
  pose proof (compact_spec (X 0) (head s) (enough m) (le_bytes 8 (zlen (X 0))) [] b 0 [] (level0 s X Hi)) as Hd. cbn [app] in Hd.
  change (zlen []) with 0 in Hd. specialize (Hd ltac:(unfold enough; simpl in Hf; lia) ltac:(lia) ltac:(lia) ltac:(lia) Hlb).
  destruct (getNext kl m (head s) 0) as [q| | |]; cbn [mbind res_bind] in *; try discriminate Hd.
  rewrite Hd. cbn [mbind res_bind]. unfold compacted, entries. fold m. unfold zlen at 2. rewrite length_fmap.
  by rewrite <-app_assoc.
Qed.
End written.

(** ** The round trip *)
Lemma forall_kept (P : Call -> Prop) (Q : list Z * Z -> Prop) maxNode calls :
  (forall c, P c -> Q (pair_of c)) -> Forall P calls -> Forall Q (kept maxNode calls).
Proof. intros H Hall. unfold kept. apply Forall_take, Forall_fmap. eapply Forall_impl; [exact Hall|done]. Qed.

(** C27: both outputs of a list hold its entries: whatever was inserted, reading
    the flat and the compact output back gives the kept entries in the order of
    the list, as long as the values fit their [valueLen] bytes and the compact
    offsets 32 bits. *)
Theorem skiplist_outputs_roundtrip m p maxLvl kl vl maxNode calls bs s : known kl = true ->
  0 < maxLvl < 2 ^ 31 -> 0 <= maxNode < 2 ^ 64 - 1 -> m !! p = None -> p <> nullptr -> good_calls m p kl calls ->
  0 <= vl <= 8 -> Forall (fun c => 0 <= c_value c < 2 ^ (8 * vl)) calls -> zlen calls * 8 < 2 ^ 32 ->
  run_list m p maxLvl kl vl maxNode calls = Ok (bs, s) ->
  (exists data, outputToChar s = Ok data /\ parse (Z.to_nat (getNodeNum s)) kl vl data = held kl (kept maxNode calls)) /\
  (exists data, outputToCharCompact s = Ok data /\ parse_compact kl vl data = held kl (kept maxNode calls)).
Proof.
  intros Hk Hm Hn Hp Hp0 Hg Hvl Hvals Hlen E0.
  destruct (run_list_ok m p maxLvl kl vl maxNode calls Hk Hm Hn Hp Hp0 Hg) as (bs' & s' & X & E & _ & Hi & Hkl & Hv & Hnum & He).
  rewrite E0 in E. injection E as <- <-. destruct Hg as [_ Hall].
  assert (Hok : Forall (fun e => zlen e.1 = kl /\ 0 <= e.2 < 2 ^ (8 * vl)) (entries (mem s) X)).
  { rewrite He, (held_perm kl). pose proof (conj Hall Hvals) as Hboth. apply Forall_and in Hboth.
    eapply forall_kept; [|exact Hboth]. intros c [(H1 & _) H2]. exact (conj H1 H2). }
  assert (HL : zlen (kept maxNode calls) = zlen (X 0)).
  { unfold zlen. rewrite <-(held_perm kl), <-He. unfold entries. by rewrite length_fmap. }
  assert (Hle : zlen (X 0) <= zlen calls).
  { rewrite <-HL. unfold kept, zlen. rewrite length_take, length_fmap. lia. }
  assert (Hkeys : Forall (fun q => zlen (key_of (mem s) q) = keyLen s) (X 0)).
  { unfold entries in Hok. apply Forall_fmap in Hok. eapply Forall_impl; [exact Hok|]. intros q [Hq _]. by rewrite Hkl. }
  assert (Hes : zlen (entries (mem s) X) = zlen (X 0)) by (unfold zlen, entries; by rewrite length_fmap).
  assert (Hkb : 0 < kl <= 40) by (rewrite <-Hkl; by apply (known_bounds s X)).
  split; eexists; (split; [|rewrite <-He]).
  - apply (outputToChar_ok s X); rewrite ?Hv; (done || lia).
  - unfold getNodeNum. rewrite Hnum, HL, Hv. replace (Z.to_nat (zlen (X 0))) with (length (entries (mem s) X)) by (unfold zlen in *; lia).
    rewrite <-(app_nil_r (flat _ _)). apply parse_flat; (done || lia).
  - apply (outputToCharCompact_ok s X); rewrite ?Hv; (done || lia).
  - rewrite Hkl, Hv. apply parse_compacted; (done || lia).
Qed.

(** The list of [sample_calls] with two bytes per value. *)
Definition port_calls : list Call :=
  [mkCall 10 (fun _ => false) [80; 0] 1; mkCall 20 (fun k => Nat.eqb k 0) [22; 0] 7;
   mkCall 30 (fun _ => true) [80; 0] 300; mkCall 40 (fun _ => false) [53; 0] 4].

Lemma port_good : good_calls ∅ 5 2 port_calls.
Proof. split; [by apply (bool_decide_unpack _)|by repeat constructor]. Qed.

Lemma skiplist_outputs_roundtrip_witness : exists bs s, run_list ∅ 5 4 2 2 3 port_calls = Ok (bs, s) /\
  outputToChar s = Ok [22; 0; 7; 0; 53; 0; 4; 0; 80; 0; 44; 1; 80; 0; 1; 0] /\
  exists data, outputToCharCompact s = Ok data /\
    parse_compact 2 2 data = [([22; 0], 7); ([53; 0], 4); ([80; 0], 300); ([80; 0], 1)].
Proof.
  eexists _, _. split; [vm_compute; reflexivity|]. split; [vm_compute; reflexivity|].
  match goal with |- exists data, outputToCharCompact ?s = _ /\ _ =>
    assert (E : exists bs, run_list ∅ 5 4 2 2 3 port_calls = Ok (bs, s)) by (eexists; vm_compute; reflexivity)
  end.
  destruct E as (bs & E).
  exact (proj2 (skiplist_outputs_roundtrip ∅ 5 4 2 2 3 port_calls bs _ eq_refl ltac:(lia) ltac:(lia) (lookup_empty 5)
    ltac:(done) port_good ltac:(lia) ltac:(by repeat constructor)
    ltac:(done) E)).
Defined.
