(* ===== verification/SkipListLocked.v ===== *)
(** * The skip list that threads fill together (dpdk_lib/skipList.hpp)

    The same nodes and searches as in [SkipList], with a spin lock per node.
    [insert] is modelled as the sequence of its reads and writes of shared
    memory, one per step, so that the steps of several threads interleave;
    the list is also written out to an index block buffer and cleared. *)
From stdpp Require Import sorting.
From Stdlib Require Import ZArith Lia.
From S2P Require Import Prelude Util BlockBuffer IndexWrite SkipList SkipOutput.
#[local] Open Scope Z_scope.

(** ** The list and its operations *)
Record LockedList := mkLocked {
  l_keyLen : Z;
  l_valueLen : Z;
  l_maxLevel : Z;
  now_level : Z;
  l_head : Z;
  l_nodeNum : Z;
  l_mem : Mem }.

Definition with_locked (l : LockedList) (lvl num : Z) (m : Mem) : LockedList :=
  mkLocked (l_keyLen l) (l_valueLen l) (l_maxLevel l) lvl (l_head l) num m.

(** The constructor, in a heap [m]. *)
Definition new_LockedList (m : Mem) : LockedList := mkLocked 0 0 0 0 nullptr 0 m.

(** [init]; [p] is the address of the new head. *)
Definition initList (l : LockedList) (p maxLvl kl vl : Z) : res LockedList :=
  '(h, m) ← newNode kl (l_mem l) p (replicate (Z.to_nat kl) 0) 0 maxLvl;
  Ok (mkLocked kl vl maxLvl (now_level l) h (l_nodeNum l) m).

(** The loop of [clearHead] over the levels [ids]. *)
Fixpoint clear_levels (kl : Z) (m : Mem) (p : Z) (ids : list Z) : res Mem :=
  match ids with
  | [] => Ok m
  | i :: ids => m ← putNext kl m p i nullptr; clear_levels kl m p ids
  end.
Definition clearHead (l : LockedList) : res LockedList :=
  if l_head l =? nullptr then Ok l else
  m ← clear_levels (l_keyLen l) (l_mem l) (l_head l) (zseq (l_maxLevel l));
  Ok (with_locked l (now_level l) (l_nodeNum l) m).

Definition addHead (l : LockedList) (h : Z) : res LockedList :=
  if negb (l_head l =? nullptr) then Ok l else
  clearHead (mkLocked (l_keyLen l) (l_valueLen l) (l_maxLevel l) (now_level l) h (l_nodeNum l) (l_mem l)).

Definition clear (l : LockedList) : res LockedList :=
  if l_head l =? nullptr then Ok l else
  l ← clearHead l;
  Ok (with_locked l (now_level l) 0 (l_mem l)).

(** The destructor: only the head. *)
Definition delete_LockedList (l : LockedList) : res Mem :=
  if l_head l =? nullptr then Ok (l_mem l) else deleteNode (l_keyLen l) (l_mem l) (l_head l).

(** [(uint32_t)(-log2(rand() / 2^31)) + 1], at most [max_level]; for a [rand]
    of 0 the conversion of an infinity is undefined. *)
Definition randomLevel (rand max_level : Z) : res Z :=
  if rand =? 0 then Undef else
  let lvl := u32 (31 - Z.log2_up rand + 1) in
  Ok (if max_level <? lvl then max_level else lvl).

(** [flag.exchange(true)] until it gives [false]; [flag.store(false)]. *)
Definition set_mutex (m : Mem) (p : Z) (b : bool) : Mem :=
  match m !! p with Some n => <[p := mkNode (n_key n) (n_value n) (next n) b]> m | None => m end.
Definition lockNode (kl : Z) (m : Mem) (p : Z) : res Mem :=
  if known kl then n ← deref m p; if mutex n then Blocks else Ok (set_mutex m p true) else Ok m.
Definition unlockNode (kl : Z) (m : Mem) (p : Z) : res Mem :=
  if known kl then _ ← deref m p; Ok (set_mutex m p false) else Ok m.

Definition findByKey (l : LockedList) (key : list Z) : res (list Z) :=
  if l_head l =? nullptr then Ok [] else
  if negb (zlen key =? l_keyLen l) then Ok []
  else find_from (l_keyLen l) (l_mem l) (l_head l) (now_level l) key key past_key.

Definition findByRange (l : LockedList) (begin_ end_ : list Z) : res (list Z) :=
  if l_head l =? nullptr then Ok [] else
  if negb (zlen begin_ =? l_keyLen l) || negb (zlen end_ =? l_keyLen l) then Ok []
  else find_from (l_keyLen l) (l_mem l) (l_head l) (now_level l) begin_ end_ past_end.

(** ** [writeNode]: every node is written and freed, not looking at the answers
    of the buffer *)
Definition drop_last (l : LockedList) (m : Mem) (last_node : Z) : res Mem :=
  if negb (last_node =? l_head l) && negb (last_node =? nullptr)
  then deleteNode (l_keyLen l) m last_node else Ok m.

Fixpoint write_nodes (fuel : nat) (l : LockedList) (m : Mem) (b : IndexB.IndexBlockBuffer)
    (thread_id disk_pos offset last_node node : Z) : res (Mem * IndexB.IndexBlockBuffer) :=
  match fuel with
  | O => Blocks
  | S fuel =>
      if node =? nullptr then m ← drop_last l m last_node; Ok (m, b) else
      m ← drop_last l m last_node;
      key ← getKey (l_keyLen l) m node;
      '(_, b) ← IndexB.writeBlock b key (l_keyLen l) (u64 (disk_pos + offset)) thread_id;
      let offset := u64 (offset + l_keyLen l) in
      value ← getValue (l_keyLen l) m node;
      '(_, b) ← IndexB.writeBlock b (le_bytes 8 value) (l_valueLen l) (u64 (disk_pos + offset)) thread_id;
      let offset := u64 (offset + l_valueLen l) in
      q ← getNext (l_keyLen l) m node 0;
      write_nodes fuel l m b thread_id disk_pos offset node q
  end.
Definition writeNode (l : LockedList) (b : IndexB.IndexBlockBuffer) (thread_id disk_pos : Z)
  : res (LockedList * IndexB.IndexBlockBuffer) :=
  first ← getNext (l_keyLen l) (l_mem l) (l_head l) 0;
  '(m, b) ← write_nodes (enough (l_mem l)) l (l_mem l) b thread_id disk_pos 0 (l_head l) first;
  Ok (with_locked l (now_level l) (l_nodeNum l) m, b).

(** ** [insert], one access to shared memory at a time *)

(** A call: the address that the allocator gives, what [rand] gives, the key
    and the value. *)
Record Insertion := mkInsertion { i_addr : Z; i_rand : Z; i_key : list Z; i_value : Z }.

(** The local variables. *)
Record Frame := mkFrame {
  f_key : list Z;
  f_value : Z;
  newLevel : Z;
  f_new : Z;
  update : list Z;
  curr : Z }.

Definition with_curr (f : Frame) (c : Z) : Frame :=
  mkFrame (f_key f) (f_value f) (newLevel f) (f_new f) (update f) c.
Definition with_update (f : Frame) (u : list Z) : Frame :=
  mkFrame (f_key f) (f_value f) (newLevel f) (f_new f) u (curr f).

(** What a thread does next.  The search of level [i] tests the next pointer,
    compares the next key and moves; the hooking at level [i] locks
    [update[i]], tests and compares again, and either gives the lock back and
    moves, or writes the two pointers. *)
Inductive Pc :=
  | PLevel
  | PNull (i : Z) | PBelow (i : Z) | PNext (i : Z)
  | PLock (i : Z) | PLook (i : Z) | PLess (i : Z) | PGive (i : Z) | PMove (i : Z)
  | PGet (i : Z) | PNew (i q : Z) | PLink (i : Z) | PFree (i : Z)
  | PLoad | PCas (curLevel : Z).

Inductive Thread :=
  | Ready (c : Insertion)
  | Counted (c : Insertion)
  | Running (f : Frame) (pc : Pc)
  | Finished (f : Frame)
  | Refused (c : Insertion).

(** The loops' heads. *)
Definition hook_at (f : Frame) (i : Z) : Thread :=
  if i <? newLevel f then Running f (PLock i) else Running f PLoad.
Definition search_at (f : Frame) (i : Z) : Thread :=
  if i <? 0 then hook_at f 0 else Running f (PNull i).

Definition leave_level (f : Frame) (i : Z) : res Thread :=
  u ← zset (update f) i (curr f);
  Ok (search_at (with_update f u) (i - 1)).

Definition with_mem (l : LockedList) (m : Mem) : LockedList := with_locked l (now_level l) (l_nodeNum l) m.

Definition tstep (l : LockedList) (t : Thread) : res (LockedList * Thread) :=
  let kl := l_keyLen l in
  let m := l_mem l in
  match t with
  | Ready c =>
      if negb (zlen (i_key c) =? kl) then Ok (l, Refused c)
      else Ok (with_locked l (now_level l) (u64 (l_nodeNum l + 1)) m, Counted c)
  | Counted c =>
      lvl ← randomLevel (i_rand c) (l_maxLevel l);
      '(p, m) ← newNode kl m (i_addr c) (i_key c) (i_value c) lvl;
      Ok (with_mem l m, Running (mkFrame (i_key c) (i_value c) lvl p
        (replicate (Z.to_nat (l_maxLevel l)) nullptr) (l_head l)) PLevel)
  | Running f PLevel =>
      let nowLevel := now_level l in
      Ok (l, search_at f ((if newLevel f <? nowLevel then nowLevel else newLevel f) - 1))
  | Running f (PNull i) =>
      q ← getNext kl m (curr f) i;
      if q =? nullptr then t ← leave_level f i; Ok (l, t) else Ok (l, Running f (PBelow i))
  | Running f (PBelow i) =>
      q ← getNext kl m (curr f) i;
      c ← compareNodeKey kl m q (f_key f);
      if c <? 0 then Ok (l, Running f (PNext i)) else t ← leave_level f i; Ok (l, t)
  | Running f (PNext i) =>
      q ← getNext kl m (curr f) i;
      Ok (l, Running (with_curr f q) (PNull i))
  | Running f (PLock i) =>
      u ← zget (update f) i;
      m ← lockNode kl m u;
      Ok (with_mem l m, Running f (PLook i))
  | Running f (PLook i) =>
      u ← zget (update f) i;
      q ← getNext kl m u i;
      Ok (l, Running f (if q =? nullptr then PGet i else PLess i))
  | Running f (PLess i) =>
      u ← zget (update f) i;
      q ← getNext kl m u i;
      c ← compareNodeKey kl m q (f_key f);
      Ok (l, Running f (if c <? 0 then PGive i else PGet i))
  | Running f (PGive i) =>
      u ← zget (update f) i;
      m ← unlockNode kl m u;
      Ok (with_mem l m, Running f (PMove i))
  | Running f (PMove i) =>
      u ← zget (update f) i;
      q ← getNext kl m u i;
      up ← zset (update f) i q;
      Ok (l, Running (with_update f up) (PLock i))
  | Running f (PGet i) =>
      u ← zget (update f) i;
      q ← getNext kl m u i;
      Ok (l, Running f (PNew i q))
  | Running f (PNew i q) =>
      m ← putNext kl m (f_new f) i q;
      Ok (with_mem l m, Running f (PLink i))
  | Running f (PLink i) =>
      u ← zget (update f) i;
      m ← putNext kl m u i (f_new f);
      Ok (with_mem l m, Running f (PFree i))
  | Running f (PFree i) =>
      u ← zget (update f) i;
      m ← unlockNode kl m u;
      Ok (with_mem l m, hook_at f (i + 1))
  | Running f PLoad =>
      let curLevel := now_level l in
      Ok (l, if curLevel <? newLevel f then Running f (PCas curLevel) else Finished f)
  | Running f (PCas curLevel) =>
      if now_level l =? curLevel
      then Ok (with_locked l (newLevel f) (l_nodeNum l) m, Finished f)
      else Ok (l, Running f PLoad)
  | Finished _ | Refused _ => Blocks
  end.

(** Any thread that can go on goes on. *)
Inductive step : LockedList * list Thread -> LockedList * list Thread -> Prop :=
  | step_thread l ts k t l' t' : ts !! k = Some t -> tstep l t = Ok (l', t') ->
      step (l, ts) (l', <[k := t']> ts).

Definition finished (t : Thread) : bool :=
  match t with Finished _ | Refused _ => true | _ => false end.

(** A schedule: which thread takes each step; one that cannot go on waits. *)
Fixpoint run_schedule (l : LockedList) (ts : list Thread) (sched : list nat) : LockedList * list Thread :=
  match sched with
  | [] => (l, ts)
  | k :: sched =>
      match ts !! k with
      | Some t => match tstep l t with
                  | Ok (l', t') => run_schedule l' (<[k := t']> ts) sched
                  | _ => run_schedule l ts sched
                  end
      | None => run_schedule l ts sched
      end
  end.

(** ** What a thread knows *)
Definition addr (t : Thread) : Z :=
  match t with
  | Ready c | Counted c | Refused c => i_addr c
  | Running f _ | Finished f => f_new f
  end.

(** The number of levels at which the thread's node is linked. *)
Definition hooked (t : Thread) : Z :=
  match t with
  | Ready _ | Counted _ | Refused _ => 0
  | Running f (PLevel | PNull _ | PBelow _ | PNext _) => 0
  | Running f (PLock i | PLook i | PLess i | PGive i | PMove i | PGet i | PNew i _ | PLink i) => i
  | Running f (PFree i) => i + 1
  | Running f (PLoad | PCas _) | Finished f => newLevel f
  end.

(** The node that the thread has locked. *)
Definition holds (t : Thread) : option Z :=
  match t with
  | Running f (PLook i | PLess i | PGive i | PGet i | PNew i _ | PLink i | PFree i) =>
      match zget (update f) i with Ok u => Some u | _ => None end
  | _ => None
  end.

Section knowledge.
Context (kl mx hd : Z) (Hk : known kl = true).

Section state.
Context (m : Mem) (X : Z -> list Z).

Definition before (i : Z) (key : list Z) (c : Z) : Prop :=
  c = hd \/ (c ∈ X i /\ below kl m key c = true).

(** The next node is before the key; it is the first that is not. *)
Definition next_below (i : Z) (key : list Z) (c : Z) : Prop :=
  exists q, getNext kl m c i = Ok q /\ q <> nullptr /\ is_Some (m !! q) /\ below kl m key q = true.
Definition next_stops (i : Z) (key : list Z) (c q : Z) : Prop :=
  getNext kl m c i = Ok q /\ (q = nullptr \/ is_Some (m !! q) /\ below kl m key q = false).
Definition next_some (i c : Z) : Prop := exists q, getNext kl m c i = Ok q /\ q <> nullptr.

(** From level [lo] up [update] holds nodes before the key. *)
Definition updates_ok (f : Frame) (lo : Z) : Prop :=
  zlen (update f) = mx /\
  forall j, lo <= j < newLevel f -> exists u, zget (update f) j = Ok u /\ before j (f_key f) u.

Definition searching (f : Frame) (i : Z) : Prop :=
  0 <= i < mx /\ before i (f_key f) (curr f) /\ updates_ok f (i + 1).
Definition hooking (f : Frame) (i : Z) (P : Z -> Prop) : Prop :=
  0 <= i < newLevel f /\ updates_ok f i /\ forall u, zget (update f) i = Ok u -> P u.

Definition frame_ok (f : Frame) : Prop :=
  zlen (f_key f) = kl /\ 1 <= newLevel f <= mx /\ f_new f <> nullptr /\ f_new f <> hd /\
  is_Some (m !! f_new f) /\ key_of m (f_new f) = f_key f /\
  n_value (node m (f_new f)) = f_value f /\ height m (f_new f) = newLevel f.

Definition pc_ok (f : Frame) (pc : Pc) : Prop :=
  match pc with
  | PLevel => curr f = hd /\ zlen (update f) = mx
  | PNull i => searching f i
  | PBelow i => searching f i /\ next_some i (curr f)
  | PNext i => searching f i /\ next_below i (f_key f) (curr f)
  | PLock i | PLook i | PFree i => hooking f i (fun _ => True)
  | PLess i => hooking f i (next_some i)
  | PGive i | PMove i => hooking f i (next_below i (f_key f))
  | PGet i => hooking f i (fun u => exists q, next_stops i (f_key f) u q)
  | PNew i q => hooking f i (fun u => next_stops i (f_key f) u q)
  | PLink i => hooking f i (fun u => exists q, next_stops i (f_key f) u q /\ getNext kl m (f_new f) i = Ok q)
  | PLoad => True
  | PCas c => c < newLevel f
  end.

Definition call_fresh (c : Insertion) : Prop :=
  m !! i_addr c = None /\ i_addr c <> nullptr /\ 0 < i_rand c < 2 ^ 31.

Definition thread_ok (lvl : Z) (t : Thread) : Prop :=
  match t with
  | Ready c => call_fresh c
  | Counted c => zlen (i_key c) = kl /\ call_fresh c
  | Running f pc => frame_ok f /\ pc_ok f pc
  | Finished f => frame_ok f /\ newLevel f <= lvl
  | Refused c => zlen (i_key c) <> kl
  end.
End state.

(** What a step of a thread that has locked [held] and owns the node [mine]
    may do to the memory that the others see. *)
Record evolves (m : Mem) (X : Z -> list Z) (m' : Mem) (X' : Z -> list Z) (held : option Z) (mine : Z) : Prop := {
  ev_same : same_nodes m m';
  ev_fresh : forall p, p <> mine -> m !! p = None -> m' !! p = None;
  ev_levels : forall i p, 0 <= i < mx -> p ∈ X i -> p ∈ X' i;
  ev_next : forall c i q, 0 <= i < mx -> c ∈ hd :: X i -> getNext kl m c i = Ok q ->
    getNext kl m' c i = Ok q \/
    (held = Some c /\ exists p, getNext kl m' c i = Ok p /\ p <> nullptr /\ is_Some (m' !! p) /\
      (q = nullptr \/ lt kl (key_of m' q) (key_of m' p) = false));
  ev_other : forall c i, 0 <= i < mx -> c ∉ hd :: X i -> c <> mine -> getNext kl m' c i = getNext kl m c i }.

Section stable.
Context (m : Mem) (X : Z -> list Z) (m' : Mem) (X' : Z -> list Z) (held : option Z) (mine : Z).
Context (HX : levels kl mx m hd X) (Hev : evolves m X m' X' held mine).

Lemma below_same key p : is_Some (m !! p) -> below kl m' key p = below kl m key p.
Proof. intros Hp. unfold below. by destruct (ev_same _ _ _ _ _ _ Hev p Hp) as (_ & -> & _). Qed.

Lemma before_stable i key c : 0 <= i < mx -> before m X i key c -> before m' X' i key c.
Proof.
  intros Hi [->|[Hc Hb]]; [by left|right]. split; [by apply Hev|]. rewrite below_same; [done|].
  by apply (lv_nodes _ _ _ _ _ HX i c).
Qed.

Lemma before_in i key c : before m X i key c -> c ∈ hd :: X i.
Proof. intros [->|[Hc _]]; [left|by right]. Qed.

(** The next of a node of a level is null or a node. *)
Lemma next_node i c q : 0 <= i < mx -> c ∈ hd :: X i -> getNext kl m c i = Ok q -> q = nullptr \/ q ∈ X i.
Proof.
  intros Hi Hc Eq. pose proof (lv_chain _ _ _ _ _ HX i Hi) as Hch. clear -Hc Eq Hch.
  revert Hc Hch. generalize hd as p. induction (X i) as [|x l IH]; intros p Hc Hch; cbn [chain] in Hch.
  - apply list_elem_of_singleton in Hc as ->. left. congruence.
  - destruct Hch as (Ex & _ & _ & Hch). apply elem_of_cons in Hc as [->|Hc].
    + right. rewrite Eq in Ex. injection Ex as ->. left.
    + destruct (IH x Hc Hch) as [|]; [by left|right; by right].
Qed.

Lemma next_some_stable i c : 0 <= i < mx -> c ∈ hd :: X i -> next_some m i c -> next_some m' i c.
Proof.
  intros Hi Hc (q & Eq & Hq). destruct (ev_next _ _ _ _ _ _ Hev c i q Hi Hc Eq) as [E|(_ & p & E & Hp & _)]; by eexists.
Qed.

Lemma next_below_stable i key c : 0 <= i < mx -> c ∈ hd :: X i -> next_below m i key c -> next_below m' i key c.
Proof.
  intros Hi Hc (q & Eq & Hq & Hs & Hb). destruct (ev_next _ _ _ _ _ _ Hev c i q Hi Hc Eq) as [E|(_ & p & E & Hp & Hps & Hle)].
  - exists q. rewrite below_same by done. split_and!; [done|done|by apply Hev|done].
  - exists p. split_and!; [done|done|done|]. destruct Hle as [->|Hle]; [done|].
    destruct (ev_same _ _ _ _ _ _ Hev q Hs) as (_ & Ekq & _). rewrite Ekq in Hle. unfold below in *.
    destruct (lt_split kl Hk _ (key_of m' p) _ Hb); [congruence|done].
Qed.

Lemma next_stops_stable i key c q : 0 <= i < mx -> c ∈ hd :: X i -> held <> Some c ->
  next_stops m i key c q -> next_stops m' i key c q.
Proof.
  intros Hi Hc Hne [Eq Hq]. split; [by destruct (ev_next _ _ _ _ _ _ Hev c i q Hi Hc Eq) as [E|(? & _)]|].
  destruct Hq as [->|[Hs Hb]]; [by left|right]. rewrite below_same by done. split; [by apply Hev|done].
Qed.

Lemma updates_stable f lo : 0 <= lo -> newLevel f <= mx -> updates_ok m X f lo -> updates_ok m' X' f lo.
Proof.
  intros Hlo Hf [Hz Hu]. split; [done|]. intros j Hj. destruct (Hu j Hj) as (u & E & Hb).
  exists u. split; [done|]. apply before_stable; [lia|done].
Qed.

Lemma frame_stable f : frame_ok m f -> frame_ok m' f.
Proof.
  intros (H1 & H2 & H3 & H4 & H5 & H6 & H7 & H8). destruct (ev_same _ _ _ _ _ _ Hev _ H5) as (? & E1 & E2 & E3).
  unfold frame_ok. rewrite E1, E2, E3. split_and!; (done || lia).
Qed.

Lemma searching_stable f i : newLevel f <= mx -> searching m X f i -> searching m' X' f i.
Proof.
  intros Hf (Hi & Hb & Hu). split_and!; [lia|lia|by apply before_stable|]. apply updates_stable; [lia|done|done].
Qed.

Lemma hooking_stable f i (P P' : Z -> Prop) : newLevel f <= mx -> hooking m X f i P ->
  (forall u, zget (update f) i = Ok u -> 0 <= i < mx -> u ∈ hd :: X i -> P u -> P' u) -> hooking m' X' f i P'.
Proof.
  intros Hf (Hi & Hu & HP) H. split; [done|]. split; [apply updates_stable; [lia|done|done]|].
  intros u E. apply H; [done|lia| |by apply HP]. destruct Hu as [_ Hu]. destruct (Hu i ltac:(lia)) as (u' & E' & Hb).
  rewrite E in E'. injection E' as <-. by apply before_in in Hb.
Qed.

(** The other threads keep what they know. *)
Lemma thread_stable lvl lvl' t : thread_ok m X lvl t -> lvl <= lvl' -> addr t <> mine ->
  (forall u, holds t = Some u -> held <> Some u) ->
  (forall i, hooked t <= i < mx -> addr t ∉ hd :: X i) -> thread_ok m' X' lvl' t.
Proof.
  intros Ht Hlvl Ha Hh Hout. destruct t as [c|c|f pc|f|c]; cbn [thread_ok addr] in *.
  - destruct Ht as (? & ? & ?). split_and!; [by apply Hev|done|lia|lia].
  - destruct Ht as (? & ? & ? & ?). split; [done|]. split_and!; [by apply Hev|done|lia|lia].
  - destruct Ht as [Hf Hpc]. split; [by apply frame_stable|]. assert (Hl : newLevel f <= mx) by apply Hf.
    destruct pc as [|i|i|i|i|i|i|i|i|i|i q|i|i| |cur]; cbn [pc_ok holds hooked] in *; try done.
    + by apply searching_stable.
    + destruct Hpc as [Hs Hn]. split; [by apply searching_stable|]. destruct Hs as (Hi & Hb & _).
      apply next_some_stable; [done|by eapply before_in|done].
    + destruct Hpc as [Hs Hn]. split; [by apply searching_stable|]. destruct Hs as (Hi & Hb & _).
      apply next_below_stable; [done|by eapply before_in|done].
    + by eapply hooking_stable.
    + by eapply hooking_stable.
    + eapply hooking_stable; [done..|]. intros u _ Hi Hu. by apply next_some_stable.
    + eapply hooking_stable; [done..|]. intros u _ Hi Hu. by apply next_below_stable.
    + eapply hooking_stable; [done..|]. intros u _ Hi Hu. by apply next_below_stable.
    + eapply hooking_stable; [done..|]. intros u E Hi Hu (q & Hq). exists q.
      apply next_stops_stable; [done|done| |done]. apply Hh. by rewrite E.
    + eapply hooking_stable; [done..|]. intros u E Hi Hu Hq.
      apply next_stops_stable; [done|done| |done]. apply Hh. by rewrite E.
    + eapply hooking_stable; [done..|]. intros u E Hi Hu (q & Hq & Hn). exists q. split.
      * apply next_stops_stable; [done|done| |done]. apply Hh. by rewrite E.
      * rewrite <-Hn. apply (ev_other _ _ _ _ _ _ Hev); [done| |done]. apply Hout. lia.
    + by eapply hooking_stable.
  - destruct Ht as [Hf ?]. split; [by apply frame_stable|lia].
  - done.
Qed.
End stable.
End knowledge.

(** ** What the writes to memory do *)
Definition locked (m : Mem) (p : Z) : bool := mutex (node m p).

Lemma set_mutex_next kl m p b c i : getNext kl (set_mutex m p b) c i = getNext kl m c i.
Proof.
  unfold getNext, deref, set_mutex. destruct (m !! p) as [n|] eqn:E; [|done].
  destruct (decide (c = p)) as [->|]; [by rewrite lookup_insert_eq, E|by rewrite lookup_insert_ne].
Qed.

Lemma set_mutex_same m p b : same_nodes m (set_mutex m p b).
Proof.
  intros c [n Hn]. unfold key_of, height, node, set_mutex. destruct (m !! p) as [np|] eqn:E; [|by rewrite Hn].
  destruct (decide (c = p)) as [->|]; [rewrite lookup_insert_eq, E; by split|rewrite lookup_insert_ne, Hn by done; by split].
Qed.

Lemma set_mutex_none m p b c : m !! c = None -> set_mutex m p b !! c = None.
Proof.
  intros Hc. unfold set_mutex. destruct (m !! p) as [n|] eqn:E; [|done]. rewrite lookup_insert_ne; [done|congruence].
Qed.

Lemma set_mutex_locked m p b c : is_Some (m !! p) -> locked (set_mutex m p b) c = if decide (c = p) then b else locked m c.
Proof.
  intros [n Hn]. unfold locked, set_mutex, node. rewrite Hn.
  case_decide as E; [subst; by rewrite lookup_insert_eq|by rewrite lookup_insert_ne].
Qed.

Section writes.
Context (kl mx hd : Z) (Hk : known kl = true) (m : Mem) (X : Z -> list Z) (HX : levels kl mx m hd X).

Lemma evolves_refl held mine : evolves kl mx hd m X m X held mine.
Proof. split; try done; by left. Qed.

Lemma evolves_mutex p b held mine : evolves kl mx hd m X (set_mutex m p b) X held mine.
Proof.
  split; try done; [apply set_mutex_same|intros; by apply set_mutex_none| |].
  - intros c i q _ _ E. left. by rewrite set_mutex_next.
  - intros c i _ _ _. apply set_mutex_next.
Qed.

Lemma levels_mutex p b : levels kl mx (set_mutex m p b) hd X.
Proof.
  apply (levels_same kl mx m); [done|apply set_mutex_same|]. intros i Hi. eapply chain_ext; [| |by apply HX].
  - intros q _. apply set_mutex_next.
  - intros q Hq. apply (set_mutex_same m p b), (lv_nodes _ _ _ _ _ HX i q Hi Hq).
Qed.

Lemma evolves_alloc p n held : m !! p = None -> evolves kl mx hd m X (<[p := n]> m) X held p.
Proof.
  intros Hp. split; try done; [by apply same_nodes_fresh|intros q Hq ?; by rewrite lookup_insert_ne by congruence| |].
  - intros c i q Hi Hc E. left. destruct (levels_in kl mx m hd X i c HX Hi Hc) as [nc Hnc].
    unfold getNext, deref in *. rewrite lookup_insert_ne by congruence. done.
  - intros c i _ _ Hne. unfold getNext, deref. by rewrite lookup_insert_ne by congruence.
Qed.

Lemma none_put p i q m' c : putNext kl m p i q = Ok m' -> m !! c = None -> m' !! c = None.
Proof.
  intros (_ & Hd & _)%putNext_inv Hc; [|done]. apply not_elem_of_dom. rewrite Hd. by apply not_elem_of_dom.
Qed.

(** Writing the own pointer of a level at which the node is not linked yet. *)
Lemma evolves_own p i q m' held : 0 <= i -> p ∉ hd :: X i -> putNext kl m p i q = Ok m' ->
  evolves kl mx hd m X m' X held p.
Proof.
  intros Hi Hp E. destruct (putNext_inv kl Hk _ _ _ _ _ E) as (Hs & _).
  split; try done; [intros c _; by eapply none_put| |].
  - intros c j r Hj Hc Er. left. rewrite (getNext_put kl Hk _ _ _ _ _ _ _ E Hi), decide_False; [done|]. intros [-> ->]. done.
  - intros c j _ _ Hne. rewrite (getNext_put kl Hk _ _ _ _ _ _ _ E Hi), decide_False; [done|]. tauto.
Qed.

Lemma levels_own p i q m' : 0 <= i -> p ∉ hd :: X i -> putNext kl m p i q = Ok m' -> levels kl mx m' hd X.
Proof.
  intros Hi Hp E. destruct (putNext_inv kl Hk _ _ _ _ _ E) as (Hs & _).
  apply (levels_same kl mx m); [done|done|]. intros j Hj. eapply (chain_put_other kl Hk m m'); [done|done|done| |by apply HX].
  destruct (decide (j = i)) as [->|]; [by right|by left].
Qed.

(** A node before the key whose next is not before it is the last one. *)
Lemma last_before_stops i key u q : 0 <= i < mx -> before kl hd m X i key u -> next_stops kl m i key u q ->
  u = last_of hd (lower kl m key (X i)).
Proof.
  intros Hi Hb [Eq Hq]. pose proof (lv_chain _ _ _ _ _ HX i Hi) as Hch. pose proof (lv_sorted _ _ _ _ _ HX i Hi) as Hs.
  assert (Hnext : forall K, chain kl m i u K -> sorted kl m K -> lower kl m key K = []).
  { intros [|x K] Hc HK; [done|]. destruct Hc as (Ex & Hx0 & _). rewrite Eq in Ex. injection Ex as ->.
    destruct Hq as [->|[_ Hq]]; [done|]. pose proof (lower_upper kl Hk m key _ HK) as HL.
    destruct (lower kl m key (x :: K)) as [|y A] eqn:E; [done|]. exfalso. injection HL as -> _.
    assert (Hy : y ∈ lower kl m key (y :: K)) by (rewrite E; left). apply elem_of_lower in Hy as [? _]. congruence. }
  destruct Hb as [->|[Hu Hb]].
  - by rewrite (Hnext (X i)).
  - apply list_elem_of_split in Hu as (l1 & l2 & E). rewrite E in *. rewrite (lower_middle kl Hk) by done.
    rewrite (Hnext l2).
    + by rewrite last_of_app.
    + rewrite (cons_middle u l1), app_assoc in Hch. apply chain_app in Hch. by rewrite last_of_app in Hch.
    + apply StronglySorted_app in Hs as (_ & _ & Hs). by apply StronglySorted_inv in Hs as [? _].
Qed.

(** Linking the own node. *)
Lemma link_step f i u q m' p key : p = f_new f -> key = f_key f -> frame_ok kl mx hd m f -> 0 <= i < newLevel f ->
  p ∉ hd :: X i -> (0 < i -> p ∈ X (i - 1)) -> before kl hd m X i key u -> next_stops kl m i key u q ->
  getNext kl m p i = Ok q -> putNext kl m u i p = Ok m' ->
  levels kl mx m' hd (hook kl m key p i X) /\ evolves kl mx hd m X m' (hook kl m key p i X) (Some u) p.
Proof.
  intros -> -> (Hfk & Hlv & Hp0 & Hph & Hp & Hkp & _ & Hh) Hi Hnin Hbelow Hb Hst Eq E.
  assert (Hi' : 0 <= i < mx) by lia. pose proof (last_before_stops i (f_key f) u q Hi' Hb Hst) as Hu.
  destruct (putNext_inv kl Hk _ _ _ _ _ E) as (Hs & _). destruct Hst as [Equ Hq].
  assert (Hid : putNext kl m (f_new f) i q = Ok m).
  { destruct Hp as [n Hn]. unfold getNext, putNext, deref in *. rewrite Hk, Hn in *. cbn [mbind res_bind] in *.
    pose proof (zget_range _ _ _ Eq) as Hr. rewrite zset_Ok by done. cbn [mbind res_bind]. f_equal.
    apply zget_Ok in Eq as [_ Hlk]. rewrite list_insert_id by done. destruct n. by apply insert_id. }
  split.
  - eapply (hook_levels kl Hk mx m m m'); [done|done|done|done|done|lia|done|done| |exact Hid|].
    + rewrite <-Hu. exact Equ.
    + by rewrite <-Hu.
  - split; try done.
    + intros c _. by eapply none_put.
    + intros j x Hj Hx. apply (elem_of_hook kl Hk mx m hd); [done|done|by right].
    + intros c j r Hj Hc Er. rewrite (getNext_put kl Hk _ _ _ _ _ _ _ E) by lia. case_decide as Ec; [|by left].
      destruct Ec as [-> ->]. right. split; [done|]. exists (f_new f). rewrite Equ in Er. injection Er as <-.
      destruct (Hs (f_new f) Hp) as (Hp' & Ekp & _). split_and!; [done|done|done|].
      destruct Hq as [->|[Hqs Hqb]]; [by left|right]. destruct (Hs q Hqs) as (_ & -> & _). rewrite Ekp, Hkp. exact Hqb.
    + intros c j _ Hc Hne. rewrite (getNext_put kl Hk _ _ _ _ _ _ _ E) by lia. rewrite decide_False; [done|].
      intros [-> ->]. apply Hc. by apply before_in in Hb.
Qed.
End writes.

(** ** One step of one thread *)

(** *** How far a thread is from its end *)

(** The nodes of [l] behind [c]. *)
Fixpoint behind (c : Z) (l : list Z) : list Z :=
  match l with [] => [] | x :: l => if decide (x = c) then l else behind c l end.

Lemma behind_length c l : (length (behind c l) <= length l - 1)%nat.
Proof. induction l as [|x l IH]; [done|]. cbn. case_decide; [lia|]. destruct l; cbn in *; lia. Qed.

Lemma behind_next kl m i c q l : forall p, chain kl m i p l -> NoDup (p :: l) -> c ∈ p :: l ->
  getNext kl m c i = Ok q -> q <> nullptr -> behind c (p :: l) = q :: behind q (p :: l).
Proof.
  induction l as [|x l IH]; intros p Hc Hnd Hin Eq Hq; cbn [chain] in Hc.
  - apply list_elem_of_singleton in Hin as ->. congruence.
  - destruct Hc as (Ex & Hx & _ & Hc). apply NoDup_cons in Hnd as [Hp Hnd]. cbn [behind].
    destruct (decide (p = c)) as [->|Hne].
    + rewrite Eq in Ex. injection Ex as ->. rewrite decide_False by (intros ->; apply Hp; left). by rewrite decide_True.
    + apply elem_of_cons in Hin as [|Hin]; [congruence|]. rewrite (IH x Hc Hnd Hin Eq Hq) at 1. f_equal.
      assert (Hqin : q ∈ x :: l).
      { clear -Hin Eq Hc Hq. revert x Hc Hin. induction l as [|y l IH]; intros x Hc Hin; cbn [chain] in Hc.
        - apply list_elem_of_singleton in Hin as ->. congruence.
        - destruct Hc as (Ey & _ & _ & Hc). apply elem_of_cons in Hin as [->|Hin].
          + rewrite Eq in Ey. injection Ey as ->. right. left.
          + right. by apply IH. }
      rewrite decide_False; [done|]. intros ->. by apply Hp.
Qed.

Section one_step.
Context (kl mx hd : Z) (Hk : known kl = true) (Hmx : 0 < mx < 2 ^ 31) (B : Z).

Definition dist (X : Z -> list Z) (i c : Z) : Z := zlen (behind c (hd :: X i)).

Lemma dist_bound X i c : 0 <= dist X i c <= zlen (X i).
Proof. unfold dist, zlen. pose proof (behind_length c (hd :: X i)) as H. simpl length in H at 2. lia. Qed.

Lemma dist_next m X i c q : levels kl mx m hd X -> 0 <= i < mx -> c ∈ hd :: X i -> getNext kl m c i = Ok q ->
  q <> nullptr -> dist X i q = dist X i c - 1.
Proof.
  intros HX Hi Hc Eq Hq. unfold dist. rewrite (behind_next kl m i c q (X i) hd); try done; [|by apply HX..].
  unfold zlen. cbn [length]. lia.
Qed.

(** The steps that are left, as long as no other thread links a node or
    raises the level; [B] bounds the length of the levels. *)
Definition at_level (f : Frame) (i : Z) : Z := match zget (update f) i with Ok u => u | _ => nullptr end.
Definition per_level : Z := 3 * B + 4.
Definition hooks : Z := 5 * B + 20.
Definition rank (X : Z -> list Z) (now : Z) (t : Thread) : Z :=
  match t with
  | Ready _ => hooks + mx * per_level + 3
  | Counted _ => hooks + mx * per_level + 2
  | Running f PLevel => hooks + mx * per_level + 1
  | Running f (PNull i) => hooks + i * per_level + 3 * dist X i (curr f) + 3
  | Running f (PBelow i) => hooks + i * per_level + 3 * dist X i (curr f) + 2
  | Running f (PNext i) => hooks + i * per_level + 3 * dist X i (curr f) + 1
  | Running f (PLock i) => 5 * dist X i (at_level f i) + 13
  | Running f (PLook i) => 5 * dist X i (at_level f i) + 12
  | Running f (PLess i) => 5 * dist X i (at_level f i) + 11
  | Running f (PGive i) => 5 * dist X i (at_level f i) + 10
  | Running f (PMove i) => 5 * dist X i (at_level f i) + 9
  | Running f (PGet _) => 8
  | Running f (PNew _ _) => 7
  | Running f (PLink _) => 6
  | Running f (PFree _) => 5 * B + 19
  | Running f PLoad => 3
  | Running f (PCas c) => if now =? c then 1 else 5
  | Finished _ | Refused _ => 0
  end.

Definition sizes (X : Z -> list Z) : Prop := forall i, 0 <= i < mx -> zlen (X i) <= B.

Lemma rank_hook X now f i : sizes X -> newLevel f <= mx -> 0 <= i -> rank X now (hook_at f i) <= 5 * B + 13.
Proof.
  intros Hs Hf Hi. pose proof (Hs 0 ltac:(lia)). pose proof (zlen_nonneg (X 0)). unfold hook_at. case_test; zbool; cbn [rank]; [|lia].
  pose proof (dist_bound X i (at_level f i)). pose proof (Hs i ltac:(lia)). lia.
Qed.

Lemma rank_search X now f i : sizes X -> newLevel f <= mx -> -1 <= i < mx -> rank X now (search_at f i) < hooks + (i + 1) * per_level.
Proof.
  intros Hs Hf Hi. unfold search_at. case_test; zbool.
  - pose proof (rank_hook X now f 0 Hs Hf ltac:(lia)). assert (i = -1) as -> by lia. unfold hooks. lia.
  - cbn [rank]. pose proof (dist_bound X i (curr f)). pose proof (Hs i ltac:(lia)). unfold per_level. nia.
Qed.

(** The list of the system that the sections speak of. *)
Definition is_list (l : LockedList) : Prop :=
  l_keyLen l = kl /\ l_maxLevel l = mx /\ l_head l = hd /\ 0 <= now_level l <= mx.

Record local_step (l : LockedList) (X : Z -> list Z) (t : Thread) (l' : LockedList) (t' : Thread) (X' : Z -> list Z) : Prop := {
  ls_list : is_list l';
  ls_level : now_level l <= now_level l';
  ls_levels : levels kl mx (l_mem l') hd X';
  ls_addr : addr t' = addr t;
  ls_members : forall i p, 0 <= i < mx -> p ∈ X' i <-> p ∈ X i \/ (p = addr t /\ i < hooked t');
  ls_hooked : hooked t <= hooked t' <= mx;
  ls_thread : thread_ok kl mx hd (l_mem l') X' (now_level l') t';
  ls_evolves : evolves kl mx hd (l_mem l) X (l_mem l') X' (holds t) (addr t);
  ls_locks : forall p, locked (l_mem l') p = true <->
    (locked (l_mem l) p = true /\ holds t <> Some p) \/ holds t' = Some p;
  ls_rank : hooked t < hooked t' \/ X' = X /\ (now_level l < now_level l' \/
    now_level l' = now_level l /\ rank X (now_level l) t' < rank X (now_level l) t);
  ls_locked : forall p, holds t' = Some p -> holds t = Some p \/ locked (l_mem l) p = false }.

(** What the thread may rely on. *)
Record ready_to (l : LockedList) (X : Z -> list Z) (t : Thread) : Prop := {
  rt_list : is_list l;
  rt_levels : levels kl mx (l_mem l) hd X;
  rt_thread : thread_ok kl mx hd (l_mem l) X (now_level l) t;
  rt_in : forall i, 0 <= i < hooked t -> addr t ∈ X i;
  rt_out : forall i, 0 <= i < mx -> hooked t <= i -> addr t ∉ hd :: X i;
  rt_hooked : 0 <= hooked t <= mx;
  rt_sizes : sizes X;
  rt_lock : forall u, holds t = Some u -> locked (l_mem l) u = true }.

Section step_of.
Context (l : LockedList) (X : Z -> list Z).
Let m := l_mem l.

(** A step that only changes local variables and the number of nodes. *)
Lemma quiet_step l' t t' : ready_to l X t -> is_list l' -> l_mem l' = m -> now_level l' = now_level l ->
  addr t' = addr t -> hooked t' = hooked t -> holds t' = holds t ->
  thread_ok kl mx hd m X (now_level l) t' -> rank X (now_level l) t' < rank X (now_level l) t ->
  local_step l X t l' t' X.
Proof.
  intros [] Hl' Em En Ha Hh Ho Ht Hrk. split; rewrite ?Em, ?En; try done.
  - intros i p Hi. rewrite Hh. split; [by left|]. intros [?|[-> ?]]; [done|]. apply rt_in0. lia.
  - lia.
  - apply evolves_refl.
  - intros p. rewrite Ho. destruct (holds t) as [u|] eqn:E; [|naive_solver].
    split; [|intros [[? _]|[= <-]]; [done|by apply rt_lock0]]. intros Hp. destruct (decide (u = p)) as [->|]; [by right|left].
    split; [done|congruence].
  - right. split; [done|]. by right.
  - intros p Hp. left. congruence.
Qed.

(** Knowledge is not about locks. *)
Lemma thread_mutex lvl t p b : levels kl mx m hd X -> thread_ok kl mx hd m X lvl t ->
  (forall i, hooked t <= i < mx -> addr t ∉ hd :: X i) -> thread_ok kl mx hd (set_mutex m p b) X lvl t.
Proof.
  intros HX Ht Hout.
  apply (thread_stable kl mx hd Hk m X _ X None (addr t + 1) HX) with (lvl := lvl); [|done|lia|lia|done|done].
  apply evolves_mutex.
Qed.

(** Taking and giving back a lock. *)
Lemma lock_step t t' u : ready_to l X t -> addr t' = addr t -> hooked t' = hooked t -> holds t = None -> holds t' = Some u ->
  is_Some (m !! u) -> locked m u = false ->
  thread_ok kl mx hd m X (now_level l) t' -> rank X (now_level l) t' < rank X (now_level l) t ->
  local_step l X t (with_mem l (set_mutex m u true)) t' X.
Proof.
  intros [] Ha Hh Ho Ho' Hu Hf Ht Hrk. split; try done; cbn [with_mem with_locked now_level l_mem].
  - by apply levels_mutex.
  - intros i p Hi. rewrite Hh. split; [by left|]. intros [?|[-> ?]]; [done|]. apply rt_in0. lia.
  - lia.
  - apply thread_mutex; [done|done|]. rewrite Ha, Hh. intros i Hi. apply rt_out0; lia.
  - by apply evolves_mutex.
  - intros p. rewrite set_mutex_locked, Ho, Ho' by done. case_decide as E; [subst; by split; [right|]|].
    split; [by left|]. intros [[? _]|[=]]; [done|by subst].
  - right. split; [done|]. by right.
  - intros p Hp. right. by rewrite Ho' in Hp; injection Hp as <-.
Qed.

Lemma unlock_step t t' u : ready_to l X t -> addr t' = addr t -> hooked t' = hooked t -> holds t = Some u -> holds t' = None ->
  is_Some (m !! u) ->
  thread_ok kl mx hd m X (now_level l) t' -> rank X (now_level l) t' < rank X (now_level l) t ->
  local_step l X t (with_mem l (set_mutex m u false)) t' X.
Proof.
  intros [] Ha Hh Ho Ho' Hu Ht Hrk. split; try done; cbn [with_mem with_locked now_level l_mem].
  - by apply levels_mutex.
  - intros i p Hi. rewrite Hh. split; [by left|]. intros [?|[-> ?]]; [done|]. apply rt_in0. lia.
  - lia.
  - apply thread_mutex; [done|done|]. rewrite Ha, Hh. intros i Hi. apply rt_out0; lia.
  - by apply evolves_mutex.
  - intros p. rewrite set_mutex_locked, Ho, Ho' by done. case_decide as E; [subst; split; [done|]|].
    + intros [[_ ?]|?]; done.
    + split; [|by intros [[? _]|?]]. intros ?. left. split; [done|congruence].
  - right. split; [done|]. by right.
  - intros p Hp. by rewrite Ho' in Hp.
Qed.

(** After a level of the search. *)
Lemma search_at_ok f i : frame_ok kl mx hd m f -> -1 <= i < mx -> updates_ok kl mx hd m X f (i + 1) ->
  (0 <= i -> before kl hd m X i (f_key f) (curr f)) ->
  thread_ok kl mx hd m X (now_level l) (search_at f i) /\ addr (search_at f i) = f_new f /\
  hooked (search_at f i) = 0 /\ holds (search_at f i) = None.
Proof.
  intros Hf Hi Hu Hb. unfold search_at. case_test; zbool.
  - assert (i = -1) as -> by lia. unfold hook_at. rewrite (proj2 (Z.ltb_lt 0 (newLevel f))) by (destruct Hf as (_ & ? & _); lia).
    split_and!; try done. split; [done|]. destruct Hf as (_ & ? & _). split; [lia|]. by split.
  - split_and!; try done. split; [done|]. split; [lia|]. split; [by apply Hb|done].
Qed.

Lemma hook_at_ok f i : frame_ok kl mx hd m f -> 0 <= i <= newLevel f -> updates_ok kl mx hd m X f i ->
  thread_ok kl mx hd m X (now_level l) (hook_at f i) /\ addr (hook_at f i) = f_new f /\
  hooked (hook_at f i) = i /\ holds (hook_at f i) = None.
Proof.
  intros Hf Hi Hu. unfold hook_at. case_test; zbool.
  - split_and!; try done. split; [done|]. split; [lia|]. by split.
  - split_and!; try done. cbn. lia.
Qed.

Lemma leave_level_ok f i : levels kl mx m hd X -> frame_ok kl mx hd m f -> searching kl mx hd m X f i ->
  exists t', leave_level f i = Ok t' /\ thread_ok kl mx hd m X (now_level l) t' /\ addr t' = f_new f /\
    hooked t' = 0 /\ holds t' = None /\ (sizes X -> rank X (now_level l) t' < hooks + i * per_level).
Proof.
  intros HX Hf (Hi & Hb & Hz & Hu). unfold leave_level. rewrite zset_Ok by lia. cbn [mbind res_bind].
  eexists. split; [done|].
  assert (Hrk : sizes X -> rank X (now_level l) (search_at (with_update f (<[Z.to_nat i := curr f]> (update f))) (i - 1)) < hooks + i * per_level).
  { intros Hs. pose proof (rank_search X (now_level l) (with_update f (<[Z.to_nat i := curr f]> (update f))) (i - 1) Hs) as H.
    replace (i - 1 + 1) with i in H by lia. apply H; [by apply Hf|lia]. }
  destruct (search_at_ok (with_update f (<[Z.to_nat i := curr f]> (update f))) (i - 1)) as (H1 & H2 & H3 & H4);
    [..|by split_and!].
  - exact Hf.
  - lia.
  - split; cbn [with_update update newLevel f_key]; [by rewrite zlen_insert|]. intros j Hj.
    destruct (decide (j = i)) as [->|Hne].
    + exists (curr f). rewrite zget_insert_eq by lia. done.
    + rewrite zget_insert_ne by lia. apply Hu. lia.
  - intros Hi0. destruct Hb as [E|[Hc Hb]]; [by left|right]. split; [|done].
    apply (lv_below _ _ _ _ _ HX); [lia|lia|]. by replace (i - 1 + 1) with i by lia.
Qed.
End step_of.

(** *** The cases of [tstep] *)
Definition waits (l : LockedList) (t : Thread) (u : Z) : Prop :=
  exists f i, t = Running f (PLock i) /\ zget (update f) i = Ok u /\ locked (l_mem l) u = true.

Definition goes_on (l : LockedList) (X : Z -> list Z) (t : Thread) : Prop :=
  exists l' t' X', tstep l t = Ok (l', t') /\ local_step l X t l' t' X'.

Section cases.
Context (l : LockedList) (X : Z -> list Z) (t : Thread) (Hr : ready_to l X t).
#[local] Abbreviation m := (l_mem l).

Lemma quiet t' : tstep l t = Ok (l, t') -> addr t' = addr t -> hooked t' = hooked t -> holds t' = holds t ->
  thread_ok kl mx hd m X (now_level l) t' -> rank X (now_level l) t' < rank X (now_level l) t -> goes_on l X t.
Proof.
  intros E ? ? ? ? ?. exists l, t', X. split; [done|]. apply quiet_step; try done. apply Hr.
Qed.

Lemma randomLevel_ok r : 0 < r < 2 ^ 31 -> exists lvl, randomLevel r mx = Ok lvl /\ 1 <= lvl <= mx.
Proof.
  intros Hr'. unfold randomLevel. rewrite (proj2 (Z.eqb_neq r 0)) by lia. eexists. split; [done|].
  pose proof (Z.log2_up_nonneg r). assert (Z.log2_up r <= 31).
  { transitivity (Z.log2_up (2 ^ 31)); [apply Z.log2_up_le_mono; lia|]. by rewrite Z.log2_up_pow2. }
  rewrite u32_small by lia. case_test; zlia.
Qed.

Lemma ready_case c : t = Ready c -> goes_on l X t.
Proof.
  intros E. pose proof Hr as [(Hkl & Hmxl & Hhd & Hlv) _ Hth _ _ _ _ _]. rewrite E in Hth.
  unfold goes_on. rewrite E. cbn [tstep]. rewrite Hkl. case_test; zbool.
  - eexists _, _, X. split; [done|]. rewrite <-E. apply quiet_step; [exact Hr|apply Hr|by rewrite ?E..|].
    pose proof (rt_sizes _ _ _ Hr 0 ltac:(lia)). pose proof (zlen_nonneg (X 0)).
    rewrite E. cbn [rank]. unfold hooks, per_level. nia.
  - eexists _, _, X. split; [done|]. rewrite <-E. apply quiet_step; [exact Hr|exact (conj Hkl (conj Hmxl (conj Hhd Hlv)))|done|done|by rewrite E|by rewrite E|by rewrite E| |].
    + split; [exact E0|exact Hth].
    + rewrite E. cbn [rank]. lia.
Qed.

Lemma counted_case c : t = Counted c -> goes_on l X t.
Proof.
  intros E. pose proof Hr as [(Hkl & Hmxl & Hhd & Hlv) HX Hth Hin Hout Hho _ Hlo]. rewrite E in Hth.
  destruct Hth as (Hkey & Hfr & Hp0 & Hrand). destruct (randomLevel_ok _ Hrand) as (lvl & El & Hlvl).
  unfold goes_on. rewrite E. cbn [tstep]. rewrite Hmxl, El. cbn [mbind res_bind]. unfold newNode. rewrite Hkl, Hk.
  pose proof (zlen_nonneg (i_key c)). rewrite zread_Ok by lia. cbn [mbind res_bind].
  rewrite zslice_full by done. rewrite Hhd.
  set (n := mkNode (i_key c) (i_value c) (replicate (Z.to_nat lvl) nullptr) false).
  pose proof (lv_head _ _ _ _ _ HX) as (Hh1 & _ & _).
  assert (Hn : node (<[i_addr c := n]> m) (i_addr c) = n) by (unfold node; by rewrite lookup_insert_eq).
  assert (Hlk : forall p, locked (<[i_addr c := n]> m) p = locked m p).
  { intros p. unfold locked. destruct (decide (p = i_addr c)) as [->|]; [rewrite Hn|].
    - unfold node. by rewrite Hfr.
    - unfold node. by rewrite lookup_insert_ne. }
  eexists _, _, X. split; [done|]. split; cbn [with_mem with_locked l_mem now_level addr hooked holds f_new]; try done.
  - by apply levels_fresh.
  - intros i p Hi. split; [by left|]. intros [?|[_ ?]]; [done|lia].
  - lia.
  - split; [|split; [done|cbn [update]; rewrite zlen_replicate; lia]]. unfold frame_ok, key_of, height. cbn [f_key f_value newLevel f_new].
    rewrite Hn. cbn. rewrite zlen_replicate, lookup_insert_eq. split_and!; try done; try lia.
    intros Eh. rewrite <-Eh in Hh1. destruct Hh1. congruence.
  - by apply evolves_alloc.
  - intros p. rewrite Hlk. naive_solver.
  - right. split; [done|]. right. split; [done|]. cbn [rank]. lia.
Qed.

Section running.
Context (f : Frame) (Hf : frame_ok kl mx hd m f).

Lemma level_case : t = Running f PLevel -> goes_on l X t.
Proof.
  intros E. pose proof Hr as [(Hkl & Hmxl & Hhd & Hlv) HX Hth _ _ _ _ _]. rewrite E in Hth. destruct Hth as [_ [Hc Hu]].
  destruct Hf as (_ & Hnl & _). set (from := if newLevel f <? now_level l then now_level l else newLevel f).
  assert (Hfr : newLevel f <= from <= mx) by (unfold from; case_test; zlia).
  destruct (search_at_ok l X f (from - 1) Hf) as (H1 & H2 & H3 & H4); [lia|split; [done|lia]|by left|].
  apply (quiet (search_at f (from - 1))); [by rewrite E|by rewrite H2, E|by rewrite H3, E|by rewrite H4, E|done|].
  pose proof (rank_search X (now_level l) f (from - 1) (rt_sizes _ _ _ Hr) ltac:(lia) ltac:(lia)) as Hrk.
  pose proof (rt_sizes _ _ _ Hr 0 ltac:(lia)). pose proof (zlen_nonneg (X 0)). rewrite E. cbn [rank]. unfold per_level in *. nia.
Qed.

Lemma next_of i c : 0 <= i < mx -> c ∈ hd :: X i -> exists q, getNext kl m c i = Ok q /\ (q = nullptr \/ q ∈ X i /\ q <> nullptr).
Proof.
  intros Hi Hc. pose proof Hr as [_ HX _ _ _ _ _ _].
  assert (Hq : exists q, getNext kl m c i = Ok q).
  { destruct (levels_in kl mx m hd X i c HX Hi Hc) as [n Hn]. unfold getNext, deref. rewrite Hk, Hn. cbn.
    apply zget_lt. split; [lia|]. apply elem_of_cons in Hc as [->|Hc].
    - destruct (lv_head _ _ _ _ _ HX) as (_ & Hh & _). unfold height, node in Hh. rewrite Hn in Hh. cbn in Hh. lia.
    - destruct (lv_nodes _ _ _ _ _ HX i c Hi Hc) as (_ & _ & Hh). unfold height, node in Hh. rewrite Hn in Hh. cbn in Hh. lia. }
  destruct Hq as (q & E). exists q. split; [done|].
  destruct (next_node kl mx hd m X HX i c q Hi Hc E) as [->|Hq]; [by left|right]. split; [done|].
  by apply (lv_nodes _ _ _ _ _ HX i q Hi).
Qed.

Lemma compare_next i q key : 0 <= i < mx -> q ∈ X i -> zlen key = kl ->
  exists c, compareNodeKey kl m q key = Ok c /\ (c <? 0) = below kl m key q.
Proof.
  intros Hi Hq Hl. pose proof Hr as [_ HX _ _ _ _ _ _]. destruct (lv_nodes _ _ _ _ _ HX i q Hi Hq) as ([n Hn] & _).
  exists (compare_keys kl (n_key n) key). split; [by apply compareNodeKey_ok|]. unfold below, key_of, node, lt. by rewrite Hn.
Qed.

Lemma leave_case i pc : t = Running f pc -> hooked t = 0 -> holds t = None -> searching kl mx hd m X f i ->
  tstep l t = (t' ← leave_level f i; Ok (l, t')) -> hooks + i * per_level <= rank X (now_level l) t -> goes_on l X t.
Proof.
  intros E Hh Ho Hs Et Hrk. pose proof Hr as [_ HX _ _ _ _ _ _].
  destruct (leave_level_ok l X f i HX Hf Hs) as (t' & El & H1 & H2 & H3 & H4 & H5). rewrite El in Et.
  eapply quiet; [exact Et|by rewrite H2, E|congruence|congruence|done|]. specialize (H5 (rt_sizes _ _ _ Hr)). lia.
Qed.

Lemma null_case i : t = Running f (PNull i) -> goes_on l X t.
Proof.
  intros E. pose proof Hr as [(Hkl & _) HX Hth _ _ _ _ _]. rewrite E in Hth. destruct Hth as [_ Hs].
  pose proof Hs as (Hi & Hb & _). destruct (next_of i (curr f) Hi) as (q & Eq & Hq); [by eapply before_in|].
  destruct Hq as [->|[Hq Hq0]].
  - eapply leave_case; [done|by rewrite E|by rewrite E|done| |].
    + rewrite E. cbn [tstep]. rewrite Hkl. by rewrite Eq.
    + rewrite E. cbn [rank]. pose proof (dist_bound X i (curr f)). lia.
  - eapply (quiet (Running f (PBelow i))); try (by rewrite E);
      [|split; [done|split; [done|by exists q]]|rewrite E; cbn [rank]; lia].
    rewrite E. cbn [tstep]. rewrite Hkl. rewrite Eq. cbn [mbind res_bind]. by rewrite (proj2 (Z.eqb_neq q nullptr)).
Qed.

Lemma below_case i : t = Running f (PBelow i) -> goes_on l X t.
Proof.
  intros E. pose proof Hr as [(Hkl & _) HX Hth _ _ _ _ _]. rewrite E in Hth. destruct Hth as [_ [Hs (q' & Eq' & Hq0)]].
  pose proof Hs as (Hi & Hb & _). destruct (next_of i (curr f) Hi) as (q & Eq & Hq); [by eapply before_in|].
  rewrite Eq in Eq'. injection Eq' as <-. destruct Hq as [|[Hq _]]; [done|].
  destruct (compare_next i q (f_key f) Hi Hq ltac:(apply Hf)) as (c & Ec & Hc).
  assert (Et : tstep l t = (if c <? 0 then Ok (l, Running f (PNext i)) else t' ← leave_level f i; Ok (l, t'))).
  { rewrite E. cbn [tstep]. rewrite Hkl. rewrite Eq. cbn [mbind res_bind]. rewrite Ec. done. }
  rewrite Hc in Et. destruct (below kl m (f_key f) q) eqn:Ebq.
  - eapply (quiet (Running f (PNext i))); try (by rewrite E); [done|split; [done|split; [done|]]|rewrite E; cbn [rank]; lia].
    exists q. split_and!; try done. by apply (lv_nodes _ _ _ _ _ HX i q Hi).
  - eapply leave_case; [done|by rewrite E|by rewrite E|done|done|].
    rewrite E. cbn [rank]. pose proof (dist_bound X i (curr f)). lia.
Qed.

Lemma next_case i : t = Running f (PNext i) -> goes_on l X t.
Proof.
  intros E. pose proof Hr as [(Hkl & _) HX Hth _ _ _ _ _]. rewrite E in Hth. destruct Hth as [_ [Hs (q & Eq & Hq0 & Hqs & Hqb)]].
  pose proof Hs as (Hi & Hb & Hu). destruct (next_node kl mx hd m X HX i (curr f) q Hi) as [|Hq]; [by eapply before_in|done|done|].
  eapply (quiet (Running (with_curr f q) (PNull i))); try (by rewrite E).
  - rewrite E. cbn [tstep]. rewrite Hkl. by rewrite Eq.
  - split; [exact Hf|]. split; [done|]. split; [by right|exact Hu].
  - rewrite E. cbn [rank with_curr curr]. rewrite (dist_next m X i (curr f) q HX Hi); [lia|by eapply before_in|done|done].
Qed.

(** While it hooks its node in. *)
Lemma hook_node i P : hooking kl mx hd m X f i P ->
  exists u, zget (update f) i = Ok u /\ before kl hd m X i (f_key f) u /\ u ∈ hd :: X i /\ is_Some (m !! u) /\ P u /\ 0 <= i < mx.
Proof.
  intros (Hi & [_ Hu] & HP). destruct (Hu i ltac:(lia)) as (u & E & Hb). exists u.
  assert (Hi' : 0 <= i < mx) by (destruct Hf as (_ & ? & _); lia). pose proof (before_in kl hd m X i _ u Hb) as Hin.
  split_and!; try done; [|by apply HP|lia|lia].
  apply (levels_in kl mx m hd X i); [apply Hr|done|done].
Qed.

Lemma hooking_at i (P Q : Z -> Prop) u : hooking kl mx hd m X f i P -> zget (update f) i = Ok u -> Q u ->
  hooking kl mx hd m X f i Q.
Proof. intros (Hi & Hu & HP) E HQ. split; [done|]. split; [done|]. intros u' E'. congruence. Qed.

Lemma lock_case i : t = Running f (PLock i) -> (exists u, waits l t u) \/ goes_on l X t.
Proof.
  intros E. pose proof Hr as [(Hkl & _) HX Hth _ Hout _ _ _]. rewrite E in Hth. destruct Hth as [_ Hh].
  destruct (hook_node i _ Hh) as (u & Eu & _ & _ & [n Hn] & _ & _).
  destruct (locked m u) eqn:El; [left; exists u, f, i; done|right].
  exists (with_mem l (set_mutex m u true)), (Running f (PLook i)), X. split.
  - rewrite E. cbn [tstep]. rewrite Eu, Hkl. cbn [mbind res_bind]. unfold lockNode, deref. rewrite Hk, Hn. cbn [mbind res_bind].
    unfold locked, node in El. rewrite Hn in El. cbn in El. by rewrite El.
  - apply lock_step; [done|by rewrite E|by rewrite E|by rewrite E|cbn; by rewrite Eu|by eexists|done|by split|].
    rewrite E. cbn [rank]. lia.
Qed.

Lemma unlock_ok u : is_Some (m !! u) -> unlockNode kl m u = Ok (set_mutex m u false).
Proof. intros [n Hn]. unfold unlockNode, deref. by rewrite Hk, Hn. Qed.

Lemma look_case i : t = Running f (PLook i) -> goes_on l X t.
Proof.
  intros E. pose proof Hr as [(Hkl & _) HX Hth _ _ _ _ _]. rewrite E in Hth. destruct Hth as [_ Hh].
  destruct (hook_node i _ Hh) as (u & Eu & Hb & Hu & Hs & _ & Hi). destruct (next_of i u Hi Hu) as (q & Eq & Hq).
  assert (Et : tstep l t = Ok (l, Running f (if q =? nullptr then PGet i else PLess i))).
  { rewrite E. cbn [tstep]. rewrite Eu. cbn [mbind res_bind]. by rewrite Hkl, Eq. }
  destruct Hq as [->|[Hq Hq0]].
  - apply (quiet _ Et); try (by rewrite E).
    + split; [done|]. eapply hooking_at; [done..|]. exists nullptr. split; [done|by left].
    + rewrite E. cbn [rank]. pose proof (dist_bound X i (at_level f i)). change (nullptr =? nullptr) with true. cbn [rank]. lia.
  - rewrite (proj2 (Z.eqb_neq q nullptr)) in Et by done. apply (quiet _ Et); try (by rewrite E).
    + split; [done|]. eapply hooking_at; [done..|]. by exists q.
    + rewrite E. cbn [rank]. lia.
Qed.

Lemma less_case i : t = Running f (PLess i) -> goes_on l X t.
Proof.
  intros E. pose proof Hr as [(Hkl & _) HX Hth _ _ _ _ _]. rewrite E in Hth. destruct Hth as [_ Hh].
  destruct (hook_node i _ Hh) as (u & Eu & Hb & Hu & Hs & (q' & Eq' & Hq0) & Hi). destruct (next_of i u Hi Hu) as (q & Eq & Hq).
  rewrite Eq in Eq'. injection Eq' as <-. destruct Hq as [|[Hq _]]; [done|].
  destruct (compare_next i q (f_key f) Hi Hq ltac:(apply Hf)) as (c & Ec & Hc).
  assert (Et : tstep l t = Ok (l, Running f (if below kl m (f_key f) q then PGive i else PGet i))).
  { rewrite E. cbn [tstep]. rewrite Eu. cbn [mbind res_bind]. rewrite Hkl, Eq. cbn [mbind res_bind]. rewrite Ec. cbn [mbind res_bind].
    by rewrite Hc. }
  pose proof (lv_nodes _ _ _ _ _ HX i q Hi Hq) as (Hqs & _).
  destruct (below kl m (f_key f) q) eqn:Ebq; apply (quiet _ Et); try (by rewrite E).
  - split; [done|]. eapply hooking_at; [done..|]. by exists q.
  - rewrite E. cbn [rank]. lia.
  - split; [done|]. eapply hooking_at; [done..|]. exists q. split; [done|by right].
  - rewrite E. cbn [rank]. pose proof (dist_bound X i (at_level f i)). lia.
Qed.

Lemma give_case i : t = Running f (PGive i) -> goes_on l X t.
Proof.
  intros E. pose proof Hr as [(Hkl & _) HX Hth _ _ _ _ _]. rewrite E in Hth. destruct Hth as [_ Hh].
  destruct (hook_node i _ Hh) as (u & Eu & Hb & Hu & Hs & _ & Hi).
  exists (with_mem l (set_mutex m u false)), (Running f (PMove i)), X. split.
  - rewrite E. cbn [tstep]. rewrite Eu, Hkl. cbn [mbind res_bind]. by rewrite unlock_ok.
  - apply unlock_step; [done|by rewrite E|by rewrite E|rewrite E; cbn; by rewrite Eu|done|done|by split|rewrite E; cbn [rank]; lia].
Qed.

Lemma move_case i : t = Running f (PMove i) -> goes_on l X t.
Proof.
  intros E. pose proof Hr as [(Hkl & _) HX Hth _ _ _ _ _]. rewrite E in Hth. destruct Hth as [_ Hh].
  destruct (hook_node i _ Hh) as (u & Eu & Hb & Hu & Hs & (q & Eq & Hq0 & Hqs & Hqb) & Hi).
  destruct (next_node kl mx hd m X HX i u q Hi Hu Eq) as [|Hq]; [done|]. destruct Hh as (Hi' & [Hz Hup] & _).
  eapply quiet.
  - rewrite E. cbn [tstep]. rewrite Eu. cbn [mbind res_bind]. rewrite Hkl, Eq. cbn [mbind res_bind].
    rewrite zset_Ok by lia. done.
  - by rewrite E.
  - by rewrite E.
  - by rewrite E.
  - split; [exact Hf|]. split; [done|]. split; [|done]. split; cbn [with_update update newLevel f_key]; [by rewrite zlen_insert|].
    intros j Hj. destruct (decide (j = i)) as [->|Hne].
    + exists q. rewrite zget_insert_eq by lia. split; [done|by right].
    + rewrite zget_insert_ne by lia. by apply Hup.
  - rewrite E. cbn [rank]. unfold at_level. cbn [with_update update]. rewrite zget_insert_eq, Eu by lia.
    rewrite (dist_next m X i u q HX Hi Hu Eq Hq0). lia.
Qed.

Lemma get_case i : t = Running f (PGet i) -> goes_on l X t.
Proof.
  intros E. pose proof Hr as [(Hkl & _) HX Hth _ _ _ _ _]. rewrite E in Hth. destruct Hth as [_ Hh].
  destruct (hook_node i _ Hh) as (u & Eu & Hb & Hu & Hs & (q & Hq) & Hi).
  apply (quiet (Running f (PNew i q))); try (by rewrite E).
  - rewrite E. cbn [tstep]. rewrite Eu. cbn [mbind res_bind]. destruct Hq as [Eq _]. by rewrite Hkl, Eq.
  - split; [done|]. by eapply hooking_at.
Qed.

Lemma free_case i : t = Running f (PFree i) -> goes_on l X t.
Proof.
  intros E. pose proof Hr as [(Hkl & _) HX Hth _ _ _ _ _]. rewrite E in Hth. destruct Hth as [_ Hh].
  destruct (hook_node i _ Hh) as (u & Eu & Hb & Hu & Hs & _ & Hi). destruct Hh as (Hi' & [Hz Hup] & _).
  destruct (hook_at_ok l X f (i + 1) Hf) as (H1 & H2 & H3 & H4); [lia| |].
  { split; [done|]. intros j Hj. apply Hup. lia. }
  exists (with_mem l (set_mutex m u false)), (hook_at f (i + 1)), X. split.
  - rewrite E. cbn [tstep]. rewrite Eu, Hkl. cbn [mbind res_bind]. by rewrite unlock_ok.
  - apply unlock_step; [done|by rewrite H2, E|by rewrite H3, E|rewrite E; cbn; by rewrite Eu|done|done|done|].
    pose proof (rank_hook X (now_level l) f (i + 1) (rt_sizes _ _ _ Hr) ltac:(by apply Hf) ltac:(lia)). rewrite E. cbn [rank]. lia.
Qed.

Lemma load_case : t = Running f PLoad -> goes_on l X t.
Proof.
  intros E. apply (quiet (if now_level l <? newLevel f then Running f (PCas (now_level l)) else Finished f)).
  - by rewrite E.
  - rewrite E. by case_test.
  - rewrite E. by case_test.
  - rewrite E. by case_test.
  - case_test; zbool; split; (done || cbn; lia).
  - rewrite E. case_test; cbn [rank]; [rewrite Z.eqb_refl|]; lia.
Qed.

Lemma cas_case c : t = Running f (PCas c) -> goes_on l X t.
Proof.
  intros E. pose proof Hr as [(Hkl & Hmxl & Hhd & Hlv) HX Hth Hin _ _ _ _]. rewrite E in Hth. destruct Hth as [_ Hc]. cbn in Hc.
  destruct (decide (now_level l = c)) as [Ec|Hne].
  - exists (with_locked l (newLevel f) (l_nodeNum l) m), (Finished f), X. split.
    { rewrite E. cbn [tstep]. by rewrite (proj2 (Z.eqb_eq _ _) Ec). }
    assert (Hnl : 1 <= newLevel f <= mx) by apply Hf. rewrite E in *.
    split; cbn [with_locked now_level l_mem addr hooked holds]; try done.
    + split_and!; (done || cbn; lia).
    + lia.
    + intros i p Hi. split; [by left|]. intros [?|[-> ?]]; [done|]. apply Hin. cbn. lia.
    + cbn. lia.
    + apply evolves_refl.
    + naive_solver.
    + right. split; [done|]. left. lia.
  - apply (quiet (Running f PLoad)); try (by rewrite E); [|by split|].
    + rewrite E. cbn [tstep]. by rewrite (proj2 (Z.eqb_neq _ _) Hne).
    + rewrite E. cbn [rank]. rewrite (proj2 (Z.eqb_neq _ _) Hne). lia.
Qed.

(** A step that writes a pointer and keeps the locks. *)
Lemma write_step m' X' t' p i q : putNext kl m p i q = Ok m' -> levels kl mx m' hd X' -> addr t' = addr t ->
  (forall i p, 0 <= i < mx -> p ∈ X' i <-> p ∈ X i \/ (p = addr t /\ i < hooked t')) -> hooked t <= hooked t' <= mx ->
  thread_ok kl mx hd m' X' (now_level l) t' -> evolves kl mx hd m X m' X' (holds t) (addr t) -> holds t' = holds t ->
  hooked t < hooked t' \/ X' = X /\ rank X (now_level l) t' < rank X (now_level l) t ->
  local_step l X t (with_mem l m') t' X'.
Proof.
  intros E HX' Ha Hm Hh Ht Hev Ho Hrk. pose proof Hr as [(Hkl & Hmxl & Hhd & Hlv) HX Hth Hin Hout Hho _ Hlo].
  destruct (putNext_inv kl Hk _ _ _ _ _ E) as (_ & _ & Hmu & _).
  split; cbn [with_mem with_locked now_level l_mem]; try done.
  - intros r. unfold locked. rewrite Hmu, Ho. destruct (holds t) as [u|] eqn:Eh; [|naive_solver].
    split; [|intros [[? _]|[= <-]]; [done|by apply Hlo]].
    intros Hp. destruct (decide (u = r)) as [->|]; [by right|left]. split; [done|congruence].
  - destruct Hrk as [|[-> ?]]; [by left|right]. split; [done|]. by right.
  - intros r Hp. left. congruence.
Qed.

Lemma own_put i q : 0 <= i < newLevel f -> exists m', putNext kl m (f_new f) i q = Ok m'.
Proof.
  intros Hi. destruct Hf as (_ & _ & _ & _ & [n Hn] & _ & _ & Hh). unfold height, node in Hh. rewrite Hn in Hh. cbn in Hh.
  destruct (putNext_ok kl Hk m (f_new f) n i q Hn ltac:(lia)) as (m' & E & _). by exists m'.
Qed.

Lemma new_case i q : t = Running f (PNew i q) -> goes_on l X t.
Proof.
  intros E. pose proof Hr as [(Hkl & _) HX Hth Hin Hout Hho _ _]. rewrite E in Hth. destruct Hth as [_ Hh].
  destruct (hook_node i _ Hh) as (u & Eu & Hb & Hu & Hs & Hq & Hi). pose proof Hh as (Hi' & _ & _).
  destruct (own_put i q Hi') as (m' & Em). assert (Hnin : f_new f ∉ hd :: X i) by (rewrite E in Hout; apply (Hout i); cbn; lia).
  assert (Hev : forall held, evolves kl mx hd m X m' X held (f_new f)) by (intros; apply (evolves_own kl mx hd Hk m X _ i q); [lia|done|done]).
  exists (with_mem l m'), (Running f (PLink i)), X. split.
  - rewrite E. cbn [tstep]. by rewrite Hkl, Em.
  - apply (write_step m' X _ (f_new f) i q Em); try (by rewrite E); rewrite E in *; cbn [addr hooked holds] in *.
    + apply (levels_own kl mx hd Hk m X HX (f_new f) i q); [lia|done|done].
    + intros j p Hj. split; [by left|]. intros [?|[-> ?]]; [done|]. apply Hin. lia.
    + lia.
    + destruct Hf as (_ & Hnl & _). split; [by apply (frame_stable kl mx hd m X m' X None (f_new f))|].
      apply (hooking_stable kl mx hd m X m' X None (f_new f) HX (Hev None) f i (fun u => next_stops kl m i (f_key f) u q)); [lia|done|].
      intros v Ev _ Hv Hst. exists q. split.
      * by apply (next_stops_stable kl mx hd m X m' X None (f_new f) (Hev None)).
      * rewrite (getNext_put kl Hk _ _ _ _ _ _ _ Em) by lia. by rewrite decide_True.
    + right. split; [done|]. cbn [rank]. lia.
Qed.

Lemma link_case i : t = Running f (PLink i) -> goes_on l X t.
Proof.
  intros E. pose proof Hr as [(Hkl & _) HX Hth Hin Hout Hho _ _]. rewrite E in Hth. destruct Hth as [_ Hh].
  destruct (hook_node i _ Hh) as (u & Eu & Hb & Hu & [n Hn] & (q & Hq & Eq) & Hi). pose proof Hh as (Hi' & _ & _).
  assert (Hnin : f_new f ∉ hd :: X i) by (rewrite E in Hout; apply (Hout i); cbn; lia).
  assert (Hbelow : 0 < i -> f_new f ∈ X (i - 1)) by (rewrite E in Hin; intros; apply (Hin (i - 1)); cbn; lia).
  assert (Em : exists m', putNext kl m u i (f_new f) = Ok m').
  { destruct Hq as [Equ _]. destruct (getNext_node kl Hk m u i q Equ) as (un & Hun & Hr'%zget_range).
    destruct (putNext_ok kl Hk m u un i (f_new f) Hun Hr') as (m' & Em & _). by exists m'. }
  destruct Em as (m' & Em).
  destruct (link_step kl mx hd Hk m X HX f i u q m' _ _ eq_refl eq_refl Hf Hi' Hnin Hbelow Hb Hq Eq Em) as [HX' Hev].
  set (X' := hook kl m (f_key f) (f_new f) i X) in *.
  exists (with_mem l m'), (Running f (PFree i)), X'. split.
  - rewrite E. cbn [tstep]. rewrite Eu. cbn [mbind res_bind]. by rewrite Hkl, Em.
  - apply (write_step m' X' _ u i (f_new f) Em); try (by rewrite E); rewrite E in *; cbn [addr hooked holds] in *.
    + exact HX'.
    + intros j p Hj. unfold X'. rewrite (elem_of_hook kl Hk mx m hd) by done. split.
      * intros [[-> ->]|?]; [right; split; [done|lia]|by left].
      * intros [?|[-> ?]]; [by right|]. destruct (decide (j = i)) as [->|]; [by left|right]. apply Hin. lia.
    + destruct Hf as (_ & ? & _). lia.
    + destruct Hf as (_ & Hnl & _). split; [by apply (frame_stable kl mx hd m X m' X' (Some u) (f_new f))|].
      apply (hooking_stable kl mx hd m X m' X' (Some u) (f_new f) HX Hev f i
        (fun u => exists q, next_stops kl m i (f_key f) u q /\ getNext kl m (f_new f) i = Ok q)); [lia|exact Hh|done].
    + by rewrite Eu.
    + left. lia.
Qed.
End running.

End cases.

(** A thread that is not finished goes on, or waits for a locked node. *)
Lemma tstep_ok l X t : ready_to l X t -> finished t = false -> (exists u, waits l t u) \/ goes_on l X t.
Proof.
  intros Hr Hfin. pose proof (rt_thread _ _ _ Hr) as Hth.
  destruct t as [c|c|f pc|f|c]; try done; [right; by eapply ready_case|right; by eapply counted_case|].
  destruct Hth as [Hf _]. destruct pc; try (right; eauto using level_case, null_case, below_case, next_case, look_case,
    less_case, give_case, move_case, get_case, new_case, link_case, free_case, load_case, cas_case; fail).
  by eapply lock_case.
Qed.
End one_step.

(** ** All threads *)
Definition pair_of (t : Thread) : list Z * Z :=
  match t with
  | Ready c | Counted c | Refused c => (i_key c, i_value c)
  | Running f _ | Finished f => (f_key f, f_value f)
  end.

Section system.
Context (kl mx hd : Z) (Hk : known kl = true) (Hmx : 0 < mx < 2 ^ 31).

(** The invariant of the system: the levels hold exactly what the threads have
    linked, and a lock is set exactly when one thread holds it. *)
Record good (l : LockedList) (ts : list Thread) (X : Z -> list Z) : Prop := {
  gd_list : is_list kl mx hd l;
  gd_levels : levels kl mx (l_mem l) hd X;
  gd_members : forall i p, 0 <= i < mx -> p ∈ X i <-> exists t, t ∈ ts /\ addr t = p /\ i < hooked t;
  gd_threads : forall t, t ∈ ts -> thread_ok kl mx hd (l_mem l) X (now_level l) t /\ 0 <= hooked t <= mx;
  gd_addrs : NoDup (hd :: (addr <$> ts));
  gd_locks : forall p, locked (l_mem l) p = true <-> exists t, t ∈ ts /\ holds t = Some p;
  gd_one : forall t t' p, t ∈ ts -> t' ∈ ts -> holds t = Some p -> holds t' = Some p -> addr t = addr t' }.

Lemma same_addr ts t t' : NoDup (addr <$> ts) -> t ∈ ts -> t' ∈ ts -> addr t = addr t' -> t = t'.
Proof.
  intros Hnd (i & Hi)%list_elem_of_lookup (j & Hj)%list_elem_of_lookup E.
  assert (i = j) as ->; [|congruence]. apply (NoDup_lookup (addr <$> ts) i j (addr t)); [done| |];
    rewrite list_lookup_fmap; [by rewrite Hi|by rewrite Hj, E].
Qed.

Lemma elem_of_put ts k t t' x : NoDup (addr <$> ts) -> ts !! k = Some t ->
  x ∈ <[k := t']> ts <-> x = t' \/ (x ∈ ts /\ addr x <> addr t).
Proof.
  intros Hnd Hkt. pose proof (lookup_lt_Some _ _ _ Hkt) as Hlt. rewrite !list_elem_of_lookup. split.
  - intros (i & Hi). destruct (decide (i = k)) as [->|Hne].
    + rewrite list_lookup_insert_eq in Hi by done. left. congruence.
    + rewrite list_lookup_insert_ne in Hi by done. right. split; [by exists i|]. intros E. apply Hne.
      apply (NoDup_lookup (addr <$> ts) i k (addr t)); [done| |]; rewrite list_lookup_fmap; [by rewrite Hi, <-E|by rewrite Hkt].
  - intros [->|[(i & Hi) Hne]]; [exists k; by apply list_lookup_insert_eq|].
    exists i. rewrite list_lookup_insert_ne; [done|]. intros ->. congruence.
Qed.

Lemma good_sizes l ts X : good l ts X -> sizes mx (zlen ts) X.
Proof.
  intros Hg i Hi. pose proof (lv_nodup _ _ _ _ _ (gd_levels _ _ _ Hg) i Hi) as Hn. apply NoDup_cons in Hn as [_ Hn].
  unfold zlen. apply inj_le. rewrite <-(length_fmap addr ts). apply NoDup_incl_length; [by apply NoDup_ListNoDup|].
  intros p Hp. apply list_elem_of_In in Hp. apply list_elem_of_In. apply (gd_members _ _ _ Hg) in Hp as (t & Hin & <- & _); [|done].
  by apply list_elem_of_fmap_2.
Qed.

Lemma good_ready l ts X t : good l ts X -> t ∈ ts -> ready_to kl mx hd (zlen ts) l X t.
Proof.
  intros [Hl HX Hm Ht Hnd Hlk Hone] Hin. destruct (Ht t Hin) as [Hth Hh]. apply NoDup_cons in Hnd as [Hhd Hnd].
  pose proof (good_sizes l ts X) as Hsz. split; try done.
  - intros i Hi. apply Hm; [lia|]. exists t. split_and!; [done|done|lia].
  - intros i Hi Hle. intros [E|Hx]%elem_of_cons.
    + apply Hhd. rewrite <-E. by apply list_elem_of_fmap_2.
    + apply Hm in Hx as (t2 & Hin2 & Ea & Hlt); [|done]. assert (t2 = t) as -> by by apply (same_addr ts). lia.
  - apply Hsz. by split; try apply NoDup_cons.
  - intros u Hu. apply Hlk. by exists t.
Qed.

Lemma good_step B l ts X k t l' t' X' : good l ts X -> ts !! k = Some t -> local_step kl mx hd B l X t l' t' X' ->
  good l' (<[k := t']> ts) X'.
Proof.
  intros Hg Hkt Hs. pose proof Hg as [Hl HX Hm Ht Hnd Hlk Hone]. pose proof Hs as [Hl' Hlv HX' Ha Hm' Hh Hth Hev Hlk' _ Hnew].
  pose proof (list_elem_of_lookup_2 _ _ _ Hkt) as Hin. pose proof Hnd as [_ Hnd']%NoDup_cons.
  assert (Hput : forall x, x ∈ <[k := t']> ts <-> x = t' \/ (x ∈ ts /\ addr x <> addr t)) by (intros; by apply elem_of_put).
  split; try done.
  - intros i p Hi. rewrite Hm', Hm by done. split.
    + intros [(t2 & H2 & Ea & Hlt)|[-> Hlt]].
      * destruct (decide (addr t2 = addr t)) as [E|Hne].
        -- assert (t2 = t) as -> by by apply (same_addr ts). exists t'. rewrite Hput. split_and!; [by left|congruence|lia].
        -- exists t2. rewrite Hput. split_and!; [by right|done|lia].
      * exists t'. rewrite Hput. split_and!; [by left|done|lia].
    + intros (t2 & H2 & Ea & Hlt). apply Hput in H2 as [->|[H2 Hne]].
      * right. split; [congruence|done].
      * left. by exists t2.
  - intros t2 H2. apply Hput in H2 as [->|[H2 Hne]]; [split; [done|]; destruct (Ht t Hin); lia|].
    destruct (Ht t2 H2) as [Hth2 Hh2]. split; [|done].
    apply (thread_stable kl mx hd Hk (l_mem l) X (l_mem l') X' (holds t) (addr t) HX Hev (now_level l)); [done|done|done| |].
    + intros u Hu E. apply Hne. by apply (Hone t2 t u).
    + intros i Hi. apply (rt_out kl mx hd (zlen ts) l X t2); [by eapply good_ready|lia|lia].
  - replace (addr <$> <[k := t']> ts) with (addr <$> ts); [done|]. rewrite list_fmap_insert, Ha. symmetry.
    apply list_insert_id. by rewrite list_lookup_fmap, Hkt.
  - intros p. rewrite Hlk'. split.
    + intros [[Hp Hne]|Hp]; [|exists t'; rewrite Hput; by split; [left|]].
      apply Hlk in Hp as (t2 & H2 & E2). exists t2. rewrite Hput. split; [right|done]. split; [done|].
      intros E. assert (t2 = t) as -> by by apply (same_addr ts). done.
    + intros (t2 & H2 & E2). apply Hput in H2 as [->|[H2 Hne]]; [by right|left]. split; [apply Hlk; by exists t2|].
      intros E. apply Hne. by apply (Hone t2 t p).
  - assert (Hcase : forall t2 p, t2 ∈ ts -> addr t2 <> addr t -> holds t2 = Some p -> holds t' = Some p -> False).
    { intros t2 p H2 Hne E2 Ep. destruct (Hnew p Ep) as [Eh|Ef]; [apply Hne; by apply (Hone t2 t p)|].
      assert (locked (l_mem l) p = true) by (apply Hlk; by exists t2). congruence. }
    intros t1 t2 p H1 H2 E1 E2. apply Hput in H1 as [->|[H1 Hne1]]; apply Hput in H2 as [->|[H2 Hne2]]; [done| | |by apply (Hone t1 t2 p)].
    + exfalso. by apply (Hcase t2 p).
    + exfalso. by apply (Hcase t1 p).
Qed.

Lemma waits_blocks l (ts : list Thread) X t u : ready_to kl mx hd (zlen ts) l X t -> waits l t u -> tstep l t = Blocks.
Proof.
  intros Hr (f & i & -> & Eu & Hlk). cbn [tstep]. rewrite Eu. cbn [mbind res_bind]. destruct (rt_list _ _ _ _ _ _ _ Hr) as (-> & _).
  unfold lockNode, deref. rewrite Hk. unfold locked, node in Hlk. destruct (l_mem l !! u) as [n|]; [|done].
  cbn in *. by rewrite Hlk.
Qed.

(** Every step keeps the invariant. *)
Lemma step_good l ts X s' : good l ts X -> step (l, ts) s' -> exists X', good s'.1 s'.2 X'.
Proof.
  intros Hg Hs. inversion Hs as [? ? k t l' t' Hkt E]; subst. pose proof (list_elem_of_lookup_2 _ _ _ Hkt) as Hin.
  pose proof (good_ready l ts X t Hg Hin) as Hr. destruct (finished t) eqn:Hf; [by destruct t|].
  destruct (tstep_ok kl mx hd Hk Hmx (zlen ts) l X t Hr Hf) as [(u & Hw)|(l2 & t2 & X2 & E2 & Hs2)].
  - by rewrite (waits_blocks l ts X t u Hr Hw) in E.
  - rewrite E in E2. injection E2 as <- <-. exists X2. by eapply good_step.
Qed.

Lemma steps_good s s' : rtc step s s' -> forall X, good s.1 s.2 X -> exists X', good s'.1 s'.2 X'.
Proof.
  induction 1 as [s|[l ts] s' s'' Hs _ IH]; intros X Hg; [by exists X|].
  destruct (step_good l ts X s' Hg Hs) as (X' & Hg'). by apply (IH X').
Qed.

(** No thread runs into undefined behaviour, and as long as one is not
    finished, one can go on: who holds a lock never waits. *)
Lemma good_progress l ts X : good l ts X ->
  (forall t, t ∈ ts -> tstep l t <> Undef) /\
  ((forall t, t ∈ ts -> finished t = true) \/ exists s', step (l, ts) s').
Proof.
  intros Hg. assert (Hok : forall t, t ∈ ts -> finished t = false -> (exists u, waits l t u) \/ goes_on kl mx hd (zlen ts) l X t).
  { intros t Hin Hf. apply tstep_ok; [done|done|by eapply good_ready|done]. }
  split.
  - intros t Hin. destruct (finished t) eqn:Hf; [by destruct t|]. destruct (Hok t Hin Hf) as [(u & Hw)|(l' & t' & X' & E & _)].
    + by rewrite (waits_blocks l ts X t u (good_ready _ _ _ _ Hg Hin) Hw).
    + by rewrite E.
  - destruct (decide (Forall (fun t => finished t = true) ts)) as [Hall|Hn].
    { left. by rewrite Forall_forall in Hall. }
    right. apply not_Forall_Exists in Hn; [|apply _]. apply Exists_exists in Hn as (t & Hin & Hf). apply not_true_is_false in Hf.
    assert (Hgo : exists t, t ∈ ts /\ goes_on kl mx hd (zlen ts) l X t).
    { destruct (Hok t Hin Hf) as [(u & f & i & -> & Eu & Hlk)|Hgo]; [|by exists t].
      apply (gd_locks _ _ _ Hg) in Hlk as (t2 & Hin2 & Eh). exists t2. split; [done|].
      destruct (Hok t2 Hin2) as [(u2 & f2 & i2 & -> & _)|Hgo]; [by destruct t2|done|done]. }
    destruct Hgo as (t2 & Hin2 & l' & t' & X' & E & _). apply list_elem_of_lookup in Hin2 as (k & Hkt).
    eexists. by econstructor.
Qed.
End system.

(** ** What the threads leave behind *)

(** The list as one thread sees it. *)
Definition as_list (l : LockedList) : SkipList :=
  mkSkipList (l_keyLen l) (l_valueLen l) (l_maxLevel l) (now_level l) (l_head l) (l_nodeNum l) 0 0 (l_mem l).

Lemma find_as_list l key : l_head l <> nullptr -> findByKey l key = SkipList.findByKey (as_list l) key.
Proof. intros H. unfold findByKey. by rewrite (proj2 (Z.eqb_neq _ _) H). Qed.
Lemma range_as_list l b e : l_head l <> nullptr -> findByRange l b e = SkipList.findByRange (as_list l) b e.
Proof. intros H. unfold findByRange. by rewrite (proj2 (Z.eqb_neq _ _) H). Qed.

(** A thread keeps its key and value. *)
Lemma pair_of_hook f i : pair_of (hook_at f i) = (f_key f, f_value f).
Proof. unfold hook_at. by case_test. Qed.
Lemma pair_of_search f i : pair_of (search_at f i) = (f_key f, f_value f).
Proof. unfold search_at. case_test; [apply pair_of_hook|done]. Qed.
Lemma pair_of_leave f i t : leave_level f i = Ok t -> pair_of t = (f_key f, f_value f).
Proof. unfold leave_level. intros (u & _ & E)%bind_Ok_iff. injection E as <-. by rewrite pair_of_search. Qed.

Ltac bind_cases E :=
  repeat match type of E with
  | (mbind _ _) = Ok _ => let x := fresh "x" in apply bind_Ok_iff in E as (x & ? & E); match type of x with (_ * _)%type => destruct x | _ => idtac end
  | (if ?b then _ else _) = Ok _ => destruct b
  end.

Lemma tstep_pair l t l' t' : tstep l t = Ok (l', t') -> pair_of t' = pair_of t.
Proof.
  intros E. destruct t as [c|c|f pc|f|c]; try done; [| |destruct pc]; cbn [tstep] in E; bind_cases E;
    injection E as <- <-; cbn [pair_of with_curr with_update f_key f_value];
    rewrite ?pair_of_search, ?pair_of_hook; try (by eapply pair_of_leave); try done; by case_test.
Qed.

Lemma steps_pairs s s' : rtc step s s' -> pair_of <$> s'.2 = pair_of <$> s.2.
Proof.
  induction 1 as [s|s s' s'' Hs _ IH]; [done|]. rewrite IH. inversion Hs as [l ts k t l' t' Hkt E]; subst. cbn.
  rewrite list_fmap_insert, (tstep_pair _ _ _ _ E). apply list_insert_id. by rewrite list_lookup_fmap, Hkt.
Qed.

Section outcome.
Context (kl mx hd : Z) (Hk : known kl = true) (Hmx : 0 < mx < 2 ^ 31).

Lemma good_finished l ts X : good kl mx hd l ts X -> (forall t, t ∈ ts -> finished t = true) ->
  inv (as_list l) X /\ entries (l_mem l) X ≡ₚ filter (fun e => zlen e.1 = kl) (pair_of <$> ts).
Proof.
  intros [(Hkl & Hml & Hhd & Hlv) HX Hm Ht Hnd Hlk Hone] Hfin. apply NoDup_cons in Hnd as [Hh Hnd].
  set (fs := filter (fun t => zlen (pair_of t).1 = kl) ts).
  assert (Hfs : forall t, t ∈ ts -> (zlen (pair_of t).1 = kl <->
     exists f, t = Finished f /\ frame_ok kl mx hd (l_mem l) f /\ newLevel f <= now_level l)).
  { intros t Hin. destruct (Ht t Hin) as [Hth _]. specialize (Hfin t Hin). destruct t as [c|c|f pc|f|c]; try done.
    - destruct Hth as [Hf ?]. split; [intros _; by exists f|]. intros _. apply Hf.
    - split; [done|]. by intros (f & [=] & _). }
  assert (Hmem : forall i p, 0 <= i < mx -> p ∈ X i <-> exists f, Finished f ∈ ts /\ f_new f = p /\ i < newLevel f).
  { intros i p Hi. rewrite Hm by done. split.
    - intros (t & Hin & Ea & Hlt). specialize (Hfin t Hin). destruct t as [c|c|f pc|f|c]; try done; cbn in *; [by exists f|lia].
    - intros (f & Hin & Ea & Hlt). by exists (Finished f). }
  assert (Hperm : X 0 ≡ₚ addr <$> fs).
  { apply NoDup_Permutation.
    - pose proof (lv_nodup _ _ _ _ _ HX 0 ltac:(lia)) as Hx. by apply NoDup_cons in Hx as [_ ?].
    - unfold fs. apply (sublist_NoDup (addr <$> fs) (addr <$> ts)); [exact Hnd|]. apply fmap_sublist, sublist_filter.
    - intros p. rewrite Hmem, list_elem_of_fmap by lia. split.
      + intros (f & Hin & Ea & Hlt). exists (Finished f). split; [done|]. apply list_elem_of_filter. split; [|done].
        apply Hfs; [done|]. destruct (Ht _ Hin) as [[Hf ?] _]. by exists f.
      + intros (t & -> & [Hz Hin]%list_elem_of_filter). apply (Hfs t Hin) in Hz as (f & -> & Hf & _). exists f.
        split_and!; [done|done|]. destruct Hf as (_ & ? & _). lia. }
  split.
  - split; cbn [as_list keyLen maxLevel level head SkipList.mem]; rewrite ?Hkl, ?Hml, ?Hhd; try done.
    intros p Hp. apply Hmem in Hp as (f & Hin & <- & Hlt); [|lia]. destruct (Ht _ Hin) as [[Hf Hle] _]. cbn in Hle.
    destruct Hf as (_ & Hnl & _ & _ & _ & _ & _ & ->). split; [lia|]. intros i Hi. apply Hmem; [lia|]. exists f. split_and!; [done|done|lia].
  - unfold entries. rewrite Hperm. replace (filter (fun e => zlen e.1 = kl) (pair_of <$> ts)) with (pair_of <$> fs).
    + rewrite <-list_fmap_compose. apply Permutation_refl'. apply list_fmap_ext. intros j t Ej%list_elem_of_lookup_2.
      apply list_elem_of_filter in Ej as [Hz Hin]. apply (Hfs t Hin) in Hz as (f & -> & Hf & _). destruct Hf as (_ & _ & _ & _ & _ & Ek & Ev & _).
      unfold entry. cbn. by rewrite Ek, Ev.
    + unfold fs. clear. induction ts as [|t ts IH]; [done|]. rewrite fmap_cons, !filter_cons. case_decide; [|done].
      by rewrite fmap_cons, IH.
Qed.
End outcome.

(** ** From an empty list *)
Definition good_insertions (m : Mem) (p : Z) (calls : list Insertion) : Prop :=
  NoDup (p :: (i_addr <$> calls)) /\ Forall (call_fresh m) calls.

(** A fresh heap in which no lock is set, a new list, and the threads. *)
Definition start (m : Mem) (p maxLvl kl vl : Z) (calls : list Insertion) : res (LockedList * list Thread) :=
  l ← initList (new_LockedList m) p maxLvl kl vl;
  Ok (l, Ready <$> calls).

Lemma start_good m p maxLvl kl vl calls : known kl = true -> 0 < maxLvl < 2 ^ 31 -> m !! p = None -> p <> nullptr ->
  (forall q, locked m q = false) -> good_insertions m p calls ->
  exists l, start m p maxLvl kl vl calls = Ok (l, Ready <$> calls) /\ good kl maxLvl p l (Ready <$> calls) (fun _ => []) /\
    l_head l = p /\ l_keyLen l = kl.
Proof.
  intros Hk Hm Hp Hp0 Hlk [Hnd Hall]. destruct (new_inv m p maxLvl kl vl Hk Hm Hp Hp0) as (s & E & Hi & _).
  unfold new_SkipList in E. unfold start, initList. cbn [l_mem new_LockedList now_level l_nodeNum].
  assert (0 <= kl) by (unfold known in Hk; zbool; lia). unfold newNode in *. rewrite Hk, zread_Ok in * by (rewrite ?zlen_replicate; lia).
  cbn [mbind res_bind] in *. rewrite zslice_full in * by (rewrite zlen_replicate; lia). injection E as <-.
  set (n := mkNode _ _ _ _) in *. eexists. split; [done|]. split; [|done]. destruct Hi as [_ _ _ HX _]. cbn in HX.
  split; try done.
  - split_and!; (done || cbn; lia).
  - intros i q Hi. split; [intros Hq; by apply elem_of_nil in Hq|]. intros (t & (c & -> & _)%list_elem_of_fmap & _ & Hlt). cbn in Hlt. lia.
  - intros t (c & -> & Hc)%list_elem_of_fmap. split; [|cbn; lia]. rewrite Forall_forall in Hall. destruct (Hall c Hc) as (Hf & ? & ?).
    split_and!; [|done|lia|lia]. cbn [l_mem]. rewrite lookup_insert_ne; [done|]. intros E. apply NoDup_cons in Hnd as [Hnin _].
    apply Hnin. rewrite E. by apply list_elem_of_fmap_2.
  - rewrite <-list_fmap_compose. exact Hnd.
  - intros q. cbn [l_mem]. split.
    + intros Hq. specialize (Hlk q). unfold locked, node in *. destruct (decide (q = p)) as [->|]; [by rewrite lookup_insert_eq in Hq|].
      rewrite lookup_insert_ne in Hq by done. congruence.
    + intros (t & (c & -> & _)%list_elem_of_fmap & E). done.
  - by intros t t' q (c & -> & _)%list_elem_of_fmap _ E.
Qed.

(** ** Every schedule ends *)
Section termination.
Context (kl mx hd : Z) (Hk : known kl = true) (Hmx : 0 < mx < 2 ^ 31).

Definition total (g : Thread -> nat) (ts : list Thread) : nat := sum_list_with g ts.

Lemma total_put g ts k t t' : ts !! k = Some t -> (total g (<[k := t']> ts) + g t = total g ts + g t')%nat.
Proof.
  unfold total. revert k. induction ts as [|x ts IH]; intros [|k] H; try done.
  - injection H as ->. simpl. lia.
  - specialize (IH k H). simpl in IH |- *. lia.
Qed.

(** Levels to link; steps until then. *)
Definition unlinked (ts : list Thread) : nat := total (fun t => Z.to_nat (mx - hooked t)) ts.
Definition below_max (l : LockedList) : nat := Z.to_nat (mx - now_level l).
Definition steps_left (l : LockedList) (ts : list Thread) (X : Z -> list Z) : nat :=
  total (fun t => Z.to_nat (rank mx hd (zlen ts) X (now_level l) t)) ts.

Lemma rank_nonneg B m X lvl t : 0 <= B -> thread_ok kl mx hd m X lvl t -> 0 <= rank mx hd B X lvl t.
Proof.
  intros HB Ht. assert (Hd : forall i c, 0 <= dist hd X i c) by (intros; apply dist_bound).
  assert (Hp : forall i, 0 <= i -> 0 <= hooks B + i * per_level B) by (intros; unfold hooks, per_level; nia).
  destruct t as [c|c|f pc|f|c]; try done; cbn [rank]; try (specialize (Hp mx ltac:(lia)); lia).
  destruct Ht as [_ Hpc]. destruct pc as [|i|i|i|i|i|i|i|i|i|i q|i|i| |cur]; cbn [pc_ok] in Hpc; try lia;
    try (specialize (Hd i (at_level f i)); lia); try (case_test; lia); try (specialize (Hp mx ltac:(lia)); lia).
  - destruct Hpc as (Hi & _). specialize (Hp i ltac:(lia)). specialize (Hd i (curr f)). lia.
  - destruct Hpc as ((Hi & _) & _). specialize (Hp i ltac:(lia)). specialize (Hd i (curr f)). lia.
  - destruct Hpc as ((Hi & _) & _). specialize (Hp i ltac:(lia)). specialize (Hd i (curr f)). lia.
Qed.

Lemma rank_bounded B m X lvl t : sizes mx B X -> 0 <= B -> thread_ok kl mx hd m X lvl t ->
  rank mx hd B X lvl t < hooks B + mx * per_level B + 4.
Proof.
  intros Hs HB Ht. assert (Hd : forall i q, 0 <= i < mx -> 0 <= dist hd X i q <= B).
  { intros i q Hi. pose proof (dist_bound hd X i q). specialize (Hs i Hi). lia. }
  assert (Hp : forall i, 0 <= i < mx -> 0 <= i * per_level B <= mx * per_level B - per_level B) by (intros; unfold per_level; nia).
  specialize (Hp 0 ltac:(lia)) as Hp0. unfold hooks. assert (Epl : per_level B = 3 * B + 4) by done.
  destruct t as [c|c|f pc|f|c]; cbn [rank]; unfold hooks; try lia.
  destruct Ht as [Hf Hpc]. assert (Hnl : newLevel f <= mx) by apply Hf.
  destruct pc as [|i|i|i|i|i|i|i|i|i|i q|i|i| |cur]; cbn [pc_ok] in Hpc; unfold searching, hooking in Hpc;
    try (specialize (Hd i (curr f) ltac:(lia)); specialize (Hp i ltac:(lia)); lia);
    try (specialize (Hd i (at_level f i) ltac:(lia)); lia); try lia. case_test; lia.
Qed.

(** A step links a node at a level, or raises the level, or brings its thread
    nearer to one of these. *)
Lemma step_decreases l ts X s' : good kl mx hd l ts X -> step (l, ts) s' -> exists X', good kl mx hd s'.1 s'.2 X' /\
  ((unlinked s'.2 < unlinked ts)%nat \/ unlinked s'.2 = unlinked ts /\
   ((below_max s'.1 < below_max l)%nat \/ below_max s'.1 = below_max l /\
    (steps_left s'.1 s'.2 X' < steps_left l ts X)%nat)).
Proof.
  intros Hg Hs. inversion Hs as [? ? k t l' t' Hkt E]; subst. pose proof (list_elem_of_lookup_2 _ _ _ Hkt) as Hin.
  pose proof (good_ready kl mx hd l ts X t Hg Hin) as Hr. destruct (finished t) eqn:Hf; [by destruct t|].
  destruct (tstep_ok kl mx hd Hk Hmx (zlen ts) l X t Hr Hf) as [(u & Hw)|(l2 & t2 & X2 & E2 & Hs2)].
  { by rewrite (waits_blocks kl mx hd Hk l ts X t u Hr Hw) in E. }
  rewrite E in E2. injection E2 as <- <-. exists X2. split; [by eapply good_step|]. cbn [fst snd].
  assert (Hu : (unlinked (<[k := t']> ts) + Z.to_nat (mx - hooked t) = unlinked ts + Z.to_nat (mx - hooked t'))%nat)
    by apply (total_put (fun t => Z.to_nat (mx - hooked t)) ts k t t' Hkt).
  pose proof (ls_hooked _ _ _ _ _ _ _ _ _ _ Hs2) as Hh. destruct (ls_rank _ _ _ _ _ _ _ _ _ _ Hs2) as [Hlt|[-> Hrk]]; [left; lia|].
  destruct (decide (hooked t = hooked t')) as [Eh|]; [|left; lia]. right. split; [rewrite Eh in Hu; lia|].
  pose proof (rt_list _ _ _ _ _ _ _ Hr) as (_ & _ & _ & Hlv). destruct (ls_list _ _ _ _ _ _ _ _ _ _ Hs2) as (_ & _ & _ & Hlv').
  unfold below_max. destruct Hrk as [Hlt|[Enl Hrk]]; [left; lia|right]. split; [by rewrite Enl|].
  unfold steps_left. rewrite Enl. replace (zlen (<[k := t']> ts)) with (zlen ts) by (unfold zlen; by rewrite length_insert).
  pose proof (total_put (fun t => Z.to_nat (rank mx hd (zlen ts) X (now_level l) t)) ts k t t' Hkt) as Hsum.
  assert (0 <= rank mx hd (zlen ts) X (now_level l) t').
  { pose proof (ls_thread _ _ _ _ _ _ _ _ _ _ Hs2) as Hth. rewrite Enl in Hth. eapply rank_nonneg; [apply zlen_nonneg|done]. }
  cbn beta in Hsum. lia.
Qed.

Lemma schedules_end l ts X : good kl mx hd l ts X -> Acc (fun s' s => step s s') (l, ts).
Proof.
  remember (unlinked ts) as a eqn:Ea. revert l ts X Ea. induction a as [a IHa] using lt_wf_ind. intros l ts X Ea.
  remember (below_max l) as b eqn:Eb. revert l ts X Ea Eb. induction b as [b IHb] using lt_wf_ind. intros l ts X Ea Eb.
  remember (steps_left l ts X) as c eqn:Ec. revert l ts X Ea Eb Ec. induction c as [c IHc] using lt_wf_ind. intros l ts X Ea Eb Ec Hg.
  constructor. intros [l' ts'] Hs. destruct (step_decreases l ts X _ Hg Hs) as (X' & Hg' & Hdec). cbn [fst snd] in *.
  destruct Hdec as [Hlt|[Eu [Hlt|[Ebm Hlt]]]].
  - eapply (IHa (unlinked ts')); [lia|done|done].
  - eapply (IHb (below_max l')); [lia|congruence|done|done].
  - eapply (IHc (steps_left l' ts' X')); [lia|congruence|congruence|done|done].
Qed.
End termination.

Lemma run_schedule_steps sched : forall l ts, rtc step (l, ts) (run_schedule l ts sched).
Proof.
  induction sched as [|k sched IH]; intros l ts; cbn [run_schedule]; [done|].
  destruct (ts !! k) as [t|] eqn:Ek; [|apply IH]. destruct (tstep l t) as [[l' t']| | |] eqn:E; [|apply IH..].
  eapply rtc_l; [by econstructor|apply IH].
Qed.

(** ** What the threads achieve *)

(** The pairs of the calls with keys of the right length. *)
Definition accepted_pairs (kl : Z) (calls : list Insertion) : list (list Z * Z) :=
  filter (fun e => zlen e.1 = kl) ((fun c => (i_key c, i_value c)) <$> calls).

Section promises.
Context (m : Mem) (p maxLvl kl vl : Z) (calls : list Insertion).
Context (Hk : known kl = true) (Hm : 0 < maxLvl < 2 ^ 31) (Hp : m !! p = None) (Hp0 : p <> nullptr)
  (Hlk : forall q, locked m q = false) (Hg : good_insertions m p calls).

(** C23: threads that insert at the same time are neither lost nor stuck.  For
    heights drawn from non-zero values of [rand], in every interleaving of
    their reads, writes, locks and compare-and-swaps, each taken as one atomic
    access to a common memory, no thread uses a null pointer, a node that is
    not there or a level that a node does not have; always some unfinished
    thread can take a step, and every schedule ends.  That the reads without
    the lock are atomic is an assumption about the machine, not about C++,
    where they race with the writes ([unlocked_read_races]). *)
Theorem threads_always_end : exists s0, start m p maxLvl kl vl calls = Ok s0 /\
  Acc (fun s' s => step s s') s0 /\
  forall l ts, rtc step s0 (l, ts) ->
    (forall t, t ∈ ts -> tstep l t <> Undef) /\
    ((forall t, t ∈ ts -> finished t = true) \/ exists s', step (l, ts) s').
Proof.
  destruct (start_good m p maxLvl kl vl calls Hk Hm Hp Hp0 Hlk Hg) as (l0 & E & Hgood & _).
  eexists. split; [exact E|]. split; [by eapply schedules_end|]. intros l ts Hs.
  destruct (steps_good kl maxLvl p Hk Hm _ _ Hs _ Hgood) as (X & HX). by eapply good_progress.
Qed.

(** C22: however the insertions of several threads interleave, when all have
    ended the list is a sorted multimap of all pairs with a key of the right
    length: [findByKey] returns the values of the key, and [findByRange] those
    of the range in the order of the keys, each as often as it was inserted. *)
Theorem threads_fill_list s0 l ts : start m p maxLvl kl vl calls = Ok s0 -> rtc step s0 (l, ts) ->
  (forall t, t ∈ ts -> finished t = true) ->
  (forall key, zlen key = kl -> exists found, findByKey l key = Ok ((fun e => u32 e.2) <$> found) /\
    found ≡ₚ filter (fun e => same_key kl e.1 key = true) (accepted_pairs kl calls)) /\
  (forall b e, zlen b = kl -> zlen e = kl -> exists found, findByRange l b e = Ok ((fun e => u32 e.2) <$> found) /\
    found ≡ₚ filter (fun x => negb (lt kl x.1 b) && lt kl x.1 e = true) (accepted_pairs kl calls) /\
    StronglySorted (fun x y => lt kl y.1 x.1 = false) found).
Proof.
  intros E0 Hs Hfin. destruct (start_good m p maxLvl kl vl calls Hk Hm Hp Hp0 Hlk Hg) as (l0 & E & Hgood & _).
  rewrite E0 in E. injection E as ->. destruct (steps_good kl maxLvl p Hk Hm _ _ Hs _ Hgood) as (X & HX). cbn [fst snd] in HX.
  destruct (good_finished kl maxLvl p Hk Hm l ts X HX Hfin) as [Hinv Hperm].
  assert (Hpairs : filter (fun e => zlen e.1 = kl) (pair_of <$> ts) = accepted_pairs kl calls).
  { pose proof (steps_pairs _ _ Hs) as Hpr. cbn [snd] in Hpr. rewrite Hpr, <-list_fmap_compose. done. }
  rewrite Hpairs in Hperm. pose proof (gd_list _ _ _ _ _ _ HX) as (Hkl & _ & Hhd & _).
  assert (Hnn : l_head l <> nullptr) by congruence. split.
  - intros key Hz. rewrite find_as_list, (findByKey_values _ X) by (done || (cbn; congruence)). unfold values. eexists. split; [done|].
    cbn [as_list SkipList.mem keyLen]. rewrite Hkl, Hperm. apply Permutation_refl'. apply list_filter_iff. intros e.
    unfold same_key. by rewrite andb_comm.
  - intros b e Hb He. rewrite range_as_list, (findByRange_values _ X) by (done || (cbn; congruence)). unfold values. eexists. split; [done|].
    cbn [as_list SkipList.mem keyLen]. rewrite Hkl. split; [by rewrite Hperm|]. apply StronglySorted_filter.
    pose proof (lv_sorted _ _ _ _ _ (gd_levels _ _ _ _ _ _ HX) 0 ltac:(lia)) as Hso. unfold entries.
    clear -Hso. induction Hso as [|q L _ IH Hall]; [constructor|]. rewrite fmap_cons. constructor; [done|].
    apply Forall_fmap. eapply Forall_impl; [exact Hall|done].
Qed.
End promises.

(** ** A data race

    The pointer (node and level) that a thread's next step reads ([false]) or
    writes ([true]). *)
Definition next_access (t : Thread) : option (bool * Z * Z) :=
  match t with
  | Running f (PNull i) | Running f (PBelow i) | Running f (PNext i) => Some (false, curr f, i)
  | Running f (PLook i) | Running f (PLess i) | Running f (PMove i) | Running f (PGet i) =>
      u ← update f !! Z.to_nat i; Some (false, u, i)
  | Running f (PNew i q) => Some (true, f_new f, i)
  | Running f (PLink i) => u ← update f !! Z.to_nat i; Some (true, u, i)
  | _ => None
  end.

(** Three threads, two with the same port, taking turns step by step. *)
Definition port_insertions : list Insertion :=
  [mkInsertion 10 (2 ^ 30) [80; 0] 1; mkInsertion 20 5 [22; 0] 7; mkInsertion 30 (2 ^ 28) [80; 0] 300].
Definition turns : list nat := concat (replicate 100 [0; 1; 2]%nat).

Lemma port_insertions_good : good_insertions ∅ 5 port_insertions.
Proof. split; [by apply (bool_decide_unpack _)|by repeat constructor]. Qed.

Lemma threads_always_end_witness : exists s0, start ∅ 5 4 2 8 port_insertions = Ok s0 /\ Acc (fun s' s => step s s') s0.
Proof.
  destruct (threads_always_end ∅ 5 4 2 8 port_insertions eq_refl ltac:(lia) (lookup_empty 5) ltac:(done)
    ltac:(done) port_insertions_good) as (s0 & E & Ha & _). by exists s0.
Defined.

Lemma threads_fill_list_witness : exists s0 l ts, start ∅ 5 4 2 8 port_insertions = Ok s0 /\ rtc step s0 (l, ts) /\
  findByKey l [22; 0] = Ok [7] /\ exists found : list (list Z * Z), findByRange l [0; 0] [0; 1] = Ok ((fun e => u32 e.2) <$> found) /\ length found = 3%nat.
Proof.
  destruct (start ∅ 5 4 2 8 port_insertions) as [[l0 ts0]| | |] eqn:E; [|by vm_compute in E..].
  assert (Hrun : exists l ts, run_schedule l0 ts0 turns = (l, ts) /\ forallb finished ts = true /\ findByKey l [22; 0] = Ok [7]).
  { vm_compute in E. injection E as <- <-. eexists _, _. split; [vm_compute; reflexivity|]. split; vm_compute; reflexivity. }
  destruct Hrun as (l & ts & Er & Hf & Hfound). pose proof (run_schedule_steps turns l0 ts0) as Hs. rewrite Er in Hs.
  exists (l0, ts0), l, ts. split; [done|]. split; [done|]. split; [done|].
  destruct (threads_fill_list ∅ 5 4 2 8 port_insertions eq_refl ltac:(lia) (lookup_empty 5) ltac:(done)
    ltac:(done) port_insertions_good (l0, ts0) l ts E Hs) as [_ Hrange].
  - intros t Hin. apply (proj1 (forallb_forall _ _) Hf). by apply list_elem_of_In.
  - destruct (Hrange [0; 0] [0; 1] eq_refl eq_refl) as (found & Ef & Hperm & _). exists found. split; [done|]. by rewrite Hperm.
Defined.

(** The second thread is about to read the head's first pointer without a lock
    while the first thread, which holds the lock, is about to write it. *)
Lemma unlocked_read_races : exists s0 l t1 t2 ts i, start ∅ 5 4 2 8 port_insertions = Ok s0 /\
  rtc step s0 (l, t1 :: t2 :: ts) /\
  next_access t1 = Some (true, l_head l, i) /\ next_access t2 = Some (false, l_head l, i).
Proof.
  destruct (start ∅ 5 4 2 8 port_insertions) as [[l0 ts0]| | |] eqn:E; [|by vm_compute in E..].
  pose proof (run_schedule_steps (replicate 6 1 ++ replicate 9 0)%nat l0 ts0) as Hs.
  vm_compute in E. injection E as <- <-. vm_compute in Hs.
  eexists _, _, _, _, _, 0. split; [reflexivity|]. split; [exact Hs|]. split; vm_compute; reflexivity.
Qed.
