(* ===== verification/SkipListSpill.v ===== *)
(** * A filled skip list is written out and cleared (dpdk_lib/skipList.hpp)

    [writeNode] of [SkipListLocked] on the index block buffer: what the buffer
    holds afterwards, which nodes are freed, and that [clear] leaves a list
    that is as good as new. *)
From stdpp Require Import sorting.
From Stdlib Require Import ZArith Lia.
From S2P Require Import Prelude Util BlockBuffer IndexWrite PoolRecords SkipList SkipOutput SkipListLocked.
#[local] Open Scope Z_scope.

(** ** Two adjacent writes *)
Lemma write_both b k v p t : IndexWrite.wf b -> 0 <= t < zlen (IndexB.disk_write_ids b) -> 0 <= p ->
  p + zlen k + zlen v < 2 ^ 62 -> zlen k + zlen v <= IndexB.buffer_size b ->
  Forall (is_u 8) k -> Forall (is_u 8) v -> owns_range b p (zlen k + zlen v) -> forall k' v', zslice 0 (zlen k) k' = k ->
  zlen k <= zlen k' -> Forall (is_u 8) k' -> zslice 0 (zlen v) v' = v -> zlen v <= zlen v' -> Forall (is_u 8) v' ->
  exists b1 b2, IndexB.writeBlock b k' (zlen k) p t = Ok (true, b1) /\
    IndexB.writeBlock b1 v' (zlen v) (p + zlen k) t = Ok (true, b2) /\
    same_shape b b2 /\ IndexWrite.wf b2 /\ holds_data b b2 (k ++ v) p.
Proof.
  intros Hw Ht Hp Hend Hfit Hbk Hbv Ho k' v' Ek Hlk Hk' Ev Hlv Hv'. pose proof (zlen_nonneg k). pose proof (zlen_nonneg v).
  destruct (index_writeBlock_spec b k' (zlen k) p t Hw) as (b1 & E1 & Hs1 & Hw1 & Hd1); [split; lia || done|].
  rewrite (owns_range_accepted b p (zlen k)) in * by (done || lia || (eapply owns_range_sub; [done|lia..])).
  assert (Ho1 : owns_range b1 (p + zlen k) (zlen v)).
  { eapply owns_range_shape; [done|]. eapply owns_range_sub; [done|lia..]. }
  pose proof (ss_bufsize _ _ Hs1). pose proof (ss_threads _ _ Hs1).
  destruct (index_writeBlock_spec b1 v' (zlen v) (p + zlen k) t Hw1) as (b2 & E2 & Hs2 & Hw2 & Hd2); [split; lia || done|].
  rewrite (owns_range_accepted b1) in * by (done || lia). exists b1, b2. split_and!; try done.
  - by eapply same_shape_trans.
  - rewrite Ek in Hd1. rewrite Ev in Hd2. eapply holds_data_app; try done.
Qed.

Section spill.
Context (kl mx hd vl : Z) (Hk : known kl = true) (Hvl : 0 <= vl <= 8).

Lemma kl_bounds : 0 < kl <= 40.
Proof. unfold known in Hk. zbool. lia. Qed.

Definition freed (m m' : Mem) (K : list Z) : Prop := forall r, m' !! r = if decide (r ∈ K) then None else m !! r.

Lemma freed_delete m p : freed m (delete p m) [p].
Proof.
  intros r. case_decide as Hr; [apply list_elem_of_singleton in Hr as ->; apply lookup_delete_eq|].
  apply lookup_delete_ne. intros ->. apply Hr. left.
Qed.

Lemma freed_trans m m1 m2 K1 K2 : freed m m1 K1 -> freed m1 m2 K2 -> freed m m2 (K1 ++ K2).
Proof.
  intros H1 H2 r. rewrite H2, H1. pose proof (elem_of_app K1 K2 r) as Happ.
  repeat case_decide; try done; tauto.
Qed.

(** The node written last is freed, unless it is the head. *)
Lemma drop_last_ok l m p : l_keyLen l = kl -> l_head l = hd -> p <> nullptr -> is_Some (m !! p) ->
  exists m1, drop_last l m p = Ok m1 /\ freed m m1 (if decide (p = hd) then [] else [p]).
Proof.
  intros Hkl Hhd Hp [n Hn]. unfold drop_last. rewrite Hkl, Hhd, (proj2 (Z.eqb_neq p nullptr)) by done.
  destruct (decide (p = hd)) as [->|Hne].
  - rewrite Z.eqb_refl. exists m. split; [done|]. intros r. case_decide as Hr; [by apply elem_of_nil in Hr|done].
  - rewrite (proj2 (Z.eqb_neq p hd)) by done. cbn [negb andb]. unfold deleteNode, deref. rewrite Hk, (proj2 (Z.eqb_neq p nullptr)), Hn by done.
    eexists. split; [done|]. apply freed_delete.
Qed.

Lemma entry_freed m m1 K q : freed m m1 K -> q ∉ K -> entry m1 q = entry m q.
Proof. intros Hf Hq. unfold entry, key_of, node. by rewrite Hf, decide_False. Qed.

(** [writeNode]'s loop from the node behind [p]. *)
Lemma write_nodes_spec (l : LockedList) t pos K : l_keyLen l = kl -> l_valueLen l = vl -> l_head l = hd ->
  forall p m b off fuel, chain kl m 0 p K -> (length K < fuel)%nat -> NoDup (p :: K) -> hd ∉ K -> p <> nullptr -> is_Some (m !! p) ->
  Forall (fun q => zlen (key_of m q) = kl /\ Forall (is_u 8) (key_of m q)) K ->
  IndexWrite.wf b -> 0 <= t < zlen (IndexB.disk_write_ids b) -> 0 <= pos -> 0 <= off ->
  let len := zlen K * (kl + vl) in
  pos + off + len < 2 ^ 62 -> len <= IndexB.buffer_size b -> owns_range b (pos + off) len ->
  exists m' b', (q ← getNext kl m p 0; write_nodes fuel l m b t pos off p q) = Ok (m', b') /\
    freed m m' ((if decide (p = hd) then [] else [p]) ++ K) /\ same_shape b b' /\ IndexWrite.wf b' /\
    holds_data b b' (flat vl (entry m <$> K)) (pos + off).
Proof.
  intros Hkl Hlv Hhd. pose proof kl_bounds as Hkb.
  induction K as [|x K IH]; intros p m b off fuel Hc Hf Hnd Hnh Hp Hs Hkeys Hw Ht Hpos Hoff len Hend Hfit Ho;
    (destruct fuel as [|fuel]; [lia|]); destruct (drop_last_ok l m p Hkl Hhd Hp Hs) as (m1 & Ed & Hfr).
  - cbn [chain] in Hc. rewrite Hc. cbn [mbind res_bind write_nodes]. change (nullptr =? nullptr) with true. cbn [negb]. rewrite Ed.
    cbn [mbind res_bind]. exists m1, b. rewrite app_nil_r. split_and!; [done|done|apply same_shape_refl|done|].
    split; [intros j Hj; cbn in Hj; unfold zlen in Hj; cbn in Hj; lia|done].
  - destruct Hc as (-> & Hx0 & Hxs & Hc). cbn [mbind res_bind write_nodes]. rewrite (proj2 (Z.eqb_neq x nullptr)) by done.
    rewrite Ed. cbn [mbind res_bind]. apply NoDup_cons in Hnd as [Hpx Hnd]. apply Forall_cons in Hkeys as [[Hkx Hbx] Hkeys].
    apply not_elem_of_cons in Hnh as [Hnx Hnh].
    assert (Hpn : forall q, q ∈ x :: K -> q ∉ (if decide (p = hd) then [] else [p])).
    { intros q Hq. case_decide; [apply not_elem_of_nil|]. rewrite list_elem_of_singleton. by intros ->. }
    assert (Hm1 : forall q, q ∈ x :: K -> m1 !! q = m !! q) by (intros q Hq; rewrite Hfr, decide_False; [done|by apply Hpn]).
    assert (Hent : forall q, q ∈ x :: K -> entry m1 q = entry m q) by (intros q Hq; eapply entry_freed; [done|by apply Hpn]).
    pose proof (Hent x ltac:(left)) as Hex. injection Hex as Hkx1 Hvx1.
    destruct Hxs as [nx Hnx1]. assert (Hx1 : m1 !! x = Some nx) by (rewrite Hm1; [done|left]).
    assert (Hget : getKey kl m1 x = Ok (key_of m x) /\ getValue kl m1 x = Ok (n_value (node m x))).
    { unfold getKey, getValue, deref. rewrite Hk, Hx1. cbn. unfold key_of, node. by rewrite Hnx1. }
    destruct Hget as [Hgk Hgv]. rewrite Hkl, Hlv, Hgk. cbn [mbind res_bind].
    set (k := key_of m x) in *. set (v := n_value (node m x)) in *.
    assert (Hlen : len = (kl + vl) + zlen K * (kl + vl)) by (unfold len, zlen; cbn [length]; lia). pose proof (zlen_nonneg K).
    assert (Hzc : zlen (cut vl v) = vl) by (by apply zlen_cut).
    assert (Hrec : 0 <= zlen K * (kl + vl)) by nia. rewrite (u64_small (pos + off)) by lia.
    assert (Hb8 : Forall (is_u 8) (cut vl v)) by apply Forall_take, Forall_drop, le_bytes_range.
    assert (Ho' : owns_range b (pos + off) (zlen k + zlen (cut vl v))) by (eapply owns_range_sub; [done|lia..]).
    destruct (write_both b k (cut vl v) (pos + off) t Hw Ht ltac:(lia) ltac:(lia) ltac:(lia) Hbx Hb8 Ho' k (le_bytes 8 v)
      (zslice_full k _ eq_refl) ltac:(lia) Hbx ltac:(by rewrite Hzc) ltac:(rewrite Hzc, zlen_le_bytes; lia) (le_bytes_range _ _))
      as (b1 & b2 & E1 & E2 & Hs2 & Hw2 & Hd2). rewrite Hzc, Hkx in *.
    rewrite E1. cbn [mbind res_bind]. rewrite Hgv. cbn [mbind res_bind]. rewrite (u64_small (off + kl)), (u64_small (pos + _)) by lia.
    rewrite Z.add_assoc, E2. cbn [mbind res_bind]. rewrite (u64_small (off + kl + vl)) by lia.
    pose proof (ss_bufsize _ _ Hs2). pose proof (ss_threads _ _ Hs2).
    destruct (IH x m1 b2 (off + kl + vl) fuel) as (m' & b' & E & Hfr' & Hs' & Hw' & Hd'); try done; try (simpl in Hf; lia).
    + eapply (chain_ext kl m); [| |exact Hc].
      * intros q Hq. unfold getNext, deref. by rewrite Hm1.
      * intros q Hq. rewrite Hm1 by (by right). by eapply chain_elem.
    + rewrite Forall_forall in *. intros q Hq. pose proof (Hent q ltac:(by right)) as He. injection He as -> _. by apply Hkeys.
    + eapply owns_range_shape; [done|]. eapply owns_range_sub; [exact Ho|lia..].
    + rewrite E. exists m', b'. split; [done|]. split; [|split; [by eapply same_shape_trans|split; [done|]]].
      * pose proof (freed_trans _ _ _ _ _ Hfr Hfr') as H'. by rewrite (decide_False (P := x = hd)) in H' by congruence.
      * rewrite fmap_cons. unfold flat. rewrite fmap_cons. cbn [concat entry fst snd]. fold k v.
         change (concat _) with (flat vl (entry m <$> K)).
         replace (entry m <$> K) with (entry m1 <$> K) by (apply list_fmap_ext; intros j q Hq%list_elem_of_lookup_2; apply Hent; by right).
         eapply holds_data_app; [done|exact Hs2|exact Hs'|lia| |exact Hd2|].
        -- rewrite zlen_app, Hkx, Hzc, (zlen_flat kl); [|done|].
           ++ unfold zlen at 1. rewrite length_fmap. fold (zlen K). lia.
           ++ apply Forall_fmap. rewrite Forall_forall in *. intros q Hq. change (zlen (entry m1 q).1 = kl).
              rewrite Hent by (by right). by apply Hkeys.
        -- rewrite zlen_app, Hkx, Hzc. by replace (pos + off + (kl + vl)) with (pos + (off + kl + vl)) by lia.
Qed.

End spill.

(** ** [clear] *)
Lemma clear_levels_ok kl hd (Hk : known kl = true) (ids : list Z) : forall m, is_Some (m !! hd) -> Forall (fun i => 0 <= i < height m hd) ids ->
  exists m', clear_levels kl m hd ids = Ok m' /\ same_nodes m m' /\ dom m' = dom m /\
    (forall r, locked m' r = locked m r) /\
    (forall i, 0 <= i -> i ∈ ids \/ getNext kl m hd i = Ok nullptr -> getNext kl m' hd i = Ok nullptr).
Proof.
  induction ids as [|i ids IH]; intros m Hs Hids; cbn [clear_levels].
  { exists m. split_and!; [done|apply same_nodes_refl|done|done|]. intros i _ [Hi|?]; [by apply elem_of_nil in Hi|done]. }
  apply Forall_cons in Hids as [Hi Hids]. destruct Hs as [n Hn].
  destruct (putNext_ok kl Hk m hd n i nullptr Hn) as (m1 & E & Hs1 & Hd1).
  { unfold height, node in Hi. by rewrite Hn in Hi. }
  rewrite E. cbn [mbind res_bind]. destruct (Hs1 hd (mk_is_Some _ _ Hn)) as (Hh1 & _ & _ & Eh).
  destruct (putNext_inv kl Hk _ _ _ _ _ E) as (_ & _ & Hmu & _).
  destruct (IH m1 Hh1) as (m' & -> & Hs' & Hd' & Hl' & Hg'); [by rewrite Eh|].
  exists m'. split_and!; [done|by eapply same_nodes_trans|by rewrite Hd'|intros r; rewrite Hl'; apply Hmu|]. intros j Hj Hjn. apply Hg'; [done|].
  rewrite (getNext_put kl Hk _ _ _ _ _ _ _ E) by lia. destruct (decide (j = i)) as [->|Hne]; [right; by rewrite decide_True|].
  rewrite decide_False by tauto. destruct Hjn as [[->|Hin]%elem_of_cons|?]; [done|by left|by right].
Qed.

(** Whatever the head points to, [clear] leaves an empty list. *)
Lemma clear_ok l : known (l_keyLen l) = true -> 0 < l_maxLevel l < 2 ^ 31 -> 0 <= now_level l <= l_maxLevel l ->
  is_Some (l_mem l !! l_head l) -> height (l_mem l) (l_head l) = l_maxLevel l -> l_head l <> nullptr ->
  exists m, clear l = Ok (with_locked l (now_level l) 0 m) /\ dom m = dom (l_mem l) /\
    (forall r, locked m r = locked (l_mem l) r) /\ inv (as_list (with_locked l (now_level l) 0 m)) (fun _ => []).
Proof.
  intros Hk Hmx Hlv Hh Hhh Hh0.
  destruct (clear_levels_ok (l_keyLen l) (l_head l) Hk (zseq (l_maxLevel l)) (l_mem l) Hh) as (m & E & Hs & Hd & Hl & Hg).
  { apply Forall_forall. intros i Hi%elem_of_zseq. rewrite Hhh. lia. }
  exists m. split_and!; [|done|done|].
  - unfold clear, clearHead. by rewrite (proj2 (Z.eqb_neq _ _) Hh0), E.
  - destruct (Hs (l_head l) Hh) as (Hh2 & _ & _ & Eh2).
    split; cbn [as_list with_locked keyLen maxLevel level head SkipList.mem l_keyLen l_maxLevel now_level l_head l_mem]; try done.
    + split; try done; [split_and!; [done|congruence|done]|..].
      * intros i _. apply NoDup_cons. split; [apply not_elem_of_nil|constructor].
      * intros i p _ Hp. by apply elem_of_nil in Hp.
      * intros i _. constructor.
      * intros i Hi. apply Hg; [lia|]. left. by apply elem_of_zseq.
    + intros p Hp. by apply elem_of_nil in Hp.
Qed.

(** The keys of the list have its length and are bytes. *)
Definition keys_ok (l : LockedList) (ps : list Z) : Prop :=
  Forall (fun q => zlen (key_of (l_mem l) q) = l_keyLen l /\ Forall (is_u 8) (key_of (l_mem l) q)) ps.

(** writing a filled list out and clearing it loses nothing: when the
    thread owns the disk positions, [writeNode] puts key and value of every
    entry, in order, at consecutive positions of the index block buffer and
    frees every node but the head, and [clear] then leaves an empty
    well-formed list. *)
Theorem spilled_list_is_empty l X b t pos : inv (as_list l) X -> 0 <= l_valueLen l <= 8 ->
  keys_ok l (X 0) ->
  IndexWrite.wf b -> 0 <= t < zlen (IndexB.disk_write_ids b) -> 0 <= pos ->
  let len := zlen (X 0) * (l_keyLen l + l_valueLen l) in
  pos + len < 2 ^ 62 -> len <= IndexB.buffer_size b -> owns_range b pos len ->
  exists l1 b1 l2, writeNode l b t pos = Ok (l1, b1) /\ clear l1 = Ok l2 /\
    same_shape b b1 /\ holds_data b b1 (flat (l_valueLen l) (entries (l_mem l) X)) pos /\
    inv (as_list l2) (fun _ => []) /\ l_nodeNum l2 = 0 /\
    (forall r, is_Some (l_mem l2 !! r) <-> is_Some (l_mem l !! r) /\ r ∉ X 0).
Proof.
  intros [Hk Hmx Hlv HX Htow] Hvl Hkeys Hw Ht Hpos len Hend Hfit Ho.
  cbn [as_list keyLen maxLevel level head SkipList.mem] in *.
  pose proof (lv_nodup _ _ _ _ _ HX 0 ltac:(lia)) as Hnd. pose proof Hnd as [Hnh _]%NoDup_cons.
  destruct (lv_head _ _ _ _ _ HX) as (Hh & Hhh & Hh0). pose proof (lv_chain _ _ _ _ _ HX 0 ltac:(lia)) as Hc.
  destruct (write_nodes_spec (l_keyLen l) (l_head l) (l_valueLen l) Hk Hvl l t pos (X 0) eq_refl eq_refl eq_refl
    (l_head l) (l_mem l) b 0 (enough (l_mem l)) Hc) as (m1 & b1 & E & Hfr & Hs & _ & Hd); try done; rewrite ?Z.add_0_r; try done.
  { by apply (level_fuel _ _ _ _ _ HX 0); lia. }
  rewrite decide_True in Hfr by done. cbn [app] in Hfr.
  assert (Hh1 : is_Some (m1 !! l_head l)) by (by rewrite Hfr, decide_False).
  assert (Hhh1 : height m1 (l_head l) = l_maxLevel l) by (unfold height, node; by rewrite Hfr, decide_False).
  set (l1 := SkipListLocked.with_locked l (now_level l) (l_nodeNum l) m1).
  destruct (clear_ok l1 Hk Hmx Hlv Hh1 Hhh1 Hh0) as (m2 & E2 & Hd2 & _ & Hinv).
  exists l1, b1, (SkipListLocked.with_locked l1 (now_level l1) 0 m2). split_and!; try done.
  - unfold writeNode. destruct (getNext (l_keyLen l) (l_mem l) (l_head l) 0) as [q| | |]; cbn [mbind res_bind] in *; try discriminate E.
    by rewrite E.
  - by rewrite Z.add_0_r in Hd.
  - intros r. cbn [l_mem with_locked] in *. rewrite <-!elem_of_dom, Hd2. unfold l1. cbn [l_mem with_locked]. rewrite !elem_of_dom, Hfr.
    case_decide; [|tauto]. split; [by intros [? ?]|tauto].
Qed.

(** ** A list with one port *)
Definition one_port : LockedList :=
  mkLocked 2 8 2 1 5 1 (<[5 := mkNode [0; 0] 0 [10; 0] false]> (<[10 := mkNode [80; 0] 7 [0] false]> ∅)).
Definition one_level (i : Z) : list Z := if i =? 0 then [10] else [].

Lemma one_port_inv : inv (as_list one_port) one_level.
Proof.
  assert (H01 : forall i, 0 <= i < 2 -> i = 0 \/ i = 1) by lia.
  assert (Hin : forall i p, 0 <= i < 2 -> p ∈ one_level i -> i = 0 /\ p = 10).
  { intros i p Hi Hp. destruct (H01 i Hi) as [-> | ->]; cbn in Hp; [by apply list_elem_of_singleton in Hp|by apply elem_of_nil in Hp]. }
  split; try done; cbn [as_list keyLen maxLevel level head SkipList.mem].
  - split; try done.
    + intros i Hi. by destruct (H01 i Hi) as [-> | ->]; apply (bool_decide_unpack _).
    + intros i p Hi Hp. destruct (Hin i p Hi Hp) as [-> ->]. by split; [eexists|].
    + intros i Hi. by destruct (H01 i Hi) as [-> | ->]; repeat constructor.
    + intros i p Hi Hi1 Hp. destruct (Hin _ _ (conj (Z.le_le_succ_r _ _ Hi) Hi1) Hp) as [? _]. lia.
    + intros i Hi. destruct (H01 i Hi) as [-> | ->]; [|done]. split_and!; [done|done|by eexists|done].
  - intros p Hp. destruct (Hin 0 p ltac:(lia) Hp) as [_ ->]. split; [by vm_compute|]. intros i Hi.
    change (height _ 10) with 1 in Hi. assert (i = 0) as -> by lia. done.
Qed.

Lemma spilled_list_is_empty_witness : exists l1 b1 l2, writeNode one_port demo_ibb 0 0 = Ok (l1, b1) /\
  clear l1 = Ok l2 /\ byte b1 0 = 80 /\ byte b1 2 = 7 /\ findByKey l2 [80; 0] = Ok [].
Proof.
  destruct (spilled_list_is_empty one_port one_level demo_ibb 0 0 one_port_inv) as (l1 & b1 & l2 & E1 & E2 & _ & [Hd _] & _).
  - cbn. lia.
  - repeat constructor; done.
  - exact demo_ibb_wf.
  - vm_compute. split; [discriminate|reflexivity].
  - lia.
  - vm_compute. reflexivity.
  - vm_compute. discriminate.
  - apply demo_owns. vm_compute. split; [discriminate|reflexivity].
  - exists l1, b1, l2. split; [exact E1|]. split; [exact E2|].
    split; [exact (Hd 0 ltac:(vm_compute; split; [discriminate|reflexivity]))|].
    split; [exact (Hd 2 ltac:(vm_compute; split; [discriminate|reflexivity]))|].
    vm_compute in E1. injection E1 as <- <-. vm_compute in E2. injection E2 as <-. vm_compute. reflexivity.
Defined.

(** A write that the buffer refuses is not repeated: the node is freed and
    the entry gone. *)
Lemma refused_write_loses_entry : exists l1 b1, writeNode one_port demo_ibb 0 256 = Ok (l1, b1) /\
  IndexB.buffer_blocks b1 = IndexB.buffer_blocks demo_ibb /\ l_mem l1 !! 10 = None.
Proof. eexists _, _. split; [vm_compute; reflexivity|]. split; vm_compute; reflexivity. Qed.
