(* ===== verification/SkipListRun.v ===== *)
(** * One insertion at a time into the locked skip list (dpdk_lib/skipList.hpp)

    [insert] of [SkipListLocked] run by one thread from its call to its
    return, on a list in which no thread is at work. *)
From stdpp Require Import sorting.
From Stdlib Require Import ZArith Lia.
From S2P Require Import Prelude Util SkipList SkipOutput SkipListLocked SkipListSpill.
#[local] Open Scope Z_scope.

(** ** Running a thread *)

(** At most [2 ^ n] steps. *)
Fixpoint run_thread (n : nat) (l : LockedList) (t : Thread) : res (LockedList * Thread) :=
  if finished t then Ok (l, t) else
  match n with
  | O => tstep l t
  | S n => '(l, t) ← run_thread n l t; run_thread n l t
  end.

(** A number of steps that suffices with [nodes] nodes. *)
Definition step_bound (mx nodes : Z) : Z := (mx + 1) * (mx + 1) * (hooks nodes + mx * per_level nodes + 4).

(** [insert] answers true, also for a key of the wrong length, which it
    ignores. *)
Definition insert (l : LockedList) (c : Insertion) : res (bool * LockedList) :=
  let bound := step_bound (l_maxLevel l) (Z.of_nat (size (l_mem l)) + 1) in
  '(l, t) ← run_thread (Z.to_nat (Z.log2_up bound)) l (Ready c);
  match t with
  | Finished _ | Refused _ => Ok (true, l)
  | _ => Blocks
  end.

(** A step that does not change the measure's bound ends in [2 ^ n] steps. *)
Lemma run_thread_ends (P : Z -> LockedList -> Thread -> Prop) :
  (forall mu l t, P mu l t -> 0 <= mu) ->
  (forall mu l t, P mu l t -> finished t = false ->
     exists mu' l' t', tstep l t = Ok (l', t') /\ P mu' l' t' /\ mu' < mu) ->
  forall n mu l t, P mu l t ->
    exists mu' l' t', run_thread n l t = Ok (l', t') /\ P mu' l' t' /\ (finished t' = true \/ mu' + 2 ^ Z.of_nat n <= mu).
Proof.
  intros Hnn Hstep. induction n as [|n IH]; intros mu l t HP; cbn [run_thread].
  - destruct (finished t) eqn:E; [exists mu, l, t; auto|].
    destruct (Hstep mu l t HP E) as (mu' & l' & t' & Es & HP' & Hlt). exists mu', l', t'.
    split; [done|]. split; [done|]. right. change (2 ^ Z.of_nat 0) with 1. lia.
  - destruct (finished t) eqn:E; [exists mu, l, t; auto|].
    destruct (IH mu l t HP) as (mu1 & l1 & t1 & -> & HP1 & H1). cbn [mbind res_bind].
    destruct (IH mu1 l1 t1 HP1) as (mu2 & l2 & t2 & E2 & HP2 & H2). exists mu2, l2, t2. split; [done|]. split; [done|].
    destruct H1 as [H1|H1].
    + left. assert (run_thread n l1 t1 = Ok (l1, t1)) as E1 by (destruct n; cbn [run_thread]; by rewrite H1). congruence.
    + destruct H2 as [H2|H2]; [by left|right]. rewrite Nat2Z.inj_succ, Z.pow_succ_r by lia. lia.
Qed.

(** ** A list at rest *)
Record idle (l : LockedList) (X : Z -> list Z) : Prop := {
  id_inv : inv (as_list l) X;
  id_free : forall p, locked (l_mem l) p = false;
  id_keys : forall p, p ∈ X 0 -> zlen (key_of (l_mem l) p) = l_keyLen l }.

(** The calls that built it. *)
Definition frame_of (m : Mem) (p : Z) : Frame := mkFrame (key_of m p) (n_value (node m p)) (height m p) p [] nullptr.
Definition past (l : LockedList) (X : Z -> list Z) : list Thread := (Finished ∘ frame_of (l_mem l)) <$> X 0.

Lemma levels_bottom kl mx m hd X p (i : nat) : levels kl mx m hd X -> Z.of_nat i < mx -> p ∈ X (Z.of_nat i) -> p ∈ X 0.
Proof.
  intros HX. induction i as [|i IH]; intros Hi Hp; [done|]. apply IH; [lia|].
  apply (lv_below _ _ _ _ _ HX); [lia|lia|]. by replace (Z.of_nat i + 1) with (Z.of_nat (S i)) by lia.
Qed.

Lemma levels_size kl mx m hd X i : levels kl mx m hd X -> 0 <= i < mx -> zlen (X i) + 1 <= Z.of_nat (size m).
Proof.
  intros HX Hi. pose proof (lv_nodup _ _ _ _ _ HX i Hi) as Hnd. pose proof (lv_head _ _ _ _ _ HX) as (Hh & _).
  rewrite <-size_dom. assert (Hsub : (list_to_set (hd :: X i) : gset Z) ⊆ dom m).
  { intros q Hq%elem_of_list_to_set. apply elem_of_dom. apply elem_of_cons in Hq as [->|Hq]; [done|].
    by apply (lv_nodes _ _ _ _ _ HX i q). }
  apply subseteq_size in Hsub. rewrite size_list_to_set in Hsub by done. unfold zlen. cbn [length] in Hsub. lia.
Qed.

(** A step keeps the length of values and counts a new call. *)
Lemma tstep_len l t l' t' : tstep l t = Ok (l', t') -> l_valueLen l' = l_valueLen l.
Proof.
  intros E. destruct t as [c|c|f pc|f|c]; try done; [| |destruct pc]; cbn [tstep] in E; bind_cases E;
    injection E as <- <-; done.
Qed.

Definition under_way (t : Thread) : Prop := match t with Ready _ | Refused _ => False | _ => True end.

Lemma hook_under_way f i : under_way (hook_at f i).
Proof. unfold hook_at. by case_test. Qed.
Lemma search_under_way f i : under_way (search_at f i).
Proof. unfold search_at. case_test; [apply hook_under_way|done]. Qed.
Lemma leave_under_way f i t : leave_level f i = Ok t -> under_way t.
Proof. unfold leave_level. intros (u & _ & [= <-])%bind_Ok_iff. apply search_under_way. Qed.

Lemma tstep_under_way l t l' t' : tstep l t = Ok (l', t') -> under_way t -> under_way t' /\ l_nodeNum l' = l_nodeNum l.
Proof.
  intros E Ht. destruct t as [c|c|f pc|f|c]; try done; [|destruct pc]; cbn [tstep] in E; bind_cases E;
    injection E as <- <-; split; try done; try (by case_test);
    eauto using hook_under_way, search_under_way, leave_under_way.
Qed.

Section one_call.
Context (l0 : LockedList) (X0 : Z -> list Z) (c : Insertion).
Context (Hidle : idle l0 X0) (Hkey : zlen (i_key c) = l_keyLen l0) (Hfresh : call_fresh (l_mem l0) c).
Let kl := l_keyLen l0.
Let mx := l_maxLevel l0.
Let hd := l_head l0.
Let B := Z.of_nat (size (l_mem l0)) + 1.

Lemma past_good : good kl mx hd l0 (past l0 X0) X0.
Proof.
  destruct Hidle as [[Hk Hmx Hlv HX Htow] Hfree Hkeys].
  cbn [as_list keyLen maxLevel level head SkipList.mem] in *. fold kl mx in Hk, Hmx, Hlv, HX.
  assert (Hpast : forall t, t ∈ past l0 X0 <-> exists p, t = Finished (frame_of (l_mem l0) p) /\ p ∈ X0 0).
  { intros t. unfold past. by rewrite list_elem_of_fmap. }
  split.
  - by split_and!; try lia.
  - done.
  - intros i p Hi. split.
    + intros Hp. destruct (lv_nodes _ _ _ _ _ HX i p Hi Hp) as (_ & _ & Hh).
      exists (Finished (frame_of (l_mem l0) p)). split_and!; [|done|done]. apply Hpast. exists p. split; [done|].
      apply (levels_bottom kl mx (l_mem l0) hd X0 p (Z.to_nat i) HX); rewrite Z2Nat.id by lia; [lia|done].
    + intros (t & (q & -> & Hq)%Hpast & <- & Hlt). apply (Htow q Hq). cbn in *. lia.
  - intros t (p & -> & Hp)%Hpast. destruct (Htow p Hp) as [Hh _]. cbn [hooked frame_of newLevel]. split; [|lia].
    destruct (lv_nodes _ _ _ _ _ HX 0 p ltac:(lia) Hp) as (Hs & Hp0 & _).
    pose proof (lv_nodup _ _ _ _ _ HX 0 ltac:(lia)) as [Hnin _]%NoDup_cons.
    split; [|cbn [frame_of newLevel]; lia]. unfold frame_ok. cbn [frame_of f_key newLevel f_new f_value].
    split_and!; try done; try lia; [by apply Hkeys|]. by intros ->.
  - replace (addr <$> past l0 X0) with (X0 0); [apply HX; lia|]. unfold past. rewrite <-list_fmap_compose.
    symmetry. apply list_fmap_id.
  - intros p. rewrite Hfree. split; [done|]. by intros (t & (q & -> & _)%Hpast & E).
  - by intros t t' p (q & -> & _)%Hpast _ E.
Qed.

(** The measure of [ls_rank], with [R] above every rank. *)
Let R := hooks B + mx * per_level B + 4.
Definition potential (l : LockedList) (X : Z -> list Z) (t : Thread) : Z :=
  ((mx - hooked t) * (mx + 1) + (mx - now_level l)) * R + rank mx hd B X (now_level l) t.

Lemma potential_drops a b r a' b' r' : 0 <= a -> 0 <= a' -> 0 <= b <= mx -> 0 <= b' <= mx -> 0 <= r < R -> 0 <= r' < R ->
  a' < a \/ a' = a /\ (b' < b \/ b' = b /\ r' < r) ->
  (a' * (mx + 1) + b') * R + r' < (a * (mx + 1) + b) * R + r.
Proof.
  intros Ha Ha' Hb Hb' Hr Hr' [H|[-> [H|[-> H]]]]; [|nia|lia].
  assert (a' * (mx + 1) + b' + 1 <= a * (mx + 1) + b) by nia. nia.
Qed.

(** What holds while the call runs. *)
Record underway (mu : Z) (l : LockedList) (t : Thread) (X : Z -> list Z) : Prop := {
  uw_good : good kl mx hd l (past l0 X0 ++ [t]) X;
  uw_dom : dom (l_mem l) ⊆ {[i_addr c]} ∪ dom (l_mem l0);
  uw_addr : addr t = i_addr c;
  uw_pair : pair_of t = (i_key c, i_value c);
  uw_len : l_valueLen l = l_valueLen l0;
  uw_num : l_nodeNum l = match t with Ready _ => l_nodeNum l0 | _ => u64 (l_nodeNum l0 + 1) end;
  uw_served : match t with Refused _ => False | _ => True end;
  uw_mu : mu = potential l X t }.

Lemma underway_sizes mu l t X : underway mu l t X -> sizes mx B X.
Proof.
  intros Hu i Hi. pose proof (levels_size kl mx _ hd X i (gd_levels _ _ _ _ _ _ (uw_good _ _ _ _ Hu)) Hi) as Hsz.
  pose proof (subseteq_size _ _ (uw_dom _ _ _ _ Hu)) as Hd. rewrite size_union, size_singleton, !size_dom in Hd.
  - unfold B. lia.
  - destruct Hfresh as (Hf & _). intros q Hq%elem_of_singleton Hq2. subst q. by apply not_elem_of_dom in Hf.
Qed.

Lemma underway_thread mu l t X : underway mu l t X ->
  thread_ok kl mx hd (l_mem l) X (now_level l) t /\ 0 <= hooked t <= mx /\ 0 <= now_level l <= mx /\
  0 <= rank mx hd B X (now_level l) t < R.
Proof.
  intros Hu. pose proof (uw_good _ _ _ _ Hu) as Hg. destruct (gd_threads _ _ _ _ _ _ Hg t) as [Ht Hh]; [set_solver|].
  destruct (gd_list _ _ _ _ _ _ Hg) as (_ & _ & _ & Hlv). pose proof Hidle as [[_ Hmx _ _ _] _ _].
  assert (HB : 0 <= B) by (unfold B; lia). cbn [as_list maxLevel] in Hmx. fold mx in Hmx. split_and!; try done; try lia.
  - by eapply rank_nonneg.
  - eapply (rank_bounded kl mx hd); [done|by eapply underway_sizes|done|done].
Qed.

(** The number of nodes goes up in the first step alone. *)
Lemma counts_one t t' l l' : pair_of t = (i_key c, i_value c) -> l_keyLen l = kl -> tstep l t = Ok (l', t') ->
  match t with Refused _ => False | _ => True end ->
  l_nodeNum l = match t with Ready _ => l_nodeNum l0 | _ => u64 (l_nodeNum l0 + 1) end ->
  l_nodeNum l' = match t' with Ready _ => l_nodeNum l0 | _ => u64 (l_nodeNum l0 + 1) end /\
  match t' with Refused _ => False | _ => True end.
Proof.
  intros Hp Hkl E Hs Hn. assert (Hcase : (exists c1, t = Ready c1) \/ under_way t) by (destruct t; try done; [left; by eexists|by right..]).
  destruct Hcase as [[c1 ->]|Hw].
  - injection Hp as Hk1 _. cbn [tstep] in E. rewrite Hk1, Hkl in E. fold kl in Hkey. rewrite Hkey, Z.eqb_refl in E.
    injection E as <- <-. cbn. by rewrite Hn.
  - destruct (tstep_under_way _ _ _ _ E Hw) as [Hw' ->]. rewrite Hn. destruct t, t'; done.
Qed.

Lemma underway_mu mu l t X : underway mu l t X -> 0 <= mu.
Proof.
  intros Hu. rewrite (uw_mu _ _ _ _ Hu). destruct (underway_thread _ _ _ _ Hu) as (_ & Hh & Hlv & Hrk). unfold potential.
  apply Z.add_nonneg_nonneg; [|lia]. apply Z.mul_nonneg_nonneg; [|lia]. nia.
Qed.

Lemma underway_step mu l t : (exists X, underway mu l t X) -> finished t = false ->
  exists mu' l' t', tstep l t = Ok (l', t') /\ (exists X, underway mu' l' t' X) /\ mu' < mu.
Proof.
  intros (X & Hu) Hf. pose proof (underway_sizes _ _ _ _ Hu) as Hsz. pose proof (underway_thread _ _ _ _ Hu) as (Hto & Hh & Hlv & Hrk).
  pose proof Hidle as [[Hk Hmx _ _ _] _ _]. cbn [as_list keyLen maxLevel] in Hk, Hmx. fold kl mx in Hk, Hmx.
  pose proof Hu as [Hg Hdom Ha Hp Hvl Hnum Hsv ->]. set (ts := past l0 X0 ++ [t]) in *.
  assert (Hin : t ∈ ts) by (unfold ts; set_solver).
  assert (Hr : ready_to kl mx hd B l X t).
  { destruct (good_ready kl mx hd l ts X t Hg Hin). by split. }
  destruct (tstep_ok kl mx hd Hk Hmx B l X t Hr Hf) as [(u & f & i & -> & Eu & Hlk)|(l' & t' & X' & E & Hs)].
  { exfalso. apply (gd_locks _ _ _ _ _ _ Hg) in Hlk as (t2 & Ht2 & Eh). unfold ts, past in Ht2.
    apply elem_of_app in Ht2 as [(q & -> & _)%list_elem_of_fmap| ->%list_elem_of_singleton]; done. }
  assert (Hput : <[length (past l0 X0) := t']> ts = past l0 X0 ++ [t']).
  { unfold ts. by rewrite <-(Nat.add_0_r (length _)), insert_app_r. }
  assert (Hg' : good kl mx hd l' (past l0 X0 ++ [t']) X').
  { rewrite <-Hput. eapply good_step; [done|exact Hg| |exact Hs]. unfold ts. by rewrite lookup_app_r, Nat.sub_diag by lia. }
  exists (potential l' X' t'), l', t'. split; [done|].
  assert (Hkl : l_keyLen l = kl) by apply Hg. pose proof (counts_one t t' l l' Hp Hkl E Hsv Hnum) as Hone.
  assert (Hu' : underway (potential l' X' t') l' t' X').
  { split; try done.
    - intros q Hq. destruct (decide (q = i_addr c)) as [->|Hne]; [set_solver|]. apply Hdom.
      apply elem_of_dom. apply elem_of_dom in Hq. destruct (l_mem l !! q) eqn:Eq; [done|].
      rewrite (ev_fresh _ _ _ _ _ _ _ _ _ (ls_evolves _ _ _ _ _ _ _ _ _ _ Hs) q) in Hq; [by destruct Hq|congruence|done].
    - by rewrite (ls_addr _ _ _ _ _ _ _ _ _ _ Hs).
    - by rewrite (tstep_pair _ _ _ _ E).
    - rewrite <-Hvl. by eapply tstep_len.
    - by apply Hone.
    - by apply Hone. }
  split; [by exists X'|]. pose proof (underway_thread _ _ _ _ Hu') as (_ & Hh' & Hlv' & Hrk').
  apply potential_drops; try lia. 
  pose proof (ls_hooked _ _ _ _ _ _ _ _ _ _ Hs). pose proof (ls_level _ _ _ _ _ _ _ _ _ _ Hs).
  destruct (ls_rank _ _ _ _ _ _ _ _ _ _ Hs) as [Hlt|[-> [Hlt|[E1 E2]]]]; [lia|lia|]. rewrite E1. lia.
Qed.

Lemma call_underway : exists mu, underway mu l0 (Ready c) X0 /\ mu < step_bound mx B.
Proof.
  pose proof past_good as Hg. destruct Hg as [Hl HX Hm Ht Hnd Hlk Hone]. pose proof Hidle as [[_ _ _ _ _] Hfree _].
  destruct Hfresh as (Hf & Hf0 & Hrand).
  assert (Hu : underway (potential l0 X0 (Ready c)) l0 (Ready c) X0).
  { split; try done; [|set_solver]. split; try done.
    - intros i p Hi. rewrite Hm by done. split; intros (t & Hin & Ha & Hlt).
      + exists t. split; [set_solver|done].
      + apply elem_of_app in Hin as [Hin| ->%list_elem_of_singleton]; [by exists t|]. cbn in Hlt. lia.
    - intros t [Hin| ->%list_elem_of_singleton]%elem_of_app; [by apply Ht|]. split; [done|]. cbn.
      destruct Hl as (_ & _ & _ & ?). lia.
    - rewrite fmap_app. change (hd :: ?a ++ ?b) with ((hd :: a) ++ b). apply NoDup_app. split; [done|]. split; [|apply NoDup_singleton].
      intros q Hq ->%list_elem_of_singleton. cbn [addr] in Hq. destruct (lv_head _ _ _ _ _ HX) as ([n Hn] & _).
      apply elem_of_cons in Hq as [E|(t & Ea & (p & -> & Hp)%list_elem_of_fmap)%list_elem_of_fmap]; [congruence|].
      cbn in Ea. subst p. pose proof Hl as (_ & _ & _ & ?). destruct (lv_nodes _ _ _ _ _ HX 0 (i_addr c)) as ([? ?] & _); [|done|congruence].
      destruct Hidle as [[_ Hmx _ _ _] _ _]. cbn in Hmx. unfold mx. lia.
    - intros p. rewrite Hlk. split; intros (t & Hin & E); exists t; [set_solver|].
      apply elem_of_app in Hin as [Hin| ->%list_elem_of_singleton]; done.
    - intros t t' p [Hin| ->%list_elem_of_singleton]%elem_of_app [Hin'| ->%list_elem_of_singleton]%elem_of_app E E'; try done.
      by apply (Hone t t' p). }
  exists (potential l0 X0 (Ready c)). split; [done|]. destruct (underway_thread _ _ _ _ Hu) as (_ & _ & Hlv & Hrk).
  unfold potential, step_bound. fold R. cbn [hooked]. nia.
Qed.

(** [insert] returns, and has put the pair into the list. *)
Lemma insert_run_ok : exists l X, insert l0 c = Ok (true, l) /\ idle l X /\
  entries (l_mem l) X ≡ₚ (i_key c, i_value c) :: entries (l_mem l0) X0 /\
  l_keyLen l = l_keyLen l0 /\ l_valueLen l = l_valueLen l0 /\ l_maxLevel l = l_maxLevel l0 /\ l_head l = l_head l0 /\
  l_nodeNum l = u64 (l_nodeNum l0 + 1).
Proof.
  destruct call_underway as (mu & Hu & Hmu). set (n := Z.to_nat (Z.log2_up (step_bound mx B))).
  destruct (run_thread_ends (fun mu l t => exists X, underway mu l t X)) with (n := n) (mu := mu) (l := l0) (t := Ready c)
    as (mu' & l & t & E & (X & Hu') & Hend).
  - intros m1 l1 t1 (X & H1). by eapply underway_mu.
  - apply underway_step.
  - by exists X0.
  - assert (Hfin : finished t = true).
    { destruct Hend as [|Hend]; [done|]. pose proof (underway_mu _ _ _ _ Hu'). pose proof (underway_mu _ _ _ _ Hu).
      exfalso. pose proof (Z.log2_log2_up_spec (step_bound mx B) ltac:(lia)) as Hlog. unfold n in Hend.
      rewrite Z2Nat.id in Hend by apply Z.log2_up_nonneg. lia. }
    pose proof Hu' as [Hg _ _ Hp Hvl Hnum Hsv _]. destruct t as [c1|c1|f pc|f|c1]; try done.
    pose proof past_good as Hg0. destruct Hidle as [[Hk Hmx _ _ _] _ Hkeys]. cbn [as_list keyLen maxLevel] in Hk, Hmx.
    destruct (gd_list _ _ _ _ _ _ Hg) as (Ekl & Emx & Ehd & _). fold kl mx in Hk, Hmx.
    assert (Hpast : forall t, t ∈ past l0 X0 -> finished t = true) by (intros t (p & -> & _)%list_elem_of_fmap; done).
    destruct (good_finished kl mx hd Hk Hmx l (past l0 X0 ++ [Finished f]) X Hg) as [Hinv Hperm].
    { intros t [Ht| ->%list_elem_of_singleton]%elem_of_app; [by apply Hpast|done]. }
    assert (Hents : filter (fun e => zlen e.1 = kl) (pair_of <$> past l0 X0 ++ [Finished f]) =
      entries (l_mem l0) X0 ++ [(i_key c, i_value c)]).
    { rewrite fmap_app, filter_app. f_equal.
      - unfold past. rewrite <-list_fmap_compose. change (pair_of ∘ (Finished ∘ frame_of (l_mem l0))) with (entry (l_mem l0)).
        unfold entries. apply filter_every. intros e (p & -> & Hp')%list_elem_of_fmap. by apply Hkeys.
      - cbn [fmap list_fmap]. rewrite Hp, filter_cons_True; [done|exact Hkey]. }
    exists l, X. split_and!; [unfold insert; fold mx B; fold n; by rewrite E| |by rewrite Hperm, Hents, Permutation_app_comm|done..].
    split; [done|..].
    + intros p. apply not_true_is_false. intros (t & Hin & Eh)%(gd_locks _ _ _ _ _ _ Hg).
      apply elem_of_app in Hin as [(q & -> & _)%list_elem_of_fmap| ->%list_elem_of_singleton]; done.
    + intros p Hp'. assert (Hin : entry (l_mem l) p ∈ entries (l_mem l) X) by (by apply list_elem_of_fmap_2).
      rewrite Hperm in Hin. apply list_elem_of_filter in Hin as [Hz _]. rewrite Ekl. exact Hz.
Qed.
End one_call.

(** ** Lists that nothing is in *)
Lemma init_idle p mx kl vl : known kl = true -> 0 < mx < 2 ^ 31 -> p <> nullptr ->
  exists l, initList (new_LockedList ∅) p mx kl vl = Ok l /\ idle l (fun _ => []) /\
    l_keyLen l = kl /\ l_valueLen l = vl /\ l_nodeNum l = 0.
Proof.
  intros Hk Hmx Hp. destruct (start_good ∅ p mx kl vl [] Hk Hmx (lookup_empty p) Hp) as (l & E & Hg & _ & Ekl).
  { done. }
  { split; [apply NoDup_singleton|constructor]. }
  unfold start in E. apply bind_Ok_iff in E as (l' & E & [= ->]). exists l. split; [done|].
  destruct (good_finished kl mx p Hk Hmx l [] (fun _ => []) Hg) as [Hi _]; [by intros t Ht%elem_of_nil|].
  split_and!; [|done|..].
  - split; [done| |].
    + intros q. apply not_true_is_false. by intros (t & Ht%elem_of_nil & _)%(gd_locks _ _ _ _ _ _ Hg).
    + by intros q Hq%elem_of_nil.
  - unfold initList in E. apply bind_Ok_iff in E as ([h m] & _ & [= <-]). done.
  - unfold initList in E. apply bind_Ok_iff in E as ([h m] & _ & [= <-]). done.
Qed.

Lemma clear_idle l X : idle l X -> exists l', clear l = Ok l' /\ idle l' (fun _ => []) /\
  l_keyLen l' = l_keyLen l /\ l_valueLen l' = l_valueLen l /\ l_nodeNum l' = 0.
Proof.
  intros [[Hk Hmx Hlv HX _] Hf _]. cbn [as_list keyLen maxLevel level head SkipList.mem] in *.
  destruct (lv_head _ _ _ _ _ HX) as (Hh & Hhh & Hh0).
  destruct (clear_ok l Hk Hmx Hlv Hh Hhh Hh0) as (m & E & _ & Hl & Hinv). eexists. split; [exact E|].
  split; [|done]. split; [done|intros q; cbn; by rewrite Hl|]. by intros q Hq%elem_of_nil.
Qed.

(** Searching a list at rest. *)
Lemma idle_find l X key : idle l X -> zlen key = l_keyLen l ->
  findByKey l key = Ok ((fun e => u32 e.2) <$> filter (fun e => same_key (l_keyLen l) e.1 key = true) (entries (l_mem l) X)).
Proof.
  intros [Hi _ _] Hl. pose proof Hi as [_ _ _ HX _]. cbn in HX. destruct (lv_head _ _ _ _ _ HX) as (_ & _ & Hh0).
  rewrite find_as_list, (findByKey_values _ X) by done. unfold values. cbn [as_list SkipList.mem keyLen]. do 2 f_equal.
Qed.
