(* ===== verification/LegacyIndex.v ===== *)
(** * The index buffer with skip lists (dpdk_lib/indexBuffer.hpp)

    The version of the index buffer before the memory pools: each slot keeps
    the records of its disk block in a skip list per index type, next to the
    Bloom filter.  The lists of a slot live in heaps of their own; the
    allocator, a function that gives an unused address, and what [rand]
    returns are arguments.  A call of [insert] runs each list's insertion to
    its end; [SkipListLocked] interleaves them. *)
From stdpp Require Import sorting.
From S2P Require Import Prelude Util BitMap PrefixBloom BlockBuffer MemoryPool PoolRecords IndexBuffer SkipList SkipOutput SkipListLocked SkipListRun.
From Stdlib Require Import ZArith Lia.

Module Legacy.
Record IndexBufferMeta := mkMeta {
  bloomFilterMeta : PrefixBloomFilter;
  skiplists : list LockedList;
  disk_block_id : Z }.

Record IndexBuffer := mkBuffer {
  total_block_num : Z;
  disk_block_num : Z;
  metas : list IndexBufferMeta;
  index_check_ids : list Z }.

Definition index_types : list IndexType := [SRCIP; DSTIP; SRCPORT; DSTPORT; SRCIPv6; DSTIPv6].

(** The key length that [init] gives the list of a type. *)
Definition key_bytes (t : IndexType) : Z :=
  match t with SRCIP | DSTIP => 4 | SRCPORT | DSTPORT => 2 | SRCIPv6 | DSTIPv6 => 16 | TOTAL_INDEX => 0 end.

(** One list of [IndexBufferMeta::init]; [p] is its head's address. *)
Definition init_list (p : Z) (t : IndexType) : res LockedList :=
  initList (new_LockedList ∅) p (key_bytes t * 8) (key_bytes t) 8.

Definition init_meta (b : BitMap) (k id : Z) (heads : IndexType -> Z) : res IndexBufferMeta :=
  ls ← mapM (fun t => init_list (heads t) t) index_types;
  Ok (mkMeta (setWritingCol (PrefixBloom.init new_PBF k) b id) ls id).

Definition new_IndexBuffer (mmap_ok : bool) (b : BitMap) (total disk k : Z) (heads : Z -> IndexType -> Z)
  : res IndexBuffer :=
  if total =? 0 then Undef
  else if negb (disk mod total =? 0) then Throws
  else if negb mmap_ok then Throws
  else ms ← mapM (fun i => init_meta b k i (heads i)) (zseq total); Ok (mkBuffer total disk ms []).

Definition addCheckThread (ib : IndexBuffer) : Z * IndexBuffer :=
  let id := zlen (index_check_ids ib) in
  if total_block_num ib <=? id then (MAX64, ib)
  else (id, mkBuffer (total_block_num ib) (disk_block_num ib) (metas ib) (index_check_ids ib ++ [id])).

Section operations.
Context (hash_str : list Z -> Z) (hash_u64 : Z -> Z) (alloc : Mem -> Z).

(** [skiplists[t].insert(key, position)]. *)
Definition put_list (m : IndexBufferMeta) (t : IndexType) (key : list Z) (position rand : Z)
  : res (bool * IndexBufferMeta) :=
  l ← zget (skiplists m) (index_type_code t);
  '(ok, l) ← SkipListRun.insert l (mkInsertion (alloc (l_mem l)) rand key position);
  ls ← zset (skiplists m) (index_type_code t) l;
  Ok (ok, mkMeta (bloomFilterMeta m) ls (disk_block_id m)).

(** A key into the filter, and if it is accepted into the list. *)
Definition put (m : IndexBufferMeta) (b : BitMap) (fk : fkey) (t : IndexType) (key : list Z) (position rand : Z)
  : res (bool * (IndexBufferMeta * BitMap)) :=
  '(ok, b) ← insert_key hash_str hash_u64 (bloomFilterMeta m) b fk;
  if negb ok then Ok (false, (m, b)) else
  '(ok, m) ← put_list m t key position rand;
  Ok (ok, (m, b)).

Definition insert_addresses (m : IndexBufferMeta) (b : BitMap) (meta : FlowMetadata) (position : Z)
    (rands : IndexType -> Z) : res (bool * (IndexBufferMeta * BitMap)) :=
  let src := sourceAddress meta in
  let dst := destinationAddress meta in
  if (zlen src =? 4) && (zlen dst =? 4) then
    '(ok, (m, b)) ← put m b (KIPv4 (le_val src) SRCIP) SRCIP src position (rands SRCIP);
    if negb ok then Ok (false, (m, b))
    else put m b (KIPv4 (le_val dst) DSTIP) DSTIP dst position (rands DSTIP)
  else if (zlen src =? 16) && (zlen dst =? 16) then
    '(ok, (m, b)) ← put m b (KIPv6 (key_dec (KeyBytes := key16) src) SRCIPv6) SRCIPv6 src position (rands SRCIPv6);
    if negb ok then Ok (false, (m, b))
    else put m b (KIPv6 (key_dec (KeyBytes := key16) dst) DSTIPv6) DSTIPv6 dst position (rands DSTIPv6)
  else Ok (true, (m, b)).

Definition insert_flow (m : IndexBufferMeta) (b : BitMap) (meta : FlowMetadata) (position : Z)
    (rands : IndexType -> Z) : res (bool * (IndexBufferMeta * BitMap)) :=
  '(ok, (m, b)) ← insert_addresses m b meta position rands;
  if negb ok then Ok (false, (m, b)) else
  '(ok, (m, b)) ← put m b (KPort (sourcePort meta) SRCPORT) SRCPORT (le_bytes 2 (sourcePort meta)) position (rands SRCPORT);
  if negb ok then Ok (false, (m, b)) else
  put m b (KPort (destinationPort meta) DSTPORT) DSTPORT (le_bytes 2 (destinationPort meta)) position (rands DSTPORT).

Definition insert (ib : IndexBuffer) (b : BitMap) (meta : FlowMetadata) (position id : Z) (rands : IndexType -> Z)
  : res (bool * (IndexBuffer * BitMap)) :=
  if total_block_num ib =? 0 then Undef else
  let meta_id := id mod total_block_num ib in
  m ← zget (metas ib) meta_id;
  if negb (disk_block_id m =? id) then Ok (false, (ib, b)) else
  '(ok, (m, b)) ← insert_flow m b meta position rands;
  ms ← zset (metas ib) meta_id m;
  Ok (ok, (mkBuffer (total_block_num ib) (disk_block_num ib) ms (index_check_ids ib), b)).
End operations.

(** The slot that a checking thread watches. *)
Definition check_slot (ib : IndexBuffer) (thread_id : Z) : res (option Z) :=
  if zlen (index_check_ids ib) <=? thread_id then Ok None
  else i ← zget (index_check_ids ib) thread_id; Ok (Some i).

Definition getCheckDishID (ib : IndexBuffer) (thread_id : Z) : res Z :=
  o ← check_slot ib thread_id;
  match o with Some i => m ← zget (metas ib) i; Ok (disk_block_id m) | None => Ok MAX64 end.

Definition checkIndexCount (ib : IndexBuffer) (thread_id : Z) (t : IndexType) : res Z :=
  o ← check_slot ib thread_id;
  match o with
  | Some i => m ← zget (metas ib) i; l ← zget (skiplists m) (index_type_code t); Ok (l_nodeNum l)
  | None => Ok MAX64
  end.

(** A pointer to a meta is its slot; [None] is [nullptr]. *)
Definition getIndexBufferMeta (ib : IndexBuffer) (thread_id : Z) : res (option Z) := check_slot ib thread_id.

Definition updateIndexBufferMeta (ib : IndexBuffer) (b : BitMap) (thread_id bitmap_col : Z) : res IndexBuffer :=
  o ← check_slot ib thread_id;
  match o with
  | None => Ok ib
  | Some i =>
      m ← zget (metas ib) i;
      ls ← mapM (fun t => l ← zget (skiplists m) t; clear l) (zseq INDEX_NUM);
      let f := setWritingCol (bloomFilterMeta m) b bitmap_col in
      if (disk_block_num ib =? 0) || (total_block_num ib =? 0) then Undef else
      ms ← zset (metas ib) i (mkMeta f ls (u64 (disk_block_id m + total_block_num ib) mod disk_block_num ib));
      ids ← zset (index_check_ids ib) thread_id (u64 (i + zlen (index_check_ids ib)) mod total_block_num ib);
      Ok (mkBuffer (total_block_num ib) (disk_block_num ib) ms ids)
  end.
End Legacy.

(** * Proofs *)
Module LegacyProofs.
Import Legacy.

Lemma index_code_inj t t' : index_type_code t = index_type_code t' -> t = t'.
Proof. by destruct t, t'. Qed.

(** ** What the lists of a slot hold *)

(** Per index type the pairs of key and position. *)
Abbreviation Records := (IndexType -> list (list Z * Z)).

Record list_holds (l : LockedList) (t : IndexType) (R : list (list Z * Z)) (X : Z -> list Z) : Prop := {
  lh_idle : idle l X;
  lh_len : l_keyLen l = key_bytes t;
  lh_entries : entries (l_mem l) X ≡ₚ R;
  lh_num : l_nodeNum l = u64 (zlen R) }.

Definition lists_hold (ls : list LockedList) (R : Records) : Prop :=
  zlen ls = INDEX_NUM /\
  forall t, t <> TOTAL_INDEX -> exists l X, zget ls (index_type_code t) = Ok l /\ list_holds l t (R t) X.

Definition add_record (R : Records) (t : IndexType) (e : list Z * Z) : Records :=
  fun t' => if decide (t' = t) then R t' ++ [e] else R t'.

Lemma lists_hold_ext ls R R' : (forall t, R t = R' t) -> lists_hold ls R -> lists_hold ls R'.
Proof. intros He [Hz H]. split; [done|]. intros t Ht. rewrite <-He. by apply H. Qed.

(** The keys of a flow for the filter, each with its key for the list. *)
Definition flow_entries (meta : FlowMetadata) : list (fkey * (IndexType * list Z)) := zip (flow_fkeys meta) (flow_keys meta).

Definition entry_ok (e : fkey * (IndexType * list Z)) : Prop :=
  fkey_wf e.1 /\ key_type_ok e.1 = true /\ e.2.1 <> TOTAL_INDEX /\ zlen e.2.2 = key_bytes e.2.1.

Lemma flow_entries_ok meta : flow_wf meta -> Forall entry_ok (flow_entries meta).
Proof.
  intros Hw. pose proof (flow_fkeys_wf meta Hw) as Hf. unfold flow_entries. revert Hf. unfold flow_fkeys, flow_keys.
  case_test; [|case_test]; zbool; cbn [app zip zip_with]; rewrite !Forall_cons, !Forall_nil; unfold entry_ok; cbn [fst snd];
    intros; rewrite ?zlen_le_bytes; naive_solver.
Qed.

Section adding.
Context (hash_str : list Z -> Z) (hash_u64 : Z -> Z) (alloc : Mem -> Z).
Context (Halloc : forall m, m !! alloc m = None /\ alloc m <> nullptr).

Lemma put_list_spec m R t key position rand : lists_hold (skiplists m) R -> t <> TOTAL_INDEX ->
  zlen key = key_bytes t -> 0 < rand < 2 ^ 31 ->
  exists ls, put_list alloc m t key position rand = Ok (true, mkMeta (bloomFilterMeta m) ls (disk_block_id m)) /\
    lists_hold ls (add_record R t (key, position)).
Proof.
  intros [Hz Hl] Ht Hk Hr. destruct (Hl t Ht) as (l & X & El & [Hi Hlen Hent Hnum]). unfold put_list. rewrite El. cbn [mbind res_bind].
  destruct (Halloc (l_mem l)) as [Ha Ha0].
  destruct (insert_run_ok l X (mkInsertion (alloc (l_mem l)) rand key position) Hi) as (l' & X' & -> & Hi' & Hent' & Hlen' & _ & _ & _ & Hnum').
  { by rewrite Hlen. }
  { done. }
  cbn [mbind res_bind]. pose proof (zget_range _ _ _ El) as Hrng. rewrite zset_Ok by done. cbn [mbind res_bind].
  eexists. split; [done|]. split; [unfold zlen; by rewrite length_insert|]. intros t' Ht'. unfold add_record.
  destruct (decide (t' = t)) as [->|Hne].
  - exists l', X'. rewrite zget_insert_eq by done. split; [done|]. split; [done|congruence| |].
    + rewrite Hent', Hent. cbn [i_key i_value]. by rewrite Permutation_app_comm.
    + rewrite Hnum', Hnum, zlen_app. unfold u64, wrap. change (zlen [(key, position)]) with 1. by rewrite Zplus_mod_idemp_l.
  - destruct (Hl t' Ht') as (l2 & X2 & E2 & H2). exists l2, X2. split; [|done].
    rewrite zget_insert_ne; [done|lia|]. intros E%index_code_inj. done.
Qed.

(** ** Indexing a flow *)

Fixpoint put_all (m : IndexBufferMeta) (b : BitMap) (es : list (fkey * (IndexType * list Z))) (position : Z)
    (rands : IndexType -> Z) : res (bool * (IndexBufferMeta * BitMap)) :=
  match es with
  | [] => Ok (true, (m, b))
  | (fk, (t, key)) :: es =>
      '(ok, (m, b)) ← put hash_str hash_u64 alloc m b fk t key position (rands t);
      if negb ok then Ok (false, (m, b)) else put_all m b es position rands
  end.

Lemma insert_flow_entries m b meta position rands :
  insert_flow hash_str hash_u64 alloc m b meta position rands = put_all m b (flow_entries meta) position rands.
Proof.
  unfold insert_flow, insert_addresses, flow_entries, flow_fkeys, flow_keys.
  destruct (_ && _); [|destruct (_ && _)]; cbn [app zip zip_with put_all mbind res_bind negb];
    repeat (match goal with
    | |- context [mbind _ (put ?h ?u ?a ?m ?b ?f ?t ?k ?p ?r)] =>
        destruct (put h u a m b f t k p r) as [[[] [? ?]]| | |]; cbn [mbind res_bind negb]; [|done..]
    | |- context [put ?h ?u ?a ?m ?b ?f ?t ?k ?p ?r] =>
        destruct (put h u a m b f t k p r) as [[[] [? ?]]| | |]; cbn [mbind res_bind negb]
    end); done.
Qed.

Definition records_of (es : list (fkey * (IndexType * list Z))) (position : Z) : Records :=
  fun t => (fun e => (e.2.2, position)) <$> filter (fun e => e.2.1 = t) es.

Lemma put_all_spec es b0 position rands f id : Forall entry_ok es -> (forall t, 0 < rands t < 2 ^ 31) ->
  has_bitmap f = true -> 0 <= writing_col f < col_count b0 -> ROWS_NEEDED <= row_count b0 < 2 ^ 64 ->
  forall ls R b, lists_hold ls R -> wf b -> same_dims b b0 ->
  exists ls' b', put_all (mkMeta f ls id) b es position rands = Ok (true, (mkMeta f ls' id, b')) /\
    lists_hold ls' (fun t => R t ++ records_of es position t) /\ grows b b' /\ same_dims b' b0 /\
    Forall (fun e => key_in hash_str hash_u64 f b' e.1 (writing_col f)) es.
Proof.
  intros Hes Hrand Hh Hc Hr. induction Hes as [|[fk [t key]] es (Hw & Hty & Ht & Hk) _ IH]; intros ls R b Hl Hb Hd.
  { exists ls, b. split; [done|]. split; [|split; [by apply grows_refl|done]].
    eapply lists_hold_ext; [|exact Hl]. intros t. by rewrite app_nil_r. }
  cbn [fst snd] in *. pose proof Hd as (Hd1 & Hd2 & _).
  destruct (insert_key_succeeds hash_str hash_u64 f b fk Hb Hw Hh Hty) as (b1 & E & Hw1 & Hd3); [congruence || lia..|].
  destruct (insert_key_inserts hash_str hash_u64 f b fk Hb ltac:(lia) Hw) as (v & b1' & E' & Hg & HQ).
  rewrite E in E'. injection E' as <- <-. destruct (HQ eq_refl) as (_ & _ & Hi).
  cbn [put_all]. unfold put. cbn [bloomFilterMeta]. rewrite E. cbn [mbind res_bind negb].
  destruct (put_list_spec (mkMeta f ls id) R t key position (rands t) Hl Ht Hk (Hrand t)) as (ls1 & -> & Hl1).
  cbn [mbind res_bind negb bloomFilterMeta disk_block_id].
  destruct (IH ls1 _ b1 Hl1 Hw1) as (ls2 & b2 & -> & Hl2 & Hg2 & Hd4 & Hin); [by eapply same_dims_trans|].
  exists ls2, b2. split; [done|]. split.
  { eapply lists_hold_ext; [|exact Hl2]. intros t'. unfold add_record, records_of. rewrite filter_cons. cbn [fst snd].
    destruct (decide (t' = t)) as [->|]; case_decide; try congruence. cbn [fmap list_fmap]. by rewrite <-app_assoc. }
  split; [by eapply grows_trans|]. split; [done|]. constructor; [by eapply key_in_grows|done].
Qed.
End adding.

(** ** The buffer as a table of flows *)

(** The records of type [t] that the flows have, in order. *)
Definition records (flows : list (FlowMetadata * Z)) : Records :=
  fun t => flows ≫= (fun e => (fun k => (k.2, e.2)) <$> filter (fun k => k.1 = t) (flow_keys e.1)).

Lemma records_of_zip (fks : list fkey) position t : forall ks : list (IndexType * list Z), length fks = length ks ->
  records_of (zip fks ks) position t = (fun k => (k.2, position)) <$> filter (fun k => k.1 = t) ks.
Proof.
  unfold records_of. induction fks as [|fk fks IH]; intros [|k ks] Hl; try done. injection Hl as Hl. cbn [zip zip_with].
  rewrite !filter_cons. cbn [snd]. case_decide; [cbn [fmap list_fmap]; f_equal|]; by apply IH.
Qed.

Lemma records_snoc flows meta position t :
  records (flows ++ [(meta, position)]) t = records flows t ++ records_of (flow_entries meta) position t.
Proof.
  unfold records. rewrite bind_app. cbn [mbind list_bind fst snd]. rewrite app_nil_r. f_equal. symmetry. apply records_of_zip.
  unfold flow_fkeys, flow_keys. repeat case_match; done.
Qed.

(** A slot: its disk block and the flows indexed for it, with positions. *)
Record Slot := mkSlot { s_block : Z; s_flows : list (FlowMetadata * Z) }.
Record Table := mkTable { s_slots : list Slot; s_checks : list Z }.

Inductive Op :=
  | OpCheckThread
  | OpInsert (meta : FlowMetadata) (position id : Z) (rands : IndexType -> Z)
  | OpUpdate (thread_id bitmap_col : Z).

(** What the calls mean. *)
Definition table_op (total disk : Z) (s : Table) (op : Op) : Z * Table :=
  match op with
  | OpCheckThread =>
      let id := zlen (s_checks s) in
      if total <=? id then (MAX64, s) else (id, mkTable (s_slots s) (s_checks s ++ [id]))
  | OpInsert meta position id _ =>
      let i := id mod total in
      match zget (s_slots s) i with
      | Ok (mkSlot block flows) =>
          if block =? id
          then (1, mkTable (<[Z.to_nat i := mkSlot block (flows ++ [(meta, position)])]> (s_slots s)) (s_checks s))
          else (0, s)
      | _ => (0, s)
      end
  | OpUpdate thread_id _ =>
      match zget (s_checks s) thread_id with
      | Ok i =>
          match zget (s_slots s) i with
          | Ok (mkSlot block _) =>
              (0, mkTable (<[Z.to_nat i := mkSlot ((block + total) mod disk) []]> (s_slots s))
                    (<[Z.to_nat thread_id := (i + zlen (s_checks s)) mod total]> (s_checks s)))
          | _ => (0, s)
          end
      | _ => (0, s)
      end
  end.

Fixpoint table_ops (total disk : Z) (s : Table) (ops : list Op) : list Z * Table :=
  match ops with
  | [] => ([], s)
  | op :: ops => let '(r, s) := table_op total disk s op in let '(rs, s) := table_ops total disk s ops in (r :: rs, s)
  end.

Definition new_table (total : Z) : Table := mkTable ((fun i => mkSlot i []) <$> zseq total) [].

Section buffer.
Context (hash_str : list Z -> Z) (hash_u64 : Z -> Z) (alloc : Mem -> Z).

(** The calls of the code. *)
Definition run_op (ib : IndexBuffer) (b : BitMap) (op : Op) : res (Z * (IndexBuffer * BitMap)) :=
  match op with
  | OpCheckThread => let '(id, ib) := addCheckThread ib in Ok (id, (ib, b))
  | OpInsert meta position id rands =>
      '(ok, s) ← insert hash_str hash_u64 alloc ib b meta position id rands; Ok (Z.b2z ok, s)
  | OpUpdate thread_id bitmap_col => ib ← updateIndexBufferMeta ib b thread_id bitmap_col; Ok (0, (ib, b))
  end.

Fixpoint run_ops (ib : IndexBuffer) (b : BitMap) (ops : list Op) : res (list Z * (IndexBuffer * BitMap)) :=
  match ops with
  | [] => Ok ([], (ib, b))
  | op :: ops => '(r, (ib, b)) ← run_op ib b op; '(rs, s) ← run_ops ib b ops; Ok (r :: rs, s)
  end.

Definition op_ok (op : Op) : Prop :=
  match op with
  | OpCheckThread => True
  | OpInsert meta _ id rands => flow_wf meta /\ 0 <= id /\ forall t, 0 < rands t < 2 ^ 31
  | OpUpdate thread_id bitmap_col => 0 <= thread_id /\ 0 <= bitmap_col
  end.

Context (Halloc : forall m, m !! alloc m = None /\ alloc m <> nullptr).
Context (total disk : Z) (Ht : 0 < total) (Hdisk : 0 < disk < 2 ^ 63) (Hdiv : disk mod total = 0).


Record slot_holds (b : BitMap) (m : IndexBufferMeta) (s : Slot) : Prop := {
  sl_block : disk_block_id m = s_block s;
  sl_range : 0 <= s_block s < disk;
  sl_lists : lists_hold (skiplists m) (records (s_flows s));
  sl_filter : filter_ok (bloomFilterMeta m) b;
  sl_keys : Forall (fun e => flow_wf e.1 /\ Forall (fun x => key_in hash_str hash_u64 (bloomFilterMeta m) b x.1
              (writing_col (bloomFilterMeta m))) (flow_entries e.1)) (s_flows s) }.

Record represents (ib : IndexBuffer) (b : BitMap) (s : Table) : Prop := {
  rp_total : total_block_num ib = total;
  rp_disk : disk_block_num ib = disk;
  rp_size : zlen (s_slots s) = total;
  rp_checks : index_check_ids ib = s_checks s;
  rp_range : Forall (fun i => 0 <= i < total) (s_checks s) /\ zlen (s_checks s) <= total;
  rp_slots : Forall2 (slot_holds b) (metas ib) (s_slots s) }.

Lemma total_le_disk : total <= disk.
Proof. destruct (Z.le_gt_cases total disk); [done|]. rewrite Z.mod_small in Hdiv; lia. Qed.

Lemma slot_holds_grows b b' m s : grows b b' -> slot_holds b m s -> slot_holds b' m s.
Proof.
  intros Hg [H1 H2 H3 [Hw Hh Hc Hr] H5]. pose proof Hg as (Hw' & (Er & Ec & _) & _). split; try done.
  - split; (done || congruence || lia).
  - eapply Forall_impl; [exact H5|]. intros e [? Hk]. split; [done|]. eapply Forall_impl; [exact Hk|]. intros x. by apply key_in_grows.
Qed.

Lemma lists_init heads : (forall t, heads t <> nullptr) ->
  exists ls, mapM (fun t => init_list (heads t) t) index_types = Ok ls /\ lists_hold ls (fun _ => []).
Proof.
  intros Hh. assert (Hone : forall t, t <> TOTAL_INDEX -> exists l, init_list (heads t) t = Ok l /\ list_holds l t [] (fun _ => [])).
  { intros t Htt. destruct (init_idle (heads t) (key_bytes t * 8) (key_bytes t) 8) as (l & E & Hi & Hl & _ & Hn);
      [by destruct t|by destruct t|done|]. exists l. split; [done|]. by split. }
  destruct (Hone SRCIP ltac:(done)) as (l0 & E0 & H0). destruct (Hone DSTIP ltac:(done)) as (l1 & E1 & H1).
  destruct (Hone SRCPORT ltac:(done)) as (l2 & E2 & H2). destruct (Hone DSTPORT ltac:(done)) as (l3 & E3 & H3).
  destruct (Hone SRCIPv6 ltac:(done)) as (l4 & E4 & H4). destruct (Hone DSTIPv6 ltac:(done)) as (l5 & E5 & H5).
  exists [l0; l1; l2; l3; l4; l5]. split; [unfold index_types; cbn [mapM]; by rewrite E0, E1, E2, E3, E4, E5|].
  split; [done|]. intros [] Htt; try done; [exists l0|exists l1|exists l2|exists l3|exists l4|exists l5]; by eexists.
Qed.

Lemma new_represents b k heads : wf b -> total <= col_count b -> ROWS_NEEDED <= row_count b < 2 ^ 64 ->
  (forall i t, heads i t <> nullptr) ->
  exists ib, new_IndexBuffer true b total disk k heads = Ok ib /\ represents ib b (new_table total).
Proof.
  intros Hb Hc Hr Hh. pose proof total_le_disk. unfold new_IndexBuffer. rewrite (proj2 (Z.eqb_neq total 0)), Hdiv by lia. cbn [negb Z.eqb].
  destruct (mapM_spec (fun i m => slot_holds b m (mkSlot i [])) (fun i => init_meta b k i (heads i)) (zseq total)) as (ms & -> & Hms).
  { intros i Hi%elem_of_zseq. destruct (lists_init (heads i) (Hh i)) as (ls & E & Hl). unfold init_meta. rewrite E. cbn [mbind res_bind].
    eexists. split; [done|]. unfold setWritingCol, PrefixBloom.init, getColCount. cbn [has_bitmap negb]. case_test; zbool; [lia|].
    split; try done; cbn [s_block]; [lia|]. split; (done || cbn; lia). }
  cbn [mbind res_bind]. eexists. split; [done|]. split; try done.
  - cbn. unfold zlen. rewrite length_fmap. unfold zseq. rewrite length_fmap, length_seq. lia.
  - cbn. split; [done|]. change (zlen []) with 0. lia.
  - cbn [metas new_table s_slots]. clear -Hms. induction Hms; cbn; by constructor.
Qed.

Lemma represents_slot ib b s i : represents ib b s -> 0 <= i < total ->
  exists m slot, zget (metas ib) i = Ok m /\ zget (s_slots s) i = Ok slot /\ slot_holds b m slot /\ zlen (metas ib) = total.
Proof.
  intros [_ _ Hz _ _ Hs] Hi. pose proof (Forall2_length _ _ _ Hs) as Hlen. assert (Hzm : zlen (metas ib) = total) by (unfold zlen in *; lia).
  destruct (zget_lt (metas ib) i) as [m Em]; [lia|]. destruct (zget_lt (s_slots s) i) as [slot Es]; [lia|].
  exists m, slot. split_and!; try done. apply zget_Ok in Em as [_ Em]. apply zget_Ok in Es as [_ Es]. by eapply Forall2_lookup_lr.
Qed.

(** Putting a slot back. *)
Lemma represents_put ib b b' s i m slot ids : represents ib b s -> grows b b' -> slot_holds b' m slot ->
  Forall (fun i => 0 <= i < total) ids -> zlen ids <= total ->
  represents (mkBuffer total disk (<[Z.to_nat i := m]> (metas ib)) ids) b'
    (mkTable (<[Z.to_nat i := slot]> (s_slots s)) ids).
Proof.
  intros [] Hg Hm Hids Hlen. split; cbn [total_block_num disk_block_num metas index_check_ids s_slots s_checks]; try done.
  - unfold zlen. rewrite length_insert. done.
  - apply Forall2_insert; [|done]. eapply Forall2_impl; [done|]. intros m2 s2. by apply slot_holds_grows.
Qed.

Lemma run_insert ib b s meta position id rands : represents ib b s -> op_ok (OpInsert meta position id rands) ->
  exists ib' b', run_op ib b (OpInsert meta position id rands) =
      Ok ((table_op total disk s (OpInsert meta position id rands)).1, (ib', b')) /\
    represents ib' b' (table_op total disk s (OpInsert meta position id rands)).2.
Proof.
  intros Hrep (Hf & Hid & Hrand). pose proof (Z.mod_pos_bound id total Ht) as Hi.
  destruct (represents_slot ib b s (id mod total) Hrep Hi) as (m & [block flows] & Em & Es & Hsl & Hz).
  pose proof Hrep as [Etot Edisk Hzs Ech [Hr Hrl] Hs]. pose proof Hsl as [Hblk Hrg Hl [Hw Hh Hc Hrows] Hk]. cbn [s_block s_flows] in *.
  cbn [run_op table_op]. rewrite Es. unfold insert. rewrite Etot, (proj2 (Z.eqb_neq total 0)), Em by lia. cbn [mbind res_bind]. rewrite Hblk.
  destruct (block =? id) eqn:E; cbn [negb]; [|by eexists _, _]. zbool.
  destruct m as [f ls blk]. cbn [bloomFilterMeta skiplists disk_block_id] in *. rewrite insert_flow_entries.
  destruct (put_all_spec hash_str hash_u64 alloc Halloc (flow_entries meta) b position rands f blk) with (ls := ls) (R := records flows) (b := b)
    as (ls' & b' & -> & Hl' & Hg & Hd & Hin); try done; [by apply flow_entries_ok|].
  cbn [mbind res_bind]. rewrite zset_Ok by lia. cbn [mbind res_bind Z.b2z fst snd]. rewrite Edisk, Ech. eexists _, b'. split; [done|].
  apply (represents_put ib b b' s); try done. split; cbn [s_block s_flows disk_block_id skiplists bloomFilterMeta]; try done.
  - eapply lists_hold_ext; [|exact Hl']. intros t. by rewrite records_snoc.
  - destruct Hd as (E1 & E2 & _). split; (apply Hg || congruence || lia).
  - apply Forall_app. split; [|apply Forall_singleton; by split]. eapply Forall_impl; [exact Hk|]. intros e [? He]. split; [done|].
    eapply Forall_impl; [exact He|]. intros x. by apply key_in_grows.
Qed.

Lemma clear_all ls R : lists_hold ls R ->
  exists ls', mapM (fun t => l ← zget ls t; clear l) (zseq INDEX_NUM) = Ok ls' /\ lists_hold ls' (fun _ => []).
Proof.
  intros [Hz Hl].
  assert (Hone : forall t, t <> TOTAL_INDEX -> exists l, (l ← zget ls (index_type_code t); clear l) = Ok l /\ list_holds l t [] (fun _ => [])).
  { intros t Htt. destruct (Hl t Htt) as (l & X & -> & [Hi Hlen _ _]). cbn [mbind res_bind].
    destruct (clear_idle l X Hi) as (l' & -> & Hi' & Hlen' & _ & Hn). exists l'. split; [done|]. split; (done || congruence). }
  destruct (Hone SRCIP ltac:(done)) as (l0 & E0 & H0). destruct (Hone DSTIP ltac:(done)) as (l1 & E1 & H1).
  destruct (Hone SRCPORT ltac:(done)) as (l2 & E2 & H2). destruct (Hone DSTPORT ltac:(done)) as (l3 & E3 & H3).
  destruct (Hone SRCIPv6 ltac:(done)) as (l4 & E4 & H4). destruct (Hone DSTIPv6 ltac:(done)) as (l5 & E5 & H5).
  exists [l0; l1; l2; l3; l4; l5]. split; [change (zseq INDEX_NUM) with [0; 1; 2; 3; 4; 5]; cbn [mapM index_type_code] in *; by rewrite E0, E1, E2, E3, E4, E5|].
  split; [done|]. intros [] Htt; try done; [exists l0|exists l1|exists l2|exists l3|exists l4|exists l5]; by eexists.
Qed.

Lemma run_update ib b s thread_id bitmap_col : represents ib b s -> 0 <= thread_id -> 0 <= bitmap_col ->
  exists ib', run_op ib b (OpUpdate thread_id bitmap_col) = Ok ((table_op total disk s (OpUpdate thread_id bitmap_col)).1, (ib', b)) /\
    represents ib' b (table_op total disk s (OpUpdate thread_id bitmap_col)).2.
Proof.
  intros Hrep Hth Hcol. pose proof Hrep as [Etot Edisk Hzs Ech [Hr Hrl] Hs].
  cbn [run_op table_op]. unfold updateIndexBufferMeta, check_slot. rewrite Ech.
  destruct (zlen (s_checks s) <=? thread_id) eqn:E; zbool.
  { cbn [mbind res_bind]. exists ib. destruct (zget (s_checks s) thread_id) as [i| | |] eqn:Ez; try by split. apply zget_range in Ez. lia. }
  destruct (zget_lt (s_checks s) thread_id) as [i Ei]; [lia|]. rewrite Ei. cbn [mbind res_bind].
  assert (Hi : 0 <= i < total).
  { rewrite Forall_forall in Hr. apply Hr. apply zget_Ok in Ei as [_ Ei]. by eapply list_elem_of_lookup_2. }
  destruct (represents_slot ib b s i Hrep Hi) as (m & [block flows] & Em & Es & [Hblk Hrg Hl Hfo Hk] & Hz). cbn [s_block s_flows] in *.
  rewrite Em, Es. cbn [mbind res_bind]. destruct (clear_all _ _ Hl) as (ls & -> & Hls). cbn [mbind res_bind].
  rewrite Edisk, Etot, (proj2 (Z.eqb_neq disk 0)), (proj2 (Z.eqb_neq total 0)) by lia. cbn [orb]. rewrite zset_Ok by lia. cbn [mbind res_bind].
  rewrite zset_Ok by lia. cbn [mbind res_bind fst snd]. pose proof total_le_disk. pose proof (zlen_nonneg (s_checks s)).
  rewrite Hblk, !u64_small by lia. eexists. split; [done|].
  apply (represents_put ib b b s); try done.
  - apply grows_refl, Hfo.
  - pose proof (Z.mod_pos_bound (block + total) disk ltac:(lia)). split; cbn [s_block s_flows disk_block_id skiplists bloomFilterMeta]; try done.
    unfold setWritingCol. destruct Hfo as [Hw Hh Hc Hrows]. rewrite Hh. cbn [negb]. unfold getColCount. case_test; zbool; [by split|].
    split; (done || cbn; lia).
  - apply Forall_insert; [done|]. apply Z.mod_pos_bound. lia.
  - unfold zlen in *. by rewrite length_insert.
Qed.

Lemma run_op_ok ib b s op : represents ib b s -> op_ok op ->
  exists ib' b', run_op ib b op = Ok ((table_op total disk s op).1, (ib', b')) /\ represents ib' b' (table_op total disk s op).2.
Proof.
  intros Hrep Hop. destruct op as [|meta position id rands|thread_id bitmap_col]; [|by apply run_insert|].
  - pose proof Hrep as [Etot Edisk Hzs Ech [Hr Hrl] Hs]. cbn [run_op table_op]. unfold addCheckThread. rewrite Etot, Ech.
    case_test; zbool; [by eexists _, _|]. eexists _, _. split; [done|]. split; cbn; try done.
    pose proof (zlen_nonneg (s_checks s)). split; [|rewrite zlen_app; change (zlen [_]) with 1; lia].
    apply Forall_app. split; [done|]. repeat constructor; lia.
  - destruct Hop. destruct (run_update ib b s thread_id bitmap_col Hrep) as (ib' & E & H'); [done..|]. by exists ib', b.
Qed.

Lemma run_ops_ok ops : forall ib b s, represents ib b s -> Forall op_ok ops ->
  exists ib' b', run_ops ib b ops = Ok ((table_ops total disk s ops).1, (ib', b')) /\ represents ib' b' (table_ops total disk s ops).2.
Proof.
  induction ops as [|op ops IH]; intros ib b s Hrep Hall; cbn [run_ops table_ops]; [by exists ib, b|].
  apply Forall_cons in Hall as [Hop Hall]. destruct (run_op_ok ib b s op Hrep Hop) as (ib1 & b1 & -> & H1).
  destruct (table_op total disk s op) as [r s1]. cbn [mbind res_bind fst snd] in *.
  destruct (IH ib1 b1 s1 H1 Hall) as (ib2 & b2 & -> & H2). destruct (table_ops total disk s1 ops) as [rs s2].
  cbn [mbind res_bind fst snd] in *. by exists ib2, b2.
Qed.

(** What can be asked of the buffer when it stands for the table [s]. *)
Record shows (ib : IndexBuffer) (b : BitMap) (s : Table) : Prop := {
  sh_lists : forall i slot t key, zget (s_slots s) i = Ok slot -> t <> TOTAL_INDEX -> zlen key = key_bytes t ->
    exists m l found, zget (metas ib) i = Ok m /\ zget (skiplists m) (index_type_code t) = Ok l /\
      findByKey l key = Ok ((fun e => u32 e.2) <$> found) /\
      found ≡ₚ filter (fun e => same_key (key_bytes t) e.1 key = true) (records (s_flows slot) t);
  sh_filter : forall i slot flow position key, zget (s_slots s) i = Ok slot -> (flow, position) ∈ s_flows slot ->
    key ∈ flow_fkeys flow -> exists m, zget (metas ib) i = Ok m /\
      forall f, has_bitmap f = true -> k f = k (bloomFilterMeta m) -> reading_col f = writing_col (bloomFilterMeta m) ->
        query_key hash_str hash_u64 f b key = Ok true;
  sh_check : forall thread_id i slot, zget (s_checks s) thread_id = Ok i -> zget (s_slots s) i = Ok slot ->
    getCheckDishID ib thread_id = Ok (s_block slot) /\
    forall t, t <> TOTAL_INDEX -> checkIndexCount ib thread_id t = Ok (u64 (zlen (records (s_flows slot) t))) }.

Lemma fkey_entry meta key : key ∈ flow_fkeys meta -> exists e, (key, e) ∈ flow_entries meta.
Proof.
  intros Hk. apply list_elem_of_lookup in Hk as (i & Hi). unfold flow_entries.
  assert (Hlen : length (flow_fkeys meta) = length (flow_keys meta)) by (unfold flow_fkeys, flow_keys; repeat case_match; done).
  destruct (lookup_lt_is_Some_2 (flow_keys meta) i) as [e He]; [apply lookup_lt_Some in Hi; lia|].
  exists e. apply list_elem_of_lookup. exists i. apply lookup_zip_with_Some. by exists key, e.
Qed.

Lemma represents_shows ib b s : represents ib b s -> shows ib b s.
Proof.
  intros Hrep. pose proof (rp_size _ _ _ Hrep) as Hsz.
  assert (Hslot : forall i slot, zget (s_slots s) i = Ok slot -> exists m, zget (metas ib) i = Ok m /\ slot_holds b m slot).
  { intros i slot Es. destruct (represents_slot ib b s i Hrep) as (m & slot' & Em & Es' & Hh & _); [apply zget_range in Es; lia|].
    exists m. split; [done|]. congruence. }
  split.
  - intros i slot t key Es Ht' Hk. destruct (Hslot i slot Es) as (m & Em & Hh). destruct (sl_lists _ _ _ Hh) as [_ Hl].
    destruct (Hl t Ht') as (l & X & El & [Hi Hlen Hent _]). exists m, l. rewrite (idle_find l X key Hi) by congruence. eexists. split_and!; try done.
    by rewrite Hlen, Hent.
  - intros i slot flow position key Es Hin Hkey. destruct (Hslot i slot Es) as (m & Em & [_ _ _ [Hw Hh Hc Hr] Hk]). exists m. split; [done|].
    rewrite Forall_forall in Hk. destruct (Hk _ Hin) as [Hf Hk']. destruct (fkey_entry flow key Hkey) as (e & He).
    rewrite Forall_forall in Hk'. specialize (Hk' _ He). cbn [fst] in *.
    pose proof (flow_fkeys_wf flow Hf) as Hok. rewrite Forall_forall in Hok. destruct (Hok key Hkey).
    intros f Hf1 Hf2 Hf3. apply (key_in_query hash_str hash_u64 (bloomFilterMeta m)); (done || lia).
  - intros thread_id i slot Ei Es. destruct (Hslot i slot Es) as (m & Em & Hh). pose proof (zget_range _ _ _ Ei).
    unfold getCheckDishID, checkIndexCount, check_slot. rewrite (rp_checks _ _ _ Hrep).
    destruct (zlen (s_checks s) <=? thread_id) eqn:E; zbool; [lia|]. rewrite Ei. cbn [mbind res_bind]. rewrite Em. cbn [mbind res_bind].
    rewrite (sl_block _ _ _ Hh). split; [done|]. intros t Ht'. destruct (sl_lists _ _ _ Hh) as [_ Hl].
    destruct (Hl t Ht') as (l & X & -> & [_ _ _ Hn]). cbn [mbind res_bind]. by rewrite Hn.
Qed.

(** C24: the index buffer with skip lists is a table of flows.  Whatever
    sequence of calls is made on a new buffer, all end, with the answers of a
    table that keeps for each slot its disk block and the flows indexed since
    the slot was last taken over; the lists of a slot find, for every key,
    one value for each flow with it, the low 32 bits of the flow's position;
    the filter answers yes for all their keys, and the counts are theirs.
    The tower heights come from non-zero values of [rand]. *)
Theorem legacy_index_is_table b k heads ops :
  wf b -> total <= col_count b -> ROWS_NEEDED <= row_count b < 2 ^ 64 -> (forall i t, heads i t <> nullptr) ->
  Forall op_ok ops ->
  exists ib0 ib b', new_IndexBuffer true b total disk k heads = Ok ib0 /\
    run_ops ib0 b ops = Ok ((table_ops total disk (new_table total) ops).1, (ib, b')) /\
    shows ib b' (table_ops total disk (new_table total) ops).2.
Proof.
  intros Hb Hc Hr Hh Hops. destruct (new_represents b k heads Hb Hc Hr Hh) as (ib0 & E0 & Hrep0).
  destruct (run_ops_ok ops ib0 b _ Hrep0 Hops) as (ib & b' & E & Hrep). exists ib0, ib, b'. split_and!; try done.
  by apply represents_shows.
Qed.
End buffer.
End LegacyProofs.

(** * Two slots, a refused flow, and a slot that is taken over *)
Module DemoLegacy.
Import Legacy LegacyProofs.

(** An address that is neither null nor in use. *)
Definition demo_alloc (m : Mem) : Z := fresh ({[0]} ∪ dom m).

Lemma demo_alloc_fresh m : m !! demo_alloc m = None /\ demo_alloc m <> nullptr.
Proof.
  pose proof (is_fresh ({[0]} ∪ dom m)) as Hf. fold (demo_alloc m) in Hf. split.
  - apply not_elem_of_dom. set_solver.
  - intros E. apply Hf. rewrite E. set_solver.
Qed.

Definition demo_rands (t : IndexType) : Z := 2 ^ 30.
Definition demo_ops : list Op :=
  [OpCheckThread; OpInsert demo_meta 99 1 demo_rands; OpInsert demo_meta 5 3 demo_rands; OpUpdate 0 0;
   OpInsert demo_meta (2 ^ 32 + 7) 2 demo_rands].

Lemma legacy_index_is_table_witness : exists ib0 ib b m l,
  new_IndexBuffer true demo_bitmap 2 4 2 (fun _ _ => 5) = Ok ib0 /\
  run_ops demo_hash id demo_alloc ib0 demo_bitmap demo_ops = Ok ([0; 1; 0; 0; 1], (ib, b)) /\
  zget (metas ib) 0 = Ok m /\ zget (skiplists m) 2 = Ok l /\ findByKey l [80; 0] = Ok [7].
Proof.
  destruct (legacy_index_is_table demo_hash id demo_alloc demo_alloc_fresh 2 4 ltac:(lia) ltac:(lia) eq_refl
    demo_bitmap 2 (fun _ _ => 5) demo_ops demo_bitmap_wf) as (ib0 & ib & b & E0 & E & [Hl _ _]).
  - vm_compute. discriminate.
  - vm_compute. split; [discriminate|reflexivity].
  - discriminate.
  - repeat (apply Forall_cons; split); try apply Forall_nil; cbn [op_ok]; try done; try lia;
      (split; [split; vm_compute; repeat constructor; discriminate|]; split; [lia|intros t; vm_compute; split; reflexivity]).
  - destruct (Hl 0 (mkSlot 2 [(demo_meta, 2 ^ 32 + 7)]) SRCPORT [80; 0] eq_refl ltac:(discriminate) eq_refl)
      as (m & l & found & Em & El & Ef & Hp).
    assert (Er : filter (fun e => same_key 2 e.1 [80; 0] = true) (records [(demo_meta, 2 ^ 32 + 7)] SRCPORT) = [([80; 0], 2 ^ 32 + 7)])
      by (vm_compute; reflexivity).
    cbn [key_bytes s_flows] in Hp. rewrite Er in Hp. symmetry in Hp. apply Permutation_singleton_l in Hp. subst found.
    exists ib0, ib, b, m, l. split; [exact E0|]. split; [exact E|]. split; [exact Em|]. split; [exact El|exact Ef].
Defined.
End DemoLegacy.
