(* ===== verification/ZOrder.v ===== *)
(** * Z-order keys (dpdk_lib/zOrderTree.hpp, class ZOrderIPv4)

    [ZOrderIPv4] interleaves the bits of the two addresses and of the two
    ports of a flow into a 96-bit key of three words.  The operators are
    proved to be those of the 96-bit number, its groups of four bits what
    [getSuffix] and [prefixCompare] look at, and its even and odd bits the
    two coordinates of the flow. *)
From S2P Require Import Prelude Util.
From Stdlib Require Import ZArith Lia Bool.

(** ** Constants *)
Definition PREFIX_LEN : Z := 2.
Definition DIM : Z := 2.
Definition BOARD_NUM : Z := Z.shiftl 1 DIM.
Definition PREFIX_TOTAL_LEN : Z := PREFIX_LEN * PREFIX_LEN.
Definition BIT_COUNT : Z := Z.shiftl 1 PREFIX_TOTAL_LEN.
Definition PREFIX_MASK : Z := Z.shiftl 1 PREFIX_TOTAL_LEN - 1.

(** ** Keys *)
Record ZOrderIPv4 := mkZ { zlow : Z; zmid : Z; zhigh : Z }.

#[export] Instance ZOrderIPv4_eq_dec : EqDecision ZOrderIPv4.
Proof. solve_decision. Defined.

(** [interleaveBits(uint16_t)]: bit [i] goes to bit [2 * i]. *)
Definition interleaveBits16 (x : Z) : Z :=
  foldl (fun result i =>
    Z.lor result (u32 (Z.shiftl (Z.shiftr (Z.land x (Z.shiftl 1 i)) i) (2 * i))))
    0 (zseq 16).

(** [interleaveBits(uint32_t)]. *)
Definition interleaveBits32 (x : Z) : Z :=
  foldl (fun result i =>
    Z.lor result (u64 (Z.shiftl (Z.shiftr (Z.land x (Z.shiftl 1 i)) i) (2 * i))))
    0 (zseq 32).

Definition computeZOrder16 (x y : Z) : Z :=
  Z.lor (u32 (Z.shiftl (interleaveBits16 x) 1)) (interleaveBits16 y).

Definition computeZOrder32 (x y : Z) : Z :=
  Z.lor (u64 (Z.shiftl (interleaveBits32 x) 1)) (interleaveBits32 y).

(** [*(u_int32_t* )(s.c_str())]: four bytes of the string and its closing
    zero. *)
Definition load32 (s : list Z) : res Z := le_val <$> zread (s ++ [0]) 0 4.

(** The constructor from the metadata of an index. *)
Definition ZOrderIPv4_of (meta : FlowMetadata) : res ZOrderIPv4 :=
  let low := computeZOrder16 (sourcePort meta) (destinationPort meta) in
  s ← load32 (sourceAddress meta);
  d ← load32 (destinationAddress meta);
  let tmp := computeZOrder32 s d in
  Ok {| zlow := low; zmid := Z.land tmp 0xffffffff; zhigh := u32 (Z.shiftr tmp 32) |}.

(** [getSuffix]: four bits of the key. *)
Definition getSuffix (z : ZOrderIPv4) (id : Z) : Z :=
  if id <? 32 / PREFIX_TOTAL_LEN then
    Z.land (Z.shiftr (zlow z) (id * PREFIX_TOTAL_LEN)) PREFIX_MASK
  else if id <? 64 / PREFIX_TOTAL_LEN then
    Z.land (Z.shiftr (zmid z) ((id - 32 / PREFIX_TOTAL_LEN) * PREFIX_TOTAL_LEN)) PREFIX_MASK
  else if 96 / PREFIX_TOTAL_LEN <=? id then 0
  else Z.land (Z.shiftr (zhigh z) ((id - 64 / PREFIX_TOTAL_LEN) * PREFIX_TOTAL_LEN)) PREFIX_MASK.

(** [prefixCompare]: do two keys agree from the [id]-th group of four bits on? *)
Definition prefixCompare (z other : ZOrderIPv4) (id : Z) : bool :=
  if id <? 32 / PREFIX_TOTAL_LEN then
    let mask := u32 (Z.shiftl 1 (id * PREFIX_TOTAL_LEN)) in
    (zhigh z =? zhigh other) && (zmid z =? zmid other)
    && (Z.lxor (zlow z) (zlow other) <? mask)
  else if id <? 64 / PREFIX_TOTAL_LEN then
    let mask := u32 (Z.shiftl 1 ((id - 32 / PREFIX_TOTAL_LEN) * PREFIX_TOTAL_LEN)) in
    (zhigh z =? zhigh other) && (Z.lxor (zmid z) (zmid other) <? mask)
  else if 96 / PREFIX_TOTAL_LEN <=? id then true
  else
    let mask := u32 (Z.shiftl 1 ((id - 64 / PREFIX_TOTAL_LEN) * PREFIX_TOTAL_LEN)) in
    Z.lxor (zhigh z) (zhigh other) <? mask.

Definition zorder_lt (z other : ZOrderIPv4) : bool :=
  if zhigh z <? zhigh other then true
  else if zhigh other <? zhigh z then false
  else if zmid z <? zmid other then true
  else if zmid other <? zmid z then false
  else zlow z <? zlow other.

Definition zorder_gt (z other : ZOrderIPv4) : bool :=
  if zhigh other <? zhigh z then true
  else if zhigh z <? zhigh other then false
  else if zmid other <? zmid z then true
  else if zmid z <? zmid other then false
  else zlow other <? zlow z.

Definition zorder_eq (z other : ZOrderIPv4) : bool :=
  (zhigh z =? zhigh other) && (zmid z =? zmid other) && (zlow z =? zlow other).
Definition zorder_ne (z other : ZOrderIPv4) : bool := negb (zorder_eq z other).
Definition zorder_le (z other : ZOrderIPv4) : bool := negb (zorder_gt z other).
Definition zorder_ge (z other : ZOrderIPv4) : bool := negb (zorder_lt z other).


(** ** Keys as numbers of 96 bits *)
Definition zorder_wf (z : ZOrderIPv4) : Prop :=
  is_u 32 (zlow z) /\ is_u 32 (zmid z) /\ is_u 32 (zhigh z).

Definition zorder_num (z : ZOrderIPv4) : Z :=
  zlow z + 2 ^ 32 * (zmid z + 2 ^ 32 * zhigh z).

Lemma zorder_num_range z : zorder_wf z -> 0 <= zorder_num z < 2 ^ 96.
Proof. unfold zorder_wf, is_u, zorder_num. lia. Qed.

Lemma zorder_lt_num z o :
  zorder_wf z -> zorder_wf o -> zorder_lt z o = (zorder_num z <? zorder_num o).
Proof.
  unfold zorder_wf, is_u, zorder_num, zorder_lt. intros.
  repeat case_test; zbool; symmetry; first
    [apply Z.ltb_lt; lia | apply Z.ltb_ge; lia
    | apply eq_iff_eq_true; rewrite !Z.ltb_lt; lia].
Qed.

Lemma zorder_gt_lt z o : zorder_gt z o = zorder_lt o z.
Proof. done. Qed.

Lemma zorder_le_num z o :
  zorder_wf z -> zorder_wf o -> zorder_le z o = (zorder_num z <=? zorder_num o).
Proof.
  intros. unfold zorder_le. rewrite zorder_gt_lt, zorder_lt_num by done.
  by rewrite Z.leb_antisym.
Qed.

Lemma zorder_eq_num z o :
  zorder_wf z -> zorder_wf o -> zorder_eq z o = (zorder_num z =? zorder_num o).
Proof.
  unfold zorder_wf, is_u, zorder_num, zorder_eq. intros.
  destruct (Z.eqb_spec (zhigh z) (zhigh o)), (Z.eqb_spec (zmid z) (zmid o)),
    (Z.eqb_spec (zlow z) (zlow o)); symmetry; simpl; (apply Z.eqb_eq || apply Z.eqb_neq); lia.
Qed.

(** The digit at position [k] (base [2 ^ w]) of a number with a low part. *)
Lemma div_low_part a b m k :
  0 <= a < 2 ^ m -> 0 <= k <= m -> (a + 2 ^ m * b) / 2 ^ k = a / 2 ^ k + 2 ^ (m - k) * b.
Proof.
  intros. replace (2 ^ m) with (2 ^ k * 2 ^ (m - k)) by (rewrite <-Z.pow_add_r by lia; f_equal; lia).
  rewrite <-Z.mul_assoc, (Z.mul_comm (2 ^ k)), Z.div_add by lia. done.
Qed.

Lemma div_high_part a b m k :
  0 <= a < 2 ^ m -> 0 <= m <= k -> (a + 2 ^ m * b) / 2 ^ k = b / 2 ^ (k - m).
Proof.
  intros. replace (2 ^ k) with (2 ^ m * 2 ^ (k - m)) by (rewrite <-Z.pow_add_r by lia; f_equal; lia).
  rewrite <-Z.div_div by lia.
  rewrite (Z.mul_comm (2 ^ m) b), Z.div_add, (Z.div_small a) by lia. done.
Qed.

Lemma mask_digit a k : 0 <= k -> Z.land (Z.shiftr a k) PREFIX_MASK = a / 2 ^ k mod 16.
Proof.
  intros. change PREFIX_MASK with (Z.ones 4).
  by rewrite Z.land_ones, Z.shiftr_div_pow2 by lia.
Qed.

Lemma pow16 k : 0 <= k -> 16 ^ k = 2 ^ (4 * k).
Proof. intros. change 16 with (2 ^ 4). by rewrite <-Z.pow_mul_r by lia. Qed.

Lemma pow2_split16 e : 4 <= e -> 2 ^ e = 2 ^ (e - 4) * 16.
Proof. intros. change 16 with (2 ^ 4). rewrite <-Z.pow_add_r by lia. f_equal. lia. Qed.

Lemma low_digit a b m k :
  0 <= a < 2 ^ m -> 0 <= k -> k + 4 <= m ->
  (a + 2 ^ m * b) / 2 ^ k mod 16 = a / 2 ^ k mod 16.
Proof.
  intros. rewrite div_low_part by lia. rewrite (pow2_split16 (m - k)) by lia.
  replace (2 ^ (m - k - 4) * 16 * b) with (2 ^ (m - k - 4) * b * 16) by ring.
  by rewrite Z.mod_add by lia.
Qed.

Lemma getSuffix_num z id :
  zorder_wf z -> 0 <= id -> getSuffix z id = zorder_num z / 16 ^ id mod 16.
Proof.
  intros Hw Hid. pose proof (zorder_num_range z Hw). destruct Hw as (Hl & Hm & Hh).
  unfold is_u in *. unfold getSuffix.
  change (32 / PREFIX_TOTAL_LEN) with 8. change (64 / PREFIX_TOTAL_LEN) with 16.
  change (96 / PREFIX_TOTAL_LEN) with 24. change PREFIX_TOTAL_LEN with 4.
  rewrite pow16 by lia. repeat case_test; zbool; rewrite ?mask_digit by lia.
  - unfold zorder_num. rewrite low_digit by lia. do 3 f_equal. lia.
  - unfold zorder_num. rewrite div_high_part, low_digit by lia. do 3 f_equal. lia.
  - rewrite Z.div_small; [done|]. split; [lia|].
    apply Z.lt_le_trans with (2 ^ 96); [lia|]. apply Z.pow_le_mono_r; lia.
  - unfold zorder_num. rewrite !div_high_part by lia. do 3 f_equal. lia.
Qed.

Lemma getSuffix_range z id : 0 <= getSuffix z id < 16.
Proof.
  unfold getSuffix. change PREFIX_MASK with (Z.ones 4).
  repeat case_test; rewrite ?Z.land_ones by lia; try lia; apply Z.mod_pos_bound; lia.
Qed.

Lemma lxor_lt_pow a b k :
  0 <= a -> 0 <= b -> 0 <= k -> (Z.lxor a b <? 2 ^ k) = (a / 2 ^ k =? b / 2 ^ k).
Proof.
  intros Ha Hb Hk. apply eq_iff_eq_true. rewrite Z.ltb_lt, Z.eqb_eq, <-!Z.shiftr_div_pow2 by lia.
  assert (0 <= Z.lxor a b) by (apply Z.lxor_nonneg; lia). split; intros H0.
  - apply Z.lxor_eq. rewrite <-Z.shiftr_lxor, Z.shiftr_div_pow2 by lia. by apply Z.div_small.
  - assert (E : Z.lxor a b / 2 ^ k = 0).
    { rewrite <-Z.shiftr_div_pow2, Z.shiftr_lxor, H0 by lia. apply Z.lxor_nilpotent. }
    apply Z.div_small_iff in E; lia.
Qed.

Lemma two_part_eqb a b c d m :
  0 <= a < m -> 0 <= b < m -> (a + m * c =? b + m * d) = ((c =? d) && (a =? b)).
Proof.
  intros. apply eq_iff_eq_true. rewrite andb_true_iff, !Z.eqb_eq. split; [|intros [-> ->]; done].
  intros E. assert (c = d) by nia. subst. lia.
Qed.

Lemma prefixCompare_num z o id :
  zorder_wf z -> zorder_wf o -> 0 <= id ->
  prefixCompare z o id = (zorder_num z / 16 ^ id =? zorder_num o / 16 ^ id).
Proof.
  intros Hz Ho Hid. pose proof (zorder_num_range z Hz). pose proof (zorder_num_range o Ho).
  destruct Hz as (Hl & Hm & Hh), Ho as (Hl' & Hm' & Hh'). unfold is_u in *.
  unfold prefixCompare.
  change (32 / PREFIX_TOTAL_LEN) with 8. change (64 / PREFIX_TOTAL_LEN) with 16.
  change (96 / PREFIX_TOTAL_LEN) with 24. change PREFIX_TOTAL_LEN with 4.
  assert (Hmask : forall e, 0 <= e < 32 -> u32 (Z.shiftl 1 e) = 2 ^ e).
  { intros e He. rewrite Z.shiftl_1_l. apply u32_small. split; [lia|].
    apply Z.pow_lt_mono_r; lia. }
  assert (Hdiv : forall a e, 0 <= a < 2 ^ 32 -> 0 <= e <= 32 -> 0 <= a / 2 ^ e < 2 ^ (32 - e)).
  { intros a e Ha He. split; [apply Z.div_pos; lia|]. apply Z.div_lt_upper_bound; [lia|].
    rewrite <-Z.pow_add_r by lia. replace (e + (32 - e)) with 32 by lia. lia. }
  rewrite pow16 by lia. unfold zorder_num. repeat case_test; zbool.
  - rewrite Hmask, lxor_lt_pow, !div_low_part by lia.
    rewrite two_part_eqb by (replace (id * 4) with (4 * id) by lia; apply Hdiv; lia).
    rewrite two_part_eqb by lia. by rewrite (Z.mul_comm 4 id).
  - rewrite Hmask, lxor_lt_pow, (div_high_part (zlow z)), (div_high_part (zlow o)),
      !div_low_part by lia.
    rewrite two_part_eqb by (apply Hdiv; lia). f_equal.
    replace (4 * id - 32) with ((id - 8) * 4) by lia. done.
  - rewrite !Z.div_small; [done|..]; (split; [lia|]);
      apply Z.lt_le_trans with (2 ^ 96); try apply Z.pow_le_mono_r; lia.
  - rewrite Hmask, lxor_lt_pow, !div_high_part by lia.
    replace (4 * id - 32 - 32) with ((id - 16) * 4) by lia. done.
Qed.

(** ** Coordinates

    The even bits of a key are the one coordinate, the odd bits the other. *)
Fixpoint even_bits (k : nat) (n : Z) : Z :=
  match k with O => 0 | S k => n mod 2 + 2 * even_bits k (n / 4) end.

Definition ycoord (n : Z) : Z := even_bits 48 n.
Definition xcoord (n : Z) : Z := even_bits 48 (n / 2).

Lemma even_bits_testbit k n i :
  0 <= i -> Z.testbit (even_bits k n) i = (i <? Z.of_nat k) && Z.testbit n (2 * i).
Proof.
  revert n i. induction k as [|k IH]; intros n i Hi.
  { cbn [even_bits]. rewrite Z.bits_0. destruct (Z.ltb_spec i (Z.of_nat 0)); [lia|done]. }
  cbn [even_bits]. rewrite <-Z.bit0_mod. destruct (decide (i = 0)) as [->|].
  - rewrite Z.add_b2z_double_bit0. done.
  - replace i with (Z.succ (i - 1)) at 1 by lia.
    rewrite <-Z.div2_bits, Z.add_b2z_double_div2, IH by lia.
    f_equal; [apply eq_iff_eq_true; rewrite !Z.ltb_lt; lia|].
    change 4 with (2 ^ 2). rewrite <-Z.shiftr_div_pow2, Z.shiftr_spec by lia. f_equal. lia.
Qed.

Lemma even_bits_range k n : 0 <= even_bits k n < 2 ^ Z.of_nat k.
Proof.
  revert n. induction k as [|k IH]; intros n; [done|]. cbn [even_bits].
  specialize (IH (n / 4)). replace (Z.of_nat (S k)) with (1 + Z.of_nat k) by lia.
  rewrite Z.pow_add_r by lia. change (2 ^ 1) with 2.
  pose proof (Z.mod_pos_bound n 2 ltac:(lia)). lia.
Qed.

Lemma testbit_low_part a b m i :
  0 <= a < 2 ^ m -> 0 <= m -> 0 <= i ->
  Z.testbit (a + 2 ^ m * b) i = if i <? m then Z.testbit a i else Z.testbit b (i - m).
Proof.
  intros. case_test; zbool.
  - rewrite <-(Z.mod_pow2_bits_low (a + 2 ^ m * b) m) by lia.
    by rewrite (Z.mul_comm (2 ^ m)), Z.mod_add, Z.mod_small by lia.
  - replace i with ((i - m) + m) at 1 by lia.
    rewrite <-Z.div_pow2_bits by lia.
    by rewrite (Z.mul_comm (2 ^ m)), Z.div_add, Z.div_small, Z.add_0_l by lia.
Qed.

(** One turn of [interleaveBits] on words of [w] bits. *)
Lemma interleave_testbit (w n : nat) x j :
  (2 * n <= w)%nat -> 0 <= j ->
  Z.testbit (foldl (fun result i =>
      Z.lor result (wrap (Z.of_nat w) (Z.shiftl (Z.shiftr (Z.land x (Z.shiftl 1 i)) i) (2 * i))))
      0 (zseq (Z.of_nat n))) j
  = (j <? 2 * Z.of_nat n) && Z.even j && Z.testbit x (j / 2).
Proof.
  intros Hn Hj. induction n as [|n IH].
  { replace (j <? 2 * Z.of_nat 0) with false by (symmetry; apply Z.ltb_ge; lia).
    apply Z.bits_0. }
  replace (Z.of_nat (S n)) with (Z.of_nat n + 1) by lia.
  rewrite zseq_S, foldl_app by lia. cbn [foldl].
  rewrite Z.lor_spec, IH by lia. unfold wrap. set (m := Z.of_nat n) in *.
  destruct (decide (j < Z.of_nat w)).
  2:{ rewrite Z.mod_pow2_bits_high by lia. rewrite orb_false_r.
      destruct (Z.ltb_spec j (2 * m)), (Z.ltb_spec j (2 * (m + 1))); lia || done. }
  rewrite Z.mod_pow2_bits_low, Z.shiftl_spec by lia.
  destruct (Z.ltb_spec j (2 * m)).
  { rewrite (Z.testbit_neg_r _ (j - 2 * m)), orb_false_r by lia.
    destruct (Z.ltb_spec j (2 * (m + 1))); [done|lia]. }
  rewrite Z.shiftr_spec, Z.land_spec by lia. rewrite Z.shiftl_1_l, Z.pow2_bits_eqb by lia. simpl.
  destruct (decide (j = 2 * m)) as [->|].
  - replace (2 * m - 2 * m + m) with m by lia. rewrite Z.eqb_refl, Z.even_mul. simpl.
    replace (2 * m / 2) with m by (rewrite Z.mul_comm, Z.div_mul; lia).
    destruct (Z.ltb_spec (2 * m) (2 * (m + 1))); [|lia]. by rewrite andb_true_r.
  - replace (m =? j - 2 * m + m) with false by (symmetry; apply Z.eqb_neq; lia).
    rewrite andb_false_r. symmetry. apply andb_false_iff. left.
    apply andb_false_iff. destruct (decide (j = 2 * m + 1)) as [->|].
    + right. rewrite Z.even_add, Z.even_mul. done.
    + left. apply Z.ltb_ge. lia.
Qed.

Lemma interleaveBits16_testbit x j :
  0 <= j -> Z.testbit (interleaveBits16 x) j = (j <? 32) && Z.even j && Z.testbit x (j / 2).
Proof. intros. apply (interleave_testbit 32 16); lia. Qed.

Lemma interleaveBits32_testbit x j :
  0 <= j -> Z.testbit (interleaveBits32 x) j = (j <? 64) && Z.even j && Z.testbit x (j / 2).
Proof. intros. apply (interleave_testbit 64 32); lia. Qed.

(** What the constructor stores: the ports are the low 16 bits of the two
    coordinates, the addresses as little-endian words the other 32. *)
Lemma load32_ok s : 4 <= zlen s -> load32 s = Ok (le_val (take 4 s)).
Proof.
  intros. unfold load32. rewrite zread_Ok by (rewrite ?zlen_app; unfold zlen; simpl; unfold zlen in *; lia).
  cbn [fmap res_fmap]. f_equal. f_equal. unfold zslice. rewrite drop_0, take_app_le; [done|].
  unfold zlen in *. lia.
Qed.

Lemma bits_below w z : 0 <= w -> (forall i, w <= i -> Z.testbit z i = false) -> 0 <= z -> is_u w z.
Proof.
  intros Hw Hb Hz. split; [done|]. destruct (Z.eq_dec z 0) as [->|]; [apply Z.pow_pos_nonneg; lia|].
  apply Z.log2_lt_pow2; [lia|]. apply Z.nle_gt. intros Hle.
  pose proof (Hb _ Hle). rewrite Z.bit_log2 in H by lia. done.
Qed.

(** Both [computeZOrder] on their bits; [w] is the width of a word. *)
Lemma zorder_testbit w ix iy x y j :
  (forall j, 0 <= j -> Z.testbit ix j = (j <? w) && Z.even j && Z.testbit x (j / 2)) ->
  (forall j, 0 <= j -> Z.testbit iy j = (j <? w) && Z.even j && Z.testbit y (j / 2)) ->
  0 <= w -> 0 <= j ->
  Z.testbit (Z.lor (wrap w (Z.shiftl ix 1)) iy) j =
    (j <? w) && if Z.even j then Z.testbit y (j / 2) else Z.testbit x (j / 2).
Proof.
  intros Hx Hy Hw Hj. unfold wrap. rewrite Z.lor_spec, Hy by lia.
  destruct (Z.ltb_spec j w); [|by rewrite Z.mod_pow2_bits_high by lia].
  rewrite Z.mod_pow2_bits_low, Z.shiftl_spec by lia. simpl.
  destruct (Z.even j) eqn:Ej; simpl.
  - destruct (decide (j = 0)) as [->|]; [by rewrite (Z.testbit_neg_r ix) by lia|].
    rewrite Hx, Z.even_sub, Ej by lia. simpl. by rewrite andb_false_r.
  - assert (0 < j) by (destruct (decide (j = 0)) as [->|]; [done|lia]).
    rewrite Hx, Z.even_sub, Ej, orb_false_r by lia.
    replace (j - 1 <? w) with true by (symmetry; apply Z.ltb_lt; lia). simpl. f_equal.
    rewrite <-Z.negb_odd in Ej. apply negb_false_iff, Z.odd_spec in Ej as [k ->].
    Z.div_mod_to_equations. lia.
Qed.

Lemma computeZOrder16_testbit x y j :
  0 <= j -> Z.testbit (computeZOrder16 x y) j =
    (j <? 32) && if Z.even j then Z.testbit y (j / 2) else Z.testbit x (j / 2).
Proof. intros. apply zorder_testbit; try lia; apply interleaveBits16_testbit. Qed.

Lemma computeZOrder32_testbit x y j :
  0 <= j -> Z.testbit (computeZOrder32 x y) j =
    (j <? 64) && if Z.even j then Z.testbit y (j / 2) else Z.testbit x (j / 2).
Proof. intros. apply zorder_testbit; try lia; apply interleaveBits32_testbit. Qed.

Lemma interleave_nonneg f (l : list Z) a :
  0 <= a -> (forall i, 0 <= f i) -> 0 <= foldl (fun r i => Z.lor r (f i)) a l.
Proof.
  revert a. induction l as [|i l IH]; intros a Ha Hf; cbn [foldl]; [done|].
  apply IH; [|done]. apply Z.lor_nonneg. auto.
Qed.

Lemma computeZOrder16_range x y : is_u 32 (computeZOrder16 x y).
Proof.
  apply bits_below; [lia| |].
  - intros i Hi. rewrite computeZOrder16_testbit by lia.
    by destruct (Z.ltb_spec i 32); [lia|].
  - apply Z.lor_nonneg. split; [apply u32_range|].
    apply interleave_nonneg; [lia|]. intros. apply u32_range.
Qed.

Lemma computeZOrder32_range x y : is_u 64 (computeZOrder32 x y).
Proof.
  apply bits_below; [lia| |].
  - intros i Hi. rewrite computeZOrder32_testbit by lia.
    by destruct (Z.ltb_spec i 64); [lia|].
  - apply Z.lor_nonneg. split; [apply u64_range|].
    apply interleave_nonneg; [lia|]. intros. apply u64_range.
Qed.

(** A key made of an interleaved low word and two interleaved high words. *)
Lemma coord_parts (odd : bool) px py sx sy :
  let b := Z.b2z odd in
  let p := if odd then px else py in let s := if odd then sx else sy in
  is_u 16 p -> is_u 32 s ->
  even_bits 48 (Z.shiftr (computeZOrder16 px py + 2 ^ 32 * computeZOrder32 sx sy) b)
  = p + 2 ^ 16 * s.
Proof.
  intros b p s Hp Hs. assert (Hb : 0 <= b <= 1) by (subst b; destruct odd; simpl; lia).
  unfold is_u in *. apply Z.bits_inj'. intros i Hi.
  rewrite even_bits_testbit, Z.shiftr_spec by lia.
  rewrite (testbit_low_part p), testbit_low_part by (apply computeZOrder16_range || lia).
  assert (Hpar : forall k, (2 * k + b) / 2 = k /\ Z.even (2 * k + b) = negb odd).
  { intros k. subst b. destruct odd; simpl Z.b2z.
    - split; [Z.div_mod_to_equations; lia|]. by rewrite Z.even_add, Z.even_mul.
    - split; [Z.div_mod_to_equations; lia|]. by rewrite Z.even_add, Z.even_mul. }
  destruct (Z.ltb_spec i 16).
  - replace (2 * i + b <? 32) with true by (symmetry; apply Z.ltb_lt; lia).
    rewrite computeZOrder16_testbit by lia. destruct (Hpar i) as [-> ->].
    replace (i <? Z.of_nat 48) with true by (symmetry; apply Z.ltb_lt; lia).
    replace (2 * i + b <? 32) with true by (symmetry; apply Z.ltb_lt; lia).
    subst p. by destruct odd.
  - replace (2 * i + b <? 32) with false by (symmetry; apply Z.ltb_ge; lia).
    rewrite computeZOrder32_testbit by lia.
    replace (2 * i + b - 32) with (2 * (i - 16) + b) by lia.
    destruct (Hpar (i - 16)) as [-> ->].
    destruct (Z.ltb_spec i (Z.of_nat 48)).
    + replace (2 * (i - 16) + b <? 64) with true by (symmetry; apply Z.ltb_lt; lia).
      subst s. by destruct odd.
    + symmetry. apply testbit_above with 32; [done|lia].
Qed.

Lemma zorder_coordinates meta :
  is_u 16 (sourcePort meta) -> is_u 16 (destinationPort meta) ->
  4 <= zlen (sourceAddress meta) -> 4 <= zlen (destinationAddress meta) ->
  Forall (fun b => 0 <= b < 256) (sourceAddress meta) ->
  Forall (fun b => 0 <= b < 256) (destinationAddress meta) ->
  exists z, ZOrderIPv4_of meta = Ok z /\ zorder_wf z /\
    xcoord (zorder_num z) = sourcePort meta + 2 ^ 16 * le_val (take 4 (sourceAddress meta)) /\
    ycoord (zorder_num z)
      = destinationPort meta + 2 ^ 16 * le_val (take 4 (destinationAddress meta)).
Proof.
  intros Hsp Hdp Hs Hd Fs Fd. unfold ZOrderIPv4_of. rewrite !load32_ok by done.
  cbn [mbind res_bind]. eexists. split; [done|].
  assert (Ha : forall l, Forall (fun b => 0 <= b < 256) l -> 4 <= zlen l -> is_u 32 (le_val (take 4 l))).
  { intros l Hl Hn. pose proof (le_val_range _ (Forall_take _ _ _ Hl : Forall _ (take 4 l))) as Hr.
    replace (zlen (take 4 l)) with 4 in Hr; [done|]. unfold zlen in *. rewrite length_take. lia. }
  pose proof (Ha _ Fs Hs) as Hs32. pose proof (Ha _ Fd Hd) as Hd32.
  set (s := le_val (take 4 (sourceAddress meta))) in *.
  set (d := le_val (take 4 (destinationAddress meta))) in *.
  pose proof (computeZOrder16_range (sourcePort meta) (destinationPort meta)) as Hlow.
  pose proof (computeZOrder32_range s d) as Htmp. unfold is_u in Htmp.
  assert (Hmid : Z.land (computeZOrder32 s d) 0xffffffff = computeZOrder32 s d mod 2 ^ 32)
    by (change 0xffffffff with (Z.ones 32); by rewrite Z.land_ones by lia).
  assert (Hhigh : u32 (Z.shiftr (computeZOrder32 s d) 32) = computeZOrder32 s d / 2 ^ 32)
    by (rewrite Z.shiftr_div_pow2 by lia; apply u32_small; Z.div_mod_to_equations; lia).
  set (z := mkZ _ _ _).
  assert (Hn : zorder_num z = computeZOrder16 (sourcePort meta) (destinationPort meta)
                 + 2 ^ 32 * computeZOrder32 s d).
  { unfold zorder_num. subst z. cbn [zlow zmid zhigh]. rewrite Hmid, Hhigh.
    rewrite (Z.div_mod (computeZOrder32 s d) (2 ^ 32)) at 3 by lia. lia. }
  split; [|split].
  - subst z. unfold zorder_wf, is_u. cbn [zlow zmid zhigh]. rewrite Hmid, Hhigh.
    split; [done|]. Z.div_mod_to_equations. lia.
  - unfold xcoord. rewrite Hn. rewrite <-Z.div2_div, Z.div2_spec.
    apply (coord_parts true); auto.
  - unfold ycoord. rewrite Hn.
    rewrite <-(Z.shiftr_0_r (_ + _)). apply (coord_parts false); auto.
Qed.
