(* ===== verification/ZOrderTree.v ===== *)
(** * The Z-order tree (dpdk_lib/zOrderTree.hpp, class ZOrderTreeIPv4)

    A tree of 24 levels with 16 children per node over a sorted array of
    Z-order keys, built bottom up in one vector, which answers rectangle
    queries.  The theorems say exactly which entries a query returns, for
    every array of sorted keys, and what this means for points and
    rectangles. *)
From Stdlib Require Import ZArith Lia Bool.
From stdpp Require Import sorting.
From S2P Require Import Prelude Util ZOrder.

(** ** The tree *)
Record ZOrderIPv4Meta := mkZMeta { zorder : ZOrderIPv4; zvalue : Z }.

(** A node; [None] is the indeterminate prefix that the constructor leaves. *)
Record ZOrderTreeNode := mkNode { prefix : option Z; offsets : list Z }.

Definition new_ZOrderTreeNode : ZOrderTreeNode :=
  {| prefix := None; offsets := replicate (Z.to_nat BIT_COUNT) 0 |}.

Record ZOrderTreeIPv4 := mkTree {
  buffer_size : Z;
  max_level : Z;
  buffer : list ZOrderTreeNode;
  data : list ZOrderIPv4Meta;
  num : Z }.

Definition with_tree (t : ZOrderTreeIPv4) (size lvl : Z) (buf : list ZOrderTreeNode) :=
  {| buffer_size := size; max_level := lvl; buffer := buf; data := data t; num := num t |}.

(** The constructor leaves [max_level] indeterminate; [lvl] stands for it. *)
Definition new_ZOrderTreeIPv4 (lvl : Z) (d : list ZOrderIPv4Meta) (n : Z) : ZOrderTreeIPv4 :=
  {| buffer_size := 0; max_level := lvl; buffer := []; data := d; num := n |}.

(** The values of a [u_int32_t] counter that runs up to [n]; for a larger
    [n] the counter wraps around and the loop does not end. *)
Definition loop32 (n : Z) : res (list Z) :=
  if n <? 2 ^ 32 then Ok (zseq n) else Blocks.

Definition set_prefix (buf : list ZOrderTreeNode) (k p : Z) : res (list ZOrderTreeNode) :=
  node ← zget buf k; zset buf k {| prefix := Some p; offsets := offsets node |}.

Definition set_offset (buf : list ZOrderTreeNode) (k slot v : Z)
  : res (list ZOrderTreeNode) :=
  node ← zget buf k;
  offs ← zset (offsets node) slot (u32 v);
  zset buf k {| prefix := prefix node; offsets := offs |}.

(** The vector of nodes, the entries that stand for the nodes of this level,
    and their number [j]. *)
Record building := mkB { b_buffer : list ZOrderTreeNode; b_left : list Z; b_j : Z }.

(** A new node for entry [d] of the array, with [v] in its slot. *)
Definition open_node (st : building) (now_offset suffix slot v d : Z) : res building :=
  let j := u32 (b_j st + 1) in
  buf ← set_prefix (b_buffer st ++ [new_ZOrderTreeNode]) (now_offset + j - 1) suffix;
  buf ← set_offset buf (now_offset + j - 1) slot v;
  Ok {| b_buffer := buf; b_left := b_left st ++ [d]; b_j := j |}.

(** One turn of the loop of [buildTree]. *)
Definition build_leaf (d : list ZOrderIPv4Meta) (st : building) (i : Z) : res building :=
  m ← zget d i;
  let suffix := getSuffix (zorder m) 1 in
  let tail := getSuffix (zorder m) 0 in
  if b_j st =? 0 then open_node st 0 suffix tail (i + 1) i
  else
    r ← zget (b_left st) (b_j st - 1);
    m' ← zget d r;
    if negb (prefixCompare (zorder m) (zorder m') 1)
    then open_node st 0 suffix tail (i + 1) i
    else
      buf ← set_offset (b_buffer st) (b_j st - 1) tail (i + 1);
      Ok {| b_buffer := buf; b_left := b_left st; b_j := b_j st |}.

(** [this->buffer[k].prefix]: reading it before it is set is undefined. *)
Definition prefix_at (buf : list ZOrderTreeNode) (k : Z) : res Z :=
  node ← zget buf k;
  match prefix node with Some p => Ok p | None => Undef end.

(** One turn of the loop of [buildTreeLevel]. *)
Definition build_inner (d : list ZOrderIPv4Meta) (left : list Z)
    (begin level now_offset : Z) (st : building) (i : Z) : res building :=
  l ← zget left i;
  m ← zget d l;
  let suffix := getSuffix (zorder m) level in
  slot ← prefix_at (b_buffer st) (begin + i);
  if b_j st =? 0 then open_node st now_offset suffix slot (begin + i + 1) l
  else
    r ← zget (b_left st) (b_j st - 1);
    m' ← zget d r;
    if negb (prefixCompare (zorder m) (zorder m') level)
    then open_node st now_offset suffix slot (begin + i + 1) l
    else
      buf ← set_offset (b_buffer st) (now_offset + b_j st - 1) slot (begin + i + 1);
      Ok {| b_buffer := buf; b_left := b_left st; b_j := b_j st |}.

Fixpoint loop_res {S} (f : S -> Z -> res S) (st : S) (l : list Z) : res S :=
  match l with
  | [] => Ok st
  | i :: l => st ← f st i; loop_res f st l
  end.

(** [buildTreeLevel]; [fuel] counts the calls that recur. *)
Fixpoint buildTreeLevel (fuel : nat) (t : ZOrderTreeIPv4) (left : list Z)
    (begin level : Z) : res ZOrderTreeIPv4 :=
  if 96 / PREFIX_TOTAL_LEN <? level then Ok t
  else if zlen left =? 0 then Ok t
  else
    let now_offset := zlen (buffer t) in
    idx ← loop32 (zlen left);
    st ← loop_res (build_inner (data t) left begin level now_offset)
           {| b_buffer := buffer t; b_left := []; b_j := 0 |} idx;
    let t := with_tree t (zlen (b_buffer st)) level (b_buffer st) in
    match fuel with
    | O => Blocks
    | S fuel => buildTreeLevel fuel t (b_left st) now_offset (u8 (level + 1))
    end.

Definition buildTree (t : ZOrderTreeIPv4) : res ZOrderTreeIPv4 :=
  idx ← loop32 (num t);
  st ← loop_res (build_leaf (data t))
         {| b_buffer := buffer t; b_left := []; b_j := 0 |} idx;
  let t := with_tree t (zlen (b_buffer st)) 1 (b_buffer st) in
  t ← buildTreeLevel 24 t (b_left st) 0 2;
  Ok (with_tree t (zlen (buffer t)) (max_level t) (buffer t)).

Definition getPrefix (level value : Z) : Z :=
  Z.land (Z.shiftr value (level * PREFIX_LEN)) 3.

(** [decodeZOrder]: even bits to [y], odd bits to [x]. *)
Definition decodeZOrder (z : Z) : Z * Z :=
  foldl (fun xy i =>
    (u8 (Z.lor (fst xy) (Z.shiftr (Z.land z (Z.shiftl 1 (2 * i + 1))) (i + 1))),
     u8 (Z.lor (snd xy) (Z.shiftr (Z.land z (Z.shiftl 1 (2 * i))) i))))
    (0, 0) (zseq 4).

(** [x_min, y_min, x_max, y_max]. *)
Record board := mkBoard { x_min : Z; y_min : Z; x_max : Z; y_max : Z }.

Definition isInRectangle (x y : Z) (b : board) : bool :=
  (x_min b <=? x) && (x <=? x_max b) && (y_min b <=? y) && (y <=? y_max b).

Definition board_prefix (level : Z) (b : board) : board :=
  {| x_min := getPrefix level (x_min b); y_min := getPrefix level (y_min b);
     x_max := getPrefix level (x_max b); y_max := getPrefix level (y_max b) |}.

(** The loop of the private [search] over the slots of a node; [down] is what
    happens at a slot that is in use and inside the rectangle. *)
Fixpoint search_slots (down : Z -> res (list Z)) (node : ZOrderTreeNode) (pre : board)
    (slots : list Z) : res (list Z) :=
  match slots with
  | [] => Ok []
  | i :: slots =>
      o ← zget (offsets node) i;
      let '(x, y) := decodeZOrder i in
      ret ← (if o =? 0 then Ok []
             else if negb (isInRectangle x y pre) then Ok []
             else down (u32 (o - 1)));
      rest ← search_slots down node pre slots;
      Ok (ret ++ rest)
  end.

(** The private [search] at level [level]. *)
Fixpoint search_node (buf : list ZOrderTreeNode) (level : nat) (b : board)
    (node_offset : Z) : res (list Z) :=
  node ← zget buf node_offset;
  search_slots
    (fun off => match level with O => Ok [off] | S l => search_node buf l b off end)
    node (board_prefix (Z.of_nat level) b) (zseq BIT_COUNT).

(** The public [search]; [max_level - 1] is a [u_int8_t]. *)
Definition search (t : ZOrderTreeIPv4) (b : board) : res (list Z) :=
  if buffer_size t =? 0 then Ok []
  else search_node (buffer t) (Z.to_nat (u8 (max_level t - 1))) b (buffer_size t - 1).

Definition getBufferSize (t : ZOrderTreeIPv4) : Z := buffer_size t.
Definition getMaxLevel (t : ZOrderTreeIPv4) : Z := max_level t.

(** The bytes of a packed node: the prefix and sixteen words.  The prefix of
    a node in the tree is always set. *)
Definition node_bytes (n : ZOrderTreeNode) : list Z :=
  le_bytes 1 (default 0 (prefix n)) ++ concat (le_bytes 4 <$> offsets n).

Definition outputToChar (t : ZOrderTreeIPv4) : list Z := concat (node_bytes <$> buffer t).

(** ** Digits of keys *)
Lemma getPrefix_bits l v :
  0 <= l ->
  getPrefix l v = Z.b2z (Z.testbit v (2 * l)) + 2 * Z.b2z (Z.testbit v (2 * l + 1)).
Proof.
  intros. unfold getPrefix, PREFIX_LEN. change 3 with (Z.ones 2).
  rewrite Z.land_ones, (Z.mul_comm l) by lia.
  replace (Z.testbit v (2 * l)) with (Z.testbit (Z.shiftr v (2 * l)) 0)
    by (rewrite Z.shiftr_spec by lia; f_equal; lia).
  replace (Z.testbit v (2 * l + 1)) with (Z.testbit (Z.shiftr v (2 * l)) 1)
    by (rewrite Z.shiftr_spec by lia; f_equal; lia).
  generalize (Z.shiftr v (2 * l)). intros a.
  rewrite (Z.testbit_spec' a 0), (Z.testbit_spec' a 1) by lia.
  change (2 ^ 0) with 1. change (2 ^ 1) with 2. change (2 ^ 2) with 4. rewrite Z.div_1_r.
  Z.div_mod_to_equations. lia.
Qed.

Lemma getPrefix_range l v : 0 <= getPrefix l v < 4.
Proof.
  unfold getPrefix. change 3 with (Z.ones 2). rewrite Z.land_ones by lia.
  apply Z.mod_pos_bound. lia.
Qed.

Lemma decodeZOrder_bits d :
  0 <= d < 16 ->
  decodeZOrder d = (Z.b2z (Z.testbit d 1) + 2 * Z.b2z (Z.testbit d 3),
                    Z.b2z (Z.testbit d 0) + 2 * Z.b2z (Z.testbit d 2)).
Proof.
  intros H. apply elem_of_zseq, list_elem_of_In in H. revert d H.
  assert (E : forallb (fun d => bool_decide (decodeZOrder d =
    (Z.b2z (Z.testbit d 1) + 2 * Z.b2z (Z.testbit d 3),
     Z.b2z (Z.testbit d 0) + 2 * Z.b2z (Z.testbit d 2)))) (zseq 16) = true) by (by vm_compute).
  rewrite List.forallb_forall in E. intros d Hd. by apply (bool_decide_eq_true_1 _), E.
Qed.

(** The slot of a key at level [l] holds the digits of its coordinates. *)
Lemma decodeZOrder_digit n l :
  0 <= n -> 0 <= l < 24 ->
  decodeZOrder (n / 16 ^ l mod 16) = (getPrefix l (xcoord n), getPrefix l (ycoord n)).
Proof.
  intros Hn Hl. rewrite decodeZOrder_bits by (apply Z.mod_pos_bound; lia).
  assert (E : forall i, 0 <= i < 4 -> Z.testbit (n / 16 ^ l mod 16) i = Z.testbit n (4 * l + i)).
  { intros i Hi. change 16 with (2 ^ 4) at 2. rewrite Z.mod_pow2_bits_low by lia.
    rewrite pow16, <-Z.shiftr_div_pow2, Z.shiftr_spec by lia. f_equal. lia. }
  rewrite !E, !getPrefix_bits by lia. unfold xcoord, ycoord.
  rewrite !even_bits_testbit by lia.
  change (n / 2) with (n / 2 ^ 1). rewrite <-Z.shiftr_div_pow2, !Z.shiftr_spec by lia.
  replace (2 * l <? Z.of_nat 48) with true by (symmetry; apply Z.ltb_lt; lia).
  replace (2 * l + 1 <? Z.of_nat 48) with true by (symmetry; apply Z.ltb_lt; lia).
  replace (2 * (2 * l) + 1) with (4 * l + 1) by lia.
  replace (2 * (2 * l + 1) + 1) with (4 * l + 3) by lia.
  replace (2 * (2 * l)) with (4 * l + 0) by lia.
  by replace (2 * (2 * l + 1)) with (4 * l + 2) by lia.
Qed.


#[local] Opaque decodeZOrder.

(** ** What a query is to return *)

(** The key of entry [i] as a number. *)
Definition key (d : list ZOrderIPv4Meta) (i : Z) : Z :=
  match d !! Z.to_nat i with Some m => zorder_num (zorder m) | None => 0 end.

(** Entry [i] is the last one with its key. *)
Definition last_of_key (d : list ZOrderIPv4Meta) (i : Z) : bool :=
  (i + 1 =? zlen d) || negb (key d (i + 1) =? key d i).

(** Level [l] of the rectangle test: the digits of the coordinates at that
    level between the digits of the bounds. *)
Definition digit_in (b : board) (k : Z) (l : nat) : bool :=
  let l := Z.of_nat l in
  isInRectangle (getPrefix l (xcoord k)) (getPrefix l (ycoord k)) (board_prefix l b).

(** The test on the [l] lowest levels. *)
Fixpoint digits_in (l : nat) (b : board) (k : Z) : bool :=
  match l with O => true | S l => digit_in b k l && digits_in l b k end.

(** The keys of the array in the order of the code's operator. *)
Definition sorted_keys (d : list ZOrderIPv4Meta) : Prop :=
  StronglySorted (fun a b => zorder_le (zorder a) (zorder b) = true) d.

Section tree.
Context (d : list ZOrderIPv4Meta).
Hypothesis Hwf : Forall (fun m => zorder_wf (zorder m)) d.
Hypothesis Hsorted : sorted_keys d.
Local Abbreviation cnt := (zlen d).

Lemma data_at i :
  0 <= i < cnt -> exists m, zget d i = Ok m /\ zorder_wf (zorder m) /\
    zorder_num (zorder m) = key d i.
Proof using Hwf.
  intros Hi. destruct (zget_lt d i Hi) as [m Hm]. exists m. split; [done|].
  apply zget_Ok in Hm as [_ Hm]. split.
  - rewrite Forall_forall in Hwf. apply Hwf. by eapply list_elem_of_lookup_2.
  - unfold key. by rewrite Hm.
Qed.

Lemma key_range i : 0 <= key d i < 2 ^ 96.
Proof using Hwf.
  unfold key. destruct (d !! Z.to_nat i) eqn:E; [|lia].
  apply zorder_num_range. rewrite Forall_forall in Hwf. apply Hwf.
  by eapply list_elem_of_lookup_2.
Qed.

Lemma key_mono i j : 0 <= i <= j -> j < cnt -> key d i <= key d j.
Proof using Hwf Hsorted.
  intros Hij Hj. destruct (decide (i = j)) as [->|]; [lia|].
  destruct (data_at i) as (a & Ha & Hwa & Ea); [lia|].
  destruct (data_at j) as (b & Hb & Hwb & Eb); [lia|].
  rewrite <-Ea, <-Eb. apply Z.leb_le. rewrite <-zorder_le_num by done.
  apply zget_Ok in Ha as [_ Ha], Hb as [_ Hb].
  unfold sorted_keys in Hsorted. rewrite <-(take_drop (Z.to_nat j) d) in Hsorted.
  eapply (StronglySorted_app_1_elem_of _ _ _ a b Hsorted).
  - apply list_elem_of_lookup. exists (Z.to_nat i). rewrite lookup_take_lt by lia. done.
  - apply list_elem_of_lookup. exists 0%nat. rewrite lookup_drop, Nat.add_0_r. done.
Qed.

(** The group of an entry at a level: its key without [l] digits. *)
Definition rep (l : nat) (i : Z) : Z := key d i / 16 ^ Z.of_nat l.

Lemma rep_S l i : rep (S l) i = rep l i / 16.
Proof.
  unfold rep. replace (Z.of_nat (S l)) with (Z.of_nat l + 1) by lia.
  rewrite Z.pow_add_r, Z.pow_1_r, Z.div_div by lia. done.
Qed.

Lemma rep_range l i : 0 <= rep l i.
Proof using Hwf. pose proof (key_range i). apply Z.div_pos; lia. Qed.

Lemma rep_mono l i j : 0 <= i <= j -> j < cnt -> rep l i <= rep l j.
Proof using Hwf Hsorted. intros. apply Z.div_le_mono; [lia|]. by apply key_mono. Qed.

Lemma rep_top i : rep 24 i = 0.
Proof using Hwf. pose proof (key_range i). apply Z.div_small. done. Qed.

Lemma last_of_key_spec i :
  0 <= i < cnt -> last_of_key d i = true <-> forall j, i < j < cnt -> key d j <> key d i.
Proof using Hwf Hsorted.
  intros Hi. unfold last_of_key. rewrite orb_true_iff, negb_true_iff, Z.eqb_eq, Z.eqb_neq.
  split.
  - intros [?|Hne] j Hj; [lia|].
    pose proof (key_mono i (i + 1)). pose proof (key_mono (i + 1) j). lia.
  - intros H. destruct (decide (i + 1 = cnt)); [by left|right]. apply H. lia.
Qed.

(** The node at [off] (an entry for [l = 0]) stands for the group [P]. *)
Fixpoint repr (l : nat) (buf : list ZOrderTreeNode) (off P : Z) : Prop :=
  match l with
  | O => 0 <= off < cnt /\ key d off = P /\ last_of_key d off = true
  | S l => exists node, zget buf off = Ok node /\ forall s, 0 <= s < 16 ->
      exists o, zget (offsets node) s = Ok o /\
        (o = 0 /\ (forall i, 0 <= i < cnt -> rep l i <> 16 * P + s)
         \/ 0 < o < 2 ^ 32 /\ repr l buf (o - 1) (16 * P + s))
  end.

Lemma repr_app l buf buf' off P : repr l buf off P -> repr l (buf ++ buf') off P.
Proof.
  revert off P. induction l as [|l IH]; intros off P; cbn [repr]; [done|].
  intros (node & Hn & Hs). exists node. split; [by apply zget_app|].
  intros s Hr. destruct (Hs s Hr) as (o & Ho & [?|[? ?]]); eauto 6.
Qed.

(** *** The search *)
Definition selected (l : nat) (b : board) (P : Z) : list Z :=
  filter (fun i => rep l i = P /\ last_of_key d i = true /\ digits_in l b (key d i) = true)
    (zseq cnt).

Lemma selected_split (g : Z -> Z) (X : Z -> Prop) `{!forall i, Decision (X i)} a c L :
  StronglySorted (fun i j => g i <= g j) L -> a <= c ->
  filter (fun i => a <= g i < c + 1 /\ X i) L
  = filter (fun i => a <= g i < c /\ X i) L ++ filter (fun i => g i = c /\ X i) L.
Proof.
  intros HL Hac. induction HL as [|i L HL IH Hi]; [done|]. rewrite !filter_cons.
  destruct (decide (g i < c)).
  - rewrite (decide_False (P := g i = c /\ X i)) by lia. rewrite IH.
    repeat case_decide; [done|naive_solver lia..|done].
  - assert (E : filter (fun i => a <= g i < c /\ X i) L = []).
    { apply filter_none. intros x Hx. rewrite Forall_forall in Hi. specialize (Hi _ Hx). lia. }
    rewrite E in *. rewrite (decide_False (P := a <= g i < c /\ X i)) by lia.
    rewrite IH. repeat case_decide; [done|naive_solver lia..|done].
Qed.

Lemma selected_slots (g : Z -> Z) (X : Z -> Prop) `{!forall i, Decision (X i)} P (k : nat) L :
  StronglySorted (fun i j => g i <= g j) L ->
  filter (fun i => 16 * P <= g i < 16 * P + Z.of_nat k /\ X i) L
  = concat ((fun s => filter (fun i => g i = 16 * P + s /\ X i) L) <$> zseq (Z.of_nat k)).
Proof.
  intros HL. induction k as [|k IH].
  - apply filter_none. intros. lia.
  - replace (Z.of_nat (S k)) with (Z.of_nat k + 1) by lia.
    rewrite zseq_S, fmap_app, concat_app, <-IH by lia. simpl. rewrite app_nil_r.
    rewrite Z.add_assoc. by apply selected_split; [|lia].
Qed.

Lemma zseq_sorted (g : Z -> Z) m :
  (forall i j, 0 <= i <= j -> j < m -> g i <= g j) ->
  StronglySorted (fun i j => g i <= g j) (zseq m).
Proof.
  destruct (decide (0 <= m)) as [Hm|]; [|unfold zseq; rewrite Z2Nat.nonpos by lia; constructor].
  pattern m. apply natlike_ind; [constructor| |done].
  intros k Hk IH Hg. rewrite <-Z.add_1_r, zseq_S by done.
  apply StronglySorted_app_2.
  - intros x y Hx%elem_of_zseq ->%list_elem_of_singleton. apply Hg; lia.
  - apply IH. intros. apply Hg; lia.
  - repeat constructor.
Qed.

(** Slot by slot. *)
Lemma search_slots_ok down node pre (R : Z -> list Z) slots :
  (forall i, i ∈ slots -> exists o, zget (offsets node) i = Ok o /\
     (if (o =? 0) || negb (isInRectangle (fst (decodeZOrder i)) (snd (decodeZOrder i)) pre)
      then R i = [] else down (u32 (o - 1)) = Ok (R i))) ->
  search_slots down node pre slots = Ok (concat (R <$> slots)).
Proof.
  induction slots as [|i slots IH]; intros H; [done|]. cbn [search_slots].
  destruct (H i) as (o & -> & Ho); [by left|]. cbn [mbind res_bind].
  destruct (decodeZOrder i) as [x y]. simpl in Ho. rewrite IH by (intros; apply H; by right).
  destruct (o =? 0); [by rewrite fmap_cons; simpl; rewrite Ho|].
  destruct (isInRectangle x y pre); simpl in *; by rewrite Ho.
Qed.

(** The groups of sixteen below a group, in order, restricted by a test. *)
Lemma selected_S l b P :
  selected (S l) b P
  = concat ((fun s => filter (fun i => rep l i = 16 * P + s /\ last_of_key d i = true /\
              digits_in (S l) b (key d i) = true) (zseq cnt)) <$> zseq BIT_COUNT).
Proof using Hwf Hsorted.
  change BIT_COUNT with (Z.of_nat 16).
  rewrite <-(selected_slots (rep l) (fun i => last_of_key d i = true /\
              digits_in (S l) b (key d i) = true))
    by (apply zseq_sorted; intros; by apply rep_mono).
  apply list_filter_iff. intros i. rewrite rep_S.
  assert (rep l i / 16 = P <-> 16 * P <= rep l i < 16 * P + Z.of_nat 16)
    by (Z.div_mod_to_equations; lia). tauto.
Qed.

Lemma digit_of_slot l P s b i :
  (l < 24)%nat -> 0 <= s < 16 -> rep l i = 16 * P + s ->
  digit_in b (key d i) l
  = isInRectangle (fst (decodeZOrder s)) (snd (decodeZOrder s)) (board_prefix (Z.of_nat l) b).
Proof using Hwf.
  intros Hl Hs E. assert (Es : s = key d i / 16 ^ Z.of_nat l mod 16).
  { fold (rep l i). rewrite E, Z.add_comm, Z.mul_comm, Z.mod_add, Z.mod_small by lia. done. }
  pose proof (key_range i). rewrite Es, decodeZOrder_digit by lia. done.
Qed.

Lemma selected_leaf buf b P off : repr 0 buf off P -> selected 0 b P = [off].
Proof using Hwf Hsorted.
  intros (Hoff & HP & Hlast). unfold selected.
  assert (Hsplit : zseq cnt = zseq (off + 1) ++ (Z.add (off + 1) <$> zseq (cnt - (off + 1)))).
  { unfold zseq. rewrite <-list_fmap_compose. apply list_eq. intros k.
    destruct (decide (Z.of_nat k < off + 1)).
    - rewrite lookup_app_l by (rewrite length_fmap, length_seq; lia).
      rewrite !list_lookup_fmap, !lookup_seq_lt by lia. done.
    - rewrite lookup_app_r by (rewrite length_fmap, length_seq; lia).
      rewrite !list_lookup_fmap, length_fmap, length_seq.
      destruct (decide (Z.of_nat k < cnt)).
      + rewrite !lookup_seq_lt by lia. simpl. f_equal. lia.
      + rewrite !lookup_seq_ge by lia. done. }
  assert (Hkey : forall i, rep 0 i = key d i) by (intros; apply Z.div_1_r).
  pose proof (proj1 (last_of_key_spec off Hoff) Hlast) as Hl.
  rewrite Hsplit, zseq_S, !filter_app by lia.
  rewrite (filter_none _ (zseq off)), (filter_none _ (_ <$> _)).
  - rewrite app_nil_r, filter_cons_True; [done|]. rewrite Hkey. done.
  - intros x (y & -> & Hy%elem_of_zseq)%list_elem_of_fmap [Hx _]. rewrite Hkey in Hx.
    apply (Hl (off + 1 + y)); [lia|congruence].
  - intros x Hx%elem_of_zseq (Hk & Hlx & _). rewrite Hkey in Hk.
    apply (proj1 (last_of_key_spec x ltac:(lia)) Hlx off); [lia|congruence].
Qed.

(** What the search does at a slot: at level 0 the slot holds an entry. *)
Definition visit (l : nat) (buf : list ZOrderTreeNode) (b : board) (off : Z) : res (list Z) :=
  match l with O => Ok [off] | S l => search_node buf l b off end.

Lemma visit_repr l buf off P b :
  (l <= 24)%nat -> repr l buf off P -> visit l buf b off = Ok (selected l b P).
Proof using Hwf Hsorted.
  revert off P. induction l as [|l IH]; intros off P Hl Hrep.
  { cbn [visit]. by rewrite (selected_leaf buf b P off). }
  destruct Hrep as (node & Hn & Hs). cbn [visit].
  replace (search_node buf l b off) with
    (node ← zget buf off; search_slots (visit l buf b) node
       (board_prefix (Z.of_nat l) b) (zseq BIT_COUNT)) by (by destruct l).
  rewrite Hn. cbn [mbind res_bind]. rewrite selected_S. apply search_slots_ok.
  intros s Hin%elem_of_zseq. change BIT_COUNT with 16 in Hin.
  destruct (Hs s Hin) as (o & Ho & Hcase). exists o. split; [done|].
  destruct Hcase as [[-> Hnone]|[Hr Hrep]].
  { apply filter_none. intros i Hi%elem_of_zseq [E _]. by apply (Hnone i). }
  replace (o =? 0) with false by (symmetry; apply Z.eqb_neq; lia). simpl.
  destruct (isInRectangle _ _ _) eqn:Hin'; simpl.
  - rewrite u32_small, (IH _ _ ltac:(lia) Hrep) by lia. f_equal. apply list_filter_iff.
    intros i. cbn [digits_in].
    assert (rep l i = 16 * P + s -> digit_in b (key d i) l = true)
      by (intros E; rewrite (digit_of_slot l P s); done || lia).
    rewrite andb_true_iff. tauto.
  - apply filter_none. intros i _ (E & _ & Hd). cbn [digits_in] in Hd.
    by rewrite (digit_of_slot l P s), Hin' in Hd by (done || lia).
Qed.
End tree.

(** ** Building *)

(** The three branches that both loops share: entry [e] with its slot and the
    value for it. *)
Definition place (d : list ZOrderIPv4Meta) (level now_offset : Z) (st : building)
    (m : ZOrderIPv4Meta) (slot v e : Z) : res building :=
  if b_j st =? 0 then open_node st now_offset (getSuffix (zorder m) level) slot v e
  else
    r ← zget (b_left st) (b_j st - 1);
    m' ← zget d r;
    if negb (prefixCompare (zorder m) (zorder m') level)
    then open_node st now_offset (getSuffix (zorder m) level) slot v e
    else
      buf ← set_offset (b_buffer st) (now_offset + b_j st - 1) slot v;
      Ok {| b_buffer := buf; b_left := b_left st; b_j := b_j st |}.

Lemma build_leaf_place d st i m :
  zget d i = Ok m ->
  build_leaf d st i = place d 1 0 st m (getSuffix (zorder m) 0) (i + 1) i.
Proof. intros Hm. unfold build_leaf. rewrite Hm. done. Qed.

Lemma build_inner_place d left begin level now st i l m slot :
  zget left i = Ok l -> zget d l = Ok m -> prefix_at (b_buffer st) (begin + i) = Ok slot ->
  build_inner d left begin level now st i = place d level now st m slot (begin + i + 1) l.
Proof. intros Hl Hm Hs. unfold build_inner. rewrite Hl. cbn [mbind res_bind]. by rewrite Hm; cbn [mbind res_bind]; rewrite Hs. Qed.

Lemma set_prefix_snoc buf node p :
  set_prefix (buf ++ [node]) (zlen buf) p = Ok (buf ++ [mkNode (Some p) (offsets node)]).
Proof. unfold set_prefix. rewrite zget_snoc. cbn [mbind res_bind]. by rewrite zset_snoc. Qed.

Lemma set_offset_snoc buf node slot v offs :
  zset (offsets node) slot (u32 v) = Ok offs ->
  set_offset (buf ++ [node]) (zlen buf) slot v = Ok (buf ++ [mkNode (prefix node) offs]).
Proof.
  intros E. unfold set_offset. rewrite zget_snoc. cbn [mbind res_bind].
  rewrite E. cbn [mbind res_bind]. by rewrite zset_snoc.
Qed.

Lemma loop_res_inv {T} (f : T -> Z -> res T) (I : Z -> T -> Prop) st0 (m : nat) :
  I 0 st0 ->
  (forall i st, 0 <= i < Z.of_nat m -> I i st -> exists st', f st i = Ok st' /\ I (i + 1) st') ->
  exists st, loop_res f st0 (zseq (Z.of_nat m)) = Ok st /\ I (Z.of_nat m) st.
Proof.
  intros H0 Hf.
  assert (Happ : forall l k st, loop_res f st (l ++ k) = (st' ← loop_res f st l; loop_res f st' k)).
  { induction l as [|x l IH]; intros k st; [done|]. simpl.
    destruct (f st x); cbn [mbind res_bind]; [apply IH|done..]. }
  induction m as [|m IH]; [by exists st0|].
  destruct IH as (st & Hst & HI); [intros; apply Hf; [lia|done]|].
  destruct (Hf (Z.of_nat m) st) as (st' & Hst' & HI'); [lia|done|].
  exists st'. replace (Z.of_nat (S m)) with (Z.of_nat m + 1) by lia.
  rewrite zseq_S, Happ, Hst by lia. cbn [mbind res_bind loop_res]. by rewrite Hst'.
Qed.

(** The value that the last of the first [m] items of group [Q] left in the
    slot of [Q]; 0 if there was none. *)
Definition last_value (f g : Z -> Z) (m Q : Z) : Z :=
  foldl (fun acc i => if f i =? Q then g i else acc) 0 (zseq m).

Lemma last_value_S f g m Q :
  0 <= m -> last_value f g (m + 1) Q = if f m =? Q then g m else last_value f g m Q.
Proof. intros. unfold last_value. rewrite zseq_S, foldl_app by done. done. Qed.

Lemma last_value_spec f g (m : nat) Q :
  (last_value f g (Z.of_nat m) Q = 0 /\ forall i, 0 <= i < Z.of_nat m -> f i <> Q) \/
  exists i, 0 <= i < Z.of_nat m /\ f i = Q /\ last_value f g (Z.of_nat m) Q = g i /\
    forall j, i < j < Z.of_nat m -> f j <> Q.
Proof.
  induction m as [|m IH]; [left; split; [done|lia]|].
  replace (Z.of_nat (S m)) with (Z.of_nat m + 1) by lia. rewrite last_value_S by lia.
  destruct (Z.eqb_spec (f (Z.of_nat m)) Q) as [E|E].
  - right. exists (Z.of_nat m). repeat split; [lia..|done|lia].
  - destruct IH as [[-> Hno]|(i & Hi & Hf & Hv & Hno)].
    + left. split; [done|]. intros i Hi. destruct (decide (i = Z.of_nat m)) as [->|]; [done|].
      apply Hno. lia.
    + right. exists i. repeat split; [lia..|done|done|]. intros j Hj.
      destruct (decide (j = Z.of_nat m)) as [->|]; [done|]. apply Hno. lia.
Qed.

Section level.
Context (d : list ZOrderIPv4Meta).
Hypothesis Hwf : Forall (fun m => zorder_wf (zorder m)) d.
Hypothesis Hsorted : sorted_keys d.
Local Abbreviation cnt := (zlen d).
Hypothesis Hsize : 24 * cnt < 2 ^ 32.
(** The items of the level below: [e i] is the entry that stands for item
    [i], and [g i] what its slot is to hold; there are [M] of them. *)
Context (l : nat) (pre : list ZOrderTreeNode) (e g : Z -> Z) (M : Z).
Hypothesis Hl : (l < 24)%nat.
Hypothesis He : forall i, 0 <= i < M -> 0 <= e i < cnt.
Hypothesis Hmono : forall i j, 0 <= i <= j -> j < M -> e i <= e j.
Hypothesis Hg : forall i, 0 <= i < M -> 0 < g i < 2 ^ 32.
Hypothesis HM : M <= cnt.
Local Abbreviation f i := (rep d l (e i)).

(** A node and the entry that stands for it, after [m] items. *)
Definition node_for (m : Z) (node : ZOrderTreeNode) (r : Z) : Prop :=
  prefix node = Some (rep d (S l) r mod 16) /\ zlen (offsets node) = 16 /\
  forall s, 0 <= s < 16 ->
    zget (offsets node) s = Ok (last_value (fun i => f i) g m (16 * rep d (S l) r + s)).

(** After [m] items: the new nodes behind [pre] stand for the groups of the
    items seen, in order, the last one for the group of the last item. *)
Definition placed (m : Z) (st : building) : Prop :=
  exists nodes, b_buffer st = pre ++ nodes /\ b_j st = zlen (b_left st) /\
    zlen (b_left st) <= m /\
    Forall2 (node_for m) nodes (b_left st) /\
    StronglySorted (fun a b => rep d (S l) a < rep d (S l) b) (b_left st) /\
    Forall (fun r => 0 <= r < cnt) (b_left st) /\
    (forall i, 0 <= i < m -> exists r, r ∈ b_left st /\ rep d (S l) r = rep d (S l) (e i)) /\
    match last (b_left st) with
    | Some r => 0 < m /\ rep d (S l) r = rep d (S l) (e (m - 1))
    | None => m = 0
    end.

Lemma item_group i P s : 0 <= s < 16 -> f i = 16 * P + s -> rep d (S l) (e i) = P.
Proof. intros Hs E. rewrite rep_S, E. Z.div_mod_to_equations. lia. Qed.

(** Nodes of other groups are not touched by item [m]. *)
Lemma node_for_other m node r :
  0 <= m -> rep d (S l) r <> rep d (S l) (e m) -> node_for m node r -> node_for (m + 1) node r.
Proof.
  intros Hm Hne (Hp & Hlen & Hs). split; [done|]. split; [done|]. intros s Hr.
  rewrite Hs, last_value_S by done. destruct (Z.eqb_spec (f m) (16 * rep d (S l) r + s)) as [E|]; [|done].
  by apply item_group in E.
Qed.

Lemma nodes_other m nodes left :
  0 <= m -> (forall r, r ∈ left -> rep d (S l) r <> rep d (S l) (e m)) ->
  Forall2 (node_for m) nodes left -> Forall2 (node_for (m + 1)) nodes left.
Proof.
  intros Hm Hne HF. induction HF as [|node r nodes left Hn HF IH]; [constructor|].
  constructor; [apply node_for_other; [done| |done]; apply Hne; by left|].
  apply IH. intros r' Hr'. apply Hne. by right.
Qed.

(** The slot of item [m] in the node of its group. *)
Lemma slot_update m offs P :
  0 <= m < M -> rep d (S l) (e m) = P -> zlen offs = 16 ->
  (forall s, 0 <= s < 16 -> zget offs s = Ok (last_value (fun i => f i) g m (16 * P + s))) ->
  exists offs', zset offs (f m mod 16) (u32 (g m)) = Ok offs' /\ zlen offs' = 16 /\
    forall s, 0 <= s < 16 -> zget offs' s = Ok (last_value (fun i => f i) g (m + 1) (16 * P + s)).
Proof.
  intros Hm HP Hlen Hs. pose proof (Z.mod_pos_bound (f m) 16 ltac:(lia)) as Hr.
  assert (Ef : f m = 16 * P + f m mod 16).
  { rewrite <-HP, rep_S. Z.div_mod_to_equations. lia. }
  exists (<[Z.to_nat (f m mod 16) := u32 (g m)]> offs).
  rewrite zset_Ok by (rewrite Hlen; done). split; [done|]. split; [by rewrite zlen_insert|].
  intros s Hs'. rewrite last_value_S by lia. rewrite u32_small by (specialize (Hg m); lia).
  destruct (decide (s = f m mod 16)) as [->|Hne].
  - rewrite zget_insert_eq by (rewrite Hlen; done). by rewrite <-Ef, Z.eqb_refl.
  - rewrite zget_insert_ne, Hs by lia.
    destruct (Z.eqb_spec (f m) (16 * P + s)); [lia|done].
Qed.

Lemma fresh_node : zlen (offsets new_ZOrderTreeNode) = 16 /\
  forall s, 0 <= s < 16 -> zget (offsets new_ZOrderTreeNode) s = Ok 0.
Proof. split; [done|]. intros s Hs. by apply (zget_replicate 16 0). Qed.

(** All items so far belong to groups before the one of item [m]. *)
Lemma earlier_groups m i :
  0 <= m < M -> 0 <= i <= m -> rep d (S l) (e i) <= rep d (S l) (e m).
Proof.
  intros Hm Hi. apply rep_mono; [done..| |apply He; lia].
  split; [apply He; lia|]. apply Hmono; lia.
Qed.

(** A group that is not the last one starts behind all others. *)
Lemma later_group st m :
  0 <= m < M -> placed m st ->
  (forall r, last (b_left st) = Some r -> rep d (S l) r <> rep d (S l) (e m)) ->
  forall r, r ∈ b_left st -> rep d (S l) r < rep d (S l) (e m).
Proof.
  intros Hm (nodes & _ & _ & _ & _ & HSS & _ & _ & Hlast) Hne r Hr.
  destruct (last (b_left st)) as [r0|] eqn:El.
  2:{ apply last_None in El. rewrite El in Hr. by apply not_elem_of_nil in Hr. }
  destruct Hlast as [Hm0 Hr0]. specialize (Hne r0 eq_refl).
  pose proof (earlier_groups m (m - 1) Hm ltac:(lia)).
  apply last_Some in El as [k Ek]. rewrite Ek in HSS, Hr.
  apply elem_of_app in Hr as [Hr| ->%list_elem_of_singleton]; [|lia].
  pose proof (StronglySorted_app_1_elem_of _ _ _ r r0 HSS Hr ltac:(by left)). simpl in *. lia.
Qed.

Lemma unseen_group m P :
  0 <= m -> (forall i, 0 <= i < m -> rep d (S l) (e i) <> P) ->
  forall s, 0 <= s < 16 -> last_value (fun i => f i) g m (16 * P + s) = 0.
Proof.
  intros Hm Hno s Hs. replace m with (Z.of_nat (Z.to_nat m)) by lia.
  destruct (last_value_spec (fun i => f i) g (Z.to_nat m) (16 * P + s))
    as [[E _]|(i & Hi & E & _)]; [done|exfalso].
  apply item_group in E; [|done]. by apply (Hno i); [lia|].
Qed.

Lemma open_placed st m mm :
  0 <= m < M -> zget d (e m) = Ok mm -> placed m st ->
  (forall r, last (b_left st) = Some r -> rep d (S l) r <> rep d (S l) (e m)) ->
  exists st', open_node st (zlen pre) (getSuffix (zorder mm) (Z.of_nat (S l)))
                (f m mod 16) (g m) (e m) = Ok st' /\ placed (m + 1) st'.
Proof.
  intros Hm Hmm Hst Hne. pose proof (later_group st m Hm Hst Hne) as Hlt.
  destruct Hst as (nodes & Hbuf & Hj & Hjm & HF & HSS & Hin & Hcov & Hlast).
  destruct (data_at d Hwf (e m)) as (mm' & Hmm' & Hzw & Hnum); [by apply He|].
  rewrite Hmm in Hmm'. injection Hmm' as <-.
  assert (Hnew : forall i, 0 <= i < m -> rep d (S l) (e i) <> rep d (S l) (e m)).
  { intros i Hi. destruct (Hcov i Hi) as (r & Hr & Er). specialize (Hlt r Hr). lia. }
  destruct fresh_node as [Hlen0 Hget0].
  destruct (slot_update m (offsets new_ZOrderTreeNode) _ Hm eq_refl Hlen0)
    as (offs & Hset & Hlen & Hget).
  { intros s Hs. rewrite Hget0 by done. by rewrite unseen_group by (done || lia). }
  assert (Hzj : zlen nodes = zlen (b_left st)) by (unfold zlen; by rewrite (Forall2_length _ _ _ HF)).
  pose proof (zlen_nonneg (b_left st)).
  unfold open_node. rewrite Hbuf, Hj, u32_small by lia.
  replace (zlen pre + (zlen (b_left st) + 1) - 1) with (zlen (pre ++ nodes))
    by (rewrite zlen_app; lia).
  rewrite set_prefix_snoc. cbn [mbind res_bind].
  rewrite (set_offset_snoc _ (mkNode (Some _) (offsets new_ZOrderTreeNode)) _ _ _ Hset).
  cbn [mbind res_bind prefix]. eexists. split; [done|].
  exists (nodes ++ [mkNode (Some (getSuffix (zorder mm) (Z.of_nat (S l)))) offs]).
  cbn [b_buffer b_left b_j]. rewrite zlen_app, last_snoc. change (zlen [e m]) with 1.
  split; [by rewrite app_assoc|]. split; [done|]. split; [lia|]. split; [|split; [|split; [|split]]].
  - apply Forall2_app.
    + apply nodes_other; [lia| |done]. intros r Hr. specialize (Hlt r Hr). lia.
    + constructor; [|constructor]. split; [|done]. cbn [prefix].
      by rewrite getSuffix_num, Hnum by (done || lia).
  - apply StronglySorted_app_2; [|done|repeat constructor].
    intros r x Hr ->%list_elem_of_singleton. by apply Hlt.
  - apply Forall_app. split; [done|]. constructor; [by apply He|constructor].
  - intros i Hi. destruct (decide (i = m)) as [->|].
    + exists (e m). split; [|done]. apply elem_of_app. right. by left.
    + destruct (Hcov i) as (r & Hr & Er); [lia|]. exists r. split; [|done].
      apply elem_of_app. by left.
  - replace (m + 1 - 1) with m by lia. split; [lia|done].
Qed.

Lemma fill_placed st m r :
  0 <= m < M -> placed m st -> last (b_left st) = Some r ->
  rep d (S l) r = rep d (S l) (e m) ->
  exists buf, set_offset (b_buffer st) (zlen pre + b_j st - 1) (f m mod 16) (g m) = Ok buf /\
    placed (m + 1) {| b_buffer := buf; b_left := b_left st; b_j := b_j st |}.
Proof.
  intros Hm (nodes & Hbuf & Hj & Hjm & HF & HSS & Hin & Hcov & Hlast) El Er.
  pose proof El as El'. apply last_Some in El as [k Ek]. rewrite Ek in HF.
  apply Forall2_app_inv_r in HF as (nodes0 & nodes1 & HF0 & HF1 & ->).
  inversion HF1 as [|node r0 ? ? Hnode Hnil]; subst. inversion Hnil; subst. clear Hnil HF1.
  destruct Hnode as (Hp & Hlen & Hs).
  destruct (slot_update m (offsets node) (rep d (S l) r) Hm (eq_sym Er) Hlen Hs)
    as (offs & Hset & Hlen' & Hget).
  assert (Hzj : zlen nodes0 = zlen k) by (unfold zlen; by rewrite (Forall2_length _ _ _ HF0)).
  assert (Hz : zlen pre + b_j st - 1 = zlen (pre ++ nodes0))
    by (rewrite Hj, Ek, !zlen_app; change (zlen [r]) with 1; lia).
  rewrite Hz, Hbuf, app_assoc, (set_offset_snoc _ _ _ _ _ Hset). eexists. split; [done|].
  exists (nodes0 ++ [mkNode (prefix node) offs]). cbn [b_buffer b_left b_j].
  rewrite El'. split; [by rewrite app_assoc|]. split; [done|].
  split; [lia|]. split; [|split; [done|split; [done|split]]].
  - rewrite Ek. apply Forall2_app; [|constructor; [by split|constructor]].
    apply nodes_other; [lia| |done]. intros x Hx. rewrite Ek in HSS.
    pose proof (StronglySorted_app_1_elem_of _ _ _ x r HSS Hx ltac:(by left)). simpl in *. lia.
  - intros i Hi. destruct (decide (i = m)) as [->|]; [|apply Hcov; lia].
    exists r. split; [|done]. rewrite Ek. apply elem_of_app. right. by left.
  - replace (m + 1 - 1) with m by lia. split; [lia|done].
Qed.

Lemma placed_nil : placed 0 {| b_buffer := pre; b_left := []; b_j := 0 |}.
Proof.
  exists []. rewrite app_nil_r. cbn [b_buffer b_left b_j]. split; [done|]. split; [done|].
  split; [done|]. split; [constructor|]. split; [constructor|]. split; [constructor|].
  split; [lia|done].
Qed.

(** One turn of either loop. *)
Lemma place_placed st m mm :
  0 <= m < M -> zget d (e m) = Ok mm -> placed m st ->
  exists st', place d (Z.of_nat (S l)) (zlen pre) st mm (f m mod 16) (g m) (e m) = Ok st' /\
    placed (m + 1) st'.
Proof.
  intros Hm Hmm Hst. destruct (data_at d Hwf (e m)) as (mm' & Hmm' & Hzw & Hnum); [by apply He|].
  rewrite Hmm in Hmm'. injection Hmm' as <-.
  pose proof Hst as (nodes & _ & Hj & _ & _ & _ & Hin & _ & Hlast). unfold place.
  destruct (last (b_left st)) as [r|] eqn:El.
  2:{ pose proof El as E0%last_None. assert (Hz : b_j st = 0) by (by rewrite Hj, E0).
      rewrite Hz. cbn [Z.eqb]. apply open_placed; [done..|].
      intros r. by rewrite El. }
  pose proof El as [k Ek]%last_Some.
  assert (Hz : b_j st = zlen k + 1) by (by rewrite Hj, Ek, zlen_app).
  pose proof (zlen_nonneg k).
  replace (b_j st =? 0) with false by (symmetry; apply Z.eqb_neq; lia).
  assert (Hr : zget (b_left st) (b_j st - 1) = Ok r).
  { rewrite Hz, Ek. replace (zlen k + 1 - 1) with (zlen k) by lia. apply zget_snoc. }
  rewrite Hr. cbn [mbind res_bind].
  destruct (data_at d Hwf r) as (mr & Hmr & Hzr & Hnr).
  { rewrite Forall_forall in Hin. apply Hin. rewrite Ek. apply elem_of_app. right. by left. }
  rewrite Hmr. cbn [mbind res_bind]. rewrite prefixCompare_num, Hnum, Hnr by (done || lia).
  fold (rep d (S l) (e m)) (rep d (S l) r).
  destruct (Z.eqb_spec (rep d (S l) (e m)) (rep d (S l) r)) as [E|E]; cbn [negb].
  - destruct (fill_placed st m r Hm Hst El (eq_sym E)) as (buf & Hbuf & Hp).
    rewrite Hbuf. cbn [mbind res_bind]. eauto.
  - apply open_placed; [done..|]. intros r'. rewrite El. intros [= <-]. congruence.
Qed.
End level.

Section whole.
Context (d : list ZOrderIPv4Meta).
Hypothesis Hwf : Forall (fun m => zorder_wf (zorder m)) d.
Hypothesis Hsorted : sorted_keys d.
Local Abbreviation cnt := (zlen d).
Hypothesis Hsize : 24 * cnt < 2 ^ 32.

(** The nodes of level [l] are those from [base] on, one per group, and
    each stands for its group. *)
Definition level_ok (l : nat) (buf : list ZOrderTreeNode) (base : Z) (left : list Z) : Prop :=
  zlen buf = base + zlen left /\ 0 <= base /\ zlen left <= cnt /\ zlen buf <= Z.of_nat l * cnt /\
  StronglySorted (fun a b => rep d l a < rep d l b) left /\
  Forall (fun r => 0 <= r < cnt) left /\
  (forall i, 0 <= i < cnt -> exists r, r ∈ left /\ rep d l r = rep d l i) /\
  forall k r, zget left k = Ok r ->
    repr d l buf (base + k) (rep d l r) /\ prefix_at buf (base + k) = Ok (rep d l r mod 16).

Lemma prefix_at_app buf buf' k p : prefix_at buf k = Ok p -> prefix_at (buf ++ buf') k = Ok p.
Proof.
  unfold prefix_at. intros H. apply bind_Ok_iff in H as (node & Hn & Hp).
  by rewrite (zget_app _ _ _ _ Hn).
Qed.

(** A level all of whose items are placed. *)
Lemma level_done l pre e g st :
  let f i := rep d l (e i) in
  (l < 24)%nat -> zlen pre <= Z.of_nat l * cnt ->
  forall M : nat, Z.of_nat M <= cnt ->
  (forall i, 0 <= i < Z.of_nat M -> 0 < g i < 2 ^ 32) ->
  (forall i, 0 <= i < Z.of_nat M -> (forall j, i < j < Z.of_nat M -> f j <> f i) ->
     repr d l pre (g i - 1) (f i)) ->
  (forall i, 0 <= i < cnt -> exists k, 0 <= k < Z.of_nat M /\ rep d l (e k) = rep d l i) ->
  placed d l pre e g (Z.of_nat M) st ->
  level_ok (S l) (b_buffer st) (zlen pre) (b_left st).
Proof.
  intros f Hl Hpre M HM Hg Hrepr Hcover (nodes & Hbuf & Hj & Hjm & HF & HSS & Hin & Hcov & _).
  assert (Hzj : zlen nodes = zlen (b_left st)) by (unfold zlen; by rewrite (Forall2_length _ _ _ HF)).
  unfold level_ok. rewrite Hbuf, zlen_app. pose proof (zlen_nonneg pre).
  split; [lia|]. split; [lia|]. split; [lia|]. split; [lia|]. split; [done|]. split; [done|].
  split.
  - intros i Hi. destruct (Hcover i Hi) as (k & Hk & Ek). destruct (Hcov k Hk) as (r & Hr & Er).
    exists r. split; [done|]. by rewrite Er, !rep_S, Ek.
  - intros k r Hk. pose proof Hk as [Hk0 Hk1]%zget_Ok.
    destruct (Forall2_lookup_r _ _ _ _ _ HF Hk1) as (node & Hnode & Hp & Hlen & Hs).
    assert (Hnd : zget (pre ++ nodes) (zlen pre + k) = Ok node).
    { apply zget_Ok. split; [lia|]. unfold zlen in *. rewrite lookup_app_r by lia.
      rewrite <-Hnode. f_equal. lia. }
    split; [|unfold prefix_at; by rewrite Hnd; cbn [mbind res_bind]; rewrite Hp].
    exists node. split; [done|]. intros s Hr. rewrite Hs by done. eexists. split; [done|].
    destruct (last_value_spec f g M (16 * rep d (S l) r + s)) as [[E Hno]|(i & Hi & E & Ev & Hno)].
    + left. split; [exact E|]. intros i Hi Ei. destruct (Hcover i Hi) as (k' & Hk' & Ek').
      apply (Hno k' Hk'). unfold f. congruence.
    + right. fold f. rewrite Ev. split; [by apply Hg|]. apply repr_app. rewrite <-E.
      apply Hrepr; [done|]. intros j Hj'. rewrite E. by apply Hno.
Qed.

Lemma leaves_ok :
  exists st, loop_res (build_leaf d) {| b_buffer := []; b_left := []; b_j := 0 |} (zseq cnt) = Ok st /\
    level_ok 1 (b_buffer st) 0 (b_left st).
Proof.
  pose proof (zlen_nonneg d).
  assert (Hg : forall i, 0 <= i < cnt -> 0 < i + 1 < 2 ^ 32) by lia.
  destruct (loop_res_inv (build_leaf d) (placed d 0 [] (fun i => i) (fun i => i + 1))
              {| b_buffer := []; b_left := []; b_j := 0 |} (length d)) as (st & Hst & Hp).
  - apply placed_nil. lia.
  - intros i st Hi Hst. destruct (data_at d Hwf i) as (m & Hm & Hzw & Hnum); [done|].
    rewrite (build_leaf_place _ _ _ _ Hm), getSuffix_num, Hnum by (done || lia).
    apply place_placed with (l := 0%nat) (pre := []) (e := fun i => i) (g := fun i => i + 1) (M := cnt);
      auto with lia.
  - exists st. split; [done|]. apply (level_done 0 [] (fun i => i) (fun i => i + 1) st) with (M := length d);
      [lia|done|reflexivity|done| |eauto|done].
    intros i Hi Hno. replace (i + 1 - 1) with i by lia. cbn [repr].
    assert (Hkey : forall i, rep d 0 i = key d i) by (intros; apply Z.div_1_r).
    split; [done|]. split; [by rewrite Hkey|]. apply last_of_key_spec; [done..|].
    intros j Hj. specialize (Hno j Hj). cbn in Hno. by rewrite !Hkey in Hno.
Qed.

(** The items of the next level: the nodes of this one. *)
Definition rep_entry (left : list Z) (i : Z) : Z := default 0 (left !! Z.to_nat i).

Lemma rep_entry_zget left i : 0 <= i < zlen left -> zget left i = Ok (rep_entry left i).
Proof.
  intros Hi. destruct (zget_lt left i Hi) as [r Hr]. rewrite Hr. f_equal.
  apply zget_Ok in Hr as [_ Hr]. unfold rep_entry. by rewrite Hr.
Qed.

Lemma rep_entry_strict l buf base left i j :
  level_ok l buf base left -> 0 <= i < j -> j < zlen left ->
  rep d l (rep_entry left i) < rep d l (rep_entry left j).
Proof.
  intros (_ & _ & _ & _ & HSS & _) Hi Hj.
  pose proof (rep_entry_zget left i ltac:(lia)) as [_ Ei]%zget_Ok.
  pose proof (rep_entry_zget left j ltac:(lia)) as [_ Ej]%zget_Ok.
  rewrite <-(take_drop (Z.to_nat j) left) in HSS.
  apply (StronglySorted_app_1_elem_of _ _ _ _ _ HSS).
  - apply list_elem_of_lookup. exists (Z.to_nat i). rewrite lookup_take_lt by lia. done.
  - apply list_elem_of_lookup. exists 0%nat. rewrite lookup_drop, Nat.add_0_r. done.
Qed.

Lemma rep_entry_range l buf base left i :
  level_ok l buf base left -> 0 <= i < zlen left -> 0 <= rep_entry left i < cnt.
Proof.
  intros (_ & _ & _ & _ & _ & Hin & _) Hi.
  pose proof (rep_entry_zget left i Hi) as [_ Ei]%zget_Ok.
  rewrite Forall_forall in Hin. apply Hin. by eapply list_elem_of_lookup_2.
Qed.

Lemma rep_entry_mono l buf base left i j :
  level_ok l buf base left -> 0 <= i <= j -> j < zlen left ->
  rep_entry left i <= rep_entry left j.
Proof.
  intros Hok Hi Hj. destruct (decide (i = j)) as [->|]; [lia|].
  pose proof (rep_entry_strict _ _ _ _ i j Hok ltac:(lia) Hj).
  pose proof (rep_entry_range _ _ _ _ i Hok ltac:(lia)).
  pose proof (rep_entry_range _ _ _ _ j Hok ltac:(lia)).
  destruct (decide (rep_entry left i <= rep_entry left j)); [done|].
  pose proof (rep_mono d Hwf Hsorted l (rep_entry left j) (rep_entry left i)). lia.
Qed.

Lemma level_step l buf base left :
  (0 < l < 24)%nat -> level_ok l buf base left ->
  exists st, loop_res (build_inner d left base (Z.of_nat (S l)) (zlen buf))
               {| b_buffer := buf; b_left := []; b_j := 0 |} (zseq (zlen left)) = Ok st /\
    level_ok (S l) (b_buffer st) (zlen buf) (b_left st).
Proof.
  intros Hl Hok. pose proof Hok as (Hlen & Hbase & Hcnt & Htot & _ & _ & Hcov & Hnodes).
  assert (Hg : forall i, 0 <= i < zlen left -> 0 < base + i + 1 < 2 ^ 32) by nia.
  destruct (loop_res_inv (build_inner d left base (Z.of_nat (S l)) (zlen buf))
              (placed d l buf (rep_entry left) (fun i => base + i + 1))
              {| b_buffer := buf; b_left := []; b_j := 0 |} (length left)) as (st & Hst & Hp).
  - apply placed_nil. lia.
  - intros i st Hi Hst.
    pose proof (rep_entry_range _ _ _ _ i Hok Hi) as Hr.
    destruct (data_at d Hwf (rep_entry left i) Hr) as (m & Hm & _ & _).
    rewrite (build_inner_place _ _ _ _ _ _ _ _ m (rep d l (rep_entry left i) mod 16)
               (rep_entry_zget _ _ Hi) Hm).
    + eapply place_placed with (l := l) (pre := buf) (e := rep_entry left)
        (g := fun i => base + i + 1) (M := zlen left);
        eauto using rep_entry_range, rep_entry_mono; lia.
    + destruct Hst as (nodes & -> & _). apply prefix_at_app.
      by apply Hnodes, rep_entry_zget.
  - exists st. split; [done|].
    apply (level_done l buf (rep_entry left) (fun i => base + i + 1) st) with (M := length left);
      [lia|done|exact Hcnt|done| | |done].
    + intros i Hi _. replace (base + i + 1 - 1) with (base + i) by lia.
      by apply Hnodes, rep_entry_zget.
    + intros i Hi. destruct (Hcov i Hi) as (r & Hr & Er).
      apply list_elem_of_lookup in Hr as [k Hk]. exists (Z.of_nat k).
      pose proof (lookup_lt_Some _ _ _ Hk). split; [lia|].
      unfold rep_entry. by rewrite Nat2Z.id, Hk.
Qed.

Lemma buildTreeLevel_ok fuel l t left base :
  0 < cnt -> data t = d -> level_ok l (buffer t) base left -> max_level t = Z.of_nat l ->
  (1 <= l <= 24)%nat -> (24 <= fuel + l)%nat ->
  exists t' base' left', buildTreeLevel fuel t left base (Z.of_nat (S l)) = Ok t' /\
    level_ok 24 (buffer t') base' left' /\ max_level t' = 24.
Proof.
  revert fuel l t left base. induction fuel as [|fuel IH]; intros l t left base Hcnt Hd Hok Hlvl Hl Hf;
    cbn [buildTreeLevel]; change (96 / PREFIX_TOTAL_LEN) with 24;
    (destruct (decide (l = 24%nat)) as [->|]; [exists t, base, left; done|]); [lia|].
  replace (24 <? Z.of_nat (S l)) with false by (symmetry; apply Z.ltb_ge; lia).
  pose proof Hok as (_ & _ & Hleft & _ & _ & _ & Hcov & _).
  assert (Hne : zlen left <> 0).
  { destruct (Hcov 0 ltac:(lia)) as (r & Hr & _). destruct left; [by apply not_elem_of_nil in Hr|].
    rewrite zlen_cons. pose proof (zlen_nonneg left). lia. }
  apply Z.eqb_neq in Hne. rewrite Hne. unfold loop32.
  replace (zlen left <? 2 ^ 32) with true by (symmetry; apply Z.ltb_lt; lia).
  cbn [mbind res_bind]. rewrite Hd.
  destruct (level_step l (buffer t) base left) as (st & Hst & Hok'); [lia|done|].
  rewrite Hst. cbn [mbind res_bind]. rewrite u8_small by lia.
  replace (Z.of_nat (S l) + 1) with (Z.of_nat (S (S l))) by lia.
  apply IH; cbn [data buffer max_level with_tree]; [done|done|done|done|lia|lia].
Qed.

(** At level 24 there is one group. *)
Lemma level_top buf base left :
  0 < cnt -> level_ok 24 buf base left -> repr d 24 buf (zlen buf - 1) 0 /\ 0 < zlen buf.
Proof.
  intros Hcnt Hok. pose proof Hok as (Hlen & Hbase & _ & _ & _ & _ & Hcov & Hnodes).
  destruct (Hcov 0 ltac:(lia)) as (r0 & Hr0 & _).
  destruct left as [|r [|r' left]]; [by apply not_elem_of_nil in Hr0| |].
  - rewrite Hlen. change (zlen [r]) with 1. split; [|lia].
    destruct (Hnodes 0 r) as [Hrep _]; [done|]. rewrite (rep_top d Hwf) in Hrep.
    by replace (base + 1 - 1) with (base + 0) by lia.
  - pose proof (rep_entry_strict _ _ _ _ 0 1 Hok ltac:(lia)) as Hs.
    rewrite !(rep_top d Hwf), !zlen_cons in Hs. pose proof (zlen_nonneg left). lia.
Qed.
End whole.

(** Building and searching together. *)
Lemma buildTree_search d lvl :
  Forall (fun m => zorder_wf (zorder m)) d -> sorted_keys d -> 24 * zlen d < 2 ^ 32 ->
  exists t, buildTree (new_ZOrderTreeIPv4 lvl d (zlen d)) = Ok t /\
    forall b, search t b = Ok (filter (fun i =>
      last_of_key d i = true /\ digits_in 24 b (key d i) = true) (zseq (zlen d))).
Proof.
  intros Hwf Hsorted Hsize. destruct (decide (d = [])) as [->|Hne].
  { eexists. split; [done|]. done. }
  assert (Hcnt : 0 < zlen d) by (destruct d; [done|rewrite zlen_cons; pose proof (zlen_nonneg d); lia]).
  destruct (leaves_ok d Hwf Hsorted Hsize) as (st & Hst & Hok).
  unfold buildTree, loop32. cbn [num data buffer new_ZOrderTreeIPv4].
  replace (zlen d <? 2 ^ 32) with true by (symmetry; apply Z.ltb_lt; lia).
  cbn [mbind res_bind]. rewrite Hst. cbn [mbind res_bind].
  destruct (buildTreeLevel_ok d Hwf Hsorted Hsize 24 1
              (with_tree (new_ZOrderTreeIPv4 lvl d (zlen d)) (zlen (b_buffer st)) 1 (b_buffer st))
              (b_left st) 0) as (t & base & left & Ht & Hok' & Hlvl); [done|done|done|done|lia|lia|].
  change (Z.of_nat 2) with 2 in Ht. rewrite Ht. cbn [mbind res_bind].
  eexists. split; [done|]. intros b. unfold search. cbn [buffer_size buffer max_level with_tree].
  destruct (level_top d Hwf _ _ _ Hcnt Hok') as [Hrep Hpos].
  replace (zlen (buffer t) =? 0) with false by (symmetry; apply Z.eqb_neq; lia).
  rewrite Hlvl. change (Z.to_nat (u8 (24 - 1))) with 23%nat.
  pose proof (visit_repr d Hwf Hsorted 24 _ _ _ b ltac:(lia) Hrep) as Hv. cbn [visit] in Hv.
  rewrite Hv. f_equal. apply list_filter_iff. intros i. rewrite (rep_top d Hwf). tauto.
Qed.

(** ** Rectangles and squares *)

Lemma digits_in_spec l b k :
  digits_in l b k = true <-> forall j, (j < l)%nat -> digit_in b k j = true.
Proof.
  induction l as [|l IH]; cbn [digits_in]; [split; [lia|done]|].
  rewrite andb_true_iff, IH. split.
  - intros [H1 H2] j Hj. destruct (decide (j = l)) as [->|]; [done|]. apply H2. lia.
  - intros H. split; [|intros j Hj]; apply H; lia.
Qed.

Lemma digit_in_spec b k j :
  let l := Z.of_nat j in
  digit_in b k j = true <->
  getPrefix l (x_min b) <= getPrefix l (xcoord k) <= getPrefix l (x_max b) /\
  getPrefix l (y_min b) <= getPrefix l (ycoord k) <= getPrefix l (y_max b).
Proof.
  intros l. unfold digit_in, isInRectangle, board_prefix. cbn [x_min y_min x_max y_max].
  rewrite !andb_true_iff, !Z.leb_le. subst l. lia.
Qed.

Lemma getPrefix_div l v : 0 <= l -> getPrefix l v = v / 4 ^ l mod 4.
Proof.
  intros. unfold getPrefix, PREFIX_LEN. change 3 with (Z.ones 2).
  rewrite Z.land_ones, Z.shiftr_div_pow2 by lia. change 4 with (2 ^ 2) at 1.
  rewrite <-Z.pow_mul_r by lia. do 3 f_equal. lia.
Qed.

Lemma mod_pow4_S v l : 0 <= l -> v mod 4 ^ (l + 1) = v mod 4 ^ l + 4 ^ l * getPrefix l v.
Proof.
  intros. rewrite getPrefix_div, Z.pow_add_r, Z.pow_1_r by lia.
  by rewrite Z.rem_mul_r by lia.
Qed.

(** Numbers that are below digit by digit are below. *)
Lemma digits_le u v (l : nat) :
  (forall j, (j < l)%nat -> getPrefix (Z.of_nat j) u <= getPrefix (Z.of_nat j) v) ->
  u mod 4 ^ Z.of_nat l <= v mod 4 ^ Z.of_nat l.
Proof.
  induction l as [|l IH]; intros H.
  { by rewrite !Z.mod_1_r. }
  replace (Z.of_nat (S l)) with (Z.of_nat l + 1) by lia. rewrite !mod_pow4_S by lia.
  specialize (IH ltac:(intros; apply H; lia)). specialize (H l ltac:(lia)). nia.
Qed.

Lemma coord_range k : 0 <= xcoord k < 2 ^ 48 /\ 0 <= ycoord k < 2 ^ 48.
Proof. split; apply (even_bits_range 48). Qed.

Definition board_wf (b : board) : Prop :=
  is_u 48 (x_min b) /\ is_u 48 (y_min b) /\ is_u 48 (x_max b) /\ is_u 48 (y_max b).

Lemma digits_in_sound b k :
  board_wf b -> digits_in 24 b k = true ->
  x_min b <= xcoord k <= x_max b /\ y_min b <= ycoord k <= y_max b.
Proof.
  intros (Hx & Hy & Hx' & Hy') Hd. rewrite digits_in_spec in Hd. unfold is_u in *.
  pose proof (coord_range k) as [Hcx Hcy].
  assert (Hle : forall u v, 0 <= u < 2 ^ 48 -> 0 <= v < 2 ^ 48 ->
    (forall j, (j < 24)%nat -> getPrefix (Z.of_nat j) u <= getPrefix (Z.of_nat j) v) -> u <= v).
  { intros u v Hu Hv Huv. apply digits_le in Huv. change (4 ^ Z.of_nat 24) with (2 ^ 48) in Huv.
    by rewrite !Z.mod_small in Huv. }
  split; (split; (apply Hle; [done..|])); intros j Hj; apply Hd, digit_in_spec in Hj; lia.
Qed.

(** The digits of the bounds of [X * 4^l .. (X+1) * 4^l - 1]. *)
Lemma digit_low X r l j :
  0 <= j < l -> 0 <= r < 4 ^ l -> getPrefix j (X * 4 ^ l + r) = getPrefix j r.
Proof.
  intros Hj Hr. rewrite !getPrefix_div by lia.
  replace (4 ^ l) with (4 ^ (l - j - 1) * 4 * 4 ^ j)
    by (rewrite <-Z.mul_assoc, <-Z.pow_succ_r, <-Z.pow_add_r by lia; f_equal; lia).
  replace (X * (4 ^ (l - j - 1) * 4 * 4 ^ j) + r) with (r + (X * 4 ^ (l - j - 1) * 4) * 4 ^ j) by ring.
  by rewrite Z.div_add, Z.mod_add by lia.
Qed.

Lemma digit_high X r l j :
  0 <= l <= j -> 0 <= r < 4 ^ l -> getPrefix j (X * 4 ^ l + r) = getPrefix (j - l) X.
Proof.
  intros Hj Hr. rewrite !getPrefix_div by lia.
  replace (4 ^ j) with (4 ^ l * 4 ^ (j - l)) by (rewrite <-Z.pow_add_r by lia; f_equal; lia).
  by rewrite <-Z.div_div, Z.div_add_l, (Z.div_small r), Z.add_0_r by lia.
Qed.

Lemma getPrefix_ones j l : 0 <= j < l -> getPrefix j (4 ^ l - 1) = 3.
Proof.
  intros Hj. unfold getPrefix, PREFIX_LEN. replace (4 ^ l - 1) with (Z.ones (2 * l)).
  2:{ rewrite Z.ones_equiv, Z.pow_mul_r by lia. change (2 ^ 2) with 4. lia. }
  change 3 with (Z.ones 2). rewrite Z.land_ones, Z.shiftr_div_pow2, Z.ones_div_pow2, Z.ones_mod_pow2 by lia.
  done.
Qed.

Lemma digit_square u X (l : nat) :
  (l <= 24)%nat -> 0 <= u < 2 ^ 48 -> 0 <= X < 4 ^ (24 - Z.of_nat l) ->
  (forall j : nat, (j < 24)%nat ->
     getPrefix (Z.of_nat j) (X * 4 ^ Z.of_nat l) <= getPrefix (Z.of_nat j) u
       <= getPrefix (Z.of_nat j) (X * 4 ^ Z.of_nat l + (4 ^ Z.of_nat l - 1)))
  <-> u / 4 ^ Z.of_nat l = X.
Proof.
  intros Hl Hu HX. set (L := Z.of_nat l) in *. assert (0 < 4 ^ L) by lia.
  assert (Hhigh : forall j : nat, L <= Z.of_nat j ->
    getPrefix (Z.of_nat j) u = getPrefix (Z.of_nat j - L) (u / 4 ^ L)).
  { intros j Hj. rewrite (Z.div_mod u (4 ^ L)) at 1 by lia. rewrite (Z.mul_comm (4 ^ L)).
    apply digit_high; [lia|]. apply Z.mod_pos_bound. lia. }
  assert (Hbound : 0 <= u / 4 ^ L < 4 ^ (24 - L)).
  { split; [apply Z.div_pos; lia|]. apply Z.div_lt_upper_bound; [lia|].
    rewrite <-Z.pow_add_r by lia. replace (L + (24 - L)) with 24 by lia.
    change (4 ^ 24) with (2 ^ 48). lia. }
  split.
  - intros Hd. assert (Hdig : forall j : nat, (j < 24 - l)%nat ->
      getPrefix (Z.of_nat j) (u / 4 ^ L) = getPrefix (Z.of_nat j) X).
    { intros j Hj. specialize (Hd (j + l)%nat ltac:(lia)).
      rewrite <-(Z.add_0_r (X * 4 ^ L)) in Hd at 1. rewrite !digit_high, Hhigh in Hd by lia.
      replace (Z.of_nat (j + l) - L) with (Z.of_nat j) in Hd by lia. lia. }
    assert (Hle : forall a b, (forall j : nat, (j < 24 - l)%nat ->
      getPrefix (Z.of_nat j) a = getPrefix (Z.of_nat j) b) ->
      0 <= a < 4 ^ (24 - L) -> 0 <= b < 4 ^ (24 - L) -> a <= b).
    { intros a b Hab Ha Hb. pose proof (digits_le a b (24 - l)) as Hr.
      replace (Z.of_nat (24 - l)) with (24 - L) in Hr by lia.
      rewrite !Z.mod_small in Hr by done. apply Hr. intros j Hj. rewrite Hab by done. lia. }
    apply Z.le_antisymm; apply Hle; auto. intros. by rewrite Hdig.
  - intros <- j Hj. rewrite <-(Z.add_0_r (u / 4 ^ L * 4 ^ L)) at 1.
    destruct (decide (Z.of_nat j < L)).
    + rewrite !digit_low, getPrefix_ones by lia.
      pose proof (getPrefix_range (Z.of_nat j) u). change (getPrefix (Z.of_nat j) 0) with (Z.land (Z.shiftr 0 (Z.of_nat j * 2)) 3).
      rewrite Z.shiftr_0_l. change (Z.land 0 3) with 0. lia.
    + rewrite !digit_high, Hhigh by lia. lia.
Qed.

(** The square of side [4^l] with the corner [(X * 4^l, Y * 4^l)]. *)
Definition square (X Y : Z) (l : nat) : board :=
  let s := 4 ^ Z.of_nat l in
  {| x_min := X * s; y_min := Y * s; x_max := X * s + (s - 1); y_max := Y * s + (s - 1) |}.

Lemma digits_in_square X Y (l : nat) k :
  (l <= 24)%nat -> 0 <= X < 4 ^ (24 - Z.of_nat l) -> 0 <= Y < 4 ^ (24 - Z.of_nat l) ->
  digits_in 24 (square X Y l) k = true <->
  xcoord k / 4 ^ Z.of_nat l = X /\ ycoord k / 4 ^ Z.of_nat l = Y.
Proof.
  intros Hl HX HY. pose proof (coord_range k) as [Hcx Hcy].
  rewrite <-(digit_square (xcoord k) X l), <-(digit_square (ycoord k) Y l) by done.
  rewrite digits_in_spec. setoid_rewrite digit_in_spec. cbn [square x_min y_min x_max y_max].
  naive_solver.
Qed.

(** C28: [buildTree] on a sorted array of keys returns, without an access
    outside its vectors, and in the tree it leaves
    - a query returns, in ascending order, exactly the entries that are the
      last of their key and whose coordinates lie between the bounds digit by
      digit (in base 4);
    - so everything it returns lies inside the rectangle;
    - and for a square of side [4^l] aligned to multiples of [4^l], points
      and the whole plane among them, it returns every last entry inside. *)
Theorem zorder_queries d lvl :
  Forall (fun m => zorder_wf (zorder m)) d -> sorted_keys d -> 24 * zlen d < 2 ^ 32 ->
  exists t, buildTree (new_ZOrderTreeIPv4 lvl d (zlen d)) = Ok t /\
    (forall b, search t b = Ok (filter (fun i =>
       last_of_key d i = true /\ digits_in 24 b (key d i) = true) (zseq (zlen d)))) /\
    (forall b ids, board_wf b -> search t b = Ok ids -> forall i, i ∈ ids ->
       0 <= i < zlen d /\
       x_min b <= xcoord (key d i) <= x_max b /\ y_min b <= ycoord (key d i) <= y_max b) /\
    (forall X Y (l : nat), (l <= 24)%nat ->
       0 <= X < 4 ^ (24 - Z.of_nat l) -> 0 <= Y < 4 ^ (24 - Z.of_nat l) ->
       search t (square X Y l) = Ok (filter (fun i => last_of_key d i = true /\
         xcoord (key d i) / 4 ^ Z.of_nat l = X /\ ycoord (key d i) / 4 ^ Z.of_nat l = Y)
         (zseq (zlen d)))).
Proof.
  intros Hwf Hsorted Hsize. destruct (buildTree_search d lvl) as (t & Ht & Hs); [done..|].
  exists t. split; [done|]. split; [done|]. split.
  - intros b ids Hb Hids i Hi. rewrite Hs in Hids.
    assert (Hinj : forall a c : list Z, Ok a = Ok c -> a = c) by (by intros a c [=]).
    apply Hinj in Hids as <-.
    apply list_elem_of_filter in Hi as [[_ Hd] Hin%elem_of_zseq].
    split; [done|]. by apply digits_in_sound.
  - intros X Y l Hl HX HY. rewrite Hs. f_equal. apply list_filter_iff. intros i.
    by rewrite digits_in_square.
Qed.

Module DemoTree.
(** Five flows; two have the same key, and the points [(3, 0)] and [(4, 0)]
  are neighbours. *)
Definition point (x y v : Z) : ZOrderIPv4Meta :=
let tmp := computeZOrder32 (Z.shiftr x 16) (Z.shiftr y 16) in
{| zorder := {| zlow := computeZOrder16 (u16 x) (u16 y); zmid := Z.land tmp 0xffffffff;
                zhigh := Z.shiftr tmp 32 |}; zvalue := v |}.
Definition flows : list ZOrderIPv4Meta :=
[point 3 0 10; point 3 0 11; point 4 0 12; point 5 1 13; point 70000 3 14].
Definition tree_of (d : list ZOrderIPv4Meta) : ZOrderTreeIPv4 :=
from_res (new_ZOrderTreeIPv4 0 [] 0) (buildTree (new_ZOrderTreeIPv4 0 d (zlen d))).

Lemma flows_wf : Forall (fun m => zorder_wf (zorder m)) flows.
Proof.
unfold flows. repeat (apply Forall_cons_2; [vm_compute; repeat split; done|]). apply Forall_nil_2.
Qed.

Lemma flows_sorted : sorted_keys flows.
Proof.
unfold flows, sorted_keys.
repeat (apply SSorted_cons; [|repeat (apply Forall_cons_2; [by vm_compute|]); apply Forall_nil_2]).
apply SSorted_nil.
Qed.

Lemma zorder_queries_witness :
exists t, buildTree (new_ZOrderTreeIPv4 0 flows (zlen flows)) = Ok t /\
  search t (mkBoard 0 0 (2 ^ 48 - 1) (2 ^ 48 - 1)) = Ok [1; 2; 3; 4].
Proof.
destruct (zorder_queries flows 0 flows_wf flows_sorted ltac:(vm_compute; reflexivity))
  as (t & Ht & Hs & _).
exists t. split; [exact Ht|]. rewrite Hs. vm_compute. reflexivity.
Defined.

(** A rectangle that is not an aligned square can lose entries: the query for
  [3 <= x <= 4], [y = 0] contains the points [(3, 0)] and [(4, 0)] and
  returns neither, because the lowest digit of its lower bound, 3, is above
  that of its upper bound, 0. *)
Lemma rectangle_loses_entries :
exists t, buildTree (new_ZOrderTreeIPv4 0 flows (zlen flows)) = Ok t /\
  search t (mkBoard 3 0 3 0) = Ok [1] /\ search t (mkBoard 4 0 4 0) = Ok [2] /\
  search t (mkBoard 3 0 4 0) = Ok [].
Proof. eexists. split; [vm_compute; reflexivity|]. vm_compute. done. Qed.

(** Of entries with the same key only the last is in the tree. *)
Lemma equal_keys_lose_entries :
zorder <$> flows !! 0%nat = zorder <$> flows !! 1%nat /\
search (tree_of flows) (mkBoard 0 0 (2 ^ 48 - 1) (2 ^ 48 - 1)) = Ok [1; 2; 3; 4].
Proof. vm_compute. done. Qed.
End DemoTree.
