(* ===== verification/FlosisPool.v ===== *)
(** * Memory of the Flosis baseline (baseline/flosis/lib: pointerRingPool.hpp, aggBuffer.hpp)

    [PointerRingPool] hands out fixed-size blocks of one mapping from a ring
    of pointers; [AggBuffer] is a growing byte buffer made of such blocks.  A
    [char*] into the mapping is an offset, a null pointer [None].  The
    theorems: no block is handed out twice while in use, a buffer's bytes are
    those written to it in order, and an operation on one buffer leaves every
    other buffer's bytes alone. *)
From Stdlib Require Import ZArith Lia Bool.
From S2P Require Import Prelude.

(** ** PointerRingPool *)
Record PointerRingPool := mkPool {
  mem_size : Z;
  block_size : Z;
  block_count : Z;
  alloPos : Z;
  freePos : Z;
  mem_pool : list Z;
  blocks : list Z;
  signalBuffer : list bool }.

Definition with_mem (p : PointerRingPool) (m : list Z) : PointerRingPool :=
  mkPool (mem_size p) (block_size p) (block_count p) (alloPos p) (freePos p) m
    (blocks p) (signalBuffer p).

(** [isPowerOfTwo]; the argument is cut to 32 bits. *)
Definition isPowerOfTwo (n : Z) : bool := let n := u32 n in Z.land n (u32 (n - 1)) =? 0.

(** The constructor: [mapped] says whether the mapping succeeds.  Without a
    power of two the arrays stay null and the positions indeterminate
    ([junk]). *)
Definition new_PointerRingPool (mapped : bool) (junk size bs : Z) : res PointerRingPool :=
  if bs =? 0 then Undef else
  let n := size / bs in
  if negb (isPowerOfTwo n) then Ok (mkPool size bs n junk junk [] [] [])
  else if negb mapped then Throws
  else Ok (mkPool size bs n 0 0 (replicate (Z.to_nat size) 0)
             ((fun i => i * bs) <$> zseq n) (replicate (Z.to_nat n) true)).

(** [free]: answers [false] on a null pointer and on a place of the ring that
    holds a block already. *)
Definition free (p : PointerRingPool) (block : option Z) : res (bool * PointerRingPool) :=
  match block with
  | None => Ok (false, p)
  | Some block =>
      if block_count p =? 0 then Undef else
      let pos := freePos p mod block_count p in
      let p := mkPool (mem_size p) (block_size p) (block_count p) (alloPos p)
                 (u64 (freePos p + 1)) (mem_pool p) (blocks p) (signalBuffer p) in
      s ← zget (signalBuffer p) pos;
      if s : bool then Ok (false, p)
      else
        bl ← zset (blocks p) pos block;
        sg ← zset (signalBuffer p) pos true;
        Ok (true, mkPool (mem_size p) (block_size p) (block_count p) (alloPos p) (freePos p)
                    (mem_pool p) bl sg)
  end.

Definition allocate (p : PointerRingPool) : res (option Z * PointerRingPool) :=
  if block_count p =? 0 then Undef else
  let pos := alloPos p mod block_count p in
  let p := mkPool (mem_size p) (block_size p) (block_count p) (u64 (alloPos p + 1))
             (freePos p) (mem_pool p) (blocks p) (signalBuffer p) in
  s ← zget (signalBuffer p) pos;
  if negb s then Ok (None, p)
  else
    data ← zget (blocks p) pos;
    sg ← zset (signalBuffer p) pos false;
    Ok (Some data, mkPool (mem_size p) (block_size p) (block_count p) (alloPos p) (freePos p)
                     (mem_pool p) (blocks p) sg).

Definition getBlockSize (p : PointerRingPool) : Z := block_size p.

(** [while (block == nullptr) block = allocate();]: after [fuel] tries, once
    around the ring, all places are empty and only another thread can end the
    loop. *)
Fixpoint allocate_spin (fuel : nat) (p : PointerRingPool) : res (Z * PointerRingPool) :=
  '(block, p) ← allocate p;
  match block with
  | Some b => Ok (b, p)
  | None => match fuel with O => Blocks | S fuel => allocate_spin fuel p end
  end.

Definition take_block (p : PointerRingPool) : res (Z * PointerRingPool) :=
  allocate_spin (Z.to_nat (block_count p)) p.

(** ** AggBuffer

    The list of chunks from [head] on; [write_tail] is the last of them. *)
Record AggBuffer := mkAgg { chunks : list Z; block_len : Z; total_len : Z }.

Definition new_AggBuffer (p : PointerRingPool) : res (AggBuffer * PointerRingPool) :=
  '(block, p) ← take_block p;
  Ok (mkAgg [block] (getBlockSize p) 0, p).

Fixpoint free_chunks (p : PointerRingPool) (l : list Z) : res PointerRingPool :=
  match l with
  | [] => Ok p
  | b :: l => '(_, p) ← free p (Some b); free_chunks p l
  end.

(** The destructor. *)
Definition delete_AggBuffer (p : PointerRingPool) (a : AggBuffer) : res PointerRingPool :=
  free_chunks p (chunks a).

(** [write_tail->data]. *)
Definition write_tail (a : AggBuffer) : res Z :=
  match last (chunks a) with Some b => Ok b | None => Undef end.

(** [memcpy(dst, data + soff, n)] into the mapping. *)
Definition copy_to (p : PointerRingPool) (dst : Z) (data : list Z) (soff n : Z)
  : res PointerRingPool :=
  m ← memcpy (mem_pool p) dst data soff n; Ok (with_mem p m).

Definition write (p : PointerRingPool) (a : AggBuffer) (data : list Z) (len : Z)
  : res (bool * PointerRingPool * AggBuffer) :=
  if block_len a =? 0 then Undef else
  let write_pos := total_len a mod block_len a in
  tail ← write_tail a;
  if u64 (write_pos + len) <? block_len a then
    p ← copy_to p (tail + write_pos) data 0 len;
    Ok (true, p, mkAgg (chunks a) (block_len a) (u64 (total_len a + len)))
  else
    p ← copy_to p (tail + write_pos) data 0 (block_len a - write_pos);
    '(block, p) ← take_block p;
    p ← (if u64 (write_pos + len) =? block_len a then Ok p
         else copy_to p block data (block_len a - write_pos) (len - (block_len a - write_pos)));
    Ok (true, p, mkAgg (chunks a ++ [block]) (block_len a) (u64 (total_len a + len))).

Definition getTotalLen (a : AggBuffer) : Z := total_len a.
Definition getAggBlockSize (a : AggBuffer) : Z := block_len a.
Definition getHeadChunk (a : AggBuffer) : list Z := chunks a.

(** [output]: every chunk is copied to the start of [dest]. *)
Fixpoint output_chunks (m : list Z) (dest : list Z) (bl remaining : Z) (l : list Z)
  : res (list Z) :=
  match l with
  | [] => Ok dest
  | c :: l =>
      if remaining <=? 0 then Ok dest
      else
        let to_write := if remaining <? bl then remaining else bl in
        dest ← memcpy dest 0 m c to_write;
        output_chunks m dest bl (remaining - to_write) l
  end.

Definition output (p : PointerRingPool) (a : AggBuffer) (dest : list Z) : res (list Z) :=
  output_chunks (mem_pool p) dest (block_len a) (total_len a) (chunks a).

(** ** The ring of free blocks

    [fl] are the blocks in the pool, in the order in which they will be handed
    out; [L] those in use. *)
Section pool.
(** The number of blocks and their size. *)
Context (N bs : Z).
Hypothesis HN : 0 < N.
Hypothesis Hdiv : (N | 2 ^ 64).
Hypothesis Hbs : 0 < bs.

Definition valid_block (b : Z) : Prop := exists k, 0 <= k < N /\ b = k * bs.

Record pool_ok (p : PointerRingPool) (fl L : list Z) : Prop := {
  ok_count : block_count p = N;
  ok_size : block_size p = bs;
  ok_mem : N * bs <= zlen (mem_pool p);
  ok_lens : zlen (blocks p) = N /\ zlen (signalBuffer p) = N;
  ok_pos : is_u 64 (alloPos p) /\ is_u 64 (freePos p);
  ok_total : zlen fl + zlen L = N;
  ok_next : freePos p mod N = (alloPos p + zlen fl) mod N;
  ok_signals : forall j, 0 <= j < N ->
    zget (signalBuffer p) ((alloPos p + j) mod N) = Ok (bool_decide (j < zlen fl));
  ok_blocks : forall j b, zget fl j = Ok b -> zget (blocks p) ((alloPos p + j) mod N) = Ok b;
  ok_distinct : NoDup (fl ++ L);
  ok_valid : Forall valid_block (fl ++ L) }.

Lemma u64_mod a : u64 a mod N = a mod N.
Proof.
  destruct Hdiv as [q Hq]. unfold u64, wrap. rewrite Hq, (Z.mul_comm q), Z.rem_mul_r by nia.
  rewrite (Z.mul_comm N), Z.mod_add, Z.mod_mod by lia. done.
Qed.

Lemma u64_add_mod a j : (u64 (a + 1) + j) mod N = (a + (1 + j)) mod N.
Proof.
  rewrite Z.add_mod, u64_mod, <-Z.add_mod by lia. f_equal. lia.
Qed.

Lemma pos_range a : 0 <= a mod N < N.
Proof. apply Z.mod_pos_bound. lia. Qed.

(** Setting the flag at one place of the ring. *)
Lemma set_signal (l : list bool) a i v :
  zlen l = N -> 0 <= i < N ->
  exists l', zset l ((a + i) mod N) v = Ok l' /\ zlen l' = N /\
    forall j, 0 <= j < N -> zget l' ((a + j) mod N) =
      if decide (j = i) then Ok v else zget l ((a + j) mod N).
Proof.
  intros Hl Hi. destruct (circle_set N l a (a + i) v Hl ltac:(lia)) as (l' & E & El & Hg).
  exists l'. split; [done|]. split; [done|]. intros j Hj. rewrite Hg by lia. apply decide_ext. lia.
Qed.

Lemma allocate_ok p b fl L :
  pool_ok p (b :: fl) L ->
  exists p', allocate p = Ok (Some b, p') /\ pool_ok p' fl (b :: L) /\
    mem_pool p' = mem_pool p.
Proof.
  intros H. pose proof (ok_total _ _ _ H) as Htot. rewrite zlen_cons in Htot.
  pose proof (zlen_nonneg fl). pose proof (zlen_nonneg L).
  unfold allocate. rewrite (ok_count _ _ _ H).
  replace (N =? 0) with false by (symmetry; apply Z.eqb_neq; lia). cbn [signalBuffer blocks].
  pose proof (ok_signals _ _ _ H 0 ltac:(lia)) as Hs.
  rewrite Z.add_0_r, bool_decide_true in Hs by (rewrite zlen_cons; lia).
  rewrite Hs. cbn [mbind res_bind negb].
  pose proof (ok_blocks _ _ _ H 0 b ltac:(done)) as Hb. rewrite Z.add_0_r in Hb.
  rewrite Hb. cbn [mbind res_bind].
  destruct (set_signal (signalBuffer p) (alloPos p) 0 false) as (sg & Hsg & Hlen & Hget);
    [apply (ok_lens _ _ _ H)|lia|].
  rewrite Z.add_0_r in Hsg. rewrite Hsg. cbn [mbind res_bind].
  eexists. split; [done|]. split; [|done]. destruct H as [E1 E2 E3 E4 E5 E6 E7 E8 E9 E10 E11].
  constructor; cbn [block_count block_size mem_size mem_pool blocks signalBuffer alloPos freePos].
  - done.
  - done.
  - done.
  - by split; [apply E4|].
  - split; [apply u64_range|apply E5].
  - rewrite zlen_cons. lia.
  - rewrite E7, zlen_cons, u64_add_mod. done.
  - intros j Hj. rewrite u64_add_mod. destruct (decide (j = N - 1)) as [->|].
    + replace (alloPos p + (1 + (N - 1))) with (alloPos p + 0 + 1 * N) by lia.
      rewrite Z.mod_add, Hget, decide_True by lia. by rewrite bool_decide_false by lia.
    + rewrite Hget, decide_False, E8 by lia. f_equal. apply bool_decide_ext. rewrite zlen_cons. lia.
  - intros j b' Hj. rewrite u64_add_mod. apply E9.
    pose proof (zget_range _ _ _ Hj). apply zget_Ok in Hj as [_ Hj]. apply zget_Ok. split; [lia|].
    by replace (Z.to_nat (1 + j)) with (S (Z.to_nat j)) by lia.
  - by rewrite <-Permutation_middle.
  - by rewrite <-Permutation_middle.
Qed.

Lemma pool_ok_perm p fl L L' : L ≡ₚ L' -> pool_ok p fl L -> pool_ok p fl L'.
Proof.
  intros HL [E1 E2 E3 E4 E5 E6 E7 E8 E9 E10 E11].
  constructor; try done.
  - unfold zlen in *. by rewrite <-HL.
  - by rewrite <-HL.
  - by rewrite <-HL.
Qed.

Lemma free_ok p b fl L :
  pool_ok p fl (b :: L) ->
  exists p', free p (Some b) = Ok (true, p') /\ pool_ok p' (fl ++ [b]) L /\
    mem_pool p' = mem_pool p.
Proof.
  intros H. pose proof (ok_total _ _ _ H) as Htot. rewrite zlen_cons in Htot.
  pose proof (zlen_nonneg fl). pose proof (zlen_nonneg L).
  unfold free. rewrite (ok_count _ _ _ H).
  replace (N =? 0) with false by (symmetry; apply Z.eqb_neq; lia).
  cbn [signalBuffer blocks]. rewrite (ok_next _ _ _ H), (ok_signals _ _ _ H) by lia.
  rewrite bool_decide_false by lia. cbn [mbind res_bind].
  pose proof (pos_range (alloPos p + zlen fl)). destruct (ok_lens _ _ _ H) as [Hlb Hls].
  rewrite (zset_Ok (blocks p)) by lia. cbn [mbind res_bind].
  destruct (set_signal (signalBuffer p) (alloPos p) (zlen fl) true) as (sg & Hsg & Hlen & Hget);
    [done|lia|].
  rewrite Hsg. cbn [mbind res_bind].
  eexists. split; [done|]. split; [|done]. destruct H as [E1 E2 E3 E4 E5 E6 E7 E8 E9 E10 E11].
  constructor; cbn [block_count block_size mem_size mem_pool blocks signalBuffer alloPos freePos].
  - done.
  - done.
  - done.
  - by rewrite zlen_insert.
  - split; [apply E5|apply u64_range].
  - rewrite zlen_app. change (zlen [b]) with 1. lia.
  - rewrite u64_mod, zlen_app. change (zlen [b]) with 1.
    rewrite (Z.add_mod (freePos p)), E7, <-Z.add_mod by lia. f_equal. lia.
  - intros j Hj. rewrite Hget, E8, zlen_app by lia. change (zlen [b]) with 1.
    case_decide; [rewrite bool_decide_true by lia; done|].
    f_equal. apply bool_decide_ext. lia.
  - intros j b' Hj. destruct (decide (j = zlen fl)) as [->|].
    + rewrite zget_snoc in Hj. injection Hj as <-. apply zget_insert_eq. lia.
    + pose proof (zget_range _ _ _ Hj) as Hr. rewrite zlen_app in Hr. change (zlen [b]) with 1 in Hr.
      rewrite zget_insert_ne; [|lia|intros E; apply mod_inj in E; lia].
      apply E9. apply zget_Ok in Hj as [_ Hj]. apply zget_Ok. split; [lia|].
      rewrite lookup_app_l in Hj; [done|]. unfold zlen in *. lia.
  - by rewrite <-app_assoc.
  - by rewrite <-app_assoc.
Qed.

(** A pool without a free block: the busy wait of an allocation cannot end. *)
Lemma take_empty p L : pool_ok p [] L -> take_block p = Blocks.
Proof.
  intros H. unfold take_block.
  assert (Hall : forall q, block_count q = N ->
    (forall i, 0 <= i < N -> zget (signalBuffer q) i = Ok false) ->
    forall fuel, allocate_spin fuel q = Blocks).
  { intros q HNq Hq fuel. revert q HNq Hq. induction fuel as [|fuel IH]; intros q HNq Hq;
      cbn [allocate_spin]; unfold allocate; rewrite HNq;
      (replace (N =? 0) with false by (symmetry; apply Z.eqb_neq; lia));
      cbn [signalBuffer]; rewrite Hq by apply pos_range; cbn [mbind res_bind negb]; [done|].
    by apply IH. }
  apply Hall; [apply H|]. intros i Hi.
  pose proof (ok_signals _ _ _ H ((i - alloPos p) mod N) (pos_range _)) as Hs.
  rewrite Z.add_mod_idemp_r in Hs by lia.
  replace (alloPos p + (i - alloPos p)) with i in Hs by lia.
  rewrite Z.mod_small in Hs by lia. rewrite Hs, bool_decide_false; [done|].
  change (zlen []) with 0. pose proof (pos_range (i - alloPos p)). lia.
Qed.

Lemma take_ok p b fl L :
  pool_ok p (b :: fl) L ->
  exists p', take_block p = Ok (b, p') /\ pool_ok p' fl (b :: L) /\ mem_pool p' = mem_pool p.
Proof.
  intros H. destruct (allocate_ok p b fl L H) as (p' & Ha & Hp).
  exists p'. split; [|done]. unfold take_block.
  destruct (Z.to_nat (block_count p)); cbn [allocate_spin]; by rewrite Ha.
Qed.

Lemma take_inv p fl L b p' :
  pool_ok p fl L -> take_block p = Ok (b, p') ->
  exists fl', fl = b :: fl' /\ pool_ok p' fl' (b :: L) /\ mem_pool p' = mem_pool p.
Proof.
  intros H Ht. destruct fl as [|b0 fl]; [by rewrite (take_empty p L H) in Ht|].
  destruct (take_ok p b0 fl L H) as (q & Hq & Hq' & Hm). rewrite Ht in Hq. injection Hq as -> ->. eauto.
Qed.

Lemma with_mem_ok p fl L m :
  zlen m = zlen (mem_pool p) -> pool_ok p fl L -> pool_ok (with_mem p m) fl L.
Proof. intros Hm []. constructor; cbn; try done. by rewrite Hm. Qed.
End pool.

(** ** Buffers of blocks *)

(** The bytes of the block at [b]. *)
Definition block_bytes (bs : Z) (m : list Z) (b : Z) : list Z := zslice b bs m.

Lemma zslice_zsplice_inside {A} b n o (src m : list A) :
  0 <= b -> 0 <= o -> o + zlen src <= n -> b + n <= zlen m ->
  zslice b n (zsplice (b + o) src m) = zsplice o src (zslice b n m).
Proof.
  intros Hb Ho Hn Hm. pose proof (zlen_nonneg src).
  assert (Hl : zlen (zslice b n m) = n) by (apply zlen_zslice; lia).
  apply list_eq. intros j. rewrite lookup_zslice, (lookup_zsplice o) by lia.
  rewrite lookup_zsplice, lookup_zslice by lia.
  destruct (decide (Z.of_nat j < n)).
  - case_decide; case_decide; try lia; [|done]. f_equal. lia.
  - rewrite decide_False by lia. done.
Qed.

Lemma take_zsplice {A} w (src l : list A) :
  0 <= w -> w + zlen src <= zlen l ->
  take (Z.to_nat (w + zlen src)) (zsplice w src l) = take (Z.to_nat w) l ++ src.
Proof.
  intros Hw Hl. unfold zsplice, zlen in *. rewrite app_assoc, take_app_length'; [done|].
  rewrite length_app, length_take. lia.
Qed.

Section agg.
Context (N bs : Z).
Hypothesis HN : 0 < N.
Hypothesis Hdiv : (N | 2 ^ 64).
Hypothesis Hbs : 0 < bs.
Local Abbreviation bytes_of := (block_bytes bs).

(** [a] holds [bytes]: full blocks, then the last one up to [w]. *)
Definition agg_ok (m : list Z) (a : AggBuffer) (bytes : list Z) : Prop :=
  block_len a = bs /\ total_len a = zlen bytes /\
  exists c tail w, chunks a = c ++ [tail] /\ 0 <= w < bs /\ zlen bytes = zlen c * bs + w /\
    bytes = concat (bytes_of m <$> c) ++ take (Z.to_nat w) (bytes_of m tail).

(** Only the bytes of the buffer's own blocks matter. *)
Lemma agg_ok_frame m m' a bytes :
  (forall b, b ∈ chunks a -> bytes_of m' b = bytes_of m b) ->
  agg_ok m a bytes -> agg_ok m' a bytes.
Proof.
  intros Hm (E1 & E2 & c & tail & w & Ec & Hw & Hl & Hb).
  split; [done|]. split; [done|]. exists c, tail, w. split; [done|]. split; [done|]. split; [done|].
  rewrite Hb. rewrite (Hm tail) by (rewrite Ec; apply elem_of_app; right; by left). f_equal. f_equal.
  apply list_fmap_ext. intros i b Hi. symmetry. apply Hm. rewrite Ec. apply elem_of_app. left.
  by eapply list_elem_of_lookup_2.
Qed.

Lemma valid_apart b b' :
  valid_block N bs b -> valid_block N bs b' -> b <> b' -> b + bs <= b' \/ b' + bs <= b.
Proof.
  intros (k & Hk & ->) (k' & Hk' & ->) Hne. destruct (decide (k < k')); [left; nia|right].
  assert (k' < k) by (destruct (decide (k = k')) as [->|]; [done|lia]). nia.
Qed.

Lemma valid_inside (m : list Z) b : N * bs <= zlen m -> valid_block N bs b -> 0 <= b /\ b + bs <= zlen m.
Proof. intros Hm (k & Hk & ->). nia. Qed.

Lemma length_block (m : list Z) b : N * bs <= zlen m -> valid_block N bs b -> zlen (bytes_of m b) = bs.
Proof. intros Hm Hb. destruct (valid_inside m b Hm Hb). apply zlen_zslice; lia. Qed.

(** Copying [n] bytes to offset [o] of block [b]. *)
Lemma copy_to_ok p fl L b o data soff n :
  pool_ok N bs p fl L -> valid_block N bs b -> 0 <= o -> 0 <= n -> o + n <= bs ->
  0 <= soff -> soff + n <= zlen data ->
  exists p', copy_to p (b + o) data soff n = Ok p' /\ pool_ok N bs p' fl L /\
    bytes_of (mem_pool p') b = zsplice o (zslice soff n data) (bytes_of (mem_pool p) b) /\
    forall b', valid_block N bs b' -> b' <> b ->
      bytes_of (mem_pool p') b' = bytes_of (mem_pool p) b'.
Proof.
  intros Hp Hb Ho Hn Hon Hs Hd. pose proof (ok_mem _ _ _ _ _ Hp) as Hm.
  destruct (valid_inside _ _ Hm Hb) as [Hb0 Hb1].
  assert (Hl : zlen (zslice soff n data) = n) by (apply zlen_zslice; lia).
  exists (with_mem p (zsplice (b + o) (zslice soff n data) (mem_pool p))).
  unfold copy_to. rewrite memcpy_Ok by lia. split; [done|]. split; [|split].
  - apply with_mem_ok; [|done]. apply zlen_zsplice; lia.
  - cbn [mem_pool with_mem]. apply zslice_zsplice_inside; lia.
  - intros b' Hb' Hne. destruct (valid_inside _ _ Hm Hb').
    destruct (valid_apart b b' Hb Hb' ltac:(done)); apply zslice_zsplice_disjoint; lia.
Qed.

Lemma new_agg_ok p b fl R :
  pool_ok N bs p (b :: fl) R ->
  exists p' a, new_AggBuffer p = Ok (a, p') /\ pool_ok N bs p' fl (chunks a ++ R) /\
    agg_ok (mem_pool p') a [] /\ mem_pool p' = mem_pool p.
Proof.
  intros Hp. destruct (take_ok N bs HN Hdiv p b fl R Hp) as (p' & Ht & Hp' & Hm).
  unfold new_AggBuffer. rewrite Ht. cbn [mbind res_bind].
  eexists _, _. split; [done|]. split; [done|]. split; [|done].
  split; [apply Hp'|]. split; [done|]. exists [], b, 0. repeat split; [done|lia].
Qed.

(** Freeing the chunks one by one. *)
Lemma free_chunks_ok l p fl R :
  pool_ok N bs p fl (l ++ R) ->
  exists p', free_chunks p l = Ok p' /\ pool_ok N bs p' (fl ++ l) R /\ mem_pool p' = mem_pool p.
Proof.
  revert p fl. induction l as [|b l IH]; intros p fl Hp; cbn [free_chunks].
  - exists p. by rewrite app_nil_r.
  - destruct (free_ok N bs HN Hdiv p b fl (l ++ R) Hp) as (p1 & -> & Hp1 & Hm1). cbn [mbind res_bind].
    destruct (IH p1 (fl ++ [b]) Hp1) as (p2 & -> & Hp2 & Hm2). exists p2.
    rewrite <-app_assoc in Hp2. split; [done|]. split; [done|]. congruence.
Qed.

Lemma delete_agg_ok a p fl R :
  pool_ok N bs p fl (chunks a ++ R) ->
  exists p', delete_AggBuffer p a = Ok p' /\ pool_ok N bs p' (fl ++ chunks a) R /\
    mem_pool p' = mem_pool p.
Proof. apply free_chunks_ok. Qed.

(** Writing behind the first [w] bytes of the last block. *)
Lemma append_tail m m' c tail w src bytes :
  0 <= w -> w + zlen src <= zlen (bytes_of m tail) ->
  (forall b, b ∈ c -> bytes_of m' b = bytes_of m b) ->
  bytes_of m' tail = zsplice w src (bytes_of m tail) ->
  bytes = concat (bytes_of m <$> c) ++ take (Z.to_nat w) (bytes_of m tail) ->
  concat (bytes_of m' <$> c) ++ take (Z.to_nat (w + zlen src)) (bytes_of m' tail) = bytes ++ src.
Proof.
  intros Hw Hl Hc Ht ->. rewrite Ht, take_zsplice, app_assoc by done. f_equal. f_equal.
  f_equal. apply list_fmap_ext. intros i b Hi. apply Hc. by eapply list_elem_of_lookup_2.
Qed.

(** The blocks of a buffer, those of others and the free ones are apart. *)
Lemma owned_apart p fl c tail R :
  pool_ok N bs p fl ((c ++ [tail]) ++ R) ->
  (forall b, b ∈ c ++ R -> valid_block N bs b /\ b <> tail) /\ valid_block N bs tail.
Proof.
  intros Hp. pose proof (ok_distinct _ _ _ _ _ Hp) as Hnd. pose proof (ok_valid _ _ _ _ _ Hp) as Hv.
  apply NoDup_app in Hnd as (_ & _ & Hnd). apply Forall_app in Hv as [_ Hv].
  rewrite (Permutation_app_comm c), <-app_assoc in Hnd. simpl in Hnd.
  apply NoDup_cons in Hnd as [Hni _]. rewrite Forall_forall in Hv. split.
  - intros b Hb. split; [apply Hv|intros ->; done].
    rewrite !elem_of_app in *. tauto.
  - apply Hv. rewrite !elem_of_app. left. right. by left.
Qed.

(** Copying [src] into the rest of the last block. *)
Lemma fill_tail p fl c tail R w data soff n bytes :
  pool_ok N bs p fl ((c ++ [tail]) ++ R) -> 0 <= w -> 0 <= n -> w + n <= bs ->
  0 <= soff -> soff + n <= zlen data ->
  bytes = concat (bytes_of (mem_pool p) <$> c) ++ take (Z.to_nat w) (bytes_of (mem_pool p) tail) ->
  exists p', copy_to p (tail + w) data soff n = Ok p' /\ pool_ok N bs p' fl ((c ++ [tail]) ++ R) /\
    concat (bytes_of (mem_pool p') <$> c) ++ take (Z.to_nat (w + n)) (bytes_of (mem_pool p') tail)
      = bytes ++ zslice soff n data /\
    forall b, b ∈ R -> bytes_of (mem_pool p') b = bytes_of (mem_pool p) b.
Proof.
  intros Hp Hw Hn Hwn Hs Hsn Hb. destruct (owned_apart _ _ _ _ _ Hp) as [Hap Hv].
  destruct (copy_to_ok p fl _ tail w data soff n Hp Hv) as (p' & Hc & Hp' & Ht & Hf); [lia..|].
  exists p'. split; [done|]. split; [done|]. split.
  - replace (w + n) with (w + zlen (zslice soff n data)) by (rewrite zlen_zslice; lia).
    eapply append_tail; [done| | |exact Ht|exact Hb].
    + rewrite zlen_zslice, length_block by (done || lia || apply Hp). done.
    + intros b Hin. apply Hf; apply Hap; apply elem_of_app; by left.
  - intros b Hin. apply Hf; apply Hap; apply elem_of_app; by right.
Qed.

Lemma concat_snoc_block m c tail :
  zlen (bytes_of m tail) = bs ->
  concat (bytes_of m <$> c) ++ take (Z.to_nat bs) (bytes_of m tail)
  = concat (bytes_of m <$> c ++ [tail]).
Proof.
  intros Hl. rewrite fmap_app, concat_app. f_equal. simpl. rewrite app_nil_r.
  apply take_ge. unfold zlen in Hl. lia.
Qed.

(** The second part of a [write] that crosses the end of the last block. *)
Lemma cross_block p fl c R data len k bytes :
  pool_ok N bs p fl (c ++ R) -> 0 <= k <= len -> len <= zlen data -> len - k < bs ->
  bytes = concat (bytes_of (mem_pool p) <$> c) ->
  match fl with
  | [] => take_block p = Blocks
  | b :: fl' => exists p1 p2, take_block p = Ok (b, p1) /\
      (if len - k =? 0 then Ok p1 else copy_to p1 b data k (len - k)) = Ok p2 /\
      pool_ok N bs p2 fl' ((c ++ [b]) ++ R) /\
      concat (bytes_of (mem_pool p2) <$> c)
        ++ take (Z.to_nat (len - k)) (bytes_of (mem_pool p2) b)
        = bytes ++ zslice k (len - k) data /\
      forall b', b' ∈ R -> bytes_of (mem_pool p2) b' = bytes_of (mem_pool p) b'
  end.
Proof.
  intros Hp Hk Hkd Hlt Hb. destruct fl as [|b fl]; [by apply (take_empty N bs HN p (c ++ R))|].
  destruct (take_ok N bs HN Hdiv p b fl (c ++ R) Hp) as (p1 & Ht & Hp1 & Hm).
  assert (Hp1' : pool_ok N bs p1 fl ((c ++ [b]) ++ R)).
  { eapply pool_ok_perm; [|exact Hp1]. rewrite <-app_assoc. simpl. by rewrite Permutation_middle. }
  exists p1. destruct (Z.eqb_spec (len - k) 0) as [E|E].
  - exists p1. rewrite E. split; [done|]. split; [done|]. split; [done|]. split; [|by rewrite Hm].
    unfold zslice. simpl. by rewrite app_nil_r, Hm, Hb, app_nil_r.
  - destruct (fill_tail p1 fl c b R 0 data k (len - k) bytes) as (p2 & Hc & Hp2 & Hcat & Hf);
      [done|lia..| |].
    { simpl. by rewrite app_nil_r, Hm. }
    exists p2. rewrite Z.add_0_r in Hc. split; [done|]. split; [done|]. split; [done|].
    split; [done|]. intros b' Hb'. rewrite Hf by done. by rewrite Hm.
Qed.

(** One [write] of at most a block: either the pool is empty and a new block
    is needed, or the bytes are appended; blocks [R] of others are left
    alone. *)
Lemma agg_write_ok a p fl R bytes data len :
  pool_ok N bs p fl (chunks a ++ R) -> agg_ok (mem_pool p) a bytes ->
  0 <= len <= bs -> len <= zlen data -> zlen bytes + len < 2 ^ 64 -> bs < 2 ^ 62 ->
  (write p a data len = Blocks /\ fl = []) \/
  exists p' a' fl' used, write p a data len = Ok (true, p', a') /\
    fl = used ++ fl' /\ chunks a' = chunks a ++ used /\
    pool_ok N bs p' fl' (chunks a' ++ R) /\ agg_ok (mem_pool p') a' (bytes ++ zslice 0 len data) /\
    zlen used <= 1 /\
    forall b, b ∈ R -> bytes_of (mem_pool p') b = bytes_of (mem_pool p) b.
Proof.
  intros Hp (E1 & E2 & c & tail & w & Ec & Hw & Hl & Hb) Hlen Hd Ht Hbs'.
  pose proof (zlen_nonneg c). rewrite Ec in Hp.
  assert (Hwp : total_len a mod block_len a = w).
  { rewrite E1, E2, Hl, Z.add_comm, Z.mod_add, Z.mod_small by lia. done. }
  unfold write. rewrite Hwp. replace (block_len a =? 0) with false by (symmetry; apply Z.eqb_neq; lia).
  unfold write_tail. rewrite Ec, last_snoc. cbn [mbind res_bind].
  rewrite (u64_small (w + len)), E1, E2, u64_small by lia.
  destruct (Z.ltb_spec (w + len) bs) as [Hlt|Hge].
  - right. destruct (fill_tail p fl c tail R w data 0 len bytes) as (p' & Hc & Hp' & Hcat & Hf);
      [done|lia..|done|].
    rewrite Hc. cbn [mbind res_bind].
    eexists p', _, fl, []. split; [done|]. cbn [chunks]. rewrite app_nil_r.
    split; [done|]. split; [done|]. split; [done|]. split; [|by split].
    split; [done|]. split; [cbn; by rewrite zlen_app, zlen_zslice by lia|]. exists c, tail, (w + len).
    split; [done|]. split; [lia|]. split; [rewrite zlen_app, zlen_zslice by lia; lia|done].
  - destruct (fill_tail p fl c tail R w data 0 (bs - w) bytes) as (p1 & Hc & Hp1 & Hcat & Hf);
      [done|lia..|done|].
    rewrite Hc. cbn [mbind res_bind]. replace (w + (bs - w)) with bs in Hcat by lia.
    rewrite concat_snoc_block in Hcat
      by (apply (length_block _ _ (ok_mem _ _ _ _ _ Hp1)); by eapply owned_apart).
    pose proof (cross_block p1 fl (c ++ [tail]) R data len (bs - w) _ Hp1 ltac:(lia) ltac:(lia) ltac:(lia)
                  (eq_sym Hcat)) as Hx.
    destruct fl as [|b fl]; [left; by rewrite Hx|right].
    destruct Hx as (p2 & p3 & Htk & Hc2 & Hp3 & Hcat3 & Hf3). rewrite Htk. cbn [mbind res_bind].
    replace (w + len =? bs) with (len - (bs - w) =? 0)
      by (apply eq_iff_eq_true; rewrite !Z.eqb_eq; lia).
    rewrite Hc2. cbn [mbind res_bind]. eexists p3, _, fl, [b]. split; [done|]. cbn [chunks].
    split; [done|]. split; [done|]. split; [done|].
    split; [|split; [done|intros b' Hb'; by rewrite Hf3, Hf]].
    split; [done|]. split; [cbn; by rewrite zlen_app, zlen_zslice by lia|]. exists (c ++ [tail]), b, (len - (bs - w)).
    split; [done|]. split; [lia|]. rewrite !zlen_app. change (zlen [tail]) with 1.
    split; [rewrite zlen_zslice by lia; lia|].
    rewrite Hcat3, <-app_assoc. f_equal.
    rewrite <-zslice_app by lia. f_equal. lia.
Qed.
End agg.

(** ** The constructed pool *)
Lemma new_pool_ok N bs size junk :
  0 < N < 2 ^ 32 -> (N | 2 ^ 64) -> 0 < bs -> size / bs = N -> isPowerOfTwo N = true ->
  exists p, new_PointerRingPool true junk size bs = Ok p /\
    pool_ok N bs p ((fun i => i * bs) <$> zseq N) [].
Proof.
  intros HN Hdiv Hbs HNs Hpow. unfold new_PointerRingPool.
  replace (bs =? 0) with false by (symmetry; apply Z.eqb_neq; lia). rewrite HNs, Hpow. cbn [negb].
  eexists. split; [done|].
  assert (Hl : zlen ((fun i => i * bs) <$> zseq N) = N).
  { transitivity (zlen (zseq N)); [unfold zlen; by rewrite length_fmap|]. apply zlen_zseq. lia. }
  constructor; cbn [block_count block_size mem_size mem_pool blocks signalBuffer alloPos freePos].
  - done.
  - done.
  - rewrite zlen_replicate. pose proof (Z.mul_div_le size bs Hbs).
    rewrite Z2Nat.id; [nia|]. destruct (decide (0 <= size)); [done|].
    pose proof (Z.div_lt_upper_bound size bs 0 Hbs). lia.
  - split; [done|]. rewrite zlen_replicate. lia.
  - split; done.
  - rewrite Hl. change (zlen []) with 0. lia.
  - rewrite Hl, Z.add_0_l, Z.mod_0_l, Z.mod_same by lia. done.
  - intros j Hj. rewrite Z.add_0_l, Z.mod_small, Hl, bool_decide_true by lia.
    apply zget_replicate. lia.
  - intros j b Hj. pose proof (zget_range _ _ _ Hj). by rewrite Z.add_0_l, Z.mod_small by lia.
  - rewrite app_nil_r. apply NoDup_fmap_2_strong; [|apply NoDup_zseq]. intros x y _ _ E. nia.
  - rewrite app_nil_r. apply Forall_fmap, Forall_forall. intros i Hi%elem_of_zseq. by exists i.
Qed.

Module DemoPool.
(** Four blocks of eight bytes. *)
Definition pool : PointerRingPool := from_res (mkPool 0 0 0 0 0 [] [] []) (new_PointerRingPool true 0 32 8).

(** [output] copies every chunk to the start of the destination. *)
Lemma output_overwrites :
('(a, p) ← new_AggBuffer pool;
 '(_, p, a) ← write p a [1; 2; 3; 4; 5; 6] 6;
 '(_, p, a) ← write p a [7; 8; 9; 10; 11; 12] 6;
 output p a (replicate 12 0))
= Ok [9; 10; 11; 12; 5; 6; 7; 8; 0; 0; 0; 0].
Proof. vm_compute. done. Qed.

(** A write that fills the second block to its last byte leaves no room in the
  tail, and the next write starts over at its first byte. *)
Lemma two_full_blocks_overwrite :
('(a, p) ← new_AggBuffer pool;
 '(_, p, a) ← write p a (replicate 16 1) 16;
 '(_, p, a) ← write p a [2; 2] 2;
 Ok (chunks a, mem_pool p))
= Ok ([0; 8], replicate 8 1 ++ [2; 2; 1; 1; 1; 1; 1; 1] ++ replicate 16 0).
Proof. vm_compute. done. Qed.
End DemoPool.
