(* ===== verification/FlosisFlow.v ===== *)
(** * Flows of the Flosis baseline (baseline/flosis: flowbuffer.hpp, wbuffer.hpp, engine.cpp, dumper.cpp)

    The comparison system keeps a buffer per flow in a hash table: timestamps,
    lengths, headers and data of both directions, each in an [AggBuffer].  A
    buffer that is full, idle or finished leaves the table and its bytes go to
    a [WBuffer], whose full blocks a dumper writes to the disk.  The theorem of
    this file: the table and the buffers that left it hold every packet of a
    flow exactly once, in order. *)
From Stdlib Require Import ZArith Lia Bool.
From S2P Require Import Prelude Util Aggregator RingBuffer Reader FlosisPool.

(** ** Packets *)

(** The pointers into the packet are the bytes behind them; [packet.is_fin]
    and [packet.is_rst] keep their values from packet to packet. *)
Record ParsedPacket := mkParsed {
  is_upstream : bool;
  pdata : list Z;
  data_length : Z;
  pheader : list Z;
  header_length : Z;
  timestamp : Z;
  is_fin : bool;
  is_rst : bool }.

Definition with_upstream (p : ParsedPacket) (up : bool) : ParsedPacket :=
  mkParsed up (pdata p) (data_length p) (pheader p) (header_length p) (timestamp p)
    (is_fin p) (is_rst p).

Definition IPV6_HEADER_LEN : Z := 40.
Definition UDP_HEADER_LEN : Z := 8.
Definition IPPROTO_TCP : Z := 6.
Definition IPPROTO_UDP : Z := 17.

(** An [rte_mbuf]: the memory from the packet on, and the packet's length. *)
Record Mbuf := mkMbuf { room : list Z; data_len : Z }.

(** [( *(char* ) >> 4) * 4] as a [u_int8_t]: [char] is signed. *)
Definition tcp_header_length (b : Z) : Z :=
  let c := if b <? 128 then b else b - 256 in u8 (Z.shiftr c 4 * 4).

(** Flags and length of the transport header at [off]. *)
Definition read_l4 (eth : Z) (m : list Z) (off protocol : Z) (packet : ParsedPacket)
  : res (bool * bool * Z) :=
  if protocol =? IPPROTO_TCP then
    flags ← zget m (eth + off + 13);
    len ← zget m (eth + off + 12);
    Ok (negb (Z.land flags 0x01 =? 0), negb (Z.land flags 0x04 =? 0), tcp_header_length len)
  else if protocol =? IPPROTO_UDP then Ok (is_fin packet, is_rst packet, UDP_HEADER_LEN)
  else Ok (is_fin packet, is_rst packet, 0).

(** The common end of [readPacket]. *)
Definition finish_packet (eth : Z) (buf : Mbuf) (ts : Z) (packet : ParsedPacket)
    (fin rst : bool) (hl : Z) : res ParsedPacket :=
  let n := zlen (room buf) in
  if (n <? eth) || (n <? eth + hl) then Undef else
  let header := drop (Z.to_nat eth) (room buf) in
  let data := drop (Z.to_nat hl) header in
  let dl := data_len buf in
  if dl <? hl then Ok (mkParsed (is_upstream packet) data 0 header dl ts fin rst)
  else Ok (mkParsed (is_upstream packet) data (u16 (dl - hl)) header hl ts fin rst).

(** [readPacket]: [None] where the source leaves null pointers. *)
Definition readPacket (eth : Z) (buf : Mbuf) (ts : Z) (packet : ParsedPacket)
  : res (option (ParsedPacket * FlowMetadata)) :=
  let m := room buf in
  b0 ← zget m eth;
  let version := Z.land (Z.shiftr b0 4) 0x0F in
  if version =? 4 then
    let hl := Z.land b0 0x0F in
    protocol ← zget m (eth + 9);
    if negb (protocol =? IPPROTO_TCP) && negb (protocol =? IPPROTO_UDP) then Ok None
    else
      sport ← load 2 m (eth + hl * 4);
      dport ← load 2 m (eth + hl * 4 + 2);
      sip ← load 4 m (eth + 12);
      dip ← load 4 m (eth + 16);
      let meta := {| sourceAddress := le_bytes 4 (htonl sip);
                     destinationAddress := le_bytes 4 (htonl dip);
                     sourcePort := htons sport; destinationPort := htons dport |} in
      '(fin, rst, l4) ← read_l4 eth m (hl * 4) protocol packet;
      p ← finish_packet eth buf ts packet fin rst (u16 (hl * 4 + l4));
      Ok (Some (p, meta))
  else if version =? 6 then
    protocol ← zget m (eth + 6);
    if negb (protocol =? IPPROTO_TCP) && negb (protocol =? IPPROTO_UDP) then Ok None
    else
      sport ← load 2 m (eth + IPV6_HEADER_LEN);
      dport ← load 2 m (eth + IPV6_HEADER_LEN + 2);
      slow ← load 8 m (eth + 16);
      shigh ← load 8 m (eth + 8);
      dlow ← load 8 m (eth + 32);
      dhigh ← load 8 m (eth + 24);
      let srcip := mkIPv6 (swap_endianness slow) (swap_endianness shigh) in
      let dstip := mkIPv6 (swap_endianness dlow) (swap_endianness dhigh) in
      let meta := {| sourceAddress := ipv6_bytes srcip; destinationAddress := ipv6_bytes dstip;
                     sourcePort := htons sport; destinationPort := htons dport |} in
      '(fin, rst, l4) ← read_l4 eth m IPV6_HEADER_LEN protocol packet;
      p ← finish_packet eth buf ts packet fin rst (u16 (IPV6_HEADER_LEN + l4));
      Ok (Some (p, meta))
  else Ok None.

(** ** FlowBuffer *)
Record FlowBuffer := mkFlowBuffer {
  packet_count : Z;
  last_update_time : Z;
  timestamp_buffer : AggBuffer;
  length_buffer : AggBuffer;
  header_buffer : AggBuffer;
  upstream_data_buffer : AggBuffer;
  downstream_data_buffer : AggBuffer;
  fin_seen : bool;
  rst_seen : bool;
  count_after_fin : Z;
  finished : bool }.

(** The constructor sets neither [last_update_time] nor [finished]; [junk] are
    the values found in the memory. *)
Definition new_FlowBuffer (p : PointerRingPool) (junk : Z * bool)
  : res (FlowBuffer * PointerRingPool) :=
  '(t, p) ← new_AggBuffer p;
  '(l, p) ← new_AggBuffer p;
  '(h, p) ← new_AggBuffer p;
  '(u, p) ← new_AggBuffer p;
  '(d, p) ← new_AggBuffer p;
  Ok (mkFlowBuffer 0 (fst junk) t l h u d false false 0 (snd junk), p).

(** The destructor: the members in reverse order. *)
Definition delete_FlowBuffer (p : PointerRingPool) (f : FlowBuffer) : res PointerRingPool :=
  p ← delete_AggBuffer p (downstream_data_buffer f);
  p ← delete_AggBuffer p (upstream_data_buffer f);
  p ← delete_AggBuffer p (header_buffer f);
  p ← delete_AggBuffer p (length_buffer f);
  delete_AggBuffer p (timestamp_buffer f).

Definition append_packet (p : PointerRingPool) (f : FlowBuffer) (packet : ParsedPacket)
  : res (bool * PointerRingPool * FlowBuffer) :=
  '(ok, p, t) ← write p (timestamp_buffer f) (le_bytes 8 (timestamp packet)) 8;
  let f := mkFlowBuffer (packet_count f) (last_update_time f) t (length_buffer f)
             (header_buffer f) (upstream_data_buffer f) (downstream_data_buffer f)
             (fin_seen f) (rst_seen f) (count_after_fin f) (finished f) in
  if negb ok then Ok (false, p, f) else
  '(ok, p, l) ← write p (length_buffer f) (le_bytes 2 (data_length packet)) 2;
  let f := mkFlowBuffer (packet_count f) (last_update_time f) (timestamp_buffer f) l
             (header_buffer f) (upstream_data_buffer f) (downstream_data_buffer f)
             (fin_seen f) (rst_seen f) (count_after_fin f) (finished f) in
  if negb ok then Ok (false, p, f) else
  '(ok, p, h) ← write p (header_buffer f) (pheader packet) (header_length packet);
  let f := mkFlowBuffer (packet_count f) (last_update_time f) (timestamp_buffer f)
             (length_buffer f) h (upstream_data_buffer f) (downstream_data_buffer f)
             (fin_seen f) (rst_seen f) (count_after_fin f) (finished f) in
  if negb ok then Ok (false, p, f) else
  '(ok, p, u) ← (if is_upstream packet
                 then write p (upstream_data_buffer f) (pdata packet) (data_length packet)
                 else Ok (true, p, upstream_data_buffer f));
  let f := mkFlowBuffer (packet_count f) (last_update_time f) (timestamp_buffer f)
             (length_buffer f) (header_buffer f) u (downstream_data_buffer f)
             (fin_seen f) (rst_seen f) (count_after_fin f) (finished f) in
  if negb ok then Ok (false, p, f) else
  '(ok, p, d) ← write p (downstream_data_buffer f) (pdata packet) (data_length packet);
  let f := mkFlowBuffer (packet_count f) (last_update_time f) (timestamp_buffer f)
             (length_buffer f) (header_buffer f) (upstream_data_buffer f) d
             (fin_seen f) (rst_seen f) (count_after_fin f) (finished f) in
  if negb ok then Ok (false, p, f) else
  let fin := fin_seen f || is_fin packet in
  Ok (true, p,
      mkFlowBuffer (u64 (packet_count f + 1)) (timestamp packet) (timestamp_buffer f)
        (length_buffer f) (header_buffer f) (upstream_data_buffer f) (downstream_data_buffer f)
        fin (rst_seen f || is_rst packet)
        (if fin then u32 (count_after_fin f + 1) else count_after_fin f) (finished f)).

Definition is_finished (f : FlowBuffer) : bool :=
  (fin_seen f && (4 <=? count_after_fin f)) || rst_seen f || finished f.

Definition threshold_finished (f : FlowBuffer) (time_threshold ts : Z) : bool :=
  u64 (time_threshold + last_update_time f) <=? ts.

Definition set_finished (f : FlowBuffer) : FlowBuffer :=
  mkFlowBuffer (packet_count f) (last_update_time f) (timestamp_buffer f) (length_buffer f)
    (header_buffer f) (upstream_data_buffer f) (downstream_data_buffer f) (fin_seen f)
    (rst_seen f) (count_after_fin f) true.

Definition set_flags (f : FlowBuffer) (fin rst : bool) (count : Z) : FlowBuffer :=
  mkFlowBuffer (packet_count f) (last_update_time f) (timestamp_buffer f) (length_buffer f)
    (header_buffer f) (upstream_data_buffer f) (downstream_data_buffer f) fin rst count
    (finished f).

(** [get_totol_length]: a sum of 64-bit lengths returned in 32 bits. *)
Definition get_totol_length (f : FlowBuffer) : Z :=
  u32 (total_len (timestamp_buffer f) + total_len (length_buffer f)
       + total_len (header_buffer f) + total_len (upstream_data_buffer f)
       + total_len (downstream_data_buffer f) + 8).
Definition get_packet_count (f : FlowBuffer) : Z := u32 (packet_count f).
Definition get_last_update_time (f : FlowBuffer) : Z := u32 (last_update_time f).
Definition get_timestamp_length (f : FlowBuffer) : Z := u32 (total_len (timestamp_buffer f)).
Definition get_length_length (f : FlowBuffer) : Z := u32 (total_len (length_buffer f)).
Definition get_header_length (f : FlowBuffer) : Z := u32 (total_len (header_buffer f)).
Definition get_upstream_data_length (f : FlowBuffer) : Z := u32 (total_len (upstream_data_buffer f)).
Definition get_downstream_data_length (f : FlowBuffer) : Z :=
  u32 (total_len (downstream_data_buffer f)).

(** ** WBuffer *)
Record WBuffer := mkW {
  w_size : Z;
  w_block_size : Z;
  w_block_count : Z;
  w_buffer : list Z;
  w_signal : list bool;
  writingBlock : Z;
  writePos : Z;
  readingBlock : Z;
  w_stop : bool }.

Definition new_WBuffer (mapped : bool) (size bs : Z) : res WBuffer :=
  if bs =? 0 then Undef
  else if negb mapped then Throws
  else Ok (mkW size bs (size / bs) (replicate (Z.to_nat size) 0)
             (replicate (Z.to_nat (size / bs)) false) 0 0 0 false).

(** [memcpy(buffer + writingBlock * block_size + writePos, current->data, n)];
    [m] is the pool's memory. *)
Definition w_copy (w : WBuffer) (m : list Z) (chunk n : Z) : res WBuffer :=
  b ← memcpy (w_buffer w) (u64 (u64 (writingBlock w * w_block_size w) + writePos w)) m chunk n;
  Ok (mkW (w_size w) (w_block_size w) (w_block_count w) b (w_signal w) (writingBlock w)
        (writePos w) (readingBlock w) (w_stop w)).

(** The inner loop of [put]: while the chunk does not fit into the block, fill
    the block, wait for the next one and go on there.  Each turn takes at
    least one byte off [to_write], so [fuel] is the length of the chunk; a
    turn that takes nothing (an empty block) never ends. *)
Fixpoint put_full (fuel : nat) (w : WBuffer) (m : list Z) (chunk to_write remaining : Z)
  : res (WBuffer * Z * Z) :=
  if u64 (writePos w + to_write) <? w_block_size w then Ok (w, to_write, remaining)
  else
    let part := w_block_size w - writePos w in
    w ← w_copy w m chunk part;
    if w_block_count w =? 0 then Undef else
    s ← zget (w_signal w) (u64 (writingBlock w + 1) mod w_block_count w);
    if s : bool then Blocks else
    sg ← zset (w_signal w) (writingBlock w) true;
    let w := mkW (w_size w) (w_block_size w) (w_block_count w) (w_buffer w) sg
               (u64 (writingBlock w + 1) mod w_block_count w) 0 (readingBlock w) (w_stop w) in
    match fuel with
    | O => Blocks
    | S fuel => put_full fuel w m chunk (u64 (to_write - part)) (u64 (remaining - part))
    end.

Fixpoint put_chunks (w : WBuffer) (m : list Z) (bl remaining : Z) (l : list Z) : res WBuffer :=
  match l with
  | [] => Ok w
  | c :: l =>
      if remaining =? 0 then Ok w
      else
        let to_write := if remaining <? bl then remaining else bl in
        '(w, to_write, remaining) ← put_full (Z.to_nat to_write) w m c to_write remaining;
        w ← (if to_write =? 0 then Ok w else w_copy w m c to_write);
        put_chunks
          (mkW (w_size w) (w_block_size w) (w_block_count w) (w_buffer w) (w_signal w)
             (writingBlock w) (u64 (writePos w + to_write)) (readingBlock w) (w_stop w))
          m bl (u64 (remaining - to_write)) l
  end.

Definition put (w : WBuffer) (m : list Z) (a : AggBuffer) : res WBuffer :=
  put_chunks w m (getAggBlockSize a) (getTotalLen a) (getHeadChunk a).

Definition getWBlockSize (w : WBuffer) : Z := w_block_size w.

(** [get]: the start of the block that is read next. *)
Definition get (w : WBuffer) : res (Z * WBuffer) :=
  s ← zget (w_signal w) (readingBlock w);
  if negb s && negb (w_stop w) then Blocks
  else Ok (u64 (readingBlock w * w_block_size w),
           mkW (w_size w) (w_block_size w) (w_block_count w) (w_buffer w) (w_signal w)
             (writingBlock w) (writePos w) (u64 (readingBlock w + 1)) (w_stop w)).

Definition w_asynchronousStop (w : WBuffer) : WBuffer :=
  mkW (w_size w) (w_block_size w) (w_block_count w) (w_buffer w) (w_signal w)
    (writingBlock w) (writePos w) (readingBlock w) true.

(** ** FlowEngine *)
Record FlowEngine := mkEngine {
  eth_header_len : Z;
  flow_buffer_len_threshold : Z;
  flow_buffer_time_threshold : Z;
  pool : PointerRingPool;
  flow_map : gmap FlowMetadata FlowBuffer;
  wbuffer : WBuffer;
  flowToWbufferRing : Mpmc.PointerRingBuffer;
  stop : bool }.

Definition with_flows (e : FlowEngine) (p : PointerRingPool) (m : gmap FlowMetadata FlowBuffer)
  : FlowEngine :=
  mkEngine (eth_header_len e) (flow_buffer_len_threshold e) (flow_buffer_time_threshold e) p m
    (wbuffer e) (flowToWbufferRing e) (stop e).

(** The constructor stops the ring it is given. *)
Definition new_FlowEngine (eth len_thr time_thr : Z) (p : PointerRingPool) (w : WBuffer)
    (r : Mpmc.PointerRingBuffer) : FlowEngine :=
  mkEngine eth len_thr time_thr p ∅ w (Mpmc.asynchronousStop r) true.

Definition reverse_meta (m : FlowMetadata) : FlowMetadata :=
  {| sourceAddress := destinationAddress m; destinationAddress := sourceAddress m;
     sourcePort := destinationPort m; destinationPort := sourcePort m |}.

(** The two lookups: the buffer, the key it is under, and the direction. *)
Definition find_flow (fm : gmap FlowMetadata FlowBuffer) (meta : FlowMetadata)
  : option (FlowBuffer * FlowMetadata * bool) :=
  match fm !! meta with
  | Some f => Some (f, meta, true)
  | None =>
      match fm !! reverse_meta meta with
      | Some f => Some (f, reverse_meta meta, false)
      | None => None
      end
  end.

(** A new buffer for the packet, under [meta]; [flags] are those of the buffer
    it replaces. *)
Definition start_buffer (e : FlowEngine) (junk : Z * bool) (flags : option (bool * bool * Z))
    (packet : ParsedPacket) (meta : FlowMetadata) : res (bool * FlowEngine) :=
  '(f, p) ← new_FlowBuffer (pool e) junk;
  let f := match flags with Some (fin, rst, c) => set_flags f fin rst c | None => f end in
  '(ok, p, f) ← append_packet p f (with_upstream packet true);
  if negb ok then p ← delete_FlowBuffer p f; Ok (false, with_flows e p (flow_map e))
  else Ok (true, with_flows e p (<[meta := f]> (flow_map e))).

(** [writePacketToMap]: the buffer that left the table, with its key. *)
Definition writePacketToMap (e : FlowEngine) (junk : Z * bool) (packet : ParsedPacket)
    (meta : FlowMetadata) : res (option (FlowMetadata * FlowBuffer) * FlowEngine) :=
  match find_flow (flow_map e) meta with
  | None =>
      '(_, e) ← start_buffer e junk None packet meta;
      Ok (None, e)
  | Some (buffer, key, up) =>
      let packet := with_upstream packet up in
      if (u32 (get_totol_length buffer + data_length packet + header_length packet)
            <? flow_buffer_len_threshold e)
         && negb (is_finished buffer)
         && negb (threshold_finished buffer (flow_buffer_time_threshold e) (timestamp packet))
      then
        '(_, p, buffer) ← append_packet (pool e) buffer packet;
        if is_finished buffer
        then Ok (Some (key, buffer), with_flows e p (delete key (flow_map e)))
        else Ok (None, with_flows e p (<[key := buffer]> (flow_map e)))
      else
        let flags := if is_finished buffer then None
                     else Some (fin_seen buffer, rst_seen buffer, count_after_fin buffer) in
        '(ok, e) ← start_buffer e junk flags packet key;
        if negb ok then Ok (None, e) else Ok (Some (key, buffer), e)
  end.

Definition with_wbuffer (e : FlowEngine) (p : PointerRingPool) (w : WBuffer) : FlowEngine :=
  mkEngine (eth_header_len e) (flow_buffer_len_threshold e) (flow_buffer_time_threshold e) p
    (flow_map e) w (flowToWbufferRing e) (stop e).

(** [writeFlowtoWBuffer]: five [put]s, then the buffer is deleted. *)
Definition writeFlowtoWBuffer (e : FlowEngine) (f : FlowBuffer) : res FlowEngine :=
  let m := mem_pool (pool e) in
  w ← put (wbuffer e) m (timestamp_buffer f);
  w ← put w m (length_buffer f);
  w ← put w m (header_buffer f);
  w ← put w m (upstream_data_buffer f);
  w ← put w m (downstream_data_buffer f);
  p ← delete_FlowBuffer (pool e) f;
  Ok (with_wbuffer e p w).

(** The packets of one burst, received at [ts]; [packet] is the local variable
    of [run] that keeps its flags. *)
Fixpoint run_burst (e : FlowEngine) (junk : Z * bool) (ts : Z) (packet : ParsedPacket)
    (bufs : list Mbuf) : res (ParsedPacket * FlowEngine) :=
  match bufs with
  | [] => Ok (packet, e)
  | buf :: bufs =>
      r ← readPacket (eth_header_len e) buf ts packet;
      match r with
      | None => run_burst e junk ts packet bufs
      | Some (packet, meta) =>
          '(out, e) ← writePacketToMap e junk packet meta;
          e ← match out with
              | Some (_, buffer) => writeFlowtoWBuffer e buffer
              | None => Ok e
              end;
          run_burst e junk ts packet bufs
      end
  end.

Definition with_ring (e : FlowEngine) (r : Mpmc.PointerRingBuffer) : FlowEngine :=
  mkEngine (eth_header_len e) (flow_buffer_len_threshold e) (flow_buffer_time_threshold e)
    (pool e) (flow_map e) (wbuffer e) r (stop e).

(** The second loop of [run]: entries the checker put into the ring; [kvs] is
    the memory they point to.  An entry that is not in the table is erased by
    its end iterator, which is undefined. *)
Fixpoint drain_ring (fuel : nat) (e : FlowEngine) (kvs : gmap Z (FlowMetadata * FlowBuffer))
  : res FlowEngine :=
  '(kv, r) ← Mpmc.get (flowToWbufferRing e);
  let e := with_ring e r in
  if kv =? 0 then Ok e
  else
    match kvs !! kv with
    | None => Undef
    | Some (meta, _) =>
        match flow_map e !! meta with
        | Some _ => match fuel with O => Blocks | S fuel => drain_ring fuel e kvs end
        | None => Undef
        end
    end.

(** The end of [run]: every buffer that is left is written and deleted; the
    table keeps its pointers.  [order] is the order of the hash table. *)
Fixpoint write_rest (e : FlowEngine) (order : list FlowMetadata) : res FlowEngine :=
  match order with
  | [] => Ok e
  | meta :: order =>
      match flow_map e !! meta with
      | Some f => e ← writeFlowtoWBuffer e f; write_rest e order
      | None => Undef
      end
  end.

(** [run]: the bursts with their times until the one at which [stop] is seen. *)
Fixpoint run_loop (e : FlowEngine) (junk : Z * bool) (kvs : gmap Z (FlowMetadata * FlowBuffer))
    (packet : ParsedPacket) (bursts : list (Z * list Mbuf)) : res FlowEngine :=
  match bursts with
  | [] => Ok e
  | (ts, bufs) :: bursts =>
      '(packet, e) ← run_burst e junk ts packet bufs;
      e ← drain_ring (Z.to_nat (Mpmc.capacity_ (flowToWbufferRing e))) e kvs;
      run_loop e junk kvs packet bursts
  end.

(** [asynchronousStop] and the first statement of [run]. *)
Definition with_stop (e : FlowEngine) (b : bool) : FlowEngine :=
  mkEngine (eth_header_len e) (flow_buffer_len_threshold e) (flow_buffer_time_threshold e)
    (pool e) (flow_map e) (wbuffer e) (flowToWbufferRing e) b.
Definition engine_asynchronousStop (e : FlowEngine) : FlowEngine := with_stop e true.

Definition run (e : FlowEngine) (junk : Z * bool) (kvs : gmap Z (FlowMetadata * FlowBuffer))
    (packet : ParsedPacket) (bursts : list (Z * list Mbuf))
    (order : gmap FlowMetadata FlowBuffer -> list FlowMetadata) : res FlowEngine :=
  e ← run_loop (with_stop e false) junk kvs packet bursts;
  let e := engine_asynchronousStop e in
  write_rest e (order (flow_map e)).

(** ** Dumper *)
Record Dumper := mkDumper {
  d_offset : Z;
  d_capacity : Z;
  write_place : Z;
  d_stop : bool }.

Definition new_Dumper (offset capacity : Z) : Dumper := mkDumper offset capacity 0 true.

(** [dump]: [ok] says whether [pwrite] succeeds, in full. *)
Definition dump (d : Dumper) (disk : list Z) (ok : bool) (buf : list Z) (pos size : Z)
  : res (Dumper * list Z) :=
  if negb ok then Throws else
  disk ← memcpy disk (u64 (d_offset d + write_place d)) buf pos size;
  if d_capacity d =? 0 then Undef else
  Ok (mkDumper (d_offset d) (d_capacity d) (u64 (write_place d + size) mod d_capacity d) (d_stop d),
      disk).

(** One turn of the dumper's [run]. *)
Definition dump_turn (d : Dumper) (w : WBuffer) (disk : list Z) (ok : bool)
  : res (Dumper * WBuffer * list Z) :=
  '(buf, w) ← get w;
  '(d, disk) ← dump d disk ok (w_buffer w) buf (getWBlockSize w);
  Ok (d, w, disk).

(** [run]: the buffer as each turn finds it, with the outcome of its write,
    until the turn that sees [stop]. *)
Fixpoint dump_loop (d : Dumper) (disk : list Z) (turns : list (WBuffer * bool)) : res (Dumper * list Z) :=
  match turns with
  | [] => Ok (d, disk)
  | (w, ok) :: turns => '(d, _, disk) ← dump_turn d w disk ok; dump_loop d disk turns
  end.

Definition dumper_with_stop (d : Dumper) (b : bool) : Dumper :=
  mkDumper (d_offset d) (d_capacity d) (write_place d) b.
Definition dumper_asynchronousStop (d : Dumper) : Dumper := dumper_with_stop d true.

Definition dumper_run (d : Dumper) (disk : list Z) (turns : list (WBuffer * bool)) : res (Dumper * list Z) :=
  '(d, disk) ← dump_loop (dumper_with_stop d false) disk turns;
  Ok (dumper_asynchronousStop d, disk).


(** ** What a flow buffer holds *)

(** The bytes a packet adds to the five streams of its buffer. *)
Definition packet_streams (p : ParsedPacket) : list (list Z) :=
  [le_bytes 8 (timestamp p); le_bytes 2 (data_length p);
   zslice 0 (header_length p) (pheader p);
   (if is_upstream p then zslice 0 (data_length p) (pdata p) else []);
   zslice 0 (data_length p) (pdata p)].

(** The streams of a list of packets. *)
Fixpoint streams (ps : list ParsedPacket) : list (list Z) :=
  match ps with
  | [] => [[]; []; []; []; []]
  | p :: ps => zip_with (fun a b => a ++ b) (packet_streams p) (streams ps)
  end.

Definition fb_aggs (f : FlowBuffer) : list AggBuffer :=
  [timestamp_buffer f; length_buffer f; header_buffer f; upstream_data_buffer f;
   downstream_data_buffer f].

Definition all_chunks (l : list AggBuffer) : list Z := concat (chunks <$> l).
Definition fb_chunks (f : FlowBuffer) : list Z := all_chunks (fb_aggs f).

Lemma streams_snoc ps p :
  streams (ps ++ [p]) = zip_with (fun a b => a ++ b) (streams ps) (packet_streams p).
Proof.
  induction ps as [|q ps IH]; cbn [app streams].
  - cbn [packet_streams zip_with]. by rewrite !app_nil_r.
  - rewrite IH. destruct (streams ps) as [|a [|b [|c [|d [|e []]]]]]; cbn [packet_streams zip_with];
      rewrite ?app_assoc; done.
Qed.

Lemma streams_five ps : exists a b c d e, streams ps = [a; b; c; d; e].
Proof.
  induction ps as [|p ps (a & b & c & d & e & E)]; cbn [streams]; [eauto 6|].
  rewrite E. cbn. eauto 6.
Qed.

Lemma all_chunks_middle A a B :
  all_chunks (A ++ a :: B) ≡ₚ chunks a ++ all_chunks (A ++ B).
Proof.
  unfold all_chunks. rewrite !fmap_app, fmap_cons, !concat_app. simpl.
  rewrite Permutation_app_swap_app. done.
Qed.

Lemma app_reverse5 {A} (a b c d e r : list A) :
  e ++ d ++ c ++ b ++ a ++ r ≡ₚ a ++ b ++ c ++ d ++ e ++ r.
Proof.
  rewrite (Permutation_app_swap_app b a), (Permutation_app_swap_app c a), (Permutation_app_swap_app d a),
    (Permutation_app_swap_app e a). apply Permutation_app_head.
  rewrite (Permutation_app_swap_app c b), (Permutation_app_swap_app d b), (Permutation_app_swap_app e b).
  apply Permutation_app_head.
  rewrite (Permutation_app_swap_app d c), (Permutation_app_swap_app e c). apply Permutation_app_head.
  apply Permutation_app_swap_app.
Qed.

Section buffers.
Context (N bs : Z).
Hypothesis HN : 0 < N.
Hypothesis Hdiv : (N | 2 ^ 64).
Hypothesis Hbs : 8 <= bs < 2 ^ 62.
Local Abbreviation bytes_of := (block_bytes bs).
Local Abbreviation ok := (pool_ok N bs).

(** Buffers [l] of one pool hold the byte lists [ss]. *)
Definition aggs_ok (m : list Z) (l : list AggBuffer) (ss : list (list Z)) : Prop :=
  Forall2 (agg_ok bs m) l ss.

Lemma aggs_ok_frame m m' l ss :
  (forall b, b ∈ all_chunks l -> bytes_of m' b = bytes_of m b) -> aggs_ok m l ss -> aggs_ok m' l ss.
Proof.
  intros Hm HF. induction HF as [|a s l ss Ha HF IH]; [constructor|].
  unfold all_chunks in Hm. simpl in Hm. constructor.
  - eapply agg_ok_frame; [|exact Ha]. intros b Hb. apply Hm, elem_of_app. by left.
  - apply IH. intros b Hb. apply Hm, elem_of_app. by right.
Qed.

(** A write to one of several buffers. *)
Lemma write_one p fl A a B R SA s SB data len :
  ok p fl (all_chunks (A ++ a :: B) ++ R) ->
  aggs_ok (mem_pool p) (A ++ a :: B) (SA ++ s :: SB) -> length A = length SA ->
  0 <= len <= bs -> len <= zlen data -> zlen s + len < 2 ^ 64 -> fl <> [] ->
  exists p' a' fl', write p a data len = Ok (true, p', a') /\ zlen fl - 1 <= zlen fl' /\
    ok p' fl' (all_chunks (A ++ a' :: B) ++ R) /\
    aggs_ok (mem_pool p') (A ++ a' :: B) (SA ++ (s ++ zslice 0 len data) :: SB) /\
    forall b, b ∈ R -> bytes_of (mem_pool p') b = bytes_of (mem_pool p) b.
Proof.
  intros Hp HF HA Hlen Hd Hs Hfl. apply Forall2_app_inv in HF as [HFA HFB]; [|done].
  inversion HFB as [|? ? ? ? Ha HFB']; subst.
  assert (Hp' : ok p fl (chunks a ++ (all_chunks (A ++ B) ++ R))).
  { eapply pool_ok_perm; [|exact Hp]. by rewrite all_chunks_middle, app_assoc. }
  destruct (agg_write_ok N bs HN Hdiv ltac:(lia) a p fl _ s data len Hp' Ha Hlen Hd Hs ltac:(lia))
    as [[_ ->]|(p' & a' & fl' & used & Hw & -> & Hc & Hok & Ha' & Hu & Hf)]; [done|].
  exists p', a', fl'. split; [done|]. split; [rewrite zlen_app; lia|].
  split; [eapply pool_ok_perm; [|exact Hok]; by rewrite all_chunks_middle, app_assoc|].
  assert (Hframe : forall l, (forall b, b ∈ all_chunks l -> b ∈ all_chunks (A ++ B)) ->
    forall ss, aggs_ok (mem_pool p) l ss -> aggs_ok (mem_pool p') l ss).
  { intros l Hl ss. apply aggs_ok_frame. intros b Hb. apply Hf, elem_of_app. left. by apply Hl. }
  split; [|intros b Hb; apply Hf, elem_of_app; by right].
  apply Forall2_app; [|constructor; [done|]]; (eapply Hframe; [|done]); intros b Hb;
    unfold all_chunks in *; rewrite fmap_app, concat_app; apply elem_of_app; tauto.
Qed.

(** The same for the buffer at a place of the list; [R] are blocks of others. *)
Definition held (p : PointerRingPool) (fl R : list Z) (l : list AggBuffer) (ss : list (list Z)) :=
  ok p fl (all_chunks l ++ R) /\ aggs_ok (mem_pool p) l ss.
Definition same_for (R : list Z) (p p' : PointerRingPool) : Prop :=
  forall b, b ∈ R -> bytes_of (mem_pool p') b = bytes_of (mem_pool p) b.

Lemma write_at p fl R l ss (i : nat) a s data len :
  held p fl R l ss -> l !! i = Some a -> ss !! i = Some s ->
  0 <= len <= bs -> len <= zlen data -> zlen s + len < 2 ^ 64 -> 1 <= zlen fl ->
  exists p' a' fl', write p a data len = Ok (true, p', a') /\ zlen fl - 1 <= zlen fl' /\
    held p' fl' R (<[i := a']> l) (<[i := s ++ zslice 0 len data]> ss) /\ same_for R p p'.
Proof.
  intros [Hp HF] Ha Hs Hlen Hd Hsl Hfl.
  pose proof (lookup_lt_Some _ _ _ Ha). pose proof (lookup_lt_Some _ _ _ Hs).
  destruct (write_one p fl (take i l) a (drop (S i) l) R (take i ss) s (drop (S i) ss) data len)
    as (p' & a' & fl' & Hw & Hl & Hok & Hf & Hsame);
    rewrite ?(take_drop_middle _ _ _ Ha), ?(take_drop_middle _ _ _ Hs); try done.
  { rewrite !length_take. lia. }
  { intros ->. by vm_compute in Hfl. }
  exists p', a', fl'. rewrite !insert_take_drop by done. done.
Qed.

Definition fb_ok (m : list Z) (f : FlowBuffer) (ps : list ParsedPacket) : Prop :=
  aggs_ok m (fb_aggs f) (streams ps).

(** A packet whose parts fit into a block and lie inside its memory. *)
Definition packet_ok (p : ParsedPacket) : Prop :=
  0 <= header_length p <= bs /\ header_length p <= zlen (pheader p) /\
  0 <= data_length p <= bs /\ data_length p <= zlen (pdata p).

Lemma packet_streams_short p :
  packet_ok p -> Forall (fun s => zlen s <= bs) (packet_streams p).
Proof.
  intros (? & ? & ? & ?). unfold packet_streams.
  repeat apply Forall_cons_2; [| | | | |apply Forall_nil_2]; rewrite ?zlen_le_bytes; try lia.
  - rewrite zlen_zslice by lia. lia.
  - destruct (is_upstream p); [rewrite zlen_zslice by lia; lia|]. change (zlen []) with 0. lia.
  - rewrite zlen_zslice by lia. lia.
Qed.

Lemma streams_short ps :
  Forall packet_ok ps -> Forall (fun s => zlen s <= zlen ps * bs) (streams ps).
Proof.
  induction 1 as [|p ps Hp _ IH]; cbn [streams].
  { repeat apply Forall_cons_2; [done..|apply Forall_nil_2]. }
  pose proof (packet_streams_short p Hp) as Hs. rewrite zlen_cons.
  apply Forall_lookup. intros i x Hx. apply lookup_zip_with_Some in Hx as (a & b & -> & Ha & Hb).
  rewrite zlen_app. pose proof (Forall_lookup_1 _ _ _ _ Hs Ha). pose proof (Forall_lookup_1 _ _ _ _ IH Hb).
  simpl in *. lia.
Qed.

(** *** Construction *)
Lemma new_fb_ok p fl R junk :
  ok p fl R -> 5 <= zlen fl ->
  exists p' f fl', new_FlowBuffer p junk = Ok (f, p') /\ zlen fl - 5 <= zlen fl' /\
    ok p' fl' (fb_chunks f ++ R) /\ fb_ok (mem_pool p') f [] /\ mem_pool p' = mem_pool p /\
    fin_seen f = false /\ rst_seen f = false /\ finished f = snd junk.
Proof.
  intros Hp Hl. do 5 (destruct fl as [|? fl]; [vm_compute in Hl; exfalso; by apply Hl|]).
  assert (Hb : 0 < bs) by lia.
  destruct (new_agg_ok N bs HN Hdiv Hb _ _ _ _ Hp) as (p1 & a1 & E1 & H1 & A1 & M1).
  destruct (new_agg_ok N bs HN Hdiv Hb _ _ _ _ H1) as (p2 & a2 & E2 & H2 & A2 & M2).
  destruct (new_agg_ok N bs HN Hdiv Hb _ _ _ _ H2) as (p3 & a3 & E3 & H3 & A3 & M3).
  destruct (new_agg_ok N bs HN Hdiv Hb _ _ _ _ H3) as (p4 & a4 & E4 & H4 & A4 & M4).
  destruct (new_agg_ok N bs HN Hdiv Hb _ _ _ _ H4) as (p5 & a5 & E5 & H5 & A5 & M5).
  exists p5, (mkFlowBuffer 0 (fst junk) a1 a2 a3 a4 a5 false false 0 (snd junk)), fl.
  unfold new_FlowBuffer. rewrite E1; cbn [mbind res_bind]. rewrite E2; cbn [mbind res_bind].
  rewrite E3; cbn [mbind res_bind]. rewrite E4; cbn [mbind res_bind]. rewrite E5.
  split; [done|]. split; [rewrite !zlen_cons; lia|]. split; [|split].
  - eapply pool_ok_perm; [|exact H5]. unfold fb_chunks, all_chunks. simpl. rewrite app_nil_r.
    rewrite <-!app_assoc. apply app_reverse5.
  - unfold fb_ok, aggs_ok. cbn [fb_aggs streams timestamp_buffer length_buffer header_buffer
      upstream_data_buffer downstream_data_buffer]. rewrite M5, M4, M3, M2 in *.
    rewrite M1 in *. repeat (apply Forall2_cons_2; [done|]). apply Forall2_nil_2.
  - split; [congruence|done].
Qed.
End buffers.

Section appending.
Context (N bs : Z).
Hypothesis HN : 0 < N.
Hypothesis Hdiv : (N | 2 ^ 64).
Hypothesis Hbs : 8 <= bs < 2 ^ 62.
Local Abbreviation held := (held N bs).
Local Abbreviation same_for := (same_for bs).

(** The next [write] of [append_packet], to the buffer at place [i]; a
    goal is left for each bound. *)
Ltac write_next H i data len :=
  let p := fresh "p" in let a := fresh "a" in let fl := fresh "fl" in
  let W := fresh "W" in let L := fresh "L" in let S := fresh "S" in
  let H' := fresh "Held" in
  destruct (write_at N bs HN Hdiv Hbs _ _ _ _ _ i _ _ data len H eq_refl eq_refl)
    as (p & a & fl & W & L & H' & S);
  [try lia | rewrite ?zlen_le_bytes; try lia | try lia | try lia | cbn [insert list_insert] in H'].

(** The write that only packets of the upstream direction make. *)
Lemma write_upstream p fl R t l h u d s1 s2 s3 s4 s5 pk :
  held p fl R [t; l; h; u; d] [s1; s2; s3; s4; s5] -> packet_ok bs pk ->
  zlen s4 + data_length pk < 2 ^ 64 -> 1 <= zlen fl ->
  exists p' u' fl',
    (if is_upstream pk then write p u (pdata pk) (data_length pk) else Ok (true, p, u))
      = Ok (true, p', u') /\ zlen fl - 1 <= zlen fl' /\
    held p' fl' R [t; l; h; u'; d]
      [s1; s2; s3; s4 ++ (if is_upstream pk then zslice 0 (data_length pk) (pdata pk) else []); s5] /\
    same_for R p p'.
Proof.
  intros H (_ & _ & Hd & Hdl) Hs Hfl. destruct (is_upstream pk).
  - write_next H 3%nat (pdata pk) (data_length pk). eauto 8.
  - exists p, u, fl. rewrite app_nil_r. split; [done|]. split; [lia|]. done.
Qed.

Lemma append_ok p fl f ps pk R :
  held p fl R (fb_aggs f) (streams ps) -> Forall (packet_ok bs) ps -> packet_ok bs pk ->
  (zlen ps + 1) * bs < 2 ^ 64 -> 5 <= zlen fl ->
  exists p' f' fl', append_packet p f pk = Ok (true, p', f') /\ zlen fl - 5 <= zlen fl' /\
    held p' fl' R (fb_aggs f') (streams (ps ++ [pk])) /\ same_for R p p'.
Proof.
  intros H Hps Hpk Hn Hfl. pose proof (streams_short bs Hbs ps Hps) as Hs.
  rewrite streams_snoc. destruct (streams_five ps) as (s1 & s2 & s3 & s4 & s5 & E). rewrite E in *.
  repeat (apply Forall_cons_1 in Hs as [? Hs]). cbn [zip_with packet_streams].
  pose proof Hpk as (Hh & Hhl & Hd & Hdl). destruct f as [pc lut t l h u d fin rst cnt fini].
  change (fb_aggs _) with [t; l; h; u; d] in H.
  write_next H 0%nat (le_bytes 8 (timestamp pk)) 8.
  write_next Held 1%nat (le_bytes 2 (data_length pk)) 2.
  write_next Held0 2%nat (pheader pk) (header_length pk).
  destruct (write_upstream _ _ _ _ _ _ _ _ _ _ _ _ _ pk Held1 Hpk)
    as (q & u' & flq & Wq & Lq & Hq & Sq); [lia..|].
  write_next Hq 4%nat (pdata pk) (data_length pk).
  rewrite (zslice_full (le_bytes 8 _)), (zslice_full (le_bytes 2 _)) in *
    by (by rewrite zlen_le_bytes).
  unfold append_packet. cbn [timestamp_buffer length_buffer header_buffer upstream_data_buffer
    downstream_data_buffer packet_count last_update_time fin_seen rst_seen count_after_fin finished].
  rewrite W; cbn [mbind res_bind negb length_buffer].
  rewrite W0; cbn [mbind res_bind negb header_buffer].
  rewrite W1; cbn [mbind res_bind negb upstream_data_buffer].
  rewrite Wq; cbn [mbind res_bind negb downstream_data_buffer].
  rewrite W2; cbn [mbind res_bind negb].
  eexists _, _, _. split; [done|]. split; [|split; [done|]]; [lia|].
  intros b Hb. by rewrite S2, Sq, S1, S0, S.
Qed.
End appending.

(** ** The table and the buffers that left it *)

(** A buffer with the packets it is to hold. *)
Local Abbreviation item := (FlowBuffer * list ParsedPacket)%type.

Definition items_chunks (items : list item) : list Z := concat (fb_chunks ∘ fst <$> items).

Section items.
Context (N bs : Z).
Hypothesis HN : 0 < N.
Hypothesis Hdiv : (N | 2 ^ 64).
Hypothesis Hbs : 8 <= bs < 2 ^ 62.
Local Abbreviation ok := (pool_ok N bs).

Definition item_ok (n : Z) (m : list Z) (it : item) : Prop :=
  fb_ok bs m (fst it) (snd it) /\ Forall (packet_ok bs) (snd it) /\ zlen (snd it) <= n.

(** All buffers of the pool [p] hold their packets; none holds more than [n]. *)
Definition items_ok (n : Z) (p : PointerRingPool) (fl : list Z) (items : list item) : Prop :=
  ok p fl (items_chunks items) /\ Forall (item_ok n (mem_pool p)) items.

Lemma items_ok_perm n p fl items items' :
  items ≡ₚ items' -> items_ok n p fl items -> items_ok n p fl items'.
Proof.
  intros E [Hp HF]. split; [|by rewrite <-E].
  eapply pool_ok_perm; [|exact Hp]. unfold items_chunks. by rewrite E.
Qed.

Lemma items_ok_more n n' p fl items : n <= n' -> items_ok n p fl items -> items_ok n' p fl items.
Proof.
  intros Hn [Hp HF]. split; [done|]. eapply Forall_impl; [exact HF|].
  intros it (? & ? & ?). split; [done|]. split; [done|]. lia.
Qed.

(** The items whose blocks an operation leaves alone. *)
Lemma items_frame n p p' items :
  same_for bs (items_chunks items) p p' ->
  Forall (item_ok n (mem_pool p)) items -> Forall (item_ok n (mem_pool p')) items.
Proof.
  intros Hs HF. rewrite Forall_forall in HF |- *. intros it Hit.
  destruct (HF it Hit) as (Hok & Hrest). split; [|done].
  eapply aggs_ok_frame; [|exact Hok]. intros b Hb. apply Hs. unfold items_chunks.
  apply list_elem_of_In, in_concat. exists (fb_chunks (fst it)).
  rewrite <-!list_elem_of_In. split; [|done]. apply list_elem_of_fmap. by exists it.
Qed.

Lemma append_item n p fl f ps rest pk :
  items_ok n p fl ((f, ps) :: rest) -> packet_ok bs pk -> (n + 1) * bs < 2 ^ 64 -> 5 <= zlen fl ->
  exists p' f' fl', append_packet p f pk = Ok (true, p', f') /\ zlen fl - 5 <= zlen fl' /\
    items_ok (n + 1) p' fl' ((f', ps ++ [pk]) :: rest).
Proof.
  intros [Hp HF] Hpk Hn Hfl. apply Forall_cons_1 in HF as [(Hf & Hps & Hlen) HF]. cbn [fst snd] in *.
  destruct (append_ok N bs HN Hdiv Hbs p fl f ps pk (items_chunks rest))
    as (p' & f' & fl' & Ha & Hl & [Hok Hfb] & Hs); [done|done|done|nia|done|].
  exists p', f', fl'. split; [done|]. split; [done|]. split; [done|]. constructor.
  - split; [done|]. cbn [snd]. split; [apply Forall_app; split; [done|by constructor]|].
    rewrite zlen_app. change (zlen [pk]) with 1. lia.
  - eapply items_frame in HF; [|done]. eapply Forall_impl; [exact HF|].
    intros it (? & ? & ?). split; [done|]. split; [done|]. lia.
Qed.

(** A new buffer with its flags and its first packet. *)
Lemma new_item n p fl rest junk (flags : option (bool * bool * Z)) pk :
  items_ok n p fl rest -> 0 <= n -> packet_ok bs pk -> (n + 1) * bs < 2 ^ 64 -> 10 <= zlen fl ->
  exists p1 f1 p' f' fl', new_FlowBuffer p junk = Ok (f1, p1) /\
    append_packet p1 (match flags with
                      | Some (fin, rst, c) => set_flags f1 fin rst c | None => f1 end) pk
      = Ok (true, p', f') /\
    zlen fl - 10 <= zlen fl' /\ items_ok (n + 1) p' fl' ((f', [pk]) :: rest).
Proof.
  intros [Hp HF] Hn0 Hpk Hn Hfl.
  destruct (new_fb_ok N bs HN Hdiv Hbs p fl _ junk Hp ltac:(lia))
    as (p1 & f1 & fl1 & Hnew & Hl1 & Hp1 & Hf1 & Hm & _).
  assert (H1 : items_ok n p1 fl1 ((match flags with
                 | Some (fin, rst, c) => set_flags f1 fin rst c | None => f1 end, []) :: rest)).
  { split; [by destruct flags as [[[? ?] ?]|]|]. constructor; [|by rewrite Hm].
    split; [by destruct flags as [[[? ?] ?]|]|]. split; [constructor|done]. }
  destruct (append_item n p1 fl1 _ [] rest pk H1 Hpk Hn ltac:(lia))
    as (p' & f' & fl' & Ha & Hl & Hok).
  exists p1, f1, p', f', fl'. split; [done|]. split; [done|]. split; [lia|done].
Qed.

Lemma delete_fb_ok p fl f R :
  ok p fl (fb_chunks f ++ R) ->
  exists p' fl', delete_FlowBuffer p f = Ok p' /\ ok p' fl' R /\
    zlen fl' = zlen fl + zlen (fb_chunks f) /\ mem_pool p' = mem_pool p.
Proof.
  intros Hp. assert (Hp' : ok p fl (chunks (downstream_data_buffer f) ++ chunks (upstream_data_buffer f)
    ++ chunks (header_buffer f) ++ chunks (length_buffer f) ++ chunks (timestamp_buffer f) ++ R)).
  { eapply pool_ok_perm; [|exact Hp]. unfold fb_chunks, all_chunks. simpl.
    rewrite app_nil_r, <-!app_assoc. symmetry. apply app_reverse5. }
  destruct (delete_agg_ok N bs HN Hdiv _ _ _ _ Hp') as (p1 & D1 & H1 & M1).
  destruct (delete_agg_ok N bs HN Hdiv _ _ _ _ H1) as (p2 & D2 & H2 & M2).
  destruct (delete_agg_ok N bs HN Hdiv _ _ _ _ H2) as (p3 & D3 & H3 & M3).
  destruct (delete_agg_ok N bs HN Hdiv _ _ _ _ H3) as (p4 & D4 & H4 & M4).
  destruct (delete_agg_ok N bs HN Hdiv _ _ _ _ H4) as (p5 & D5 & H5 & M5).
  eexists p5, _. unfold delete_FlowBuffer. rewrite D1. cbn [mbind res_bind]. rewrite D2.
  cbn [mbind res_bind]. rewrite D3. cbn [mbind res_bind]. rewrite D4. cbn [mbind res_bind].
  split; [done|]. split; [exact H5|]. split; [|congruence].
  unfold fb_chunks, all_chunks. simpl. rewrite app_nil_r, !zlen_app. lia.
Qed.
End items.

(** ** Packets of a flow *)

(** Both directions of a flow. *)
Definition same_flow (q k : FlowMetadata) : bool :=
  bool_decide (k = q) || bool_decide (reverse_meta k = q).

(** A packet without the direction that the table gave it. *)
Definition strip (p : ParsedPacket) : ParsedPacket := with_upstream p true.

Definition flow_of {A} (q : FlowMetadata) (l : list (FlowMetadata * A)) : list A :=
  snd <$> filter (fun x => same_flow q (fst x) = true) l.

(** The packets of flow [q] in the buffers that left the table. *)
Definition flow_out (q : FlowMetadata) (out : list (FlowMetadata * item)) : list ParsedPacket :=
  concat (snd <$> flow_of q out).

Definition held_by (M : gmap FlowMetadata item) (k : FlowMetadata) : list ParsedPacket :=
  default [] (snd <$> M !! k).

(** Those in the table, where the flow is under one of its two keys. *)
Definition flow_left (q : FlowMetadata) (M : gmap FlowMetadata item) : list ParsedPacket :=
  held_by M q ++ (if decide (reverse_meta q = q) then [] else held_by M (reverse_meta q)).

(** No flow is in the table under both keys. *)
Definition one_key (M : gmap FlowMetadata item) : Prop :=
  forall k x, M !! k = Some x -> reverse_meta k <> k -> M !! reverse_meta k = None.

Lemma reverse_reverse k : reverse_meta (reverse_meta k) = k.
Proof. by destruct k. Qed.

Lemma reverse_swap a b : reverse_meta a = b <-> a = reverse_meta b.
Proof. split; [intros <-|intros ->]; by rewrite reverse_reverse. Qed.

Lemma same_flow_spec q k : same_flow q k = true <-> k = q \/ reverse_meta k = q.
Proof. unfold same_flow. by rewrite orb_true_iff, !bool_decide_eq_true. Qed.

Lemma same_flow_reverse q k : same_flow q (reverse_meta k) = same_flow q k.
Proof. unfold same_flow. rewrite reverse_reverse. apply orb_comm. Qed.

Lemma flow_of_app {A} q (l l' : list (FlowMetadata * A)) : flow_of q (l ++ l') = flow_of q l ++ flow_of q l'.
Proof. unfold flow_of. by rewrite filter_app, fmap_app. Qed.

Lemma flow_of_one {A} q k (x : A) : flow_of q [(k, x)] = if same_flow q k then [x] else [].
Proof. unfold flow_of. rewrite filter_cons. cbn [fst]. by destruct (same_flow q k). Qed.

Lemma flow_out_app q out k it :
  flow_out q (out ++ [(k, it)]) = flow_out q out ++ (if same_flow q k then snd it else []).
Proof.
  unfold flow_out. rewrite flow_of_app, flow_of_one, fmap_app, concat_app. f_equal.
  destruct (same_flow q k); [apply app_nil_r|done].
Qed.

(** The table's part of a flow is what is under the flow's key. *)
Lemma flow_left_key q k M :
  (reverse_meta k <> k -> M !! reverse_meta k = None) -> same_flow q k = true ->
  flow_left q M = held_by M k.
Proof.
  intros H1 Hq. apply same_flow_spec in Hq. unfold flow_left. destruct Hq as [->|<-].
  - case_decide as E; [by rewrite app_nil_r|].
    unfold held_by at 2. rewrite H1 by done. by rewrite app_nil_r.
  - rewrite reverse_reverse. case_decide as E.
    + rewrite app_nil_r. by rewrite <-E.
    + unfold held_by at 1. rewrite H1 by congruence. done.
Qed.

(** Changing the table at a key leaves other flows alone. *)
Lemma flow_left_other q k M M' :
  (forall k', k' <> k -> M' !! k' = M !! k') -> same_flow q k = false ->
  flow_left q M' = flow_left q M.
Proof.
  intros HM Hq. unfold same_flow in Hq. apply orb_false_iff in Hq as [H1 H2].
  apply bool_decide_eq_false in H1, H2. unfold flow_left, held_by.
  rewrite (HM q) by done. case_decide; [done|].
  rewrite (HM (reverse_meta q)); [done|]. intros E. apply H2. by rewrite <-E, reverse_reverse.
Qed.

Lemma find_flow_spec (M : gmap FlowMetadata item) meta :
  one_key M ->
  match find_flow (fst <$> M) meta with
  | None => M !! meta = None /\ M !! reverse_meta meta = None
  | Some (f, key, up) => exists ps, M !! key = Some (f, ps) /\
      (key = meta \/ key = reverse_meta meta) /\ (reverse_meta key <> key -> M !! reverse_meta key = None)
  end.
Proof.
  intros H1. unfold find_flow. rewrite !lookup_fmap.
  destruct (M !! meta) as [[f ps]|] eqn:E; simpl.
  { exists ps. split; [done|]. split; [by left|]. by apply (H1 meta (f, ps)). }
  destruct (M !! reverse_meta meta) as [[f ps]|] eqn:E'; simpl; [|done].
  exists ps. split; [done|]. split; [by right|]. by apply (H1 _ (f, ps)).
Qed.

Lemma one_key_insert M k x :
  one_key M -> (reverse_meta k <> k -> M !! reverse_meta k = None) -> one_key (<[k := x]> M).
Proof.
  intros H1 Hk k' x' Hl Hne. destruct (decide (k' = k)) as [->|].
  - rewrite lookup_insert_ne by done. by apply Hk.
  - rewrite lookup_insert_ne in Hl by done. destruct (decide (reverse_meta k' = k)) as [E|].
    + subst k. rewrite reverse_reverse in Hk. rewrite Hk in Hl by done. done.
    + rewrite lookup_insert_ne by done. by eapply H1.
Qed.

Lemma one_key_delete M k : one_key M -> one_key (delete k M).
Proof.
  intros H1 k' x' Hl Hne. apply lookup_delete_Some in Hl as [_ Hl].
  apply lookup_delete_None. right. by eapply H1.
Qed.

(** *** The buffers of a table as a list *)
Definition table_items (M : gmap FlowMetadata item) : list item := snd <$> map_to_list M.

Lemma table_items_lookup M k x : M !! k = Some x -> table_items M ≡ₚ x :: table_items (delete k M).
Proof. intros E. unfold table_items. by rewrite <-(map_to_list_delete M k x E). Qed.

Lemma table_items_insert M k x : table_items (<[k := x]> M) ≡ₚ x :: table_items (delete k M).
Proof.
  rewrite <-insert_delete_eq. unfold table_items. by rewrite map_to_list_insert by apply lookup_delete_eq.
Qed.

Lemma table_items_delete_none M k : M !! k = None -> table_items (delete k M) = table_items M.
Proof. intros E. by rewrite delete_id. Qed.

Section table.
Context (N bs : Z).
Hypothesis HN : 0 < N.
Hypothesis Hdiv : (N | 2 ^ 64).
Hypothesis Hbs : 8 <= bs < 2 ^ 62.
Local Abbreviation items_ok := (items_ok N bs).

(** The table [M] with ghost packets, and what left it. *)
Definition table_ok (n : Z) (e : FlowEngine) (fl : list Z) (M : gmap FlowMetadata item)
    (out : list (FlowMetadata * item)) : Prop :=
  flow_map e = fst <$> M /\ one_key M /\ items_ok n (pool e) fl (table_items M ++ (snd <$> out)).

(** Every flow's packets, in order: those that left, then those held. *)
Definition keeps (hist : list (FlowMetadata * ParsedPacket)) (M : gmap FlowMetadata item)
    (out : list (FlowMetadata * item)) : Prop :=
  forall q, strip <$> flow_of q hist = strip <$> (flow_out q out ++ flow_left q M).

(** What left at one step. *)
Definition left_now (key : FlowMetadata) (o : option item) : list (FlowMetadata * item) :=
  match o with Some it => [(key, it)] | None => [] end.

Lemma keeps_step hist M M' out key meta pk o :
  keeps hist M out -> key = meta \/ key = reverse_meta meta ->
  (forall k', k' <> key -> M' !! k' = M !! k') ->
  (reverse_meta key <> key -> M !! reverse_meta key = None) ->
  strip <$> (match o with Some it => snd it | None => [] end ++ held_by M' key)
    = strip <$> (held_by M key ++ [pk]) ->
  keeps (hist ++ [(meta, pk)]) M' (out ++ left_now key o).
Proof.
  intros Hk Hkey Hother H1 Hnew q.
  assert (Hq : same_flow q meta = same_flow q key)
    by (destruct Hkey as [->| ->]; [done|by rewrite same_flow_reverse]).
  rewrite flow_of_app, flow_of_one, Hq.
  assert (Ho : flow_out q (out ++ left_now key o) =
    flow_out q out ++ (if same_flow q key then match o with Some it => snd it | None => [] end else [])).
  { destruct o as [it|]; cbn [left_now]; [apply flow_out_app|].
    rewrite app_nil_r. by destruct (same_flow q key); rewrite app_nil_r. }
  rewrite Ho. destruct (same_flow q key) eqn:Es.
  - assert (H1' : reverse_meta key <> key -> M' !! reverse_meta key = None)
      by (intros Hne; rewrite Hother by done; auto).
    rewrite (flow_left_key q key M') by done.
    rewrite fmap_app, Hk, (flow_left_key q key M) by done.
    rewrite !fmap_app in *. rewrite <-!app_assoc. f_equal. done.
  - rewrite !app_nil_r, (flow_left_other q key M M') by done. apply Hk.
Qed.

Lemma start_ok e junk flags pk key n fl rest :
  items_ok n (pool e) fl rest -> 0 <= n -> packet_ok bs pk -> (n + 1) * bs < 2 ^ 64 ->
  10 <= zlen fl ->
  exists p' f' fl', start_buffer e junk flags pk key
      = Ok (true, with_flows e p' (<[key := f']> (flow_map e))) /\
    zlen fl - 10 <= zlen fl' /\ items_ok (n + 1) p' fl' ((f', [with_upstream pk true]) :: rest).
Proof.
  intros Hok Hn Hpk Hsz Hfl.
  destruct (new_item N bs HN Hdiv Hbs n (pool e) fl rest junk flags (with_upstream pk true))
    as (p1 & f1 & p' & f' & fl' & Hnew & Happ & Hl & Hok'); [done..|].
  exists p', f', fl'. split; [|done]. unfold start_buffer. rewrite Hnew. cbn [mbind res_bind].
  rewrite Happ. done.
Qed.

(** What a step is to achieve: key [key] changed, [o] left. *)
Definition step_done (n : Z) (fl : list Z) hist out meta pk key (o : option item)
    (e' : FlowEngine) : Prop :=
  exists fl' M', zlen fl - 10 <= zlen fl' /\ table_ok (n + 1) e' fl' M' (out ++ left_now key o) /\
    keeps (hist ++ [(meta, pk)]) M' (out ++ left_now key o).

Lemma strip_with p b : strip (with_upstream p b) = strip p.
Proof. done. Qed.

Lemma held_by_insert M k f ps : held_by (<[k := (f, ps)]> M) k = ps.
Proof. unfold held_by. by rewrite lookup_insert_eq. Qed.

(** A flow that is not in the table. *)
Lemma step_new e junk pk meta n fl M out hist :
  table_ok n e fl M out -> keeps hist M out -> packet_ok bs pk -> 0 <= n ->
  (n + 1) * bs < 2 ^ 64 -> 10 <= zlen fl ->
  M !! meta = None -> M !! reverse_meta meta = None ->
  exists e', start_buffer e junk None pk meta = Ok (true, e') /\
    step_done n fl hist out meta pk meta None e'.
Proof.
  intros (Hmap & H1 & Hok) Hk Hpk Hn Hsz Hfl Hm Hr.
  destruct (start_ok e junk None pk meta n fl _ Hok Hn Hpk Hsz Hfl) as (p' & f' & fl' & Hs & Hl & Hok').
  eexists. split; [exact Hs|]. exists fl', (<[meta := (f', [with_upstream pk true])]> M).
  split; [done|]. cbn [left_now]. rewrite app_nil_r. split.
  - split; [by rewrite fmap_insert, <-Hmap|]. split; [by apply one_key_insert|].
    eapply items_ok_perm; [|exact Hok']. by rewrite table_items_insert, table_items_delete_none.
  - rewrite <-(app_nil_r out). apply (keeps_step hist M _ out meta meta pk None); [done|by left| |done|].
    + intros k' Hne. by rewrite lookup_insert_ne.
    + rewrite held_by_insert. unfold held_by. by rewrite Hm.
Qed.

(** A packet for a buffer of the table. *)
Lemma step_append e pk up meta key f ps n fl M out hist :
  table_ok n e fl M out -> keeps hist M out -> packet_ok bs pk -> 0 <= n ->
  (n + 1) * bs < 2 ^ 64 -> 10 <= zlen fl -> M !! key = Some (f, ps) ->
  key = meta \/ key = reverse_meta meta ->
  (reverse_meta key <> key -> M !! reverse_meta key = None) ->
  exists p' f', append_packet (pool e) f (with_upstream pk up) = Ok (true, p', f') /\
    step_done n fl hist out meta pk key (Some (f', ps ++ [with_upstream pk up]))
      (with_flows e p' (delete key (flow_map e))) /\
    step_done n fl hist out meta pk key None (with_flows e p' (<[key := f']> (flow_map e))).
Proof.
  intros (Hmap & H1 & Hok) Hk Hpk Hn Hsz Hfl Hf Hkey Hr.
  assert (Hok1 : items_ok n (pool e) fl ((f, ps) :: table_items (delete key M) ++ (snd <$> out))).
  { eapply items_ok_perm; [|exact Hok]. by rewrite (table_items_lookup M key _ Hf). }
  destruct (append_item N bs HN Hdiv Hbs n (pool e) fl f ps _ (with_upstream pk up) Hok1)
    as (p' & f' & fl' & Ha & Hl & Hok'); [done|done|lia|].
  exists p', f'. split; [done|]. split.
  - exists fl', (delete key M). split; [lia|]. split.
    + split; [by rewrite fmap_delete, <-Hmap|]. split; [by apply one_key_delete|].
      eapply items_ok_perm; [|exact Hok']. cbn [left_now]. rewrite fmap_app. simpl.
      rewrite app_assoc. apply Permutation_cons_append.
    + apply (keeps_step hist M); [done|done| |done|].
      * intros k' Hne. by rewrite lookup_delete_ne.
      * unfold held_by. rewrite lookup_delete_eq, Hf. cbn. by rewrite app_nil_r, !fmap_app.
  - exists fl', (<[key := (f', ps ++ [with_upstream pk up])]> M). split; [lia|].
    cbn [left_now]. rewrite app_nil_r. split.
    + split; [by rewrite fmap_insert, <-Hmap|]. split; [by apply one_key_insert|].
      eapply items_ok_perm; [|exact Hok']. by rewrite table_items_insert.
    + rewrite <-(app_nil_r out). apply (keeps_step hist M _ out key meta pk None); [done|done| |done|].
      * intros k' Hne. by rewrite lookup_insert_ne.
      * rewrite held_by_insert. unfold held_by. rewrite Hf. cbn. by rewrite !fmap_app.
Qed.

(** A new buffer in the place of one that leaves. *)
Lemma step_replace e junk flags pk meta key f ps n fl M out hist :
  table_ok n e fl M out -> keeps hist M out -> packet_ok bs pk -> 0 <= n ->
  (n + 1) * bs < 2 ^ 64 -> 10 <= zlen fl -> M !! key = Some (f, ps) ->
  key = meta \/ key = reverse_meta meta ->
  (reverse_meta key <> key -> M !! reverse_meta key = None) ->
  exists e', start_buffer e junk flags pk key = Ok (true, e') /\
    step_done n fl hist out meta pk key (Some (f, ps)) e'.
Proof.
  intros (Hmap & H1 & Hok) Hk Hpk Hn Hsz Hfl Hf Hkey Hr.
  destruct (start_ok e junk flags pk key n fl _ Hok Hn Hpk Hsz Hfl) as (p' & f' & fl' & Hs & Hl & Hok').
  eexists. split; [exact Hs|]. exists fl', (<[key := (f', [with_upstream pk true])]> M).
  split; [done|]. split.
  - split; [by rewrite fmap_insert, <-Hmap|]. split; [by apply one_key_insert|].
    eapply items_ok_perm; [|exact Hok']. cbn [left_now]. rewrite fmap_app. simpl.
    rewrite table_items_insert, (table_items_lookup M key _ Hf), app_assoc. simpl.
    apply perm_skip, Permutation_cons_append.
  - apply (keeps_step hist M); [done|done| |done|].
    + intros k' Hne. by rewrite lookup_insert_ne.
    + rewrite held_by_insert. unfold held_by. rewrite Hf. cbn. by rewrite !fmap_app.
Qed.

Lemma table_step e junk pk meta n fl M out hist :
  table_ok n e fl M out -> keeps hist M out -> packet_ok bs pk -> 0 <= n ->
  (n + 1) * bs < 2 ^ 64 -> 10 <= zlen fl ->
  exists key o e', writePacketToMap e junk pk meta = Ok ((fun it => (key, fst it)) <$> o, e') /\
    step_done n fl hist out meta pk key o e'.
Proof.
  intros Ht Hk Hpk Hn Hsz Hfl. pose proof Ht as (Hmap & H1 & _). unfold writePacketToMap.
  rewrite Hmap. pose proof (find_flow_spec M meta H1) as Hfind.
  destruct (find_flow (fst <$> M) meta) as [[[f key] up]|].
  - destruct Hfind as (ps & Hf & Hkey & Hr). case_test.
    + destruct (step_append e pk up meta key f ps n fl M out hist)
        as (p' & f' & Ha & Hleave & Hstay); [done..|].
      rewrite Ha. cbn [mbind res_bind]. rewrite <-Hmap. case_test.
      * exists key, (Some (f', ps ++ [with_upstream pk up])). eexists. by split; [|exact Hleave].
      * exists key, None. eexists. by split; [|exact Hstay].
    + edestruct (step_replace e junk) as (e' & Hs & Hd); [done..|].
      change (start_buffer e junk ?x (with_upstream pk up) key) with (start_buffer e junk x pk key).
      rewrite Hs. cbn [mbind res_bind negb]. exists key, (Some (f, ps)), e'. by split.
  - destruct Hfind as [Hm Hr].
    destruct (step_new e junk pk meta n fl M out hist) as (e' & Hs & Hd); [done..|].
    rewrite Hs. cbn [mbind res_bind]. exists meta, None, e'. by split.
Qed.
End table.

(** ** Runs of packets *)

(** The packets of a run one after the other, as the bursts of [run] hand them
    to [writePacketToMap]; the buffers that left, with their keys. *)
Fixpoint write_packets (e : FlowEngine) (l : list (Z * bool * (FlowMetadata * ParsedPacket)))
  : res (list (FlowMetadata * FlowBuffer) * FlowEngine) :=
  match l with
  | [] => Ok ([], e)
  | (junk, (meta, pk)) :: l =>
      '(r, e) ← writePacketToMap e junk pk meta;
      '(rest, e) ← write_packets e l;
      Ok (match r with Some x => x :: rest | None => rest end, e)
  end.

Lemma write_packets_ok N bs (HN : 0 < N) (Hdiv : (N | 2 ^ 64)) (Hbs : 8 <= bs < 2 ^ 62) l :
  forall e n fl M out hist,
  table_ok N bs n e fl M out -> keeps hist M out -> Forall (packet_ok bs ∘ snd ∘ snd) l -> 0 <= n ->
  (n + zlen l) * bs < 2 ^ 64 -> 10 * zlen l <= zlen fl ->
  exists more e' fl' M', write_packets e l = Ok ((fun x => (fst x, fst (snd x))) <$> more, e') /\
    table_ok N bs (n + zlen l) e' fl' M' (out ++ more) /\ keeps (hist ++ (snd <$> l)) M' (out ++ more).
Proof.
  induction l as [|[junk [meta pk]] l IH]; intros e n fl M out hist Ht Hk Hl Hn Hsz Hfl.
  { exists [], e, fl, M. change (zlen []) with 0. rewrite Z.add_0_r, !app_nil_r. done. }
  apply Forall_cons_1 in Hl as [Hpk Hl]. rewrite zlen_cons in *. pose proof (zlen_nonneg l).
  destruct (table_step N bs HN Hdiv Hbs e junk pk meta n fl M out hist)
    as (key & o & e1 & Hw & fl1 & M1 & Hl1 & Ht1 & Hk1); [done|done|done|done|nia|lia|].
  destruct (IH e1 (n + 1) fl1 M1 _ _ Ht1 Hk1 Hl) as (more & e' & fl' & M' & Hws & Ht' & Hk');
    [lia|nia|lia|].
  exists (left_now key o ++ more), e', fl', M'. cbn [write_packets]. rewrite Hw. cbn [mbind res_bind].
  rewrite Hws. cbn [mbind res_bind]. split; [by destruct o|].
  replace (n + (1 + zlen l)) with (n + 1 + zlen l) by lia. rewrite app_assoc.
  split; [done|]. rewrite <-app_assoc in Hk'. done.
Qed.

Lemma empty_table_ok N bs e fl :
  pool_ok N bs (pool e) fl [] -> flow_map e = ∅ -> table_ok N bs 0 e fl ∅ [].
Proof.
  intros Hp Hm. split; [by rewrite Hm, fmap_empty|].
  split; [by intros k x; rewrite lookup_empty|].
  unfold table_items. rewrite map_to_list_empty. split; [done|constructor].
Qed.

Lemma empty_keeps : keeps [] ∅ [].
Proof.
  intros q. unfold flow_left, held_by. rewrite !lookup_empty. by case_decide.
Qed.

Lemma table_ok_buffers N bs n e fl M out :
  table_ok N bs n e fl M out ->
  (forall k f ps, M !! k = Some (f, ps) -> fb_ok bs (mem_pool (pool e)) f ps) /\
  Forall (fun x => fb_ok bs (mem_pool (pool e)) (fst (snd x)) (snd (snd x))) out.
Proof.
  intros (_ & _ & _ & HF). apply Forall_app in HF as [HM Hout]. split.
  - intros k f ps E. rewrite Forall_forall in HM. destruct (HM (f, ps)) as [Hok _]; [|done].
    unfold table_items. apply list_elem_of_fmap. exists (k, (f, ps)). split; [done|].
    by apply elem_of_map_to_list.
  - rewrite Forall_fmap in Hout. eapply Forall_impl; [exact Hout|]. by intros x (Hok & _).
Qed.

(** C29: With ten free blocks per packet the table never stops: after any run
    of packets, of any flows in both directions, the buffers in the table and
    those that left it hold, stream by stream, exactly the bytes of their
    packets, and for every flow the packets of the buffers that left, followed
    by those of the buffer in the table, are the packets of the flow in the
    order of their arrival. *)
Theorem flow_table_keeps_packets N bs e fl l :
  0 < N -> (N | 2 ^ 64) -> 8 <= bs < 2 ^ 62 ->
  pool_ok N bs (pool e) fl [] -> flow_map e = ∅ ->
  Forall (packet_ok bs ∘ snd ∘ snd) l -> zlen l * bs < 2 ^ 64 -> 10 * zlen l <= zlen fl ->
  exists out e' M,
    write_packets e l = Ok ((fun x => (fst x, fst (snd x))) <$> out, e') /\
    flow_map e' = fst <$> M /\
    (forall k f ps, M !! k = Some (f, ps) -> fb_ok bs (mem_pool (pool e')) f ps) /\
    Forall (fun x => fb_ok bs (mem_pool (pool e')) (fst (snd x)) (snd (snd x))) out /\
    forall q, strip <$> flow_of q (snd <$> l) = strip <$> (flow_out q out ++ flow_left q M).
Proof.
  intros HN Hdiv Hbs Hp Hm Hl Hsz Hfl.
  destruct (write_packets_ok N bs HN Hdiv Hbs l e 0 fl ∅ [] []) as (out & e' & fl' & M & Hw & Ht & Hk);
    [by apply empty_table_ok|apply empty_keeps|done|lia|lia|done|].
  exists out, e', M. split; [done|]. split; [apply Ht|].
  pose proof (table_ok_buffers _ _ _ _ _ _ _ Ht) as [HM Hout]. done.
Qed.

Module DemoFlow.
Definition meta_a : FlowMetadata := mkMeta [1; 0; 0; 10] [2; 0; 0; 10] 4000 80.
Definition packet (ts : Z) (data : list Z) (rst : bool) : ParsedPacket :=
mkParsed false data (zlen data) [69; 0] 2 ts false rst.
(** Sixty-four blocks of sixteen bytes; buffers leave at 200 bytes. *)
Definition engine : FlowEngine :=
new_FlowEngine 14 200 1000
  (from_res (mkPool 0 0 0 0 0 [] [] []) (new_PointerRingPool true 0 1024 16))
  (from_res (mkW 0 0 0 [] [] 0 0 0 false) (new_WBuffer true 64 32))
  (Mpmc.new_ring 8 (0, 0, false)).
Definition run3 : list (Z * bool * (FlowMetadata * ParsedPacket)) :=
[((0, false), (meta_a, packet 5 [1; 2; 3] false));
 ((0, false), (reverse_meta meta_a, packet 6 [4; 5] false));
 ((0, false), (meta_a, packet 7 [6] true))].

Lemma flow_table_keeps_packets_witness :
exists out e' M,
  write_packets engine run3 = Ok ((fun x => (fst x, fst (snd x))) <$> out, e') /\
  strip <$> flow_of meta_a (snd <$> run3) = strip <$> (flow_out meta_a out ++ flow_left meta_a M).
Proof.
destruct (new_pool_ok 64 16 1024 0) as (p & Hp & Hok); [lia|exists (2 ^ 58); done|lia|done|done|].
destruct (flow_table_keeps_packets 64 16 engine ((fun i => i * 16) <$> zseq 64) run3)
  as (out & e' & M & Hw & _ & _ & _ & Hk).
- lia.
- exists (2 ^ 58). done.
- lia.
- replace (pool engine) with p; [exact Hok|].
  change (pool engine) with (from_res (mkPool 0 0 0 0 0 [] [] []) (new_PointerRingPool true 0 1024 16)).
  by rewrite Hp.
- done.
- repeat apply Forall_cons_2; [| | |apply Forall_nil_2]; vm_compute; repeat split; done.
- vm_compute. done.
- vm_compute. done.
- exists out, e', M. split; [exact Hw|exact (Hk meta_a)].
Defined.

(** The run in numbers: one buffer left, with the three packets. *)
Lemma run3_leaves_one :
(fun r => (length (fst r), bool_decide (flow_map (snd r) = ∅),
           packet_count <$> (snd <$> fst r))) <$> write_packets engine run3
= Ok (1%nat, true, [3]).
Proof. vm_compute. done. Qed.
End DemoFlow.

(** ** Writing to the [WBuffer] *)

Lemma zsplice_zsplice_next {A} off (a b l : list A) :
  0 <= off -> off + zlen a + zlen b <= zlen l ->
  zsplice (off + zlen a) b (zsplice off a l) = zsplice off (a ++ b) l.
Proof.
  intros Ho Hl. pose proof (zlen_nonneg a). pose proof (zlen_nonneg b).
  apply list_eq. intros j.
  rewrite !lookup_zsplice by (rewrite ?zlen_zsplice, ?zlen_app; lia). rewrite zlen_app.
  repeat case_decide; try lia; try done.
  - rewrite lookup_app_r by (unfold zlen in *; lia). f_equal. unfold zlen in *. lia.
  - rewrite lookup_app_l by (unfold zlen in *; lia). done.
Qed.

Section wbuffer.
Context (N bs : Z).
Hypothesis HN : 0 < N.
Hypothesis Hbs : 0 < bs < 2 ^ 62.

(** [w] with [n] more bytes [b] in its block. *)
Definition put_at (w : WBuffer) (bytes : list Z) : WBuffer :=
  mkW (w_size w) (w_block_size w) (w_block_count w)
    (zsplice (writingBlock w * w_block_size w + writePos w) bytes (w_buffer w))
    (w_signal w) (writingBlock w) (writePos w + zlen bytes) (readingBlock w) (w_stop w).

(** The block that is being written lies inside the buffer. *)
Definition w_ok (w : WBuffer) : Prop :=
  0 <= writingBlock w /\ 0 <= writePos w < w_block_size w /\ w_block_size w < 2 ^ 62 /\
  (writingBlock w + 1) * w_block_size w <= zlen (w_buffer w) < 2 ^ 62.

Lemma put_at_ok w bytes :
  w_ok w -> writePos w + zlen bytes < w_block_size w -> w_ok (put_at w bytes).
Proof.
  intros (H1 & H2 & H3 & H4) Hb. pose proof (zlen_nonneg bytes).
  unfold w_ok. cbn [put_at writingBlock writePos w_block_size w_buffer].
  rewrite zlen_zsplice by nia. lia.
Qed.

Lemma put_at_nil w : put_at w [] = w.
Proof.
  destruct w. unfold put_at, zsplice. change (zlen []) with 0.
  cbn [w_size w_block_size w_block_count w_buffer w_signal writingBlock writePos readingBlock w_stop].
  cbn [length app]. by rewrite Nat.add_0_r, take_drop, Z.add_0_r.
Qed.

Lemma put_at_app w a b :
  w_ok w -> writePos w + zlen a + zlen b < w_block_size w ->
  put_at (put_at w a) b = put_at w (a ++ b).
Proof.
  intros (H1 & H2 & H3 & H4) Hb. pose proof (zlen_nonneg a). pose proof (zlen_nonneg b).
  unfold put_at. cbn [w_size w_block_size w_block_count w_buffer w_signal writingBlock writePos
    readingBlock w_stop]. f_equal; [|rewrite zlen_app; lia].
  rewrite Z.add_assoc. apply zsplice_zsplice_next; [nia|nia].
Qed.

(** One chunk that fits into the block. *)
Lemma put_chunk_fits w m c n remaining bl l :
  w_ok w -> N * bs <= zlen m -> valid_block N bs c -> 0 < n <= bs -> remaining < 2 ^ 63 ->
  n = (if remaining <? bl then remaining else bl) -> n <= remaining ->
  writePos w + n < w_block_size w ->
  put_chunks w m bl remaining (c :: l)
  = put_chunks (put_at w (zslice c n m)) m bl (remaining - n) l.
Proof.
  intros (H1 & H2 & H3 & H4) Hm Hc Hn Hrem En Hle Hfit.
  destruct (valid_inside N bs HN ltac:(lia) m c Hm Hc) as [Hc0 Hc1]. cbn [put_chunks].
  replace (remaining =? 0) with false by (symmetry; apply Z.eqb_neq; lia). rewrite <-En.
  assert (Hput : put_full (Z.to_nat n) w m c n remaining = Ok (w, n, remaining)).
  { destruct (Z.to_nat n); cbn [put_full]; rewrite u64_small by lia;
      by replace (writePos w + n <? w_block_size w) with true by (symmetry; apply Z.ltb_lt; lia). }
  rewrite Hput. cbn [mbind res_bind]. replace (n =? 0) with false by (symmetry; apply Z.eqb_neq; lia).
  assert (0 <= writingBlock w * w_block_size w) by nia.
  rewrite Z.mul_add_distr_r, Z.mul_1_l in H4.
  unfold w_copy. rewrite (u64_small (writingBlock w * _)) by lia.
  rewrite (u64_small (_ + writePos w)) by lia.
  rewrite memcpy_Ok by lia. cbn [mbind res_bind w_size w_block_size w_block_count w_buffer w_signal
    writingBlock writePos readingBlock w_stop].
  rewrite !u64_small by lia. unfold put_at. rewrite zlen_zslice by lia. done.
Qed.

Lemma put_chunks_fit m c tail k w :
  N * bs <= zlen m -> Forall (valid_block N bs) (c ++ [tail]) -> 0 <= k < bs ->
  w_ok w -> writePos w + (zlen c * bs + k) < w_block_size w ->
  put_chunks w m bs (zlen c * bs + k) (c ++ [tail])
  = Ok (put_at w (concat (block_bytes bs m <$> c) ++ take (Z.to_nat k) (block_bytes bs m tail))).
Proof.
  intros Hm Hv Hk. revert w. induction c as [|b c IH]; intros w Hw Hfit;
    pose proof (proj1 (proj2 Hw)); pose proof (proj1 (proj2 (proj2 Hw))).
  - apply Forall_cons_1 in Hv as [Ht _]. change (zlen []) with 0 in *. rewrite Z.mul_0_l, Z.add_0_l in *.
    destruct (decide (k = 0)) as [->|Hk0].
    + change (concat (block_bytes bs m <$> []) ++ take (Z.to_nat 0) (block_bytes bs m tail)) with (@nil Z).
      by rewrite put_at_nil.
    + cbn [app]. rewrite (put_chunk_fits w m tail k) by
        (done || lia || (destruct (Z.ltb_spec k bs); lia)).
      rewrite Z.sub_diag. cbn [put_chunks concat fmap list_fmap app]. unfold block_bytes.
      by rewrite take_zslice by lia.
  - cbn [app] in Hv. apply Forall_cons_1 in Hv as [Hb Hv]. rewrite zlen_cons in *.
    pose proof (zlen_nonneg c). assert (0 <= zlen c * bs) by nia.
    assert (Hlb : zlen (block_bytes bs m b) = bs) by (apply (length_block N bs); done || lia).
    assert (Hlt : zlen (take (Z.to_nat k) (block_bytes bs m tail)) = k).
    { apply Forall_app in Hv as [_ Hv]. apply Forall_cons_1 in Hv as [Ht _].
      unfold block_bytes. destruct (valid_inside N bs HN ltac:(lia) m tail Hm Ht).
      rewrite take_zslice by lia. apply zlen_zslice; lia. }
    assert (Hlc : zlen (concat (block_bytes bs m <$> c)) = zlen c * bs).
    { apply Forall_app in Hv as [Hv _]. clear -Hv HN Hbs Hm.
      induction Hv as [|x c Hx _ IHc]; [done|]. cbn [fmap list_fmap concat].
      rewrite zlen_app, zlen_cons, IHc, (length_block N bs) by (done || lia). lia. }
    cbn [app fmap list_fmap concat]. rewrite (put_chunk_fits w m b bs) by
      (done || lia || (destruct (Z.ltb_spec ((1 + zlen c) * bs + k) bs); lia)).
    replace ((1 + zlen c) * bs + k - bs) with (zlen c * bs + k) by lia.
    fold (block_bytes bs m b). rewrite IH.
    + f_equal. rewrite <-app_assoc. apply put_at_app; [done|]. rewrite zlen_app. lia.
    + done.
    + apply put_at_ok; [done|]. lia.
    + cbn [put_at writePos w_block_size]. lia.
Qed.

(** Appending a whole buffer that fits into the block: its bytes, in order,
    and nothing else. *)
Lemma put_fits w m a bytes :
  w_ok w -> N * bs <= zlen m -> Forall (valid_block N bs) (chunks a) -> agg_ok bs m a bytes ->
  writePos w + zlen bytes < w_block_size w ->
  put w m a = Ok (put_at w bytes).
Proof.
  intros Hw Hm Hv (E1 & E2 & c & tail & k & Ec & Hk & Hl & Hb) Hfit. unfold put.
  unfold getAggBlockSize, getTotalLen, getHeadChunk. rewrite E1, E2, Ec, Hl in *. rewrite Hb.
  by apply put_chunks_fit.
Qed.
End wbuffer.

Module DemoWrite.
Definition dummy_pool : PointerRingPool := mkPool 0 0 0 0 0 [] [] [].
Definition dummy_w : WBuffer := mkW 0 0 0 [] [] 0 0 0 false.

(** A pool of four blocks of eight bytes with one buffer of six bytes. *)
Definition one_buffer : res (PointerRingPool * AggBuffer) :=
'(a, p) ← new_AggBuffer (from_res dummy_pool (new_PointerRingPool true 0 32 8));
'(_, p, a) ← write p a [1; 2; 3; 4; 5; 6] 6;
Ok (p, a).

(** A chunk that crosses the end of a block is copied from its start again:
  four bytes fit, and the next block gets the bytes 1 and 2 in the place of
  5 and 6. *)
Lemma put_crossing_repeats_bytes :
('(p, a) ← one_buffer;
 w ← new_WBuffer true 8 4;
 w ← put w (mem_pool p) a;
 Ok (w_buffer w, writingBlock w, writePos w))
= Ok ([1; 2; 3; 4; 1; 2; 0; 0], 1, 2).
Proof. vm_compute. done. Qed.

(** [get] does not clear the flag of a block, so once every block was written
  the writer waits for ever, however often the dumper has read; and the
  reader's counter leaves the array. *)
Lemma second_round_blocks :
('(p, a) ← one_buffer;
 w ← new_WBuffer true 8 4;
 w ← put w (mem_pool p) a;
 '(_, w) ← get w;
 put w (mem_pool p) a) = Blocks /\
('(p, a) ← one_buffer;
 w ← new_WBuffer true 8 4;
 '(_, w) ← get (w_asynchronousStop w);
 '(_, w) ← get w;
 get w) = Undef.
Proof. vm_compute. done. Qed.

(** The data offset of a TCP header with eight words, the length with the
  usual options, is read through a signed [char]. *)
Lemma tcp_length_of_8_words : tcp_header_length 0x80 = 224 /\ tcp_header_length 0x50 = 20.
Proof. vm_compute. done. Qed.

(** An Ethernet frame with IPv4 and UDP, four bytes of data and no room
  behind: the length that [readPacket] takes includes the link header, so
  the 14 bytes behind the packet count as data. *)
Definition udp_frame : list Z :=
replicate 14 0 ++ [69; 0; 0; 32; 0; 0; 0; 0; 64; 17; 0; 0; 10; 0; 0; 1; 10; 0; 0; 2]
  ++ [15; 160; 0; 53; 0; 12; 0; 0] ++ [1; 2; 3; 4].
Definition after_fin : ParsedPacket := mkParsed true [] 0 [] 0 0 true false.

Lemma data_length_counts_link_header :
(option_map (fun r => (data_length (fst r), zlen (pdata (fst r))))
   <$> readPacket 14 (mkMbuf udp_frame (zlen udp_frame)) 7 after_fin)
= Ok (Some (18, 4)).
Proof. vm_compute. done. Qed.

(** A UDP packet keeps the FIN flag of the TCP packet that was read before. *)
Lemma udp_keeps_fin_flag :
(option_map (fun r => is_fin (fst r))
   <$> readPacket 14 (mkMbuf udp_frame (zlen udp_frame)) 7 after_fin)
= Ok (Some true).
Proof. vm_compute. done. Qed.

(** At the end of [run] the buffers are deleted and stay in the table, whose
  destructor deletes them again. *)
Lemma rest_stays_in_table e order e' :
write_rest e order = Ok e' -> flow_map e' = flow_map e.
Proof.
revert e. induction order as [|k order IH]; intros e H; cbn [write_rest] in H; [by simplify_eq|].
destruct (flow_map e !! k) as [f|]; [|done].
apply bind_Ok_iff in H as (e1 & H1 & H2). rewrite (IH e1 H2).
unfold writeFlowtoWBuffer in H1. do 6 (apply bind_Ok_iff in H1 as (? & _ & H1)).
by injection H1 as <-.
Qed.
End DemoWrite.
