(* ===== verification/FlosisControl.v ===== *)
(** * Checker and controller of the Flosis baseline (baseline/flosis: checker.cpp, controller.cpp)

    The checker looks through copies of the flow tables for buffers that are
    idle; the controller builds the tables, rings, buffers and threads of the
    comparison system, starts and stops them and deletes them.  Shared objects
    are named by their place in the controller's vectors. *)
From Stdlib Require Import ZArith Lia Bool.
From S2P Require Import Prelude Util Aggregator RingBuffer FlosisPool FlosisFlow.

(** ** FlowChecker *)
Record FlowChecker := mkChecker {
  checker_time_threshold : Z;
  flow_maps : list Z;
  checkRings : list Z;
  checker_stop : bool;
  checker_core : option Z }.

Definition new_FlowChecker (thr : Z) (core : option Z) : FlowChecker := mkChecker thr [] [] true core.

Definition addCheckMap (c : FlowChecker) (map ring : Z) : FlowChecker :=
  mkChecker (checker_time_threshold c) (flow_maps c ++ [map]) (checkRings c ++ [ring])
    (checker_stop c) (checker_core c).

(** What the checkers share with the engines: tables and rings. *)
Record Shared := mkShared {
  tables : list (gmap FlowMetadata FlowBuffer);
  rings : list Mpmc.PointerRingBuffer }.

(** One entry of the copy: the buffer it points to is marked, and the address
    [a] of the entry goes into the ring. *)
Definition check_entry (thr ts map ring : Z) (kv : FlowMetadata * FlowBuffer) (a : Z) (s : Shared)
  : res Shared :=
  if threshold_finished (snd kv) thr ts then
    t ← zget (tables s) map;
    t' ← zset (tables s) map (<[fst kv := set_finished (snd kv)]> t);
    r ← zget (rings s) ring;
    '(_, r) ← Mpmc.put r a;
    rs ← zset (rings s) ring r;
    Ok (mkShared t' rs)
  else Ok s.

Fixpoint check_entries (thr ts map ring : Z) (copy : list (FlowMetadata * FlowBuffer * Z)) (s : Shared)
  : res Shared :=
  match copy with
  | [] => Ok s
  | (kv, a) :: copy => s ← check_entry thr ts map ring kv a s; check_entries thr ts map ring copy s
  end.

(** [check]: [copy] gives the entries of a copy of a table in the order of its
    iteration, with their addresses. *)
Definition check (c : FlowChecker) (i ts : Z)
    (copy : gmap FlowMetadata FlowBuffer -> list (FlowMetadata * FlowBuffer * Z)) (s : Shared)
  : res Shared :=
  map ← zget (flow_maps c) i;
  t ← zget (tables s) map;
  match zget (checkRings c) i with
  | Ok ring => check_entries (checker_time_threshold c) ts map ring (copy t) s
  | _ => if existsb (fun e => threshold_finished (snd (fst e)) (checker_time_threshold c) ts) (copy t)
         then Undef else Ok s
  end.

(** One turn of the checker's [run]: the time and the copy of each table. *)
Fixpoint check_all (c : FlowChecker) (ids : list Z) (ts : Z -> Z)
    (copy : Z -> gmap FlowMetadata FlowBuffer -> list (FlowMetadata * FlowBuffer * Z)) (s : Shared)
  : res Shared :=
  match ids with
  | [] => Ok s
  | i :: ids => s ← check c i (ts i) (copy i) s; check_all c ids ts copy s
  end.

Definition check_turn (c : FlowChecker) (ts : Z -> Z)
    (copy : Z -> gmap FlowMetadata FlowBuffer -> list (FlowMetadata * FlowBuffer * Z)) (s : Shared)
  : res Shared := check_all c (zseq (zlen (flow_maps c))) ts copy s.

Fixpoint check_turns (c : FlowChecker)
    (turns : list ((Z -> Z) * (Z -> gmap FlowMetadata FlowBuffer -> list (FlowMetadata * FlowBuffer * Z))))
    (s : Shared) : res Shared :=
  match turns with
  | [] => Ok s
  | (ts, copy) :: turns => s ← check_turn c ts copy s; check_turns c turns s
  end.

(** [run] and [asynchronousStop]: the turns until the one that sees [stop]. *)
Definition with_checker_stop (c : FlowChecker) (b : bool) : FlowChecker :=
  mkChecker (checker_time_threshold c) (flow_maps c) (checkRings c) b (checker_core c).
Definition checker_asynchronousStop (c : FlowChecker) : FlowChecker := with_checker_stop c true.
Definition checker_run (c : FlowChecker)
    (turns : list ((Z -> Z) * (Z -> gmap FlowMetadata FlowBuffer -> list (FlowMetadata * FlowBuffer * Z))))
    (s : Shared) : res (FlowChecker * Shared) :=
  let c := with_checker_stop c false in
  s ← check_turns c turns s;
  Ok (checker_asynchronousStop c, s).

(** ** Controller *)
Record InitData := mkInit {
  flow_ring_capacity : Z;
  nb_rx : Z;
  init_eth_header_len : Z;
  init_disk_size : Z;
  init_block_size : Z;
  memory_pool_capacity : Z;
  wbuffer_size_each : Z;
  init_len_threshold : Z;
  init_time_threshold : Z;
  checker_thread_num : Z;
  init_disk_offset : Z;
  bind_core : bool;
  packet_core_id_list : list Z;
  data_dumping_core_id_list : list Z;
  checking_core_id_list : list Z }.

(** An engine: its queue, and the numbers of its table, its buffer and its
    rings; a dumper with the number of its buffer. *)
Record EngineThread := mkEngineThread {
  rx_id : Z;
  en_map : Z;
  en_wbuffer : Z;
  en_ring : Z;
  en_index_ring : Z;
  en_core : option Z }.
Record DumperThread := mkDumperThread {
  du_wbuffer : Z;
  du_dumper : Dumper;
  du_core : option Z }.

(** A table of flows, and the keys whose buffers were deleted although their
    pointers are still in the table. *)
Record FlowTable := mkTable {
  t_flows : gmap FlowMetadata FlowBuffer;
  t_deleted : list FlowMetadata }.

Record Controller := mkController {
  data_disk_fd : Z;
  data_disk_offset : Z;
  data_disk_size : Z;
  data_block_size : Z;
  wbufferRings : list Mpmc.PointerRingBuffer;
  indexRings : list Mpmc.PointerRingBuffer;
  tables_of : list FlowTable;
  mem_pool_of : option PointerRingPool;
  wbuffers : list WBuffer;
  engines : list EngineThread;
  checkers : list FlowChecker;
  checkerThreads : list Z;
  dumpers : list DumperThread;
  dumperThreads : list Z }.

(** [if (bind_core) ... list\[i\]]: the index is not checked. *)
Definition core_of (d : InitData) (cores : list Z) (i : Z) : res (option Z) :=
  if bind_core d then c ← zget cores i; Ok (Some c) else Ok None.

(** The inner loop over the queues: [j = 0; j < nb_rx; j += checker_thread_num]. *)
Fixpoint watch (fuel : nat) (d : InitData) (j : Z) (c : FlowChecker) : res FlowChecker :=
  if negb (j <? nb_rx d) then Ok c
  else match fuel with
       | O => Blocks
       | S fuel => watch fuel d (u64 (j + checker_thread_num d)) (addCheckMap c j j)
       end.

Definition new_checker (d : InitData) (i : Z) : res FlowChecker :=
  core ← core_of d (checking_core_id_list d) i;
  watch (Z.to_nat (nb_rx d)) d 0 (new_FlowChecker (init_time_threshold d) core).

Definition new_dumper (d : InitData) (i : Z) : res DumperThread :=
  core ← core_of d (data_dumping_core_id_list d) i;
  Ok (mkDumperThread i (new_Dumper (init_disk_offset d) (init_disk_size d)) core).

Definition new_engine (d : InitData) (i : Z) : res EngineThread :=
  core ← core_of d (packet_core_id_list d) i;
  Ok (mkEngineThread i i i i i core).

(** [init]: [fd] is what [open] answers; [pool_mapped] and [mapped] say which
    mappings succeed, [junk] is the memory of rings and pool that they do not
    initialise, [dpdk] the device.  The constructors of the engines stop their
    rings. *)
Definition init (d : InitData) (fd : Z) (pool_mapped : bool) (mapped : Z -> bool)
    (junk_ring : Z * Z * bool) (junk_pool : Z) (dpdk : res unit) : res Controller :=
  if fd <? 0 then Throws else
  if init_block_size d =? 0 then Undef else
  if negb (init_disk_size d mod init_block_size d =? 0) then Throws else
  let queues := zseq (nb_rx d) in
  let wr := (fun _ => Mpmc.new_ring (flow_ring_capacity d) junk_ring) <$> queues in
  let ir := (fun _ => Mpmc.new_ring 1024 junk_ring) <$> queues in
  pool ← new_PointerRingPool pool_mapped junk_pool (memory_pool_capacity d) (1024 * 4);
  wbs ← mapM (fun i => new_WBuffer (mapped i) (wbuffer_size_each d) (init_block_size d)) queues;
  _ ← dpdk;
  ds ← mapM (new_dumper d) queues;
  cs ← mapM (new_checker d) (zseq (checker_thread_num d));
  es ← mapM (new_engine d) queues;
  Ok (mkController fd (init_disk_offset d) (init_disk_size d) (init_block_size d)
        (Mpmc.asynchronousStop <$> wr) ir ((fun _ => mkTable ∅ []) <$> queues) (Some pool) wbs es cs [] ds []).

(** *** Threads *)
Inductive Event :=
| Start_dumper (i : Z) | Start_engine (i lcore : Z)
| Stop_engine (i : Z) | Wait_lcore (lcore : Z) | Stop_index_ring (i : Z)
| Stop_dumper (i : Z) | Stop_wbuffer (i : Z) | Join_dumper (t : Z).

(** [RTE_LCORE_FOREACH_WORKER]: [launch] is the answer of
    [rte_eal_remote_launch]; a negative one ends the process. *)
Fixpoint launch_engines (launch : Z -> Z -> Z) (es : list EngineThread) (lcores : list Z) (queue_id : Z)
  : res (list Event) :=
  match lcores with
  | [] => Ok []
  | lcore :: lcores =>
      e ← zget es queue_id;
      if launch queue_id lcore <? 0 then Throws else
      l ← launch_engines launch es lcores (u16 (queue_id + 1));
      Ok (Start_engine (rx_id e) lcore :: l)
  end.

Definition with_dumper_threads (c : Controller) (t : list Z) : Controller :=
  mkController (data_disk_fd c) (data_disk_offset c) (data_disk_size c) (data_block_size c)
    (wbufferRings c) (indexRings c) (tables_of c) (mem_pool_of c) (wbuffers c) (engines c)
    (checkers c) (checkerThreads c) (dumpers c) t.

(** [threadsRun]: the checkers are not started. *)
Definition threadsRun (launch : Z -> Z -> Z) (lcores : list Z) (c : Controller)
  : res (Controller * list Event) :=
  let c := with_dumper_threads c (dumperThreads c ++ zseq (zlen (dumpers c))) in
  l ← launch_engines launch (engines c) lcores 0;
  Ok (c, (Start_dumper <$> zseq (zlen (dumpers c))) ++ l).

Definition threadsStop (lcores : list Z) (c : Controller) : res (list Event) :=
  stops ← mapM (fun i => _ ← zget (wbuffers c) i; Ok [Stop_dumper i; Stop_wbuffer i])
            (zseq (zlen (dumpers c)));
  joins ← mapM (fun i => t ← zget (dumperThreads c) i; Ok (Join_dumper t)) (zseq (zlen (dumpers c)));
  Ok ((Stop_engine <$> zseq (zlen (engines c))) ++ (Wait_lcore <$> lcores)
      ++ (Stop_index_ring <$> zseq (zlen (indexRings c))) ++ concat stops ++ joins).

(** What the [run] of an engine leaves of its table: the buffers that its last
    loop writes are deleted and stay in the table. *)
Definition engine_end (e : FlowEngine) (junk : Z * bool) (kvs : gmap Z (FlowMetadata * FlowBuffer))
    (packet : ParsedPacket) (bursts : list (Z * list Mbuf))
    (order : gmap FlowMetadata FlowBuffer -> list FlowMetadata) : res FlowTable :=
  e ← run_loop (FlosisFlow.with_stop e false) junk kvs packet bursts;
  let e := engine_asynchronousStop e in
  let keys := order (flow_map e) in
  e ← write_rest e keys;
  Ok (mkTable (flow_map e) keys).

Definition was_started (l : list Event) (i : Z) : bool :=
  existsb (fun ev => match ev with Start_engine j _ => j =? i | _ => false end) l.

Definition with_tables (c : Controller) (t : list FlowTable) : Controller :=
  mkController (data_disk_fd c) (data_disk_offset c) (data_disk_size c) (data_block_size c)
    (wbufferRings c) (indexRings c) t (mem_pool_of c) (wbuffers c) (engines c)
    (checkers c) (checkerThreads c) (dumpers c) (dumperThreads c).

(** [run]: everything ends when a character was read; [ends i] is the table of
    engine [i] at the end of its own [run], if it was started. *)
Definition run (launch : Z -> Z -> Z) (lcores : list Z) (ends : Z -> FlowTable) (c : Controller)
  : res (Controller * list Event) :=
  '(c, l) ← threadsRun launch lcores c;
  l' ← threadsStop lcores c;
  let l := l ++ l' in
  Ok (with_tables c (imap (fun i t => if was_started l (Z.of_nat i) then ends (Z.of_nat i) else t) (tables_of c)), l).

(** *** Destruction *)
Inductive Object :=
| ODumper (i : Z) | ODumperThread (i : Z) | OChecker (i : Z) | OCheckerThread (i : Z) | OEngine (i : Z)
| OFlow (i : Z) (k : FlowMetadata) | OWBuffer (i : Z) | OWRing (i : Z) | OIRing (i : Z) | OFlowMap (i : Z) | OPool | ODpdk.

(** Objects and their threads, deleted together; a thread that still runs ends
    the process. *)
Definition delete_pairs (mk mk_thread : Z -> Object) (n : Z) (threads : list Z) (joined : Z -> bool)
  : res (list Object) :=
  l ← mapM (fun i => t ← zget threads i; if joined t then Ok [mk i; mk_thread i] else Throws) (zseq n);
  Ok (concat l).

(** The loop of [~FlowEngine]: every buffer in the table is deleted; one that
    was deleted before is deleted twice, which is undefined. *)
Fixpoint delete_flows (i : Z) (deleted keys : list FlowMetadata) : res (list Object) :=
  match keys with
  | [] => Ok []
  | k :: keys =>
      if bool_decide (k ∈ deleted) then Undef else
      l ← delete_flows i deleted keys; Ok (OFlow i k :: l)
  end.

(** An engine with what belongs to its queue; its destructor reads the table,
    which is deleted last. *)
Definition delete_engine (c : Controller) (i : Z) : res (list Object) :=
  e ← zget (engines c) i;
  t ← zget (tables_of c) (en_map e);
  flows ← delete_flows (en_map e) (t_deleted t) (fst <$> map_to_list (t_flows t));
  _ ← zget (wbuffers c) i;
  _ ← zget (wbufferRings c) i;
  _ ← zget (indexRings c) i;
  _ ← zget (tables_of c) i;
  Ok (flows ++ [OEngine i; OWBuffer i; OWRing i; OIRing i; OFlowMap i]).

Definition clear (c : Controller) (joined : Z -> bool) : res (list Object) :=
  ds ← delete_pairs ODumper ODumperThread (zlen (dumpers c)) (dumperThreads c) joined;
  cs ← delete_pairs OChecker OCheckerThread (zlen (checkers c)) (checkerThreads c) joined;
  es ← mapM (delete_engine c) (zseq (zlen (engines c)));
  Ok (ds ++ cs ++ concat es ++ (match mem_pool_of c with Some _ => [OPool] | None => [] end) ++ [ODpdk]).

(** ** The checker *)

(** What a turn of the checker leaves of a table. *)
Definition mark (thr ts : Z) (f : FlowBuffer) : FlowBuffer :=
  if threshold_finished f thr ts then set_finished f else f.

Lemma check_entry_Ok thr ts map ring kv a s s' t :
  zget (tables s) map = Ok t -> t !! fst kv = Some (snd kv) -> check_entry thr ts map ring kv a s = Ok s' ->
  tables s' = <[Z.to_nat map := <[fst kv := mark thr ts (snd kv)]> t]> (tables s).
Proof.
  intros Ht Hkv H. unfold check_entry, mark in *. destruct (threshold_finished _ _ _).
  - rewrite Ht in H. cbn [mbind res_bind] in H. apply bind_Ok_iff in H as (t' & Ht' & H).
    apply zset_inv in Ht' as [_ ->]. apply bind_Ok_iff in H as (r & _ & H).
    apply bind_Ok_iff in H as ([? ?] & _ & H). apply bind_Ok_iff in H as (rs & _ & H).
    by injection H as <-.
  - injection H as <-. rewrite insert_id by done. apply zget_Ok in Ht as [_ Ht].
    by rewrite list_insert_id.
Qed.

(** The marks of the entries of a list. *)
Definition mark_list (thr ts : Z) (l : list (FlowMetadata * FlowBuffer)) (t : gmap FlowMetadata FlowBuffer)
  : gmap FlowMetadata FlowBuffer := foldl (fun t kv => <[fst kv := mark thr ts (snd kv)]> t) t l.

Lemma mark_list_lookup thr ts l t k :
  NoDup (fst <$> l) -> (forall kv, kv ∈ l -> t !! fst kv = Some (snd kv)) ->
  mark_list thr ts l t !! k = if decide (k ∈ fst <$> l) then mark thr ts <$> t !! k else t !! k.
Proof.
  revert t. induction l as [|[k' f] l IH]; intros t Hnd Hin; [done|]. cbn [fmap list_fmap fst] in *.
  apply NoDup_cons in Hnd as [Hni Hnd]. unfold mark_list in *. cbn [foldl fst snd]. rewrite IH; [|done|].
  - pose proof (Hin (k', f) ltac:(by left)) as Hk'. cbn in Hk'. destruct (decide (k = k')) as [->|Hne].
    + rewrite decide_False by done. rewrite decide_True by left. by rewrite lookup_insert_eq, Hk'.
    + rewrite lookup_insert_ne by done. repeat case_decide; set_solver.
  - intros kv Hkv. rewrite lookup_insert_ne; [apply Hin; by right|].
    intros E. apply Hni. rewrite E. apply list_elem_of_fmap. by exists kv.
Qed.

Lemma check_entries_Ok thr ts map ring copy s s' t :
  zget (tables s) map = Ok t -> NoDup ((fun e => fst (fst e)) <$> copy) ->
  (forall e, e ∈ copy -> t !! fst (fst e) = Some (snd (fst e))) ->
  check_entries thr ts map ring copy s = Ok s' ->
  tables s' = <[Z.to_nat map := mark_list thr ts (fst <$> copy) t]> (tables s).
Proof.
  revert s t. induction copy as [|[kv a] copy IH]; intros s t Ht Hnd Hin H; cbn [check_entries] in H.
  - injection H as <-. apply zget_Ok in Ht as [_ Ht]. by rewrite list_insert_id.
  - cbn [fmap list_fmap fst] in Hnd. apply NoDup_cons in Hnd as [Hni Hnd].
    apply bind_Ok_iff in H as (s1 & H1 & H).
    pose proof (check_entry_Ok _ _ _ _ _ _ _ _ _ Ht (Hin (kv, a) ltac:(by left)) H1) as E1.
    pose proof (zget_range _ _ _ Ht) as Hr.
    rewrite (IH s1 (<[fst kv := mark thr ts (snd kv)]> t)); [| |done| |done].
    + rewrite E1, list_insert_insert_eq. done.
    + rewrite E1. by apply zget_insert_eq.
    + intros e He. rewrite lookup_insert_ne; [apply Hin; by right|].
      intros E. apply Hni. rewrite E. apply list_elem_of_fmap. by exists e.
Qed.

(** A checker that ends its look at a table has marked exactly the idle
    buffers of that table, and changed no other table. *)
Lemma check_marks_idle c i ts copy s s' map ring t :
  zget (flow_maps c) i = Ok map -> zget (checkRings c) i = Ok ring -> zget (tables s) map = Ok t ->
  fst <$> copy t ≡ₚ map_to_list t -> check c i ts copy s = Ok s' ->
  tables s' = <[Z.to_nat map := mark (checker_time_threshold c) ts <$> t]> (tables s).
Proof.
  intros Hm Hr Ht Hc H. unfold check in H. rewrite Hm in H. cbn [mbind res_bind] in H.
  rewrite Ht in H. cbn [mbind res_bind] in H. rewrite Hr in H.
  assert (Hin : forall kv, kv ∈ fst <$> copy t -> t !! fst kv = Some (snd kv)).
  { intros [k f] Hkv. rewrite Hc in Hkv. by apply elem_of_map_to_list in Hkv. }
  assert (Hnd : NoDup (fst <$> (fst <$> copy t))) by (rewrite Hc; apply NoDup_fst_map_to_list).
  rewrite (check_entries_Ok _ _ _ _ _ _ _ _ Ht ltac:(by rewrite <-list_fmap_compose in Hnd)
    ltac:(intros e He; apply Hin, list_elem_of_fmap; by exists e) H).
  f_equal. apply map_eq. intros k. rewrite mark_list_lookup, lookup_fmap by done. case_decide as E; [done|].
  destruct (t !! k) as [f|] eqn:Ek; [|done]. exfalso. apply E. apply list_elem_of_fmap.
  exists (k, f). split; [done|]. rewrite Hc. by apply elem_of_map_to_list.
Qed.

(** The engine never writes an entry of the ring: its test for unknown entries
    is the wrong way round, so an entry of the table is skipped. *)
Lemma drain_ring_writes_nothing fuel e kvs e' :
  drain_ring fuel e kvs = Ok e' -> FlosisFlow.flow_map e' = FlosisFlow.flow_map e /\ wbuffer e' = wbuffer e.
Proof.
  revert e. induction fuel as [|fuel IH]; intros e H; cbn [drain_ring] in H;
    apply bind_Ok_iff in H as ([kv r] & _ & H); (case_match; [by injection H as <-|]);
    (destruct (kvs !! kv) as [[meta ?]|]; [|done]); destruct (_ !! meta); try done.
  by apply IH in H.
Qed.

(** ** The controller *)
#[export] Instance Event_eq_dec : EqDecision Event.
Proof. solve_decision. Defined.
#[export] Instance Object_eq_dec : EqDecision Object.
Proof. solve_decision. Defined.

Lemma watch_ok d fuel j c :
  0 < checker_thread_num d < 2 ^ 63 -> 0 <= j -> 0 <= nb_rx d < 2 ^ 16 -> nb_rx d - j <= Z.of_nat fuel ->
  exists js, watch fuel d j c
      = Ok (mkChecker (checker_time_threshold c) (flow_maps c ++ js) (checkRings c ++ js)
              (checker_stop c) (checker_core c)) /\
    forall q, q ∈ js <-> j <= q < nb_rx d /\ (checker_thread_num d | q - j).
Proof.
  intros Hk Hj Hn. revert j c Hj. induction fuel as [|fuel IH]; intros j c Hj Hf; cbn [watch].
  - destruct (Z.ltb_spec j (nb_rx d)); [lia|]. exists []. rewrite !app_nil_r. split; [by destruct c|].
    intros q. split; [set_solver|lia].
  - destruct (Z.ltb_spec j (nb_rx d)); cbn [negb].
    + rewrite u64_small by lia.
      destruct (IH (j + checker_thread_num d) (addCheckMap c j j)) as (js & E & Hjs); [lia|lia|].
      exists (j :: js). rewrite E. cbn [addCheckMap checker_time_threshold flow_maps checkRings
        checker_stop checker_core]. rewrite <-!app_assoc. split; [done|]. intros q.
      rewrite elem_of_cons, Hjs. split.
      * intros [->|[? [m Hm]]]; [split; [lia|]; rewrite Z.sub_diag; apply Z.divide_0_r|].
        split; [lia|]. exists (m + 1). lia.
      * intros [? [m Hm]]. destruct (Z.eq_dec q j) as [->|]; [by left|right].
        assert (0 < m) by nia. split; [nia|]. exists (m - 1). lia.
    + exists []. rewrite !app_nil_r. split; [by destruct c|]. intros q. split; [set_solver|lia].
Qed.

(** A vector built by one statement per index. *)
Lemma built_length {B} (f : Z -> res B) n l : 0 <= n -> mapM f (zseq n) = Ok l -> zlen l = n.
Proof.
  intros Hn H. apply mapM_Ok_inv, Forall2_length in H. unfold zlen. rewrite <-H.
  by apply zlen_zseq.
Qed.

Lemma built_at {B} (f : Z -> res B) n l i b : 0 <= n -> mapM f (zseq n) = Ok l -> zget l i = Ok b -> f i = Ok b.
Proof.
  intros Hn H Hi. pose proof (zget_range _ _ _ Hi) as Hr. rewrite (built_length _ _ _ Hn H) in Hr.
  apply mapM_Ok_inv in H. apply zget_Ok in Hi as [_ Hi].
  destruct (Forall2_lookup_r _ _ _ _ _ H Hi) as (x & Hx & E). unfold zseq in Hx.
  apply list_lookup_fmap_Some in Hx as (k & -> & Hk). apply lookup_seq in Hk as [-> _].
  cbn in E. by rewrite Z2Nat.id in E by lia.
Qed.

Section wiring.
Context (d : InitData) (fd : Z) (pool_mapped : bool) (mapped : Z -> bool)
  (junk_ring : Z * Z * bool) (junk_pool : Z) (dpdk : res unit) (c : Controller).
Context (Hrx : 0 <= nb_rx d < 2 ^ 16) (Hck : 0 <= checker_thread_num d < 2 ^ 63).
Context (Hinit : init d fd pool_mapped mapped junk_ring junk_pool dpdk = Ok c).

(** What [init] built, vector by vector. *)
Lemma init_parts : exists p wbs ds cs es,
  mapM (fun i => new_WBuffer (mapped i) (wbuffer_size_each d) (init_block_size d)) (zseq (nb_rx d)) = Ok wbs /\
  mapM (new_dumper d) (zseq (nb_rx d)) = Ok ds /\ mapM (new_checker d) (zseq (checker_thread_num d)) = Ok cs /\
  mapM (new_engine d) (zseq (nb_rx d)) = Ok es /\
  c = mkController fd (init_disk_offset d) (init_disk_size d) (init_block_size d)
        (Mpmc.asynchronousStop <$> ((fun _ => Mpmc.new_ring (flow_ring_capacity d) junk_ring) <$> zseq (nb_rx d)))
        ((fun _ => Mpmc.new_ring 1024 junk_ring) <$> zseq (nb_rx d)) ((fun _ => mkTable ∅ []) <$> zseq (nb_rx d))
        (Some p) wbs es cs [] ds [].
Proof.
  unfold init in Hinit. do 3 (case_match; [done|]).
  apply bind_Ok_iff in Hinit as (p & _ & H2). apply bind_Ok_iff in H2 as (wbs & Hw & H2).
  apply bind_Ok_iff in H2 as (_ & _ & H2). apply bind_Ok_iff in H2 as (ds & Hd & H2).
  apply bind_Ok_iff in H2 as (cs & Hc & H2). apply bind_Ok_iff in H2 as (es & He & H2).
  injection H2 as <-. by exists p, wbs, ds, cs, es.
Qed.

Lemma init_lengths :
  zlen (engines c) = nb_rx d /\ zlen (dumpers c) = nb_rx d /\ zlen (wbuffers c) = nb_rx d /\
  zlen (tables_of c) = nb_rx d /\ zlen (wbufferRings c) = nb_rx d /\ zlen (indexRings c) = nb_rx d /\
  zlen (checkers c) = checker_thread_num d.
Proof.
  destruct init_parts as (p & wbs & ds & cs & es & Hw & Hd & Hc & He & ->).
  cbn [engines dumpers wbuffers tables_of wbufferRings indexRings checkers].
  assert (Hf : forall {A} (f : Z -> A), zlen (f <$> zseq (nb_rx d)) = nb_rx d).
  { intros A f. transitivity (zlen (zseq (nb_rx d))); [unfold zlen; by rewrite length_fmap|].
    apply zlen_zseq. lia. }
  rewrite <-list_fmap_compose, !Hf.
  repeat split; try (eapply built_length; [|done]; lia).
Qed.

(** In every controller that [init] returns engine [i] serves queue [i]
    with the table, the write buffer and the rings of that number, and dumper
    [i] empties write buffer [i]; but all dumpers have the same area of the
    disk and start at its beginning, and all checkers watch the same queues,
    those whose number is a multiple of the number of checkers. *)
Theorem flosis_init_wiring :
  zlen (engines c) = nb_rx d /\ zlen (dumpers c) = nb_rx d /\ zlen (wbuffers c) = nb_rx d /\
  zlen (tables_of c) = nb_rx d /\ zlen (checkers c) = checker_thread_num d /\
  (forall i e, zget (engines c) i = Ok e ->
     rx_id e = i /\ en_map e = i /\ en_wbuffer e = i /\ en_ring e = i /\ en_index_ring e = i) /\
  (forall i u, zget (dumpers c) i = Ok u ->
     du_wbuffer u = i /\ du_dumper u = new_Dumper (init_disk_offset d) (init_disk_size d)) /\
  (forall i k, zget (checkers c) i = Ok k -> checkRings k = flow_maps k /\
     forall q, q ∈ flow_maps k <-> 0 <= q < nb_rx d /\ (checker_thread_num d | q)).
Proof.
  destruct init_lengths as (L1 & L2 & L3 & L4 & _ & _ & L5). do 5 (split; [done|]).
  destruct init_parts as (p & wbs & ds & cs & es & Hw & Hd & Hc & He & ->).
  cbn [engines dumpers checkers] in *. split; [|split].
  - intros i e Hi. apply (built_at _ _ _ _ _ (proj1 Hrx) He) in Hi. unfold new_engine in Hi.
    apply bind_Ok_iff in Hi as (core & _ & Hi). by injection Hi as <-.
  - intros i u Hi. apply (built_at _ _ _ _ _ (proj1 Hrx) Hd) in Hi. unfold new_dumper in Hi.
    apply bind_Ok_iff in Hi as (core & _ & Hi). by injection Hi as <-.
  - intros i k Hi. pose proof (zget_range _ _ _ Hi) as Hr.
    apply (built_at _ _ _ _ _ (proj1 Hck) Hc) in Hi. unfold new_checker in Hi.
    apply bind_Ok_iff in Hi as (core & _ & Hi).
    destruct (watch_ok d (Z.to_nat (nb_rx d)) 0 (new_FlowChecker (init_time_threshold d) core))
      as (js & E & Hjs); [lia..|]. rewrite E in Hi. injection Hi as <-. split; [done|].
    intros q. cbn [flow_maps new_FlowChecker app]. by rewrite Hjs, Z.sub_0_r.
Qed.

(** The objects that a controller without checkers deletes. *)
Definition all_objects : list Object :=
  concat ((fun i => [ODumper i; ODumperThread i]) <$> zseq (nb_rx d))
  ++ concat ((fun i => [OEngine i; OWBuffer i; OWRing i; OIRing i; OFlowMap i]) <$> zseq (nb_rx d))
  ++ [OPool; ODpdk].

Lemma delete_pairs_ok mk mk_thread n (joined : Z -> bool) : 0 <= n ->
  (forall i, 0 <= i < n -> joined i = true) ->
  delete_pairs mk mk_thread n (zseq n) joined = Ok (concat ((fun i => [mk i; mk_thread i]) <$> zseq n)).
Proof.
  intros Hn Hj. unfold delete_pairs. rewrite (mapM_pure _ (fun i => [mk i; mk_thread i])); [done|].
  intros i Hi%elem_of_zseq. assert (Hz : zget (zseq n) i = Ok i).
  { apply zget_Ok. split; [lia|]. unfold zseq. rewrite list_lookup_fmap, lookup_seq_lt by lia.
    cbn. f_equal. lia. }
  rewrite Hz. cbn [mbind res_bind]. by rewrite Hj.
Qed.

(** The table of queue [i] when [run] has ended. *)
Definition table_at (l : list Event) (ends : Z -> FlowTable) (i : Z) : FlowTable :=
  if was_started l i then ends i else mkTable ∅ [].

Lemma delete_engine_at l ends threads i : 0 <= i < nb_rx d ->
  let c' := with_tables (with_dumper_threads c threads)
    (imap (fun i t => if was_started l (Z.of_nat i) then ends (Z.of_nat i) else t) (tables_of c)) in
  delete_engine c' i =
    (flows ← delete_flows i (t_deleted (table_at l ends i)) (fst <$> map_to_list (t_flows (table_at l ends i)));
     Ok (flows ++ [OEngine i; OWBuffer i; OWRing i; OIRing i; OFlowMap i])).
Proof.
  intros Hi c'. destruct init_lengths as (L1 & _ & L3 & L4 & L6 & L7 & _). unfold delete_engine.
  change (engines c') with (engines c). destruct (zget_lt (engines c) i) as [e Ee]; [lia|]. rewrite Ee.
  cbn [mbind res_bind]. assert (en_map e = i) as ->.
  { destruct flosis_init_wiring as (_ & _ & _ & _ & _ & He & _). by apply He. }
  assert (Ht : zget (tables_of c') i = Ok (table_at l ends i)).
  { apply zget_Ok. split; [lia|]. cbn [c' with_tables tables_of]. rewrite list_lookup_imap.
    destruct init_parts as (p & wbs & ds & cs & es & _ & _ & _ & _ & ->). cbn [tables_of].
    rewrite list_lookup_fmap. unfold zseq. rewrite list_lookup_fmap, lookup_seq_lt by lia.
    cbn. unfold table_at. rewrite Z2Nat.id by lia. by destruct (was_started l i). }
  rewrite Ht. cbn [mbind res_bind]. destruct (delete_flows _ _ _) as [flows| | |]; cbn [mbind res_bind]; [|done..].
  change (wbuffers c') with (wbuffers c). change (wbufferRings c') with (wbufferRings c).
  change (indexRings c') with (indexRings c).
  destruct (zget_lt (wbuffers c) i) as [? ->]; [lia|]. cbn [mbind res_bind].
  destruct (zget_lt (wbufferRings c) i) as [? ->]; [lia|]. cbn [mbind res_bind].
  by destruct (zget_lt (indexRings c) i) as [? ->]; [lia|].
Qed.

(** What [run] starts and joins. *)
Lemma launched_in_range launch lcores : forall q l, launch_engines launch (engines c) lcores q = Ok l ->
  forall ev, ev ∈ l -> exists i lcore, ev = Start_engine i lcore /\ 0 <= i < nb_rx d.
Proof.
  destruct init_lengths as (L1 & _). destruct flosis_init_wiring as (_ & _ & _ & _ & _ & He & _).
  induction lcores as [|lcore lcores IH]; intros q l H; cbn [launch_engines] in H.
  { injection H as <-. set_solver. }
  apply bind_Ok_iff in H as (e & Ee & H). destruct (launch q lcore <? 0); [done|].
  apply bind_Ok_iff in H as (l1 & H1 & H). injection H as <-. intros ev [->|Hev]%elem_of_cons.
  - exists (rx_id e), lcore. split; [done|]. destruct (He q e Ee) as [-> _]. apply zget_range in Ee. lia.
  - by apply (IH _ _ H1).
Qed.

Lemma was_started_spec l i : was_started l i = true <-> exists lcore, Start_engine i lcore ∈ l.
Proof.
  unfold was_started. rewrite existsb_exists. split.
  - intros ([] & Hin & E); try done. zbool. subst. exists lcore. by apply list_elem_of_In.
  - intros [lcore Hin]. exists (Start_engine i lcore). split; [by apply list_elem_of_In|apply Z.eqb_refl].
Qed.

Lemma run_joins launch lcores ends c' l :
  run launch lcores ends c = Ok (c', l) ->
  c' = with_tables (with_dumper_threads c (zseq (nb_rx d)))
    (imap (fun i t => if was_started l (Z.of_nat i) then ends (Z.of_nat i) else t) (tables_of c)) /\
  (forall i, 0 <= i < nb_rx d -> Join_dumper i ∈ l) /\
  (forall i, was_started l i = true -> 0 <= i < nb_rx d).
Proof.
  destruct init_lengths as (_ & L2 & _). intros H.
  assert (Ht : dumperThreads c = []) by (by destruct init_parts as (p & wbs & ds & cs & es & _ & _ & _ & _ & ->)).
  unfold run in H. apply bind_Ok_iff in H as ([c1 l1] & H1 & H). unfold threadsRun in H1.
  rewrite Ht, L2 in H1. apply bind_Ok_iff in H1 as (le & Hle & H1). injection H1 as <- <-.
  apply bind_Ok_iff in H as (l2 & H2 & H). injection H as <- <-. split; [done|].
  unfold threadsStop in H2. cbn [with_dumper_threads dumpers dumperThreads] in H2.
  rewrite L2 in H2. apply bind_Ok_iff in H2 as (st & Hst & H2). apply bind_Ok_iff in H2 as (js & Hjs & H2).
  injection H2 as <-. apply mapM_Ok_inv in Hjs. split.
  - intros i Hi. rewrite !elem_of_app. do 5 right.
    destruct (Forall2_lookup_l _ _ _ (Z.to_nat i) i Hjs) as (e & He & E).
    { unfold zseq. rewrite list_lookup_fmap, lookup_seq_lt by lia. cbn. f_equal. lia. }
    apply bind_Ok_iff in E as (t & Htd & E). injection E as <-.
    apply zget_Ok in Htd as [_ Htd]. unfold zseq in Htd.
    apply list_lookup_fmap_Some in Htd as (k & -> & Hk%lookup_seq).
    replace i with (Z.of_nat k) by lia. by eapply list_elem_of_lookup_2.
  - intros i [lcore Hin]%was_started_spec. rewrite !elem_of_app in Hin.
    assert (Hno : forall {A} (f : A -> Event) m, (forall x, f x <> Start_engine i lcore) ->
      ~ Start_engine i lcore ∈ f <$> m) by (intros A f m Hf (x & E & _)%list_elem_of_fmap; by apply (Hf x)).
    destruct Hin as [[Hin|Hin]|[Hin|[Hin|[Hin|[Hin|Hin]]]]]; try by apply Hno in Hin.
    + destruct (launched_in_range _ _ _ _ Hle _ Hin) as (j & lc & [= -> _] & Hj). done.
    + exfalso. apply mapM_Ok_inv in Hst. clear -Hst Hin. induction Hst as [|x y l1 l2 E _ IH]; [set_solver|].
      apply bind_Ok_iff in E as (? & _ & [= <-]). cbn [concat] in Hin. set_solver.
    + exfalso. clear -Hjs Hin. induction Hjs as [|x y l1 l2 E _ IH]; [set_solver|].
      apply bind_Ok_iff in E as (? & _ & [= <-]). set_solver.
Qed.
End wiring.

(** The destructor of an engine: buffers that were deleted before. *)
Lemma delete_flows_cases i deleted keys :
  delete_flows i deleted keys = Undef \/
  delete_flows i deleted keys = Ok (OFlow i <$> keys) /\ forall k, k ∈ keys -> k ∉ deleted.
Proof.
  induction keys as [|k keys IH]; [right; split; [done|set_solver]|]. cbn [delete_flows]. case_bool_decide; [by left|].
  destruct IH as [->|[-> Hk]]; [by left|]. right. split; [done|set_solver].
Qed.

(** Actions that succeed or are undefined, one of them undefined. *)
Lemma mapM_Undef {A B} (f : A -> res B) l x :
  (forall y, y ∈ l -> f y = Undef \/ exists b, f y = Ok b) -> x ∈ l -> f x = Undef -> mapM f l = Undef.
Proof.
  induction l as [|y l IH]; intros Hf Hx E; [by apply not_elem_of_nil in Hx|]. cbn [mapM].
  destruct (Hf y ltac:(by left)) as [Ey|[b Ey]]; rewrite Ey; [done|]. cbn [mbind res_bind].
  apply elem_of_cons in Hx as [->|Hx]; [congruence|]. rewrite IH; [done| |done|done]. intros z Hz. apply Hf. by right.
Qed.

(** An engine has deleted all buffers that it leaves in its table. *)
Lemma engine_end_deletes e junk kvs packet bursts order t :
  (forall m, order m ≡ₚ (map_to_list m).*1) -> engine_end e junk kvs packet bursts order = Ok t ->
  t_deleted t ≡ₚ (map_to_list (t_flows t)).*1.
Proof.
  intros Ho H. unfold engine_end in H. apply bind_Ok_iff in H as (e1 & _ & H). apply bind_Ok_iff in H as (e2 & H2 & H).
  injection H as <-. cbn [t_deleted t_flows]. apply DemoWrite.rest_stays_in_table in H2 as ->. apply Ho.
Qed.

Lemma elem_of_concat_fmap {A} (f : Z -> list A) l x :
  x ∈ concat (f <$> l) <-> exists i, i ∈ l /\ x ∈ f i.
Proof. induction l as [|i l IH]; cbn [fmap list_fmap concat]; [set_solver|]. rewrite elem_of_app, IH. set_solver. Qed.

Lemma NoDup_concat_fmap {A} (f : Z -> list A) l :
  NoDup l -> (forall i, NoDup (f i)) -> (forall i j x, x ∈ f i -> x ∈ f j -> i = j) -> NoDup (concat (f <$> l)).
Proof.
  intros Hl Hf Hd. induction Hl as [|i l Hi _ IH]; [constructor|]. cbn [fmap list_fmap concat].
  apply NoDup_app. split; [done|]. split; [|done]. intros x Hx (j & Hj & Hx')%elem_of_concat_fmap.
  by rewrite (Hd i j x) in Hi.
Qed.

Lemma all_objects_NoDup d : NoDup (all_objects d).
Proof.
  unfold all_objects. apply NoDup_app. split; [|split].
  - apply NoDup_concat_fmap; [apply NoDup_zseq|intros i; by repeat constructor; set_solver|set_solver].
  - intros x (i & _ & Hx)%elem_of_concat_fmap. rewrite elem_of_app, elem_of_concat_fmap. set_solver.
  - apply NoDup_app. split; [|split].
    + apply NoDup_concat_fmap; [apply NoDup_zseq|intros i; by repeat constructor; set_solver|set_solver].
    + intros x (i & _ & Hx)%elem_of_concat_fmap. set_solver.
    + repeat constructor; set_solver.
Qed.

(** C30: Destroying a controller after its run.  When there are no checkers and
    the engines leave no flow in their tables every object that [init] made is
    deleted exactly once.  When an engine leaves a flow the destruction is
    undefined: the buffer was deleted at the end of the engine's run and stays
    in the table, whose buffers the engine's destructor deletes.  It is
    undefined too when there are checkers: their threads are never started,
    but their vector is indexed for every checker. *)
Theorem flosis_clear_after_run d fd pool_mapped mapped junk_ring junk_pool dpdk c launch lcores ends c' l :
  0 <= nb_rx d < 2 ^ 16 -> 0 <= checker_thread_num d < 2 ^ 63 ->
  init d fd pool_mapped mapped junk_ring junk_pool dpdk = Ok c ->
  run launch lcores ends c = Ok (c', l) ->
  (forall i, was_started l i = true -> exists e junk kvs packet bursts order,
     (forall m, order m ≡ₚ (map_to_list m).*1) /\ engine_end e junk kvs packet bursts order = Ok (ends i)) ->
  let joined t := bool_decide (Join_dumper t ∈ l) in
  (checker_thread_num d = 0 -> (forall i, was_started l i = true -> t_flows (ends i) = ∅) ->
     clear c' joined = Ok (all_objects d) /\ NoDup (all_objects d)) /\
  (checker_thread_num d = 0 -> forall i, was_started l i = true -> t_flows (ends i) <> ∅ ->
     clear c' joined = Undef) /\
  (0 < checker_thread_num d -> clear c' joined = Undef).
Proof.
  intros Hrx Hck Hinit Hrun Hends joined.
  destruct (init_lengths _ _ _ _ _ _ _ _ Hrx Hck Hinit) as (L1 & L2 & _ & _ & _ & _ & L5).
  destruct (run_joins _ _ _ _ _ _ _ _ Hrx Hck Hinit _ _ _ _ _ Hrun) as (-> & Hj & Hst).
  pose proof (fun i Hi => delete_engine_at _ _ _ _ _ _ _ _ Hrx Hck Hinit l ends (zseq (nb_rx d)) i Hi) as Hde.
  cbn zeta in Hde. set (c' := with_tables _ _) in *.
  destruct (init_parts _ _ _ _ _ _ _ _ Hinit) as (p & wbs & ds & cs & es & _ & _ & _ & _ & E).
  assert (Hp : mem_pool_of c' = Some p) by (subst c'; by rewrite E).
  assert (Ht : checkerThreads c' = []) by (subst c'; by rewrite E).
  unfold clear. change (dumpers c') with (dumpers c). change (dumperThreads c') with (zseq (nb_rx d)).
  change (checkers c') with (checkers c). change (engines c') with (engines c).
  rewrite L1, L2, L5, Ht, delete_pairs_ok by (lia || intros i Hi; by apply bool_decide_true, Hj).
  cbn [mbind res_bind]. split_and!; intros Hn.
  - intros Hno. rewrite Hn. change (delete_pairs _ _ 0 [] joined) with (Ok (A := list Object) []).
    cbn [mbind res_bind]. split; [|apply all_objects_NoDup].
    rewrite (mapM_pure _ (fun i => [OEngine i; OWBuffer i; OWRing i; OIRing i; OFlowMap i])).
    { rewrite Hp. done. }
    intros i Hi%elem_of_zseq. rewrite Hde by done. unfold table_at.
    destruct (was_started l i) eqn:Es; [rewrite (Hno i Es)|cbn [t_flows]]; by rewrite map_to_list_empty.
  - intros i Hs Hne. rewrite Hn. change (delete_pairs _ _ 0 [] joined) with (Ok (A := list Object) []).
    cbn [mbind res_bind]. rewrite (mapM_Undef _ _ i); [done| |by apply elem_of_zseq, Hst|].
    + intros j Hj'%elem_of_zseq. rewrite Hde by done.
      destruct (delete_flows_cases j (t_deleted (table_at l ends j)) (map_to_list (t_flows (table_at l ends j))).*1)
        as [->|[-> _]]; [by left|right; by eexists].
    + rewrite Hde by (by apply Hst). unfold table_at. rewrite Hs.
      destruct (Hends i Hs) as (e & junk & kvs & packet & bursts & order & Ho & He).
      pose proof (engine_end_deletes _ _ _ _ _ _ _ Ho He) as Hdel.
      destruct (delete_flows_cases i (t_deleted (ends i)) (map_to_list (t_flows (ends i))).*1) as [->|[_ Hk]]; [done|].
      exfalso. apply map_choose in Hne as (k & f & Hkf). apply (Hk k).
      * apply list_elem_of_fmap. exists (k, f). split; [done|by apply elem_of_map_to_list].
      * rewrite Hdel. apply list_elem_of_fmap. exists (k, f). split; [done|by apply elem_of_map_to_list].
  - unfold delete_pairs. rewrite (zseq_head (checker_thread_num d)) by done. done.
Qed.

Module DemoControl.
(** Two queues, one checker, small sizes. *)
Definition config (checkers : Z) : InitData :=
  mkInit 8 2 14 64 32 8192 64 200 1000 checkers 0 false [] [] [].
Definition started (checkers : Z) : res Controller :=
  init (config checkers) 3 true (fun _ => true) (0, 0, false) 0 (Ok ()).
Definition empty_controller : Controller := mkController 0 0 0 0 [] [] [] None [] [] [] [] [] [].
Definition controller (checkers : Z) : Controller := from_res empty_controller (started checkers).

Lemma flosis_init_wiring_witness :
  started 1 = Ok (controller 1) /\ zlen (engines (controller 1)) = 2 /\
  forall i u, zget (dumpers (controller 1)) i = Ok u -> du_dumper u = new_Dumper 0 64.
Proof.
  assert (Hi : started 1 = Ok (controller 1)) by (vm_compute; done).
  destruct (flosis_init_wiring (config 1) 3 true (fun _ => true) (0, 0, false) 0 (Ok ()) (controller 1))
    as (H1 & _ & _ & _ & _ & _ & H2 & _); [vm_compute; split; done|vm_compute; split; done|exact Hi|].
  split; [exact Hi|]. split; [exact H1|]. intros i u Hu. apply (H2 i u Hu).
Defined.

(** An engine with a flow of two packets, and one without flows; both end
    without another packet. *)
Definition idle_engine : FlowEngine :=
  with_wbuffer DemoFlow.engine (pool DemoFlow.engine) (from_res (mkW 0 0 0 [] [] 0 0 0 false) (new_WBuffer true 64 32)).
Definition busy_engine : FlowEngine :=
  from_res idle_engine ('(_, e) ← write_packets idle_engine (take 2 DemoFlow.run3); Ok e).
Definition order (m : gmap FlowMetadata FlowBuffer) : list FlowMetadata := (map_to_list m).*1.
Definition end_of (e : FlowEngine) : res FlowTable :=
  engine_end e (0, false) ∅ (DemoFlow.packet 0 [] false) [] order.
Definition demo_ends (i : Z) : FlowTable :=
  from_res (mkTable ∅ []) (end_of (if i =? 0 then busy_engine else idle_engine)).

Lemma demo_ends_ok i : i = 0 \/ i = 1 -> exists e junk kvs packet bursts order,
  (forall m, order m ≡ₚ (map_to_list m).*1) /\ engine_end e junk kvs packet bursts order = Ok (demo_ends i).
Proof.
  intros [-> | ->];
    [exists busy_engine|exists idle_engine]; exists (0, false), ∅, (DemoFlow.packet 0 [] false), [], order;
    (split; [done|vm_compute; done]).
Qed.

(** Both engines are started; queue 0 ends with a flow in its table. *)
Definition demo_run : res (Controller * list Event) := run (fun _ _ => 0) [1; 2] demo_ends (controller 0).
Definition demo_events : list Event := (from_res (empty_controller, []) demo_run).2.

Lemma demo_started i : was_started demo_events i = true -> i = 0 \/ i = 1.
Proof.
  intros [lcore Hin]%was_started_spec. vm_compute in Hin.
  repeat (apply elem_of_cons in Hin as [Hin|Hin]; [first [injection Hin as -> _; lia|discriminate Hin]|]).
  by apply not_elem_of_nil in Hin.
Qed.

Lemma flosis_clear_after_run_witness :
  exists c', demo_run = Ok (c', demo_events) /\
    clear c' (fun t => bool_decide (Join_dumper t ∈ demo_events)) = Undef.
Proof.
  destruct demo_run as [[c' l]| | |] eqn:E; [|exfalso; revert E; vm_compute; discriminate..].
  assert (El : l = demo_events) by (unfold demo_events; by rewrite E). subst l.
  destruct (flosis_clear_after_run (config 0) 3 true (fun _ => true) (0, 0, false) 0 (Ok ()) (controller 0)
           (fun _ _ => 0) [1; 2] demo_ends c' demo_events) as (_ & H & _).
  - vm_compute. split; done.
  - vm_compute. split; done.
  - vm_compute. done.
  - exact E.
  - intros i Hi. apply demo_ends_ok, demo_started, Hi.
  - exists c'. split; [done|]. apply (H eq_refl 0); [vm_compute; done|].
    intros E0. apply (f_equal (fun m => bool_decide (m = ∅))) in E0. revert E0. vm_compute. discriminate.
Defined.

(** With three queues and two checkers queue 1 is watched by none, the others
    by both. *)
Lemma checkers_watch_the_same :
  (fun c => flow_maps <$> checkers c)
    <$> init (mkInit 8 3 14 64 32 8192 64 200 1000 2 0 false [] [] []) 3 true (fun _ => true) (0, 0, false) 0 (Ok ())
  = Ok [[0; 2]; [0; 2]].
Proof. vm_compute. done. Qed.
End DemoControl.
