(* ===== verification/Bloom.v ===== *)
(** * The plain Bloom filter (dpdk_lib/bloomFilter.hpp)

    A string used as an array of bits and the number of hash functions.
    [std::hash<std::string>] is a parameter.  The theorem: after any history
    of insertions [contains] answers yes exactly for the elements all of whose
    bits were set by the history, in particular for every inserted one. *)
From Stdlib Require Import ZArith Lia Bool.
From S2P Require Import Prelude BitMap.

Definition BLOOM_SEED : Z := 0x5bd1e995.

(** The bytes of the string, as values below 256, and [k]. *)
Record BloomFilter := mkBloom { bitArray : list Z; hash_num : Z }.

Definition new_BloomFilter (size numHashFunctions : Z) : BloomFilter :=
  mkBloom (replicate (Z.to_nat size) 0) numHashFunctions.

(** The constructor from memory. *)
Definition load_BloomFilter (data : list Z) (len numHashFunctions : Z) : res BloomFilter :=
  bytes ← zread data 0 len; Ok (mkBloom bytes numHashFunctions).

Definition setBit (f : BloomFilter) (index : Z) : res BloomFilter :=
  m ← shl1 (index mod 8);
  v ← zget (bitArray f) (index / 8);
  a ← zset (bitArray f) (index / 8) (u8 (Z.lor v m));
  Ok (mkBloom a (hash_num f)).

Definition getBit (f : BloomFilter) (index : Z) : res bool :=
  v ← zget (bitArray f) (index / 8);
  m ← shl1 (index mod 8);
  Ok (negb (Z.land v m =? 0)).

Section bloom.
Context (hasher : list Z -> Z).

Definition hashFunction (element : list Z) (i : Z) : Z :=
  u64 (u64 (hasher element) + i * BLOOM_SEED).

(** [hash % (bitArray.size() * 8)]. *)
Definition bit_index (f : BloomFilter) (element : list Z) (i : Z) : res Z :=
  let n := u64 (zlen (bitArray f) * 8) in
  if n =? 0 then Undef else Ok (hashFunction element i mod n).

Fixpoint insert_loop (f : BloomFilter) (element : list Z) (ids : list Z) : res BloomFilter :=
  match ids with
  | [] => Ok f
  | i :: ids => b ← bit_index f element i; f ← setBit f b; insert_loop f element ids
  end.

Definition insert (f : BloomFilter) (element : list Z) : res BloomFilter :=
  insert_loop f element (zseq (hash_num f)).

Fixpoint contains_loop (f : BloomFilter) (element : list Z) (ids : list Z) : res bool :=
  match ids with
  | [] => Ok true
  | i :: ids =>
      b ← bit_index f element i;
      s ← getBit f b;
      if s : bool then contains_loop f element ids else Ok false
  end.

Definition contains (f : BloomFilter) (element : list Z) : res bool :=
  contains_loop f element (zseq (hash_num f)).

(** ** The filter as a set of bits *)
Definition bit (f : BloomFilter) (j : Z) : bool :=
  match bitArray f !! Z.to_nat (j / 8) with Some v => Z.testbit v (j mod 8) | None => false end.

(** [n] bytes, each below 256. *)
Definition filter_ok (n k : Z) (f : BloomFilter) : Prop :=
  zlen (bitArray f) = n /\ hash_num f = k /\ Forall (is_u 8) (bitArray f).

Lemma setBit_ok n k f j : filter_ok n k f -> 0 <= j < n * 8 ->
  exists f', setBit f j = Ok f' /\ filter_ok n k f' /\ forall i, 0 <= i -> bit f' i = bit f i || (i =? j).
Proof.
  intros (Hl & Hk & Hu) Hj. assert (Hd : 0 <= j / 8 < n).
  { split; [apply Z.div_pos; lia|]. apply Z.div_lt_upper_bound; lia. }
  pose proof (Z.mod_pos_bound j 8 ltac:(lia)) as Hm.
  destruct (zget_lt (bitArray f) (j / 8)) as [v Hv]; [lia|].
  pose proof Hv as Hv'. apply zget_Ok in Hv' as [_ Hv'].
  pose proof (Forall_lookup_1 _ _ _ _ Hu Hv') as Hvu. simpl in Hvu.
  unfold setBit. rewrite shl1_ok by lia. cbn [mbind res_bind]. rewrite Hv. cbn [mbind res_bind].
  rewrite zset_Ok by lia. cbn [mbind res_bind]. rewrite u8_lor_pow2 by done.
  assert (Hlor : is_u 8 (Z.lor v (2 ^ (j mod 8)))).
  { rewrite <-u8_lor_pow2 by done. apply u8_range. }
  eexists. split; [done|]. split.
  - split; [cbn; by rewrite zlen_insert|]. split; [done|]. by apply Forall_insert.
  - intros i Hi. unfold bit. cbn [bitArray]. pose proof (Z.div_pos i 8 Hi ltac:(lia)) as Hdi.
    pose proof (Z.div_mod i 8 ltac:(lia)). pose proof (Z.div_mod j 8 ltac:(lia)).
    pose proof (Z.mod_pos_bound i 8 ltac:(lia)) as Hmi.
    destruct (Z.eq_dec (i / 8) (j / 8)) as [E|E].
    + rewrite E, list_lookup_insert_eq, Hv' by (unfold zlen in Hl; lia).
      rewrite Z.lor_spec. f_equal. rewrite Z.pow2_bits_eqb by lia.
      apply eq_iff_eq_true. rewrite !Z.eqb_eq. lia.
    + rewrite list_lookup_insert_ne by lia. replace (i =? j) with false by (symmetry; apply Z.eqb_neq; congruence).
      by rewrite orb_false_r.
Qed.

Lemma getBit_ok n k f j : filter_ok n k f -> 0 <= j < n * 8 -> getBit f j = Ok (bit f j).
Proof.
  intros (Hl & _ & _) Hj. assert (0 <= j / 8 < n).
  { split; [apply Z.div_pos; lia|]. apply Z.div_lt_upper_bound; lia. }
  pose proof (Z.mod_pos_bound j 8 ltac:(lia)). unfold getBit, bit.
  destruct (zget_lt (bitArray f) (j / 8)) as [v Hv]; [lia|]. rewrite Hv. cbn [mbind res_bind].
  rewrite shl1_ok by lia. cbn [mbind res_bind]. apply zget_Ok in Hv as [_ ->].
  by rewrite land_pow2_testbit by lia.
Qed.

(** The bit of the [i]-th hash. *)
Definition position (n : Z) (element : list Z) (i : Z) : Z := hashFunction element i mod (n * 8).

Lemma bit_index_ok n k f element i : filter_ok n k f -> 0 < n < 2 ^ 61 ->
  bit_index f element i = Ok (position n element i) /\ 0 <= position n element i < n * 8.
Proof.
  intros (Hl & _ & _) Hn. unfold bit_index. rewrite Hl, u64_small by lia.
  replace (n * 8 =? 0) with false by (symmetry; apply Z.eqb_neq; lia).
  split; [done|]. apply Z.mod_pos_bound. lia.
Qed.

Lemma insert_loop_ok n k element ids : 0 < n < 2 ^ 61 -> forall f, filter_ok n k f ->
  exists f', insert_loop f element ids = Ok f' /\ filter_ok n k f' /\
    forall j, 0 <= j -> bit f' j = bit f j || existsb (fun i => j =? position n element i) ids.
Proof.
  intros Hn. induction ids as [|i ids IH]; intros f Hf; cbn [insert_loop existsb].
  { exists f. split; [done|]. split; [done|]. intros. by rewrite orb_false_r. }
  destruct (bit_index_ok n k f element i Hf Hn) as [-> Hr]. cbn [mbind res_bind].
  destruct (setBit_ok n k f _ Hf Hr) as (f1 & -> & Hf1 & Hb1). cbn [mbind res_bind].
  destruct (IH f1 Hf1) as (f2 & -> & Hf2 & Hb2). exists f2. split; [done|]. split; [done|].
  intros j Hj. by rewrite Hb2, Hb1, orb_assoc.
Qed.

Lemma contains_loop_ok n k f element ids : 0 < n < 2 ^ 61 -> filter_ok n k f ->
  contains_loop f element ids = Ok (forallb (fun i => bit f (position n element i)) ids).
Proof.
  intros Hn Hf. induction ids as [|i ids IH]; cbn [contains_loop forallb]; [done|].
  destruct (bit_index_ok n k f element i Hf Hn) as [-> Hr]. cbn [mbind res_bind].
  rewrite (getBit_ok n k f _ Hf Hr). cbn [mbind res_bind]. by destruct (bit f _).
Qed.

Fixpoint insert_all (f : BloomFilter) (l : list (list Z)) : res BloomFilter :=
  match l with [] => Ok f | x :: l => f ← insert f x; insert_all f l end.

(** The bits that a list of elements sets, with [k] hash functions. *)
Definition bits_of (n k : Z) (l : list (list Z)) (j : Z) : bool :=
  existsb (fun x => existsb (fun i => j =? position n x i) (zseq k)) l.

Lemma insert_all_ok n k l : 0 < n < 2 ^ 61 -> forall f, filter_ok n k f ->
  exists f', insert_all f l = Ok f' /\ filter_ok n k f' /\
    forall j, 0 <= j -> bit f' j = bit f j || bits_of n k l j.
Proof.
  intros Hn. induction l as [|x l IH]; intros f Hf; cbn [insert_all].
  { exists f. split; [done|]. split; [done|]. intros. by rewrite orb_false_r. }
  unfold insert. rewrite (proj1 (proj2 Hf)).
  destruct (insert_loop_ok n k x (zseq k) Hn f Hf) as (f1 & -> & Hf1 & Hb1). cbn [mbind res_bind].
  destruct (IH f1 Hf1) as (f2 & -> & Hf2 & Hb2). exists f2. split; [done|]. split; [done|].
  intros j Hj. unfold bits_of in *. cbn [existsb]. by rewrite Hb2, Hb1, orb_assoc.
Qed.

Lemma new_filter_ok n k : 0 <= n -> filter_ok n k (new_BloomFilter n k).
Proof.
  intros Hn. split; [cbn; rewrite zlen_replicate; lia|]. split; [done|].
  apply Forall_replicate. unfold is_u. lia.
Qed.

Lemma new_filter_bit n k j : bit (new_BloomFilter n k) j = false.
Proof.
  unfold bit, new_BloomFilter. cbn [bitArray]. destruct (_ !! _) as [v|] eqn:E; [|done].
  apply lookup_replicate in E as [-> _]. apply Z.bits_0.
Qed.

(** After any insertions the filter answers by the bits that they set. *)
Lemma insert_all_answers n k l f : 0 < n < 2 ^ 61 -> insert_all (new_BloomFilter n k) l = Ok f ->
  (forall x, contains f x = Ok (forallb (fun i => bits_of n k l (position n x i)) (zseq k))) /\
  forall x, x ∈ l -> contains f x = Ok true.
Proof.
  intros Hn E. destruct (insert_all_ok n k l Hn _ (new_filter_ok n k ltac:(lia))) as (f' & E' & Hf & Hb).
  rewrite E in E'. injection E' as <-.
  assert (Hc : forall x, contains f x = Ok (forallb (fun i => bits_of n k l (position n x i)) (zseq k))).
  { intros x. unfold contains. rewrite (proj1 (proj2 Hf)), (contains_loop_ok n k f x _ Hn Hf).
    f_equal. induction (zseq k) as [|i ids IH]; [done|]. cbn [forallb]. rewrite IH. f_equal.
    rewrite Hb, new_filter_bit; [done|]. apply Z.mod_pos_bound. lia. }
  split; [done|]. intros x Hx. rewrite Hc. f_equal.
  apply forallb_forall. intros i Hi. unfold bits_of. apply existsb_exists. exists x.
  split; [by apply list_elem_of_In|]. apply existsb_exists. exists i. split; [done|]. apply Z.eqb_refl.
Qed.

Lemma insert_all_snoc f l x : insert_all f (l ++ [x]) = (f ← insert_all f l; insert f x).
Proof.
  revert f. induction l as [|y l IH]; intros f; cbn [insert_all app].
  - cbn. by destruct (insert f x).
  - destruct (insert f y); [apply IH|done..].
Qed.

(** A filter of [n] bytes with [k] hash functions answers yes exactly for the
    elements whose bits were all set by the elements inserted, and so for
    every one of them; no operation is undefined. *)
Theorem bloom_filter_answers n k l : 0 < n < 2 ^ 61 ->
  exists f, insert_all (new_BloomFilter n k) l = Ok f /\
    (forall x, contains f x = Ok (forallb (fun i => bits_of n k l (position n x i)) (zseq k))) /\
    forall x, x ∈ l -> contains f x = Ok true.
Proof.
  intros Hn. destruct (insert_all_ok n k l Hn _ (new_filter_ok n k ltac:(lia))) as (f & E & _).
  exists f. split; [done|]. by apply insert_all_answers.
Qed.
End bloom.

Module DemoBloom.
Definition toy_hash (l : list Z) : Z := foldr (fun b a => 31 * a + b) 7 l.

Lemma bloom_filter_answers_witness :
  exists f, insert_all toy_hash (new_BloomFilter 4 3) [[1; 2]; [3]] = Ok f /\
    contains toy_hash f [3] = Ok true.
Proof.
  destruct (bloom_filter_answers toy_hash 4 3 [[1; 2]; [3]] ltac:(lia)) as (f & E & _ & H).
  exists f. split; [exact E|]. apply H. right. left.
Defined.

(** A filter of no bytes divides by zero. *)
Lemma empty_filter_undefined : insert toy_hash (new_BloomFilter 0 3) [1] = Undef.
Proof. reflexivity. Qed.
End DemoBloom.
