(* ===== verification/Tries.v ===== *)
(** * The two tries of the experiments (dpdk_lib/binaryTree.hpp, TrieTree.hpp)

    Nodes with 256 children, one per key byte; at the last layer, and in
    [TrieTree] also above it, a child pointer is a [ValueList] cast to a node.
    A pointer used as the other of the two is undefined.  The theorem: for
    keys of at least [maxLayer] bytes both trees hold one list per prefix of
    [maxLayer] bytes, with the values of the prefix in order of insertion; and
    neither can be destroyed once it holds a value. *)
From Stdlib Require Import ZArith Lia Bool.
From S2P Require Import Prelude.

(** ** Data *)
Record ValueList := mkValues { vkey : list Z; values : list Z }.

Definition new_ValueList (key : list Z) (value : Z) : ValueList := mkValues key [value].
Definition values_insert (v : ValueList) (value : Z) : ValueList := mkValues (vkey v) (values v ++ [value]).

(** What a child pointer points to. *)
Inductive slot_of (T : Type) :=
| Null | Leaf (v : ValueList) | Child (t : T).
Arguments Null {T}.
Arguments Leaf {T} _.
Arguments Child {T} _.

(** A node: its layer, its children and the members that only [TrieTree]
    has. *)
Inductive TreeNode (X : Type) :=
| Node (layer : Z) (children : list (slot_of (TreeNode X))) (extra : X).
Arguments Node {X} _ _ _.

Definition CHILD_NUM : Z := 256.

Definition new_node {X} (extra : X) (layer : Z) : TreeNode X :=
  Node layer (replicate (Z.to_nat CHILD_NUM) Null) extra.

(** The destructor: the layer of a node is below [maxLayer], so a child that
    is a [ValueList] is deleted as a node. *)
Fixpoint delete_node {X} (maxLayer : Z) (t : TreeNode X) : res unit :=
  let 'Node layer children _ := t in
  if layer =? maxLayer then Ok ()
  else
    (fix delete_children (l : list (slot_of (TreeNode X))) : res unit :=
       match l with
       | [] => Ok ()
       | Null :: l => delete_children l
       | Leaf _ :: _ => Undef
       | Child c :: l => _ ← delete_node maxLayer c; delete_children l
       end) children.

(** [node->children\[uc\]] as a [ValueList], new or not. *)
Definition put_value {X} (children : list (slot_of (TreeNode X))) (uc : Z) (key : list Z) (value : Z)
  : res (list (slot_of (TreeNode X))) :=
  s ← zget children uc;
  match s with
  | Null => zset children uc (Leaf (new_ValueList key value))
  | Leaf v => zset children uc (Leaf (values_insert v value))
  | Child _ => Undef
  end.

(** ** BinaryTree *)
Module Binary.
Record BinaryTree := mkTree {
  maxLayer : Z;
  keyLen : Z;
  valueLen : Z;
  nodeNum : Z;
  root : TreeNode unit }.

Definition new_BinaryTree (maxLayer keyLen valueLen : Z) : BinaryTree :=
  mkTree maxLayer keyLen valueLen 0 (new_node () 0).

(** The loop over the bytes of the key; [rest] are those still to come. *)
Fixpoint insert_at (maxLayer : Z) (key : list Z) (value : Z) (rest : list Z) (layer : Z) (node : TreeNode unit)
  : res (TreeNode unit) :=
  match rest with
  | [] => Ok node
  | uc :: rest =>
      let 'Node nl children x := node in
      let layer := u32 (layer + 1) in
      if layer =? maxLayer then
        cs ← put_value children uc key value; Ok (Node nl cs x)
      else
        s ← zget children uc;
        c ← (match s with
             | Null => Ok (new_node () layer)
             | Child c => Ok c
             | Leaf _ => Undef
             end);
        c ← insert_at maxLayer key value rest layer c;
        cs ← zset children uc (Child c);
        Ok (Node nl cs x)
  end.

Definition insert (t : BinaryTree) (key : list Z) (value : Z) : res (bool * BinaryTree) :=
  if negb (zlen key =? keyLen t) then Ok (true, t)
  else
    r ← insert_at (maxLayer t) key value key 0 (root t);
    Ok (true, mkTree (maxLayer t) (keyLen t) (valueLen t) (u64 (nodeNum t + 1)) r).

Definition delete_BinaryTree (t : BinaryTree) : res unit := delete_node (maxLayer t) (root t).
End Binary.

(** ** TrieTree *)
Module Trie.
(** [childrenNum] and [onlyChild]. *)
Local Abbreviation extra := (Z * Z)%type.

Record TrieTree := mkTree {
  maxLayer : Z;
  keyLen : Z;
  valueLen : Z;
  nodeNum : Z;
  root : TreeNode extra }.

Definition new_TrieTree (maxLayer keyLen valueLen : Z) : TrieTree :=
  mkTree maxLayer keyLen valueLen 0 (new_node (0, 0) 0).

(** [value_list->key\[layer\]]: the place behind the last byte holds a 0. *)
Definition char_at (key : list Z) (layer : Z) : res Z :=
  if layer =? zlen key then Ok 0 else zget key layer.

(** The only child of a node is a list: the value is added to it if it has the
    key ([true]); otherwise it moves one layer down. *)
Definition split_only (key : list Z) (value : Z) (layer : Z) (node : TreeNode extra)
  : res (bool * TreeNode extra) :=
  let 'Node nl children (num, only) := node in
  s ← zget children only;
  match s with
  | Leaf v =>
      if bool_decide (vkey v = key) then
        cs ← zset children only (Leaf (values_insert v value));
        Ok (true, Node nl cs (num, only))
      else
        key_c ← char_at (vkey v) layer;
        inner ← zset (replicate (Z.to_nat CHILD_NUM) Null) key_c (Leaf v);
        cs ← zset children only (Child (Node layer inner (1, key_c)));
        Ok (false, Node nl cs (num, only))
  | _ => Undef
  end.

Definition count_child (node : TreeNode extra) : TreeNode extra :=
  let 'Node nl children (num, only) := node in Node nl children (u32 (num + 1), only).

Definition childrenNum (node : TreeNode extra) : Z := let 'Node _ _ (num, _) := node in num.

(** The branch for a missing child. *)
Definition add_child (key : list Z) (value : Z) (layer uc : Z) (node : TreeNode extra)
  : res (bool * TreeNode extra) :=
  '(found, node) ← (if childrenNum node =? 1 then split_only key value layer node else Ok (false, node));
  if found : bool then Ok (true, node)
  else
    let 'Node nl children x := node in
    cs ← zset children uc (Child (new_node (0, 0) layer));
    Ok (false, count_child (Node nl cs x)).

(** The branch for a node with one child. *)
Definition only_child (key : list Z) (value : Z) (layer : Z) (node : TreeNode extra)
  : res (bool * TreeNode extra) :=
  if childrenNum node =? 1 then
    '(found, node) ← split_only key value layer node;
    if found : bool then Ok (true, node) else Ok (false, count_child node)
  else Ok (false, node).

Fixpoint insert_at (maxLayer : Z) (key : list Z) (value : Z) (rest : list Z) (layer : Z) (node : TreeNode extra)
  : res (TreeNode extra) :=
  match rest with
  | [] => Ok node
  | uc :: rest =>
      let 'Node nl children (num, only) := node in
      let layer := u32 (layer + 1) in
      s ← zget children uc;
      if (layer =? maxLayer) || (num =? 0) then
        cs ← put_value children uc key value;
        Ok (match s with
            | Null => let num := u32 (num + 1) in Node nl cs (num, if num =? 1 then uc else only)
            | _ => Node nl cs (num, only)
            end)
      else
        '(found, node) ← (match s with Null => add_child key value layer uc node | _ => Ok (false, node) end);
        if found : bool then Ok node else
        '(found, node) ← only_child key value layer node;
        if found : bool then Ok node else
        let 'Node nl children x := node in
        s ← zget children uc;
        match s with
        | Child c =>
            c ← insert_at maxLayer key value rest layer c;
            cs ← zset children uc (Child c);
            Ok (Node nl cs x)
        | _ => Undef
        end
  end.

Definition insert (t : TrieTree) (key : list Z) (value : Z) : res (bool * TrieTree) :=
  if negb (zlen key =? keyLen t) then Ok (true, t)
  else
    r ← insert_at (maxLayer t) key value key 0 (root t);
    Ok (true, mkTree (maxLayer t) (keyLen t) (valueLen t) (u64 (nodeNum t + 1)) r).

Definition delete_TrieTree (t : TrieTree) : res unit := delete_node (maxLayer t) (root t).
End Trie.

(** ** What a tree holds *)
Local Abbreviation entry := (list Z * Z)%type.

(** The lists of a tree, in the order of their paths. *)
Fixpoint lists {X} (t : TreeNode X) : list ValueList :=
  let 'Node _ children _ := t in
  concat (List.map (fun s => match s with
                             | Null => []
                             | Leaf v => [v]
                             | Child c => lists c
                             end) children).

(** The entries whose key has the byte [c] at place [d]. *)
Definition at_byte (d : nat) (c : Z) (E : list entry) : list entry :=
  filter (fun e => fst e !! d = Some c) E.

(** One list for all of [E], under the key that came first. *)
Definition leaf_of {T} (E : list entry) : slot_of T :=
  match E with [] => Null | e :: _ => Leaf (mkValues (fst e) (snd <$> E)) end.

(** Keys of at least [n] bytes. *)
Definition key_ok (n : nat) (k : list Z) : Prop := (n <= length k)%nat /\ Forall (is_u 8) k.

Lemma at_byte_app d c E E' : at_byte d c (E ++ E') = at_byte d c E ++ at_byte d c E'.
Proof. apply filter_app. Qed.

Lemma at_byte_one d c k v : at_byte d c [(k, v)] = if decide (k !! d = Some c) then [(k, v)] else [].
Proof. unfold at_byte. rewrite filter_cons. cbn [fst]. by case_decide. Qed.

Lemma at_byte_all d c E : Forall (fun e => fst e !! d = Some c) E -> at_byte d c E = E.
Proof. induction 1 as [|e E He _ IH]; [done|]. unfold at_byte in *. rewrite filter_cons. by rewrite decide_True, IH by done. Qed.

Lemma at_byte_none d c E : Forall (fun e => fst e !! d <> Some c) E -> at_byte d c E = [].
Proof. induction 1 as [|e E He _ IH]; [done|]. unfold at_byte in *. rewrite filter_cons. by rewrite decide_False by done. Qed.

Lemma at_byte_keys n d c E : Forall (key_ok n ∘ fst) E -> Forall (key_ok n ∘ fst) (at_byte d c E).
Proof. rewrite !Forall_forall. intros HE e [_ He]%list_elem_of_filter. by apply HE. Qed.

Lemma at_byte_length d c E : zlen (at_byte d c E) <= zlen E.
Proof. unfold zlen, at_byte. pose proof (length_filter (fun e : entry => fst e !! d = Some c) E). lia. Qed.

Lemma leaf_of_snoc {T} E k v :
  @leaf_of T (E ++ [(k, v)]) = match leaf_of (T := T) E with
                            | Leaf l => Leaf (values_insert l v)
                            | _ => Leaf (new_ValueList k v)
                            end.
Proof. destruct E as [|e E]; [done|]. cbn [leaf_of app]. unfold values_insert. cbn. by rewrite fmap_app. Qed.

(** The kinds of nodes that [TrieTree] tells apart by [childrenNum]; what is
    known of the extra members is a parameter. *)
Inductive kind := Empty | Single (c : Z) | Branch.

Section nodes.
Context {X : Type} (info : kind -> list entry -> X -> Prop).

(** All keys of [E] are [k]. *)
Definition single (E : list entry) (k : list Z) : Prop := E <> [] /\ Forall (fun e => fst e = k) E.

(** A node [d] layers down, with [r] layers from here to the lists, that
    holds [E]. *)
Fixpoint node_ok (r d : nat) (E : list entry) (t : TreeNode X) {struct r} : Prop :=
  let 'Node l cs x := t in
  l = Z.of_nat d /\ zlen cs = 256 /\
  match r with
  | O => False
  | S O => forall c, 0 <= c < 256 -> zget cs c = Ok (leaf_of (at_byte d c E))
  | S (S _ as r') =>
      (E = [] /\ info Empty E x /\ forall c, 0 <= c < 256 -> zget cs c = Ok Null)
      \/ (exists k b, single E k /\ k !! d = Some b /\ info (Single b) E x /\
            forall c, 0 <= c < 256 -> zget cs c = Ok (if c =? b then leaf_of E else Null))
      \/ (info Branch E x /\
            forall c, 0 <= c < 256 ->
              match at_byte d c E with
              | [] => zget cs c = Ok Null
              | _ => exists t', zget cs c = Ok (Child t') /\ node_ok r' (S d) (at_byte d c E) t'
              end)
  end.

Lemma zset_children (cs : list (slot_of (TreeNode X))) b s : zlen cs = 256 -> 0 <= b < 256 ->
  exists cs', zset cs b s = Ok cs' /\ zlen cs' = 256 /\
    forall c, 0 <= c < 256 -> zget cs' c = if c =? b then Ok s else zget cs c.
Proof.
  intros Hl Hb. rewrite zset_Ok by lia. eexists. split; [done|]. split; [by rewrite zlen_insert|].
  intros c Hc. destruct (Z.eqb_spec c b) as [->|Hne]; [apply zget_insert_eq; lia|apply zget_insert_ne; lia].
Qed.

(** A value for the list of its byte. *)
Lemma put_value_ok d (cs : list (slot_of (TreeNode X))) E k v b :
  zlen cs = 256 -> k !! d = Some b -> 0 <= b < 256 -> zget cs b = Ok (leaf_of (at_byte d b E)) ->
  exists cs', put_value cs b k v = Ok cs' /\ zlen cs' = 256 /\
    (forall c, 0 <= c < 256 -> zget cs' c = if c =? b then Ok (leaf_of (at_byte d b (E ++ [(k, v)]))) else zget cs c).
Proof.
  intros Hl Hk Hb Hs. unfold put_value. rewrite Hs. cbn [mbind res_bind].
  rewrite at_byte_app, at_byte_one, decide_True, leaf_of_snoc by done.
  destruct (at_byte d b E) as [|e F]; cbn [leaf_of]; by apply zset_children.
Qed.

Lemma last_ok d cs E x k v b :
  zlen cs = 256 -> (forall c, 0 <= c < 256 -> zget cs c = Ok (leaf_of (at_byte d c E))) ->
  k !! d = Some b -> 0 <= b < 256 ->
  exists cs', put_value cs b k v = Ok cs' /\ node_ok 1 d (E ++ [(k, v)]) (Node (Z.of_nat d) cs' x).
Proof.
  intros Hl Hcs Hk Hb. destruct (put_value_ok d cs E k v b Hl Hk Hb (Hcs b Hb)) as (cs' & E1 & Hl' & Hcs').
  exists cs'. split; [done|]. split; [done|]. split; [done|]. intros c Hc. rewrite Hcs' by done.
  destruct (Z.eqb_spec c b) as [->|Hne]; [done|].
  rewrite at_byte_app, at_byte_one, decide_False by congruence. rewrite app_nil_r. by apply Hcs.
Qed.

(** A new node of the last layer or above. *)
Lemma new_node_ok r d x : info Empty [] x -> node_ok (S r) d [] (new_node x (Z.of_nat d)).
Proof.
  intros Hx. unfold new_node. split; [done|]. split; [done|].
  assert (H : forall c, 0 <= c < 256 -> zget (replicate (Z.to_nat CHILD_NUM) (@Null (TreeNode X))) c = Ok Null).
  { intros c Hc. apply zget_replicate. unfold CHILD_NUM. lia. }
  destruct r as [|r]; [done|]. by left.
Qed.

(** The child of a byte after a value went below it. *)
Lemma branch_update r d cs x E k v b t' :
  zlen cs = 256 -> k !! d = Some b -> 0 <= b < 256 -> info Branch (E ++ [(k, v)]) x ->
  (forall c, 0 <= c < 256 -> c <> b ->
     match at_byte d c E with
     | [] => zget cs c = Ok Null
     | _ => exists t', zget cs c = Ok (Child t') /\ node_ok (S r) (S d) (at_byte d c E) t'
     end) ->
  node_ok (S r) (S d) (at_byte d b E ++ [(k, v)]) t' ->
  exists cs', zset cs b (Child t') = Ok cs' /\
    node_ok (S (S r)) d (E ++ [(k, v)]) (Node (Z.of_nat d) cs' x).
Proof.
  intros Hl Hk Hb Hx Hcs Ht. destruct (zset_children cs b (Child t') Hl Hb) as (cs' & E1 & Hl' & Hcs').
  exists cs'. split; [done|]. split; [done|]. split; [done|]. right. right. split; [done|].
  intros c Hc. rewrite Hcs' by done. rewrite at_byte_app, at_byte_one.
  destruct (Z.eqb_spec c b) as [->|Hne].
  - rewrite decide_True by done. destruct (at_byte d b E ++ [(k, v)]) as [|e F] eqn:EF; [by destruct (at_byte d b E)|].
    exists t'. by split.
  - rewrite decide_False by congruence. rewrite app_nil_r. by apply Hcs.
Qed.

End nodes.

(** *** The lists of a node *)

(** The entries with the prefix [p]. *)
Definition group (p : list Z) (E : list entry) : list entry :=
  filter (fun e => take (length p) (fst e) = p) E.

Definition slot_lists {X} (s : slot_of (TreeNode X)) : list ValueList :=
  match s with Null => [] | Leaf v => [v] | Child c => lists c end.

(** [l] are the lists of [E] for prefixes of [m] bytes, each once. *)
Definition lists_of (m : nat) (E : list entry) (l : list ValueList) : Prop :=
  (forall v, v ∈ l <-> exists p, length p = m /\ leaf_of (T := unit) (group p E) = Leaf v) /\
  NoDup ((fun v => take m (vkey v)) <$> l).

Lemma leaf_key {T} E v : @leaf_of T E = Leaf v -> exists e, e ∈ E /\ fst e = vkey v.
Proof. destruct E as [|e E]; [done|]. intros [= <-]. exists e. split; [left|done]. Qed.

Lemma leaf_type {T T'} E v : @leaf_of T E = Leaf v -> @leaf_of T' E = Leaf v.
Proof. destruct E as [|e E]; [done|]. by intros [= <-]. Qed.

Lemma group_elem p E e : e ∈ group p E -> e ∈ E /\ take (length p) (fst e) = p.
Proof. unfold group. rewrite list_elem_of_filter. tauto. Qed.

(** Entries that all have the prefix [q]. *)
Lemma group_all p q F : Forall (fun e => take (length q) (fst e) = q) F -> length p = length q ->
  group p F = if decide (p = q) then F else [].
Proof.
  intros HF Hl. case_decide as E; [subst p|].
  - induction HF as [|e F He _ IH]; [done|]. unfold group in *. rewrite filter_cons. by rewrite decide_True, IH by done.
  - induction HF as [|e F He _ IH]; [done|]. unfold group in *. rewrite filter_cons.
    rewrite decide_False; [done|]. rewrite Hl. congruence.
Qed.

Lemma lists_of_leaf {X} m q F : Forall (fun e => take m (fst e) = q) F -> length q = m ->
  lists_of m F (slot_lists (X := X) (leaf_of F)).
Proof.
  intros HF Hq. assert (Hg : forall p, length p = m -> group p F = if decide (p = q) then F else []).
  { intros p Hp. apply group_all; [by rewrite Hq|lia]. }
  split.
  - intros v. split.
    + intros Hv. exists q. split; [done|]. rewrite Hg, decide_True by done.
      destruct F as [|e F]; [by apply elem_of_nil in Hv|]. by apply list_elem_of_singleton in Hv as ->.
    + intros (p & Hp & Hl). rewrite Hg in Hl by done. case_decide; [|done].
      apply (leaf_type (T' := TreeNode X)) in Hl. rewrite Hl. left.
  - destruct F as [|e F]; [constructor|]. apply NoDup_singleton.
Qed.

Lemma NoDup_fmap_concat {A B} (f : A -> B) (ls : list (list A)) :
  (forall i l, ls !! i = Some l -> NoDup (f <$> l)) ->
  (forall i j l l' x y, ls !! i = Some l -> ls !! j = Some l' -> x ∈ l -> y ∈ l' -> f x = f y -> i = j) ->
  NoDup (f <$> concat ls).
Proof.
  induction ls as [|l ls IH]; intros H1 H2; [constructor|]. cbn [concat]. rewrite fmap_app. apply NoDup_app.
  split; [by apply (H1 0%nat)|]. split.
  - intros b (x & -> & Hx)%list_elem_of_fmap (y & Hxy & Hy)%list_elem_of_fmap.
    apply list_elem_of_In, in_concat in Hy as (l' & Hl' & Hy). apply list_elem_of_In in Hl', Hy.
    apply list_elem_of_lookup in Hl' as (j & Hj).
    by pose proof (H2 0%nat (S j) l l' x y eq_refl Hj Hx Hy Hxy).
  - apply IH; [intros i; apply (H1 (S i))|]. intros i j m m' x y Hi Hj Hx Hy Hf.
    by injection (H2 (S i) (S j) m m' x y Hi Hj Hx Hy Hf).
Qed.

Lemma prefix_byte d (p k : list Z) : take (length p) k = p -> (d < length p)%nat -> p !! d = k !! d.
Proof. intros Hp Hd. transitivity (take (length p) k !! d); [by rewrite Hp|by apply lookup_take_lt]. Qed.

Lemma group_byte d c p E : (d < length p)%nat ->
  group p (at_byte d c E) = if decide (p !! d = Some c) then group p E else [].
Proof.
  intros Hd. induction E as [|e E IH]; [by case_decide|]. unfold group, at_byte in *.
  rewrite (filter_cons _ e E), (filter_cons (fun e => take (length p) (fst e) = p) e E).
  destruct (decide (fst e !! d = Some c)) as [He|He]; [rewrite filter_cons|]; rewrite IH;
    repeat case_decide; try done; exfalso; by rewrite (prefix_byte d p (fst e)) in *.
Qed.

(** From the children to the node. *)
Lemma lists_of_node {X} r d E l cs (x : X) :
  zlen cs = 256 -> Forall (key_ok (d + S r) ∘ fst) E ->
  (forall c, 0 <= c < 256 -> exists s, zget cs c = Ok s /\ lists_of (d + S r) (at_byte d c E) (slot_lists s)) ->
  lists_of (d + S r) E (lists (Node l cs x)).
Proof.
  intros Hl Hk Hs.
  assert (Hls : lists (Node l cs x) = concat (slot_lists <$> cs)) by done. rewrite Hls.
  assert (Hat : forall i w, (slot_lists <$> cs) !! i = Some w ->
            0 <= Z.of_nat i < 256 /\ lists_of (d + S r) (at_byte d (Z.of_nat i) E) w).
  { intros i w Hi. apply list_lookup_fmap_Some in Hi as (s & -> & Hi).
    pose proof (lookup_lt_Some _ _ _ Hi) as Hlt. assert (Hr : 0 <= Z.of_nat i < 256) by (unfold zlen in Hl; lia).
    split; [done|]. destruct (Hs _ Hr) as (s' & Hg & Hlo). apply zget_Ok in Hg as [_ Hg].
    rewrite Nat2Z.id in Hg. by simplify_eq. }
  assert (Hbyte : forall c v, (exists p, length p = (d + S r)%nat /\
                     leaf_of (T := unit) (group p (at_byte d c E)) = Leaf v) -> vkey v !! d = Some c).
  { intros c v (p & _ & Hp). apply leaf_key in Hp as (e & He & <-). apply group_elem in He as [He _].
    by apply list_elem_of_filter in He as [He _]. }
  split.
  - intros v. rewrite list_elem_of_In, in_concat. split.
    + intros (w & Hw & Hv). apply list_elem_of_In in Hw, Hv. apply list_elem_of_lookup in Hw as (i & Hi).
      destruct (Hat i w Hi) as [Hr [Hlo _]]. apply Hlo in Hv as (p & Hp & Hpl). exists p. split; [done|].
      rewrite group_byte in Hpl by lia. by case_decide.
    + intros (p & Hp & Hpl). pose proof Hpl as Hpl'. apply leaf_key in Hpl as (e & He & _).
      apply group_elem in He as [He Htake]. rewrite Forall_forall in Hk. destruct (Hk e He) as [Hlen Hu].
      destruct (lookup_lt_is_Some_2 (fst e) d) as [c Hc]; [lia|].
      pose proof (Forall_lookup_1 _ _ _ _ Hu Hc) as Hcu. unfold is_u in Hcu.
      destruct (Hs c ltac:(lia)) as (s & Hg & [Hlo _]). exists (slot_lists s).
      apply zget_Ok in Hg as [_ Hg]. split.
      * apply list_elem_of_In, list_elem_of_fmap. exists s. split; [done|]. by eapply list_elem_of_lookup_2.
      * apply list_elem_of_In, Hlo. exists p. split; [done|]. rewrite group_byte by lia.
        by rewrite decide_True by (rewrite (prefix_byte d p (fst e)) by (done || lia); done).
  - apply NoDup_fmap_concat.
    + intros i w Hi. apply (Hat i w Hi).
    + intros i j w w' v v' Hi Hj Hv Hv' Ev. destruct (Hat i w Hi) as [_ [Hlo _]].
      destruct (Hat j w' Hj) as [_ [Hlo' _]]. apply Hlo, Hbyte in Hv. apply Hlo', Hbyte in Hv'.
      rewrite <-(lookup_take_lt (vkey v) (d + S r)) in Hv by lia.
      rewrite <-(lookup_take_lt (vkey v') (d + S r)) in Hv' by lia. rewrite Ev, Hv' in Hv.
      injection Hv. lia.
Qed.

Lemma prefix_snoc d c (k q : list Z) : take d k = q -> k !! d = Some c -> take (d + 1) k = q ++ [c].
Proof. intros <- Hc. rewrite Nat.add_1_r. by apply take_S_r. Qed.

Lemma at_byte_prefix d c q E : Forall (fun e => take d (fst e) = q) E ->
  Forall (fun e => take (d + 1) (fst e) = q ++ [c]) (at_byte d c E).
Proof.
  rewrite !Forall_forall. intros H e [Hc He]%list_elem_of_filter. apply prefix_snoc; [by apply H|done].
Qed.

Lemma single_at_byte E k d b c : Forall (fun e => fst e = k) E -> k !! d = Some b ->
  at_byte d c E = if c =? b then E else [].
Proof.
  intros HE Hb. destruct (Z.eqb_spec c b) as [->|Hne].
  - apply at_byte_all. eapply Forall_impl; [exact HE|]. by intros e ->.
  - apply at_byte_none. eapply Forall_impl; [exact HE|]. intros e ->. congruence.
Qed.

(** The lists of a node that holds [E]: one per prefix. *)
Lemma node_lists {X} (info : kind -> list entry -> X -> Prop) r : forall d E t q,
  node_ok info (S r) d E t -> Forall (key_ok (d + S r) ∘ fst) E ->
  Forall (fun e => take d (fst e) = q) E -> length q = d -> lists_of (d + S r) E (lists t).
Proof.
  induction r as [|r IH]; intros d E [l cs x] q Hok Hk Hq Hlq.
  - destruct Hok as (_ & Hl & Hcs). apply lists_of_node; [done|done|]. intros c Hc.
    eexists. split; [by apply Hcs|]. apply lists_of_leaf with (q := q ++ [c]); [by apply at_byte_prefix|].
    rewrite length_app. simpl. lia.
  - destruct Hok as (_ & Hl & Hcases). apply lists_of_node; [done|done|]. intros c Hc.
    destruct Hcases as [(-> & _ & Hcs)|[(k & b & [Hne HE] & Hb & _ & Hcs)|[_ Hcs]]].
    + exists Null. split; [by apply Hcs|]. by apply (lists_of_leaf (d + S (S r)) (replicate (d + S (S r)) 0) []);
        [constructor|rewrite length_replicate].
    + rewrite Hcs by done. rewrite (single_at_byte E k d b c HE Hb). eexists. split; [done|].
      destruct E as [|e E]; [done|]. pose proof (Forall_inv HE) as He.
      assert (Hlk : length (take (d + S (S r)) k) = (d + S (S r))%nat).
      { apply Forall_inv in Hk as [Hlen _]. rewrite He in Hlen. rewrite length_take. lia. }
      destruct (c =? b); [|by apply (lists_of_leaf _ (take (d + S (S r)) k) [])].
      apply lists_of_leaf with (q := take (d + S (S r)) k); [|done].
      eapply Forall_impl; [exact HE|]. by intros e' ->.
    + specialize (Hcs c Hc). destruct (at_byte d c E) as [|e F] eqn:EF.
      * exists Null. split; [done|]. by apply (lists_of_leaf (d + S (S r)) (replicate (d + S (S r)) 0) []);
          [constructor|rewrite length_replicate].
      * destruct Hcs as (t' & Hg & Ht'). exists (Child t'). split; [done|].
        replace (d + S (S r))%nat with (S d + S r)%nat in * by lia.
        apply (IH (S d) _ t' (q ++ [c])); [done| | |].
        -- rewrite <-EF. by apply at_byte_keys.
        -- rewrite <-EF. replace (S d) with (d + 1)%nat by lia. by apply at_byte_prefix.
        -- rewrite length_app. simpl. lia.
Qed.

(** The next byte of a key. *)
Lemma next_byte n d k : key_ok n k -> (d < n)%nat ->
  exists b, k !! d = Some b /\ 0 <= b < 256 /\ drop d k = b :: drop (S d) k.
Proof.
  intros [Hl Hu] Hd. destruct (lookup_lt_is_Some_2 k d) as [b Hb]; [lia|].
  exists b. split; [done|]. split; [exact (Forall_lookup_1 _ _ _ _ Hu Hb)|]. by apply drop_S.
Qed.

Module BinaryProofs.
Import Binary.

(** Nodes without further members; no node keeps a list above the last
    layer. *)
Definition info (k : kind) (E : list entry) (x : unit) : Prop :=
  match k with Single _ => False | _ => True end.

Lemma insert_at_ok r : forall d E t k v, node_ok info (S r) d E t -> key_ok (d + S r) k ->
  Z.of_nat (d + S r) < 2 ^ 31 ->
  exists t', insert_at (Z.of_nat (d + S r)) k v (drop d k) (Z.of_nat d) t = Ok t' /\
    node_ok info (S r) d (E ++ [(k, v)]) t'.
Proof.
  induction r as [|r IH]; intros d E [l cs []] k v Hok Hk Hd;
    destruct (next_byte _ d k Hk ltac:(lia)) as (b & Hkb & Hb & Hdrop); rewrite Hdrop; cbn [insert_at];
    rewrite u32_small by lia; destruct Hok as (-> & Hl & Hcases).
  - replace (Z.of_nat d + 1 =? Z.of_nat (d + 1)) with true by (symmetry; apply Z.eqb_eq; lia).
    destruct (last_ok info d cs E () k v b Hl Hcases Hkb Hb) as (cs' & -> & Hok).
    eexists. by split; [|exact Hok].
  - replace (Z.of_nat d + 1 =? Z.of_nat (d + S (S r))) with false by (symmetry; apply Z.eqb_neq; lia).
    assert (Hcs : forall c, 0 <= c < 256 ->
              match at_byte d c E with
              | [] => zget cs c = Ok Null
              | _ => exists t', zget cs c = Ok (Child t') /\ node_ok info (S r) (S d) (at_byte d c E) t'
              end).
    { destruct Hcases as [(-> & _ & Hcs)|[(? & ? & _ & _ & [] & _)|[_ Hcs]]]; done. }
    assert (Hstep : exists c, node_ok info (S r) (S d) (at_byte d b E) c /\
      (s ← zget cs b; match s with Null => Ok (new_node () (Z.of_nat d + 1)) | Child c => Ok c | Leaf _ => Undef end)
        = Ok c).
    { specialize (Hcs b Hb). destruct (at_byte d b E) as [|e F].
      - rewrite Hcs. cbn [mbind res_bind]. eexists. split; [|done].
        replace (Z.of_nat d + 1) with (Z.of_nat (S d)) by lia. by apply new_node_ok.
      - destruct Hcs as (t' & -> & Ht'). by exists t'. }
    destruct Hstep as (c & Hc & Hs). apply bind_Ok_iff in Hs as (s & -> & Hs). cbn [mbind res_bind].
    rewrite Hs. cbn [mbind res_bind].
    replace (d + S (S r))%nat with (S d + S r)%nat in * by lia.
    destruct (IH (S d) _ c k v Hc Hk Hd) as (c' & E1 & Hc').
    replace (Z.of_nat d + 1) with (Z.of_nat (S d)) by lia. rewrite E1. cbn [mbind res_bind].
    destruct (branch_update info r d cs () E k v b c' Hl Hkb Hb I) as (cs' & -> & Hok);
      [intros c0 Hc0 _; by apply Hcs|done|].
    cbn [mbind res_bind]. eexists. by split; [|exact Hok].
Qed.
End BinaryProofs.

Module TrieProofs.
Import Trie.

(** What [childrenNum] and [onlyChild] say of a node above the last layer. *)
Definition info (k : kind) (E : list entry) (x : Z * Z) : Prop :=
  match k with
  | Empty => fst x = 0
  | Single c => x = (1, c)
  | Branch => 2 <= fst x <= zlen E + 1
  end.

(** A list that moves one layer down. *)
Lemma inner_ok r d E k b' : single E k -> k !! S d = Some b' -> 0 <= b' < 256 ->
  exists inner, zset (replicate (Z.to_nat CHILD_NUM) Null) b' (leaf_of E) = Ok inner /\
    node_ok info (S r) (S d) E (Node (Z.of_nat (S d)) inner (1, b')).
Proof.
  intros HE Hb' Hr. destruct (zset_children (X := Z * Z) (replicate (Z.to_nat CHILD_NUM) Null) b' (leaf_of E) eq_refl Hr)
    as (inner & Hz & Hl & Hin). exists inner. split; [done|].
  assert (Hin' : forall c, 0 <= c < 256 -> zget inner c = Ok (if c =? b' then leaf_of E else Null)).
  { intros c Hc. rewrite Hin by done. destruct (c =? b'); [done|]. apply zget_replicate. unfold CHILD_NUM. lia. }
  split; [done|]. split; [done|]. destruct r as [|r].
  - intros c Hc. rewrite Hin', (single_at_byte E k (S d) b' c (proj2 HE) Hb') by done. by destruct (c =? b').
  - right. left. exists k, b'. done.
Qed.

(** [split_only] on a node with one child, a list with another key. *)
Lemma split_other r d E cs k k1 v b1 :
  zlen cs = 256 -> single E k1 -> k1 !! d = Some b1 -> 0 <= b1 < 256 -> key_ok (d + S (S r)) k1 -> k1 <> k ->
  zget cs b1 = Ok (leaf_of E) ->
  exists cs1 t1, split_only k v (Z.of_nat (S d)) (Node (Z.of_nat d) cs (1, b1)) = Ok (false, Node (Z.of_nat d) cs1 (1, b1)) /\
    zlen cs1 = 256 /\ node_ok info (S r) (S d) E t1 /\
    forall c, 0 <= c < 256 -> zget cs1 c = if c =? b1 then Ok (Child t1) else zget cs c.
Proof.
  intros Hl HE Hb1 Hr Hk1 Hne Hg. destruct (next_byte _ (S d) k1 Hk1 ltac:(lia)) as (b' & Hb' & Hr' & _).
  destruct (inner_ok r d E k1 b' HE Hb' Hr') as (inner & Hz & Hin).
  destruct (zset_children cs b1 (Child (Node (Z.of_nat (S d)) inner (1, b'))) Hl Hr) as (cs1 & Hz1 & Hl1 & Hcs1).
  exists cs1, (Node (Z.of_nat (S d)) inner (1, b')). split; [|by split_and!].
  destruct E as [|e E]; [by destruct HE|]. pose proof (Forall_inv (proj2 HE)) as He. simpl in He. subst k1.
  unfold split_only. rewrite Hg. cbn [mbind res_bind leaf_of vkey]. rewrite bool_decide_false by done.
  unfold char_at. replace (Z.of_nat (S d) =? zlen (fst e)) with false
    by (symmetry; apply Z.eqb_neq; destruct Hk1; unfold zlen; lia).
  assert (Hg' : zget (fst e) (Z.of_nat (S d)) = Ok b') by (apply zget_Ok; split; [lia|by rewrite Nat2Z.id]).
  rewrite Hg'. cbn [mbind res_bind]. cbn [leaf_of] in Hz. rewrite Hz. cbn [mbind res_bind]. by rewrite Hz1.
Qed.

(** The same with the key of the list. *)
Lemma split_same d E cs k v b :
  zlen cs = 256 -> single E k -> 0 <= b < 256 -> zget cs b = Ok (leaf_of E) ->
  exists cs1, split_only k v (Z.of_nat (S d)) (Node (Z.of_nat d) cs (1, b)) = Ok (true, Node (Z.of_nat d) cs1 (1, b)) /\
    zlen cs1 = 256 /\
    forall c, 0 <= c < 256 -> zget cs1 c = if c =? b then Ok (leaf_of (E ++ [(k, v)])) else zget cs c.
Proof.
  intros Hl HE Hb Hg. destruct (zset_children cs b (leaf_of (E ++ [(k, v)])) Hl Hb) as (cs1 & Hz & Hl1 & Hcs1).
  exists cs1. split; [|done]. destruct E as [|e E]; [by destruct HE|].
  pose proof (Forall_inv (proj2 HE)) as He. simpl in He.
  unfold split_only. rewrite Hg. cbn [mbind res_bind leaf_of vkey]. rewrite bool_decide_true by done.
  rewrite leaf_of_snoc in Hz. cbn [leaf_of] in Hz. by rewrite Hz.
Qed.

(** Going down to the child of the byte, and what comes back. *)
Lemma descend r d E cs x k v b c
    (IH : forall E t, node_ok info (S r) (S d) E t -> zlen E < 2 ^ 31 ->
       Forall (key_ok (S d + S r) ∘ fst) E ->
       exists t', insert_at (Z.of_nat (S d + S r)) k v (drop (S d) k) (Z.of_nat (S d)) t = Ok t' /\
         node_ok info (S r) (S d) (E ++ [(k, v)]) t') :
  zlen cs = 256 -> k !! d = Some b -> 0 <= b < 256 -> info Branch (E ++ [(k, v)]) x ->
  zlen E < 2 ^ 31 -> Forall (key_ok (S d + S r) ∘ fst) E ->
  zget cs b = Ok (Child c) -> node_ok info (S r) (S d) (at_byte d b E) c ->
  (forall c, 0 <= c < 256 -> c <> b ->
     match at_byte d c E with
     | [] => zget cs c = Ok Null
     | _ => exists t', zget cs c = Ok (Child t') /\ node_ok info (S r) (S d) (at_byte d c E) t'
     end) ->
  exists t',
    (s ← zget cs b;
     match s with
     | Child c =>
         c ← insert_at (Z.of_nat (S d + S r)) k v (drop (S d) k) (Z.of_nat (S d)) c;
         cs ← zset cs b (Child c);
         Ok (Node (Z.of_nat d) cs x)
     | _ => Undef
     end) = Ok t' /\ node_ok info (S (S r)) d (E ++ [(k, v)]) t'.
Proof.
  intros Hl Hkb Hb Hx Hlen HE Hg Hc Hcs. rewrite Hg. cbn [mbind res_bind].
  pose proof (at_byte_length d b E).
  destruct (IH _ c Hc ltac:(lia) (at_byte_keys _ _ _ _ HE)) as (c' & -> & Hc'). cbn [mbind res_bind].
  destruct (branch_update info r d cs x E k v b c' Hl Hkb Hb Hx Hcs Hc') as (cs' & -> & Hok).
  cbn [mbind res_bind]. eexists. by split; [|exact Hok].
Qed.

(** A node without children. *)
Lemma insert_empty r d cs k v b :
  zlen cs = 256 -> (forall c, 0 <= c < 256 -> zget cs c = Ok Null) -> k !! d = Some b -> 0 <= b < 256 ->
  exists cs', put_value cs b k v = Ok cs' /\
    node_ok info (S (S r)) d [(k, v)] (Node (Z.of_nat d) cs' (1, b)).
Proof.
  intros Hl Hcs Hkb Hb. destruct (put_value_ok d cs [] k v b Hl Hkb Hb (Hcs b Hb)) as (cs' & E1 & Hl' & Hcs').
  exists cs'. split; [done|]. split; [done|]. split; [done|]. right. left. exists k, b.
  split; [split; [done|by repeat constructor]|]. split; [done|]. split; [done|].
  intros c Hc. rewrite Hcs' by done. cbn [app]. rewrite at_byte_one, decide_True by done.
  destruct (c =? b); [done|by apply Hcs].
Qed.

Lemma single_snoc E k v : single E k -> single (E ++ [(k, v)]) k.
Proof.
  intros [Hne HE]. split; [by destruct E|]. apply Forall_app. split; [done|by repeat constructor].
Qed.

(** A missing child of a node with several. *)
Lemma add_branch d cs num only k v b :
  zlen cs = 256 -> 0 <= b < 256 -> 2 <= num < 2 ^ 32 - 1 ->
  exists cs1, add_child k v (Z.of_nat (S d)) b (Node (Z.of_nat d) cs (num, only))
      = Ok (false, Node (Z.of_nat d) cs1 (num + 1, only)) /\ zlen cs1 = 256 /\
    forall c, 0 <= c < 256 -> zget cs1 c = if c =? b then Ok (Child (new_node (0, 0) (Z.of_nat (S d)))) else zget cs c.
Proof.
  intros Hl Hb Hn. destruct (zset_children cs b (Child (new_node (0, 0) (Z.of_nat (S d)))) Hl Hb)
    as (cs1 & Hz & Hl1 & Hcs1). exists cs1. split; [|done]. unfold add_child. cbn [childrenNum].
  replace (num =? 1) with false by (symmetry; apply Z.eqb_neq; lia). cbn [mbind res_bind].
  rewrite Hz. cbn [mbind res_bind count_child]. by rewrite u32_small by lia.
Qed.

(** The only child moves down and a second one is added. *)
Lemma add_second r d E cs k k1 v b b1 :
  zlen cs = 256 -> single E k1 -> k1 !! d = Some b1 -> 0 <= b1 < 256 -> key_ok (d + S (S r)) k1 -> k1 <> k ->
  zget cs b1 = Ok (leaf_of E) -> 0 <= b < 256 -> b <> b1 ->
  exists cs1 t1, add_child k v (Z.of_nat (S d)) b (Node (Z.of_nat d) cs (1, b1))
      = Ok (false, Node (Z.of_nat d) cs1 (2, b1)) /\
    zlen cs1 = 256 /\ node_ok info (S r) (S d) E t1 /\
    forall c, 0 <= c < 256 -> zget cs1 c = if c =? b then Ok (Child (new_node (0, 0) (Z.of_nat (S d))))
                                           else if c =? b1 then Ok (Child t1) else zget cs c.
Proof.
  intros Hl HE Hb1 Hr Hk1 Hne Hg Hb Hnb.
  destruct (split_other r d E cs k k1 v b1 Hl HE Hb1 Hr Hk1 Hne Hg) as (cs1 & t1 & Hs & Hl1 & Ht1 & Hcs1).
  destruct (zset_children cs1 b (Child (new_node (0, 0) (Z.of_nat (S d)))) Hl1 Hb) as (cs2 & Hz & Hl2 & Hcs2).
  exists cs2, t1. split; [|split; [done|split; [done|]]].
  - unfold add_child. cbn [childrenNum]. rewrite Z.eqb_refl, Hs. cbn [mbind res_bind]. by rewrite Hz.
  - intros c Hc. rewrite Hcs2 by done. destruct (c =? b); [done|]. by rewrite Hcs1.
Qed.

Lemma only_child_no k v layer node : childrenNum node <> 1 -> only_child k v layer node = Ok (false, node).
Proof. intros H. unfold only_child. by rewrite (proj2 (Z.eqb_neq _ _) H). Qed.

(** The children of a node whose entries have one key. *)
Lemma single_branch (d : nat) E k b1 (cs : list (slot_of (TreeNode (Z * Z)))) (Q : list entry -> TreeNode (Z * Z) -> Prop) b t1 :
  single E k -> k !! d = Some b1 -> Q E t1 ->
  (forall c, 0 <= c < 256 -> c <> b -> zget cs c = if c =? b1 then Ok (Child t1) else Ok Null) ->
  forall c, 0 <= c < 256 -> c <> b ->
    match at_byte d c E with
    | [] => zget cs c = Ok Null
    | _ => exists t', zget cs c = Ok (Child t') /\ Q (at_byte d c E) t'
    end.
Proof.
  intros [Hne HE] Hb1 HQ Hcs c Hc Hcb. rewrite Hcs by done. rewrite (single_at_byte E k d b1 c HE Hb1).
  destruct (c =? b1); [|done]. destruct E as [|e E]; [done|]. by exists t1.
Qed.

Section insertion.
Context (k : list Z) (v : Z).

(** What [insert_at] is to do on nodes [r] layers above the last. *)
Definition inserts (r d : nat) : Prop := forall E t,
  node_ok info (S r) d E t -> zlen E < 2 ^ 31 -> Forall (key_ok (d + S r) ∘ fst) E ->
  exists t', insert_at (Z.of_nat (d + S r)) k v (drop d k) (Z.of_nat d) t = Ok t' /\
    node_ok info (S r) d (E ++ [(k, v)]) t'.

Context (r d : nat) (IH : inserts r (S d)).
Context (b : Z) (Hkb : k !! d = Some b) (Hb : 0 <= b < 256).
Context (E : list entry) (HlE : zlen E < 2 ^ 31) (HE : Forall (key_ok (S d + S r) ∘ fst) E).
Context (cs : list (slot_of (TreeNode (Z * Z)))) (Hl : zlen cs = 256).

Local Abbreviation go x :=
  (insert_at (Z.of_nat (S d + S r)) k v (b :: drop (S d) k) (Z.of_nat d) (Node (Z.of_nat d) cs x)).
Local Abbreviation done_with R := (exists t', R = Ok t' /\ node_ok info (S (S r)) d (E ++ [(k, v)]) t').

Lemma snoc_length : zlen (E ++ [(k, v)]) = zlen E + 1.
Proof. rewrite zlen_app. done. Qed.

(** One key so far. *)
Lemma insert_single k1 b1 :
  Z.of_nat (S d + S r) < 2 ^ 31 ->
  single E k1 -> k1 !! d = Some b1 -> 0 <= b1 < 256 ->
  (forall c, 0 <= c < 256 -> zget cs c = Ok (if c =? b1 then leaf_of E else Null)) -> done_with (go (1, b1)).
Proof.
  intros Hd HS Hb1 Hr1 Hcs. cbn [insert_at]. rewrite u32_small by lia.
  replace (Z.of_nat d + 1) with (Z.of_nat (S d)) by lia.
  replace (Z.of_nat (S d) =? Z.of_nat (S d + S r)) with false by (symmetry; apply Z.eqb_neq; lia).
  assert (Hg1 : zget cs b1 = Ok (leaf_of E)) by (rewrite Hcs by done; by rewrite Z.eqb_refl).
  assert (Hk1 : key_ok (d + S (S r)) k1).
  { destruct HS as [Hne HS]. destruct E as [|e F]; [done|]. apply Forall_inv in HS, HE. simpl in HS, HE.
    rewrite HS in HE. by replace (d + S (S r))%nat with (S d + S r)%nat by lia. }
  pose proof snoc_length as Hsn. pose proof (zlen_nonneg E).
  assert (HE1 : 1 <= zlen E) by (destruct HS as [Hne _]; destruct E; [done|]; rewrite zlen_cons in *; pose proof (zlen_nonneg l); lia).
  assert (Hinfo : info Branch (E ++ [(k, v)]) (2, b1)) by (cbn; lia).
  rewrite Hcs by done. cbn [mbind res_bind orb Z.eqb]. destruct (Z.eqb_spec b b1) as [<-|Hne].
  - destruct (leaf_of E) as [|w|] eqn:Ew; [by destruct HS as [? _]; destruct E| |by destruct E].
    cbn [mbind res_bind]. rewrite <-Ew in *. destruct (decide (k1 = k)) as [->|Hk].
    + destruct (split_same d E cs k v b Hl HS Hb Hg1) as (cs1 & Hs & Hl1 & Hcs1).
      unfold only_child. cbn [childrenNum Z.eqb Pos.eqb]. rewrite Hs. cbn [mbind res_bind].
      eexists. split; [done|]. split; [done|]. split; [done|]. right. left. exists k, b.
      split; [by apply single_snoc|]. split; [done|]. split; [done|]. intros c Hc. rewrite Hcs1, Hcs by done.
      by destruct (c =? b).
    + destruct (split_other r d E cs k k1 v b Hl HS Hb1 Hb Hk1 Hk Hg1) as (cs1 & t1 & Hs & Hl1 & Ht1 & Hcs1).
      unfold only_child. cbn [childrenNum Z.eqb Pos.eqb]. rewrite Hs. cbn [mbind res_bind count_child].
      change (u32 (1 + 1)) with 2.
      apply (descend r d E cs1 (2, b) k v b t1); [by apply IH|done..| | |].
      * by rewrite Hcs1, Z.eqb_refl.
      * by rewrite (single_at_byte E k1 d b b (proj2 HS) Hb1), Z.eqb_refl.
      * apply (single_branch d E k1 b cs1 _ b t1 HS Hb1 Ht1). intros c Hc Hcb. rewrite Hcs1, Hcs by done.
        by rewrite (proj2 (Z.eqb_neq _ _) Hcb).
  - assert (Hk : k1 <> k) by congruence.
    destruct (add_second r d E cs k k1 v b b1 Hl HS Hb1 Hr1 Hk1 Hk Hg1 Hb Hne) as (cs1 & t1 & -> & Hl1 & Ht1 & Hcs1).
    cbn [mbind res_bind]. rewrite only_child_no by done. cbn [mbind res_bind].
    apply (descend r d E cs1 (2, b1) k v b (new_node (0, 0) (Z.of_nat (S d)))); [by apply IH|done..| | |].
    + by rewrite Hcs1, Z.eqb_refl.
    + rewrite (single_at_byte E k1 d b1 b (proj2 HS) Hb1), (proj2 (Z.eqb_neq _ _) Hne). by apply new_node_ok.
    + apply (single_branch d E k1 b1 cs1 _ b t1 HS Hb1 Ht1). intros c Hc Hcb. rewrite Hcs1 by done.
      rewrite (proj2 (Z.eqb_neq _ _) Hcb), Hcs by done. by destruct (c =? b1).
Qed.

(** Several. *)
Lemma insert_branch num only :
  Z.of_nat (S d + S r) < 2 ^ 31 -> 2 <= num <= zlen E + 1 ->
  (forall c, 0 <= c < 256 ->
     match at_byte d c E with
     | [] => zget cs c = Ok Null
     | _ => exists t', zget cs c = Ok (Child t') /\ node_ok info (S r) (S d) (at_byte d c E) t'
     end) -> done_with (go (num, only)).
Proof.
  intros Hd Hn Hcs. cbn [insert_at]. rewrite u32_small by lia.
  replace (Z.of_nat d + 1) with (Z.of_nat (S d)) by lia.
  replace (Z.of_nat (S d) =? Z.of_nat (S d + S r)) with false by (symmetry; apply Z.eqb_neq; lia).
  replace (num =? 0) with false by (symmetry; apply Z.eqb_neq; lia). pose proof snoc_length as Hsn.
  pose proof (Hcs b Hb) as Hs. destruct (at_byte d b E) as [|e F] eqn:EF.
  - rewrite Hs. cbn [mbind res_bind orb].
    destruct (add_branch d cs num only k v b Hl Hb ltac:(lia)) as (cs1 & -> & Hl1 & Hcs1).
    cbn [mbind res_bind]. rewrite only_child_no by (cbn; lia). cbn [mbind res_bind].
    apply (descend r d E cs1 (num + 1, only) k v b (new_node (0, 0) (Z.of_nat (S d)))); [by apply IH|done..|cbn; lia|done|done| | |].
    + by rewrite Hcs1, Z.eqb_refl.
    + rewrite EF. by apply new_node_ok.
    + intros c Hc Hcb. rewrite Hcs1 by done. rewrite (proj2 (Z.eqb_neq _ _) Hcb). by apply Hcs.
  - destruct Hs as (t' & Hg & Ht'). rewrite Hg. cbn [mbind res_bind orb].
    rewrite only_child_no by (cbn; lia). cbn [mbind res_bind].
    apply (descend r d E cs (num, only) k v b t'); [by apply IH|done..|cbn; lia|done|done|done|by rewrite EF|].
    intros c Hc _. by apply Hcs.
Qed.
End insertion.

Lemma insert_at_spec r k v : forall d, key_ok (d + S r) k -> Z.of_nat (d + S r) < 2 ^ 31 -> inserts k v r d.
Proof.
  induction r as [|r IH]; intros d Hk Hd E [l cs [num only]] Hok HlE HE;
    destruct (next_byte _ d k Hk ltac:(lia)) as (b & Hkb & Hb & Hdrop); rewrite Hdrop;
    destruct Hok as (-> & Hl & Hcases).
  - cbn [insert_at]. rewrite u32_small by lia.
    replace (Z.of_nat d + 1 =? Z.of_nat (d + 1)) with true by (symmetry; apply Z.eqb_eq; lia).
    rewrite Hcases by done. cbn [mbind res_bind orb].
    destruct (leaf_of (T := TreeNode (Z * Z)) (at_byte d b E));
      (edestruct (last_ok info d cs E) as (cs' & -> & Hok); [done..|]; eexists; by split; [|exact Hok]).
  - replace (d + S (S r))%nat with (S d + S r)%nat in * by lia. specialize (IH (S d) Hk Hd).
    destruct Hcases as [(-> & Hinfo & Hcs)|[(k1 & b1 & HS & Hb1 & Hinfo & Hcs)|[Hinfo Hcs]]].
    + cbn in Hinfo. subst num. cbn [insert_at]. rewrite Hcs by done. rewrite Z.eqb_refl, orb_true_r.
      cbn [mbind res_bind]. destruct (insert_empty r d cs k v b Hl Hcs Hkb Hb) as (cs' & -> & Hok).
      cbn [mbind res_bind]. eexists. by split; [|exact Hok].
    + injection Hinfo as -> ->. apply insert_single with (k1 := k1); try done.
      destruct HS as [Hne HS]. destruct E as [|e F]; [done|]. apply Forall_inv in HS, HE. simpl in HS, HE.
      rewrite HS in HE. destruct HE as [_ Hu]. exact (Forall_lookup_1 _ _ _ _ Hu Hb1).
    + by apply insert_branch.
Qed.
End TrieProofs.

(** ** Destruction *)
Lemma delete_children_undef {X} m l (cs : list (slot_of (TreeNode X))) x :
  l <> m -> (forall s, s ∈ cs -> match s with Child c => delete_node m c = Undef | _ => True end) ->
  (exists s, s ∈ cs /\ s <> Null) -> delete_node m (Node l cs x) = Undef.
Proof.
  intros Hl. cbn [delete_node]. rewrite (proj2 (Z.eqb_neq _ _) Hl).
  induction cs as [|s cs IH]; intros Hcs (s' & Hin & Hne); [by apply elem_of_nil in Hin|].
  pose proof (Hcs s ltac:(by left)) as Hs. destruct s as [|v|c]; [|done|by rewrite Hs].
  apply IH; [intros t Ht; apply Hcs; by right|]. apply elem_of_cons in Hin as [->|Hin]; [done|]. by exists s'.
Qed.

(** A node that holds something cannot be deleted. *)
Lemma delete_node_undef {X} (info : kind -> list entry -> X -> Prop) r : forall d E t,
  node_ok info (S r) d E t -> Forall (key_ok (d + S r) ∘ fst) E -> E <> [] ->
  delete_node (Z.of_nat (d + S r)) t = Undef.
Proof.
  assert (Hbyte : forall n d (E : list entry), Forall (key_ok n ∘ fst) E -> E <> [] -> (d < n)%nat ->
            exists c, 0 <= c < 256 /\ at_byte d c E <> []).
  { intros n d E HE Hne Hd. destruct E as [|e F]; [done|]. apply Forall_inv in HE. simpl in HE.
    destruct (next_byte n d _ HE Hd) as (c & Hc & Hr & _). exists c. split; [done|].
    unfold at_byte. rewrite filter_cons. by rewrite decide_True. }
  assert (Hat : forall (cs : list (slot_of (TreeNode X))) s, zlen cs = 256 -> s ∈ cs ->
            exists c, 0 <= c < 256 /\ zget cs c = Ok s).
  { intros cs s Hl (i & Hi)%list_elem_of_lookup. exists (Z.of_nat i). pose proof (lookup_lt_Some _ _ _ Hi).
    split; [unfold zlen in Hl; lia|]. apply zget_Ok. split; [lia|]. by rewrite Nat2Z.id. }
  assert (Hin : forall (cs : list (slot_of (TreeNode X))) c s, zget cs c = Ok s -> s <> Null ->
            exists s', s' ∈ cs /\ s' <> Null).
  { intros cs c s Hg Hne. exists s. split; [|done]. apply zget_Ok in Hg as [_ Hg]. by eapply list_elem_of_lookup_2. }
  induction r as [|r IH]; intros d E [l cs x] Hok HE Hne;
    destruct (Hbyte _ d E HE Hne ltac:(lia)) as (b & Hb & Hbne); destruct Hok as (-> & Hl & Hcases);
    apply delete_children_undef; try lia.
  - intros s Hs. destruct (Hat cs s Hl Hs) as (c & Hc & Hg). rewrite Hcases in Hg by done.
    injection Hg as <-. by destruct (at_byte d c E).
  - apply (Hin cs b _ (Hcases b Hb)). by destruct (at_byte d b E).
  - intros s Hs. destruct (Hat cs s Hl Hs) as (c & Hc & Hg).
    destruct Hcases as [(-> & _)|[(k & b1 & _ & _ & _ & Hcs)|[_ Hcs]]]; [done| |].
    + rewrite Hcs in Hg by done. injection Hg as <-. destruct (c =? b1); [|done]. by destruct E.
    + specialize (Hcs c Hc). destruct (at_byte d c E) as [|e F] eqn:EF; [rewrite Hcs in Hg; by injection Hg as <-|].
      destruct Hcs as (t' & Hg' & Ht'). rewrite Hg' in Hg. injection Hg as <-.
      replace (d + S (S r))%nat with (S d + S r)%nat in * by lia. apply (IH _ _ _ Ht'); [|done].
      rewrite <-EF. by apply at_byte_keys.
  - destruct Hcases as [(-> & _)|[(k & b1 & [_ HS] & Hb1 & _ & Hcs)|[_ Hcs]]]; [done| |].
    + rewrite (single_at_byte E k d b1 b HS Hb1) in Hbne. destruct (Z.eqb_spec b b1) as [->|]; [|done].
      pose proof (Hcs b1 Hb) as Hg. rewrite Z.eqb_refl in Hg. apply (Hin cs b1 _ Hg). by destruct E.
    + specialize (Hcs b Hb). destruct (at_byte d b E); [done|]. destruct Hcs as (t' & Hg & _). by apply (Hin cs b _ Hg).
Qed.

(** ** Both trees *)
Fixpoint binary_insert_all (t : Binary.BinaryTree) (l : list entry) : res Binary.BinaryTree :=
  match l with
  | [] => Ok t
  | (k, v) :: l => '(_, t) ← Binary.insert t k v; binary_insert_all t l
  end.

Fixpoint trie_insert_all (t : Trie.TrieTree) (l : list entry) : res Trie.TrieTree :=
  match l with
  | [] => Ok t
  | (k, v) :: l => '(_, t) ← Trie.insert t k v; trie_insert_all t l
  end.

(** Keys of the tree's length. *)
Definition keys_of_length (n : Z) (l : list entry) : Prop :=
  Forall (fun e => zlen (fst e) = n /\ Forall (is_u 8) (fst e)) l.

Lemma keys_ok n m l : keys_of_length n l -> Z.of_nat m <= n -> Forall (key_ok m ∘ fst) l.
Proof. intros H Hm. eapply Forall_impl; [exact H|]. intros e [Hn Hu]. split; [unfold zlen in Hn; lia|done]. Qed.

Lemma binary_all r n l : Z.of_nat (S r) <= n < 2 ^ 31 -> keys_of_length n l -> forall t E,
  Binary.maxLayer t = Z.of_nat (S r) -> Binary.keyLen t = n ->
  node_ok BinaryProofs.info (S r) 0 E (Binary.root t) ->
  exists t', binary_insert_all t l = Ok t' /\ Binary.maxLayer t' = Z.of_nat (S r) /\
    node_ok BinaryProofs.info (S r) 0 (E ++ l) (Binary.root t').
Proof.
  intros Hn Hl. induction Hl as [|[k v] l [Hk Hu] _ IH]; intros t E Hm Hkl Hok; cbn [binary_insert_all].
  { exists t. by rewrite app_nil_r. }
  cbn [fst] in *. unfold Binary.insert. rewrite Hk, Hkl, Z.eqb_refl. cbn [negb].
  destruct (BinaryProofs.insert_at_ok r 0 E (Binary.root t) k v Hok) as (t' & E1 & Ht').
  { split; [unfold zlen in Hk; lia|done]. }
  { simpl. lia. }
  rewrite Hm. change (drop 0 k) with k in E1. change (Z.of_nat 0) with 0 in E1. change (0 + S r)%nat with (S r) in E1.
  rewrite E1. cbn [mbind res_bind].
  edestruct (IH (Binary.mkTree (Z.of_nat (S r)) n (Binary.valueLen t) (u64 (Binary.nodeNum t + 1)) t') (E ++ [(k, v)]))
    as (t2 & E2 & Hm2 & Ht2); [done|done|exact Ht'|].
  exists t2. split; [exact E2|]. split; [done|]. by rewrite <-app_assoc in Ht2.
Qed.

Lemma trie_all r n l : Z.of_nat (S r) <= n < 2 ^ 31 -> keys_of_length n l -> forall t E,
  Trie.maxLayer t = Z.of_nat (S r) -> Trie.keyLen t = n -> keys_of_length n E -> zlen E + zlen l < 2 ^ 31 ->
  node_ok TrieProofs.info (S r) 0 E (Trie.root t) ->
  exists t', trie_insert_all t l = Ok t' /\ Trie.maxLayer t' = Z.of_nat (S r) /\
    node_ok TrieProofs.info (S r) 0 (E ++ l) (Trie.root t').
Proof.
  intros Hn Hl. induction Hl as [|[k v] l [Hk Hu] _ IH]; intros t E Hm Hkl HE Hlen Hok; cbn [trie_insert_all].
  { exists t. by rewrite app_nil_r. }
  cbn [fst] in *. rewrite zlen_cons in Hlen. pose proof (zlen_nonneg l).
  unfold Trie.insert. rewrite Hk, Hkl, Z.eqb_refl. cbn [negb].
  destruct (TrieProofs.insert_at_spec r k v 0) with (E := E) (t := Trie.root t) as (t' & E1 & Ht'); try done.
  { split; [unfold zlen in Hk; lia|done]. }
  { simpl. lia. }
  { lia. }
  { apply (keys_ok n); [done|]. simpl. lia. }
  rewrite Hm. change (drop 0 k) with k in E1. change (Z.of_nat 0) with 0 in E1. change (0 + S r)%nat with (S r) in E1.
  rewrite E1. cbn [mbind res_bind].
  edestruct (IH (Trie.mkTree (Z.of_nat (S r)) n (Trie.valueLen t) (u64 (Trie.nodeNum t + 1)) t') (E ++ [(k, v)]))
    as (t2 & E2 & Hm2 & Ht2); [done|done| | |exact Ht'|].
  { apply Forall_app. split; [done|]. by repeat constructor. }
  { rewrite zlen_app. change (zlen [(k, v)]) with 1. lia. }
  exists t2. split; [exact E2|]. split; [done|]. by rewrite <-app_assoc in Ht2.
Qed.

Lemma lists_of_perm m E l l' : lists_of m E l -> lists_of m E l' -> l ≡ₚ l'.
Proof.
  intros [H1 N1] [H2 N2]. apply NoDup_Permutation; [by eapply NoDup_fmap_1|by eapply NoDup_fmap_1|].
  intros v. by rewrite H1, H2.
Qed.

(** C31: For any sequence of insertions of keys of length [n], with at most [n]
    layers, both tries end without undefined behaviour and hold the same
    lists: one for each prefix of [m] bytes that occurs, under the first key
    with the prefix, with the values of all its keys in the order of their
    insertion; and neither tree can be destroyed once it holds a value. *)
Theorem tries_hold_values m n vl l :
  0 < m <= n -> n < 2 ^ 31 -> keys_of_length n l -> zlen l < 2 ^ 31 ->
  exists b t,
    binary_insert_all (Binary.new_BinaryTree m n vl) l = Ok b /\
    trie_insert_all (Trie.new_TrieTree m n vl) l = Ok t /\
    lists_of (Z.to_nat m) l (lists (Trie.root t)) /\
    lists (Binary.root b) ≡ₚ lists (Trie.root t) /\
    (l <> [] -> Binary.delete_BinaryTree b = Undef /\ Trie.delete_TrieTree t = Undef).
Proof.
  intros Hm Hn Hl Hlen. destruct (Z.to_nat m) as [|r] eqn:Er; [lia|].
  assert (Hmr : m = Z.of_nat (S r)) by lia. subst m. clear Er.
  destruct (binary_all r n l ltac:(lia) Hl (Binary.new_BinaryTree (Z.of_nat (S r)) n vl) [])
    as (b & Eb & Hbm & Hb); [done|done|by apply (new_node_ok BinaryProofs.info r 0)|].
  destruct (trie_all r n l ltac:(lia) Hl (Trie.new_TrieTree (Z.of_nat (S r)) n vl) [])
    as (t & Et & Htm & Ht); [done|done|constructor|done|by apply (new_node_ok TrieProofs.info r 0)|].
  pose proof (keys_ok n (S r) l Hl ltac:(lia)) as Hk. cbn [app] in Hb, Ht.
  assert (Hq : Forall (fun e : entry => take 0 (fst e) = []) l) by (apply Forall_forall; by intros e _).
  pose proof (node_lists _ r 0 l _ [] Hb Hk Hq eq_refl) as HLb.
  pose proof (node_lists _ r 0 l _ [] Ht Hk Hq eq_refl) as HLt.
  exists b, t. split; [done|]. split; [done|]. split; [done|]. split; [by eapply lists_of_perm|].
  intros Hne. unfold Binary.delete_BinaryTree, Trie.delete_TrieTree. rewrite Hbm, Htm.
  split; [apply (delete_node_undef _ r 0 l _ Hb Hk Hne)|apply (delete_node_undef _ r 0 l _ Ht Hk Hne)].
Qed.

Module DemoTries.
Definition some_entries : list entry := [([1; 2; 3], 10); ([1; 2; 4], 20); ([1; 2; 3], 30); ([5; 0; 0], 40)].

Lemma tries_hold_values_witness :
  exists b t, binary_insert_all (Binary.new_BinaryTree 3 3 8) some_entries = Ok b /\
    trie_insert_all (Trie.new_TrieTree 3 3 8) some_entries = Ok t /\
    lists (Binary.root b) ≡ₚ lists (Trie.root t) /\ Trie.delete_TrieTree t = Undef.
Proof.
  destruct (tries_hold_values 3 3 8 some_entries) as (b & t & Hb & Ht & _ & Hp & Hd).
  - lia.
  - lia.
  - repeat constructor; unfold is_u; simpl; try lia.
  - vm_compute. done.
  - exists b, t. split; [exact Hb|]. split; [exact Ht|]. split; [exact Hp|]. apply Hd. done.
Defined.

(** The lists in numbers. *)
Lemma some_lists :
  (fun t => lists (Trie.root t)) <$> trie_insert_all (Trie.new_TrieTree 3 3 8) some_entries
  = Ok [mkValues [1; 2; 3] [10; 30]; mkValues [1; 2; 4] [20]; mkValues [5; 0; 0] [40]].
Proof. vm_compute. done. Qed.

(** With more layers than bytes values get lost: in [BinaryTree] all, in
    [TrieTree] those of a key that differs from another in its last byte. *)
Lemma more_layers_lose_values :
  (fun t => lists (Binary.root t)) <$> binary_insert_all (Binary.new_BinaryTree 4 3 8) some_entries = Ok [] /\
  (fun t => lists (Trie.root t)) <$> trie_insert_all (Trie.new_TrieTree 4 3 8) some_entries
  = Ok [mkValues [1; 2; 3] [10]; mkValues [5; 0; 0] [40]].
Proof. vm_compute. done. Qed.

(** With fewer layers the values of different keys are mixed. *)
Lemma fewer_layers_mix_values :
  (fun t => lists (Trie.root t)) <$> trie_insert_all (Trie.new_TrieTree 2 3 8) some_entries
  = Ok [mkValues [1; 2; 3] [10; 20; 30]; mkValues [5; 0; 0] [40]].
Proof. vm_compute. done. Qed.
End DemoTries.
