(* ===== verification/Storage.v ===== *)
(** * Buffers of the earlier pipeline (dpdk_lib/memoryBuffer.hpp,
      dpdk_component/directStorage.cpp)

    Before packets went to a circular buffer of data blocks, each thread
    appended to a buffer of its own: a [MemoryBuffer] is a circle of blocks
    that one thread fills and [DirectStorage] writes to a file.  The theorem:
    what was written and what is still in memory are together the log of all
    data appended, as long as no write is cut at the end of a block.  Calls of the two threads are interleaved as wholes; the
    guard [clean] says when they touch different blocks. *)
From Stdlib Require Import ZArith Lia Bool.
From S2P Require Import Prelude.

Definition PAGE_SIZE : Z := 1024.
Definition LEAST_BLOCK_NUM : Z := 3.

(** What is handed to [pwrite]: the position in the file and the bytes; a
    failed [pwrite] is only reported. *)
Record Pwrite := mkPwrite { w_position : Z; w_bytes : list Z }.

(** ** [MemoryBuffer] *)
Module Memory.

Record MemoryBuffer := mkMemory {
  total_block_num : Z;
  block_size : Z;
  fileID : Z;
  fileName : list Z;
  fileOffset : Z;
  buffer_blocks : list (list Z);
  block_flags : list bool;
  write_flags : list bool;
  block_id : Z;
  offset : Z }.

(** The first blocks from number [i] on; [alloc i] is the memory that
    [posix_memalign] gives. *)
Fixpoint alloc_blocks (alloc : Z -> option (list Z)) (n : nat) (i : Z) : option (list (list Z)) :=
  match n with
  | O => Some []
  | S n =>
      match alloc i with
      | None => None
      | Some b => cons b <$> alloc_blocks alloc n (i + 1)
      end
  end.

(** The constructor; [None]: it returned before its members were set. *)
Definition new_MemoryBuffer (alloc : Z -> option (list Z)) (open_ok : bool) (id capacity block_num : Z)
    (file_name : list Z) (off : Z) : option MemoryBuffer :=
  if negb (capacity mod PAGE_SIZE =? 0) then None
  else if block_num <? LEAST_BLOCK_NUM then None
  else if negb open_ok then None
  else
    match alloc_blocks alloc (Z.to_nat block_num) 0 with
    | None => None
    | Some blocks =>
        Some (mkMemory block_num capacity id file_name 0 blocks (replicate (Z.to_nat block_num) false)
                (replicate (Z.to_nat block_num) false) 0 off)
    end.

(** The destructor: the blocks that it warns about; all are freed. *)
Definition destroy (m : MemoryBuffer) : res (list Z) :=
  flags ← mapM (fun i => zget (block_flags m) i) (zseq (total_block_num m));
  Ok (fst <$> filter (fun p => p.2 = true) (zip (zseq (total_block_num m)) flags)).

Definition with_blocks (m : MemoryBuffer) (blocks : list (list Z)) : MemoryBuffer :=
  mkMemory (total_block_num m) (block_size m) (fileID m) (fileName m) (fileOffset m) blocks
    (block_flags m) (write_flags m) (block_id m) (offset m).
Definition with_flags (m : MemoryBuffer) (dirty ready : list bool) : MemoryBuffer :=
  mkMemory (total_block_num m) (block_size m) (fileID m) (fileName m) (fileOffset m) (buffer_blocks m)
    dirty ready (block_id m) (offset m).
Definition with_offset (m : MemoryBuffer) (off : Z) : MemoryBuffer :=
  mkMemory (total_block_num m) (block_size m) (fileID m) (fileName m) (fileOffset m) (buffer_blocks m)
    (block_flags m) (write_flags m) (block_id m) off.

Definition changeFileOffset (m : MemoryBuffer) : MemoryBuffer :=
  mkMemory (total_block_num m) (block_size m) (fileID m) (fileName m) (u64 (fileOffset m + block_size m))
    (buffer_blocks m) (block_flags m) (write_flags m) (block_id m) (offset m).

(** The block before the current one. *)
Definition last_block_id (m : MemoryBuffer) : res Z :=
  if total_block_num m =? 0 then Undef
  else Ok (u32 (block_id m + total_block_num m - 1) mod total_block_num m).

(** The current block is left: the one before it may be written to the file
    from now on.  The function waits until the block that it leaves is clean,
    not the one that it enters. *)
Definition changeBlock (m : MemoryBuffer) : res MemoryBuffer :=
  dirty ← zget (block_flags m) (block_id m);
  if dirty : bool then Blocks else
  last ← last_block_id m;
  f ← zget (block_flags m) last;
  ready ← zset (write_flags m) last f;
  dirty ← zset (block_flags m) (block_id m) true;
  Ok (changeFileOffset
        (mkMemory (total_block_num m) (block_size m) (fileID m) (fileName m) (fileOffset m)
           (buffer_blocks m) dirty ready (u32 (block_id m + 1) mod total_block_num m) 0)).

(** [memcpy(this->buffer_blocks[id] + pos, data + soff, n)] *)
Definition copy_in (m : MemoryBuffer) (id pos : Z) (data : list Z) (soff n : Z) : res MemoryBuffer :=
  b ← zget (buffer_blocks m) id;
  b ← memcpy b pos data soff n;
  blocks ← zset (buffer_blocks m) id b;
  Ok (with_blocks m blocks).

(** The second piece of cut data starts again at the beginning of [data]. *)
Definition writePointer (m : MemoryBuffer) (data : list Z) (len : Z) : res MemoryBuffer :=
  if block_size m <? u64 (offset m + len) then
    let tmp := u32 (block_size m - offset m) in
    m ← copy_in m (block_id m) (offset m) data 0 tmp;
    m ← changeBlock m;
    m ← copy_in m (block_id m) (offset m) data 0 (u32 (len - tmp));
    Ok (with_offset m (u32 (len - tmp)))
  else
    m ← copy_in m (block_id m) (offset m) data 0 len;
    Ok (with_offset m (u64 (offset m + len))).

Definition writeBefore (m : MemoryBuffer) (data : list Z) (len totalOffset : Z) : res MemoryBuffer :=
  if u64 (fileOffset m + offset m) <? u64 (totalOffset + len) then Ok m
  else if fileOffset m <? totalOffset then
    copy_in m (block_id m) (u64 (totalOffset - fileOffset m)) data 0 len
  else
    '(m, len) ←
      (if fileOffset m <? u64 (totalOffset + len) then
         let tmplen := u32 (fileOffset m - totalOffset) in
         m ← copy_in m (block_id m) 0 data tmplen (u32 (len - tmplen));
         Ok (m, tmplen)
       else Ok (m, len));
    last ← last_block_id m;
    copy_in m last (u64 (block_size m - u64 (fileOffset m - totalOffset))) data 0 len.

(** Every block goes to the current position of the file, not to its own. *)
Definition write_block (m : MemoryBuffer) (id : Z) : res Pwrite :=
  b ← zget (buffer_blocks m) id;
  b ← zread b 0 (block_size m);
  Ok (mkPwrite (fileOffset m) b).

Definition checkAndWriteFile (m : MemoryBuffer) (id : Z) : res (bool * MemoryBuffer * list Pwrite) :=
  ready ← zget (write_flags m) id;
  if negb ready then Ok (false, m, []) else
  w ← write_block m id;
  ready ← zset (write_flags m) id false;
  dirty ← zset (block_flags m) id false;
  Ok (true, with_flags m dirty ready, [w]).

Definition directWriteFile (m : MemoryBuffer) (id : Z) : res (list Pwrite) :=
  '(id, before) ←
    (if id =? block_id m then Ok (id, [])
     else w ← write_block m id; Ok (u32 (id + 1), [w]));
  w ← write_block m id;
  Ok (before ++ [w]).

Definition getFileName (m : MemoryBuffer) : list Z := fileName m.
Definition getOffset (m : MemoryBuffer) : Z := offset m.
Definition getBlockID (m : MemoryBuffer) : Z := block_id m.
Definition getFileID (m : MemoryBuffer) : Z := fileID m.
Definition getNum (m : MemoryBuffer) : Z := total_block_num m.
Definition getSize (m : MemoryBuffer) : Z := block_size m.
Definition getFileOffset (m : MemoryBuffer) : Z := fileOffset m.
End Memory.

(** ** [DirectStorage] *)
Module Direct.
Import Memory.

(** A buffer with the number of the block to look at next. *)
Record DirectStorage := mkDirect {
  buffers : list MemoryBuffer;
  checkID : list Z;
  stop : bool;
  testID : Z }.

Definition new_DirectStorage (id : Z) : DirectStorage := mkDirect [] [] false id.

Definition addBuffer (d : DirectStorage) (m : MemoryBuffer) : DirectStorage :=
  mkDirect (buffers d ++ [m]) (checkID d ++ [0]) (stop d) (testID d).

(** One turn of the loop in [runUnit]. *)
Definition check_buffer (m : MemoryBuffer) (id : Z) : res (bool * MemoryBuffer * Z * list Pwrite) :=
  '(ok, m, w) ← checkAndWriteFile m id;
  if negb ok then Ok (false, m, id, w)
  else if getNum m =? 0 then Undef
  else Ok (true, m, u32 (id + 1) mod getNum m, w).

Fixpoint check_buffers (ms : list MemoryBuffer) (ids : list Z)
    : res (bool * list MemoryBuffer * list Z * list (list Pwrite)) :=
  match ms, ids with
  | [], _ => Ok (false, [], ids, [])
  | _ :: _, [] => Undef
  | m :: ms, id :: ids =>
      '(ok, m, id, w) ← check_buffer m id;
      '(change, ms, ids, ws) ← check_buffers ms ids;
      Ok (ok || change, m :: ms, id :: ids, w :: ws)
  end.

(** Whether a block was written, and what was written of each buffer. *)
Definition runUnit (d : DirectStorage) : res (bool * DirectStorage * list (list Pwrite)) :=
  '(change, ms, ids, ws) ← check_buffers (buffers d) (checkID d);
  Ok (change, mkDirect ms ids (stop d) (testID d), ws).

Definition asynchronousStop (d : DirectStorage) : DirectStorage :=
  mkDirect (buffers d) (checkID d) true (testID d).

(** The writes after the loop. *)
Definition last_writes (d : DirectStorage) : res (list (list Pwrite)) :=
  mapM (fun p => directWriteFile p.1 p.2) (zip (buffers d) (checkID d)).

(** [run]: each element of [others] is what the filling threads and the
    controller do to the object before a turn of the loop, and between its
    writes and the test of [stop]. *)
Fixpoint run (others : list ((DirectStorage -> DirectStorage) * (DirectStorage -> DirectStorage)))
    (d : DirectStorage) : res (DirectStorage * list (list (list Pwrite))) :=
  match others with
  | [] => Blocks
  | (f, g) :: others =>
      '(change, d, ws) ← runUnit (f d);
      let d := g d in
      if negb change && stop d then
        last ← last_writes d;
        Ok (d, [ws; last])
      else
        '(d, rest) ← run others d;
        Ok (d, ws :: rest)
  end.
End Direct.

(** ** The log that a buffer holds *)
Module MemoryProofs.
Import Memory Direct.

(** What is done to a buffer: data appended, data written over an earlier
    place, and a turn of the storage thread. *)
Inductive Event := Write (data : list Z) | Before (data : list Z) (pos : Z) | Turn.

(** The buffer, the next block to be looked at, and what was written. *)
Record World := mkWorld { mem : MemoryBuffer; check_id : Z; pwrites : list Pwrite }.

Definition exec (w : World) (e : Event) : res World :=
  match e with
  | Write data => m ← writePointer (mem w) data (zlen data); Ok (mkWorld m (check_id w) (pwrites w))
  | Before data pos => m ← writeBefore (mem w) data (zlen data) pos; Ok (mkWorld m (check_id w) (pwrites w))
  | Turn => '(_, m, id, ws) ← check_buffer (mem w) (check_id w); Ok (mkWorld m id (pwrites w ++ ws))
  end.

Fixpoint run_events (w : World) (evs : list Event) : res World :=
  match evs with
  | [] => Ok w
  | e :: evs => w ← exec w e; run_events w evs
  end.

(** What the buffer holds and has not written yet. *)
Definition pending (w : World) : list Z :=
  let m := mem w in
  let block i := from_res [] (zget (buffer_blocks m) i) in
  concat ((fun i => block ((check_id w + i) mod total_block_num m))
            <$> zseq ((block_id m - check_id w) mod total_block_num m))
  ++ zslice 0 (offset m) (block (block_id m)).

(** The block that is filled has been written to the file since it was last
    left; the code does not test it. *)
Definition clean (m : MemoryBuffer) : bool :=
  match zget (block_flags m) (block_id m) with Ok dirty => negb dirty | _ => false end.

(** It is so before each event. *)
Fixpoint kept_up (w : World) (evs : list Event) : bool :=
  clean (mem w) &&
  match evs with
  | [] => true
  | e :: evs => match exec w e with Ok w => kept_up w evs | _ => true end
  end.

Section logs.
Context (bs : Z).

(** The log of all data, with the changes made to it, and how much of its
    last block is used. *)
Definition log_write (g : list Z * Z) (data : list Z) : list Z * Z :=
  (g.1 ++ data, if bs <? g.2 + zlen data then zlen data else g.2 + zlen data).

Definition log_before (g : list Z * Z) (data : list Z) (pos : Z) : list Z * Z :=
  if zlen g.1 <? pos + zlen data then g else (zsplice pos data g.1, g.2).

Definition log_event (g : list Z * Z) (e : Event) : list Z * Z :=
  match e with
  | Write data => log_write g data
  | Before data pos => log_before g data pos
  | Turn => g
  end.

(** An earlier place lies in the block that is filled or the one before it. *)
Definition place_ok (g : list Z * Z) (data : list Z) (pos : Z) : Prop :=
  zlen data < 2 ^ 32 /\ Z.max 0 (zlen g.1 - g.2 - bs) <= pos < 2 ^ 63.

(** No write is cut: data fit into what is left of the block, or the block is
    full and a new one begins. *)
Definition event_fits (g : list Z * Z) (e : Event) : Prop :=
  match e with
  | Write data => zlen data <= bs /\ (g.2 = bs \/ g.2 + zlen data <= bs) /\ zlen g.1 + zlen data < 2 ^ 63
  | Before data pos => place_ok g data pos
  | Turn => True
  end.

Fixpoint events_fit (g : list Z * Z) (evs : list Event) : Prop :=
  match evs with
  | [] => True
  | e :: evs => event_fits g e /\ events_fit (log_event g e) evs
  end.

(** What the code appends when a write may be cut: behind the cut the data
    start again. *)
Definition stream_append (g : list Z * Z) (data : list Z) : list Z * Z :=
  let '(l, o) := g in
  if bs <? o + zlen data then
    let tmp := bs - o in (l ++ zslice 0 tmp data ++ zslice 0 (zlen data - tmp) data, zlen data - tmp)
  else (l ++ data, o + zlen data).

Definition stream_event (g : list Z * Z) (e : Event) : list Z * Z :=
  match e with
  | Write data => stream_append g data
  | _ => log_event g e
  end.

(** A piece is at most a block long. *)
Definition event_ok (g : list Z * Z) (e : Event) : Prop :=
  match e with
  | Write data => zlen data <= bs /\ zlen (stream_append g data).1 < 2 ^ 63
  | Before data pos => place_ok g data pos
  | Turn => True
  end.

Fixpoint events_ok (g : list Z * Z) (evs : list Event) : Prop :=
  match evs with
  | [] => True
  | e :: evs => event_ok g e /\ events_ok (stream_event g e) evs
  end.

(** When no write is cut the code appends the data. *)
Lemma stream_uncut g e : event_fits g e -> stream_event g e = log_event g e /\ event_ok g e.
Proof.
  destruct e as [data|data pos|]; [|done..]. destruct g as [l o].
  cbn [event_fits stream_event log_event event_ok fst snd]. intros (Hd & Hfit & Hm).
  enough (stream_append (l, o) data = log_write (l, o) data) as ->.
  { split; [done|]. split; [done|]. unfold log_write. cbn [fst]. by rewrite zlen_app. }
  unfold stream_append, log_write. cbn [fst snd]. destruct (Z.ltb_spec bs (o + zlen data)); [|done].
  replace (bs - o) with 0 by lia. by rewrite Z.sub_0_r, (zslice_full data (zlen data)).
Qed.

Lemma streams_uncut evs : forall g, events_fit g evs ->
  foldl stream_event g evs = foldl log_event g evs /\ events_ok g evs.
Proof.
  induction evs as [|e evs IH]; intros g; [done|]. intros [[E Hok]%stream_uncut Hf]. cbn [foldl events_ok].
  rewrite E. destruct (IH _ Hf) as [-> ?]. done.
Qed.
End logs.

Section invariant.
Context (N bs : Z) (HN : 3 <= N < 2 ^ 31) (Hbs : 0 < bs < 2 ^ 32).

(** Block [k] of the log is in place [k mod N] of the circle. *)
Definition holds (m : MemoryBuffer) (c s : Z) (l : list Z) : Prop :=
  forall k b j, s <= k <= c -> zget (buffer_blocks m) (k mod N) = Ok b -> 0 <= j < bs ->
    k * bs + j < zlen l -> b !! Z.to_nat j = l !! Z.to_nat (k * bs + j).

(** [c] blocks of the log were left and [s] written. *)
Record inv (m : MemoryBuffer) (c s : Z) (l : list Z) : Prop := {
  i_n : total_block_num m = N;
  i_bs : block_size m = bs;
  i_blocks : zlen (buffer_blocks m) = N;
  i_sizes : Forall (fun b => zlen b = bs) (buffer_blocks m);
  i_dirties : zlen (block_flags m) = N;
  i_readies : zlen (write_flags m) = N;
  i_pos : fileOffset m = c * bs;
  i_id : block_id m = c mod N;
  i_len : c * bs <= zlen l <= c * bs + bs;
  i_s : 0 <= s <= c;
  i_behind : 0 < c -> s < c;
  i_ahead : c <= s + N;
  i_dirty : forall k, s <= k < s + N -> zget (block_flags m) (k mod N) = Ok (k <? c);
  i_ready : forall k, s <= k < s + N -> zget (write_flags m) (k mod N) = Ok (k <? c - 1);
  i_holds : holds m c s l }.

Lemma clean_spec m c s l : inv m c s l -> (clean m = true <-> c < s + N).
Proof.
  intros []. unfold clean. rewrite i_id0. destruct (decide (c < s + N)) as [Hc|Hc].
  - rewrite i_dirty0 by lia. rewrite Z.ltb_irrefl. done.
  - replace (c mod N) with (s mod N); [|replace c with (s + 1 * N) by lia; by rewrite Z.mod_add by lia].
    rewrite i_dirty0 by lia. replace (s <? c) with true by (symmetry; apply Z.ltb_lt; lia). split; [done|lia].
Qed.

(** The bytes of [l'] are those of [l], but for [src] from [q] on. *)
Definition patched (l l' : list Z) (q : Z) (src : list Z) : Prop :=
  forall i, 0 <= i -> l' !! Z.to_nat i =
    if decide (q <= i < q + zlen src) then src !! Z.to_nat (i - q) else l !! Z.to_nat i.

Lemma patched_app l src : patched l (l ++ src) (zlen l) src.
Proof.
  intros i Hi. pose proof (zlen_nonneg l). unfold zlen in *. case_decide.
  - rewrite lookup_app_r by lia. f_equal. lia.
  - destruct (decide (i < Z.of_nat (length l))); [by rewrite lookup_app_l by lia|].
    rewrite !lookup_ge_None_2; [done|lia|rewrite length_app; lia].
Qed.

Lemma patched_splice l q src : 0 <= q -> q + zlen src <= zlen l -> patched l (zsplice q src l) q src.
Proof.
  intros Hq Hl i Hi. rewrite lookup_zsplice by done. rewrite Z2Nat.id by done.
  case_decide; [|done]. f_equal. lia.
Qed.

(** Bytes copied into the place of one of the two newest blocks. *)
Lemma copy_in_inv m c s l l' k p data soff n :
  inv m c s l -> c < s + N -> s <= k <= c -> 0 <= p -> 0 <= n -> p + n <= bs ->
  0 <= soff -> soff + n <= zlen data -> patched l l' (k * bs + p) (zslice soff n data) ->
  zlen l <= zlen l' <= c * bs + bs -> (forall i, k * bs + p + n <= i < zlen l' -> i < zlen l) ->
  (k * bs + p <= zlen l) ->
  exists m', copy_in m (k mod N) p data soff n = Ok m' /\ inv m' c s l' /\
    offset m' = offset m /\ block_flags m' = block_flags m.
Proof.
  intros [] Hc Hk Hp Hn Hpn Hso Hsn Hpat Hl' Htail Hhead. unfold copy_in.
  pose proof (Z.mod_pos_bound k N ltac:(lia)) as Hm.
  destruct (zget_lt (buffer_blocks m) (k mod N)) as [b Eb]; [lia|].
  assert (Hb : zlen b = bs).
  { apply zget_Ok in Eb as [_ Eb]. by apply (Forall_lookup_1 _ _ _ _ i_sizes0 Eb). }
  rewrite Eb. cbn [mbind res_bind]. rewrite memcpy_Ok by lia. cbn [mbind res_bind].
  destruct (circle_set N (buffer_blocks m) s k (zsplice p (zslice soff n data) b)) as (bl & Es & El & Hg);
    [done|lia|]. assert (Hsl : zlen (zslice soff n data) = n) by (apply zlen_zslice; lia).
  rewrite Es. cbn [mbind res_bind]. eexists. split; [done|]. split; [|done].
  split; try done; cbn [with_blocks buffer_blocks]; [|lia|].
  - apply zset_inv in Es as [_ ->]. apply Forall_insert; [done|]. rewrite zlen_zsplice by lia. done.
  - intros k' b' j Hk' Eb' Hj Hlt. rewrite Hpat by nia. rewrite Hsl.
    destruct (decide (k' = k)) as [->|Hne].
    + rewrite Hg in Eb' by lia. rewrite decide_True in Eb' by done. injection Eb' as <-.
      rewrite lookup_zsplice by lia. rewrite Hsl, Z2Nat.id by lia. repeat case_decide; try lia; [f_equal; lia|].
      apply (i_holds0 k b j); try done. destruct (decide (k * bs + j < k * bs + p)); [lia|].
      apply Htail. lia.
    + rewrite Hg in Eb' by lia. rewrite decide_False in Eb' by done. rewrite decide_False by nia.
      apply (i_holds0 k' b' j); try done. destruct (decide (k' < k)); [nia|]. apply Htail. nia.
Qed.

Lemma with_offset_inv m c s l off : inv m c s l -> inv (with_offset m off) c s l.
Proof. intros []. by split. Qed.

Lemma last_block_spec m c s l : inv m c s l -> exists k, last_block_id m = Ok (k mod N) /\
  s <= k < s + N /\ k mod N = (c - 1) mod N /\ (0 < c -> k = c - 1) /\ (c = 0 -> k = N - 1).
Proof.
  intros []. unfold last_block_id. rewrite i_n0, i_id0.
  replace (N =? 0) with false by (symmetry; apply Z.eqb_neq; lia).
  pose proof (Z.mod_pos_bound c N ltac:(lia)). rewrite u32_small by lia.
  assert (E : (c mod N + N - 1) mod N = (c - 1) mod N).
  { replace (c mod N + N - 1) with ((c mod N) + (-1) + 1 * N) by lia.
    rewrite Z.mod_add by lia. rewrite Zplus_mod_idemp_l. f_equal. }
  rewrite E. destruct (decide (c = 0)) as [->|].
  - exists (N - 1). assert (E2 : (N - 1) mod N = (0 - 1) mod N).
    { replace (N - 1) with (0 - 1 + 1 * N) by lia. by rewrite Z.mod_add by lia. }
    rewrite <-E2. repeat split; lia.
  - exists (c - 1). repeat split; lia.
Qed.

(** A full block is left. *)
Lemma changeBlock_inv m c s l :
  inv m c s l -> c < s + N -> zlen l = c * bs + bs -> zlen l < 2 ^ 63 ->
  exists m', changeBlock m = Ok m' /\ inv m' (c + 1) s l /\ offset m' = 0.
Proof.
  intros Hinv Hc Hl Hmax. destruct (last_block_spec m c s l Hinv) as (k & Hlast & Hk & _ & Hk1 & Hk0).
  pose proof Hinv as []. unfold changeBlock. rewrite i_id0, i_dirty0 by lia.
  rewrite Z.ltb_irrefl. cbn [mbind res_bind]. rewrite Hlast. cbn [mbind res_bind].
  rewrite i_dirty0 by lia. cbn [mbind res_bind].
  destruct (circle_set N (write_flags m) s k (k <? c)) as (fl & E1 & L1 & G1); [done|lia|].
  destruct (circle_set N (block_flags m) s c true) as (fl' & E2 & L2 & G2); [done|lia|].
  rewrite E1. cbn [mbind res_bind]. rewrite E2. cbn [mbind res_bind].
  eexists. split; [done|]. split; [|done]. pose proof (Z.mod_pos_bound c N ltac:(lia)).
  split; cbn [changeFileOffset total_block_num block_size buffer_blocks block_flags write_flags fileOffset block_id];
    try done; try lia.
  - rewrite i_pos0, i_bs0. rewrite u64_small by nia. lia.
  - rewrite u32_small by lia. rewrite i_n0, Zplus_mod_idemp_l. done.
  - intros j Hj. rewrite G2 by lia. case_decide as E.
    + subst j. f_equal. symmetry. apply Z.ltb_lt. lia.
    + rewrite i_dirty0 by lia. f_equal. destruct (Z.ltb_spec j c), (Z.ltb_spec j (c + 1)); lia || done.
  - intros j Hj. rewrite G1 by lia. replace (c + 1 - 1) with c by lia. case_decide as E; [by subst j|].
    rewrite i_ready0 by lia. f_equal. destruct (Z.ltb_spec j c), (Z.ltb_spec j (c - 1)); lia || done.
  - intros j b i Hj Eb Hi Hlt. apply (i_holds0 j b i); try done. nia.
Qed.

Lemma copy_in_ok m c s l id p data n :
  inv m c s l -> 0 <= id < N -> 0 <= p -> 0 <= n -> p + n <= bs -> n <= zlen data ->
  exists m', copy_in m id p data 0 n = Ok m' /\ block_flags m' = block_flags m /\ block_id m' = block_id m.
Proof.
  intros [] Hid Hp Hn Hpn Hd. unfold copy_in.
  destruct (zget_lt (buffer_blocks m) id) as [b Eb]; [lia|].
  assert (Hb : zlen b = bs).
  { apply zget_Ok in Eb as [_ Eb]. by apply (Forall_lookup_1 _ _ _ _ i_sizes0 Eb). }
  rewrite Eb. cbn [mbind res_bind]. rewrite memcpy_Ok by lia. cbn [mbind res_bind].
  rewrite zset_Ok by lia. eauto.
Qed.

(** The end of a log, appended to the block that is filled. *)
Lemma append_inv m c s l o data n :
  inv m c s l -> c < s + N -> zlen l = c * bs + o -> 0 <= o -> 0 <= n <= zlen data -> o + n <= bs ->
  exists m', copy_in m (block_id m) o data 0 n = Ok m' /\ inv m' c s (l ++ zslice 0 n data) /\
    offset m' = offset m.
Proof.
  intros Hinv Hc Hl Ho Hn Hon. rewrite (i_id _ _ _ _ Hinv). pose proof (i_s _ _ _ _ Hinv).
  assert (Hz : zlen (zslice 0 n data) = n) by (apply zlen_zslice; lia).
  destruct (copy_in_inv m c s l (l ++ zslice 0 n data) c o data 0 n) as (m' & E & Hi & Ho' & _); try done; try lia.
  - rewrite <-Hl. apply patched_app.
  - rewrite zlen_app. lia.
  - intros i Hi. rewrite zlen_app in Hi. lia.
  - eauto.
Qed.

(** What is left of cut data goes to the start of a new block. *)
Lemma write_rest m c s l data n :
  inv m c s l -> zlen l = c * bs -> 0 <= n <= zlen data -> n <= bs ->
  exists m', copy_in m (block_id m) 0 data 0 n = Ok m' /\
    (clean (with_offset m' n) = true -> inv (with_offset m' n) c s (l ++ zslice 0 n data) /\ c < s + N).
Proof.
  intros Hinv Hl Hn Hnb. destruct (decide (c < s + N)) as [Hc|Hc].
  - destruct (append_inv m c s l 0 data n) as (m' & E & Hi & _); try done; try lia.
    exists m'. split; [done|]. intros _. split; [by apply with_offset_inv|done].
  - pose proof (Z.mod_pos_bound c N ltac:(lia)).
    destruct (copy_in_ok m c s l (block_id m) 0 data n) as (m' & E & Ef & Ei); try done; try lia.
    { rewrite (i_id _ _ _ _ Hinv). lia. }
    exists m'. split; [done|]. intros Hcl. exfalso. apply Hc, (clean_spec m c s l Hinv).
    revert Hcl. unfold clean. cbn [with_offset block_flags block_id]. by rewrite Ef, Ei.
Qed.

Lemma write_inv m c s l o data :
  inv m c s l -> c < s + N -> offset m = o -> zlen l = c * bs + o -> zlen data <= bs ->
  zlen (stream_append bs (l, o) data).1 < 2 ^ 63 ->
  exists m' c', writePointer m data (zlen data) = Ok m' /\ (clean m' = true ->
    let g := stream_append bs (l, o) data in
    inv m' c' s g.1 /\ c' < s + N /\ offset m' = g.2 /\ zlen g.1 = c' * bs + g.2).
Proof.
  intros Hinv Hc Ho Hl Hd. pose proof (i_len _ _ _ _ Hinv). pose proof (zlen_nonneg data).
  assert (0 <= c * bs) by (pose proof (i_s _ _ _ _ Hinv); nia).
  pose proof (i_s _ _ _ _ Hinv). unfold stream_append, writePointer. rewrite Ho, (i_bs _ _ _ _ Hinv). intros Hmax.
  rewrite u64_small by (revert Hmax; case_test; cbn [fst]; rewrite ?zlen_app; nia).
  revert Hmax. destruct (Z.ltb_spec bs (o + zlen data)) as [Hcut|Hfit]; cbn [fst snd]; intros Hmax.
  - set (tmp := bs - o) in *. assert (Ht : 0 <= tmp <= zlen data) by lia.
    rewrite (u32_small tmp), (u32_small (zlen data - tmp)) by lia.
    destruct (append_inv m c s l o data tmp) as (m1 & -> & Hi1 & _); try done; try lia. cbn [mbind res_bind].
    assert (Hz : zlen (zslice 0 tmp data) = tmp) by (apply zlen_zslice; lia).
    rewrite !zlen_app, Hz in Hmax. pose proof (zlen_nonneg (zslice 0 (zlen data - tmp) data)).
    destruct (changeBlock_inv m1 c s _ Hi1) as (m2 & -> & Hi2 & O2); [lia|rewrite zlen_app; lia|rewrite zlen_app; lia|].
    cbn [mbind res_bind]. rewrite O2.
    destruct (write_rest m2 (c + 1) s (l ++ zslice 0 tmp data) data (zlen data - tmp)) as (m3 & -> & Hi3);
      [done|rewrite zlen_app; lia|lia|lia|].
    cbn [mbind res_bind]. eexists _, (c + 1). split; [done|]. intros Hcl. destruct (Hi3 Hcl) as [Hi ?].
    cbn zeta. rewrite app_assoc. split; [done|]. split; [done|]. split; [done|].
    rewrite !zlen_app, Hz, zlen_zslice by lia. lia.
  - destruct (append_inv m c s l o data (zlen data)) as (m1 & -> & Hi1 & O1); try done; try lia.
    rewrite zslice_full in Hi1 by done. cbn [mbind res_bind]. eexists _, c. split; [done|]. intros _. cbn zeta.
    rewrite zlen_app in Hmax |- *. rewrite O1, Ho, u64_small by lia.
    split; [by apply with_offset_inv|]. split; [lia|]. split; [done|]. lia.
Qed.

Lemma zsplice_nil {A} q (l : list A) : zsplice q [] l = l.
Proof. unfold zsplice. cbn [app length]. rewrite Nat.add_0_r. apply take_drop. Qed.

(** Nothing is copied. *)
Lemma copy_in_none m c s l id p data :
  inv m c s l -> 0 <= id < N -> 0 <= p <= bs -> copy_in m id p data 0 0 = Ok m.
Proof.
  intros [] Hid Hp. unfold copy_in. destruct (zget_lt (buffer_blocks m) id) as [b Eb]; [lia|].
  pose proof Eb as [_ El]%zget_Ok. assert (Hb : zlen b = bs) by (by apply (Forall_lookup_1 _ _ _ _ i_sizes0 El)).
  pose proof (zlen_nonneg data). rewrite Eb. cbn [mbind res_bind]. rewrite memcpy_Ok by lia. cbn [mbind res_bind].
  rewrite zset_Ok by lia. cbn [mbind res_bind]. change (zslice 0 0 data) with (@nil Z). rewrite zsplice_nil.
  rewrite list_insert_id by done. by destruct m.
Qed.

Lemma patched_none l l' q : patched l l' q [] -> l' = l.
Proof.
  intros H. apply list_eq. intros i. specialize (H (Z.of_nat i) ltac:(lia)). rewrite Nat2Z.id in H.
  rewrite H. case_decide as E; [|done]. change (zlen []) with 0 in E. lia.
Qed.

(** Bytes written into the block before the one that is filled, [q] bytes
    before its end. *)
Lemma before_last m c s l l' q data n :
  inv m c s l -> c < s + N -> 0 <= q <= bs -> q <= c * bs -> 0 <= n <= q -> n <= zlen data ->
  patched l l' (c * bs - q) (zslice 0 n data) -> zlen l' = zlen l ->
  exists m', (last ← last_block_id m; copy_in m last (bs - q) data 0 n) = Ok m' /\ inv m' c s l' /\
    offset m' = offset m.
Proof.
  intros Hinv Hc Hq Hqc Hn Hd Hpat Hl'. destruct (last_block_spec m c s l Hinv) as (k & -> & Hk & _ & Hk1 & _).
  cbn [mbind res_bind]. pose proof (Z.mod_pos_bound k N ltac:(lia)). pose proof (i_len _ _ _ _ Hinv).
  destruct (decide (q = 0)) as [->|Hq0].
  - assert (n = 0) as -> by lia. rewrite (copy_in_none m c s l) by (done || lia).
    apply patched_none in Hpat as ->. eauto.
  - assert (0 < c) by nia. pose proof (i_behind _ _ _ _ Hinv). rewrite Hk1 in * by done.
    destruct (copy_in_inv m c s l l' (c - 1) (bs - q) data 0 n) as (m' & E & Hi & Ho & _); try done; try lia.
    + by replace ((c - 1) * bs + (bs - q)) with (c * bs - q) by lia.
    + eauto.
Qed.

Lemma before_inv m c s l o data pos :
  inv m c s l -> c < s + N -> offset m = o -> zlen l = c * bs + o -> zlen l < 2 ^ 63 ->
  event_ok bs (l, o) (Before data pos) ->
  exists m', writeBefore m data (zlen data) pos = Ok m' /\ inv m' c s (log_before (l, o) data pos).1 /\
    offset m' = o.
Proof.
  intros Hinv Hc Ho Hl Hmax [Hd Hpos]. cbn [fst snd] in Hpos. pose proof (zlen_nonneg data).
  pose proof (i_len _ _ _ _ Hinv). pose proof (i_s _ _ _ _ Hinv). pose proof (i_id _ _ _ _ Hinv) as Hid.
  assert (0 <= c * bs) by nia.
  unfold writeBefore, log_before. cbn [fst]. rewrite (i_pos _ _ _ _ Hinv), Ho, <-Hl.
  rewrite !(u64_small (zlen l)), (u64_small (pos + zlen data)) by lia.
  destruct (Z.ltb_spec (zlen l) (pos + zlen data)) as [|Hin]; [eauto|]. cbn [fst].
  destruct (Z.ltb_spec (c * bs) pos) as [Hcur|Hlast].
  - rewrite u64_small, Hid by lia.
    destruct (copy_in_inv m c s l (zsplice pos data l) c (pos - c * bs) data 0 (zlen data))
      as (m' & E & Hi & Ho' & _); try done; try lia.
    + rewrite zslice_full by done. replace (c * bs + (pos - c * bs)) with pos by lia.
      apply patched_splice; lia.
    + rewrite zlen_zsplice by lia. lia.
    + intros i. rewrite zlen_zsplice by lia. lia.
    + exists m'. by rewrite Ho', Ho.
  - set (q := c * bs - pos). rewrite ?(u32_small q) by lia.
    destruct (Z.ltb_spec (c * bs) (pos + zlen data)) as [Hboth|Hone].
    + rewrite u32_small by lia. rewrite Hid.
      destruct (copy_in_inv m c s l (zsplice (c * bs) (zslice q (zlen data - q) data) l) c 0 data q (zlen data - q))
        as (m1 & -> & Hi1 & O1 & _); try done; try lia.
      * rewrite Z.add_0_r. apply patched_splice; [lia|]. rewrite zlen_zslice by lia. lia.
      * rewrite zlen_zsplice by (rewrite ?zlen_zslice by lia; lia). lia.
      * intros i. rewrite zlen_zsplice by (rewrite ?zlen_zslice by lia; lia). lia.
      * cbn [mbind res_bind]. rewrite (i_pos _ _ _ _ Hi1), (i_bs _ _ _ _ Hi1). fold q.
        rewrite (u64_small q), (u64_small (bs - q)) by lia.
        destruct (before_last m1 c s _ (zsplice pos data l) q data q Hi1) as (m2 & -> & Hi2 & O2); try lia.
        -- intros i Hi. rewrite !lookup_zsplice by (rewrite ?zlen_zslice by lia; lia).
           rewrite !zlen_zslice, !lookup_zslice, !Z2Nat.id by lia.
           repeat case_decide; try lia; try done; f_equal; lia.
        -- rewrite !zlen_zsplice by (rewrite ?zlen_zslice by lia; lia). done.
        -- exists m2. by rewrite O2, O1.
    + cbn [mbind res_bind]. rewrite (i_pos _ _ _ _ Hinv), (i_bs _ _ _ _ Hinv). fold q.
      rewrite (u64_small q), (u64_small (bs - q)) by lia.
      destruct (before_last m c s l (zsplice pos data l) q data (zlen data) Hinv) as (m2 & -> & Hi2 & O2); try lia.
      * rewrite zslice_full by done. replace (c * bs - q) with pos by lia. apply patched_splice; lia.
      * apply zlen_zsplice; lia.
      * exists m2. by rewrite O2.
Qed.

(** The contents of a block in memory. *)
Lemma block_slice m c s l k n :
  inv m c s l -> c < s + N -> s <= k <= c -> 0 <= n <= bs -> k * bs + n <= zlen l ->
  zslice 0 n (from_res [] (zget (buffer_blocks m) (k mod N))) = zslice (k * bs) n l.
Proof.
  intros [] Hc Hk Hn Hl. pose proof (Z.mod_pos_bound k N ltac:(lia)).
  destruct (zget_lt (buffer_blocks m) (k mod N)) as [b Eb]; [lia|]. rewrite Eb. cbn [from_res].
  apply list_eq. intros i. rewrite !lookup_zslice. case_decide; [|done].
  specialize (i_holds0 k b (Z.of_nat i) Hk Eb). rewrite Nat2Z.id in i_holds0.
  rewrite Z2Nat.inj_0, Nat.add_0_l, i_holds0 by lia. f_equal. nia.
Qed.

Lemma block_full m c s l k :
  inv m c s l -> c < s + N -> s <= k < c ->
  from_res [] (zget (buffer_blocks m) (k mod N)) = zslice (k * bs) bs l.
Proof.
  intros Hinv Hc Hk. pose proof (i_len _ _ _ _ Hinv). rewrite <-(block_slice m c s l k bs) by (done || nia).
  rewrite zslice_full; [done|]. pose proof Hinv as []. pose proof (Z.mod_pos_bound k N ltac:(lia)).
  destruct (zget_lt (buffer_blocks m) (k mod N)) as [b Eb]; [lia|]. rewrite Eb. cbn [from_res].
  apply zget_Ok in Eb as [_ Eb]. symmetry. by apply (Forall_lookup_1 _ _ _ _ i_sizes0 Eb).
Qed.

Lemma concat_blocks (l : list Z) s n : 0 <= n -> 0 <= s -> (s + n) * bs <= zlen l ->
  concat ((fun i => zslice ((s + i) * bs) bs l) <$> zseq n) = zslice (s * bs) (n * bs) l.
Proof.
  intros Hn Hs. revert n Hn. refine (natlike_ind _ _ _).
  - intros _. rewrite Z.mul_0_l. done.
  - intros n Hn IH Hl. unfold Z.succ. rewrite zseq_S, fmap_app, concat_app by done. rewrite IH by nia.
    cbn [fmap list_fmap concat]. rewrite app_nil_r.
    replace ((n + 1) * bs) with (n * bs + bs) by lia. rewrite zslice_app by nia. do 2 f_equal. lia.
Qed.

(** The log is what was written, and what is in memory. *)
Record holds_log (w : World) (c s : Z) (g : list Z * Z) : Prop := {
  h_inv : inv (mem w) c s g.1;
  h_max : zlen g.1 < 2 ^ 63;
  h_off : offset (mem w) = g.2;
  h_len : zlen g.1 = c * bs + g.2;
  h_check : check_id w = s mod N;
  h_bytes : concat (w_bytes <$> pwrites w) = zslice 0 (s * bs) g.1;
  h_count : zlen (pwrites w) = s;
  h_sizes : Forall (fun p => zlen (w_bytes p) = bs) (pwrites w);
  h_places : forall i p, zget (pwrites w) i = Ok p -> (i + 2) * bs <= w_position p }.

Lemma pending_spec w c s g : holds_log w c s g -> c < s + N ->
  pending w = zslice (s * bs) (zlen g.1 - s * bs) g.1.
Proof.
  intros [] Hc. pose proof h_inv0 as []. unfold pending. rewrite i_n0, h_check0, h_off0, i_id0.
  rewrite <-Zminus_mod, (Z.mod_small (c - s)) by lia.
  replace (zlen g.1 - s * bs) with ((c - s) * bs + g.2) by lia. rewrite zslice_app by nia.
  rewrite <-concat_blocks by nia. f_equal.
  - f_equal. apply list_fmap_ext. intros i x Hx. apply list_elem_of_lookup_2, elem_of_zseq in Hx.
    rewrite Zplus_mod_idemp_l. apply (block_full _ c s); [done|lia|lia].
  - rewrite (block_slice _ c s g.1) by (done || lia). f_equal. lia.
Qed.

(** A turn of the storage thread. *)
Lemma turn_inv w c s g : holds_log w c s g -> c < s + N ->
  exists w' s', exec w Turn = Ok w' /\ holds_log w' c s' g /\ c < s' + N.
Proof.
  intros [] Hc. pose proof h_inv0 as []. unfold exec, check_buffer, checkAndWriteFile.
  rewrite h_check0, i_ready0 by lia. cbn [mbind res_bind]. destruct (Z.ltb_spec s (c - 1)) as [Hr|Hr]; cbn [negb].
  2:{ exists (mkWorld (mem w) (s mod N) (pwrites w ++ [])), s. split; [done|]. rewrite app_nil_r. split; [|done]. by split. }
  unfold write_block. pose proof (Z.mod_pos_bound s N ltac:(lia)).
  destruct (zget_lt (buffer_blocks (mem w)) (s mod N)) as [b Eb]; [lia|].
  pose proof (block_full _ c s g.1 s h_inv0 Hc ltac:(lia)) as Hb. rewrite Eb in *. cbn [from_res] in Hb. subst b.
  assert (Hz : zlen (zslice (s * bs) bs g.1) = bs) by (apply zlen_zslice; nia).
  cbn [mbind res_bind]. rewrite i_bs0, zread_Ok by lia. rewrite zslice_full by done. cbn [mbind res_bind].
  destruct (circle_set N (write_flags (mem w)) s s false) as (fr & E1 & L1 & G1); [done|lia|].
  destruct (circle_set N (block_flags (mem w)) s s false) as (fd & E2 & L2 & G2); [done|lia|].
  rewrite E1. cbn [mbind res_bind]. rewrite E2. cbn [mbind res_bind].
  unfold getNum. cbn [total_block_num with_flags]. rewrite i_n0.
  replace (N =? 0) with false by (symmetry; apply Z.eqb_neq; lia). cbn [mbind res_bind].
  eexists _, (s + 1). split; [done|]. split; [|lia].
  assert (Hflag : forall (fl fl' : list bool) x, x < s + 1 + N ->
    (forall k, s <= k < s + N -> zget fl (k mod N) = Ok (k <? x)) ->
    (forall k, s <= k < s + N -> zget fl' (k mod N) = if decide (k = s) then Ok false else zget fl (k mod N)) ->
    forall k, s + 1 <= k < s + 1 + N -> zget fl' (k mod N) = Ok (k <? x)).
  { intros fl fl' x Hx Hfl Hfl' k Hk. destruct (decide (k = s + N)) as [->|].
    - replace (s + N) with (s + 1 * N) at 1 by lia. rewrite Z.mod_add, Hfl' by lia.
      rewrite decide_True by done. f_equal. symmetry. apply Z.ltb_ge. lia.
    - rewrite Hfl', decide_False, Hfl by lia. done. }
  split; cbn [mem check_id pwrites with_flags offset]; try done.
  - split; cbn [total_block_num block_size buffer_blocks block_flags write_flags fileOffset block_id with_flags];
      try done; try lia.
    + eapply Hflag; [lia|exact i_dirty0|exact G2].
    + eapply Hflag; [lia|exact i_ready0|exact G1].
    + intros k b j Hk. apply (i_holds0 k b j). lia.
  - rewrite u32_small by lia. apply Zplus_mod_idemp_l.
  - rewrite fmap_app, concat_app, h_bytes0. cbn [fmap list_fmap concat w_bytes]. rewrite app_nil_r.
    replace ((s + 1) * bs) with (s * bs + bs) by lia. by rewrite zslice_app by nia.
  - rewrite zlen_app, h_count0. done.
  - apply Forall_app. split; [done|]. by constructor.
  - intros i p Hp. apply zget_Ok in Hp as [Hi Hp]. apply lookup_app_Some in Hp as [Hp|[Hl Hp]].
    + apply h_places0. by apply zget_Ok.
    + apply list_lookup_singleton_Some in Hp as [Hl' <-]. cbn [w_position]. unfold zlen in *. nia.
Qed.

(** The writes after the loop, when every block that was ready is written: the
    last block that was left and the block that is filled go to one place of
    the file; when the first of them is the last of the circle, the second is
    looked for behind the circle. *)
Lemma last_writes_spec w c s g : holds_log w c s g -> c < s + N -> 0 < c -> s = c - 1 ->
  (c mod N = 0 -> directWriteFile (mem w) (check_id w) = Undef) /\
  (c mod N <> 0 -> exists b, directWriteFile (mem w) (check_id w) =
     Ok [mkPwrite (c * bs) (zslice (s * bs) bs g.1); mkPwrite (c * bs) b]).
Proof.
  intros [] Hc Hc0 Hs. pose proof h_inv0 as []. unfold directWriteFile. rewrite h_check0, i_id0.
  pose proof (Z.mod_pos_bound s N ltac:(lia)). pose proof (Z.mod_pos_bound c N ltac:(lia)).
  assert (Hsc : (s mod N + 1) mod N = c mod N) by (rewrite Zplus_mod_idemp_l; f_equal; lia).
  replace (s mod N =? c mod N) with false.
  2:{ symmetry. apply Z.eqb_neq. intros E. enough (0 = 1) by lia. apply (mod_inj N s); [lia|lia|].
      rewrite Z.add_0_r, E. f_equal. lia. }
  assert (Hw : forall i, 0 <= i < N -> exists b, zget (buffer_blocks (mem w)) i = Ok b /\ zlen b = bs).
  { intros i Hi. destruct (zget_lt (buffer_blocks (mem w)) i) as [b Eb]; [lia|]. exists b. split; [done|].
    apply zget_Ok in Eb as [_ Eb]. by apply (Forall_lookup_1 _ _ _ _ i_sizes0 Eb). }
  assert (Hwb : forall i b, zget (buffer_blocks (mem w)) i = Ok b -> zlen b = bs ->
    write_block (mem w) i = Ok (mkPwrite (c * bs) b)).
  { intros i b Eb Hb. unfold write_block. rewrite Eb. cbn [mbind res_bind]. rewrite i_bs0, zread_Ok by lia.
    rewrite zslice_full by done. cbn [mbind res_bind]. by rewrite i_pos0. }
  destruct (Hw (s mod N)) as (b & Eb & Hb); [done|].
  pose proof (block_full _ c s g.1 s h_inv0 Hc ltac:(lia)) as Hbl. rewrite Eb in Hbl. cbn [from_res] in Hbl. subst b.
  rewrite (Hwb _ _ Eb Hb). cbn [mbind res_bind]. rewrite u32_small by lia. split; intros Hcn.
  - assert (s mod N + 1 = N) as ->.
    { destruct (decide (s mod N + 1 < N)); [|lia]. rewrite Z.mod_small in Hsc by lia. lia. }
    unfold write_block, zget. replace (N <? 0) with false by (symmetry; apply Z.ltb_ge; lia).
    rewrite lookup_ge_None_2 by (unfold zlen in *; lia). done.
  - rewrite Z.mod_small in Hsc; [|split; [lia|]].
    2:{ destruct (decide (s mod N + 1 < N)); [lia|]. exfalso. apply Hcn. rewrite <-Hsc.
        replace (s mod N + 1) with N by lia. apply Z.mod_same. lia. }
    rewrite Hsc. destruct (Hw (c mod N)) as (b & Eb' & Hb'); [done|]. exists b.
    rewrite (Hwb _ _ Eb' Hb'). done.
Qed.

Lemma exec_inv w c s g e : holds_log w c s g -> c < s + N -> event_ok bs g e ->
  exists w', exec w e = Ok w' /\ (clean (mem w') = true ->
    exists c' s', holds_log w' c' s' (stream_event bs g e) /\ c' < s' + N).
Proof.
  intros Hw Hc He. destruct e as [data|data pos|].
  - destruct g as [l o]. pose proof Hw as []. cbn [fst snd] in *. destruct He as [Hd Hm].
    destruct (write_inv (mem w) c s l o data) as (m' & c' & E & H); try done.
    unfold exec. rewrite E. cbn [mbind res_bind]. eexists. split; [done|]. cbn [mem]. intros Hcl.
    destruct (H Hcl) as (Hi & Hc' & Ho & Hl). exists c', s. split; [|done].
    assert (Hpre : zslice 0 (s * bs) (stream_append bs (l, o) data).1 = zslice 0 (s * bs) l).
    { pose proof (i_len _ _ _ _ h_inv0). pose proof (i_s _ _ _ _ h_inv0).
      assert (s * bs <= c * bs) by nia.
      unfold stream_append, zslice. case_test; cbn [fst]; rewrite drop_0, take_app_le by (unfold zlen in *; lia); done. }
    split; cbn [stream_event check_id pwrites]; try done. by rewrite h_bytes0, Hpre.
  - destruct g as [l o]. pose proof Hw as []. cbn [fst snd] in *.
    destruct (before_inv (mem w) c s l o data pos) as (m' & E & Hi & Ho); try done.
    unfold exec. rewrite E. cbn [mbind res_bind]. eexists. split; [done|]. intros _. exists c, s. split; [|done].
    pose proof (zlen_nonneg data). destruct He as [_ Hpos]. cbn [fst snd] in Hpos.
    cbn [stream_event log_event]. unfold log_before in *. cbn [fst snd] in *.
    destruct (Z.ltb_spec (zlen l) (pos + zlen data)) as [|Hin]; cbn [fst snd] in *; [by split|].
    split; cbn [fst snd mem check_id pwrites]; try done; try (rewrite zlen_zsplice by lia; lia).
    rewrite h_bytes0. symmetry. pose proof (i_s _ _ _ _ h_inv0). pose proof (i_behind _ _ _ _ h_inv0).
    destruct (decide (s = 0)) as [->|]; [done|]. apply zslice_zsplice_disjoint; try lia. nia.
  - destruct (turn_inv w c s g Hw Hc) as (w' & s' & E & Hw' & Hc'). exists w'. split; [done|]. eauto.
Qed.

Lemma run_inv evs : forall w c s g, holds_log w c s g -> events_ok bs g evs -> kept_up w evs = true ->
  exists w' c' s', run_events w evs = Ok w' /\ holds_log w' c' s' (foldl (stream_event bs) g evs) /\ c' < s' + N.
Proof.
  induction evs as [|e evs IH]; intros w c s g Hw Hok Hk; cbn [kept_up] in Hk; apply andb_true_iff in Hk as [Hcl Hk];
    apply (clean_spec _ _ _ _ (h_inv _ _ _ _ Hw)) in Hcl.
  - exists w, c, s. by split.
  - destruct Hok as [He Hok]. destruct (exec_inv w c s g e Hw Hcl He) as (w1 & E & H1). rewrite E in Hk.
    cbn [run_events foldl]. rewrite E. cbn [mbind res_bind].
    assert (Hcl1 : clean (mem w1) = true) by (by destruct evs; cbn [kept_up] in Hk; apply andb_true_iff in Hk as [? _]).
    destruct (H1 Hcl1) as (c1 & s1 & Hw1 & Hc1). by apply (IH w1 c1 s1).
Qed.
End invariant.

Lemma alloc_blocks_ok alloc n : forall i blocks, alloc_blocks alloc n i = Some blocks ->
  length blocks = n /\ forall j b, blocks !! j = Some b -> alloc (i + Z.of_nat j) = Some b.
Proof.
  induction n as [|n IH]; intros i blocks H; cbn [alloc_blocks] in H.
  { injection H as <-. split; [done|]. intros j b. by rewrite lookup_nil. }
  destruct (alloc i) as [b|] eqn:E; [|done]. apply fmap_Some in H as (bl & H & ->).
  destruct (IH _ _ H) as [<- Hg]. split; [done|]. intros [|j] b' Hj; cbn in Hj.
  - injection Hj as <-. by rewrite Z.add_0_r.
  - rewrite <-(Hg _ _ Hj). f_equal. lia.
Qed.

(** The log of a fresh buffer: the bytes that the constructor skips. *)
Definition first_log (m : MemoryBuffer) : list Z * Z :=
  (zslice 0 (offset m) (from_res [] (zget (buffer_blocks m) 0)), offset m).

Lemma new_holds_log alloc id cap num name off m :
  (forall i b, alloc i = Some b -> zlen b = cap) -> 0 < cap < 2 ^ 32 -> num < 2 ^ 31 -> 0 <= off <= cap ->
  new_MemoryBuffer alloc true id cap num name off = Some m ->
  3 <= num /\ total_block_num m = num /\ offset m = off /\ holds_log num cap (mkWorld m 0 []) 0 0 (first_log m).
Proof.
  intros Hal Hcap Hnum Hoff. unfold new_MemoryBuffer. case_test; [done|]. case_test; [done|].
  unfold LEAST_BLOCK_NUM in *. zbool. cbn [negb].
  destruct (alloc_blocks alloc (Z.to_nat num) 0) as [blocks|] eqn:Eb; [|done]. intros [= <-].
  destruct (alloc_blocks_ok _ _ _ _ Eb) as [Hl Hg]. split; [done|]. split; [done|]. split; [done|].
  assert (Hflags : forall k, 0 <= k < 0 + num -> zget (replicate (Z.to_nat num) false) (k mod num) = Ok false).
  { intros k Hk. apply zget_replicate. pose proof (Z.mod_pos_bound k num ltac:(lia)). lia. }
  assert (Hbl : zlen blocks = num) by (unfold zlen; lia).
  destruct (zget_lt blocks 0) as [b0 Hb0]; [lia|]. pose proof Hb0 as [_ Hb0']%zget_Ok.
  assert (Hz0 : zlen b0 = cap) by (eapply Hal, (Hg 0%nat), Hb0').
  unfold first_log. cbn [offset buffer_blocks]. rewrite Hb0. cbn [from_res].
  assert (Hz : zlen (zslice 0 off b0) = off) by (apply zlen_zslice; lia).
  split; cbn [mem check_id pwrites fst snd offset]; try done; try lia; [|].
  - split; cbn [total_block_num block_size buffer_blocks block_flags write_flags fileOffset block_id];
      rewrite ?zlen_replicate; try done; try lia.
    + apply Forall_lookup. intros j b Hj. apply (Hal _ _ (Hg _ _ Hj)).
    + intros k Hk. rewrite Hflags by done. f_equal. symmetry. apply Z.ltb_ge. lia.
    + intros k Hk. rewrite Hflags by done. f_equal. symmetry. apply Z.ltb_ge. lia.
    + intros k b j Hk Hb Hj Hlt. assert (k = 0) as -> by lia. cbn [buffer_blocks] in Hb; rewrite Z.mod_0_l, Hb0 in Hb by lia.
      injection Hb as <-. rewrite lookup_zslice, decide_True by lia. f_equal; lia.
  - intros i p Hp. apply zget_Ok in Hp as [_ Hp]. by rewrite lookup_nil in Hp.
Qed.

(** Every buffer: the bytes written and those still held are the stream that the
    code appends, cut writes repeated. *)
Lemma memory_buffer_streams alloc id cap num name off m evs :
  (forall i b, alloc i = Some b -> zlen b = cap) -> 0 < cap < 2 ^ 32 -> num < 2 ^ 31 -> 0 <= off <= cap ->
  new_MemoryBuffer alloc true id cap num name off = Some m ->
  events_ok cap (first_log m) evs -> kept_up (mkWorld m 0 []) evs = true ->
  exists w, run_events (mkWorld m 0 []) evs = Ok w /\
    concat (w_bytes <$> pwrites w) ++ pending w = (foldl (stream_event cap) (first_log m) evs).1 /\
    Forall (fun p => zlen (w_bytes p) = cap) (pwrites w) /\
    forall i p, zget (pwrites w) i = Ok p -> (i + 2) * cap <= w_position p.
Proof.
  intros Hal Hcap Hnum Hoff Hm Hok Hk.
  destruct (new_holds_log _ _ _ _ _ _ _ Hal Hcap Hnum Hoff Hm) as (Hn & Htot & Ho & Hw).
  destruct (run_inv num cap ltac:(lia) Hcap evs _ _ _ _ Hw Hok Hk) as (w & c & s & E & Hw' & Hc).
  exists w. split; [done|]. pose proof Hw' as []. rewrite (pending_spec num cap ltac:(lia) Hcap w c s _ Hw' Hc).
  split; [|done]. rewrite h_bytes0. pose proof (i_s _ _ _ _ _ _ h_inv0). pose proof (i_len _ _ _ _ _ _ h_inv0).
  set (l := (foldl _ _ _).1) in *. assert (0 <= s * cap <= zlen l) by nia.
  rewrite <-(zslice_app 0 (s * cap)) by lia. apply zslice_full. lia.
Qed.

(** C38: a buffer whose storage thread keeps up, so that no block is filled again
    before it was written, never stops, and when no write is cut at the end of
    a block it loses nothing: what was written to the file, and then what the
    buffer still holds, are all data appended, in order, with the changes made
    to them.  But each block goes to a place of the file that is at least two
    blocks behind its own. *)
Theorem memory_buffer_is_log alloc id cap num name off m evs :
  (forall i b, alloc i = Some b -> zlen b = cap) -> 0 < cap < 2 ^ 32 -> num < 2 ^ 31 -> 0 <= off <= cap ->
  new_MemoryBuffer alloc true id cap num name off = Some m ->
  events_fit cap (first_log m) evs -> kept_up (mkWorld m 0 []) evs = true ->
  exists w, run_events (mkWorld m 0 []) evs = Ok w /\
    concat (w_bytes <$> pwrites w) ++ pending w = (foldl (log_event cap) (first_log m) evs).1 /\
    Forall (fun p => zlen (w_bytes p) = cap) (pwrites w) /\
    forall i p, zget (pwrites w) i = Ok p -> (i + 2) * cap <= w_position p.
Proof.
  intros Hal Hcap Hnum Hoff Hm Hfit Hk. apply streams_uncut in Hfit as [<- Hok].
  by apply (memory_buffer_streams alloc id cap num name off m evs).
Qed.
End MemoryProofs.

Module DemoMemory.
Import Memory Direct MemoryProofs.

(** Three blocks of 1024 bytes. *)
Definition memory (i : Z) : option (list Z) := Some (replicate 1024 0).
(** [n] bytes that count up from [v]. *)
Definition piece (v n : Z) : list Z := (fun i => u8 (v + i)) <$> zseq n.
Definition demo : MemoryBuffer :=
  mkMemory 3 1024 7 [] 0 (replicate 3 (replicate 1024 0)) (replicate 3 false) (replicate 3 false) 0 0.
Definition demo_events : list Event :=
  [Write (piece 1 1000); Write (piece 2 24); Write (piece 3 600); Before (piece 9 20) 1010; Turn; Write (piece 4 424);
   Write (piece 5 1024); Turn; Write (piece 6 700); Turn].

Lemma demo_new : new_MemoryBuffer memory true 7 1024 3 [] 0 = Some demo.
Proof. vm_compute. done. Qed.

Lemma demo_events_fit : events_fit 1024 (first_log demo) demo_events.
Proof. vm_compute. repeat split; first [done|by left|by right]. Qed.

Lemma memory_buffer_is_log_witness :
  kept_up (mkWorld demo 0 []) demo_events = true /\
  exists w, run_events (mkWorld demo 0 []) demo_events = Ok w /\ zlen (pwrites w) = 2 /\
    zslice 1008 6 (concat (w_bytes <$> pwrites w) ++ pending w) = [10; 11; 9; 10; 11; 12] /\
    zslice 1624 4 (concat (w_bytes <$> pwrites w) ++ pending w) = [4; 5; 6; 7].
Proof.
  split; [vm_compute; done|].
  destruct (memory_buffer_is_log memory 7 1024 3 [] 0 demo demo_events) as (w & E & Hl & _).
  - intros i b [= <-]. vm_compute. done.
  - lia.
  - lia.
  - lia.
  - exact demo_new.
  - exact demo_events_fit.
  - vm_compute. done.
  - exists w. split; [exact E|]. rewrite Hl. split; [revert E; vm_compute; intros [= <-]; done|].
    split; vm_compute; done.
Defined.

(** A write that is cut: the second block begins with the piece's beginning
    again, and the last 24 bytes of the piece are nowhere. *)
Lemma cut_write_repeats :
  (fun w => (zslice 1000 24 (pending w), zslice 1024 3 (pending w), zlen (pending w))) <$>
    run_events (mkWorld demo 0 []) [Write (piece 1 1000); Write (piece 2 1000)] =
  Ok (piece 2 24, [2; 3; 4], 2000).
Proof. vm_compute. done. Qed.

(** When the storage thread is late the fourth block overwrites the first,
    which is then never written. *)
Lemma late_storage_overwrites :
  (fun w => zslice 0 3 (w_bytes (default (mkPwrite 0 []) (head (pwrites w))))) <$>
    run_events (mkWorld demo 0 [])
      [Write (piece 1 1024); Write (piece 2 1024); Write (piece 3 1024); Write (piece 4 1024); Turn] = Ok [4; 5; 6].
Proof. vm_compute. done. Qed.
End DemoMemory.
