(* ===== verification/FileStorage.v ===== *)
(** * A buffer that maps a file (dpdk_lib/fileBuffer.hpp)

    [FileBuffer] maps one stretch of a file after the other and appends to it;
    the file is a list of bytes and the answers of the operating system are
    arguments.  The theorem: the file holds the data, but for the writes that
    are cut at the end of a stretch, which repeat their beginning as in
    [Storage]. *)
From Stdlib Require Import ZArith Lia Bool.
From S2P Require Import Prelude Storage.

(** ** [FileBuffer] *)
Module FileB.

(** What the calls of the operating system answer: the descriptor, -1 for a
    failure, and whether the other calls succeed. *)
Record Os := mkOs { os_open : Z; os_fallocate : bool; os_mmap : bool; os_munmap : bool }.

(** What the pointer to the mapped memory stands for. *)
Inductive Mapping := Null | Failed | Mapped (base len : Z) | Gone.

Record FileBuffer := mkFile {
  buffer : Mapping;
  fileName : list Z;
  fileID : Z;
  fileFD : Z;
  offset : Z;
  fileCapacity : Z;
  length : Z;
  ts_first : Z;
  ts_last : Z }.

Definition new_FileBuffer (id capacity off : Z) : FileBuffer :=
  mkFile Null [] id (-1) off capacity 0 0 0.

(** The calls of the destructor: what is unmapped and closed. *)
Inductive OsCall := Munmap (m : Mapping) (len : Z) | Close (fd : Z).

Definition destroy (b : FileBuffer) : list OsCall :=
  if fileFD b =? -1 then [] else [Munmap (buffer b) (fileCapacity b); Close (fileFD b)].

Definition changeFileName (b : FileBuffer) (name : list Z) : FileBuffer :=
  mkFile (buffer b) name (fileID b) (fileFD b) (offset b) (fileCapacity b) (length b) (ts_first b) (ts_last b).
Definition changeFileID (b : FileBuffer) (id : Z) : FileBuffer :=
  mkFile (buffer b) (fileName b) id (fileFD b) (offset b) (fileCapacity b) (length b) (ts_first b) (ts_last b).
(** The arguments of these two are [u_int32_t]. *)
Definition changeFileOffset (b : FileBuffer) (off : Z) : FileBuffer :=
  mkFile (buffer b) (fileName b) (fileID b) (fileFD b) (u32 off) (fileCapacity b) (length b) (ts_first b) (ts_last b).
Definition changeFileLength (b : FileBuffer) (len : Z) : FileBuffer :=
  mkFile (buffer b) (fileName b) (fileID b) (fileFD b) (offset b) (fileCapacity b) (u32 len) (ts_first b) (ts_last b).

Definition with_map (b : FileBuffer) (m : Mapping) (fd off len : Z) : FileBuffer :=
  mkFile m (fileName b) (fileID b) fd off (fileCapacity b) len (ts_first b) (ts_last b).

(** [fallocate]: the file is as long as the area at least. *)
Definition fallocate (f : list Z) (off len : Z) : list Z :=
  f ++ replicate (Z.to_nat (off + len - zlen f)) 0.

(** The area is allocated and mapped; an area of no bytes is refused.  The
    descriptor is closed after a failure, its number is kept. *)
Definition map_area (os : Os) (f : list Z) (b : FileBuffer) (old : Mapping) (fd off : Z)
    : bool * FileBuffer * list Z :=
  if negb (os_fallocate os && (0 <? fileCapacity b)) then (false, with_map b old fd off (length b), f)
  else
    let f := fallocate f off (fileCapacity b) in
    if negb (os_mmap os) then (false, with_map b Failed fd off (length b), f)
    else (true, with_map b (Mapped off (fileCapacity b)) fd off 0, f).

Definition openFile (os : Os) (f : list Z) (b : FileBuffer) : bool * FileBuffer * list Z :=
  if negb (fileFD b =? -1) then (false, b, f)
  else if zlen (fileName b) =? 0 then (false, b, f)
  else if os_open os =? -1 then (false, with_map b (buffer b) (-1) (offset b) (length b), f)
  else map_area os f b (buffer b) (os_open os) (offset b).

(** The capacity is set to 0 as well. *)
Definition closeFile (b : FileBuffer) : FileBuffer :=
  if fileFD b =? -1 then b
  else mkFile Null (fileName b) (fileID b) (-1) (offset b) 0 0 (ts_first b) (ts_last b).

Definition expandFile (os : Os) (f : list Z) (b : FileBuffer) : bool * FileBuffer * list Z :=
  if fileFD b =? -1 then (false, b, f)
  else if negb (os_munmap os) then (false, b, f)
  else map_area os f b Gone (fileFD b) (u64 (fileCapacity b + offset b)).

(** [None]: a null pointer; otherwise the distance from the pointer. *)
Definition getPointer (b : FileBuffer) (pos : Z) : option (Mapping * Z) :=
  if u64 (offset b + length b) <=? pos then None else Some (buffer b, u64 (pos - offset b)).

(** [memcpy] into the mapped memory changes the file. *)
Definition store (m : Mapping) (f : list Z) (pos : Z) (data : list Z) (n : Z) : res (list Z) :=
  match m with
  | Mapped base len => if pos + n <=? len then memcpy f (base + pos) data 0 n else Undef
  | _ => Undef
  end.

(** The second piece of cut data starts again at the beginning of [data]. *)
Definition writePointer (os : Os) (f : list Z) (b : FileBuffer) (data : list Z) (len : Z)
    : res (bool * FileBuffer * list Z) :=
  if fileCapacity b <? u64 (length b + len) then
    let tmp := u32 (fileCapacity b - length b) in
    f ← store (buffer b) f (length b) data tmp;
    let '(ok, b, f) := expandFile os f b in
    if negb ok then Ok (false, b, f) else
    f ← store (buffer b) f (length b) data (u32 (len - tmp));
    Ok (true, with_map b (buffer b) (fileFD b) (offset b) (u32 (len - tmp)), f)
  else
    f ← store (buffer b) f (length b) data len;
    Ok (true, with_map b (buffer b) (fileFD b) (offset b) (u64 (length b + len)), f).

Definition getFileName (b : FileBuffer) : list Z := fileName b.
Definition getOffset (b : FileBuffer) : Z := offset b.
Definition getLength (b : FileBuffer) : Z := length b.
Definition getFileID (b : FileBuffer) : Z := fileID b.

Definition updateTS (b : FileBuffer) (ts : Z) : FileBuffer :=
  let first := if (ts <? ts_first b) || (ts_first b =? 0) then ts else ts_first b in
  let last := if (ts_last b <? ts) || (ts_last b =? 0) then ts else ts_last b in
  mkFile (buffer b) (fileName b) (fileID b) (fileFD b) (offset b) (fileCapacity b) (length b) first last.
End FileB.

Module FileProofs.
Import FileB MemoryProofs.

(** All calls of the operating system succeed. *)
Definition all_ok (os : Os) : Prop :=
  os_open os <> -1 /\ os_fallocate os = true /\ os_mmap os = true /\ os_munmap os = true.

Fixpoint write_all (os : Os) (f : list Z) (b : FileBuffer) (datas : list (list Z))
    : res (bool * FileBuffer * list Z) :=
  match datas with
  | [] => Ok (true, b, f)
  | data :: datas =>
      '(ok, b, f) ← writePointer os f b data (zlen data);
      if ok : bool then write_all os f b datas else Ok (false, b, f)
  end.

Section file.
Context (cap base : Z) (os : Os) (Hos : all_ok os).
Context (Hcap : 0 < cap < 2 ^ 32) (Hbase : 0 <= base < 2 ^ 62).

(** The bytes of the file from [base] on are the log; the last [cap] bytes are
    mapped. *)
Record maps_log (f : list Z) (b : FileBuffer) (c : Z) (g : list Z * Z) : Prop := {
  f_map : buffer b = Mapped (offset b) cap;
  f_fd : fileFD b <> -1;
  f_cap : fileCapacity b = cap;
  f_c : 0 <= c;
  f_off : offset b = base + c * cap;
  f_len : length b = g.2;
  f_room : 0 <= g.2 <= cap;
  f_size : offset b + cap <= zlen f;
  f_log : zlen g.1 = c * cap + g.2;
  f_bytes : zslice base (zlen g.1) f = g.1 }.

Lemma zlen_fallocate f off len : Z.max (zlen f) (off + len) = zlen (fallocate f off len).
Proof. unfold fallocate. rewrite zlen_app, zlen_replicate. lia. Qed.

Lemma zslice_app_l {A} o n (l k : list A) :
  0 <= o -> 0 <= n -> o + n <= zlen l -> zslice o n (l ++ k) = zslice o n l.
Proof.
  intros. apply list_eq. intros i. rewrite !lookup_zslice. case_decide; [|done].
  apply lookup_app_l. unfold zlen in *. lia.
Qed.

(** Data that fits is stored behind the log. *)
Lemma store_spec f b c l o data n :
  maps_log f b c (l, o) -> 0 <= n <= zlen data -> o + n <= cap ->
  exists f', store (buffer b) f (length b) data n = Ok f' /\ zlen f' = zlen f /\
    maps_log f' (with_map b (buffer b) (fileFD b) (offset b) (o + n)) c (l ++ zslice 0 n data, o + n) /\
    zslice 0 base f' = zslice 0 base f.
Proof.
  intros [] Hn Ho. cbn [fst snd] in *. unfold store. rewrite f_map0, f_len0.
  replace (o + n <=? cap) with true by (symmetry; apply Z.leb_le; lia).
  assert (Hz : zlen (zslice 0 n data) = n) by (apply zlen_zslice; lia).
  assert (0 <= c * cap) by nia. rewrite memcpy_Ok by lia. eexists. split; [done|].
  rewrite zlen_zsplice by lia. split; [done|]. split.
  - split; cbn [buffer fileFD fileCapacity offset length with_map fst snd]; try done; try lia.
    + rewrite zlen_zsplice by lia. lia.
    + rewrite zlen_app. lia.
    + rewrite zlen_app, Hz, zslice_app by lia. f_equal.
      * rewrite zslice_zsplice_disjoint by lia. done.
      * replace (base + zlen l) with (offset b + o) by lia. rewrite <-Hz at 1. apply zslice_zsplice_same; lia.
  - apply zslice_zsplice_disjoint; lia.
Qed.

(** The next area is mapped. *)
Lemma expand_spec f b c l :
  maps_log f b c (l, cap) -> offset b + cap < 2 ^ 63 ->
  exists b' f', expandFile os f b = (true, b', f') /\ maps_log f' b' (c + 1) (l, 0) /\
    zslice 0 base f' = zslice 0 base f.
Proof.
  intros [] Hmax. cbn [fst snd] in *. destruct Hos as (_ & Ha & Hm & Hu). unfold expandFile, map_area.
  rewrite Hu, Ha, Hm, f_cap0. replace (fileFD b =? -1) with false by (symmetry; by apply Z.eqb_neq).
  replace (0 <? cap) with true by (symmetry; apply Z.ltb_lt; lia). cbn [negb andb].
  assert (0 <= c * cap) by nia. rewrite u64_small by lia.
  eexists _, _. split; [done|]. split.
  - split; cbn [buffer fileFD fileCapacity offset length with_map fst snd]; try done; try lia.
    + rewrite <-zlen_fallocate. lia.
    + unfold fallocate. rewrite zslice_app_l by lia. done.
  - unfold fallocate. apply zslice_app_l; lia.
Qed.

(** Expanding does not look at the length. *)
Lemma expand_length f b n b' f' :
  expandFile os f (with_map b (buffer b) (fileFD b) (offset b) n) = (true, b', f') ->
  expandFile os f b = (true, b', f').
Proof.
  destruct b. unfold expandFile, map_area. cbn. intros H. repeat case_match; simplify_eq; done.
Qed.

Lemma write_spec f b c l o data :
  maps_log f b c (l, o) -> zlen data <= cap -> offset b + cap < 2 ^ 63 ->
  exists b' f' c', writePointer os f b data (zlen data) = Ok (true, b', f') /\
    maps_log f' b' c' (stream_append cap (l, o) data) /\ c' <= c + 1 /\ zslice 0 base f' = zslice 0 base f.
Proof.
  intros Hf Hd Hmax. pose proof Hf as []. cbn [fst snd] in *. pose proof (zlen_nonneg data).
  unfold writePointer, stream_append. rewrite f_cap0, f_len0. rewrite !(u64_small (o + zlen data)) by lia.
  destruct (Z.ltb_spec cap (o + zlen data)) as [Hcut|Hfit].
  - rewrite !(u32_small (cap - o)), !(u32_small (zlen data - (cap - o))) by lia.
    destruct (store_spec f b c l o data (cap - o)) as (f1 & E1 & _ & H1 & P1); [done|lia|lia|].
    rewrite f_len0 in E1. rewrite E1. cbn [mbind res_bind]. replace (o + (cap - o)) with cap in H1 by lia.
    destruct (expand_spec _ _ _ _ H1) as (b2 & f2 & E2 & H2 & P2); [done|].
    rewrite (expand_length f1 b cap b2 f2) by done. cbn [negb].
    destruct (store_spec f2 b2 (c + 1) _ 0 data (zlen data - (cap - o)) H2) as (f3 & E3 & _ & H3 & P3); [lia|lia|].
    rewrite E3. cbn [mbind res_bind]. eexists _, _, (c + 1). split; [done|].
    rewrite Z.add_0_l, <-app_assoc in H3. split; [done|]. split; [lia|congruence].
  - destruct (store_spec f b c l o data (zlen data)) as (f1 & E1 & _ & H1 & P1); [done|lia|lia|].
    rewrite f_len0 in E1. rewrite E1. cbn [mbind res_bind]. eexists _, _, c. split; [done|].
    rewrite zslice_full in H1 by done. split; [done|]. split; [lia|done].
Qed.

Lemma write_all_spec datas : forall f b c g,
  maps_log f b c g -> Forall (fun data => zlen data <= cap) datas ->
  base + (c + zlen datas + 1) * cap < 2 ^ 63 ->
  exists b' f' c', write_all os f b datas = Ok (true, b', f') /\
    maps_log f' b' c' (foldl (stream_append cap) g datas) /\ zslice 0 base f' = zslice 0 base f.
Proof.
  induction datas as [|data datas IH]; intros f b c [l o] Hf Hd Hmax; cbn [write_all foldl].
  { exists b, f, c. done. }
  apply Forall_cons_1 in Hd as [Hd Hds]. rewrite zlen_cons in Hmax. pose proof (zlen_nonneg datas).
  pose proof (f_off _ _ _ _ Hf). pose proof (f_c _ _ _ _ Hf).
  destruct (write_spec f b c l o data Hf Hd) as (b1 & f1 & c1 & E1 & Hm1 & Hc1 & P1); [nia|].
  rewrite E1. cbn [mbind res_bind].
  destruct (IH f1 b1 c1 _ Hm1 Hds) as (b2 & f2 & c2 & E2 & Hm2 & P2); [nia|].
  exists b2, f2, c2. rewrite E2. split; [done|]. split; [done|congruence].
Qed.
End file.

(** As long as the calls of the operating system succeed, what is written
    through a buffer is in the file from the offset that it was opened with:
    the file holds what [stream_append] makes of the data and is unchanged
    before that offset. *)
Theorem file_buffer_appends os f id cap base name datas :
  all_ok os -> 0 < cap < 2 ^ 32 -> 0 <= base <= zlen f -> name <> [] ->
  base + (zlen datas + 1) * cap < 2 ^ 62 ->
  Forall (fun data => zlen data <= cap) datas ->
  let l := (foldl (stream_append cap) ([], 0) datas).1 in
  exists b f1, openFile os f (changeFileName (new_FileBuffer id cap base) name) = (true, b, f1) /\
  exists b' f', write_all os f1 b datas = Ok (true, b', f') /\
    zslice 0 (base + zlen l) f' = zslice 0 base f ++ l /\ offset b' + length b' = base + zlen l.
Proof.
  intros Hos Hcap Hbase Hname Hmax Hd l. pose proof (zlen_nonneg datas). pose proof Hos as (Ho & Ha & Hm & _).
  unfold openFile. cbn [changeFileName new_FileBuffer fileFD fileName]. rewrite Z.eqb_refl. cbn [negb].
  replace (zlen name =? 0) with false by (symmetry; apply Z.eqb_neq; destruct name; [done|rewrite zlen_cons;
    pose proof (zlen_nonneg name); lia]).
  replace (os_open os =? -1) with false by (symmetry; by apply Z.eqb_neq). unfold map_area. rewrite Ha, Hm.
  cbn [fileCapacity changeFileName new_FileBuffer offset buffer].
  replace (0 <? cap) with true by (symmetry; apply Z.ltb_lt; lia). cbn [negb andb].
  eexists _, _. split; [done|].
  destruct (write_all_spec cap base os Hos Hcap ltac:(nia) datas (fallocate f base cap)
              (with_map (changeFileName (new_FileBuffer id cap base) name) (Mapped base cap) (os_open os) base 0)
              0 ([], 0)) as (b' & f' & c' & E & [] & P); [|done|nia|].
  - split; cbn; try done; try lia. rewrite <-zlen_fallocate. lia.
  - exists b', f'. split; [exact E|]. fold l in f_bytes0, f_log0. pose proof (zlen_nonneg l).
    rewrite zslice_app, Z.add_0_l by lia. rewrite f_bytes0, P. split; [|lia]. f_equal.
    unfold fallocate. apply zslice_app_l; lia.
Qed.
End FileProofs.

Module DemoFile.
Import FileB FileProofs.
Definition os : Os := mkOs 3 true true true.

Lemma file_buffer_appends_witness :
  exists b f1, openFile os [9; 9] (changeFileName (new_FileBuffer 1 4 2) [97]) = (true, b, f1) /\
  exists b' f', write_all os f1 b [[1; 2; 3]; [4; 5; 6]] = Ok (true, b', f') /\
    zslice 0 8 f' = [9; 9; 1; 2; 3; 4; 4; 5] /\ offset b' + length b' = 8.
Proof.
  apply (file_buffer_appends os [9; 9] 1 4 2 [97] [[1; 2; 3]; [4; 5; 6]]).
  - done.
  - lia.
  - vm_compute. done.
  - done.
  - vm_compute. done.
  - repeat constructor; vm_compute; done.
Defined.

(** After [closeFile] the capacity is 0 and the file cannot be opened again. *)
Lemma closed_file_stays_closed :
  (fun r => r.1.1) (openFile os [] (closeFile (openFile os [] (changeFileName (new_FileBuffer 1 4 0) [97])).1.2))
  = false.
Proof. vm_compute. done. Qed.

(** After a failed [openFile] the destructor closes the closed descriptor. *)
Lemma failed_open_keeps_descriptor :
  destroy (openFile (mkOs 3 false true true) [] (changeFileName (new_FileBuffer 1 4 0) [97])).1.2
  = [Munmap Null 4; Close 3].
Proof. vm_compute. done. Qed.
End DemoFile.
