(* ===== verification/Compressor.v ===== *)
(** * The packet compressor (dpdk_lib/compressor.hpp)

    [compress] replaces repeated bytes of a packet by references to what it
    wrote before.  Nothing calls it, and nothing reads its output; the theorem
    says what the output is: literal bytes and references that can be told
    apart again, for all but the last bytes of the packet, inside the memory
    that it was given, and to which bytes the references lead. *)
From Stdlib Require Import ZArith Lia Bool.
From S2P Require Import Prelude.

Definition TAG_LEN : Z := 8.
Definition MAX_GAP : Z := 65536.
Definition COMPRESS_FLAG : Z := 0xfe.

(** A reference; [cs_flag] is the default value of the member. *)
Record CompressSegment := mkSegment { cs_flag : Z; cs_len : Z; cs_diff : Z }.

Definition segment_bytes (c : CompressSegment) : list Z :=
  [cs_flag c; cs_len c] ++ le_bytes 2 (cs_diff c).

Record Compressor := mkCompressor {
  dict : list Z;
  buffer : list Z;
  bufferOffset : Z }.

Definition new_Compressor (buf : list Z) (dict_len : Z) : Compressor :=
  mkCompressor (replicate (Z.to_nat dict_len) 0) buf 0.

(** [directWriteToBuffer] of a number of bytes. *)
Definition write_bytes (c : Compressor) (data : list Z) (data_len : Z) : res Compressor :=
  buf ← memcpy (buffer c) (bufferOffset c) data 0 data_len;
  Ok (mkCompressor (dict c) buf (u64 (bufferOffset c + data_len))).

(** [directWriteToBuffer] of one byte; a zero follows the flag. *)
Definition write_char (c : Compressor) (b : Z) : res Compressor :=
  buf ← zset (buffer c) (bufferOffset c) b;
  let c := mkCompressor (dict c) buf (u64 (bufferOffset c + 1)) in
  if b =? COMPRESS_FLAG then
    buf ← zset (buffer c) (bufferOffset c) 0;
    Ok (mkCompressor (dict c) buf (u64 (bufferOffset c + 1)))
  else Ok c.

(** A [char] as an [unsigned]. *)
Definition sign_extend (b : Z) : Z := u32 (if b <? 128 then b else b - 256).

Definition shl (x n : Z) : Z := u32 (Z.shiftl x n).

(** The hash of four bytes. *)
Definition dict_index (p0 p1 p2 p3 : Z) : Z :=
  let h := Z.lxor (shl (sign_extend p3) 6) (sign_extend p2) in
  let h := Z.lxor (shl h 5) (sign_extend p1) in
  let h := Z.lxor (shl h 5) (sign_extend p0) in
  Z.land (Z.shiftr (u32 (0x21 * h)) 5) 0x3ffff.

(** The loop that lengthens a reference. *)
Fixpoint match_len (fuel : nat) (buf data : list Z) (m_pos pos now data_len len : Z) : res Z :=
  match fuel with
  | O => Blocks
  | S fuel =>
      x ← zget buf (m_pos + len);
      y ← zget data (pos + len);
      if x =? y then
        let len := u8 (len + 1) in
        if (u32 (len + now) =? data_len) || (len =? 0xff) then Ok len
        else match_len fuel buf data m_pos pos now data_len len
      else Ok len
  end.

Definition set_dict (c : Compressor) (i v : Z) : res Compressor :=
  d ← zset (dict c) i (u32 v);
  Ok (mkCompressor d (buffer c) (bufferOffset c)).

(** A byte that starts no reference. *)
Definition literal (c : Compressor) (dindex now b : Z) : res (Compressor * Z) :=
  c ← set_dict c dindex (now + bufferOffset c);
  c ← write_char c b;
  Ok (c, u32 (now + 1)).

(** The eight bytes before the part that is dropped. *)
Fixpoint write_chars (c : Compressor) (l : list Z) : res Compressor :=
  match l with
  | [] => Ok c
  | b :: l => c ← write_char c b; write_chars c l
  end.

(** One turn of the loop; [pos] is where [pointer] points to. *)
Definition turn (data : list Z) (data_len drop_offset drop_len : Z) (c : Compressor) (now : Z)
    : res (Compressor * Z) :=
  let pos := now in
  '(c, now) ←
    (if u32 (now + TAG_LEN) =? drop_offset then
       tag ← zread data pos TAG_LEN;
       c ← write_chars c tag;
       Ok (c, u32 (u32 (now + TAG_LEN) + drop_len))
     else Ok (c, now));
  p0 ← zget data pos;
  p1 ← zget data (pos + 1);
  p2 ← zget data (pos + 2);
  p3 ← zget data (pos + 3);
  let dindex := dict_index p0 p1 p2 p3 in
  m_pos ← zget (dict c) dindex;
  let m_off := u32 (bufferOffset c + now - m_pos) in
  if (bufferOffset c <=? m_pos) || (MAX_GAP <? m_off) || (m_off <? TAG_LEN) then literal c dindex now p0
  else
    b0 ← zget (buffer c) m_pos;
    b1 ← zget (buffer c) (m_pos + 1);
    b2 ← zget (buffer c) (m_pos + 2);
    b3 ← zget (buffer c) (m_pos + 3);
    if negb ((b0 =? p0) && (b1 =? p1) && (b2 =? p2) && (b3 =? p3)) then literal c dindex now p0
    else
      len ← match_len 256 (buffer c) data m_pos pos now data_len TAG_LEN;
      c ← write_bytes c (segment_bytes (mkSegment COMPRESS_FLAG len (u16 m_off))) 4;
      c ← set_dict c dindex (now + bufferOffset c);
      Ok (c, u32 (now + len)).

(** The loop, in at most [fuel] turns. *)
Fixpoint turns (fuel : nat) (data : list Z) (data_len drop_offset drop_len : Z) (c : Compressor) (now : Z)
    : res Compressor :=
  if now <? u32 (data_len - TAG_LEN) then
    match fuel with
    | O => Blocks
    | S fuel =>
        '(c, now) ← turn data data_len drop_offset drop_len c now;
        turns fuel data data_len drop_offset drop_len c now
    end
  else Ok c.

Definition compress (c : Compressor) (header data : list Z) (data_len drop_offset drop_len : Z)
    : res Compressor :=
  let new_header := bufferOffset c in
  c ← write_bytes c header 16;
  let origin := bufferOffset c in
  c ← (if data_len <? TAG_LEN then write_bytes c data data_len else Ok c);
  c ← turns (S (Z.to_nat data_len)) data data_len drop_offset drop_len c 0;
  buf ← memcpy (buffer c) (new_header + 8) (le_bytes 4 (u32 (bufferOffset c - origin))) 0 4;
  Ok (mkCompressor (dict c) buf (bufferOffset c)).

Definition getBuffer (c : Compressor) : res (list Z) := zread (buffer c) 0 (bufferOffset c).

(** ** The output *)

(** What a turn writes. *)
Inductive Token := Lit (b : Z) | Ref (len diff : Z).

Definition encode1 (t : Token) : list Z :=
  match t with
  | Lit b => if b =? COMPRESS_FLAG then [b; 0] else [b]
  | Ref len diff => segment_bytes (mkSegment COMPRESS_FLAG len diff)
  end.

Definition encode (ts : list Token) : list Z := concat (encode1 <$> ts).

(** The tokens of an output. *)
Fixpoint parse (l : list Z) : option (list Token) :=
  match l with
  | [] => Some []
  | b :: l =>
      if b =? COMPRESS_FLAG then
        match l with
        | len :: l' =>
            if len =? 0 then cons (Lit b) <$> parse l'
            else
              match l' with
              | lo :: hi :: l'' => cons (Ref len (le_val [lo; hi])) <$> parse l''
              | _ => None
              end
        | [] => None
        end
      else cons (Lit b) <$> parse l
  end.

(** What a reference in front of byte [i] of [data] means, when the memory is
    [m] and [o] bytes of it are written: some place [pos] of the written part,
    whose distance is [diff] in 16 bits, holds the first four bytes of the
    data and those from the ninth on, up to the first that differs, the end
    of the data or 255 bytes.  Bytes five to eight are not compared. *)
Definition refers (data m : list Z) (i o len diff : Z) : Prop :=
  exists pos, 0 <= pos < o /\ TAG_LEN <= u32 (o + i - pos) <= MAX_GAP /\
    diff = u16 (u32 (o + i - pos)) /\
    TAG_LEN <= len <= 0xff /\ i + len <= zlen data /\
    (forall k, 0 <= k < 4 \/ TAG_LEN <= k < len -> zget m (pos + k) = zget data (i + k)) /\
    (len = 0xff \/ i + len = zlen data \/ zget m (pos + len) <> zget data (i + len)).

(** The memory [init] with [w] written over its beginning. *)
Definition memory (init w : list Z) : list Z := w ++ drop (length w) init.

(** The tokens stand for the bytes of [data] from [i] to [j], when [w] stands
    before them in the memory [init]. *)
Fixpoint covers (data init w : list Z) (i : Z) (ts : list Token) (j : Z) : Prop :=
  match ts with
  | [] => i = j
  | Lit b :: ts => zget data i = Ok b /\ covers data init (w ++ encode1 (Lit b)) (i + 1) ts j
  | Ref len diff :: ts =>
      refers data (memory init w) i (zlen w) len diff /\
      covers data init (w ++ encode1 (Ref len diff)) (i + len) ts j
  end.

Lemma encode_app ts ts' : encode (ts ++ ts') = encode ts ++ encode ts'.
Proof. unfold encode. by rewrite fmap_app, concat_app. Qed.

(** A byte is not taken for a reference, a reference not for a byte. *)
Lemma parse_encode data init ts : forall w i j, covers data init w i ts j -> parse (encode ts) = Some ts.
Proof.
  induction ts as [|[b|len diff] ts IH]; intros w i j; [done| |]; cbn [covers encode fmap list_fmap concat encode1].
  - intros [_ H]. specialize (IH _ _ _ H). unfold encode in IH. destruct (Z.eqb_spec b COMPRESS_FLAG) as [->|Hb].
    + cbn [app parse]. rewrite Z.eqb_refl. cbn. by rewrite IH.
    + cbn [app parse]. apply Z.eqb_neq in Hb. rewrite Hb. by rewrite IH.
  - intros ((pos & _ & _ & -> & Hl & _) & H). specialize (IH _ _ _ H). unfold TAG_LEN in Hl. unfold encode in IH.
    cbn [segment_bytes cs_flag cs_len cs_diff le_bytes app parse]. rewrite Z.eqb_refl.
    replace (len =? 0) with false by (symmetry; apply Z.eqb_neq; lia). rewrite IH. cbn [fmap option_fmap option_map].
    do 3 f_equal. set (diff := u16 _). pose proof (le_val_le_bytes 2 diff) as E. cbn [le_bytes] in E.
    apply E. apply (wrap_range 16). lia.
Qed.

Lemma encode1_length t : 1 <= zlen (encode1 t) <= 4.
Proof. destruct t as [b|len diff]; cbn [encode1]; [case_test|]; unfold zlen; cbn; lia. Qed.

Lemma zsplice_memory init w src : zsplice (zlen w) src (memory init w) = memory init (w ++ src).
Proof.
  unfold zsplice, memory, zlen. rewrite Nat2Z.id, take_app_length, drop_app_add, drop_drop, length_app, <-app_assoc.
  do 2 f_equal.
Qed.

Lemma memory_prefix init w : zslice 0 (zlen w) (memory init w) = w.
Proof. unfold zslice, memory, zlen. by rewrite drop_0, Nat2Z.id, take_app_length. Qed.

Lemma memory_self (l : list Z) n : 0 <= n <= zlen l -> memory l (zslice 0 n l) = l.
Proof.
  intros Hn. unfold memory, zslice, zlen in *. rewrite drop_0, length_take, Nat.min_l by lia. apply take_drop.
Qed.

(** [bs] was appended to the output. *)
Record wrote (c c' : Compressor) (bs : list Z) : Prop := {
  o_dict : dict c' = dict c;
  o_size : zlen (buffer c') = zlen (buffer c);
  o_offset : bufferOffset c' = bufferOffset c + zlen bs;
  o_mem : forall init w, zlen w = bufferOffset c -> buffer c = memory init w -> buffer c' = memory init (w ++ bs) }.

Lemma write_bytes_ok c data n :
  0 <= n <= zlen data -> 0 <= bufferOffset c -> bufferOffset c + n <= zlen (buffer c) -> zlen (buffer c) < 2 ^ 64 ->
  exists c', write_bytes c data n = Ok c' /\ wrote c c' (zslice 0 n data).
Proof.
  intros Hn Ho Hl Hm. unfold write_bytes. rewrite memcpy_Ok by lia. cbn [mbind res_bind].
  assert (Hz : zlen (zslice 0 n data) = n) by (apply zlen_zslice; lia).
  eexists. split; [done|]. split; cbn [dict buffer bufferOffset]; try done.
  - apply zlen_zsplice; lia.
  - rewrite u64_small, Hz by lia. done.
  - intros init w <- ->. apply zsplice_memory.
Qed.

(** Writing one byte is writing a list of one byte. *)
Lemma zset_memcpy (l : list Z) i b : zset l i b = memcpy l i [b] 0 1.
Proof.
  unfold zset, memcpy, zslice, zsplice. cbn [drop take length]. change (0 <=? 1) with true. change (0 <=? 0) with true.
  change (zlen [b]) with 1. change (0 + 1 <=? 1) with true. rewrite !andb_true_r. cbn [andb].
  destruct (Z.ltb_spec i 0), (Z.leb_spec 0 i); try lia; cbn [orb andb]; [done|].
  destruct (Z.leb_spec (zlen l) i), (Z.leb_spec (i + 1) (zlen l)); try lia; [done|].
  f_equal. rewrite insert_take_drop by (unfold zlen in *; lia). change (take _ (drop _ [b])) with [b].
  cbn [app length]. by rewrite Nat.add_1_r.
Qed.

Lemma wrote_trans c c1 c2 bs bs' : wrote c c1 bs -> wrote c1 c2 bs' -> wrote c c2 (bs ++ bs').
Proof.
  intros [D1 S1 O1 M1] [D2 S2 O2 M2]. split; [congruence|congruence|rewrite zlen_app; lia|].
  intros init w Hw Hb. rewrite app_assoc. apply M2; [rewrite zlen_app; lia|by apply M1].
Qed.

Lemma write_char_ok c b :
  0 <= bufferOffset c -> bufferOffset c + 2 <= zlen (buffer c) -> zlen (buffer c) < 2 ^ 64 ->
  exists c', write_char c b = Ok c' /\ wrote c c' (encode1 (Lit b)).
Proof.
  intros Ho Hl Hm. unfold write_char. rewrite !zset_memcpy.
  destruct (write_bytes_ok c [b] 1) as (c1 & E1 & W1); [unfold zlen; cbn; lia|lia|lia|done|].
  unfold write_bytes in E1. apply bind_Ok_iff in E1 as (buf & E1 & [= <-]). rewrite E1. cbn [mbind res_bind encode1].
  destruct (b =? COMPRESS_FLAG); [|by eexists]. pose proof W1 as [_ S1 O1 _]. cbn [dict buffer bufferOffset] in *.
  change (zlen (zslice 0 1 [b])) with 1 in O1.
  destruct (write_bytes_ok (mkCompressor (dict c) buf (u64 (bufferOffset c + 1))) [0] 1) as (c2 & E2 & W2);
    cbn [dict buffer bufferOffset] in *; [unfold zlen; cbn; lia|lia|lia|lia|].
  unfold write_bytes in E2. cbn [dict buffer bufferOffset] in E2. apply bind_Ok_iff in E2 as (buf' & E2 & [= <-]).
  rewrite zset_memcpy, E2. cbn [mbind res_bind]. eexists. split; [done|].
  exact (wrote_trans _ _ _ _ _ W1 W2).
Qed.

Lemma dict_index_range p0 p1 p2 p3 : 0 <= dict_index p0 p1 p2 p3 < 2 ^ 18.
Proof.
  unfold dict_index. change 0x3ffff with (Z.ones 18). rewrite Z.land_ones by lia. apply Z.mod_pos_bound. lia.
Qed.

Section safe.
Context (data init : list Z).
Context (Hdata : 8 <= zlen data < 2 ^ 31).

(** A match is lengthened as far as it goes. *)
Lemma match_len_ok buf m_pos now fuel : forall len,
  0 <= m_pos -> m_pos + 255 < zlen buf -> 0 <= now -> 8 <= len < 255 -> now + len < zlen data ->
  256 - len <= Z.of_nat fuel ->
  exists len', match_len fuel buf data m_pos now now (zlen data) len = Ok len' /\
    len <= len' <= 255 /\ now + len' <= zlen data /\
    (forall k, len <= k < len' -> zget buf (m_pos + k) = zget data (now + k)) /\
    (len' = 255 \/ now + len' = zlen data \/ zget buf (m_pos + len') <> zget data (now + len')).
Proof.
  induction fuel as [|fuel IH]; intros len Hm Hb Hn Hlen Hd Hf; [lia|]. cbn [match_len].
  destruct (zget_lt buf (m_pos + len)) as [x Ex]; [lia|]. destruct (zget_lt data (now + len)) as [y Ey]; [lia|].
  rewrite Ex, Ey. cbn [mbind res_bind]. destruct (Z.eqb_spec x y) as [->|Hxy].
  2: { exists len. split; [done|]. split; [lia|]. split; [lia|]. split; [lia|]. right. right. congruence. }
  assert (Hstep : forall k, len <= k < len + 1 -> zget buf (m_pos + k) = zget data (now + k)).
  { intros k Hk. replace k with len by lia. congruence. }
  rewrite u8_small, u32_small by lia.
  destruct (Z.eqb_spec (len + 1 + now) (zlen data)); cbn [orb].
  { exists (len + 1). split; [done|]. split; [lia|]. split; [lia|]. split; [done|]. right. left. lia. }
  destruct (Z.eqb_spec (len + 1) 0xff).
  { exists (len + 1). split; [done|]. split; [lia|]. split; [lia|]. split; [done|]. left. lia. }
  destruct (IH (len + 1)) as (len' & E & Hl' & Hd' & Heq & Hmax); try lia. exists len'. split; [done|].
  split; [lia|]. split; [lia|]. split; [|done].
  intros k Hk. destruct (decide (k < len + 1)); [apply Hstep|apply Heq]; lia.
Qed.

(** The memory is large enough for what is left. *)
Record room (c : Compressor) (w : list Z) (now : Z) : Prop := {
  r_now : 0 <= now <= zlen data;
  r_offset : bufferOffset c = zlen w;
  r_mem : buffer c = memory init w;
  r_room : bufferOffset c + 2 * (zlen data - now) + 256 <= zlen (buffer c);
  r_max : zlen (buffer c) < 2 ^ 32;
  r_dict : 2 ^ 18 <= zlen (dict c);
  r_values : Forall (is_u 32) (dict c) }.

Lemma set_dict_ok c i v : 0 <= i < zlen (dict c) -> Forall (is_u 32) (dict c) ->
  exists d, set_dict c i v = Ok (mkCompressor d (buffer c) (bufferOffset c)) /\ zlen d = zlen (dict c) /\ Forall (is_u 32) d.
Proof.
  intros Hi Hd. unfold set_dict. rewrite zset_Ok by done. cbn [mbind res_bind]. eexists. split; [done|].
  rewrite zlen_insert. split; [done|]. apply Forall_insert; [done|]. apply u32_range.
Qed.

(** One turn writes one token. *)
Definition turned (w : list Z) (now : Z) (r : res (Compressor * Z)) : Prop :=
  exists c' now' t, r = Ok (c', now') /\ room c' (w ++ encode1 t) now' /\ now < now' /\
    covers data init w now [t] now' /\ zlen (encode1 t) <= 2 * (now' - now).

Lemma literal_ok c w dindex now b :
  room c w now -> now < zlen data - 8 -> 0 <= dindex < 2 ^ 18 -> zget data now = Ok b ->
  turned w now (literal c dindex now b).
Proof.
  intros [] Hn Hi Hb. unfold literal. pose proof (zlen_nonneg w).
  destruct (set_dict_ok c dindex (now + bufferOffset c)) as (d & -> & Hdl & Hdv); [lia|done|]. cbn [mbind res_bind].
  destruct (write_char_ok (mkCompressor d (buffer c) (bufferOffset c)) b) as (c' & -> & []);
    cbn [dict buffer bufferOffset] in *; [lia|lia|lia|].
  cbn [mbind res_bind]. rewrite u32_small by lia. pose proof (encode1_length (Lit b)).
  assert (zlen (encode1 (Lit b)) <= 2) by (cbn [encode1]; case_test; unfold zlen; cbn; lia).
  exists c', (now + 1), (Lit b). split; [done|].
  split; [split; rewrite ?o_dict0, ?zlen_app; try done; [lia|lia|by apply o_mem0|lia|lia|lia]|].
  split; [lia|]. split; [cbn; auto|lia].
Qed.

(** The four bytes that were compared. *)
Lemma four_equal (m : list Z) pos now b0 b1 b2 b3 p0 p1 p2 p3 :
  zget m pos = Ok b0 -> zget m (pos + 1) = Ok b1 -> zget m (pos + 2) = Ok b2 -> zget m (pos + 3) = Ok b3 ->
  zget data now = Ok p0 -> zget data (now + 1) = Ok p1 -> zget data (now + 2) = Ok p2 ->
  zget data (now + 3) = Ok p3 -> (b0 =? p0) && (b1 =? p1) && (b2 =? p2) && (b3 =? p3) = true ->
  forall k, 0 <= k < 4 -> zget m (pos + k) = zget data (now + k).
Proof.
  intros Hb0 Hb1 Hb2 Hb3 Hp0 Hp1 Hp2 Hp3 E k Hk. zbool. subst.
  assert (k = 0 \/ k = 1 \/ k = 2 \/ k = 3) as [->|[->|[->| ->]]] by lia; rewrite ?Z.add_0_r; congruence.
Qed.

Lemma turn_ok c w now drop_offset drop_len :
  room c w now -> now < zlen data - 8 -> drop_offset < 8 ->
  turned w now (turn data (zlen data) drop_offset drop_len c now).
Proof.
  intros Hr Hn Hdrop. pose proof Hr as []. pose proof (zlen_nonneg w). unfold turn, TAG_LEN. rewrite u32_small by lia.
  replace (now + 8 =? drop_offset) with false by (symmetry; apply Z.eqb_neq; lia). cbn [mbind res_bind].
  destruct (zget_lt data now) as [p0 E0]; [lia|]. destruct (zget_lt data (now + 1)) as [p1 E1]; [lia|].
  destruct (zget_lt data (now + 2)) as [p2 E2]; [lia|]. destruct (zget_lt data (now + 3)) as [p3 E3]; [lia|].
  rewrite E0, E1, E2, E3. cbn [mbind res_bind]. pose proof (dict_index_range p0 p1 p2 p3) as Hi.
  set (dindex := dict_index p0 p1 p2 p3) in *. clearbody dindex.
  destruct (zget_lt (dict c) dindex) as [m_pos Em]; [lia|]. rewrite Em. cbn [mbind res_bind].
  assert (Hm : is_u 32 m_pos).
  { apply zget_Ok in Em as [_ Em]. by apply (Forall_lookup_1 _ _ _ _ r_values0 Em). }
  destruct (_ || _ || _) eqn:Etest; [by apply literal_ok|]. zbool. unfold is_u in Hm. unfold MAX_GAP in *.
  set (m_off := u32 (bufferOffset c + now - m_pos)) in *.
  destruct (zget_lt (buffer c) m_pos) as [b0 B0]; [lia|]. destruct (zget_lt (buffer c) (m_pos + 1)) as [b1 B1]; [lia|].
  destruct (zget_lt (buffer c) (m_pos + 2)) as [b2 B2]; [lia|]. destruct (zget_lt (buffer c) (m_pos + 3)) as [b3 B3]; [lia|].
  rewrite B0, B1, B2, B3. cbn [mbind res_bind]. destruct (_ && _ && _ && _) eqn:E4; cbn [negb]; [|by apply literal_ok].
  pose proof (four_equal _ _ _ _ _ _ _ _ _ _ _ B0 B1 B2 B3 E0 E1 E2 E3 E4) as Hfour.
  destruct (match_len_ok (buffer c) m_pos now 256 8) as (len & -> & Hlen & Hend & Heq & Hmax); [lia..|].
  cbn [mbind res_bind].
  set (bs := segment_bytes _). destruct (write_bytes_ok c bs 4) as (c1 & -> & []); [unfold zlen; cbn; lia|lia|lia|lia|].
  cbn [mbind res_bind]. change (zslice 0 4 bs) with bs in *. change (zlen bs) with 4 in *.
  destruct (set_dict_ok c1 dindex (now + bufferOffset c1)) as (d & -> & Hdl & Hdv);
    [rewrite o_dict0; lia|by rewrite o_dict0|]. cbn [mbind res_bind]. rewrite u32_small by lia.
  eexists _, (now + len), (Ref len (u16 m_off)). split; [done|].
  split; [split; cbn [dict buffer bufferOffset]; rewrite ?Hdl, ?o_dict0, ?zlen_app; try done; try lia;
    [by rewrite o_offset0, r_offset0|by apply o_mem0]|].
  split; [lia|]. split; [|change (zlen (encode1 _)) with 4; lia].
  split; [|done]. exists m_pos. rewrite <-r_mem0, <-r_offset0. unfold MAX_GAP, TAG_LEN. split_and!; try done; try lia.
  intros k [Hk|Hk]; [by apply Hfour|by apply Heq].
Qed.

Lemma covers_cons w t ts i j k : covers data init w i [t] j ->
  covers data init (w ++ encode1 t) j ts k -> covers data init w i (t :: ts) k.
Proof. destruct t; cbn [covers]; intros [? <-] ?; done. Qed.

Lemma turns_ok fuel : forall c w now drop_offset drop_len,
  room c w now -> drop_offset < 8 -> zlen data - now <= Z.of_nat fuel ->
  exists c' now' ts, turns fuel data (zlen data) drop_offset drop_len c now = Ok c' /\
    room c' (w ++ encode ts) now' /\ zlen data - 8 <= now' /\ covers data init w now ts now' /\
    zlen (encode ts) <= 2 * (now' - now).
Proof.
  induction fuel as [|fuel IH]; intros c w now drop_offset drop_len Hr Hdrop Hf; cbn [turns];
    pose proof Hr as []; unfold TAG_LEN; rewrite u32_small by lia;
    (destruct (Z.ltb_spec now (zlen data - 8)) as [Hlt|Hge]; [|exists c, now, [];
       rewrite app_nil_r; repeat (split; [done || lia|]); change (zlen (encode [])) with 0; lia]).
  - lia.
  - destruct (turn_ok c w now drop_offset drop_len Hr Hlt Hdrop)
      as (c1 & now1 & t & -> & Hr1 & Hn1 & Hc1 & Hl1). cbn [mbind res_bind].
    destruct (IH c1 _ now1 drop_offset drop_len Hr1 Hdrop ltac:(lia)) as (c2 & now2 & ts & -> & Hr2 & Hn2 & Hc2 & Hl2).
    exists c2, now2, (t :: ts). change (encode (t :: ts)) with (encode1 t ++ encode ts).
    rewrite zlen_app, app_assoc. repeat (split; [done|]). split; [by eapply covers_cons|lia].
Qed.
End safe.

Lemma zslice_zsplice_prefix {A} off (src l : list A) n :
  0 <= off -> off + zlen src <= n -> n <= zlen l ->
  zslice 0 n (zsplice off src l) = zsplice off src (zslice 0 n l).
Proof.
  intros Ho Hn Hl. pose proof (zlen_nonneg src).
  apply list_eq. intros i. rewrite lookup_zslice, !lookup_zsplice, lookup_zslice by (rewrite ?zlen_zslice by lia; lia).
  repeat case_decide; try lia; done.
Qed.

(** The field [caplen] of a header, behind [pre]. *)
Lemma zsplice_caplen {A} (pre header cap rest : list A) :
  zlen header = 16 -> zlen cap = 4 ->
  zsplice (zlen pre + 8) cap (pre ++ header ++ rest) = pre ++ take 8 header ++ cap ++ drop 12 header ++ rest.
Proof.
  intros Hh Hc. unfold zsplice, zlen in *. replace (Z.to_nat _) with (length pre + 8)%nat by lia.
  rewrite take_app_add, take_app_le by lia. replace (length pre + 8 + length cap)%nat with (length pre + 12)%nat by lia.
  rewrite drop_app_add, drop_app_le by lia. by rewrite <-!app_assoc.
Qed.

(** C40: a packet of at least eight bytes, none of which is dropped, is compressed
    within twice its length, whatever is in the memory and the dictionary:
    behind the header, with the length of the output in its [caplen], stand
    tokens that can be read back and that stand for the bytes of the packet in
    order, up to at most eight bytes at its end, which are never written.  A
    literal is the packet's byte, and a reference leads to a place written
    before whose first four bytes are the packet's, as are those from the ninth
    on; it is as long as they agree. *)
Theorem compress_writes_tokens c header data drop_offset drop_len :
  8 <= zlen data < 2 ^ 31 -> zlen header = 16 -> drop_offset < 8 ->
  0 <= bufferOffset c -> bufferOffset c + 16 + 2 * zlen data + 256 <= zlen (buffer c) < 2 ^ 32 ->
  2 ^ 18 <= zlen (dict c) -> Forall (is_u 32) (dict c) ->
  let before := zslice 0 (bufferOffset c) (buffer c) in
  exists c' ts n, compress c header data (zlen data) drop_offset drop_len = Ok c' /\
    covers data (buffer c) (before ++ header) 0 ts n /\ zlen data - 8 <= n <= zlen data /\
    parse (encode ts) = Some ts /\ zlen (encode ts) <= 2 * zlen data /\
    zslice 0 (bufferOffset c') (buffer c') =
      before ++ take 8 header ++ le_bytes 4 (zlen (encode ts)) ++ drop 12 header ++ encode ts.
Proof.
  intros Hd Hh Hdrop Ho Hl Hdict Hval before. unfold compress.
  assert (Hb : zlen before = bufferOffset c) by (apply zlen_zslice; lia).
  destruct (write_bytes_ok c header 16) as (c1 & -> & [D1 S1 O1 M1]); [lia|lia|lia|lia|]. cbn [mbind res_bind].
  rewrite (zslice_full header 16) in O1, M1 by lia. unfold TAG_LEN.
  replace (zlen data <? 8) with false by (symmetry; apply Z.ltb_ge; lia). cbn [mbind res_bind].
  destruct (turns_ok data (buffer c) Hd (S (Z.to_nat (zlen data))) c1 (before ++ header) 0 drop_offset drop_len)
    as (c2 & n & ts & -> & [] & Hn & Hc & L2).
  { split; rewrite ?D1, ?zlen_app; try done; try lia. apply M1; [done|].
    symmetry. apply memory_self. lia. }
  { done. }
  { lia. }
  cbn [mbind res_bind]. pose proof (zlen_nonneg (encode ts)). rewrite !zlen_app in *.
  replace (bufferOffset c2 - bufferOffset c1) with (zlen (encode ts)) by lia.
  rewrite u32_small by lia. set (cap := le_bytes 4 _).
  assert (Hcap : zlen cap = 4) by apply zlen_le_bytes.
  rewrite memcpy_Ok by lia. rewrite (zslice_full cap 4) by done. cbn [mbind res_bind].
  eexists _, ts, n. split; [done|]. split; [done|]. split; [lia|]. split; [by eapply parse_encode|].
  split; [lia|]. cbn [bufferOffset buffer]. rewrite zslice_zsplice_prefix by lia.
  rewrite r_mem0. replace (bufferOffset c2) with (zlen ((before ++ header) ++ encode ts)) by (rewrite !zlen_app; lia).
  rewrite memory_prefix, <-app_assoc, <-Hb. by apply zsplice_caplen.
Qed.

Module DemoCompressor.
(** An empty dictionary and 500 bytes of memory. *)
Definition fresh : Compressor := new_Compressor (replicate 500 0) (2 ^ 18).
Definition header : list Z := [1; 2; 3; 4; 5; 6; 7; 8; 9; 10; 11; 12; 13; 14; 15; 16].
Definition packet : list Z := [21; 22; 23; 0xfe; 25; 26; 27; 28; 29; 30; 31; 32].

(** A packet that begins like the header in front of it. *)
Definition repeating : list Z := [1; 2; 3; 4; 90; 91; 92; 93; 94] ++ replicate 8 0.

Lemma fresh_dict : Forall (is_u 32) (dict fresh).
Proof. apply Forall_replicate. unfold is_u. lia. Qed.

Lemma compress_writes_tokens_witness :
  exists c ts n, compress fresh header repeating 17 0 0 = Ok c /\ covers repeating (buffer fresh) header 0 ts n /\
    9 <= n <= 17 /\ parse (encode ts) = Some ts.
Proof.
  destruct (compress_writes_tokens fresh header repeating 0 0) as (c & ts & n & E & Hc & Hn & Hp & _).
  - vm_compute. done.
  - done.
  - done.
  - vm_compute. done.
  - vm_compute. done.
  - vm_compute. done.
  - exact fresh_dict.
  - exists c, ts, n. split; [exact E|]. split; [exact Hc|]. split; [exact Hn|exact Hp].
Defined.

(** The last eight bytes of the packet are lost. *)
Lemma compress_loses_tail :
  (fun c => zslice 16 (bufferOffset c - 16) (buffer c)) <$> compress fresh header packet 12 0 0
  = Ok [21; 22; 23; 0xfe; 0].
Proof. vm_compute. done. Qed.

(** Only four of the eight bytes of a reference are compared. *)
Lemma compress_compares_four :
  (fun c => parse (zslice 16 (bufferOffset c - 16) (buffer c)))
    <$> compress fresh header repeating 17 0 0
  = Ok (Some [Ref 8 16; Lit 94]).
Proof. vm_compute. done. Qed.

(** Fewer than eight bytes: the bound of the loop wraps around, and the packet
    is read behind its end. *)
Lemma compress_short_undefined : compress fresh header [1; 2; 3; 4; 5; 6; 7] 7 0 0 = Undef.
Proof. vm_compute. done. Qed.
End DemoCompressor.
