(* ===== verification/SkipCompressed.v ===== *)
(** * The compressed outputs of a skip list (dpdk_lib/skipListUnlock.hpp)

    Both outputs cut the keys into slices, of one byte or of four, and write a
    trie over them, one layer per slice: an entry of a layer is a slice and
    the number of the first entry below it in the next layer, or, with
    [OFFSET_BIT], the number of the value when there is only one key below.
    The two functions differ in the length of a slice only; here it is [w].
    [SkipTrie] and [SkipSearch] show that the layers lead every key to the
    number of its first value. *)
From stdpp Require Import sorting.
From Stdlib Require Import ZArith Lia.
From S2P Require Import Prelude Util BlockBuffer Reader SkipList SkipOutput Bloom.
#[local] Open Scope Z_scope.

Definition FILTER_K_LEN : Z := 3.
Definition OFFSET_BIT : Z := 0x80000000.

Section slices.
Context (w : Z).

(** [sizeof(PreIndex)], [sizeof(PreIndexInt)] *)
Definition entry_len : Z := w + 4.

Record Layers := mkLayers { layers : list (list Z); new_node_count : list Z }.

(** [layers[j].resize(layers[j].length() - entry_len)] for the deeper layers;
    a negative length is a huge one, which [resize] refuses. *)
Fixpoint drop_entries (s : Layers) (ids : list Z) : res Layers :=
  match ids with
  | [] => Ok s
  | j :: ids =>
      l ← zget (layers s) j;
      if zlen l <? entry_len then Throws else
      ls ← zset (layers s) j (take (Z.to_nat (zlen l - entry_len)) l);
      cs ← zset (new_node_count s) j 0;
      drop_entries (mkLayers ls cs) ids
  end.

(** The last entry of layer [i] gets the value of the only key below it, whose
    entries in the deeper layers are removed. *)
Definition collapse (s : Layers) (key_l i : Z) : res Layers :=
  deep ← zget (layers s) (key_l - 1);
  last ← load 4 deep (zlen deep - 4);
  l ← zget (layers s) i;
  l ← memcpy l (zlen l - 4) (le_bytes 4 (u32 (OFFSET_BIT + last))) 0 4;
  ls ← zset (layers s) i l;
  drop_entries (mkLayers ls (new_node_count s)) (Z.add (i + 1) <$> zseq (key_l - 1 - i)).

(** The test before an entry is added. *)
Definition close_entry (s : Layers) (key_l i : Z) : res Layers :=
  c ← zget (new_node_count s) i;
  if (c =? 1) && negb (i =? key_l - 1) then collapse s key_l i else Ok s.

Definition push_entry (s : Layers) (key_l i : Z) (pre : list Z) (value_offset valueLen : Z) : res Layers :=
  l ← zget (layers s) i;
  offset ←
    (if i =? key_l - 1 then if valueLen =? 0 then Undef else Ok (value_offset / valueLen)
     else below ← zget (layers s) (i + 1); Ok (u32 (zlen below / entry_len)));
  ls ← zset (layers s) i (l ++ pre ++ le_bytes 4 offset);
  cs ← zset (new_node_count s) i 1;
  Ok (mkLayers ls cs).

Definition add_entry (s : Layers) (key_l i : Z) (pre : list Z) (value_offset valueLen : Z) : res Layers :=
  s ← close_entry s key_l i;
  push_entry s key_l i pre value_offset valueLen.

(** One turn of the loop over the layers; the flag says that the key has left
    the path of the key before it. *)
Definition layer_step (key : list Z) (key_l value_offset valueLen : Z) (new_pre : bool) (s : Layers) (i : Z)
    : res (bool * Layers) :=
  pre ← zread key (w * (key_l - i - 1)) w;
  if new_pre then
    s ← add_entry s key_l i pre value_offset valueLen;
    Ok (true, s)
  else
    l ← zget (layers s) i;
    last_pre ← zread l (zlen l - entry_len) w;
    if bool_decide (last_pre = pre) then
      c ← zget (new_node_count s) i;
      cs ← zset (new_node_count s) i (u32 (c + 1));
      Ok (false, mkLayers (layers s) cs)
    else
      s ← add_entry s key_l i pre value_offset valueLen;
      Ok (true, s).

Fixpoint layer_loop (key : list Z) (key_l value_offset valueLen : Z) (new_pre : bool) (s : Layers) (ids : list Z)
    : res Layers :=
  match ids with
  | [] => Ok s
  | i :: ids =>
      '(new_pre, s) ← layer_step key key_l value_offset valueLen new_pre s i;
      layer_loop key key_l value_offset valueLen new_pre s ids
  end.

(** The loop after the last key: the first layer with one key is closed.  The
    counters, which [collapse] resets as in the loop above, are not used any
    more. *)
Fixpoint close_last (s : Layers) (key_l : Z) (ids : list Z) : res Layers :=
  match ids with
  | [] => Ok s
  | i :: ids =>
      c ← zget (new_node_count s) i;
      if (c =? 1) && negb (i =? key_l - 1) then collapse s key_l i else close_last s key_l ids
  end.

(** [std::hash] is a parameter. *)
Context (hasher : list Z -> Z).

Record Compressed := mkCompressed {
  c_layers : Layers;
  c_filter : BloomFilter;
  c_values : list Z;
  c_offset : Z;
  c_last : list Z;
  c_new : bool }.

(** The number of slices: [key.size()] for bytes, [keyLen / 4] otherwise. *)
Definition slices_in (kl : Z) : Z := if w =? 1 then kl else kl / w.

Definition key_step (s : SkipList) (st : Compressed) (key : list Z) : res Compressed :=
  if bool_decide (key = c_last st) then Ok st
  else
    f ← Bloom.insert hasher (c_filter st) key;
    let key_l := slices_in (if w =? 1 then zlen key else keyLen s) in
    l ← layer_loop key key_l (c_offset st) (valueLen s) (c_new st) (c_layers st) (zseq key_l);
    Ok (mkCompressed l f (c_values st) (c_offset st) key (c_new st)).

Definition node_step (s : SkipList) (st : Compressed) (node : Z) : res Compressed :=
  key ← getKey (keyLen s) (mem s) node;
  st ← key_step s st key;
  value ← getValue (keyLen s) (mem s) node;
  values ← memcpy (c_values st) (c_offset st) (le_bytes 8 value) 0 (valueLen s);
  Ok (mkCompressed (c_layers st) (c_filter st) values (u32 (c_offset st + valueLen s)) (c_last st) false).

Fixpoint compress_nodes (fuel : nat) (s : SkipList) (node : Z) (st : Compressed) : res Compressed :=
  match fuel with
  | O => Blocks
  | S fuel =>
      if node =? nullptr then Ok st else
      st ← node_step s st node;
      q ← getNext (keyLen s) (mem s) node 0;
      compress_nodes fuel s q st
  end.

Definition start_compressed (s : SkipList) : Compressed :=
  let key_l := slices_in (keyLen s) in
  mkCompressed (mkLayers (replicate (Z.to_nat key_l) []) (replicate (Z.to_nat key_l) 0))
    (new_BloomFilter (nodeNum s) FILTER_K_LEN)
    (replicate (Z.to_nat (u64 (nodeNum s * valueLen s))) 0) 0 [] true.

Definition output_bytes (s : SkipList) (st : Compressed) : list Z :=
  le_bytes 4 (nodeNum s) ++ bitArray (c_filter st)
  ++ concat ((fun l => le_bytes 4 (zlen l)) <$> layers (c_layers st))
  ++ concat (layers (c_layers st)) ++ c_values st.

Definition output_compressed (s : SkipList) : res (list Z) :=
  first ← getNext (keyLen s) (mem s) (head s) 0;
  st ← compress_nodes (enough (mem s)) s first (start_compressed s);
  let key_l := slices_in (keyLen s) in
  l ← close_last (c_layers st) key_l (zseq key_l);
  Ok (output_bytes s (mkCompressed l (c_filter st) (c_values st) (c_offset st) (c_last st) (c_new st))).
End slices.

Definition outputToCharCompressed (hasher : list Z -> Z) (s : SkipList) : res (list Z) :=
  output_compressed 1 hasher s.
Definition outputToCharCompressedInt (hasher : list Z -> Z) (s : SkipList) : res (list Z) :=
  output_compressed 4 hasher s.
