(* ===== verification/SkipTrie.v ===== *)
(** * The trie in the compressed outputs of a skip list

    [SkipCompressed] writes a trie key by key.  Here the layers are lists of
    entries, with an open path for the last key; the lemmas say that each key
    that was added is found, as long as equal slices come together. *)
From stdpp Require Import sorting.
From Stdlib Require Import ZArith Lia.
From S2P Require Import Prelude Util BlockBuffer Reader SkipList SkipOutput Bloom SkipCompressed.
#[local] Open Scope Z_scope.

(** ** Looking a key up *)

(** The first entry of a slice. *)
Fixpoint find_pre (es : list (list Z * Z)) (pre : list Z) : option Z :=
  match es with
  | [] => None
  | (p, o) :: es => if bool_decide (p = pre) then Some o else find_pre es pre
  end.

(** The number of the value of the key with the slices [xs]: in each layer the
    search starts at entry [start]. *)
Fixpoint look (ls : list (list (list Z * Z))) (xs : list (list Z)) (start : Z) : option Z :=
  match ls, xs with
  | es :: ls, x :: xs =>
      off ← find_pre (zdrop start es) x;
      if OFFSET_BIT <=? off then Some (off - OFFSET_BIT)
      else match ls with [] => Some off | _ => look ls xs off end
  | _, _ => None
  end.

(** ** Layers with an open path *)

(** A layer as its finished entries and the entry on the path of the last key,
    with the number of keys below it. *)
Record ALayer := mkALayer { cl : list (list Z * Z); op : option (list Z * Z); cnt : Z }.

Definition all_entries (a : ALayer) : list (list Z * Z) := cl a ++ option_list (op a).
Definition size (a : ALayer) : Z := zlen (all_entries a).

Lemma all_open a e : op a = Some e -> all_entries a = cl a ++ [e].
Proof. unfold all_entries. by intros ->. Qed.

Lemma all_shut a : op a = None -> all_entries a = cl a.
Proof. unfold all_entries. intros ->. apply app_nil_r. Qed.

Definition shut (a : ALayer) : ALayer := mkALayer (cl a) None 0.

(** Closing the open entry of a layer above the layers [ls]; [u] is the value
    of the last key. *)
Definition close1 (u : Z) (a : ALayer) (ls : list ALayer) : list (list Z * Z) * list ALayer :=
  match op a with
  | None => (cl a, ls)
  | Some (p, o) =>
      if (cnt a =? 1) && negb (bool_decide (zlen ls = 0)) then (cl a ++ [(p, OFFSET_BIT + u)], shut <$> ls)
      else (cl a ++ [(p, o)], ls)
  end.

(** A new path for the slices [xs] of a key with value [v]. *)
Fixpoint fresh (u : Z) (ls : list ALayer) (xs : list (list Z)) (v : Z) {struct xs} : list ALayer :=
  match ls, xs with
  | a :: ls, x :: xs =>
      let '(c, ls) := close1 u a ls in
      mkALayer c (Some (x, match ls with [] => v | b :: _ => size b end)) 1 :: fresh u ls xs v
  | _, _ => []
  end.

(** The key follows the open path as long as the slices agree. *)
Fixpoint follow (u : Z) (ls : list ALayer) (xs : list (list Z)) (v : Z) : list ALayer :=
  match ls, xs with
  | a :: ls, x :: xs =>
      if bool_decide (fst <$> op a = Some x) then mkALayer (cl a) (op a) (cnt a + 1) :: follow u ls xs v
      else fresh u (a :: ls) (x :: xs) v
  | _, _ => []
  end.

(** After the last key: the first layer with one key is closed. *)
Fixpoint finish (u : Z) (ls : list ALayer) : list (list (list Z * Z)) :=
  match ls with
  | [] => []
  | a :: ls =>
      if (cnt a =? 1) && negb (bool_decide (zlen ls = 0))
      then let '(c, ls) := close1 u a ls in c :: (all_entries <$> ls)
      else all_entries a :: finish u ls
  end.

(** ** What the layers hold *)

(** The rests of the keys that begin with [x]. *)
Definition tails (x : list Z) (ks : list (list (list Z) * Z)) : list (list (list Z) * Z) :=
  omap (fun k => match k with (y :: ys, v) => if bool_decide (y = x) then Some (ys, v) else None | _ => None end) ks.

Fixpoint trie_ok (start : Z) (ls : list ALayer) (ks : list (list (list Z) * Z)) : Prop :=
  match ls with
  | [] => exists v, ks = [([], v)]
  | a :: ls' => exists x o, op a = Some (x, o) /\ 0 <= start <= zlen (cl a) /\
      cnt a = zlen (tails x ks) /\
      (forall e, e ∈ zdrop start (cl a) -> e.1 <> x /\ exists k v, (e.1 :: k, v) ∈ ks) /\
      (forall y k v, (y :: k, v) ∈ ks -> y <> x -> look (cl <$> ls) (y :: k) start = Some v) /\
      match ls' with
      | [] => tails x ks = [([], o)]
      | _ => trie_ok o ls' (tails x ks)
      end /\ 0 <= o < OFFSET_BIT
  end.

Lemma elem_of_tails x ks k v : (k, v) ∈ tails x ks <-> (x :: k, v) ∈ ks.
Proof.
  unfold tails. rewrite list_elem_of_omap. split.
  - intros ([[|y ys] v'] & Hin & E); [done|]. case_bool_decide; [|done]. by simplify_eq.
  - intros H. exists (x :: k, v). split; [done|]. by rewrite bool_decide_true.
Qed.

Lemma tails_app x ks ks' : tails x (ks ++ ks') = tails x ks ++ tails x ks'.
Proof. apply omap_app. Qed.

Lemma tails_one x y k v : tails x [(y :: k, v)] = if bool_decide (y = x) then [(k, v)] else [].
Proof. unfold tails. cbn. by case_bool_decide. Qed.

(** The open path and its value. *)
Definition open_path (ls : list ALayer) : list (list Z) := omap (fun a => fst <$> op a) ls.
Fixpoint open_value (ls : list ALayer) : option Z :=
  match ls with [] => None | [a] => snd <$> op a | _ :: ls => open_value ls end.

Lemma open_value_cons a ls : ls <> [] -> open_value (a :: ls) = open_value ls.
Proof. by destruct ls. Qed.

Lemma open_key ls : forall start ks, ls <> [] -> trie_ok start ls ks ->
  exists v, open_value ls = Some v /\ (open_path ls, v) ∈ ks /\ 0 <= v < OFFSET_BIT.
Proof.
  induction ls as [|a ls IH]; intros start ks Hls; [done|]. cbn [trie_ok].
  intros (x & o & Eo & _ & _ & _ & _ & Hrest & Ho). unfold open_path. cbn [omap list_omap]. rewrite Eo. cbn [fmap option_fmap option_map fst].
  destruct ls as [|b ls].
  - exists o. cbn. rewrite Eo. split; [done|]. split; [|done]. apply elem_of_tails. rewrite Hrest. left.
  - destruct (IH o (tails x ks)) as (v & Ev & Hin & Hv); [done|done|]. exists v. rewrite open_value_cons by done.
    split; [done|]. split; [|done]. by apply elem_of_tails.
Qed.

(** ** Lookups in growing layers *)
Definition extends (es es' : list (list Z * Z)) : Prop := exists k, es' = es ++ k.

Lemma find_pre_app es k x o : find_pre es x = Some o -> find_pre (es ++ k) x = Some o.
Proof. induction es as [|[p o'] es IH]; [done|]. cbn. by case_bool_decide. Qed.

Lemma find_pre_new es k x : x ∉ es.*1 -> find_pre (es ++ k) x = find_pre k x.
Proof.
  induction es as [|[p o'] es IH]; intros Hx; [done|]. cbn in *. apply not_elem_of_cons in Hx as [Hx Hx'].
  rewrite bool_decide_false by congruence. by apply IH.
Qed.

Lemma find_pre_lt es x o : find_pre es x = Some o -> es <> [].
Proof. by destruct es. Qed.

Lemma zdrop_app_le {A} n (l k : list A) : 0 <= n <= zlen l -> zdrop n (l ++ k) = zdrop n l ++ k.
Proof. intros H. unfold zdrop, zlen in *. apply drop_app_le. lia. Qed.

Lemma zdrop_found es x o start : find_pre (zdrop start es) x = Some o -> start <= 0 \/ start <= zlen es.
Proof.
  intros H%find_pre_lt. unfold zdrop in H. right. destruct (decide (start <= zlen es)); [done|].
  rewrite drop_ge in H by (unfold zlen in *; lia). done.
Qed.

Lemma look_extends ls ls' : Forall2 extends ls ls' -> forall xs start v,
  look ls xs start = Some v -> look ls' xs start = Some v.
Proof.
  induction 1 as [|es es' ls ls' [k ->] Hls IH]; intros xs start v; [done|]. cbn [look].
  destruct xs as [|x xs]; [done|].
  destruct (find_pre (zdrop start es) x) as [o|] eqn:Ef; [|done].
  assert (Ef' : find_pre (zdrop start (es ++ k)) x = Some o).
  { destruct (zdrop_found _ _ _ _ Ef).
    - unfold zdrop in *. replace (Z.to_nat start) with O in * by lia. rewrite drop_0 in *. by apply find_pre_app.
    - unfold zdrop in *. rewrite drop_app_le by (unfold zlen in *; lia). by apply find_pre_app. }
  rewrite Ef'. cbn [mbind option_bind]. destruct (OFFSET_BIT <=? o); [done|].
  destruct Hls as [|es2 es2' ls ls' E2 Hls]; [done|]. apply IH.
Qed.

(** *** The finished entries only grow *)
Lemma close1_extends u a ls : extends (cl a) (close1 u a ls).1 /\ cl <$> (close1 u a ls).2 = cl <$> ls.
Proof.
  unfold close1. destruct (op a) as [[p o]|]; [|split; [exists []; by rewrite app_nil_r|done]].
  case_match; cbn [fst snd]; (split; [by eexists|]); [|done].
  rewrite <-list_fmap_compose. done.
Qed.

Lemma close1_length u a ls : length (close1 u a ls).2 = length ls.
Proof. rewrite <-!(length_fmap cl). by rewrite (proj2 (close1_extends u a ls)). Qed.

Lemma fresh_extends xs : forall u ls v, length xs = length ls -> Forall2 extends (cl <$> ls) (cl <$> fresh u ls xs v).
Proof.
  induction xs as [|x xs IH]; intros u [|a ls] v Hl; try done. cbn [fresh].
  pose proof (close1_extends u a ls) as [He Hc]. pose proof (close1_length u a ls) as Hcl.
  destruct (close1 u a ls) as [c ls2]. cbn [fst snd] in *. cbn [fmap list_fmap cl]. constructor; [done|].
  change (list_fmap _ _ cl ls) with (cl <$> ls). rewrite <-Hc. apply IH. cbn in Hl. lia.
Qed.

Lemma follow_extends ls : forall u xs v, length xs = length ls -> Forall2 extends (cl <$> ls) (cl <$> follow u ls xs v).
Proof.
  induction ls as [|a ls IH]; intros u [|x xs] v Hl; try done. cbn [follow]. case_bool_decide.
  - cbn [fmap list_fmap cl]. constructor; [exists []; by rewrite app_nil_r|]. apply IH. cbn in Hl. lia.
  - by apply fresh_extends.
Qed.

Lemma finish_extends u ls : Forall2 extends (cl <$> ls) (finish u ls).
Proof.
  induction ls as [|a ls IH]; [constructor|]. cbn [finish]. case_match.
  - pose proof (close1_extends u a ls) as [He Hc]. destruct (close1 u a ls) as [c ls2]. cbn [fst snd] in *.
    cbn [fmap list_fmap]. constructor; [done|]. change (list_fmap _ _ cl ls) with (cl <$> ls). rewrite <-Hc.
    clear. induction ls2 as [|b ls2 IH]; [constructor|]. constructor; [by eexists|done].
  - cbn [fmap list_fmap]. constructor; [by eexists|done].
Qed.

(** *** Closing an entry keeps the keys below it *)
Definition lens (n : nat) (ks : list (list (list Z) * Z)) : Prop := forall k v, (k, v) ∈ ks -> length k = n.

Lemma lens_tails n x ks : lens (S n) ks -> lens n (tails x ks).
Proof. intros H k v Hin%elem_of_tails. specialize (H _ _ Hin). cbn in H. lia. Qed.

Lemma find_pre_last cl0 start x off :
  0 <= start <= zlen cl0 -> (forall e, e ∈ zdrop start cl0 -> e.1 <> x) ->
  find_pre (zdrop start (cl0 ++ [(x, off)])) x = Some off.
Proof.
  intros Hs Hx. rewrite zdrop_app_le by done. rewrite find_pre_new.
  - cbn. by rewrite bool_decide_true.
  - intros (e & -> & He)%list_elem_of_fmap. by apply (Hx e).
Qed.

Lemma closed_look start a ls ks u rest :
  trie_ok start (a :: ls) ks -> lens (S (length ls)) ks -> open_value (a :: ls) = Some u ->
  Forall2 extends (cl <$> ls) rest ->
  (ls <> [] -> cnt a <> 1 -> forall x o k v, op a = Some (x, o) -> (k, v) ∈ tails x ks -> look rest k o = Some v) ->
  forall k v, (k, v) ∈ ks -> look ((close1 u a ls).1 :: rest) k start = Some v.
Proof.
  intros Hok Hlens Hu Hext Hrest k v Hin. pose proof (open_key (a :: ls) start ks ltac:(done) Hok) as (u' & Eu & Huin & Hub).
  assert (u' = u) as -> by congruence. pose proof Hok as (x & o & Eo & Hs & Hcnt & Hdrop & Hother & Hsub & Ho).
  pose proof (close1_extends u a ls) as [He _].
  pose proof (Hlens k v Hin) as Hk. destruct k as [|y k]; [done|].
  destruct (decide (y = x)) as [->|Hne].
  2:{ apply (look_extends (cl <$> a :: ls)); [by constructor|]. by apply Hother. }
  apply elem_of_tails in Hin as Ht. cbn [look]. unfold close1 in *. rewrite Eo in *.
  unfold open_path in Huin. cbn [omap list_omap] in Huin. rewrite Eo in Huin. cbn [fmap option_fmap option_map fst] in Huin.
  apply elem_of_tails in Huin.
  destruct (Z.eqb_spec (cnt a) 1) as [E1|E1]; cbn [andb].
  - destruct (bool_decide_reflect (zlen ls = 0)) as [El|El]; cbn [negb fst].
    + rewrite find_pre_last by (done || (intros e He'; by apply Hdrop)). cbn [mbind option_bind].
      replace (OFFSET_BIT <=? o) with false by (symmetry; apply Z.leb_gt; lia).
      destruct ls; [|unfold zlen in El; cbn in El; lia]. inversion Hext; subst. rewrite Hsub in Ht.
      apply list_elem_of_singleton in Ht. congruence.
    + rewrite find_pre_last by (done || (intros e He'; by apply Hdrop)). cbn [mbind option_bind].
      replace (OFFSET_BIT <=? OFFSET_BIT + u) with true by (symmetry; apply Z.leb_le; lia).
      rewrite E1 in Hcnt. destruct (tails x ks) as [|t [|]]; [done| |unfold zlen in Hcnt; cbn in Hcnt; lia].
      apply list_elem_of_singleton in Ht. apply list_elem_of_singleton in Huin. f_equal. replace v with u by congruence. lia.
  - cbn [fst]. rewrite find_pre_last by (done || (intros e He'; by apply Hdrop)). cbn [mbind option_bind].
    replace (OFFSET_BIT <=? o) with false by (symmetry; apply Z.leb_gt; lia).
    destruct ls as [|b ls].
    + inversion Hext; subst. rewrite Hsub in Ht. apply list_elem_of_singleton in Ht. congruence.
    + destruct rest as [|r rest]; [by inversion Hext|]. by apply (Hrest ltac:(done) E1 x o).
Qed.

Lemma fresh_closes ls : forall start ks u xs v,
  trie_ok start ls ks -> ls <> [] -> lens (length ls) ks -> open_value ls = Some u -> length xs = length ls ->
  forall k v', (k, v') ∈ ks -> look (cl <$> fresh u ls xs v) k start = Some v'.
Proof.
  induction ls as [|a ls IH]; intros start ks u xs v Hok Hne Hlens Hu Hxs; [done|].
  destruct xs as [|x xs]; [done|]. cbn [fresh]. pose proof (close1_extends u a ls) as [_ Hc].
  pose proof (close1_length u a ls) as Hl2. destruct (close1 u a ls) as [c ls2] eqn:Ec. cbn [fst snd] in *.
  cbn [fmap list_fmap cl]. replace c with (close1 u a ls).1 by (by rewrite Ec).
  apply (closed_look start a ls ks u); try done.
  - rewrite <-Hc. apply fresh_extends. cbn in Hxs. lia.
  - intros Hls Hcnt x0 o k v' Eo Hin. unfold close1 in Ec. rewrite Eo in Ec.
    replace (cnt a =? 1) with false in Ec by (symmetry; by apply Z.eqb_neq). cbn [andb] in Ec. injection Ec as _ <-.
    pose proof Hok as (x1 & o1 & Eo1 & _ & _ & _ & _ & Hsub & _). rewrite Eo in Eo1. injection Eo1 as <- <-.
    destruct ls as [|b ls]; [done|]. apply (IH o (tails x0 ks)); try done.
    + by apply lens_tails.
    + cbn in Hxs |- *. lia.
Qed.

Lemma finish_look ls : forall start ks u,
  trie_ok start ls ks -> ls <> [] -> lens (length ls) ks -> open_value ls = Some u ->
  forall k v, (k, v) ∈ ks -> look (finish u ls) k start = Some v.
Proof.
  induction ls as [|a ls IH]; intros start ks u Hok Hne Hlens Hu; [done|]. cbn [finish].
  assert (Hrest : ls <> [] -> forall x o k v, op a = Some (x, o) -> (k, v) ∈ tails x ks -> look (finish u ls) k o = Some v).
  { intros Hls x0 o k v Eo. pose proof Hok as (x1 & o1 & Eo1 & _ & _ & _ & _ & Hsub & _).
    rewrite Eo in Eo1. injection Eo1 as <- <-. destruct ls as [|b ls]; [done|]. apply (IH o (tails x0 ks)); try done.
    by apply lens_tails. }
  destruct ((cnt a =? 1) && negb (bool_decide (zlen ls = 0))) eqn:Ecase.
  - pose proof (finish_extends u (a :: ls)) as Hext. cbn [finish] in Hext. rewrite Ecase in Hext.
    destruct (close1 u a ls) as [c ls2] eqn:Ec. replace c with (close1 u a ls).1 by (by rewrite Ec).
    apply (closed_look start a ls ks u); try done; [by inversion Hext|]. intros _ Hcnt.
    apply andb_true_iff in Ecase as [Ecase _]. apply Z.eqb_eq in Ecase. done.
  - replace (all_entries a) with (close1 u a ls).1.
    + apply (closed_look start a ls ks u); try done; [apply finish_extends|]. intros Hls _. by apply Hrest.
    + pose proof Hok as (x & o & Eo & _). unfold close1, all_entries. by rewrite Eo, Ecase.
Qed.

(** *** The new path *)
Lemma close1_size u a ls : zlen (close1 u a ls).1 = size a.
Proof.
  unfold close1, size, all_entries. destruct (op a) as [[p o]|]; [|by rewrite app_nil_r].
  case_match; cbn [fst option_list]; by rewrite !zlen_app.
Qed.

Definition small (ls : list ALayer) : Prop := Forall (fun a => size a < OFFSET_BIT) ls.

Lemma close1_small u a ls : small ls -> small (close1 u a ls).2.
Proof.
  intros H. unfold close1. destruct (op a) as [[p o]|]; [|done]. case_match; [|done]. cbn [snd].
  apply Forall_fmap. eapply Forall_impl; [exact H|]. intros b Hb. unfold size, all_entries in *. cbn [compose shut op cl option_list].
  rewrite app_nil_r. rewrite zlen_app in Hb. pose proof (zlen_nonneg (option_list (op b))). lia.
Qed.

Lemma fresh_path xs : forall u a ls x v, length xs = length ls -> small ls -> 0 <= v < OFFSET_BIT ->
  trie_ok (size a) (fresh u (a :: ls) (x :: xs) v) [(x :: xs, v)].
Proof.
  induction xs as [|x' xs IH]; intros u a ls x v Hl Hs Hv; cbn [fresh];
    pose proof (close1_size u a ls) as Hsz; pose proof (close1_length u a ls) as Hl2;
    pose proof (close1_small u a ls Hs) as Hs2; destruct (close1 u a ls) as [c ls2]; cbn [fst snd] in *;
    (destruct ls2 as [|b ls2]; [|try (cbn in Hl, Hl2; lia)]; [try (cbn in Hl, Hl2; lia)|..]).
  all: cbn [trie_ok op cl cnt]; eexists _, _; (split; [done|]); (split; [rewrite Hsz; split; [apply zlen_nonneg|lia]|]);
    rewrite tails_one, bool_decide_true by done; (split; [done|]); split.
  1, 3: intros e He; unfold zdrop in He; rewrite drop_ge in He by (unfold zlen in *; lia); by apply elem_of_nil in He.
  - split; [|by destruct ls]. intros y k v' Hin. apply list_elem_of_singleton in Hin. naive_solver.
  - apply Forall_cons in Hs2 as [Hb Hs2]. split.
    + intros y k v' Hin. apply list_elem_of_singleton in Hin. naive_solver.
    + split; [|split; [apply zlen_nonneg|done]].
      pose proof (IH u b ls2 x' v ltac:(cbn in Hl, Hl2; lia) Hs2 Hv) as H. cbn [fresh] in H |- *.
      by destruct (close1 u b ls2).
Qed.

(** *** A key is added *)
Lemma close1_entries u a ls x o : op a = Some (x, o) -> exists off, (close1 u a ls).1 = cl a ++ [(x, off)].
Proof. intros Eo. unfold close1. rewrite Eo. case_match; by eexists. Qed.

(** The key leaves the open path here. *)
Lemma fresh_ok start a ls ks u x xs v :
  trie_ok start (a :: ls) ks -> lens (S (length ls)) ks -> open_value (a :: ls) = Some u ->
  length xs = length ls -> small ls -> 0 <= v < OFFSET_BIT -> (forall k v', (x :: k, v') ∉ ks) ->
  trie_ok start (fresh u (a :: ls) (x :: xs) v) (ks ++ [(x :: xs, v)]).
Proof.
  intros Hok Hlens Hu Hl Hs Hv Hx.
  pose proof (fresh_closes (a :: ls) start ks u (x :: xs) v Hok ltac:(done) Hlens Hu ltac:(cbn; lia)) as Hold.
  pose proof (fresh_path xs u a ls x v Hl Hs Hv) as Hnew.
  pose proof (open_key (a :: ls) start ks ltac:(done) Hok) as (u' & _ & Hopen & _).
  pose proof Hok as (x0 & o & Eo & Hstart & _ & Hdrop & _).
  unfold open_path in Hopen. cbn [omap list_omap] in Hopen. rewrite Eo in Hopen. cbn in Hopen.
  assert (Hxx : x0 <> x) by (intros ->; by eapply Hx).
  destruct (close1_entries u a ls x0 o Eo) as [off Ec].
  assert (Ht : tails x ks = []).
  { destruct (tails x ks) as [|[k v'] t] eqn:E; [done|]. exfalso. apply (Hx k v'), elem_of_tails. rewrite E. left. }
  cbn [fresh] in *. destruct (close1 u a ls) as [c ls2]. cbn [fst] in Ec. subst c.
  destruct Hnew as (x1 & o1 & [= <- <-] & _ & _ & _ & _ & Hsub & Ho1).
  eexists _, _. split; [done|]. cbn [cl cnt]. rewrite tails_app, Ht, tails_one, bool_decide_true by done.
  rewrite tails_one, bool_decide_true in Hsub by done. cbn [app].
  split; [rewrite zlen_app; pose proof (zlen_nonneg [(x0, off)]); lia|]. split; [done|]. split.
  - intros e He. rewrite zdrop_app_le in He by done. apply elem_of_app in He as [He|He].
    + destruct (Hdrop e He) as (_ & k & v' & Hin). split; [intros E; subst x; by eapply Hx|].
      exists k, v'. apply elem_of_app. by left.
    + apply list_elem_of_singleton in He as ->. cbn. split; [done|]. eexists _, _. apply elem_of_app. by left.
  - split; [|by split]. intros y k v' Hin Hy. apply elem_of_app in Hin as [Hin|Hin].
    + by apply Hold.
    + apply list_elem_of_singleton in Hin. naive_solver.
Qed.

(** Equal beginnings come together: a key that begins as the new one has the
    open path begin so as well. *)
Definition together (ks : list (list (list Z) * Z)) (path xs : list (list Z)) : Prop :=
  forall n k v, (k, v) ∈ ks -> take n k = take n xs -> take n path = take n xs.

Lemma together_tails x ks path xs :
  together ks (x :: path) (x :: xs) -> together (tails x ks) path xs.
Proof.
  intros H n k v Hin%elem_of_tails Ht. specialize (H (S n) _ _ Hin). cbn in H.
  rewrite Ht in H. by specialize (H eq_refl) as [= H].
Qed.

Lemma follow_ok ls : forall start ks u xs v,
  trie_ok start ls ks -> ls <> [] -> lens (length ls) ks -> open_value ls = Some u ->
  length xs = length ls -> small ls -> 0 <= v < OFFSET_BIT ->
  together ks (open_path ls) xs -> (forall v', (xs, v') ∉ ks) ->
  trie_ok start (follow u ls xs v) (ks ++ [(xs, v)]).
Proof.
  induction ls as [|a ls IH]; intros start ks u xs v Hok Hne Hlens Hu Hl Hs Hv Htog Hnew; [done|].
  destruct xs as [|x xs]; [done|]. pose proof Hok as (x0 & o & Eo & Hstart & Hcnt & Hdrop & Hother & Hsub & Ho).
  apply Forall_cons in Hs as [_ Hs]. assert (Hl' : length xs = length ls) by (cbn in Hl; lia).
  unfold open_path in Htog. cbn [omap list_omap] in Htog. rewrite Eo in Htog.
  change (omap _ ls) with (open_path ls) in Htog. cbn [fmap option_fmap option_map fst] in Htog.
  cbn [follow]. rewrite Eo. cbn [fmap option_fmap option_map fst]. case_bool_decide as Hx.
  - injection Hx as ->. apply together_tails in Htog.
    assert (Hnew' : forall v', (xs, v') ∉ tails x ks) by (intros v' Hin%elem_of_tails; by eapply Hnew).
    pose proof (follow_extends ls u xs v Hl') as Hext.
    eexists _, _. split; [done|]. cbn [cl cnt]. rewrite tails_app, tails_one, bool_decide_true by done.
    split; [done|]. split; [rewrite zlen_app, Hcnt; done|]. split; [|split; [|split]].
    + intros e He. destruct (Hdrop e He) as (? & k & v' & Hin). split; [done|]. exists k, v'. apply elem_of_app. by left.
    + intros y k v' Hin Hy. apply elem_of_app in Hin as [Hin|Hin]; [|apply list_elem_of_singleton in Hin; naive_solver].
      apply (look_extends (cl <$> a :: ls)); [|by apply Hother]. cbn [fmap list_fmap].
      constructor; [exists []; by rewrite app_nil_r|done].
    + destruct ls as [|b ls].
      * exfalso. destruct xs; [|done]. apply (Hnew' o). rewrite Hsub. left.
      * destruct xs as [|x' xs]; [done|].
        assert (Hf : trie_ok o (follow u (b :: ls) (x' :: xs) v) (tails x ks ++ [(x' :: xs, v)])).
        { apply IH; try done. by apply lens_tails. }
        destruct (follow u (b :: ls) (x' :: xs) v) eqn:Ef; [|done]. cbn [follow fresh] in Ef.
        case_bool_decide; [done|]. by destruct (close1 u b ls).
    + done.
  - apply fresh_ok; try done. intros k v' Hin. apply Hx. f_equal.
    specialize (Htog 1%nat _ _ Hin eq_refl). cbn in Htog. congruence.
Qed.

(** The value and the path that are open afterwards. *)
Lemma fresh_open xs : forall u ls v, length xs = length ls -> xs <> [] ->
  open_path (fresh u ls xs v) = xs /\ open_value (fresh u ls xs v) = Some v.
Proof.
  induction xs as [|x xs IH]; intros u [|a ls] v Hl Hne; try done. cbn [fresh].
  pose proof (close1_length u a ls) as Hl2. destruct (close1 u a ls) as [c ls2]. cbn [snd] in Hl2.
  unfold open_path in *. cbn [omap list_omap op fmap option_fmap option_map fst].
  destruct xs as [|x' xs].
  - destruct ls2; [done|]. cbn in Hl, Hl2. lia.
  - destruct (IH u ls2 v) as [E1 E2]; [cbn in Hl |- *; lia|done|]. rewrite E1. split; [done|].
    rewrite open_value_cons; [done|]. intros E. rewrite E in E2. done.
Qed.

Lemma follow_open ls : forall u xs v, length xs = length ls -> ls <> [] -> open_path ls <> xs -> length (open_path ls) = length ls ->
  open_path (follow u ls xs v) = xs /\ open_value (follow u ls xs v) = Some v.
Proof.
  induction ls as [|a ls IH]; intros u [|x xs] v Hl Hne Hp Hlp; try done. cbn [follow]. case_bool_decide as Hx.
  2:{ apply fresh_open; [done|done]. }
  destruct (op a) as [[x' o]|] eqn:Eo; [|done]. injection Hx as ->.
  unfold open_path in *. cbn [omap list_omap op] in *. rewrite Eo in *. cbn [fmap option_fmap option_map fst length] in *.
  destruct ls as [|b ls]; [destruct xs; [done|cbn in Hl; lia]|].
  destruct (IH u xs v) as [E1 E2]; [cbn in *; lia|done|congruence|cbn in *; lia|]. rewrite E1. split; [done|].
  rewrite open_value_cons; [done|]. intros E. by rewrite E in E2.
Qed.

(** No layer grows by more than one entry. *)
Lemma close1_sizes u a ls k : Forall (fun b => size b <= k) ls -> Forall (fun b => size b <= k) (close1 u a ls).2.
Proof.
  intros H. unfold close1. destruct (op a) as [[p o]|]; [|done]. case_match; [|done]. cbn [snd].
  apply Forall_fmap. eapply Forall_impl; [exact H|]. intros b Hb. unfold size, all_entries in *. cbn [compose shut op cl option_list].
  rewrite app_nil_r. rewrite zlen_app in Hb. pose proof (zlen_nonneg (option_list (op b))). lia.
Qed.

Lemma size_open c e n : size (mkALayer c (Some e) n) = zlen c + 1.
Proof. unfold size, all_entries. cbn [cl op option_list]. by rewrite zlen_app. Qed.

Lemma fresh_sizes xs : forall u ls v k, Forall (fun a => size a <= k) ls -> Forall (fun a => size a <= k + 1) (fresh u ls xs v).
Proof.
  induction xs as [|x xs IH]; intros u [|a ls] v k H; try (by constructor). cbn [fresh].
  apply Forall_cons in H as [Ha H]. pose proof (close1_size u a ls) as Hc. pose proof (close1_sizes u a ls k H) as Hs.
  destruct (close1 u a ls) as [c ls2]. cbn [fst snd] in *. constructor; [|by apply IH].
  rewrite size_open. lia.
Qed.

Lemma follow_sizes ls : forall u xs v k, Forall (fun a => size a <= k) ls -> Forall (fun a => size a <= k + 1) (follow u ls xs v).
Proof.
  induction ls as [|a ls IH]; intros u [|x xs] v k H; try (by constructor). cbn [follow]. case_bool_decide.
  - apply Forall_cons in H as [Ha H]. constructor; [|by apply IH]. unfold size, all_entries in *. cbn [cl op]. lia.
  - by apply fresh_sizes.
Qed.

Definition counts (k : Z) (ls : list ALayer) : Prop := Forall (fun a => 0 <= cnt a <= k) ls.

Lemma close1_counts u a ls k : 0 <= k -> counts k ls -> counts k (close1 u a ls).2.
Proof.
  intros Hk H. unfold close1. destruct (op a) as [[p o]|]; [|done]. case_match; [|done]. cbn [snd].
  apply Forall_fmap, Forall_true. intros b. cbn. lia.
Qed.

Lemma fresh_counts xs : forall u ls v k, 0 <= k -> counts k ls -> counts (k + 1) (fresh u ls xs v).
Proof.
  induction xs as [|x xs IH]; intros u [|a ls] v k Hk H; try (by constructor). cbn [fresh].
  apply Forall_cons in H as [Ha H]. pose proof (close1_counts u a ls k Hk H) as Hs.
  destruct (close1 u a ls) as [c ls2]. cbn [fst snd] in *. constructor; [cbn; lia|by apply IH].
Qed.

Lemma follow_counts ls : forall u xs v k, 0 <= k -> counts k ls -> counts (k + 1) (follow u ls xs v).
Proof.
  induction ls as [|a ls IH]; intros u [|x xs] v k Hk H; try (by constructor). cbn [follow]. case_bool_decide.
  - apply Forall_cons in H as [Ha H]. constructor; [cbn; lia|by apply IH].
  - by apply fresh_counts.
Qed.

Lemma fresh_length xs : forall u ls v, length xs = length ls -> length (fresh u ls xs v) = length ls.
Proof.
  intros u ls v Hl. pose proof (fresh_extends xs u ls v Hl) as H. apply Forall2_length in H. by rewrite !length_fmap in H.
Qed.

Lemma follow_length ls u xs v : length xs = length ls -> length (follow u ls xs v) = length ls.
Proof.
  intros Hl. pose proof (follow_extends ls u xs v Hl) as H. apply Forall2_length in H. by rewrite !length_fmap in H.
Qed.

(** ** The strings of the layers *)
Section strings.
Context (w : Z) (Hw : 0 < w <= 4).

Definition enc (a : ALayer) : list Z := flat 4 (all_entries a).
Definition state_of (ls : list ALayer) : Layers := mkLayers (enc <$> ls) (cnt <$> ls).

Definition entry_good (e : list Z * Z) : Prop := zlen e.1 = w /\ 0 <= e.2 < 2 ^ 32.
Definition good_layer (a : ALayer) : Prop := Forall entry_good (all_entries a).

Lemma flat_app (es es' : list (list Z * Z)) : flat 4 (es ++ es') = flat 4 es ++ flat 4 es'.
Proof. unfold flat. by rewrite fmap_app, concat_app. Qed.

Lemma cut_4 v : cut 4 v = le_bytes 4 v.
Proof. exact (take_le_bytes 4 8 v ltac:(lia)). Qed.

Lemma flat_one p o : flat 4 [(p, o)] = p ++ le_bytes 4 o.
Proof. unfold flat. cbn [fmap list_fmap concat fst snd]. by rewrite cut_4, app_nil_r. Qed.

Lemma zlen_flat_good es : Forall entry_good es -> zlen (flat 4 es) = zlen es * entry_len w.
Proof.
  intros H. rewrite (zlen_flat w); [done|lia|]. eapply Forall_impl; [exact H|]. by intros ? [? _].
Qed.

(** The layers [done] and the layers from the current one on. *)
Lemma zget_mid {A B} (f : A -> B) done a ls i : i = zlen done -> zget (f <$> done ++ a :: ls) i = Ok (f a).
Proof.
  intros ->. pose proof (zlen_nonneg done). apply zget_Ok. split; [done|]. unfold zlen. rewrite Nat2Z.id, list_lookup_fmap.
  by rewrite list_lookup_middle.
Qed.

Lemma zset_app {B} (l k : list B) x y i : i = zlen l -> zset (l ++ x :: k) i y = Ok (l ++ y :: k).
Proof.
  intros ->. pose proof (zlen_nonneg l). rewrite zset_Ok by (rewrite zlen_app, zlen_cons; pose proof (zlen_nonneg k); lia).
  f_equal. unfold zlen. rewrite Nat2Z.id. by rewrite insert_app_r_alt, Nat.sub_diag by lia.
Qed.

Lemma zget_app_mid {B} (l k : list B) x i : i = zlen l -> zget (l ++ x :: k) i = Ok x.
Proof.
  intros ->. apply zget_Ok. split; [apply zlen_nonneg|]. unfold zlen. rewrite Nat2Z.id. by apply list_lookup_middle.
Qed.

Lemma ids_cons o n : 0 < n -> Z.add o <$> zseq n = o :: (Z.add (o + 1) <$> zseq (n - 1)).
Proof.
  intros Hn. rewrite zseq_head by done. cbn [fmap list_fmap]. rewrite Z.add_0_r. f_equal.
  change (list_fmap _ _ (Z.add o) ?l) with (Z.add o <$> l). rewrite <-list_fmap_compose. apply list_fmap_ext.
  intros j x _. cbn. lia.
Qed.

(** The entries of the path in the deeper layers are removed. *)
Lemma drop_entries_ok ls : forall L C, zlen C = zlen L -> Forall good_layer ls -> Forall (fun a => is_Some (op a)) ls ->
  drop_entries w (mkLayers (L ++ (enc <$> ls)) (C ++ (cnt <$> ls))) (Z.add (zlen L) <$> zseq (zlen ls))
  = Ok (mkLayers (L ++ (enc <$> (shut <$> ls))) (C ++ (cnt <$> (shut <$> ls)))).
Proof.
  induction ls as [|a ls IH]; intros L C HC Hg Ho; [done|].
  apply Forall_cons in Hg as [Ha Hg]. apply Forall_cons in Ho as [[[p o] Eo] Ho].
  rewrite zlen_cons. pose proof (zlen_nonneg ls). rewrite ids_cons by lia. replace (1 + zlen ls - 1) with (zlen ls) by lia.
  cbn [drop_entries layers new_node_count]. rewrite !fmap_cons. rewrite zget_app_mid by done. cbn [mbind res_bind].
  unfold good_layer in Ha. rewrite (all_open _ _ Eo) in Ha.
  pose proof (zlen_flat_good _ Ha) as Hz. apply Forall_app in Ha as [Hcl [[Hp _] _]%Forall_cons]. cbn [fst] in Hp.
  assert (Eenc : enc a = flat 4 (cl a) ++ p ++ le_bytes 4 o).
  { unfold enc. by rewrite (all_open _ _ Eo), flat_app, flat_one. }
  assert (Htail : zlen (p ++ le_bytes 4 o) = entry_len w) by (rewrite zlen_app, zlen_le_bytes; unfold entry_len; lia).
  assert (El : zlen (enc a) = zlen (flat 4 (cl a)) + entry_len w) by (rewrite Eenc, zlen_app, Htail; done).
  pose proof (zlen_nonneg (flat 4 (cl a))).
  replace (zlen (enc a) <? entry_len w) with false by (symmetry; apply Z.ltb_ge; lia).
  rewrite zset_app by done. cbn [mbind res_bind]. rewrite zset_app by done. cbn [mbind res_bind].
  replace (take (Z.to_nat (zlen (enc a) - entry_len w)) (enc a)) with (enc (shut a)).
  2:{ replace (zlen (enc a) - entry_len w) with (zlen (flat 4 (cl a))) by lia. rewrite Eenc. unfold zlen.
      rewrite Nat2Z.id, take_app_length. unfold enc. by rewrite all_shut. }
  change (0 :: (cnt <$> ls)) with ([cnt (shut a)] ++ (cnt <$> ls)).
  change (enc (shut a) :: (enc <$> ls)) with ([enc (shut a)] ++ (enc <$> ls)). rewrite !app_assoc.
  specialize (IH (L ++ [enc (shut a)]) (C ++ [cnt (shut a)])). rewrite !zlen_app in IH. change (zlen [_]) with 1 in IH.
  rewrite IH by (done || lia). by rewrite <-!app_assoc.
Qed.

(** What is known of the layers that a key still has to go through: all have
    an open entry, or none has. *)
Definition opened (u : Z) (ls : list ALayer) : Prop :=
  Forall (fun a => is_Some (op a)) ls /\ (ls <> [] -> open_value ls = Some u).
Definition closed (ls : list ALayer) : Prop := Forall (fun a => op a = None /\ cnt a = 0) ls.
Definition mode (u : Z) (ls : list ALayer) : Prop := opened u ls \/ closed ls.

Lemma opened_cons u a ls : opened u (a :: ls) -> opened u ls.
Proof.
  intros [H1 H2]. apply Forall_cons in H1 as [_ H1]. split; [done|]. intros Hne. rewrite <-(open_value_cons a ls Hne). by apply H2.
Qed.

Lemma close1_mode u a ls : mode u (a :: ls) -> mode u (close1 u a ls).2.
Proof.
  intros [H|H].
  - apply opened_cons in H. unfold close1. destruct (op a) as [[p o]|]; [|by left]. case_match; [|by left].
    right. cbn [snd]. apply Forall_fmap. apply Forall_true. done.
  - apply Forall_cons in H as [[E _] H]. unfold close1. rewrite E. by right.
Qed.

Lemma shut_good a : good_layer a -> good_layer (shut a).
Proof.
  unfold good_layer. rewrite (all_shut (shut a)) by done. unfold all_entries. intros H%Forall_app. by apply H.
Qed.

Lemma close1_good u a ls : 0 <= u < OFFSET_BIT -> good_layer a -> Forall good_layer ls ->
  Forall entry_good (close1 u a ls).1 /\ Forall good_layer (close1 u a ls).2.
Proof.
  intros Hu Ha Hls. unfold close1. unfold good_layer in Ha.
  destruct (op a) as [[p o]|] eqn:Eo; [rewrite (all_open _ _ Eo) in Ha|by rewrite all_shut in Ha].
  case_match; cbn [fst snd]; [|done]. apply Forall_app in Ha as [Hc [[Hp _] _]%Forall_cons]. split.
  - apply Forall_app. split; [done|]. constructor; [|done]. split; [done|]. cbn [snd]. unfold OFFSET_BIT in *. lia.
  - apply Forall_fmap. eapply Forall_impl; [exact Hls|]. apply shut_good.
Qed.

(** The last four bytes of the last layer are the value of the last key. *)
Lemma last_value ls u : opened u ls -> ls <> [] -> Forall good_layer ls -> 0 <= u < 2 ^ 32 -> forall L,
  exists deep, zget (L ++ (enc <$> ls)) (zlen L + zlen ls - 1) = Ok deep /\ load 4 deep (zlen deep - 4) = Ok u.
Proof.
  intros Ho Hne Hg Hu. induction ls as [|a ls IH]; intros L; [done|].
  apply Forall_cons in Hg as [Ha Hg]. destruct ls as [|b ls].
  - destruct Ho as [Ho Hv]. specialize (Hv Hne). cbn [open_value] in Hv. apply fmap_Some in Hv as ([p o] & Eo & ->).
    rewrite fmap_cons. cbn [snd]. exists (enc a). rewrite zget_app_mid by (rewrite zlen_cons; change (zlen []) with 0; lia).
    split; [done|]. unfold enc. rewrite (all_open _ _ Eo), flat_app, flat_one.
    unfold load. rewrite app_assoc. set (X := flat 4 (cl a) ++ p). rewrite zlen_app, zlen_le_bytes.
    rewrite zread_Ok by (rewrite ?zlen_app, ?zlen_le_bytes; pose proof (zlen_nonneg X); lia). cbn [mbind res_bind].
    rewrite zslice_drop_app by lia. rewrite zslice_full by (by rewrite zlen_le_bytes).
    rewrite le_val_le_bytes; [done|]. change (8 * Z.of_nat 4) with 32. exact Hu.
  - destruct (IH ltac:(by eapply opened_cons) ltac:(done) Hg (L ++ [enc a])) as (deep & E & El). exists deep.
    split; [|done]. rewrite <-E, <-app_assoc, zlen_app, !zlen_cons. change (zlen []) with 0. f_equal. lia.
Qed.

Lemma fmap_mid {B} (f : ALayer -> B) L a ls : f <$> (L ++ a :: ls) = (f <$> L) ++ f a :: (f <$> ls).
Proof. by rewrite fmap_app, fmap_cons. Qed.

Lemma zlen_fmap {A B} (f : A -> B) l : zlen (f <$> l) = zlen l.
Proof. unfold zlen. by rewrite length_fmap. Qed.

(** The entry of the last key is closed. *)
Lemma close_entry_ok L a ls u i n : mode u (a :: ls) -> good_layer a -> Forall good_layer ls -> 0 <= u < OFFSET_BIT ->
  i = zlen L -> n = zlen L + 1 + zlen ls ->
  close_entry w (state_of (L ++ a :: ls)) n i
  = Ok (mkLayers ((enc <$> L) ++ flat 4 (close1 u a ls).1 :: (enc <$> (close1 u a ls).2))
                 ((cnt <$> L) ++ cnt a :: (cnt <$> (close1 u a ls).2))).
Proof.
  intros Hm Ha Hls Hu -> ->. unfold close_entry, state_of. cbn [layers new_node_count]. rewrite !fmap_mid.
  rewrite zget_app_mid by (by rewrite zlen_fmap). cbn [mbind res_bind].
  replace (zlen L =? zlen L + 1 + zlen ls - 1) with (bool_decide (zlen ls = 0))
    by (symmetry; destruct (bool_decide_reflect (zlen ls = 0)); [apply Z.eqb_eq|apply Z.eqb_neq]; lia).
  destruct Hm as [Ho|Hc].
  2:{ apply Forall_cons in Hc as [[Eo Ec] Hc]. rewrite Ec. cbn [andb Z.eqb]. unfold close1, enc at 2. by rewrite Eo, all_shut. }
  pose proof Ho as [[[[p o] Eo] Hos]%Forall_cons Hv]. unfold close1. rewrite Eo.
  assert (Eenc : enc a = flat 4 (cl a) ++ p ++ le_bytes 4 o) by (unfold enc; by rewrite (all_open _ _ Eo), flat_app, flat_one).
  destruct ((cnt a =? 1) && negb (bool_decide (zlen ls = 0))) eqn:Ecase; cbn [fst snd].
  2:{ by rewrite Eenc, flat_app, flat_one. }
  unfold collapse. cbn [layers new_node_count].
  destruct (last_value (a :: ls) u Ho ltac:(done) ltac:(by constructor) ltac:(unfold OFFSET_BIT in *; lia) (enc <$> L)) as (deep & Ed & El).
  rewrite zlen_fmap, zlen_cons, fmap_cons in Ed. replace (zlen L + 1 + zlen ls - 1) with (zlen L + (1 + zlen ls) - 1) by lia.
  rewrite Ed. cbn [mbind res_bind]. rewrite El. cbn [mbind res_bind].
  rewrite zget_app_mid by (by rewrite zlen_fmap). cbn [mbind res_bind].
  rewrite u32_small by (unfold OFFSET_BIT in *; lia). rewrite Eenc, app_assoc.
  set (Y := flat 4 (cl a) ++ p). replace (zlen (Y ++ le_bytes 4 o) - 4) with (zlen Y) by (rewrite zlen_app, zlen_le_bytes; lia).
  rewrite memcpy_fill by (rewrite ?zlen_le_bytes; lia). cbn [mbind res_bind].
  rewrite zslice_full by (by rewrite zlen_le_bytes). unfold zdrop at 1. rewrite drop_ge, app_nil_r by (cbn; lia).
  rewrite zset_app by (by rewrite zlen_fmap). cbn [mbind res_bind].
  replace (Y ++ le_bytes 4 (OFFSET_BIT + u)) with (flat 4 (cl a ++ [(p, OFFSET_BIT + u)]))
    by (by rewrite flat_app, flat_one; unfold Y; rewrite <-app_assoc).
  set (e := flat 4 _). pose proof (drop_entries_ok ls ((enc <$> L) ++ [e]) ((cnt <$> L) ++ [cnt a])) as Hd.
  rewrite !zlen_app, !zlen_fmap, <-!app_assoc in Hd. cbn [app] in Hd. change (zlen [_]) with 1 in Hd.
  replace (zlen L + (1 + zlen ls) - 1 - zlen L) with (zlen ls) by lia. apply Hd; done.
Qed.

Lemma size_enc a : good_layer a -> zlen (enc a) / entry_len w = size a.
Proof.
  intros Ha. unfold enc. rewrite (zlen_flat_good _ Ha). apply Z.div_mul. unfold entry_len. lia.
Qed.

Lemma size_nonneg a : 0 <= size a.
Proof. apply zlen_nonneg. Qed.

(** A new entry is added to the layer. *)
Lemma add_entry_ok L a ls u i n x vo vl : mode u (a :: ls) -> good_layer a -> Forall good_layer ls -> small ls ->
  0 <= u < OFFSET_BIT -> i = zlen L -> n = zlen L + 1 + zlen ls -> vl <> 0 ->
  let '(c, ls2) := close1 u a ls in
  add_entry w (state_of (L ++ a :: ls)) n i x vo vl
  = Ok (state_of (L ++ mkALayer c (Some (x, match ls2 with [] => vo / vl | b :: _ => size b end)) 1 :: ls2)).
Proof.
  intros Hm Ha Hls Hs Hu -> -> Hvl. unfold add_entry.
  rewrite (close_entry_ok L a ls u _ _ Hm Ha Hls Hu eq_refl eq_refl). cbn [mbind res_bind].
  destruct (close1_good u a ls Hu Ha Hls) as [_ Hg2]. pose proof (close1_length u a ls) as Hl2.
  pose proof (close1_small u a ls Hs) as Hs2. destruct (close1 u a ls) as [c ls2]. cbn [fst snd] in *.
  assert (Hz : zlen ls2 = zlen ls) by (unfold zlen; lia).
  unfold push_entry. cbn [layers new_node_count]. rewrite (zget_app_mid _ _ _ (zlen L)) by (by rewrite zlen_fmap). cbn [mbind res_bind].
  set (off := match ls2 with [] => vo / vl | b :: _ => size b end).
  replace (if zlen L =? zlen L + 1 + zlen ls - 1 then _ else _) with (Ok off).
  2:{ destruct ls2 as [|b ls2].
      - change (zlen []) with 0 in Hz. rewrite (proj2 (Z.eqb_eq _ _)) by lia. by rewrite (proj2 (Z.eqb_neq vl 0)).
      - rewrite zlen_cons in Hz. pose proof (zlen_nonneg ls2). rewrite (proj2 (Z.eqb_neq (zlen L) _)) by lia.
        rewrite fmap_cons. change ((enc <$> L) ++ flat 4 c :: ?k) with ((enc <$> L) ++ [flat 4 c] ++ k). rewrite app_assoc.
        rewrite zget_app_mid by (rewrite zlen_app, zlen_fmap; done). cbn [mbind res_bind].
        apply Forall_cons in Hg2 as [Hb _]. apply Forall_cons in Hs2 as [Hsb _]. rewrite size_enc by done.
        pose proof (size_nonneg b). rewrite u32_small by (unfold OFFSET_BIT in *; lia). done. }
  cbn [mbind res_bind]. rewrite zset_app by (by rewrite zlen_fmap). cbn [mbind res_bind].
  rewrite zset_app by (by rewrite zlen_fmap). cbn [mbind res_bind]. unfold state_of. rewrite !fmap_mid.
  do 4 f_equal. unfold enc at 1. rewrite (all_open _ (x, off)) by done. cbn [cl].
  by rewrite flat_app, flat_one.
Qed.

Lemma layer_at L a ls : zget (layers (state_of (L ++ a :: ls))) (zlen L) = Ok (enc a).
Proof. cbn [state_of layers]. by rewrite fmap_mid, zget_app_mid by (by rewrite zlen_fmap). Qed.

Lemma count_at L a ls : zget (new_node_count (state_of (L ++ a :: ls))) (zlen L) = Ok (cnt a).
Proof. cbn [state_of new_node_count]. by rewrite fmap_mid, zget_app_mid by (by rewrite zlen_fmap). Qed.

Lemma count_set L a ls c : zset (new_node_count (state_of (L ++ a :: ls))) (zlen L) c = Ok ((cnt <$> L) ++ c :: (cnt <$> ls)).
Proof. cbn [state_of new_node_count]. by rewrite fmap_mid, zset_app by (by rewrite zlen_fmap). Qed.

(** The slices of a key are read from its end. *)
Definition reads (key : list Z) (n o : Z) (xs : list (list Z)) : Prop :=
  forall j x, xs !! j = Some x -> zread key (w * (n - (o + Z.of_nat j) - 1)) w = Ok x.

Lemma reads_cons key n o x xs : reads key n o (x :: xs) -> zread key (w * (n - o - 1)) w = Ok x /\ reads key n (o + 1) xs.
Proof.
  intros H. split.
  - rewrite <-(H O x eq_refl). do 2 f_equal. lia.
  - intros j y Hj. rewrite <-(H (S j) y Hj). do 2 f_equal. lia.
Qed.

Lemma layer_loop_fresh key n vo vl xs : vl <> 0 -> forall u L ls,
  length xs = length ls -> mode u ls -> Forall good_layer ls -> small ls -> 0 <= u < OFFSET_BIT ->
  n = zlen L + zlen ls -> reads key n (zlen L) xs ->
  layer_loop w key n vo vl true (state_of (L ++ ls)) (Z.add (zlen L) <$> zseq (zlen ls))
  = Ok (state_of (L ++ fresh u ls xs (vo / vl))).
Proof.
  intros Hvl. induction xs as [|x xs IH]; intros u L [|a ls] Hl Hm Hg Hs Hu Hn Hr; try done.
  rewrite zlen_cons in Hn |- *. pose proof (zlen_nonneg ls). rewrite ids_cons by lia. replace (1 + zlen ls - 1) with (zlen ls) by lia.
  apply reads_cons in Hr as [Hx Hr]. apply Forall_cons in Hg as [Ha Hg]. apply Forall_cons in Hs as [_ Hs].
  cbn [layer_loop fresh]. unfold layer_step. rewrite Hx. cbn [mbind res_bind].
  pose proof (add_entry_ok L a ls u (zlen L) n x vo vl Hm Ha Hg Hs Hu eq_refl ltac:(lia) Hvl) as Hadd.
  pose proof (close1_mode u a ls Hm) as Hm2. destruct (close1_good u a ls Hu Ha Hg) as [_ Hg2].
  pose proof (close1_small u a ls Hs) as Hs2. pose proof (close1_length u a ls) as Hl2.
  destruct (close1 u a ls) as [c ls2]. cbn [fst snd] in *. rewrite Hadd. cbn [mbind res_bind].
  set (a' := mkALayer c _ 1). assert (Hz : zlen ls2 = zlen ls) by (unfold zlen; lia).
  change (L ++ a' :: ?k) with (L ++ [a'] ++ k). rewrite !app_assoc.
  specialize (IH u (L ++ [a']) ls2). rewrite zlen_app, Hz in IH. change (zlen [a']) with 1 in IH.
  apply IH; try done; [cbn in Hl; lia|lia].
Qed.

Lemma layer_loop_follow key n vo vl ls : vl <> 0 -> forall u L xs,
  length xs = length ls -> opened u ls -> Forall good_layer ls -> small ls -> 0 <= u < OFFSET_BIT ->
  Forall (fun a => 0 <= cnt a < 2 ^ 32 - 1) ls ->
  n = zlen L + zlen ls -> reads key n (zlen L) xs ->
  layer_loop w key n vo vl false (state_of (L ++ ls)) (Z.add (zlen L) <$> zseq (zlen ls))
  = Ok (state_of (L ++ follow u ls xs (vo / vl))).
Proof.
  intros Hvl. induction ls as [|a ls IH]; intros u L [|x xs] Hl Ho Hg Hs Hu Hcs Hn Hr; try done.
  rewrite zlen_cons in Hn |- *. pose proof (zlen_nonneg ls). rewrite ids_cons by lia. replace (1 + zlen ls - 1) with (zlen ls) by lia.
  pose proof Hr as [Hx Hr']%reads_cons. pose proof Hg as [Ha Hg']%Forall_cons. pose proof Hs as [_ Hs']%Forall_cons.
  apply Forall_cons in Hcs as [Hc Hcs]. pose proof Ho as [[[[p o] Eo] _]%Forall_cons _].
  cbn [layer_loop follow]. unfold layer_step. rewrite Hx. cbn [mbind res_bind].
  rewrite layer_at. cbn [mbind res_bind].
  assert (Hp : zlen p = w).
  { unfold good_layer in Ha. rewrite (all_open _ _ Eo) in Ha. by apply Forall_app in Ha as [_ [[? _] _]%Forall_cons]. }
  replace (zread (enc a) (zlen (enc a) - entry_len w) w) with (Ok p).
  2:{ unfold enc. rewrite (all_open _ _ Eo), flat_app, flat_one. set (Y := flat 4 (cl a)). pose proof (zlen_nonneg Y).
      rewrite !zlen_app, zlen_le_bytes. replace (zlen Y + (zlen p + Z.of_nat 4) - entry_len w) with (zlen Y) by (unfold entry_len; lia).
      rewrite zread_Ok by (rewrite ?zlen_app, ?zlen_le_bytes; lia). by rewrite zslice_drop_app, zslice_take_app by done. }
  cbn [mbind res_bind]. rewrite Eo. cbn [fmap option_fmap option_map fst].
  destruct (bool_decide_reflect (p = x)) as [->|Hne].
  - rewrite bool_decide_true by done. rewrite count_at. cbn [mbind res_bind]. rewrite count_set. cbn [mbind res_bind]. rewrite u32_small by lia.
    set (a' := mkALayer (cl a) (Some (x, o)) (cnt a + 1)).
    replace (mkLayers _ _) with (state_of ((L ++ [a']) ++ ls)).
    2:{ unfold state_of. rewrite <-app_assoc. cbn [app]. rewrite !fmap_mid. do 3 f_equal. unfold enc.
        by rewrite (all_open a (x, o)), (all_open a' (x, o)). }
    replace (L ++ a' :: follow u ls xs (vo / vl)) with ((L ++ [a']) ++ follow u ls xs (vo / vl)) by (by rewrite <-app_assoc).
    specialize (IH u (L ++ [a']) xs). rewrite zlen_app in IH. change (zlen [a']) with 1 in IH.
    apply IH; try done; [cbn in Hl; lia|by eapply opened_cons|lia].
  - rewrite bool_decide_false by congruence.
    pose proof (layer_loop_fresh key n vo vl (x :: xs) Hvl u L (a :: ls) Hl ltac:(by left) Hg Hs Hu ltac:(rewrite zlen_cons; lia) Hr) as Hf.
    rewrite zlen_cons, ids_cons in Hf by lia. replace (1 + zlen ls - 1) with (zlen ls) in Hf by lia.
    cbn [layer_loop] in Hf. unfold layer_step in Hf. rewrite Hx in Hf. cbn [mbind res_bind] in Hf. rewrite <-Hf.
    destruct (add_entry _ _ _ _ _ _ _); done.
Qed.

(** *** The entries stay as long as a slice and a number *)
Lemma open_good c x o n : Forall entry_good c -> zlen x = w -> 0 <= o < 2 ^ 32 -> good_layer (mkALayer c (Some (x, o)) n).
Proof.
  intros Hc Hx Ho. unfold good_layer. rewrite (all_open _ (x, o)) by done. apply Forall_app. split; [done|]. by apply Forall_singleton.
Qed.

Lemma fresh_good xs : forall u ls v, Forall (fun x => zlen x = w) xs -> Forall good_layer ls -> small ls ->
  0 <= u < OFFSET_BIT -> 0 <= v < OFFSET_BIT -> Forall good_layer (fresh u ls xs v).
Proof.
  induction xs as [|x xs IH]; intros u [|a ls] v Hx Hg Hs Hu Hv; try (by constructor). cbn [fresh].
  apply Forall_cons in Hx as [Hx Hxs]. apply Forall_cons in Hg as [Ha Hg]. apply Forall_cons in Hs as [_ Hs].
  destruct (close1_good u a ls Hu Ha Hg) as [Hc Hg2]. pose proof (close1_small u a ls Hs) as Hs2.
  destruct (close1 u a ls) as [c ls2]. cbn [fst snd] in *. constructor; [|by apply IH].
  apply open_good; [done|done|]. unfold OFFSET_BIT in *. destruct ls2 as [|b ls2]; [lia|].
  apply Forall_cons in Hs2 as [Hb _]. pose proof (size_nonneg b). unfold OFFSET_BIT in *. lia.
Qed.

Lemma follow_good ls : forall u xs v, Forall (fun x => zlen x = w) xs -> Forall good_layer ls -> small ls ->
  0 <= u < OFFSET_BIT -> 0 <= v < OFFSET_BIT -> Forall good_layer (follow u ls xs v).
Proof.
  induction ls as [|a ls IH]; intros u [|x xs] v Hx Hg Hs Hu Hv; try (by constructor). cbn [follow]. case_bool_decide.
  - apply Forall_cons in Hx as [Hx Hxs]. apply Forall_cons in Hg as [Ha Hg]. apply Forall_cons in Hs as [_ Hs].
    constructor; [exact Ha|by apply IH].
  - by apply fresh_good.
Qed.

(** *** The end of the loop over the nodes *)
Lemma close_last_ok ls : forall u L n, mode u ls -> Forall good_layer ls -> 0 <= u < OFFSET_BIT -> n = zlen L + zlen ls ->
  exists s, close_last w (state_of (L ++ ls)) n (Z.add (zlen L) <$> zseq (zlen ls)) = Ok s /\
    layers s = (enc <$> L) ++ (flat 4 <$> finish u ls).
Proof.
  induction ls as [|a ls IH]; intros u L n Hm Hg Hu ->.
  { eexists. split; [done|]. cbn [state_of layers finish fmap list_fmap]. by rewrite !app_nil_r. }
  rewrite zlen_cons. pose proof (zlen_nonneg ls). rewrite ids_cons by lia. replace (1 + zlen ls - 1) with (zlen ls) by lia.
  pose proof Hg as [Ha Hg']%Forall_cons. cbn [close_last finish]. rewrite count_at. cbn [mbind res_bind].
  pose proof (close_entry_ok L a ls u (zlen L) _ Hm Ha Hg' Hu eq_refl eq_refl) as Hclose.
  unfold close_entry in Hclose. rewrite count_at in Hclose. cbn [mbind res_bind] in Hclose.
  replace (zlen L + (1 + zlen ls)) with (zlen L + 1 + zlen ls) by lia.
  assert (Etest : (zlen L =? zlen L + 1 + zlen ls - 1) = bool_decide (zlen ls = 0)).
  { destruct (bool_decide_reflect (zlen ls = 0)); [apply Z.eqb_eq|apply Z.eqb_neq]; lia. }
  rewrite Etest in *. destruct ((cnt a =? 1) && negb (bool_decide (zlen ls = 0))) eqn:Ecase.
  - eexists. split; [exact Hclose|]. cbn [layers]. destruct (close1 u a ls) as [c ls2]. cbn [fst snd].
    by rewrite fmap_cons, <-list_fmap_compose.
  - destruct (IH u (L ++ [a]) (zlen L + 1 + zlen ls)) as (s & Es & El); [|done|done| |].
    + destruct Hm as [Hm|Hm]; [left; by eapply opened_cons|right; by apply Forall_cons in Hm as [_ Hm]].
    + rewrite zlen_app. change (zlen [a]) with 1. lia.
    + rewrite <-app_assoc, zlen_app in Es. cbn [app] in Es. change (zlen [a]) with 1 in Es. exists s. split; [done|].
      rewrite El, fmap_app, <-app_assoc. done.
Qed.

Lemma finish_good ls u : Forall good_layer ls -> 0 <= u < OFFSET_BIT -> Forall (Forall entry_good) (finish u ls).
Proof.
  induction 1 as [|a ls Ha Hls IH]; intros Hu; [constructor|]. cbn [finish]. case_match.
  - destruct (close1_good u a ls Hu Ha Hls) as [Hc Hg]. destruct (close1 u a ls) as [c ls2]. cbn [fst snd] in *.
    constructor; [done|]. by apply Forall_fmap.
  - constructor; [done|by apply IH].
Qed.
End strings.

Lemma finish_length u ls : length (finish u ls) = length ls.
Proof. pose proof (Forall2_length _ _ _ (finish_extends u ls)) as H. by rewrite length_fmap in H. Qed.

Lemma finish_sizes u ls k : Forall (fun a => size a <= k) ls -> Forall (fun es => zlen es <= k) (finish u ls).
Proof.
  induction 1 as [|a ls Ha Hls IH]; [constructor|]. cbn [finish]. case_match.
  - pose proof (close1_size u a ls) as Hc. pose proof (close1_sizes u a ls k Hls) as Hs.
    destruct (close1 u a ls) as [c ls2]. cbn [fst snd] in *. constructor; [lia|]. by apply Forall_fmap.
  - by constructor.
Qed.
