(* ===== verification/SkipSearch.v ===== *)
(** * The compressed outputs can be searched

    A reader of the compressed outputs of [SkipCompressed], and the theorem
    that it finds every key of the list and its first value. *)
From stdpp Require Import sorting.
From Stdlib Require Import ZArith Lia.
From S2P Require Import Prelude Util BlockBuffer Reader SkipList SkipOutput Bloom SkipCompressed SkipTrie.
#[local] Open Scope Z_scope.

(** ** The slices of a key, from its end *)
Fixpoint slices (n : nat) (w : Z) (key : list Z) : list (list Z) :=
  match n with O => [] | S n => zslice (w * Z.of_nat n) w key :: slices n w key end.

Lemma length_slices n w key : length (slices n w key) = n.
Proof. induction n; cbn; congruence. Qed.

Lemma lookup_slices n w key j : (j < n)%nat -> slices n w key !! j = Some (zslice (w * Z.of_nat (n - j - 1)) w key).
Proof.
  revert j. induction n as [|n IH]; intros j Hj; [lia|]. destruct j as [|j]; cbn [slices].
  - change (Some (zslice (w * Z.of_nat n) w key) = Some (zslice (w * Z.of_nat (S n - 0 - 1)) w key)). do 3 f_equal. lia.
  - apply (IH j). lia.
Qed.

Lemma zlen_slices n w key : 0 <= w -> w * Z.of_nat n <= zlen key -> Forall (fun x => zlen x = w) (slices n w key).
Proof.
  intros Hw. induction n as [|n IH]; intros Hl; cbn [slices]; [constructor|].
  rewrite Nat2Z.inj_succ in Hl. constructor; [|apply IH; nia]. apply zlen_zslice; nia.
Qed.

Lemma slices_read n w key N : 0 <= w -> zlen key = w * N -> N = Z.of_nat n -> reads w key N 0 (slices n w key).
Proof.
  intros Hw Hl -> j x Hj. pose proof (lookup_lt_Some _ _ _ Hj) as Hlt. rewrite length_slices in Hlt.
  rewrite lookup_slices in Hj by done. injection Hj as <-.
  rewrite zread_Ok by nia. do 3 f_equal. lia.
Qed.

Lemma zslice_none {A} o w (l : list A) : zslice o (w * Z.of_nat 0) l = [].
Proof. rewrite Z.mul_0_r. unfold zslice. apply take_0. Qed.

(** The first [j] slices are the last [w * j] bytes. *)
Lemma take_slices n w a b : 0 <= w -> zlen a = zlen b -> w * Z.of_nat n <= zlen a -> forall j, (j <= n)%nat ->
  take j (slices n w a) = take j (slices n w b)
  <-> zslice (w * Z.of_nat (n - j)) (w * Z.of_nat j) a = zslice (w * Z.of_nat (n - j)) (w * Z.of_nat j) b.
Proof.
  intros Hw Hab. induction n as [|n IH]; intros Hl j Hj.
  { replace j with O by lia. by rewrite !zslice_none. }
  destruct j as [|j]; [by rewrite !zslice_none|]. cbn [slices take].
  specialize (IH ltac:(nia) j ltac:(lia)). replace (S n - S j)%nat with (n - j)%nat by lia.
  replace (w * Z.of_nat (S j)) with (w * Z.of_nat j + w) by nia. rewrite !zslice_app by nia.
  assert (Esum : w * Z.of_nat (n - j) + w * Z.of_nat j = w * Z.of_nat n) by nia. rewrite Esum.
  assert (Hn : w * Z.of_nat n <= zlen a) by nia. assert (Hp : 0 <= w * Z.of_nat (n - j) /\ 0 <= w * Z.of_nat j) by nia.
  assert (Hlen : length (zslice (w * Z.of_nat (n - j)) (w * Z.of_nat j) a) = length (zslice (w * Z.of_nat (n - j)) (w * Z.of_nat j) b)).
  { pose proof (zlen_zslice (w * Z.of_nat (n - j)) (w * Z.of_nat j) a ltac:(lia) ltac:(lia) ltac:(lia)).
    pose proof (zlen_zslice (w * Z.of_nat (n - j)) (w * Z.of_nat j) b ltac:(lia) ltac:(lia) ltac:(lia)). unfold zlen in *. lia. }
  split.
  - intros [= E1 E2]. apply IH in E2. by rewrite E1, E2.
  - intros E. apply app_inj_1 in E as [E1 E2]; [|done]. apply IH in E1. by rewrite E1, E2.
Qed.

(** ** The order of integer keys *)
Abbreviation bytes := (Forall (fun b : Z => 0 <= b < 256)).

Lemma le_val_inj a b : bytes a -> bytes b -> zlen a = zlen b -> le_val a = le_val b -> a = b.
Proof.
  intros Ha Hb Hl E. rewrite <-(le_bytes_le_val a), <-(le_bytes_le_val b) by done. rewrite E. f_equal. unfold zlen in Hl. lia.
Qed.

(** The number in the last bytes. *)
Lemma le_val_high o n a : bytes a -> 0 <= o -> 0 <= n -> o + n = zlen a -> le_val (zslice o n a) = le_val a / 2 ^ (8 * o).
Proof.
  intros Ha Ho Hn Hl. pose proof (zslice_app 0 o n a ltac:(lia) ltac:(lia) ltac:(lia)) as E. rewrite Z.add_0_l in E.
  rewrite (zslice_full a) in E by lia. set (l := zslice 0 o a) in *. set (h := zslice o n a) in *.
  assert (Hlo : zlen l = o) by (apply zlen_zslice; lia).
  assert (Hb : bytes l) by (rewrite E in Ha; by apply Forall_app in Ha as [? _]).
  pose proof (le_val_range l Hb) as Hr. rewrite Hlo in Hr.
  rewrite E, le_val_app, Hlo. rewrite Z.mul_comm, Z.div_add by lia. rewrite Z.div_small by lia. lia.
Qed.

(** Keys between two keys that begin with the same slices begin so as well. *)
Lemma between_slices n w a p b j : 0 <= w -> zlen a = w * Z.of_nat n -> zlen p = zlen a -> zlen b = zlen a ->
  bytes a -> bytes p -> bytes b -> le_val a <= le_val p <= le_val b ->
  take j (slices n w a) = take j (slices n w b) -> take j (slices n w p) = take j (slices n w b).
Proof.
  intros Hw Hla Hlp Hlb Ha Hp Hb Hle. destruct (decide (j <= n)%nat) as [Hj|Hj].
  2:{ intros E. rewrite !(take_ge (slices _ _ _)) in E by (rewrite length_slices; lia).
      rewrite !(take_ge (slices _ _ _)) by (rewrite length_slices; lia).
      assert (E' : take n (slices n w a) = take n (slices n w b)) by (by rewrite E).
      apply take_slices in E'; [|lia|lia|lia|lia]. rewrite Nat.sub_diag, Z.mul_0_r, !zslice_full in E' by lia. subst b.
      f_equal. apply le_val_inj; (done || lia). }
  rewrite !take_slices by lia. intros E. set (o := w * Z.of_nat (n - j)) in *. set (m := w * Z.of_nat j) in *.
  assert (Hom : o + m = zlen a) by (unfold o, m; nia). assert (Ho : 0 <= o /\ 0 <= m) by (unfold o, m; nia).
  assert (Hsub : forall l, bytes l -> bytes (zslice o m l)) by (intros l Hl; unfold zslice; by apply Forall_take, Forall_drop).
  apply le_val_inj; [by apply Hsub|by apply Hsub|rewrite !zlen_zslice; lia|].
  assert (Ev : le_val (zslice o m a) = le_val (zslice o m b)) by (by rewrite E).
  rewrite !le_val_high in * by (done || lia).
  pose proof (Z.div_le_mono (le_val a) (le_val p) (2 ^ (8 * o)) ltac:(lia) ltac:(lia)).
  pose proof (Z.div_le_mono (le_val p) (le_val b) (2 ^ (8 * o)) ltac:(lia) ltac:(lia)). lia.
Qed.

(** ** The layers after some keys *)
Lemma open_path_le ls : (length (open_path ls) <= length ls)%nat.
Proof. induction ls as [|a ls IH]; [done|]. unfold open_path in *. cbn [omap list_omap]. destruct (fst <$> op a); cbn in *; lia. Qed.

Lemma open_path_all ls : length (open_path ls) = length ls <-> Forall (fun a => is_Some (op a)) ls.
Proof.
  induction ls as [|a ls IH]; [done|]. rewrite Forall_cons, <-IH. pose proof (open_path_le ls) as Hle.
  unfold open_path in *. cbn [omap list_omap]. destruct (op a) as [e|]; cbn in *.
  - split; [intros H; split; [done|lia]|intros [_ H]; lia].
  - split; [lia|]. by intros [[? ?] _].
Qed.

Section built.
Context (w : Z) (N : nat) (HN : N <> O).

Record Built (k u : Z) (ls : list ALayer) (ks : list (list (list Z) * Z)) : Prop := {
  bt_length : length ls = N;
  bt_trie : trie_ok 0 ls ks;
  bt_lens : lens N ks;
  bt_open : opened u ls;
  bt_good : Forall (good_layer w) ls;
  bt_sizes : Forall (fun a => size a <= k) ls;
  bt_counts : counts k ls;
  bt_value : 0 <= u < OFFSET_BIT }.

Definition no_layers : list ALayer := replicate N (mkALayer [] None 0).

Lemma built_small k u ls ks : Built k u ls ks -> k < OFFSET_BIT -> small ls.
Proof. intros B Hk. eapply Forall_impl; [apply (bt_sizes _ _ _ _ B)|]. intros a Ha. cbn in Ha. lia. Qed.

Lemma built_ne k u ls ks : Built k u ls ks -> ls <> [].
Proof. intros B ->. by apply HN, eq_sym, (bt_length _ _ _ _ B). Qed.

Lemma lens_snoc n ks (xs : list (list Z)) v : lens n ks -> length xs = n -> lens n (ks ++ [(xs, v)]).
Proof.
  intros H Hl k v' Hin. apply elem_of_app in Hin as [Hin|Hin]; [by eapply H|]. apply list_elem_of_singleton in Hin. congruence.
Qed.

Lemma built_first xs v : length xs = N -> Forall (fun x => zlen x = w) xs -> 0 <= v < OFFSET_BIT ->
  Built 1 v (fresh 0 no_layers xs v) [(xs, v)] /\ open_path (fresh 0 no_layers xs v) = xs.
Proof.
  intros Hl Hx Hv. assert (Hln : length xs = length no_layers) by (unfold no_layers; by rewrite length_replicate).
  assert (Hempty : forall P : ALayer -> Prop, P (mkALayer [] None 0) -> Forall P no_layers) by (intros P HP; by apply Forall_replicate).
  destruct (fresh_open xs 0 no_layers v Hln) as [Ep Ev]; [intros ->; by apply HN|]. split; [|done].
  constructor; [by rewrite fresh_length, <-Hln| | | | | | |done].
  - unfold no_layers in *. destruct N as [|n]; [done|]. destruct xs as [|x xs]; [done|]. cbn [replicate].
    apply (fresh_path xs 0 (mkALayer [] None 0)); [cbn in Hln; lia| |done].
    apply Forall_replicate. reflexivity.
  - intros k v' Hin. apply list_elem_of_singleton in Hin. congruence.
  - split; [|done]. apply open_path_all. by rewrite Ep, fresh_length, Hln.
  - apply fresh_good; try done; [apply Hempty; constructor|apply Hempty; reflexivity].
  - apply (fresh_sizes xs 0 no_layers v 0). by apply Hempty.
  - apply (fresh_counts xs 0 no_layers v 0); [lia|]. by apply Hempty.
Qed.

Lemma built_next k u ls ks xs v : Built k u ls ks -> 0 <= k < OFFSET_BIT -> length xs = N -> Forall (fun x => zlen x = w) xs ->
  0 <= v < OFFSET_BIT -> together ks (open_path ls) xs -> open_path ls <> xs ->
  Built (k + 1) v (follow u ls xs v) (ks ++ [(xs, v)]) /\ open_path (follow u ls xs v) = xs.
Proof.
  intros B Hk Hl Hx Hv Ht Hp. pose proof (built_small _ _ _ _ B ltac:(lia)) as Hs. pose proof (built_ne _ _ _ _ B) as Hne.
  destruct B as [HL Htrie Hlens Ho Hg Hsz Hc Hu]. assert (Hln : length xs = length ls) by congruence.
  assert (Hop : length (open_path ls) = length ls) by (apply open_path_all, Ho).
  destruct (follow_open ls u xs v Hln Hne Hp Hop) as [Ep Ev]. split; [|done]. constructor.
  - by rewrite follow_length.
  - apply follow_ok; try done; [by rewrite HL|by apply Ho|].
    intros v' Hin. apply Hp. specialize (Ht N _ _ Hin eq_refl). rewrite !take_ge in Ht by lia. done.
  - by apply lens_snoc.
  - split; [|done]. apply open_path_all. by rewrite Ep, follow_length.
  - by apply follow_good.
  - by apply follow_sizes.
  - apply follow_counts; [lia|done].
  - done.
Qed.
End built.

(** ** The first number of each key *)
Definition last_key (l : list Z) (es : list (list Z * Z)) : list Z := default l (fst <$> last es).

Lemma last_key_cons l e es : last_key l (e :: es) = last_key e.1 es.
Proof. unfold last_key. destruct es; [done|]. cbn [last]. by destruct (last (p :: es)) eqn:E; [|apply last_None in E]. Qed.

Lemma index_of_snoc es k v : forall i l,
  index_of i l (es ++ [(k, v)]) = index_of i l es ++ if bool_decide (last_key l es = k) then [] else [(k, i + zlen es)].
Proof.
  induction es as [|[k' v'] es IH]; intros i l; cbn [index_of app].
  - unfold last_key. cbn. change (zlen []) with 0. rewrite Z.add_0_r. by case_bool_decide.
  - rewrite last_key_cons, zlen_cons. replace (i + (1 + zlen es)) with (i + 1 + zlen es) by lia.
    case_bool_decide as E; rewrite IH; cbn [fst]; [by subst|done].
Qed.

Lemma index_first k v l1 l2 : k ∉ l1.*1 -> forall i l, l <> k -> (k, i + zlen l1) ∈ index_of i l (l1 ++ (k, v) :: l2).
Proof.
  induction l1 as [|[k' v'] l1 IH]; intros Hk i l Hl; cbn [index_of app].
  - rewrite bool_decide_false by done. change (zlen []) with 0. rewrite Z.add_0_r. left.
  - cbn in Hk. apply not_elem_of_cons in Hk as [Hk Hk1]. rewrite zlen_cons. replace (i + (1 + zlen l1)) with (i + 1 + zlen l1) by lia.
    case_bool_decide; [|right]; apply IH; congruence.
Qed.

(** ** Reading an output *)
Fixpoint read_lens (n : nat) (data : list Z) : list Z :=
  match n with O => [] | S n => le_val (zslice 0 4 data) :: read_lens n (zdrop 4 data) end.

(** The layers with the given lengths, and what follows them. *)
Fixpoint read_layers (w : Z) (lens data : list Z) : list (list (list Z * Z)) * list Z :=
  match lens with
  | [] => ([], data)
  | n :: lens =>
      let '(ls, rest) := read_layers w lens (zdrop n data) in
      (parse (Z.to_nat (n / entry_len w)) w 4 data :: ls, rest)
  end.

(** The first value of a key, if the filter lets it pass. *)
Definition search (w : Z) (hasher : list Z -> Z) (kl vl : Z) (data key : list Z) : res (option Z) :=
  n ← load 4 data 0;
  let data := zdrop 4 data in
  filter ← load_BloomFilter data n FILTER_K_LEN;
  passes ← contains hasher filter key;
  let data := zdrop n data in
  let depth := Z.to_nat (slices_in w kl) in
  let '(ls, values) := read_layers w (read_lens depth data) (zdrop (4 * slices_in w kl) data) in
  if negb passes then Ok None else
  Ok (i ← look ls (slices depth w key) 0; Some (le_val (zslice (i * vl) vl values))).

Lemma read_lens_ok ns rest : Forall (fun n => 0 <= n < 2 ^ 32) ns ->
  read_lens (length ns) (concat (le_bytes 4 <$> ns) ++ rest) = ns /\ zlen (concat (le_bytes 4 <$> ns)) = 4 * zlen ns.
Proof.
  induction 1 as [|n ns Hn _ [IH IHl]]; [done|]. rewrite fmap_cons. cbn [concat length read_lens]. rewrite <-app_assoc.
  rewrite zslice_take_app, zdrop_app, IH by (by rewrite zlen_le_bytes). split.
  - f_equal. by apply le_val_le_bytes.
  - rewrite zlen_app, IHl, zlen_le_bytes, zlen_cons. lia.
Qed.

Lemma read_layers_ok w ls rest : 0 < w <= 4 -> Forall (Forall (entry_good w)) ls ->
  read_layers w ((fun es => zlen (flat 4 es)) <$> ls) (concat (flat 4 <$> ls) ++ rest) = (ls, rest).
Proof.
  intros Hw. induction 1 as [|es ls He _ IH]; [done|]. rewrite !fmap_cons. cbn [concat read_layers].
  rewrite <-app_assoc, zdrop_app, IH by done. rewrite (zlen_flat_good w es He), Z.div_mul by (unfold entry_len; lia).
  unfold zlen. rewrite Nat2Z.id, parse_flat; [done|lia|lia|exact He].
Qed.

Lemma load_filter_ok n k f rest : filter_ok n k f -> load_BloomFilter (bitArray f ++ rest) n k = Ok f.
Proof.
  intros (Hl & Hk & _). unfold load_BloomFilter. pose proof (zlen_nonneg (bitArray f)). pose proof (zlen_nonneg rest).
  rewrite zread_Ok by (rewrite ?zlen_app; lia). cbn [mbind res_bind]. rewrite zslice_take_app by done.
  destruct f. cbn in *. by subst.
Qed.

Lemma last_key_snoc l es k v : last_key l (es ++ [(k, v)]) = k.
Proof. unfold last_key. by rewrite last_snoc. Qed.

Lemma add_0_list (l : list Z) : Z.add 0 <$> l = l.
Proof. induction l as [|x l IH]; [done|]. rewrite fmap_cons, IH. done. Qed.

(** ** The loop over the nodes *)
Section written.
Context (w : Z) (Hw : 0 < w <= 4) (hasher : list Z -> Z).
Context (s : SkipList) (X : Z -> list Z) (Hi : inv s X) (Hvl : 0 < valueLen s <= 8).
Let kl := keyLen s.
Let vl := valueLen s.
Let m := mem s.
Context (N : nat) (HN : N <> O) (Hkl : kl = w * Z.of_nat N) (Hslices : slices_in w kl = Z.of_nat N).

Definition le_keys (x y : list Z * Z) : Prop := le_val x.1 <= le_val y.1.
Definition key_good (e : list Z * Z) : Prop := zlen e.1 = kl /\ bytes e.1.

Let all := entries m X.
Context (Hnum : nodeNum s = zlen (X 0)) (Hcount : zlen (X 0) * 8 < 2 ^ 32).
Context (Hsorted : StronglySorted le_keys all) (Hall : Forall key_good all).

Definition sliced (es : list (list Z * Z)) : list (list (list Z) * Z) :=
  (fun e => (slices N w e.1, e.2)) <$> index_of 0 [] es.

Definition trie_state (es : list (list Z * Z)) (l : Layers) (new : bool) : Prop :=
  es = [] /\ l = state_of (no_layers N) /\ new = true
  \/ es <> [] /\ new = false /\ exists k u ls, k <= zlen es /\ Built w N k u ls (sliced es) /\
     l = state_of ls /\ open_path ls = slices N w (last_key [] es).

Lemma kl_pos : 0 < kl.
Proof. rewrite Hkl. nia. Qed.

Lemma key_not_empty (k : list Z) : zlen k = kl -> [] <> k.
Proof. pose proof kl_pos. intros H0 <-. change (zlen []) with 0 in H0. lia. Qed.

Lemma key_slices (k : list Z) : zlen k = kl -> length (slices N w k) = N /\ Forall (fun x => zlen x = w) (slices N w k) /\
  reads w k (Z.of_nat N) 0 (slices N w k).
Proof.
  intros Hk. split; [apply length_slices|]. split; [apply zlen_slices; lia|]. apply slices_read; lia.
Qed.

(** The keys before a sorted entry. *)
Lemma sorted_last es k v rest : es ++ (k, v) :: rest = all ->
  zlen k = kl /\ bytes k /\ Forall (fun e => key_good e /\ le_val e.1 <= le_val (last_key [] es) <= le_val k) es.
Proof.
  intros E. rewrite <-E in Hall, Hsorted. apply Forall_app in Hall as [Hes Hk]. apply Forall_cons in Hk as [[Hk1 Hk2] _].
  split; [done|]. split; [done|]. apply StronglySorted_app in Hsorted as (Hlt & Hs & _).
  apply Forall_forall. intros e He. split; [by eapply Forall_forall|].
  destruct (last es) as [el|] eqn:El; [|apply last_None in El; subst; by apply elem_of_nil in He].
  unfold last_key. rewrite El. cbn. split.
  - apply last_Some in El as [es' ->]. apply StronglySorted_app in Hs as (Hs' & _ & _). apply elem_of_app in He as [He|He].
    + apply Hs'; [done|by left].
    + apply list_elem_of_singleton in He as ->. lia.
  - apply (Hlt el (k, v)); [|by left]. apply last_Some in El as [es' ->]. apply elem_of_app. right. by left.
Qed.

Lemma index_in es i l e : e ∈ index_of i l es -> exists v, (e.1, v) ∈ es.
Proof.
  revert i l. induction es as [|[k v] es IH]; intros i l; cbn [index_of]; [intros []%elem_of_nil|].
  case_bool_decide; intros He; [|apply elem_of_cons in He as [->|He]]; try (exists v; by left);
    destruct (IH _ _ He) as [v' Hv']; exists v'; by right.
Qed.

Lemma sliced_together es k v rest : es ++ (k, v) :: rest = all ->
  together (sliced es) (slices N w (last_key [] es)) (slices N w k).
Proof.
  intros E n xs i Hin. destruct (sorted_last es k v rest E) as (Hk & Hbk & Hes). unfold sliced in Hin.
  apply list_elem_of_fmap in Hin as ([k0 i0] & [= -> ->] & Hin). cbn [fst snd] in *.
  apply index_in in Hin as [v0 Hin]. cbn [fst] in Hin. rewrite Forall_forall in Hes. pose proof (Hes _ Hin) as ((H1 & H2) & H3).
  cbn [fst] in *. assert (Hlast : key_good (last_key [] es, 0)).
  { destruct (last es) as [[kl' vl']|] eqn:El; [|apply last_None in El; subst es; by apply elem_of_nil in Hin].
    pose proof (last_Some es (kl', vl')) as [Hl _]. destruct (Hl El) as [es' Ees].
    destruct (Hes (kl', vl')) as [Hg _]; [rewrite Ees; apply elem_of_app; right; by left|].
    unfold last_key. rewrite El. exact Hg. }
  destruct Hlast as [H4 H5]. cbn [fst] in *. apply between_slices; (done || lia).
Qed.

Lemma index_count es : forall i l, zlen (index_of i l es) <= zlen es.
Proof.
  induction es as [|[k v] es IH]; intros i l; [done|]. cbn [index_of]. rewrite zlen_cons.
  case_bool_decide; [specialize (IH (i + 1) l)|rewrite zlen_cons; specialize (IH (i + 1) k)]; lia.
Qed.

Lemma last_key_good es k v rest : es ++ (k, v) :: rest = all -> es <> [] -> zlen (last_key [] es) = kl.
Proof.
  intros E Hes. destruct (last es) as [[k1 v1]|] eqn:El; [|by apply last_None in El].
  destruct (sorted_last es k v rest E) as (_ & _ & Hg). unfold last_key. rewrite El.
  apply last_Some in El as [es' ->]. apply Forall_app in Hg as [_ [[[Hg _] _] _]%Forall_cons]. exact Hg.
Qed.

Lemma slices_inj a b : zlen a = kl -> zlen b = kl -> slices N w a = slices N w b -> a = b.
Proof.
  intros Ha Hb E. assert (Et : take N (slices N w a) = take N (slices N w b)) by (by rewrite E).
  apply take_slices in Et; [|lia..]. by rewrite Nat.sub_diag, Z.mul_0_r, !zslice_full in Et by lia.
Qed.

Lemma sliced_snoc es k v : last_key [] es <> k -> sliced (es ++ [(k, v)]) = sliced es ++ [(slices N w k, zlen es)].
Proof. intros Hne. unfold sliced. by rewrite index_of_snoc, bool_decide_false, fmap_app. Qed.

Lemma no_layers_all (P : ALayer -> Prop) : P (mkALayer [] None 0) -> Forall P (no_layers N).
Proof. intros HP. by apply Forall_replicate. Qed.

Lemma zlen_no_layers : zlen (no_layers N) = Z.of_nat N.
Proof. unfold no_layers. by rewrite zlen_replicate. Qed.

(** The first key, and the keys after it. *)
Lemma trie_first k v rest : (k, v) :: rest = all ->
  exists l', layer_loop w k (Z.of_nat N) 0 vl true (state_of (no_layers N)) (zseq (Z.of_nat N)) = Ok l' /\
    trie_state [(k, v)] l' false.
Proof.
  intros E. destruct (sorted_last [] k v rest E) as (Hk & _ & _). destruct (key_slices k Hk) as (S1 & S2 & S3).
  pose proof (layer_loop_fresh w Hw k (Z.of_nat N) 0 vl (slices N w k) ltac:(unfold vl; lia) 0 [] (no_layers N)) as Hf.
  change (zlen (@nil ALayer)) with 0 in Hf. cbn [app] in Hf. rewrite add_0_list, zlen_no_layers, Z.div_0_l in Hf by (unfold vl; lia).
  rewrite Hf; [|by rewrite S1; unfold no_layers; rewrite length_replicate|right; by apply no_layers_all
    |apply no_layers_all; constructor|apply no_layers_all; reflexivity|unfold OFFSET_BIT; lia|lia|done].
  eexists. split; [done|]. right. split; [done|]. split; [done|].
  destruct (built_first w N HN (slices N w k) 0 S1 S2 ltac:(unfold OFFSET_BIT; lia)) as [B Ep].
  exists 1, 0, (fresh 0 (no_layers N) (slices N w k) 0). split; [done|]. split; [|by split].
  pose proof (sliced_snoc [] k v ltac:(by apply key_not_empty)) as Es. cbn [app] in Es. rewrite Es. exact B.
Qed.

Lemma trie_next es k v rest c u ls : es ++ (k, v) :: rest = all -> es <> [] -> zlen es < 2 ^ 29 -> last_key [] es <> k ->
  c <= zlen es -> Built w N c u ls (sliced es) -> open_path ls = slices N w (last_key [] es) ->
  exists l', layer_loop w k (Z.of_nat N) (zlen es * vl) vl false (state_of ls) (zseq (Z.of_nat N)) = Ok l' /\
    trie_state (es ++ [(k, v)]) l' false.
Proof.
  intros E Hes Hlen Hne Hc B Ep. destruct (sorted_last es k v rest E) as (Hk & _ & _). destruct (key_slices k Hk) as (S1 & S2 & S3).
  pose proof (zlen_nonneg es) as Hz.
  pose proof (layer_loop_follow w Hw k (Z.of_nat N) (zlen es * vl) vl ls ltac:(unfold vl; lia) u [] (slices N w k)) as Hf.
  change (zlen (@nil ALayer)) with 0 in Hf. cbn [app] in Hf. rewrite add_0_list, Z.div_mul in Hf by (unfold vl; lia).
  assert (Hnl : zlen ls = Z.of_nat N) by (unfold zlen; f_equal; apply (bt_length _ _ _ _ _ _ B)).
  assert (Hc0 : 0 <= c).
  { pose proof (bt_sizes _ _ _ _ _ _ B) as Hs. destruct ls as [|a ls]; [change (zlen []) with 0 in Hnl; lia|].
    apply Forall_cons in Hs as [Ha _]. pose proof (size_nonneg a). lia. }
  rewrite Hnl in Hf. rewrite Hf; [|rewrite S1; unfold zlen in Hnl; lia|apply B|apply B
    |apply (built_small w N HN c u ls _ B); unfold OFFSET_BIT; lia|apply B| |lia|done].
  2:{ eapply Forall_impl; [apply (bt_counts _ _ _ _ _ _ B)|]. intros a Ha. cbn in Ha. lia. }
  eexists. split; [done|]. right. split; [by destruct es|]. split; [done|].
  destruct (built_next w N HN c u ls (sliced es) (slices N w k) (zlen es) B ltac:(unfold OFFSET_BIT; lia) S1 S2
    ltac:(unfold OFFSET_BIT; lia)) as [B2 Ep2].
  - rewrite Ep. by eapply sliced_together.
  - rewrite Ep. intros Es. apply Hne. apply slices_inj; [by eapply last_key_good|done|done].
  - exists (c + 1), (zlen es), (follow u ls (slices N w k) (zlen es)). rewrite sliced_snoc, last_key_snoc by done.
    split; [rewrite zlen_app; change (zlen [_]) with 1; lia|]. by split.
Qed.

Lemma trie_key es k v rest l new : es ++ (k, v) :: rest = all -> trie_state es l new -> zlen es < 2 ^ 29 -> last_key [] es <> k ->
  exists l', layer_loop w k (Z.of_nat N) (zlen es * vl) vl new l (zseq (Z.of_nat N)) = Ok l' /\
    trie_state (es ++ [(k, v)]) l' false.
Proof.
  intros E [(-> & -> & ->)|(Hes & -> & c & u & ls & Hc & B & -> & Ep)] Hlen Hne; [by eapply trie_first|by eapply trie_next].
Qed.

(** *** The state of the loop *)
Definition cuts (es : list (list Z * Z)) : list Z := concat ((fun e => cut vl e.2) <$> es).

Lemma cuts_snoc es k v : cuts (es ++ [(k, v)]) = cuts es ++ cut vl v.
Proof. unfold cuts. rewrite fmap_app, concat_app. cbn. by rewrite app_nil_r. Qed.

Lemma zlen_cuts es : zlen (cuts es) = zlen es * vl.
Proof.
  unfold cuts. rewrite concat_cuts, (zlen_flat 0).
  - rewrite zlen_fmap. lia.
  - unfold vl. lia.
  - by apply Forall_fmap, Forall_true.
Qed.

Record Written (es : list (list Z * Z)) (st : Compressed) : Prop := {
  wr_layers : trie_state es (c_layers st) (c_new st);
  wr_filter : insert_all hasher (new_BloomFilter (nodeNum s) FILTER_K_LEN) (index_of 0 [] es).*1 = Ok (c_filter st);
  wr_values : exists b, c_values st = cuts es ++ b /\ zlen b = (zlen (X 0) - zlen es) * vl;
  wr_offset : c_offset st = zlen es * vl;
  wr_last : c_last st = last_key [] es }.

Lemma zlen_all : zlen all = zlen (X 0).
Proof. unfold all, entries. apply zlen_fmap. Qed.

Lemma key_step_ok es k v rest st : es ++ (k, v) :: rest = all -> Written es st ->
  exists st', key_step w hasher s st k = Ok st' /\ c_last st' = k /\ c_offset st' = c_offset st /\ c_values st' = c_values st /\
    trie_state (es ++ [(k, v)]) (c_layers st') false /\
    insert_all hasher (new_BloomFilter (nodeNum s) FILTER_K_LEN) (index_of 0 [] (es ++ [(k, v)])).*1 = Ok (c_filter st').
Proof.
  intros E [Hl Hf _ Ho Hlast]. destruct (sorted_last es k v rest E) as (Hk & _ & _).
  assert (Hcnt : zlen es < zlen (X 0)).
  { rewrite <-zlen_all, <-E, zlen_app, zlen_cons. pose proof (zlen_nonneg rest). lia. }
  pose proof (zlen_nonneg es). unfold key_step. rewrite Hlast. destruct (bool_decide_reflect (k = last_key [] es)) as [Hsame|Hne].
  - exists st. rewrite index_of_snoc, bool_decide_true, app_nil_r by done. rewrite Hlast. split_and!; try done.
    destruct Hl as [(-> & _)|(Hes & _ & c & u & ls & Hc & B & El & Ep)].
    { exfalso. by apply (key_not_empty k Hk). }
    right. split; [by destruct es|]. split; [done|]. exists c, u, ls. rewrite zlen_app, last_key_snoc.
    split; [change (zlen [_]) with 1; lia|]. unfold sliced in *. rewrite index_of_snoc, bool_decide_true, app_nil_r by done.
    split; [done|]. split; [done|]. by rewrite Hsame.
  - rewrite index_of_snoc, bool_decide_false, fmap_app by congruence. cbn [fmap list_fmap fst].
    rewrite insert_all_snoc, Hf. cbn [mbind res_bind].
    assert (Hn0 : 0 < nodeNum s < 2 ^ 61) by (rewrite Hnum; lia).
    destruct (insert_all_ok hasher (nodeNum s) FILTER_K_LEN ((index_of 0 [] es).*1 ++ [k]) Hn0 _ (new_filter_ok (nodeNum s) FILTER_K_LEN ltac:(lia)))
      as (f & Ef & _). rewrite insert_all_snoc, Hf in Ef. cbn [mbind res_bind] in Ef. rewrite Ef. cbn [mbind res_bind].
    replace (slices_in w (if w =? 1 then zlen k else keyLen s)) with (Z.of_nat N)
      by (fold kl; rewrite Hk; by destruct (w =? 1)).
    rewrite Ho. destruct (trie_key es k v rest (c_layers st) (c_new st) E Hl ltac:(lia) ltac:(congruence)) as (l' & El' & Hst').
    fold vl. rewrite El'. cbn [mbind res_bind]. eexists. split; [done|]. by cbn.
Qed.

Lemma node_step_ok es q rest st : es ++ entry m q :: rest = all -> Written es st -> is_Some (m !! q) ->
  exists st', node_step w hasher s st q = Ok st' /\ Written (es ++ [entry m q]) st'.
Proof.
  intros E W Hq. destruct (getters s X Hi q Hq) as [Ek Ev]. fold kl m in Ek, Ev.
  set (k := key_of m q) in *. set (v := n_value (node m q)) in *. change (entry m q) with (k, v) in *.
  unfold node_step. fold kl m. rewrite Ek. cbn [mbind res_bind].
  destruct (key_step_ok es k v rest st E W) as (st1 & -> & E1 & E2 & E3 & E4 & E5). cbn [mbind res_bind].
  rewrite Ev. cbn [mbind res_bind]. destruct W as [_ _ (b & Hv & Hb) Ho _]. rewrite E2, E3, Hv, Ho. fold vl.
  assert (Hcnt : zlen es + 1 <= zlen (X 0)).
  { rewrite <-zlen_all, <-E, zlen_app, zlen_cons. pose proof (zlen_nonneg rest). lia. }
  assert (Hvl' : 0 < vl <= 8) by exact Hvl. pose proof (zlen_nonneg es).
  rewrite <-(zlen_cuts es), memcpy_fill by (rewrite ?zlen_le_bytes; nia). cbn [mbind res_bind]. rewrite zlen_cuts.
  rewrite u32_small by nia. eexists. split; [done|]. constructor; cbn [c_layers c_filter c_values c_offset c_last c_new].
  - done.
  - done.
  - exists (zdrop vl b). fold (cut vl v). rewrite cuts_snoc. split; [done|]. rewrite zdrop_zlen by nia.
    rewrite zlen_app. change (zlen [_]) with 1. lia.
  - rewrite zlen_app. change (zlen [_]) with 1. lia.
  - by rewrite last_key_snoc.
Qed.

Lemma compress_nodes_ok K : forall es p fuel st, chain kl m 0 p K -> (length K < fuel)%nat -> es ++ (entry m <$> K) = all ->
  Written es st ->
  exists st', (node ← getNext kl m p 0; compress_nodes w hasher fuel s node st) = Ok st' /\ Written all st'.
Proof.
  induction K as [|q K IH]; intros es p fuel st Hc Hf E W; (destruct fuel as [|fuel]; [lia|]).
  - cbn [chain] in Hc. rewrite Hc. cbn [fmap list_fmap] in E. rewrite app_nil_r in E. subst es. by exists st.
  - destruct Hc as (-> & Hq & Hs & Hc). cbn [mbind res_bind compress_nodes]. fold kl m.
    rewrite (proj2 (Z.eqb_neq q nullptr)) by done. rewrite fmap_cons in E.
    destruct (node_step_ok es q _ st E W Hs) as (st1 & -> & W1). cbn [mbind res_bind].
    apply (IH (es ++ [entry m q])); [done|cbn in Hf; lia| |done]. by rewrite <-app_assoc.
Qed.

Lemma start_written : Written [] (start_compressed w s).
Proof.
  pose proof (zlen_nonneg (X 0)). assert (Hvl' : 0 < vl <= 8) by exact Hvl.
  unfold start_compressed. fold kl. rewrite Hslices, Nat2Z.id. constructor; cbn [c_layers c_filter c_values c_offset c_last c_new].
  - left. split; [done|]. split; [|done]. unfold state_of, no_layers. by rewrite !fmap_replicate.
  - done.
  - eexists. split; [done|]. fold vl. rewrite Hnum, u64_small by nia. rewrite zlen_replicate. change (zlen []) with 0. nia.
  - done.
  - done.
Qed.

(** *** The output *)
Lemma closed_layers l new : trie_state all l new -> exists l' Ls,
  close_last w l (Z.of_nat N) (zseq (Z.of_nat N)) = Ok l' /\ layers l' = flat 4 <$> Ls /\
  length Ls = N /\ Forall (Forall (entry_good w)) Ls /\ Forall (fun es => zlen es <= zlen (X 0)) Ls /\
  forall k i, (k, i) ∈ index_of 0 [] all -> look Ls (slices N w k) 0 = Some i.
Proof.
  pose proof (zlen_nonneg (X 0)). intros [(Ea & -> & _)|(_ & _ & c & u & ls & Hc & B & -> & _)].
  - pose proof (close_last_ok w (no_layers N) 0 [] (Z.of_nat N)) as Hcl. change (zlen (@nil ALayer)) with 0 in Hcl.
    cbn [app] in Hcl. rewrite add_0_list, zlen_no_layers in Hcl.
    destruct Hcl as (l' & E & El); [right; by apply no_layers_all|apply no_layers_all; constructor|unfold OFFSET_BIT; lia|lia|].
    exists l', (finish 0 (no_layers N)). split; [done|]. split; [done|].
    split; [rewrite finish_length; unfold no_layers; apply length_replicate|].
    split; [apply finish_good; [apply no_layers_all; constructor|unfold OFFSET_BIT; lia]|].
    split; [apply finish_sizes, no_layers_all; change (size (mkALayer [] None 0)) with 0; lia|].
    rewrite Ea. intros k i Hin. by apply elem_of_nil in Hin.
  - pose proof (built_ne w N HN _ _ _ _ B) as Hne. destruct B as [HL Htrie Hlens Ho Hg Hsz _ Hu].
    assert (Hnl : zlen ls = Z.of_nat N) by (unfold zlen; by rewrite HL).
    pose proof (close_last_ok w ls u [] (Z.of_nat N)) as Hcl. change (zlen (@nil ALayer)) with 0 in Hcl.
    cbn [app] in Hcl. rewrite add_0_list, Hnl in Hcl.
    destruct Hcl as (l' & E & El); [by left|done|done|lia|].
    exists l', (finish u ls). split; [done|]. split; [done|]. split; [by rewrite finish_length|].
    split; [by apply finish_good|]. split.
    + apply finish_sizes. eapply Forall_impl; [exact Hsz|]. intros a Ha. cbn in Ha. rewrite zlen_all in Hc. lia.
    + intros k i Hin. apply (finish_look ls 0 (sliced all) u); try done; [by rewrite HL|by apply Ho|].
      unfold sliced. apply list_elem_of_fmap. by exists (k, i).
Qed.

(** The parts of an output. *)
Definition parts (f : BloomFilter) (Ls : list (list (list Z * Z))) : list Z :=
  le_bytes 4 (zlen (X 0)) ++ bitArray f ++ concat (le_bytes 4 <$> ((fun es => zlen (flat 4 es)) <$> Ls))
  ++ concat (flat 4 <$> Ls) ++ cuts all.

Lemma output_ok : exists f Ls, output_compressed w hasher s = Ok (parts f Ls) /\
  insert_all hasher (new_BloomFilter (zlen (X 0)) FILTER_K_LEN) (index_of 0 [] all).*1 = Ok f /\
  length Ls = N /\ Forall (Forall (entry_good w)) Ls /\ Forall (fun es => zlen es <= zlen (X 0)) Ls /\
  forall k i, (k, i) ∈ index_of 0 [] all -> look Ls (slices N w k) 0 = Some i.
Proof.
  pose proof (level0_fuel s X Hi) as Hf. fold m in Hf.
  destruct (compress_nodes_ok (X 0) [] (head s) (enough m) (start_compressed w s) (level0 s X Hi)
    ltac:(unfold enough; simpl in Hf; lia) eq_refl start_written) as (st & E & W).
  destruct W as [Hl Hfl (b & Hv & Hb) _ _]. destruct (closed_layers _ _ Hl) as (l' & Ls & Ecl & El & H1 & H2 & H3 & H4).
  exists (c_filter st), Ls. rewrite Hnum in Hfl. split; [|by split_and!].
  unfold output_compressed. fold kl m. destruct (getNext kl m (head s) 0) as [q| | |]; cbn [mbind res_bind] in *; try discriminate E.
  rewrite E. cbn [mbind res_bind]. rewrite Hslices, Ecl. cbn [mbind res_bind]. f_equal. unfold output_bytes, parts.
  cbn [c_filter c_layers c_values]. rewrite Hnum, El, Hv. rewrite zlen_all, Z.sub_diag in Hb.
  destruct b; [|rewrite zlen_cons in Hb; pose proof (zlen_nonneg b); lia]. rewrite app_nil_r. do 3 f_equal.
  by rewrite <-!list_fmap_compose.
Qed.

Lemma search_ok f Ls l1 k v l2 : all = l1 ++ (k, v) :: l2 -> k ∉ l1.*1 -> 0 <= v < 2 ^ (8 * vl) ->
  insert_all hasher (new_BloomFilter (zlen (X 0)) FILTER_K_LEN) (index_of 0 [] all).*1 = Ok f ->
  length Ls = N -> Forall (Forall (entry_good w)) Ls -> Forall (fun es => zlen es <= zlen (X 0)) Ls ->
  (forall k i, (k, i) ∈ index_of 0 [] all -> look Ls (slices N w k) 0 = Some i) ->
  search w hasher kl vl (parts f Ls) k = Ok (Some v).
Proof.
  intros E Hk Hv Hf HL Hg Hsz Hlook. assert (Hz : 0 < zlen (X 0)).
  { rewrite <-zlen_all, E, zlen_app, zlen_cons. pose proof (zlen_nonneg l1). pose proof (zlen_nonneg l2). lia. }
  assert (Hkl' : zlen k = kl).
  { rewrite E in Hall. by apply Forall_app in Hall as [_ [[? _] _]%Forall_cons]. }
  assert (Hidx : (k, zlen l1) ∈ index_of 0 [] all).
  { rewrite E. apply (index_first k v l1 l2 Hk 0 []). by apply key_not_empty. }
  destruct (insert_all_answers hasher (zlen (X 0)) FILTER_K_LEN _ f ltac:(lia) Hf) as [_ Hc].
  destruct (insert_all_ok hasher (zlen (X 0)) FILTER_K_LEN (index_of 0 [] all).*1 ltac:(lia) _ (new_filter_ok (zlen (X 0)) FILTER_K_LEN ltac:(lia)))
    as (f' & Ef & Hfok & _). rewrite Hf in Ef. injection Ef as <-.
  assert (Hlens : Forall (fun n => 0 <= n < 2 ^ 32) ((fun es => zlen (flat 4 es)) <$> Ls)).
  { apply Forall_fmap. rewrite Forall_forall in Hg, Hsz |- *. intros es Hin. pose proof (Hsz es Hin) as Hs. pose proof (Hg es Hin) as Hges.
    cbn [compose]. rewrite (zlen_flat_good w es Hges). pose proof (zlen_nonneg es). unfold entry_len. nia. }
  destruct (read_lens_ok _ (concat (flat 4 <$> Ls) ++ cuts all) Hlens) as [Hrl Hll]. rewrite length_fmap, HL in Hrl.
  unfold search, parts, load. rewrite zread_Ok by (rewrite ?zlen_app, ?zlen_le_bytes; pose proof (zlen_nonneg (bitArray f));
    pose proof (zlen_nonneg (concat (le_bytes 4 <$> ((fun es => zlen (flat 4 es)) <$> Ls))));
    pose proof (zlen_nonneg (concat (flat 4 <$> Ls))); pose proof (zlen_nonneg (cuts all)); lia).
  cbn [mbind res_bind]. rewrite zslice_take_app, zdrop_app, le_val_le_bytes by (rewrite ?zlen_le_bytes; lia).
  rewrite (load_filter_ok _ _ _ _ Hfok). cbn [mbind res_bind].
  rewrite (Hc k) by (apply list_elem_of_fmap; by exists (k, zlen l1)). cbn [mbind res_bind].
  rewrite zdrop_app by (symmetry; apply Hfok). rewrite Hslices, Nat2Z.id, Hrl.
  rewrite zdrop_app by (rewrite Hll, zlen_fmap; unfold zlen; by rewrite HL).
  rewrite read_layers_ok by done. cbn [negb]. rewrite (Hlook _ _ Hidx). cbn [mbind option_bind]. do 2 f_equal.
  rewrite <-(zlen_cuts l1). rewrite E. unfold cuts. rewrite fmap_app, fmap_cons, concat_app. cbn [concat fst snd].
  rewrite zslice_drop_app by done. rewrite zslice_take_app by (rewrite zlen_cut; unfold vl; lia).
  apply le_val_cut; [unfold vl; lia|done].
Qed.
End written.

(** ** The order of every key length is that of numbers *)

(** The four bytes that the compiler leaves between the ports and the
    addresses of a [QuarTurpleIPv6]. *)
Definition unpadded (kl : Z) (key : list Z) : Prop := kl = 40 -> le_val (zslice 4 4 key) = 0.

Lemma le_val_two o k n p B t l : t = k + n -> p = o + k -> B = 2 ^ (8 * k) -> 0 <= o -> 0 <= k -> 0 <= n -> o + t <= zlen l ->
  le_val (zslice o t l) = le_val (zslice o k l) + B * le_val (zslice p n l).
Proof. intros -> -> -> Ho Hk Hn Hl. by rewrite zslice_app, le_val_app, zlen_zslice by lia. Qed.

Lemma bytes_slice o n l : bytes l -> bytes (zslice o n l).
Proof. intros. unfold zslice. by apply Forall_take, Forall_drop. Qed.

Lemma slice_range o n l : bytes l -> 0 <= o -> 0 <= n -> o + n <= zlen l -> 0 <= le_val (zslice o n l) < 2 ^ (8 * n).
Proof.
  intros Hb Ho Hn Hl. pose proof (le_val_range _ (bytes_slice o n l Hb)) as H. by rewrite zlen_zslice in H by lia.
Qed.

Lemma dec_ipv6_num l : bytes l -> zlen l = 16 -> ipv6_wf (dec_ipv6 l) /\ ipv6_num (dec_ipv6 l) = le_val l.
Proof.
  intros Hb Hl. split.
  - split; apply (slice_range _ 8); (done || lia).
  - rewrite <-(zslice_full l 16) at 2 by lia. rewrite (le_val_two 0 8 8 8 (2 ^ 64)) by (done || lia). unfold ipv6_num, dec_ipv6. cbn [low high]. lia.
Qed.

Lemma dec_ipv6_lt a b : bytes a -> bytes b -> zlen a = 16 -> zlen b = 16 ->
  ipv6_lt (dec_ipv6 a) (dec_ipv6 b) = (le_val a <? le_val b).
Proof.
  intros Ha Hb La Lb. destruct (dec_ipv6_num a Ha La) as [Wa <-]. destruct (dec_ipv6_num b Hb Lb) as [Wb <-]. by apply ipv6_lt_num.
Qed.

Lemma quar4_number l : bytes l -> zlen l = 12 ->
  le_val l = q4_dstport (dec_quar4 l) + 2 ^ 16 * (q4_srcport (dec_quar4 l) + 2 ^ 16 * (q4_dstip (dec_quar4 l) + 2 ^ 32 * q4_srcip (dec_quar4 l)))
  /\ is_u 16 (q4_dstport (dec_quar4 l)) /\ is_u 16 (q4_srcport (dec_quar4 l)) /\ is_u 32 (q4_dstip (dec_quar4 l)).
Proof.
  intros Hb Hl. unfold dec_quar4. cbn [q4_dstport q4_srcport q4_dstip q4_srcip]. split.
  - rewrite <-(zslice_full l 12) at 1 by lia. rewrite (le_val_two 0 2 10 2 (2 ^ 16)), (le_val_two 2 2 8 4 (2 ^ 16)), (le_val_two 4 4 4 8 (2 ^ 32)) by (done || lia). done.
  - split; [|split]; [apply (slice_range 0 2)|apply (slice_range 2 2)|apply (slice_range 4 4)]; (done || lia).
Qed.

Lemma quar6_number l : bytes l -> zlen l = 40 -> unpadded 40 l ->
  le_val l = q6_dstport (dec_quar6 l) + 2 ^ 16 * (q6_srcport (dec_quar6 l) + 2 ^ 48 * (ipv6_num (q6_dstip (dec_quar6 l)) + 2 ^ 128 * ipv6_num (q6_srcip (dec_quar6 l))))
  /\ is_u 16 (q6_dstport (dec_quar6 l)) /\ is_u 16 (q6_srcport (dec_quar6 l)) /\ ipv6_wf (q6_dstip (dec_quar6 l)) /\ ipv6_wf (q6_srcip (dec_quar6 l)).
Proof.
  intros Hb Hl Hpad. unfold dec_quar6. cbn [q6_dstport q6_srcport q6_dstip q6_srcip].
  destruct (dec_ipv6_num (zslice 8 16 l) (bytes_slice _ _ _ Hb) (zlen_zslice 8 16 l ltac:(lia) ltac:(lia) ltac:(lia))) as [Wd ->].
  destruct (dec_ipv6_num (zslice 24 16 l) (bytes_slice _ _ _ Hb) (zlen_zslice 24 16 l ltac:(lia) ltac:(lia) ltac:(lia))) as [Ws ->].
  split.
  - rewrite <-(zslice_full l 40) at 1 by lia.
    rewrite (le_val_two 0 2 38 2 (2 ^ 16)), (le_val_two 2 2 36 4 (2 ^ 16)), (le_val_two 4 4 32 8 (2 ^ 32)),
      (le_val_two 8 16 16 24 (2 ^ 128)), (Hpad eq_refl) by (done || lia). lia.
  - split; [|split]; [apply (slice_range 0 2)|apply (slice_range 2 2)|by split]; (done || lia).
Qed.

Lemma quar4_lt_num a b : bytes a -> bytes b -> zlen a = 12 -> zlen b = 12 ->
  quar4_lt (dec_quar4 a) (dec_quar4 b) = (le_val a <? le_val b).
Proof.
  intros Ha Hb La Lb. destruct (quar4_number a Ha La) as (-> & A1 & A2 & A3). destruct (quar4_number b Hb Lb) as (-> & B1 & B2 & B3).
  apply eq_true_iff_eq. rewrite quar4_lt_spec, Z.ltb_lt. unfold is_u in *. lia.
Qed.

Lemma quar6_lt_num a b : bytes a -> bytes b -> zlen a = 40 -> zlen b = 40 -> unpadded 40 a -> unpadded 40 b ->
  quar6_lt (dec_quar6 a) (dec_quar6 b) = (le_val a <? le_val b).
Proof.
  intros Ha Hb La Lb Pa Pb. destruct (quar6_number a Ha La Pa) as (-> & A1 & A2 & A3 & A4). destruct (quar6_number b Hb Lb Pb) as (-> & B1 & B2 & B3 & B4).
  apply eq_true_iff_eq. rewrite quar6_lt_spec, !ipv6_lt_num, !Z.ltb_lt by done.
  assert (Es : q6_srcip (dec_quar6 a) = q6_srcip (dec_quar6 b) <-> ipv6_num (q6_srcip (dec_quar6 a)) = ipv6_num (q6_srcip (dec_quar6 b)))
    by (split; [by intros ->|by apply ipv6_num_inj]).
  assert (Ed : q6_dstip (dec_quar6 a) = q6_dstip (dec_quar6 b) <-> ipv6_num (q6_dstip (dec_quar6 a)) = ipv6_num (q6_dstip (dec_quar6 b)))
    by (split; [by intros ->|by apply ipv6_num_inj]).
  rewrite Es, Ed. apply ipv6_num_range in A3, A4, B3, B4. unfold is_u in *. lia.
Qed.

Lemma lt_number kl a b : known kl = true -> bytes a -> bytes b -> zlen a = kl -> zlen b = kl -> unpadded kl a -> unpadded kl b ->
  lt kl a b = (le_val a <? le_val b).
Proof.
  intros Hk Ha Hb La Lb Pa Pb. unfold lt, compare_keys. rewrite Hk. clear Hk.
  destruct (Z.eqb_spec kl 12) as [->|_]; [rewrite compare_lt; by apply quar4_lt_num|].
  destruct (Z.eqb_spec kl 16) as [->|_]; [rewrite compare_lt; by apply dec_ipv6_lt|].
  destruct (Z.eqb_spec kl 40) as [->|_]; [rewrite compare_lt; by apply quar6_lt_num|].
  exact (compare_lt (le_val a) (le_val b)).
Qed.

(** ** What the outputs promise *)
Lemma sorted_impl {A} (R R' : A -> A -> Prop) (P : A -> Prop) l :
  (forall x y, P x -> P y -> R x y -> R' x y) -> Forall P l -> StronglySorted R l -> StronglySorted R' l.
Proof.
  intros HR HP. induction 1 as [|x l _ IH Hx]; [constructor|]. apply Forall_cons in HP as [Hpx HP]. constructor; [by apply IH|].
  rewrite Forall_forall in *. intros y Hy. by apply HR; auto.
Qed.

Definition first_value (es : list (list Z * Z)) (k : list Z) (v : Z) : Prop :=
  exists l1 l2, es = l1 ++ (k, v) :: l2 /\ k ∉ l1.*1.

Section searched.
Context (hasher : list Z -> Z) (m : Mem) (p maxLvl kl vl maxNode : Z) (calls : list Call).
Context (Hk : known kl = true) (Hm : 0 < maxLvl < 2 ^ 31) (Hn : 0 <= maxNode < 2 ^ 64 - 1).
Context (Hp : m !! p = None) (Hp0 : p <> nullptr) (Hg : good_calls m p kl calls).
Context (Hc : Forall (fun c => bytes (c_key c) /\ unpadded kl (c_key c) /\ 0 <= c_value c < 2 ^ (8 * vl)) calls).
Context (Hvl : 0 < vl <= 8) (Hlen : zlen calls * 8 < 2 ^ 32).

Lemma output_searched w bs s : 0 < w <= 4 -> kl mod w = 0 -> slices_in w kl = kl / w ->
  run_list m p maxLvl kl vl maxNode calls = Ok (bs, s) ->
  exists data, output_compressed w hasher s = Ok data /\
    forall k v, first_value (held kl (kept maxNode calls)) k v -> search w hasher kl vl data k = Ok (Some v).
Proof.
  intros Hw Hdiv Hsl E0.
  destruct (run_list_ok m p maxLvl kl vl maxNode calls Hk Hm Hn Hp Hp0 Hg) as (bs' & s' & X & E & _ & Hi & Ekl & Evl & Hnum & He).
  rewrite E0 in E. injection E as <- <-. destruct Hg as [_ Hall].
  assert (Hok : Forall (fun e => (zlen e.1 = kl /\ bytes e.1 /\ unpadded kl e.1) /\ 0 <= e.2 < 2 ^ (8 * vl)) (entries (mem s) X)).
  { rewrite He, (held_perm kl). pose proof (conj Hall Hc) as Hboth. apply Forall_and in Hboth.
    eapply forall_kept; [|exact Hboth]. intros c [(H1 & _) (H2 & H3 & H4)]. exact (conj (conj H1 (conj H2 H3)) H4). }
  assert (HL : zlen (kept maxNode calls) = zlen (X 0)).
  { unfold zlen. rewrite <-(held_perm kl), <-He. unfold entries. by rewrite length_fmap. }
  assert (Hle : zlen (X 0) <= zlen calls).
  { rewrite <-HL. unfold kept, zlen. rewrite length_take, length_fmap. lia. }
  assert (Hpos : 0 < kl) by (unfold known in Hk; zbool; lia).
  pose proof (Z.div_mod kl w ltac:(lia)) as Hdm. assert (Hdp : 0 < kl / w) by nia.
  assert (Hkeys : Forall (key_good s) (entries (mem s) X)).
  { eapply Forall_impl; [exact Hok|]. intros e [(H1 & H2 & _) _]. split; [by rewrite Ekl|done]. }
  assert (Hsorted : StronglySorted le_keys (entries (mem s) X)).
  { refine (sorted_impl (fun x y => lt kl y.1 x.1 = false) _ _ _ _ Hok _); [|rewrite He; apply (held_sorted kl Hk)].
    intros x y [(H1 & H2 & H3) _] [(H4 & H5 & H6) _] Hxy. unfold le_keys. rewrite lt_number in Hxy by done.
    by apply Z.ltb_ge in Hxy. }
  pose proof (output_ok w Hw hasher s X Hi ltac:(lia) (Z.to_nat (kl / w)) ltac:(lia) ltac:(rewrite Ekl; lia)
    ltac:(rewrite Ekl, Hsl; lia) ltac:(lia) ltac:(lia) Hsorted Hkeys) as (f & Ls & Eo & H1 & H2 & H3 & H4 & H5).
  eexists. split; [exact Eo|]. intros k v (l1 & l2 & El & Hk1). rewrite <-He in El.
  assert (Hv : 0 <= v < 2 ^ (8 * vl)).
  { rewrite El in Hok. by apply Forall_app in Hok as [_ [[_ ?] _]%Forall_cons]. }
  pose proof (search_ok w Hw hasher s X ltac:(lia) (Z.to_nat (kl / w)) ltac:(lia) ltac:(rewrite Ekl; lia)
    ltac:(rewrite Ekl, Hsl; lia) ltac:(lia) ltac:(lia) Hkeys f Ls l1 k v l2 El Hk1) as Hs.
  rewrite Ekl, Evl in Hs. by apply Hs.
Qed.

(** C39: the compressed outputs of a list can be searched.  For fewer than 2^29
    insertions of values that fit the value's length, of keys of one of the
    lengths that the list knows, where those of 40 bytes ([QuarTurpleIPv6])
    have zeros in their four bytes of padding, the trie in the output of bytes
    leads every key of the list to its first value, the last that was inserted,
    and its Bloom filter lets the key pass; and so does the trie in the output
    of words for keys of four bytes and more, which leaves out the ports. *)
Theorem compressed_outputs_searched bs s : run_list m p maxLvl kl vl maxNode calls = Ok (bs, s) ->
  (exists data, outputToCharCompressed hasher s = Ok data /\
    forall k v, first_value (held kl (kept maxNode calls)) k v -> search 1 hasher kl vl data k = Ok (Some v)) /\
  (4 <= kl -> exists data, outputToCharCompressedInt hasher s = Ok data /\
    forall k v, first_value (held kl (kept maxNode calls)) k v -> search 4 hasher kl vl data k = Ok (Some v)).
Proof.
  intros E. split.
  - apply (output_searched 1 bs); [lia|apply Z.mod_1_r|symmetry; apply Z.div_1_r|done].
  - intros H4. apply (output_searched 4 bs); [lia| |done|done].
    unfold known in Hk. zbool. assert (kl = 4 \/ kl = 8 \/ kl = 12 \/ kl = 16 \/ kl = 40) as [->|[->|[->|[->| ->]]]] by lia; done.
Qed.
End searched.

Module DemoSearch.
(** Four addresses, one of them twice; two bytes per value. *)
Definition address_calls : list Call :=
  [mkCall 10 (fun _ => false) [1; 0; 168; 192] 1; mkCall 20 (fun k => Nat.eqb k 0) [8; 8; 8; 8] 7;
   mkCall 30 (fun _ => true) [1; 0; 168; 192] 300; mkCall 40 (fun _ => false) [2; 0; 168; 192] 4].

Lemma compressed_outputs_searched_witness : exists bs s data,
  run_list ∅ 5 4 4 2 9 address_calls = Ok (bs, s) /\
  outputToCharCompressed DemoBloom.toy_hash s = Ok data /\
  search 1 DemoBloom.toy_hash 4 2 data [1; 0; 168; 192] = Ok (Some 300) /\
  search 1 DemoBloom.toy_hash 4 2 data [8; 8; 8; 8] = Ok (Some 7).
Proof.
  assert (E : exists bs s, run_list ∅ 5 4 4 2 9 address_calls = Ok (bs, s)) by (eexists _, _; vm_compute; reflexivity).
  destruct E as (bs & s & E).
  destruct (compressed_outputs_searched DemoBloom.toy_hash ∅ 5 4 4 2 9 address_calls eq_refl ltac:(lia) ltac:(lia)
    (lookup_empty 5) ltac:(done) ltac:(split; [by apply (bool_decide_unpack _)|by repeat constructor])
    ltac:(by repeat constructor) ltac:(lia) ltac:(done) bs s E) as [(data & Ed & H) _].
  exists bs, s, data. split; [exact E|]. split; [exact Ed|]. split; apply H.
  - exists [([8; 8; 8; 8], 7)], [([1; 0; 168; 192], 1); ([2; 0; 168; 192], 4)].
    split; [vm_compute; reflexivity|by apply (bool_decide_unpack _)].
  - exists [], [([1; 0; 168; 192], 300); ([1; 0; 168; 192], 1); ([2; 0; 168; 192], 4)].
    split; [vm_compute; reflexivity|by apply (bool_decide_unpack _)].
Defined.

(** The padding of a [QuarTurpleIPv6] is not compared, but it is part of the
    trie: with different padding equal slices do not come together, and the
    search for one key finds the value of another. *)
Definition quar6_bytes (port pad : Z) : list Z :=
  le_bytes 2 port ++ le_bytes 2 9 ++ le_bytes 4 pad ++ le_bytes 16 7 ++ le_bytes 16 5.
Definition padded_calls : list Call :=
  [mkCall 10 (fun _ => false) (quar6_bytes 1 0) 1; mkCall 20 (fun _ => false) (quar6_bytes 2 77) 2;
   mkCall 30 (fun _ => false) (quar6_bytes 3 0) 3].
Lemma padding_confuses_search : exists bs s data, run_list ∅ 5 4 40 2 9 padded_calls = Ok (bs, s) /\
  outputToCharCompressed DemoBloom.toy_hash s = Ok data /\
  search 1 DemoBloom.toy_hash 40 2 data (quar6_bytes 1 0) = Ok (Some 1) /\
  search 1 DemoBloom.toy_hash 40 2 data (quar6_bytes 3 0) = Ok (Some 1).
Proof. eexists _, _, _. split; [vm_compute; reflexivity|]. split; [vm_compute; reflexivity|]. split; vm_compute; reflexivity. Qed.
End DemoSearch.
