(* ===== verification/DataHandler.v ===== *)
(** * The offline data handler (experiment/dataHandler.cpp)

    A program that prepares the disk for the query experiments from a capture
    file: it reads the file into memory, walks its records behind the 24-byte
    file header, links each packet to the next one of its flow by storing the
    distance in the earlier packet's header (the field a capture file uses for
    the original length), writes an [IndexStore] record for each packet that
    starts a chain, and copies the linked packets and the index records to
    their places on the block device.

    The capture file is the list of its bytes, the device a function from byte
    addresses to bytes; [pread] and [pwrite] are taken to succeed in full.  The
    contents of fresh memory is a parameter. *)
From S2P Require Import Prelude Util Aggregator Reader.
From Stdlib Require Import ZArith Lia.

(** ** The block device *)
Definition device : Type := Z -> Z.

Definition pread (d : device) (n off : Z) : list Z := (fun i => d (off + i)) <$> zseq n.

Definition pwrite (d : device) (off : Z) (l : list Z) : device := fun a =>
  if a <? off then d a
  else match l !! Z.to_nat (a - off) with Some b => b | None => d a end.

(** A store through a pointer into a buffer. *)
Definition put (buf : list Z) (off : Z) (src : list Z) : res (list Z) :=
  memcpy buf off src 0 (zlen src).

Module Handler.

Definition BUFFER_SIZE : Z := 1024 * 1024 * 1024.
Definition ETH_HEADER_LEN : Z := 14.
Definition INDEX_ENUM_LEN : Z := 72.
Definition DATA_OFFSET : Z := BUFFER_SIZE * 32.
Definition INDEX_OFFSET : Z := BUFFER_SIZE * 48.

(** [value / BUFFER_SIZE]: the macro's text has no parentheses, so that the
    division is by its first factor only. *)
Definition div_BUFFER_SIZE (value : Z) : Z := u64 (u64 (value / 1024 * 1024) * 1024).

(** Pointers into the read buffer are offsets. *)
Record PacketMeta := mkPM { pm_header : Z; pm_data : Z; pm_len : Z }.

(** The byte offsets of the fields of [IndexStore]. *)
Definition at_ts : Z := 0.
Definition at_disk_block_id : Z := 8.
Definition at_position : Z := 16.
Definition at_rx_id : Z := 24.
Definition at_sourceAddress : Z := 32.
Definition at_destinationAddress : Z := 48.
Definition at_sourcePort : Z := 64.
Definition at_destinationPort : Z := 66.
Definition at_version : Z := 68.

Definition readPacket (buf : list Z) (offset : Z) : res (Z * PacketMeta * list Z) :=
  buf ← put buf (offset + 12) (le_bytes 4 MAX32);
  cap ← load 4 buf (offset + 8);
  Ok (u64 (u64 (offset + cap) + PCAP_HEADER_LEN),
      mkPM offset (offset + PCAP_HEADER_LEN) 0, buf).

Definition getFlowMetaData (buf : list Z) (m : PacketMeta) : res FlowMetadata :=
  let p := pm_data m + ETH_HEADER_LEN in
  b0 ← load 1 buf p;
  let version := Z.land (Z.shiftr b0 4) 0x0F in
  if version =? 4 then
    let hl := Z.land b0 0x0F in
    sport ← load 2 buf (p + hl * 4);
    dport ← load 2 buf (p + hl * 4 + 2);
    sip ← load 4 buf (p + 12);
    dip ← load 4 buf (p + 16);
    Ok {| sourceAddress := le_bytes 4 (htonl sip);
          destinationAddress := le_bytes 4 (htonl dip);
          sourcePort := htons sport; destinationPort := htons dport |}
  else if version =? 6 then
    sport ← load 2 buf (p + IPV6_HEADER_LEN);
    dport ← load 2 buf (p + IPV6_HEADER_LEN + 2);
    slow ← load 8 buf (p + 16);
    shigh ← load 8 buf (p + 8);
    dlow ← load 8 buf (p + 32);
    dhigh ← load 8 buf (p + 24);
    let srcip := mkIPv6 (swap_endianness slow) (swap_endianness shigh) in
    let dstip := mkIPv6 (swap_endianness dlow) (swap_endianness dhigh) in
    Ok {| sourceAddress := ipv6_bytes srcip; destinationAddress := ipv6_bytes dstip;
          sourcePort := htons sport; destinationPort := htons dport |}
  else Ok (mkMeta [] [] 0 0).

Definition calDiff (offset last_offset : Z) : Z := u64 (offset - last_offset).

Definition writeIndexToBuffer (value : Z) (meta : FlowMetadata) (ts : Z) (buffer : list Z)
  (offset : Z) : res (Z * list Z) :=
  buffer ← put buffer (offset + at_ts) (le_bytes 8 ts);
  buffer ← put buffer (offset + at_position) (le_bytes 8 value);
  buffer ← put buffer (offset + at_sourceAddress) (sourceAddress meta);
  buffer ← put buffer (offset + at_destinationAddress) (destinationAddress meta);
  buffer ← put buffer (offset + at_sourcePort) (le_bytes 2 (sourcePort meta));
  buffer ← put buffer (offset + at_destinationPort) (le_bytes 2 (destinationPort meta));
  buffer ← put buffer (offset + at_disk_block_id) (le_bytes 8 (div_BUFFER_SIZE value));
  buffer ← put buffer (offset + at_rx_id) (le_bytes 8 0);
  buffer ← put buffer (offset + at_version) (le_bytes 4 (zlen (sourceAddress meta)));
  Ok (u64 (offset + INDEX_ENUM_LEN), buffer).

Definition writeBefore (diff last_offset : Z) (buffer : list Z) : res (list Z) :=
  put buffer (last_offset + 12) (le_bytes 4 diff).

(** ** The packet loop of [main] *)
Record HState := mkH {
  agg : PacketAggregator;
  read_buffer : list Z;
  index_buffer : list Z;
  read_offset : Z;
  index_offset : Z;
  totol_len : Z;
  packet_count : Z }.

(** One turn: [inl] is the code with which [main] returns. *)
Definition handle_packet (s : HState) : res (Z + HState) :=
  '(new_offset, meta, rb) ← readPacket (read_buffer s) (read_offset s);
  let packet_count := u64 (packet_count s + 1) in
  let totol_len := u64 (totol_len s + u64 (new_offset - read_offset s)) in
  ts_h ← load 4 rb (pm_header meta);
  ts_l ← load 4 rb (pm_header meta + 4);
  let ts := Z.lor (Z.shiftl ts_h 32) ts_l in
  flow_meta ← getFlowMetaData rb meta;
  if bool_decide (sourceAddress flow_meta = []) then Ok (inl 3) else
  let '(last, agg) := addPacket (agg s) flow_meta (read_offset s) ts BUFFER_SIZE in
  if negb (last =? MAX64) then
    let diff := u32 (calDiff (read_offset s) last) in
    rb ← writeBefore diff last rb;
    Ok (inr (mkH agg rb (index_buffer s) new_offset (index_offset s) totol_len packet_count))
  else
    '(index_offset, ib) ← writeIndexToBuffer (read_offset s) flow_meta ts (index_buffer s)
                            (index_offset s);
    if BUFFER_SIZE <? index_offset then Ok (inl 2)
    else Ok (inr (mkH agg rb ib new_offset index_offset totol_len packet_count)).

Fixpoint packet_loop (fuel : nat) (len : Z) (s : HState) : res (Z + HState) :=
  match fuel with
  | O => Blocks
  | S fuel =>
      if len <=? totol_len s then Ok (inr s) else
      r ← handle_packet s;
      match r with inl code => Ok (inl code) | inr s => packet_loop fuel len s end
  end.

(** ** The copy loops, [BUFFER_SIZE] bytes at a time *)
Definition batch (i len : Z) : Z := if len <? i + BUFFER_SIZE then len - i else BUFFER_SIZE.

Fixpoint read_batches (fuel : nat) (file : list Z) (len i : Z) (buf : list Z) : res (list Z) :=
  match fuel with
  | O => Blocks
  | S fuel =>
      if negb (i <? len) then Ok buf else
      buf ← put buf i (zslice i (batch i len) file);
      read_batches fuel file len (i + BUFFER_SIZE) buf
  end.

Fixpoint write_batches (fuel : nat) (buf : list Z) (len i : Z) (d : device) : res device :=
  match fuel with
  | O => Blocks
  | S fuel =>
      if negb (i <? len) then Ok d else
      l ← zread buf i (batch i len);
      write_batches fuel buf len (i + BUFFER_SIZE) (pwrite d (i + DATA_OFFSET) l)
  end.

Definition batches (len : Z) : nat := Z.to_nat (len / BUFFER_SIZE) + 2.

Section main.
(** What [new char[n]] holds. *)
Context (uninit : Z -> list Z).

Definition start (rb : list Z) : HState :=
  mkH (new_PacketAggregator (1024 * 1024 * 1024) MAX64) rb (uninit BUFFER_SIZE) 24 0 24 0.

(** [main]: the exit code and the device; [None] is a file or device that
    cannot be opened. *)
Definition main (fuel : nat) (infile : option (list Z)) (outfile : option device)
  : res (Z * option device) :=
  match infile, outfile with
  | Some file, Some dev =>
      let len := zlen file in
      rb ← read_batches (batches len) file len 0 (uninit len);
      r ← packet_loop fuel len (start rb);
      match r with
      | inl code => Ok (code, Some dev)
      | inr s =>
          dev ← write_batches (batches len) (read_buffer s) len 0 dev;
          l ← zread (index_buffer s) 0 (index_offset s);
          Ok (0, Some (pwrite dev INDEX_OFFSET l))
      end
  | _, _ => Ok (-1, outfile)
  end.
End main.

(** * Proofs *)

(** ** Stores into a part of a buffer *)
Lemma put_app_r (a l : list Z) k s : 0 <= k -> put (a ++ l) (zlen a + k) s = (fun l' => a ++ l') <$> put l k s.
Proof.
  intros Hk. unfold put, memcpy. rewrite zlen_app.
  replace ((0 <=? zlen s) && (0 <=? zlen a + k) && (zlen a + k + zlen s <=? zlen a + zlen l)
           && (0 <=? 0) && (0 + zlen s <=? zlen s))
    with ((0 <=? zlen s) && (0 <=? k) && (k + zlen s <=? zlen l) && (0 <=? 0) && (0 + zlen s <=? zlen s)).
  - case_test; [|done]. cbn [fmap res_fmap]. f_equal. unfold zsplice, zlen.
    rewrite take_app_ge by lia. rewrite drop_app_ge by lia. rewrite <-app_assoc.
    f_equal. f_equal; [f_equal; lia|]. f_equal. f_equal. lia.
  - pose proof (zlen_nonneg a). apply eq_iff_eq_true. rewrite !andb_true_iff, !Z.leb_le. lia.
Qed.

Lemma put_here (b c s : list Z) : zlen b = zlen s -> put (b ++ c) 0 s = Ok (s ++ c).
Proof.
  intros Hb. unfold put. rewrite memcpy_Ok by (rewrite ?zlen_app; pose proof (zlen_nonneg s); pose proof (zlen_nonneg c); lia).
  f_equal. unfold zsplice. rewrite zslice_full by done. simpl.
  f_equal. rewrite drop_app_length'; [done|]. unfold zlen in Hb. lia.
Qed.

Lemma put_at (a b c s : list Z) n :
  n = zlen a -> zlen b = zlen s -> put (a ++ b ++ c) n s = Ok (a ++ s ++ c).
Proof.
  intros -> Hb. rewrite <-(Z.add_0_r (zlen a)), put_app_r by done. by rewrite put_here.
Qed.

Lemma load_at n (a : list Z) z k m :
  m = zlen a -> 0 <= z < 2 ^ (8 * Z.of_nat n) -> load n (a ++ le_bytes n z ++ k) m = Ok z.
Proof. intros -> Hz. rewrite <-(Z.add_0_r (zlen a)), load_app_r by done. by apply load_le_bytes. Qed.

(** ** Capture records

    A record of the file, its place, and what the aggregator sees of it. *)
Record capture := mkCap { c_ts_h : Z; c_ts_l : Z; c_orig : Z; c_data : list Z }.

Definition rec_bytes (last_field : Z) (c : capture) : list Z :=
  (le_bytes 4 (c_ts_h c) ++ le_bytes 4 (c_ts_l c))
  ++ le_bytes 4 (zlen (c_data c)) ++ le_bytes 4 last_field ++ c_data c.

Definition raw (c : capture) : list Z := rec_bytes (c_orig c) c.

Definition flow_of (c : capture) : FlowMetadata :=
  from_res (mkMeta [] [] 0 0) (getFlowMetaData (c_data c) (mkPM 0 0 0)).

Definition c_ts (c : capture) : Z := Z.lor (Z.shiftl (c_ts_h c) 32) (c_ts_l c).

(** The header fields are 32 bits wide. *)
Record hdr_ok (c : capture) : Prop := {
  ok_ts_h : is_u 32 (c_ts_h c);
  ok_ts_l : is_u 32 (c_ts_l c);
  ok_len : is_u 32 (zlen (c_data c)) }.

(** An IP packet whose addresses and ports lie inside the record. *)
Record cap_ok (c : capture) : Prop := {
  ok_hdr : hdr_ok c;
  ok_parse : getFlowMetaData (c_data c) (mkPM 0 0 0) = Ok (flow_of c);
  ok_ip : sourceAddress (flow_of c) <> [] }.

Definition placed : Type := Z * capture.

Fixpoint place (off : Z) (cs : list capture) : list placed :=
  match cs with [] => [] | c :: cs => (off, c) :: place (off + 16 + zlen (c_data c)) cs end.

Definition to_pkt (x : placed) : pkt := mkPkt (flow_of x.2) x.1 (c_ts x.2).

(** ** Specification: the links and the chain heads *)
Definition aggregator : PacketAggregator := new_PacketAggregator (1024 * 1024 * 1024) MAX64.

Definition near (q p : pkt) : bool :=
  close (offsetThreshold aggregator) (tsThreshold aggregator) BUFFER_SIZE q p.

(** The last header field of a packet followed by the packets [later]. *)
Fixpoint next_diff (q : pkt) (later : list pkt) : Z :=
  match later with
  | [] => MAX32
  | p :: later =>
      if decide (p_meta p = p_meta q)
      then if near q p then p_offset p - p_offset q else MAX32
      else next_diff q later
  end.

Fixpoint linked (ps : list placed) : list Z :=
  match ps with
  | [] => []
  | x :: ps => rec_bytes (next_diff (to_pkt x) (to_pkt <$> ps)) x.2 ++ linked ps
  end.

(** The packets that no earlier one is linked to. *)
Fixpoint heads (past : list pkt) (ps : list placed) : list placed :=
  match ps with
  | [] => []
  | x :: ps =>
      let rest := heads (past ++ [to_pkt x]) ps in
      if link aggregator BUFFER_SIZE past (to_pkt x) =? MAX64 then x :: rest else rest
  end.

(** The index record of a chain head over the memory [old]. *)
Definition entry (old : list Z) (x : placed) : list Z :=
  let m := flow_of x.2 in
  le_bytes 8 (c_ts x.2) ++ le_bytes 8 (div_BUFFER_SIZE x.1) ++ le_bytes 8 x.1 ++ le_bytes 8 0
  ++ sourceAddress m ++ zslice (at_sourceAddress + zlen (sourceAddress m)) (16 - zlen (sourceAddress m)) old
  ++ destinationAddress m ++ zslice (at_destinationAddress + zlen (destinationAddress m))
                               (16 - zlen (destinationAddress m)) old
  ++ le_bytes 2 (sourcePort m) ++ le_bytes 2 (destinationPort m)
  ++ le_bytes 4 (zlen (sourceAddress m)).

Fixpoint entries (old : list Z) (hs : list placed) : list Z :=
  match hs with
  | [] => old
  | x :: hs => entry (take 72 old) x ++ entries (drop 72 old) hs
  end.


Lemma linked_cons x ps :
  linked (x :: ps) = rec_bytes (next_diff (to_pkt x) (to_pkt <$> ps)) x.2 ++ linked ps.
Proof. done. Qed.

Lemma zlen_rec_bytes d c : zlen (rec_bytes d c) = 16 + zlen (c_data c).
Proof. unfold rec_bytes. rewrite !zlen_app, !zlen_le_bytes. lia. Qed.

(** A packet's own bytes decide its metadata. *)
Lemma load_in n (a d b : list Z) off x :
  0 <= off -> load n d off = Ok x -> load n (a ++ d ++ b) (zlen a + off) = Ok x.
Proof. intros Hoff H. rewrite load_app_r by done. by apply load_app. Qed.

Lemma load_nonneg n l off x : load n l off = Ok x -> 0 <= off.
Proof. unfold load, zread. case_test; [|done]. intros _. zbool. done. Qed.

Lemma getFlow_in (a d b : list Z) m h :
  getFlowMetaData d (mkPM 0 0 0) = Ok m ->
  getFlowMetaData (a ++ d ++ b) (mkPM h (zlen a) 0) = Ok m.
Proof.
  unfold getFlowMetaData. cbn [pm_data].
  intros (b0 & E0 & E)%bind_Ok_iff.
  assert (L : forall n off x, load n d (0 + off) = Ok x -> load n (a ++ d ++ b) (zlen a + off) = Ok x).
  { intros n off x Hx. apply load_in; [by apply load_nonneg in Hx|done]. }
  assert (L' : forall n off o x, load n d (0 + off + o) = Ok x -> load n (a ++ d ++ b) (zlen a + off + o) = Ok x).
  { intros n off o x Hx. rewrite <-Z.add_assoc. apply L. by rewrite Z.add_assoc. }
  assert (L2 : forall n off o o' x, load n d (0 + off + o + o') = Ok x -> load n (a ++ d ++ b) (zlen a + off + o + o') = Ok x).
  { intros n off o o' x Hx. rewrite <-2Z.add_assoc. apply L. by rewrite !Z.add_assoc. }
  rewrite (L _ _ _ E0). cbn [mbind res_bind].
  destruct (_ =? 4); [|destruct (_ =? 6); [|done]];
    repeat (let x := fresh "x" in let Ex := fresh "Ex" in
            apply bind_Ok_iff in E as (x & Ex & E);
            first [rewrite (L2 _ _ _ _ _ Ex) | rewrite (L' _ _ _ _ Ex)]; cbn [mbind res_bind]); done.
Qed.

Lemma readPacket_raw (a b : list Z) c :
  hdr_ok c -> zlen a + 16 + zlen (c_data c) < 2 ^ 64 ->
  readPacket (a ++ raw c ++ b) (zlen a) =
    Ok (zlen a + 16 + zlen (c_data c), mkPM (zlen a) (zlen a + 16) 0, a ++ rec_bytes MAX32 c ++ b).
Proof.
  intros Hc Hfit. unfold readPacket, raw, rec_bytes. pose proof (zlen_nonneg a). pose proof (zlen_nonneg (c_data c)).
  rewrite <-!app_assoc. set (h := le_bytes 4 (c_ts_h c)). set (l := le_bytes 4 (c_ts_l c)).
  set (n := le_bytes 4 (zlen (c_data c))).
  rewrite (app_assoc h), (app_assoc (h ++ l)), (app_assoc a).
  rewrite (put_at (a ++ (h ++ l) ++ n) (le_bytes 4 (c_orig c))) by (rewrite ?zlen_app; done).
  cbn [mbind res_bind]. rewrite <-!app_assoc. unfold n.
  rewrite (app_assoc h), (app_assoc a).
  rewrite (load_at 4 (a ++ h ++ l)) by (try apply (ok_len c Hc); by rewrite !zlen_app).
  cbn [mbind res_bind]. unfold PCAP_HEADER_LEN. rewrite (u64_small (zlen a + _)), u64_small by lia.
  do 3 f_equal. lia.
Qed.

(** ** The links *)
Lemma link_near past p :
  link aggregator BUFFER_SIZE past p =
  match last_of (p_meta p) past with
  | Some q => if near q p then p_offset q else MAX64
  | None => MAX64
  end.
Proof. done. Qed.

(** Adding a packet changes the last field of its predecessor only. *)
Lemma next_diff_snoc q l p :
  next_diff q (l ++ [p]) =
    match last_of (p_meta q) l with
    | Some _ => next_diff q l
    | None => if decide (p_meta p = p_meta q)
              then if near q p then p_offset p - p_offset q else MAX32 else MAX32
    end.
Proof.
  induction l as [|r l IH]; simpl; [done|].
  destruct (decide (p_meta r = p_meta q)) as [E|E].
  - destruct (last_of (p_meta q) l); done.
  - rewrite IH. by destruct (last_of (p_meta q) l).
Qed.

Lemma last_of_none_diff q l : last_of (p_meta q) l = None -> next_diff q l = MAX32.
Proof.
  induction l as [|r l IH]; simpl; [done|].
  destruct (last_of (p_meta q) l) eqn:E; [done|]. case_decide; [done|]. auto.
Qed.

(** A head leaves the earlier packets alone. *)
Lemma linked_head ps x :
  link aggregator BUFFER_SIZE (to_pkt <$> ps) (to_pkt x) = MAX64 ->
  Forall (fun y => y.1 <> MAX64) ps ->
  linked (ps ++ [x]) = linked ps ++ rec_bytes MAX32 x.2.
Proof.
  rewrite link_near. intros Hl Ho. induction ps as [|y ps IH]; [by rewrite app_nil_l, linked_cons, app_nil_r|].
  apply Forall_cons in Ho as [Hy Ho]. rewrite fmap_cons in Hl. cbn [last_of] in Hl.
  rewrite <-app_comm_cons, !linked_cons, <-app_assoc. rewrite IH; [|by destruct (last_of _ (to_pkt <$> ps))|done].
  do 2 f_equal. rewrite fmap_app, list_fmap_singleton, next_diff_snoc.
  destruct (last_of (p_meta (to_pkt y)) (to_pkt <$> ps)) eqn:E; [done|].
  rewrite last_of_none_diff by done.
  destruct (decide (p_meta (to_pkt x) = p_meta (to_pkt y))) as [Em|]; [|done].
  rewrite Em, E, decide_True in Hl by done. by destruct (near _ _).
Qed.

Lemma place_ge cs off q : q ∈ to_pkt <$> place off cs -> off <= p_offset q.
Proof.
  revert off. induction cs as [|c cs IH]; intros off; simpl; [by intros ?%elem_of_nil|].
  intros [-> | H]%elem_of_cons; [done|]. apply IH in H. pose proof (zlen_nonneg (c_data c)). lia.
Qed.

(** The store of [writeBefore] into the predecessor's header. *)
Lemma put_linked x q b cs off :
  last_of (p_meta (to_pkt x)) (to_pkt <$> place off cs) = Some q -> near q (to_pkt x) = true ->
  Forall (fun y => y.1 <> MAX64) (place off cs) ->
  put (linked (place off cs) ++ rec_bytes MAX32 x.2 ++ b) (p_offset q - off + 12)
      (le_bytes 4 (x.1 - p_offset q)) = Ok (linked (place off cs ++ [x]) ++ b).
Proof.
  revert off. induction cs as [|c cs IH]; intros off; [done|]. cbn [place].
  set (rest := place (off + 16 + zlen (c_data c)) cs) in *.
  rewrite fmap_cons. cbn [last_of]. intros Hq Hn [_ Ho]%Forall_cons.
  rewrite <-app_comm_cons, !linked_cons, fmap_app, list_fmap_singleton.
  destruct (last_of (p_meta (to_pkt x)) (to_pkt <$> rest)) as [q'|] eqn:E.
  - injection Hq as ->. assert (Hge := place_ge cs _ q (proj1 (last_of_elem _ _ _ E))).
    replace (p_offset q - off + 12)
      with (zlen (rec_bytes (next_diff (to_pkt (off, c)) (to_pkt <$> rest)) c)
            + (p_offset q - (off + 16 + zlen (c_data c)) + 12)) by (rewrite zlen_rec_bytes; lia).
    rewrite <-app_assoc, put_app_r by lia. unfold rest. rewrite IH by done. cbn [fmap res_fmap].
    rewrite <-app_assoc. do 2 f_equal. f_equal. rewrite next_diff_snoc. fold rest.
    destruct (last_of (p_meta (to_pkt (off, c))) (to_pkt <$> rest)) eqn:E'; [done|].
    rewrite last_of_none_diff by done. case_decide as Em; [|done].
    by rewrite Em, E' in E.
  - case_decide as Em; [|done]. injection Hq as <-.
    rewrite linked_head by (try done; rewrite link_near; by rewrite E).
    rewrite next_diff_snoc, Em, E, decide_True by done. rewrite Hn.
    unfold rec_bytes at 1 3. rewrite <-!app_assoc. rewrite (app_assoc (le_bytes 4 _) (le_bytes 4 _)).
    rewrite (app_assoc (_ ++ _) (le_bytes 4 _)).
    rewrite put_at by (rewrite ?zlen_app, ?zlen_le_bytes; simpl; lia). by rewrite <-!app_assoc.
Qed.

(** ** The index record *)

(** A store that replaces one segment of a buffer. *)
Lemma put_seg (i : nat) (segs : list (list Z)) b s n :
  segs !! i = Some b -> n = zlen (concat (take i segs)) -> zlen b = zlen s ->
  put (concat segs) n s = Ok (concat (<[i := s]> segs)).
Proof.
  intros Hi Hn Hb. rewrite <-(take_drop_middle segs i b Hi) at 1.
  rewrite concat_app, concat_cons, (put_at _ _ _ _ _ Hn Hb). f_equal.
  rewrite insert_take_drop by (by apply lookup_lt_Some in Hi). by rewrite concat_app, concat_cons.
Qed.

(** Both addresses have the length of one address family. *)
Lemma flow_lengths buf pm m :
  getFlowMetaData buf pm = Ok m -> sourceAddress m <> [] ->
  zlen (sourceAddress m) = zlen (destinationAddress m) /\
  (zlen (sourceAddress m) = 4 \/ zlen (sourceAddress m) = 16).
Proof.
  unfold getFlowMetaData. intros (b0 & _ & E)%bind_Ok_iff.
  destruct (_ =? 4); [|destruct (_ =? 6)];
    repeat (apply bind_Ok_iff in E as (? & _ & E)); injection E as <-; cbn; intros; auto. done.
Qed.

Lemma old_segments (old : list Z) n :
  zlen old = 72 -> 0 <= n <= 16 ->
  old = concat [zslice 0 8 old; zslice 8 8 old; zslice 16 8 old; zslice 24 8 old;
    zslice 32 n old; zslice (32 + n) (16 - n) old; zslice 48 n old; zslice (48 + n) (16 - n) old;
    zslice 64 2 old; zslice 66 2 old; zslice 68 4 old].
Proof.
  intros Hl Hn. cbn [concat]. rewrite app_nil_r.
  rewrite <-(zslice_app 66 2 4), <-(zslice_app 64 2 (2 + 4)) by lia.
  rewrite (app_assoc (zslice 48 n old)), <-(zslice_app 48 n (16 - n)) by lia.
  replace (n + (16 - n)) with 16 by lia. rewrite <-(zslice_app 48 16 (2 + (2 + 4))) by lia.
  rewrite (app_assoc (zslice 32 n old)), <-(zslice_app 32 n (16 - n)) by lia.
  replace (n + (16 - n)) with 16 by lia. rewrite <-(zslice_app 32 16) by lia.
  rewrite <-(zslice_app 24 8), <-(zslice_app 16 8), <-(zslice_app 8 8), <-(zslice_app 0 8) by lia.
  symmetry. by apply zslice_full.
Qed.

(** One store of [writeIndexToBuffer], into the segment [i]. *)
Ltac store i :=
  erewrite (put_seg i);
    [| reflexivity
     | cbn [take concat]; rewrite ?zlen_app, ?zlen_le_bytes, ?zlen_zslice by lia;
       change (zlen (@nil Z)) with 0; lia
     | rewrite ?zlen_le_bytes, ?zlen_zslice by lia; lia];
    cbn [insert list_insert mbind res_bind].

Lemma writeIndex_entry (a old b : list Z) (x : placed) :
  cap_ok x.2 -> zlen old = 72 -> zlen a + 72 < 2 ^ 64 ->
  writeIndexToBuffer x.1 (flow_of x.2) (c_ts x.2) (a ++ old ++ b) (zlen a) =
    Ok (zlen a + 72, a ++ entry old x ++ b).
Proof.
  intros Hc Ho Hfit. destruct (flow_lengths _ _ _ (ok_parse _ Hc) (ok_ip _ Hc)) as [Hd Hs].
  unfold entry, writeIndexToBuffer, at_ts, at_disk_block_id, at_position, at_rx_id,
    at_sourceAddress, at_destinationAddress, at_sourcePort, at_destinationPort, at_version.
  rewrite <-Hd. set (m := flow_of x.2) in *. remember (zlen (sourceAddress m)) as n eqn:En.
  assert (Hn : 0 <= n <= 16) by lia. pose proof (zlen_nonneg a).
  assert (E : a ++ old ++ b = concat [a; zslice 0 8 old; zslice 8 8 old; zslice 16 8 old; zslice 24 8 old;
    zslice 32 n old; zslice (32 + n) (16 - n) old; zslice 48 n old; zslice (48 + n) (16 - n) old;
    zslice 64 2 old; zslice 66 2 old; zslice 68 4 old; b]).
  { rewrite (old_segments old n Ho Hn) at 1. cbn [concat]. by rewrite <-!app_assoc, !app_nil_r. }
  rewrite E.
  store 1%nat. store 3%nat. store 5%nat. store 7%nat. store 9%nat. store 10%nat. store 2%nat.
  store 4%nat. store 11%nat.
  unfold INDEX_ENUM_LEN. rewrite u64_small by lia. do 2 f_equal. cbn [concat].
  by rewrite app_nil_r, <-!app_assoc.
Qed.

Lemma zlen_entry old x : cap_ok x.2 -> zlen old = 72 -> zlen (entry old x) = 72.
Proof.
  intros Hc Ho. destruct (flow_lengths _ _ _ (ok_parse _ Hc) (ok_ip _ Hc)) as [Hd Hs].
  unfold entry, at_sourceAddress, at_destinationAddress.
  rewrite !zlen_app, !zlen_le_bytes, !zlen_zslice by lia. lia.
Qed.

Lemma entries_snoc (hs : list placed) (x : placed) : forall old,
  Forall (fun y : placed => cap_ok y.2) hs -> 72 * (zlen hs + 1) <= zlen old ->
  exists e mid rest, zlen e = 72 * zlen hs /\ zlen mid = 72 /\
    entries old hs = e ++ mid ++ rest /\ entries old (hs ++ [x]) = e ++ entry mid x ++ rest.
Proof.
  induction hs as [|y hs IH]; intros old Hok Hlen; rewrite ?zlen_cons in *.
  - exists [], (take 72 old), (drop 72 old). simpl app. cbn [entries]. rewrite take_drop.
    unfold zlen in *. rewrite length_take. cbn [length] in *. repeat split; try done. lia.
  - apply Forall_cons in Hok as [Hy Hok]. pose proof (zlen_nonneg hs).
    destruct (IH (drop 72 old) Hok) as (e & mid & rest & He & Hm & E1 & E2).
    { unfold zlen in *. rewrite length_drop. lia. }
    exists (entry (take 72 old) y ++ e), mid, rest.
    rewrite zlen_app, zlen_entry by (try done; unfold zlen in *; rewrite length_take; lia).
    split; [lia|]. split; [done|]. rewrite <-app_comm_cons. cbn [entries].
    by rewrite E1, E2, <-!app_assoc.
Qed.

Lemma zlen_entries (hs : list placed) : forall old,
  Forall (fun y : placed => cap_ok y.2) hs -> 72 * zlen hs <= zlen old -> zlen (entries old hs) = zlen old.
Proof.
  induction hs as [|y hs IH]; intros old; [done|]. intros [Hy Hok]%Forall_cons Hl.
  rewrite zlen_cons in Hl. pose proof (zlen_nonneg hs). cbn [entries].
  rewrite zlen_app, zlen_entry by (try done; unfold zlen in *; rewrite length_take; lia).
  rewrite IH by (try done; unfold zlen in *; rewrite length_drop; lia).
  unfold zlen in *. rewrite length_drop. lia.
Qed.

Lemma heads_snoc past ps x :
  heads past (ps ++ [x]) = heads past ps ++
    (if link aggregator BUFFER_SIZE (past ++ (to_pkt <$> ps)) (to_pkt x) =? MAX64 then [x] else []).
Proof.
  revert past. induction ps as [|y ps IH]; intros past.
  - cbn [app heads fmap list_fmap]. by rewrite app_nil_r.
  - rewrite <-app_comm_cons. cbn [heads]. rewrite IH, fmap_cons, <-app_assoc. by case_test.
Qed.

Lemma heads_sub past ps x : x ∈ heads past ps -> x ∈ ps.
Proof.
  revert past. induction ps as [|y ps IH]; intros past; cbn [heads]; [done|].
  case_test; [intros [-> | H]%elem_of_cons; [left|right; by apply IH in H]|intros H; right; by apply IH in H].
Qed.

(** The size of a list of records. *)
Definition size (cs : list capture) : Z := zlen (concat (raw <$> cs)).

Lemma size_cons c cs : size (c :: cs) = 16 + zlen (c_data c) + size cs.
Proof. unfold size. cbn [fmap list_fmap concat]. rewrite zlen_app. unfold raw. by rewrite zlen_rec_bytes. Qed.

Lemma capture_size_nonneg cs : 0 <= size cs.
Proof. apply zlen_nonneg. Qed.

Lemma size_app cs ds : size (cs ++ ds) = size cs + size ds.
Proof. unfold size. by rewrite fmap_app, concat_app, zlen_app. Qed.

Lemma place_snoc off cs c : place off (cs ++ [c]) = place off cs ++ [(off + size cs, c)].
Proof.
  revert off. induction cs as [|d cs IH]; intros off; [cbn [app place]; by rewrite (Z.add_0_r off : off + size [] = off)|].
  rewrite <-app_comm_cons. cbn [place]. rewrite IH, size_cons, <-app_comm_cons. do 4 f_equal. lia.
Qed.

Lemma zlen_linked off cs : zlen (linked (place off cs)) = size cs.
Proof.
  revert off. induction cs as [|c cs IH]; intros off; [done|].
  cbn [place linked]. rewrite zlen_app, zlen_rec_bytes, IH, size_cons. simpl. lia.
Qed.

Lemma place_lt cs off y : y ∈ place off cs -> off <= y.1 /\ y.1 + 16 + zlen (c_data y.2) <= off + size cs.
Proof.
  revert off. induction cs as [|c cs IH]; intros off; cbn [place]; [by intros ?%elem_of_nil|].
  rewrite size_cons. pose proof (zlen_nonneg (c_data c)). pose proof (capture_size_nonneg cs).
  intros [-> | H']%elem_of_cons; [simpl; lia|]. apply IH in H'. lia.
Qed.

Lemma place_captures cs off y : y ∈ place off cs -> y.2 ∈ cs.
Proof.
  revert off. induction cs as [|c cs IH]; intros off; cbn [place]; [by intros ?%elem_of_nil|].
  intros [-> | H']%elem_of_cons; [by left|right; eauto].
Qed.

(** ** The loop invariant: the records done are linked and indexed, the rest
    is as in the file. *)
Record inv (pre old : list Z) (did todo : list capture) (s : HState) : Prop := {
  i_read : read_buffer s = pre ++ linked (place 24 did) ++ concat (raw <$> todo);
  i_index : index_buffer s = entries old (heads [] (place 24 did));
  i_offset : read_offset s = 24 + size did;
  i_total : totol_len s = 24 + size did;
  i_io : index_offset s = 72 * zlen (heads [] (place 24 did));
  i_agg : represents (agg s) (to_pkt <$> place 24 did);
  i_thr : offsetThreshold (agg s) = offsetThreshold aggregator /\
          tsThreshold (agg s) = tsThreshold aggregator }.

Lemma inv_start pre cs (uninit : Z -> list Z) :
  inv pre (uninit BUFFER_SIZE) [] cs (start uninit (pre ++ concat (raw <$> cs))).
Proof. by split. Qed.

(** What the loop needs of the file: the records fit into 64 bits and the
    index records into their buffer. *)
Record fits (pre old : list Z) (cs : list capture) : Prop := {
  f_pre : zlen pre = 24;
  f_ok : Forall cap_ok cs;
  f_size : 24 + size cs < MAX64;
  f_old : zlen old = BUFFER_SIZE;
  f_heads : 72 * zlen (heads [] (place 24 cs)) <= BUFFER_SIZE }.

Lemma link_thresholds a past p :
  offsetThreshold a = offsetThreshold aggregator -> tsThreshold a = tsThreshold aggregator ->
  link a BUFFER_SIZE past p = link aggregator BUFFER_SIZE past p.
Proof. intros E1 E2. unfold link. by rewrite E1, E2. Qed.

(** The header reads of one turn, after [readPacket]. *)
Lemma header_ts (a b : list Z) c d :
  hdr_ok c ->
  load 4 (a ++ rec_bytes d c ++ b) (zlen a) = Ok (c_ts_h c) /\
  load 4 (a ++ rec_bytes d c ++ b) (zlen a + 4) = Ok (c_ts_l c).
Proof.
  intros Hc. unfold rec_bytes. rewrite <-!app_assoc. split.
  - apply load_at; [done|apply Hc].
  - rewrite (app_assoc a). apply load_at; [by rewrite zlen_app, zlen_le_bytes|apply Hc].
Qed.

Lemma header_flow (a b : list Z) c d h m :
  getFlowMetaData (c_data c) (mkPM 0 0 0) = Ok m ->
  getFlowMetaData (a ++ rec_bytes d c ++ b) (mkPM h (zlen a + 16) 0) = Ok m.
Proof.
  intros Hm. unfold rec_bytes. rewrite <-!app_assoc.
  set (p := a ++ le_bytes 4 (c_ts_h c) ++ le_bytes 4 (c_ts_l c) ++ le_bytes 4 (zlen (c_data c)) ++ le_bytes 4 d).
  replace (zlen a + 16) with (zlen p) by (unfold p; rewrite !zlen_app, !zlen_le_bytes; lia).
  replace (a ++ _) with (p ++ c_data c ++ b) by (unfold p; by rewrite <-!app_assoc).
  by apply getFlow_in.
Qed.

(** The place of the next record among those done. *)
Definition next_placed (did : list capture) (c : capture) : placed := (24 + size did, c).

Lemma near_diff did c q :
  q ∈ to_pkt <$> place 24 did -> 24 + size did < MAX64 ->
  near q (to_pkt (next_placed did c)) = true ->
  u32 (calDiff (24 + size did) (p_offset q)) = 24 + size did - p_offset q
  /\ 24 <= p_offset q /\ p_offset q <> MAX64.
Proof.
  intros (y & -> & Hy)%list_elem_of_fmap Hs Hn. apply place_lt in Hy.
  pose proof (zlen_nonneg (c_data y.2)). unfold near, close in Hn. cbn [p_offset to_pkt next_placed fst] in *.
  apply andb_true_iff in Hn as [Hn _]. replace (24 + size did <=? y.1) with false in Hn by (symmetry; apply Z.leb_gt; lia).
  unfold MAX64 in *. unfold calDiff. rewrite u64_small in Hn |- * by lia. cbn [offsetThreshold aggregator new_PacketAggregator] in Hn.
  zbool. rewrite u32_small by lia. repeat split; lia.
Qed.

Lemma offsets_not_max did : 24 + size did < MAX64 -> Forall (fun y : placed => y.1 <> MAX64) (place 24 did).
Proof. intros H. apply Forall_forall. intros y Hy. apply place_lt in Hy. pose proof (zlen_nonneg (c_data y.2)). lia. Qed.

(** The two ways a turn ends: the packet is linked or it starts a chain. *)
Lemma addPacket_next a did c :
  represents a (to_pkt <$> place 24 did) ->
  offsetThreshold a = offsetThreshold aggregator -> tsThreshold a = tsThreshold aggregator ->
  exists a', addPacket a (flow_of c) (24 + size did) (c_ts c) BUFFER_SIZE =
      (link aggregator BUFFER_SIZE (to_pkt <$> place 24 did) (to_pkt (next_placed did c)), a')
    /\ represents a' (to_pkt <$> place 24 (did ++ [c]))
    /\ offsetThreshold a' = offsetThreshold aggregator /\ tsThreshold a' = tsThreshold aggregator.
Proof.
  intros Hr E1 E2.
  destruct (addPacket_spec a _ (to_pkt (next_placed did c)) BUFFER_SIZE Hr) as (a' & E & Hr' & E1' & E2').
  exists a'. rewrite link_thresholds in E by done. split; [exact E|].
  rewrite place_snoc, fmap_app. split; [exact Hr'|]. by rewrite E1', E2'.
Qed.

Lemma step_linked pre did todo c q :
  zlen pre = 24 -> 24 + size did < MAX64 -> 
  last_of (flow_of c) (to_pkt <$> place 24 did) = Some q -> near q (to_pkt (next_placed did c)) = true ->
  writeBefore (u32 (calDiff (24 + size did) (p_offset q))) (p_offset q)
    (pre ++ linked (place 24 did) ++ rec_bytes MAX32 c ++ concat (raw <$> todo)) =
  Ok (pre ++ linked (place 24 (did ++ [c])) ++ concat (raw <$> todo)).
Proof.
  intros Hpre Hs Hq Hn. destruct (last_of_elem _ _ _ Hq) as [Hin _].
  destruct (near_diff did c q Hin Hs Hn) as (-> & Hge & _). unfold writeBefore.
  replace (p_offset q + 12) with (zlen pre + (p_offset q - 24 + 12)) by lia.
  rewrite put_app_r by lia.
  pose proof (put_linked (next_placed did c) q (concat (raw <$> todo)) did 24 Hq Hn (offsets_not_max did Hs)) as E.
  cbn [next_placed fst snd] in E. rewrite E. cbn [fmap res_fmap]. by rewrite place_snoc.
Qed.

Lemma step_head pre old did c :
  fits pre old (did ++ [c]) ->
  link aggregator BUFFER_SIZE (to_pkt <$> place 24 did) (to_pkt (next_placed did c)) = MAX64 ->
  heads [] (place 24 (did ++ [c])) = heads [] (place 24 did) ++ [next_placed did c] /\
  writeIndexToBuffer (24 + size did) (flow_of c) (c_ts c) (entries old (heads [] (place 24 did)))
    (72 * zlen (heads [] (place 24 did))) =
  Ok (72 * zlen (heads [] (place 24 (did ++ [c]))), entries old (heads [] (place 24 (did ++ [c])))).
Proof.
  intros [Hp Hok Hs Ho Hh] Hl. apply Forall_app in Hok as [Hok [Hc _]%Forall_cons].
  assert (E : heads [] (place 24 (did ++ [c])) = heads [] (place 24 did) ++ [next_placed did c]).
  { rewrite place_snoc, heads_snoc. unfold next_placed in Hl. rewrite app_nil_l, Hl. by rewrite Z.eqb_refl. }
  split; [exact E|]. rewrite E, zlen_app in Hh. rewrite E, zlen_app.
  change (zlen [next_placed did c]) with 1 in *.
  destruct (entries_snoc (heads [] (place 24 did)) (next_placed did c) old) as (e & mid & rest & He & Hm & E1 & E2).
  - apply Forall_forall. intros y Hy%heads_sub%place_captures. rewrite Forall_forall in Hok. auto.
  - rewrite Ho. exact Hh.
  - rewrite E1, E2, <-He. unfold BUFFER_SIZE in Hh.
    etransitivity; [apply (writeIndex_entry e mid rest (next_placed did c)); [done|done|lia]|].
    do 2 f_equal. lia.
Qed.

Lemma step pre old did c todo s :
  fits pre old (did ++ [c]) -> inv pre old did (c :: todo) s ->
  exists s', handle_packet s = Ok (inr s') /\ inv pre old (did ++ [c]) todo s'.
Proof.
  intros Hf [Hrb Hib Hro Htl Hio Hag [Ht1 Ht2]]. pose proof Hf as [Hp Hok Hs Ho Hh].
  apply Forall_app in Hok as [Hok [Hc _]%Forall_cons].
  assert (Hz : zlen (pre ++ linked (place 24 did)) = 24 + size did) by (rewrite zlen_app, zlen_linked; lia).
  rewrite size_app, size_cons in Hs. change (size []) with 0 in Hs. unfold MAX64 in Hs.
  pose proof (zlen_nonneg (c_data c)). pose proof (capture_size_nonneg did).
  unfold handle_packet. rewrite Hrb, Hib, Hro, Htl, Hio. cbn [fmap list_fmap concat].
  rewrite app_assoc, <-Hz, readPacket_raw by (try apply (ok_hdr c Hc); lia). cbn [mbind res_bind pm_header].
  destruct (header_ts (pre ++ linked (place 24 did)) (concat (raw <$> todo)) c MAX32 (ok_hdr c Hc)) as [-> ->].
  cbn [mbind res_bind]. rewrite (header_flow _ _ _ _ _ _ (ok_parse c Hc)). cbn [mbind res_bind].
  rewrite bool_decide_eq_false_2 by apply (ok_ip c Hc). fold (c_ts c). rewrite Hz.
  destruct (addPacket_next (agg s) did c Hag Ht1 Ht2) as (a' & -> & Hr' & Ht).
  rewrite (u64_small (_ - _)), (u64_small (24 + _ + (_ - _))) by lia. rewrite <-app_assoc.
  assert (Hsz : 24 + size did + (24 + size did + 16 + zlen (c_data c) - (24 + size did)) = 24 + size (did ++ [c])).
  { rewrite size_app, size_cons. change (size []) with 0. lia. }
  assert (Hsz' : 24 + size did + 16 + zlen (c_data c) = 24 + size (did ++ [c])) by lia.
  set (x := next_placed did c) in *.
  destruct (link aggregator BUFFER_SIZE (to_pkt <$> place 24 did) (to_pkt x) =? MAX64) eqn:El; cbn [negb].
  - apply Z.eqb_eq in El. destruct (step_head pre old did c Hf El) as [Eh Ew]. rewrite Ew.
    cbn [mbind res_bind]. rewrite (proj2 (Z.ltb_ge _ _) Hh).
    eexists. split; [reflexivity|]. split; cbn [read_buffer index_buffer read_offset index_offset totol_len agg]; try done.
    rewrite place_snoc, linked_head by (try done; apply offsets_not_max; unfold MAX64; lia).
    by rewrite <-app_assoc.
  - rewrite link_near in El |- *.
    destruct (last_of (p_meta (to_pkt x)) (to_pkt <$> place 24 did)) as [q|] eqn:Eq; [|done].
    destruct (near q (to_pkt x)) eqn:En; [|done].
    rewrite (step_linked pre did todo c q Hp) by (try done; unfold MAX64; lia).
    cbn [mbind res_bind]. eexists. split; [reflexivity|].
    assert (Eh : heads [] (place 24 (did ++ [c])) = heads [] (place 24 did)).
    { rewrite place_snoc, heads_snoc. fold x. rewrite app_nil_l, link_near. fold x in Eq. 
      change (24 + size did, c) with x. rewrite Eq, En, El. apply app_nil_r. }
    split; cbn [read_buffer index_buffer read_offset index_offset totol_len agg]; rewrite ?Eh; done.
Qed.

(** ** The whole loop *)
Lemma place_app off cs ds : place off (cs ++ ds) = place off cs ++ place (off + size cs) ds.
Proof.
  revert off. induction cs as [|c cs IH]; intros off; [by rewrite (Z.add_0_r off : off + size [] = off)|].
  rewrite <-app_comm_cons. cbn [place]. rewrite IH, size_cons, <-app_comm_cons. do 3 f_equal. lia.
Qed.

Lemma heads_app past ps qs :
  heads past (ps ++ qs) = heads past ps ++ heads (past ++ (to_pkt <$> ps)) qs.
Proof.
  revert past. induction ps as [|y ps IH]; intros past; [cbn; by rewrite app_nil_r|].
  rewrite <-app_comm_cons. cbn [heads]. rewrite IH, fmap_cons, <-app_assoc. by case_test.
Qed.

Lemma fits_prefix pre old cs ds : fits pre old (cs ++ ds) -> fits pre old cs.
Proof.
  intros [Hp Hok Hs Ho Hh]. apply Forall_app in Hok as [Hok _]. rewrite size_app in Hs.
  pose proof (capture_size_nonneg ds). split; try done; [lia|].
  rewrite place_app, heads_app, zlen_app in Hh.
  pose proof (zlen_nonneg (heads ([] ++ (to_pkt <$> place 24 cs)) (place (24 + size cs) ds))). lia.
Qed.

Lemma packet_loop_inv pre old todo : forall did s fuel,
  fits pre old (did ++ todo) -> inv pre old did todo s -> (length todo < fuel)%nat ->
  exists s', packet_loop fuel (24 + size (did ++ todo)) s = Ok (inr s') /\ inv pre old (did ++ todo) [] s'.
Proof.
  induction todo as [|c todo IH]; intros did s fuel Hf Hi Hfuel;
    (destruct fuel as [|fuel]; [simpl in Hfuel; lia|]); cbn [packet_loop]; rewrite (i_total _ _ _ _ _ Hi).
  - rewrite app_nil_r. rewrite (proj2 (Z.leb_le _ _)) by done. eauto.
  - rewrite size_app, size_cons. pose proof (zlen_nonneg (c_data c)). pose proof (capture_size_nonneg todo).
    rewrite (proj2 (Z.leb_gt _ _)) by lia.
    replace (did ++ c :: todo) with ((did ++ [c]) ++ todo) in * by (by rewrite <-app_assoc).
    destruct (step pre old did c todo s (fits_prefix _ _ _ _ Hf) Hi) as (s1 & -> & Hi1). cbn [mbind res_bind].
    destruct (IH (did ++ [c]) s1 fuel Hf Hi1) as (s' & E & Hi'); [simpl in Hfuel; lia|].
    exists s'. split; [|done]. rewrite <-E. f_equal. rewrite !size_app, size_cons. change (size []) with 0. lia.
Qed.

(** A record that is not IP stops the run. *)
Lemma step_not_ip pre old did c todo s m :
  zlen pre = 24 -> inv pre old did (c :: todo) s -> hdr_ok c -> 24 + size (did ++ [c]) < MAX64 ->
  getFlowMetaData (c_data c) (mkPM 0 0 0) = Ok m -> sourceAddress m = [] ->
  handle_packet s = Ok (inl 3).
Proof.
  intros Hp [Hrb Hib Hro Htl Hio Hag _] Hc Hs Hm He.
  assert (Hz : zlen (pre ++ linked (place 24 did)) = 24 + size did) by (rewrite zlen_app, zlen_linked; lia).
  rewrite size_app, size_cons in Hs. change (size []) with 0 in Hs. unfold MAX64 in Hs.
  unfold handle_packet. rewrite Hrb, Hib, Hro, Htl, Hio. cbn [fmap list_fmap concat].
  rewrite app_assoc, <-Hz, readPacket_raw by (try done; lia). cbn [mbind res_bind pm_header].
  destruct (header_ts (pre ++ linked (place 24 did)) (concat (raw <$> todo)) c MAX32 Hc) as [-> ->].
  cbn [mbind res_bind]. rewrite (header_flow _ _ _ _ _ _ Hm). cbn [mbind res_bind].
  by rewrite bool_decide_eq_true_2.
Qed.

Lemma packet_loop_not_ip pre old todo c rest m : forall did s fuel,
  fits pre old (did ++ todo) -> inv pre old did (todo ++ c :: rest) s -> (length todo < fuel)%nat ->
  hdr_ok c -> 24 + size (did ++ todo ++ c :: rest) < MAX64 ->
  getFlowMetaData (c_data c) (mkPM 0 0 0) = Ok m -> sourceAddress m = [] ->
  packet_loop fuel (24 + size (did ++ todo ++ c :: rest)) s = Ok (inl 3).
Proof.
  induction todo as [|d todo IH]; intros did s fuel Hf Hi Hfuel Hc Hs Hm He;
    (destruct fuel as [|fuel]; [simpl in Hfuel; lia|]); cbn [packet_loop]; rewrite (i_total _ _ _ _ _ Hi).
  - rewrite app_nil_r, app_nil_l in *. rewrite size_app, size_cons in *.
    pose proof (zlen_nonneg (c_data c)). pose proof (capture_size_nonneg rest).
    rewrite (proj2 (Z.leb_gt _ _)) by lia.
    rewrite (step_not_ip pre old did c rest s m) by
      (try done; try apply (f_pre _ _ _ Hf); rewrite size_app, size_cons; change (size []) with 0; lia).
    done.
  - replace (did ++ (d :: todo) ++ c :: rest) with ((did ++ [d]) ++ todo ++ c :: rest) in * by (by rewrite <-!app_assoc).
    replace (did ++ d :: todo) with ((did ++ [d]) ++ todo) in * by (by rewrite <-app_assoc).
    assert (Hlt : 24 + size did < 24 + size ((did ++ [d]) ++ todo ++ c :: rest)).
    { rewrite !size_app, !size_cons. pose proof (zlen_nonneg (c_data c)). pose proof (zlen_nonneg (c_data d)).
      pose proof (capture_size_nonneg todo). pose proof (capture_size_nonneg rest). pose proof (capture_size_nonneg []). lia. }
    rewrite (proj2 (Z.leb_gt _ _)) by lia.
    destruct (step pre old did d (todo ++ c :: rest) s (fits_prefix _ _ _ _ Hf) Hi) as (s1 & -> & Hi1).
    cbn [mbind res_bind]. apply IH; try done. simpl in Hfuel. lia.
Qed.

(** ** The copy loops *)
Lemma batch_range i len : i < len -> 0 < batch i len <= BUFFER_SIZE /\ i + batch i len <= len.
Proof. intros. unfold batch, BUFFER_SIZE. case_test; zbool; lia. Qed.

Lemma take_zslice_next {A} (l : list A) i n : 0 <= i -> 0 <= n ->
  take (Z.to_nat i) l ++ zslice i n l = take (Z.to_nat (i + n)) l.
Proof.
  intros. pose proof (zslice_app 0 i n l) as E. unfold zslice in E. rewrite drop_0 in E.
  symmetry. unfold zslice. apply E; lia.
Qed.

Lemma read_batches_file file n : forall i b,
  0 <= i -> zlen (take (Z.to_nat i) file ++ b) = zlen file -> zlen file - i <= BUFFER_SIZE * Z.of_nat n ->
  read_batches (S n) file (zlen file) i (take (Z.to_nat i) file ++ b) = Ok file.
Proof.
  induction n as [|n IH]; intros i b Hi Hb Hn; cbn [read_batches]; pose proof (zlen_nonneg file).
  - rewrite (proj2 (Z.ltb_ge _ _)) by lia. cbn [negb]. f_equal.
    rewrite take_ge in * by (unfold zlen in *; lia). rewrite zlen_app in Hb.
    destruct b; [apply app_nil_r|]. rewrite zlen_cons in Hb. pose proof (zlen_nonneg b). lia.
  - destruct (i <? zlen file) eqn:E; cbn [negb]; zbool.
    + destruct (batch_range i (zlen file) E) as [Hk Hk']. set (k := batch i (zlen file)) in *.
      rewrite zlen_app in Hb. assert (Hlb : zlen b = zlen file - i).
      { unfold zlen in *. rewrite length_take in Hb. lia. }
      rewrite <-(take_drop (Z.to_nat k) b), (put_at (take (Z.to_nat i) file)).
      * cbn [mbind res_bind]. rewrite app_assoc, take_zslice_next by lia.
        replace (take (Z.to_nat (i + k)) file) with (take (Z.to_nat (i + BUFFER_SIZE)) file).
        -- apply IH; [unfold BUFFER_SIZE; lia| |unfold BUFFER_SIZE in *; lia].
           rewrite zlen_app. unfold zlen in *. rewrite length_take, length_drop.
           unfold k, batch in *. unfold BUFFER_SIZE in *. case_test; zbool; lia.
        -- unfold k, batch. case_test; zbool; [|done].
           rewrite !take_ge by (unfold zlen in *; lia). done.
      * unfold zlen in *. rewrite length_take. lia.
      * rewrite zlen_zslice by lia. unfold zlen in *. rewrite length_take. lia.
    + assert (Hge : zlen file <= i) by lia. f_equal.
      rewrite take_ge in * by (unfold zlen in *; lia). rewrite zlen_app in Hb.
      destruct b; [apply app_nil_r|]. rewrite zlen_cons in Hb. pose proof (zlen_nonneg b). lia.
Qed.

(** *** Writing to the device *)
Lemma pwrite_at d off l a :
  pwrite d off l a = if decide (off <= a < off + zlen l) then from_option id (d a) (l !! Z.to_nat (a - off)) else d a.
Proof.
  unfold pwrite, zlen. case_test; zbool; case_decide; try lia; try done.
  by rewrite lookup_ge_None_2 by lia.
Qed.

Lemma pread_pwrite_same d off l : pread (pwrite d off l) (zlen l) off = l.
Proof.
  unfold pread. apply list_eq. intros i. rewrite list_lookup_fmap. unfold zseq. rewrite list_lookup_fmap.
  destruct (decide (i < length l)%nat) as [H|H].
  - rewrite lookup_seq_lt by (unfold zlen; lia). simpl. rewrite pwrite_at, decide_True by (unfold zlen; lia).
    replace (Z.to_nat (off + Z.of_nat i - off)) with i by lia.
    destruct (lookup_lt_is_Some_2 l i H) as [x E]. by rewrite E.
  - rewrite lookup_seq_ge by (unfold zlen; lia). simpl. by rewrite lookup_ge_None_2 by lia.
Qed.

Lemma pread_ext d d' n off :
  (forall a, off <= a < off + n -> d a = d' a) -> pread d n off = pread d' n off.
Proof.
  intros H. unfold pread. apply list_fmap_ext. intros i x Hx%list_elem_of_lookup_2%elem_of_zseq. apply H. lia.
Qed.

Lemma pread_pwrite_other d o l n off :
  off + n <= o \/ o + zlen l <= off -> pread (pwrite d o l) n off = pread d n off.
Proof. intros H. apply pread_ext. intros a Ha. rewrite pwrite_at. case_decide; [lia|done]. Qed.

Lemma pwrite_app d off l1 l2 a :
  pwrite (pwrite d off l1) (off + zlen l1) l2 a = pwrite d off (l1 ++ l2) a.
Proof.
  rewrite !pwrite_at, zlen_app. pose proof (zlen_nonneg l1). pose proof (zlen_nonneg l2). unfold zlen in *.
  repeat case_decide; try lia; try done.
  - rewrite lookup_app_r by lia. do 2 f_equal. lia.
  - by rewrite lookup_app_l by lia.
Qed.

Lemma pwrite_nil d off a : pwrite d off [] a = d a.
Proof. rewrite pwrite_at. case_decide; done. Qed.

Lemma write_batches_all buf n : forall i d,
  0 <= i -> zlen buf - i <= BUFFER_SIZE * Z.of_nat n ->
  exists d', write_batches (S n) buf (zlen buf) i d = Ok d' /\
    forall a, d' a = pwrite d (i + DATA_OFFSET) (drop (Z.to_nat i) buf) a.
Proof.
  induction n as [|n IH]; intros i d Hi Hn; cbn [write_batches]; pose proof (zlen_nonneg buf);
    destruct (i <? zlen buf) eqn:E; cbn [negb]; zbool; [lia| | |].
  2: { destruct (batch_range i (zlen buf) E) as [Hk Hk'].
       rewrite (zread_Ok buf i) by lia. cbn [mbind res_bind]. cbn [write_batches] in IH.
       set (k := batch i (zlen buf)) in *.
       destruct (IH (i + BUFFER_SIZE) (pwrite d (i + DATA_OFFSET) (zslice i k buf)))
         as (d' & -> & Hd'); [unfold BUFFER_SIZE; lia|unfold BUFFER_SIZE in *; lia|].
       exists d'. split; [done|]. intros a. rewrite Hd'.
       assert (Es : drop (Z.to_nat i) buf = zslice i k buf ++ drop (Z.to_nat (i + BUFFER_SIZE)) buf).
       { rewrite <-(take_drop (Z.to_nat k) (drop (Z.to_nat i) buf)) at 1. unfold zslice. f_equal.
         rewrite drop_drop. unfold k, batch, BUFFER_SIZE in *. case_test; zbool; [|f_equal; lia].
         rewrite !drop_ge by (unfold zlen in *; lia). done. }
       rewrite Es, <-pwrite_app, zlen_zslice by lia.
       replace (i + BUFFER_SIZE + DATA_OFFSET) with (i + DATA_OFFSET + BUFFER_SIZE) by lia.
       unfold k, batch. case_test; zbool; [|done].
       rewrite drop_ge by (unfold zlen in *; unfold BUFFER_SIZE in *; lia). by rewrite !pwrite_nil. }
  all: exists d; split; [done|]; intros a;
    rewrite drop_ge by (unfold zlen in *; lia); by rewrite pwrite_nil.
Qed.

Lemma batches_enough len : 0 <= len -> exists n, batches len = S n /\ len <= BUFFER_SIZE * Z.of_nat n.
Proof.
  intros H. exists (Z.to_nat (len / BUFFER_SIZE) + 1)%nat. unfold batches. split; [lia|].
  pose proof (Z.mul_succ_div_gt len BUFFER_SIZE). pose proof (Z.div_pos len BUFFER_SIZE).
  unfold BUFFER_SIZE in *. lia.
Qed.

(** ** Termination on any file *)
Create HintDb returns.

Lemma put_inv buf off src buf' : put buf off src = Ok buf' ->
  0 <= off /\ off + zlen src <= zlen buf /\ buf' = zsplice off src buf.
Proof.
  intros (_ & H1 & H2 & _ & _ & ->)%memcpy_inv. by rewrite zslice_full.
Qed.

Lemma put_keeps (P : Z -> Prop) buf off src buf' :
  put buf off src = Ok buf' -> Forall P buf -> Forall P src -> zlen buf' = zlen buf /\ Forall P buf'.
Proof.
  intros (H1 & H2 & ->)%put_inv Hb Hs. split; [by rewrite zlen_zsplice|].
  unfold zsplice. rewrite !Forall_app. auto using Forall_take, Forall_drop.
Qed.

Lemma put_returns buf off src : put buf off src <> Blocks.
Proof. unfold put, memcpy. by case_test. Qed.

Lemma load_returns n buf off : load n buf off <> Blocks.
Proof. unfold load, zread. by case_test. Qed.

Lemma bind_returns {A B} (m : res A) (f : A -> res B) :
  m <> Blocks -> (forall a, m = Ok a -> f a <> Blocks) -> m ≫= f <> Blocks.
Proof. destruct m; simpl; auto. Qed.

(** Computations without busy waiting. *)
#[local] Hint Resolve put_returns load_returns : returns.
Ltac returns :=
  repeat first
    [ solve [auto with returns nocore] | done
    | apply bind_returns; [|intros ? ?]
    | match goal with |- (let '(_, _) := ?x in _) <> _ => destruct x end
    | match goal with |- context [if ?b then _ else _] => destruct b end ].

Lemma getFlow_returns buf m : getFlowMetaData buf m <> Blocks.
Proof. unfold getFlowMetaData. returns. Qed.

Lemma writeIndex_returns v m t b o : writeIndexToBuffer v m t b o <> Blocks.
Proof. unfold writeIndexToBuffer. returns. Qed.
#[local] Hint Resolve getFlow_returns writeIndex_returns : returns.

Lemma handle_packet_returns s : handle_packet s <> Blocks.
Proof.
  unfold handle_packet, readPacket, writeBefore. returns.
Qed.

Lemma load_range n buf off x : Forall (is_u 8) buf -> load n buf off = Ok x -> is_u (8 * Z.of_nat n) x.
Proof.
  unfold load, zread. intros Hb. case_test; [|done]. zbool. cbn [mbind res_bind]. intros [= <-].
  apply le_val_word; [apply Forall_take, Forall_drop; done|apply zlen_zslice; lia].
Qed.

Lemma le_bytes_bytes n z : Forall (is_u 8) (le_bytes n z).
Proof. eapply Forall_impl; [apply le_bytes_range|]. intros x Hx. exact Hx. Qed.

(** Each turn advances by a header at least. *)
Record walking (len : Z) (s : HState) : Prop := {
  wk_len : zlen (read_buffer s) = len;
  wk_bytes : Forall (is_u 8) (read_buffer s);
  wk_same : read_offset s = totol_len s }.

Lemma handle_packet_progress len s s' :
  len < 2 ^ 63 -> walking len s -> handle_packet s = Ok (inr s') ->
  walking len s' /\ totol_len s + 16 <= totol_len s'.
Proof.
  intros Hlen [Hl Hb Hs] E. unfold handle_packet in E.
  apply bind_Ok_iff in E as ([[no pm] rb] & E1 & E). unfold readPacket in E1.
  apply bind_Ok_iff in E1 as (rb1 & Eput & E1). apply bind_Ok_iff in E1 as (cap & Ecap & [= <- <- <-]).
  destruct (put_keeps _ _ _ _ _ Eput Hb (le_bytes_bytes _ _)) as [Hl1 Hb1].
  apply put_inv in Eput as (Ho & Hfit & _). rewrite zlen_le_bytes in Hfit.
  pose proof (load_range _ _ _ _ Hb1 Ecap) as Hcap. unfold is_u in Hcap.
  pose proof (load_nonneg _ _ _ _ Ecap) as Ho'.
  apply bind_Ok_iff in E as (th & Eh & E). apply load_nonneg in Eh. cbn [pm_header] in Eh.
  apply bind_Ok_iff in E as (tl & _ & E).
  apply bind_Ok_iff in E as (m & _ & E). case_bool_decide; [discriminate E|].
  unfold PCAP_HEADER_LEN in E. rewrite (u64_small (read_offset s + cap)), (u64_small (_ + 16)) in E by lia.
  rewrite (u64_small (_ - _)), (u64_small (totol_len s + _)) in E by lia.
  destruct (addPacket _ _ _ _ _) as [last a]. destruct (negb _).
  - apply bind_Ok_iff in E as (rb2 & E2 & [= <-]).
    destruct (put_keeps _ _ _ _ _ E2 Hb1 (le_bytes_bytes _ _)) as [Hl2 Hb2].
    cbn. split; [split; cbn; try done; lia|lia].
  - apply bind_Ok_iff in E as ([io ib] & _ & E). case_test; [discriminate E|]. injection E as <-.
    cbn. split; [split; cbn; try done; lia|lia].
Qed.

Lemma packet_loop_returns len n : forall s,
  len < 2 ^ 63 -> walking len s -> len - totol_len s <= 16 * Z.of_nat n ->
  packet_loop (S n) len s <> Blocks.
Proof.
  induction n as [|n IH]; intros s Hlen Hw Hf; cbn [packet_loop].
  - rewrite (proj2 (Z.leb_le _ _)) by lia. done.
  - case_test; [done|]. apply bind_returns; [apply handle_packet_returns|].
    intros [code|s'] E'; [done|].
    destruct (handle_packet_progress len s s' Hlen Hw E') as [Hw' Hp].
    apply IH; [done|done|lia].
Qed.

Lemma packet_loop_walking len fuel : forall s s',
  len < 2 ^ 63 -> walking len s -> packet_loop fuel len s = Ok (inr s') -> walking len s'.
Proof.
  induction fuel as [|fuel IH]; intros s s' Hlen Hw; cbn [packet_loop]; [done|].
  case_test; [by intros [= <-]|]. intros ([code|s1] & E1 & E2)%bind_Ok_iff; [done|].
  apply (IH s1); [done| |done]. by apply (handle_packet_progress len s).
Qed.

Lemma write_batches_returns buf len d :
  zlen buf = len -> exists d', write_batches (batches len) buf len 0 d = Ok d' /\
    forall a, d' a = pwrite d DATA_OFFSET buf a.
Proof.
  intros <-. destruct (batches_enough (zlen buf)) as (n & -> & Hn); [apply zlen_nonneg|].
  apply (write_batches_all buf n 0 d); lia.
Qed.

Lemma read_batches_all file b : zlen b = zlen file -> 
  read_batches (batches (zlen file)) file (zlen file) 0 b = Ok file.
Proof.
  intros Hb. destruct (batches_enough (zlen file)) as (n & -> & Hn); [apply zlen_nonneg|].
  apply (read_batches_file file n 0 b); [done|done|lia].
Qed.

Section outcome.
Context (uninit : Z -> list Z) (zlen_uninit : forall n, 0 <= n -> zlen (uninit n) = n).

(** The part of the index buffer that is written to the device. *)
Definition index_area (hs : list placed) : list Z :=
  zslice 0 (72 * zlen hs) (entries (uninit BUFFER_SIZE) hs).

Lemma main_reads fuel file dev :
  main uninit fuel (Some file) (Some dev) =
    (r ← packet_loop fuel (zlen file) (start uninit file);
     match r with
     | inl code => Ok (code, Some dev)
     | inr s =>
         dev ← write_batches (batches (zlen file)) (read_buffer s) (zlen file) 0 dev;
         l ← zread (index_buffer s) 0 (index_offset s);
         Ok (0, Some (pwrite dev INDEX_OFFSET l))
     end).
Proof.
  unfold main. rewrite read_batches_all; [done|]. apply zlen_uninit, zlen_nonneg.
Qed.

(** The run on a capture file of IP packets. *)
Lemma handler_writes fuel pre cs dev :
  zlen pre = 24 -> Forall cap_ok cs -> 24 + size cs <= 16 * BUFFER_SIZE ->
  72 * zlen (heads [] (place 24 cs)) <= BUFFER_SIZE -> (length cs < fuel)%nat ->
  exists dev',
    main uninit fuel (Some (pre ++ concat (raw <$> cs))) (Some dev) = Ok (0, Some dev') /\
    pread dev' (24 + size cs) DATA_OFFSET = pre ++ linked (place 24 cs) /\
    pread dev' (72 * zlen (heads [] (place 24 cs))) INDEX_OFFSET = index_area (heads [] (place 24 cs)).
Proof.
  intros Hp Hok Hs Hh Hfuel.
  assert (Hf : fits pre (uninit BUFFER_SIZE) ([] ++ cs)).
  { split; try done; [unfold BUFFER_SIZE, MAX64 in *; simpl app; lia|]. by apply zlen_uninit. }
  destruct (packet_loop_inv pre (uninit BUFFER_SIZE) cs [] _ fuel Hf (inv_start pre cs uninit) Hfuel) as (s & E & Hi).
  assert (Hz : zlen (pre ++ concat (raw <$> cs)) = 24 + size cs) by (rewrite zlen_app; unfold size; lia).
  change ([] ++ cs) with cs in *. rewrite main_reads, Hz, E. cbn [mbind res_bind].
  destruct Hi as [Hrb Hib _ _ Hio _ _]. rewrite app_nil_r in Hrb. rewrite Hrb, Hib, Hio.
  assert (Hz' : zlen (pre ++ linked (place 24 cs)) = 24 + size cs) by (rewrite zlen_app, zlen_linked; lia).
  destruct (write_batches_returns _ _ dev Hz') as (d' & -> & Hd'). cbn [mbind res_bind].
  set (hs := heads [] (place 24 cs)) in *. pose proof (zlen_nonneg hs).
  assert (Hen : 72 * zlen hs <= zlen (entries (uninit BUFFER_SIZE) hs)).
  { rewrite zlen_entries; rewrite ?zlen_uninit by done; [done| |done].
    apply Forall_forall. intros y Hy%heads_sub%place_captures. rewrite Forall_forall in Hok. auto. }
  rewrite zread_Ok by lia. cbn [mbind res_bind]. fold (index_area hs).
  assert (Hia : zlen (index_area hs) = 72 * zlen hs) by (apply zlen_zslice; lia).
  eexists. split; [reflexivity|]. split.
  - rewrite pread_pwrite_other by (unfold DATA_OFFSET, INDEX_OFFSET, BUFFER_SIZE in *; lia).
    rewrite (pread_ext _ (pwrite dev DATA_OFFSET (pre ++ linked (place 24 cs)))) by (intros; apply Hd').
    rewrite <-Hz'. apply pread_pwrite_same.
  - rewrite <-Hia. apply pread_pwrite_same.
Qed.

(** C6: the data handler links the flows.  On a capture file whose records are
    IP packets it returns 0 and leaves on the device, at [DATA_OFFSET], the file
    with the last header field of every record replaced by the distance to the
    next record of the same flow when that is at most 1 GB away (and by the
    32-bit maximum otherwise), and at [INDEX_OFFSET] one index record for each
    packet that no earlier packet of its flow is linked to, in file order. *)
Theorem data_handler_links_flows fuel pre cs dev :
  zlen pre = 24 -> Forall cap_ok cs -> 24 + size cs <= 16 * BUFFER_SIZE ->
  72 * zlen (heads [] (place 24 cs)) <= BUFFER_SIZE -> (length cs < fuel)%nat ->
  exists dev',
    main uninit fuel (Some (pre ++ concat (raw <$> cs))) (Some dev) = Ok (0, Some dev') /\
    pread dev' (24 + size cs) DATA_OFFSET = pre ++ linked (place 24 cs) /\
    pread dev' (72 * zlen (heads [] (place 24 cs))) INDEX_OFFSET = index_area (heads [] (place 24 cs)).
Proof. apply handler_writes. Qed.

(** a record that is not IP stops the run.  When the records before it are
    IP packets, the handler returns 3 and has written nothing to the device. *)
Theorem data_handler_stops_at_non_ip fuel pre cs c rest dev m :
  zlen pre = 24 -> Forall cap_ok cs -> 72 * zlen (heads [] (place 24 cs)) <= BUFFER_SIZE ->
  hdr_ok c -> getFlowMetaData (c_data c) (mkPM 0 0 0) = Ok m -> sourceAddress m = [] ->
  24 + size (cs ++ c :: rest) < MAX64 -> (length cs < fuel)%nat ->
  main uninit fuel (Some (pre ++ concat (raw <$> cs ++ c :: rest))) (Some dev) = Ok (3, Some dev).
Proof.
  intros Hp Hok Hh Hc Hm He Hs Hfuel.
  assert (Hf : fits pre (uninit BUFFER_SIZE) ([] ++ cs)).
  { split; try done; [|by apply zlen_uninit]. rewrite size_app in Hs. pose proof (capture_size_nonneg (c :: rest)).
    change ([] ++ cs) with cs. lia. }
  pose proof (packet_loop_not_ip pre _ cs c rest m [] _ fuel Hf (inv_start pre _ uninit) Hfuel Hc Hs Hm He) as E.
  assert (Hz : zlen (pre ++ concat (raw <$> cs ++ c :: rest)) = 24 + size (cs ++ c :: rest)).
  { rewrite zlen_app. unfold size. lia. }
  change ([] ++ cs ++ c :: rest) with (cs ++ c :: rest) in E.
  by rewrite main_reads, Hz, E.
Qed.

(** the data handler terminates on any file.  Whatever bytes the file
    holds, a number of turns of its length divided by the record header's
    length is enough: the run ends, with a code or in undefined behaviour when
    a record reaches beyond the file. *)
Theorem data_handler_terminates (fuel : nat) file dev :
  zlen file < 2 ^ 63 -> Forall (is_u 8) file -> zlen file / 16 + 2 <= Z.of_nat fuel ->
  main uninit fuel (Some file) (Some dev) <> Blocks.
Proof.
  intros Hl Hb Hf. rewrite main_reads. pose proof (zlen_nonneg file).
  assert (Hw : walking (zlen file) (start uninit file)) by done.
  destruct fuel as [|n]; [pose proof (Z.div_pos (zlen file) 16); lia|].
  apply bind_returns.
  - apply packet_loop_returns; [done|done|]. cbn [start totol_len].
    pose proof (Z.mul_succ_div_gt (zlen file) 16). lia.
  - intros [code|s] E; [done|]. apply packet_loop_walking in E as [E _ _]; [|done|done].
    destruct (write_batches_returns _ _ dev E) as (d' & -> & _). cbn [mbind res_bind].
    unfold zread. by case_test.
Qed.
End outcome.

(** ** The index buffer's end

    The test for an overflow comes after the write, so that a record beyond
    the buffer is written before the code 2 could be returned. *)
Lemma index_overflow_too_late s : zlen (index_buffer s) <= BUFFER_SIZE -> handle_packet s <> Ok (inl 2).
Proof.
  intros Hl E. unfold handle_packet in E.
  apply bind_Ok_iff in E as ([[no pm] rb] & _ & E). do 3 apply bind_Ok_iff in E as (? & _ & E).
  case_bool_decide; [discriminate E|]. destruct (addPacket _ _ _ _ _) as [last a].
  destruct (negb _); [by apply bind_Ok_iff in E as (? & _ & ?)|].
  apply bind_Ok_iff in E as ([io ib] & Ew & E). unfold writeIndexToBuffer in Ew.
  assert (Hz : forall b o src b', put b o src = Ok b' -> 0 <= o /\ o + zlen src <= zlen b /\ zlen b' = zlen b).
  { intros b o src b' (H1 & H2 & ->)%put_inv. by rewrite zlen_zsplice. }
  do 8 (let b := fresh "b" in let Eb := fresh "Eb" in
        apply bind_Ok_iff in Ew as (b & Eb & Ew); apply Hz in Eb as (? & ? & ?)).
  apply bind_Ok_iff in Ew as (b8 & Eb8 & [= <- _]). apply Hz in Eb8 as (? & Hfit & ?).
  rewrite zlen_le_bytes in Hfit. unfold INDEX_ENUM_LEN, at_ts, at_version in *. unfold BUFFER_SIZE in *.
  rewrite u64_small in E by lia. rewrite (proj2 (Z.ltb_ge _ _)) in E by lia. discriminate E.
Qed.

(** The block of the packet 1 GB into the data is recorded as 2^40. *)
Lemma block_id_by_macro : div_BUFFER_SIZE BUFFER_SIZE = 2 ^ 40 /\ BUFFER_SIZE / BUFFER_SIZE = 1.
Proof. done. Qed.

(** ** Chains

    The packets reached from a packet by its link, the link of that packet,
    and so on. *)
Definition flow_key (y : placed) : FlowMetadata := p_meta (to_pkt y).

Fixpoint follow (q : placed) (later : list placed) : list placed :=
  match later with
  | [] => []
  | p :: later =>
      if decide (flow_key p = flow_key q)
      then if near (to_pkt q) (to_pkt p) then p :: follow p later else []
      else follow q later
  end.

Fixpoint chains (past : list pkt) (ps : list placed) : list (list placed) :=
  match ps with
  | [] => []
  | x :: ps =>
      let rest := chains (past ++ [to_pkt x]) ps in
      if link aggregator BUFFER_SIZE past (to_pkt x) =? MAX64 then (x :: follow x ps) :: rest else rest
  end.

(** The last packets of the flows seen so far. *)
Record lasts (past : list pkt) (ls : list placed) : Prop := {
  ls_last m q : last_of m past = Some q <-> exists y, y ∈ ls /\ to_pkt y = q /\ flow_key y = m;
  ls_off y : y ∈ ls -> y.1 <> MAX64;
  ls_distinct : NoDup (flow_key <$> ls) }.

Lemma concat_fmap_perm {A B} (f g : A -> list B) (l : list A) :
  (forall x, x ∈ l -> f x ≡ₚ g x) -> concat (f <$> l) ≡ₚ concat (g <$> l).
Proof.
  induction l as [|x l IH]; intros H; [done|]. cbn. rewrite (H x) by left.
  by rewrite IH by (intros; apply H; by right).
Qed.

(** The flow of a new packet: its last packet among [ls], if any, and the rest. *)
Lemma lasts_step past ls (x : placed) :
  lasts past ls -> x.1 <> MAX64 ->
  exists ls', lasts (past ++ [to_pkt x]) (x :: ls') /\
    (forall z, z ∈ ls' -> flow_key z <> flow_key x) /\
    ((exists y, ls ≡ₚ y :: ls' /\ flow_key y = flow_key x /\
        last_of (flow_key x) past = Some (to_pkt y)) \/
     (ls = ls' /\ last_of (flow_key x) past = None)).
Proof.
  intros [Hl Ho Hd] Hx.
  assert (Hnew : forall ls', NoDup (flow_key <$> ls') -> (forall z, z ∈ ls' <-> z ∈ ls /\ flow_key z <> flow_key x) ->
    lasts (past ++ [to_pkt x]) (x :: ls')).
  { intros ls' Hd' Hz. split.
    - intros m q. rewrite last_of_snoc. fold (flow_key x). case_decide as Em.
      + split; [intros [= <-]; exists x; repeat split; [by left|done]|].
        intros (y & [-> | Hy]%elem_of_cons & <- & Hm); [done|]. apply Hz in Hy as [_ Hy]. congruence.
      + rewrite Hl. split; intros (y & Hy & <- & Hm).
        * exists y. repeat split; [right; apply Hz; split; [done|congruence]|done].
        * apply elem_of_cons in Hy as [-> | Hy]; [done|]. apply Hz in Hy as [Hy _]. eauto.
    - intros y [-> | Hy]%elem_of_cons; [done|]. apply Hz in Hy as [Hy _]. auto.
    - rewrite fmap_cons. apply NoDup_cons. split; [|done]. intros (z & E & Hy)%list_elem_of_fmap. apply Hz in Hy as [_ Hy]. congruence. }
  destruct (last_of (flow_key x) past) as [q|] eqn:E.
  - apply Hl in E as Hy. destruct Hy as (y & Hy & <- & Hm).
    apply elem_of_Permutation in Hy as [ls' Hp]. exists ls'.
    assert (Hd2 : NoDup (flow_key <$> y :: ls')) by (by rewrite <-Hp).
    rewrite fmap_cons in Hd2. apply NoDup_cons in Hd2 as [Hny Hd2].
    assert (Hne : forall z, z ∈ ls' -> flow_key z <> flow_key x).
    { intros z Hz Ez. apply Hny. apply list_elem_of_fmap. exists z. split; [congruence|done]. }
    split; [|split; [done|left; eauto]]. apply Hnew; [done|]. intros z. rewrite Hp, elem_of_cons. split.
    + intros Hz. split; [by right|by apply Hne].
    + intros [[-> | Hz] Hzx]; [congruence|done].
  - exists ls.
    assert (Hne : forall z, z ∈ ls -> flow_key z <> flow_key x).
    { intros z Hz Ez. assert (last_of (flow_key x) past = Some (to_pkt z)) by (apply Hl; eauto). congruence. }
    split; [|split; [done|by right]]. apply Hnew; [done|]. intros z. split; [auto|tauto].
Qed.

Lemma follow_other (ls : list placed) x ps :
  (forall z, z ∈ ls -> flow_key z <> flow_key x) ->
  concat ((fun q => follow q (x :: ps)) <$> ls) = concat ((fun q => follow q ps) <$> ls).
Proof.
  intros H. f_equal. apply list_fmap_ext. intros i z Hz%list_elem_of_lookup_2. cbn [follow].
  rewrite decide_False; [done|]. intros E. by apply (H z Hz).
Qed.

Lemma follow_perm (ls ls' : list placed) ps :
  ls ≡ₚ ls' -> concat ((fun q => follow q ps) <$> ls) ≡ₚ concat ((fun q => follow q ps) <$> ls').
Proof. intros H. induction H; cbn; [done|by rewrite IHPermutation| |by etransitivity].
  by rewrite !app_assoc, (Permutation_app_comm (follow y ps)).
Qed.

Lemma chains_with_lasts ps : forall past ls,
  lasts past ls -> Forall (fun y : placed => y.1 <> MAX64) ps ->
  concat (chains past ps) ++ concat ((fun q => follow q ps) <$> ls) ≡ₚ ps.
Proof.
  induction ps as [|x ps IH]; intros past ls Hl Hx.
  - cbn [chains concat app]. clear Hl. induction ls; [done|]. cbn. apply IHls.
  - apply Forall_cons in Hx as [Hx Hps].
    destruct (lasts_step past ls x Hl Hx) as (ls' & Hl' & Hne & Hcase).
    specialize (IH _ _ Hl' Hps). rewrite fmap_cons, concat_cons in IH. cbn [chains].
    rewrite link_near. fold (flow_key x).
    destruct Hcase as [(y & Hp & Hk & E) | [-> E]]; rewrite E.
    + rewrite (follow_perm _ _ _ Hp), fmap_cons, concat_cons, follow_other by done. cbn [follow].
      rewrite decide_True by done. destruct (near (to_pkt y) (to_pkt x)).
      * assert (Hy : y.1 <> MAX64) by (apply (ls_off _ _ Hl); rewrite Hp; left).
        rewrite (proj2 (Z.eqb_neq _ _)) by exact Hy.
        rewrite <-app_comm_cons. etransitivity; [symmetry; apply Permutation_middle|by apply perm_skip].
      * rewrite Z.eqb_refl, concat_cons, <-app_comm_cons, app_nil_l. apply perm_skip.
        etransitivity; [|exact IH]. rewrite !app_assoc. f_equiv. apply Permutation_app_comm.
    + rewrite follow_other by done. rewrite Z.eqb_refl, concat_cons, <-app_comm_cons. apply perm_skip.
      etransitivity; [|exact IH]. rewrite !app_assoc. f_equiv. apply Permutation_app_comm.
Qed.

(** The chains of the index records partition the packets. *)
Lemma chains_partition ps :
  Forall (fun y : placed => y.1 <> MAX64) ps -> concat (chains [] ps) ≡ₚ ps.
Proof.
  intros H. rewrite <-(app_nil_r (concat _)). apply (chains_with_lasts ps [] []); [split|done].
  - intros m q. split; [done|]. by intros (y & ?%elem_of_nil & _).
  - by intros y ?%elem_of_nil.
  - constructor.
Qed.

Lemma chains_heads ps : forall past, heads past ps = omap head (chains past ps).
Proof.
  induction ps as [|x ps IH]; intros past; [done|]. cbn [heads chains].
  case_test; cbn; by rewrite IH.
Qed.

End Handler.

(** * A capture file with two flows *)
Module DemoHandler.
Import Handler.

Definition zeros (n : Z) : list Z := replicate (Z.to_nat n) 0.

Lemma zlen_zeros n : 0 <= n -> zlen (zeros n) = n.
Proof. intros. unfold zeros. rewrite zlen_replicate. lia. Qed.

(** An IPv4 packet: Ethernet header, IP header, ports. *)
Definition packet4 (version src dst sport dport : Z) (payload : list Z) : list Z :=
  replicate 14 0 ++ [version * 16 + 5] ++ replicate 11 0 ++ [10; 0; 0; src] ++ [10; 0; 0; dst]
  ++ [sport / 256; sport mod 256] ++ [dport / 256; dport mod 256] ++ payload.

Definition f1 : capture := mkCap 0 1 60 (packet4 4 1 2 1000 80 [1; 2; 3]).
Definition g1 : capture := mkCap 0 2 60 (packet4 4 3 4 2000 443 []).
Definition f2 : capture := mkCap 0 3 60 (packet4 4 1 2 1000 80 []).
Definition arp : capture := mkCap 0 4 60 (packet4 0 1 2 0 0 []).
Definition file_header : list Z := replicate 24 7.
Definition empty_disk : device := fun _ => 0.

Ltac small_word := unfold is_u; vm_compute; split; [discriminate|reflexivity].

Lemma demo_ok : Forall cap_ok [f1; g1; f2].
Proof.
  apply Forall_cons; split; [|apply Forall_cons; split; [|apply Forall_cons; split; [|by constructor]]];
    (constructor; [constructor; small_word | vm_compute; reflexivity | vm_compute; discriminate]).
Qed.

Lemma demo_heads : heads [] (place 24 [f1; g1; f2]) = [(24, f1); (81, g1)].
Proof. vm_compute. reflexivity. Qed.

Lemma demo_linked : linked (place 24 [f1; g1; f2]) = rec_bytes 111 f1 ++ rec_bytes MAX32 g1 ++ rec_bytes MAX32 f2.
Proof. vm_compute. reflexivity. Qed.

Lemma data_handler_links_flows_witness :
  exists dev', main zeros 4 (Some (file_header ++ concat (raw <$> [f1; g1; f2]))) (Some empty_disk)
      = Ok (0, Some dev') /\
    pread dev' (24 + size [f1; g1; f2]) DATA_OFFSET
      = file_header ++ rec_bytes 111 f1 ++ rec_bytes MAX32 g1 ++ rec_bytes MAX32 f2 /\
    pread dev' (72 * zlen [(24, f1); (81, g1)]) INDEX_OFFSET = index_area zeros [(24, f1); (81, g1)].
Proof.
  rewrite <-demo_linked, <-demo_heads.
  apply (data_handler_links_flows zeros zlen_zeros 4 file_header [f1; g1; f2] empty_disk).
  - reflexivity.
  - apply demo_ok.
  - vm_compute. discriminate.
  - rewrite demo_heads. vm_compute. discriminate.
  - simpl. lia.
Defined.

Lemma data_handler_stops_at_non_ip_witness :
  main zeros 4 (Some (file_header ++ concat (raw <$> [f1; g1] ++ [arp; f2]))) (Some empty_disk)
    = Ok (3, Some empty_disk).
Proof.
  apply (data_handler_stops_at_non_ip zeros zlen_zeros 4 file_header [f1; g1] arp [f2] empty_disk (mkMeta [] [] 0 0)).
  - reflexivity.
  - pose proof demo_ok as H. inversion H; subst. inversion H3; subst. auto.
  - vm_compute. discriminate.
  - constructor; small_word.
  - vm_compute. reflexivity.
  - reflexivity.
  - vm_compute. reflexivity.
  - simpl. lia.
Defined.

(** A file that ends inside a record's header. *)
Lemma data_handler_terminates_witness :
  main zeros 10 (Some (file_header ++ [1; 2; 3])) (Some empty_disk) <> Blocks.
Proof.
  refine (data_handler_terminates zeros zlen_zeros 10 (file_header ++ [1; 2; 3]) empty_disk _ _ _).
  - vm_compute. reflexivity.
  - apply (Forall_impl (fun b => 0 <= b <= 7)); [|unfold is_u; lia].
    apply Forall_app; split; [apply Forall_replicate; lia|]. repeat constructor; lia.
  - vm_compute. discriminate.
Defined.

End DemoHandler.
