(* ===== verification/QueryFill.v ===== *)
(** * Building the experiment's index (experiment/queryTest.cpp, fill and init)

    [fill] reads the index records that the data handler left on the device,
    groups them by disk block, enters the keys of each record into the block's
    prefix filter and into six vectors of (key, position) records, one per
    index type; it sorts each block's part of each vector when the next block
    begins, and writes the parts to the device block by block, remembering
    where each one lies.

    The six vectors are the columns of the state, in the order of their index
    type codes; an [IndexArrayMeta] is a list of six pairs, the elements [2t]
    and [2t+1] of the array.  [std::sort] and [std::hash] are parameters. *)
From stdpp Require Import sorting.
From S2P Require Import Prelude Util BitMap PrefixBloom BlockBuffer Reader DataHandler.
From Stdlib Require Import ZArith Lia.

Definition data_disk_size : Z := 1024 * 1024 * 1024 * 64.
Definition data_block_size : Z := 1024 * 1024 * 1024.
Definition bitmap_backup_col_num : Z := 8.
Definition hash_num : Z := 4.
Definition index_block_offset : Z := 1024 * 1024 * 1024 * 1024.

(** The size of the index, a constant that the program is compiled with
    (filterTest.cpp has another one); [fill] takes it as an argument. *)
Definition INDEX_SIZE : Z := 131689368.
Definition INDEX_ENUM_LEN : Z := Handler.INDEX_ENUM_LEN.
Definition INDEX_OFFSET : Z := Handler.INDEX_OFFSET.

Definition index_types : list IndexType := [SRCIP; DSTIP; SRCPORT; DSTPORT; SRCIPv6; DSTIPv6].

(** ** A vector of records *)
Inductive Column :=
| Ports (l : list (Z * Z))
| IPv4s (l : list (Z * Z))
| IPv6s (l : list (IPv6Address * Z)).

(** [size() * sizeof(Record<K>)] and the bytes behind [data()]. *)
Definition col_size (c : Column) : Z :=
  match c with
  | Ports l => zlen l * record_size 2
  | IPv4s l => zlen l * record_size 4
  | IPv6s l => zlen l * record_size 16
  end.

Definition col_bytes (c : Column) : list Z :=
  match c with
  | Ports l => @records_enc Z key2 l
  | IPv4s l => @records_enc Z key4 l
  | IPv6s l => @records_enc IPv6Address key16 l
  end.

(** [push_back] of a record on the vector of its key type. *)
Definition col_push (c : Column) (key : fkey) (position : Z) : res Column :=
  match c, key with
  | Ports l, KPort p _ => Ok (Ports (l ++ [(p, position)]))
  | IPv4s l, KIPv4 ip _ => Ok (IPv4s (l ++ [(ip, position)]))
  | IPv6s l, KIPv6 ip _ => Ok (IPv6s (l ++ [(ip, position)]))
  | _, _ => Undef
  end.

(** ** The state that [fill] builds *)
Record FillState := mkFill {
  bitmap : BitMap;
  prefixFilters : list PrefixBloomFilter;
  metas : list (list (Z * Z));
  columns : list Column }.

Definition with_filters (s : FillState) (b : BitMap) (l : list PrefixBloomFilter) : FillState :=
  mkFill b l (metas s) (columns s).
Definition with_metas (s : FillState) (l : list (list (Z * Z))) : FillState :=
  mkFill (bitmap s) (prefixFilters s) l (columns s).
Definition with_columns (s : FillState) (l : list Column) : FillState :=
  mkFill (bitmap s) (prefixFilters s) (metas s) l.

(** [init]; [mmap_ok] is whether the matrix can be mapped. *)
Definition init (mmap_ok : bool) : res FillState :=
  b ← new_BitMap mmap_ok (u64 ((PORT_BIT_LEN + IPV4_BIT_LEN + IPV6_BIT_LEN) * 2))
        (data_disk_size / data_block_size) bitmap_backup_col_num;
  Ok (mkFill b [] [] [IPv4s []; IPv4s []; Ports []; Ports []; IPv6s []; IPv6s []]).

(** Position, metadata and version field of an index record. *)
Definition stored : Type := Z * FlowMetadata * Z.

(** An index record as [fill] takes it from the buffer: its position, its
    metadata and its version field; the addresses are [std::string]s of
    [version] bytes. *)
Definition load_index (buffer : list Z) (i : Z) : res stored :=
  position ← load 8 buffer (i + Handler.at_position);
  version ← load 4 buffer (i + Handler.at_version);
  src ← zread buffer (i + Handler.at_sourceAddress) version;
  dst ← zread buffer (i + Handler.at_destinationAddress) version;
  sport ← load 2 buffer (i + Handler.at_sourcePort);
  dport ← load 2 buffer (i + Handler.at_destinationPort);
  Ok (position, mkMeta src dst sport dport, version).

(** [*(u_int32_t* )s.c_str()] and [*(IPv6Address* )s.c_str()]; the string's
    terminator may be read too. *)
Definition c_str_IPv4 (s : list Z) : res Z := load 4 (s ++ [0]) 0.
Definition c_str_IPv6 (s : list Z) : res IPv6Address :=
  l ← zread (s ++ [0]) 0 16; Ok (key_dec (KeyBytes := key16) l).

Section fill.
Context (std_sort : forall K, CppKey K -> list (K * Z) -> list (K * Z)).
Context (hash_str : list Z -> Z) (hash_u64 : Z -> Z).

(** [std::sort(v.begin() + begin / sizeof(Record<K>), v.end())]. *)
Definition sort_tail {K} `{CppKey K} (l : list (K * Z)) (n : Z) : res (list (K * Z)) :=
  if (n <? 0) || (zlen l <? n) then Undef
  else Ok (take (Z.to_nat n) l ++ std_sort K _ (drop (Z.to_nat n) l)).

Definition col_sort_tail (c : Column) (begin : Z) : res Column :=
  match c with
  | Ports l => l ← sort_tail l (begin / record_size 2); Ok (Ports l)
  | IPv4s l => l ← sort_tail l (begin / record_size 4); Ok (IPv4s l)
  | IPv6s l => l ← sort_tail l (begin / record_size 16); Ok (IPv6s l)
  end.

(** The end of a block, its [metas] entry being [id]: the ends of its parts
    are recorded and the parts are sorted. *)
Definition close_block (s : FillState) (id : Z) : res FillState :=
  m ← zget (metas s) id;
  let m := zip_with (fun p c => (p.1, col_size c)) m (columns s) in
  ms ← zset (metas s) id m;
  cs ← mapM (fun '(c, p) => col_sort_tail c p.1) (zip (columns s) m);
  Ok (with_columns (with_metas s ms) cs).

(** The filter of a block. *)
Definition new_filter (b : BitMap) (id : Z) : PrefixBloomFilter :=
  setReadingCol (setWritingCol (PrefixBloom.init new_PBF hash_num) b id) b id.

(** The metadata of a new block: each part begins where the last one ends. *)
Definition next_meta (m : list (Z * Z)) : list (Z * Z) := (fun p => (p.2, 0)) <$> m.

(** The first record of a block. *)
Definition open_block (s : FillState) (id : Z) : res FillState :=
  let s := with_filters s (bitmap s) (prefixFilters s ++ [new_filter (bitmap s) id]) in
  s ← (if negb (id =? 0) then close_block s (id - 1) else Ok s);
  meta ← (if id =? 0 then Ok (replicate 6 (0, 0))
          else m ← zget (metas s) (id - 1); Ok (next_meta m));
  Ok (with_metas s (metas s ++ [meta])).

(** One key of a record: into the block's filter, whose answer is ignored, and
    into the vector of its type. *)
Definition filter_key (s : FillState) (id : Z) (key : fkey) : res FillState :=
  f ← zget (prefixFilters s) id;
  '(_, b) ← insert_key hash_str hash_u64 f (bitmap s) key;
  Ok (with_filters s b (prefixFilters s)).

Definition key_type (key : fkey) : IndexType :=
  match key with KPort _ t => t | KIPv4 _ t => t | KIPv6 _ t => t end.

Definition push_key (s : FillState) (position : Z) (key : fkey) : res FillState :=
  let code := index_type_code (key_type key) in
  c ← zget (columns s) code;
  c ← col_push c key position;
  cs ← zset (columns s) code c;
  Ok (with_columns s cs).

(** The keys of a record into the filter of its block and into the vectors. *)
Definition add_record (s : FillState) (r : stored) : res FillState :=
  let '(position, meta, version) := r in
  let id := position / data_block_size in
  s ← (if version =? 4 then
         src ← c_str_IPv4 (sourceAddress meta);
         dst ← c_str_IPv4 (destinationAddress meta);
         s ← filter_key s id (KIPv4 src SRCIP);
         s ← filter_key s id (KIPv4 dst DSTIP);
         s ← push_key s position (KIPv4 src SRCIP);
         push_key s position (KIPv4 dst DSTIP)
       else
         src ← c_str_IPv6 (sourceAddress meta);
         dst ← c_str_IPv6 (destinationAddress meta);
         s ← filter_key s id (KIPv6 src SRCIPv6);
         s ← filter_key s id (KIPv6 dst DSTIPv6);
         s ← push_key s position (KIPv6 src SRCIPv6);
         push_key s position (KIPv6 dst DSTIPv6));
  s ← filter_key s id (KPort (sourcePort meta) SRCPORT);
  s ← filter_key s id (KPort (destinationPort meta) DSTPORT);
  s ← push_key s position (KPort (sourcePort meta) SRCPORT);
  push_key s position (KPort (destinationPort meta) DSTPORT).

(** The body of the loop over the index records. *)
Definition fill_record (s : FillState) (r : stored) : res FillState :=
  let id := r.1.1 / data_block_size in
  s ← (if zlen (prefixFilters s) <=? id then open_block s id else Ok s);
  add_record s r.

(** [for(i = 0; i < index_size; i += INDEX_ENUM_LEN)]. *)
Fixpoint fill_loop (fuel : nat) (buffer : list Z) (index_size i : Z) (s : FillState) : res FillState :=
  match fuel with
  | O => Blocks
  | S fuel =>
      if negb (i <? index_size) then Ok s else
      r ← load_index buffer i;
      s ← fill_record s r;
      fill_loop fuel buffer index_size (i + INDEX_ENUM_LEN) s
  end.

(** The copy of one part to the write buffer, and the loops over the types of
    a block and over the blocks; the state is the write buffer, the length so
    far and the metadata collected. *)
Definition copy_part (cols : list Column) (wb : list Z) (current_len : Z) (j : Z) (p : Z * Z)
  : res (list Z * Z * (Z * Z)) :=
  c ← zget cols j;
  let n := u64 (p.2 - p.1) in
  wb ← memcpy wb current_len (col_bytes c) p.1 n;
  Ok (wb, u64 (current_len + n), (current_len, u64 (current_len + n))).

Fixpoint copy_block (cols : list Column) (wb : list Z) (current_len j : Z) (meta : list (Z * Z))
  : res (list Z * Z * list (Z * Z)) :=
  match meta with
  | [] => Ok (wb, current_len, [])
  | p :: meta =>
      '(wb, current_len, q) ← copy_part cols wb current_len j p;
      '(wb, current_len, qs) ← copy_block cols wb current_len (j + 1) meta;
      Ok (wb, current_len, q :: qs)
  end.

Fixpoint copy_blocks (cols : list Column) (wb : list Z) (current_len : Z) (metas : list (list (Z * Z)))
  : res (list Z * list (list (Z * Z))) :=
  match metas with
  | [] => Ok (wb, [])
  | m :: metas =>
      '(wb, current_len, q) ← copy_block cols wb current_len 0 m;
      '(wb, qs) ← copy_blocks cols wb current_len metas;
      Ok (wb, q :: qs)
  end.

(** What [new char[n]] holds. *)
Context (uninit : Z -> list Z).

(** The globals after [fill]: [buffer], the filters with their matrix, and
    [index_metas]. *)
Record Globals := mkGlobals {
  buffer : list Z;
  g_bitmap : BitMap;
  g_filters : list PrefixBloomFilter;
  index_metas : list (list (Z * Z)) }.

(** [fill] of a program compiled with an INDEX_SIZE of [index_size]. *)
Definition fill (index_size : Z) (s : FillState) (dev : device) : res (Globals * device) :=
  let buffer := pread dev index_size INDEX_OFFSET in
  s ← fill_loop (Z.to_nat (index_size / INDEX_ENUM_LEN) + 2) buffer index_size 0 s;
  s ← close_block s (zlen (metas s) - 1);
  m ← zget (metas s) (zlen (metas s) - 1);
  let total_len := foldl (fun n (p : Z * Z) => u64 (n + p.2)) 0 m in
  '(wb, ms) ← copy_blocks (columns s) (uninit total_len) 0 (metas s);
  l ← zread wb 0 total_len;
  Ok (mkGlobals buffer (bitmap s) (prefixFilters s) ms, pwrite dev index_block_offset l).
End fill.

(** * Proofs *)

(** ** Specification

    The entries of a block are the (key, position) pairs of its records; the
    part of the block in the vector of type [t] is [part t] of them. *)
Definition entry : Type := fkey * Z.

Definition sel_port (t : IndexType) (e : entry) : option (Z * Z) :=
  match e with (KPort p t', v) => if decide (t = t') then Some (p, v) else None | _ => None end.
Definition sel_ip4 (t : IndexType) (e : entry) : option (Z * Z) :=
  match e with (KIPv4 ip t', v) => if decide (t = t') then Some (ip, v) else None | _ => None end.
Definition sel_ip6 (t : IndexType) (e : entry) : option (IPv6Address * Z) :=
  match e with (KIPv6 ip t', v) => if decide (t = t') then Some (ip, v) else None | _ => None end.

Definition ports (t : IndexType) (l : list entry) : list (Z * Z) := omap (sel_port t) l.
Definition ipv4s (t : IndexType) (l : list entry) : list (Z * Z) := omap (sel_ip4 t) l.
Definition ipv6s (t : IndexType) (l : list entry) : list (IPv6Address * Z) := omap (sel_ip6 t) l.

(** The keys of a record in the order in which [fill] uses them. *)
Definition keys_of (r : stored) : list fkey :=
  let '(_, m, version) := r in
  (if version =? 4 then [KIPv4 (le_val (sourceAddress m)) SRCIP; KIPv4 (le_val (destinationAddress m)) DSTIP]
   else [KIPv6 (key_dec (KeyBytes := key16) (sourceAddress m)) SRCIPv6;
         KIPv6 (key_dec (KeyBytes := key16) (destinationAddress m)) DSTIPv6])
  ++ [KPort (sourcePort m) SRCPORT; KPort (destinationPort m) DSTPORT].

Definition entries_of (r : stored) : list entry := (fun k => (k, r.1.1)) <$> keys_of r.

(** A record as the data handler writes it. *)
Record record_fine (r : stored) : Prop := {
  rf_pos : is_u 64 r.1.1;
  rf_version : r.2 = 4 \/ r.2 = 16;
  rf_src : zlen (sourceAddress r.1.2) = r.2 /\ Forall (is_u 8) (sourceAddress r.1.2);
  rf_dst : zlen (destinationAddress r.1.2) = r.2 /\ Forall (is_u 8) (destinationAddress r.1.2);
  rf_ports : is_u 16 (sourcePort r.1.2) /\ is_u 16 (destinationPort r.1.2) }.

(** The filter of block [j]. *)
Definition block_filter (j : Z) : PrefixBloomFilter := mkPBF true hash_num j j.

Lemma new_filter_eq b j : 0 <= j < col_count b -> new_filter b j = block_filter j.
Proof.
  intros Hj. unfold new_filter, setWritingCol, setReadingCol, getColCount, PrefixBloom.init.
  cbn [has_bitmap negb]. rewrite (proj2 (Z.leb_gt _ _)) by lia. done.
Qed.

Section proofs.
Context (std_sort : forall K, CppKey K -> list (K * Z) -> list (K * Z)).
Context (std_sort_perm : forall K (H : CppKey K) l, CppKeyLaws K -> std_sort K H l ≡ₚ l).
Context (std_sort_sorted : forall K (H : CppKey K) l, CppKeyLaws K -> sorted_keys (std_sort K H l)).
Context (hash_str : list Z -> Z) (hash_u64 : Z -> Z).

(** The vector of type [t] after the blocks [closed] and the entries [cur] of
    the current block. *)
Definition sorted_all {K} `{CppKey K} (f : list entry -> list (K * Z)) (closed : list (list entry)) : list (K * Z) :=
  concat ((fun l => std_sort K _ (f l)) <$> closed).

Definition column (closed : list (list entry)) (cur : list entry) (t : IndexType) : Column :=
  match t with
  | SRCPORT | DSTPORT => Ports (sorted_all (ports t) closed ++ ports t cur)
  | SRCIP | DSTIP => IPv4s (sorted_all (ipv4s t) closed ++ ipv4s t cur)
  | _ => IPv6s (sorted_all (ipv6s t) closed ++ ipv6s t cur)
  end.

Definition cols (closed : list (list entry)) (cur : list entry) : list Column :=
  column closed cur <$> index_types.

(** The part of a closed block in the vector of type [t]. *)
Definition part (t : IndexType) (l : list entry) : Column := column [l] [] t.

Lemma std_sort_length {K} `{CppKeyLaws K} (l : list (K * Z)) : zlen (std_sort K _ l) = zlen l.
Proof. unfold zlen. by rewrite (Permutation_length (std_sort_perm K _ l _)). Qed.

Lemma sorted_all_snoc {K} `{CppKey K} (f : list entry -> list (K * Z)) closed l :
  sorted_all f (closed ++ [l]) = sorted_all f closed ++ std_sort K _ (f l).
Proof. unfold sorted_all. rewrite fmap_app, concat_app. cbn. by rewrite app_nil_r. Qed.

(** Sorting the tail closes the block. *)
Lemma sort_tail_closes {K} `{CppKeyLaws K} (f : list entry -> list (K * Z)) closed cur :
  sort_tail std_sort (sorted_all f closed ++ f cur) (zlen (sorted_all f closed)) =
    Ok (sorted_all f (closed ++ [cur])).
Proof.
  unfold sort_tail. rewrite zlen_app. pose proof (zlen_nonneg (sorted_all f closed)). pose proof (zlen_nonneg (f cur)).
  replace (_ || _) with false by (symmetry; apply orb_false_iff; rewrite !Z.ltb_ge; lia).
  rewrite sorted_all_snoc. rewrite take_app_length', drop_app_length' by (unfold zlen; lia). done.
Qed.

(** *** One key *)
Lemma push_key_spec s closed cur key v :
  columns s = cols closed cur -> key_type_ok key = true ->
  push_key s v key = Ok (with_columns s (cols closed (cur ++ [(key, v)]))).
Proof.
  intros Hc Hk. unfold push_key. rewrite Hc. unfold cols, column, ports, ipv4s, ipv6s.
  destruct key as [p t|ip t|ip t]; destruct t; try discriminate Hk;
    cbn -[omap sorted_all]; rewrite !omap_app, !app_assoc; cbn -[sorted_all]; by rewrite ?app_nil_r.
Qed.

Lemma filter_key_spec s id key :
  zget (prefixFilters s) id = Ok (block_filter id) -> 0 <= id < col_count (bitmap s) ->
  wf (bitmap s) -> ROWS_NEEDED <= row_count (bitmap s) < 2 ^ 64 ->
  fkey_wf key -> key_type_ok key = true ->
  exists b', filter_key hash_str hash_u64 s id key = Ok (with_filters s b' (prefixFilters s)) /\
    grows (bitmap s) b' /\ key_in hash_str hash_u64 (block_filter id) b' key id.
Proof.
  intros Hf Hid Hw Hr Hk Ht. unfold filter_key. rewrite Hf. cbn [mbind res_bind].
  destruct (insert_key_succeeds hash_str hash_u64 (block_filter id) (bitmap s) key) as (b1 & E1 & _); try done; try (cbn [writing_col block_filter]; lia).
  destruct (insert_key_inserts hash_str hash_u64 (block_filter id) (bitmap s) key) as (v & b2 & E2 & Hg & HQ); try done; [cbn [writing_col block_filter]; lia|].
  rewrite E1 in E2. injection E2 as <- <-. rewrite E1. cbn [mbind res_bind].
  exists b1. split; [done|]. split; [done|]. apply HQ. done.
Qed.

(** A matrix of the size that [init] asks for. *)
Record roomy (b : BitMap) (id : Z) : Prop := {
  ro_wf : wf b;
  ro_rows : ROWS_NEEDED <= row_count b < 2 ^ 64;
  ro_col : 0 <= id < col_count b }.

Lemma roomy_grows b b' id : grows b b' -> roomy b id -> roomy b' id.
Proof. intros (Hw & (Er & Ec & _) & _) [_ Hr Hc]. split; [done| |]; by rewrite ?Er, ?Ec. Qed.

Definition holds (b : BitMap) (id : Z) (key : fkey) : Prop :=
  key_in hash_str hash_u64 (block_filter id) b key id.

Lemma holds_grows b b' id key : grows b b' -> holds b id key -> holds b' id key.
Proof. apply key_in_grows. Qed.

(** A filter and a vector step on a state given by its parts. *)
Lemma filter_key_step b fs ms cs id key :
  zget fs id = Ok (block_filter id) -> roomy b id -> fkey_wf key -> key_type_ok key = true ->
  exists b', filter_key hash_str hash_u64 (mkFill b fs ms cs) id key = Ok (mkFill b' fs ms cs) /\
    grows b b' /\ holds b' id key.
Proof.
  intros Hf [Hw Hr Hc] Hk Ht.
  exact (filter_key_spec (mkFill b fs ms cs) id key Hf Hc Hw Hr Hk Ht).
Qed.

Lemma push_key_step b fs ms closed cur key v :
  key_type_ok key = true ->
  push_key (mkFill b fs ms (cols closed cur)) v key = Ok (mkFill b fs ms (cols closed (cur ++ [(key, v)]))).
Proof. intros Hk. by rewrite (push_key_spec _ closed cur). Qed.

(** Two keys of a record: both into the filter, then both into their vectors. *)
Definition two_keys (s : FillState) (id v : Z) (k1 k2 : fkey) : res FillState :=
  s ← filter_key hash_str hash_u64 s id k1;
  s ← filter_key hash_str hash_u64 s id k2;
  s ← push_key s v k1;
  push_key s v k2.

Lemma two_keys_spec b fs ms closed cur id v k1 k2 :
  zget fs id = Ok (block_filter id) -> roomy b id ->
  fkey_wf k1 -> key_type_ok k1 = true -> fkey_wf k2 -> key_type_ok k2 = true ->
  exists b', two_keys (mkFill b fs ms (cols closed cur)) id v k1 k2 =
      Ok (mkFill b' fs ms (cols closed (cur ++ [(k1, v); (k2, v)]))) /\
    grows b b' /\ holds b' id k1 /\ holds b' id k2.
Proof.
  intros Hf Hr Hw1 Ht1 Hw2 Ht2. unfold two_keys.
  destruct (filter_key_step b fs ms (cols closed cur) id k1 Hf Hr Hw1 Ht1) as (b1 & -> & Hg1 & Hh1).
  cbn [mbind res_bind].
  destruct (filter_key_step b1 fs ms (cols closed cur) id k2 Hf (roomy_grows _ _ _ Hg1 Hr) Hw2 Ht2) as (b2 & -> & Hg2 & Hh2).
  cbn [mbind res_bind]. rewrite push_key_step by done. cbn [mbind res_bind].
  rewrite push_key_step by done. rewrite <-app_assoc. exists b2.
  split; [done|]. split; [by eapply grows_trans|]. split; [by eapply holds_grows|done].
Qed.

Lemma c_str_IPv4_ok l : zlen l = 4 -> c_str_IPv4 l = Ok (le_val l).
Proof.
  intros Hl. unfold c_str_IPv4. apply load_app. unfold load. rewrite zread_Ok by (change (Z.of_nat 4) with 4; lia).
  cbn [mbind res_bind]. by rewrite zslice_full.
Qed.

Lemma c_str_IPv6_ok l : zlen l = 16 -> c_str_IPv6 l = Ok (key_dec (KeyBytes := key16) l).
Proof.
  intros Hl. unfold c_str_IPv6. rewrite zread_Ok by (rewrite ?zlen_app; change (zlen [0]) with 1; lia).
  cbn [mbind res_bind]. do 2 f_equal. unfold zslice. rewrite drop_0, take_app_length'; [done|].
  unfold zlen in Hl. lia.
Qed.

Lemma keys_wf r : record_fine r -> Forall (fun k => fkey_wf k /\ key_type_ok k = true) (keys_of r).
Proof.
  intros [Hp Hv [Hs1 Hs2] [Hd1 Hd2] [Hq1 Hq2]]. destruct r as [[pos m] version]. cbn [fst snd] in *.
  unfold keys_of. apply Forall_app.
  split; [|apply Forall_cons; split; [done|apply Forall_cons; split; [done|constructor]]].
  destruct Hv as [-> | ->]; cbn [Z.eqb Pos.eqb];
    (apply Forall_cons; split; [|apply Forall_cons; split; [|constructor]]); (split; [|done]);
    first [apply (le_val_word 4); done | apply (@key_dec_ok _ key16 _); done].
Qed.

(** The entries of one record, its block being open. *)
Lemma add_record_spec b fs ms closed cur r :
  let id := r.1.1 / data_block_size in
  record_fine r -> zget fs id = Ok (block_filter id) -> roomy b id ->
  exists b', add_record hash_str hash_u64 (mkFill b fs ms (cols closed cur)) r =
      Ok (mkFill b' fs ms (cols closed (cur ++ entries_of r))) /\
    grows b b' /\ Forall (holds b' id) (keys_of r).
Proof.
  intros id Hr Hf Hro. pose proof (keys_wf r Hr) as Hk. destruct Hr as [_ Hv [Hs _] [Hd _] _].
  destruct r as [[pos m] version]. cbn [fst snd] in *. unfold id, add_record, keys_of, entries_of in *.
  clear id. set (id := pos / data_block_size) in *. apply Forall_app in Hk as [Hk Hkp].
  apply Forall_cons in Hkp as [[Hp1 Ht1] [[Hp2 Ht2] _]%Forall_cons].
  set (head := if version =? 4 then _ else _).
  assert (Hhead : exists k1 k2, (if version =? 4 then
      [KIPv4 (le_val (sourceAddress m)) SRCIP; KIPv4 (le_val (destinationAddress m)) DSTIP]
    else [KIPv6 (key_dec (KeyBytes := key16) (sourceAddress m)) SRCIPv6;
         KIPv6 (key_dec (KeyBytes := key16) (destinationAddress m)) DSTIPv6]) = [k1; k2] /\
    head = two_keys (mkFill b fs ms (cols closed cur)) id pos k1 k2).
  { unfold head. destruct Hv as [-> | ->]; cbn [Z.eqb Pos.eqb];
      rewrite ?c_str_IPv4_ok, ?c_str_IPv6_ok by done; cbn [mbind res_bind]; eauto. }
  destruct Hhead as (k1 & k2 & Ek & ->). rewrite Ek in Hk |- *.
  apply Forall_cons in Hk as [[Hw1 Hy1] [[Hw2 Hy2] _]%Forall_cons].
  destruct (two_keys_spec b fs ms closed cur id pos k1 k2) as (b1 & -> & Hg1 & Hh1 & Hh2); try done.
  cbn [mbind res_bind].
  destruct (two_keys_spec b1 fs ms closed (cur ++ [(k1, pos); (k2, pos)]) id pos
    (KPort (sourcePort m) SRCPORT) (KPort (destinationPort m) DSTPORT)) as (b2 & E2 & Hg2 & Hh3 & Hh4); try done.
  { by eapply roomy_grows. }
  exists b2. split; [etransitivity; [exact E2|]|].
  - unfold keys_of. rewrite Ek. by rewrite <-app_assoc.
  - split; [by eapply grows_trans|]. cbn [app].
    repeat (apply Forall_cons; split); try apply Forall_nil_2; try done; by eapply holds_grows.
Qed.

(** *** The block ends *)
Definition bounds (closed : list (list entry)) : list Z :=
  (fun t => col_size (column closed [] t)) <$> index_types.

Definition open_meta (closed : list (list entry)) : list (Z * Z) := (fun x => (x, 0)) <$> bounds closed.

Definition block_meta (closed : list (list entry)) (cur : list entry) : list (Z * Z) :=
  zip (bounds closed) (bounds (closed ++ [cur])).

Definition closed_metas (closed : list (list entry)) : list (list (Z * Z)) :=
  (fun j => zip (bounds (take j closed)) (bounds (take (S j) closed))) <$> seq 0 (length closed).

Lemma col_size_close closed cur t :
  col_size (column closed cur t) = col_size (column (closed ++ [cur]) [] t).
Proof.
  destruct t; cbn [column col_size]; rewrite sorted_all_snoc, !zlen_app, std_sort_length;
    change (zlen (ports _ [])) with 0; change (zlen (ipv4s _ [])) with 0; change (zlen (ipv6s _ [])) with 0;
    f_equal; lia.
Qed.

Lemma col_sort_close closed cur t :
  col_sort_tail std_sort (column closed cur t) (col_size (column closed [] t)) =
    Ok (column (closed ++ [cur]) [] t).
Proof.
  destruct t; cbn [column col_size col_sort_tail];
    change (ports _ []) with (@nil (Z * Z)); change (ipv4s _ []) with (@nil (Z * Z));
    change (ipv6s _ []) with (@nil (IPv6Address * Z));
    rewrite !app_nil_r, Z.div_mul by done; by rewrite sort_tail_closes.
Qed.

Lemma closed_metas_snoc closed cur :
  closed_metas (closed ++ [cur]) = closed_metas closed ++ [block_meta closed cur].
Proof.
  unfold closed_metas. rewrite length_app. cbn [length]. rewrite Nat.add_1_r, seq_S, fmap_app. f_equal.
  - apply list_fmap_ext. intros i j Hj%lookup_seq. rewrite !take_app_le by lia. done.
  - cbn. rewrite take_app_length. rewrite take_ge by (rewrite length_app; simpl; lia). done.
Qed.

Lemma zlen_closed_metas closed : zlen (closed_metas closed) = zlen closed.
Proof. unfold zlen, closed_metas. by rewrite length_fmap, length_seq. Qed.

Lemma close_block_spec b fs ms closed cur :
  close_block std_sort (mkFill b fs (ms ++ [open_meta closed]) (cols closed cur)) (zlen ms) =
    Ok (mkFill b fs (ms ++ [block_meta closed cur]) (cols (closed ++ [cur]) [])).
Proof.
  unfold close_block. cbn [metas columns]. rewrite zget_snoc. cbn [mbind res_bind].
  assert (E : zip_with (fun p c => (p.1, col_size c)) (open_meta closed) (cols closed cur) = block_meta closed cur).
  { unfold open_meta, block_meta, cols, bounds, index_types. cbn [fmap list_fmap zip zip_with fst].
    by rewrite !(col_size_close closed cur). }
  rewrite E, zset_snoc. cbn [mbind res_bind].
  assert (E2 : mapM (fun '(c, p) => col_sort_tail std_sort c p.1) (zip (cols closed cur) (block_meta closed cur))
    = Ok (cols (closed ++ [cur]) [])).
  { unfold block_meta, cols, bounds, index_types. cbn [fmap list_fmap zip zip_with mapM fst].
    rewrite !col_sort_close. done. }
  by rewrite E2.
Qed.

(** ** The invariant of the loop *)
Record finv (b0 : BitMap) (closed : list (list entry)) (cur : list entry) (s : FillState) : Prop := {
  fi_filters : prefixFilters s = block_filter <$> zseq (zlen closed + 1);
  fi_metas : metas s = closed_metas closed ++ [open_meta closed];
  fi_columns : columns s = cols closed cur;
  fi_grows : grows b0 (bitmap s);
  fi_holds : forall (j : nat) l, (closed ++ [cur]) !! j = Some l ->
    Forall (fun e : entry => holds (bitmap s) (Z.of_nat j) e.1) l }.

Lemma zlen_filters n : 0 <= n -> zlen (block_filter <$> zseq n) = n.
Proof. intros. unfold zlen. rewrite length_fmap. by apply zlen_zseq. Qed.

Lemma get_filter n j : 0 <= j < n -> zget (block_filter <$> zseq n) j = Ok (block_filter j).
Proof.
  intros H. apply zget_Ok. split; [lia|]. rewrite list_lookup_fmap. unfold zseq.
  rewrite list_lookup_fmap, lookup_seq_lt by lia. simpl. do 2 f_equal. lia.
Qed.

(** The first block, and a later one. *)
Lemma open_first b0 s :
  roomy b0 0 -> wf b0 -> s = mkFill b0 [] [] (cols [] []) ->
  exists s', open_block std_sort s 0 = Ok s' /\ finv b0 [] [] s'.
Proof.
  intros Hr Hw ->. unfold open_block. cbn [negb Z.eqb mbind res_bind with_filters bitmap prefixFilters metas].
  rewrite new_filter_eq by apply Hr. eexists. split; [done|].
  split; try done; try (by apply grows_refl).
  intros [|j] l; [intros [= <-]; constructor|done].
Qed.

Lemma open_next b0 closed cur s :
  roomy b0 (zlen closed + 1) -> finv b0 closed cur s ->
  exists s', open_block std_sort s (zlen closed + 1) = Ok s' /\ finv b0 (closed ++ [cur]) [] s'.
Proof.
  intros Hr [Hf Hm Hc Hg Hh]. pose proof (zlen_nonneg closed) as Hz.
  destruct s as [b fs ms cs]. cbn [prefixFilters metas columns bitmap] in *. subst.
  unfold open_block. cbn [with_filters bitmap prefixFilters metas columns].
  rewrite (new_filter_eq b) by apply (roomy_grows _ _ _ Hg Hr).
  rewrite (proj2 (Z.eqb_neq _ _)) by lia. cbn [negb].
  replace (zlen closed + 1 - 1) with (zlen (closed_metas closed)) by (rewrite zlen_closed_metas; lia).
  unfold with_filters. cbn [metas columns]. rewrite close_block_spec. cbn [mbind res_bind metas]. rewrite zget_snoc. cbn [mbind res_bind with_metas].
  eexists. split; [reflexivity|]. split; cbn [prefixFilters metas columns bitmap]; try done.
  - rewrite zlen_app. change (zlen [cur]) with 1. rewrite (zseq_S (zlen closed + 1)) by lia. by rewrite fmap_app.
  - by rewrite closed_metas_snoc.
  - intros j l [Hj | [Hj Hl]]%lookup_app_Some; [by apply Hh|].
    destruct (j - length (closed ++ [cur]))%nat as [|k]; [|done]. injection Hl as <-. constructor.
Qed.

(** A record of the current block. *)
Lemma add_to_block b0 closed cur s r :
  roomy b0 (zlen closed) -> finv b0 closed cur s -> record_fine r -> r.1.1 / data_block_size = zlen closed ->
  exists s', add_record hash_str hash_u64 s r = Ok s' /\ finv b0 closed (cur ++ entries_of r) s'.
Proof.
  intros Hr [Hf Hm Hc Hg Hh] Hfine Hid. pose proof (zlen_nonneg closed) as Hz.
  destruct s as [b fs ms cs]. cbn [prefixFilters metas columns bitmap] in *. subst.
  destruct (add_record_spec b (block_filter <$> zseq (zlen closed + 1)) (closed_metas closed ++ [open_meta closed])
    closed cur r) as (b' & -> & Hg' & Hk); [done|rewrite Hid; apply get_filter; lia|rewrite Hid; by eapply roomy_grows|].
  rewrite Hid in Hk.
  eexists. split; [reflexivity|]. split; cbn [prefixFilters metas columns bitmap]; try done; [by eapply grows_trans|].
  assert (Hmono : forall j l, Forall (fun e : entry => holds b j e.1) l -> Forall (fun e : entry => holds b' j e.1) l).
  { intros j l H. eapply Forall_impl; [exact H|]. intros e. by apply holds_grows. }
  intros j l [Hj | [Hj Hl]]%lookup_app_Some; [apply Hmono, Hh; by apply lookup_app_l_Some|].
  destruct (j - length closed)%nat as [|k] eqn:Ej; [|done]. injection Hl as <-.
  apply Forall_app. split; [apply Hmono, Hh; rewrite lookup_app_r by lia; by rewrite Ej|].
  replace (Z.of_nat j) with (zlen closed) by (unfold zlen; lia).
  unfold entries_of. apply Forall_fmap. exact Hk.
Qed.

(** ** The loop over the records *)
Fixpoint fill_list (s : FillState) (rs : list stored) : res FillState :=
  match rs with
  | [] => Ok s
  | r :: rs => s ← fill_record std_sort hash_str hash_u64 s r; fill_list s rs
  end.

Lemma fill_list_app rs rs' s : fill_list s (rs ++ rs') = (s ← fill_list s rs; fill_list s rs').
Proof.
  revert s. induction rs as [|r rs IH]; intros s; [done|]. cbn [app fill_list].
  destruct (fill_record std_sort hash_str hash_u64 s r); cbn [mbind res_bind]; [apply IH|done..].
Qed.

(** The buffer holds the records. *)
Definition buffered (buffer : list Z) (off : Z) (rs : list stored) : Prop :=
  forall (i : nat) r, rs !! i = Some r -> load_index buffer (off + INDEX_ENUM_LEN * Z.of_nat i) = Ok r.

Lemma fill_loop_list buffer rs : forall off fuel s,
  buffered buffer off rs -> (length rs < fuel)%nat ->
  fill_loop std_sort hash_str hash_u64 fuel buffer (off + INDEX_ENUM_LEN * zlen rs) off s = fill_list s rs.
Proof.
  induction rs as [|r rs IH]; intros off fuel s Hb Hf; (destruct fuel as [|fuel]; [simpl in Hf; lia|]); cbn [fill_loop fill_list].
  - rewrite (proj2 (Z.ltb_ge _ _)); [done|]. unfold zlen. simpl. lia.
  - rewrite zlen_cons. change INDEX_ENUM_LEN with 72 in *. pose proof (zlen_nonneg rs).
    rewrite (proj2 (Z.ltb_lt _ _)) by lia. cbn [negb].
    pose proof (Hb 0%nat r eq_refl) as E. rewrite Z.mul_0_r, Z.add_0_r in E. rewrite E. cbn [mbind res_bind].
    destruct (fill_record std_sort hash_str hash_u64 s r); cbn [mbind res_bind]; try done.
    replace (off + 72 * (1 + zlen rs)) with (off + 72 + 72 * zlen rs) by lia. apply IH; [|simpl in Hf; lia].
    intros i r' Hr'. change INDEX_ENUM_LEN with 72. specialize (Hb (S i) r' Hr'). rewrite <-Hb. f_equal.
    change INDEX_ENUM_LEN with 72. lia.
Qed.

(** The entries of a block's records. *)
Definition entries (blk : list stored) : list entry := blk ≫= entries_of.

(** The blocks in order from number [n] on, none of them empty. *)
Fixpoint blocks_ok (n : Z) (bs : list (list stored)) : Prop :=
  match bs with
  | [] => True
  | blk :: bs =>
      blk <> [] /\ Forall (fun r => record_fine r /\ r.1.1 / data_block_size = n) blk /\ blocks_ok (n + 1) bs
  end.

Lemma fill_same_block b0 closed rs : forall cur s,
  roomy b0 (zlen closed) -> finv b0 closed cur s ->
  Forall (fun r : stored => record_fine r /\ r.1.1 / data_block_size = zlen closed) rs ->
  exists s', fill_list s rs = Ok s' /\ finv b0 closed (cur ++ entries rs) s'.
Proof.
  induction rs as [|r rs IH]; intros cur s Hr Hi Hrs; cbn [fill_list].
  - unfold entries. cbn. rewrite app_nil_r. eauto.
  - apply Forall_cons in Hrs as [[Hfine Hid] Hrs]. unfold fill_record.
    rewrite (fi_filters _ _ _ _ Hi), zlen_filters, Hid by (pose proof (zlen_nonneg closed); lia).
    rewrite (proj2 (Z.leb_gt _ _)) by lia. cbn [mbind res_bind].
    destruct (add_to_block b0 closed cur s r Hr Hi Hfine Hid) as (s1 & -> & Hi1). cbn [mbind res_bind].
    destruct (IH _ s1 Hr Hi1 Hrs) as (s' & -> & Hi'). exists s'. split; [done|].
    unfold entries in *. cbn [mbind list_bind]. by rewrite app_assoc.
Qed.

Lemma fill_next_block b0 closed cur s blk :
  roomy b0 (zlen closed + 1) -> finv b0 closed cur s -> blk <> [] ->
  Forall (fun r : stored => record_fine r /\ r.1.1 / data_block_size = zlen closed + 1) blk ->
  exists s', fill_list s blk = Ok s' /\ finv b0 (closed ++ [cur]) (entries blk) s'.
Proof.
  intros Hr Hi Hne Hrs. destruct blk as [|r rs]; [done|]. cbn [fill_list].
  assert (Hz : zlen (closed ++ [cur]) = zlen closed + 1) by (by rewrite zlen_app).
  apply Forall_cons in Hrs as [[Hfine Hid] Hrs]. unfold fill_record.
  rewrite (fi_filters _ _ _ _ Hi), zlen_filters, Hid by (pose proof (zlen_nonneg closed); lia).
  rewrite (proj2 (Z.leb_le _ _)) by lia.
  destruct (open_next b0 closed cur s Hr Hi) as (s1 & -> & Hi1). cbn [mbind res_bind].
  rewrite <-Hz in *.
  destruct (add_to_block b0 _ _ s1 r Hr Hi1 Hfine Hid) as (s2 & -> & Hi2). cbn [mbind res_bind].
  destruct (fill_same_block b0 _ rs _ s2 Hr Hi2 Hrs) as (s' & E & Hi'). exists s'. by split.
Qed.

Lemma fill_blocks b0 bs : forall closed cur s,
  (forall j, zlen closed < j <= zlen closed + zlen bs -> roomy b0 j) ->
  finv b0 closed cur s -> blocks_ok (zlen closed + 1) bs ->
  exists s' closed' cur', fill_list s (concat bs) = Ok s' /\ finv b0 closed' cur' s' /\
    closed' ++ [cur'] = closed ++ cur :: (entries <$> bs).
Proof.
  induction bs as [|blk bs IH]; intros closed cur s Hr Hi Hb.
  - exists s, closed, cur. done.
  - destruct Hb as (Hne & Hblk & Hb). rewrite zlen_cons in Hr. pose proof (zlen_nonneg bs).
    destruct (fill_next_block b0 closed cur s blk) as (s1 & E1 & Hi1); [apply Hr; lia|done..|].
    assert (Hz : zlen (closed ++ [cur]) = zlen closed + 1) by (by rewrite zlen_app).
    destruct (IH (closed ++ [cur]) (entries blk) s1) as (s' & c & k & E & Hi' & Ec).
    + intros j Hj. apply Hr. lia.
    + done.
    + by rewrite Hz.
    + exists s', c, k. cbn [concat]. rewrite fill_list_app, E1. cbn [mbind res_bind].
      split; [done|]. split; [done|]. rewrite Ec, <-app_assoc. done.
Qed.

(** From the state that [init] leaves. *)
Lemma fill_all b0 bs :
  wf b0 -> (forall j, 0 <= j < zlen bs -> roomy b0 j) -> bs <> [] -> blocks_ok 0 bs ->
  exists s' closed cur, fill_list (mkFill b0 [] [] (cols [] [])) (concat bs) = Ok s' /\
    finv b0 closed cur s' /\ closed ++ [cur] = entries <$> bs.
Proof.
  intros Hw Hr Hne Hb. destruct bs as [|blk bs]; [done|]. destruct Hb as (Hn & Hblk & Hb).
  rewrite zlen_cons in Hr. pose proof (zlen_nonneg bs).
  destruct blk as [|r rs]; [done|]. cbn [concat app fill_list].
  apply Forall_cons in Hblk as [[Hfine Hid] Hrs]. unfold fill_record at 1.
  rewrite Hid. cbn [prefixFilters]. change (zlen [] <=? 0) with true. cbv iota.
  destruct (open_first b0 _ (Hr 0 ltac:(lia)) Hw eq_refl) as (s1 & -> & Hi1). cbn [mbind res_bind].
  destruct (add_to_block b0 [] [] s1 r (Hr 0 ltac:(lia)) Hi1 Hfine Hid) as (s2 & -> & Hi2). cbn [mbind res_bind].
  rewrite fill_list_app.
  destruct (fill_same_block b0 [] rs _ s2 (Hr 0 ltac:(lia)) Hi2 Hrs) as (s3 & -> & Hi3). cbn [mbind res_bind].
  destruct (fill_blocks b0 bs [] (([] ++ entries_of r) ++ entries rs) s3) as (s' & c & k & E & Hi' & Ec); [|exact Hi3|exact Hb|].
  - intros j Hj. apply Hr. change (zlen []) with 0 in Hj. lia.
  - exists s', c, k. split; [exact E|]. split; [done|]. exact Ec.
Qed.

(** ** The image on the device *)
Definition region (l : list entry) (t : IndexType) : list Z := col_bytes (part t l).
Definition regions (l : list entry) : list (list Z) := region l <$> index_types.
Definition image (all : list (list entry)) : list Z := concat ((fun l => concat (regions l)) <$> all).

(** Where consecutive pieces lie. *)
Fixpoint layout_from (cur : Z) (rs : list (list Z)) : list (Z * Z) :=
  match rs with [] => [] | r :: rs => (cur, cur + zlen r) :: layout_from (cur + zlen r) rs end.

Fixpoint index_layout (cur : Z) (all : list (list entry)) : list (list (Z * Z)) :=
  match all with
  | [] => []
  | l :: all => layout_from cur (regions l) :: index_layout (cur + zlen (concat (regions l))) all
  end.

Lemma zlen_col_bytes c : zlen (col_bytes c) = col_size c.
Proof.
  destruct c; cbn [col_bytes col_size];
    [apply (@zlen_records_enc Z key2 _)|apply (@zlen_records_enc Z key4 _)|apply (@zlen_records_enc _ key16 _)].
Qed.

Lemma records_enc_app {K} `{KeyBytes K} (l k : list (K * Z)) :
  records_enc (l ++ k) = records_enc l ++ records_enc k.
Proof. apply bind_app. Qed.

Lemma sorted_all_app {K} `{CppKey K} (f : list entry -> list (K * Z)) a b :
  sorted_all f (a ++ b) = sorted_all f a ++ sorted_all f b.
Proof. unfold sorted_all. by rewrite fmap_app, concat_app. Qed.

Lemma col_bytes_app a b t :
  col_bytes (column (a ++ b) [] t) = col_bytes (column a [] t) ++ col_bytes (column b [] t).
Proof.
  destruct t; cbn [column col_bytes];
    change (ports _ []) with (@nil (Z * Z)); change (ipv4s _ []) with (@nil (Z * Z));
    change (ipv6s _ []) with (@nil (IPv6Address * Z));
    by rewrite !app_nil_r, sorted_all_app, records_enc_app.
Qed.

Lemma col_size_snoc a l t :
  col_size (column (a ++ [l]) [] t) = col_size (column a [] t) + zlen (region l t).
Proof. by rewrite <-!zlen_col_bytes, col_bytes_app, zlen_app. Qed.

Lemma part_bytes a l b t :
  zslice (col_size (column a [] t)) (zlen (region l t)) (col_bytes (column (a ++ l :: b) [] t)) = region l t.
Proof.
  rewrite (col_bytes_app a (l :: b)). change (l :: b) with ([l] ++ b). rewrite (col_bytes_app [l] b).
  unfold zslice. rewrite drop_app_length'; [|rewrite <-zlen_col_bytes; unfold zlen; lia].
  rewrite take_app_length'; [done|]. unfold region, part, zlen. lia.
Qed.

Definition meta_at (a : list (list entry)) (l : list entry) (t : IndexType) : Z * Z :=
  (col_size (column a [] t), col_size (column (a ++ [l]) [] t)).

Lemma copy_part_spec cs pre old rest j a l b t :
  zget cs j = Ok (column (a ++ l :: b) [] t) ->
  zlen old = zlen (region l t) -> zlen pre + zlen old < 2 ^ 64 ->
  copy_part cs (pre ++ old ++ rest) (zlen pre) j (meta_at a l t) =
    Ok (pre ++ region l t ++ rest, zlen pre + zlen (region l t), (zlen pre, zlen pre + zlen (region l t))).
Proof.
  intros Hc Ho Hfit. unfold copy_part, meta_at. rewrite Hc. cbn [mbind res_bind fst snd].
  rewrite col_size_snoc. pose proof (zlen_nonneg pre). pose proof (zlen_nonneg (region l t)).
  replace (col_size (column a [] t) + zlen (region l t) - col_size (column a [] t)) with (zlen (region l t)) by lia.
  rewrite (u64_small (zlen (region l t))), !u64_small by lia.
  assert (Hs : 0 <= col_size (column a [] t)) by (rewrite <-zlen_col_bytes; apply zlen_nonneg).
  assert (Hl : col_size (column a [] t) + zlen (region l t) <= zlen (col_bytes (column (a ++ l :: b) [] t))).
  { rewrite (col_bytes_app a (l :: b)). change (l :: b) with ([l] ++ b). rewrite (col_bytes_app [l] b), !zlen_app, zlen_col_bytes.
    pose proof (zlen_nonneg (col_bytes (column b [] t))). unfold region, part. lia. }
  rewrite memcpy_Ok by (rewrite ?zlen_app; pose proof (zlen_nonneg rest); lia).
  cbn [mbind res_bind]. rewrite part_bytes. do 3 f_equal. unfold zsplice.
  rewrite take_app_length', app_assoc by (unfold zlen; lia). rewrite <-app_assoc. do 2 f_equal.
  rewrite (app_assoc pre old rest), drop_app_length'; [done|]. rewrite length_app. unfold zlen in *. lia.
Qed.

Lemma copy_block_spec cs a l b ts : forall j pre old rest,
  (forall (i : nat) t, ts !! i = Some t -> zget cs (j + Z.of_nat i) = Ok (column (a ++ l :: b) [] t)) ->
  zlen old = zlen (concat (region l <$> ts)) -> zlen pre + zlen old < 2 ^ 64 ->
  copy_block cs (pre ++ old ++ rest) (zlen pre) j (meta_at a l <$> ts) =
    Ok (pre ++ concat (region l <$> ts) ++ rest, zlen pre + zlen old, layout_from (zlen pre) (region l <$> ts)).
Proof.
  induction ts as [|t ts IH]; intros j pre old rest Hc Ho Hfit.
  - change (zlen (concat (region l <$> []))) with 0 in Ho. destruct old; [cbn; by rewrite Z.add_0_r|].
    rewrite zlen_cons in Ho. pose proof (zlen_nonneg old). lia.
  - rewrite !fmap_cons in *. cbn [copy_block concat layout_from] in *. rewrite zlen_app in Ho.
    pose proof (zlen_nonneg (region l t)). pose proof (zlen_nonneg (concat (region l <$> ts))).
    set (n := Z.to_nat (zlen (region l t))).
    assert (Ho1 : zlen (take n old) = zlen (region l t)) by (unfold n, zlen in *; rewrite length_take; lia).
    assert (Ho2 : zlen (drop n old) = zlen (concat (region l <$> ts))) by (unfold n, zlen in *; rewrite length_drop; lia).
    rewrite <-(take_drop n old) at 1. rewrite <-app_assoc.
    pose proof (Hc 0%nat t eq_refl) as Hc0. rewrite Z.add_0_r in Hc0.
    rewrite (copy_part_spec cs pre (take n old) (drop n old ++ rest) j a l b t Hc0 Ho1) by lia.
    cbn [mbind res_bind]. rewrite app_assoc, <-zlen_app.
    rewrite (IH (j + 1) (pre ++ region l t) (drop n old) rest).
    + cbn [mbind res_bind]. rewrite !zlen_app, <-!app_assoc. do 3 f_equal. lia.
    + intros i t' Ht. rewrite <-(Hc (S i) t' Ht). f_equal. lia.
    + exact Ho2.
    + rewrite zlen_app. lia.
Qed.

Fixpoint metas_from (a : list (list entry)) (ls : list (list entry)) : list (list (Z * Z)) :=
  match ls with [] => [] | l :: ls => (meta_at a l <$> index_types) :: metas_from (a ++ [l]) ls end.

Lemma closed_metas_from ls : forall a, closed_metas (a ++ ls) = closed_metas a ++ metas_from a ls.
Proof.
  induction ls as [|l ls IH]; intros a; cbn [metas_from]; [by rewrite !app_nil_r|].
  change (l :: ls) with ([l] ++ ls). rewrite app_assoc, IH, closed_metas_snoc, <-app_assoc. done.
Qed.

Lemma zlen_image_cons l ls : zlen (image (l :: ls)) = zlen (concat (regions l)) + zlen (image ls).
Proof. unfold image. rewrite fmap_cons. cbn [concat]. by rewrite zlen_app. Qed.

Lemma cols_get all (i : nat) t : index_types !! i = Some t -> zget (cols all []) (0 + Z.of_nat i) = Ok (column all [] t).
Proof.
  intros H. apply zget_Ok. split; [lia|]. unfold cols. rewrite list_lookup_fmap. 
  replace (Z.to_nat (0 + Z.of_nat i)) with i by lia. by rewrite H.
Qed.

Lemma copy_blocks_spec ls : forall a pre old rest,
  zlen old = zlen (image ls) -> zlen pre + zlen old < 2 ^ 64 ->
  copy_blocks (cols (a ++ ls) []) (pre ++ old ++ rest) (zlen pre) (metas_from a ls) =
    Ok (pre ++ image ls ++ rest, index_layout (zlen pre) ls).
Proof.
  induction ls as [|l ls IH]; intros a pre old rest Ho Hfit; cbn [metas_from copy_blocks index_layout].
  - change (zlen (image [])) with 0 in Ho. destruct old; [done|].
    rewrite zlen_cons in Ho. pose proof (zlen_nonneg old). lia.
  - rewrite zlen_image_cons in Ho. pose proof (zlen_nonneg (concat (regions l))). pose proof (zlen_nonneg (image ls)).
    set (n := Z.to_nat (zlen (concat (regions l)))).
    assert (Ho1 : zlen (take n old) = zlen (concat (regions l))) by (unfold n, zlen in *; rewrite length_take; lia).
    assert (Ho2 : zlen (drop n old) = zlen (image ls)) by (unfold n, zlen in *; rewrite length_drop; lia).
    rewrite <-(take_drop n old) at 1. rewrite <-app_assoc.
    rewrite (copy_block_spec (cols (a ++ l :: ls) []) a l ls index_types 0 pre (take n old) (drop n old ++ rest))
      by (try done; try lia; intros i t; apply cols_get).
    cbn [mbind res_bind]. fold (regions l). rewrite Ho1, app_assoc, <-zlen_app.
    change (l :: ls) with ([l] ++ ls). rewrite (app_assoc a [l] ls).
    rewrite (IH (a ++ [l]) (pre ++ concat (regions l)) (drop n old) rest) by (try done; rewrite zlen_app; lia).
    cbn [mbind res_bind]. rewrite <-!app_assoc. unfold image at 2. rewrite fmap_app. cbn [fmap list_fmap app concat].
    by rewrite <-app_assoc, zlen_app.
Qed.

(** *** Sizes *)
Definition total (all : list (list entry)) : Z := foldr Z.add 0 (bounds all).

Lemma total_image all : total all = zlen (image all).
Proof.
  induction all as [|l all IH] using rev_ind; [done|].
  unfold image in *. rewrite fmap_app, concat_app, zlen_app, <-IH.
  unfold total, bounds, regions, index_types. cbn [fmap list_fmap foldr concat app].
  rewrite !col_size_snoc, !zlen_app. change (zlen (@nil Z)) with 0. lia.
Qed.

Lemma parts_count l :
  zlen (ports SRCPORT l) + zlen (ports DSTPORT l) + zlen (ipv4s SRCIP l) + zlen (ipv4s DSTIP l)
  + zlen (ipv6s SRCIPv6 l) + zlen (ipv6s DSTIPv6 l) <= zlen l.
Proof.
  induction l as [|[k v] l IH]; [done|]. unfold ports, ipv4s, ipv6s in *. cbn [omap list_omap].
  rewrite zlen_cons. destruct k as [p t|p t|p t]; cbn [sel_port sel_ip4 sel_ip6];
    repeat case_decide; subst; try discriminate; rewrite ?zlen_cons; lia.
Qed.

Lemma regions_size l : zlen (concat (regions l)) <= 24 * zlen l.
Proof.
  pose proof (parts_count l) as H.
  unfold regions, region, part, index_types. cbn [fmap list_fmap concat]. rewrite !zlen_app, !zlen_col_bytes.
  cbn [column col_size]. unfold sorted_all. cbn [fmap list_fmap concat]. rewrite !zlen_app, !std_sort_length.
  unfold record_size. change (zlen (@nil Z)) with 0.
  change (zlen (ports _ [])) with 0; change (zlen (ipv4s _ [])) with 0; change (zlen (ipv6s _ [])) with 0.
  change (zlen (@nil (Z * Z))) with 0. change (zlen (@nil (IPv6Address * Z))) with 0.
  pose proof (zlen_nonneg (ports SRCPORT l)). pose proof (zlen_nonneg (ports DSTPORT l)).
  pose proof (zlen_nonneg (ipv4s SRCIP l)). pose proof (zlen_nonneg (ipv4s DSTIP l)).
  pose proof (zlen_nonneg (ipv6s SRCIPv6 l)). pose proof (zlen_nonneg (ipv6s DSTIPv6 l)). lia.
Qed.

Lemma zlen_entries_of r : zlen (entries_of r) = 4.
Proof. destruct r as [[p m] v]. unfold entries_of, keys_of. by case_test. Qed.

Lemma image_size bs : zlen (image (entries <$> bs)) <= 96 * zlen (concat bs).
Proof.
  induction bs as [|blk bs IH]; [done|]. rewrite fmap_cons, zlen_image_cons. cbn [concat]. rewrite zlen_app.
  pose proof (regions_size (entries blk)).
  assert (Hb : zlen (entries blk) = 4 * zlen blk).
  { clear. induction blk as [|r blk IH]; [done|]. unfold entries in *. cbn [mbind list_bind].
    rewrite zlen_app, zlen_cons, IH, zlen_entries_of. lia. }
  lia.
Qed.

Lemma foldl_u64 (ps : list (Z * Z)) : forall n,
  Forall (fun p => 0 <= p.2) ps -> 0 <= n -> n + foldr Z.add 0 ps.*2 < 2 ^ 64 ->
  foldl (fun n (p : Z * Z) => u64 (n + p.2)) n ps = n + foldr Z.add 0 ps.*2.
Proof.
  induction ps as [|p ps IH]; intros n Hp Hn Hs; [cbn; lia|].
  apply Forall_cons in Hp as [Hp Hps]. rewrite fmap_cons in *. cbn [foldl foldr] in *.
  assert (0 <= foldr Z.add 0 ps.*2) by (clear -Hps; induction Hps; cbn; lia).
  rewrite u64_small by lia. rewrite IH; [lia|done|lia|lia].
Qed.

Lemma total_len_meta a l :
  zlen (image (a ++ [l])) < 2 ^ 64 ->
  foldl (fun n (p : Z * Z) => u64 (n + p.2)) 0 (block_meta a l) = zlen (image (a ++ [l])).
Proof.
  intros H. rewrite <-total_image in *.
  assert (E : (block_meta a l).*2 = bounds (a ++ [l])).
  { unfold block_meta, bounds, index_types. done. }
  rewrite foldl_u64; rewrite ?E; try done.
  apply Forall_forall. intros p Hp. assert (Hin : p.2 ∈ (block_meta a l).*2) by (by apply list_elem_of_fmap_2).
  rewrite E in Hin. unfold bounds in Hin. apply list_elem_of_fmap in Hin as (t & -> & _).
  rewrite <-zlen_col_bytes. apply zlen_nonneg.
Qed.

(** What the queries rely on: the filters of the blocks answer for every key of
    their block, and the device holds each block's sorted parts where
    [index_metas] says. *)
Record built (g : Globals) (dev : device) (all : list (list entry)) : Prop := {
  bt_metas : index_metas g = index_layout 0 all;
  bt_filters : g_filters g = block_filter <$> zseq (zlen all);
  bt_wf : wf (g_bitmap g);
  bt_holds (j : nat) l : all !! j = Some l -> Forall (fun e : entry => holds (g_bitmap g) (Z.of_nat j) e.1) l;
  bt_image : pread dev (zlen (image all)) index_block_offset = image all;
  bt_small : zlen (image all) < 2 ^ 63 }.

Lemma init_ok : exists b0, init true = Ok (mkFill b0 [] [] (cols [] [])) /\ wf b0 /\
  forall j, 0 <= j < 72 -> roomy b0 j.
Proof.
  destruct (new_BitMap true (u64 ((PORT_BIT_LEN + IPV4_BIT_LEN + IPV6_BIT_LEN) * 2))
    (data_disk_size / data_block_size) bitmap_backup_col_num) as [b0| | |] eqn:E; try discriminate E.
  exists b0. unfold init. rewrite E. split; [done|].
  destruct (new_BitMap_cell _ _ _ _ _ E) as (Hw & _ & Er & Ec & _); [vm_compute; discriminate|vm_compute; reflexivity|].
  split; [done|]. intros j Hj. split; [done| |]; [rewrite Er|rewrite Ec].
  - split; vm_compute; [discriminate|reflexivity].
  - change (u64 _) with 72. done.
Qed.

Context (uninit : Z -> list Z) (zlen_uninit : forall n, 0 <= n -> zlen (uninit n) = n).

(** [fill] succeeds and builds its index, for index records of consecutive
    disk blocks, at most 72 of them; the device below the index area is
    unchanged. *)
Lemma fill_spec s0 bs dev :
  init true = Ok s0 -> bs <> [] -> blocks_ok 0 bs -> zlen bs <= 72 -> zlen (concat bs) < 2 ^ 50 ->
  buffered (pread dev (72 * zlen (concat bs)) INDEX_OFFSET) 0 (concat bs) ->
  exists g dev', fill std_sort hash_str hash_u64 uninit (72 * zlen (concat bs)) s0 dev = Ok (g, dev') /\
    built g dev' (entries <$> bs) /\
    buffer g = pread dev (72 * zlen (concat bs)) INDEX_OFFSET /\
    forall a, a < index_block_offset -> dev' a = dev a.
Proof.
  intros Hs0 Hne Hok Hnb Hnr Hbuf. destruct init_ok as (b0 & E0 & Hw & Hr). rewrite E0 in Hs0. injection Hs0 as <-.
  destruct (fill_all b0 bs Hw) as (s1 & closed & cur & E1 & Hi & Ec); [intros j Hj; apply Hr; lia|done|done|].
  pose proof (zlen_nonneg (concat bs)) as Hz. pose proof (image_size bs) as Him.
  unfold fill. set (buf := pread dev (72 * zlen (concat bs)) INDEX_OFFSET) in *.
  replace (72 * zlen (concat bs)) with (0 + INDEX_ENUM_LEN * zlen (concat bs)) by (change INDEX_ENUM_LEN with 72; lia).
  rewrite fill_loop_list; [|done|].
  2: { rewrite Z.add_0_l, Z.mul_comm, Z.div_mul by done. unfold zlen. lia. }
  rewrite E1. cbn [mbind res_bind]. destruct Hi as [Hf Hm Hc Hg Hh].
  destruct s1 as [b fs ms cs]. cbn [prefixFilters metas columns bitmap] in *. subst.
  rewrite zlen_app. change (zlen [open_meta closed]) with 1.
  replace (zlen (closed_metas closed) + 1 - 1) with (zlen (closed_metas closed)) by lia.
  rewrite close_block_spec. cbn [mbind res_bind metas columns bitmap prefixFilters].
  rewrite zlen_app. change (zlen [block_meta closed cur]) with 1.
  replace (zlen (closed_metas closed) + 1 - 1) with (zlen (closed_metas closed)) by lia.
  rewrite zget_snoc. cbn [mbind res_bind]. rewrite Ec in *.
  rewrite <-Ec, total_len_meta, Ec by (rewrite Ec; lia).
  rewrite <-closed_metas_snoc, Ec. set (all := entries <$> bs) in *.
  assert (Hu : zlen (uninit (zlen (image all))) = zlen (image all)) by (apply zlen_uninit, zlen_nonneg).
  pose proof (closed_metas_from all []) as Em. cbn [app] in Em. rewrite Em.
  pose proof (copy_blocks_spec all [] [] (uninit (zlen (image all))) [] Hu) as Ecp.
  cbn [app] in Ecp. rewrite app_nil_r in Ecp. change (zlen (@nil Z)) with 0 in Ecp.
  cbn [closed_metas seq length fmap list_fmap app]. rewrite Ecp by lia. cbn [mbind res_bind]. rewrite app_nil_r.
  rewrite zread_Ok by (pose proof (zlen_nonneg (image all)); lia). cbn [mbind res_bind].
  rewrite zslice_full by done.
  assert (Hza : zlen closed + 1 = zlen all) by (rewrite <-Ec, zlen_app; done). rewrite Hza.
  eexists _, _. split; [reflexivity|]. split; [|split; [done|]].
  - split; try done; [apply Hg|apply Handler.pread_pwrite_same|lia].
  - intros a Ha. rewrite Handler.pwrite_at. case_decide; [lia|done].
Qed.
End proofs.
