(* ===== verification/QueryTest.v ===== *)
(** * The query experiment (experiment/queryTest.cpp, search and the queries)

    A key is looked up block by block: the block's prefix filter is asked
    first, then the block's sorted part of the index is read from the device
    and binary-searched, and the positions found are followed along the packet
    links on the device, counting packets and bytes.  The six query functions
    repeat this for random records or random keys.  Random draws are
    arguments; time measurement is left out; printed errors are counted. *)
From stdpp Require Import sorting.
From S2P Require Import Prelude Util BitMap PrefixBloom BlockBuffer Reader Querier DataHandler QueryFill.
From Stdlib Require Import ZArith Lia.

Definition QUERY_TIMES : Z := 100.
Definition READ_SIZE : Z := 1024.
Definition DATA_OFFSET : Z := Handler.DATA_OFFSET.

(** [1u << n], undefined from 32 on, and [1lu << n], undefined from 64 on. *)
Definition shl32 (n : Z) : res Z := if (n <? 0) || (32 <=? n) then Undef else Ok (u32 (Z.shiftl 1 n)).
Definition shl64 (n : Z) : res Z := if (n <? 0) || (64 <=? n) then Undef else Ok (u64 (Z.shiftl 1 n)).

(** A random record number and random keys for one turn of a query. *)
Record Draw := mkDraw {
  d_id : Z;
  d_srcip : Z; d_dstip : Z;
  d_srcip6 : IPv6Address; d_dstip6 : IPv6Address;
  d_srcport : Z; d_dstport : Z }.

(** The largest value of [generateRandomID]'s distribution. *)
Definition random_id_max : Z := INDEX_SIZE / INDEX_ENUM_LEN.

(** The counters of a query; [errors] counts the printed errors. *)
Record Tally := mkTally { packet_count : Z; byte_count : Z; errors : Z; get_count : Z }.

Definition join (v1 v2 : list Z) : list Z := intersect_loop (length v1 + length v2) v1 v2.

(** [std::sort] on positions. *)
Definition sort_positions (v : list Z) : list Z := list_sort v.

Section query.
Context (hash_str : list Z -> Z) (hash_u64 : Z -> Z).
Context (g : Globals) (dev : device).

Definition filter_of (block_id : Z) : res PrefixBloomFilter := zget (g_filters g) block_id.

Definition checkIPv4 (ip : Z) (type : IndexType) (prefix_len block_id : Z) : res bool :=
  f ← filter_of block_id; getIPv4_prefix hash_str hash_u64 f (g_bitmap g) ip type prefix_len.
Definition checkIPv6 (ip : IPv6Address) (type : IndexType) (prefix_len block_id : Z) : res bool :=
  f ← filter_of block_id; getIPv6_prefix hash_str hash_u64 f (g_bitmap g) ip type prefix_len.
Definition checkPort (port : Z) (type : IndexType) (block_id : Z) : res bool :=
  f ← filter_of block_id; getPort f (g_bitmap g) port type.

(** The start of the three lookups: the block's part is read from the device. *)
Definition read_part (type : IndexType) (block_id : Z) : res (list Z * Z) :=
  m ← zget (index_metas g) block_id;
  p ← zget m (index_type_code type);
  let len := u64 (p.2 - p.1) in
  Ok (pread dev len (index_block_offset + p.1), len).

Definition getOffsetByIPv4 (ip : Z) (type : IndexType) (prefix_len block_id : Z) : res (list Z) :=
  '(index_buffer, len) ← read_part type block_id;
  ret_vec ←
    (if prefix_len =? 4 then @binarySearch Z Z_key key4 index_buffer 0 len ip []
     else
       ones ← shl32 (prefix_len * 8);
       let rest := u64 (4 - prefix_len) in
       top ← shl32 rest;
       let start_ip := Z.land ip (u32 (Z.shiftl (u32 (ones - 1)) rest)) in
       let end_ip := Z.lor ip (u32 (top - 1)) in
       @binarySearchRange Z Z_key key4 index_buffer 0 len start_ip end_ip);
  Ok (sort_positions ret_vec).

(** The range of an IPv6 prefix as the code computes it. *)
Definition ipv6_range (ip : IPv6Address) (prefix_len : Z) : res (IPv6Address * IPv6Address) :=
  if 8 <? prefix_len then
    let prefix_len := prefix_len - 8 in
    ones ← shl64 (prefix_len * 8);
    let rest := u64 (8 - prefix_len) in
    top ← shl32 rest;
    Ok (mkIPv6 (Z.land (low ip) (u64 (Z.shiftl (u64 (ones - 1)) rest))) (high ip),
        mkIPv6 (Z.lor (low ip) (u32 (top - 1))) (high ip))
  else
    ones ← shl64 (prefix_len * 8);
    let rest := 8 - prefix_len in
    _ ← shl32 rest;
    Ok (mkIPv6 0 (Z.land (high ip) (u64 (Z.shiftl (u64 (ones - 1)) rest))),
        mkIPv6 (low ip) MAX64).

Definition getOffsetByIPv6 (ip : IPv6Address) (type : IndexType) (prefix_len block_id : Z) : res (list Z) :=
  '(index_buffer, len) ← read_part type block_id;
  ret_vec ←
    (if prefix_len =? 16 then @binarySearch IPv6Address ipv6_key key16 index_buffer 0 len ip []
     else
       '(start_ip, end_ip) ← ipv6_range ip prefix_len;
       @binarySearchRange IPv6Address ipv6_key key16 index_buffer 0 len start_ip end_ip);
  Ok (sort_positions ret_vec).

Definition getOffsetByPort (port : Z) (type : IndexType) (block_id : Z) : res (list Z) :=
  '(index_buffer, len) ← read_part type block_id;
  ret_vec ← @binarySearch Z Z_key key2 index_buffer 0 len port [];
  Ok (sort_positions ret_vec).

(** The loops over [k] and [j] that every lookup of a query makes: the answer
    of each repetition is computed, that of the first one is kept. *)
Fixpoint search_blocks (check : Z -> res bool) (get : Z -> res (list Z)) (keep : bool) (js : list Z)
  (offset_vec : list Z) : res (list Z) :=
  match js with
  | [] => Ok offset_vec
  | j :: js =>
      c ← check j;
      if negb c then search_blocks check get keep js offset_vec else
      ret ← get j;
      let offset_vec := if negb (zlen ret =? 0) && keep then offset_vec ++ ret else offset_vec in
      search_blocks check get keep js offset_vec
  end.

Fixpoint search_turns (check : Z -> res bool) (get : Z -> res (list Z)) (n : Z) (ks : list Z)
  (offset_vec : list Z) : res (list Z) :=
  match ks with
  | [] => Ok offset_vec
  | k :: ks =>
      offset_vec ← search_blocks check get (k =? 0) (zseq n) offset_vec;
      search_turns check get n ks offset_vec
  end.

Definition search (check : Z -> res bool) (get : Z -> res (list Z)) : res (list Z) :=
  let n := zlen (index_metas g) in
  if n =? 0 then Undef
  else search_turns check get n (zseq (READ_SIZE / n)) [].

Definition searchIPv4 (ip : Z) (type : IndexType) (check_len get_len : Z) : res (list Z) :=
  search (checkIPv4 ip type check_len) (getOffsetByIPv4 ip type get_len).
Definition searchIPv6 (ip : IPv6Address) (type : IndexType) (check_len get_len : Z) : res (list Z) :=
  search (checkIPv6 ip type check_len) (getOffsetByIPv6 ip type get_len).
Definition searchPort (port : Z) (type : IndexType) : res (list Z) :=
  search (checkPort port type) (getOffsetByPort port type).

(** *** [readPacket]: the [while(true)] loop of one offset, then the offsets *)
Fixpoint follow_links (fuel : nat) (offset packet_count byte_count : Z) : res (Z * Z) :=
  match fuel with
  | O => Blocks
  | S fuel =>
      let data_buffer := pread dev 4096 (DATA_OFFSET + offset) in
      caplen ← load 4 data_buffer 8;
      flow_next_diff ← load 4 data_buffer 12;
      let packet_count := u64 (packet_count + 1) in
      let byte_count := u64 (byte_count + caplen) in
      if (flow_next_diff =? MAX32) || (flow_next_diff =? 0) then Ok (packet_count, byte_count)
      else follow_links fuel (u64 (offset + flow_next_diff)) packet_count byte_count
  end.

Fixpoint read_offsets (fuel : nat) (offset_vec : list Z) (packet_count byte_count : Z) : res (Z * Z) :=
  match offset_vec with
  | [] => Ok (packet_count, byte_count)
  | offset :: offset_vec =>
      '(packet_count, byte_count) ← follow_links fuel offset packet_count byte_count;
      read_offsets fuel offset_vec packet_count byte_count
  end.

Definition readPacket (fuel : nat) (offset_vec : list Z) : res (Z * Z) :=
  read_offsets fuel offset_vec 0 0.

(** ** The queries *)

(** Fields of the record a query looks at. *)
Definition record_at (id : Z) : Z := id * INDEX_ENUM_LEN.
Definition version_at (index : Z) : res Z := load 4 (buffer g) (index + Handler.at_version).
Definition ip4_at (index off : Z) : res Z := load 4 (buffer g) (index + off).
Definition ip6_at (index off : Z) : res IPv6Address :=
  l ← zread (buffer g) (index + off) 16; Ok (key_dec (KeyBytes := key16) l).
Definition port_at (index off : Z) : res Z := load 2 (buffer g) (index + off).

(** The packets of an answer are added to the counters. *)
Definition add_packets (fuel : nat) (s : Tally) (offset_vec : list Z) : res Tally :=
  '(p, b) ← readPacket fuel offset_vec;
  Ok (mkTally (u64 (packet_count s + p)) (u64 (byte_count s + b)) (errors s) (get_count s)).

(** [if(offset_vec.size()==0)]: an error is printed, or a miss is counted. *)
Definition note_error (s : Tally) (offset_vec : list Z) : Tally :=
  if zlen offset_vec =? 0 then mkTally (packet_count s) (byte_count s) (errors s + 1) (get_count s) else s.
Definition note_miss (s : Tally) (offset_vec : list Z) : Tally :=
  if zlen offset_vec =? 0 then mkTally (packet_count s) (byte_count s) (errors s) (u64 (get_count s + 1)) else s.

(** One lookup whose packets are read. *)
Definition lookup_packets (fuel : nat) (note : Tally -> list Z -> Tally) (found : res (list Z)) (s : Tally)
  : res Tally :=
  offset_vec ← found;
  add_packets fuel (note s offset_vec) offset_vec.

Definition pair4 (fuel : nat) (note : Tally -> list Z -> Tally) (srcip dstip check_len get_len : Z) (s : Tally)
  : res Tally :=
  s ← lookup_packets fuel note (searchIPv4 srcip SRCIP check_len get_len) s;
  lookup_packets fuel note (searchIPv4 dstip DSTIP check_len get_len) s.
Definition pair6 (fuel : nat) (note : Tally -> list Z -> Tally) (srcip dstip : IPv6Address)
  (check_len get_len : Z) (s : Tally) : res Tally :=
  s ← lookup_packets fuel note (searchIPv6 srcip SRCIPv6 check_len get_len) s;
  lookup_packets fuel note (searchIPv6 dstip DSTIPv6 check_len get_len) s.

(** [q1]: all keys of a stored record, exact addresses. *)
Definition q1_ipv4 (fuel : nat) (index : Z) (s : Tally) : res Tally :=
  srcip ← ip4_at index Handler.at_sourceAddress;
  dstip ← ip4_at index Handler.at_destinationAddress;
  pair4 fuel note_error srcip dstip 4 4 s.
Definition q1_ipv6 (fuel : nat) (index : Z) (s : Tally) : res Tally :=
  srcip ← ip6_at index Handler.at_sourceAddress;
  dstip ← ip6_at index Handler.at_destinationAddress;
  pair6 fuel note_error srcip dstip 16 16 s.
Definition q1_ports (fuel : nat) (index : Z) (s : Tally) : res Tally :=
  srcport ← port_at index Handler.at_sourcePort;
  dstport ← port_at index Handler.at_destinationPort;
  s ← lookup_packets fuel note_error (searchPort srcport SRCPORT) s;
  lookup_packets fuel note_error (searchPort dstport DSTPORT) s.

Definition q1_turn (fuel : nat) (d : Draw) (s : Tally) : res Tally :=
  let index := record_at (d_id d) in
  version ← version_at index;
  s ← (if version =? 4 then q1_ipv4 fuel index s else q1_ipv6 fuel index s);
  q1_ports fuel index s.

(** [q2]: the addresses of a stored record by a prefix. *)
Definition q2_ipv4 (fuel : nat) (index : Z) (s : Tally) : res Tally :=
  srcip ← ip4_at index Handler.at_sourceAddress;
  dstip ← ip4_at index Handler.at_destinationAddress;
  pair4 fuel note_error srcip dstip (4 - 1) (4 - 1) s.
Definition q2_ipv6 (fuel : nat) (index : Z) (s : Tally) : res Tally :=
  srcip ← ip6_at index Handler.at_sourceAddress;
  dstip ← ip6_at index Handler.at_destinationAddress;
  pair6 fuel note_error srcip dstip (16 - 2) (16 - 2) s.

Definition q2_turn (fuel : nat) (d : Draw) (s : Tally) : res Tally :=
  let index := record_at (d_id d) in
  version ← version_at index;
  if version =? 4 then q2_ipv4 fuel index s else q2_ipv6 fuel index s.

(** [q3]: the conjunction of all keys of a stored record; [total_vec] is the
    join so far.  The packets read are those of the last lookup. *)
Definition q3_ipv4 (index : Z) (s : Tally) : res (list Z * Tally) :=
  srcip ← ip4_at index Handler.at_sourceAddress;
  dstip ← ip4_at index Handler.at_destinationAddress;
  total_vec ← searchIPv4 srcip SRCIP 4 4;
  let s := note_error s total_vec in
  offset_vec ← searchIPv4 dstip DSTIP 4 4;
  let s := note_error s offset_vec in
  Ok (join total_vec offset_vec, s).
Definition q3_ipv6 (index : Z) (s : Tally) : res (list Z * Tally) :=
  srcip ← ip6_at index Handler.at_sourceAddress;
  dstip ← ip6_at index Handler.at_destinationAddress;
  total_vec ← searchIPv6 srcip SRCIPv6 16 16;
  let s := note_error s total_vec in
  offset_vec ← searchIPv6 dstip DSTIPv6 16 16;
  let s := note_error s offset_vec in
  Ok (join total_vec offset_vec, s).
Definition q3_ports (index : Z) (total_vec : list Z) (s : Tally) : res (list Z * list Z * Tally) :=
  srcport ← port_at index Handler.at_sourcePort;
  dstport ← port_at index Handler.at_destinationPort;
  offset_vec ← searchPort srcport SRCPORT;
  let s := note_error s offset_vec in
  let total_vec := join total_vec offset_vec in
  offset_vec ← searchPort dstport DSTPORT;
  let s := note_error s offset_vec in
  Ok (join total_vec offset_vec, offset_vec, s).

Definition q3_turn (fuel : nat) (d : Draw) (s : Tally) : res Tally :=
  let index := record_at (d_id d) in
  version ← version_at index;
  '(total_vec, s) ← (if version =? 4 then q3_ipv4 index s else q3_ipv6 index s);
  '(total_vec, offset_vec, s) ← q3_ports index total_vec s;
  add_packets fuel s offset_vec.

(** [q4]: random addresses of the family of a stored record. *)
Definition q4_ipv4 (fuel : nat) (d : Draw) (s : Tally) : res Tally :=
  pair4 fuel note_miss (d_srcip d) (d_dstip d) 4 4 s.
Definition q4_ipv6 (fuel : nat) (d : Draw) (s : Tally) : res Tally :=
  pair6 fuel note_miss (d_srcip6 d) (d_dstip6 d) 16 16 s.

Definition q4_turn (fuel : nat) (d : Draw) (s : Tally) : res Tally :=
  version ← version_at (record_at (d_id d));
  if version =? 4 then q4_ipv4 fuel d s else q4_ipv6 fuel d s.

(** [q5]: random prefixes; the IPv4 branch asks the filter for the prefix and
    the index for the whole address. *)
Definition q5_ipv4 (fuel : nat) (d : Draw) (s : Tally) : res Tally :=
  pair4 fuel note_miss (d_srcip d) (d_dstip d) (4 - 1) 4 s.
Definition q5_ipv6 (fuel : nat) (d : Draw) (s : Tally) : res Tally :=
  pair6 fuel note_miss (d_srcip6 d) (d_dstip6 d) (16 - 2) (16 - 2) s.

Definition q5_turn (fuel : nat) (d : Draw) (s : Tally) : res Tally :=
  version ← version_at (record_at (d_id d));
  if version =? 4 then q5_ipv4 fuel d s else q5_ipv6 fuel d s.

(** [q6]: the conjunction of random keys; a turn ends ([None]) as soon as the
    join is empty. *)
Definition q6_ipv4 (d : Draw) : res (option (list Z)) :=
  total_vec ← searchIPv4 (d_srcip d) SRCIP 4 4;
  if zlen total_vec =? 0 then Ok None else
  offset_vec ← searchIPv4 (d_dstip d) DSTIP 4 4;
  let total_vec := join total_vec offset_vec in
  if zlen total_vec =? 0 then Ok None else Ok (Some total_vec).
Definition q6_ipv6 (d : Draw) : res (option (list Z)) :=
  total_vec ← searchIPv6 (d_srcip6 d) SRCIPv6 16 16;
  if zlen total_vec =? 0 then Ok None else
  offset_vec ← searchIPv6 (d_dstip6 d) DSTIPv6 16 16;
  let total_vec := join total_vec offset_vec in
  if zlen total_vec =? 0 then Ok None else Ok (Some total_vec).
Definition q6_ports (fuel : nat) (d : Draw) (total_vec : list Z) (s : Tally) : res Tally :=
  offset_vec ← searchPort (d_srcport d) SRCPORT;
  let total_vec := join total_vec offset_vec in
  if zlen total_vec =? 0 then Ok s else
  offset_vec ← searchPort (d_dstport d) DSTPORT;
  let total_vec := join total_vec offset_vec in
  if zlen total_vec =? 0 then Ok s else add_packets fuel s offset_vec.

Definition q6_turn (fuel : nat) (d : Draw) (s : Tally) : res Tally :=
  version ← version_at (record_at (d_id d));
  r ← (if version =? 4 then q6_ipv4 d else q6_ipv6 d);
  match r with
  | None => Ok s
  | Some total_vec => q6_ports fuel d total_vec s
  end.

(** A query runs its turns on the first draws of the random source. *)
Fixpoint run_turns (turn : Draw -> Tally -> res Tally) (draws : list Draw) (s : Tally) : res Tally :=
  match draws with
  | [] => Ok s
  | d :: draws => s ← turn d s; run_turns turn draws s
  end.

Definition start_tally : Tally := mkTally 0 0 0 0.

Definition query (turns : Z) (turn : Draw -> Tally -> res Tally) (draws : list Draw) : res Tally :=
  run_turns turn (take (Z.to_nat turns) draws) start_tally.

Definition q1 (fuel : nat) (draws : list Draw) : res Tally := query (QUERY_TIMES / 4) (q1_turn fuel) draws.
Definition q2 (fuel : nat) (draws : list Draw) : res Tally := query (QUERY_TIMES / 20) (q2_turn fuel) draws.
Definition q3 (fuel : nat) (draws : list Draw) : res Tally := query QUERY_TIMES (q3_turn fuel) draws.
Definition q4 (fuel : nat) (draws : list Draw) : res Tally := query (QUERY_TIMES * 10 / 2) (q4_turn fuel) draws.
Definition q5 (fuel : nat) (draws : list Draw) : res Tally := query (QUERY_TIMES / 2) (q5_turn fuel) draws.
Definition q6 (fuel : nat) (draws : list Draw) : res Tally := query QUERY_TIMES (q6_turn fuel) draws.
End query.

(** [main]: the index is built, then [q1] and [q2] run on fresh draws. *)
Definition main (std_sort : forall K, CppKey K -> list (K * Z) -> list (K * Z))
  (hash_str : list Z -> Z) (hash_u64 : Z -> Z) (uninit : Z -> list Z)
  (index_size : Z) (fuel : nat) (draws1 draws2 : list Draw) (dev : device) : res (Tally * Tally) :=
  s ← init true;
  '(g, dev) ← fill std_sort hash_str hash_u64 uninit index_size s dev;
  t1 ← q1 hash_str hash_u64 g dev fuel draws1;
  t2 ← q2 hash_str hash_u64 g dev fuel draws2;
  Ok (t1, t2).

(** * Proofs *)

#[export] Instance fkey_eq_dec : EqDecision fkey.
Proof. solve_decision. Defined.

(** ** Reading parts of what the device holds *)
Lemma pread_sub d n off a m : 0 <= a -> 0 <= m -> a + m <= n -> zslice a m (pread d n off) = pread d m (off + a).
Proof.
  intros Ha Hm Hn. apply list_eq. intros i. rewrite lookup_zslice. unfold pread, zseq.
  rewrite !list_lookup_fmap. case_decide as Hi.
  - rewrite !lookup_seq_lt by lia. simpl. do 2 f_equal. lia.
  - by rewrite lookup_seq_ge by lia.
Qed.

Lemma zlen_pread d n off : 0 <= n -> zlen (pread d n off) = n.
Proof. intros. unfold pread, zlen. rewrite length_fmap. by apply zlen_zseq. Qed.

Lemma zslice_app_r {A} (a b : list A) n m : n = zlen a -> zslice n m (a ++ b) = zslice 0 m b.
Proof. intros ->. unfold zslice. rewrite drop_app_length' by (unfold zlen; lia). done. Qed.

Lemma zslice_here {A} (a b c : list A) n m : n = zlen a -> m = zlen b -> zslice n m (a ++ b ++ c) = b.
Proof.
  intros -> ->. rewrite zslice_app_r by done. unfold zslice. rewrite drop_0. apply take_app_length'. unfold zlen. lia.
Qed.

Lemma sorted_positions_unique l k : l ≡ₚ k -> sort_positions l = sort_positions k.
Proof.
  intros H. destruct (AnswerProofs.list_sort_spec l) as [S1 P1], (AnswerProofs.list_sort_spec k) as [S2 P2].
  apply (StronglySorted_unique Z.le); [done|done|]. unfold sort_positions. by rewrite P1, P2.
Qed.

(** ** The lookup loops *)
Lemma search_blocks_spec check get (c : Z -> bool) (l : Z -> list Z) keep js : forall acc,
  (forall j, j ∈ js -> check j = Ok (c j) /\ get j = Ok (l j)) ->
  search_blocks check get keep js acc =
    Ok (acc ++ if keep : bool then concat ((fun j => if c j then l j else []) <$> js) else []).
Proof.
  induction js as [|j js IH]; intros acc H; cbn [search_blocks].
  - by destruct keep; rewrite app_nil_r.
  - destruct (H j) as [-> ->]; [by left|]. cbn [mbind res_bind].
    rewrite fmap_cons. cbn [concat]. destruct (c j); cbn [negb].
    + rewrite IH by (intros; apply H; by right). destruct keep; [|by rewrite andb_false_r].
      rewrite andb_true_r. rewrite app_assoc. do 2 f_equal. case_test; [done|].
      zbool. destruct (l j); [by rewrite app_nil_r|]. rewrite zlen_cons in *. pose proof (zlen_nonneg l0). lia.
    + rewrite IH by (intros; apply H; by right). by destruct keep.
Qed.

Lemma search_turns_spec check get (c : Z -> bool) (l : Z -> list Z) n ks : forall acc,
  (forall j, 0 <= j < n -> check j = Ok (c j) /\ get j = Ok (l j)) ->
  Forall (fun k => 0 < k) ks ->
  search_turns check get n ks acc = Ok acc.
Proof.
  induction ks as [|k ks IH]; intros acc H Hk; [done|]. apply Forall_cons in Hk as [Hk Hks]. cbn [search_turns].
  rewrite (search_blocks_spec _ _ c l) by (intros j Hj%elem_of_zseq; auto).
  rewrite (proj2 (Z.eqb_neq _ _)) by lia. rewrite app_nil_r. cbn [mbind res_bind]. by apply IH.
Qed.

Lemma search_spec g check get (c : Z -> bool) (l : Z -> list Z) :
  let n := zlen (index_metas g) in
  0 < n <= READ_SIZE ->
  (forall j, 0 <= j < n -> check j = Ok (c j) /\ get j = Ok (l j)) ->
  search g check get = Ok (concat ((fun j => if c j then l j else []) <$> zseq n)).
Proof.
  intros n Hn H. unfold search. fold n. rewrite (proj2 (Z.eqb_neq _ _)) by lia.
  assert (Hd : 0 < READ_SIZE / n) by (apply Z.div_str_pos; lia).
  rewrite zseq_head by done. cbn [search_turns]. rewrite (search_blocks_spec _ _ c l) by (intros j Hj%elem_of_zseq; auto).
  cbn [Z.eqb mbind res_bind app]. apply (search_turns_spec _ _ c l); [done|].
  apply Forall_fmap, Forall_forall. intros k Hk%elem_of_zseq. simpl. lia.
Qed.

Section answers.
Context (std_sort : forall K, CppKey K -> list (K * Z) -> list (K * Z)).
Context (std_sort_perm : forall K (H : CppKey K) l, CppKeyLaws K -> std_sort K H l ≡ₚ l).
Context (std_sort_sorted : forall K (H : CppKey K) l, CppKeyLaws K -> sorted_keys (std_sort K H l)).
Context (hash_str : list Z -> Z) (hash_u64 : Z -> Z).
Context (g : Globals) (dev : device) (all : list (list entry)).
Context (Hb : built std_sort hash_str hash_u64 g dev all).

(** ** Where the parts lie *)
Lemma layout_lookup rs : forall cur (i : nat) r, rs !! i = Some r ->
  layout_from cur rs !! i =
    Some (cur + zlen (concat (take i rs)), cur + zlen (concat (take i rs)) + zlen r).
Proof.
  induction rs as [|r0 rs IH]; intros cur [|i] r H; try done; cbn [layout_from].
  - injection H as ->. cbn [lookup list_lookup take concat]. change (zlen []) with 0. do 2 f_equal; lia.
  - cbn [lookup list_lookup take concat]. rewrite (IH _ i r H), zlen_app. do 2 f_equal; lia.
Qed.

Lemma index_layout_lookup ls : forall cur (j : nat) l, ls !! j = Some l ->
  index_layout std_sort cur ls !! j = Some (layout_from (cur + zlen (image std_sort (take j ls))) (regions std_sort l)).
Proof.
  induction ls as [|l0 ls IH]; intros cur [|j] l H; try done; cbn [index_layout].
  - injection H as ->. cbn [lookup list_lookup take]. change (zlen (image std_sort [])) with 0. do 2 f_equal. lia.
  - cbn [lookup list_lookup take]. rewrite (IH _ j l H), zlen_image_cons. do 2 f_equal. lia.
Qed.

Lemma image_at (j : nat) l (i : nat) r :
  all !! j = Some l -> regions std_sort l !! i = Some r ->
  exists suffix, image std_sort all = (image std_sort (take j all) ++ concat (take i (regions std_sort l))) ++ r ++ suffix.
Proof.
  intros Hj Hi. exists (concat (drop (S i) (regions std_sort l)) ++ image std_sort (drop (S j) all)).
  assert (E1 : image std_sort all = image std_sort (take j all) ++ concat (regions std_sort l)
                 ++ image std_sort (drop (S j) all)).
  { unfold image at 1. rewrite <-(take_drop_middle all j l Hj) at 1. rewrite fmap_app, concat_app. done. }
  assert (E2 : concat (regions std_sort l) = concat (take i (regions std_sort l)) ++ r
                 ++ concat (drop (S i) (regions std_sort l))).
  { rewrite <-(take_drop_middle (regions std_sort l) i r Hi) at 1. by rewrite concat_app. }
  rewrite E1, E2, <-!app_assoc. done.
Qed.

Lemma read_part_spec (j : nat) l t :
  all !! j = Some l -> t <> TOTAL_INDEX ->
  read_part g dev t (Z.of_nat j) = Ok (region std_sort l t, zlen (region std_sort l t)).
Proof.
  intros Hj Ht. destruct Hb as [Hm _ _ _ Him Hsm].
  assert (Hi : regions std_sort l !! Z.to_nat (index_type_code t) = Some (region std_sort l t)) by (destruct t; done || congruence).
  set (i := Z.to_nat (index_type_code t)) in *.
  destruct (image_at j l i _ Hj Hi) as (suffix & Es).
  assert (Hz : zlen (image std_sort all) = zlen (image std_sort (take j all)) + zlen (concat (take i (regions std_sort l))) + zlen (region std_sort l t) + zlen suffix)
    by (rewrite Es, !zlen_app; lia).
  pose proof (zlen_nonneg (image std_sort (take j all))). pose proof (zlen_nonneg (concat (take i (regions std_sort l)))).
  pose proof (zlen_nonneg (region std_sort l t)). pose proof (zlen_nonneg suffix).
  unfold read_part. rewrite Hm.
  rewrite (proj2 (zget_Ok _ (Z.of_nat j) (layout_from (0 + zlen (image std_sort (take j all))) (regions std_sort l)))).
  2: { split; [lia|]. rewrite Nat2Z.id. by apply index_layout_lookup. }
  cbn [mbind res_bind].
  erewrite (proj2 (zget_Ok _ (index_type_code t) _)).
  2: { split; [by destruct t|]. by apply layout_lookup. }
  cbn [mbind res_bind fst snd]. fold i.
  replace (u64 (_ - _)) with (zlen (region std_sort l t)) by (rewrite u64_small; lia). do 2 f_equal. fold i.
  rewrite <-(pread_sub dev (zlen (image std_sort all))) by lia. rewrite Him, Es.
  apply zslice_here; [rewrite zlen_app; lia|done].
Qed.

(** ** The search in a part *)
Lemma binarySearch_sorted {K} `{CppKeyLaws K} `{KB : KeyBytes K, !KeyBytesLaws K} (l : list (K * Z)) (k : K) :
  Forall record_ok l ->
  exists r, binarySearch (records_enc (std_sort K _ l)) 0 (zlen (records_enc (std_sort K _ l))) k [] = Ok r /\
    r ≡ₚ (filter (fun r => key_eq r.1 k = true) l).*2.
Proof.
  intros Hok. set (s := std_sort K _ l). pose proof (std_sort_perm K _ l ltac:(done)) as Hp. fold s in Hp.
  assert (Hoks : Forall record_ok s) by (by rewrite Hp).
  pose proof (record_size_pos (K := K)) as Hrs.
  assert (Er : SearchProofs.recs (records_enc s) 0 (zlen s) = s).
  { unfold SearchProofs.recs. rewrite zslice_full by (by rewrite zlen_records_enc).
    replace (Z.to_nat (zlen s)) with (length s) by (unfold zlen; lia).
    rewrite <-(app_nil_r (records_enc s)). by apply records_dec_enc. }
  rewrite zlen_records_enc. pose proof (zlen_nonneg s).
  destruct (SearchProofs.binarySearch_spec (records_enc s) 0 (zlen s * record_size (key_len (K := K))) k []) as [E _];
    rewrite ?zlen_records_enc, ?Z.div_mul by lia; try lia; try nia.
  - rewrite Er. apply std_sort_sorted. done.
  - rewrite Z.div_mul, Er in E by lia. rewrite E. eexists. split; [reflexivity|]. cbn [app].
    apply fmap_Permutation. by rewrite Hp.
Qed.

(** Entries whose keys and positions have their widths. *)
Definition entry_ok (e : entry) : Prop := fkey_wf e.1 /\ is_u 64 e.2.

(** The records selected from fine entries are fine. *)
Ltac selected :=
  let H := fresh in let r := fresh in let e := fresh in let He := fresh in let Hs := fresh in
  intros H; apply Forall_forall; intros r (e & He & Hs)%list_elem_of_omap;
  rewrite Forall_forall in H; destruct (H e He); destruct e as [[? ?|? ?|? ?] ?]; try discriminate Hs;
  cbn in Hs; case_decide; [|discriminate Hs]; injection Hs as <-; by split.

Lemma ports_ok t l : Forall entry_ok l -> Forall (@record_ok Z key2) (ports t l).
Proof. selected. Qed.
Lemma ipv4s_ok t l : Forall entry_ok l -> Forall (@record_ok Z key4) (ipv4s t l).
Proof. selected. Qed.
Lemma ipv6s_ok t l : Forall entry_ok l -> Forall (@record_ok IPv6Address key16) (ipv6s t l).
Proof. selected. Qed.

Context (Hall : Forall (Forall entry_ok) all).

(** The sorted positions of the records with a key in a block. *)
Definition found {K} `{CppKey K} (sel : list entry -> list (K * Z)) (k : K) (l : list entry) : list Z :=
  sort_positions (filter (fun r => key_eq r.1 k = true) (sel l)).*2.

(** A part is the sorted selection. *)
Ltac sorted_region :=
  intros [-> | ->]; unfold region, part; cbn [column col_bytes]; unfold sorted_all;
  cbn [fmap list_fmap concat]; by rewrite !app_nil_r.

Lemma region_port l t : t = SRCPORT \/ t = DSTPORT ->
  region std_sort l t = @records_enc Z key2 (std_sort Z _ (ports t l)).
Proof. sorted_region. Qed.
Lemma region_ip4 l t : t = SRCIP \/ t = DSTIP ->
  region std_sort l t = @records_enc Z key4 (std_sort Z _ (ipv4s t l)).
Proof. sorted_region. Qed.
Lemma region_ip6 l t : t = SRCIPv6 \/ t = DSTIPv6 ->
  region std_sort l t = @records_enc IPv6Address key16 (std_sort IPv6Address _ (ipv6s t l)).
Proof. sorted_region. Qed.

Lemma block_ok (j : nat) l : all !! j = Some l -> Forall entry_ok l.
Proof. intros H. by apply (Forall_lookup_1 _ _ _ _ Hall H). Qed.

Lemma offsets_port (j : nat) l t p :
  all !! j = Some l -> t = SRCPORT \/ t = DSTPORT ->
  getOffsetByPort g dev p t (Z.of_nat j) = Ok (found (ports t) p l).
Proof.
  intros Hj Ht. unfold getOffsetByPort. rewrite (read_part_spec j l) by (done || (destruct Ht; congruence)).
  cbn [mbind res_bind]. rewrite region_port by done.
  destruct (@binarySearch_sorted Z _ _ key2 _ (ports t l) p (ports_ok t l (block_ok j l Hj))) as (r & -> & Hr).
  cbn [mbind res_bind]. f_equal. by apply sorted_positions_unique.
Qed.
Lemma offsets_ip4 (j : nat) l t p :
  all !! j = Some l -> t = SRCIP \/ t = DSTIP ->
  getOffsetByIPv4 g dev p t 4 (Z.of_nat j) = Ok (found (ipv4s t) p l).
Proof.
  intros Hj Ht. unfold getOffsetByIPv4. rewrite (read_part_spec j l) by (done || (destruct Ht; congruence)).
  cbn [mbind res_bind Z.eqb Pos.eqb]. rewrite region_ip4 by done.
  destruct (@binarySearch_sorted Z _ _ key4 _ (ipv4s t l) p (ipv4s_ok t l (block_ok j l Hj))) as (r & -> & Hr).
  cbn [mbind res_bind]. f_equal. by apply sorted_positions_unique.
Qed.
Lemma offsets_ip6 (j : nat) l t p :
  all !! j = Some l -> t = SRCIPv6 \/ t = DSTIPv6 ->
  getOffsetByIPv6 g dev p t 16 (Z.of_nat j) = Ok (found (ipv6s t) p l).
Proof.
  intros Hj Ht. unfold getOffsetByIPv6. rewrite (read_part_spec j l) by (done || (destruct Ht; congruence)).
  cbn [mbind res_bind Z.eqb Pos.eqb]. rewrite region_ip6 by done.
  destruct (@binarySearch_sorted IPv6Address _ _ key16 _ (ipv6s t l) p (ipv6s_ok t l (block_ok j l Hj))) as (r & -> & Hr).
  cbn [mbind res_bind]. f_equal. by apply sorted_positions_unique.
Qed.

(** ** The filters *)
Lemma filter_of_ok (j : nat) l : all !! j = Some l -> filter_of g (Z.of_nat j) = Ok (block_filter (Z.of_nat j)).
Proof.
  intros Hj%lookup_lt_Some. unfold filter_of. rewrite (bt_filters _ _ _ _ _ _ Hb).
  apply get_filter. unfold zlen. lia.
Qed.

Lemma holds_key (j : nat) l e : all !! j = Some l -> e ∈ l -> holds hash_str hash_u64 (g_bitmap g) (Z.of_nat j) e.1.
Proof. intros Hj He. pose proof (bt_holds _ _ _ _ _ _ Hb j l Hj) as H. rewrite Forall_forall in H. by apply H. Qed.

Lemma all_get_Ok {A} (p : A -> res bool) l : (forall x, is_Ok (p x) = true) -> is_Ok (all_get p l) = true.
Proof.
  intros H. induction l as [|x l IH]; [done|]. cbn [all_get].
  destruct (proj1 (is_Ok_iff _) (H x)) as [v ->]. cbn [mbind res_bind]. by destruct v.
Qed.
Lemma any_get_Ok {A} (p : A -> res bool) l : (forall x, is_Ok (p x) = true) -> is_Ok (any_get p l) = true.
Proof.
  intros H. induction l as [|x l IH]; [done|]. cbn [any_get].
  destruct (proj1 (is_Ok_iff _) (H x)) as [v ->]. cbn [mbind res_bind]. by destruct v.
Qed.
Lemma bind_Ok {A} (m : res A) (f : A -> res bool) :
  is_Ok m = true -> (forall a, is_Ok (f a) = true) -> is_Ok (m ≫= f) = true.
Proof. destruct m; intros; try done. simpl. auto. Qed.

Lemma get_Ok r j : 0 <= r -> 0 <= j -> is_Ok (get (g_bitmap g) r j) = true.
Proof. intros. by rewrite get_cell by (try done; apply (bt_wf _ _ _ _ _ _ Hb)). Qed.

(** Every query of a filter answers. *)
Ltac answers :=
  repeat first
    [ done | apply get_Ok; [apply u64_range|done]
    | apply all_get_Ok; intros ? | apply any_get_Ok; intros ?
    | apply bind_Ok; [|intros ?]
    | match goal with |- is_Ok (if ?b then _ else _) = true => destruct b end ].

Lemma getIPv4_prefix_Ok j ip t n :
  0 <= j -> is_Ok (getIPv4_prefix hash_str hash_u64 (block_filter j) (g_bitmap g) ip t n) = true.
Proof.
  intros Hj. unfold getIPv4_prefix. cbn [has_bitmap block_filter negb]. destruct (ip4_offset t); [|done].
  unfold checkIPv4_prefix, check4_slice, getBloom, bloom_row, ip4_row. cbn [reading_col block_filter]. answers.
Qed.
Lemma getIPv6_prefix_Ok j ip t n :
  0 <= j -> is_Ok (getIPv6_prefix hash_str hash_u64 (block_filter j) (g_bitmap g) ip t n) = true.
Proof.
  intros Hj. unfold getIPv6_prefix. cbn [has_bitmap block_filter negb]. destruct (ip6_offset t); [|done].
  unfold checkIPv6_prefix, check6_slice, getBloom, bloom_row, ip6_row. cbn [reading_col block_filter]. answers.
Qed.

(** No false negatives: the filter of a block answers for the block's keys. *)
Lemma check_port_in (j : nat) l p t v :
  all !! j = Some l -> t = SRCPORT \/ t = DSTPORT -> (KPort p t, v) ∈ l ->
  checkPort g p t (Z.of_nat j) = Ok true.
Proof.
  intros Hj Ht He. unfold checkPort. rewrite (filter_of_ok j l Hj). cbn [mbind res_bind].
  pose proof (holds_key j l _ Hj He) as Hh. pose proof (block_ok j l Hj) as Hok. rewrite Forall_forall in Hok.
  destruct (Hok _ He) as [Hw _].
  apply (key_in_query hash_str hash_u64 (block_filter (Z.of_nat j)) (block_filter (Z.of_nat j)) (g_bitmap g) (KPort p t));
    try done; [apply (bt_wf _ _ _ _ _ _ Hb)|cbn; lia|by destruct Ht as [-> | ->]].
Qed.

Lemma check_ip4_in (j : nat) l p t v :
  all !! j = Some l -> t = SRCIP \/ t = DSTIP -> (KIPv4 p t, v) ∈ l ->
  checkIPv4 hash_str hash_u64 g p t 4 (Z.of_nat j) = Ok true.
Proof.
  intros Hj Ht He. unfold checkIPv4. rewrite (filter_of_ok j l Hj). cbn [mbind res_bind].
  pose proof (holds_key j l _ Hj He) as Hh. unfold getIPv4_prefix. cbn [has_bitmap block_filter negb].
  assert (Ho : exists o, ip4_offset t = Some o) by (destruct Ht as [-> | ->]; eauto).
  destruct Ho as (o & Ho). rewrite Ho. specialize (Hh o Ho).
  apply (checkIPv4_prefix_in hash_str hash_u64 (block_filter (Z.of_nat j)) (block_filter (Z.of_nat j)) (g_bitmap g) p);
    try done; [apply (bt_wf _ _ _ _ _ _ Hb)|cbn; lia].
Qed.

Lemma check_ip6_in (j : nat) l p t v :
  all !! j = Some l -> t = SRCIPv6 \/ t = DSTIPv6 -> (KIPv6 p t, v) ∈ l ->
  checkIPv6 hash_str hash_u64 g p t 16 (Z.of_nat j) = Ok true.
Proof.
  intros Hj Ht He. unfold checkIPv6. rewrite (filter_of_ok j l Hj). cbn [mbind res_bind].
  pose proof (holds_key j l _ Hj He) as Hh. pose proof (block_ok j l Hj) as Hok. rewrite Forall_forall in Hok.
  destruct (Hok _ He) as [Hw _]. unfold getIPv6_prefix. cbn [has_bitmap block_filter negb].
  assert (Ho : exists o, ip6_offset t = Some o) by (destruct Ht as [-> | ->]; eauto).
  destruct Ho as (o & Ho). rewrite Ho. specialize (Hh o Ho).
  apply (checkIPv6_prefix_in hash_str hash_u64 (block_filter (Z.of_nat j)) (block_filter (Z.of_nat j)) (g_bitmap g) p);
    try done; [apply (bt_wf _ _ _ _ _ _ Hb)|cbn; lia].
Qed.

(** A block whose filter refuses a key has no record with it. *)
Lemma found_nil {K} `{CppKeyLaws K} (sel : list entry -> list (K * Z)) (k : K) l :
  (forall v, (k, v) ∈ sel l -> False) -> found sel k l = [].
Proof.
  intros Hn. unfold found. rewrite filter_none; [done|].
  intros [k' v] Hin Hk. cbn in Hk. apply key_eq_spec in Hk as ->. by apply (Hn v).
Qed.

(** The search over all blocks. *)
Lemma search_all check get (f : list entry -> list Z) :
  0 < zlen all <= READ_SIZE ->
  (forall (j : nat) l, all !! j = Some l ->
     get (Z.of_nat j) = Ok (f l) /\
     (check (Z.of_nat j) = Ok true \/ check (Z.of_nat j) = Ok false /\ f l = [])) ->
  search g check get = Ok (concat (f <$> all)).
Proof.
  intros Hn H.
  assert (Hl : zlen (index_metas g) = zlen all).
  { rewrite (bt_metas _ _ _ _ _ _ Hb). clear. generalize 0. unfold zlen.
    induction all as [|l ls IH]; intros z; [done|]. cbn [index_layout length].
    specialize (IH (z + zlen (concat (regions std_sort l)))). lia. }
  assert (Hat : forall j, 0 <= j < zlen all -> exists l, all !! Z.to_nat j = Some l).
  { intros j Hj. apply lookup_lt_is_Some_2. unfold zlen in Hj. lia. }
  rewrite (search_spec g check get (fun j => from_res false (check j)) (fun j => from_res [] (get j))).
  - do 2 f_equal. rewrite Hl. unfold zseq, zlen. rewrite Nat2Z.id, <-list_fmap_compose.
    apply list_eq. intros i. rewrite !list_lookup_fmap.
    destruct (decide (i < length all)%nat) as [Hi|Hi].
    + rewrite lookup_seq_lt by done. destruct (lookup_lt_is_Some_2 all i Hi) as [l El]. rewrite El. cbn.
      destruct (H i l El) as [Hg [Hc | [Hc Hf]]]; rewrite Hc, ?Hg; cbn; [done|by rewrite Hf].
    + rewrite lookup_seq_ge, lookup_ge_None_2 by lia. done.
  - by rewrite Hl.
  - rewrite Hl. intros j Hj. destruct (Hat j Hj) as [l El]. destruct (H _ l El) as [Hg Hc].
    rewrite Z2Nat.id in Hg, Hc by lia. rewrite Hg. destruct Hc as [-> | [-> _]]; done.
Qed.

Lemma search_port p t : 0 <= p -> 0 < zlen all <= READ_SIZE -> t = SRCPORT \/ t = DSTPORT ->
  searchPort g dev p t = Ok (concat (found (ports t) p <$> all)).
Proof.
  intros Hp Hn Ht. apply search_all; [done|]. intros j l Hj. split; [by apply offsets_port|].
  destruct (checkPort g p t (Z.of_nat j)) as [[|]| | |] eqn:E; [by left| |exfalso..].
  1: { right. split; [done|]. apply found_nil. intros v (e & He & Hs)%list_elem_of_omap.
       destruct e as [[p' t'|p' t'|p' t'] v']; try discriminate Hs. cbn in Hs. case_decide; [|discriminate Hs].
       injection Hs as -> ->. subst t'. rewrite (check_port_in j l p t v Hj Ht He) in E. discriminate E. }
  all: unfold checkPort in E; rewrite (filter_of_ok j l Hj) in E; cbn [mbind res_bind] in E;
    unfold getPort in E; cbn [has_bitmap block_filter negb] in E;
    destruct Ht as [-> | ->]; cbn [port_offset reading_col block_filter] in E;
    rewrite get_cell in E; try discriminate E; try (apply (bt_wf _ _ _ _ _ _ Hb)); try lia;
    change PORT_BIT_LEN with 65536; lia.
Qed.

Lemma search_ip4 p t : 0 < zlen all <= READ_SIZE -> t = SRCIP \/ t = DSTIP ->
  searchIPv4 hash_str hash_u64 g dev p t 4 4 = Ok (concat (found (ipv4s t) p <$> all)).
Proof.
  intros Hn Ht. apply search_all; [done|]. intros j l Hj. split; [by apply offsets_ip4|].
  pose proof (getIPv4_prefix_Ok (Z.of_nat j) p t 4 ltac:(lia)) as Hok.
  destruct (checkIPv4 hash_str hash_u64 g p t 4 (Z.of_nat j)) as [[|]| | |] eqn:E; [by left| |exfalso..].
  1: { right. split; [done|]. apply found_nil. intros v (e & He & Hs)%list_elem_of_omap.
       destruct e as [[p' t'|p' t'|p' t'] v']; try discriminate Hs. cbn in Hs. case_decide; [|discriminate Hs].
       injection Hs as -> ->. subst t'. rewrite (check_ip4_in j l p t v Hj Ht He) in E. discriminate E. }
  all: unfold checkIPv4 in E; rewrite (filter_of_ok j l Hj) in E; cbn [mbind res_bind] in E;
    rewrite E in Hok; discriminate Hok.
Qed.

Lemma search_ip6 p t : 0 < zlen all <= READ_SIZE -> t = SRCIPv6 \/ t = DSTIPv6 ->
  searchIPv6 hash_str hash_u64 g dev p t 16 16 = Ok (concat (found (ipv6s t) p <$> all)).
Proof.
  intros Hn Ht. apply search_all; [done|]. intros j l Hj. split; [by apply offsets_ip6|].
  pose proof (getIPv6_prefix_Ok (Z.of_nat j) p t 16 ltac:(lia)) as Hok.
  destruct (checkIPv6 hash_str hash_u64 g p t 16 (Z.of_nat j)) as [[|]| | |] eqn:E; [by left| |exfalso..].
  1: { right. split; [done|]. apply found_nil. intros v (e & He & Hs)%list_elem_of_omap.
       destruct e as [[p' t'|p' t'|p' t'] v']; try discriminate Hs. cbn in Hs. case_decide; [|discriminate Hs].
       injection Hs as -> ->. subst t'. rewrite (check_ip6_in j l p t v Hj Ht He) in E. discriminate E. }
  all: unfold checkIPv6 in E; rewrite (filter_of_ok j l Hj) in E; cbn [mbind res_bind] in E;
    rewrite E in Hok; discriminate Hok.
Qed.

(** ** The records with a key *)
Definition positions_of (key : fkey) (l : list (list entry)) : list Z :=
  (filter (fun e : entry => e.1 = key) (concat l)).*2.

Lemma found_positions {K} `{CppKeyLaws K} (sel : entry -> option (K * Z)) (k : K) (key : fkey) l :
  (forall e r, sel e = Some r -> r.1 = k -> e = (key, r.2)) ->
  (forall v, sel (key, v) = Some (k, v)) ->
  found (omap sel) k l ≡ₚ (filter (fun e : entry => e.1 = key) l).*2.
Proof.
  intros H1 H2. unfold found. destruct (AnswerProofs.list_sort_spec (filter (fun r => key_eq r.1 k = true) (omap sel l)).*2) as [_ ->].
  assert (E : (filter (fun r : K * Z => key_eq r.1 k = true) (omap sel l)).*2 = (filter (fun e : entry => e.1 = key) l).*2); [|by rewrite E].
  induction l as [|[k' v] l IH]; [done|]. cbn [omap list_omap].
  rewrite (filter_cons (fun e : entry => e.1 = key)). destruct (sel (k', v)) as [r|] eqn:E.
  - rewrite filter_cons. destruct (decide (key_eq r.1 k = true)) as [Hk|Hk].
    + apply key_eq_spec in Hk. specialize (H1 _ _ E Hk). injection H1 as -> ->.
      rewrite decide_True by done. rewrite !fmap_cons. by f_equal.
    + rewrite decide_False; [done|]. cbn. intros ->. rewrite H2 in E. injection E as <-.
      apply Hk. by apply key_eq_spec.
  - rewrite decide_False; [done|]. cbn. intros ->. by rewrite H2 in E.
Qed.

Lemma found_all {K} `{CppKeyLaws K} (sel : entry -> option (K * Z)) (k : K) (key : fkey) (ls : list (list entry)) :
  (forall e r, sel e = Some r -> r.1 = k -> e = (key, r.2)) ->
  (forall v, sel (key, v) = Some (k, v)) ->
  concat (found (omap sel) k <$> ls) ≡ₚ positions_of key ls.
Proof.
  intros H1 H2. unfold positions_of. induction ls as [|l ls IH]; [done|].
  rewrite fmap_cons. cbn [concat]. rewrite filter_app, fmap_app. f_equiv; [by apply found_positions|done].
Qed.
End answers.

(** ** The index that [fill] leaves *)
Section filled.
Context (std_sort : forall K, CppKey K -> list (K * Z) -> list (K * Z)).
Context (std_sort_perm : forall K (H : CppKey K) l, CppKeyLaws K -> std_sort K H l ≡ₚ l).
Context (std_sort_sorted : forall K (H : CppKey K) l, CppKeyLaws K -> sorted_keys (std_sort K H l)).
Context (hash_str : list Z -> Z) (hash_u64 : Z -> Z).
Context (uninit : Z -> list Z) (zlen_uninit : forall n, 0 <= n -> zlen (uninit n) = n).

Lemma entries_fine blk : Forall record_fine blk -> Forall entry_ok (entries blk).
Proof.
  intros H. unfold entries. apply Forall_bind. eapply Forall_impl; [exact H|]. intros r Hr.
  unfold entries_of. apply Forall_fmap. eapply Forall_impl; [apply (keys_wf r Hr)|].
  intros k [Hk _]. split; [done|apply Hr].
Qed.

Lemma blocks_entries_fine bs : forall n, blocks_ok n bs -> Forall (Forall entry_ok) (entries <$> bs).
Proof.
  induction bs as [|blk bs IH]; intros n; cbn [blocks_ok]; [constructor|].
  intros (_ & Hf & Hb). rewrite fmap_cons. constructor; [|by eapply IH].
  apply entries_fine. eapply Forall_impl; [exact Hf|]. by intros r [? _].
Qed.

Lemma blocks_fine bs : forall n (j : nat) blk r, blocks_ok n bs -> bs !! j = Some blk -> r ∈ blk -> record_fine r.
Proof.
  induction bs as [|b bs IH]; intros n [|j] blk r Hok Hj Hr; try done; destruct Hok as (_ & Hf & Hok).
  - injection Hj as ->. rewrite Forall_forall in Hf. by apply Hf.
  - by eapply (IH (n + 1) j).
Qed.

(** What the three selections select. *)
Ltac selects :=
  [> intros [[? ?|? ?|? ?] ?] ?; try done; cbn; case_decide; [|done]; intros [= <-]; cbn; congruence
   | intros ?; cbn; by rewrite decide_True ].

Lemma lookup_spec g dev all :
  built std_sort hash_str hash_u64 g dev all -> Forall (Forall entry_ok) all -> 0 < zlen all <= READ_SIZE ->
  (forall p t, is_u 16 p -> t = SRCPORT \/ t = DSTPORT ->
     exists v, searchPort g dev p t = Ok v /\ v ≡ₚ positions_of (KPort p t) all) /\
  (forall ip t, t = SRCIP \/ t = DSTIP ->
     exists v, searchIPv4 hash_str hash_u64 g dev ip t 4 4 = Ok v /\ v ≡ₚ positions_of (KIPv4 ip t) all) /\
  (forall ip t, t = SRCIPv6 \/ t = DSTIPv6 ->
     exists v, searchIPv6 hash_str hash_u64 g dev ip t 16 16 = Ok v /\ v ≡ₚ positions_of (KIPv6 ip t) all).
Proof.
  intros Hb Hall Hn. split; [|split]; intros p t; [intros Hp|..]; intros Ht.
  - rewrite (search_port std_sort std_sort_perm std_sort_sorted hash_str hash_u64 g dev all Hb Hall p t) by (done || apply Hp).
    eexists. split; [done|]. apply (found_all (sel_port t) p (KPort p t)); selects.
  - rewrite (search_ip4 std_sort std_sort_perm std_sort_sorted hash_str hash_u64 g dev all Hb Hall p t) by done.
    eexists. split; [done|]. apply (found_all (sel_ip4 t) p (KIPv4 p t)); selects.
  - rewrite (search_ip6 std_sort std_sort_perm std_sort_sorted hash_str hash_u64 g dev all Hb Hall p t) by done.
    eexists. split; [done|]. apply (found_all (sel_ip6 t) p (KIPv6 p t)); selects.
Qed.

(** C7: the experiment's index is complete and exact.  For index records of
    consecutive disk blocks, at most 72 of them, [fill] succeeds; then for each
    block and each index type the part that a lookup reads back from the device
    is exactly the block's (key, position) records of that type, sorted by key,
    and the filter of the block answers for every key of the block's records. *)
Theorem fill_builds_index s0 bs dev :
  init true = Ok s0 -> bs <> [] -> blocks_ok 0 bs -> zlen bs <= 72 -> zlen (concat bs) < 2 ^ 50 ->
  buffered (pread dev (72 * zlen (concat bs)) INDEX_OFFSET) 0 (concat bs) ->
  exists g dev', fill std_sort hash_str hash_u64 uninit (72 * zlen (concat bs)) s0 dev = Ok (g, dev') /\
    forall (j : nat) blk, bs !! j = Some blk ->
    (forall t, t = SRCPORT \/ t = DSTPORT -> exists s, 
       (fst <$> read_part g dev' t (Z.of_nat j)) = Ok (@records_enc Z key2 s) /\
       s ≡ₚ ports t (entries blk) /\ sorted_keys s) /\
    (forall t, t = SRCIP \/ t = DSTIP -> exists s,
       (fst <$> read_part g dev' t (Z.of_nat j)) = Ok (@records_enc Z key4 s) /\
       s ≡ₚ ipv4s t (entries blk) /\ sorted_keys s) /\
    (forall t, t = SRCIPv6 \/ t = DSTIPv6 -> exists s,
       (fst <$> read_part g dev' t (Z.of_nat j)) = Ok (@records_enc IPv6Address key16 s) /\
       s ≡ₚ ipv6s t (entries blk) /\ sorted_keys s) /\
    forall r, r ∈ blk -> Forall (fun k => match k with
      | KPort p t => checkPort g p t (Z.of_nat j) = Ok true
      | KIPv4 ip t => checkIPv4 hash_str hash_u64 g ip t 4 (Z.of_nat j) = Ok true
      | KIPv6 ip t => checkIPv6 hash_str hash_u64 g ip t 16 (Z.of_nat j) = Ok true end) (keys_of r).
Proof.
  intros Hs0 Hne Hok Hnb Hnr Hbuf.
  destruct (fill_spec std_sort std_sort_perm hash_str hash_u64 uninit zlen_uninit s0 bs dev)
    as (g & dev' & E & Hb & _ & _); [done..|].
  exists g, dev'. split; [done|]. intros j blk Hj.
  pose proof (blocks_entries_fine bs 0 Hok) as Hall.
  assert (Hl : (entries <$> bs) !! j = Some (entries blk)) by (by rewrite list_lookup_fmap, Hj).
  assert (Hrp : forall t, t <> TOTAL_INDEX -> (fst <$> read_part g dev' t (Z.of_nat j)) = Ok (region std_sort (entries blk) t)).
  { intros t Ht. by rewrite (read_part_spec std_sort hash_str hash_u64 g dev' _ Hb j _ t Hl Ht). }
  split; [|split; [|split]].
  - intros t Ht. eexists. rewrite Hrp, region_port by (done || (destruct Ht; congruence)).
    split; [reflexivity|]. split; [apply std_sort_perm|apply std_sort_sorted]; apply _.
  - intros t Ht. eexists. rewrite Hrp, region_ip4 by (done || (destruct Ht; congruence)).
    split; [reflexivity|]. split; [apply std_sort_perm|apply std_sort_sorted]; apply _.
  - intros t Ht. eexists. rewrite Hrp, region_ip6 by (done || (destruct Ht; congruence)).
    split; [reflexivity|]. split; [apply std_sort_perm|apply std_sort_sorted]; apply _.
  - intros r Hr. assert (Hfine : record_fine r) by (by eapply (blocks_fine bs 0)).
    pose proof (keys_wf r Hfine) as Hkt. rewrite Forall_forall in Hkt.
    apply Forall_forall. intros k Hk. destruct (Hkt k Hk) as [_ Ht].
    assert (He : (k, r.1.1) ∈ entries blk).
    { unfold entries. apply list_elem_of_bind. exists r. split; [|done]. unfold entries_of.
      apply list_elem_of_fmap. eauto. }
    destruct k as [p t|p t|p t].
    + eapply (check_port_in std_sort); eauto. destruct t; try discriminate Ht; auto.
    + eapply (check_ip4_in std_sort); eauto. destruct t; try discriminate Ht; auto.
    + eapply (check_ip6_in std_sort); eauto. destruct t; try discriminate Ht; auto.
Qed.

(** C8: a lookup finds all records with its key.  On an index that [fill] built
    from at most 1024 blocks, the search for a port, an IPv4 or an IPv6 address
    over all blocks, which skips the blocks whose filter refuses the key,
    returns the positions of exactly the records with the key, each as often as
    it has one; in particular the search for a stored key is never empty. *)
Theorem lookups_find_all_records g dev all :
  built std_sort hash_str hash_u64 g dev all -> Forall (Forall entry_ok) all -> 0 < zlen all <= READ_SIZE ->
  (forall p t, is_u 16 p -> t = SRCPORT \/ t = DSTPORT ->
     exists v, searchPort g dev p t = Ok v /\ v ≡ₚ positions_of (KPort p t) all) /\
  (forall ip t, t = SRCIP \/ t = DSTIP ->
     exists v, searchIPv4 hash_str hash_u64 g dev ip t 4 4 = Ok v /\ v ≡ₚ positions_of (KIPv4 ip t) all) /\
  (forall ip t, t = SRCIPv6 \/ t = DSTIPv6 ->
     exists v, searchIPv6 hash_str hash_u64 g dev ip t 16 16 = Ok v /\ v ≡ₚ positions_of (KIPv6 ip t) all).
Proof.
  intros Hb Hall Hn. apply (lookup_spec g dev all Hb Hall Hn).
Qed.
End filled.

(** * An index of two records *)
Module DemoQueryTest.
Definition r1 : stored := (24, mkMeta [1; 0; 0; 10] [2; 0; 0; 10] 1000 80, 4).
Definition r2 : stored := (2 ^ 30 + 5, mkMeta (replicate 16 7) (replicate 16 9) 2000 443, 16).

Definition record_bytes (r : stored) : list Z :=
  let m := r.1.2 in
  le_bytes 8 0 ++ le_bytes 8 0 ++ le_bytes 8 r.1.1 ++ le_bytes 8 0
  ++ sourceAddress m ++ DemoHandler.zeros (16 - r.2) ++ destinationAddress m ++ DemoHandler.zeros (16 - r.2)
  ++ le_bytes 2 (sourcePort m) ++ le_bytes 2 (destinationPort m) ++ le_bytes 4 r.2.

Definition demo_blocks : list (list stored) := [[r1]; [r2]].
Definition demo_device : device := pwrite DemoHandler.empty_disk INDEX_OFFSET (record_bytes r1 ++ record_bytes r2).

Lemma demo_blocks_ok : blocks_ok 0 demo_blocks.
Proof.
  unfold demo_blocks, blocks_ok, r1, r2.
  repeat split; try discriminate; repeat constructor; cbn; auto; try (split; [reflexivity|]); repeat constructor; done.
Qed.

Lemma demo_buffered : buffered (pread demo_device 144 INDEX_OFFSET) 0 (concat demo_blocks).
Proof. intros [|[|i]] r H; [injection H as <-; vm_compute; reflexivity..|done]. Qed.

Lemma fill_builds_index_witness : exists s0 g dev',
  init true = Ok s0 /\
  fill IndexProofs.insertion_sort demo_hash id DemoHandler.zeros 144 s0 demo_device = Ok (g, dev') /\
  checkPort g 1000 SRCPORT 0 = Ok true /\
  exists s, fst <$> read_part g dev' DSTPORT 1 = Ok (@records_enc Z key2 s) /\ s ≡ₚ [(443, 2 ^ 30 + 5)].
Proof.
  destruct (init_ok IndexProofs.insertion_sort) as (b0 & Ei & _). exists (mkFill b0 [] [] (cols IndexProofs.insertion_sort [] [])).
  destruct (fill_builds_index IndexProofs.insertion_sort IndexProofs.insertion_sort_perm
    IndexProofs.insertion_sort_sorted demo_hash id DemoHandler.zeros DemoHandler.zlen_zeros
    _ demo_blocks demo_device Ei) as (g & dev' & Ef & H).
  - discriminate.
  - apply demo_blocks_ok.
  - vm_compute. discriminate.
  - vm_compute. reflexivity.
  - apply demo_buffered.
  - exists g, dev'. split; [exact Ei|]. split; [exact Ef|]. split.
    + destruct (H 0%nat [r1] eq_refl) as (_ & _ & _ & Hk). specialize (Hk r1 (list_elem_of_here _ _)).
      rewrite Forall_forall in Hk. apply (Hk (KPort 1000 SRCPORT)). vm_compute. right. right. left.
    + destruct (H 1%nat [r2] eq_refl) as (Hp & _). destruct (Hp DSTPORT (or_intror eq_refl)) as (s & Es & Hs & _).
      exists s. split; [exact Es|exact Hs].
Defined.

Lemma lookups_find_all_records_witness : exists g dev' v,
  built IndexProofs.insertion_sort demo_hash id g dev' (entries <$> demo_blocks) /\
  searchPort g dev' 443 DSTPORT = Ok v /\ v ≡ₚ [2 ^ 30 + 5].
Proof.
  destruct (init_ok IndexProofs.insertion_sort) as (b0 & Ei & _).
  destruct (fill_spec IndexProofs.insertion_sort IndexProofs.insertion_sort_perm demo_hash id
    DemoHandler.zeros DemoHandler.zlen_zeros _ demo_blocks demo_device Ei) as (g & dev' & _ & Hb & _).
  - discriminate.
  - apply demo_blocks_ok.
  - vm_compute. discriminate.
  - vm_compute. reflexivity.
  - apply demo_buffered.
  - destruct (lookups_find_all_records IndexProofs.insertion_sort IndexProofs.insertion_sort_perm
      IndexProofs.insertion_sort_sorted demo_hash id g dev' (entries <$> demo_blocks) Hb) as (Hp & _).
    + apply (blocks_entries_fine _ 0), demo_blocks_ok.
    + split; vm_compute; [reflexivity|discriminate].
    + destruct (Hp 443 DSTPORT) as (v & Ev & Hv); [split; vm_compute; [discriminate|reflexivity]|by right|].
      exists g, dev', v. split; [exact Hb|]. split; [exact Ev|exact Hv].
Defined.

(** A prefix lookup can miss the record it was made from: the shifts count
    bytes instead of bits, so that for an odd address the range ends before it. *)
Lemma prefix_misses_own_record b :
  let g := mkGlobals [] b [] [[(0, 12)]] in
  let dev := pwrite DemoHandler.empty_disk index_block_offset (@records_enc Z key4 [(5, 24)]) in
  getOffsetByIPv4 g dev 5 SRCIP 3 0 = Ok [] /\ getOffsetByIPv4 g dev 5 SRCIP 4 0 = Ok [24].
Proof. split; vm_compute; reflexivity. Qed.

(** A prefix of 8 bytes shifts by the word's width. *)
Lemma ipv6_prefix_8_undefined ip : ipv6_range ip 8 = Undef.
Proof. reflexivity. Qed.
End DemoQueryTest.
