(* ===== verification/Offline.v ===== *)
(** * The offline programs together (experiment/dataHandler.cpp, queryTest.cpp)

    The query experiment runs on the disk that the data handler prepared.  The
    links in the packet headers, the index records, the per-block filters and
    sorted parts, the search and the walk along the links compose: looking up a
    port or an address and reading the packets counts exactly the packets of
    the capture file that carry it. *)
From stdpp Require Import sorting.
From S2P Require Import Prelude Util Aggregator BitMap PrefixBloom BlockBuffer Reader Querier DataHandler QueryFill QueryTest.
From Stdlib Require Import ZArith Lia.
Import Handler.

(** The data areas of the two programs are the same. *)
Lemma data_area : QueryTest.DATA_OFFSET = Handler.DATA_OFFSET.
Proof. done. Qed.

Lemma u64_add_l a b : u64 (u64 a + b) = u64 (a + b).
Proof. unfold u64, wrap. apply Zplus_mod_idemp_l. Qed.

(** ** Following the links of one chain *)

(** The bytes counted for packets. *)
Definition caplens (l : list placed) : Z := foldr (fun y n => zlen (c_data y.2) + n) 0 l.

Lemma caplens_cons x l : caplens (x :: l) = zlen (c_data x.2) + caplens l.
Proof. done. Qed.

Lemma caplens_app a b : caplens (a ++ b) = caplens a + caplens b.
Proof. induction a as [|x a IH]; [done|]. rewrite <-app_comm_cons, !caplens_cons, IH. lia. Qed.

Lemma caplens_perm a b : a ≡ₚ b -> caplens a = caplens b.
Proof. intros H. induction H; rewrite ?caplens_cons; lia. Qed.

(** The next packet of a chain is the one at the stored distance. *)
Lemma next_follow x later :
  Forall (fun y : placed => x.1 < y.1 < MAX64) later -> 0 <= x.1 ->
  (next_diff (to_pkt x) (to_pkt <$> later) = MAX32 /\ follow x later = []) \/
  (exists l1 p l2, later = l1 ++ p :: l2 /\ next_diff (to_pkt x) (to_pkt <$> later) = p.1 - x.1 /\
     0 < p.1 - x.1 <= BUFFER_SIZE /\ follow x later = p :: follow p l2).
Proof.
  intros Hl Hx. induction later as [|p later IH]; [by left|]. apply Forall_cons in Hl as [Hp Hl].
  rewrite fmap_cons. cbn [next_diff follow]. fold (flow_key p) (flow_key x).
  destruct (decide (flow_key p = flow_key x)).
  - destruct (near (to_pkt x) (to_pkt p)) eqn:E; [|by left]. right. exists [], p, later.
    split; [done|]. split; [done|]. split; [|done].
    unfold near, close in E. cbn [p_offset to_pkt] in E. apply andb_true_iff in E as [E _].
    rewrite (proj2 (Z.leb_gt p.1 x.1)) in E by lia. unfold MAX64 in Hp. rewrite u64_small in E by lia.
    cbn [offsetThreshold aggregator new_PacketAggregator] in E. zbool. unfold BUFFER_SIZE. lia.
  - destruct (IH Hl) as [[E1 E2]|(l1 & q & l2 & -> & E1 & E2 & E3)]; [by left|right].
    exists (p :: l1), q, l2. done.
Qed.

Section disk.
Context (dev : device) (pre : list Z) (cs : list capture).
Context (Hpre : zlen pre = 24) (Hok : Forall cap_ok cs) (Hsize : 24 + size cs <= 16 * BUFFER_SIZE).
Context (Hdev : pread dev (24 + size cs) DATA_OFFSET = pre ++ linked (place 24 cs)).

Lemma linked_split ds : forall off a x b, place off ds = a ++ x :: b ->
  exists u, linked (place off ds) = u ++ rec_bytes (next_diff (to_pkt x) (to_pkt <$> b)) x.2 ++ linked b /\
    zlen u = x.1 - off.
Proof.
  induction ds as [|d ds IH]; intros off [|y a] x b E; cbn [place] in *; try discriminate E.
  - injection E as <- <-. exists []. split; [done|]. change (zlen []) with 0. cbn. lia.
  - injection E as <- E. destruct (IH _ a x b E) as (u & Eu & Hu).
    exists (rec_bytes (next_diff (to_pkt (off, d)) (to_pkt <$> place (off + 16 + zlen (c_data d)) ds)) d ++ u).
    rewrite linked_cons, Eu, <-!app_assoc, zlen_app, zlen_rec_bytes. split; [done|lia].
Qed.

Lemma place_sorted ds : forall off a x b, place off ds = a ++ x :: b ->
  Forall (fun y : placed => x.1 < y.1) b.
Proof.
  induction ds as [|d ds IH]; intros off [|y a] x b E; cbn [place] in *; try discriminate E.
  - injection E as <- <-. apply Forall_forall. intros y Hy%place_lt. cbn. pose proof (zlen_nonneg (c_data d)). lia.
  - injection E as <- E. by eapply IH.
Qed.

Lemma place_in a x b : place 24 cs = a ++ x :: b ->
  24 <= x.1 /\ x.1 + 16 <= 24 + size cs /\ Forall (fun y : placed => x.1 < y.1 < MAX64) b /\ hdr_ok x.2.
Proof.
  intros E. assert (Hx : x ∈ place 24 cs) by (rewrite E; apply elem_of_app; right; left).
  pose proof (place_lt _ _ _ Hx). pose proof (zlen_nonneg (c_data x.2)).
  split; [lia|]. split; [lia|]. split.
  - pose proof (place_sorted _ _ _ _ _ E) as Hs. apply Forall_forall. intros y Hy. rewrite Forall_forall in Hs.
    assert (Hy' : y ∈ place 24 cs) by (rewrite E; apply elem_of_app; right; by right).
    apply place_lt in Hy'. pose proof (zlen_nonneg (c_data y.2)). unfold MAX64, BUFFER_SIZE in *. specialize (Hs y Hy). lia.
  - apply place_captures in Hx. rewrite Forall_forall in Hok. apply (ok_hdr _ (Hok _ Hx)).
Qed.

Lemma load_pread (n : nat) d m off k :
  0 <= k -> k + Z.of_nat n <= m -> load n (pread d m off) k = Ok (le_val (pread d (Z.of_nat n) (off + k))).
Proof.
  intros Hk Hm. unfold load. rewrite zread_Ok by (rewrite ?zlen_pread; lia).
  cbn [mbind res_bind]. by rewrite pread_sub by lia.
Qed.

Lemma header_read a x b : place 24 cs = a ++ x :: b -> 
  load 4 (pread dev 4096 (DATA_OFFSET + x.1)) 8 = Ok (zlen (c_data x.2)) /\
  (is_u 32 (next_diff (to_pkt x) (to_pkt <$> b)) ->
   load 4 (pread dev 4096 (DATA_OFFSET + x.1)) 12 = Ok (next_diff (to_pkt x) (to_pkt <$> b))).
Proof.
  intros E. destruct (place_in a x b E) as (H1 & H2 & _ & Hh).
  destruct (linked_split cs 24 a x b E) as (u & Eu & Hu).
  set (d := next_diff _ _) in *. rewrite !load_pread by (change (Z.of_nat 4) with 4; lia).
  change (Z.of_nat 4) with 4. rewrite <-!Z.add_assoc.
  rewrite <-!(pread_sub dev (24 + size cs)) by lia. rewrite Hdev, Eu. unfold rec_bytes.
  set (h := le_bytes 4 (c_ts_h x.2) ++ le_bytes 4 (c_ts_l x.2)). set (n := le_bytes 4 (zlen (c_data x.2))).
  assert (Hz : zlen (pre ++ u ++ h) = x.1 + 8).
  { rewrite !zlen_app. unfold h. rewrite zlen_app, !zlen_le_bytes. lia. }
  split; [|intros Hd]; f_equal.
  - replace (pre ++ u ++ _) with ((pre ++ u ++ h) ++ n ++ le_bytes 4 d ++ c_data x.2 ++ linked b)
      by (by rewrite <-!app_assoc).
    rewrite zslice_here by (done || lia). apply le_val_le_bytes, Hh.
  - replace (pre ++ u ++ _) with ((pre ++ u ++ h ++ n) ++ le_bytes 4 d ++ c_data x.2 ++ linked b)
      by (by rewrite <-!app_assoc).
    rewrite zslice_here; [by apply le_val_le_bytes| |done].
    rewrite !zlen_app in *. unfold n. rewrite zlen_le_bytes. lia.
Qed.

(** The walk counts the chain. *)
Lemma follow_links_chain n : forall a x b pc bc fuel,
  place 24 cs = a ++ x :: b -> (length b <= n)%nat -> (n < fuel)%nat ->
  follow_links dev fuel x.1 pc bc =
    Ok (u64 (pc + zlen (x :: follow x b)), u64 (bc + caplens (x :: follow x b))).
Proof.
  induction n as [|n IH]; intros a x b pc bc fuel E Hn Hf; (destruct fuel as [|fuel]; [lia|]);
    destruct (place_in a x b E) as (H1 & H2 & Hs & Hh); destruct (header_read a x b E) as [R1 R2];
    cbn [follow_links]; rewrite data_area, R1; cbn [mbind res_bind];
    destruct (next_follow x b Hs) as [[En Ef]|(l1 & p & l2 & -> & En & Hd & Ef)]; try lia.
  1, 3: rewrite R2 by (rewrite En; done); rewrite En, Ef; cbn [mbind res_bind]; rewrite Z.eqb_refl; cbn [orb];
    rewrite caplens_cons; change (zlen [x]) with 1; change (caplens []) with 0; do 2 f_equal; f_equal; lia.
  - rewrite length_app in Hn. simpl in Hn. lia.
  - unfold BUFFER_SIZE in *. rewrite R2 by (rewrite En; unfold is_u; lia). rewrite En. cbn [mbind res_bind].
    rewrite (proj2 (Z.eqb_neq (p.1 - x.1) MAX32)), (proj2 (Z.eqb_neq (p.1 - x.1) 0)) by (unfold MAX32; lia).
    cbn [orb].
    rewrite u64_small by lia. replace (x.1 + (p.1 - x.1)) with p.1 by lia.
    rewrite length_app in Hn. cbn [length] in Hn.
    rewrite (IH (a ++ x :: l1) p l2); [|by rewrite <-app_assoc|lia|lia].
    rewrite !u64_add_l, Ef, (zlen_cons x), (caplens_cons x). do 2 f_equal; f_equal; lia.
Qed.

(** ** Reading the chains *)
Definition is_chain (ch : list placed) : Prop :=
  exists a x b, place 24 cs = a ++ x :: b /\ ch = x :: follow x b.

Definition chain_start (ch : list placed) : Z := match ch with x :: _ => x.1 | [] => 0 end.

Lemma read_chains chs : forall fuel pc bc,
  Forall is_chain chs -> (length cs < fuel)%nat -> is_u 64 pc -> is_u 64 bc ->
  read_offsets dev fuel (chain_start <$> chs) pc bc =
    Ok (u64 (pc + zlen (concat chs)), u64 (bc + caplens (concat chs))).
Proof.
  induction chs as [|ch chs IH]; intros fuel pc bc Hc Hf Hp Hb.
  - cbn [fmap list_fmap read_offsets concat]. change (zlen []) with 0. change (caplens []) with 0.
    by rewrite !Z.add_0_r, !u64_small.
  - apply Forall_cons in Hc as [(a & x & b & E & ->) Hc]. rewrite fmap_cons.
    cbn [read_offsets chain_start]. assert (Hl : (length b < length cs)%nat).
    { assert (Hp' : forall ds off, length (place off ds) = length ds).
      { induction ds as [|d ds IHd]; intros off; [done|]. cbn. by rewrite IHd. }
      rewrite <-(Hp' cs 24), E, length_app. simpl. lia. }
    rewrite (follow_links_chain (length b) a x b) by (done || lia). cbn [mbind res_bind concat].
    rewrite IH by (done || apply u64_range). rewrite zlen_app, caplens_app, !u64_add_l.
    do 2 f_equal; f_equal; lia.
Qed.

(** The chains of the index records. *)
Lemma chains_are past ps ch : forall a, place 24 cs = a ++ ps -> ch ∈ chains past ps -> is_chain ch.
Proof.
  revert past. induction ps as [|x ps IH]; intros past a E; cbn [chains]; [by intros ?%elem_of_nil|].
  assert (Hr : ch ∈ chains (past ++ [to_pkt x]) ps -> is_chain ch).
  { intros H. refine (IH _ (a ++ [x]) _ H). by rewrite <-app_assoc. }
  case_test; [|done]. intros [-> | H]%elem_of_cons; [by exists a, x, ps|by apply Hr].
Qed.
End disk.

(** ** The packets of a flow *)
Lemma follow_flow x y later : y ∈ follow x later -> flow_key y = flow_key x.
Proof.
  revert x. induction later as [|p later IH]; intros x; cbn [follow]; [by intros ?%elem_of_nil|].
  case_decide as Ep; [|by apply IH]. case_test; [|by intros ?%elem_of_nil].
  intros [-> | H%IH]%elem_of_cons; congruence.
Qed.

(** The index record of a packet as [fill] takes it, and the keys of its flow. *)
Definition stored_of (x : placed) : stored :=
  (x.1, flow_of x.2, zlen (sourceAddress (flow_of x.2))).

Definition carries (key : fkey) (x : placed) : Prop := key ∈ keys_of (stored_of x).

#[export] Instance carries_dec key x : Decision (carries key x).
Proof. unfold carries. apply _. Defined.

Lemma carries_flow key x y : flow_key x = flow_key y -> carries key x <-> carries key y.
Proof. unfold flow_key, carries, stored_of. cbn [p_meta to_pkt]. by intros ->. Qed.

Definition head_carries (key : fkey) (ch : list placed) : Prop :=
  match ch with x :: _ => carries key x | [] => False end.

#[export] Instance head_carries_dec key ch : Decision (head_carries key ch).
Proof. destruct ch; cbn; apply _. Defined.

(** The packets with a key are those of the chains whose head has it. *)
Lemma chains_filter cs key chs :
  Forall (is_chain cs) chs ->
  filter (carries key) (concat chs) = concat (filter (head_carries key) chs).
Proof.
  induction 1 as [|ch chs (a & x & b & _ & ->) _ IH]; [done|]. cbn [concat].
  rewrite filter_app, IH, (filter_cons (head_carries key)). cbn [head_carries].
  assert (Hsame : Forall (fun y => carries key y <-> carries key x) (x :: follow x b)).
  { constructor; [done|]. apply Forall_forall. intros y Hy%follow_flow. by apply carries_flow. }
  case_decide as Hx.
  - cbn [concat]. f_equal. apply filter_every. intros y Hy. rewrite Forall_forall in Hsame. by apply Hsame.
  - rewrite filter_none; [done|]. intros y Hy Hk. rewrite Forall_forall in Hsame. by apply Hx, (Hsame y Hy).
Qed.

(** ** The index records read back *)
Lemma zread_at {A} (a b c : list A) o n : o = zlen a -> n = zlen b -> zread (a ++ b ++ c) o n = Ok b.
Proof.
  intros Ho Hn. pose proof (zlen_nonneg a). pose proof (zlen_nonneg b). pose proof (zlen_nonneg c).
  rewrite zread_Ok by (rewrite ?zlen_app; lia). by rewrite zslice_here.
Qed.

Lemma zread_prefix {A} (l : list A) m o n : 0 <= n -> 0 <= o -> o + n <= m <= zlen l ->
  zread (zslice 0 m l) o n = zread l o n.
Proof.
  intros. rewrite !zread_Ok by (rewrite ?zlen_zslice; lia). by rewrite zslice_zslice by lia.
Qed.


Lemma zread_in {A} (a e b : list A) o n x : zread e o n = Ok x -> zread (a ++ e ++ b) (zlen a + o) n = Ok x.
Proof.
  unfold zread at 1. case_test; [|done]. zbool. intros [= <-].
  pose proof (zlen_nonneg a). pose proof (zlen_nonneg b).
  rewrite zread_Ok by (rewrite ?zlen_app; lia). f_equal.
  rewrite <-(zslice_zslice o n (zlen a) (zlen e)) by lia. by rewrite zslice_here.
Qed.

Lemma load_index_in (a e b : list Z) r : load_index e 0 = Ok r -> load_index (a ++ e ++ b) (zlen a) = Ok r.
Proof.
  assert (L : forall n off x, load n e (0 + off) = Ok x -> load n (a ++ e ++ b) (zlen a + off) = Ok x).
  { intros n off x Hx. apply load_in; [by apply load_nonneg in Hx|done]. }
  assert (Z : forall n off x, zread e (0 + off) n = Ok x -> zread (a ++ e ++ b) (zlen a + off) n = Ok x).
  { intros n off x. apply zread_in. }
  unfold load_index. intros (p & Ep & E)%bind_Ok_iff. rewrite (L _ _ _ Ep). cbn [mbind res_bind].
  apply bind_Ok_iff in E as (v & Ev & E). rewrite (L _ _ _ Ev). cbn [mbind res_bind].
  do 2 (let x := fresh in let Ex := fresh in
        apply bind_Ok_iff in E as (x & Ex & E); rewrite (Z _ _ _ Ex); cbn [mbind res_bind]).
  do 2 (let x := fresh in let Ex := fresh in
        apply bind_Ok_iff in E as (x & Ex & E); rewrite (L _ _ _ Ex); cbn [mbind res_bind]).
  done.
Qed.

(** Ports and addresses that come from packet bytes have their widths. *)
Lemma htons_word z : is_u 16 (htons z).
Proof.
  apply (le_val_word 2); [apply Forall_rev, le_bytes_bytes|]. unfold zlen. by rewrite length_rev.
Qed.

Lemma flow_words buf pm m :
  getFlowMetaData buf pm = Ok m ->
  (is_u 16 (sourcePort m) /\ is_u 16 (destinationPort m)) /\
  Forall (is_u 8) (sourceAddress m) /\ Forall (is_u 8) (destinationAddress m).
Proof.
  unfold getFlowMetaData. intros (b0 & _ & E)%bind_Ok_iff.
  destruct (_ =? 4); [|destruct (_ =? 6)];
    repeat (apply bind_Ok_iff in E as (? & _ & E)); injection E as <-;
    cbn [sourceAddress destinationAddress sourcePort destinationPort]; unfold ipv6_bytes;
    (split; [try (split; apply htons_word)|]); rewrite ?Forall_app; auto using le_bytes_bytes.
  - split; apply (le_bytes_bytes 4).
  - done.
Qed.

(** Reading one of the segments of a record. *)
Lemma zread_seg (i : nat) (segs : list (list Z)) b o n :
  segs !! i = Some b -> o = zlen (concat (take i segs)) -> n = zlen b -> zread (concat segs) o n = Ok b.
Proof.
  intros Hi Ho Hn. rewrite <-(take_drop_middle segs i b Hi), concat_app. cbn [concat]. by apply zread_at.
Qed.

Lemma load_seg (i : nat) (segs : list (list Z)) n z o :
  segs !! i = Some (le_bytes n z) -> o = zlen (concat (take i segs)) -> is_u (8 * Z.of_nat n) z ->
  load n (concat segs) o = Ok z.
Proof.
  intros Hi Ho Hz. unfold load. rewrite (zread_seg i segs (le_bytes n z)); [|done|done|by rewrite zlen_le_bytes].
  cbn [mbind res_bind]. by rewrite le_val_le_bytes.
Qed.

(** The offset of a segment, by computation. *)
Ltac seg_offset :=
  cbn [take concat]; rewrite ?zlen_app, ?zlen_le_bytes, ?zlen_zslice by lia; change (zlen (@nil Z)) with 0; lia.

Lemma load_index_entry old x :
  cap_ok x.2 -> zlen old = 72 -> is_u 64 x.1 -> load_index (entry old x) 0 = Ok (stored_of x).
Proof.
  intros Hc Ho Hx. destruct (flow_lengths _ _ _ (ok_parse _ Hc) (ok_ip _ Hc)) as [Hd Hs].
  destruct (flow_words _ _ _ (ok_parse _ Hc)) as [[Hq1 Hq2] _].
  unfold stored_of, entry. set (m := flow_of x.2) in *. remember (zlen (sourceAddress m)) as n eqn:En.
  rewrite <-Hd. unfold load_index, at_position, at_version, at_sourceAddress, at_destinationAddress, at_sourcePort,
    at_destinationPort.
  match goal with |- context [load _ ?e _] => 
    let segs := constr:([le_bytes 8 (c_ts x.2); le_bytes 8 (div_BUFFER_SIZE x.1); le_bytes 8 x.1; le_bytes 8 0;
      sourceAddress m; zslice (32 + n) (16 - n) old; destinationAddress m; zslice (48 + n) (16 - n) old;
      le_bytes 2 (sourcePort m); le_bytes 2 (destinationPort m); le_bytes 4 n]) in
    replace e with (concat segs) by (cbn [concat]; by rewrite app_nil_r) end.
  rewrite (load_seg 2 _ 8 x.1) by (done || seg_offset). cbn [mbind res_bind].
  rewrite (load_seg 10 _ 4 n); [|done|seg_offset|change (Z.of_nat 4) with 4; unfold is_u; lia]. cbn [mbind res_bind].
  rewrite (zread_seg 4 _ (sourceAddress m) (0 + 32)) by (done || seg_offset). cbn [mbind res_bind].
  rewrite (zread_seg 6 _ (destinationAddress m) (0 + 48)) by (done || seg_offset). cbn [mbind res_bind].
  rewrite (load_seg 8 _ 2 (sourcePort m) (0 + 64)) by (done || seg_offset). cbn [mbind res_bind].
  rewrite (load_seg 9 _ 2 (destinationPort m) (0 + 66)) by (done || seg_offset). cbn [mbind res_bind].
  by destruct m.
Qed.

(** The index area holds the records of the chain heads. *)
Lemma entries_nth (hs : list placed) : forall old (i : nat) x,
  Forall (fun y : placed => cap_ok y.2) hs -> 72 * zlen hs <= zlen old -> hs !! i = Some x ->
  exists a e b, zslice 0 (72 * zlen hs) (Handler.entries old hs) = a ++ Handler.entry e x ++ b /\
    zlen a = 72 * Z.of_nat i /\ zlen e = 72.
Proof.
  induction hs as [|y hs IH]; intros old i x Hok Hl Hi; [done|].
  apply Forall_cons in Hok as [Hy Hok]. rewrite zlen_cons in *. pose proof (zlen_nonneg hs).
  assert (Ht : zlen (take 72 old) = 72) by (unfold zlen in *; rewrite length_take; lia).
  assert (Hd : 72 * zlen hs <= zlen (drop 72 old)) by (unfold zlen in *; rewrite length_drop; lia).
  cbn [Handler.entries]. replace (72 * (1 + zlen hs)) with (72 + 72 * zlen hs) by lia.
  rewrite zslice_app by lia.
  set (rest := Handler.entries (drop 72 old) hs) in *.
  pose proof (zslice_here [] (entry (take 72 old) y) rest 0 72 eq_refl (eq_sym (zlen_entry _ _ Hy Ht))) as E.
  cbn [app] in E. rewrite E, (zslice_app_r _ rest (0 + 72)) by (by rewrite zlen_entry).
  destruct i as [|i].
  - injection Hi as ->. by exists [], (take 72 old), (zslice 0 (72 * zlen hs) rest).
  - destruct (IH _ i x Hok Hd Hi) as (a & e & b & E2 & Ha & He). fold rest in E2. rewrite E2.
    exists (entry (take 72 old) y ++ a), e, b. rewrite <-!app_assoc.
    split; [done|]. split; [|done]. rewrite zlen_app, zlen_entry by done. lia.
Qed.

Lemma heads_buffered (hs : list placed) old :
  Forall (fun y : placed => cap_ok y.2 /\ is_u 64 y.1) hs -> 72 * zlen hs <= zlen old ->
  buffered (zslice 0 (72 * zlen hs) (Handler.entries old hs)) 0 (stored_of <$> hs).
Proof.
  intros Hok Hl i r Hr. rewrite list_lookup_fmap in Hr. destruct (hs !! i) as [x|] eqn:Ei; [|done].
  injection Hr as <-. pose proof (Forall_lookup_1 _ _ _ _ Hok Ei) as [Hx Hx1].
  destruct (entries_nth hs old i x) as (a & e & b & -> & Ha & He); [|done|done|].
  { eapply Forall_impl; [exact Hok|]. by intros y [? _]. }
  change QueryFill.INDEX_ENUM_LEN with 72. rewrite Z.add_0_l, <-Ha.
  apply load_index_in, load_index_entry; done.
Qed.

Lemma stored_fine x : cap_ok x.2 -> is_u 64 x.1 -> record_fine (stored_of x).
Proof.
  intros Hc Hx. destruct (flow_lengths _ _ _ (ok_parse _ Hc) (ok_ip _ Hc)) as [Hd Hs].
  destruct (flow_words _ _ _ (ok_parse _ Hc)) as (Hq & Hb1 & Hb2).
  unfold stored_of. split; cbn [fst snd]; try done; by split.
Qed.

(** Chain heads grouped by their disk block, no block being empty. *)
Fixpoint grouped (n : Z) (bs : list (list placed)) : Prop :=
  match bs with
  | [] => True
  | blk :: bs => blk <> [] /\ Forall (fun x : placed => x.1 / data_block_size = n) blk /\ grouped (n + 1) bs
  end.

Definition block_records (bs : list (list placed)) : list (list stored) := (fun blk : list placed => stored_of <$> blk) <$> bs.

Lemma grouped_ok bs : forall n,
  grouped n bs -> Forall (fun y : placed => cap_ok y.2 /\ is_u 64 y.1) (concat bs) ->
  blocks_ok n (block_records bs).
Proof.
  induction bs as [|blk bs IH]; intros n; [done|]. intros (Hne & Hn & Hg) [Hb Hbs]%Forall_app.
  unfold block_records in *. rewrite fmap_cons. split; [by destruct blk|]. split; [|by apply IH].
  apply Forall_fmap. eapply Forall_impl; [apply Forall_and; split; [exact Hn|exact Hb]|].
  intros x [E [Hc Hx]]. split; [by apply stored_fine|done].
Qed.

Lemma grouped_count bs m : forall n,
  grouped n bs -> Forall (fun y : placed => y.1 / data_block_size < m) (concat bs) -> 0 <= n <= m -> n + zlen bs <= m.
Proof.
  induction bs as [|blk bs IH]; intros n Hg Hm Hn; [change (zlen []) with 0; lia|].
  destruct Hg as (Hne & Hb & Hg). cbn [concat] in Hm. apply Forall_app in Hm as [Hm1 Hm2].
  destruct blk as [|x blk]; [done|]. apply Forall_cons in Hb as [Hx _]. apply Forall_cons in Hm1 as [Hx' _].
  specialize (IH (n + 1) Hg Hm2). rewrite zlen_cons. lia.
Qed.

Lemma block_records_concat bs : concat (block_records bs) = stored_of <$> concat bs.
Proof.
  unfold block_records. induction bs as [|blk bs IH]; [done|]. rewrite fmap_cons. cbn [concat].
  by rewrite fmap_app, IH.
Qed.

(** ** Looking up a key and reading its packets *)
Definition search_key (hash_str : list Z -> Z) (hash_u64 : Z -> Z) (g : Globals) (dev : device) (key : fkey)
  : res (list Z) :=
  match key with
  | KPort p t => searchPort g dev p t
  | KIPv4 ip t => searchIPv4 hash_str hash_u64 g dev ip t 4 4
  | KIPv6 ip t => searchIPv6 hash_str hash_u64 g dev ip t 16 16
  end.

(** A record has a key once, so that a lookup finds each record once. *)
Lemma key_once r key : filter (fun e : QueryFill.entry => e.1 = key) (entries_of r) =
  if decide (key ∈ keys_of r) then [(key, r.1.1)] else [].
Proof.
  assert (H : forall l, NoDup l -> filter (fun e : QueryFill.entry => e.1 = key) ((fun k => (k, r.1.1)) <$> l : list QueryFill.entry) =
    if decide (key ∈ l) then [(key, r.1.1) : QueryFill.entry] else []).
  { induction l as [|k l IH]; [done|]. intros [Hk Hd]%NoDup_cons. rewrite fmap_cons, filter_cons, IH by done.
    cbn [fst]. destruct (decide (k = key)) as [->|Hne].
    - rewrite (decide_False (P := key ∈ l)), decide_True by (done || left). done.
    - destruct (decide (key ∈ l)) as [Hl|Hl]; [rewrite decide_True by (by right)|rewrite decide_False]; try done.
      intros [?|?]%elem_of_cons; congruence. }
  unfold entries_of. apply H. destruct r as [[p m] v]. unfold keys_of.
  case_test; repeat (apply NoDup_cons; split; [set_solver|]); apply NoDup_nil_2.
Qed.

Lemma positions_heads key (bs : list (list placed)) :
  positions_of key (QueryFill.entries <$> block_records bs) =
    (fun x : placed => x.1) <$> filter (carries key) (concat bs).
Proof.
  unfold positions_of. assert (E : concat (QueryFill.entries <$> block_records bs) = (stored_of <$> concat bs) ≫= entries_of).
  { unfold block_records. induction bs as [|blk bs IH]; [done|]. rewrite !fmap_cons. cbn [concat].
    rewrite IH, fmap_app, bind_app. done. }
  rewrite E. clear E. induction (concat bs) as [|x l IH]; [done|]. rewrite fmap_cons. cbn [mbind list_bind].
  rewrite filter_app, fmap_app, IH, key_once, (filter_cons (carries key)).
  destruct (decide (carries key x)) as [Hx|Hx]; [rewrite decide_True by exact Hx|rewrite decide_False by exact Hx]; done.
Qed.

Lemma size_count cs : zlen cs <= size cs /\ zlen (place 24 cs) = zlen cs.
Proof.
  split; [|].
  - induction cs as [|c cs IH]; [done|]. rewrite zlen_cons, size_cons. pose proof (zlen_nonneg (c_data c)). lia.
  - generalize 24. induction cs as [|c cs IH]; intros off; [done|]. cbn [place]. by rewrite !zlen_cons, IH.
Qed.

Lemma caplens_size cs off : caplens (place off cs) <= size cs.
Proof.
  revert off. induction cs as [|c cs IH]; intros off; [done|]. cbn [place]. rewrite caplens_cons, size_cons.
  specialize (IH (off + 16 + zlen (c_data c))). cbn [snd]. lia.
Qed.

Lemma filter_bounds (P : placed -> Prop) `{!forall x, Decision (P x)} l :
  zlen (filter P l) <= zlen l /\ 0 <= caplens (filter P l) <= caplens l.
Proof.
  induction l as [|x l [IH1 IH2]]; [done|]. rewrite filter_cons. pose proof (zlen_nonneg (c_data x.2)).
  case_decide; rewrite ?zlen_cons, ?caplens_cons; lia.
Qed.

(** Reading the records found for a key counts the packets with the key. *)
Lemma read_found dev pre cs key v (fuel : nat) :
  zlen pre = 24 -> Forall cap_ok cs -> 24 + size cs <= 16 * BUFFER_SIZE ->
  pread dev (24 + size cs) DATA_OFFSET = pre ++ linked (place 24 cs) -> (length cs < fuel)%nat ->
  v ≡ₚ (fun x : placed => x.1) <$> filter (carries key) (heads [] (place 24 cs)) ->
  QueryTest.readPacket dev fuel v =
    Ok (zlen (filter (carries key) (place 24 cs)), caplens (filter (carries key) (place 24 cs))).
Proof.
  intros Hp Hok Hs Hd Hf Hv. set (chs := chains [] (place 24 cs)).
  assert (Hc : Forall (is_chain cs) chs).
  { apply Forall_forall. intros ch Hch. by apply (chains_are cs [] (place 24 cs) ch []). }
  assert (Ev : (fun x : placed => x.1) <$> filter (carries key) (heads [] (place 24 cs)) =
    chain_start <$> filter (head_carries key) chs).
  { rewrite chains_heads. fold chs. clear -Hc. induction Hc as [|ch l (a & x & b & _ & ->) _ IH]; [done|].
    cbn [omap list_omap head]. rewrite filter_cons, (filter_cons (head_carries key)). cbn [head_carries].
    destruct (decide (carries key x)); by rewrite ?fmap_cons, IH. }
  rewrite Ev in Hv. apply Permutation_map_inv in Hv as (chs' & -> & Hperm).
  assert (Hc' : Forall (is_chain cs) chs').
  { rewrite <-Hperm. apply Forall_forall. intros ch [_ Hch]%list_elem_of_filter. rewrite Forall_forall in Hc. auto. }
  unfold QueryTest.readPacket. change (map chain_start chs') with (chain_start <$> chs').
  rewrite (read_chains dev pre cs Hp Hok Hs Hd chs' fuel 0 0) by (done || lia).
  assert (Hall : concat chs' ≡ₚ filter (carries key) (place 24 cs)).
  { rewrite <-Hperm, <-(chains_filter cs key chs Hc). unfold chs. by rewrite chains_partition by
      (apply offsets_not_max; unfold MAX64, BUFFER_SIZE in *; lia). }
  rewrite !Z.add_0_l, (caplens_perm _ _ Hall). unfold zlen at 1. rewrite (Permutation_length Hall). fold (zlen (filter (carries key) (place 24 cs))).
  pose proof (size_count cs) as [Hn1 Hn2]. pose proof (caplens_size cs 24).
  pose proof (filter_bounds (carries key) (place 24 cs)) as [Hb1 Hb2].
  pose proof (zlen_nonneg (filter (carries key) (place 24 cs))). unfold BUFFER_SIZE in Hs.
  by rewrite !u64_small by lia.
Qed.

Section pipeline.
Context (std_sort : forall K, CppKey K -> list (K * Z) -> list (K * Z)).
Context (std_sort_perm : forall K (H : CppKey K) l, CppKeyLaws K -> std_sort K H l ≡ₚ l).
Context (std_sort_sorted : forall K (H : CppKey K) l, CppKeyLaws K -> sorted_keys (std_sort K H l)).
Context (hash_str : list Z -> Z) (hash_u64 : Z -> Z).
Context (uninit : Z -> list Z) (zlen_uninit : forall n, 0 <= n -> zlen (uninit n) = n).

Lemma heads_fine cs : Forall cap_ok cs -> 24 + size cs <= 16 * BUFFER_SIZE ->
  Forall (fun y : placed => (cap_ok y.2 /\ is_u 64 y.1) /\ y.1 / data_block_size < 16) (heads [] (place 24 cs)).
Proof.
  intros Hok Hs. apply Forall_forall. intros y Hy%heads_sub.
  pose proof (place_lt _ _ _ Hy). pose proof (zlen_nonneg (c_data y.2)). apply place_captures in Hy.
  rewrite Forall_forall in Hok. unfold BUFFER_SIZE in Hs. split; [split; [by apply Hok|unfold is_u; lia]|].
  apply Z.div_lt_upper_bound; unfold data_block_size; lia.
Qed.

Lemma heads_nonempty cs : cs <> [] -> heads [] (place 24 cs) <> [].
Proof. destruct cs as [|c cs]; [done|]. intros _. done. Qed.

(** The lookups that [fill]'s index answers, by key. *)
Lemma search_key_found g dev key (bs : list (list placed)) :
  built std_sort hash_str hash_u64 g dev (QueryFill.entries <$> block_records bs) ->
  blocks_ok 0 (block_records bs) -> 0 < zlen bs <= READ_SIZE -> fkey_wf key -> key_type_ok key = true ->
  exists v, search_key hash_str hash_u64 g dev key = Ok v /\
    v ≡ₚ (fun x : placed => x.1) <$> filter (carries key) (concat bs).
Proof.
  intros Hb Hok Hn Hw Ht. rewrite <-(positions_heads key bs).
  set (all := QueryFill.entries <$> block_records bs) in *.
  assert (Hz : zlen all = zlen bs) by (unfold all, block_records, zlen; by rewrite !length_fmap).
  destruct (lookup_spec std_sort std_sort_perm std_sort_sorted hash_str hash_u64 g dev all Hb) as (L1 & L2 & L3);
    [by apply (blocks_entries_fine _ 0)|by rewrite Hz|].
  destruct key as [p t|p t|p t]; cbn [search_key].
  - apply L1; [done|]. destruct t; try discriminate Ht; auto.
  - apply L2. destruct t; try discriminate Ht; auto.
  - apply L3. destruct t; try discriminate Ht; auto.
Qed.

(** The index that the source is compiled for. *)
Lemma shipped_index_size : QueryFill.INDEX_SIZE = INDEX_ENUM_LEN * 1829019.
Proof. reflexivity. Qed.

(** C5: the offline programs compose.  The data handler prepares the device from
    a capture file of IP packets, of at most 16 GiB and with at most 1 GiB of
    index records, whose flows start in consecutive disk blocks from block 0
    on, without a block in which none starts ([grouped]); [fill],
    in a query test compiled with an INDEX_SIZE of 72 bytes for each flow of
    this capture, then builds its index from the records that it finds there;
    and for every port, IPv4 and IPv6 address, whether a packet carries it or
    not, looking it up and reading the packets along the links counts exactly
    the packets of the file that carry it, and exactly their captured bytes.
    The value that the source is compiled with, [QueryFill.INDEX_SIZE], belongs to
    a capture of 1829019 flows ([shipped_index_size]). *)
Theorem offline_pipeline_counts_packets (fuel : nat) pre cs dev s0 bs index_size :
  zlen pre = 24 -> Forall cap_ok cs -> cs <> [] -> 24 + size cs <= 16 * BUFFER_SIZE ->
  72 * zlen (heads [] (place 24 cs)) <= BUFFER_SIZE -> (length cs < fuel)%nat ->
  concat bs = heads [] (place 24 cs) -> grouped 0 bs -> init true = Ok s0 ->
  index_size = INDEX_ENUM_LEN * zlen (heads [] (place 24 cs)) ->
  exists dev1 g dev2,
    Handler.main uninit fuel (Some (pre ++ concat (raw <$> cs))) (Some dev) = Ok (0, Some dev1) /\
    fill std_sort hash_str hash_u64 uninit index_size s0 dev1 = Ok (g, dev2) /\
    forall key, fkey_wf key -> key_type_ok key = true ->
      exists v, search_key hash_str hash_u64 g dev2 key = Ok v /\
        QueryTest.readPacket dev2 fuel v =
          Ok (zlen (filter (carries key) (place 24 cs)), caplens (filter (carries key) (place 24 cs))).
Proof.
  intros Hp Hok Hne Hs Hh Hf Hbs Hg Hs0 ->. change INDEX_ENUM_LEN with 72.
  destruct (handler_writes uninit zlen_uninit fuel pre cs dev Hp Hok Hs Hh Hf) as (dev1 & Em & Ed & Ei).
  pose proof (heads_fine cs Hok Hs) as Hfine. pose proof (heads_nonempty cs Hne) as Hne'.
  set (hs := heads [] (place 24 cs)) in *. rewrite <-Hbs in Hfine.
  assert (Hblk : blocks_ok 0 (block_records bs)).
  { apply grouped_ok; [done|]. eapply Forall_impl; [exact Hfine|]. by intros y [? _]. }
  assert (Hn : 0 + zlen bs <= 16).
  { apply grouped_count; [done| |lia]. eapply Forall_impl; [exact Hfine|]. by intros y [_ ?]. }
  assert (Hbne : bs <> []) by (intros ->; by rewrite <-Hbs in Hne').
  assert (Hpos : 0 < zlen bs) by (destruct bs; [done|]; rewrite zlen_cons; pose proof (zlen_nonneg bs); lia).
  assert (Hrec : concat (block_records bs) = stored_of <$> hs) by (by rewrite block_records_concat, Hbs).
  assert (Hlen : zlen (concat (block_records bs)) = zlen hs) by (rewrite Hrec; unfold zlen; by rewrite length_fmap).
  destruct (fill_spec std_sort std_sort_perm hash_str hash_u64 uninit zlen_uninit s0 (block_records bs) dev1)
    as (g & dev2 & Ef & Hb & _ & Hbelow); try done.
  - unfold block_records. by destruct bs.
  - unfold block_records, zlen. rewrite length_fmap. unfold zlen in Hn. lia.
  - rewrite Hlen. unfold BUFFER_SIZE in Hh. lia.
  - rewrite Hlen, Hrec. change QueryFill.INDEX_OFFSET with Handler.INDEX_OFFSET. rewrite Ei.
    apply heads_buffered; [|by rewrite zlen_uninit].
    rewrite <-Hbs. eapply Forall_impl; [exact Hfine|]. by intros y [? _].
  - rewrite Hlen in Ef. exists dev1, g, dev2. split; [done|]. split; [done|]. intros key Hw Ht.
    destruct (search_key_found g dev2 key bs Hb Hblk) as (v & Ev & Hv); [unfold READ_SIZE; lia|done|done|].
    exists v. split; [done|]. rewrite Hbs in Hv. apply (read_found dev2 pre); try done.
    rewrite <-Ed. apply pread_ext. intros a Ha. apply Hbelow.
    unfold DATA_OFFSET, BUFFER_SIZE, index_block_offset in *. lia.
Qed.
End pipeline.

(** * The capture file with two flows, looked up by port 80 *)
Module DemoOffline.
Import DemoHandler.

Lemma demo_port_80 :
  let hits := filter (carries (KPort 80 DSTPORT)) (place 24 [f1; g1; f2]) in
  zlen hits = 2 /\ caplens hits = 79.
Proof. vm_compute. split; reflexivity. Qed.

Lemma offline_pipeline_counts_packets_witness : exists s0 dev1 g dev2 v,
  init true = Ok s0 /\
  Handler.main zeros 4 (Some (file_header ++ concat (raw <$> [f1; g1; f2]))) (Some empty_disk) = Ok (0, Some dev1) /\
  fill IndexProofs.insertion_sort demo_hash id zeros 144 s0 dev1 = Ok (g, dev2) /\
  search_key demo_hash id g dev2 (KPort 80 DSTPORT) = Ok v /\
  QueryTest.readPacket dev2 4 v = Ok (2, 79).
Proof.
  destruct (init_ok IndexProofs.insertion_sort) as (b0 & Ei & _).
  destruct (offline_pipeline_counts_packets IndexProofs.insertion_sort IndexProofs.insertion_sort_perm
    IndexProofs.insertion_sort_sorted demo_hash id zeros zlen_zeros 4 file_header [f1; g1; f2] empty_disk
    (mkFill b0 [] [] (cols IndexProofs.insertion_sort [] [])) [[(24, f1); (81, g1)]] 144) as (dev1 & g & dev2 & Em & Ef & H).
  - reflexivity.
  - apply demo_ok.
  - discriminate.
  - vm_compute. discriminate.
  - rewrite demo_heads. vm_compute. discriminate.
  - simpl. lia.
  - rewrite demo_heads. reflexivity.
  - split; [discriminate|]. split; [repeat constructor|exact I].
  - exact Ei.
  - rewrite demo_heads. reflexivity.
  - destruct (H (KPort 80 DSTPORT)) as (v & Ev & Er); [split; vm_compute; [discriminate|reflexivity]|reflexivity|].
    rewrite (proj1 demo_port_80), (proj2 demo_port_80) in Er.
    exists (mkFill b0 [] [] (cols IndexProofs.insertion_sort [] [])), dev1, g, dev2, v.
    split; [exact Ei|]. split; [exact Em|]. split; [exact Ef|]. split; [exact Ev|exact Er].
Defined.
End DemoOffline.
