(* ===== verification/BloomTest.v ===== *)
(** * The filter experiment (experiment/bloomTest.cpp)

    The addresses of the first disk block's index records go into a prefix
    filter, into plain Bloom filters, together with their suffixes in memory,
    and into tries of their bytes, which are the truth.  Random addresses are
    then looked up by prefixes of every length, and the answers of the filters
    are counted as true and false positives or negatives.

    IPv4 and IPv6 run the same code on their own structures; the class
    [Family] holds what differs.  Random draws are arguments; printed errors
    are counted; printing is left out. *)
From S2P Require Import Prelude Util BitMap PrefixBloom BlockBuffer Reader Bloom DataHandler QueryFill QueryTest.
From Stdlib Require Import ZArith Lia.

Definition QUERY_TIMES : Z := 10000.

(** ** Address families *)
Class Family (K : Type) := {
  NBytes : Z;
  get_byte : K -> Z -> res Z;
  of_c_str : list Z -> res K;
  mem_bytes : K -> list Z;
  src_type : IndexType;
  dst_type : IndexType;
  to_key : K -> IndexType -> fkey;
  get_prefix : (list Z -> Z) -> (Z -> Z) -> PrefixBloomFilter -> BitMap -> K -> IndexType -> Z -> res bool }.

(** The address type of these is given. *)
Arguments NBytes K {_}.
Arguments src_type K {_}.
Arguments dst_type K {_}.

(** [addr >> n] on a word of [w] bits, undefined for other [n]. *)
Definition shr (w addr n : Z) : res Z := if (n <? 0) || (w <=? n) then Undef else Ok (Z.shiftr addr n).

Definition get_byte_ipv4 (addr i : Z) : res Z := b ← shr 32 addr (24 - 8 * i); Ok (Z.land b 0xFF).

Definition get_byte_ipv6 (addr : IPv6Address) (i : Z) : res Z :=
  if i <? 8 then b ← shr 64 (high addr) (56 - 8 * i); Ok (Z.land b 0xFF)
  else let j := i - 8 in b ← shr 64 (low addr) (56 - 8 * j); Ok (Z.land b 0xFF).

#[export] Instance ipv4_family : Family Z := {|
  NBytes := 4; get_byte := get_byte_ipv4; of_c_str := c_str_IPv4; mem_bytes := le_bytes 4;
  src_type := SRCIP; dst_type := DSTIP; to_key := KIPv4; get_prefix := getIPv4_prefix |}.

#[export] Instance ipv6_family : Family IPv6Address := {|
  NBytes := 16; get_byte := get_byte_ipv6; of_c_str := c_str_IPv6; mem_bytes := ipv6_bytes;
  src_type := SRCIPv6; dst_type := DSTIPv6; to_key := KIPv6; get_prefix := getIPv6_prefix |}.

(** ** The trie of bytes *)
Inductive TrieNode := Trie (is_end : bool) (child : Z -> option TrieNode).

Definition child (node : TrieNode) : Z -> option TrieNode := let '(Trie _ c) := node in c.
Definition is_end (node : TrieNode) : bool := let '(Trie e _) := node in e.

Definition new_TrieNode : TrieNode := Trie false (fun _ => None).

Definition set_child (node : TrieNode) (b : Z) (next : TrieNode) : TrieNode :=
  Trie (is_end node) (fun c => if c =? b then Some next else child node c).

Section trie.
Context {K : Type} `{Family K}.

(** The loop of [insert] from byte [i] on. *)
Fixpoint insert_at (n : nat) (i : Z) (addr : K) (node : TrieNode) : res TrieNode :=
  match n with
  | O => Ok node
  | S n =>
      b ← get_byte addr i;
      let next := match child node b with Some c => c | None => new_TrieNode end in
      next ← insert_at n (i + 1) addr next;
      Ok (set_child node b next)
  end.

Definition trie_insert (root : TrieNode) (addr : K) : res TrieNode :=
  insert_at (Z.to_nat (NBytes K)) 0 addr root.

(** The loops of [contains] and [contains_prefix]. *)
Fixpoint descend (n : nat) (i : Z) (addr : K) (node : TrieNode) : res bool :=
  match n with
  | O => Ok true
  | S n =>
      b ← get_byte addr i;
      match child node b with Some c => descend n (i + 1) addr c | None => Ok false end
  end.

Definition trie_contains (root : TrieNode) (addr : K) : res bool :=
  descend (Z.to_nat (NBytes K)) 0 addr root.
Definition contains_prefix (root : TrieNode) (addr : K) (depth : Z) : res bool :=
  descend (Z.to_nat depth) 0 addr root.
End trie.

(** [free_node]: how many nodes are deleted. *)
Fixpoint free_node (node : TrieNode) : Z :=
  match node with
  | Trie _ c => foldr (fun i n => match c i with Some next => free_node next + n | None => n end) 1 (zseq 256)
  end.

(** [has_ip]; the test that would answer yes is commented out. *)
Fixpoint has_ip (node : TrieNode) : bool :=
  match node with
  | Trie _ c => existsb (fun i => match c i with Some next => has_ip next | None => false end) (zseq 256)
  end.

(** [std::string::substr]. *)
Definition substr (s : list Z) (pos n : Z) : res (list Z) :=
  if zlen s <? pos then Throws else Ok (zslice pos (Z.min n (zlen s - pos)) s).

(** ** The filters *)
Record Side := mkSide { s_filter : BloomFilter; s_tree : TrieNode }.

(** The structures of one family, and all of them with the prefix filter. *)
Record Sides := mkSides { srcs : Side; dsts : Side }.

Record Filters := mkFilters {
  f_bitmap : BitMap;
  prefixFilter : PrefixBloomFilter;
  v4 : Sides;
  v6 : Sides;
  f_errors : Z;
  f_count : Z }.

(** The parts that the code for a family works on. *)
Record Work := mkWork { w_bitmap : BitMap; w_sides : Sides; w_errors : Z }.

Definition new_side (bits : Z) : Side := mkSide (new_BloomFilter (bits / 8) hash_num) new_TrieNode.

(** [init]; [mmap_ok] is whether the matrix can be mapped. *)
Definition init (mmap_ok : bool) : res Filters :=
  b ← new_BitMap mmap_ok (u64 ((PORT_BIT_LEN + IPV4_BIT_LEN + IPV6_BIT_LEN) * 2))
        (data_disk_size / data_block_size) bitmap_backup_col_num;
  let f := setWritingCol (setReadingCol (PrefixBloom.init new_PBF hash_num) b 0) b 0 in
  Ok (mkFilters b f (mkSides (new_side IPV4_BIT_LEN) (new_side IPV4_BIT_LEN))
                    (mkSides (new_side IPV6_BIT_LEN) (new_side IPV6_BIT_LEN)) 0 4).

Section experiment.
Context (hash_str : list Z -> Z) (hash_u64 : Z -> Z).

(** [a && b] of two answers. *)
Definition and_then (a b : res bool) : res bool := v ← a; if v : bool then b else Ok false.

(** [if(!ok) printf("error...")]. *)
Definition expect (ok : res bool) (errors : Z) : res Z := v ← ok; Ok (if v : bool then errors else errors + 1).

Section family.
Context {K : Type} `{Family K}.

(** The prefix filter's part of an index record. *)
Definition into_prefix_filter (f : PrefixBloomFilter) (w : Work) (src dst : K) : res Work :=
  '(_, b) ← insert_key hash_str hash_u64 f (w_bitmap w) (to_key src (src_type K));
  '(_, b) ← insert_key hash_str hash_u64 f b (to_key dst (dst_type K));
  e ← expect (and_then (query_key hash_str hash_u64 f b (to_key src (src_type K)))
                       (query_key hash_str hash_u64 f b (to_key dst (dst_type K)))) (w_errors w);
  Ok (mkWork b (w_sides w) e).

(** Two strings into the plain filters. *)
Definition into_filters (w : Work) (src dst : list Z) : res Work :=
  let '(mkSides s d) := w_sides w in
  fs ← Bloom.insert hash_str (s_filter s) src;
  fd ← Bloom.insert hash_str (s_filter d) dst;
  e ← expect (and_then (contains hash_str fs src) (contains hash_str fd dst)) (w_errors w);
  Ok (mkWork (w_bitmap w) (mkSides (mkSide fs (s_tree s)) (mkSide fd (s_tree d))) e).

Definition into_trees (w : Work) (src dst : K) : res Work :=
  let '(mkSides s d) := w_sides w in
  ts ← trie_insert (s_tree s) src;
  td ← trie_insert (s_tree d) dst;
  e ← expect (and_then (trie_contains ts src) (trie_contains td dst)) (w_errors w);
  Ok (mkWork (w_bitmap w) (mkSides (mkSide (s_filter s) ts) (mkSide (s_filter d) td)) e).

(** The loop over [i]: the suffixes, and the checks of the prefixes. *)
Definition suffix_turn (f : PrefixBloomFilter) (src_str dst_str : list Z) (src dst : K) (w : Work) (i : Z)
  : res Work :=
  s ← substr src_str i (u64 (zlen src_str - i));
  d ← substr dst_str i (u64 (zlen dst_str - i));
  w ← into_filters w s d;
  e ← expect (and_then (get_prefix hash_str hash_u64 f (w_bitmap w) src (src_type K) i)
                       (get_prefix hash_str hash_u64 f (w_bitmap w) dst (dst_type K) i)) (w_errors w);
  let '(mkSides ss sd) := w_sides w in
  e ← expect (and_then (contains_prefix (s_tree ss) src i) (contains_prefix (s_tree sd) dst i)) e;
  Ok (mkWork (w_bitmap w) (w_sides w) e).

Fixpoint suffix_turns (f : PrefixBloomFilter) (src_str dst_str : list Z) (src dst : K) (ids : list Z) (w : Work)
  : res Work :=
  match ids with
  | [] => Ok w
  | i :: ids => w ← suffix_turn f src_str dst_str src dst w i; suffix_turns f src_str dst_str src dst ids w
  end.

(** The branch of a record's family; [i] runs from 1 to [size() - 2]. *)
Definition add_addresses (f : PrefixBloomFilter) (src_str dst_str : list Z) (w : Work) : res Work :=
  src ← of_c_str src_str;
  dst ← of_c_str dst_str;
  w ← into_prefix_filter f w src dst;
  w ← into_filters w src_str dst_str;
  w ← into_trees w src dst;
  suffix_turns f src_str dst_str src dst
    (Z.add 1 <$> zseq (u64 (zlen src_str - 1) - 1)) w.
End family.

(** The body of [fill]'s loop for a record of block 0. *)
Definition add_index (s : Filters) (r : stored) : res Filters :=
  let '(_, meta, version) := r in
  if version =? 4 then
    w ← add_addresses (K := Z) (prefixFilter s) (sourceAddress meta) (destinationAddress meta)
          (mkWork (f_bitmap s) (v4 s) (f_errors s));
    Ok (mkFilters (w_bitmap w) (prefixFilter s) (w_sides w) (v6 s) (w_errors w) (u64 (f_count s + 1)))
  else
    w ← add_addresses (K := IPv6Address) (prefixFilter s) (sourceAddress meta) (destinationAddress meta)
          (mkWork (f_bitmap s) (v6 s) (f_errors s));
    Ok (mkFilters (w_bitmap w) (prefixFilter s) (v4 s) (w_sides w) (w_errors w) (u64 (f_count s + 1))).

(** [fill]'s loop, which ends at the first record of a later block. *)
Fixpoint fill_loop (fuel : nat) (buffer : list Z) (index_size i : Z) (s : Filters) : res Filters :=
  match fuel with
  | O => Blocks
  | S fuel =>
      if negb (i <? index_size) then Ok s else
      r ← load_index buffer i;
      if 0 <? r.1.1 / data_block_size then Ok s else
      s ← add_index s r;
      fill_loop fuel buffer index_size (i + INDEX_ENUM_LEN) s
  end.

(** [fill] of a program compiled with an INDEX_SIZE of [index_size]. *)
Definition fill (index_size : Z) (s : Filters) (dev : device) : res Filters :=
  let buffer := pread dev index_size INDEX_OFFSET in
  fill_loop (Z.to_nat (index_size / INDEX_ENUM_LEN) + 2) buffer index_size 0 s.

(** ** The queries *)
Record Counts := mkCounts { tp : Z; fp : Z; tf : Z }.

(** Prefix filter and plain filter, source and destination. *)
Record Score := mkScore { src_pf : Counts; dst_pf : Counts; src_bf : Counts; dst_bf : Counts }.

Definition no_counts : Counts := mkCounts 0 0 0.
Definition no_score : Score := mkScore no_counts no_counts no_counts no_counts.

(** The nested tests of one filter's answer and of the trie's. *)
Definition classify (answer truth : res bool) (c : Counts) : res Counts :=
  a ← answer;
  if a : bool then
    t ← truth;
    Ok (if t : bool then mkCounts (u64 (tp c + 1)) (fp c) (tf c) else mkCounts (tp c) (u64 (fp c + 1)) (tf c))
  else Ok (mkCounts (tp c) (fp c) (u64 (tf c + 1))).

Section queries.
Context {K : Type} `{Family K}.
Context (f : PrefixBloomFilter) (b : BitMap) (sides : Sides).

Definition query_whole (addr : K) (c : Score) : res Score :=
  let in_src := trie_contains (s_tree (srcs sides)) addr in
  let in_dst := trie_contains (s_tree (dsts sides)) addr in
  sp ← classify (query_key hash_str hash_u64 f b (to_key addr (src_type K))) in_src (src_pf c);
  dp ← classify (query_key hash_str hash_u64 f b (to_key addr (dst_type K))) in_dst (dst_pf c);
  let str := mem_bytes addr in
  sb ← classify (contains hash_str (s_filter (srcs sides)) str) in_src (src_bf c);
  db ← classify (contains hash_str (s_filter (dsts sides)) str) in_dst (dst_bf c);
  Ok (mkScore sp dp sb db).

Definition query_prefix (prefix_len : Z) (addr : K) (c : Score) : res Score :=
  let in_src := contains_prefix (s_tree (srcs sides)) addr prefix_len in
  let in_dst := contains_prefix (s_tree (dsts sides)) addr prefix_len in
  sp ← classify (get_prefix hash_str hash_u64 f b addr (src_type K) prefix_len) in_src (src_pf c);
  dp ← classify (get_prefix hash_str hash_u64 f b addr (dst_type K) prefix_len) in_dst (dst_pf c);
  str ← substr (mem_bytes addr) (u64 (NBytes K - prefix_len)) prefix_len;
  sb ← classify (contains hash_str (s_filter (srcs sides)) str) in_src (src_bf c);
  db ← classify (contains hash_str (s_filter (dsts sides)) str) in_dst (dst_bf c);
  Ok (mkScore sp dp sb db).

Definition query_turn (prefix_len : Z) (addr : K) (c : Score) : res Score :=
  if prefix_len =? (NBytes K) then query_whole addr c else query_prefix prefix_len addr c.

Fixpoint query_turns (prefix_len : Z) (addrs : list K) (c : Score) : res Score :=
  match addrs with
  | [] => Ok c
  | a :: addrs => c ← query_turn prefix_len a c; query_turns prefix_len addrs c
  end.

(** The loop variable is not initialised: [start] is the value it happens to
    have. *)
Definition query (start prefix_len : Z) (addrs : list K) : res Score :=
  query_turns prefix_len (take (Z.to_nat (QUERY_TIMES - start)) addrs) no_score.
End queries.

Definition query_ipv4 (s : Filters) (start prefix_len : Z) (addrs : list Z) : res Score :=
  query (prefixFilter s) (f_bitmap s) (v4 s) start prefix_len addrs.
Definition query_ipv6 (s : Filters) (start prefix_len : Z) (addrs : list IPv6Address) : res Score :=
  query (prefixFilter s) (f_bitmap s) (v6 s) start prefix_len addrs.

(** [main]: a query per prefix length; [starts], [draws4] and [draws6] give the
    loop variable and the random source of each call. *)
Definition main (index_size : Z) (starts : Z -> Z) (draws4 : Z -> list Z) (draws6 : Z -> list IPv6Address)
  (dev : device) : res (list Score * list Score) :=
  s ← init true;
  s ← fill index_size s dev;
  r4 ← mapM (fun i => query_ipv4 s (starts i) i (draws4 i)) (Z.add 1 <$> zseq 4);
  r6 ← mapM (fun i => query_ipv6 s (starts (4 + i)) i (draws6 i)) (Z.add 1 <$> zseq 16);
  Ok (r4, r6).
End experiment.

(** * Proofs *)

(** ** The trie holds paths *)
Fixpoint ins (l : list Z) (node : TrieNode) : TrieNode :=
  match l with
  | [] => node
  | b :: l => set_child node b (ins l (match child node b with Some c => c | None => new_TrieNode end))
  end.

Fixpoint reaches (l : list Z) (node : TrieNode) : bool :=
  match l with
  | [] => true
  | b :: l => match child node b with Some c => reaches l c | None => false end
  end.

Lemma reaches_ins l : forall bs node,
  reaches bs (ins l node) = reaches bs node || bool_decide (bs `prefix_of` l).
Proof.
  induction l as [|b l IH]; intros [|c bs] node; cbn [ins reaches].
  - done.
  - rewrite bool_decide_eq_false_2, orb_false_r; [done|]. intros [k Hk]. discriminate Hk.
  - done.
  - cbn [child set_child]. destruct (c =? b) eqn:E; zbool.
    + subst c. rewrite IH. assert (Hp : bool_decide (b :: bs `prefix_of` b :: l) = bool_decide (bs `prefix_of` l)).
      { apply bool_decide_ext. split; [apply prefix_cons_inv_2|apply prefix_cons]. }
      rewrite Hp. destruct (child node b); [done|]. destruct bs; [|done].
      cbn. symmetry. apply bool_decide_eq_true. apply prefix_nil.
    + rewrite (bool_decide_eq_false_2 (c :: bs `prefix_of` b :: l)), orb_false_r; [done|].
      intros Hp%prefix_cons_inv_1. congruence.
Qed.

Lemma reaches_all ls bs : bs <> [] ->
  reaches bs (foldl (fun t l => ins l t) new_TrieNode ls) = bool_decide (Exists (fun l => bs `prefix_of` l) ls).
Proof.
  intros Hbs. induction ls as [|l ls IH] using rev_ind.
  - by destruct bs.
  - rewrite foldl_app. cbn [foldl]. rewrite reaches_ins, IH. apply eq_iff_eq_true.
    rewrite orb_true_iff, !bool_decide_eq_true, Exists_app, Exists_cons, Exists_nil. tauto.
Qed.

(** [has_ip] never answers yes. *)
Lemma has_ip_never : forall node, has_ip node = false.
Proof.
  fix never 1. intros [e c]. cbn [has_ip]. induction (zseq 256) as [|i l IH]; [done|]. cbn [existsb].
  rewrite IH, orb_false_r. destruct (c i); [apply never|done].
Qed.

(** ** What the experiment relies on in a family *)
Definition path {K} `{Family K} (a : K) : list Z := rev (mem_bytes a).

Class FamilyLaws (K : Type) `{Family K} := {
  addr_ok : K -> Prop;
  decode : list Z -> K;
  NBytes_range : 2 < NBytes K < 2 ^ 31;
  zlen_mem_bytes (a : K) : zlen (mem_bytes a) = NBytes K;
  of_c_str_decode s : zlen s = NBytes K -> of_c_str s = Ok (decode s);
  decode_ok s : zlen s = NBytes K -> Forall (is_u 8) s -> addr_ok (decode s) /\ mem_bytes (decode s) = s;
  mem_bytes_inj (a b : K) : addr_ok a -> addr_ok b -> mem_bytes a = mem_bytes b -> a = b;
  get_byte_path (a : K) (i : nat) x : addr_ok a -> path a !! i = Some x -> get_byte a (Z.of_nat i) = Ok x;
  to_key_ok (a : K) t : addr_ok a -> t = (src_type K) \/ t = (dst_type K) ->
    fkey_wf (to_key a t) /\ key_type_ok (to_key a t) = true;
  query_answers hs hu f b (a : K) t : wf b -> 0 <= reading_col f ->
    is_Ok (query_key hs hu f b (to_key a t)) = true;
  prefix_answers hs hu f b (a : K) t n : wf b -> 0 <= reading_col f ->
    is_Ok (get_prefix hs hu f b a t n) = true;
  get_prefix_in hs hu (j : Z) b (a x : K) t n :
    wf b -> 0 <= j -> addr_ok a -> addr_ok x -> 0 <= n <= NBytes K -> t = (src_type K) \/ t = (dst_type K) ->
    holds hs hu b j (to_key x t) -> take (Z.to_nat n) (path a) = take (Z.to_nat n) (path x) ->
    get_prefix hs hu (block_filter j) b a t n = Ok true }.

Arguments NBytes_range K {_ _}.

(** Equal leading bytes of two numbers. *)
Lemma le_val_drop k l : Forall (is_u 8) l -> le_val (drop k l) = Z.shiftr (le_val l) (8 * Z.of_nat k).
Proof.
  revert l. induction k as [|k IH]; intros l Hl.
  - rewrite drop_0. by rewrite Z.shiftr_0_r.
  - destruct l as [|x l]; [by rewrite drop_nil, Z.shiftr_0_l|].
    apply Forall_cons in Hl as [Hx Hl]. cbn [drop le_val]. rewrite (IH l Hl).
    replace (8 * Z.of_nat (S k)) with (8 + 8 * Z.of_nat k) by lia.
    rewrite <-Z.shiftr_shiftr by lia. f_equal. rewrite Z.shiftr_div_pow2 by done. change (2 ^ 8) with 256.
    unfold is_u in Hx. change (2 ^ 8) with 256 in Hx.
    rewrite Z.mul_comm, Z.div_add by done. rewrite Z.div_small by lia. done.
Qed.

Lemma take_rev_drop {A} (l k : list A) n :
  length l = length k -> take n (rev l) = take n (rev k) -> drop (length l - n) l = drop (length l - n) k.
Proof.
  intros Hl E. rewrite !firstn_rev, Hl in E. apply (f_equal (@rev A)) in E. rewrite !rev_involutive in E.
  by rewrite Hl.
Qed.

Lemma shiftr_agree_path l k n N :
  Forall (is_u 8) l -> Forall (is_u 8) k -> zlen l = N -> zlen k = N -> 0 <= n <= N ->
  take (Z.to_nat n) (rev l) = take (Z.to_nat n) (rev k) ->
  Z.shiftr (le_val l) (8 * (N - n)) = Z.shiftr (le_val k) (8 * (N - n)).
Proof.
  intros Hl Hk Ll Lk Hn E. unfold zlen in *. apply take_rev_drop in E; [|lia].
  replace (N - n) with (Z.of_nat (length l - Z.to_nat n)) by lia.
  by rewrite <-!le_val_drop, E by done.
Qed.

Lemma land_byte z : Z.land z 0xFF = z mod 256.
Proof. change 0xFF with (Z.ones 8). by rewrite Z.land_ones. Qed.

Lemma nth_byte n z (i : nat) : (i < n)%nat -> le_bytes n z !! i = Some (Z.shiftr z (8 * Z.of_nat i) mod 256).
Proof.
  revert z i. induction n as [|n IH]; intros z [|i] Hi; try lia; cbn [le_bytes].
  - cbn. by rewrite Z.shiftr_0_r.
  - cbn [lookup list_lookup]. rewrite (IH _ i) by lia.
    replace (z / 256) with (Z.shiftr z 8) by (by rewrite Z.shiftr_div_pow2).
    rewrite Z.shiftr_shiftr by lia. do 3 f_equal. lia.
Qed.

Lemma shr_ok w z n : 0 <= n < w -> shr w z n = Ok (Z.shiftr z n).
Proof.
  intros. unfold shr. rewrite (proj2 (Z.ltb_ge n 0)), (proj2 (Z.leb_gt w n)) by lia. done.
Qed.

Lemma lookup_rev {A} (l : list A) (i : nat) x : rev l !! i = Some x ->
  (i < length l)%nat /\ l !! (length l - S i)%nat = Some x.
Proof.
  intros H. assert (Hi : (i < length l)%nat) by (apply lookup_lt_Some in H; by rewrite length_rev in H).
  split; [done|]. rewrite <-H, rev_alt. by rewrite <-reverse_lookup by done.
Qed.

Lemma ipv4_byte a (i : nat) x : rev (le_bytes 4 a) !! i = Some x -> get_byte_ipv4 a (Z.of_nat i) = Ok x.
Proof.
  intros [Hi H]%lookup_rev. rewrite length_le_bytes in *. unfold get_byte_ipv4.
  rewrite shr_ok by lia. cbn [mbind res_bind]. rewrite land_byte.
  rewrite nth_byte in H by lia. injection H as <-. do 3 f_equal. lia.
Qed.

(** Every query answers. *)
Lemma get_answers b r j : wf b -> 0 <= r -> 0 <= j -> is_Ok (get b r j) = true.
Proof. intros. by rewrite get_cell. Qed.

Ltac answers :=
  repeat first
    [ done | apply get_answers; [done|apply u64_range|done]
    | apply all_get_Ok; intros ? | apply any_get_Ok; intros ?
    | apply bind_Ok; [|intros ?]
    | match goal with
      | |- is_Ok (if ?b then _ else _) = true => destruct b
      | |- is_Ok (match ?o with Some _ => _ | None => _ end) = true => destruct o
      end ].

#[export] Instance ipv4_laws : FamilyLaws Z.
Proof.
  refine {| addr_ok := is_u 32; decode := le_val |}.
  - cbn. lia.
  - intros a. apply zlen_le_bytes.
  - intros s Hs. by apply c_str_IPv4_ok.
  - intros s Hs Hb. split; [by apply (le_val_word 4)|].
    change (le_bytes 4 (le_val s) = s).
    replace 4%nat with (length s) by (unfold zlen in Hs; cbn in Hs; lia). by apply le_bytes_le_val.
  - intros a b Ha Hb. apply (le_bytes_inj 4); done.
  - intros a i x _. apply ipv4_byte.
  - intros a t Ha [-> | ->]; by split.
  - intros hs hu f b a t Hb Hc. cbn. unfold getIPv4, checkIPv4, check4_slice, getBloom, bloom_row, ip4_row. answers.
  - intros hs hu f b a t n Hb Hc. cbn. unfold getIPv4_prefix, checkIPv4_prefix, check4_slice, getBloom, bloom_row, ip4_row.
    answers.
  - intros hs hu j b a x t n Hb Hj Ha Hx Hn Ht Hh Hp. cbn. unfold getIPv4_prefix. cbn [has_bitmap block_filter negb].
    assert (Ho : exists o, ip4_offset t = Some o) by (destruct Ht as [-> | ->]; eauto).
    destruct Ho as (o & Ho). rewrite Ho. specialize (Hh o Ho).
    apply (checkIPv4_prefix_in hs hu (block_filter j) (block_filter j) b x); try done.
    pose proof (shiftr_agree_path (le_bytes 4 a) (le_bytes 4 x) n 4) as E.
    rewrite !le_val_le_bytes in E by done. apply E; try done; apply Handler.le_bytes_bytes.
Defined.

Lemma le_val_ipv6 a : ipv6_wf a -> le_val (ipv6_bytes a) = ipv6_num a.
Proof.
  intros [Hl Hh]. unfold ipv6_bytes, ipv6_num. rewrite le_val_app, zlen_le_bytes, !le_val_le_bytes by done.
  change (8 * Z.of_nat 8) with 64. lia.
Qed.

Lemma ipv6_bytes_u8 a : Forall (is_u 8) (ipv6_bytes a).
Proof. apply Forall_app; split; apply Handler.le_bytes_bytes. Qed.

Lemma ipv6_byte a (i : nat) x : rev (ipv6_bytes a) !! i = Some x -> get_byte_ipv6 a (Z.of_nat i) = Ok x.
Proof.
  intros [Hi H]%lookup_rev. unfold ipv6_bytes in *. rewrite length_app, !length_le_bytes in *.
  unfold get_byte_ipv6. destruct (Z.of_nat i <? 8) eqn:E; zbool.
  - rewrite shr_ok by lia. cbn [mbind res_bind]. rewrite land_byte.
    rewrite lookup_app_r, length_le_bytes, nth_byte in H by (rewrite ?length_le_bytes; lia).
    injection H as <-. do 3 f_equal. lia.
  - rewrite shr_ok by lia. cbn [mbind res_bind]. rewrite land_byte.
    rewrite lookup_app_l, nth_byte in H by (rewrite ?length_le_bytes; lia).
    injection H as <-. do 3 f_equal. lia.
Qed.

#[export] Instance ipv6_laws : FamilyLaws IPv6Address.
Proof.
  refine {| addr_ok := ipv6_wf; decode := key_dec (KeyBytes := key16) |}.
  - cbn. lia.
  - intros a. change (zlen (ipv6_bytes a) = 16). unfold ipv6_bytes. by rewrite zlen_app, !zlen_le_bytes.
  - intros s Hs. by apply c_str_IPv6_ok.
  - intros s Hs Hb. split; [by apply (@key_dec_ok _ key16 _)|by apply (@key_enc_dec _ key16 _)].
  - intros a b Ha Hb E. apply ipv6_num_inj; [done|done|]. rewrite <-!le_val_ipv6 by done. by f_equal.
  - intros a i x _. apply ipv6_byte.
  - intros a t Ha [-> | ->]; by split.
  - intros hs hu f b a t Hb Hc. cbn. unfold getIPv6, checkIPv6, check6_slice, getBloom, bloom_row, ip6_row. answers.
  - intros hs hu f b a t n Hb Hc. cbn. unfold getIPv6_prefix, checkIPv6_prefix, check6_slice, getBloom, bloom_row, ip6_row.
    answers.
  - intros hs hu j b a x t n Hb Hj Ha Hx Hn Ht Hh Hp. cbn. unfold getIPv6_prefix. cbn [has_bitmap block_filter negb].
    assert (Ho : exists o, ip6_offset t = Some o) by (destruct Ht as [-> | ->]; eauto).
    destruct Ho as (o & Ho). rewrite Ho. specialize (Hh o Ho).
    apply (checkIPv6_prefix_in hs hu (block_filter j) (block_filter j) b x); try done.
    apply ipv6_num_inj; [apply ipv6_shr_wf; [done|cbn in Hn; lia]..|].
    rewrite !ipv6_shr_num by (done || (cbn in Hn; lia)). rewrite <-!le_val_ipv6 by done.
    apply (shiftr_agree_path (ipv6_bytes a) (ipv6_bytes x) n 16); try done; apply ipv6_bytes_u8.
Defined.

(** ** The tries of addresses *)
Section tries.
Context {K : Type} `{FamilyLaws K}.

Lemma length_path (a : K) : length (path a) = Z.to_nat (NBytes K).
Proof. unfold path. rewrite length_rev. pose proof (zlen_mem_bytes a). unfold zlen in *. lia. Qed.

Lemma insert_at_ins (a : K) n : forall (i : nat) node,
  addr_ok a -> (i + n = length (path a))%nat ->
  insert_at n (Z.of_nat i) a node = Ok (ins (drop i (path a)) node).
Proof.
  induction n as [|n IH]; intros i node Ha Hi; cbn [insert_at].
  - by rewrite drop_ge by lia.
  - destruct (lookup_lt_is_Some_2 (path a) i) as [x Hx]; [lia|].
    rewrite (get_byte_path a i x Ha Hx). cbn [mbind res_bind].
    replace (Z.of_nat i + 1) with (Z.of_nat (S i)) by lia. rewrite IH by (done || lia). cbn [mbind res_bind].
    by rewrite (drop_S _ _ _ Hx).
Qed.

Lemma trie_insert_ins (a : K) node : addr_ok a -> trie_insert node a = Ok (ins (path a) node).
Proof.
  intros Ha. unfold trie_insert. change 0 with (Z.of_nat 0). rewrite insert_at_ins; [done|done|].
  by rewrite length_path.
Qed.

Lemma descend_reaches (a : K) n : forall (i : nat) node,
  addr_ok a -> (i + n <= length (path a))%nat ->
  descend n (Z.of_nat i) a node = Ok (reaches (take n (drop i (path a))) node).
Proof.
  induction n as [|n IH]; intros i node Ha Hi; cbn [descend]; [done|].
  destruct (lookup_lt_is_Some_2 (path a) i) as [x Hx]; [lia|].
  rewrite (get_byte_path a i x Ha Hx). cbn [mbind res_bind].
  rewrite (drop_S _ _ _ Hx). cbn [take reaches]. destruct (child node x); [|done].
  replace (Z.of_nat i + 1) with (Z.of_nat (S i)) by lia. apply IH; [done|lia].
Qed.

Lemma contains_prefix_reaches (a : K) node d : addr_ok a -> 0 <= d <= NBytes K ->
  contains_prefix node a d = Ok (reaches (take (Z.to_nat d) (path a)) node).
Proof.
  intros Ha Hd. unfold contains_prefix. change 0 with (Z.of_nat 0) at 1.
  rewrite descend_reaches, drop_0; [done|done|]. rewrite length_path. lia.
Qed.

Lemma trie_contains_prefix (a : K) node : trie_contains node a = contains_prefix node a (NBytes K).
Proof. done. Qed.

(** The trie of the addresses [xs]. *)
Definition trie_of (xs : list K) : TrieNode := foldl (fun t l => ins l t) new_TrieNode (path <$> xs).

(** Whether one of [xs] has the first [d] bytes of [a]. *)
Definition stored_prefix (xs : list K) (d : Z) (a : K) : bool :=
  bool_decide (Exists (fun x => take (Z.to_nat d) (path x) = take (Z.to_nat d) (path a)) xs).

Lemma trie_of_snoc xs x : trie_of (xs ++ [x]) = ins (path x) (trie_of xs).
Proof. unfold trie_of. by rewrite fmap_app, foldl_app. Qed.

Lemma trie_of_contains xs (a : K) d : addr_ok a -> 0 < d <= NBytes K ->
  contains_prefix (trie_of xs) a d = Ok (stored_prefix xs d a).
Proof.
  intros Ha Hd. pose proof (length_path a) as Hl. rewrite contains_prefix_reaches by (done || lia).
  assert (Hlen : length (take (Z.to_nat d) (path a)) = Z.to_nat d) by (rewrite length_take; lia).
  unfold trie_of. rewrite reaches_all by (destruct (take (Z.to_nat d) (path a)); [simpl in Hlen; lia|done]).
  f_equal. unfold stored_prefix. apply bool_decide_ext. rewrite Exists_fmap, !Exists_exists.
  split; intros (x & Hx & E); exists x; (split; [exact Hx|]); revert E; cbn.
  - intros [k Hk]. rewrite Hk. rewrite <-Hlen at 1. by rewrite take_app_length.
  - intros <-. exists (drop (Z.to_nat d) (path x)). by rewrite take_drop.
Qed.
End tries.

(** ** Entering a record's addresses *)
Section adding.
Context (hash_str : list Z -> Z) (hash_u64 : Z -> Z).
Context {K : Type} `{FamilyLaws K}.
Context (n : Z) (Hn : 0 < n < 2 ^ 61).

(** The plain filter holds the strings [strs]. *)
Definition filter_has (f : BloomFilter) (strs : list (list Z)) : Prop :=
  insert_all hash_str (new_BloomFilter n hash_num) strs = Ok f.

Lemma filter_add f strs s : filter_has f strs ->
  exists f', Bloom.insert hash_str f s = Ok f' /\ filter_has f' (strs ++ [s]) /\
    forall x, x ∈ strs ++ [s] -> contains hash_str f' x = Ok true.
Proof.
  unfold filter_has. intros E.
  destruct (insert_all_ok hash_str n hash_num (strs ++ [s]) Hn _ (new_filter_ok n hash_num ltac:(lia)))
    as (f' & E' & _). pose proof E' as E2. rewrite insert_all_snoc, E in E'. cbn [mbind res_bind] in E'.
  exists f'. split; [done|]. split; [done|]. by apply (insert_all_answers hash_str n hash_num _ _ Hn E2).
Qed.

Lemma into_filters_spec b fs ts fd td e ss sd src dst :
  filter_has fs ss -> filter_has fd sd ->
  exists fs' fd', into_filters hash_str (mkWork b (mkSides (mkSide fs ts) (mkSide fd td)) e) src dst =
      Ok (mkWork b (mkSides (mkSide fs' ts) (mkSide fd' td)) e) /\
    filter_has fs' (ss ++ [src]) /\ filter_has fd' (sd ++ [dst]).
Proof.
  intros Hs Hd. destruct (filter_add fs ss src Hs) as (fs' & E1 & Hs' & Hc1).
  destruct (filter_add fd sd dst Hd) as (fd' & E2 & Hd' & Hc2). exists fs', fd'.
  unfold into_filters. cbn [w_sides s_filter s_tree w_bitmap w_errors]. rewrite E1. cbn [mbind res_bind].
  rewrite E2. cbn [mbind res_bind]. unfold expect, and_then.
  rewrite Hc1, Hc2 by (apply elem_of_app; right; left). done.
Qed.

(** The suffixes of a string from the positions [ids]. *)
Definition suffixes (s : list Z) (ids : list Z) : list (list Z) := (fun i => drop (Z.to_nat i) s) <$> ids.

Context (b : BitMap) (x y : K) (xs ys : list K).
Context (Hb : wf b) (Hx : addr_ok x) (Hy : addr_ok y).
Context (Hkx : holds hash_str hash_u64 b 0 (to_key x (src_type K))).
Context (Hky : holds hash_str hash_u64 b 0 (to_key y (dst_type K))).
Context (Hxs : x ∈ xs) (Hys : y ∈ ys).

Lemma substr_drop (s : list Z) i : zlen s = NBytes K -> 0 <= i <= NBytes K ->
  substr s i (u64 (zlen s - i)) = Ok (drop (Z.to_nat i) s).
Proof.
  intros Hs Hi. pose proof (NBytes_range K). unfold substr. rewrite (proj2 (Z.ltb_ge _ _)) by lia.
  f_equal. rewrite u64_small by lia. rewrite Z.min_id. unfold zslice. apply take_ge.
  rewrite length_drop. unfold zlen in *. lia.
Qed.

Lemma in_trie (a : K) (l : list K) d : a ∈ l -> addr_ok a -> 0 < d <= NBytes K ->
  contains_prefix (trie_of l) a d = Ok true.
Proof.
  intros Ha Hok Hd. rewrite trie_of_contains by done. f_equal. apply bool_decide_eq_true.
  apply Exists_exists. by exists a.
Qed.

Lemma suffix_turns_spec ids : forall fs fd e ss sd,
  Forall (fun i => 1 <= i <= NBytes K - 2) ids -> filter_has fs ss -> filter_has fd sd ->
  exists fs' fd', suffix_turns hash_str hash_u64 (block_filter 0) (mem_bytes x) (mem_bytes y) x y ids
      (mkWork b (mkSides (mkSide fs (trie_of xs)) (mkSide fd (trie_of ys))) e) =
      Ok (mkWork b (mkSides (mkSide fs' (trie_of xs)) (mkSide fd' (trie_of ys))) e) /\
    filter_has fs' (ss ++ suffixes (mem_bytes x) ids) /\ filter_has fd' (sd ++ suffixes (mem_bytes y) ids).
Proof.
  induction ids as [|i ids IH]; intros fs fd e ss sd Hi Hs Hd; cbn [suffix_turns].
  - exists fs, fd. unfold suffixes. cbn. by rewrite !app_nil_r.
  - apply Forall_cons in Hi as [Hi His].
    destruct (into_filters_spec b fs (trie_of xs) fd (trie_of ys) e ss sd
      (drop (Z.to_nat i) (mem_bytes x)) (drop (Z.to_nat i) (mem_bytes y)) Hs Hd) as (fs1 & fd1 & E1 & Hs1 & Hd1).
    destruct (IH fs1 fd1 e _ _ His Hs1 Hd1) as (fs' & fd' & E2 & Hs2 & Hd2).
    exists fs', fd'. unfold suffixes in *. rewrite !fmap_cons.
    split; [|by rewrite <-!app_assoc in *].
    unfold suffix_turn. rewrite !substr_drop by (try apply zlen_mem_bytes; lia). cbn [mbind res_bind].
    rewrite E1. cbn [mbind res_bind w_bitmap w_sides w_errors s_tree]. unfold expect, and_then.
    rewrite (get_prefix_in hash_str hash_u64 0 b x x (src_type K) i) by first [done | lia | by left].
    rewrite (get_prefix_in hash_str hash_u64 0 b y y (dst_type K) i) by first [done | lia | by right]. cbn [mbind res_bind].
    rewrite !in_trie by (done || lia). cbn [mbind res_bind]. exact E2.
Qed.
End adding.

Section records.
Context (hash_str : list Z -> Z) (hash_u64 : Z -> Z).

(** One direction of a family holds the addresses [xs]. *)
Record side_ok {K} `{FamilyLaws K} (n : Z) (s : Side) (xs : list K) : Prop := {
  so_tree : s_tree s = trie_of xs;
  so_filter : exists strs, filter_has hash_str n (s_filter s) strs /\
    Forall (fun x => forall i, 0 <= i <= NBytes K - 2 -> drop (Z.to_nat i) (mem_bytes x) ∈ strs) xs;
  so_ok : Forall addr_ok xs }.

(** Both directions of a family, and the prefix filter's column 0. *)
Record sides_ok {K} `{FamilyLaws K} (n : Z) (b : BitMap) (s : Sides) (xs ys : list K) : Prop := {
  sk_src : side_ok n (srcs s) xs;
  sk_dst : side_ok n (dsts s) ys;
  sk_src_keys : Forall (fun x => holds hash_str hash_u64 b 0 (to_key x (src_type K))) xs;
  sk_dst_keys : Forall (fun y => holds hash_str hash_u64 b 0 (to_key y (dst_type K))) ys }.

Lemma sides_ok_grows {K} `{FamilyLaws K} n b b' s xs ys :
  grows b b' -> sides_ok n b s xs ys -> sides_ok n b' s xs ys.
Proof.
  intros Hg [H1 H2 H3 H4]. split; try done; eapply Forall_impl; try done; intros; by eapply holds_grows.
Qed.

Lemma new_sides_ok {K} `{FamilyLaws K} bits b : sides_ok (bits / 8) b (mkSides (new_side bits) (new_side bits)) [] [].
Proof. assert (Hs : side_ok (bits / 8) (new_side bits) []) by (split; [done|by exists []|constructor]). by split. Qed.

Lemma side_add {K} `{FamilyLaws K} n s (xs : list K) x fs strs :
  side_ok n s xs -> addr_ok x -> filter_has hash_str n (s_filter s) strs ->
  Forall (fun x => forall i, 0 <= i <= NBytes K - 2 -> drop (Z.to_nat i) (mem_bytes x) ∈ strs) xs ->
  filter_has hash_str n fs ((strs ++ [mem_bytes x]) ++ suffixes (mem_bytes x) (Z.add 1 <$> zseq (NBytes K - 2))) ->
  side_ok n (mkSide fs (trie_of (xs ++ [x]))) (xs ++ [x]).
Proof.
  intros [_ _ Hok] Hx Hs Hstr Hf. split; [done| |apply Forall_app; auto].
  eexists. split; [exact Hf|]. apply Forall_app. split.
  - eapply Forall_impl; [exact Hstr|]. intros y Hy i Hi. rewrite <-app_assoc. apply elem_of_app. left. by apply Hy.
  - apply Forall_singleton. intros i Hi. rewrite <-app_assoc. apply elem_of_app. right.
    destruct (decide (i = 0)) as [->|Hi0]; [by left|]. right. unfold suffixes. apply list_elem_of_fmap.
    exists i. split; [done|]. apply list_elem_of_fmap. exists (i - 1). rewrite elem_of_zseq. lia.
Qed.

(** The prefix filter takes both keys. *)
Lemma into_prefix_filter_spec {K} `{FamilyLaws K} w (x y : K) :
  roomy (w_bitmap w) 0 -> addr_ok x -> addr_ok y ->
  exists b, into_prefix_filter hash_str hash_u64 (block_filter 0) w x y = Ok (mkWork b (w_sides w) (w_errors w)) /\
    grows (w_bitmap w) b /\ holds hash_str hash_u64 b 0 (to_key x (src_type K)) /\
    holds hash_str hash_u64 b 0 (to_key y (dst_type K)).
Proof.
  intros Hr Hx Hy. unfold into_prefix_filter.
  destruct (to_key_ok x (src_type K) Hx) as [Hw1 Ht1]; [by left|].
  destruct (to_key_ok y (dst_type K) Hy) as [Hw2 Ht2]; [by right|].
  assert (Hstep : forall b key, roomy b 0 -> fkey_wf key -> key_type_ok key = true ->
    exists b' v, insert_key hash_str hash_u64 (block_filter 0) b key = Ok (v, b') /\ grows b b' /\
      holds hash_str hash_u64 b' 0 key).
  { intros b key Hrb Hk Ht.
    destruct (filter_key_step hash_str hash_u64 b [block_filter 0] [] [] 0 key) as (b' & E & Hg & Hh); try done.
    unfold filter_key in E. cbn [prefixFilters bitmap] in E. change (zget [block_filter 0] 0) with (Ok (block_filter 0)) in E.
    cbn [mbind res_bind] in E. apply bind_Ok_iff in E as ([v b1] & E & [= ->]). by exists b', v. }
  destruct (Hstep _ _ Hr Hw1 Ht1) as (b1 & v1 & -> & Hg1 & Hh1). cbn [mbind res_bind].
  destruct (Hstep b1 _ (roomy_grows _ _ _ Hg1 Hr) Hw2 Ht2) as (b2 & v2 & -> & Hg2 & Hh2). cbn [mbind res_bind].
  pose proof (holds_grows _ _ _ _ _ _ Hg2 Hh1) as Hh1'. exists b2.
  unfold expect, and_then. rewrite !(key_in_query hash_str hash_u64 (block_filter 0) (block_filter 0)) by
    (try done; apply Hg2). split; [done|]. split; [by eapply grows_trans|done].
Qed.

Lemma into_trees_spec {K} `{FamilyLaws K} b fs fd e (xs ys : list K) x y : addr_ok x -> addr_ok y ->
  into_trees (mkWork b (mkSides (mkSide fs (trie_of xs)) (mkSide fd (trie_of ys))) e) x y =
    Ok (mkWork b (mkSides (mkSide fs (trie_of (xs ++ [x]))) (mkSide fd (trie_of (ys ++ [y])))) e).
Proof.
  intros Hx Hy. pose proof (NBytes_range K) as HN. unfold into_trees.
  cbn [w_sides s_tree s_filter w_bitmap w_errors]. rewrite !trie_insert_ins by done.
  cbn [mbind res_bind]. rewrite <-!trie_of_snoc, !trie_contains_prefix.
  by rewrite !in_trie by (done || lia || (apply elem_of_app; right; left)).
Qed.

Lemma add_addresses_spec {K} `{FamilyLaws K} n w (xs ys : list K) src dst :
  0 < n < 2 ^ 61 -> roomy (w_bitmap w) 0 -> sides_ok n (w_bitmap w) (w_sides w) xs ys ->
  zlen src = NBytes K -> Forall (is_u 8) src -> zlen dst = NBytes K -> Forall (is_u 8) dst ->
  exists w', add_addresses (K := K) hash_str hash_u64 (block_filter 0) src dst w = Ok w' /\
    grows (w_bitmap w) (w_bitmap w') /\ w_errors w' = w_errors w /\
    sides_ok n (w_bitmap w') (w_sides w') (xs ++ [decode src]) (ys ++ [decode dst]).
Proof.
  intros Hn Hr [Hs Hd Hks Hkd] Ls Us Ld Ud. pose proof (NBytes_range K) as HN.
  destruct (decode_ok src Ls Us) as [Hx Ex]. destruct (decode_ok dst Ld Ud) as [Hy Ey].
  unfold add_addresses. rewrite (of_c_str_decode src), (of_c_str_decode dst) by done. cbn [mbind res_bind].
  set (x := decode src) in *. set (y := decode dst) in *. rewrite <-Ex, <-Ey.
  destruct (into_prefix_filter_spec w x y Hr Hx Hy) as (b & -> & Hg & Hhx & Hhy). cbn [mbind res_bind].
  destruct w as [b0 [[fs ts] [fd td]] e]. cbn [w_bitmap w_sides w_errors srcs dsts] in *.
  pose proof (so_tree _ _ _ Hs) as Es. pose proof (so_tree _ _ _ Hd) as Ed. cbn [s_tree] in Es, Ed. subst ts td.
  destruct (so_filter _ _ _ Hs) as (ss & Fs & Hss). destruct (so_filter _ _ _ Hd) as (sd & Fd & Hsd).
  cbn [s_filter] in Fs, Fd.
  destruct (into_filters_spec hash_str n Hn b fs (trie_of xs) fd (trie_of ys) e ss sd (mem_bytes x) (mem_bytes y) Fs Fd)
    as (fs1 & fd1 & -> & Fs1 & Fd1). cbn [mbind res_bind].
  rewrite into_trees_spec by done. cbn [mbind res_bind]. rewrite u64_small by (rewrite zlen_mem_bytes; lia).
  rewrite (zlen_mem_bytes x). replace (NBytes K - 1 - 1) with (NBytes K - 2) by lia.
  destruct (suffix_turns_spec hash_str hash_u64 n Hn b x y (xs ++ [x]) (ys ++ [y]) (proj1 Hg) Hx Hy Hhx Hhy
    ltac:(apply elem_of_app; right; left) ltac:(apply elem_of_app; right; left)
    (Z.add 1 <$> zseq (NBytes K - 2)) fs1 fd1 e (ss ++ [mem_bytes x]) (sd ++ [mem_bytes y]))
    as (fs2 & fd2 & -> & Fs2 & Fd2); [|exact Fs1|exact Fd1|].
  { apply Forall_fmap, Forall_forall. intros i Hi%elem_of_zseq. simpl. lia. }
  eexists. split; [reflexivity|]. split; [exact Hg|]. split; [done|].
  destruct (sides_ok_grows n b0 b (mkSides (mkSide fs (trie_of xs)) (mkSide fd (trie_of ys))) xs ys Hg
    ltac:(by split)) as [_ _ Hks' Hkd'].
  split; cbn [w_bitmap w_sides srcs dsts].
  - by apply (side_add n (mkSide fs (trie_of xs)) xs x fs2 ss).
  - by apply (side_add n (mkSide fd (trie_of ys)) ys y fd2 sd).
  - apply Forall_app. by rewrite Forall_singleton.
  - apply Forall_app. by rewrite Forall_singleton.
Qed.

(** ** The records of the first block *)

(** The addresses of one family among the records, by direction. *)
Definition addresses {K} `{FamilyLaws K} (is4 : bool) (get : FlowMetadata -> list Z) (rs : list stored) : list K :=
  (fun r : stored => decode (get r.1.2)) <$> filter (fun r : stored => (r.2 =? 4) = is4) rs.

Definition src4 (rs : list stored) : list Z := addresses true sourceAddress rs.
Definition dst4 (rs : list stored) : list Z := addresses true destinationAddress rs.
Definition src6 (rs : list stored) : list IPv6Address := addresses false sourceAddress rs.
Definition dst6 (rs : list stored) : list IPv6Address := addresses false destinationAddress rs.

Lemma addresses_snoc {K} `{FamilyLaws K} is4 get rs r :
  addresses (K := K) is4 get (rs ++ [r]) =
    addresses is4 get rs ++ if decide ((r.2 =? 4) = is4) then [decode (get r.1.2)] else [].
Proof.
  unfold addresses. rewrite filter_app, fmap_app. f_equal. rewrite filter_cons. by case_decide.
Qed.

Record loaded (s : Filters) (rs : list stored) : Prop := {
  ld_filter : prefixFilter s = block_filter 0;
  ld_roomy : roomy (f_bitmap s) 0;
  ld_v4 : sides_ok (IPV4_BIT_LEN / 8) (f_bitmap s) (v4 s) (src4 rs) (dst4 rs);
  ld_v6 : sides_ok (IPV6_BIT_LEN / 8) (f_bitmap s) (v6 s) (src6 rs) (dst6 rs);
  ld_errors : f_errors s = 0;
  ld_count : f_count s = 4 + zlen rs }.

Lemma init_loaded : exists s0, init true = Ok s0 /\ loaded s0 [].
Proof.
  destruct (init_ok (fun K _ l => l)) as (b0 & E & Hw & Hr). unfold QueryFill.init in E.
  apply bind_Ok_iff in E as (b & Eb & [= ->]). unfold init. rewrite Eb. cbn [mbind res_bind].
  eexists. split; [reflexivity|]. pose proof (Hr 0 ltac:(lia)) as Hr0.
  split; cbn [prefixFilter f_bitmap v4 v6 f_errors f_count]; try done; try apply new_sides_ok.
  unfold setWritingCol, setReadingCol, getColCount, PrefixBloom.init. cbn [has_bitmap negb].
  rewrite (proj2 (Z.leb_gt _ _)) by (destruct Hr0 as [_ _ ?]; lia). done.
Qed.

Lemma add_index_loaded s rs r :
  loaded s rs -> record_fine r -> zlen rs < 2 ^ 62 ->
  exists s', add_index hash_str hash_u64 s r = Ok s' /\ loaded s' (rs ++ [r]).
Proof.
  intros [Hf Hr H4 H6 He Hc] Hfine Hl. pose proof (zlen_nonneg rs) as Hz.
  destruct Hfine as [_ Hv [Ls Us] [Ld Ud] _]. destruct r as [[pos m] version]. cbn [fst snd] in *.
  destruct s as [b f s4 s6 e c]. cbn [prefixFilter f_bitmap v4 v6 f_errors f_count] in *. subst f e c.
  unfold add_index, src4, dst4, src6, dst6. cbn [prefixFilter f_bitmap v4 v6 f_errors f_count].
  destruct Hv as [-> | ->]; cbn [Z.eqb Pos.eqb].
  - destruct (add_addresses_spec (K := Z) (IPV4_BIT_LEN / 8) (mkWork b s4 0) (src4 rs) (dst4 rs)
      (sourceAddress m) (destinationAddress m)) as (w' & -> & Hg & He & Hs); try done.
    cbn [mbind res_bind]. eexists. split; [reflexivity|]. cbn [w_bitmap w_sides] in *.
    split; cbn [prefixFilter f_bitmap v4 v6 f_errors f_count];
      unfold src4, dst4, src6, dst6; rewrite ?addresses_snoc; cbn [snd fst Z.eqb Pos.eqb].
    + done.
    + by eapply roomy_grows.
    + exact Hs.
    + rewrite !decide_False, !app_nil_r by done. by eapply sides_ok_grows.
    + done.
    + rewrite u64_small by lia. rewrite zlen_app. change (zlen [_]) with 1. lia.
  - destruct (add_addresses_spec (K := IPv6Address) (IPV6_BIT_LEN / 8) (mkWork b s6 0) (src6 rs) (dst6 rs)
      (sourceAddress m) (destinationAddress m)) as (w' & -> & Hg & He & Hs); try done.
    cbn [mbind res_bind]. eexists. split; [reflexivity|]. cbn [w_bitmap w_sides] in *.
    split; cbn [prefixFilter f_bitmap v4 v6 f_errors f_count];
      unfold src4, dst4, src6, dst6; rewrite ?addresses_snoc; cbn [snd fst Z.eqb Pos.eqb].
    + done.
    + by eapply roomy_grows.
    + rewrite !decide_False, !app_nil_r by done. by eapply sides_ok_grows.
    + exact Hs.
    + done.
    + rewrite u64_small by lia. rewrite zlen_app. change (zlen [_]) with 1. lia.
Qed.

(** The records that [fill] enters, and those behind them. *)
Definition first_block (rs later : list stored) : Prop :=
  Forall (fun r => record_fine r /\ r.1.1 / data_block_size = 0) rs /\
  match later with [] => True | r :: _ => 0 < r.1.1 / data_block_size end.

Lemma fill_loop_loaded buffer rs later : forall did off fuel s,
  loaded s did -> first_block rs later -> zlen did + zlen rs < 2 ^ 62 ->
  buffered buffer off (rs ++ later) -> (length rs + 1 < fuel)%nat ->
  exists s', fill_loop hash_str hash_u64 fuel buffer (off + INDEX_ENUM_LEN * zlen (rs ++ later)) off s = Ok s' /\
    loaded s' (did ++ rs).
Proof.
  induction rs as [|r rs IH]; intros did off fuel s Hld [Hrs Hlt] Hlen Hb Hf;
    (destruct fuel as [|fuel]; [simpl in Hf; lia|]); cbn [fill_loop]; change INDEX_ENUM_LEN with 72 in *.
  - rewrite app_nil_r. exists s. split; [|done]. cbn [app]. destruct later as [|r later].
    + change (zlen []) with 0. by rewrite (proj2 (Z.ltb_ge _ _)) by lia.
    + rewrite zlen_cons. pose proof (zlen_nonneg later). rewrite (proj2 (Z.ltb_lt _ _)) by lia. cbn [negb].
      pose proof (Hb 0%nat r eq_refl) as E. rewrite Z.mul_0_r, Z.add_0_r in E. rewrite E. cbn [mbind res_bind].
      by rewrite (proj2 (Z.ltb_lt _ _)).
  - apply Forall_cons in Hrs as [[Hfine Hid] Hrs]. rewrite <-app_comm_cons, zlen_cons.
    pose proof (zlen_nonneg (rs ++ later)). rewrite (proj2 (Z.ltb_lt _ _)) by lia. cbn [negb].
    pose proof (Hb 0%nat r eq_refl) as E. rewrite Z.mul_0_r, Z.add_0_r in E. rewrite E. cbn [mbind res_bind].
    rewrite Hid. cbn [Z.ltb Z.compare]. rewrite zlen_cons in Hlen. pose proof (zlen_nonneg rs).
    destruct (add_index_loaded s did r Hld Hfine) as (s1 & -> & Hld1); [lia|]. cbn [mbind res_bind].
    replace (off + 72 * (1 + zlen (rs ++ later))) with (off + 72 + 72 * zlen (rs ++ later)) by lia.
    replace (did ++ r :: rs) with ((did ++ [r]) ++ rs) by (by rewrite <-app_assoc).
    apply IH; [done|by split| | |simpl in Hf; lia].
    + rewrite zlen_app. change (zlen [r]) with 1. lia.
    + intros i r' Hi. pose proof (Hb (S i) r' Hi) as E2. rewrite <-E2. f_equal. change INDEX_ENUM_LEN with 72. lia.
Qed.

Lemma fill_loaded dev s0 rs later :
  init true = Ok s0 -> first_block rs later -> zlen (rs ++ later) < 2 ^ 50 ->
  buffered (pread dev (72 * zlen (rs ++ later)) INDEX_OFFSET) 0 (rs ++ later) ->
  exists s, fill hash_str hash_u64 (72 * zlen (rs ++ later)) s0 dev = Ok s /\ loaded s rs.
Proof.
  intros E0 Hfb Hl Hb. destruct init_loaded as (s1 & E1 & Hld). rewrite E0 in E1. injection E1 as <-.
  unfold fill. rewrite zlen_app in *. pose proof (zlen_nonneg rs). pose proof (zlen_nonneg later).
  set (buf := pread _ _ _) in *. rewrite <-zlen_app in *.
  destruct (fill_loop_loaded buf rs later [] 0
    (Z.to_nat (72 * zlen (rs ++ later) / INDEX_ENUM_LEN) + 2)%nat s0) as (s & E & Hs); try done.
  - change (zlen []) with 0. rewrite zlen_app in Hl. lia.
  - change INDEX_ENUM_LEN with 72. rewrite Z.mul_comm, Z.div_mul by done. rewrite zlen_app. unfold zlen. lia.
  - exists s. split; [|done]. rewrite Z.add_0_l in E. exact E.
Qed.
End records.

(** ** The counts *)

(** [m] draws were counted; when the filter is [sure] to miss nothing, [hits]
    of them as true positives. *)
Record tallied (sure : bool) (c : Counts) (hits m : Z) : Prop := {
  ta_range : 0 <= tp c /\ 0 <= fp c /\ 0 <= tf c;
  ta_total : tp c + fp c + tf c = m;
  ta_hits : sure = true -> tp c = hits }.

Lemma classify_tallied sure a t c hits m :
  tallied sure c hits m -> m < 2 ^ 63 -> (sure = true -> t = true -> a = true) ->
  exists c', classify (Ok a) (Ok t) c = Ok c' /\ tallied sure c' (hits + Z.b2z t) (m + 1).
Proof.
  intros [(H1 & H2 & H3) Ht Hh] Hm Hs. unfold classify. cbn [mbind res_bind].
  destruct a, t; eexists; (split; [reflexivity|]); cbn [tp fp tf Z.b2z] in *; rewrite u64_small by lia;
    split; cbn [tp fp tf]; try lia; intros E; rewrite ?Hh by done; try lia.
  by specialize (Hs E eq_refl).
Qed.

Section answers.
Context (hash_str : list Z -> Z) (hash_u64 : Z -> Z).
Context {K : Type} `{FamilyLaws K}.
Context (n : Z) (Hn : 0 < n < 2 ^ 61) (b : BitMap) (Hb : wf b).
Context (s : Side) (xs : list K) (t : IndexType).
Context (Hs : side_ok hash_str n s xs).
Context (Ht : t = (src_type K) \/ t = (dst_type K)).
Context (Hkeys : Forall (fun x => holds hash_str hash_u64 b 0 (to_key x t)) xs).
Context (a : K) (Ha : addr_ok a) (p : Z) (Hp : 1 <= p <= NBytes K).

Lemma truth_answer : contains_prefix (s_tree s) a p = Ok (stored_prefix xs p a).
Proof. rewrite (so_tree _ _ _ _ Hs). apply trie_of_contains; [done|lia]. Qed.

Lemma stored_prefix_elim : stored_prefix xs p a = true ->
  exists x, x ∈ xs /\ addr_ok x /\ take (Z.to_nat p) (path x) = take (Z.to_nat p) (path a).
Proof.
  intros (x & Hx & E)%bool_decide_eq_true%Exists_exists. exists x. split; [done|]. split; [|done].
  pose proof (so_ok _ _ _ _ Hs) as Hok. rewrite Forall_forall in Hok. auto.
Qed.

Lemma prefix_answer : exists v, get_prefix hash_str hash_u64 (block_filter 0) b a t p = Ok v /\
  (stored_prefix xs p a = true -> v = true).
Proof.
  destruct (proj1 (is_Ok_iff _) (prefix_answers hash_str hash_u64 (block_filter 0) b a t p Hb ltac:(done))) as [v Ev].
  exists v. split; [done|]. intros (x & Hx & Hxo & E)%stored_prefix_elim.
  rewrite Forall_forall in Hkeys. specialize (Hkeys x Hx).
  rewrite (get_prefix_in hash_str hash_u64 0 b a x t p) in Ev by first [done | lia]. congruence.
Qed.

Lemma whole_path (x : K) : p = NBytes K -> addr_ok x ->
  take (Z.to_nat p) (path x) = take (Z.to_nat p) (path a) -> x = a.
Proof.
  intros -> Hx E. rewrite !take_ge in E by (rewrite length_path; lia).
  apply mem_bytes_inj; [done|done|]. unfold path in E.
  by rewrite <-(rev_involutive (mem_bytes x)), E, rev_involutive.
Qed.

Lemma whole_answer : p = NBytes K ->
  exists v, query_key hash_str hash_u64 (block_filter 0) b (to_key a t) = Ok v /\
    (stored_prefix xs p a = true -> v = true).
Proof.
  intros Hw.
  destruct (proj1 (is_Ok_iff _) (query_answers hash_str hash_u64 (block_filter 0) b a t Hb ltac:(done))) as [v Ev].
  exists v. split; [done|]. intros (x & Hx & Hxo & E)%stored_prefix_elim.
  apply whole_path in E as ->; [|done|done]. rewrite Forall_forall in Hkeys. specialize (Hkeys a Hx).
  destruct (to_key_ok a t Ha Ht) as [Hkw Hkt].
  rewrite (key_in_query hash_str hash_u64 (block_filter 0) (block_filter 0)) in Ev by done. congruence.
Qed.

Lemma bloom_answer : exists v, contains hash_str (s_filter s) (drop (Z.to_nat (NBytes K - p)) (mem_bytes a)) = Ok v /\
  ((2 <=? p) = true -> stored_prefix xs p a = true -> v = true).
Proof.
  destruct (so_filter _ _ _ _ Hs) as (strs & Hf & Hstr).
  destruct (insert_all_answers hash_str n hash_num strs _ Hn Hf) as [Hc Hin].
  eexists. split; [apply Hc|]. intros H2 (x & Hx & Hxo & E)%stored_prefix_elim. zbool.
  pose proof (NBytes_range K) as HN. rewrite Forall_forall in Hstr.
  assert (Hr : 0 <= NBytes K - p <= NBytes K - 2) by lia. specialize (Hstr x Hx _ Hr).
  assert (Ed : drop (Z.to_nat (NBytes K - p)) (mem_bytes a) = drop (Z.to_nat (NBytes K - p)) (mem_bytes x)).
  { pose proof (zlen_mem_bytes a) as La. pose proof (zlen_mem_bytes x) as Lx. unfold path in E.
    apply take_rev_drop in E; [|unfold zlen in *; lia].
    replace (length (mem_bytes x) - Z.to_nat p)%nat with (Z.to_nat (NBytes K - p)) in E by (unfold zlen in *; lia). done. }
  rewrite Ed. specialize (Hin _ Hstr). rewrite Hc in Hin. congruence.
Qed.
End answers.

Section counting.
Context (hash_str : list Z -> Z) (hash_u64 : Z -> Z).
Context {K : Type} `{FamilyLaws K}.
Context (n : Z) (Hn : 0 < n < 2 ^ 61) (b : BitMap) (Hb : wf b).
Context (sides : Sides) (xs ys : list K) (Hsides : sides_ok hash_str hash_u64 n b sides xs ys).

(** The draws whose prefix is stored. *)
Definition hits (l : list K) (p : Z) (draws : list K) : Z := zlen (filter (fun a => stored_prefix l p a = true) draws).

Lemma hits_snoc l p draws a : hits l p (draws ++ [a]) = hits l p draws + Z.b2z (stored_prefix l p a).
Proof.
  unfold hits. rewrite filter_app, zlen_app, filter_cons. by destruct (stored_prefix l p a).
Qed.

(** The score after the draws [done]. *)
Record scored (p : Z) (seen : list K) (c : Score) : Prop := {
  sc_sp : tallied true (src_pf c) (hits xs p seen) (zlen seen);
  sc_dp : tallied true (dst_pf c) (hits ys p seen) (zlen seen);
  sc_sb : tallied (2 <=? p) (src_bf c) (hits xs p seen) (zlen seen);
  sc_db : tallied (2 <=? p) (dst_bf c) (hits ys p seen) (zlen seen) }.

Lemma no_score_scored p : scored p [] no_score.
Proof. by split; split; cbn. Qed.

Lemma substr_prefix (a : K) p : 1 <= p <= NBytes K ->
  substr (mem_bytes a) (u64 (NBytes K - p)) p = Ok (drop (Z.to_nat (NBytes K - p)) (mem_bytes a)).
Proof.
  intros Hp. pose proof (NBytes_range K). pose proof (zlen_mem_bytes a) as La.
  rewrite <-(substr_drop (mem_bytes a) (NBytes K - p)) by (done || lia).
  rewrite La. replace (NBytes K - (NBytes K - p)) with p by lia. by rewrite !u64_small by lia.
Qed.

(** The four answers for one draw, and their tallies. *)
Lemma query_turn_scored p seen a c :
  1 <= p <= NBytes K -> addr_ok a -> zlen seen < 2 ^ 63 -> scored p seen c ->
  exists c', query_turn hash_str hash_u64 (block_filter 0) b sides p a c = Ok c' /\ scored p (seen ++ [a]) c'.
Proof.
  intros Hp Ha Hm [C1 C2 C3 C4]. destruct Hsides as [Hs Hd Hks Hkd]. pose proof (NBytes_range K) as HN.
  assert (Hsrc : src_type K = src_type K \/ src_type K = dst_type K) by (by left).
  assert (Hdst : dst_type K = src_type K \/ dst_type K = dst_type K) by (by right).
  pose proof (truth_answer hash_str n _ xs Hs a Ha p Hp) as T1.
  pose proof (truth_answer hash_str n _ ys Hd a Ha p Hp) as T2.
  destruct (bloom_answer hash_str n Hn _ xs Hs a p Hp) as (vb & B1 & Hvb).
  destruct (bloom_answer hash_str n Hn _ ys Hd a p Hp) as (wb & B2 & Hwb).
  assert (Hall : forall vp wp, (stored_prefix xs p a = true -> vp = true) -> (stored_prefix ys p a = true -> wp = true) ->
    exists c', (sp ← classify (Ok vp) (Ok (stored_prefix xs p a)) (src_pf c);
                dp ← classify (Ok wp) (Ok (stored_prefix ys p a)) (dst_pf c);
                sb ← classify (Ok vb) (Ok (stored_prefix xs p a)) (src_bf c);
                db ← classify (Ok wb) (Ok (stored_prefix ys p a)) (dst_bf c);
                Ok (mkScore sp dp sb db)) = Ok c' /\ scored p (seen ++ [a]) c').
  { intros vp wp Hvp Hwp.
    destruct (classify_tallied true vp (stored_prefix xs p a) _ _ _ C1 Hm) as (c1 & -> & D1); [auto|].
    destruct (classify_tallied true wp (stored_prefix ys p a) _ _ _ C2 Hm) as (c2 & -> & D2); [auto|].
    destruct (classify_tallied _ vb (stored_prefix xs p a) _ _ _ C3 Hm) as (c3 & -> & D3); [auto|].
    destruct (classify_tallied _ wb (stored_prefix ys p a) _ _ _ C4 Hm) as (c4 & -> & D4); [auto|].
    cbn [mbind res_bind]. eexists. split; [reflexivity|].
    by split; cbn [src_pf dst_pf src_bf dst_bf]; rewrite hits_snoc, zlen_app. }
  unfold query_turn. destruct (p =? NBytes K) eqn:E; zbool.
  - destruct (whole_answer hash_str hash_u64 n b Hb _ xs _ Hs Hsrc Hks a Ha p Hp E) as (vp & P1 & Hvp).
    destruct (whole_answer hash_str hash_u64 n b Hb _ ys _ Hd Hdst Hkd a Ha p Hp E) as (wp & P2 & Hwp).
    unfold query_whole. rewrite !trie_contains_prefix, P1, P2, <-E, T1, T2.
    rewrite E, Z.sub_diag, drop_0 in B1, B2. rewrite B1, B2. by apply Hall.
  - destruct (prefix_answer hash_str hash_u64 n b Hb _ xs _ Hs Hsrc Hks a Ha p Hp) as (vp & P1 & Hvp).
    destruct (prefix_answer hash_str hash_u64 n b Hb _ ys _ Hd Hdst Hkd a Ha p Hp) as (wp & P2 & Hwp).
    unfold query_prefix. rewrite substr_prefix, P1, P2, T1, T2 by done.
    destruct (Hall vp wp Hvp Hwp) as (c' & Ec & Hc'). exists c'. split; [|done]. rewrite <-Ec.
    cbn [mbind res_bind]. by rewrite B1, B2.
Qed.

Lemma query_turns_scored p draws : forall seen c,
  1 <= p <= NBytes K -> Forall addr_ok draws -> zlen seen + zlen draws < 2 ^ 63 -> scored p seen c ->
  exists c', query_turns hash_str hash_u64 (block_filter 0) b sides p draws c = Ok c' /\ scored p (seen ++ draws) c'.
Proof.
  induction draws as [|a draws IH]; intros seen c Hp Hok Hm Hc; cbn [query_turns].
  - exists c. by rewrite app_nil_r.
  - apply Forall_cons in Hok as [Ha Hok]. rewrite zlen_cons in Hm. pose proof (zlen_nonneg draws).
    destruct (query_turn_scored p seen a c Hp Ha ltac:(lia) Hc) as (c1 & -> & Hc1). cbn [mbind res_bind].
    destruct (IH (seen ++ [a]) c1 Hp Hok) as (c' & -> & Hc'); [rewrite zlen_app; change (zlen [a]) with 1; lia|done|].
    exists c'. split; [done|]. by rewrite <-app_assoc in Hc'.
Qed.

Lemma query_scored start p draws :
  1 <= p <= NBytes K -> Forall addr_ok draws -> 0 <= start ->
  exists c, query hash_str hash_u64 (block_filter 0) b sides start p draws = Ok c /\
    scored p (take (Z.to_nat (QUERY_TIMES - start)) draws) c.
Proof.
  intros Hp Hok Hst. unfold query. set (l := take _ draws).
  destruct (query_turns_scored p l [] no_score Hp) as (c & E & Hc).
  - by apply Forall_take.
  - unfold l, zlen. rewrite length_take. unfold QUERY_TIMES. cbn [length]. lia.
  - apply no_score_scored.
  - by exists c.
Qed.
End counting.

Section outcome.
Context (hash_str : list Z -> Z) (hash_u64 : Z -> Z).

(** The trie of one direction answers for the addresses [xs]. *)
Definition trie_answers {K} `{FamilyLaws K} (t : TrieNode) (xs : list K) : Prop :=
  forall a d, addr_ok a -> 0 < d <= NBytes K -> contains_prefix t a d = Ok (stored_prefix xs d a).

Lemma side_trie_answers {K} `{FamilyLaws K} n s (xs : list K) : side_ok hash_str n s xs -> trie_answers (s_tree s) xs.
Proof. intros Hs a d Ha Hd. rewrite (so_tree _ _ _ _ Hs). by apply trie_of_contains. Qed.

(** C9: the experiment's checks never fail.  For index records that begin with
    those of disk block 0, entering them reports no error: every address, all
    its prefixes and all its suffixes are found in the prefix filter, in the
    plain filters and in the tries right after they were entered.  The tries
    then are the truth: they contain a prefix exactly when a record of the
    block has it. *)
Theorem fill_reports_no_error dev s0 rs later :
  init true = Ok s0 -> first_block rs later -> zlen (rs ++ later) < 2 ^ 50 ->
  buffered (pread dev (72 * zlen (rs ++ later)) INDEX_OFFSET) 0 (rs ++ later) ->
  exists s, fill hash_str hash_u64 (72 * zlen (rs ++ later)) s0 dev = Ok s /\
    f_errors s = 0 /\ f_count s = 4 + zlen rs /\
    trie_answers (s_tree (srcs (v4 s))) (src4 rs) /\ trie_answers (s_tree (dsts (v4 s))) (dst4 rs) /\
    trie_answers (s_tree (srcs (v6 s))) (src6 rs) /\ trie_answers (s_tree (dsts (v6 s))) (dst6 rs).
Proof.
  intros E0 Hfb Hl Hbuf. destruct (fill_loaded hash_str hash_u64 dev s0 rs later E0 Hfb Hl Hbuf) as (s & E & Hs).
  exists s. split; [done|]. destruct Hs as [_ _ [A1 A2 _ _] [A3 A4 _ _] He Hc].
  split; [done|]. split; [done|]. eauto 10 using side_trie_answers.
Qed.

(** C10: the filters miss nothing.  After the records of block 0 were entered,
    the query of any prefix length counts all draws, and the prefix filters
    count as true positives exactly the draws with a stored prefix: they have
    no false negatives.  So do the plain filters for prefixes of two bytes or
    more; a prefix of one byte was never entered into them. *)
Theorem queries_miss_nothing dev s0 rs later :
  init true = Ok s0 -> first_block rs later -> zlen (rs ++ later) < 2 ^ 50 ->
  buffered (pread dev (72 * zlen (rs ++ later)) INDEX_OFFSET) 0 (rs ++ later) ->
  exists s, fill hash_str hash_u64 (72 * zlen (rs ++ later)) s0 dev = Ok s /\
    forall start, 0 <= start ->
    (forall p draws, 1 <= p <= 4 -> Forall (is_u 32) draws ->
       exists c, query_ipv4 hash_str hash_u64 s start p draws = Ok c /\
         scored (src4 rs) (dst4 rs) p (take (Z.to_nat (QUERY_TIMES - start)) draws) c) /\
    (forall p draws, 1 <= p <= 16 -> Forall ipv6_wf draws ->
       exists c, query_ipv6 hash_str hash_u64 s start p draws = Ok c /\
         scored (src6 rs) (dst6 rs) p (take (Z.to_nat (QUERY_TIMES - start)) draws) c).
Proof.
  intros E0 Hfb Hl Hbuf. destruct (fill_loaded hash_str hash_u64 dev s0 rs later E0 Hfb Hl Hbuf) as (s & E & Hs).
  exists s. split; [done|]. destruct Hs as [Hf [Hw _ _] H4 H6 _ _]. intros start Hst.
  split; intros p draws Hp Hd; [unfold query_ipv4|unfold query_ipv6]; rewrite Hf.
  - assert (Hn : 0 < IPV4_BIT_LEN / 8 < 2 ^ 61) by (split; reflexivity).
    by apply (query_scored (K := Z) hash_str hash_u64 (IPV4_BIT_LEN / 8) Hn _ Hw _ _ _ H4).
  - assert (Hn : 0 < IPV6_BIT_LEN / 8 < 2 ^ 61) by (split; reflexivity).
    by apply (query_scored (K := IPv6Address) hash_str hash_u64 (IPV6_BIT_LEN / 8) Hn _ Hw _ _ _ H6).
Qed.
End outcome.

(** * One record of the first block and one behind it *)
Module DemoBloomTest.
Import DemoQueryTest.

Lemma demo_first_block : first_block [r1] [r2].
Proof.
  pose proof demo_blocks_ok as (_ & H1 & _). split; [exact H1|]. vm_compute. reflexivity.
Qed.

Lemma fill_reports_no_error_witness : exists s0 s,
  init true = Ok s0 /\ fill demo_hash id 144 s0 demo_device = Ok s /\ f_errors s = 0 /\
  contains_prefix (s_tree (srcs (v4 s))) 0x0A0000FF 3 = Ok true /\
  contains_prefix (s_tree (srcs (v4 s))) 0x0A0000FF 4 = Ok false.
Proof.
  destruct (init_loaded demo_hash id) as (s0 & E0 & _).
  destruct (fill_reports_no_error demo_hash id demo_device s0 [r1] [r2] E0) as (s & Es & He & _ & Ht & _).
  - apply demo_first_block.
  - vm_compute. reflexivity.
  - apply demo_buffered.
  - exists s0, s. split; [exact E0|]. split; [exact Es|]. split; [exact He|].
    split; rewrite Ht by (split; vm_compute; (discriminate || reflexivity)); vm_compute; reflexivity.
Defined.

Lemma queries_miss_nothing_witness : exists s0 s c,
  init true = Ok s0 /\ fill demo_hash id 144 s0 demo_device = Ok s /\
  query_ipv4 demo_hash id s 9998 3 [0x0A0000FF; 5] = Ok c /\
  tp (src_pf c) = 1 /\ fp (src_pf c) + tf (src_pf c) = 1 /\ tp (src_bf c) = 1.
Proof.
  destruct (init_loaded demo_hash id) as (s0 & E0 & _).
  destruct (queries_miss_nothing demo_hash id demo_device s0 [r1] [r2] E0) as (s & Es & Hq).
  - apply demo_first_block.
  - vm_compute. reflexivity.
  - apply demo_buffered.
  - destruct (Hq 9998 ltac:(lia)) as [Hq4 _].
    destruct (Hq4 3 [0x0A0000FF; 5]) as (c & Ec & [[_ T1 H1] _ [_ _ H3] _]).
    + lia.
    + repeat constructor; vm_compute; discriminate.
    + exists s0, s, c. split; [exact E0|]. split; [exact Es|]. split; [exact Ec|].
      specialize (H1 eq_refl). specialize (H3 eq_refl).
      assert (Eh : hits (src4 [r1]) 3 (take (Z.to_nat (QUERY_TIMES - 9998)) [0x0A0000FF; 5]) = 1) by (vm_compute; reflexivity).
      rewrite Eh in H1, H3. change (zlen _) with 2 in T1. lia.
Defined.

(** The loop over the suffixes stops before the last byte, so a prefix of one
    byte is never entered into a plain filter, which then misses it. *)
Lemma one_byte_prefix_missed :
  let a := 0x0A000001 in
  exists f, insert_all DemoBloom.toy_hash (new_BloomFilter 64 4) (le_bytes 4 a :: suffixes (le_bytes 4 a) [1; 2]) = Ok f /\
    contains DemoBloom.toy_hash f (drop 3 (le_bytes 4 a)) = Ok false /\
    contains_prefix (trie_of [a]) a 1 = Ok true.
Proof. eexists. split; [vm_compute; reflexivity|]. split; vm_compute; reflexivity. Qed.
End DemoBloomTest.
