(* ===== verification/Dpdk.v ===== *)
(** * The network device (dpdk_lib/dpdk.hpp, baseline/flosis/lib/dpdk.hpp)

    The class [DPDK]: the list of cores it hands to the environment layer,
    the initialisation of the ports, and receiving.  The functions of DPDK
    are an interface, the class [Dpdk]; the calls made to them are recorded
    in order, each with what it returned.  The calls are then judged by the
    order in which DPDK documents that a port has to be brought up.  Constant
    arguments, like the thresholds of the receive queues and the symbols and
    argument types of a filter program, are left to the interface. *)
From S2P Require Import Prelude.
From stdpp Require Import strings.
From Stdlib Require Import ZArith Lia Ascii String DecimalString DecimalN.
#[local] Open Scope Z_scope.

Definition RX_RING_SIZE : Z := 512.
Definition TX_RING_SIZE : Z := 1024.
Definition NUM_MBUFS : Z := 8191.
Definition MBUF_CACHE_SIZE : Z := 512.
Definition BURST_SIZE : Z := 32.

(** The key that makes both directions of a flow hash alike. *)
Definition symmetric_rss_key : list Z := mjoin (replicate 20 [0x6d; 0x5a]).

(** [rte_eth_conf] as far as it is set. *)
Record EthConf := mkEthConf {
  rx_mode_rss : bool;
  split_hdr_size : Z;
  tx_mode_none : bool;
  rss_key : option (list Z);
  rss_hf : Z }.

(** ** DPDK *)
Class Dpdk := {
  rte_eal_init : list string -> Z;
  rte_socket_id : Z;
  rte_pktmbuf_pool_create : string -> Z -> Z -> Z -> Z -> Z -> Z;
  rte_eth_dev_count_avail : Z;
  rte_eth_dev_info_get : Z -> Z * Z;
  rte_eth_dev_socket_id : Z -> Z;
  rte_eth_dev_configure : Z -> Z -> Z -> EthConf -> Z;
  rte_eth_rx_queue_setup : Z -> Z -> Z -> Z -> Z -> Z;
  rte_eth_tx_queue_setup : Z -> Z -> Z -> Z -> Z;
  rte_eth_dev_start : Z -> Z;
  rte_eth_promiscuous_enable : Z -> Z;
  rte_eth_macaddr_get : Z -> Z * list Z;
  rte_eth_rx_burst : Z -> Z -> Z -> list Z;
  rte_bpf_eth_rx_elf_load : Z -> Z -> string -> string -> Z -> Z;
  RTE_MBUF_DEFAULT_BUF_SIZE : Z;
  RTE_ETH_RSS_IP : Z;
  RTE_ETH_RSS_IPV4 : Z;
  RTE_ETH_RSS_TCP : Z;
  RTE_ETH_RSS_UDP : Z }.

(** The calls, with their results. *)
Inductive Call :=
  | EalInit (args : list string) (ret : Z)
  | CreatePool (pool : Z)
  | CountPorts (n : Z)
  | GetInfo (port ret : Z)
  | Configure (port nb_rx nb_tx : Z) (conf : EthConf) (ret : Z)
  | SetupRx (port queue ret : Z)
  | SetupTx (port queue ret : Z)
  | StartPort (port ret : Z)
  | Promiscuous (port ret : Z)
  | GetMac (port ret : Z)
  | RxBurst (port queue : Z)
  | LoadBpf (port queue : Z)
  | UnloadBpf (port queue : Z)
  | Cleanup.

(** A part of the program that made calls: if it went well the next one goes
    on, else the result is [fail]. *)
Definition go_on {A} (first : list Call * bool) (fail : A) (k : list Call * A) : list Call * A :=
  let '(t, ok) := first in if ok then (t ++ k.1, k.2) else (t, fail).

(** ** The class *)
Record DPDK := mkDPDK {
  nb_ports : Z;
  nb_rx_queue : Z;
  nb_tx_queue : Z;
  mac_vector : list (list Z);
  mbuf_pool : Z;
  cores : string }.

Definition with_ports (d : DPDK) (n : Z) : DPDK :=
  mkDPDK n (nb_rx_queue d) (nb_tx_queue d) (mac_vector d) (mbuf_pool d) (cores d).
Definition with_macs (d : DPDK) (macs : list (list Z)) : DPDK :=
  mkDPDK (nb_ports d) (nb_rx_queue d) (nb_tx_queue d) macs (mbuf_pool d) (cores d).
Definition with_pool (d : DPDK) (pool : Z) : DPDK :=
  mkDPDK (nb_ports d) (nb_rx_queue d) (nb_tx_queue d) (mac_vector d) pool (cores d).

(** [std::to_string]. *)
Definition to_string (n : Z) : string := NilEmpty.string_of_uint (N.to_uint (Z.to_N n)).

(** The loops of the constructor that build the list of cores. *)
Definition bound_cores (ids : list Z) : string := foldl (fun s core => s +:+ "," +:+ to_string core) (to_string 0) ids.
Definition unbound_cores (nb_rx : Z) : string :=
  foldl (fun s i => s +:+ to_string i +:+ (if i =? nb_rx then "" else ",")) ""%string (zseq (nb_rx + 1)).
Definition core_list (bind_core : bool) (nb_rx : Z) (ids : list Z) : string :=
  if bind_core then bound_cores ids else unbound_cores nb_rx.

Section device.
Context `{Dpdk}.

(** The configuration that every port starts from. *)
Definition port_conf : EthConf := mkEthConf true 0 true None 0.

Fixpoint setup_queues (setup : Z -> Z) (call : Z -> Z -> Call) (ids : list Z) : list Call * bool :=
  match ids with
  | [] => ([], true)
  | i :: ids => go_on ([call i (setup i)], negb (setup i <? 0)) false (setup_queues setup call ids)
  end.

Definition dpdkInitPort (conf : EthConf) (d : DPDK) (port_id : Z) : list Call * (bool * DPDK) :=
  if nb_ports d <=? port_id then ([], (false, d)) else
  let '(ret, flow_type_rss_offloads) := rte_eth_dev_info_get port_id in
  go_on ([GetInfo port_id ret], ret =? 0) (false, d) (
  let DESIRED_RSS_HF := Z.lor (Z.lor RTE_ETH_RSS_IPV4 RTE_ETH_RSS_TCP) RTE_ETH_RSS_UDP in
  let valid_rss_hf := Z.land flow_type_rss_offloads DESIRED_RSS_HF in
  let local_port_conf := mkEthConf (rx_mode_rss conf) (split_hdr_size conf) (tx_mode_none conf) (rss_key conf) valid_rss_hf in
  let ret := rte_eth_dev_configure port_id (nb_rx_queue d) (nb_tx_queue d) local_port_conf in
  go_on ([Configure port_id (nb_rx_queue d) (nb_tx_queue d) local_port_conf ret], negb (ret <? 0)) (false, d) (
  go_on (setup_queues (fun i => rte_eth_rx_queue_setup port_id i RX_RING_SIZE (rte_eth_dev_socket_id port_id) (mbuf_pool d))
           (SetupRx port_id) (zseq (nb_rx_queue d))) (false, d) (
  go_on (setup_queues (fun i => rte_eth_tx_queue_setup port_id i TX_RING_SIZE (rte_eth_dev_socket_id port_id))
           (SetupTx port_id) (zseq (nb_tx_queue d))) (false, d) (
  let ret := rte_eth_dev_start port_id in
  go_on ([StartPort port_id ret], negb (ret <? 0)) (false, d) (
  let ret := rte_eth_promiscuous_enable port_id in
  go_on ([Promiscuous port_id ret], negb (ret <? 0)) (false, d) (
  let '(ret, mac) := rte_eth_macaddr_get port_id in
  go_on ([GetMac port_id ret], negb (ret <? 0)) (false, d)
    ([], (true, with_macs d (<[Z.to_nat port_id := mac]> (mac_vector d)))))))))).

(** A failure of the environment layer ends the program ([rte_panic]). *)
Definition dpdkInit (d : DPDK) : res (list Call * (bool * DPDK)) :=
  let args := ["main"; "-l"; cores d]%string in
  let ret := rte_eal_init args in
  if ret <? 0 then Throws else
  let d := with_pool d (rte_pktmbuf_pool_create "mbuf_pool" NUM_MBUFS MBUF_CACHE_SIZE 0 RTE_MBUF_DEFAULT_BUF_SIZE rte_socket_id) in
  Ok (go_on ([EalInit args ret; CreatePool (mbuf_pool d)], negb (mbuf_pool d =? 0)) (false, d) (
      let d := with_ports d (u16 rte_eth_dev_count_avail) in
      ([CountPorts (nb_ports d)], (negb (nb_ports d =? 0), d)))).

(** The loop over the ports: the first failure leaves the object without
    ports. *)
Fixpoint init_ports (conf : EthConf) (d : DPDK) (ids : list Z) : list Call * DPDK :=
  match ids with
  | [] => ([], d)
  | i :: ids =>
      let '(t, (ok, d)) := dpdkInitPort conf d i in
      if ok then let '(t', d) := init_ports conf d ids in (t ++ t', d) else (t, with_ports d 0)
  end.

Definition new_DPDK (conf : EthConf) (nb_rx nb_tx : Z) (bind_core : bool) (ids : list Z) : res (list Call * DPDK) :=
  '(t, (ok, d)) ← dpdkInit (mkDPDK 0 nb_rx nb_tx [] 0 (core_list bind_core nb_rx ids));
  if negb ok then Ok (t, with_ports d 0) else
  let d := with_macs d (replicate (Z.to_nat (nb_ports d)) (replicate 6 0)) in
  let '(t', d) := init_ports conf d (zseq (nb_ports d)) in
  Ok (t ++ t', d).

Definition delete_DPDK (d : DPDK) : list Call := [Cleanup].

Definition getNbPorts (d : DPDK) : Z := nb_ports d.

(** [getRXBurst]: the packets received, [None] for the answer -1. *)
Definition getRXBurst (d : DPDK) (port_id rx_id : Z) : list Call * option (list Z) :=
  if (nb_ports d <=? port_id) || (nb_rx_queue d <=? rx_id) then ([], None)
  else ([RxBurst port_id rx_id], Some (rte_eth_rx_burst port_id rx_id BURST_SIZE)).

(** [flags] is not initialised. *)
Definition loadBPF (flags port_id rx_id : Z) (fname : string) : list Call * Z :=
  ([LoadBpf port_id rx_id], rte_bpf_eth_rx_elf_load port_id rx_id fname ".text" flags).
Definition unloadBPF (port_id rx_id : Z) : list Call := [UnloadBpf port_id rx_id].
End device.

(** The copy of the comparison system configures the symmetric key. *)
Module Flosis.
Section device.
Context `{Dpdk}.
Definition port_conf : EthConf :=
  mkEthConf true 0 true (Some symmetric_rss_key) (Z.lor (Z.lor RTE_ETH_RSS_IP RTE_ETH_RSS_TCP) RTE_ETH_RSS_UDP).
Definition new_DPDK : Z -> Z -> bool -> list Z -> res (list Call * DPDK) := new_DPDK port_conf.
End device.
End Flosis.

(** * Proofs *)

(** ** The order that DPDK asks for *)

(** A port: the numbers of queues it is configured for, the queues that are
    set up, and whether it is started. *)
Record Port := mkPort {
  p_queues : option (Z * Z);
  p_rx : Z -> bool;
  p_tx : Z -> bool;
  p_started : bool }.

Definition down : Port := mkPort None (fun _ => false) (fun _ => false) false.

Record World := mkWorld { w_eal : bool; w_ports : Z -> Port }.
Definition off : World := mkWorld false (fun _ => down).

Definition set_port (w : World) (i : Z) (p : Port) : World :=
  mkWorld (w_eal w) (fun j => if j =? i then p else w_ports w j).
Definition add_queue (f : Z -> bool) (q : Z) : Z -> bool := fun i => (i =? q) || f i.

(** May the call be made in [w]?  Queues are set up after the port was
    configured with them and before it is started; it is started when all
    its queues are set up; packets are received from a queue of a started
    port. *)
Definition allowed (w : World) (c : Call) : bool :=
  match c with
  | EalInit _ _ => negb (w_eal w)
  | CreatePool _ | CountPorts _ | GetInfo _ _ | GetMac _ _ | Cleanup => w_eal w
  | Configure i _ _ _ _ => w_eal w && negb (p_started (w_ports w i))
  | SetupRx i q _ =>
      negb (p_started (w_ports w i)) && match p_queues (w_ports w i) with Some (n, _) => (0 <=? q) && (q <? n) | None => false end
  | SetupTx i q _ =>
      negb (p_started (w_ports w i)) && match p_queues (w_ports w i) with Some (_, m) => (0 <=? q) && (q <? m) | None => false end
  | StartPort i _ =>
      negb (p_started (w_ports w i)) &&
      match p_queues (w_ports w i) with
      | Some (n, m) => forallb (p_rx (w_ports w i)) (zseq n) && forallb (p_tx (w_ports w i)) (zseq m)
      | None => false
      end
  | Promiscuous i _ => bool_decide (is_Some (p_queues (w_ports w i)))
  | RxBurst i q | LoadBpf i q | UnloadBpf i q => p_started (w_ports w i) && p_rx (w_ports w i) q
  end.

(** What a call that succeeded does. *)
Definition after (w : World) (c : Call) : World :=
  match c with
  | EalInit _ ret => mkWorld (0 <=? ret) (w_ports w)
  | Configure i n m _ ret => if ret <? 0 then w else set_port w i (mkPort (Some (n, m)) (fun _ => false) (fun _ => false) false)
  | SetupRx i q ret =>
      let p := w_ports w i in
      if ret <? 0 then w else set_port w i (mkPort (p_queues p) (add_queue (p_rx p) q) (p_tx p) (p_started p))
  | SetupTx i q ret =>
      let p := w_ports w i in
      if ret <? 0 then w else set_port w i (mkPort (p_queues p) (p_rx p) (add_queue (p_tx p) q) (p_started p))
  | StartPort i ret =>
      let p := w_ports w i in
      if ret <? 0 then w else set_port w i (mkPort (p_queues p) (p_rx p) (p_tx p) true)
  | Cleanup => off
  | _ => w
  end.

Fixpoint obey (w : World) (t : list Call) : option World :=
  match t with
  | [] => Some w
  | c :: t => if allowed w c then obey (after w c) t else None
  end.

Lemma obey_app w t t' : obey w (t ++ t') = (w ← obey w t; obey w t').
Proof. revert w. induction t as [|c t IH]; intros w; [done|]. cbn. destruct (allowed w c); [apply IH|done]. Qed.

(** A program part that makes allowed calls from [w] on. *)
Definition brings {A} (w : World) (m : list Call * A) (Q : World -> A -> Prop) : Prop :=
  exists w', obey w m.1 = Some w' /\ Q w' m.2.

Lemma brings_go_on {A} w first (fail : A) k Q :
  brings w first (fun w' ok => if ok : bool then brings w' k Q else Q w' fail) -> brings w (go_on first fail k) Q.
Proof.
  destruct first as [t ok]. intros (w' & E & HQ). unfold brings, go_on. cbn [fst snd] in *. destruct ok.
  - destruct HQ as (w2 & E2 & HQ). exists w2. cbn [fst snd]. by rewrite obey_app, E.
  - by exists w'.
Qed.

Lemma brings_call {A} w c ok (fail : A) k Q : allowed w c = true ->
  (ok = true -> brings (after w c) k Q) -> (ok = false -> Q (after w c) fail) -> brings w (go_on ([c], ok) fail k) Q.
Proof.
  intros Ha Hk Hf. apply brings_go_on. exists (after w c). split; [cbn; by rewrite Ha|]. cbn. destruct ok; auto.
Qed.

Lemma brings_weaken {A} w (m : list Call * A) (Q Q' : World -> A -> Prop) :
  brings w m Q -> (forall w' a, Q w' a -> Q' w' a) -> brings w m Q'.
Proof. intros (w' & E & H) HQ. exists w'. auto. Qed.

(** All but port [i] is as before. *)
Definition same_but (i : Z) (w w' : World) : Prop :=
  w_eal w' = w_eal w /\ forall j, j <> i -> w_ports w' j = w_ports w j.

Lemma same_but_refl i w : same_but i w w.
Proof. done. Qed.
Lemma same_but_trans i a b c : same_but i a b -> same_but i b c -> same_but i a c.
Proof. intros [E1 H1] [E2 H2]. split; [congruence|]. intros j Hj. rewrite H2; auto. Qed.
Lemma same_but_set i w p : same_but i w (set_port w i p).
Proof. split; [done|]. intros j Hj. cbn. by rewrite (proj2 (Z.eqb_neq _ _)). Qed.
Lemma set_port_eq w i p : w_ports (set_port w i p) i = p.
Proof. cbn. by rewrite Z.eqb_refl. Qed.
#[local] Hint Resolve same_but_refl same_but_set : core.

(** Port [i] can be received from. *)
Definition ready (w : World) (i n m : Z) : Prop :=
  p_queues (w_ports w i) = Some (n, m) /\ p_started (w_ports w i) = true /\ forall q, 0 <= q < n -> p_rx (w_ports w i) q = true.

Section bringing_up.
Context `{Dpdk}.

(** A configured port: [f] are the queues set up in the direction [rx], [g]
    those in the other. *)
Definition partly (rx : bool) (n m : Z) (f g : Z -> bool) : Port :=
  mkPort (Some (n, m)) (if rx then f else g) (if rx then g else f) false.

(** The loops over the queues. *)
Lemma queues_spec (rx : bool) setup i n m g : forall ids w f, w_ports w i = partly rx n m f g ->
  Forall (fun q => 0 <= q < if rx then n else m) ids ->
  brings w (setup_queues setup (if rx then SetupRx i else SetupTx i) ids) (fun w' ok => same_but i w w' /\
    (ok = true -> exists f', w_ports w' i = partly rx n m f' g /\ (forall q, f q = true \/ q ∈ ids -> f' q = true))).
Proof.
  induction ids as [|q ids IH]; intros w f Hw Hids; cbn [setup_queues].
  { exists w. split; [done|]. split; [done|]. intros _. exists f. split; [done|]. intros q [?|Hq%elem_of_nil]; done. }
  apply Forall_cons in Hids as [Hq Hids]. apply brings_call.
  - destruct rx; cbn [allowed]; rewrite Hw; cbn; by rewrite (proj2 (Z.leb_le _ _)), (proj2 (Z.ltb_lt _ _)) by lia.
  - intros Hok%negb_true_iff.
    assert (E : after w ((if rx then SetupRx i else SetupTx i) q (setup q)) = set_port w i (partly rx n m (add_queue f q) g)).
    { destruct rx; cbn [after]; by rewrite Hok, Hw. }
    rewrite E. eapply brings_weaken; [apply (IH _ (add_queue f q)); [by apply set_port_eq|done]|].
    cbn beta. intros w' ok [Hs Hr]. split; [by eapply same_but_trans; first apply same_but_set|]. intros Hok2.
    destruct (Hr Hok2) as (f' & Hw' & Hin). exists f'. split; [done|]. intros r Hr'. apply Hin. unfold add_queue.
    destruct Hr' as [Hr'|[->|?]%elem_of_cons]; [left; by rewrite Hr', orb_true_r|left; by rewrite Z.eqb_refl|by right].
  - intros Hok%negb_false_iff. split; [|done]. destruct rx; cbn [after]; by rewrite Hok.
Qed.

Lemma zseq_range n : Forall (fun q => 0 <= q < n) (zseq n).
Proof. apply Forall_forall. by intros q Hq%elem_of_zseq. Qed.

(** One port is brought up, or the initialisation says that it is not. *)
Lemma init_port_spec conf d i w : w_eal w = true -> p_started (w_ports w i) = false ->
  brings w (dpdkInitPort conf d i) (fun w' r => same_but i w w' /\
    nb_ports r.2 = nb_ports d /\ nb_rx_queue r.2 = nb_rx_queue d /\ nb_tx_queue r.2 = nb_tx_queue d /\
    (r.1 = true -> ready w' i (nb_rx_queue d) (nb_tx_queue d))).
Proof.
  intros He Hs. unfold dpdkInitPort. destruct (nb_ports d <=? i); [by exists w|].
  destruct (rte_eth_dev_info_get i) as [ret offloads]. apply brings_call; [done| |done]. intros _. cbn [after].
  apply brings_call; [cbn; by rewrite He, Hs| |intros E%negb_false_iff; cbn [after]; by rewrite E]. intros E%negb_true_iff.
  cbn [after]. rewrite E. set (w1 := set_port w i _).
  assert (H1 : w_ports w1 i = partly true (nb_rx_queue d) (nb_tx_queue d) (fun _ => false) (fun _ => false)) by apply set_port_eq.
  assert (Hb1 : same_but i w w1) by apply same_but_set. clearbody w1.
  apply brings_go_on. eapply brings_weaken; [by apply (queues_spec true _ _ _ _ _ _ _ _ H1), zseq_range|]. cbn beta. intros w2 ok [Hb2 Hr].
  assert (Hb : same_but i w w2) by (by eapply same_but_trans). destruct ok; [|done].
  destruct (Hr eq_refl) as (rx & H2 & Hrx). clear Hr.
  apply brings_go_on. eapply brings_weaken; [by apply (queues_spec false _ _ _ _ _ _ _ _ H2), zseq_range|]. cbn beta. intros w3 ok [Hb3 Hr].
  assert (Hb' : same_but i w w3) by (by eapply same_but_trans). destruct ok; [|done].
  destruct (Hr eq_refl) as (tx & H3 & Htx). clear Hr.
  assert (Hq : forall n (f : Z -> bool), (forall q, false = true \/ q ∈ zseq n -> f q = true) -> forallb f (zseq n) = true).
  { intros n f Hf. apply forallb_forall. intros q Hq. apply Hf. right. by apply list_elem_of_In. }
  apply brings_call; [cbn [allowed]; rewrite H3; cbn; by rewrite !Hq| |intros E2%negb_false_iff; cbn [after]; by rewrite E2].
  intros E2%negb_true_iff. cbn [after]. rewrite E2, H3. cbn [p_queues p_rx p_tx].
  set (w4 := set_port w3 i _). assert (H4 : ready w4 i (nb_rx_queue d) (nb_tx_queue d)).
  { unfold ready, w4. rewrite set_port_eq. cbn. split_and!; try done. intros q Hq'. apply Hrx. right. by apply elem_of_zseq. }
  assert (Hb4 : same_but i w w4) by (eapply same_but_trans; [done|apply same_but_set]). clearbody w4.
  apply brings_call; [|intros _|done].
  { cbn [allowed]. apply bool_decide_eq_true. destruct H4 as (-> & _). by eexists. }
  cbn [after]. destruct (rte_eth_macaddr_get i) as [ret3 mac]. apply brings_call; [|intros _|done].
  { cbn. destruct Hb4. congruence. }
  exists w4. split; [done|]. by cbn.
Qed.

Lemma ready_same i w w' j n m : same_but i w w' -> j <> i -> ready w j n m -> ready w' j n m.
Proof. intros [_ Hs] Hj. unfold ready. by rewrite Hs. Qed.

(** The ports before [a] are ready, those from [a] on not started. *)
Definition up_to (w : World) (a n m : Z) : Prop :=
  w_eal w = true /\ (forall j, 0 <= j < a -> ready w j n m) /\ (forall j, a <= j -> p_started (w_ports w j) = false).

Lemma init_ports_spec conf n m k : forall a d w, nb_rx_queue d = n -> nb_tx_queue d = m ->
  up_to w (Z.of_nat a) n m ->
  brings w (init_ports conf d (Z.of_nat <$> seq a k)) (fun w' d' => nb_rx_queue d' = n /\
    (nb_ports d' = 0 \/ nb_ports d' = nb_ports d /\ forall j, 0 <= j < Z.of_nat (a + k) -> ready w' j n m)).
Proof.
  induction k as [|k IH]; intros a d w <- <- (He & Hr & Hd); cbn [seq fmap list_fmap init_ports].
  { exists w. split; [done|]. split; [done|]. right. split; [done|]. intros j Hj. apply Hr. lia. }
  destruct (init_port_spec conf d (Z.of_nat a) w He (Hd _ (Z.le_refl _))) as (w1 & E1 & Hb & Hn & Hrx & Htx & Hrdy).
  destruct (dpdkInitPort conf d (Z.of_nat a)) as [t [ok d1]]. cbn [fst snd] in *. destruct ok.
  - specialize (Hrdy eq_refl). destruct (IH (S a) d1 w1 Hrx Htx) as (w2 & E2 & H2).
    { pose proof Hb as [Hbe Hbo]. split; [congruence|]. split.
      - intros j Hj. destruct (decide (j = Z.of_nat a)) as [->|]; [done|]. apply (ready_same (Z.of_nat a) w); [done|done|]. apply Hr. lia.
      - intros j Hj. rewrite Hbo by lia. apply Hd. lia. }
    destruct (init_ports conf d1 (Z.of_nat <$> seq (S a) k)) as [t' d2]. cbn [fst snd] in *.
    exists w2. cbn [fst snd]. rewrite obey_app, E1. split; [done|]. destruct H2 as [? [?|[H2 H3]]]; (split; [done|]); [by left|right].
    split; [congruence|]. intros j Hj. apply H3. lia.
  - exists w1. split; [done|]. split; [done|]. by left.
Qed.

(** Every function of DPDK succeeds. *)
Record works : Prop := {
  wk_eal : forall args, 0 <= rte_eal_init args;
  wk_pool : forall s a b c d e, rte_pktmbuf_pool_create s a b c d e <> 0;
  wk_info : forall i, (rte_eth_dev_info_get i).1 = 0;
  wk_configure : forall i n m conf, 0 <= rte_eth_dev_configure i n m conf;
  wk_rx : forall i q a b c, 0 <= rte_eth_rx_queue_setup i q a b c;
  wk_tx : forall i q a b, 0 <= rte_eth_tx_queue_setup i q a b;
  wk_start : forall i, 0 <= i -> 0 <= rte_eth_dev_start i;
  wk_promiscuous : forall i, 0 <= rte_eth_promiscuous_enable i;
  wk_mac : forall i, 0 <= (rte_eth_macaddr_get i).1 }.

Lemma go_on_true {A} (first : list Call * bool) (fail : A) k : first.2 = true -> (go_on first fail k).2 = k.2.
Proof. destruct first as [t ok]. by intros [= ->]. Qed.

Lemma setup_queues_ok setup call ids : (forall q, 0 <= setup q) -> (setup_queues setup call ids).2 = true.
Proof.
  intros Hs. induction ids as [|q ids IH]; [done|]. cbn [setup_queues]. rewrite go_on_true; [done|]. cbn. specialize (Hs q). zlia.
Qed.

Lemma init_port_works conf d i : works -> 0 <= i < nb_ports d ->
  (dpdkInitPort conf d i).2.1 = true /\ nb_ports (dpdkInitPort conf d i).2.2 = nb_ports d.
Proof.
  intros [] Hi. unfold dpdkInitPort. rewrite (proj2 (Z.leb_gt _ _)) by lia. specialize (wk_info0 i). specialize (wk_mac0 i). specialize (wk_start0 i ltac:(lia)).
  destruct (rte_eth_dev_info_get i) as [ret offloads], (rte_eth_macaddr_get i) as [ret3 mac]. cbn [fst] in *. subst ret.
  assert (Hnn : forall x, 0 <= x -> negb (x <? 0) = true) by (intros; zlia).
  repeat (rewrite go_on_true; [|first [done | by apply setup_queues_ok | by apply Hnn]]). done.
Qed.

Lemma init_ports_works conf ids : works -> forall d, Forall (fun i => 0 <= i < nb_ports d) ids ->
  nb_ports (init_ports conf d ids).2 = nb_ports d.
Proof.
  intros Hw. induction ids as [|i ids IH]; intros d Hids; [done|]. apply Forall_cons in Hids as [Hi Hids]. cbn [init_ports].
  destruct (init_port_works conf d i Hw Hi) as [Hok Hn]. destruct (dpdkInitPort conf d i) as [t [ok d1]]. cbn [fst snd] in *. subst ok.
  specialize (IH d1). rewrite Hn in IH. specialize (IH Hids). by destruct (init_ports conf d1 ids).
Qed.

(** C25: the device is brought up in the order that DPDK asks for, whatever
    its functions answer: the environment layer first, then per port the
    configuration, all its queues, the start.  Afterwards either the object has
    no ports and refuses every request for packets, or every port it counts is
    started with all receive queues set up; a request for packets is made to
    DPDK only for such a queue.  The program ends only when the environment
    layer cannot be initialised, and when every function succeeds the object
    has all ports. *)
Theorem device_brought_up_in_order conf nb_rx nb_tx bind_core ids : 
  match new_DPDK conf nb_rx nb_tx bind_core ids with
  | Ok (t, d) => exists w, obey off t = Some w /\
      (forall i, 0 <= i < nb_ports d -> ready w i nb_rx nb_tx) /\
      (forall port queue, 0 <= port -> 0 <= queue ->
         if (port <? nb_ports d) && (queue <? nb_rx)
         then obey w (getRXBurst d port queue).1 = Some w
         else getRXBurst d port queue = ([], None)) /\
      (works -> nb_ports d = u16 rte_eth_dev_count_avail)
  | Throws => rte_eal_init ["main"; "-l"; core_list bind_core nb_rx ids]%string < 0
  | _ => False
  end.
Proof.
  assert (Hburst : forall w d, nb_rx_queue d = nb_rx -> (forall i, 0 <= i < nb_ports d -> ready w i nb_rx nb_tx) ->
    forall port queue, 0 <= port -> 0 <= queue -> if (port <? nb_ports d) && (queue <? nb_rx)
         then obey w (getRXBurst d port queue).1 = Some w else getRXBurst d port queue = ([], None)).
  { intros w d Hn Hr port queue Hp Hq. unfold getRXBurst. rewrite Hn, !Z.leb_antisym, <-negb_andb.
    destruct (_ && _) eqn:E; [|done]. cbn. zbool. destruct (Hr port ltac:(lia)) as (_ & -> & Hrx). rewrite Hrx by lia. done. }
  unfold new_DPDK, dpdkInit. cbn [cores]. destruct (rte_eal_init _ <? 0) eqn:Eeal; cbn [mbind res_bind]; [zlia|].
  set (pool := rte_pktmbuf_pool_create _ _ _ _ _ _). set (w1 := mkWorld true (fun _ => down)).
  assert (Hoff : forall t ret, 0 <= ret -> forall a, obey off (EalInit a ret :: CreatePool pool :: t) = obey w1 t).
  { intros t ret Hret a. cbn. rewrite (proj2 (Z.leb_le 0 ret)) by lia. done. }
  unfold go_on. cbn [mbuf_pool with_pool]. destruct (pool =? 0) eqn:Ep; cbn [negb].
  { exists w1. split; [rewrite Hoff; [done|zlia]|]. split; [cbn; lia|].
    split; [apply Hburst; [done|cbn; lia]|]. intros Hw. zbool. by apply (wk_pool Hw) in Ep. }
  cbn [fst snd app with_ports nb_ports with_pool]. set (n := u16 rte_eth_dev_count_avail).
  destruct (n =? 0) eqn:En; cbn [negb].
  { exists w1. zbool. split; [rewrite Hoff; [done|zlia]|]. split; [cbn; lia|].
    split; [apply Hburst; [done|cbn; lia]|]. by intros _. }
  set (d := with_macs _ _). change (nb_ports d) with n. destruct (init_ports_spec conf nb_rx nb_tx (Z.to_nat n) 0 d w1 eq_refl eq_refl) as (w & E & Hn & Hr).
  { split; [done|]. split; [intros; lia|done]. }
  fold (zseq n) in E, Hn, Hr. destruct (init_ports conf d (zseq n)) as [t d'] eqn:Ei. cbn [fst snd] in *.
  assert (Hready : forall i, 0 <= i < nb_ports d' -> ready w i nb_rx nb_tx).
  { intros i Hi. destruct Hr as [Hr|[Hr1 Hr2]]; [lia|]. apply Hr2. rewrite Hr1 in Hi. cbn in Hi. lia. }
  exists w. split; [rewrite Hoff by zlia; cbn; exact E|]. split; [done|]. split; [by apply Hburst|]. intros Hw.
  pose proof (init_ports_works conf (zseq n) Hw d) as Hp. rewrite Ei in Hp. apply Hp. eapply Forall_impl; [apply zseq_range|]. cbn. lia.
Qed.
End bringing_up.

(** ** The list of cores can be read back *)

(** The parts between the commas; [cur] is the part read so far. *)
Fixpoint parts (cur s : string) : list string :=
  match s with
  | EmptyString => [cur]
  | String c s => if Ascii.eqb c "," then cur :: parts "" s else parts (cur +:+ String c "") s
  end.

Definition read_core (s : string) : Z :=
  match NilEmpty.uint_of_string s with Some d => Z.of_N (N.of_uint d) | None => -1 end.
Definition read_cores (s : string) : list Z := read_core <$> parts "" s.

Fixpoint no_comma (s : string) : bool :=
  match s with EmptyString => true | String c s => negb (Ascii.eqb c ",") && no_comma s end.

Lemma read_to_string n : 0 <= n -> read_core (to_string n) = n.
Proof. intros Hn. unfold read_core, to_string. rewrite NilEmpty.usu, DecimalN.Unsigned.of_to. lia. Qed.

Lemma to_string_no_comma n : no_comma (to_string n) = true.
Proof. unfold to_string. by induction (N.to_uint (Z.to_N n)). Qed.

Lemma string_app_empty (s : string) : s +:+ "" = s.
Proof. induction s as [|c s IH]; [done|]. change (String c (s +:+ "") = String c s). by rewrite IH. Qed.
Lemma string_app_app (a b c : string) : (a +:+ b) +:+ c = a +:+ (b +:+ c).
Proof. induction a as [|x a IH]; [done|]. change (String x ((a +:+ b) +:+ c) = String x (a +:+ (b +:+ c))). by rewrite IH. Qed.

Lemma parts_last x : forall cur, no_comma x = true -> parts cur x = [cur +:+ x].
Proof.
  induction x as [|c x IH]; intros cur Hx; cbn [parts]; [by rewrite string_app_empty|]. cbn [no_comma] in Hx.
  apply andb_true_iff in Hx as [->%negb_true_iff Hx]. by rewrite IH, string_app_app.
Qed.
Lemma parts_comma x rest : forall cur, no_comma x = true -> parts cur (x +:+ "," +:+ rest) = (cur +:+ x) :: parts "" rest.
Proof.
  induction x as [|c x IH]; intros cur Hx; [by rewrite string_app_empty|]. cbn [no_comma] in Hx.
  apply andb_true_iff in Hx as [Hc%negb_true_iff Hx]. change (String c x +:+ "," +:+ rest) with (String c (x +:+ "," +:+ rest)).
  cbn [parts]. by rewrite Hc, IH, string_app_app.
Qed.

(** A number, a comma, and what follows. *)
Lemma read_more n rest : 0 <= n -> read_cores (to_string n +:+ "," +:+ rest) = n :: read_cores rest.
Proof. intros Hn. unfold read_cores. rewrite parts_comma by apply to_string_no_comma. rewrite fmap_cons. change ("" +:+ to_string n) with (to_string n). by rewrite read_to_string. Qed.
Lemma read_one n : 0 <= n -> read_cores (to_string n) = [n].
Proof. intros Hn. unfold read_cores. rewrite parts_last by apply to_string_no_comma. change ("" +:+ to_string n) with (to_string n). cbn [fmap list_fmap]. by rewrite read_to_string. Qed.

(** The loops append on the right; the strings from the left. *)
Fixpoint commas_before (ids : list Z) : string :=
  match ids with [] => "" | i :: ids => "," +:+ to_string i +:+ commas_before ids end.
Fixpoint commas_after (ids : list Z) (last : string) : string :=
  match ids with [] => last | i :: ids => to_string i +:+ "," +:+ commas_after ids last end.

Lemma bound_cores_eq ids : forall s, foldl (fun s core => s +:+ "," +:+ to_string core) s ids = s +:+ commas_before ids.
Proof.
  induction ids as [|i ids IH]; intros s; cbn [foldl commas_before]; [by rewrite string_app_empty|]. by rewrite IH, !string_app_app.
Qed.

Lemma read_before ids : forall n, 0 <= n -> Forall (fun i => 0 <= i) ids -> read_cores (to_string n +:+ commas_before ids) = n :: ids.
Proof.
  induction ids as [|i ids IH]; intros n Hn Hids; cbn [commas_before]; [by rewrite string_app_empty, read_one|].
  apply Forall_cons in Hids as [Hi Hids]. by rewrite read_more, IH.
Qed.

Lemma unbound_cores_eq n ids : forall s, Forall (fun i => i <> n) ids ->
  foldl (fun s i => s +:+ to_string i +:+ (if i =? n then "" else ",")) s (ids ++ [n]) = s +:+ commas_after ids (to_string n).
Proof.
  induction ids as [|i ids IH]; intros s Hids; cbn [app foldl commas_after].
  - by rewrite Z.eqb_refl, string_app_empty.
  - apply Forall_cons in Hids as [Hi Hids]. rewrite (proj2 (Z.eqb_neq _ _)) by done. by rewrite IH, !string_app_app.
Qed.

Lemma read_after n ids : 0 <= n -> Forall (fun i => 0 <= i) ids -> read_cores (commas_after ids (to_string n)) = ids ++ [n].
Proof.
  intros Hn. induction 1 as [|i ids Hi _ IH]; cbn [commas_after app]; [by apply read_one|]. by rewrite read_more, IH.
Qed.

(** The list of cores that the environment layer gets names the cores that
    are meant: core 0 for the main thread and then the configured cores, or,
    when threads are not bound, core 0 and one more per receive queue. *)
Theorem core_list_read bind_core nb_rx ids : 0 <= nb_rx -> Forall (fun i => 0 <= i) ids ->
  read_cores (core_list bind_core nb_rx ids) = if bind_core then 0 :: ids else zseq (nb_rx + 1).
Proof.
  intros Hn Hids. unfold core_list. destruct bind_core.
  - unfold bound_cores. rewrite bound_cores_eq. by apply read_before.
  - unfold unbound_cores. assert (E : zseq (nb_rx + 1) = zseq nb_rx ++ [nb_rx]).
    { unfold zseq. rewrite Z2Nat.inj_add, Nat.add_1_r, seq_S, fmap_app by lia. cbn. by rewrite Z2Nat.id. }
    rewrite E, unbound_cores_eq.
    + change ("" +:+ ?s) with s. apply read_after; [done|]. eapply Forall_impl; [apply zseq_range|]. cbn. lia.
    + eapply Forall_impl; [apply zseq_range|]. cbn. lia.
Qed.

(** * A device with two ports *)
Module DemoDpdk.
(** [bad] is a port that cannot be started. *)
Definition demo_dpdk (bad : Z) : Dpdk := {|
  rte_eal_init := fun _ => 0;
  rte_socket_id := 0;
  rte_pktmbuf_pool_create := fun _ _ _ _ _ _ => 4096;
  rte_eth_dev_count_avail := 2;
  rte_eth_dev_info_get := fun _ => (0, 0xffff);
  rte_eth_dev_socket_id := fun _ => 0;
  rte_eth_dev_configure := fun _ _ _ _ => 0;
  rte_eth_rx_queue_setup := fun _ _ _ _ _ => 0;
  rte_eth_tx_queue_setup := fun _ _ _ _ => 0;
  rte_eth_dev_start := fun i => if i =? bad then -1 else 0;
  rte_eth_promiscuous_enable := fun _ => 0;
  rte_eth_macaddr_get := fun _ => (0, [2; 0; 0; 0; 0; 1]);
  rte_eth_rx_burst := fun _ _ _ => [];
  rte_bpf_eth_rx_elf_load := fun _ _ _ _ _ => 0;
  RTE_MBUF_DEFAULT_BUF_SIZE := 2176;
  RTE_ETH_RSS_IP := 0xa38c; RTE_ETH_RSS_IPV4 := 4; RTE_ETH_RSS_TCP := 0x420; RTE_ETH_RSS_UDP := 0x840 |}.

Lemma demo_works : works (H := demo_dpdk (-1)).
Proof.
  split; intros; try (vm_compute; discriminate); [reflexivity|]. cbn. rewrite (proj2 (Z.eqb_neq _ _)); lia.
Qed.

(** A working device has its two ports; one whose second port fails none. *)
Lemma device_brought_up_in_order_witness : (exists t d, new_DPDK (H := demo_dpdk (-1)) port_conf 2 1 true [4; 6] = Ok (t, d) /\ nb_ports d = 2) /\
  exists t d w, new_DPDK (H := demo_dpdk 1) port_conf 2 1 true [4; 6] = Ok (t, d) /\
  obey off t = Some w /\ nb_ports d = 0 /\ getRXBurst (H := demo_dpdk 1) d 0 0 = ([], None).
Proof.
  split.
  { pose proof (device_brought_up_in_order (H := demo_dpdk (-1)) port_conf 2 1 true [4; 6]) as Ht.
    destruct (new_DPDK (H := demo_dpdk (-1)) port_conf 2 1 true [4; 6]) as [[t d]| | |] eqn:E; [|by vm_compute in E..].
    destruct Ht as (w & _ & _ & _ & Hp). exists t, d. split; [reflexivity|]. exact (Hp demo_works). }
  pose proof (device_brought_up_in_order (H := demo_dpdk 1) port_conf 2 1 true [4; 6]) as Ht.
  destruct (new_DPDK (H := demo_dpdk 1) port_conf 2 1 true [4; 6]) as [[t d]| | |] eqn:E; [|by vm_compute in E..].
  destruct Ht as (w & Ew & _ & Hb & _). exists t, d, w. split; [reflexivity|]. split; [exact Ew|].
  vm_compute in E. injection E as <- <-. split; [reflexivity|]. exact (Hb 0 0 ltac:(lia) ltac:(lia)).
Defined.

Lemma core_list_read_witness : read_cores (core_list true 2 [4; 6]) = [0; 4; 6] /\ core_list true 2 [4; 6] = "0,4,6"%string.
Proof. split; [apply (core_list_read true 2 [4; 6]); [lia|repeat constructor; lia]|vm_compute; reflexivity]. Defined.

(** When a port fails the ports before it stay started, but the object counts
    none. *)
Lemma failed_port_leaves_others_running : exists t d w, new_DPDK (H := demo_dpdk 1) port_conf 2 1 true [4; 6] = Ok (t, d) /\
  nb_ports d = 0 /\ obey off t = Some w /\ p_started (w_ports w 0) = true.
Proof. eexists _, _, _. split; [vm_compute; reflexivity|]. split; [reflexivity|]. split; [cbn; reflexivity|]. reflexivity. Qed.
End DemoDpdk.
